(* ===== verification/_CoqProject ===== *)
-Q . S2P
Prelude.v
QrField.v
QrEncode.v
QrMatrix.v
QrCode.v
JsMap.v
JsString.v
JsNumber.v
BridgeToken.v
BridgeStore.v
BridgeLimiter.v
BridgeServer.v
BridgeWorkers.v
MessageQueue.v
Orchestrator.v
ProxyRules.v
ProxyState.v
ProxyServer.v
PortRegistry.v
AgentCli.v
JsParse.v
HostFs.v
AgentSessions.v
Threads.v
Jobs.v
Containers.v
AgentPool.v
PoolInvariant.v
PoolRuns.v
GmailFilter.v
Profiles.v
Identity.v
IdentityOps.v
ChannelCommands.v
Json.v
JsonText.v
CredentialSchema.v
Vault.v
AuthState.v
ChannelServer.v
CostLog.v
McpTools.v
Scoring.v
MemoryDb.v
MemoryInv.v
MemoryOps.v
Consolidation.v
ConsolidationRuns.v
Reflection.v
MemoryRuns.v
Memory.v
MessageRouter.v
ChannelInbound.v
MemoryContext.v
Skills.v
SkillOps.v
SkillText.v
Registry.v
McpServer.v
McpRuns.v
McpScope.v
McpLines.v
Command.v
Telegram.v
WhatsApp.v
GmailClient.v
GmailTransport.v
GmailAdapter.v
ImapClient.v
HostOs.v
Cli.v
ChannelSetup.v
UserManager.v
UserRuns.v
AdminLimits.v
AdminCli.v
IdentityCli.v
SkillCli.v
