(* ===== verification/Prelude.v ===== *)
(** * A verification library for FlowHelm

    FlowHelm runs personal AI agents: messages of a chat are queued, an orchestrator
    hands them to an agent in a container of that chat, a proxy adds the credentials
    the agent never sees, and a small bridge carries a user's credentials from the
    browser to the installation.  Channel containers bring the messages of Telegram,
    WhatsApp and Gmail in and the replies out; memories of the chats are consolidated,
    reflected on and found again; an administrator sets users up on the host.  The
    library models the TypeScript under [src/] and [services/] and proves what makes its
    parts correct.

    ** The parts and their files

    Shared by all: this file (results of calls that may throw, [result]; tactics; generic
    lemmas), [JsMap.v] (an insertion-ordered [Map], strings, JSON values), [JsString.v]
    (prefixes, [includes], [split], [slice], the pieces of a long message), [JsNumber.v]
    (doubles, [toFixed], dates), [JsParse.v] (numbers read from
    texts), [Json.v] and [JsonText.v] (JSON values printed, with indentation and without,
    and parsed), [HostFs.v] (paths and files), [Threads.v] (asynchronous functions as
    resumptions over a shared state, with a rely-guarantee rule for their interleavings),
    [Jobs.v] (long jobs in whose pauses other parts act), [Command.v] and [HostOs.v] (a
    state and error monad for commands; the host's users, files and programs).

    - QR codes, [services/auth-bridge/qr.ts]: [QrField.v] the field of 256 elements and
      Reed-Solomon, [QrEncode.v] bit stream, padding and blocks, [QrMatrix.v] matrices,
      the patterns and the zigzag, [QrCode.v] masks, format information,
      penalties, rendering and a reference reader.  The workers' qr.ts is the same text
      but for one export line.
    - The auth bridge, [services/auth-bridge/]: [BridgeToken.v] token.ts,
      [BridgeStore.v] store.ts, [BridgeLimiter.v] rate-limit.ts, [BridgeServer.v]
      server.ts as a step function over requests, bodies and timers.
    - The bridge on Workers, [services/auth-bridge-workers/src/]: [BridgeWorkers.v],
      handlers as trees of effects over an eventually consistent key-value namespace, and
      the routes.
    - The queue and the orchestrator, [src/orchestrator/]: [MessageQueue.v]
      message-queue.ts, each SQL statement a function on the rows; [Orchestrator.v]
      orchestrator.ts, the pieces between awaits as events of a step function, and in its
      Module [Health] health.ts; [MessageRouter.v] message-router.ts, replies and the facts
      of tool calls.
    - The proxy, [src/proxy/]: [ProxyRules.v] credential-schema.ts, placeholders.ts and
      the request rules of mitm-handler.ts; [ProxyState.v] rate-limiter.ts,
      key-rotator.ts, cert-cache.ts, metrics.ts, a Module each; [ProxyServer.v] the
      decisions of proxy-server.ts and mitm-handler.ts, audit and reload of main.ts;
      [CostLog.v] cost-log.ts.
    - Credentials: [CredentialSchema.v] the schema of credential-schema.ts; [Vault.v]
      credential-store.ts, every method a thread over the vault's two files;
      [AuthState.v] the session of WhatsApp in the vault (auth-state.ts);
      [ChannelSetup.v] [flowhelm setup telegram] and [gmail] of [src/admin/cli.ts], and
      what the container reads (credential-reader.ts).
    - Channels, [src/channels/]: [ChannelServer.v] the two sides of the container's
      HTTP interface; [ChannelInbound.v] channel-db.ts and main.ts;
      [Telegram.v], [WhatsApp.v] the adapters.
    - Gmail, [src/channels/gmail/]: [GmailFilter.v] filter.ts; [GmailClient.v] mails as
      the API has them, base64url and the text of a mail to send (gmail-client.ts);
      [GmailTransport.v] the requests, the watch and its timers, the daemon that pulls
      notifications and the delivery (gmail-client.ts, watch.ts, pubsub-pull.ts,
      transport.ts), threads over one mailbox; [GmailAdapter.v] adapter.ts;
      [ImapClient.v] imap-client.ts, a step function over sockets and timers, and the
      dialogue of SMTP.
    - The agent runtime, [src/agent/]: [AgentCli.v] the commands and the parsing of
      their output (cli-runtime.ts, sdk-runtime.ts, cli-response.ts, mcp-config.ts,
      system-prompt.ts); [AgentSessions.v] session-manager.ts; [AgentPool.v] the
      methods of warm-container-runtime.ts, [PoolInvariant.v] what each of their steps
      keeps, [PoolRuns.v] what follows for every interleaving.
    - Containers, [src/container/]: [Containers.v] the arguments of podman-runtime.ts,
      resource-limits.ts and lifecycle.ts over the class [ContainerRuntime], whose laws
      the pool's theorems use and a simulated engine discharges.
    - Profiles, identity and commands, [src/orchestrator/]: [Profiles.v]
      profile-manager.ts; [Identity.v] identity.ts on the same tables and the XML
      context, [IdentityOps.v] its runs interleaved with those of the profiles;
      [ChannelCommands.v] channel-commands.ts on top of both.
    - Memory, [src/orchestrator/]: [Scoring.v] scoring.ts; [MemoryDb.v] the tables with
      their keys and cascades (database.ts, memory.ts), [MemoryInv.v] what their
      operations keep, [MemoryOps.v] their behaviour; [Consolidation.v] and
      [ConsolidationRuns.v] consolidation.ts; [Reflection.v] and [MemoryRuns.v]
      reflection.ts; [Memory.v] the retrievals of memory.ts; [MemoryContext.v]
      [buildAgentContext].
    - The MCP server, [src/orchestrator/mcp-server.ts]: [McpTools.v] the schemas of the
      tools, [McpServer.v] lines, dispatch and tools, [McpRuns.v] what the schemas promise,
      [McpScope.v] which profile a request sees and changes, [McpLines.v] framing and errors.
    - Skills, [src/skills/] and the skill schemas of [src/config/schema.ts]: [Skills.v]
      the parser of SKILL.md, the store and its manifest; [SkillOps.v] runs of
      installations and removals; [SkillText.v] the front matter read back;
      [Registry.v] registry.ts.
    - Administration, [src/admin/]: [PortRegistry.v] port-registry.ts; [UserManager.v]
      user-manager.ts and service-generator.ts, [UserRuns.v] their runs; [AdminLimits.v]
      resource-limits.ts; of cli.ts, [Cli.v] the flags, [AdminCli.v] the commands of the
      administrator, [IdentityCli.v] and [SkillCli.v] those of a user.

    Calls go from the clients to what they call, which stands before them in
    [_CoqProject]: the bridge's server to the store, the limiter and the QR codes; the
    orchestrator to the queue; the proxy server to the rules and the state; the pool to
    the sessions, the commands, the containers and the placeholders of the proxy; the
    commands of a channel and of the command line to the identity and profile managers;
    the jobs, the router and the MCP server to the tables of the memory; the MCP server to
    identities, profiles, skills and the registry; the client of a channel container to
    its server; the adapter of Gmail to the filter, the mails and the state of the
    transport; the session of WhatsApp and the set-up of the channels to the vault, and
    the vault to the schema and to JSON; the commands of the administrator to the user
    manager and that to the ports and the host.

    ** What is shown

    - Round trips: a rendered QR code is read back; encoded data decode; the command
      line of an agent reads back as its task; session files survive a container; JSON
      is parsed as it was printed and the file of the credentials as it was saved; the
      fields of a channel command, the XML context, the agent's context and the front
      matter of a skill read back as what they were built from; the lines of a connection
      arrive however they are cut between characters, and so do IMAP's; a mail that is sent
      decodes to its headers and body; a removal undoes an installation or the
      addition of a user.
    - Invariants and safety over all interleavings: a message is in the hands of one
      worker; a queued message is stored; tasks stay in the containers of their chat; warm
      containers are watched; a bridge session is relayed unchanged, also by the
      worker whose reads may be stale, and its capacity holds; blocks of ports do not overlap; tables keep their keys and references under
      every operation, job and request; a request sees and changes its own profile; what
      an installed skill requires is installed; a mail is not delivered twice, and what a
      page of the history lists is delivered or reported.
    - Liveness and termination: no message is stranded without the concurrency limit; a
      consolidation covers the sessions it selects; the tracing of memories visits every
      source once; the token loop ends.
    - Refinements and equivalences: the vault's methods, called one after the other, keep
      one set of rules in its files; the session of WhatsApp is a map of keys; the session
      stores implement a map of live sessions; the client of a channel container and its
      server are the adapter; the contradiction cascade goes by levels; a streamed response
      costs what the whole one does; the percentiles are those of the last measurements at
      the nearest rank.
    - Outcomes and errors: of a user's addition, of a message and a reply in the adapters
      of Telegram, WhatsApp and Gmail, of a dialogue of SMTP, of a reply in the router, of
      each line of an MCP connection; what a set-up of a channel leaves for the container to read; windows of
      the limiters, attempts of a message, delays of a reconnection; what is refused and
      what a refusal leaves behind.
    - Behaviour that differs from the code's comments or intent, by closed runs or by
      theorems: concurrency limits that do not hold, late and overlapping submissions to the
      worker, a session that its creation does not find, a profile's memories hidden by
      nearer ones of other profiles,
      containers that block their chat, session files restored outside their directory,
      a line that stops the service, overlapping calls that lose a change of the vault or
      the vault itself, a mark of the history that goes back, a client that connects again
      after it was told to disconnect, and others.

    ** Conventions

    A string is a list of code units below 256.  Integers are [Z] where the code
    computes with them and [nat] for lengths; doubles are [spec_float] where rounding
    shows.  A synchronous piece of code, between two awaits, is one step that reads the
    clock once; a database method is one atomic operation unless its file says
    otherwise.  A UUID is a number or a string that its supply gives once.

    Fuel: the token loop has the length of its random stream, of which each round uses up
    a part; the matcher of the channel commands, the lines of a connection, the chunks of a
    job and the pieces of a message have the length of their text or list (and one more),
    as each round uses up an element; so have the lines that IMAP and SMTP read; the
    parser of JSON has twice the length of its text
    and one more, which [JsonText.need_bound] shows to be enough for every printed value;
    the tracing of a memory has its depth and one more; the percentile buffer is proved
    for capacities up to 1000, the one in use; everything else is structural.

    Outside the library's view, as arguments with laws or as events: parsers of URLs and of
    YAML and, where only the value matters, of JSON; [RegExp] on patterns of a user; hashes
    and AES-GCM; sockets and TLS; PostgreSQL (rows of tables and the rounding of REAL),
    Workers KV (whose reads may be stale and whose operations may fail), Podman, the Claude
    CLI, the host's commands and files (each may fail, and a failed write may damage the
    registry of ports), the clients of Telegram and WhatsApp, the embedding model and the
    model that summarises.  A request of a client ends with an answer, with an error or at
    its timeout, and the times of its answer are arguments.

    ** Not modelled

    The texts of the prompts where only their parts matter, and the printing of numbers
    that are no integers; the index of vectors (the rows of all profiles that a scan visits are an
    argument);
    migrations of the database, cursors and connections; the decoding of the chunks of IMAP and SMTP (they are texts); the clients of third-party
    services (polling of Telegram, raw messages of WhatsApp) and the gws program; speech
    recognition;
    the wizard of the set-up, the doctor, backups and status reports; the flows of
    authentication; certificates; the other configuration schemas and the loader; the
    manager of the proxy container and its audit log; the entry points.  In the modelled
    parts: the starting and stopping of interval timers, the body of the agent run in the
    orchestrator, body streaming and upstream errors of the proxy, the copying of skills
    and of the credential file into a container, the cleanup interval of the sessions,
    and the runtimes other than Podman.  They are input and output, texts or third-party
    code rather than logic of this program. *)

From Stdlib Require Export ZArith Lia.
From stdpp Require Export base list numbers strings option relations sorting.

(** ** Results of fallible operations

    A call that may throw returns [Ok v] or [Err msg]; [msg] is the message
    the source passes to [new Error]. *)

Inductive result (A : Type) : Type :=
| Ok (a : A)
| Err (msg : string).
Arguments Ok {A} a.
Arguments Err {A} msg.

Declare Scope fh_scope.
Delimit Scope fh_scope with fh.

Notation "'let*' x ':=' c 'in' k" :=
  (match c with Ok x => k | Err e => Err e end)
  (at level 10, x pattern, k at level 200) : fh_scope.

Definition is_ok {A} (r : result A) : bool :=
  match r with Ok _ => true | Err _ => false end.

(** ** Automation *)

Create HintDb fh.

(** Case analysis on the boolean tests of a hypothesis or the goal. *)
Ltac bool_cases :=
  repeat match goal with
  | H : (_ <? _)%Z = true |- _ => apply Z.ltb_lt in H
  | H : (_ <? _)%Z = false |- _ => apply Z.ltb_ge in H
  | H : (_ <=? _)%Z = true |- _ => apply Z.leb_le in H
  | H : (_ <=? _)%Z = false |- _ => apply Z.leb_gt in H
  | H : (_ =? _)%Z = true |- _ => apply Z.eqb_eq in H
  | H : (_ =? _)%Z = false |- _ => apply Z.eqb_neq in H
  | H : (_ <? _)%nat = true |- _ => apply Nat.ltb_lt in H
  | H : (_ <? _)%nat = false |- _ => apply Nat.ltb_ge in H
  | H : (_ <=? _)%nat = true |- _ => apply Nat.leb_le in H
  | H : (_ <=? _)%nat = false |- _ => apply Nat.leb_gt in H
  | H : (_ =? _)%nat = true |- _ => apply Nat.eqb_eq in H
  | H : (_ =? _)%nat = false |- _ => apply Nat.eqb_neq in H
  | H : (_ && _)%bool = true |- _ => apply andb_prop in H; destruct H
  | H : (_ || _)%bool = false |- _ => apply orb_false_elim in H; destruct H
  | H : negb _ = true |- _ => apply negb_true_iff in H
  | H : negb _ = false |- _ => apply negb_false_iff in H
  | H : bool_decide _ = true |- _ => apply bool_decide_eq_true in H
  | H : bool_decide _ = false |- _ => apply bool_decide_eq_false in H
  end.

(** Destruct the scrutinee of the innermost [match] or [if] of the goal. *)
Ltac split_match :=
  match goal with
  | |- context [match ?x with _ => _ end] =>
      lazymatch x with
      | context [match _ with _ => _ end] => fail
      | _ => destruct x eqn:?
      end
  end.

(** ** Bounded checks by computation *)

Section BoundedChecks.
Context (f : nat → bool).

(** [forallb_below n f] tests [f] on [0 .. n-1]. *)
Definition forallb_below (n : nat) : bool := forallb f (seq 0 n).

Lemma forallb_below_spec n :
  forallb_below n = true → ∀ i, i < n → f i = true.
Proof.
  intros H i Hi. unfold forallb_below in H. rewrite forallb_forall in H.
  apply H, in_seq. lia.
Qed.

Lemma forallb_below_Z n :
  forallb_below n = true →
  ∀ z : Z, (0 ≤ z < Z.of_nat n)%Z → f (Z.to_nat z) = true.
Proof. intros H z Hz. apply (forallb_below_spec n H). lia. Qed.
End BoundedChecks.

(** ** Reading an array at a position

    [a[i]] of the source for an index in range; out of range the source reads
    [undefined], which the callers modelled here never do. *)
Definition zget (l : list Z) (i : Z) : Z := nth (Z.to_nat i) l 0%Z.

Lemma nth_insert {A} (l : list A) (i j : nat) (x d : A) :
  i < length l →
  nth j (<[i:=x]> l) d = if decide (i = j) then x else nth j l d.
Proof.
  intros Hi. rewrite !nth_lookup. case_decide as Hij.
  - subst. by rewrite list_lookup_insert_eq.
  - by rewrite list_lookup_insert_ne.
Qed.

(** ** Folding an update over a list of steps *)

Lemma foldl_inv {A B} (P : A → Prop) (f : A → B → A) (l : list B) (a : A) :
  P a → (∀ x b, b ∈ l → P x → P (f x b)) → P (foldl f a l).
Proof.
  revert a. induction l as [|b l IH]; intros a Ha Hf; simpl; [done|].
  apply IH.
  - apply Hf; [left|done].
  - intros x b' Hb'. apply Hf. by right.
Qed.

Lemma foldl_length {A B} (f : list A → B → list A) (l : list B) (a : list A) :
  (∀ x b, length (f x b) = length x) → length (foldl f a l) = length a.
Proof.
  intros Hf. revert a. induction l as [|b l IH]; intros a; simpl; [done|].
  by rewrite IH, Hf.
Qed.

(** ** Lists with distinct keys *)

Lemma elem_of_map {A B} (f : A → B) (l : list A) (y : B) : y ∈ map f l ↔ ∃ x, x ∈ l ∧ f x = y.
Proof. rewrite list_elem_of_In, in_map_iff. setoid_rewrite list_elem_of_In. naive_solver. Qed.

(** Two members of a list with distinct keys are the same when their keys are. *)
Lemma NoDup_map_inj {A B} (f : A → B) (l : list A) (x y : A) :
  NoDup (map f l) → x ∈ l → y ∈ l → f x = f y → x = y.
Proof.
  induction l as [|a l IH]; simpl; [by intros _ ?%elem_of_nil|].
  intros [Ha Hl]%NoDup_cons Hx Hy E. rewrite elem_of_map in Ha.
  apply elem_of_cons in Hx as [->|Hx], Hy as [->|Hy]; [done| | |by apply IH].
  - destruct Ha. by exists y.
  - destruct Ha. by exists x.
Qed.
