(* ===== verification/QrField.v ===== *)
(** * Arithmetic of GF(2^8) and Reed-Solomon encoding

    The first section of [services/auth-bridge/qr.ts]: the logarithm and
    exponential tables, the product of two field elements and of two
    polynomials, and [rsEncode].  Bytes are integers of [Z]. *)

From Stdlib Require Import Btauto.
From S2P Require Import Prelude.
Local Open Scope Z_scope.

(** ** Tables *)

Definition GF_POLY : Z := 0x11d.

(** A store into a [Uint8Array] keeps the low eight bits. *)
Definition u8 (x : Z) : Z := x mod 256.

(** The body of the table loop: [val <<= 1; if (val >= 256) val ^= GF_POLY]. *)
Definition xtime (val : Z) : Z :=
  let v := Z.shiftl val 1 in
  if 256 <=? v then Z.lxor v GF_POLY else v.

Definition gf_tables_step (st : Z * list Z * list Z) (i : nat) : Z * list Z * list Z :=
  let '(val, gf_exp, gf_log) := st in
  (xtime val, <[i := u8 val]> gf_exp, <[Z.to_nat val := u8 (Z.of_nat i)]> gf_log).

Definition gf_tables : Z * list Z * list Z :=
  foldl gf_tables_step (1, replicate 256 0, replicate 256 0) (seq 0 255).

(** [GF_EXP[255] = GF_EXP[0]] after the loop. *)
Definition GF_EXP : list Z :=
  let gf_exp := snd (fst gf_tables) in <[255%nat := zget gf_exp 0]> gf_exp.
Definition GF_LOG : list Z := snd gf_tables.

(** ** Operations *)

Definition gfMul (a b : Z) : Z :=
  if (a =? 0) || (b =? 0) then 0
  else zget GF_EXP ((zget GF_LOG a + zget GF_LOG b) mod 255).

(** [result[i + j] ^= gfMul(a[i], b[j])] for all [i], then all [j]. *)
Definition xor_at (l : list Z) (k : nat) (x : Z) : list Z :=
  <[k := Z.lxor (nth k l 0) x]> l.

Definition polyMul (a b : list Z) : list Z :=
  foldl (λ result i,
    foldl (λ result j, xor_at result (i + j) (gfMul (nth i a 0) (nth j b 0)))
      result (seq 0 (length b)))
    (replicate (length a + length b - 1) 0) (seq 0 (length a)).

(** The generator polynomial, the product of [(x - alpha^i)] for [i < ecCount]. *)
Definition rs_generator (ecCount : nat) : list Z :=
  foldl (λ gen i, polyMul gen [1; zget GF_EXP (Z.of_nat i)]) [1] (seq 0 ecCount).

(** One round of the long division, at position [i] of the message. *)
Definition rs_step (gen msg : list Z) (i : nat) : list Z :=
  let coeff := nth i msg 0 in
  if coeff =? 0 then msg
  else foldl (λ msg j, xor_at msg (i + j) (gfMul (nth j gen 0) coeff))
         msg (seq 0 (length gen)).

Definition rsEncode (data : list Z) (ecCount : nat) : list Z :=
  let gen := rs_generator ecCount in
  let msg := foldl (rs_step gen) (data ++ replicate ecCount 0) (seq 0 (length data)) in
  drop (length data) msg.

(** ** The field *)

Definition is_byte (x : Z) : Prop := 0 ≤ x < 256.

(** [alpha k] is the k-th power of the primitive element. *)
Definition alpha (k : Z) : Z := zget GF_EXP (k mod 255).

Lemma is_byte_testbit x : is_byte x ↔ 0 ≤ x ∧ ∀ i, 8 ≤ i → Z.testbit x i = false.
Proof.
  unfold is_byte. split.
  - intros Hx. split; [lia|]. intros i Hi.
    destruct (decide (x = 0)) as [->|]; [apply Z.bits_0|].
    apply Z.bits_above_log2; [lia|]. apply Z.log2_lt_pow2; [lia|].
    apply Z.lt_le_trans with (2 ^ 8); [lia|]. by apply Z.pow_le_mono_r.
  - intros [Hx Hb]. split; [done|].
    destruct (decide (x = 0)) as [->|]; [lia|].
    destruct (Z.le_gt_cases 8 (Z.log2 x)) as [Hl|Hl].
    + pose proof (Z.bit_log2 x ltac:(lia)) as Hbit. rewrite Hb in Hbit; done.
    + change 256 with (2 ^ 8). by apply Z.log2_lt_pow2; [lia|].
Qed.

Lemma lxor_byte a b : is_byte a → is_byte b → is_byte (Z.lxor a b).
Proof.
  rewrite !is_byte_testbit. intros [Ha Ha'] [Hb Hb']. split.
  - by apply Z.lxor_nonneg.
  - intros i Hi. by rewrite Z.lxor_spec, Ha', Hb'.
Qed.
#[export] Hint Resolve lxor_byte : fh.

Lemma zero_byte : is_byte 0.
Proof. unfold is_byte; lia. Qed.
#[export] Hint Resolve zero_byte : fh.

(** Facts of the two tables, each checked on all their entries. *)

Lemma exp_byte k : is_byte (alpha k).
Proof.
  assert (H : forallb_below (λ i, (0 <=? nth i GF_EXP 0) && (nth i GF_EXP 0 <? 256)) 255 = true)
    by (vm_compute; reflexivity).
  pose proof (Z.mod_pos_bound k 255 ltac:(lia)) as Hk.
  pose proof (forallb_below_Z _ _ H (k mod 255) Hk) as Hc. cbv beta in Hc.
  unfold alpha, zget, is_byte. bool_cases. lia.
Qed.
#[export] Hint Resolve exp_byte : fh.

Lemma exp_nonzero k : alpha k ≠ 0.
Proof.
  assert (H : forallb_below (λ i, negb (nth i GF_EXP 0 =? 0)) 255 = true)
    by (vm_compute; reflexivity).
  pose proof (forallb_below_Z _ _ H (k mod 255) (Z.mod_pos_bound k 255 ltac:(lia))) as Hc.
  cbv beta in Hc. unfold alpha, zget. by bool_cases.
Qed.

Lemma exp_mod k : alpha (k mod 255) = alpha k.
Proof. unfold alpha. by rewrite Z.mod_mod by lia. Qed.

Lemma log_bound a : is_byte a → a ≠ 0 → 0 ≤ zget GF_LOG a < 255.
Proof.
  assert (H : forallb_below (λ i, (i =? 0)%nat ||
            ((0 <=? nth i GF_LOG 0) && (nth i GF_LOG 0 <? 255))) 256 = true)
    by (vm_compute; reflexivity).
  intros Ha Hz. pose proof (forallb_below_Z _ _ H a Ha) as Hc. cbv beta in Hc.
  unfold zget, is_byte in *. apply orb_prop in Hc as [Hc|Hc]; bool_cases; lia.
Qed.

Lemma exp_log a : is_byte a → a ≠ 0 → alpha (zget GF_LOG a) = a.
Proof.
  assert (H : forallb_below (λ i, (i =? 0)%nat ||
            (nth (Z.to_nat (nth i GF_LOG 0)) GF_EXP 0 =? Z.of_nat i)) 256 = true)
    by (vm_compute; reflexivity).
  intros Ha Hz. pose proof (log_bound a Ha Hz) as Hl.
  pose proof (forallb_below_Z _ _ H a Ha) as Hc. cbv beta in Hc.
  unfold alpha. rewrite Z.mod_small by done. unfold zget in *.
  unfold is_byte in Ha. apply orb_prop in Hc as [Hc|Hc]; bool_cases; [lia|].
  rewrite Hc. lia.
Qed.

Lemma log_exp k : zget GF_LOG (alpha k) = k mod 255.
Proof.
  assert (H : forallb_below (λ i, nth (Z.to_nat (nth i GF_EXP 0)) GF_LOG 0 =? Z.of_nat i) 255
              = true) by (vm_compute; reflexivity).
  pose proof (Z.mod_pos_bound k 255 ltac:(lia)) as Hk.
  pose proof (forallb_below_Z _ _ H (k mod 255) Hk) as Hc. cbv beta in Hc.
  unfold alpha, zget in *. bool_cases. rewrite Hc. lia.
Qed.

Lemma exp_succ k : alpha (k + 1) = xtime (alpha k).
Proof.
  assert (H : forallb_below (λ i, nth (Z.to_nat ((Z.of_nat i + 1) mod 255)) GF_EXP 0
                                  =? xtime (nth i GF_EXP 0)) 255 = true)
    by (vm_compute; reflexivity).
  pose proof (Z.mod_pos_bound k 255 ltac:(lia)) as Hk.
  pose proof (forallb_below_Z _ _ H (k mod 255) Hk) as Hc. cbv beta in Hc.
  rewrite Z2Nat.id in Hc by lia. rewrite Z.add_mod_idemp_l in Hc by lia.
  unfold alpha, zget. by bool_cases.
Qed.

Lemma exp_0 : alpha 0 = 1.
Proof. vm_compute; reflexivity. Qed.

(** Bytes are zero or a power of [alpha]: the case analysis of every field law. *)
Lemma byte_cases a : is_byte a → a = 0 ∨ ∃ k, 0 ≤ k < 255 ∧ a = alpha k.
Proof.
  intros Ha. destruct (decide (a = 0)); [by left|right].
  exists (zget GF_LOG a). split; [by apply log_bound|by rewrite exp_log].
Qed.

Lemma gfMul_0_l b : gfMul 0 b = 0.
Proof. done. Qed.

Lemma gfMul_0_r a : gfMul a 0 = 0.
Proof. unfold gfMul. by rewrite orb_true_r. Qed.

Lemma gfMul_exp i j : gfMul (alpha i) (alpha j) = alpha (i + j).
Proof.
  unfold gfMul.
  rewrite (proj2 (Z.eqb_neq (alpha i) 0) (exp_nonzero i)).
  rewrite (proj2 (Z.eqb_neq (alpha j) 0) (exp_nonzero j)). simpl.
  rewrite !log_exp, <- Z.add_mod by lia. unfold alpha. by rewrite ?Z.mod_mod by lia.
Qed.

Create Rewrite HintDb gf.
#[export] Hint Rewrite gfMul_0_l gfMul_0_r gfMul_exp : gf.

Ltac gf_cases :=
  repeat match goal with
  | H : is_byte ?a |- _ =>
      is_var a; destruct (byte_cases a H) as [->|(?k & ? & ->)]; clear H
  end.

Lemma gfMul_byte a b : is_byte a → is_byte b → is_byte (gfMul a b).
Proof. intros Ha Hb. gf_cases; autorewrite with gf; auto with fh. Qed.
#[export] Hint Resolve gfMul_byte : fh.

Lemma gfMul_comm a b : gfMul a b = gfMul b a.
Proof. unfold gfMul. by rewrite orb_comm, (Z.add_comm (zget GF_LOG a)). Qed.

Lemma gfMul_assoc a b c :
  is_byte a → is_byte b → is_byte c → gfMul a (gfMul b c) = gfMul (gfMul a b) c.
Proof. intros Ha Hb Hc. gf_cases; autorewrite with gf; try done. by rewrite Z.add_assoc. Qed.

Lemma gfMul_1_l a : is_byte a → gfMul 1 a = a.
Proof. intros Ha. rewrite <- exp_0. gf_cases; autorewrite with gf; done. Qed.

Lemma gfMul_1_r a : is_byte a → gfMul a 1 = a.
Proof. intros. rewrite gfMul_comm. by apply gfMul_1_l. Qed.

Lemma gfMul_zero a b : is_byte a → is_byte b → gfMul a b = 0 → a = 0 ∨ b = 0.
Proof.
  intros Ha Hb. gf_cases; autorewrite with gf; auto.
  intros Hexp. by apply exp_nonzero in Hexp.
Qed.

(** Multiplication by [alpha] is [xtime], which is linear over exclusive or;
    so is multiplication by any power of [alpha]. *)

Lemma xtime_bit7 a : is_byte a → (256 <=? Z.shiftl a 1) = Z.testbit a 7.
Proof.
  intros Ha. unfold is_byte in Ha. rewrite Z.shiftl_mul_pow2 by lia.
  destruct (Z.testbit a 7) eqn:E.
  - apply Z.testbit_true in E; [|lia]. apply Z.leb_le.
    change (2 ^ 7) with 128 in E. change (2 ^ 1) with 2.
    destruct (Z.lt_ge_cases a 128); [|lia]. rewrite Z.div_small in E by lia. done.
  - apply Z.testbit_false in E; [|lia]. apply Z.leb_gt.
    change (2 ^ 7) with 128 in E. change (2 ^ 1) with 2.
    destruct (Z.lt_ge_cases a 128); [lia|].
    assert (a / 128 = 1) as E' by (symmetry; apply Z.div_unique with (a - 128); lia).
    rewrite E' in E. done.
Qed.

Lemma xtime_alt a :
  is_byte a → xtime a = Z.lxor (Z.shiftl a 1) (if Z.testbit a 7 then GF_POLY else 0).
Proof.
  intros Ha. unfold xtime. rewrite (xtime_bit7 a Ha).
  destruct (Z.testbit a 7); [done|by rewrite Z.lxor_0_r].
Qed.

Lemma xtime_lxor a b :
  is_byte a → is_byte b → xtime (Z.lxor a b) = Z.lxor (xtime a) (xtime b).
Proof.
  intros Ha Hb. rewrite !xtime_alt by auto with fh.
  rewrite Z.shiftl_lxor, Z.lxor_spec. apply Z.bits_inj. intros i.
  destruct (Z.testbit a 7), (Z.testbit b 7); simpl;
    rewrite !Z.lxor_spec, ?Z.bits_0; simpl; btauto.
Qed.

Lemma xtime_0 : xtime 0 = 0.
Proof. done. Qed.

Lemma gfMul_alpha_succ k a : is_byte a → gfMul (alpha (k + 1)) a = xtime (gfMul (alpha k) a).
Proof.
  intros Ha. gf_cases; autorewrite with gf; [done|].
  by rewrite <- exp_succ; f_equal; lia.
Qed.

Lemma gfMul_alpha_lxor (k : nat) a b :
  is_byte a → is_byte b →
  gfMul (alpha (Z.of_nat k)) (Z.lxor a b) =
  Z.lxor (gfMul (alpha (Z.of_nat k)) a) (gfMul (alpha (Z.of_nat k)) b).
Proof.
  intros Ha Hb. induction k as [|k IH].
  - change (Z.of_nat 0) with 0. by rewrite exp_0, !gfMul_1_l by auto with fh.
  - rewrite Nat2Z.inj_succ, <- Z.add_1_r, !gfMul_alpha_succ, IH by auto with fh.
    by rewrite xtime_lxor by auto with fh.
Qed.

Lemma gfMul_lxor_r c a b :
  is_byte c → is_byte a → is_byte b →
  gfMul c (Z.lxor a b) = Z.lxor (gfMul c a) (gfMul c b).
Proof.
  intros Hc Ha Hb. destruct (byte_cases c Hc) as [->|(k & Hk & ->)]; [done|].
  replace k with (Z.of_nat (Z.to_nat k)) by lia. by apply gfMul_alpha_lxor.
Qed.

Lemma gfMul_lxor_l a b c :
  is_byte c → is_byte a → is_byte b →
  gfMul (Z.lxor a b) c = Z.lxor (gfMul a c) (gfMul b c).
Proof. intros. rewrite !(gfMul_comm _ c). by apply gfMul_lxor_r. Qed.

(** ** Values of a polynomial, coefficients highest degree first *)

Fixpoint gpow (x : Z) (n : nat) : Z :=
  match n with O => 1 | S n => gfMul x (gpow x n) end.

Fixpoint peval (l : list Z) (x : Z) : Z :=
  match l with
  | [] => 0
  | c :: l => Z.lxor (gfMul c (gpow x (length l))) (peval l x)
  end.

Abbreviation bytes := (Forall is_byte).

Lemma one_byte : is_byte 1.
Proof. unfold is_byte; lia. Qed.
#[export] Hint Resolve one_byte : fh.

Lemma gpow_byte x n : is_byte x → is_byte (gpow x n).
Proof. intros. induction n; simpl; auto with fh. Qed.
#[export] Hint Resolve gpow_byte : fh.

Lemma peval_byte l x : bytes l → is_byte x → is_byte (peval l x).
Proof. induction 1; simpl; auto with fh. Qed.
#[export] Hint Resolve peval_byte : fh.

Lemma nth_byte l k : bytes l → is_byte (nth k l 0).
Proof.
  intros H. rewrite nth_lookup. destruct (l !! k) eqn:E; simpl; [|auto with fh].
  by eapply Forall_lookup_1.
Qed.
#[export] Hint Resolve nth_byte : fh.

Lemma gpow_add x m n : is_byte x → gpow x (m + n) = gfMul (gpow x m) (gpow x n).
Proof.
  intros. induction m as [|m IH]; simpl.
  - rewrite gfMul_1_l; auto with fh.
  - rewrite IH. apply gfMul_assoc; auto with fh.
Qed.

Lemma gpow_alpha k n : gpow (alpha k) n = alpha (k * Z.of_nat n).
Proof.
  induction n as [|n IH].
  - simpl. by rewrite Z.mul_0_r, exp_0.
  - rewrite Nat2Z.inj_succ. simpl. rewrite IH, gfMul_exp. f_equal. lia.
Qed.

Lemma peval_app l1 l2 x :
  bytes l1 → bytes l2 → is_byte x →
  peval (l1 ++ l2) x = Z.lxor (gfMul (peval l1 x) (gpow x (length l2))) (peval l2 x).
Proof.
  intros H1 H2 Hx. induction H1 as [|c l1 Hc H1 IH]; simpl; [by rewrite gfMul_0_l|].
  rewrite IH, length_app, gpow_add, gfMul_lxor_l, gfMul_assoc, Z.lxor_assoc by auto with fh.
  done.
Qed.

Lemma peval_zeros n x : peval (replicate n 0) x = 0.
Proof. induction n as [|n IH]; simpl; [done|]. by rewrite gfMul_0_l, IH. Qed.

Lemma peval_lxor l1 l2 x :
  bytes l1 → bytes l2 → is_byte x → length l1 = length l2 →
  peval (zip_with Z.lxor l1 l2) x = Z.lxor (peval l1 x) (peval l2 x).
Proof.
  intros H1. revert l2. induction H1 as [|a l1 Ha H1 IH]; intros [|b l2] H2 Hx Hlen;
    simplify_eq/=; [done|].
  inversion H2; subst. rewrite IH, length_zip_with, gfMul_lxor_l by auto with fh.
  replace (length l1 `min` length l2)%nat with (length l2) by lia. rewrite Hlen.
  apply Z.bits_inj. intros i. rewrite !Z.lxor_spec. btauto.
Qed.

(** ** Exclusive-or of a row of values into an array *)

Definition xor_row (l : list Z) (i : nat) (g : nat → Z) (n : nat) : list Z :=
  foldl (λ m j, xor_at m (i + j) (g j)) l (seq 0 n).

Lemma length_xor_at l k v : length (xor_at l k v) = length l.
Proof. apply length_insert. Qed.

Lemma length_xor_row l i g n : length (xor_row l i g n) = length l.
Proof. apply foldl_length. intros. apply length_xor_at. Qed.

Lemma xor_row_S l i g n : xor_row l i g (S n) = xor_at (xor_row l i g n) (i + n) (g n).
Proof. unfold xor_row. by rewrite seq_S, foldl_app. Qed.

Lemma nth_xor_row l i g n k :
  (i + n ≤ length l)%nat →
  nth k (xor_row l i g n) 0 =
  if decide (i ≤ k < i + n)%nat then Z.lxor (nth k l 0) (g (k - i)%nat) else nth k l 0.
Proof.
  revert k. induction n as [|n IH]; intros k Hn.
  - simpl. by rewrite decide_False by lia.
  - rewrite xor_row_S. unfold xor_at. rewrite nth_insert by (rewrite length_xor_row; lia).
    rewrite !IH by lia. repeat case_decide; subst; try lia; try done.
    by rewrite Nat.add_comm, Nat.add_sub.
Qed.

Lemma xor_at_bytes l k v : bytes l → is_byte v → bytes (xor_at l k v).
Proof. intros. apply Forall_insert; auto with fh. Qed.

Lemma xor_row_bytes l i g n :
  bytes l → (∀ j, is_byte (g j)) → bytes (xor_row l i g n).
Proof.
  intros Hl Hg. induction n as [|n IH]; [done|].
  rewrite xor_row_S. by apply xor_at_bytes.
Qed.
#[export] Hint Resolve xor_row_bytes : fh.

Lemma peval_xor_at l k v x :
  bytes l → is_byte v → is_byte x → (k < length l)%nat →
  peval (xor_at l k v) x =
  Z.lxor (peval l x) (gfMul v (gpow x (length l - 1 - k))).
Proof.
  intros Hl Hv Hx. revert k. induction Hl as [|c l Hc Hl IH]; intros [|k] Hk; simpl in Hk; try lia.
  - change (xor_at (c :: l) 0 v) with (Z.lxor c v :: l). simpl.
    rewrite !Nat.sub_0_r, gfMul_lxor_l by auto with fh.
    apply Z.bits_inj. intros i. rewrite !Z.lxor_spec. btauto.
  - change (xor_at (c :: l) (S k) v) with (c :: xor_at l k v). simpl.
    rewrite IH, length_xor_at, Z.lxor_assoc by lia.
    by replace (length l - 0 - S k)%nat with (length l - 1 - k)%nat by lia.
Qed.

Lemma peval_xor_row l i g n x :
  bytes l → (∀ j, is_byte (g j)) → is_byte x → (i + n ≤ length l)%nat →
  peval (xor_row l i g n) x =
  Z.lxor (peval l x)
         (gfMul (peval (map g (seq 0 n)) x) (gpow x (length l - n - i))).
Proof.
  intros Hl Hg Hx. induction n as [|n IH]; intros Hn.
  - simpl. by rewrite gfMul_0_l, Z.lxor_0_r.
  - rewrite xor_row_S, peval_xor_at, length_xor_row, IH by
      (rewrite ?length_xor_row; auto with fh; lia).
    assert (Hm : bytes (map g (seq 0 n))) by (apply Forall_fmap, Forall_true; done).
    rewrite seq_S, map_app, peval_app by (simpl; auto with fh). simpl.
    rewrite !gfMul_1_r, Z.lxor_0_r, gfMul_lxor_l, <- gfMul_assoc by auto with fh.
    change (gfMul x (gpow x (length l - S n - i))) with (gpow x (S (length l - S n - i))).
    rewrite Z.lxor_assoc.
    replace (S (length l - S n - i)) with (length l - n - i)%nat by lia.
    by replace (length l - 1 - (i + n))%nat with (length l - S n - i)%nat by lia.
Qed.

(** ** The product of polynomials and the generator *)

Lemma polyMul_eq a b :
  polyMul a b =
  foldl (λ result i, xor_row result i (λ j, gfMul (nth i a 0) (nth j b 0)) (length b))
    (replicate (length a + length b - 1) 0) (seq 0 (length a)).
Proof. done. Qed.

Lemma length_polyMul a b : length (polyMul a b) = (length a + length b - 1)%nat.
Proof.
  rewrite polyMul_eq, foldl_length; [apply length_replicate|].
  intros. apply length_xor_row.
Qed.

Lemma zeros_bytes n : bytes (replicate n 0).
Proof. apply Forall_replicate. auto with fh. Qed.
#[export] Hint Resolve zeros_bytes : fh.

Lemma polyMul_bytes a b : bytes a → bytes b → bytes (polyMul a b).
Proof.
  intros. rewrite polyMul_eq. apply foldl_inv; auto with fh.
Qed.
#[export] Hint Resolve polyMul_bytes : fh.

Lemma map_nth_seq (b : list Z) c :
  map (λ j, gfMul c (nth j b 0)) (seq 0 (length b)) = map (gfMul c) b.
Proof.
  induction b as [|y b IH] using rev_ind; [done|].
  rewrite length_app, seq_app, !map_app, <- IH. simpl.
  rewrite app_nth2, Nat.sub_diag by lia. f_equal.
  apply map_ext_in. intros j Hj%in_seq. by rewrite app_nth1 by lia.
Qed.

Lemma peval_scale c b x :
  is_byte c → bytes b → is_byte x → peval (map (gfMul c) b) x = gfMul c (peval b x).
Proof.
  intros Hc Hb Hx. induction Hb as [|y b Hy Hb IH]; simpl; [by rewrite gfMul_0_r|].
  by rewrite IH, length_map, gfMul_lxor_r, gfMul_assoc by auto with fh.
Qed.

Lemma peval_polyMul a b x :
  bytes a → bytes b → b ≠ [] → is_byte x → peval (polyMul a b) x = gfMul (peval a x) (peval b x).
Proof.
  intros Ha Hb Hb0 Hx. rewrite polyMul_eq.
  set (row := λ result i, xor_row result i (λ j, gfMul (nth i a 0) (nth j b 0)) (length b)).
  set (zs := replicate (length a + length b - 1) 0).
  assert (Hlb : (0 < length b)%nat) by (destruct b; simpl; [done|lia]).
  assert (Hind : ∀ n, (n ≤ length a)%nat →
    peval (foldl row zs (seq 0 n)) x =
    gfMul (gfMul (peval (take n a) x) (gpow x (length a - n))) (peval b x)).
  { induction n as [|n IH]; intros Hn.
    - simpl. unfold zs. by rewrite peval_zeros.
    - assert (Hbs : bytes (foldl row zs (seq 0 n))) by
        (apply foldl_inv; unfold zs, row; intros; auto with fh).
      assert (Hl : length (foldl row zs (seq 0 n)) = (length a + length b - 1)%nat).
      { rewrite foldl_length; [apply length_replicate|]. intros. apply length_xor_row. }
      rewrite seq_S, foldl_app. simpl. unfold row at 1.
      rewrite peval_xor_row, map_nth_seq, peval_scale, IH, Hl by (auto with fh; lia).
      destruct (lookup_lt_is_Some_2 a n) as [c Hc]; [lia|].
      rewrite (take_S_r a n c) by done. rewrite (nth_lookup_Some _ _ _ _ Hc).
      assert (is_byte c) by exact (Forall_lookup_1 _ _ _ _ Ha Hc).
      assert (bytes (take n a)) by (by apply Forall_take).
      rewrite peval_app by auto with fh. simpl.
      rewrite !gfMul_1_r, Z.lxor_0_r, !gfMul_lxor_l by auto with fh.
      replace (length a + length b - 1 - length b - n)%nat with (length a - S n)%nat by lia.
      replace (length a - n)%nat with (S (length a - S n)) by lia. simpl.
      rewrite <- !gfMul_assoc by auto 10 with fh.
      by rewrite (gfMul_comm (peval b x) (gpow x _)). }
  rewrite (Hind (length a)) by lia. rewrite Nat.sub_diag, take_ge by lia. simpl.
  by rewrite gfMul_1_r by auto with fh.
Qed.

Lemma rs_generator_S n :
  rs_generator (S n) = polyMul (rs_generator n) [1; zget GF_EXP (Z.of_nat n)].
Proof. unfold rs_generator. by rewrite seq_S, foldl_app. Qed.

Lemma rs_generator_length n : length (rs_generator n) = S n.
Proof.
  induction n as [|n IH]; [done|]. rewrite rs_generator_S, length_polyMul, IH. simpl. lia.
Qed.

Lemma exp_entry (i : nat) : (i < 255)%nat → zget GF_EXP (Z.of_nat i) = alpha (Z.of_nat i).
Proof. intros. unfold alpha. by rewrite Z.mod_small by lia. Qed.

Lemma rs_generator_bytes n : (n ≤ 255)%nat → bytes (rs_generator n).
Proof.
  induction n as [|n IH]; intros Hn; [repeat constructor; lia|].
  rewrite rs_generator_S, exp_entry by lia. apply polyMul_bytes; [apply IH; lia|].
  rewrite !Forall_cons. auto with fh.
Qed.

Lemma rs_generator_root n i :
  (n ≤ 255)%nat → (i < n)%nat → peval (rs_generator n) (alpha (Z.of_nat i)) = 0.
Proof.
  induction n as [|n IH]; intros Hn Hi; [lia|].
  assert (Hf : bytes [1; alpha (Z.of_nat n)]) by (rewrite !Forall_cons; auto with fh).
  pose proof (rs_generator_bytes n ltac:(lia)) as Hg.
  rewrite rs_generator_S, exp_entry, peval_polyMul by (auto with fh; lia).
  destruct (decide (i = n)) as [->|Hne].
  - simpl. rewrite !gfMul_1_r, gfMul_1_l, Z.lxor_0_r, Z.lxor_nilpotent by auto with fh.
    apply gfMul_0_r.
  - by rewrite IH by lia.
Qed.

Lemma nth_0_polyMul a b :
  a ≠ [] → b ≠ [] → is_byte (nth 0 a 0) → nth 0 (polyMul a b) 0 = gfMul (nth 0 a 0) (nth 0 b 0).
Proof.
  intros Ha Hb _. rewrite polyMul_eq.
  assert (0 < length b)%nat by (destruct b; simpl; [done|lia]).
  destruct a as [|c a]; [done|]. simpl length. rewrite <- cons_seq. simpl foldl.
  set (row0 := xor_row _ 0 _ _).
  apply (foldl_inv (λ l, length l = length row0 ∧ nth 0 l 0 = gfMul c (nth 0 b 0))).
  - split; [done|]. unfold row0. rewrite nth_xor_row.
    + rewrite decide_True by lia. simpl. rewrite nth_lookup, lookup_replicate_2 by (simpl; lia).
      apply Z.lxor_0_l.
    + rewrite length_replicate. simpl. lia.
  - intros l i Hi%list_elem_of_In%in_seq [Hl Hn]. rewrite length_xor_row. split; [done|].
    unfold row0 in Hl. rewrite length_xor_row, length_replicate in Hl. simpl in Hl.
    rewrite nth_xor_row by lia. by rewrite decide_False by lia.
Qed.

Lemma rs_generator_monic n : (n ≤ 255)%nat → nth 0 (rs_generator n) 0 = 1.
Proof.
  induction n as [|n IH]; intros Hn; [done|].
  rewrite rs_generator_S, nth_0_polyMul, IH; auto with fh; try lia.
  - intros E. pose proof (rs_generator_length n). by rewrite E in *.
  - apply nth_byte, rs_generator_bytes. lia.
Qed.

(** ** The long division *)

Section LongDivision.
Context (gen : list Z) (ec n : nat).
Context (Hbytes : bytes gen) (Hlen : length gen = S ec) (Hmonic : nth 0 gen 0 = 1).

Lemma rs_step_row msg i :
  rs_step gen msg i =
  if nth i msg 0 =? 0 then msg
  else xor_row msg i (λ j, gfMul (nth j gen 0) (nth i msg 0)) (length gen).
Proof. done. Qed.

Lemma rs_step_length msg i : length (rs_step gen msg i) = length msg.
Proof. rewrite rs_step_row. split_match; [done|apply length_xor_row]. Qed.

Lemma rs_step_bytes msg i : bytes msg → bytes (rs_step gen msg i).
Proof. intros. rewrite rs_step_row. split_match; auto with fh. Qed.

Lemma rs_step_clears msg i :
  length msg = (n + ec)%nat → bytes msg → (i < n)%nat →
  (∀ k, (k < i)%nat → nth k msg 0 = 0) →
  ∀ k, (k < S i)%nat → nth k (rs_step gen msg i) 0 = 0.
Proof.
  intros Hl Hb Hi Hz k Hk. rewrite rs_step_row.
  destruct (nth i msg 0 =? 0) eqn:E; bool_cases.
  - destruct (decide (k = i)) as [->|]; [done|]. apply Hz. lia.
  - rewrite nth_xor_row by lia. case_decide; [|apply Hz; lia].
    replace k with i by lia. rewrite Nat.sub_diag, Hmonic.
    rewrite gfMul_1_l, Z.lxor_nilpotent; auto with fh.
Qed.

Lemma rs_step_value msg i x :
  length msg = (n + ec)%nat → bytes msg → (i < n)%nat → is_byte x → peval gen x = 0 →
  peval (rs_step gen msg i) x = peval msg x.
Proof.
  intros Hl Hb Hi Hx Hroot. rewrite rs_step_row. split_match; [done|].
  rewrite peval_xor_row by (auto with fh; lia).
  rewrite (map_ext _ (λ j, gfMul (nth i msg 0) (nth j gen 0))) by (intros; apply gfMul_comm).
  rewrite map_nth_seq, peval_scale, Hroot, gfMul_0_r, gfMul_0_l by auto with fh.
  apply Z.lxor_0_r.
Qed.

Lemma rs_division msg m :
  length msg = (n + ec)%nat → bytes msg → (m ≤ n)%nat →
  let msg' := foldl (rs_step gen) msg (seq 0 m) in
  length msg' = (n + ec)%nat ∧ bytes msg' ∧
  (∀ k, (k < m)%nat → nth k msg' 0 = 0) ∧
  ∀ x, is_byte x → peval gen x = 0 → peval msg' x = peval msg x.
Proof.
  intros Hl Hb. induction m as [|m IH]; intros Hm msg'.
  - repeat split; try done. lia.
  - destruct IH as (Hl' & Hb' & Hz & Hv); [lia|].
    unfold msg'. rewrite seq_S, foldl_app. simpl. clear msg'.
    set (msg' := foldl _ _ _) in *. rewrite rs_step_length. split; [done|]. split; [by apply rs_step_bytes|]. split.
    + apply rs_step_clears; auto; lia.
    + intros x Hx Hr. rewrite rs_step_value by (auto; lia). by apply Hv.
Qed.
End LongDivision.

Lemma zeros_of_nth l n :
  (n ≤ length l)%nat → (∀ k, (k < n)%nat → nth k l 0 = 0) → take n l = replicate n 0.
Proof.
  intros Hn Hz. apply list_eq_same_length with n; rewrite ?length_take, ?length_replicate; try lia.
  intros i x y Hi Hx Hy. apply lookup_replicate in Hy as [-> _].
  rewrite lookup_take in Hx. case_decide; [|done].
  rewrite <- (Hz i Hi). symmetry. by apply nth_lookup_Some.
Qed.

Lemma rs_division_result data ec :
  bytes data → (ec ≤ 255)%nat →
  length (rsEncode data ec) = ec ∧ bytes (rsEncode data ec) ∧
  ∀ i, (i < ec)%nat →
    peval (rsEncode data ec) (alpha (Z.of_nat i)) =
    peval (data ++ replicate ec 0) (alpha (Z.of_nat i)).
Proof.
  intros Hb Hec. unfold rsEncode.
  destruct (rs_division (rs_generator ec) ec (length data)
    (rs_generator_bytes _ Hec) (rs_generator_length ec) (rs_generator_monic _ Hec)
    (data ++ replicate ec 0) (length data)) as (Hl & Hb' & Hz & Hv); auto with fh.
  { by rewrite length_app, length_replicate. }
  { apply Forall_app. auto with fh. }
  set (msg := foldl _ _ _) in *. split; [rewrite length_drop; lia|].
  split; [by apply Forall_drop|]. intros i Hi.
  rewrite <- Hv by (auto using rs_generator_root with fh).
  rewrite <- (take_drop (length data) msg) at 2.
  rewrite (zeros_of_nth msg) by (auto; lia).
  rewrite peval_app, peval_zeros, gfMul_0_l by (auto using Forall_drop with fh).
  by rewrite Z.lxor_0_l.
Qed.

(** A word is a codeword when [alpha^0 .. alpha^(ec-1)] are roots of it: the
    syndromes a decoder computes are all zero. *)
Definition is_codeword (w : list Z) (ec : nat) : Prop :=
  ∀ i, (i < ec)%nat → peval w (alpha (Z.of_nat i)) = 0.

(** The code is systematic: the message followed by [rsEncode] of it is a
    codeword made of [ec] further bytes. *)
Lemma rsEncode_spec data ec :
  bytes data → (ec ≤ 255)%nat →
  length (rsEncode data ec) = ec ∧ bytes (rsEncode data ec) ∧
  is_codeword (data ++ rsEncode data ec) ec.
Proof.
  intros Hb Hec. destruct (rs_division_result data ec Hb Hec) as (Hl & Hb' & Hv).
  repeat split; auto. intros i Hi.
  rewrite peval_app, Hv, peval_app, peval_zeros by auto with fh.
  by rewrite Hl, length_replicate, Z.lxor_0_r, Z.lxor_nilpotent.
Qed.

(** ** The minimum distance of the code *)

(** The power sums of a list of (value, locator) pairs. *)
Fixpoint psum (i : nat) (ps : list (Z * Z)) : Z :=
  match ps with
  | [] => 0
  | (e, X) :: ps => Z.lxor (gfMul e (gpow X i)) (psum i ps)
  end.

Abbreviation byte_pairs := (Forall (λ p : Z * Z, is_byte p.1 ∧ is_byte p.2)).

Lemma psum_byte i ps : byte_pairs ps → is_byte (psum i ps).
Proof. induction 1 as [|[e X] ps [? ?] _ IH]; simpl in *; auto with fh. Qed.
#[export] Hint Resolve psum_byte : fh.

(** Multiplying each value by [X + X0] removes the locator [X0]. *)
Definition scale_pairs (X0 : Z) (ps : list (Z * Z)) : list (Z * Z) :=
  map (λ p, (gfMul p.1 (Z.lxor p.2 X0), p.2)) ps.

Lemma scale_pairs_bytes X0 ps : is_byte X0 → byte_pairs ps → byte_pairs (scale_pairs X0 ps).
Proof.
  intros HX H. apply Forall_map. eapply Forall_impl; [exact H|].
  intros [e X] [? ?]; simpl in *. auto with fh.
Qed.

Lemma psum_scale X0 i ps :
  is_byte X0 → byte_pairs ps →
  psum i (scale_pairs X0 ps) = Z.lxor (psum (S i) ps) (gfMul X0 (psum i ps)).
Proof.
  intros HX H. induction H as [|[e X] ps [He HX'] Hps IH]; simpl in *.
  - by rewrite gfMul_0_r.
  - rewrite IH, !gfMul_lxor_r, gfMul_lxor_l, <- !gfMul_assoc by auto 6 with fh.
    rewrite (gfMul_assoc X0 e), (gfMul_comm X0 e), <- gfMul_assoc by auto with fh.
    apply Z.bits_inj. intros j. rewrite !Z.lxor_spec. btauto.
Qed.

Lemma lxor_zero a b : Z.lxor a b = 0 → a = b.
Proof. by apply Z.lxor_eq. Qed.

(** A Vandermonde argument: with distinct locators and as many vanishing power
    sums as locators, every value is zero. *)
Lemma vandermonde ps :
  byte_pairs ps → NoDup (map snd ps) →
  (∀ i, (i < length ps)%nat → psum i ps = 0) → Forall (λ p, p.1 = 0) ps.
Proof.
  remember (length ps) as n eqn:Hn. revert ps Hn.
  induction n as [|n IH]; intros [|[e X] ps] Hn Hb Hd Hs; simplify_eq/=; [constructor|].
  apply Forall_cons in Hb as [[He HX] Hb]. apply NoDup_cons in Hd as [Hnot Hd]. simpl in *.
  assert (Hz : Forall (λ p, p.1 = 0) (scale_pairs X ps)).
  { apply IH.
    - unfold scale_pairs. by rewrite length_map.
    - by apply scale_pairs_bytes.
    - unfold scale_pairs. rewrite map_map. done.
    - intros i Hi. rewrite psum_scale by done.
      pose proof (Hs i ltac:(lia)) as H0. pose proof (Hs (S i) ltac:(lia)) as H1. simpl in *.
      apply lxor_zero in H0, H1. rewrite <- H0, <- H1.
      rewrite !gfMul_assoc, (gfMul_comm X e) by auto with fh. apply Z.lxor_nilpotent. }
  assert (Hps : Forall (λ p, p.1 = 0) ps).
  { apply Forall_map in Hz. rewrite Forall_forall in *. intros [e' X'] Hin.
    pose proof (Hz _ Hin) as Hm. destruct (Hb _ Hin). simpl in *.
    apply gfMul_zero in Hm as [|Hm%lxor_zero]; auto with fh.
    subst X'. exfalso. apply Hnot. apply list_elem_of_In, in_map_iff.
    exists (e', X). by rewrite <- list_elem_of_In. }
  constructor; [|done]. simpl. specialize (Hs 0%nat ltac:(lia)). simpl in Hs.
  rewrite gfMul_1_r in Hs by done. apply lxor_zero in Hs. rewrite Hs. clear -Hps.
  induction Hps as [|[e' X'] ps Hp Hps IH]; simpl in *; [done|]. by rewrite Hp, IH.
Qed.

(** The nonzero coefficients of a word, each with the locator of its position. *)
Fixpoint support (l : list Z) : list (Z * Z) :=
  match l with
  | [] => []
  | c :: l => if c =? 0 then support l else (c, alpha (Z.of_nat (length l))) :: support l
  end.

Lemma psum_support l i : psum i (support l) = peval l (alpha (Z.of_nat i)).
Proof.
  induction l as [|c l IH]; simpl; [done|]. destruct (c =? 0) eqn:E; bool_cases; simpl.
  - subst. by rewrite IH, gfMul_0_l, Z.lxor_0_l.
  - by rewrite IH, !gpow_alpha, Z.mul_comm.
Qed.

Lemma support_bytes l : bytes l → byte_pairs (support l).
Proof.
  induction 1 as [|c l Hc Hl IH]; simpl; [constructor|]. split_match; [done|].
  constructor; [|done]. simpl. auto with fh.
Qed.

Lemma support_locators l : Forall (λ X, ∃ k, (k < length l)%nat ∧ X = alpha (Z.of_nat k))
                             (map snd (support l)).
Proof.
  assert (Hs : ∀ n (ls : list Z), Forall (λ X, ∃ k, (k < n)%nat ∧ X = alpha (Z.of_nat k)) ls →
               Forall (λ X, ∃ k, (k < S n)%nat ∧ X = alpha (Z.of_nat k)) ls).
  { intros n ls H. eapply Forall_impl; [exact H|]. intros X (k & ? & ->). exists k. auto. }
  induction l as [|c l IH]; simpl; [constructor|]. split_match; [by apply Hs|].
  simpl. constructor; [|by apply Hs]. exists (length l). auto.
Qed.

Lemma alpha_inj (i j : nat) :
  (i < 255)%nat → (j < 255)%nat → alpha (Z.of_nat i) = alpha (Z.of_nat j) → i = j.
Proof.
  intros Hi Hj H. apply (f_equal (zget GF_LOG)) in H. rewrite !log_exp in H.
  rewrite !Z.mod_small in H by lia. lia.
Qed.

Lemma support_NoDup l : (length l ≤ 255)%nat → NoDup (map snd (support l)).
Proof.
  induction l as [|c l IH]; intros Hl; simpl in *; [constructor|].
  split_match; [apply IH; lia|]. simpl. constructor; [|apply IH; lia].
  pose proof (support_locators l) as H. rewrite Forall_forall in H.
  intros Hin. destruct (H _ Hin) as (k & Hk & E). apply alpha_inj in E; lia.
Qed.

Lemma support_nonzero l : Forall (λ p, p.1 ≠ 0) (support l).
Proof.
  induction l as [|c l IH]; simpl; [constructor|].
  destruct (c =? 0) eqn:E; bool_cases; [done|]. by constructor.
Qed.

Lemma support_nil l : support l = [] → l = replicate (length l) 0.
Proof.
  induction l as [|c l IH]; simpl; [done|].
  destruct (c =? 0) eqn:E; bool_cases; [|done]. intros H. by rewrite E, <- IH.
Qed.

(** The number of positions where two words differ. *)
Definition hamming (u v : list Z) : nat := length (support (zip_with Z.lxor u v)).

Lemma codeword_support w ec :
  bytes w → (length w ≤ 255)%nat → is_codeword w ec → (length (support w) ≤ ec)%nat →
  support w = [].
Proof.
  intros Hb Hl Hc Hs.
  assert (Hz : Forall (λ p, p.1 = 0) (support w)).
  { apply vandermonde; [by apply support_bytes|by apply support_NoDup|].
    intros i Hi. rewrite psum_support. apply Hc. lia. }
  pose proof (support_nonzero w) as Hn. destruct (support w) as [|p ps]; [done|].
  inversion Hz; inversion Hn; done.
Qed.

Lemma zip_lxor_zero u v :
  length u = length v → zip_with Z.lxor u v = replicate (length u) 0 → u = v.
Proof.
  revert v. induction u as [|a u IH]; intros [|b v] Hl H; simpl in *; try done.
  injection H as H1 H2. apply lxor_zero in H1. subst. f_equal. apply IH; [lia|done].
Qed.

Lemma zip_lxor_bytes u v : bytes u → bytes v → bytes (zip_with Z.lxor u v).
Proof.
  intros Hu. revert v. induction Hu; intros v Hv; simpl; [constructor|].
  destruct Hv; constructor; auto with fh.
Qed.

Lemma rs_distance ec u v :
  bytes u → bytes v → length u = length v → (length u ≤ 255)%nat →
  is_codeword u ec → is_codeword v ec → (hamming u v ≤ ec)%nat → u = v.
Proof.
  intros Hu Hv Hl Hn Cu Cv Hh. apply zip_lxor_zero; [done|].
  assert (Hlen : length (zip_with Z.lxor u v) = length u) by (rewrite length_zip_with; lia).
  rewrite <- Hlen at 1. apply support_nil, codeword_support with ec.
  - by apply zip_lxor_bytes.
  - lia.
  - intros i Hi. rewrite peval_lxor, Cu, Cv by auto with fh. done.
  - exact Hh.
Qed.

Lemma hamming_cons a b u v :
  hamming (a :: u) (b :: v) = ((if (a =? b)%Z then 0 else 1) + hamming u v)%nat.
Proof.
  unfold hamming. simpl. destruct (Z.eqb_spec a b) as [->|Hne].
  - by rewrite Z.lxor_nilpotent.
  - destruct (Z.eqb_spec (Z.lxor a b) 0) as [E|]; [|done]. by apply lxor_zero in E.
Qed.

Lemma hamming_sym u v : hamming u v = hamming v u.
Proof.
  unfold hamming. do 2 f_equal. revert v. induction u as [|a u IH]; intros [|b v]; simpl; auto.
  by rewrite Z.lxor_comm, IH.
Qed.

Lemma hamming_triangle u r v : length u = length r → length r = length v →
  (hamming u v ≤ hamming u r + hamming r v)%nat.
Proof.
  revert r v. induction u as [|a u IH]; intros [|c r] [|b v] H1 H2; simpl in *; try lia.
  rewrite !hamming_cons. specialize (IH r v).
  destruct (Z.eqb_spec a b), (Z.eqb_spec a c), (Z.eqb_spec c b); subst; lia || congruence.
Qed.

(** ** The reference product: carry-less multiplication, then reduction *)

Definition clmul (a b : Z) : Z :=
  foldr (λ i acc, Z.lxor (if Z.testbit b (Z.of_nat i) then Z.shiftl a (Z.of_nat i) else 0) acc)
    0 (seq 0 8).

(** Cancel the bits 14 down to 8 with multiples of the field polynomial. *)
Definition gf_cancel (r : Z) (i : nat) : Z :=
  if Z.testbit r (Z.of_nat i) then Z.lxor r (Z.shiftl GF_POLY (Z.of_nat i - 8)) else r.

Definition gf_reduce (r : Z) : Z := foldl gf_cancel r (rev (seq 8 7)).

Lemma gf_cancel_lxor r s i :
  gf_cancel (Z.lxor r s) i = Z.lxor (gf_cancel r i) (gf_cancel s i).
Proof.
  unfold gf_cancel. rewrite Z.lxor_spec. apply Z.bits_inj. intros j.
  destruct (Z.testbit r _), (Z.testbit s _); simpl; rewrite !Z.lxor_spec; btauto.
Qed.

Lemma gf_reduce_lxor r s : gf_reduce (Z.lxor r s) = Z.lxor (gf_reduce r) (gf_reduce s).
Proof.
  unfold gf_reduce. generalize (rev (seq 8 7)) as l. intros l. revert r s.
  induction l as [|i l IH]; intros r s; simpl; [done|]. by rewrite gf_cancel_lxor, IH.
Qed.

Lemma gf_reduce_shift a i :
  is_byte a → (i < 8)%nat → gf_reduce (Z.shiftl a (Z.of_nat i)) = gfMul (alpha (Z.of_nat i)) a.
Proof.
  assert (H : forallb_below (λ j, forallb_below (λ a,
    gf_reduce (Z.shiftl (Z.of_nat a) (Z.of_nat j)) =? Nat.iter j xtime (Z.of_nat a)) 256) 8 = true)
    by (vm_compute; reflexivity).
  intros Ha Hi. pose proof (forallb_below_spec _ _ H i Hi) as Hc. cbv beta in Hc.
  pose proof (forallb_below_Z _ _ Hc a Ha) as Hd. cbv beta in Hd. bool_cases.
  unfold is_byte in Ha. rewrite Z2Nat.id in Hd by lia. rewrite Hd. clear -Ha.
  induction i as [|i IH].
  { change (Z.of_nat 0) with 0. by rewrite exp_0, gfMul_1_l. }
  rewrite Nat2Z.inj_succ, <- Z.add_1_r, gfMul_alpha_succ by done. simpl. by rewrite IH.
Qed.

Lemma alpha_pow2 (i : nat) : (i < 8)%nat → alpha (Z.of_nat i) = 2 ^ Z.of_nat i.
Proof.
  assert (H : forallb_below (λ i, alpha (Z.of_nat i) =? 2 ^ Z.of_nat i) 8 = true)
    by (vm_compute; reflexivity).
  intros Hi. pose proof (forallb_below_spec _ _ H i Hi) as Hc. cbv beta in Hc. by bool_cases.
Qed.

(** A byte is the exclusive or of the powers of two of its bits. *)
Definition byte_bits (b : Z) (l : list nat) : Z :=
  foldr (λ i acc, Z.lxor (if Z.testbit b (Z.of_nat i) then alpha (Z.of_nat i) else 0) acc) 0 l.

Lemma byte_bits_spec b : is_byte b → byte_bits b (seq 0 8) = b.
Proof.
  assert (H : forallb_below (λ b, byte_bits (Z.of_nat b) (seq 0 8) =? Z.of_nat b) 256 = true)
    by (vm_compute; reflexivity).
  intros Hb. pose proof (forallb_below_Z _ _ H b Hb) as Hc. cbv beta in Hc. bool_cases.
  unfold is_byte in Hb. by rewrite Z2Nat.id in Hc by lia.
Qed.

Lemma clmul_reduce a b l :
  is_byte a → Forall (λ i, i < 8)%nat l →
  gf_reduce (foldr (λ i acc, Z.lxor (if Z.testbit b (Z.of_nat i)
                    then Z.shiftl a (Z.of_nat i) else 0) acc) 0 l)
  = gfMul (byte_bits b l) a ∧ is_byte (byte_bits b l).
Proof.
  intros Ha H. induction H as [|i l Hi Hl [IH IHb]]; simpl; [by auto with fh|].
  assert (is_byte (if Z.testbit b (Z.of_nat i) then alpha (Z.of_nat i) else 0))
    by (split_match; auto with fh).
  split; [|auto with fh]. rewrite gf_reduce_lxor, IH, gfMul_lxor_l by auto with fh. f_equal.
  split_match; [by apply gf_reduce_shift|done].
Qed.

(** * Properties *)

(** [gfMul], the table lookup of the source, is multiplication in GF(2^8):
    carry-less multiplication of the bytes reduced modulo [GF_POLY]. *)
Theorem gfMul_reference a b :
  is_byte a → is_byte b → gfMul a b = gf_reduce (clmul a b).
Proof.
  intros Ha Hb. rewrite <- (byte_bits_spec b Hb) at 1. rewrite gfMul_comm.
  unfold clmul. destruct (clmul_reduce a b (seq 0 8) Ha) as [-> _]; [|done].
  apply Forall_forall. intros i Hi%list_elem_of_In%in_seq. lia.
Qed.

Lemma gfMul_reference_witness :
  is_byte 0x53 ∧ is_byte 0xca ∧ gfMul 0x53 0xca = gf_reduce (clmul 0x53 0xca).
Proof.
  assert (is_byte 0x53) by (unfold is_byte; lia). assert (is_byte 0xca) by (unfold is_byte; lia).
  split; [done|split; [done|]]. apply (gfMul_reference 0x53 0xca); done.
Defined.

(** C37: [rsEncode] yields [ecCount] bytes, and the message followed by them has
    only zero syndromes.  The code corrects: when a received word of a block of
    at most 255 bytes differs from the block of a message in at most half as
    many positions as there are check bytes, no other message is as near. *)
Theorem rsEncode_corrects data ec :
  bytes data → (length data + ec ≤ 255)%nat →
  length (rsEncode data ec) = ec ∧ bytes (rsEncode data ec) ∧
  is_codeword (data ++ rsEncode data ec) ec ∧
  ∀ data' received, bytes data' → length data' = length data →
    length received = (length data + ec)%nat →
    (2 * hamming (data ++ rsEncode data ec) received ≤ ec)%nat →
    (2 * hamming (data' ++ rsEncode data' ec) received ≤ ec)%nat → data' = data.
Proof.
  intros Hb Hn. destruct (rsEncode_spec data ec Hb) as (Hl & Hbe & Hc); [lia|].
  split; [done|split; [done|split; [done|]]]. intros data' r Hb' Hl' Hr Hd Hd'.
  destruct (rsEncode_spec data' ec Hb') as (Hle & Hbe' & Hc'); [lia|].
  assert (E : data' ++ rsEncode data' ec = data ++ rsEncode data ec); [|by apply app_inj_1 in E as [-> _]].
  assert (Hs := λ u v, length_app (A := Z) u v).
  pose proof (hamming_triangle (data' ++ rsEncode data' ec) r (data ++ rsEncode data ec)) as Ht.
  rewrite (hamming_sym r) in Ht.
  apply (rs_distance ec); auto using Forall_app_2; try (rewrite !Hs; lia).
  etransitivity; [apply Ht|]; rewrite ?Hs; lia.
Qed.

Lemma rsEncode_corrects_witness :
  let block := [32; 91; 11] ++ rsEncode [32; 91; 11] 4 in
  let received := [32; 90; 11] ++ [0] ++ drop 4 block in
  hamming block received = 2%nat ∧
  (∀ data', bytes data' → length data' = 3%nat →
    (2 * hamming (data' ++ rsEncode data' 4) received ≤ 4)%nat → data' = [32; 91; 11]).
Proof.
  intros block received.
  assert (Hh : hamming block received = 2%nat) by (vm_compute; reflexivity).
  assert (Hb : bytes [32; 91; 11]) by (repeat constructor; lia).
  assert (Hr : length received = 7%nat) by (vm_compute; reflexivity).
  split; [exact Hh|]. intros data' Hb' Hl' Hd.
  destruct (rsEncode_corrects [32; 91; 11] 4 Hb ltac:(simpl; lia)) as (_ & _ & _ & H).
  apply (H data' received Hb' Hl' Hr); [|exact Hd].
  change ((2 * hamming block received ≤ 4)%nat). rewrite Hh. lia.
Defined.
