(* ===== verification/QrEncode.v ===== *)
(** * Encoding of text into QR codewords

    The middle section of [services/auth-bridge/qr.ts]: the version tables,
    [selectVersion], [encodeData] (the bit stream of a message) and
    [buildCodewords] (the Reed-Solomon blocks and their interleaving). *)

From Stdlib Require Import Btauto.
From S2P Require Import Prelude QrField.
Local Open Scope Z_scope.

(** ** TextEncoder

    A JavaScript string is a list of UTF-16 code units.  [TextEncoder.encode]
    yields UTF-8 and replaces a surrogate without its partner by U+FFFD. *)

Definition is_high_surrogate (u : Z) : bool := (0xd800 <=? u) && (u <? 0xdc00).
Definition is_low_surrogate (u : Z) : bool := (0xdc00 <=? u) && (u <? 0xe000).

Fixpoint code_points (units : list Z) : list Z :=
  match units with
  | [] => []
  | u :: rest =>
      if is_high_surrogate u then
        match rest with
        | w :: rest' =>
            if is_low_surrogate w
            then (0x10000 + (u - 0xd800) * 0x400 + (w - 0xdc00)) :: code_points rest'
            else 0xfffd :: code_points rest
        | [] => [0xfffd]
        end
      else if is_low_surrogate u then 0xfffd :: code_points rest
      else u :: code_points rest
  end.

Definition utf8_bytes (cp : Z) : list Z :=
  if cp <? 0x80 then [cp]
  else if cp <? 0x800 then [0xc0 + cp / 0x40; 0x80 + cp mod 0x40]
  else if cp <? 0x10000 then
    [0xe0 + cp / 0x1000; 0x80 + cp / 0x40 mod 0x40; 0x80 + cp mod 0x40]
  else [0xf0 + cp / 0x40000; 0x80 + cp / 0x1000 mod 0x40;
        0x80 + cp / 0x40 mod 0x40; 0x80 + cp mod 0x40].

Definition utf8_encode (units : list Z) : list Z := mjoin (utf8_bytes <$> code_points units).

(** ** Version tables *)

Record version_info := VersionInfo {
  totalCW : nat;
  ecPerBlock : nat;
  blocks : nat;
  dataCW : nat;
}.

(** The table has the keys 1 to 4.  The source reads [undefined] at any other
    key; every caller passes a version of [selectVersion]. *)
Definition VERSION_TABLE (version : nat) : version_info :=
  match version with
  | 1 => VersionInfo 26 10 1 16
  | 2 => VersionInfo 44 16 1 28
  | 3 => VersionInfo 70 26 1 44
  | 4 => VersionInfo 100 18 2 64
  | _ => VersionInfo 0 0 0 0
  end%nat.

Definition BYTE_CAPACITY (version : nat) : nat :=
  match version with 1 => 14 | 2 => 26 | 3 => 42 | 4 => 62 | _ => 0 end%nat.

Definition versionSize (version : nat) : nat := (17 + version * 4)%nat.

Definition charCountBits (version : nat) : nat := if (version <=? 9)%nat then 8%nat else 16%nat.

(** The message of the thrown error, without the two numbers in it. *)
Definition too_long : string := "Data too long. Max 62 bytes for Version 4 EC-M.".

(** The first of the versions 1 to 4 whose capacity is enough. *)
Definition selectVersion (dataLength : nat) : result nat :=
  match filter (λ v, dataLength ≤ BYTE_CAPACITY v)%nat (seq 1 4) with
  | v :: _ => Ok v
  | [] => Err too_long
  end.

(** ** The bit stream *)

(** [pushBits]: the low [count] bits of [value], highest first. *)
Definition pushBits (value : Z) (count : nat) : list Z :=
  map (λ i, Z.land (Z.shiftr value (Z.of_nat i)) 1) (rev (seq 0 count)).

(** [while (bits.length % 8 !== 0) bits.push(0)] *)
Fixpoint pad_to_byte (fuel : nat) (bits : list Z) : list Z :=
  match fuel with
  | O => bits
  | S fuel =>
      if (length bits mod 8 =? 0)%nat then bits else pad_to_byte fuel (bits ++ [0])
  end.

Definition padBytes : list Z := [0xec; 0x11].

(** [while (bits.length < totalDataBits) pushBits(padBytes[padIdx++ % 2], 8)] *)
Fixpoint pad_codewords (fuel totalDataBits padIdx : nat) (bits : list Z) : list Z :=
  match fuel with
  | O => bits
  | S fuel =>
      if (length bits <? totalDataBits)%nat
      then pad_codewords fuel totalDataBits (S padIdx)
             (bits ++ pushBits (nth (padIdx mod 2) padBytes 0) 8)
      else bits
  end.

(** The byte at [bits[i .. i+7]], [0] standing for a bit past the end. *)
Definition byte_at (bits : list Z) (i : nat) : Z :=
  foldl (λ byte j, Z.lor (Z.shiftl byte 1) (nth (i + j) bits 0)) 0 (seq 0 8).

Definition bits_to_bytes (bits : list Z) : list Z :=
  map (λ k, byte_at bits (8 * k)) (seq 0 ((length bits + 7) / 8)).

Definition data_bits (data : list Z) : list Z := mjoin ((λ byte, pushBits byte 8) <$> data).

Definition encodeData (data : list Z) (version : nat) : list Z :=
  let info := VERSION_TABLE version in
  let bits := pushBits 4 4 ++ pushBits (Z.of_nat (length data)) (charCountBits version)
              ++ data_bits data in
  let totalDataBits := (dataCW info * 8)%nat in
  let terminatorLen := Nat.min 4 (totalDataBits - length bits) in
  let bits := bits ++ pushBits 0 terminatorLen in
  let bits := pad_to_byte 8 bits in
  let bits := pad_codewords totalDataBits totalDataBits 0 bits in
  bits_to_bytes bits.

(** ** Blocks and interleaving *)

Definition slice {A} (l : list A) (first last : nat) : list A := take (last - first) (drop first l).

Record block_state := BlockState {
  dataBlocks : list (list Z);
  ecBlocks : list (list Z);
  offset : nat;
}.

Definition split_block (info : version_info) (dataBytes : list Z) (st : block_state) (b : nat)
  : block_state :=
  let dataCWPerBlock := (dataCW info / blocks info)%nat in
  let shortBlocks := (blocks info - dataCW info mod blocks info)%nat in
  let blockLen := (dataCWPerBlock + if (shortBlocks <=? b)%nat then 1 else 0)%nat in
  let block := slice dataBytes (offset st) (offset st + blockLen) in
  BlockState (dataBlocks st ++ [block]) (ecBlocks st ++ [rsEncode block (ecPerBlock info)])
    (offset st + blockLen).

(** For each [i], the [i]-th byte of every block that has one. *)
Definition interleave (len : nat) (bs : list (list Z)) : list Z :=
  mjoin ((λ i, omap (λ block, block !! i) bs) <$> seq 0 len).

Definition buildCodewords (dataBytes : list Z) (version : nat) : list Z :=
  let info := VERSION_TABLE version in
  let st := foldl (split_block info dataBytes) (BlockState [] [] 0) (seq 0 (blocks info)) in
  let maxDataLen := foldr Nat.max 0%nat (map length (dataBlocks st)) in
  interleave maxDataLen (dataBlocks st) ++ interleave (ecPerBlock info) (ecBlocks st).

(** ** Reference decoder

    What a reader of the symbol computes, the inverse the theorems are about. *)

Definition bits_value (bits : list Z) : Z := foldl (λ acc b, 2 * acc + b) 0 bits.

(** Byte mode: a mode nibble 0100, a count of eight bits, the bytes. *)
Definition decodeData (codewords : list Z) : option (list Z) :=
  let bits := data_bits codewords in
  if bits_value (take 4 bits) =? 4 then
    let count := Z.to_nat (bits_value (take 8 (drop 4 bits))) in
    let payload := take (8 * count) (drop 12 bits) in
    if (length payload =? 8 * count)%nat
    then Some (map (λ k, bits_value (slice payload (8 * k) (8 * k + 8))) (seq 0 count))
    else None
  else None.

(** The data bytes of an interleaved stream of equal blocks. *)
Definition deinterleave (len n : nat) (codewords : list Z) : list (list Z) :=
  map (λ b, map (λ i, nth (i * n + b) codewords 0) (seq 0 len)) (seq 0 n).

Definition valid_version (v : nat) : Prop := (1 ≤ v ≤ 4)%nat.

(** ** Bits and bytes *)

Definition is_bit (b : Z) : Prop := b = 0 ∨ b = 1.
Abbreviation bits_ok := (Forall is_bit).

Lemma pushBits_S v n :
  pushBits v (S n) = Z.land (Z.shiftr v (Z.of_nat n)) 1 :: pushBits v n.
Proof. unfold pushBits. by rewrite seq_S, rev_unit. Qed.

Lemma low_bit x : Z.land x 1 = x mod 2.
Proof. change 1 with (Z.ones 1). by rewrite Z.land_ones by lia. Qed.

Lemma bit_of_value v n : Z.land (Z.shiftr v (Z.of_nat n)) 1 = (v / 2 ^ Z.of_nat n) mod 2.
Proof. by rewrite low_bit, Z.shiftr_div_pow2 by lia. Qed.

Lemma length_pushBits v n : length (pushBits v n) = n.
Proof. unfold pushBits. by rewrite length_map, length_rev, length_seq. Qed.

Lemma pushBits_bits v n : bits_ok (pushBits v n).
Proof.
  induction n as [|n IH]; [constructor|]. rewrite pushBits_S. constructor; [|done].
  rewrite low_bit. unfold is_bit. pose proof (Z.mod_pos_bound (Z.shiftr v (Z.of_nat n)) 2). lia.
Qed.
#[export] Hint Resolve pushBits_bits : fh.

Lemma bits_value_cons_acc bits acc :
  foldl (λ acc b, 2 * acc + b) acc bits = acc * 2 ^ Z.of_nat (length bits) + bits_value bits.
Proof.
  revert acc. induction bits as [|b bits IH]; intros acc; [unfold bits_value; simpl; lia|].
  unfold bits_value. cbn [foldl length]. rewrite !IH, Nat2Z.inj_succ, Z.pow_succ_r by lia.
  unfold bits_value. lia.
Qed.

Lemma bits_value_cons b bits :
  bits_value (b :: bits) = b * 2 ^ Z.of_nat (length bits) + bits_value bits.
Proof. unfold bits_value at 1. cbn [foldl]. rewrite bits_value_cons_acc. lia. Qed.

Lemma bits_value_bound bits : bits_ok bits → 0 ≤ bits_value bits < 2 ^ Z.of_nat (length bits).
Proof.
  induction 1 as [|b bits Hb _ IH]; [unfold bits_value; simpl; lia|].
  rewrite bits_value_cons. cbn [length]. rewrite Nat2Z.inj_succ, Z.pow_succ_r by lia.
  unfold is_bit in Hb. nia.
Qed.

Lemma bits_value_pushBits v n : bits_value (pushBits v n) = v mod 2 ^ Z.of_nat n.
Proof.
  induction n as [|n IH]; [by rewrite Z.mod_1_r|].
  rewrite pushBits_S, bits_value_cons, length_pushBits, IH, bit_of_value.
  rewrite Nat2Z.inj_succ, Z.pow_succ_r, (Z.mul_comm 2), Z.rem_mul_r by lia. lia.
Qed.

Lemma pushBits_shift c v n : pushBits (c * 2 ^ Z.of_nat n + v) n = pushBits v n.
Proof.
  unfold pushBits. apply map_ext_in. intros i Hi%in_rev%in_seq. rewrite !bit_of_value.
  replace (Z.of_nat n) with (Z.of_nat i + 1 + Z.of_nat (n - i - 1)) by lia.
  rewrite !Z.pow_add_r, Z.pow_1_r by lia.
  replace (c * (2 ^ Z.of_nat i * 2 * 2 ^ Z.of_nat (n - i - 1)) + v)
    with (v + c * 2 ^ Z.of_nat (n - i - 1) * 2 * 2 ^ Z.of_nat i) by ring.
  rewrite Z.div_add by lia. by rewrite Z.mod_add by lia.
Qed.

Lemma pushBits_value bits : bits_ok bits → pushBits (bits_value bits) (length bits) = bits.
Proof.
  induction 1 as [|b bits Hb Hbits IH]; [done|].
  cbn [length]. rewrite pushBits_S, bits_value_cons, pushBits_shift, IH, bit_of_value. f_equal.
  pose proof (bits_value_bound bits Hbits). rewrite Z.add_comm, Z.div_add, Z.div_small by lia.
  destruct Hb as [->| ->]; done.
Qed.

Lemma length_data_bits data : length (data_bits data) = (8 * length data)%nat.
Proof.
  induction data as [|b data IH]; [done|].
  change (data_bits (b :: data)) with (pushBits b 8 ++ data_bits data).
  rewrite length_app, IH, length_pushBits. simpl. lia.
Qed.

Lemma data_bits_bits data : bits_ok (data_bits data).
Proof.
  induction data as [|b data IH]; [constructor|].
  change (data_bits (b :: data)) with (pushBits b 8 ++ data_bits data).
  apply Forall_app. auto with fh.
Qed.
#[export] Hint Resolve data_bits_bits : fh.

Lemma length_slice {A} (l : list A) i j : (j ≤ length l)%nat → length (slice l i j) = (j - i)%nat.
Proof. intros. unfold slice. rewrite length_take, length_drop. lia. Qed.

Lemma slice_bits l i j : bits_ok l → bits_ok (slice l i j).
Proof. intros. by apply Forall_take, Forall_drop. Qed.
#[export] Hint Resolve slice_bits : fh.

Lemma shift_or a b : is_bit b → Z.lor (Z.shiftl a 1) b = 2 * a + b.
Proof.
  intros Hb. rewrite Z.shiftl_mul_pow2 by lia. change (2 ^ 1) with 2.
  rewrite (Z.mul_comm a 2). destruct Hb as [->| ->]; [by rewrite Z.lor_0_r, Z.add_0_r|].
  apply Z.bits_inj. intros n. rewrite Z.lor_spec.
  destruct (Z.lt_trichotomy n 0) as [Hn|[->|Hn]].
  - by rewrite !Z.testbit_neg_r.
  - rewrite Z.testbit_odd_0, Z.testbit_even_0. done.
  - rewrite (Z.bits_above_log2 1 n) by (simpl; lia).
    replace n with (Z.succ (n - 1)) by lia.
    rewrite Z.testbit_even_succ, Z.testbit_odd_succ by lia. btauto.
Qed.

Lemma byte_at_fold bits i n :
  bits_ok bits →
  foldl (λ byte j, Z.lor (Z.shiftl byte 1) (nth (i + j) bits 0)) 0 (seq 0 n) =
  bits_value (map (λ j, nth (i + j) bits 0) (seq 0 n)).
Proof.
  intros Hb. induction n as [|n IH]; [done|].
  rewrite seq_S, foldl_app, map_app, IH. unfold bits_value. rewrite foldl_app. simpl.
  apply shift_or. rewrite nth_lookup.
  destruct (bits !! (i + n)%nat) eqn:E; simpl; [|by left]. by apply (Forall_lookup_1 _ _ _ _ Hb E).
Qed.

Lemma map_nth_slice (bits : list Z) i n :
  (i + n ≤ length bits)%nat → map (λ j, nth (i + j) bits 0) (seq 0 n) = slice bits i (i + n).
Proof.
  intros Hl. apply list_eq_same_length with n.
  - by rewrite length_slice by lia; lia.
  - by rewrite length_map, length_seq.
  - intros j x y Hj. rewrite list_lookup_fmap, lookup_seq_lt by lia. simpl. intros [= <-].
    unfold slice. rewrite lookup_take_lt, lookup_drop by lia. intros Hy.
    by apply nth_lookup_Some.
Qed.

(** Eight consecutive bits of a stream, as [byte_at] reads them. *)
Lemma byte_at_slice bits i :
  bits_ok bits → (i + 8 ≤ length bits)%nat → byte_at bits i = bits_value (slice bits i (i + 8)).
Proof. intros. unfold byte_at. by rewrite byte_at_fold, map_nth_slice. Qed.

Lemma mjoin_slices (bits : list Z) n :
  (8 * n ≤ length bits)%nat →
  mjoin (map (λ k, slice bits (8 * k) (8 * k + 8)) (seq 0 n)) = take (8 * n) bits.
Proof.
  induction n as [|n IH]; intros Hl; [by rewrite take_0|].
  rewrite seq_S, map_app. cbn [Nat.add]. rewrite join_app, IH by lia.
  change (mjoin (map ?f [n])) with (f n ++ []). rewrite app_nil_r.
  unfold slice. replace (8 * n + 8 - 8 * n)%nat with 8%nat by lia.
  rewrite take_take_drop. f_equal. lia.
Qed.

Lemma data_bits_of_bytes bits n :
  bits_ok bits → length bits = (8 * n)%nat →
  data_bits (bits_to_bytes bits) = bits ∧ length (bits_to_bytes bits) = n ∧
  bytes (bits_to_bytes bits).
Proof.
  intros Hb Hl. unfold bits_to_bytes.
  replace ((length bits + 7) / 8)%nat with n.
  2:{ rewrite Hl. apply Nat.div_unique with 7%nat; lia. }
  assert (Hat : ∀ k, (k < n)%nat →
            byte_at bits (8 * k) = bits_value (slice bits (8 * k) (8 * k + 8)))
    by (intros; apply byte_at_slice; [done|lia]).
  split; [|split].
  - unfold data_bits. rewrite <- list_fmap_compose.
    transitivity (mjoin (map (λ k, slice bits (8 * k) (8 * k + 8)) (seq 0 n))).
    + f_equal. apply map_ext_in. intros k Hk%in_seq. unfold compose. rewrite Hat by lia.
      pose proof (pushBits_value (slice bits (8 * k) (8 * k + 8)) ltac:(auto with fh)) as Hp.
      rewrite length_slice in Hp by lia.
      by replace (8 * k + 8 - 8 * k)%nat with 8%nat in Hp by lia.
    + rewrite mjoin_slices by lia. rewrite <- Hl. by apply take_ge.
  - by rewrite length_map, length_seq.
  - apply Forall_forall. intros b Hin%list_elem_of_In%in_map_iff. destruct Hin as (k & <- & Hk%in_seq).
    rewrite Hat by lia. unfold is_byte.
    pose proof (bits_value_bound (slice bits (8 * k) (8 * k + 8)) ltac:(auto with fh)) as Hv.
    rewrite length_slice in Hv by lia. replace (8 * k + 8 - 8 * k)%nat with 8%nat in Hv by lia.
    change (2 ^ Z.of_nat 8) with 256 in Hv. lia.
Qed.

(** ** The padding loops *)

Lemma pad_to_byte_aligned fuel bits : (length bits mod 8 = 0)%nat → pad_to_byte fuel bits = bits.
Proof. intros H. destruct fuel; cbn [pad_to_byte]; [done|]. by rewrite H. Qed.

Lemma pad_codewords_fills fuel t m padIdx bits :
  length bits = (8 * m)%nat → (m ≤ t)%nat → (t - m ≤ fuel)%nat →
  ∃ rest, pad_codewords fuel (8 * t) padIdx bits = bits ++ rest ∧
          length (bits ++ rest) = (8 * t)%nat ∧ bits_ok rest.
Proof.
  revert m padIdx bits. induction fuel as [|fuel IH]; intros m padIdx bits Hl Hm Hf;
    cbn [pad_codewords].
  - exists []. rewrite app_nil_r. split; [done|]. split; [lia|constructor].
  - destruct (length bits <? _)%nat eqn:E; bool_cases.
    + destruct (IH (S m) (S padIdx) (bits ++ pushBits (nth (padIdx mod 2) padBytes 0) 8))
        as (rest & -> & Hlen & Hok); [rewrite length_app, length_pushBits; lia|lia|lia|].
      eexists. rewrite <- app_assoc. split; [done|]. rewrite app_assoc. split; [done|].
      apply Forall_app. auto with fh.
    + exists []. rewrite app_nil_r. split; [done|]. split; [lia|constructor].
Qed.

Lemma capacity_dataCW v : valid_version v → BYTE_CAPACITY v = (dataCW (VERSION_TABLE v) - 2)%nat ∧
  (2 ≤ dataCW (VERSION_TABLE v))%nat ∧ charCountBits v = 8%nat ∧ (BYTE_CAPACITY v ≤ 62)%nat.
Proof.
  intros [? ?]. destruct v as [|[|[|[|[|v]]]]]; try lia; repeat split; cbv; lia.
Qed.

Definition header_bits (data : list Z) : list Z :=
  pushBits 4 4 ++ pushBits (Z.of_nat (length data)) 8 ++ data_bits data.

(** The bit stream of a message that fits: header, message, zero terminator and
    padding up to the data capacity of the version. *)
Lemma encodeData_stream data v :
  valid_version v → (length data ≤ BYTE_CAPACITY v)%nat →
  ∃ rest, bits_ok rest ∧
    length (header_bits data ++ rest) = (8 * dataCW (VERSION_TABLE v))%nat ∧
    encodeData data v = bits_to_bytes (header_bits data ++ rest).
Proof.
  intros Hv Hn. destruct (capacity_dataCW v Hv) as (Hc & H2 & Hcc & _).
  unfold encodeData. rewrite Hcc. fold (header_bits data).
  assert (Hh : length (header_bits data) = (12 + 8 * length data)%nat).
  { unfold header_bits. rewrite !length_app, !length_pushBits, length_data_bits. lia. }
  set (t := dataCW (VERSION_TABLE v)) in *. rewrite Hh.
  replace (Nat.min 4 _) with 4%nat by lia.
  assert (Hl : length (header_bits data ++ pushBits 0 4) = (8 * (length data + 2))%nat)
    by (rewrite length_app, Hh, length_pushBits; lia).
  rewrite pad_to_byte_aligned by (rewrite Hl, Nat.mul_comm; apply Nat.Div0.mod_mul).
  destruct (pad_codewords_fills (t * 8) t (length data + 2) 0 _ Hl) as (rest & E & Hlen & Hok);
    [lia|lia|].
  exists (pushBits 0 4 ++ rest). rewrite app_assoc. split; [apply Forall_app; auto with fh|].
  split; [done|]. rewrite (Nat.mul_comm t 8) in *. by rewrite E.
Qed.

Lemma take_app_exact {A} (l1 l2 : list A) n : n = length l1 → take n (l1 ++ l2) = l1.
Proof. intros ->. apply take_app_length. Qed.

Lemma drop_app_exact {A} (l1 l2 : list A) n : n = length l1 → drop n (l1 ++ l2) = l2.
Proof. intros ->. apply drop_app_length. Qed.

Lemma slice_data_bits data k :
  (k < length data)%nat → slice (data_bits data) (8 * k) (8 * k + 8) = pushBits (nth k data 0) 8.
Proof.
  revert k. induction data as [|b data IH]; intros k Hk; simpl in Hk; [lia|].
  change (data_bits (b :: data)) with (pushBits b 8 ++ data_bits data).
  destruct k as [|k].
  - unfold slice. simpl (8 * 0)%nat. rewrite drop_0. by apply take_app_exact.
  - unfold slice in *. rewrite drop_app_ge by (rewrite length_pushBits; lia).
    rewrite length_pushBits. replace (8 * S k - 8)%nat with (8 * k)%nat by lia.
    replace (8 * S k + 8 - 8 * S k)%nat with (8 * k + 8 - 8 * k)%nat by lia.
    apply IH. lia.
Qed.

Lemma map_nth_id (data : list Z) : map (λ k, nth k data 0) (seq 0 (length data)) = data.
Proof.
  apply list_eq_same_length with (length data); [done|by rewrite length_map, length_seq|].
  intros i x y Hi. rewrite list_lookup_fmap, lookup_seq_lt by lia. simpl. intros [= <-] Hy.
  by apply nth_lookup_Some.
Qed.

Lemma decode_header data rest cws :
  bytes data → (length data < 256)%nat → data_bits cws = header_bits data ++ rest →
  decodeData cws = Some data.
Proof.
  intros Hb Hn E. unfold decodeData. rewrite E. unfold header_bits.
  rewrite <- !app_assoc. rewrite take_app_exact, bits_value_pushBits by done. simpl (_ =? 4).
  rewrite drop_app_exact, take_app_exact, bits_value_pushBits by done. cbv iota.
  rewrite Z.mod_small by (simpl; lia). rewrite Nat2Z.id.
  rewrite (app_assoc (pushBits 4 4)), drop_app_exact by done.
  rewrite take_app_exact by (by rewrite length_data_bits).
  rewrite length_data_bits, Nat.eqb_refl. f_equal.
  transitivity (map (λ k, nth k data 0) (seq 0 (length data))); [|apply map_nth_id].
  apply map_ext_in. intros k Hk%in_seq.
  rewrite slice_data_bits, bits_value_pushBits by lia. apply Z.mod_small.
  pose proof (nth_byte data k Hb) as H. unfold is_byte in H. simpl. lia.
Qed.

Lemma encodeData_decodes data v :
  valid_version v → bytes data → (length data ≤ BYTE_CAPACITY v)%nat →
  length (encodeData data v) = dataCW (VERSION_TABLE v) ∧ bytes (encodeData data v) ∧
  decodeData (encodeData data v) = Some data.
Proof.
  intros Hv Hb Hn. destruct (encodeData_stream data v Hv Hn) as (rest & Hok & Hl & ->).
  assert (Hbits : bits_ok (header_bits data ++ rest)).
  { unfold header_bits. rewrite !Forall_app. auto 6 with fh. }
  destruct (data_bits_of_bytes _ _ Hbits Hl) as (Hd & Hlen & Hby).
  split; [done|]. split; [done|]. apply decode_header with rest; [done| |done].
  destruct (capacity_dataCW v Hv) as (_ & _ & _ & ?). lia.
Qed.

(** ** Interleaving of equal blocks *)

Section Uniform.
Context (f : nat → list Z) (nb : nat).

Lemma uniform_join n :
  (∀ i, (i < n)%nat → length (f i) = nb) →
  length (mjoin (map f (seq 0 n))) = (n * nb)%nat ∧
  ∀ i b, (i < n)%nat → (b < nb)%nat →
    nth (i * nb + b) (mjoin (map f (seq 0 n))) 0 = nth b (f i) 0.
Proof.
  induction n as [|n IH]; intros Hf; [split; [done|lia]|].
  destruct IH as [Hl Hn]; [auto|].
  rewrite seq_S, map_app, join_app. change (mjoin (map f [(0 + n)%nat])) with (f n ++ []).
  rewrite app_nil_r. split.
  - rewrite length_app, Hl, Hf by lia. lia.
  - intros i b Hi Hb. destruct (decide (i = n)) as [->|Hne].
    + rewrite app_nth2 by lia. f_equal. lia.
    + rewrite app_nth1 by nia. apply Hn; lia.
Qed.
End Uniform.

Lemma omap_all (bs : list (list Z)) m i :
  Forall (λ b, length b = m) bs → (i < m)%nat →
  omap (λ block, block !! i) bs = map (λ block, nth i block 0) bs.
Proof.
  intros H Hi. induction H as [|b bs Hb _ IH]; [done|].
  destruct (lookup_lt_is_Some_2 b i) as [x Hx]; [lia|].
  change (omap ?g (b :: bs)) with (match g b with Some y => y :: omap g bs | None => omap g bs end).
  cbv beta. rewrite Hx, IH. simpl. f_equal. symmetry. by apply nth_lookup_Some.
Qed.

Lemma interleave_uniform m bs :
  Forall (λ b, length b = m) bs →
  interleave m bs = mjoin (map (λ i, map (λ block, nth i block 0) bs) (seq 0 m)).
Proof.
  intros H. unfold interleave. f_equal. apply map_ext_in. intros i Hi%in_seq.
  apply (omap_all bs m); [done|lia].
Qed.

Lemma length_interleave m bs :
  Forall (λ b, length b = m) bs → length (interleave m bs) = (m * length bs)%nat.
Proof.
  intros H. rewrite interleave_uniform by done. apply uniform_join.
  intros. apply length_map.
Qed.

Lemma deinterleave_interleave m bs rest :
  Forall (λ b, length b = m) bs → deinterleave m (length bs) (interleave m bs ++ rest) = bs.
Proof.
  intros H. pose proof (length_interleave m bs H) as Hlen. revert Hlen.
  rewrite interleave_uniform by done. intros Hlen.
  destruct (uniform_join (λ i, map (λ block, nth i block 0) bs) (length bs) m) as [_ Hn];
    [intros; apply length_map|].
  unfold deinterleave. apply list_eq_same_length with (length bs); [done|by rewrite length_map, length_seq|].
  intros b x y Hb. rewrite list_lookup_fmap, lookup_seq_lt by lia. simpl. intros [= <-] Hy.
  assert (Hm : length y = m) by (by apply (Forall_lookup_1 _ _ _ _ H Hy)).
  rewrite <- (map_nth_id y), Hm. apply map_ext_in. intros i Hi%in_seq.
  rewrite app_nth1 by nia. rewrite Hn by lia.
  rewrite (nth_indep _ 0 (nth i [] 0)) by (rewrite length_map; lia).
  rewrite (map_nth (λ block, nth i block 0)). by rewrite (nth_lookup_Some _ _ _ _ Hy).
Qed.

Lemma interleave_bytes m bs : Forall bytes bs → bytes (interleave m bs).
Proof.
  intros H. apply Forall_forall. intros x Hx. unfold interleave in Hx.
  apply list_elem_of_join in Hx as (row & Hx & Hrow).
  apply list_elem_of_fmap in Hrow as (i & -> & _).
  apply list_elem_of_omap in Hx as (b & Hb & Hi).
  rewrite Forall_forall in H. by apply (Forall_lookup_1 _ _ _ _ (H b Hb) Hi).
Qed.

Lemma bytes_of_data_bits d : bytes d → bits_to_bytes (data_bits d) = d.
Proof.
  intros Hb. unfold bits_to_bytes. rewrite length_data_bits.
  replace ((8 * length d + 7) / 8)%nat with (length d)
    by (apply Nat.div_unique with 7%nat; lia).
  transitivity (map (λ k, nth k d 0) (seq 0 (length d))); [|apply map_nth_id].
  apply map_ext_in. intros k Hk%in_seq.
  rewrite byte_at_slice by (rewrite ?length_data_bits; auto with fh; lia).
  rewrite slice_data_bits, bits_value_pushBits by lia. apply Z.mod_small.
  pose proof (nth_byte d k Hb) as H. unfold is_byte in H. simpl. lia.
Qed.

(** ** UTF-8 *)

Definition is_unit (u : Z) : Prop := 0 ≤ u < 0x10000.

Lemma code_points_bound units :
  Forall is_unit units → Forall (λ cp, 0 ≤ cp < 0x110000) (code_points units).
Proof.
  intros H. remember (length units) as n eqn:Hn. revert units Hn H.
  induction n as [n IH] using lt_wf_ind. intros [|u units] Hn H; [constructor|].
  apply Forall_cons in H as [Hu H]. unfold is_unit in Hu. cbn [code_points].
  destruct (is_high_surrogate u) eqn:Eh.
  - destruct units as [|w units].
    + repeat constructor; lia.
    + destruct (is_low_surrogate w) eqn:El.
      * unfold is_high_surrogate, is_low_surrogate in *. bool_cases.
        apply Forall_cons in H as [_ H]. constructor; [lia|].
        eapply IH; [|reflexivity|done]. simpl in Hn. lia.
      * constructor; [lia|]. eapply IH; [|reflexivity|done]. simpl in Hn. simpl. lia.
  - assert (Forall (λ cp, 0 ≤ cp < 0x110000) (code_points units))
      by (eapply IH; [|reflexivity|done]; simpl in Hn; lia).
    split_match; constructor; try done; lia.
Qed.

Lemma utf8_bytes_bytes cp : 0 ≤ cp < 0x110000 → bytes (utf8_bytes cp).
Proof.
  intros H. unfold utf8_bytes. repeat split_match; bool_cases; repeat constructor; Z.to_euclidean_division_equations; lia.
Qed.

Lemma utf8_encode_bytes units : Forall is_unit units → bytes (utf8_encode units).
Proof.
  intros H%code_points_bound. unfold utf8_encode.
  apply Forall_join, Forall_fmap. eapply Forall_impl; [exact H|]. apply utf8_bytes_bytes.
Qed.

(** ** The blocks of a version *)

Section Blocks.
Context (info : version_info) (d : list Z).
Context (Heven : (dataCW info mod blocks info = 0)%nat) (Hpos : (0 < blocks info)%nat).

Definition block_len : nat := (dataCW info / blocks info)%nat.
Definition data_block (b : nat) : list Z := slice d (b * block_len) (b * block_len + block_len).

Lemma split_blocks n :
  (n ≤ blocks info)%nat →
  foldl (split_block info d) (BlockState [] [] 0) (seq 0 n) =
  BlockState (map data_block (seq 0 n))
    (map (λ b, rsEncode (data_block b) (ecPerBlock info)) (seq 0 n)) (n * block_len).
Proof.
  induction n as [|n IH]; intros Hn; [done|].
  rewrite seq_S, foldl_app, IH, !map_app by lia. simpl. unfold split_block.
  rewrite Heven. simpl.
  replace (blocks info - 0 <=? n)%nat with false by (symmetry; apply Nat.leb_gt; lia).
  fold block_len. rewrite Nat.add_0_r. unfold data_block. f_equal. lia.
Qed.

Lemma data_cover : dataCW info = (blocks info * block_len)%nat.
Proof. unfold block_len. apply Nat.Div0.div_exact in Heven; lia. Qed.

Lemma data_block_length b :
  length d = dataCW info → (b < blocks info)%nat → length (data_block b) = block_len.
Proof. intros Hd Hb. pose proof data_cover. unfold data_block. rewrite length_slice; nia. Qed.

Lemma data_blocks_join n :
  (n * block_len ≤ length d)%nat → mjoin (map data_block (seq 0 n)) = take (n * block_len) d.
Proof.
  induction n as [|n IH]; intros Hn; [done|].
  rewrite seq_S, map_app, join_app, IH by lia.
  change (mjoin (map data_block [(0 + n)%nat])) with (data_block n ++ []). rewrite app_nil_r.
  unfold data_block, slice.
  replace (n * block_len + block_len - n * block_len)%nat with block_len by lia.
  rewrite take_take_drop. f_equal. lia.
Qed.
End Blocks.

Lemma max_uniform (bs : list (list Z)) m :
  bs ≠ [] → Forall (λ b, length b = m) bs → foldr Nat.max 0%nat (map length bs) = m.
Proof.
  intros Hne H. induction H as [|b bs Hb H IH]; [done|]. simpl.
  destruct bs as [|b' bs]; simpl in *; [lia|]. rewrite IH by done. lia.
Qed.

Lemma version_blocks v : valid_version v →
  let info := VERSION_TABLE v in
  (dataCW info mod blocks info = 0)%nat ∧ (0 < blocks info)%nat ∧ (ecPerBlock info ≤ 255)%nat ∧
  totalCW info = (dataCW info + ecPerBlock info * blocks info)%nat.
Proof. intros [? ?]. destruct v as [|[|[|[|[|v]]]]]; try lia; repeat split; cbv; lia. Qed.

Definition received_data (v : nat) (cws : list Z) : list (list Z) :=
  let info := VERSION_TABLE v in deinterleave (block_len info) (blocks info) cws.
Definition received_ec (v : nat) (cws : list Z) : list (list Z) :=
  let info := VERSION_TABLE v in
  deinterleave (ecPerBlock info) (blocks info) (drop (dataCW info) cws).

Lemma buildCodewords_spec d v :
  valid_version v → bytes d → length d = dataCW (VERSION_TABLE v) →
  let cws := buildCodewords d v in
  length cws = totalCW (VERSION_TABLE v) ∧ bytes cws ∧
  mjoin (received_data v cws) = d ∧
  Forall2 (λ b e, is_codeword (b ++ e) (ecPerBlock (VERSION_TABLE v)))
    (received_data v cws) (received_ec v cws).
Proof.
  intros Hv Hb Hd cws. destruct (version_blocks v Hv) as (Heven & Hpos & Hec & Htot).
  set (info := VERSION_TABLE v) in *. set (nb := blocks info) in *.
  set (db := map (data_block info d) (seq 0 nb)).
  set (eb := map (λ b, rsEncode (data_block info d b) (ecPerBlock info)) (seq 0 nb)).
  assert (Hbb : ∀ b, bytes (data_block info d b)) by (intros; by apply Forall_take, Forall_drop).
  assert (Hdl : Forall (λ b, length b = block_len info) db).
  { apply Forall_forall. intros x Hx%list_elem_of_In%in_map_iff.
    destruct Hx as (b & <- & Hin%in_seq). apply data_block_length; auto. lia. }
  assert (Hel : Forall (λ b, length b = ecPerBlock info) eb).
  { apply Forall_forall. intros x Hx%list_elem_of_In%in_map_iff.
    destruct Hx as (b & <- & Hin%in_seq). by apply rsEncode_spec. }
  assert (Hldb : length db = nb) by (unfold db; by rewrite length_map, length_seq).
  assert (Hleb : length eb = nb) by (unfold eb; by rewrite length_map, length_seq).
  assert (Hcws : cws = interleave (block_len info) db ++ interleave (ecPerBlock info) eb).
  { unfold cws, buildCodewords. fold info nb. rewrite split_blocks by auto. simpl.
    fold db eb. rewrite (max_uniform db (block_len info)); [done| |done].
    intros E. rewrite E in Hldb. simpl in Hldb. lia. }
  pose proof (data_cover info Heven Hpos) as Hcov. fold nb in Hcov.
  pose proof (length_interleave _ _ Hdl) as Hil. rewrite Hldb in Hil.
  pose proof (length_interleave _ _ Hel) as Hie. rewrite Hleb in Hie.
  assert (Hrd : received_data v cws = db).
  { unfold received_data. fold info nb. rewrite Hcws, <- Hldb. by apply deinterleave_interleave. }
  assert (Hre : received_ec v cws = eb).
  { unfold received_ec. fold info nb. rewrite Hcws, drop_app_exact by (rewrite Hil; lia).
    rewrite <- Hleb, <- (app_nil_r (interleave _ eb)). by apply deinterleave_interleave. }
  split; [rewrite Hcws, length_app, Hil, Hie; lia|]. split.
  { rewrite Hcws. apply Forall_app. split; apply interleave_bytes, Forall_map, Forall_forall; auto.
    intros b _. by apply rsEncode_spec. }
  rewrite Hrd, Hre. split.
  - assert (Hle : (length d ≤ nb * block_len info ∧ nb * block_len info ≤ length d)%nat)
      by (rewrite Hd, Hcov; done).
    unfold db. rewrite data_blocks_join by (done || apply Hle). apply take_ge, Hle.
  - unfold db, eb. apply Forall2_fmap_l, Forall2_fmap_r, Forall_Forall2_diag, Forall_forall.
    intros b _. by apply rsEncode_spec.
Qed.

(** ** Version selection *)

Lemma selectVersion_ok n v : selectVersion n = Ok v → valid_version v ∧ (n ≤ BYTE_CAPACITY v)%nat.
Proof.
  unfold selectVersion. destruct (filter _ _) as [|u l] eqn:E; [done|]. intros [= ->].
  assert (Hin : v ∈ filter (λ v, n ≤ BYTE_CAPACITY v)%nat (seq 1 4)) by (rewrite E; left).
  apply list_elem_of_filter in Hin as [? Hin]. apply elem_of_seq in Hin.
  split; [unfold valid_version; lia|done].
Qed.

Lemma capacity_mono u v : valid_version u → valid_version v → (u ≤ v)%nat →
  (BYTE_CAPACITY u ≤ BYTE_CAPACITY v)%nat.
Proof.
  intros [? ?] [? ?] ?.
  destruct u as [|[|[|[|[|u]]]]]; try lia; destruct v as [|[|[|[|[|v]]]]]; try lia; simpl; lia.
Qed.

Lemma selectVersion_spec n :
  match selectVersion n with
  | Ok v => valid_version v ∧ (n ≤ BYTE_CAPACITY v)%nat ∧
            ∀ u, valid_version u → (n ≤ BYTE_CAPACITY u)%nat → (v ≤ u)%nat
  | Err e => e = too_long ∧ (62 < n)%nat
  end.
Proof.
  unfold selectVersion. simpl seq. rewrite !filter_cons, filter_nil. simpl BYTE_CAPACITY.
  unfold valid_version.
  repeat case_decide; repeat split; try (simpl; lia);
    intros u [Hu1 Hu2] Hu; destruct u as [|[|[|[|[|u]]]]]; simpl in Hu; lia.
Qed.

Lemma utf8_encode_ascii units : Forall (λ u, 0 ≤ u < 128) units → utf8_encode units = units.
Proof.
  induction 1 as [|u units Hu _ IH]; [done|]. unfold utf8_encode in *. cbn [code_points].
  unfold is_high_surrogate, is_low_surrogate.
  rewrite !(proj2 (Z.leb_gt _ _)) by lia. cbn [andb fmap list_fmap mjoin list_join].
  unfold utf8_bytes at 1. rewrite (proj2 (Z.ltb_lt _ _)) by lia. simpl. by f_equal.
Qed.

(** [selectVersion] returns the smallest of the four versions that holds
    the message, and throws exactly on messages of more than 62 bytes. *)
Theorem selectVersion_least n :
  match selectVersion n with
  | Ok v => valid_version v ∧ (n ≤ BYTE_CAPACITY v)%nat ∧
            ∀ u, valid_version u → (n ≤ BYTE_CAPACITY u)%nat → (v ≤ u)%nat
  | Err e => e = too_long ∧ (62 < n)%nat
  end.
Proof. apply selectVersion_spec. Qed.

(** For every message that fits the version, [encodeData] yields exactly the
    data codewords of the version, each a byte, and reading the mode, the
    count and the bytes back from them gives the message. *)
Theorem encodeData_roundtrip data v :
  valid_version v → bytes data → (length data ≤ BYTE_CAPACITY v)%nat →
  length (encodeData data v) = dataCW (VERSION_TABLE v) ∧ bytes (encodeData data v) ∧
  decodeData (encodeData data v) = Some data.
Proof. apply encodeData_decodes. Qed.

Lemma encodeData_roundtrip_witness :
  valid_version 1 ∧ bytes [104; 105] ∧ (length [104; 105] ≤ BYTE_CAPACITY 1)%nat ∧
  decodeData (encodeData [104; 105] 1) = Some [104; 105].
Proof.
  assert (Hv : valid_version 1) by (unfold valid_version; lia).
  assert (Hb : bytes [104; 105]) by (repeat constructor; lia).
  assert (Hn : (length [104; 105] ≤ BYTE_CAPACITY 1)%nat) by (simpl; lia).
  split; [done|split; [done|split; [done|]]].
  apply (encodeData_roundtrip [104; 105] 1 Hv Hb Hn).
Defined.

(** [buildCodewords] fills the total codewords of the version; taking the
    interleaved stream apart gives the data bytes back in order, and each
    block of data with its block of check bytes is a Reed-Solomon codeword. *)
Theorem buildCodewords_blocks d v :
  valid_version v → bytes d → length d = dataCW (VERSION_TABLE v) →
  let cws := buildCodewords d v in
  length cws = totalCW (VERSION_TABLE v) ∧ bytes cws ∧
  mjoin (received_data v cws) = d ∧
  Forall2 (λ b e, is_codeword (b ++ e) (ecPerBlock (VERSION_TABLE v)))
    (received_data v cws) (received_ec v cws).
Proof. apply buildCodewords_spec. Qed.

Lemma buildCodewords_blocks_witness :
  let d := encodeData [104; 105] 4 in
  mjoin (received_data 4 (buildCodewords d 4)) = d.
Proof.
  intros d. assert (Hv : valid_version 4) by (unfold valid_version; lia).
  destruct (encodeData_decodes [104; 105] 4 Hv) as (Hl & Hb & _);
    [repeat constructor; lia|simpl; lia|].
  apply (buildCodewords_blocks d 4 Hv Hb Hl).
Defined.
