(* ===== verification/QrMatrix.v ===== *)
(** * Placement of the codewords in the module matrix

    [buildMatrix] and [buildReservedMask] of [services/auth-bridge/qr.ts].  A
    module of the matrix under construction is [None] until it is placed. *)

From S2P Require Import Prelude QrField QrEncode.

(** * Two-dimensional arrays

    The QR code keeps its modules in arrays of rows; [grid A] is such an array
    with the reads and writes the code makes.  A position is a pair of a row
    and a column. *)

Abbreviation grid A := (list (list A)).
Abbreviation pos := (nat * nat)%type.

Section Grid.
Context {A : Type}.

(** [g[r][c]]; [None] when one of the two indices is out of range. *)
Definition grid_get (g : grid A) (p : pos) : option A := g !! p.1 ≫= (λ row, row !! p.2).

(** [g[r][c] = x] at a position of the grid. *)
Definition grid_set (g : grid A) (p : pos) (x : A) : grid A :=
  alter (λ row, <[p.2 := x]> row) p.1 g.

Definition new_grid (n : nat) (x : A) : grid A := replicate n (replicate n x).

(** A grid of [n] rows of [n] cells. *)
Definition square (n : nat) (g : grid A) : Prop :=
  length g = n ∧ Forall (λ row, length row = n) g.

Definition in_grid (n : nat) (p : pos) : Prop := p.1 < n ∧ p.2 < n.

Lemma square_new n x : square n (new_grid n x).
Proof.
  split; [apply length_replicate|]. apply Forall_replicate, length_replicate.
Qed.

Lemma square_set n g p x : square n g → square n (grid_set g p x).
Proof.
  intros [Hl Hr]. split; [by unfold grid_set; rewrite length_alter|].
  apply Forall_alter; [done|]. intros row _ Hrow. by rewrite length_insert.
Qed.

Lemma grid_get_in n g p : square n g → in_grid n p → is_Some (grid_get g p).
Proof.
  intros [Hl Hr] [Hp1 Hp2]. unfold grid_get.
  destruct (lookup_lt_is_Some_2 g p.1) as [row Hrow]; [lia|]. rewrite Hrow. simpl.
  apply lookup_lt_is_Some_2. pose proof (Forall_lookup_1 _ _ _ _ Hr Hrow). simpl in *. lia.
Qed.

Lemma grid_get_range n g p x : square n g → grid_get g p = Some x → in_grid n p.
Proof.
  intros [Hl Hr]. unfold grid_get. destruct (g !! p.1) as [row|] eqn:Hrow; [|done]. simpl.
  intros Hx. pose proof (lookup_lt_Some _ _ _ Hrow). pose proof (lookup_lt_Some _ _ _ Hx).
  pose proof (Forall_lookup_1 _ _ _ _ Hr Hrow). simpl in *. split; lia.
Qed.

Lemma grid_get_set_eq n g p x : square n g → in_grid n p → grid_get (grid_set g p x) p = Some x.
Proof.
  intros Hs Hp. destruct (grid_get_in n g p Hs Hp) as [y Hy].
  unfold grid_get, grid_set in *. rewrite list_lookup_alter_eq.
  destruct (g !! p.1) as [row|]; [|done]. simpl in *.
  apply list_lookup_insert_eq, lookup_lt_is_Some_1. eauto.
Qed.

Lemma grid_get_set_ne g p q x : p ≠ q → grid_get (grid_set g p x) q = grid_get g q.
Proof.
  intros Hne. unfold grid_get, grid_set.
  destruct (decide (p.1 = q.1)) as [E|E].
  - rewrite E, list_lookup_alter_eq. destruct (g !! q.1); simpl; [|done].
    apply list_lookup_insert_ne. intros E2. apply Hne. destruct p, q; simpl in *; congruence.
  - by rewrite list_lookup_alter_ne.
Qed.

(** A sequence of writes to distinct positions. *)
Definition write_all (g : grid A) (ws : list (pos * A)) : grid A :=
  foldl (λ g w, grid_set g w.1 w.2) g ws.

Lemma square_write_all n g ws : square n g → square n (write_all g ws).
Proof.
  intros. unfold write_all. apply (foldl_inv (square n)); [done|].
  intros. by apply square_set.
Qed.

Lemma write_all_other g ws q : q ∉ map fst ws → grid_get (write_all g ws) q = grid_get g q.
Proof.
  revert g. induction ws as [|[p x] ws IH]; intros g Hq; simpl in *; [done|].
  apply not_elem_of_cons in Hq as [? ?]. rewrite IH by done. by apply grid_get_set_ne.
Qed.

Lemma write_all_get n g ws p x :
  square n g → NoDup (map fst ws) → (p, x) ∈ ws → in_grid n p →
  grid_get (write_all g ws) p = Some x.
Proof.
  revert g. induction ws as [|[q y] ws IH]; intros g Hs Hd Hin Hp; simpl in *.
  - by apply not_elem_of_nil in Hin.
  - apply NoDup_cons in Hd as [Hq Hd]. apply elem_of_cons in Hin as [[= -> ->]|Hin].
    + rewrite write_all_other by done. by eapply grid_get_set_eq.
    + apply IH; auto. by apply square_set.
Qed.

Lemma grid_eq n g h :
  square n g → square n h → (∀ p, in_grid n p → grid_get g p = grid_get h p) → g = h.
Proof.
  intros [Hg1 Hg2] [Hh1 Hh2] H. apply list_eq_same_length with n; [done|done|].
  intros r x y Hr Hx Hy. pose proof (Forall_lookup_1 _ _ _ _ Hg2 Hx).
  pose proof (Forall_lookup_1 _ _ _ _ Hh2 Hy). simpl in *.
  apply list_eq_same_length with n; [done|done|]. intros c a b Hc Ha Hb.
  specialize (H (r, c) (conj Hr Hc)). unfold grid_get in H. simpl in H.
  rewrite Hx, Hy in H. simpl in H. congruence.
Qed.
End Grid.

#[export] Hint Resolve square_new square_set square_write_all : fh.

(** [imap] over the cells, as the nested loops over rows and columns do. *)
Definition grid_imap {A B} (f : pos → A → B) (g : grid A) : grid B :=
  imap (λ r row, imap (λ c x, f (r, c) x) row) g.

Lemma grid_get_imap {A B} (f : pos → A → B) g p : grid_get (grid_imap f g) p = f p <$> grid_get g p.
Proof.
  destruct p as [r c]. unfold grid_get, grid_imap. simpl. rewrite list_lookup_imap.
  destruct (g !! r) as [row|]; simpl; [|done]. by rewrite list_lookup_imap.
Qed.

Lemma square_imap {A B} (f : pos → A → B) n g : square n g → square n (grid_imap f g).
Proof.
  intros [Hl Hr]. unfold grid_imap. split; [by rewrite length_imap|].
  apply Forall_lookup. intros i row. rewrite list_lookup_imap.
  destruct (g !! i) as [r|] eqn:E; simpl; [|done]. intros [= <-].
  rewrite length_imap. apply (Forall_lookup_1 _ _ _ _ Hr E).
Qed.
#[export] Hint Resolve square_imap : fh.

(** ** Duplicate-freedom by sorting

    A list of positions whose codes, once sorted, strictly increase has no
    duplicate; this decides it in [n log n] comparisons. *)

Definition pos_code (p : pos) : Z := Z.of_nat p.1 * 1024 + Z.of_nat p.2.

Fixpoint increasing (l : list Z) : bool :=
  match l with
  | x :: (y :: _) as t => (x <? y)%Z && increasing t
  | _ => true
  end.

Lemma increasing_NoDup l : increasing l = true → NoDup l.
Proof.
  intros H. assert (Hs : ∀ l x, increasing (x :: l) = true → Forall (λ y, (x < y)%Z) l).
  { clear. intros l. induction l as [|y l IH]; intros x H; [constructor|].
    simpl in H. apply andb_prop in H as [H1 H2]. apply Z.ltb_lt in H1.
    constructor; [done|]. eapply Forall_impl; [by apply IH|]. simpl. intros. lia. }
  induction l as [|x l IH]; constructor.
  - intros Hin. apply Hs in H. rewrite Forall_forall in H. specialize (H _ Hin). lia.
  - apply IH. simpl in H. destruct l; [done|]. by apply andb_prop in H as [_ ?].
Qed.

Definition distinct_pos (l : list pos) : bool := increasing (merge_sort Z.le (map pos_code l)).

Lemma distinct_pos_NoDup l : distinct_pos l = true → NoDup l.
Proof.
  intros H. apply increasing_NoDup in H.
  apply (NoDup_fmap_1 pos_code). by rewrite (merge_sort_Permutation Z.le) in H.
Qed.

Local Open Scope Z_scope.

Definition ALIGNMENT_POSITIONS (version : nat) : list nat :=
  match version with
  | 1 => [] | 2 => [6; 18] | 3 => [6; 22] | 4 => [6; 26] | _ => []
  end%nat.

(** [for (let i = lo; i <= hi; i++)] *)
Definition zrange (lo hi : Z) : list Z :=
  map (λ i, lo + Z.of_nat i) (seq 0 (Z.to_nat (hi - lo + 1))).

(** The pairs of a loop nest, the outer variable first. *)
Definition pairs {A B} (xs : list A) (ys : list B) : list (A * B) :=
  mjoin (map (λ x, map (pair x) ys) xs).

(** ** The two arrays of [buildMatrix] *)

Record modules := Modules {
  matrix : grid (option bool);
  reserved : grid bool;
}.

(** [matrix[r][c] = v; reserved[r][c] = true] *)
Definition place (st : modules) (p : pos) (v : bool) : modules :=
  Modules (grid_set (matrix st) p (Some v)) (grid_set (reserved st) p true).

Definition is_null (m : grid (option bool)) (p : pos) : bool :=
  match grid_get m p with Some None => true | _ => false end.

Definition is_true_at (m : grid bool) (p : pos) : bool :=
  match grid_get m p with Some b => b | None => false end.

(** A corner of [placeFinder]: border and inner square dark, separator light. *)
Definition finder_dark (r c : Z) : bool :=
  ((0 <=? r) && (r <=? 6) && (0 <=? c) && (c <=? 6)) &&
  ((r =? 0) || (r =? 6) || (c =? 0) || (c =? 6) ||
   ((2 <=? r) && (r <=? 4) && (2 <=? c) && (c <=? 4))).

Definition outside (size : nat) (x : Z) : bool := (x <? 0) || (Z.of_nat size <=? x).

Definition placeFinder (size : nat) (row col : nat) (st : modules) : modules :=
  foldl (λ st '(r, c),
    let mr := Z.of_nat row + r in
    let mc := Z.of_nat col + c in
    if outside size mr || outside size mc then st
    else place st (Z.to_nat mr, Z.to_nat mc) (finder_dark r c))
    st (pairs (zrange (-1) 7) (zrange (-1) 7)).

Definition placeTiming (size : nat) (st : modules) : modules :=
  foldl (λ st i,
    let dark := (i mod 2 =? 0)%nat in
    let st := if is_null (matrix st) (6, i)%nat then place st (6, i)%nat dark else st in
    if is_null (matrix st) (i, 6)%nat then place st (i, 6)%nat dark else st)
    st (seq 8 (size - 16)).

Definition alignment_dark (r c : Z) : bool :=
  (Z.abs r =? 2) || (Z.abs c =? 2) || ((r =? 0) && (c =? 0)).

Definition placeAlignment (alignPos : list nat) (st : modules) : modules :=
  foldl (λ st '(row, col),
    if is_true_at (reserved st) (row, col) then st
    else foldl (λ st '(r, c),
           place st (Z.to_nat (Z.of_nat row + r), Z.to_nat (Z.of_nat col + c))
             (alignment_dark r c))
           st (pairs (zrange (-2) 2) (zrange (-2) 2)))
    st (pairs alignPos alignPos).

Definition reserve (st : modules) (p : pos) : modules :=
  if is_true_at (reserved st) p then st
  else Modules (matrix st) (grid_set (reserved st) p true).

Definition reserveFormat (size : nat) (st : modules) : modules :=
  let st := foldl (λ st i, reserve (reserve st (8, i)%nat) (i, 8)%nat) st (seq 0 9) in
  let st := foldl (λ st i, reserve st (8, size - 1 - i)%nat) st (seq 0 8) in
  foldl (λ st i, reserve st (size - 1 - i, 8)%nat) st (seq 0 8).

(** Everything [buildMatrix] does before the data bits. *)
Definition functionPatterns (version : nat) : modules :=
  let size := versionSize version in
  let st := Modules (new_grid size None) (new_grid size false) in
  let st := placeFinder size 0 0 st in
  let st := placeFinder size 0 (size - 7) st in
  let st := placeFinder size (size - 7) 0 st in
  let st := placeTiming size st in
  let st := placeAlignment (ALIGNMENT_POSITIONS version) st in
  let st := place st (size - 8, 8)%nat true in
  reserveFormat size st.

(** ** The zigzag of the data bits *)

(** The right columns of the two-column strips:
    [while (col >= 0) { if (col === 6) { col--; continue; } ...; col -= 2; }] *)
Fixpoint strips (fuel : nat) (col : Z) : list Z :=
  match fuel with
  | O => []
  | S fuel =>
      if col <? 0 then []
      else if col =? 6 then strips fuel (col - 1)
      else col :: strips fuel (col - 2)
  end.

Definition strip_visits (size : nat) (col : Z) : list pos :=
  let n := Z.of_nat size in
  let stripIndex := if 7 <=? col then Z.shiftr (n - 1 - col) 1 else Z.shiftr (n - 2 - col) 1 in
  let goingUp := stripIndex mod 2 =? 0 in
  mjoin (map (λ i,
    let row := if goingUp then (size - 1 - i)%nat else i in
    mjoin (map (λ dc,
      let c := col + dc in
      if outside size c then [] else [(row, Z.to_nat c)]) [0; -1]))
    (seq 0 size)).

(** The positions in the order the loop nest reaches them. *)
Definition visits (size : nat) : list pos :=
  mjoin (map (strip_visits size) (strips size (Z.of_nat size - 1))).

(** The body of the innermost loop: skip a reserved module, else place the next
    bit, light when there is none left. *)
Definition place_bit (res : grid bool) (bits : list Z) (st : grid (option bool) * nat) (p : pos)
  : grid (option bool) * nat :=
  let '(m, bitIdx) := st in
  if is_true_at res p then st
  else
    let v := if (bitIdx <? length bits)%nat then nth bitIdx bits 0 =? 1 else false in
    (grid_set m p (Some v), S bitIdx).

Definition is_dark (v : option bool) : bool := match v with Some true => true | _ => false end.

(** [matrix.map((row) => row.map((v) => v === true))] *)
Definition finish (m : grid (option bool)) : grid bool := grid_imap (λ _, is_dark) m.

Definition buildMatrix (codewords : list Z) (version : nat) : grid bool :=
  let st := functionPatterns version in
  let bits := data_bits codewords in
  finish (fst (foldl (place_bit (reserved st) bits) (matrix st, 0%nat)
                (visits (versionSize version)))).

(** ** The separate mask of reserved modules *)

Definition mark (g : grid bool) (p : pos) : grid bool := grid_set g p true.

Definition markFinder (size row col : nat) (g : grid bool) : grid bool :=
  foldl (λ g '(r, c),
    let mr := Z.of_nat row + r in
    let mc := Z.of_nat col + c in
    if outside size mr || outside size mc then g else mark g (Z.to_nat mr, Z.to_nat mc))
    g (pairs (zrange (-1) 7) (zrange (-1) 7)).

Definition overlapsFinder (size row col : nat) : bool :=
  existsb (λ '(fr, fc),
    (Z.of_nat fr - 1 <=? Z.of_nat row) && (Z.of_nat row <=? Z.of_nat fr + 7) &&
    (Z.of_nat fc - 1 <=? Z.of_nat col) && (Z.of_nat col <=? Z.of_nat fc + 7))
    [(0, 0); (0, size - 7); (size - 7, 0)]%nat.

Definition markAlignment (size : nat) (alignPos : list nat) (g : grid bool) : grid bool :=
  foldl (λ g '(row, col),
    if overlapsFinder size row col then g
    else foldl (λ g '(r, c),
           mark g (Z.to_nat (Z.of_nat row + r), Z.to_nat (Z.of_nat col + c)))
           g (pairs (zrange (-2) 2) (zrange (-2) 2)))
    g (pairs alignPos alignPos).

Definition buildReservedMask (version : nat) : grid bool :=
  let size := versionSize version in
  let g := new_grid size false in
  let g := markFinder size 0 0 g in
  let g := markFinder size 0 (size - 7) g in
  let g := markFinder size (size - 7) 0 g in
  let g := foldl (λ g i, mark (mark g (6, i)%nat) (i, 6)%nat) g (seq 8 (size - 16)) in
  let g := markAlignment size (ALIGNMENT_POSITIONS version) g in
  let g := mark g (size - 8, 8)%nat in
  let g := foldl (λ g i, mark (mark g (8, i)%nat) (i, 8)%nat) g (seq 0 9) in
  foldl (λ g i, mark (mark g (8, size - 1 - i)%nat) (size - 1 - i, 8)%nat) g (seq 0 8).

(** ** The data modules *)

(** The positions the data bits go to, in order. *)
Definition data_positions (version : nat) : list pos :=
  let res := reserved (functionPatterns version) in
  List.filter (λ p, negb (is_true_at res p)) (visits (versionSize version)).

(** Bits left over after the last codeword. *)
Definition remainder_bits (version : nat) : nat := if (version =? 1)%nat then 0%nat else 7%nat.

Definition in_gridb (n : nat) (p : pos) : bool := (p.1 <? n)%nat && (p.2 <? n)%nat.

(** ** Facts of the four versions, by computation *)

Definition positions_check (n len : nat) (ps : list pos) : bool :=
  distinct_pos ps && forallb (in_gridb n) ps && (length ps =? len)%nat.

Lemma positions_check_sound n len ps :
  positions_check n len ps = true → NoDup ps ∧ Forall (in_grid n) ps ∧ length ps = len.
Proof.
  intros H. unfold positions_check in H.
  apply andb_prop in H as [H H3]. apply andb_prop in H as [H1 H2].
  apply Nat.eqb_eq in H3. split; [by apply distinct_pos_NoDup|]. split; [|done].
  rewrite forallb_forall in H2. apply Forall_forall. intros p Hp%list_elem_of_In.
  specialize (H2 p Hp). unfold in_gridb in H2. unfold in_grid. bool_cases. lia.
Qed.

Lemma version_cases (P : nat → Prop) : P 1%nat → P 2%nat → P 3%nat → P 4%nat →
  ∀ v, valid_version v → P v.
Proof.
  intros H1 H2 H3 H4 v [? ?]. destruct v as [|[|[|[|[|v]]]]]; try lia; assumption.
Qed.

Lemma version_check_ok v : valid_version v →
  positions_check (versionSize v) (totalCW (VERSION_TABLE v) * 8 + remainder_bits v)
    (data_positions v) = true.
Proof. revert v. apply version_cases; vm_compute; reflexivity. Qed.

Lemma data_positions_ok v : valid_version v →
  NoDup (data_positions v) ∧ Forall (in_grid (versionSize v)) (data_positions v) ∧
  length (data_positions v) = (totalCW (VERSION_TABLE v) * 8 + remainder_bits v)%nat.
Proof. intros Hv. exact (positions_check_sound _ _ _ (version_check_ok v Hv)). Qed.

Lemma reserved_mask_eq v : valid_version v →
  buildReservedMask v = reserved (functionPatterns v).
Proof. revert v. apply version_cases; vm_compute; reflexivity. Qed.

(** Every module of the grid is reserved or on the zigzag. *)
Definition all_covered (n : nat) (res : grid bool) (ps : list pos) : bool :=
  forallb_below (λ r, forallb_below (λ c,
    is_true_at res (r, c) ||
    existsb (λ q, (r =? q.1)%nat && (c =? q.2)%nat) ps) n) n.

Lemma all_covered_spec n res ps p :
  all_covered n res ps = true → in_grid n p → is_true_at res p = false → p ∈ ps.
Proof.
  intros H [Hr Hc] Hf. pose proof (forallb_below_spec _ _ H p.1 Hr) as H1.
  pose proof (forallb_below_spec _ _ H1 p.2 Hc) as H2. cbv beta in H2.
  rewrite <- surjective_pairing, Hf in H2. cbn [orb] in H2.
  apply existsb_exists in H2 as (q & Hq & Heq). bool_cases.
  apply list_elem_of_In. replace p with q; [done|]. by destruct p, q; simpl in *; subst.
Qed.

Lemma covered_check v : valid_version v →
  all_covered (versionSize v) (reserved (functionPatterns v)) (visits (versionSize v)) = true.
Proof. revert v. apply version_cases; vm_compute; reflexivity. Qed.

Lemma data_positions_iff v p : valid_version v → in_grid (versionSize v) p →
  p ∈ data_positions v ↔ is_true_at (buildReservedMask v) p = false.
Proof.
  intros Hv [Hr Hc]. rewrite reserved_mask_eq by done. unfold data_positions. cbv zeta.
  rewrite list_elem_of_In, List.filter_In, negb_true_iff. split; [by intros [_ ?]|].
  intros Hf. split; [|done].
  apply list_elem_of_In, (all_covered_spec _ _ _ _ (covered_check v Hv)); [|done].
  by split.
Qed.

(** ** Squares *)

Definition squares (n : nat) (st : modules) : Prop := square n (matrix st) ∧ square n (reserved st).

Lemma squares_place n st p v : squares n st → squares n (place st p v).
Proof. intros [? ?]. split; simpl; auto with fh. Qed.
#[export] Hint Resolve squares_place : fh.

Lemma squares_reserve n st p : squares n st → squares n (reserve st p).
Proof. intros [? ?]. unfold reserve. split_match; split; simpl; auto with fh. Qed.
#[export] Hint Resolve squares_reserve : fh.

Ltac squares_foldl :=
  lazymatch goal with
  | |- squares ?n (foldl _ _ _) => apply (foldl_inv (squares n)); [|intros ? ?]
  end.

Lemma squares_finder n row col st : squares n st → squares n (placeFinder n row col st).
Proof.
  intros H. unfold placeFinder. squares_foldl; [done|].
  destruct b as [r c]. intros _ ?. cbv zeta. split_match; auto with fh.
Qed.

Lemma squares_timing n st : squares n st → squares n (placeTiming n st).
Proof.
  intros H. unfold placeTiming. squares_foldl; [done|]. intros _ ?. cbv zeta.
  repeat split_match; auto with fh.
Qed.

Lemma squares_alignment n l st : squares n st → squares n (placeAlignment l st).
Proof.
  intros H. unfold placeAlignment. squares_foldl; [done|]. destruct b as [row col].
  intros _ ?. split_match; [done|]. squares_foldl; [done|]. destruct b as [r c]. auto with fh.
Qed.

Lemma squares_format n st : squares n st → squares n (reserveFormat n st).
Proof. intros H. unfold reserveFormat. repeat squares_foldl; auto with fh. Qed.

Lemma functionPatterns_squares v : squares (versionSize v) (functionPatterns v).
Proof.
  unfold functionPatterns. apply squares_format, squares_place, squares_alignment,
    squares_timing, squares_finder, squares_finder, squares_finder.
  split; simpl; auto with fh.
Qed.

(** ** Where the bits go *)

Section PlaceBits.
Context (res : grid bool) (bits : list Z).

Definition bit_dark (k : nat) : bool := if (k <? length bits)%nat then nth k bits 0 =? 1 else false.

(** The visits that are not skipped, each with the bit it takes. *)
Definition bit_writes (ps : list pos) (k : nat) : list (pos * option bool) :=
  imap (λ i p, (p, Some (bit_dark (k + i)))) ps.

Lemma place_bits ps m k :
  let free := List.filter (λ p, negb (is_true_at res p)) ps in
  foldl (place_bit res bits) (m, k) ps =
  (write_all m (bit_writes free k), (k + length free)%nat).
Proof.
  cbv zeta. revert m k. induction ps as [|p ps IH]; intros m k; [simpl; by rewrite Nat.add_0_r|].
  cbn [foldl List.filter]. unfold place_bit at 2. destruct (is_true_at res p) eqn:E; simpl.
  - apply IH.
  - rewrite IH. unfold write_all, bit_writes. simpl. rewrite Nat.add_0_r, Nat.add_succ_r. f_equal.
    unfold bit_dark. f_equal. apply imap_ext. intros i q _. simpl.
    by rewrite Nat.add_succ_r.
Qed.

Lemma bit_writes_fst ps k : map fst (bit_writes ps k) = ps.
Proof.
  unfold bit_writes. revert k. induction ps as [|p ps IH]; intros k; [done|]. simpl. f_equal.
  rewrite <- (IH (S k)) at 2. f_equal. apply imap_ext. intros i q _. simpl.
  by rewrite Nat.add_succ_r.
Qed.
End PlaceBits.

(** What a reader sees along the zigzag. *)
Definition read_modules (g : grid bool) (ps : list pos) : list bool := map (is_true_at g) ps.

Lemma read_bit_writes n m bits ps :
  square n m → NoDup ps → Forall (in_grid n) ps →
  read_modules (finish (write_all m (bit_writes bits ps 0))) ps =
  map (bit_dark bits) (seq 0 (length ps)).
Proof.
  intros Hm Hd Hin. unfold read_modules. apply list_eq_same_length with (length ps);
    [by rewrite length_map, length_seq|by rewrite length_map|].
  intros i x y Hi. rewrite !list_lookup_fmap, lookup_seq_lt by lia.
  destruct (ps !! i) as [p|] eqn:Ep; simpl; [|done]. intros [= <-] [= <-].
  unfold is_true_at, finish. rewrite grid_get_imap.
  rewrite (write_all_get n _ _ p (Some (bit_dark bits i))).
  - simpl. by destruct (bit_dark _ i).
  - done.
  - by rewrite bit_writes_fst.
  - apply list_elem_of_lookup. exists i. unfold bit_writes. by rewrite list_lookup_imap, Ep.
  - apply (Forall_lookup_1 _ _ _ _ Hin Ep).
Qed.

Lemma read_other_writes m bits ps p :
  p ∉ ps → is_true_at (finish (write_all m (bit_writes bits ps 0))) p = is_true_at (finish m) p.
Proof.
  intros Hp. unfold is_true_at, finish. rewrite !grid_get_imap.
  rewrite write_all_other; [done|]. by rewrite bit_writes_fst.
Qed.

Lemma bit_dark_list bits n :
  map (bit_dark bits) (seq 0 (length bits + n)) = map (λ b, b =? 1) bits ++ replicate n false.
Proof.
  rewrite seq_app, map_app. f_equal.
  - apply list_eq_same_length with (length bits);
      [by rewrite length_map|by rewrite length_map, length_seq|].
    intros i x y Hi. rewrite !list_lookup_fmap, lookup_seq_lt by lia. simpl. intros [= <-].
    destruct (bits !! i) as [b|] eqn:E; simpl; [|done]. intros [= <-]. unfold bit_dark.
    rewrite (proj2 (Nat.ltb_lt _ _)) by done. by rewrite (nth_lookup_Some _ _ _ _ E).
  - assert (H : ∀ n m, (length bits ≤ m)%nat → map (bit_dark bits) (seq m n) = replicate n false).
    { clear. intros n. induction n as [|n IH]; intros m Hm; [done|]. simpl. rewrite IH by lia.
      unfold bit_dark. by rewrite (proj2 (Nat.ltb_ge _ _)) by done. }
    apply H. lia.
Qed.

(** The evaluation of these three is only ever wanted on a given version. *)
#[global] Opaque functionPatterns visits data_positions buildReservedMask.

Lemma buildMatrix_writes cws v :
  buildMatrix cws v =
  finish (write_all (matrix (functionPatterns v)) (bit_writes (data_bits cws) (data_positions v) 0)).
Proof. unfold buildMatrix. rewrite place_bits. exact eq_refl. Qed.

Lemma buildMatrix_square cws v : square (versionSize v) (buildMatrix cws v).
Proof.
  rewrite buildMatrix_writes. destruct (functionPatterns_squares v).
  apply square_imap. by apply square_write_all.
Qed.

Definition module_bits (cws : list Z) (v : nat) : list bool :=
  map (λ b, b =? 1) (data_bits cws) ++ replicate (remainder_bits v) false.

Lemma buildMatrix_data cws v :
  valid_version v → length cws = totalCW (VERSION_TABLE v) →
  read_modules (buildMatrix cws v) (data_positions v) = module_bits cws v.
Proof.
  intros Hv Hl. destruct (data_positions_ok v Hv) as (Hd & Hin & Hlen).
  rewrite buildMatrix_writes, (read_bit_writes (versionSize v));
    [|apply functionPatterns_squares|exact Hd|exact Hin].
  unfold module_bits. rewrite <- bit_dark_list, length_data_bits, Hl, (Nat.mul_comm 8), Hlen.
  exact eq_refl.
Qed.

Lemma buildMatrix_function cws v p :
  p ∉ data_positions v →
  is_true_at (buildMatrix cws v) p =
  is_true_at (finish (matrix (functionPatterns v))) p.
Proof. intros Hp. rewrite buildMatrix_writes. by apply read_other_writes. Qed.
