(* ===== verification/QrCode.v ===== *)
(** * Masking, format information, scoring and the finished QR code

    The last sections of [services/auth-bridge/qr.ts]: [applyMask],
    [writeFormatInfo], [penaltyScore], [generateQRMatrix] and [renderQRText],
    with a reference reader of the finished matrix. *)

From S2P Require Import Prelude QrField QrEncode QrMatrix.
Local Open Scope Z_scope.

(** ** Masks *)

Definition MASK_FUNCTIONS (maskIdx : nat) (p : pos) : bool :=
  let r := Z.of_nat p.1 in
  let c := Z.of_nat p.2 in
  match maskIdx with
  | 0%nat => (r + c) mod 2 =? 0
  | 1%nat => r mod 2 =? 0
  | 2%nat => c mod 3 =? 0
  | 3%nat => (r + c) mod 3 =? 0
  | 4%nat => (r / 2 + c / 3) mod 2 =? 0
  | 5%nat => (r * c) mod 2 + (r * c) mod 3 =? 0
  | 6%nat => ((r * c) mod 2 + (r * c) mod 3) mod 2 =? 0
  | _ => ((r + c) mod 2 + (r * c) mod 3) mod 2 =? 0
  end.

Definition applyMask (m reservedMask : grid bool) (maskIdx : nat) : grid bool :=
  grid_imap (λ p v,
    if negb (is_true_at reservedMask p) && MASK_FUNCTIONS maskIdx p then negb v else v) m.

(** ** Format information *)

Definition FORMAT_BITS (maskIdx : nat) : Z :=
  nth maskIdx [0x5412; 0x5125; 0x5e7c; 0x5b4b; 0x45f9; 0x40ce; 0x4f97; 0x4aa0] 0.

Definition format_bit (maskIdx i : nat) : bool :=
  Z.land (Z.shiftr (FORMAT_BITS maskIdx) (14 - Z.of_nat i)) 1 =? 1.

(** The module near the top-left finder that takes bit [i]. *)
Definition format_first (i : nat) : pos :=
  if (i <? 8)%nat then (8, if (i <? 6)%nat then i else i + 1)%nat
  else (if (i =? 8)%nat then 7 else 14 - i, 8)%nat.

(** The module of the second copy that takes bit [i]. *)
Definition format_second (size i : nat) : pos :=
  if (i <? 8)%nat then (size - 1 - i, 8)%nat else (8, size - 15 + i)%nat.

Definition writeFormatInfo (m : grid bool) (maskIdx : nat) : grid bool :=
  let size := length m in
  foldl (λ m i,
    let bit := format_bit maskIdx i in
    grid_set (grid_set m (format_first i) bit) (format_second size i) bit)
    m (seq 0 15).

(** ** Penalty *)

(** [matrix[r][c]] of a square matrix. *)
Definition cell (m : grid bool) (r c : nat) : bool := is_true_at m (r, c).

Definition zsum {A} (f : A → Z) (l : list A) : Z := foldl (λ acc x, acc + f x) 0 l.

(** Rule 1 on one row or column: the two loop variables are the score and the
    length of the current run. *)
Definition run_step (line : nat → bool) (st : Z * Z) (i : nat) : Z * Z :=
  let '(score, runLen) := st in
  if eqb (line i) (line (i - 1)%nat) then (score, runLen + 1)
  else ((if 5 <=? runLen then score + (runLen - 2) else score), 1).

Definition run_penalty (size : nat) (line : nat → bool) : Z :=
  let '(score, runLen) := foldl (run_step line) (0, 1) (seq 1 (size - 1)) in
  if 5 <=? runLen then score + (runLen - 2) else score.

Definition rule1 (m : grid bool) (size : nat) : Z :=
  zsum (λ r, run_penalty size (λ c, cell m r c)) (seq 0 size) +
  zsum (λ c, run_penalty size (λ r, cell m r c)) (seq 0 size).

Definition rule2 (m : grid bool) (size : nat) : Z :=
  zsum (λ '(r, c),
    let v := cell m r c in
    if eqb v (cell m r (c + 1)) && eqb v (cell m (r + 1) c) && eqb v (cell m (r + 1) (c + 1))
    then 3 else 0) (pairs (seq 0 (size - 1)) (seq 0 (size - 1))).

Definition pattern1 : list bool :=
  [true; false; true; true; true; false; true; false; false; false; false].
Definition pattern2 : list bool :=
  [false; false; false; false; true; false; true; true; true; false; true].

Definition matches (pattern : list bool) (line : nat → bool) (start : nat) : bool :=
  forallb (λ k, eqb (line (start + k)%nat) (nth k pattern false)) (seq 0 11).

Definition finder_penalty (size : nat) (line : nat → bool) : Z :=
  zsum (λ s, if matches pattern1 line s || matches pattern2 line s then 40 else 0)
    (seq 0 (size - 10)).

Definition rule3 (m : grid bool) (size : nat) : Z :=
  zsum (λ r, finder_penalty size (λ c, cell m r c)) (seq 0 size) +
  zsum (λ c, finder_penalty size (λ r, cell m r c)) (seq 0 size).

Definition darkCount (m : grid bool) : Z :=
  zsum (λ row, zsum (λ v : bool, if v then 1 else 0) row) m.

(** [pct] is a double and [Math.floor(pct / 5) * 5] the multiple of 5 below it.
    For [total <= 33 * 33] an inexact quotient is more than [1 / total] away
    from every multiple of 5, so integer division gives the same multiple;
    every later operation of the rule is on small integers. *)
Definition rule4 (m : grid bool) (size : nat) : Z :=
  let total := Z.of_nat size * Z.of_nat size in
  let prev5 := darkCount m * 100 / (5 * total) * 5 in
  let next5 := prev5 + 5 in
  Z.min (Z.abs (prev5 - 50) / 5) (Z.abs (next5 - 50) / 5) * 10.

Definition penaltyScore (m : grid bool) : Z :=
  let size := length m in
  rule1 m size + rule2 m size + rule3 m size + rule4 m size.

(** ** The code *)

(** The matrix of mask [m]: masked, with its format information. *)
Definition masked_matrix (base reservedMask : grid bool) (m : nat) : grid bool :=
  writeFormatInfo (applyMask base reservedMask m) m.

(** [bestScore] starts at infinity, [None]. *)
Definition try_mask (base reservedMask : grid bool) (best : grid bool * option Z) (m : nat)
  : grid bool * option Z :=
  let masked := masked_matrix base reservedMask m in
  let score := penaltyScore masked in
  match best.2 with
  | None => (masked, Some score)
  | Some bestScore => if score <? bestScore then (masked, Some score) else best
  end.

Definition best_mask (base reservedMask : grid bool) : grid bool :=
  fst (foldl (try_mask base reservedMask) (base, None) (seq 0 8)).

Definition base_matrix (data : list Z) (version : nat) : grid bool :=
  buildMatrix (buildCodewords (encodeData data version) version) version.

Definition generateQRMatrix (text : list Z) : result (grid bool) :=
  let data := utf8_encode text in
  match selectVersion (length data) with
  | Err e => Err e
  | Ok version => Ok (best_mask (base_matrix data version) (buildReservedMask version))
  end.

(** ** Terminal rendering, as code units of the returned string *)

Definition block_char (top bottom : bool) : Z :=
  if top && bottom then 0x2588
  else if top && negb bottom then 0x2580
  else if negb top && bottom then 0x2584
  else 0x20.

(** [mod(r, c)]: light outside the matrix. *)
Definition quiet (m : grid bool) (r c : Z) : bool :=
  let size := Z.of_nat (length m) in
  if (r <? 0) || (size <=? r) || (c <? 0) || (size <=? c) then false
  else is_true_at m (Z.to_nat r, Z.to_nat c).

(** [for (let r = -1; r < size + 1; r += 2)] *)
Definition line_rows (size : nat) : list Z := map (λ k, 2 * Z.of_nat k - 1) (seq 0 ((size + 3) / 2)).

Definition render_line (m : grid bool) (r : Z) : list Z :=
  map (λ c, block_char (quiet m r c) (quiet m (r + 1) c)) (zrange (-1) (Z.of_nat (length m))).

Definition join_lines (lines : list (list Z)) : list Z :=
  match lines with
  | [] => []
  | l :: ls => l ++ mjoin (map (cons 10) ls)
  end.

Definition renderQRText (m : grid bool) : list Z :=
  join_lines (map (render_line m) (line_rows (length m))).

Definition generateQR (text : list Z) : result (list Z) :=
  match generateQRMatrix text with
  | Ok m => Ok (renderQRText m)
  | Err e => Err e
  end.

(** ** Reference reader *)

Definition read_format (m : grid bool) : Z :=
  bits_value (map (λ i, Z.b2z (is_true_at m (format_first i))) (seq 0 15)).

Definition read_mask (m : grid bool) : option nat :=
  find (λ k, FORMAT_BITS k =? read_format m) (seq 0 8).

(** Unmask, read along the zigzag, drop the remainder bits, group into bytes. *)
Definition read_codewords (m : grid bool) (v maskIdx : nat) : list Z :=
  let plain := applyMask m (buildReservedMask v) maskIdx in
  let bits := read_modules plain (data_positions v) in
  bits_to_bytes (map Z.b2z (take (8 * totalCW (VERSION_TABLE v)) bits)).

Definition qr_read (m : grid bool) : option (list Z) :=
  let v := ((length m - 17) / 4)%nat in
  match read_mask m with
  | Some k => decodeData (mjoin (received_data v (read_codewords m v k)))
  | None => None
  end.

(** ** Masking *)

Lemma grid_imap_imap {A B C} (f : pos → B → C) (h : pos → A → B) g :
  grid_imap f (grid_imap h g) = grid_imap (λ p x, f p (h p x)) g.
Proof.
  unfold grid_imap. apply list_eq. intros r. rewrite !list_lookup_imap.
  destruct (g !! r) as [row|]; simpl; [|done]. f_equal.
  apply list_eq. intros c. rewrite !list_lookup_imap. by destruct (row !! c).
Qed.

Lemma grid_imap_id {A} (f : pos → A → A) g : (∀ p x, f p x = x) → grid_imap f g = g.
Proof.
  intros Hf. unfold grid_imap. apply list_eq. intros r. rewrite list_lookup_imap.
  destruct (g !! r) as [row|]; simpl; [|done]. f_equal.
  apply list_eq. intros c. rewrite list_lookup_imap.
  destruct (row !! c); simpl; [|done]. by rewrite Hf.
Qed.

Lemma applyMask_twice m rm k : applyMask (applyMask m rm k) rm k = m.
Proof.
  unfold applyMask. rewrite grid_imap_imap. apply grid_imap_id. intros p x.
  destruct (_ && _); [apply negb_involutive|done].
Qed.

(** A mask at a position of the grid. *)
Lemma applyMask_at n m rm k p :
  square n m → in_grid n p →
  is_true_at (applyMask m rm k) p =
  xorb (is_true_at m p) (negb (is_true_at rm p) && MASK_FUNCTIONS k p).
Proof.
  intros Hm Hp. unfold is_true_at at 1 2, applyMask. rewrite grid_get_imap.
  destruct (grid_get_in n m p Hm Hp) as [x ->]. simpl. by destruct (_ && _), x.
Qed.

Lemma applyMask_square n m rm k : square n m → square n (applyMask m rm k).
Proof. apply square_imap. Qed.
#[export] Hint Resolve applyMask_square : fh.

(** ** Format information as a list of writes *)

Definition format_positions (size : nat) : list pos :=
  mjoin (map (λ i, [format_first i; format_second size i]) (seq 0 15)).

Definition format_writes (size k : nat) : list (pos * bool) :=
  mjoin (map (λ i, [(format_first i, format_bit k i); (format_second size i, format_bit k i)])
    (seq 0 15)).

Lemma writeFormatInfo_writes m k : writeFormatInfo m k = write_all m (format_writes (length m) k).
Proof. reflexivity. Qed.

Lemma format_writes_fst size k : map fst (format_writes size k) = format_positions size.
Proof. reflexivity. Qed.

Lemma square_length {A} n (g : grid A) : square n g → length g = n.
Proof. by intros [? _]. Qed.

Lemma writeFormatInfo_square n m k : square n m → square n (writeFormatInfo m k).
Proof. intros. rewrite writeFormatInfo_writes. auto with fh. Qed.
#[export] Hint Resolve writeFormatInfo_square : fh.

(** The thirty modules of the format information are distinct and disjoint from
    the data modules. *)
Lemma format_disjoint v : valid_version v →
  let ps := format_positions (versionSize v) in
  NoDup (ps ++ data_positions v) ∧ Forall (in_grid (versionSize v)) ps.
Proof.
  intros Hv. cbv zeta.
  assert (H : positions_check (versionSize v)
    (length (format_positions (versionSize v) ++ data_positions v))
    (format_positions (versionSize v) ++ data_positions v) = true)
    by (revert v Hv; apply version_cases; vm_compute; reflexivity).
  apply positions_check_sound in H as (Hd & Hin & _). split; [done|].
  by apply Forall_app in Hin as [? _].
Qed.

Lemma format_nodup v : valid_version v → NoDup (format_positions (versionSize v)).
Proof. intros Hv. destruct (format_disjoint v Hv) as [H _]. by apply NoDup_app in H as (? & _). Qed.

Lemma format_not_data v p : valid_version v →
  p ∈ data_positions v → p ∉ format_positions (versionSize v).
Proof.
  intros Hv Hp Hf. destruct (format_disjoint v Hv) as [H _].
  apply NoDup_app in H as (_ & H & _). by apply (H p).
Qed.

Section Written.
Context (v : nat) (Hv : valid_version v) (m : grid bool) (Hm : square (versionSize v) m).

Lemma format_other k p :
  p ∉ format_positions (versionSize v) → is_true_at (writeFormatInfo m k) p = is_true_at m p.
Proof.
  intros Hp. rewrite writeFormatInfo_writes, (square_length _ _ Hm). unfold is_true_at.
  rewrite write_all_other; [done|]. by rewrite format_writes_fst.
Qed.

Lemma format_written k p b :
  (p, b) ∈ format_writes (versionSize v) k → is_true_at (writeFormatInfo m k) p = b.
Proof.
  intros Hp. rewrite writeFormatInfo_writes, (square_length _ _ Hm). unfold is_true_at.
  assert (Hpos : p ∈ format_positions (versionSize v)).
  { rewrite <- (format_writes_fst _ k). apply list_elem_of_fmap. by exists (p, b). }
  rewrite (write_all_get (versionSize v) _ _ p b); [done|done| |done|].
  - rewrite format_writes_fst. by apply format_nodup.
  - destruct (format_disjoint v Hv) as [_ H]. rewrite Forall_forall in H. by apply H.
Qed.

Lemma format_first_written k i :
  (i < 15)%nat → is_true_at (writeFormatInfo m k) (format_first i) = format_bit k i.
Proof.
  intros Hi. apply format_written. apply list_elem_of_join.
  exists [(format_first i, format_bit k i); (format_second (versionSize v) i, format_bit k i)].
  split; [left|]. apply list_elem_of_In, in_map_iff. exists i. split; [done|]. apply in_seq. lia.
Qed.

Lemma format_second_written k i :
  (i < 15)%nat →
  is_true_at (writeFormatInfo m k) (format_second (versionSize v) i) = format_bit k i.
Proof.
  intros Hi. apply format_written. apply list_elem_of_join.
  exists [(format_first i, format_bit k i); (format_second (versionSize v) i, format_bit k i)].
  split; [right; left|]. apply list_elem_of_In, in_map_iff. exists i. split; [done|].
  apply in_seq. lia.
Qed.

Lemma read_format_written k : (k < 8)%nat → read_mask (writeFormatInfo m k) = Some k.
Proof.
  intros Hk. unfold read_mask, read_format.
  rewrite (map_ext_in _ (λ i, Z.b2z (format_bit k i))).
  - do 8 (destruct k as [|k]; [reflexivity|]). lia.
  - intros i Hi%in_seq. f_equal. apply format_first_written. lia.
Qed.
End Written.

(** ** Reading a masked matrix *)

Lemma read_modules_ext g h ps :
  Forall (λ p, is_true_at g p = is_true_at h p) ps → read_modules g ps = read_modules h ps.
Proof.
  intros H. unfold read_modules. apply map_ext_in. intros p Hp%list_elem_of_In.
  rewrite Forall_forall in H. by apply H.
Qed.

Lemma unmasked_data v cws k : valid_version v →
  let rm := buildReservedMask v in
  let base := buildMatrix cws v in
  read_modules (applyMask (masked_matrix base rm k) rm k) (data_positions v) =
  read_modules base (data_positions v).
Proof.
  intros Hv rm base. apply read_modules_ext, Forall_forall. intros p Hp.
  destruct (data_positions_ok v Hv) as (_ & Hin & _). rewrite Forall_forall in Hin.
  pose proof (buildMatrix_square cws v) as Hsq. fold base in Hsq.
  rewrite (applyMask_at (versionSize v)); [|unfold masked_matrix; auto with fh|by apply Hin].
  unfold masked_matrix.
  rewrite (format_other v), (applyMask_at (versionSize v)) by
    (auto with fh || by apply format_not_data).
  by rewrite xorb_assoc, xorb_nilpotent, xorb_false_r.
Qed.

Lemma b2z_bits bits : bits_ok bits → map Z.b2z (map (λ b, b =? 1) bits) = bits.
Proof. induction 1 as [|b bits [->| ->] _ IH]; simpl; congruence. Qed.

Lemma read_codewords_masked v cws k :
  valid_version v → bytes cws → length cws = totalCW (VERSION_TABLE v) →
  read_codewords (masked_matrix (buildMatrix cws v) (buildReservedMask v) k) v k = cws.
Proof.
  intros Hv Hb Hl. unfold read_codewords. rewrite unmasked_data, buildMatrix_data by done.
  unfold module_bits. rewrite take_app_exact.
  - rewrite b2z_bits by auto with fh. by apply bytes_of_data_bits.
  - by rewrite length_map, length_data_bits, Hl.
Qed.

(** ** The choice of the mask *)

Section Choice.
Context (base rm : grid bool).

Definition mask_score (k : nat) : Z := penaltyScore (masked_matrix base rm k).

Lemma try_masks n :
  let st := foldl (try_mask base rm) (base, None) (seq 0 (S n)) in
  ∃ k, (k < S n)%nat ∧ st = (masked_matrix base rm k, Some (mask_score k)) ∧
       ∀ j, (j < S n)%nat → mask_score k ≤ mask_score j ∧ ((j < k)%nat → mask_score k < mask_score j).
Proof.
  induction n as [|n (k & Hk & E & Hmin)]; cbv zeta.
  - exists 0%nat. split; [lia|]. split; [done|]. intros j Hj. replace j with 0%nat by lia. lia.
  - rewrite seq_S, foldl_app, E. cbn [foldl Nat.add]. unfold try_mask. cbn [fst snd].
    fold (mask_score (S n)). destruct (mask_score (S n) <? mask_score k) eqn:Es; bool_cases.
    + exists (S n). split; [lia|]. split; [done|]. intros j Hj.
      destruct (decide (j = S n)) as [->|]; [lia|]. destruct (Hmin j); [lia|]. lia.
    + exists k. split; [lia|]. split; [done|]. intros j Hj.
      destruct (decide (j = S n)) as [->|]; [lia|]. apply Hmin. lia.
Qed.

Lemma best_mask_choice :
  ∃ k, (k < 8)%nat ∧ best_mask base rm = masked_matrix base rm k ∧
       ∀ j, (j < 8)%nat → mask_score k ≤ mask_score j ∧ ((j < k)%nat → mask_score k < mask_score j).
Proof.
  destruct (try_masks 7) as (k & Hk & E & Hmin). exists k. split; [done|]. split; [|done].
  unfold best_mask. by rewrite E.
Qed.
End Choice.

Lemma masked_square v cws k :
  square (versionSize v) (masked_matrix (buildMatrix cws v) (buildReservedMask v) k).
Proof. unfold masked_matrix. auto using buildMatrix_square with fh. Qed.

Lemma version_of_size v : ((versionSize v - 17) / 4)%nat = v.
Proof. unfold versionSize. rewrite Nat.add_comm, Nat.add_sub. by apply Nat.div_mul. Qed.

Lemma qr_read_masked data v k :
  valid_version v → (k < 8)%nat → bytes data → (length data ≤ BYTE_CAPACITY v)%nat →
  qr_read (masked_matrix (base_matrix data v) (buildReservedMask v) k) = Some data.
Proof.
  intros Hv Hk Hb Hn. destruct (encodeData_decodes data v Hv Hb Hn) as (Hl & Hb' & Hdec).
  destruct (buildCodewords_spec _ v Hv Hb' Hl) as (Hcl & Hcb & Hjoin & _).
  unfold qr_read. rewrite (square_length (versionSize v)) by apply masked_square.
  rewrite version_of_size.
  unfold masked_matrix at 1. rewrite (read_format_written v Hv) by
    (done || apply applyMask_square, buildMatrix_square).
  unfold base_matrix. by rewrite read_codewords_masked, Hjoin.
Qed.

(** ** The rendered text *)

(** Reference reader of the terminal text: lines, their inner characters, the
    upper and lower module of each character, without the quiet zone. *)

Fixpoint split_lines (text : list Z) : list (list Z) :=
  match text with
  | [] => [[]]
  | ch :: rest =>
      if ch =? 10 then [] :: split_lines rest
      else match split_lines rest with
           | l :: ls => (ch :: l) :: ls
           | [] => [[ch]]
           end
  end.

Definition inner {A} (l : list A) : list A := take (length l - 2) (drop 1 l).

Definition upper_module (ch : Z) : bool := (ch =? 0x2588) || (ch =? 0x2580).
Definition lower_module (ch : Z) : bool := (ch =? 0x2588) || (ch =? 0x2584).

Definition unrender_line (l : list Z) : grid bool :=
  [map upper_module (inner l); map lower_module (inner l)].

Definition unrender (text : list Z) : grid bool :=
  let lines := split_lines text in
  take (length (inner (hd [] lines))) (drop 1 (mjoin (map unrender_line lines))).

Lemma upper_block t b : upper_module (block_char t b) = t.
Proof. by destruct t, b. Qed.
Lemma lower_block t b : lower_module (block_char t b) = b.
Proof. by destruct t, b. Qed.

Lemma split_lines_app l rest :
  10 ∉ l → split_lines (l ++ 10 :: rest) = l :: split_lines rest.
Proof.
  induction l as [|ch l IH]; intros Hl; [done|].
  apply not_elem_of_cons in Hl as [Hne Hl]. simpl. rewrite (proj2 (Z.eqb_neq ch 10)) by done.
  by rewrite IH.
Qed.

Lemma split_lines_one l : 10 ∉ l → split_lines l = [l].
Proof.
  induction l as [|ch l IH]; intros Hl; [done|].
  apply not_elem_of_cons in Hl as [Hne Hl]. simpl. rewrite (proj2 (Z.eqb_neq ch 10)) by done.
  by rewrite IH.
Qed.

Lemma split_join l ls :
  Forall (λ l, 10 ∉ l) (l :: ls) → split_lines (join_lines (l :: ls)) = l :: ls.
Proof.
  revert l. induction ls as [|l' ls IH]; intros l [Hl Hls]%Forall_cons.
  - simpl. rewrite app_nil_r. by apply split_lines_one.
  - specialize (IH l' Hls). simpl in *. by rewrite split_lines_app, IH.
Qed.

Lemma block_not_newline t b : block_char t b ≠ 10.
Proof. by destruct t, b. Qed.

Lemma render_line_clean m r : 10 ∉ render_line m r.
Proof.
  unfold render_line. intros H%list_elem_of_In%in_map_iff. destruct H as (c & H & _).
  by apply block_not_newline in H.
Qed.

Lemma inner_zrange {A} (f : Z → A) n :
  inner (map f (zrange (-1) (Z.of_nat n))) = map (λ j, f (Z.of_nat j)) (seq 0 n).
Proof.
  unfold inner, zrange. rewrite !length_map, length_seq, map_map.
  replace (Z.to_nat (Z.of_nat n - -1 + 1)) with (S (S n)) by lia.
  change (seq 0 (S (S n))) with (0%nat :: seq 1 (S n)).
  rewrite seq_S. cbn [map drop]. rewrite map_app, skipn_O, take_app_exact.
  - rewrite <- seq_shift, map_map. apply map_ext. intros j. f_equal. lia.
  - rewrite length_map, length_seq. lia.
Qed.

(** Row [r] of the matrix, by [mod]. *)
Definition quiet_row (m : grid bool) (r : Z) : list bool :=
  map (λ j, quiet m r (Z.of_nat j)) (seq 0 (length m)).

Lemma unrender_render_line m r :
  unrender_line (render_line m r) = [quiet_row m r; quiet_row m (r + 1)].
Proof.
  unfold unrender_line, render_line. rewrite inner_zrange, !map_map.
  unfold quiet_row.
  rewrite (map_ext _ _ (λ j, upper_block _ (quiet m (r + 1) (Z.of_nat j)))).
  by rewrite (map_ext _ _ (λ j, lower_block (quiet m r (Z.of_nat j)) _)).
Qed.

Lemma join_pairs {A} (f : Z → A) n :
  mjoin (map (λ k, [f (2 * Z.of_nat k - 1); f (2 * Z.of_nat k - 1 + 1)]) (seq 0 n)) =
  map (λ j, f (Z.of_nat j - 1)) (seq 0 (2 * n)).
Proof.
  induction n as [|n IH]; [done|].
  replace (2 * S n)%nat with (S (S (2 * n))) by lia. rewrite !seq_S, !map_app.
  rewrite join_app, IH, <- app_assoc. cbn [map mjoin list_join app Nat.add].
  repeat f_equal; lia.
Qed.

Lemma quiet_rows n m : square n m → map (λ j, quiet_row m (Z.of_nat j)) (seq 0 n) = m.
Proof.
  intros [Hl Hr]. apply list_eq. intros i. rewrite list_lookup_fmap.
  destruct (m !! i) as [row|] eqn:Hi.
  - pose proof (lookup_lt_Some _ _ _ Hi). rewrite lookup_seq_lt by lia. simpl. f_equal.
    pose proof (Forall_lookup_1 _ _ _ _ Hr Hi) as Hrow. simpl in Hrow.
    apply list_eq. intros j. unfold quiet_row. rewrite list_lookup_fmap, Hl.
    destruct (row !! j) as [b|] eqn:Hj.
    + pose proof (lookup_lt_Some _ _ _ Hj). rewrite lookup_seq_lt by lia. simpl. f_equal.
      unfold quiet. rewrite Hl. repeat (rewrite (proj2 (Z.ltb_ge _ _)) by lia).
      repeat (rewrite (proj2 (Z.leb_gt _ _)) by lia). simpl.
      unfold is_true_at, grid_get. simpl. rewrite !Nat2Z.id, Hi. simpl. by rewrite Hj.
    + apply lookup_ge_None in Hj. by rewrite lookup_seq_ge by lia.
  - apply lookup_ge_None in Hi. by rewrite lookup_seq_ge by lia.
Qed.

Lemma line_rows_cons n : line_rows n = -1 :: tail (line_rows n).
Proof.
  unfold line_rows. replace ((n + 3) / 2)%nat with (S ((n + 1) / 2)); [done|].
  replace (n + 3)%nat with (n + 1 + 1 * 2)%nat by lia. rewrite Nat.div_add by lia. lia.
Qed.

Lemma split_rendered m :
  split_lines (renderQRText m) = map (render_line m) (line_rows (length m)).
Proof.
  unfold renderQRText. rewrite line_rows_cons. cbn [map]. apply split_join.
  rewrite <- map_cons. apply Forall_forall. intros l H%list_elem_of_In%in_map_iff.
  destruct H as (r & <- & _). apply render_line_clean.
Qed.

(** The rows read back, from row [-1] of the quiet zone on. *)
Lemma rendered_rows m :
  mjoin (map unrender_line (map (render_line m) (line_rows (length m)))) =
  map (λ j, quiet_row m (Z.of_nat j - 1)) (seq 0 (2 * ((length m + 3) / 2))).
Proof.
  unfold line_rows. rewrite !map_map.
  rewrite (map_ext _ _ (λ k, unrender_render_line m _)). apply (join_pairs (quiet_row m)).
Qed.

Lemma unrender_renderQRText n m : square n m → unrender (renderQRText m) = m.
Proof.
  intros Hm. unfold unrender. rewrite split_rendered, rendered_rows.
  rewrite line_rows_cons at 1. cbn [map hd]. unfold render_line.
  rewrite inner_zrange, length_map, length_seq.
  assert (Hc : (length m + 1 <= 2 * ((length m + 3) / 2))%nat).
  { pose proof (Nat.div_mod_eq (length m + 3) 2).
    pose proof (Nat.mod_upper_bound (length m + 3) 2). lia. }
  remember (2 * ((length m + 3) / 2))%nat as c eqn:Ec.
  replace c with (1 + (length m + (c - 1 - length m)))%nat by lia.
  rewrite !seq_app, !map_app. cbn [seq map app drop]. rewrite skipn_O.
  rewrite take_app_exact by (by rewrite length_map, length_seq).
  rewrite (square_length _ _ Hm). change (0 + 1)%nat with 1%nat.
  rewrite <- seq_shift, map_map.
  etransitivity; [|apply (quiet_rows n m Hm)].
  apply map_ext. intros j. f_equal. lia.
Qed.

Lemma generateQR_spec text :
  Forall is_unit text →
  match generateQR text with
  | Ok s => qr_read (unrender s) = Some (utf8_encode text)
  | Err e => e = too_long ∧ (62 < length (utf8_encode text))%nat
  end.
Proof.
  intros Hu. unfold generateQR, generateQRMatrix. cbv zeta.
  pose proof (selectVersion_spec (length (utf8_encode text))) as Hs.
  destruct (selectVersion _) as [v|e]; [|done].
  destruct Hs as (Hv & Hn & _).
  destruct (best_mask_choice (base_matrix (utf8_encode text) v) (buildReservedMask v))
    as (k & Hk & E & _).
  rewrite E, (unrender_renderQRText (versionSize v)) by apply masked_square.
  apply qr_read_masked; auto using utf8_encode_bytes.
Qed.

Lemma generateQR_long text s : generateQR text = Ok s → (length (utf8_encode text) ≤ 62)%nat.
Proof.
  unfold generateQR, generateQRMatrix. cbv zeta.
  pose proof (selectVersion_spec (length (utf8_encode text))) as Hs.
  destruct (selectVersion _) as [v|e]; [|done]. intros _. destruct Hs as (Hv & Hn & _).
  revert Hn. revert v Hv. apply (version_cases (λ v, _ → _)); simpl; lia.
Qed.

(** ** The theorems *)

(** C1: [generateQR] throws exactly on texts of more than 62 UTF-8 bytes; every
    other text gives a rendered code from which the reference reader gets the
    text back: modules off the half blocks, mask off the format information,
    codewords off the zigzag, bytes off the blocks and the header. *)
Theorem generateQR_readable text :
  Forall is_unit text →
  match generateQR text with
  | Ok s => qr_read (unrender s) = Some (utf8_encode text)
  | Err e => e = too_long ∧ (62 < length (utf8_encode text))%nat
  end.
Proof. apply generateQR_spec. Qed.

Lemma generateQR_readable_witness :
  ∃ s, generateQR [0x68; 0xe9; 0xd83d; 0xde00] = Ok s ∧
       qr_read (unrender s) = Some [0x68; 0xc3; 0xa9; 0xf0; 0x9f; 0x98; 0x80].
Proof.
  assert (H : Forall is_unit [0x68; 0xe9; 0xd83d; 0xde00])
    by (repeat constructor; unfold is_unit; lia).
  pose proof (generateQR_readable _ H) as R.
  assert (E : is_ok (generateQR [0x68; 0xe9; 0xd83d; 0xde00]) = true) by (vm_compute; reflexivity).
  destruct (generateQR [0x68; 0xe9; 0xd83d; 0xde00]) as [s|e]; [|discriminate E].
  exists s. split; [reflexivity|]. exact R.
Defined.

(** The code of a text is one of its eight masked matrices, and the loop
    over the masks keeps the first one of the least penalty. *)
Theorem generateQRMatrix_least_penalty text m :
  generateQRMatrix text = Ok m →
  ∃ v k, selectVersion (length (utf8_encode text)) = Ok v ∧ (k < 8)%nat ∧
    let candidate j := masked_matrix (base_matrix (utf8_encode text) v) (buildReservedMask v) j in
    m = candidate k ∧
    ∀ j, (j < 8)%nat → penaltyScore m ≤ penaltyScore (candidate j) ∧
         ((j < k)%nat → penaltyScore m < penaltyScore (candidate j)).
Proof.
  unfold generateQRMatrix. cbv zeta. destruct (selectVersion _) as [v|e] eqn:Ev; [|done].
  intros [= <-].
  destruct (best_mask_choice (base_matrix (utf8_encode text) v) (buildReservedMask v))
    as (k & Hk & E & Hmin).
  exists v, k. rewrite E. repeat split; try done; by apply Hmin.
Qed.

Lemma generateQRMatrix_least_penalty_witness :
  ∃ m v k, generateQRMatrix [104; 105] = Ok m ∧ selectVersion 2 = Ok v ∧ (k < 8)%nat ∧
    m = masked_matrix (base_matrix [104; 105] v) (buildReservedMask v) k.
Proof.
  assert (E : is_ok (generateQRMatrix [104; 105]) = true) by (vm_compute; reflexivity).
  pose proof (generateQRMatrix_least_penalty [104; 105]) as R.
  destruct (generateQRMatrix [104; 105]) as [m|e]; [|discriminate E].
  destruct (R m eq_refl) as (v & k & Hv & Hk & Hm & _).
  exists m, v, k. split; [reflexivity|]. split; [exact Hv|]. split; [exact Hk|exact Hm].
Defined.

(** The two separate traversals that reserve modules agree: on every module
    of the grid, the mask flips exactly the modules that carry codeword bits
    where the mask function holds, leaves the function patterns and the format
    area alone, and applying it twice restores the matrix. *)
Theorem applyMask_data_only v m k p :
  valid_version v → square (versionSize v) m → in_grid (versionSize v) p →
  let masked := applyMask m (buildReservedMask v) k in
  applyMask masked (buildReservedMask v) k = m ∧
  is_true_at masked p =
  if bool_decide (p ∈ data_positions v) then xorb (is_true_at m p) (MASK_FUNCTIONS k p)
  else is_true_at m p.
Proof.
  intros Hv Hm Hp. split; [apply applyMask_twice|].
  rewrite (applyMask_at (versionSize v)) by done.
  case_bool_decide as Hd.
  - apply data_positions_iff in Hd; [|done..]. by rewrite Hd.
  - destruct (is_true_at (buildReservedMask v) p) eqn:E.
    + by rewrite xorb_false_r.
    + exfalso. by apply Hd, data_positions_iff.
Qed.

Lemma applyMask_data_only_witness :
  let m := new_grid 21 false in
  let masked := applyMask m (buildReservedMask 1) 0 in
  valid_version 1 ∧ applyMask masked (buildReservedMask 1) 0 = m ∧
  is_true_at masked (20, 20)%nat = true ∧ is_true_at masked (0, 0)%nat = false.
Proof.
  assert (Hv : valid_version 1) by (unfold valid_version; lia).
  destruct (applyMask_data_only 1 (new_grid 21 false) 0 (20, 20)%nat Hv) as [H1 H2];
    [apply square_new|split; apply Nat.ltb_lt; reflexivity|].
  split; [exact Hv|]. split; [exact H1|]. split; vm_compute; reflexivity.
Defined.

(** [writeFormatInfo] gives the always dark module at row [size - 8] of
    column 8 to bit 7 of the format information, so that the finished code has
    it light for the masks 0 to 3, and never writes the module at row 8 and
    column [size - 8], where bit 7 of the second copy belongs. *)
Theorem writeFormatInfo_dark_module v m k :
  valid_version v → square (versionSize v) m → (k < 8)%nat →
  is_true_at (writeFormatInfo m k) (versionSize v - 8, 8)%nat = negb (k <? 4)%nat ∧
  is_true_at (writeFormatInfo m k) (8, versionSize v - 8)%nat =
  is_true_at m (8, versionSize v - 8)%nat.
Proof.
  intros Hv Hm Hk. split.
  - pose proof (format_second_written v Hv m Hm k 7) as H.
    replace (versionSize v - 8)%nat with (versionSize v - 1 - 7)%nat by lia.
    unfold format_second in H. cbn [Nat.ltb Nat.leb] in H. rewrite H by lia.
    do 8 (destruct k as [|k]; [reflexivity|]). lia.
  - apply (format_other v m Hm). clear m Hm. revert v Hv.
    apply version_cases; apply (bool_decide_unpack _); vm_compute; exact I.
Qed.

Lemma writeFormatInfo_dark_module_witness :
  let m := base_matrix [104; 105] 1 in
  is_true_at m (13, 8)%nat = true ∧ is_true_at (writeFormatInfo m 0) (13, 8)%nat = false.
Proof.
  assert (Hv : valid_version 1) by (unfold valid_version; lia).
  split; [vm_compute; reflexivity|].
  apply (writeFormatInfo_dark_module 1 (base_matrix [104; 105] 1) 0 Hv);
    [apply buildMatrix_square|lia].
Defined.
