(* ===== verification/JsMap.v ===== *)
(** * JavaScript maps and strings

    A [Map] iterates in insertion order, and setting a present key keeps its
    place, so a map is the association list of its entries.  Strings are lists
    of UTF-16 code units; the strings of these components hold units below 256,
    one [ascii] each. *)

From S2P Require Import Prelude.

(** ** [Map<string, A>] *)

Abbreviation jsmap A := (list (string * A)).

Section JsMap.
Context {A : Type}.
Implicit Types (m : jsmap A) (k : string).

Fixpoint map_get m k : option A :=
  match m with
  | [] => None
  | (k', a) :: m' => if decide (k' = k) then Some a else map_get m' k
  end.

Fixpoint map_set m k (a : A) : jsmap A :=
  match m with
  | [] => [(k, a)]
  | (k', a') :: m' => if decide (k' = k) then (k', a) :: m' else (k', a') :: map_set m' k a
  end.

Definition map_delete m k : jsmap A := filter (λ e, e.1 ≠ k) m.

Definition map_has m k : bool := if map_get m k is Some _ then true else false.

Definition map_keys m : list string := map fst m.

(** The keys of a map are distinct: the invariant of every operation. *)
Definition map_wf m : Prop := NoDup (map_keys m).

Lemma map_get_set_eq m k a : map_get (map_set m k a) k = Some a.
Proof.
  induction m as [|[k' a'] m IH]; simpl; [by rewrite decide_True|].
  destruct (decide (k' = k)) as [->|Hne]; simpl; [by rewrite decide_True|].
  by rewrite decide_False.
Qed.

Lemma map_get_set_ne m k j a : k ≠ j → map_get (map_set m k a) j = map_get m j.
Proof.
  intros Hne. induction m as [|[k' a'] m IH]; simpl; [by rewrite decide_False|].
  destruct (decide (k' = k)) as [->|]; simpl; [by rewrite !decide_False|].
  by rewrite IH.
Qed.

Lemma map_get_set m k j a :
  map_get (map_set m k a) j = if decide (k = j) then Some a else map_get m j.
Proof.
  case_decide; [subst; apply map_get_set_eq|by apply map_get_set_ne].
Qed.

Lemma map_get_filter (P : string * A → Prop) `{!∀ e, Decision (P e)} m k :
  map_wf m →
  map_get (filter P m) k =
  match map_get m k with Some a => if decide (P (k, a)) then Some a else None | None => None end.
Proof.
  unfold map_wf, map_keys. induction m as [|[k' a'] m IH]; simpl; [done|].
  intros [Hk Hm]%NoDup_cons. rewrite filter_cons. case_decide as HP; simpl.
  - destruct (decide (k' = k)) as [->|]; [by rewrite decide_True|]. by apply IH.
  - rewrite IH by done. destruct (decide (k' = k)) as [->|]; [|done].
    rewrite (decide_False (P := P (k, a'))) by done.
    assert (Hn : map_get m k = None); [|by rewrite Hn].
    clear -Hk. induction m as [|[j b] m IH]; [done|]. simpl in *.
    apply not_elem_of_cons in Hk as [? ?]. rewrite decide_False by done. by apply IH.
Qed.

Lemma map_get_delete m k j :
  map_wf m → map_get (map_delete m k) j = if decide (k = j) then None else map_get m j.
Proof.
  intros Hm. unfold map_delete. rewrite map_get_filter by done.
  destruct (map_get m j); repeat case_decide; simpl in *; congruence.
Qed.

Lemma map_get_None m k : map_get m k = None ↔ k ∉ map_keys m.
Proof.
  induction m as [|[k' a] m IH]; simpl.
  - split; [intros _; apply not_elem_of_nil|done].
  - rewrite not_elem_of_cons. case_decide; subst; [naive_solver|]. rewrite IH. naive_solver.
Qed.

Lemma map_get_Some_elem m k a : map_get m k = Some a → (k, a) ∈ m.
Proof.
  induction m as [|[k' a'] m IH]; simpl; [done|].
  case_decide; [intros [= ->]; subst; left|]. intros. right. auto.
Qed.

Lemma map_get_elem m k a : map_wf m → (k, a) ∈ m → map_get m k = Some a.
Proof.
  unfold map_wf, map_keys. induction m as [|[k' a'] m IH]; simpl; [by intros _ ?%not_elem_of_nil|].
  intros [Hk Hm]%NoDup_cons [[= <- <-]|H]%elem_of_cons; [by rewrite decide_True|].
  rewrite decide_False; [by apply IH|]. intros ->. apply Hk.
  apply list_elem_of_fmap. by exists (k, a).
Qed.

Lemma map_keys_set m k a :
  map_keys (map_set m k a) = if map_get m k is Some _ then map_keys m else map_keys m ++ [k].
Proof.
  induction m as [|[k' a'] m IH]; simpl; [done|]. case_decide; simpl; [done|].
  rewrite IH. by destruct (map_get m k).
Qed.

Lemma map_wf_set m k a : map_wf m → map_wf (map_set m k a).
Proof.
  unfold map_wf. rewrite map_keys_set. destruct (map_get m k) eqn:E; [done|].
  intros Hm. apply NoDup_app. split; [done|]. split; [|apply NoDup_singleton].
  intros x Hx ->%list_elem_of_singleton. by apply map_get_None in E.
Qed.

Lemma map_wf_filter (P : string * A → Prop) `{!∀ e, Decision (P e)} m :
  map_wf m → map_wf (filter P m).
Proof.
  unfold map_wf, map_keys. induction m as [|[k a] m IH]; simpl; [done|].
  intros [Hk Hm]%NoDup_cons. rewrite filter_cons. case_decide; [|auto]. simpl.
  apply NoDup_cons. split; [|auto]. intros Hin. apply Hk.
  apply list_elem_of_In, in_map_iff in Hin as ([k' a'] & <- & Hf%list_elem_of_In).
  apply list_elem_of_filter in Hf as [_ Hf]. apply list_elem_of_fmap. by exists (k', a').
Qed.

Lemma map_wf_delete m k : map_wf m → map_wf (map_delete m k).
Proof. apply map_wf_filter. Qed.

Lemma map_size_set m k a :
  length (map_set m k a) = if map_get m k is Some _ then length m else S (length m).
Proof.
  induction m as [|[k' a'] m IH]; simpl; [done|]. case_decide; simpl; [done|].
  rewrite IH. by destruct (map_get m k).
Qed.

Lemma map_size_filter (P : string * A → Prop) `{!∀ e, Decision (P e)} m :
  length (filter P m) ≤ length m.
Proof. induction m as [|e m IH]; simpl; [done|]. rewrite filter_cons. case_decide; simpl; lia. Qed.

Lemma map_wf_nil : map_wf [].
Proof. apply NoDup_nil_2. Qed.
End JsMap.

#[export] Hint Resolve map_wf_set map_wf_filter map_wf_delete map_wf_nil : fh.

(** A key that the map has not is added at its end, and found there. *)
Lemma map_set_new {A} (m : jsmap A) k a : k ∉ map_keys m → map_set m k a = m ++ [(k, a)].
Proof.
  induction m as [|[k' a'] m IH]; [done|]. unfold map_keys. cbn [map fst map_set]. intros [Hne Hk]%not_elem_of_cons.
  rewrite decide_False by congruence. by rewrite IH.
Qed.

Lemma map_set_last {A} (m : jsmap A) k a b : k ∉ map_keys m → map_set (m ++ [(k, a)]) k b = m ++ [(k, b)].
Proof.
  induction m as [|[k' a'] m IH]; simpl; [by rewrite decide_True|]. intros [Hne Hk]%not_elem_of_cons.
  rewrite decide_False by congruence. by rewrite IH.
Qed.

Lemma map_get_last {A} (m : jsmap A) k a : k ∉ map_keys m → map_get (m ++ [(k, a)]) k = Some a.
Proof.
  induction m as [|[k' a'] m IH]; simpl; [by rewrite decide_True|]. intros [Hne Hk]%not_elem_of_cons.
  rewrite decide_False by congruence. by apply IH.
Qed.

(** Updating every value in place. *)
Definition map_values {A B} (f : A → B) (m : jsmap A) : jsmap B := map (λ e, (e.1, f e.2)) m.

Lemma map_get_values {A B} (f : A → B) (m : jsmap A) k :
  map_get (map_values f m) k = f <$> map_get m k.
Proof. induction m as [|[k' a] m IH]; simpl; [done|]. by case_decide. Qed.

Lemma map_keys_values {A B} (f : A → B) (m : jsmap A) : map_keys (map_values f m) = map_keys m.
Proof. unfold map_keys, map_values. rewrite map_map. done. Qed.

Lemma map_wf_values {A B} (f : A → B) (m : jsmap A) : map_wf m → map_wf (map_values f m).
Proof. unfold map_wf. by rewrite map_keys_values. Qed.
#[export] Hint Resolve map_wf_values : fh.

(** ** Strings *)

(** Truthiness of a string, and of a property that may be undefined. *)
Definition str_truthy (s : string) : bool := negb (bool_decide (s = ""%string)).
Definition opt_truthy (s : option string) : bool :=
  match s with Some s => str_truthy s | None => false end.

Fixpoint str_split_aux (sep : Ascii.ascii) (s : string) (acc : string) : list string :=
  match s with
  | EmptyString => [acc]
  | String c s' =>
      if decide (c = sep) then acc :: str_split_aux sep s' ""
      else str_split_aux sep s' (acc ++ String c "")%string
  end.

(** [s.split(sep)] for a separator of one unit. *)
Definition str_split (sep : Ascii.ascii) (s : string) : list string := str_split_aux sep s "".

(** The white space that [trim] removes, among the units below 256: tab, line
    feed, vertical tab, form feed, carriage return, space, no-break space. *)
Definition is_space (c : Ascii.ascii) : bool :=
  let n := Ascii.nat_of_ascii c in
  ((9 <=? n) && (n <=? 13)) || (n =? 32) || (n =? 160).

Fixpoint trim_start (s : string) : string :=
  match s with
  | String c s' => if is_space c then trim_start s' else s
  | EmptyString => EmptyString
  end.

Definition trim_end (s : string) : string :=
  String.rev (trim_start (String.rev s)).

Definition trim (s : string) : string := trim_end (trim_start s).

(** [String.prototype.toLowerCase] on units below 256. *)
Definition lower_ascii (c : Ascii.ascii) : Ascii.ascii :=
  let n := Ascii.nat_of_ascii c in
  if ((65 <=? n) && (n <=? 90)) || ((192 <=? n) && (n <=? 222) && negb (n =? 215))
  then Ascii.ascii_of_nat (n + 32) else c.

Fixpoint to_lower (s : string) : string :=
  match s with
  | String c s' => String (lower_ascii c) (to_lower s')
  | EmptyString => EmptyString
  end.

Definition starts_with (p s : string) : bool := String.prefix p s.

(** [s.slice(n)] for [0 <= n]. *)
Fixpoint str_drop (n : nat) (s : string) : string :=
  match n, s with
  | S n, String _ s' => str_drop n s'
  | _, _ => s
  end.

(** ** JSON values *)

(** A parsed JSON value; the numbers these components read are integers. *)
Inductive jvalue :=
| JNull
| JBool (b : bool)
| JNum (n : Z)
| JStr (s : string)
| JArr (l : list jvalue)
| JObj (fields : list (string * jvalue)).

(** [v.name], [None] when undefined. *)
Definition field (v : jvalue) (name : string) : option jvalue :=
  match v with JObj fs => map_get fs name | _ => None end.

(** [typeof v.name === 'string'], with the string. *)
Definition str_field (v : jvalue) (name : string) : option string :=
  match field v name with Some (JStr s) => Some s | _ => None end.

(** [!v] *)
Definition falsy (v : jvalue) : bool :=
  match v with
  | JNull => true
  | JBool b => negb b
  | JNum n => (n =? 0)%Z
  | JStr s => negb (str_truthy s)
  | _ => false
  end.

(** ** Code units and bytes of a string *)

Definition unit_of (c : Ascii.ascii) : Z := Z.of_N (Ascii.N_of_ascii c).

Definition units (s : string) : list Z := map unit_of (String.list_ascii_of_string s).

Lemma unit_of_range c : (0 ≤ unit_of c < 256)%Z.
Proof.
  unfold unit_of. pose proof (Ascii.N_ascii_bounded c). lia.
Qed.

Definition hex_digit (n : Z) : string :=
  let n := Z.to_nat n in
  String (nth n (String.list_ascii_of_string "0123456789ABCDEF") Ascii.zero) "".

Definition percent (b : Z) : string := ("%" ++ hex_digit (b / 16) ++ hex_digit (b mod 16))%string.

Definition unescaped : string :=
  "ABCDEFGHIJKLMNOPQRSTUVWXYZabcdefghijklmnopqrstuvwxyz0123456789-_.!~*'()".

(** [encodeURIComponent] on units below 256. *)
Fixpoint encodeURIComponent (s : string) : string :=
  match s with
  | EmptyString => EmptyString
  | String c s' =>
      let rest := encodeURIComponent s' in
      let u := unit_of c in
      if bool_decide (c ∈ String.list_ascii_of_string unescaped) then String c rest
      else if (u <? 128)%Z then (percent u ++ rest)%string
      else (percent (192 + u / 64) ++ percent (128 + u mod 64) ++ rest)%string
  end.

(** [s.replace(pattern, replacement)] for a non-empty string pattern: the first
    occurrence.  [$] sequences of the replacement are not interpreted. *)
Fixpoint replace_first (pattern replacement s : string) : string :=
  if starts_with pattern s then (replacement ++ str_drop (String.length pattern) s)%string
  else match s with
       | EmptyString => EmptyString
       | String c s' => String c (replace_first pattern replacement s')
       end.
