(* ===== verification/JsString.v ===== *)
(** * Strings

    The operations on strings the components share beyond those of [JsMap.v],
    and their laws: prefixes, suffixes, [includes], reversal, and splitting at a
    character that does not occur on one side; slices and the pieces of a long
    message. *)

From Stdlib Require Import Ascii.
From stdpp Require Import pretty.
From S2P Require Import Prelude JsMap.
Definition ends_with (suffix s : string) : bool :=
  starts_with (String.rev suffix) (String.rev s).

(** [s.includes(needle)] *)
Fixpoint includes (needle s : string) : bool :=
  starts_with needle s || match s with String _ s' => includes needle s' | EmptyString => false end.

Lemma prefix_app p s : starts_with p s = true ↔ ∃ r, s = (p ++ r)%string.
Proof.
  unfold starts_with. revert s. induction p as [|c p IH]; intros s.
  - assert (String.prefix "" s = true) as -> by (by destruct s). split; [intros _; by exists s|done].
  - destruct s as [|d s]; simpl; [split; [done|by intros [r ?]]|].
    destruct (Ascii.ascii_dec c d) as [->|Hne].
    + rewrite IH. split; intros [r E]; exists r; [by rewrite E|]. by injection E.
    + split; [done|]. intros [r E]. by injection E.
Qed.

Lemma list_of_string_app s1 s2 :
  String.list_ascii_of_string (s1 ++ s2) = String.list_ascii_of_string s1 ++ String.list_ascii_of_string s2.
Proof. induction s1 as [|c s1 IH]; [done|]. simpl. by rewrite IH. Qed.

Lemma list_of_string_inj s1 s2 :
  String.list_ascii_of_string s1 = String.list_ascii_of_string s2 → s1 = s2.
Proof.
  intros E. rewrite <- (String.string_of_list_ascii_of_string s1), E.
  apply String.string_of_list_ascii_of_string.
Qed.

Lemma list_of_rev_app s1 s2 :
  String.list_ascii_of_string (String.rev_app s1 s2) =
  rev (String.list_ascii_of_string s1) ++ String.list_ascii_of_string s2.
Proof.
  revert s2. induction s1 as [|c s1 IH]; intros s2; simpl; [done|].
  rewrite IH. simpl. by rewrite <- app_assoc.
Qed.

Lemma list_of_rev s :
  String.list_ascii_of_string (String.rev s) = rev (String.list_ascii_of_string s).
Proof. unfold String.rev. by rewrite list_of_rev_app, app_nil_r. Qed.

Lemma rev_string_app s1 s2 : String.rev (s1 ++ s2) = (String.rev s2 ++ String.rev s1)%string.
Proof.
  apply list_of_string_inj. by rewrite list_of_rev, !list_of_string_app, rev_app_distr, !list_of_rev.
Qed.

Lemma rev_string_involutive s : String.rev (String.rev s) = s.
Proof. apply list_of_string_inj. by rewrite !list_of_rev, rev_involutive. Qed.

Lemma suffix_app suffix s : ends_with suffix s = true ↔ ∃ p, s = (p ++ suffix)%string.
Proof.
  unfold ends_with. rewrite prefix_app. split; intros [r E].
  - exists (String.rev r). rewrite <- (rev_string_involutive s), E, rev_string_app.
    by rewrite rev_string_involutive.
  - exists (String.rev r). by rewrite E, rev_string_app.
Qed.

Lemma length_app_string s1 s2 :
  String.length (s1 ++ s2) = String.length s1 + String.length s2.
Proof. induction s1 as [|c s1 IH]; [done|]. simpl. by rewrite IH. Qed.

Lemma string_app_cons c s1 s2 : (String c s1 ++ s2)%string = String c (s1 ++ s2).
Proof. done. Qed.

Lemma string_app_nil_r s : (s ++ "")%string = s.
Proof. induction s as [|c s IH]; [done|]. by rewrite string_app_cons, IH. Qed.

Lemma string_app_assoc s1 s2 s3 : ((s1 ++ s2) ++ s3)%string = (s1 ++ s2 ++ s3)%string.
Proof. induction s1 as [|c s1 IH]; [done|]. by rewrite !string_app_cons, IH. Qed.

Lemma string_app_inj (p s s' : string) : (p ++ s)%string = (p ++ s')%string → s = s'.
Proof. induction p; simpl; [done|]. intros E. injection E. auto. Qed.

Lemma includes_spec needle s : includes needle s = true ↔ ∃ p q, s = (p ++ needle ++ q)%string.
Proof.
  induction s as [|c s IH]; cbn [includes]; rewrite orb_true_iff, prefix_app.
  - split; [intros [[r E]|?]; [by exists ""%string, r|done]|].
    intros (p & q & E). left. exists q. by destruct p.
  - rewrite IH. split.
    + intros [[r E]|(p & q & ->)]; [by exists ""%string, r|by exists (String c p), q].
    + intros ([|d p] & q & E); [left; by exists q|]. injection E as -> E. right. by exists p, q.
Qed.

(** ** A character that does not occur *)

Definition lacks (c : ascii) (s : string) : Prop := c ∉ String.list_ascii_of_string s.

#[export] Instance lacks_dec c s : Decision (lacks c s).
Proof. unfold lacks. apply _. Defined.

Lemma lacks_cons c d s : lacks c (String d s) ↔ c ≠ d ∧ lacks c s.
Proof. unfold lacks. simpl. rewrite not_elem_of_cons. done. Qed.

Lemma lacks_app c s1 s2 : lacks c (s1 ++ s2) ↔ lacks c s1 ∧ lacks c s2.
Proof. unfold lacks. rewrite list_of_string_app, not_elem_of_app. done. Qed.

Lemma lacks_nil c : lacks c "".
Proof. apply not_elem_of_nil. Qed.

Lemma lacks_middle c s1 s2 : ¬ lacks c (s1 ++ String c s2).
Proof. rewrite lacks_app, lacks_cons. by intros [_ [? _]]. Qed.

(** Two splittings at a character that the second parts lack are the same. *)
Lemma split_at_last c k k' w w' : lacks c w → lacks c w' →
  (k ++ String c w)%string = (k' ++ String c w')%string → k = k' ∧ w = w'.
Proof.
  intros Hw Hw'. revert k'. induction k as [|d k IH]; intros [|d' k'] E; simpl in *; injection E.
  - done.
  - intros E' _. rewrite E' in Hw. by apply lacks_middle in Hw.
  - intros E' _. rewrite <- E' in Hw'. by apply lacks_middle in Hw'.
  - intros E' ->. apply IH in E' as [-> ->]. done.
Qed.

(** ... and at one that the first parts lack. *)
Lemma split_at_first c k k' w w' : lacks c k → lacks c k' →
  (k ++ String c w)%string = (k' ++ String c w')%string → k = k' ∧ w = w'.
Proof.
  revert k'. induction k as [|d k IH]; intros [|d' k'] Hk Hk' E; simpl in *; injection E.
  - done.
  - intros _ <-. apply lacks_cons in Hk' as [? _]. done.
  - intros _ ->. apply lacks_cons in Hk as [? _]. done.
  - intros E' ->. apply lacks_cons in Hk as [_ Hk], Hk' as [_ Hk'].
    destruct (IH k' Hk Hk' E') as [-> ->]. done.
Qed.

(** [split] at a separator: the last piece, and the first of several.  Splitting a
    joined text gives its components back. *)
Lemma str_split_aux_lacks sep w acc : lacks sep w → str_split_aux sep w acc = [acc ++ w]%string.
Proof.
  revert acc. induction w as [|c w IH]; intros acc Hw; simpl; [by rewrite string_app_nil_r|].
  apply lacks_cons in Hw as [? Hw]. rewrite decide_False by congruence.
  rewrite IH by done. by rewrite string_app_assoc.
Qed.

Lemma str_split_aux_app sep w r acc : lacks sep w →
  str_split_aux sep (w ++ String sep r) acc = (acc ++ w)%string :: str_split_aux sep r "".
Proof.
  revert acc. induction w as [|c w IH]; intros acc Hw; simpl.
  - by rewrite decide_True, string_app_nil_r.
  - apply lacks_cons in Hw as [? Hw]. rewrite decide_False by congruence.
    rewrite IH by done. by rewrite string_app_assoc.
Qed.

Lemma str_split_concat sep x p : Forall (lacks sep) (x :: p) →
  str_split sep (String.concat (String sep "") (x :: p)) = x :: p.
Proof.
  revert x. induction p as [|y p IH]; intros x [Hx Hp]%Forall_cons.
  - apply (str_split_aux_lacks _ _ "" Hx).
  - change (str_split_aux sep (x ++ String sep (String.concat (String sep "") (y :: p))) "" = x :: y :: p).
    rewrite str_split_aux_app by done. f_equal. by apply IH.
Qed.

(** Decimal numbers are made of digits and a sign. *)
Definition digit_sign (c : ascii) : bool :=
  bool_decide (c ∈ String.list_ascii_of_string "-0123456789").

Lemma pretty_N_lacks c n s : digit_sign c = false → lacks c s → lacks c (pretty_N_go n s).
Proof.
  intros Hc. revert s. induction (N.lt_wf_0 n) as [n _ IH]; intros s Hs.
  assert (n = 0 ∨ 0 < n)%N as [->|Hn] by lia; [by rewrite pretty_N_go_0|].
  rewrite pretty_N_go_step by done. apply IH; [by apply N.div_lt|].
  apply lacks_cons. split; [|done]. intros ->. revert Hc. unfold pretty_N_char.
  by repeat case_match.
Qed.

Lemma pretty_lacks c (z : Z) : digit_sign c = false → lacks c (pretty z).
Proof.
  intros Hc. assert (Hd : ∀ d, d ∈ String.list_ascii_of_string "-0123456789" → lacks c (String d "")).
  { intros d Hd. apply lacks_cons. split; [|apply lacks_nil]. intros ->.
    apply bool_decide_eq_false in Hc. done. }
  assert (H : ∀ n : N, lacks c (pretty n)).
  { intros n. unfold pretty, pretty_N. case_decide.
    - apply Hd. by apply (bool_decide_unpack _).
    - apply pretty_N_lacks, lacks_nil. done. }
  destruct z; unfold pretty, pretty_Z.
  - apply Hd. by apply (bool_decide_unpack _).
  - apply H.
  - change ("-" ++ pretty (N.pos p))%string with (String "-" "" ++ pretty (N.pos p))%string.
    apply lacks_app. split; [|apply H]. apply Hd. by apply (bool_decide_unpack _).
Qed.

(** * Slices and white space of texts

    [slice], [lastIndexOf] and [trimStart] with the lemmas about them. *)

Local Open Scope list_scope.
Local Open Scope string_scope.

(** [s.slice(0, n)]; [str_drop] of [JsMap.v] is [s.slice(n)]. *)
Fixpoint str_take (n : nat) (s : string) : string :=
  match n, s with
  | S n, String c s => String c (str_take n s)
  | _, _ => EmptyString
  end.

Lemma take_drop_string n s : str_take n s ++ str_drop n s = s.
Proof.
  revert s. induction n as [|n IH]; intros [|c s]; try done.
  change (String c (str_take n s ++ str_drop n s) = String c s). by rewrite IH.
Qed.

Lemma length_str_take n s : String.length (str_take n s) = min n (String.length s).
Proof. revert s. induction n as [|n IH]; intros [|c s]; simpl; [done..|]. by rewrite IH. Qed.

Lemma length_str_drop n s : String.length (str_drop n s) = (String.length s - n)%nat.
Proof. revert s. induction n as [|n IH]; intros [|c s]; simpl; [done..|]. by rewrite IH. Qed.

Lemma str_take_app p s : str_take (String.length p) (p ++ s) = p.
Proof.
  induction p as [|c p IH]; [by destruct s|].
  change (String c (str_take (String.length p) (p ++ s)) = String c p). by rewrite IH.
Qed.

Lemma str_drop_app p s : str_drop (String.length p) (p ++ s) = s.
Proof. induction p as [|c p IH]; [by destruct s|]. exact IH. Qed.

(** [s.lastIndexOf(c, from)] *)
Fixpoint last_index_aux (c : ascii) (s : string) (i from : nat) (best : option nat) : option nat :=
  match s with
  | EmptyString => best
  | String d s => last_index_aux c s (S i) from (if bool_decide (d = c) && (i <=? from)%nat then Some i else best)
  end.

Definition last_index (c : ascii) (s : string) (from : nat) : option nat := last_index_aux c s 0 from None.

Lemma last_index_le c s from i : last_index c s from = Some i → (i ≤ from)%nat.
Proof.
  unfold last_index. assert (H : ∀ k best, (∀ j, best = Some j → (j ≤ from)%nat) →
    last_index_aux c s k from best = Some i → (i ≤ from)%nat).
  { induction s as [|d s IH]; intros k best Hb; simpl; [by apply Hb|]. apply IH. intros j.
    destruct (bool_decide (d = c) && (k <=? from)%nat) eqn:E; [|by apply Hb]. intros [= <-]. bool_cases. lia. }
  by apply H.
Qed.

(** A text that may be missing, when it is truthy. *)
Definition truthy_text (o : option string) : option string := t ← o; if str_truthy t then Some t else None.

Lemma truthy_text_Some o s : truthy_text o = Some s ↔ o = Some s ∧ s ≠ "".
Proof. destruct o as [[|c t]|]; cbn; naive_solver. Qed.

(** ** White space *)

Definition blank (w : string) : Prop := Forall (λ c, is_space c = true) (String.list_ascii_of_string w).

Lemma trim_start_spec s : ∃ w, blank w ∧ s = w ++ trim_start s.
Proof.
  induction s as [|c s (w & Hw & E)]; [exists ""; by split; [constructor|]|]. simpl. destruct (is_space c) eqn:Ec.
  - exists (String c w). split; [by constructor|]. by rewrite string_app_cons, <- E.
  - exists "". split; [constructor|done].
Qed.

Lemma trim_start_length s : (String.length (trim_start s) ≤ String.length s)%nat.
Proof. destruct (trim_start_spec s) as (w & _ & E). rewrite E at 2. rewrite length_app_string. lia. Qed.

(** ** Long messages

    [splitMessage], which [src/channels/telegram/adapter.ts] and
    [src/channels/whatsapp/adapter.ts] define alike. *)

(** Where the next piece of a text ends that is longer than [maxLen]: at the last line
    feed, or else the last space, of its second half, or at [maxLen]. *)
Definition late_enough (maxLen : nat) (i : option nat) : option nat :=
  match i with Some i => if (i <=? 0)%nat || (2 * i <? maxLen)%nat then None else Some i | None => None end.

Definition split_index (maxLen : nat) (remaining : string) : nat :=
  match late_enough maxLen (last_index "010"%char remaining maxLen) with
  | Some i => i
  | None => default maxLen (late_enough maxLen (last_index " "%char remaining maxLen))
  end.

(** One round of the loop per unit is enough, [maxLen] being positive. *)
Fixpoint split_rounds (fuel maxLen : nat) (remaining : string) : list string :=
  match fuel with
  | O => []
  | S fuel =>
      if (maxLen <? String.length remaining)%nat then
        let i := split_index maxLen remaining in
        str_take i remaining :: split_rounds fuel maxLen (trim_start (str_drop i remaining))
      else if (0 <? String.length remaining)%nat then [remaining] else []
  end.

Definition splitMessage (text : string) (maxLen : nat) : list string :=
  if (String.length text <=? maxLen)%nat then [text] else split_rounds (S (String.length text)) maxLen text.

Definition MAX_LEN : nat := 4096.

(** The pieces of a text, which has only white space between them. *)
Inductive pieces : string → list string → Prop :=
| pieces_none : pieces "" []
| pieces_last s : pieces s [s]
| pieces_cut c w s l : blank w → pieces s l → pieces (c ++ w ++ s) (c :: l).

Lemma split_index_bounds maxLen s : (0 < maxLen)%nat → (0 < split_index maxLen s ≤ maxLen)%nat.
Proof.
  intros Hm. assert (Hl : ∀ c i, late_enough maxLen (last_index c s maxLen) = Some i → (0 < i ≤ maxLen)%nat).
  { intros c i. unfold late_enough. destruct (last_index c s maxLen) as [j|] eqn:E; [|done].
    destruct ((j <=? 0)%nat || (2 * j <? maxLen)%nat) eqn:Ej; [done|]. intros [= <-]. apply last_index_le in E.
    bool_cases. lia. }
  unfold split_index. destruct (late_enough maxLen (last_index "010" s maxLen)) as [i|] eqn:E; [by apply (Hl "010"%char)|].
  destruct (late_enough maxLen (last_index " " s maxLen)) as [i|] eqn:E2; simpl; [by apply (Hl " "%char)|lia].
Qed.

Lemma split_rounds_spec fuel maxLen s : (0 < maxLen)%nat → (String.length s < fuel)%nat →
  pieces s (split_rounds fuel maxLen s) ∧ Forall (λ c, (0 < String.length c ≤ maxLen)%nat) (split_rounds fuel maxLen s).
Proof.
  intros Hm. revert s. induction fuel as [|fuel IH]; intros s Hf; [lia|]. simpl.
  destruct (maxLen <? String.length s)%nat eqn:E; bool_cases.
  - pose proof (split_index_bounds maxLen s Hm) as Hi. set (i := split_index maxLen s) in *.
    destruct (trim_start_spec (str_drop i s)) as (w & Hw & Ew).
    destruct (IH (trim_start (str_drop i s))) as [Hp Hl].
    { pose proof (trim_start_length (str_drop i s)) as Ht. rewrite length_str_drop in Ht. lia. }
    split.
    + assert (Es : s = str_take i s ++ w ++ trim_start (str_drop i s)) by (by rewrite <- Ew, take_drop_string).
      rewrite Es at 1. by constructor.
    + constructor; [|done]. rewrite length_str_take. lia.
  - destruct (0 <? String.length s)%nat eqn:E0; bool_cases.
    + split; [constructor|]. constructor; [lia|constructor].
    + destruct s; [|simpl in *; lia]. split; constructor.
Qed.

(** The pieces of a message are at most as long as allowed and, but for a message that is
    empty itself, not empty; and together they are the message, less the white space at
    the cuts. *)
Theorem splitMessage_pieces text maxLen : (0 < maxLen)%nat →
  pieces text (splitMessage text maxLen) ∧
  Forall (λ c, (String.length c ≤ maxLen)%nat ∧ (c = "" → text = "")) (splitMessage text maxLen).
Proof.
  intros Hm. unfold splitMessage. destruct (String.length text <=? maxLen)%nat eqn:E; bool_cases.
  - split; [constructor|]. by repeat constructor.
  - destruct (split_rounds_spec (S (String.length text)) maxLen text Hm) as [Hp Hl]; [lia|]. split; [done|].
    eapply Forall_impl; [exact Hl|]. intros c [H1 H2]. split; [done|]. intros ->. simpl in H1. lia.
Qed.

Lemma splitMessage_pieces_witness :
  splitMessage ("one two" ++ String "010" "  three four") 8 = ["one two"; "three"; "four"] ∧
  pieces ("one two" ++ String "010" "  three four") ["one two"; "three"; "four"].
Proof.
  split; [vm_compute; reflexivity|].
  apply (splitMessage_pieces ("one two" ++ String "010" "  three four") 8). lia.
Defined.
