(* ===== verification/JsNumber.v ===== *)
(** * Numbers

    The doubles that scores and confidences are computed with, as [SpecFloat]
    values of 53 bits: literals, addition, multiplication, [Math.min] and
    [Math.max], and [toFixed(2)]; and dates as [toISOString] writes them. *)

From Stdlib Require Export SpecFloat.
From Stdlib Require Import Ascii.
From stdpp Require Import pretty.
From S2P Require Import Prelude JsMap JsString.
Local Open Scope string_scope.

Definition double (z : Z) : spec_float := binary_normalize 53 1024 z 0 false.

(** The literal [n / 100]. *)
Definition hundredths (n : Z) : spec_float := SFdiv 53 1024 (double n) (double 100).

Definition plus (a b : spec_float) : spec_float := SFadd 53 1024 a b.

Definition minus (a b : spec_float) : spec_float := SFsub 53 1024 a b.

Definition times (a b : spec_float) : spec_float := SFmul 53 1024 a b.

(** [Math.min(a, b)] and [Math.max(a, b)], when [a] is not a zero. *)
Definition js_min (a b : spec_float) : spec_float :=
  match SFcompare a b with Some Gt => b | Some _ => a | None => S754_nan end.

Definition js_max (a b : spec_float) : spec_float :=
  match SFcompare a b with Some Lt => b | Some _ => a | None => S754_nan end.

(** [x.toFixed(2)] for [0 <= x < 10]: the nearest multiple of a hundredth, the larger
    of two. *)
Definition toFixed2 (f : spec_float) : string :=
  let n := match f with
           | S754_finite _ m e =>
               if (0 <=? e)%Z then (Z.pos m * 2 ^ e * 100)%Z
               else ((Z.pos m * 200 + 2 ^ (- e)) / (2 * 2 ^ (- e)))%Z
           | _ => 0%Z
           end in
  (pretty (n / 100)%Z ++ "." ++ pretty (n / 10 mod 10)%Z ++ pretty (n mod 10)%Z)%string.

(** [(bytes / 2 ^ k).toFixed(0)] and [.toFixed(1)]: the quotient is exact, the larger of
    two nearest is printed. *)
Definition fixed0 (bytes k : Z) : Z := ((2 * bytes + 2 ^ k) / 2 ^ (k + 1))%Z.
Definition fixed1 (bytes k : Z) : Z := ((20 * bytes + 2 ^ k) / 2 ^ (k + 1))%Z.

Definition tenths (n : Z) : string := (pretty (n / 10)%Z ++ "." ++ pretty (n mod 10)%Z)%string.

(** The text is made of digits, a sign and a point. *)
Lemma toFixed2_lacks c f : digit_sign c = false → c ≠ "."%char → lacks c (toFixed2 f).
Proof.
  intros Hc Hp. unfold toFixed2. rewrite !lacks_app. split; [by apply pretty_lacks|].
  split; [by apply lacks_cons; split; [|apply lacks_nil]|]. split; by apply pretty_lacks.
Qed.

(** ** Dates *)

(** The civil date of a day since 1970-01-01, in the proleptic Gregorian calendar. *)
Definition civil (days : Z) : Z * Z * Z :=
  (let z := days + 719468 in
   let era := z / 146097 in
   let doe := z - era * 146097 in
   let yoe := (doe - doe / 1460 + doe / 36524 - doe / 146096) / 365 in
   let doy := doe - (365 * yoe + yoe / 4 - yoe / 100) in
   let mp := (5 * doy + 2) / 153 in
   let d := doy - (153 * mp + 2) / 5 + 1 in
   let m := if mp <? 10 then mp + 3 else mp - 9 in
   (yoe + era * 400 + (if m <=? 2 then 1 else 0), m, d))%Z.

Definition pad2 (n : Z) : string := pretty (n / 10)%Z ++ pretty (n mod 10)%Z.
Definition pad3 (n : Z) : string := pretty (n / 100)%Z ++ pad2 (n mod 100).
Definition pad4 (n : Z) : string := pad2 (n / 100)%Z ++ pad2 (n mod 100)%Z.

(** [new Date(ms).toISOString().slice(0, 10)], for the years 0 to 9999. *)
Definition iso_date (ms : Z) : string :=
  let '(y, m, d) := civil (ms / 86400000)%Z in pad4 y ++ "-" ++ pad2 m ++ "-" ++ pad2 d.

(** [new Date(ms).toISOString()], for the years 0 to 9999. *)
Definition iso_timestamp (ms : Z) : string :=
  let seconds := (ms / 1000 mod 86400)%Z in
  iso_date ms ++ "T" ++ pad2 (seconds / 3600)%Z ++ ":" ++ pad2 (seconds / 60 mod 60)%Z ++ ":" ++
  pad2 (seconds mod 60)%Z ++ "." ++ pad3 (ms mod 1000)%Z ++ "Z".

Example epoch : iso_timestamp 0 = "1970-01-01T00:00:00.000Z" ∧ iso_timestamp 1709210096789 = "2024-02-29T12:34:56.789Z".
Proof. vm_compute. by split. Qed.
