(* ===== verification/BridgeToken.v ===== *)
(** * Tokens of the auth bridge

    [services/auth-bridge/token.ts]: rejection sampling of five characters and
    the retry loop that avoids tokens in use.  The random source is the stream
    of the bytes that [randomBytes] returns; a run that uses up the finite
    stream it is given is [None]. *)

From S2P Require Import Prelude.
Local Open Scope Z_scope.

Definition SAFE_ALPHABET : string :=
  "23456789ABCDEFGHJKLMNPQRSTUVWXYZabcdefghijkmnpqrstuvwxyz".
Definition TOKEN_LENGTH : nat := 5.
Definition MAX_RETRIES : nat := 10.

Definition alphabet : list Ascii.ascii := String.list_ascii_of_string SAFE_ALPHABET.

(** [SAFE_ALPHABET[byte % SAFE_ALPHABET.length]] *)
Definition token_char (byte : Z) : Ascii.ascii :=
  nth (Z.to_nat (byte mod Z.of_nat (length alphabet))) alphabet Ascii.zero.

Definition rejectThreshold : Z := 224.

(** The [for] loop over one batch of bytes. *)
Definition take_bytes (chars : list Ascii.ascii) (bytes : list Z) : list Ascii.ascii :=
  foldl (λ chars byte,
    if (byte <? rejectThreshold) && (length chars <? TOKEN_LENGTH)%nat
    then chars ++ [token_char byte] else chars) chars bytes.

(** The [while] loop; each round asks for at least five bytes. *)
Fixpoint token_rounds (fuel : nat) (chars : list Ascii.ascii) (random : list Z)
  : option (list Ascii.ascii * list Z) :=
  if (length chars <? TOKEN_LENGTH)%nat then
    match fuel with
    | O => None
    | S fuel =>
        let n := (TOKEN_LENGTH - length chars + 4)%nat in
        if (length random <? n)%nat then None
        else token_rounds fuel (take_bytes chars (take n random)) (drop n random)
    end
  else Some (chars, random).

(** A round uses a byte of the stream, so its length is enough fuel. *)
Definition generateRawToken (random : list Z) : option (string * list Z) :=
  match token_rounds (length random) [] random with
  | Some (chars, rest) => Some (String.string_of_list_ascii chars, rest)
  | None => None
  end.

Section Unique.
(** [existsFn] may change the state it looks at. *)
Context {St : Type} (existsFn : string → St → bool * St).

Fixpoint unique_rounds (n : nat) (st : St) (random : list Z)
  : option (result string * St * list Z) :=
  match n with
  | O => Some (Err "Failed to generate unique token after 10 attempts", st, random)
  | S n =>
      match generateRawToken random with
      | None => None
      | Some (token, random) =>
          let '(used, st) := existsFn token st in
          if used then unique_rounds n st random else Some (Ok token, st, random)
      end
  end.

Definition generateUniqueToken : St → list Z → option (result string * St * list Z) :=
  unique_rounds MAX_RETRIES.
End Unique.

(** ** Sampling *)

Definition accepted (random : list Z) : list Ascii.ascii :=
  map token_char (List.filter (λ b, b <? rejectThreshold) random).

Definition valid_token (t : string) : Prop :=
  String.length t = TOKEN_LENGTH ∧ Forall (λ c, c ∈ alphabet) (String.list_ascii_of_string t).

Lemma take_bytes_spec bytes chars :
  (length chars ≤ TOKEN_LENGTH)%nat →
  take_bytes chars bytes = take TOKEN_LENGTH (chars ++ accepted bytes).
Proof.
  revert chars. induction bytes as [|b bytes IH]; intros chars Hc; unfold take_bytes; simpl.
  - rewrite app_nil_r, take_ge; done.
  - fold (take_bytes (if (b <? rejectThreshold) && (length chars <? TOKEN_LENGTH)%nat
      then chars ++ [token_char b] else chars) bytes).
    unfold accepted. simpl. destruct (b <? rejectThreshold); cbn [andb]; [|by apply IH].
    destruct (length chars <? TOKEN_LENGTH)%nat eqn:E; bool_cases.
    + rewrite IH by (rewrite length_app; simpl; lia). by rewrite <- app_assoc.
    + rewrite IH by done. rewrite !take_app_ge by lia.
      by replace (TOKEN_LENGTH - length chars)%nat with 0%nat by lia.
Qed.

Lemma accepted_app l1 l2 : accepted (l1 ++ l2) = accepted l1 ++ accepted l2.
Proof. unfold accepted. by rewrite List.filter_app, map_app. Qed.

Lemma token_rounds_spec fuel chars random t rest :
  (length chars ≤ TOKEN_LENGTH)%nat →
  token_rounds fuel chars random = Some (t, rest) →
  t = take TOKEN_LENGTH (chars ++ accepted random) ∧ length t = TOKEN_LENGTH.
Proof.
  revert chars random. induction fuel as [|fuel IH]; intros chars random Hc; simpl;
    destruct (length chars <? TOKEN_LENGTH)%nat eqn:E; bool_cases; try done.
  2: destruct (_ <? _)%nat eqn:El; [done|].
  1, 3: intros [= <- <-]; rewrite take_app_le, take_ge by lia; split; [done|lia].
  intros H. assert (Hl : (length (take_bytes chars
    (take (TOKEN_LENGTH - length chars + 4) random)) ≤ TOKEN_LENGTH)%nat)
    by (rewrite take_bytes_spec, length_take by done; lia).
  apply IH in H as [-> Ht]; [|done]. split; [|done].
  rewrite take_bytes_spec by done.
  remember (TOKEN_LENGTH - length chars + 4)%nat as n.
  rewrite <- (take_drop n random) at 3. rewrite accepted_app, app_assoc.
  remember (chars ++ accepted (take n random)) as l.
  destruct (decide (length l ≤ TOKEN_LENGTH)%nat).
  - by rewrite (take_ge l).
  - rewrite !take_app_le by (rewrite ?length_take; lia). by rewrite take_take, Nat.min_id.
Qed.

Lemma token_rounds_total fuel chars random n :
  (length chars ≤ TOKEN_LENGTH)%nat → (length random ≤ fuel)%nat →
  (TOKEN_LENGTH ≤ length chars + length (accepted (take n random)))%nat →
  (n + 8 ≤ length random)%nat →
  is_Some (token_rounds fuel chars random).
Proof.
  revert chars random n. induction fuel as [|fuel IH]; intros chars random n Hc Hf Hn Hl; [lia|].
  cbn [token_rounds]. destruct (length chars <? TOKEN_LENGTH)%nat eqn:E; [|eauto]. bool_cases.
  remember (TOKEN_LENGTH - length chars + 4)%nat as k eqn:Ek.
  assert (Hn0 : n ≠ 0%nat) by (intros ->; simpl in Hn; lia).
  assert (Hk : (k ≤ 9)%nat) by (unfold TOKEN_LENGTH in *; lia).
  rewrite (proj2 (Nat.ltb_ge _ _)) by lia.
  assert (Hb : (length (take_bytes chars (take k random)) ≤ TOKEN_LENGTH)%nat)
    by (rewrite take_bytes_spec, length_take by done; lia).
  destruct (decide (n ≤ k)%nat) as [Hnk|Hnk].
  - destruct fuel as [|fuel]; [unfold TOKEN_LENGTH in *; lia|]. cbn [token_rounds].
    rewrite (proj2 (Nat.ltb_ge _ _)); [eauto|].
    rewrite take_bytes_spec, length_take, length_app by done.
    assert (length (accepted (take n random)) ≤ length (accepted (take k random)))%nat; [|lia].
    replace (take n random) with (take n (take k random)) by (rewrite take_take; f_equal; lia).
    rewrite <- (take_drop n (take k random)) at 2. rewrite accepted_app, length_app. lia.
  - apply (IH _ _ (n - k)%nat); [done|rewrite length_drop; lia| |rewrite length_drop; lia].
    rewrite take_bytes_spec, length_take, length_app by done.
    replace (take n random) with (take k random ++ take (n - k) (drop k random)) in Hn.
    + rewrite accepted_app, length_app in Hn. lia.
    + rewrite take_take_drop. f_equal. lia.
Qed.

Lemma token_char_alphabet b : token_char b ∈ alphabet.
Proof.
  unfold token_char. apply list_elem_of_In, nth_In.
  change (length alphabet) with 56%nat. change (Z.of_nat 56) with 56.
  pose proof (Z.mod_pos_bound b 56). lia.
Qed.

Lemma length_string_of_list l : String.length (String.string_of_list_ascii l) = length l.
Proof. induction l as [|c l IH]; [done|]. simpl. by rewrite IH. Qed.

Lemma generateRawToken_spec random t rest :
  generateRawToken random = Some (t, rest) →
  String.list_ascii_of_string t = take TOKEN_LENGTH (accepted random) ∧ valid_token t.
Proof.
  unfold generateRawToken. destruct (token_rounds _ _ _) as [[chars r]|] eqn:E; [|done].
  intros [= <- <-]. apply token_rounds_spec in E as [-> Hl]; [|simpl; lia]. simpl app in *.
  rewrite String.list_ascii_of_string_of_list_ascii. split; [done|]. split.
  - by rewrite length_string_of_list.
  - rewrite String.list_ascii_of_string_of_list_ascii. apply Forall_take.
    unfold accepted. apply Forall_fmap, Forall_forall. intros b _. apply token_char_alphabet.
Qed.

(** When the retries run out, every token that was drawn was in use. *)
Lemma unique_rounds_spec {St} (f : string → St → bool * St) n st random r st' rest :
  unique_rounds f n st random = Some (r, st', rest) →
  match r with
  | Ok t => valid_token t ∧ ∃ s, f t s = (false, st')
  | Err _ => ∃ ts, length ts = n ∧ Forall (λ t, valid_token t ∧ ∃ s, (f t s).1 = true) ts
  end.
Proof.
  revert st random. induction n as [|n IH]; intros st random; simpl.
  - intros [= <- <- <-]. by exists [].
  - destruct (generateRawToken random) as [[t random']|] eqn:E; [|done].
    apply generateRawToken_spec in E as [_ Hv].
    destruct (f t st) as [[] st1] eqn:Ef.
    + intros H%IH. destruct r; [done|]. destruct H as (ts & Hl & Hts).
      exists (t :: ts). split; [simpl; lia|]. constructor; [|done]. split; [done|].
      exists st. by rewrite Ef.
    + intros [= <- <- <-]. split; [done|]. by exists st.
Qed.

(** A state invariant of [existsFn] holds throughout, and at the last look. *)
Lemma unique_rounds_inv {St} (f : string → St → bool * St) (I : St → Prop) n st random r st' rest :
  (∀ t s, I s → I (f t s).2) → I st →
  unique_rounds f n st random = Some (r, st', rest) →
  I st' ∧ match r with
          | Ok t => valid_token t ∧ ∃ s, I s ∧ f t s = (false, st')
          | Err _ => True
          end.
Proof.
  intros Hf. revert st random. induction n as [|n IH]; intros st random Hi; simpl.
  - by intros [= <- <- <-].
  - destruct (generateRawToken random) as [[t random']|] eqn:E; [|done].
    apply generateRawToken_spec in E as [_ Hv]. pose proof (Hf t st Hi) as Hi'.
    destruct (f t st) as [[] st1] eqn:Ef; [by apply IH|].
    intros [= <- <- <-]. split; [done|]. split; [done|]. by exists st.
Qed.

(** ** The theorems *)

(** A raw token is the first five accepted bytes of the random stream, five
    characters of the alphabet; the loop ends as soon as the stream holds five
    accepted bytes and the few bytes over-requested after them; and each
    character stands for exactly four of the accepted bytes, so that no
    character is more likely than another. *)
Theorem generateRawToken_uniform random n :
  (TOKEN_LENGTH ≤ length (accepted (take n random)))%nat → (n + 8 ≤ length random)%nat →
  (∃ t rest, generateRawToken random = Some (t, rest) ∧ valid_token t ∧
     String.list_ascii_of_string t = take TOKEN_LENGTH (accepted random)) ∧
  ∀ c, c ∈ alphabet →
    length (List.filter (λ b, (b <? rejectThreshold) && bool_decide (token_char b = c))
      (map Z.of_nat (seq 0 256))) = 4%nat.
Proof.
  intros Hn Hl. split.
  - destruct (token_rounds_total (length random) [] random n) as [[chars rest] E];
      [simpl; lia|done|done|done|].
    assert (Hg : generateRawToken random = Some (String.string_of_list_ascii chars, rest))
      by (unfold generateRawToken; by rewrite E).
    exists (String.string_of_list_ascii chars), rest. split; [done|].
    apply generateRawToken_spec in Hg as [? ?]. done.
  - apply Forall_forall. apply (bool_decide_unpack _). vm_compute. exact I.
Qed.

Definition example_bytes : list Z :=
  [255; 0; 57; 230; 3; 4; 5; 6; 7; 8; 9; 10; 11; 12; 13; 14].

Lemma generateRawToken_uniform_witness :
  let random := example_bytes in
  (∃ t rest, generateRawToken random = Some (t, rest) ∧ valid_token t) ∧
  generateRawToken random = Some ("23567"%string, [8; 9; 10; 11; 12; 13; 14]).
Proof.
  assert (H1 : (TOKEN_LENGTH ≤ length (accepted (take 8 example_bytes)))%nat) by (apply Nat.leb_le; vm_compute; reflexivity).
  assert (H2 : (8 + 8 ≤ length example_bytes)%nat)
    by (apply Nat.leb_le; vm_compute; reflexivity).
  destruct (generateRawToken_uniform _ _ H1 H2) as [(t & rest & E & Hv & _) _].
  split; [exists t, rest; split; [exact E|exact Hv]|vm_compute; reflexivity].
Defined.
