(* ===== verification/BridgeStore.v ===== *)
(** * The session store of the auth bridge

    [services/auth-bridge/store.ts].  [Date.now()] is the argument [now] of an
    operation.  The abstract store is the finite map of the sessions that have
    not expired; every operation is shown to act on it. *)

From stdpp Require Import gmap.
From S2P Require Import Prelude JsMap BridgeToken.
Local Open Scope Z_scope.

Record SessionData := Session {
  publicKey : string;
  expiresAt : Z;
  encrypted : option string;
  ephemeralPublicKey : option string;
  nonce : option string }.

Record SessionStore := Store {
  sessions : jsmap SessionData;
  ttlMs : Z;
  maxSessions : nat }.

Definition DEFAULT_TTL_MS : Z := 600000.
Definition DEFAULT_MAX_SESSIONS : nat := 10000.

Definition with_sessions (st : SessionStore) (m : jsmap SessionData) : SessionStore :=
  Store m (ttlMs st) (maxSessions st).

Definition new_store (ttl : option Z) (max : option nat) : SessionStore :=
  Store [] (default DEFAULT_TTL_MS ttl) (default DEFAULT_MAX_SESSIONS max).

Definition create (st : SessionStore) (now : Z) (token key : string) : bool * SessionStore :=
  if (maxSessions st <=? length (sessions st))%nat then (false, st)
  else (true, with_sessions st
    (map_set (sessions st) token (Session key (now + ttlMs st) None None None))).

Definition expired (now : Z) (s : SessionData) : bool := expiresAt s <? now.

Definition get (st : SessionStore) (now : Z) (token : string) : option SessionData * SessionStore :=
  match map_get (sessions st) token with
  | None => (None, st)
  | Some s =>
      if expired now s then (None, with_sessions st (map_delete (sessions st) token))
      else (Some s, st)
  end.

Definition has (st : SessionStore) (now : Z) (token : string) : bool * SessionStore :=
  let '(s, st) := get st now token in (match s with Some _ => true | None => false end, st).

Definition submitCredentials (st : SessionStore) (now : Z) (token enc epk n : string)
  : bool * SessionStore :=
  match get st now token with
  | (None, st) => (false, st)
  | (Some s, st) =>
      if opt_truthy (encrypted s) then (false, st)
      else (true, with_sessions st (map_set (sessions st) token
        (Session (publicKey s) (expiresAt s) (Some enc) (Some epk) (Some n))))
  end.

Definition delete (st : SessionStore) (token : string) : bool * SessionStore :=
  (map_has (sessions st) token, with_sessions st (map_delete (sessions st) token)).

Definition store_size (st : SessionStore) : nat := length (sessions st).

Definition cleanup (st : SessionStore) (now : Z) : nat * SessionStore :=
  let kept := filter (λ e, expired now e.2 = false) (sessions st) in
  ((length (sessions st) - length kept)%nat, with_sessions st kept).

Definition destroy (st : SessionStore) : SessionStore := with_sessions st [].

(** ** The abstract store *)

(** The sessions that have not expired at [now]. *)
Definition live (now : Z) (st : SessionStore) : gmap string SessionData :=
  list_to_map (filter (λ e, expired now e.2 = false) (sessions st)).

(** Time passing drops sessions. *)
Definition tick (now : Z) (m : gmap string SessionData) : gmap string SessionData :=
  filter (λ e, expired now e.2 = false) m.

Definition spec_create (m : gmap string SessionData) (token key : string) (expiry : Z) :=
  <[token := Session key expiry None None None]> m.

Definition spec_submit (m : gmap string SessionData) (token enc epk n : string)
  : bool * gmap string SessionData :=
  match m !! token with
  | Some s =>
      if opt_truthy (encrypted s) then (false, m)
      else (true, <[token := Session (publicKey s) (expiresAt s) (Some enc) (Some epk) (Some n)]> m)
  | None => (false, m)
  end.

(** The invariant: distinct tokens, and no more sessions than the bound. *)
Definition store_ok (st : SessionStore) : Prop :=
  map_wf (sessions st) ∧ (length (sessions st) ≤ maxSessions st)%nat.

Lemma list_to_map_get {A} (m : jsmap A) k :
  (list_to_map m : gmap string A) !! k = map_get m k.
Proof.
  induction m as [|[k' a] m IH]; [apply lookup_empty|]. simpl. case_decide; subst.
  - by rewrite lookup_insert_eq.
  - by rewrite lookup_insert_ne.
Qed.

Lemma live_lookup now st k : map_wf (sessions st) →
  live now st !! k =
  match map_get (sessions st) k with
  | Some s => if expired now s then None else Some s
  | None => None
  end.
Proof.
  intros Hw. unfold live. rewrite list_to_map_get, map_get_filter by done. simpl.
  destruct (map_get _ _) as [s|]; [|done]. destruct (expired now s); by case_decide.
Qed.

Lemma expired_mono now now' s : now ≤ now' → expired now s = true → expired now' s = true.
Proof. unfold expired. rewrite !Z.ltb_lt. lia. Qed.

(** Looking at the store later is looking at it now and letting time pass. *)
Lemma live_tick now now' st : map_wf (sessions st) → now ≤ now' →
  live now' st = tick now' (live now st).
Proof.
  intros Hw Hn. apply map_eq. intros k. unfold tick. rewrite map_lookup_filter.
  rewrite !live_lookup by done. destruct (map_get _ k) as [s|]; [|done].
  destruct (expired now s) eqn:E; simpl; [by rewrite (expired_mono now)|].
  destruct (expired now' s) eqn:E'; unfold guard; case_decide; simpl in *; congruence.
Qed.

Section Operations.
Context (st : SessionStore) (now : Z) (Hok : store_ok st).

Lemma store_wf : map_wf (sessions st).
Proof. apply Hok. Qed.
Local Hint Resolve store_wf : fh.

Lemma filter_ok (P : string * SessionData → Prop) `{!∀ e, Decision (P e)} :
  store_ok (with_sessions st (filter P (sessions st))).
Proof.
  split; simpl; auto with fh. etransitivity; [apply map_size_filter|]. apply Hok.
Qed.

Lemma get_ok t : store_ok (get st now t).2.
Proof.
  unfold get. destruct (map_get _ t) as [s|]; [|done]. destruct (expired now s); [|done].
  apply filter_ok.
Qed.

Lemma get_value t : (get st now t).1 = live now st !! t.
Proof.
  rewrite live_lookup by auto with fh. unfold get.
  destruct (map_get _ t) as [s|]; [|done]. by destruct (expired now s).
Qed.

(** [get] deletes expired sessions only. *)
Lemma get_live t : live now (get st now t).2 = live now st.
Proof.
  apply map_eq. intros k. pose proof (get_ok t) as [Hw _].
  rewrite !live_lookup by auto with fh. clear Hw. unfold get.
  destruct (map_get _ t) as [s|] eqn:Et; [|done]. destruct (expired now s) eqn:E; [|done].
  simpl. rewrite map_get_delete by auto with fh. case_decide; [subst|done].
  by rewrite Et, E.
Qed.

Lemma get_sessions t : (get st now t).1 ≠ None → (get st now t).2 = st.
Proof.
  unfold get. destruct (map_get _ t) as [s|]; [|done]. by destruct (expired now s).
Qed.

Lemma create_ok t key : store_ok (create st now t key).2.
Proof.
  unfold create. destruct (_ <=? _)%nat eqn:E; [done|]. bool_cases.
  split; simpl; [auto with fh|]. rewrite map_size_set. destruct (map_get _ _); lia.
Qed.

Lemma create_live t key : 0 ≤ ttlMs st →
  live now (create st now t key).2 =
  if (create st now t key).1 then spec_create (live now st) t key (now + ttlMs st)
  else live now st.
Proof.
  intros Ht. pose proof (create_ok t key) as [Hw _]. unfold create in *.
  destruct (_ <=? _)%nat; simpl in *; [done|]. apply map_eq. intros k.
  unfold spec_create. rewrite live_lookup by done. simpl. rewrite map_get_set.
  case_decide; subst.
  - rewrite lookup_insert_eq. unfold expired. simpl. by rewrite (proj2 (Z.ltb_ge _ _)) by lia.
  - rewrite lookup_insert_ne by done. by rewrite live_lookup by auto with fh.
Qed.

Lemma submit_ok t enc epk n : store_ok (submitCredentials st now t enc epk n).2.
Proof.
  unfold submitCredentials. pose proof (get_ok t) as H. pose proof (get_sessions t) as Hs.
  unfold get in *. destruct (map_get _ t) as [s|] eqn:E; [|done].
  destruct (expired now s); [done|]. destruct (opt_truthy _); [done|]. clear Hs. simpl.
  destruct H as [Hw Hl]. split; simpl; [auto with fh|]. by rewrite map_size_set, E.
Qed.

Lemma submit_live t enc epk n :
  (submitCredentials st now t enc epk n).1 = (spec_submit (live now st) t enc epk n).1 ∧
  live now (submitCredentials st now t enc epk n).2 =
  (spec_submit (live now st) t enc epk n).2.
Proof.
  pose proof (submit_ok t enc epk n) as [Hw _]. pose proof (get_live t) as Hg.
  unfold submitCredentials, spec_submit, get in *. rewrite live_lookup by auto with fh.
  destruct (map_get _ t) as [s|] eqn:E; [|done].
  destruct (expired now s) eqn:Ex; [done|]. destruct (opt_truthy _); [done|].
  split; [done|]. simpl in *. apply map_eq. intros k. rewrite live_lookup by done. simpl.
  rewrite map_get_set. case_decide; subst.
  - rewrite lookup_insert_eq. unfold expired in *. simpl. by rewrite Ex.
  - rewrite lookup_insert_ne by done. by rewrite live_lookup by auto with fh.
Qed.

Lemma delete_live t : live now (delete st t).2 = base.delete t (live now st).
Proof.
  apply map_eq. intros k. rewrite lookup_delete. rewrite !live_lookup by (simpl; auto with fh).
  simpl. rewrite map_get_delete by auto with fh. repeat case_decide; congruence.
Qed.

Lemma cleanup_live now' : now ≤ now' → live now' (cleanup st now).2 = live now' st.
Proof.
  intros Hn. apply map_eq. intros k. rewrite !live_lookup by (simpl; auto with fh). simpl.
  rewrite map_get_filter by auto with fh. destruct (map_get _ k) as [s|]; [|done]. simpl.
  case_decide as Hd; [done|]. destruct (expired now s) eqn:E; [|done].
  by rewrite (expired_mono now).
Qed.

Lemma cleanup_size : length (sessions (cleanup st now).2) = size (live now st).
Proof.
  simpl. unfold live. rewrite map_size_list_to_map; [done|].
  apply (map_wf_filter _ (sessions st)). auto with fh.
Qed.
End Operations.
#[export] Hint Resolve get_ok create_ok submit_ok filter_ok store_wf : fh.

(** ** Runs of operations *)

Inductive store_op :=
| OpCreate (token key : string)
| OpGet (token : string)
| OpSubmit (token enc epk n : string)
| OpDelete (token : string)
| OpCleanup.

Definition run_op (st : SessionStore) (o : Z * store_op) : SessionStore :=
  let '(now, op) := o in
  match op with
  | OpCreate t k => (create st now t k).2
  | OpGet t => (get st now t).2
  | OpSubmit t e p n => (submitCredentials st now t e p n).2
  | OpDelete t => (delete st t).2
  | OpCleanup => (cleanup st now).2
  end.

(** What an operation does to the abstract store; [full] is the capacity check,
    which the concrete store makes on the entries it still holds. *)
Definition spec_op (full : bool) (expiry : Z) (m : gmap string SessionData) (op : store_op)
  : gmap string SessionData :=
  match op with
  | OpCreate t k => if full then m else spec_create m t k expiry
  | OpSubmit t e p n => (spec_submit m t e p n).2
  | OpDelete t => base.delete t m
  | OpGet _ | OpCleanup => m
  end.

Lemma run_op_ok st o : store_ok st → store_ok (run_op st o).
Proof.
  destruct o as [now []]; simpl; intros Hok; auto with fh; by apply filter_ok.
Qed.
#[export] Hint Resolve run_op_ok : fh.

(** The operations that may replace or remove a session with credentials. *)
Definition touches (t : string) (o : Z * store_op) : bool :=
  match o.2 with
  | OpCreate t' _ | OpDelete t' => bool_decide (t' = t)
  | _ => false
  end.

(** An entry is unchanged or gone. *)
Definition kept (s : SessionData) (r : option SessionData) : Prop := r = Some s ∨ r = None.

Lemma run_op_keeps st o t s :
  store_ok st → touches t o = false → opt_truthy (encrypted s) = true →
  kept s (map_get (sessions st) t) → kept s (map_get (sessions (run_op st o)) t).
Proof.
  intros Hok Ht He Hk. pose proof (store_wf _ Hok) as Hw. destruct o as [now op].
  assert (Hf : ∀ (P : string * SessionData → Prop) `{!∀ e, Decision (P e)},
    kept s (map_get (filter P (sessions st)) t)).
  { intros P HP. rewrite map_get_filter by done. destruct Hk as [->| ->]; [|by right].
    case_decide; [by left|by right]. }
  destruct op as [t' key|t'|t' e p n|t'|]; simpl; unfold touches in Ht; simpl in Ht.
  - unfold create. case_match; [done|]. simpl. bool_cases. by rewrite map_get_set_ne.
  - unfold get. repeat case_match; try done. apply Hf.
  - unfold submitCredentials, get. destruct (map_get (sessions st) t') as [s'|] eqn:E; [|done].
    destruct (expired now s'); [apply Hf|]. destruct (opt_truthy (encrypted s')) eqn:Ee; [done|].
    simpl. rewrite map_get_set. case_decide; [subst|done].
    exfalso. rewrite E in Hk. destruct Hk as [[= ->]|]; congruence.
  - apply Hf.
  - apply Hf.
Qed.

Lemma run_op_live st now op :
  store_ok st → 0 ≤ ttlMs st →
  live now (run_op st (now, op)) =
    spec_op (maxSessions st <=? store_size st)%nat (now + ttlMs st) (live now st) op.
Proof.
  intros Hok Ht. destruct op; simpl.
  - rewrite create_live by done. unfold create, store_size. by destruct (_ <=? _)%nat.
  - by apply get_live.
  - by apply submit_live.
  - by apply delete_live.
  - by apply (cleanup_live _ now Hok now).
Qed.

Lemma run_op_ttl st o : ttlMs (run_op st o) = ttlMs st.
Proof.
  destruct o as [now []]; simpl; try done.
  - unfold create. by case_match.
  - unfold get. by repeat case_match.
  - unfold submitCredentials, get. destruct (map_get _ _); [|done].
    destruct (expired _ _); [done|]. by destruct (opt_truthy _).
Qed.

(** A live session with credentials survives every operation but its deletion
    and its replacement. *)
Lemma run_op_live_final st now op t s :
  store_ok st → 0 ≤ ttlMs st → touches t (now, op) = false → opt_truthy (encrypted s) = true →
  live now st !! t = Some s → live now (run_op st (now, op)) !! t = Some s.
Proof.
  intros Hok Httl Ht He Hl. rewrite run_op_live by done. unfold touches in Ht.
  destruct op as [t' key|t'|t' e p n|t'|]; simpl in *; try done.
  - case_match; [done|]. unfold spec_create. bool_cases. by rewrite lookup_insert_ne.
  - unfold spec_submit. destruct (live now st !! t') as [s'|] eqn:E; [|done].
    destruct (opt_truthy (encrypted s')) eqn:Ee; [done|]. simpl.
    rewrite lookup_insert_ne; congruence.
  - bool_cases. by rewrite lookup_delete_ne.
Qed.

(** ... and the passing of time up to its expiry. *)
Lemma live_later st now now' t s :
  store_ok st → now ≤ now' ≤ expiresAt s → live now st !! t = Some s → live now' st !! t = Some s.
Proof.
  intros Hok Hn Hl. rewrite (live_tick now now' st (store_wf _ Hok) (proj1 Hn)). unfold tick.
  apply map_lookup_filter_Some. split; [done|]. simpl. unfold expired.
  apply Z.ltb_ge. lia.
Qed.

(** ** The theorems *)

(** Every operation of the store keeps the tokens distinct and the number of
    entries within the bound, and acts on the sessions that have not expired
    as the operation of the abstract map; time passing only drops sessions. *)
Theorem store_refines_map st now op :
  store_ok st → 0 ≤ ttlMs st →
  store_ok (run_op st (now, op)) ∧
  live now (run_op st (now, op)) =
    spec_op (maxSessions st <=? store_size st)%nat (now + ttlMs st) (live now st) op ∧
  ∀ now', now ≤ now' →
    live now' (run_op st (now, op)) = tick now' (live now (run_op st (now, op))).
Proof.
  intros Hok Ht. pose proof (run_op_ok _ (now, op) Hok) as Hok'.
  split; [done|]. split; [by apply run_op_live|intros; apply live_tick; auto with fh].
Qed.

Definition example_store : SessionStore := Store [("AAAAA", Session "pk" 50 None None None)] 10 1.

Lemma example_store_ok : store_ok example_store.
Proof. split; [|simpl; lia]. apply (bool_decide_unpack _). by vm_compute. Qed.

Lemma store_refines_map_witness :
  store_ok example_store ∧
  live 20 (run_op example_store (20, OpCreate "BBBBB" "pk2")) = live 20 example_store.
Proof.
  split; [exact example_store_ok|].
  assert (Ht : 0 ≤ ttlMs example_store) by (simpl; lia).
  destruct (store_refines_map example_store 20 (OpCreate "BBBBB" "pk2") example_store_ok Ht)
    as (_ & E & _).
  exact E.
Defined.

(** A credential blob is written once: whatever operations at whatever times
    follow, short of deleting the session or creating it anew, a session that
    holds a non-empty blob stays as it is or disappears, never changes. *)
Theorem submitted_credentials_final st t s ops :
  store_ok st → map_get (sessions st) t = Some s → opt_truthy (encrypted s) = true →
  Forall (λ o, touches t o = false) ops →
  kept s (map_get (sessions (foldl run_op st ops)) t).
Proof.
  intros Hok Hs He Hops. assert (Hk : kept s (map_get (sessions st) t)) by (by left). clear Hs.
  revert st Hok Hk. induction Hops as [|o ops Ho _ IH]; intros st Hok Hk; [done|].
  simpl. apply IH; auto using run_op_ok, run_op_keeps.
Qed.

Lemma submitted_credentials_final_witness :
  let st := (submitCredentials example_store 20 "AAAAA" "blob" "epk" "nonce").2 in
  kept (Session "pk" 50 (Some "blob") (Some "epk") (Some "nonce"))
    (map_get (sessions (foldl run_op st [(30, OpSubmit "AAAAA" "other" "x" "y"); (40, OpGet "AAAAA")]))
      "AAAAA").
Proof.
  intros st. apply (submitted_credentials_final st "AAAAA").
  - apply submit_ok, example_store_ok.
  - vm_compute. reflexivity.
  - reflexivity.
  - repeat constructor.
Defined.

(** [cleanup] leaves exactly the live sessions, and [create] refuses exactly
    when the entries it holds, expired ones included, reach the bound, so that
    after a cleanup it refuses only a full store of live sessions. *)
Theorem create_refuses_when_full st now t key :
  store_ok st →
  ((create st now t key).1 = false ↔ store_size st = maxSessions st) ∧
  ((create (cleanup st now).2 now t key).1 = false ↔ size (live now st) = maxSessions st) ∧
  live now (cleanup st now).2 = live now st.
Proof.
  intros Hok. split; [|split; [|by apply cleanup_live]].
  - unfold create, store_size. destruct Hok as [_ Hl].
    destruct (_ <=? _)%nat eqn:E; bool_cases; simpl; split; intros; (done || lia).
  - rewrite <- cleanup_size by done.
    pose proof (filter_ok st Hok (λ e, expired now e.2 = false)) as [_ Hl].
    unfold create. simpl in *.
    destruct (_ <=? _)%nat eqn:E; bool_cases; simpl; split; intros; (done || lia).
Qed.

Lemma create_refuses_when_full_witness :
  store_ok example_store ∧ size (live 60 example_store) = 0%nat ∧
  (create example_store 60 "BBBBB" "pk2").1 = false.
Proof.
  split; [exact example_store_ok|]. split; [vm_compute; reflexivity|].
  apply (create_refuses_when_full example_store 60 "BBBBB" "pk2" example_store_ok). reflexivity.
Defined.

(** The first submission to a live session without credentials succeeds, and
    a second one before the session expires fails exactly when the first blob
    was not the empty string. *)
Theorem second_submission st now now' t s e p n e' p' n' :
  live now st !! t = Some s → encrypted s = None → store_ok st → now ≤ now' ≤ expiresAt s →
  let '(ok, st1) := submitCredentials st now t e p n in
  ok = true ∧ (submitCredentials st1 now' t e' p' n').1 = negb (str_truthy e).
Proof.
  intros Hl He Hok Ht. pose proof (get_value _ now Hok t) as Hg. rewrite Hl in Hg.
  unfold submitCredentials at 1. destruct (get st now t) as [r st'] eqn:E.
  pose proof (get_sessions st now t) as Hs. rewrite E in Hs. simpl in Hg, Hs. subst r.
  rewrite Hs by done. rewrite He. cbn [opt_truthy]. split; [done|].
  unfold submitCredentials, get. simpl. rewrite map_get_set_eq. unfold expired. simpl.
  rewrite (proj2 (Z.ltb_ge _ _)) by lia. simpl. by destruct (str_truthy e).
Qed.

Lemma second_submission_witness :
  let '(ok, st1) := submitCredentials example_store 20 "AAAAA" "" "p" "n" in
  ok = true ∧ (submitCredentials st1 30 "AAAAA" "other" "p" "n").1 = true.
Proof.
  apply (second_submission example_store 20 30 "AAAAA" (Session "pk" 50 None None None)
    "" "p" "n" "other" "p" "n" eq_refl eq_refl example_store_ok).
  simpl. lia.
Defined.
