(* ===== verification/BridgeLimiter.v ===== *)
(** * The rate limiter of the auth bridge

    [services/auth-bridge/rate-limit.ts]: a sliding window of request times per
    key and one for all keys together. *)

From S2P Require Import Prelude JsMap.
Local Open Scope Z_scope.

Record RateLimitRule := Rule { maxRequests : nat; windowMs : Z }.

Definition sessionCreate : RateLimitRule := Rule 5 60000.
Definition poll : RateLimitRule := Rule 30 60000.
Definition submit : RateLimitRule := Rule 3 60000.
Definition qr : RateLimitRule := Rule 30 60000.
Definition GLOBAL_SESSION_LIMIT : RateLimitRule := Rule 1000 3600000.

Record RateLimiter := Limiter { buckets : jsmap (list Z); globalBucket : list Z }.

Definition new_limiter : RateLimiter := Limiter [] [].

(** [timestamps.filter((t) => t > cutoff)] *)
Definition after (cutoff : Z) (ts : list Z) : list Z := filter (λ t, cutoff < t) ts.

(** The body shared by [check] and [checkGlobal]. *)
Definition admit_request (rule : RateLimitRule) (now : Z) (ts : list Z) : bool * list Z :=
  let active := after (now - windowMs rule) ts in
  if (maxRequests rule <=? length active)%nat then (false, active) else (true, active ++ [now]).

Definition bucket (l : RateLimiter) (key : string) : list Z := default [] (map_get (buckets l) key).

Definition check (l : RateLimiter) (now : Z) (key : string) (rule : RateLimitRule)
  : bool * RateLimiter :=
  let '(ok, ts) := admit_request rule now (bucket l key) in
  (ok, Limiter (map_set (buckets l) key ts) (globalBucket l)).

Definition checkGlobal (l : RateLimiter) (now : Z) (rule : RateLimitRule) : bool * RateLimiter :=
  let '(ok, ts) := admit_request rule now (globalBucket l) in (ok, Limiter (buckets l) ts).

Definition remaining (l : RateLimiter) (now : Z) (key : string) (rule : RateLimitRule) : Z :=
  match map_get (buckets l) key with
  | None => Z.of_nat (maxRequests rule)
  | Some ts =>
      Z.max 0 (Z.of_nat (maxRequests rule) - Z.of_nat (length (after (now - windowMs rule) ts)))
  end.

(** [Math.min] of a list; of no argument it is infinity, [None]. *)
Definition min_time (ts : list Z) : option Z :=
  foldr (λ t acc, match acc with Some m => Some (Z.min t m) | None => Some t end) None ts.

Definition retryAfterMs (l : RateLimiter) (now : Z) (key : string) (rule : RateLimitRule)
  : option Z :=
  match map_get (buckets l) key with
  | None => Some 0
  | Some ts =>
      let active := after (now - windowMs rule) ts in
      if (length active <? maxRequests rule)%nat then Some 0
      else match min_time active with Some e => Some (e + windowMs rule - now) | None => None end
  end.

Definition HOUR : Z := 3600000.

Definition pruneAll (l : RateLimiter) (now : Z) : RateLimiter :=
  let pruned := map_values (after (now - HOUR)) (buckets l) in
  Limiter (filter (λ e, e.2 ≠ []) pruned) (after (now - HOUR) (globalBucket l)).

Definition destroy_limiter (l : RateLimiter) : RateLimiter := Limiter [] [].

(** ** One window *)

(** The requests a window of the rule's length that ends at [T] contains. *)
Definition in_window (rule : RateLimitRule) (T : Z) (log : list Z) : nat :=
  length (filter (λ t, T - windowMs rule < t ≤ T) log).

(** The stored times [ts] stand for the admitted requests [log]. *)
Record window_inv (rule : RateLimitRule) (log ts : list Z) (now : Z) : Prop := {
  win_view : ∀ c, now - windowMs rule ≤ c → after c ts = after c log;
  win_past : Forall (λ t, t ≤ now) log;
  win_bound : ∀ T, (in_window rule T log ≤ maxRequests rule)%nat }.

Lemma after_after c c' ts : c ≤ c' → after c' (after c ts) = after c' ts.
Proof.
  intros. unfold after. rewrite list_filter_filter_l; [done|]. intros; lia.
Qed.

Lemma after_app c l1 l2 : after c (l1 ++ l2) = after c l1 ++ after c l2.
Proof. apply filter_app. Qed.

Lemma after_forall c (P : Z → Prop) ts : Forall P ts → Forall P (after c ts).
Proof.
  rewrite !Forall_forall. unfold after. intros H t [_ Ht]%list_elem_of_filter. auto.
Qed.

Lemma window_start rule : window_inv rule [] [] 0.
Proof. split; [done|constructor|]. intros T. simpl. unfold in_window. simpl. lia. Qed.

Lemma window_later rule log ts now now' :
  window_inv rule log ts now → now ≤ now' → window_inv rule log ts now'.
Proof.
  intros [Hv Hp Hb] Hn. split; [|eapply Forall_impl; [done|]; simpl; intros; lia|done].
  intros c Hc. apply Hv. lia.
Qed.

Lemma window_prune rule log ts now cutoff :
  window_inv rule log ts now → cutoff ≤ now - windowMs rule →
  window_inv rule log (after cutoff ts) now.
Proof.
  intros [Hv Hp Hb] Hc. split; [|done|done]. intros c Hc'. rewrite after_after by lia. by apply Hv.
Qed.

Lemma in_window_after rule T now log :
  now ≤ T → (in_window rule T log ≤ length (after (now - windowMs rule) log))%nat.
Proof.
  intros H. unfold in_window, after. induction log as [|t log IH]; [done|].
  rewrite !filter_cons. repeat case_decide; simpl; lia.
Qed.

Lemma in_window_snoc rule T log now :
  in_window rule T (log ++ [now]) =
  (in_window rule T log + if decide (T - windowMs rule < now ≤ T)%Z then 1 else 0)%nat.
Proof.
  unfold in_window. rewrite filter_app, length_app, filter_cons, filter_nil.
  by case_decide.
Qed.

Lemma admit_inv rule log ts now : 0 ≤ windowMs rule →
  window_inv rule log ts now →
  let '(ok, ts') := admit_request rule now ts in
  window_inv rule (if ok then log ++ [now] else log) ts' now.
Proof.
  intros Hw Hi. unfold admit_request. pose proof (window_prune _ _ _ _ _ Hi (Z.le_refl _)) as Hi'.
  destruct Hi as [Hv Hp Hb]. destruct (_ <=? _)%nat eqn:E; bool_cases; [done|].
  split.
  - intros c Hc. rewrite !after_app. f_equal. by apply Hi'.
  - apply Forall_app. split; [done|]. constructor; [lia|constructor].
  - intros T. rewrite in_window_snoc. specialize (Hb T). case_decide; [|lia].
    pose proof (in_window_after rule T now log). rewrite Hv in E by lia. lia.
Qed.

(** ** Runs *)

Inductive limiter_op :=
| LCheck (key : string) (rule : RateLimitRule)
| LGlobal (rule : RateLimitRule)
| LPrune.

(** A run with its log: the requests admitted under each key ([None] for the
    global bucket), in order. *)
Definition limiter_step (st : RateLimiter * list (option string * Z)) (o : Z * limiter_op)
  : RateLimiter * list (option string * Z) :=
  let '(l, log) := st in
  let '(now, op) := o in
  match op with
  | LCheck key rule =>
      let '(ok, l) := check l now key rule in (l, if ok then log ++ [(Some key, now)] else log)
  | LGlobal rule =>
      let '(ok, l) := checkGlobal l now rule in (l, if ok then log ++ [(None, now)] else log)
  | LPrune => (pruneAll l now, log)
  end.

Definition limiter_run (ops : list (Z * limiter_op)) : RateLimiter * list (option string * Z) :=
  foldl limiter_step (new_limiter, []) ops.

(** The clock does not run backwards. *)
Fixpoint ordered (now : Z) (ops : list (Z * limiter_op)) : Prop :=
  match ops with
  | [] => True
  | (t, _) :: ops => now ≤ t ∧ ordered t ops
  end.

(** Every request under key [k] uses the rule [rule]. *)
Definition uses (rule : RateLimitRule) (k : option string) (o : Z * limiter_op) : Prop :=
  match o.2 with
  | LCheck key r => k = Some key → r = rule
  | LGlobal r => k = None → r = rule
  | LPrune => True
  end.

Definition times (k : option string) (log : list (option string * Z)) : list Z :=
  map snd (filter (λ e, e.1 = k) log).

Definition stored (l : RateLimiter) (k : option string) : list Z :=
  match k with Some key => bucket l key | None => globalBucket l end.

Lemma times_snoc k log k' t :
  times k (log ++ [(k', t)]) = times k log ++ (if decide (k' = k) then [t] else []).
Proof.
  unfold times. rewrite filter_app, map_app, filter_cons, filter_nil. simpl. by case_decide.
Qed.

Lemma bucket_set l key ts g k :
  bucket (Limiter (map_set (buckets l) key ts) g) k = if decide (key = k) then ts else bucket l k.
Proof. unfold bucket. simpl. rewrite map_get_set. by case_decide. Qed.

Lemma pruned_bucket l now key : map_wf (buckets l) →
  bucket (pruneAll l now) key = after (now - HOUR) (bucket l key).
Proof.
  intros Hw. unfold bucket, pruneAll. simpl. rewrite map_get_filter by auto with fh.
  rewrite map_get_values. destruct (map_get (buckets l) key) as [ts|]; [|done]. simpl.
  case_decide as E; [done|]. simpl in E. by destruct (after _ ts).
Qed.

Section Runs.
Context (rule : RateLimitRule) (k : option string).
Context (Hw : 0 ≤ windowMs rule ≤ HOUR).

Lemma limiter_step_inv l log now o :
  map_wf (buckets l) → window_inv rule (times k log) (stored l k) now → now ≤ o.1 →
  uses rule k o →
  let '(l', log') := limiter_step (l, log) o in
  map_wf (buckets l') ∧ window_inv rule (times k log') (stored l' k) o.1.
Proof.
  destruct o as [t op]. simpl. intros Hwf Hi Hn Hu.
  pose proof (window_later _ _ _ _ _ Hi Hn) as Hi'. clear Hi.
  pose proof (admit_inv _ _ _ _ (proj1 Hw) Hi') as Ha.
  destruct op as [key r|r|]; simpl in Hu |- *.
  - unfold check. destruct (admit_request r t (bucket l key)) as [ok ts] eqn:E. simpl.
    split; [by apply map_wf_set|]. destruct (decide (k = Some key)) as [->|Hne].
    + rewrite Hu in E by done. simpl in *. rewrite E in Ha. rewrite bucket_set, decide_True by done.
      destruct ok; [|done]. by rewrite times_snoc, decide_True.
    + replace (stored _ k) with (stored l k).
      * destruct ok; [|done]. by rewrite times_snoc, decide_False, app_nil_r by congruence.
      * destruct k; simpl; [|done]. rewrite bucket_set, decide_False; congruence.
  - unfold checkGlobal. destruct (admit_request r t (globalBucket l)) as [ok ts] eqn:E. simpl.
    split; [done|]. destruct k as [key|] eqn:Ek; simpl in *.
    + destruct ok; [|done]. by rewrite times_snoc, decide_False, app_nil_r by congruence.
    + rewrite Hu in E by done. rewrite E in Ha. destruct ok; [|done].
      by rewrite times_snoc, decide_True.
  - split; [unfold pruneAll; simpl; auto with fh|].
    apply (window_prune _ _ _ _ (t - HOUR)) in Hi'; [|lia].
    destruct k; simpl in *; [|done]. by rewrite pruned_bucket.
Qed.

Lemma limiter_run_inv ops now l log :
  map_wf (buckets l) → window_inv rule (times k log) (stored l k) now →
  ordered now ops → Forall (uses rule k) ops →
  ∃ now', let '(l', log') := foldl limiter_step (l, log) ops in
    window_inv rule (times k log') (stored l' k) now'.
Proof.
  revert now l log. induction ops as [|[t op] ops IH]; intros now l log Hwf Hi Ho Hu.
  - by exists now.
  - destruct Ho as [Hn Ho]. apply Forall_cons in Hu as [Hu Hus].
    pose proof (limiter_step_inv l log now (t, op) Hwf Hi Hn Hu) as Hs.
    cbn [foldl]. destruct (limiter_step (l, log) (t, op)) as [l' log'].
    destruct Hs as [? ?]. by apply (IH t).
Qed.
End Runs.

(** ** The theorems *)

(** Whatever requests, global requests and prunings a run makes, under a
    clock that does not run backwards, no window of the length of the rule
    contains more admitted requests of a key than the rule allows. *)
Theorem limiter_window_bound rule k ops T :
  0 ≤ windowMs rule ≤ HOUR → ordered 0 ops → Forall (uses rule k) ops →
  (in_window rule T (times k (limiter_run ops).2) ≤ maxRequests rule)%nat.
Proof.
  intros Hw Ho Hu.
  destruct (limiter_run_inv rule k Hw ops 0 new_limiter []) as [now Hi]; auto with fh.
  - destruct k; apply window_start.
  - unfold limiter_run. destruct (foldl _ _ _) as [l log]. apply Hi.
Qed.

Lemma limiter_window_bound_witness :
  let ops := [(1, LCheck "ip" submit); (2, LCheck "ip" submit); (3, LCheck "ip" submit);
    (4, LCheck "ip" submit); (5, LPrune); (60002, LCheck "ip" submit)] in
  times (Some "ip"%string) (limiter_run ops).2 = [1; 2; 3; 60002] ∧
  (in_window submit 60002 (times (Some "ip"%string) (limiter_run ops).2) ≤ 3)%nat.
Proof.
  intros ops. split; [vm_compute; reflexivity|].
  apply (limiter_window_bound submit (Some "ip"%string) ops 60002).
  - unfold HOUR. simpl. lia.
  - simpl. lia.
  - repeat constructor.
Defined.

Lemma min_time_spec ts m :
  min_time ts = Some m → m ∈ ts ∧ Forall (λ t, m ≤ t) ts.
Proof.
  revert m. induction ts as [|t ts IH]; intros m; simpl; [done|].
  destruct (min_time ts) as [m'|] eqn:E; intros [= <-].
  - destruct (IH m' eq_refl) as [Hin Hall]. split.
    + destruct (Z.min_spec t m') as [[_ ->]|[_ ->]]; [left|by right].
    + constructor; [lia|]. eapply Forall_impl; [done|]. simpl. intros. lia.
  - assert (ts = []) as -> by (destruct ts as [|u ts]; [done|]; simpl in E; by destruct (min_time ts)).
    split; [left|]. constructor; [lia|constructor].
Qed.

Lemma min_time_some ts : ts ≠ [] → ∃ m, min_time ts = Some m.
Proof. destruct ts as [|t ts]; [done|]. simpl. destruct (min_time ts); eauto. Qed.

Lemma after_all ts c : Forall (λ t, c < t) ts → after c ts = ts.
Proof.
  induction 1 as [|t ts Ht _ IH]; [done|]. unfold after. rewrite filter_cons, decide_True by done.
  f_equal. apply IH.
Qed.

(** [retryAfterMs] after a refused request is positive and at most the
    window; a further request is refused before that many milliseconds have
    passed and, when the bucket holds no more than the rule allows, admitted
    as soon as they have. *)
Theorem retryAfterMs_exact l now key rule :
  (0 < maxRequests rule)%nat → 0 < windowMs rule →
  Forall (λ t, t ≤ now) (bucket l key) →
  (length (after (now - windowMs rule) (bucket l key)) ≤ maxRequests rule)%nat →
  let '(ok, l') := check l now key rule in
  ok = false →
  ∃ ms, retryAfterMs l' now key rule = Some ms ∧ 0 < ms ≤ windowMs rule ∧
    (∀ now', now ≤ now' < now + ms → (check l' now' key rule).1 = false) ∧
    (∀ now', now + ms ≤ now' → (check l' now' key rule).1 = true).
Proof.
  intros Hm Hw Hp Hl. unfold check at 1.
  destruct (admit_request rule now (bucket l key)) as [ok ts] eqn:E. intros ->.
  unfold admit_request in E. destruct (_ <=? _)%nat eqn:El; [|done]. injection E as <-. bool_cases.
  set (active := after (now - windowMs rule) (bucket l key)) in *.
  assert (Hid : after (now - windowMs rule) active = active) by (unfold active; by apply after_after).
  destruct (min_time_some active) as [m Em]; [by intros E; rewrite E in El; simpl in El; lia|].
  destruct (min_time_spec active m Em) as [Hin Hall].
  assert (Hm' : now - windowMs rule < m ≤ now).
  { unfold active, after in Hin. apply list_elem_of_filter in Hin as [? Hin].
    rewrite Forall_forall in Hp. split; [done|]. by apply Hp. }
  exists (m + windowMs rule - now). unfold retryAfterMs, check. simpl.
  rewrite map_get_set_eq, Hid, (proj2 (Nat.ltb_ge _ _)), Em by done.
  split; [done|]. split; [lia|].
  assert (Hb : ∀ g, bucket (Limiter (map_set (buckets l) key active) g) key = active)
    by (intros; by rewrite bucket_set, decide_True).
  rewrite Hb. split; intros now' Hn'.
  - unfold admit_request. rewrite after_all, (proj2 (Nat.leb_le _ _)); [done|done|].
    eapply Forall_impl; [exact Hall|]. simpl. intros. lia.
  - unfold admit_request.
    assert (length (after (now' - windowMs rule) active) < length active)%nat.
    { unfold after. apply (length_filter_lt _ _ m); [done|]. lia. }
    by rewrite (proj2 (Nat.leb_gt _ _)) by lia.
Qed.

Lemma retryAfterMs_exact_witness :
  let l := Limiter [("ip"%string, [10; 20; 30])] [] in
  let '(ok, l') := check l 40 "ip" submit in
  ok = false ∧ retryAfterMs l' 40 "ip" submit = Some 59970 ∧
  ∃ ms, (check l' (40 + ms) "ip" submit).1 = true.
Proof.
  pose proof (retryAfterMs_exact (Limiter [("ip"%string, [10; 20; 30])] []) 40 "ip" submit) as R.
  simpl. split; [reflexivity|]. split; [reflexivity|].
  destruct R as (ms & _ & _ & _ & H).
  - simpl. lia.
  - simpl. lia.
  - repeat constructor; simpl; lia.
  - apply Nat.leb_le. vm_compute. reflexivity.
  - reflexivity.
  - exists ms. apply H. lia.
Defined.
