(* ===== verification/BridgeServer.v ===== *)
(** * The request handler of the auth bridge

    [services/auth-bridge/server.ts].  [handleRequest] waits for the body of a
    request in two of its routes, so that it runs in two steps, with the steps
    of other requests in between.  A step reads the clock once, [now].

    The HTTP library, [JSON.stringify] and the page file are outside: a
    response is its status, its headers and its body before serialisation, and
    the page is a parameter. *)

From Stdlib Require Import Ascii.
From stdpp Require Import gmap pretty.
From S2P Require Import Prelude QrEncode QrCode JsMap BridgeToken BridgeStore BridgeLimiter.
Local Open Scope Z_scope.

(** ** Requests and responses *)

Record request := Request {
  req_method : option string;
  req_url : option string;
  forwardedFor : option string;
  remoteAddress : option string }.

Inductive resp_body :=
| Empty
| Json (data : list (string * jvalue))
| Text (s : string)
| TextUnits (units : list Z).

Record response := Response {
  status : Z;
  headers : list (string * string);
  resp : resp_body }.

(** The options after defaulting, and the page that was read at start. *)
Record config := Config {
  baseUrl : string;
  corsOrigin : string;
  authPageHtml : string }.

(** [.replace(/\/$/, '')] *)
Definition strip_slash (s : string) : string :=
  match String.rev s with
  | String c r => if decide (c = "/"%char) then String.rev r else s
  | EmptyString => s
  end.

Definition make_config (base cors : option string) (origin page : string) : config :=
  Config (strip_slash (default "https://flowhelm.to" base)) (default origin cors)
    (if str_truthy page then page else
      "<!DOCTYPE html><html><body><p>Auth page not found. Check static/ directory.</p></body></html>").

Definition getClientIP (req : request) : string :=
  match forwardedFor req with
  | Some x => trim (hd ""%string (str_split ","%char x))
  | None => default "0.0.0.0" (remoteAddress req)
  end.

Definition parsePath (url : string) : string * list string :=
  let path := hd ""%string (str_split "?"%char url) in
  (path, List.filter str_truthy (str_split "/"%char path)).

(** ** Bodies *)

Inductive body_event := Data (chunk : list Z) | End | BodyError.

Definition maxSize : nat := 65536.

Section Body.
(** [JSON.parse] of the decoded bytes; [None] when it throws. *)
Context (json_parse : list Z → option jvalue).

(** The first value the promise resolves to; [None] while it is pending.  The
    listeners go on after the promise is resolved, without effect on it. *)
Fixpoint parseBody (chunks : list Z) (evs : list body_event) : option jvalue :=
  match evs with
  | [] => None
  | Data chunk :: evs =>
      if (maxSize <? length chunks + length chunk)%nat then Some JNull
      else parseBody (chunks ++ chunk) evs
  | End :: _ => Some (default JNull (json_parse chunks))
  | BodyError :: _ => Some JNull
  end.
End Body.

(** ** Responses *)

Definition cors_headers (cfg : config) : list (string * string) :=
  [("Access-Control-Allow-Origin", corsOrigin cfg);
   ("Access-Control-Allow-Methods", "GET, POST, DELETE, OPTIONS");
   ("Access-Control-Allow-Headers", "Content-Type");
   ("Access-Control-Max-Age", "86400")]%string.

Definition reply (cfg : config) (st : Z) (hs : list (string * string)) (b : resp_body) : response :=
  Response st (cors_headers cfg ++ hs) b.

Definition json (cfg : config) (st : Z) (data : list (string * jvalue)) : response :=
  reply cfg st [("Content-Type", "application/json")%string] (Json data).

Definition error (cfg : config) (st : Z) (msg : string) : response :=
  json cfg st [("error"%string, JStr msg)].

(** [String(Math.ceil(ms / 1000))]; [Math.min()] of no time is infinity. *)
Definition retry_after (ms : option Z) : string :=
  match ms with Some ms => pretty ((ms + 999) / 1000) | None => "Infinity" end.

Definition rateLimited (cfg : config) (ms : option Z) : response :=
  reply cfg 429 [("Content-Type", "application/json"); ("Retry-After", retry_after ms)]%string
    (Json [("error", JStr "Too many requests")]%string).

(** ** The handler *)

(** [store], [limiter] and the random bytes not yet drawn. *)
Record bridge := Bridge { store : SessionStore; limiter : RateLimiter; random : list Z }.

Inductive pending := CreateSession | SubmitTo (token : string).

Inductive outcome :=
| Done (r : response)
| AwaitBody (p : pending).

(** [if (!limiter.check(key, rule)) return rateLimited(...)], then [next]. *)
Definition limited (cfg : config) (sv : bridge) (now : Z) (key : string) (rule : RateLimitRule)
    (next : bridge → outcome * bridge) : outcome * bridge :=
  let '(ok, l) := check (limiter sv) now key rule in
  let sv := Bridge (store sv) l (random sv) in
  if ok then next sv
  else (Done (rateLimited cfg (retryAfterMs l now key rule)), sv).

(** [store.get(token)] and the answer when there is no session. *)
Definition with_session (sv : bridge) (now : Z) (token : string) (missing : response)
    (found : SessionData → response) : outcome * bridge :=
  let '(s, st) := get (store sv) now token in
  (Done (match s with Some s => found s | None => missing end),
   Bridge st (limiter sv) (random sv)).

Definition opt_json (s : option string) : list jvalue := match s with Some s => [JStr s] | None => [] end.

(** The fields of an object literal; [JSON.stringify] drops undefined ones. *)
Definition opt_entry (k : string) (s : option string) : list (string * jvalue) :=
  map (pair k) (opt_json s).

Definition poll_response (cfg : config) (s : SessionData) : response :=
  if opt_truthy (encrypted s) then
    json cfg 200 (("status", JStr "ready") :: opt_entry "encrypted" (encrypted s) ++
      opt_entry "ephemeralPublicKey" (ephemeralPublicKey s) ++ opt_entry "nonce" (nonce s))%string
  else json cfg 200 [("status", JStr "pending")]%string.

Definition session_url (cfg : config) (token : string) : string :=
  (baseUrl cfg ++ "/" ++ token)%string.

(** An exception of [generateQR] reaches the wrapper of [createServer]. *)
Definition qr_response (cfg : config) (token : string) : response :=
  match generateQR (units (session_url cfg token)) with
  | Ok text => reply cfg 200
      [("Content-Type", "text/plain; charset=utf-8"); ("Cache-Control", "no-store")]%string
      (TextUnits text)
  | Err _ => error cfg 500 "Internal server error"
  end.

Definition page_response (cfg : config) (token : string) : response :=
  reply cfg 200
    [("Content-Type", "text/html; charset=utf-8"); ("Cache-Control", "no-store")]%string
    (Text (replace_first "{{BASE_URL}}" (baseUrl cfg)
      (replace_first "{{TOKEN}}" token (authPageHtml cfg)))).

Definition redirect_response (cfg : config) (token : string) (s : SessionData) : response :=
  reply cfg 302 [("Location"%string,
    (baseUrl cfg ++ "/a/" ++ token ++ "#pk=" ++ encodeURIComponent (publicKey s))%string)] Empty.

Definition not_found : string := "Session not found or expired".

(** [segments[i] === s] *)
Definition is_seg (segments : list string) (i : nat) (s : string) : bool :=
  bool_decide (segments !! i = Some s).

(** The test of a route under [/api/session]. *)
Definition session_route (segments : list string) (len : nat) : bool :=
  is_seg segments 0 "api" && is_seg segments 1 "session" && (length segments =? len)%nat.

(** [handleRequest] up to the end or to [await parseBody(req)]. *)
Definition handle_start (cfg : config) (sv : bridge) (now : Z) (req : request) : outcome * bridge :=
  let method := default "GET"%string (req_method req) in
  let '(path, segments) := parsePath (default "/"%string (req_url req)) in
  let ip := getClientIP req in
  let is_method (m : string) := bool_decide (method = m) in
  let segment (i : nat) := nth i segments ""%string in
  (if is_method "OPTIONS" then (Done (reply cfg 204 [] Empty), sv)
  else if bool_decide (path = "/health") && is_method "GET" then
    (Done (json cfg 200 [("status", JStr "ok");
       ("sessions", JNum (Z.of_nat (store_size (store sv))))]), sv)
  else if session_route segments 2 && is_method "POST" then
    limited cfg sv now ("create:" ++ ip) sessionCreate (λ sv,
      let '(ok, l) := checkGlobal (limiter sv) now GLOBAL_SESSION_LIMIT in
      let sv := Bridge (store sv) l (random sv) in
      if ok then (AwaitBody CreateSession, sv)
      else (Done (rateLimited cfg (Some 60000%Z)), sv))
  else if session_route segments 4 && is_seg segments 3 "poll" && is_method "GET" then
    limited cfg sv now ("poll:" ++ ip) poll (λ sv,
      with_session sv now (segment 2%nat) (error cfg 404 not_found) (poll_response cfg))
  else if session_route segments 3 && is_method "POST" then
    limited cfg sv now ("submit:" ++ ip) submit (λ sv, (AwaitBody (SubmitTo (segment 2%nat)), sv))
  else if session_route segments 3 && is_method "DELETE" then
    (Done (json cfg 200 [("status", JStr "deleted")]),
     Bridge (delete (store sv) (segment 2%nat)).2 (limiter sv) (random sv))
  else if is_seg segments 0 "qr" && (length segments =? 2)%nat && is_method "GET" then
    limited cfg sv now ("qr:" ++ ip) qr (λ sv,
      with_session sv now (segment 1%nat) (error cfg 404 not_found) (λ _, qr_response cfg (segment 1%nat)))
  else if is_seg segments 0 "a" && (length segments =? 2)%nat && is_method "GET" then
    with_session sv now (segment 1%nat)
      (reply cfg 404 [("Content-Type", "text/plain")] (Text "Session not found or expired."))
      (λ _, page_response cfg (segment 1%nat))
  else if (length segments =? 1)%nat && is_method "GET" then
    if bool_decide (segment 0%nat ∈ ["favicon.ico"; "robots.txt"])
    then (Done (reply cfg 404 [] Empty), sv)
    else with_session sv now (segment 0%nat) (error cfg 404 not_found)
      (redirect_response cfg (segment 0%nat))
  else (Done (error cfg 404 "Not found"), sv))%string.

(** The rest of [handleRequest], with the parsed body; [None] when the finite
    random stream of the model runs out. *)
Definition handle_resume (cfg : config) (sv : bridge) (now : Z) (p : pending) (body : jvalue)
  : option (response * bridge) :=
  match p with
  | CreateSession =>
      match (if falsy body then None else str_field body "publicKey") with
      | None => Some (error cfg 400 "Missing or invalid publicKey", sv)
      | Some key =>
          if negb (str_truthy key) then Some (error cfg 400 "Missing or invalid publicKey", sv)
          else
          match generateUniqueToken (λ t st, has st now t) (store sv) (random sv) with
          | None => None
          | Some (Err _, st, rnd) =>
              Some (error cfg 500 "Internal server error", Bridge st (limiter sv) rnd)
          | Some (Ok token, st, rnd) =>
              let '(created, st) := create st now token key in
              if negb created then
                Some (error cfg 503 "Server at capacity", Bridge st (limiter sv) rnd)
              else
                let '(s, st) := get st now token in
                Some (match s with
                      | Some s => json cfg 201 [("token", JStr token);
                                                ("expiresAt", JNum (expiresAt s))]%string
                      | None => error cfg 500 "Internal server error"
                      end, Bridge st (limiter sv) rnd)
          end
      end
  | SubmitTo token =>
      match falsy body, str_field body "encrypted", str_field body "ephemeralPublicKey",
            str_field body "nonce" with
      | false, Some e, Some k, Some n =>
          let '(ok, st) := submitCredentials (store sv) now token e k n in
          Some ((if ok then json cfg 200 [("status", JStr "ok")]%string
                 else error cfg 404 "Session not found, expired, or already submitted"),
                Bridge st (limiter sv) (random sv))
      | _, _, _, _ =>
          Some (error cfg 400 "Missing encrypted, ephemeralPublicKey, or nonce", sv)
      end
  end.

(** ** Interleaved requests *)

(** [EvRequest] starts a request under a fresh number, [EvBody] resumes the
    request that waits under it; the two timers run between steps. *)
Inductive event :=
| EvRequest (id : nat) (req : request)
| EvBody (id : nat) (body : jvalue)
| EvCleanup
| EvPrune.

Record system := System { server : bridge; waiting : gmap nat pending }.

Definition step (cfg : config) (sys : system) (now : Z) (ev : event)
  : option (option outcome * system) :=
  let sv := server sys in
  match ev with
  | EvRequest id req =>
      match waiting sys !! id with
      | Some _ => None
      | None =>
          let '(out, sv) := handle_start cfg sv now req in
          Some (Some out, System sv
            match out with AwaitBody p => <[id := p]> (waiting sys) | Done _ => waiting sys end)
      end
  | EvBody id body =>
      match waiting sys !! id with
      | None => None
      | Some p =>
          match handle_resume cfg sv now p body with
          | None => None
          | Some (r, sv) => Some (Some (Done r), System sv (base.delete id (waiting sys)))
          end
      end
  | EvCleanup => Some (None, System
      (Bridge (cleanup (store sv) now).2 (limiter sv) (random sv)) (waiting sys))
  | EvPrune => Some (None, System
      (Bridge (store sv) (pruneAll (limiter sv) now) (random sv)) (waiting sys))
  end.

(** A run with the outcomes of its steps. *)
Fixpoint run (cfg : config) (sys : system) (evs : list (Z * event))
  : option (system * list (Z * outcome)) :=
  match evs with
  | [] => Some (sys, [])
  | (now, ev) :: evs =>
      match step cfg sys now ev with
      | None => None
      | Some (out, sys) =>
          match run cfg sys evs with
          | None => None
          | Some (sys, outs) =>
              Some (sys, match out with Some o => (now, o) :: outs | None => outs end)
          end
      end
  end.

Definition start_system (ttl : option Z) (max : option nat) (rnd : list Z) : system :=
  System (Bridge (new_store ttl max) new_limiter rnd) ∅.

Fixpoint clock_ordered (now : Z) (evs : list (Z * event)) : Prop :=
  match evs with
  | [] => True
  | (t, _) :: evs => now ≤ t ∧ clock_ordered t evs
  end.

(** ** What a step does to the store *)

(** [DELETE /api/session/t] *)
Definition is_delete_of (t : string) (req : request) : bool :=
  let segments := (parsePath (default "/"%string (req_url req))).2 in
  session_route segments 3 && bool_decide (default "GET" (req_method req) = "DELETE")%string &&
  bool_decide (nth 2 segments ""%string = t).

(** A first step looks up a session, deletes one, or leaves the store alone. *)
Inductive start_effect (now : Z) (req : request) (st : SessionStore) : SessionStore → Prop :=
| effect_none : start_effect now req st st
| effect_get t : start_effect now req st (run_op st (now, OpGet t))
| effect_delete t : is_delete_of t req = true →
    start_effect now req st (run_op st (now, OpDelete t)).

Lemma with_session_effect now req sv t a b :
  start_effect now req (store sv) (store (with_session sv now t a b).2).
Proof.
  pose proof (effect_get now req (store sv) t) as H. unfold with_session. simpl in *.
  by destruct (get _ _ _).
Qed.

Lemma limited_effect cfg sv now req key rule next :
  (∀ l, start_effect now req (store sv)
    (store (next (Bridge (store sv) l (random sv))).2)) →
  start_effect now req (store sv) (store (limited cfg sv now key rule next).2).
Proof.
  intros Hn. unfold limited. destruct (check _ _ _ _) as [[] l]; [apply Hn|constructor].
Qed.

Lemma handle_start_effect cfg sv now req :
  start_effect now req (store sv) (store (handle_start cfg sv now req).2).
Proof.
  pose proof (effect_delete now req (store sv)) as Hd. unfold is_delete_of in Hd.
  unfold handle_start. destruct (parsePath _) as [path segments]. cbn [snd] in Hd. cbv zeta in Hd |- *.
  repeat lazymatch goal with
  | |- start_effect _ _ _ (store (if ?b then _ else _).2) => destruct b eqn:?
  | |- start_effect _ _ _ (store (limited _ _ _ _ _ _).2) => apply limited_effect; intros l
  | |- start_effect _ _ _ (store (with_session _ _ _ _ _).2) => apply (with_session_effect _ _ (Bridge _ _ _)) || apply with_session_effect
  end; try apply effect_none.
  - destruct (checkGlobal _ _ _) as [[] ?]; apply effect_none.
  - apply (Hd (nth 2 segments ""%string)). by rewrite bool_decide_true.
Qed.

(** ** Invariants of the store *)

Definition tokens_ok (st : SessionStore) : Prop := Forall valid_token (map_keys (sessions st)).

Definition good_store (st : SessionStore) : Prop := store_ok st ∧ tokens_ok st.

Lemma keys_filter {A} (P : string * A → Prop) `{!∀ e, Decision (P e)} (Q : string → Prop) (m : jsmap A) :
  Forall Q (map_keys m) → Forall Q (map_keys (filter P m)).
Proof.
  unfold map_keys. rewrite !Forall_map, !Forall_forall. intros HQ e He.
  apply list_elem_of_filter in He as [_ He]. by apply HQ.
Qed.

Lemma keys_set {A} (Q : string → Prop) (m : jsmap A) k a :
  Forall Q (map_keys m) → Q k → Forall Q (map_keys (map_set m k a)).
Proof.
  intros Hm Hk. rewrite map_keys_set. case_match; [done|]. apply Forall_app. by repeat constructor.
Qed.

Definition creates_valid (op : store_op) : Prop :=
  match op with OpCreate t _ => valid_token t | _ => True end.

Lemma run_op_tokens st now op :
  tokens_ok st → creates_valid op → tokens_ok (run_op st (now, op)).
Proof.
  unfold tokens_ok. intros Ht Hc. destruct op as [t key|t|t e p n|t|]; simpl in *.
  - unfold create. case_match; [done|]. by apply keys_set.
  - unfold get. repeat case_match; try done. by apply keys_filter.
  - unfold submitCredentials, get. destruct (map_get (sessions st) t) as [s|] eqn:E; [|done].
    destruct (expired now s); [by apply keys_filter|]. destruct (opt_truthy _); [done|].
    simpl. by rewrite map_keys_set, E.
  - by apply keys_filter.
  - by apply keys_filter.
Qed.

Lemma run_op_good st now op : good_store st → creates_valid op → good_store (run_op st (now, op)).
Proof. intros [? ?] ?. split; [by apply run_op_ok|by apply run_op_tokens]. Qed.

Lemma has_run st now t : (has st now t).2 = run_op st (now, OpGet t).
Proof. unfold has. simpl. by destruct (get st now t). Qed.

Lemma has_live st now t : store_ok st →
  (has st now t).1 = match live now st !! t with Some _ => true | None => false end.
Proof.
  intros Hok. rewrite <- get_value by done. unfold has. by destruct (get st now t).
Qed.

(** The store after a second step: some looks for a fresh token, then the
    creation under a token that no live session has; or one submission. *)
Section Resume.
Context (I : SessionStore → Prop) (now : Z).
Context (Hget : ∀ st t, I st → I (run_op st (now, OpGet t))).
Context (Hcreate : ∀ st t k, I st → valid_token t → live now st !! t = None →
  I (run_op st (now, OpCreate t k))).
Context (Hsubmit : ∀ st t e k n, I st → I (run_op st (now, OpSubmit t e k n))).
Context (Hok : ∀ st, I st → store_ok st).

Lemma handle_resume_inv cfg sv p body r sv' :
  I (store sv) → handle_resume cfg sv now p body = Some (r, sv') → I (store sv').
Proof.
  intros Hi. destruct p as [|t]; cbn [handle_resume].
  - destruct (if falsy body then None else _) as [key|]; [|by intros [= _ <-]].
    destruct (negb _); [by intros [= _ <-]|].
    unfold generateUniqueToken. destruct (unique_rounds _ _ _ _) as [[[[t|e] st] rnd]|] eqn:E; [| |done].
    2: { intros [= _ <-]. apply (unique_rounds_inv _ I) in E as [? _]; [done| |done].
         intros t st' Hst. rewrite has_run. by apply Hget. }
    apply (unique_rounds_inv _ I) in E as [Hst (Hv & st0 & Hst0 & Eh)]; [| |done].
    2: { intros u st' Hst. rewrite has_run. by apply Hget. }
    assert (Hl : live now st !! t = None).
    { pose proof (has_live st0 now t (Hok _ Hst0)) as Hh. rewrite Eh in Hh. simpl in Hh.
      destruct (live now st0 !! t) eqn:El; [done|]. rewrite <- El.
      replace st with (has st0 now t).2 by (by rewrite Eh). rewrite has_run. simpl.
      by rewrite get_live by auto. }
    pose proof (Hcreate st t key Hst Hv Hl) as Hc. simpl in Hc.
    destruct (create st now t key) as [created st1] eqn:Ec. simpl in Hc.
    destruct (negb created); [by intros [= _ <-]|].
    pose proof (Hget st1 t Hc) as Hg. simpl in Hg.
    destruct (get st1 now t) as [s st2] eqn:Eg. by intros [= _ <-].
  - destruct (falsy body); [by intros [= _ <-]|].
    destruct (str_field body "encrypted") as [e|]; [|by intros [= _ <-]].
    destruct (str_field body "ephemeralPublicKey") as [k|]; [|by intros [= _ <-]].
    destruct (str_field body "nonce") as [n|]; [|by intros [= _ <-]].
    pose proof (Hsubmit _ t e k n Hi) as Hs. simpl in Hs.
    destruct (submitCredentials _ _ _ _ _ _) as [ok st]. by intros [= _ <-].
Qed.
End Resume.

(** ** Invariants of a run *)

(** The requests for a session that pass both limits. *)
Definition is_create (out : outcome) : bool :=
  match out with AwaitBody CreateSession => true | _ => false end.

Definition admitted (outs : list (Z * outcome)) : list Z :=
  map fst (List.filter (λ o, is_create o.2) outs).

Definition created_at (now : Z) (out : option outcome) : list Z :=
  match out with Some o => if is_create o then [now] else [] | None => [] end.

Definition global_window (log : list Z) (l : RateLimiter) (now : Z) : Prop :=
  window_inv GLOBAL_SESSION_LIMIT log (globalBucket l) now.

Lemma check_global l now key rule : globalBucket (check l now key rule).2 = globalBucket l.
Proof. unfold check. by destruct (admit_request _ _ _). Qed.

Lemma with_session_outcome sv now t a b :
  is_create (with_session sv now t a b).1 = false ∧ limiter (with_session sv now t a b).2 = limiter sv.
Proof. unfold with_session. by destruct (get _ _ _). Qed.

(** The outcome [o] extends the log as the global bucket does. *)
Definition global_step (log : list Z) (now : Z) (o : outcome * bridge) : Prop :=
  global_window (log ++ created_at now (Some o.1)) (limiter o.2) now.

Lemma global_step_same log now out sv l :
  global_window log l now → is_create out = false → globalBucket (limiter sv) = globalBucket l →
  global_step log now (out, sv).
Proof.
  intros Hg Hc Hs. unfold global_step, global_window in *. simpl. rewrite Hc, app_nil_r, Hs. done.
Qed.

Lemma limited_global log cfg sv now key rule next :
  global_window log (limiter sv) now →
  (∀ l, global_window log l now → global_step log now (next (Bridge (store sv) l (random sv)))) →
  global_step log now (limited cfg sv now key rule next).
Proof.
  intros Hg Hn. unfold limited. pose proof (check_global (limiter sv) now key rule) as Hc.
  destruct (check _ _ _ _) as [[] l]; simpl in Hc.
  - apply Hn. unfold global_window. by rewrite Hc.
  - by apply (global_step_same _ _ _ _ (limiter sv)).
Qed.

Lemma with_session_global log sv now t a b :
  global_window log (limiter sv) now → global_step log now (with_session sv now t a b).
Proof.
  intros Hg. destruct (with_session_outcome sv now t a b) as [Hc Hl].
  destruct (with_session _ _ _ _ _) as [out sv']. simpl in *.
  apply (global_step_same _ _ _ _ (limiter sv)); [done..|by rewrite Hl].
Qed.

Lemma handle_start_global log cfg sv now req :
  global_window log (limiter sv) now → global_step log now (handle_start cfg sv now req).
Proof.
  intros Hg. unfold handle_start. destruct (parsePath _) as [path segments]. cbv zeta.
  repeat lazymatch goal with
  | |- global_step _ _ (if ?b then _ else _) => destruct b
  | |- global_step _ _ (limited _ _ _ _ _ _) => apply limited_global; [done|intros l Hl]
  | |- global_step _ _ (with_session _ _ _ _ _) => by apply with_session_global
  end; try by apply (global_step_same _ _ _ _ (limiter sv)).
  - pose proof (admit_inv GLOBAL_SESSION_LIMIT log (globalBucket l) now) as Ha.
    unfold checkGlobal. cbn [limiter store random].
    destruct (admit_request _ _ _) as [[] ts]; specialize (Ha ltac:(simpl; lia) Hl);
      unfold global_step, global_window; simpl; [done|by rewrite app_nil_r].
  - by apply (global_step_same _ _ _ _ l).
Qed.

Lemma handle_resume_limiter cfg sv now p body r sv' :
  handle_resume cfg sv now p body = Some (r, sv') → limiter sv' = limiter sv.
Proof.
  destruct p as [|t]; cbn [handle_resume].
  - destruct (if falsy body then None else _) as [key|]; [|by intros [= _ <-]].
    destruct (negb _); [by intros [= _ <-]|].
    destruct (generateUniqueToken _ _ _) as [[[[t|e] st] rnd]|]; [|by intros [= _ <-]|done].
    destruct (create _ _ _ _) as [created st1].
    destruct (negb created); [by intros [= _ <-]|].
    destruct (get st1 now t) as [s st2]. by intros [= _ <-].
  - destruct (falsy body); [by intros [= _ <-]|].
    destruct (str_field body "encrypted"); [|by intros [= _ <-]].
    destruct (str_field body "ephemeralPublicKey"); [|by intros [= _ <-]].
    destruct (str_field body "nonce"); [|by intros [= _ <-]].
    destruct (submitCredentials _ _ _ _ _ _) as [ok st]. by intros [= _ <-].
Qed.

Lemma prune_global log l now :
  global_window log l now → global_window log (pruneAll l now) now.
Proof. intros H. apply window_prune; [done|]. simpl. unfold HOUR. lia. Qed.

Record system_ok (log : list Z) (sys : system) (now : Z) : Prop := {
  sys_store : good_store (store (server sys));
  sys_window : global_window log (limiter (server sys)) now }.

Lemma step_ok log cfg sys now now' ev out sys' :
  system_ok log sys now → now ≤ now' → step cfg sys now' ev = Some (out, sys') →
  system_ok (log ++ created_at now' out) sys' now'.
Proof.
  intros [Hs Hg] Hn. assert (Hg' : global_window log (limiter (server sys)) now')
    by (by apply (window_later _ _ _ now)). clear Hg.
  destruct ev as [id req|id body| |]; cbn [step].
  - destruct (waiting sys !! id); [done|].
    pose proof (handle_start_effect cfg (server sys) now' req) as He.
    pose proof (handle_start_global log cfg (server sys) now' req Hg') as Hw.
    destruct (handle_start _ _ _ _) as [o sv]. intros [= <- <-]. split; [|exact Hw].
    simpl in *. destruct He; [done|by apply run_op_good..].
  - destruct (waiting sys !! id) as [p|]; [|done].
    destruct (handle_resume _ _ _ _ _) as [[r sv]|] eqn:E; [|done]. intros [= <- <-].
    simpl. rewrite app_nil_r. split; simpl.
    + eapply (handle_resume_inv good_store now'); [| | | |exact Hs|exact E].
      * intros. by apply run_op_good.
      * intros. by apply run_op_good.
      * intros. by apply run_op_good.
      * by intros st [? _].
    + unfold global_window. by rewrite (handle_resume_limiter _ _ _ _ _ _ _ E).
  - intros [= <- <-]. simpl. rewrite app_nil_r. split; simpl; [|done].
    by apply (run_op_good _ now' OpCleanup).
  - intros [= <- <-]. simpl. rewrite app_nil_r. split; simpl; [done|]. by apply prune_global.
Qed.

Lemma run_ok log cfg sys now evs sys' outs :
  system_ok log sys now → clock_ordered now evs → run cfg sys evs = Some (sys', outs) →
  ∃ now', system_ok (log ++ admitted outs) sys' now'.
Proof.
  revert log sys now outs. induction evs as [|[t ev] evs IH]; intros log sys now outs Hok Ho; cbn [run].
  - intros [= <- <-]. rewrite app_nil_r. by exists now.
  - destruct Ho as [Hn Ho]. destruct (step cfg sys t ev) as [[out sys1]|] eqn:E; [|done].
    pose proof (step_ok _ _ _ _ _ _ _ _ Hok Hn E) as Hok1.
    destruct (run cfg sys1 evs) as [[sys2 outs2]|] eqn:Er; [|done]. intros [= <- <-].
    destruct (IH _ _ _ _ Hok1 Ho Er) as [now' Hf]. exists now'. rewrite <- app_assoc in Hf.
    destruct out as [o|]; [|done]. unfold admitted. simpl in *. by destruct (is_create o).
Qed.

(** A session with credentials stays live through every step but its deletion. *)
Definition deletes (t : string) (ev : event) : bool :=
  match ev with EvRequest _ req => is_delete_of t req | _ => false end.

Record delivered (t : string) (s : SessionData) (st : SessionStore) (now : Z) : Prop := {
  del_ok : store_ok st;
  del_ttl : 0 ≤ ttlMs st;
  del_live : live now st !! t = Some s }.

Lemma delivered_later t s st now now' :
  delivered t s st now → now ≤ now' ≤ expiresAt s → delivered t s st now'.
Proof. intros [? ? ?] ?. split; [done..|]. by apply (live_later _ now). Qed.

Lemma delivered_op t s st now op :
  opt_truthy (encrypted s) = true → touches t (now, op) = false →
  delivered t s st now → delivered t s (run_op st (now, op)) now.
Proof.
  intros He Ht [? ? ?]. split; [by apply run_op_ok|by rewrite run_op_ttl|].
  by apply run_op_live_final.
Qed.

Lemma step_delivered cfg sys now now' ev out sys' t s :
  opt_truthy (encrypted s) = true → deletes t ev = false → now ≤ now' ≤ expiresAt s →
  delivered t s (store (server sys)) now → step cfg sys now' ev = Some (out, sys') →
  delivered t s (store (server sys')) now'.
Proof.
  intros He Hd Hn Hdel. pose proof (delivered_later _ _ _ _ _ Hdel Hn) as Hs. clear Hdel.
  destruct ev as [id req|id body| |]; cbn [step].
  - destruct (waiting sys !! id); [done|].
    pose proof (handle_start_effect cfg (server sys) now' req) as Hf.
    destruct (handle_start _ _ _ _) as [o sv]. intros [= _ <-]. simpl in *.
    destruct Hf as [|u|u Hu]; [done|by apply delivered_op|]. apply delivered_op; [done| |done].
    unfold touches. simpl. apply bool_decide_eq_false. intros ->. congruence.
  - destruct (waiting sys !! id) as [p|]; [|done].
    destruct (handle_resume _ _ _ _ _) as [[r sv]|] eqn:E; [|done]. intros [= _ <-]. simpl.
    eapply (handle_resume_inv (λ st, delivered t s st now') now'); [| | | |exact Hs|exact E].
    + intros. by apply delivered_op.
    + intros st u k Hst _ Hu. apply delivered_op; [done| |done]. unfold touches. simpl.
      apply bool_decide_eq_false. intros ->. destruct Hst. congruence.
    + intros. by apply delivered_op.
    + by intros st [? _ _].
  - intros [= _ <-]. simpl. by apply (delivered_op t s _ now' OpCleanup).
  - by intros [= _ <-].
Qed.

Lemma run_delivered cfg sys now evs sys' outs t s :
  opt_truthy (encrypted s) = true →
  Forall (λ e, deletes t e.2 = false ∧ e.1 ≤ expiresAt s) evs → clock_ordered now evs →
  delivered t s (store (server sys)) now → run cfg sys evs = Some (sys', outs) →
  delivered t s (store (server sys')) (foldl (λ _ e, e.1) now evs).
Proof.
  intros He Hall. revert sys now outs.
  induction Hall as [|[u ev] evs [Hd Hu] _ IH]; intros sys now outs Ho Hdel; cbn [run].
  - by intros [= <- <-].
  - destruct Ho as [Hn Ho]. destruct (step cfg sys u ev) as [[out sys1]|] eqn:E; [|done].
    destruct (run cfg sys1 evs) as [[sys2 outs2]|] eqn:Er; [|done]. intros [= <- <-].
    simpl in *. eapply IH; [done| |exact Er]. by eapply step_delivered.
Qed.

(** The answer to a poll that the limiter lets through. *)
Lemma poll_answer cfg sv now req t :
  default "GET"%string (req_method req) = "GET"%string →
  (parsePath (default "/"%string (req_url req))).2 = ["api"; "session"; t; "poll"]%string →
  (check (limiter sv) now ("poll:" ++ getClientIP req) poll).1 = true →
  store_ok (store sv) →
  (handle_start cfg sv now req).1 =
  Done match live now (store sv) !! t with
       | Some s => poll_response cfg s
       | None => error cfg 404 not_found
       end.
Proof.
  intros Hm Hp Hc Hok. unfold handle_start. rewrite Hm.
  destruct (parsePath _) as [path segments] eqn:E. simpl in Hp. subst segments.
  assert (Hh : bool_decide (path = "/health"%string) = false).
  { apply bool_decide_eq_false. intros ->. unfold parsePath in E.
    destruct (default "/"%string (req_url req)); injection E as E1 E2; rewrite E1 in E2; discriminate E2. }
  rewrite Hh. cbn [andb]. change (session_route _ 2) with false.
  change (session_route _ 4 && is_seg _ 3 "poll") with true. cbn [andb nth].
  rewrite !(bool_decide_true ("GET"%string = "GET"%string)), !(bool_decide_false ("GET"%string = "OPTIONS"%string)) by done.
  unfold limited. destruct (check _ _ _ _) as [ok l]. simpl in Hc. subst ok.
  unfold with_session. cbn [store]. pose proof (get_value (store sv) now Hok t) as Hg.
  destruct (get _ _ _) as [r st]. simpl in *. by rewrite Hg.
Qed.

Lemma submit_delivers cfg sv now t e k n body s r sv' :
  str_field body "encrypted" = Some e → str_field body "ephemeralPublicKey" = Some k →
  str_field body "nonce" = Some n → str_truthy e = true → falsy body = false →
  store_ok (store sv) → 0 ≤ ttlMs (store sv) →
  live now (store sv) !! t = Some s → opt_truthy (encrypted s) = false →
  handle_resume cfg sv now (SubmitTo t) body = Some (r, sv') →
  r = json cfg 200 [("status", JStr "ok")]%string ∧
  delivered t (Session (publicKey s) (expiresAt s) (Some e) (Some k) (Some n)) (store sv') now.
Proof.
  intros He Hk Hn Het Hb Hok Httl Hl Hs. cbn [handle_resume]. rewrite Hb, He, Hk, Hn.
  pose proof (submit_live (store sv) now Hok t e k n) as [H1 H2].
  pose proof (run_op_ok _ (now, OpSubmit t e k n) Hok) as Hok'.
  pose proof (run_op_ttl (store sv) (now, OpSubmit t e k n)) as Httl'. simpl in Hok', Httl'.
  unfold spec_submit in H1, H2. rewrite Hl, Hs in H1, H2.
  destruct (submitCredentials _ _ _ _ _ _) as [ok st]. intros [= <- <-]. simpl in *. subst ok.
  split; [done|]. split; simpl; [done|lia|]. rewrite H2. apply lookup_insert_eq.
Qed.

(** ** The theorems *)

(** C23: in every interleaving of requests and timers, under a clock that does not
    run backwards, the sessions have distinct five-character tokens of the
    alphabet, there are never more of them than the bound, and no hour sees
    more than a thousand requests that go on to create a session. *)
Theorem bridge_run_safe cfg ttl max rnd evs sys outs T :
  clock_ordered 0 evs → run cfg (start_system ttl max rnd) evs = Some (sys, outs) →
  map_wf (sessions (store (server sys))) ∧
  Forall valid_token (map_keys (sessions (store (server sys)))) ∧
  (store_size (store (server sys)) ≤ maxSessions (store (server sys)))%nat ∧
  (in_window GLOBAL_SESSION_LIMIT T (admitted outs) ≤ 1000)%nat.
Proof.
  intros Ho Hr. destruct (run_ok [] cfg (start_system ttl max rnd) 0 evs sys outs) as [now [Hs Hw]];
    [|done|done|].
  - split; simpl; [|apply window_start].
    split; [split; simpl; [apply map_wf_nil|lia]|constructor].
  - destruct Hs as [[Hwf Hl] Ht]. split; [done|]. split; [done|]. split; [exact Hl|]. apply Hw.
Qed.

Definition example_config : config :=
  make_config None None "https://flowhelm.to" "<html>{{TOKEN}} {{BASE_URL}}</html>".

Definition example_request (method url : string) : request :=
  Request (Some method) (Some url) None (Some "10.0.0.1"%string).

Definition example_bytes : list Z := repeat 7 64.

(** A session is created, its credentials submitted. *)
Definition example_events : list (Z * event) :=
  [(10, EvRequest 0 (example_request "POST" "/api/session"));
   (20, EvBody 0 (JObj [("publicKey", JStr "pk")]%string));
   (30, EvRequest 1 (example_request "POST" "/api/session/99999"));
   (40, EvCleanup)].

Lemma bridge_run_safe_witness :
  ∃ sys outs, run example_config (start_system None None example_bytes) example_events = Some (sys, outs) ∧
    admitted outs = [10] ∧ map_keys (sessions (store (server sys))) = ["99999"%string] ∧
    (in_window GLOBAL_SESSION_LIMIT 10 (admitted outs) ≤ 1000)%nat.
Proof.
  assert (Ho : clock_ordered 0 example_events) by (simpl; lia).
  pose proof (bridge_run_safe example_config None None example_bytes example_events) as R.
  destruct (run example_config (start_system None None example_bytes) example_events)
    as [[sys outs]|] eqn:E; [|vm_compute in E; discriminate E].
  destruct (R sys outs 10 Ho eq_refl) as (_ & _ & _ & H).
  exists sys, outs. split; [reflexivity|]. split; [|split; [|exact H]].
  - change outs with (snd (sys, outs)). injection E as <- <-. vm_compute. reflexivity.
  - injection E as <- <-. vm_compute. reflexivity.
Defined.

(** C2: the relay delivers: when the browser's submission reaches a live session
    without credentials, it is answered 200, and from then on, whatever other
    requests and timers are interleaved up to the expiry of the session, short
    of its deletion, a poll that the limiter lets through is answered with
    exactly the blob, the key and the nonce of that submission. *)
Theorem relay_delivers cfg sys now id t body e k n s out sys1 evs sys2 outs now' req :
  store_ok (store (server sys)) → 0 ≤ ttlMs (store (server sys)) →
  waiting sys !! id = Some (SubmitTo t) →
  live now (store (server sys)) !! t = Some s → opt_truthy (encrypted s) = false →
  falsy body = false → str_truthy e = true →
  str_field body "encrypted" = Some e → str_field body "ephemeralPublicKey" = Some k →
  str_field body "nonce" = Some n →
  step cfg sys now (EvBody id body) = Some (out, sys1) →
  clock_ordered now evs → Forall (λ ev, deletes t ev.2 = false ∧ ev.1 ≤ expiresAt s) evs →
  run cfg sys1 evs = Some (sys2, outs) →
  foldl (λ _ ev, ev.1) now evs ≤ now' ≤ expiresAt s →
  default "GET"%string (req_method req) = "GET"%string →
  (parsePath (default "/"%string (req_url req))).2 = ["api"; "session"; t; "poll"]%string →
  (check (limiter (server sys2)) now' ("poll:" ++ getClientIP req) poll).1 = true →
  out = Some (Done (json cfg 200 [("status", JStr "ok")]%string)) ∧
  (handle_start cfg (server sys2) now' req).1 =
  Done (json cfg 200 [("status", JStr "ready"); ("encrypted", JStr e);
    ("ephemeralPublicKey", JStr k); ("nonce", JStr n)]%string).
Proof.
  intros Hok Httl Hid Hl Hs Hb Het He Hk Hn. cbn [step]. rewrite Hid.
  destruct (handle_resume _ _ _ _ _) as [[r sv]|] eqn:E; [|done].
  intros [= <- <-] Ho Hall Hrun Hn' Hm Hp Hc.
  destruct (submit_delivers cfg (server sys) now t e k n body s r sv) as [-> Hd]; try done.
  split; [done|]. apply (run_delivered cfg (System sv _) now evs sys2 outs t
    (Session (publicKey s) (expiresAt s) (Some e) (Some k) (Some n)) Het Hall Ho) in Hrun; [|done].
  pose proof (delivered_later _ _ _ _ now' Hrun Hn') as Hd'.
  rewrite (poll_answer _ _ _ _ t) by (done || apply Hd'). rewrite (del_live _ _ _ _ Hd').
  unfold poll_response. simpl. by rewrite Het.
Qed.

Definition example_body : jvalue :=
  JObj [("encrypted", JStr "blob"); ("ephemeralPublicKey", JStr "epk"); ("nonce", JStr "n")]%string.

Definition example_system : system :=
  match run example_config (start_system None None example_bytes) example_events with
  | Some (sys, _) => sys
  | None => start_system None None []
  end.

Lemma relay_delivers_witness :
  ∃ sys1 sys2,
    run example_config sys1 [(60, EvRequest 5 (example_request "POST" "/api/session/99999"))] =
      Some (sys2, [(60, AwaitBody (SubmitTo "99999"))]) ∧
    (handle_start example_config (server sys2) 70
       (example_request "GET" "/api/session/99999/poll")).1 =
    Done (json example_config 200 [("status", JStr "ready"); ("encrypted", JStr "blob");
      ("ephemeralPublicKey", JStr "epk"); ("nonce", JStr "n")]%string).
Proof.
  destruct (step example_config example_system 50 (EvBody 1 example_body)) as [[out sys1]|] eqn:E;
    [|vm_compute in E; discriminate E].
  exists sys1.
  assert (Ea : ∃ sys2, run example_config sys1
    [(60, EvRequest 5 (example_request "POST" "/api/session/99999"))] =
      Some (sys2, [(60, AwaitBody (SubmitTo "99999"))]) ∧
    (check (limiter (server sys2)) 70 "poll:10.0.0.1" poll).1 = true).
  { vm_compute in E. injection E as <- <-. eexists. split; vm_compute; reflexivity. }
  destruct Ea as (sys2 & Er & Hc). exists sys2. split; [exact Er|].
  eapply (relay_delivers example_config example_system 50 1 "99999" example_body "blob" "epk" "n"
    (Session "pk" 600020 None None None) out sys1 _ sys2 _ 70);
    try exact E; try exact Er; try exact Hc; try (vm_compute; reflexivity).
  - split; [|apply Nat.leb_le; vm_compute; reflexivity].
    apply (bool_decide_unpack _). vm_compute. exact I.
  - vm_compute. discriminate.
  - simpl. lia.
  - repeat constructor; vm_compute; (reflexivity || discriminate).
  - simpl. lia.
Defined.

(** ** The QR route *)

Definition ascii_string (s : string) : Prop := Forall (λ u, 0 ≤ u < 128) (units s).

Lemma units_app s1 s2 : units (s1 ++ s2) = units s1 ++ units s2.
Proof.
  unfold units. induction s1 as [|c s1 IH]; [done|]. simpl. by rewrite IH.
Qed.

Lemma length_units s : length (units s) = String.length s.
Proof. unfold units. rewrite length_map. induction s as [|c s IH]; [done|]. simpl. by rewrite IH. Qed.

Lemma token_ascii t : valid_token t → ascii_string t.
Proof.
  intros [_ Ha]. unfold ascii_string, units. apply Forall_map. eapply Forall_impl; [exact Ha|].
  apply Forall_forall. apply (bool_decide_unpack _). vm_compute. exact I.
Qed.

Lemma session_url_units cfg t :
  ascii_string (baseUrl cfg) → valid_token t →
  Forall (λ u, 0 ≤ u < 128) (units (session_url cfg t)) ∧
  length (units (session_url cfg t)) = (String.length (baseUrl cfg) + 6)%nat.
Proof.
  intros Hb Ht. pose proof (token_ascii t Ht) as Ha. destruct Ht as [Hl _].
  unfold session_url. rewrite !units_app, !length_app, !length_units. simpl String.length.
  rewrite Hl. split; [|unfold TOKEN_LENGTH; lia].
  apply Forall_app. split; [done|]. apply Forall_app. split; [|done]. repeat constructor; vm_compute; done.
Qed.

(** For an ASCII base URL of at most 56 characters every token's QR route
    answers 200 with a text that reads back as the session's URL; for a longer
    one it always answers 500. *)
Theorem qr_route_readable cfg t :
  ascii_string (baseUrl cfg) → valid_token t →
  if (String.length (baseUrl cfg) <=? 56)%nat then
    ∃ text, resp (qr_response cfg t) = TextUnits text ∧ status (qr_response cfg t) = 200 ∧
            qr_read (unrender text) = Some (units (session_url cfg t))
  else qr_response cfg t = error cfg 500 "Internal server error".
Proof.
  intros Hb Ht. destruct (session_url_units cfg t Hb Ht) as [Ha Hl].
  pose proof (generateQR_spec (units (session_url cfg t))) as Hq.
  rewrite utf8_encode_ascii in Hq by done. unfold qr_response.
  assert (Hu : Forall is_unit (units (session_url cfg t)))
    by (eapply Forall_impl; [exact Ha|]; unfold is_unit; simpl; intros; lia).
  specialize (Hq Hu). destruct (_ <=? 56)%nat eqn:E; bool_cases.
  - destruct (generateQR _) as [text|e]; [by exists text|]. destruct Hq as [_ Hq]. lia.
  - destruct (generateQR _) as [text|e] eqn:Eg; [|done]. exfalso.
    pose proof (generateQR_long _ _ Eg). rewrite utf8_encode_ascii in H by done. lia.
Qed.

Lemma qr_route_readable_witness :
  ascii_string (baseUrl example_config) ∧ valid_token "99999" ∧
  ∃ text, resp (qr_response example_config "99999") = TextUnits text ∧
    qr_read (unrender text) = Some (units "https://flowhelm.to/99999").
Proof.
  assert (Hb : ascii_string (baseUrl example_config))
    by (apply (bool_decide_unpack _); vm_compute; exact I).
  assert (Ht : valid_token "99999")
    by (split; [reflexivity|apply (bool_decide_unpack _); vm_compute; exact I]).
  split; [exact Hb|]. split; [exact Ht|].
  destruct (qr_route_readable example_config "99999" Hb Ht) as (text & H1 & _ & H3).
  exists text. split; [exact H1|exact H3].
Defined.
