(* ===== verification/BridgeWorkers.v ===== *)
(** * The auth bridge on Cloudflare Workers

    [services/auth-bridge-workers/src/]: the same routes as the Node server, on
    top of Workers KV.  Every operation of the store and of the limiter awaits
    the namespace, so that handlers interleave at each of them. *)

From Stdlib Require Import Ascii.
From stdpp Require Import gmap pretty.
From S2P Require Import Prelude JsMap JsString QrCode BridgeToken BridgeStore BridgeLimiter BridgeServer.

(** * Asynchronous handlers over a key-value namespace

    The Cloudflare worker of the auth bridge keeps all of its state in Workers
    KV, a service outside the repository, and awaits each operation on it.  A
    handler is a tree of its effects, and the operations of many handlers are
    interleaved.  The namespace is eventually consistent: a read may show any
    state of the past, and it may show that there is nothing.  It is an
    interface with the laws that its documentation states; a log of changes,
    of which a read misses the latest ones, implements it. *)

Local Open Scope Z_scope.

(** ** Values and namespaces *)

(** A value is the text of a session's JSON, or of a count; [None] is the text
    [NaN]. *)
Inductive kv_value :=
| SessionJson (s : SessionData)
| CountText (n : option nat).

(** Each operation takes a number for what only the service knows: the location
    that is asked, what has arrived there, and whether it fails.
    [kv_read m w t key] reads at time [t]; [None] is a rejected promise.  Of
    [kv_write], with its [expirationTtl] in seconds, and of [kv_remove] the
    second result is [false] when the promise is rejected. *)
Class KVNamespace (K : Type) := {
  kv_read : K → nat → Z → string → option (option kv_value);
  kv_write : K → nat → Z → string → kv_value → Z → K * bool;
  kv_remove : K → nat → string → K * bool }.

(** What the documentation says, with [kv_history] the values that were ever
    written: a read shows nothing, or one of the values written under the key,
    not necessarily the last; a write that is accepted counts as written, and
    one that is rejected may; an expiry of less than sixty seconds is refused. *)
Class KVLaws (K : Type) `{KVNamespace K} := {
  kv_history : K → list (string * kv_value);
  read_written m w t key v : kv_read m w t key = Some (Some v) → (key, v) ∈ kv_history m;
  write_history m w t key v ttl p : p ∈ kv_history (kv_write m w t key v ttl).1 →
    p ∈ kv_history m ∨ p = (key, v);
  write_keeps m w t key v ttl p : p ∈ kv_history m → p ∈ kv_history (kv_write m w t key v ttl).1;
  write_accepted m w t key v ttl : (kv_write m w t key v ttl).2 = true →
    (key, v) ∈ kv_history (kv_write m w t key v ttl).1;
  write_short m w t key v ttl : ttl < 60 → (kv_write m w t key v ttl).2 = false;
  remove_history m w key p : p ∈ kv_history (kv_remove m w key).1 ↔ p ∈ kv_history m }.

(** The implementation that the witnesses use: the changes, the latest first;
    the number says how many of them a read does not see yet. *)
Inductive change :=
| Put (key : string) (v : kv_value) (expires : Z)
| Removed (key : string).

Abbreviation log_kv := (list change).

Fixpoint log_lookup (m : log_kv) (t : Z) (key : string) : option kv_value :=
  match m with
  | [] => None
  | Put k v e :: m => if decide (k = key) then (if t <? e then Some v else None) else log_lookup m t key
  | Removed k :: m => if decide (k = key) then None else log_lookup m t key
  end.

#[export] Instance log_namespace : KVNamespace log_kv := {
  kv_read m w t key := Some (log_lookup (drop w m) t key);
  kv_write m w t key v ttl := if 60 <=? ttl then (Put key v (t + ttl * 1000) :: m, true) else (m, false);
  kv_remove m w key := (Removed key :: m, true) }.

Definition log_history (m : log_kv) : list (string * kv_value) :=
  omap (λ c, match c with Put k v _ => Some (k, v) | Removed _ => None end) m.

Lemma log_lookup_written m t key v : log_lookup m t key = Some v → (key, v) ∈ log_history m.
Proof.
  induction m as [|[k x e|k] m IH]; [done|simpl; case_decide as E..].
  - subst k. destruct (t <? e); [|done]. intros [= ->]. by apply elem_of_cons; left.
  - intros Hm. apply elem_of_cons; right. by apply IH.
  - done.
  - exact IH.
Qed.

Lemma log_history_drop w m p : p ∈ log_history (drop w m) → p ∈ log_history m.
Proof.
  rewrite <- (take_drop w m) at 2. unfold log_history. rewrite omap_app, elem_of_app. by right.
Qed.

#[export] Instance log_laws : KVLaws log_kv.
Proof.
  refine {| kv_history := log_history |}.
  - intros m w t key v [= E]. eapply log_history_drop, log_lookup_written, E.
  - intros m w t key v ttl p. simpl. destruct (60 <=? ttl); [|by left]. intros [->|Hp]%elem_of_cons; auto.
  - intros m w t key v ttl p Hp. simpl. destruct (60 <=? ttl); [|done]. apply elem_of_cons. by right.
  - intros m w t key v ttl. simpl. destruct (60 <=? ttl); [|done]. intros _. apply elem_of_cons. by left.
  - intros m w t key v ttl Hl. simpl. by rewrite (proj2 (Z.leb_gt _ _)) by lia.
  - done.
Defined.

(** ** Handlers *)

(** [Fresh] is [generateUniqueToken(() => false)], [Body] the parsed body. *)
Inductive prog (A : Type) : Type :=
| Ret (a : A)
| Throw
| KvGet (key : string) (k : option kv_value → prog A)
| KvPut (key : string) (v : kv_value) (ttl : Z) (k : prog A)
| KvDelete (key : string) (k : prog A)
| Now (k : Z → prog A)
| Fresh (k : string → prog A)
| Body (k : jvalue → prog A).
Arguments Ret {A} a.
Arguments Throw {A}.
Arguments KvGet {A} key k.
Arguments KvPut {A} key v ttl k.
Arguments KvDelete {A} key k.
Arguments Now {A} k.
Arguments Fresh {A} k.
Arguments Body {A} k.

(** [await p], then [f]. *)
Fixpoint bind {A B} (p : prog A) (f : A → prog B) : prog B :=
  match p with
  | Ret a => f a
  | Throw => Throw
  | KvGet key k => KvGet key (λ r, bind (k r) f)
  | KvPut key v ttl k => KvPut key v ttl (bind k f)
  | KvDelete key k => KvDelete key (bind k f)
  | Now k => Now (λ t, bind (k t) f)
  | Fresh k => Fresh (λ t, bind (k t) f)
  | Body k => Body (λ b, bind (k b) f)
  end.

Notation "'await' x ':=' p 'in' q" := (bind p (λ x, q))
  (at level 100, x name, p at level 100, q at level 200, right associativity) : fh_scope.

(** What the next effect of a handler meets: the time, the random bytes, and
    what the service decides. *)
Record input := At { time : Z; random : list Z; service : nat }.

(** [generateUniqueToken(() => false)]; [None] when the bytes run out. *)
Definition fresh_token (random : list Z) : option (result string) :=
  match generateUniqueToken (λ _ st, (false, st)) tt random with
  | Some (r, _, _) => Some r
  | None => None
  end.

(** One effect of the handler of a request with the body [b].  A rejected
    promise ends the handler; a handler that has no bytes left waits for more. *)
Definition advance {K} `{KVNamespace K} {A} (b : jvalue) (i : input) (m : K) (p : prog A) : K * prog A :=
  match p with
  | Ret _ | Throw => (m, p)
  | KvGet key k => match kv_read m (service i) (time i) key with
                   | Some r => (m, k r)
                   | None => (m, Throw)
                   end
  | KvPut key v ttl k => let '(m, ok) := kv_write m (service i) (time i) key v ttl in
                         (m, if ok then k else Throw)
  | KvDelete key k => let '(m, ok) := kv_remove m (service i) key in (m, if ok then k else Throw)
  | Now k => (m, k (time i))
  | Fresh k => match fresh_token (random i) with
               | Some (Ok t) => (m, k t)
               | Some (Err _) => (m, Throw)
               | None => (m, p)
               end
  | Body k => (m, k b)
  end.

Local Open Scope Z_scope.
Local Open Scope fh_scope.

(** ** [store.ts] *)

Definition DEFAULT_TTL_SECONDS : Z := 600.
Definition SESSION_PREFIX : string := "s:".

Definition session_key (token : string) : string := (SESSION_PREFIX ++ token)%string.

(** The text under a session's key is always the JSON of a session. *)
Definition parse_session (v : kv_value) : prog SessionData :=
  match v with SessionJson s => Ret s | CountText _ => Throw end.

Definition store_create (token key : string) : prog bool :=
  Now (λ now,
    KvPut (session_key token)
      (SessionJson (Session key (now + DEFAULT_TTL_SECONDS * 1000) None None None))
      DEFAULT_TTL_SECONDS (Ret true)).

Definition store_get (token : string) : prog (option SessionData) :=
  await raw := KvGet (session_key token) Ret in
  match raw with
  | None => Ret None
  | Some raw =>
      await session := parse_session raw in
      Now (λ now,
        if expired now session then KvDelete (session_key token) (Ret None)
        else Ret (Some session))
  end.

Definition store_has (token : string) : prog bool :=
  await s := store_get token in Ret (match s with Some _ => true | None => false end).

(** [Math.max(1, Math.floor((session.expiresAt - Date.now()) / 1000))] *)
Definition remaining_seconds (s : SessionData) (now : Z) : Z := Z.max 1 ((expiresAt s - now) / 1000).

Definition submitted (s : SessionData) (enc epk n : string) : SessionData :=
  Session (publicKey s) (expiresAt s) (Some enc) (Some epk) (Some n).

Definition store_submit (token enc epk n : string) : prog bool :=
  await session := store_get token in
  match session with
  | None => Ret false
  | Some s =>
      if opt_truthy (encrypted s) then Ret false
      else Now (λ now,
        KvPut (session_key token) (SessionJson (submitted s enc epk n)) (remaining_seconds s now)
          (Ret true))
  end.

Definition store_delete (token : string) : prog unit := KvDelete (session_key token) (Ret tt).

(** ** [rate-limit.ts] *)

Definition RL_PREFIX : string := "rl:".

Definition rate_key (key : string) (rule : RateLimitRule) (now : Z) : string :=
  (RL_PREFIX ++ key ++ ":" ++ pretty (now / windowMs rule))%string.

(** [raw ? parseInt(raw, 10) : 0], [None] for [NaN]. *)
Definition parse_count (raw : option kv_value) : option nat :=
  match raw with
  | None => Some 0%nat
  | Some (CountText n) => n
  | Some (SessionJson _) => None
  end.

Definition limiter_check (key : string) (rule : RateLimitRule) : prog bool :=
  Now (λ now,
    let kvKey := rate_key key rule now in
    let ttlSeconds := (windowMs rule + 999) / 1000 in
    KvGet kvKey (λ raw,
      let count := parse_count raw in
      if match count with Some c => (maxRequests rule <=? c)%nat | None => false end
      then Ret false
      else KvPut kvKey (CountText (S <$> count)) ttlSeconds (Ret true))).

Definition checkGlobal (rule : RateLimitRule) : prog bool := limiter_check "global" rule.

Definition limiter_remaining (key : string) (rule : RateLimitRule) : prog (option nat) :=
  Now (λ now, KvGet (rate_key key rule now) (λ raw,
    Ret ((λ c, (maxRequests rule - c)%nat) <$> parse_count raw))).

(** ** [index.ts] *)

Record worker_request := WorkerRequest {
  w_method : string;
  w_pathname : string;
  w_connecting_ip : option string;
  w_forwarded_for : option string }.

Definition w_json (st : Z) (data : list (string * jvalue)) : response :=
  Response st [("Content-Type", "application/json")]%string (Json data).

Definition w_error (st : Z) (msg : string) : response := w_json st [("error"%string, JStr msg)].

Definition w_rateLimited (ms : Z) : response :=
  Response 429 [("Content-Type", "application/json"); ("Retry-After", retry_after (Some ms))]%string
    (Json [("error", JStr "Too many requests")]%string).

Definition client_ip (req : worker_request) : string :=
  match w_connecting_ip req, w_forwarded_for req with
  | Some ip, _ => ip
  | None, Some x => trim (hd ""%string (str_split ","%char x))
  | None, None => "0.0.0.0"
  end.

Definition path_segments (req : worker_request) : list string :=
  List.filter str_truthy (str_split "/"%char (w_pathname req)).

Definition withCors (cfg : config) (r : response) : response :=
  Response (status r) (headers r ++ cors_headers cfg) (resp r).

(** [new URL(baseUrl).origin] is an argument. *)
Definition worker_config (base : string) (origin : string → string) (page : string) : config :=
  let b := strip_slash (if str_truthy base then base else "https://flowhelm.to") in
  Config b (origin b) page.

(** [None] when [JSON.parse] throws; a body that is too long counts as [null]. *)
Definition worker_body (json_parse : list Z → option jvalue) (text : list Z) : jvalue :=
  if (65536 <? Z.of_nat (length text)) then JNull else default JNull (json_parse text).

(** The loop that looks for an unused token. *)
Fixpoint pick_token (n : nat) : prog (option string) :=
  match n with
  | O => Ret None
  | S n => Fresh (λ candidate,
      await used := store_has candidate in
      if used then pick_token n else Ret (Some candidate))
  end.

Definition limited_route (cfg : config) (key : string) (rule : RateLimitRule) (next : prog response)
  : prog response :=
  await ok := limiter_check key rule in
  if negb ok then Ret (withCors cfg (w_rateLimited 60000)) else next.

Definition create_route (cfg : config) : prog response :=
  await ok := checkGlobal GLOBAL_SESSION_LIMIT in
  if negb ok then Ret (withCors cfg (w_rateLimited 60000)) else
  Body (λ body,
    match (if falsy body then None else str_field body "publicKey") with
    | Some key =>
        if negb (str_truthy key) then Ret (withCors cfg (w_error 400 "Missing or invalid publicKey"))
        else
          await token := pick_token 10 in
          match token with
          | None => Ret (withCors cfg (w_error 503 "Server at capacity"))
          | Some token =>
              await _created := store_create token key in
              await session := store_get token in
              match session with
              | Some s => Ret (withCors cfg (w_json 201
                            [("token", JStr token); ("expiresAt", JNum (expiresAt s))]%string))
              | None => Throw
              end
          end
    | None => Ret (withCors cfg (w_error 400 "Missing or invalid publicKey"))
    end).

Definition w_poll_response (s : SessionData) : response :=
  if opt_truthy (encrypted s) then
    w_json 200 (("status", JStr "ready") :: opt_entry "encrypted" (encrypted s) ++
      opt_entry "ephemeralPublicKey" (ephemeralPublicKey s) ++ opt_entry "nonce" (nonce s))%string
  else w_json 200 [("status", JStr "pending")]%string.

Definition session_or_404 (cfg : config) (token : string) (found : SessionData → prog response)
  : prog response :=
  await session := store_get token in
  match session with
  | Some s => found s
  | None => Ret (withCors cfg (w_error 404 not_found))
  end.

Definition poll_route (cfg : config) (token : string) : prog response :=
  session_or_404 cfg token (λ s, Ret (withCors cfg (w_poll_response s))).

Definition submit_route (cfg : config) (token : string) : prog response :=
  Body (λ body,
    match falsy body, str_field body "encrypted", str_field body "ephemeralPublicKey",
          str_field body "nonce" with
    | false, Some e, Some k, Some n =>
        await ok := store_submit token e k n in
        Ret (withCors cfg (if ok then w_json 200 [("status", JStr "ok")]%string
                           else w_error 404 "Session not found, expired, or already submitted"))
    | _, _, _, _ =>
        Ret (withCors cfg (w_error 400 "Missing encrypted, ephemeralPublicKey, or nonce"))
    end).

Definition qr_route (cfg : config) (token : string) : prog response :=
  session_or_404 cfg token (λ _,
    match generateQR (units (session_url cfg token)) with
    | Ok text => Ret (withCors cfg (Response 200
        [("Content-Type", "text/plain; charset=utf-8"); ("Cache-Control", "no-store")]%string
        (TextUnits text)))
    | Err _ => Throw
    end).

Definition page_route (cfg : config) (token : string) : prog response :=
  await session := store_get token in
  match session with
  | None => Ret (Response 404 [("Content-Type", "text/plain;charset=UTF-8")]%string
                   (Text "Session not found or expired."))
  | Some _ => Ret (withCors cfg (Response 200
      [("Content-Type", "text/html; charset=utf-8"); ("Cache-Control", "no-store")]%string
      (Text (replace_first "{{BASE_URL}}" (baseUrl cfg)
        (replace_first "{{TOKEN}}" token (authPageHtml cfg))))))
  end.

Definition redirect_route (cfg : config) (token : string) : prog response :=
  if bool_decide (token ∈ ["favicon.ico"; "robots.txt"]%string) then Ret (Response 404 [] Empty)
  else session_or_404 cfg token (λ s,
    Ret (Response 302 [("Location"%string,
      (baseUrl cfg ++ "/a/" ++ token ++ "#pk=" ++ encodeURIComponent (publicKey s))%string)] Empty)).

Definition handleRequest (cfg : config) (req : worker_request) : prog response :=
  let segments := path_segments req in
  let ip := client_ip req in
  let is_method (m : string) := bool_decide (w_method req = m) in
  let segment (i : nat) := nth i segments ""%string in
  (if is_method "OPTIONS" then Ret (withCors cfg (Response 204 [] Empty))
  else if bool_decide (w_pathname req = "/health") && is_method "GET" then
    Ret (withCors cfg (w_json 200 [("status", JStr "ok")]))
  else if session_route segments 2 && is_method "POST" then
    limited_route cfg ("create:" ++ ip) sessionCreate (create_route cfg)
  else if session_route segments 4 && is_seg segments 3 "poll" && is_method "GET" then
    limited_route cfg ("poll:" ++ ip) poll (poll_route cfg (segment 2%nat))
  else if session_route segments 3 && is_method "POST" then
    limited_route cfg ("submit:" ++ ip) submit (submit_route cfg (segment 2%nat))
  else if session_route segments 3 && is_method "DELETE" then
    await _deleted := store_delete (segment 2%nat) in
    Ret (withCors cfg (w_json 200 [("status", JStr "deleted")]))
  else if is_seg segments 0 "qr" && (length segments =? 2)%nat && is_method "GET" then
    limited_route cfg ("qr:" ++ ip) qr (qr_route cfg (segment 1%nat))
  else if is_seg segments 0 "a" && (length segments =? 2)%nat && is_method "GET" then
    page_route cfg (segment 1%nat)
  else if (length segments =? 1)%nat && is_method "GET" then
    redirect_route cfg (segment 0%nat)
  else Ret (withCors cfg (w_error 404 "Not found")))%string.

(** The wrapper [fetch]: the answer of a handler that has ended. *)
Definition fetch_answer (p : prog response) : option response :=
  match p with
  | Ret r => Some r
  | Throw => Some (w_error 500 "Internal server error")
  | _ => None
  end.

(** ** Runs of the worker *)

(** A request in progress: its body, the namespace and the input that each of
    its effects has met, in their order, and what is left of its handler. *)
Record call (K : Type) := Call {
  asked : worker_request;
  asked_body : jvalue;
  met : list (K * input);
  left : prog response }.
Arguments Call {K} asked asked_body met left.
Arguments asked {K} c.
Arguments asked_body {K} c.
Arguments met {K} c.
Arguments left {K} c.

(** [Start] is the arrival of a request, [Step] the next effect of one. *)
Inductive event :=
| Start (id : nat) (req : worker_request) (b : jvalue)
| Step (id : nat) (i : input).

Record system (K : Type) := System { namespace : K; running : gmap nat (call K) }.
Arguments System {K} namespace running.
Arguments namespace {K} s.
Arguments running {K} s.

Definition step {K} `{KVNamespace K} (cfg : config) (s : system K) (ev : event) : system K :=
  match ev with
  | Start id req b => System (namespace s) (<[id := Call req b [] (handleRequest cfg req)]> (running s))
  | Step id i =>
      match running s !! id with
      | Some c =>
          let '(m, p) := advance (asked_body c) i (namespace s) (left c) in
          System m (<[id := Call (asked c) (asked_body c) (met c ++ [(namespace s, i)]) p]> (running s))
      | None => s
      end
  end.

Definition run {K} `{KVNamespace K} (cfg : config) (s : system K) (evs : list event) : system K :=
  foldl (step cfg) s evs.

(** The answer of the request [id], once there is one. *)
Definition answer {K} (s : system K) (id : nat) : option response :=
  c ← running s !! id; fetch_answer (left c).

(** What is left of a handler after its effects have met [xs]. *)
Definition alone {K} `{KVNamespace K} {A} (b : jvalue) (xs : list (K * input)) (p : prog A) : prog A :=
  foldl (λ p x, (advance b x.2 x.1 p).2) p xs.

(** ** Requests and their fields *)

Definition submit_request (req : worker_request) (t : string) : Prop :=
  w_method req = "POST"%string ∧ path_segments req = ["api"; "session"; t]%string.

Definition poll_request (req : worker_request) (t : string) : Prop :=
  w_method req = "GET"%string ∧ path_segments req = ["api"; "session"; t; "poll"]%string.

#[export] Instance submit_request_dec req t : Decision (submit_request req t).
Proof. unfold submit_request. apply _. Defined.
#[export] Instance poll_request_dec req t : Decision (poll_request req t).
Proof. unfold poll_request. apply _. Defined.

Definition submission (b : jvalue) (e k n : string) : Prop :=
  falsy b = false ∧ str_field b "encrypted" = Some e ∧ str_field b "ephemeralPublicKey" = Some k ∧
  str_field b "nonce" = Some n.

(** One of the requests submits [e], [k] and [n] to the session [t]. *)
Definition brought (evs : list event) (t e k n : string) : Prop :=
  ∃ id req b, Start id req b ∈ evs ∧ submit_request req t ∧ submission b e k n.

(** The JSON answer with the status [st]. *)
Definition answers (r : response) (st : Z) (data : list (string * jvalue)) : Prop :=
  status r = st ∧ resp r = Json data.

Definition ready (r : response) (e k n : string) : Prop :=
  answers r 200 [("status", JStr "ready"); ("encrypted", JStr e); ("ephemeralPublicKey", JStr k);
    ("nonce", JStr n)]%string.

Lemma not_health req : w_pathname req = "/health"%string → path_segments req = ["health"]%string.
Proof. intros E. unfold path_segments. rewrite E. reflexivity. Qed.

Lemma submit_dispatch cfg req t : submit_request req t →
  handleRequest cfg req = limited_route cfg ("submit:" ++ client_ip req) submit (submit_route cfg t).
Proof.
  intros [Hm Hp]. assert (Hh := not_health req). unfold handleRequest. rewrite Hm, Hp.
  rewrite (bool_decide_false (w_pathname _ = _)) by (intros E; apply Hh in E; congruence). reflexivity.
Qed.

Lemma poll_dispatch cfg req t : poll_request req t →
  handleRequest cfg req = limited_route cfg ("poll:" ++ client_ip req) poll (poll_route cfg t).
Proof.
  intros [Hm Hp]. assert (Hh := not_health req). unfold handleRequest. rewrite Hm, Hp.
  rewrite (bool_decide_false (w_pathname _ = _)) by (intros E; apply Hh in E; congruence). reflexivity.
Qed.

Lemma session_route_3 segments : session_route segments 3 = true →
  segments = ["api"; "session"; nth 2 segments ""]%string.
Proof.
  unfold session_route, is_seg. rewrite !andb_true_iff, !bool_decide_eq_true, Nat.eqb_eq.
  intros [[H0 H1] Hl]. destruct segments as [|a [|b [|c [|]]]]; try done.
  simpl in *. by simplify_eq.
Qed.

Lemma session_key_inj t t' : session_key t = session_key t' → t = t'.
Proof. apply string_app_inj. Qed.

(** ** What a handler may write, and what it answers *)

Section Obeys.
Context (S : string → kv_value → Prop) (b : jvalue).

(** Whatever the reads show, as long as [S] holds of it: [S] holds of what the
    handler writes, and what it returns after the writes [W] satisfies [Q]. *)
Fixpoint obeys {A} (Q : list (string * kv_value) → A → Prop) (p : prog A)
    (W : list (string * kv_value)) : Prop :=
  match p with
  | Ret a => Q W a
  | Throw => True
  | KvGet key k => ∀ r, (∀ v, r = Some v → S key v) → obeys Q (k r) W
  | KvPut key v _ k => S key v ∧ obeys Q k ((key, v) :: W)
  | KvDelete _ k => obeys Q k W
  | Now k => ∀ t, obeys Q (k t) W
  | Fresh k => ∀ t, obeys Q (k t) W
  | Body k => obeys Q (k b) W
  end.

Lemma obeys_bind {A B} (p : prog A) (f : A → prog B) R Q W :
  obeys R p W → (∀ W a, R W a → obeys Q (f a) W) → obeys Q (bind p f) W.
Proof.
  intros Hp Hf. revert W Hp. induction p; simpl; intros W Hp; try (intros; eauto; fail).
  destruct Hp; eauto.
Qed.

Lemma obeys_mono {A} (p : prog A) (R Q : list (string * kv_value) → A → Prop) W :
  obeys R p W → (∀ W a, R W a → Q W a) → obeys Q p W.
Proof.
  intros Hp HQ. revert W Hp. induction p; simpl; intros W Hp; try (intros; eauto; fail).
  destruct Hp; eauto.
Qed.

Context {K : Type} `{KVLaws K}.

Definition all_sound (m : K) : Prop := ∀ p, p ∈ kv_history m → S p.1 p.2.

Lemma advance_obeys {A} (p : prog A) Q W i m :
  obeys Q p W → all_sound m → (∀ x, x ∈ W → x ∈ kv_history m) →
  let '(m', p') := advance b i m p in
  all_sound m' ∧ (∀ x, x ∈ kv_history m → x ∈ kv_history m') ∧
  ∃ W', obeys Q p' W' ∧ ∀ x, x ∈ W' → x ∈ kv_history m'.
Proof.
  intros Hp Hm HW. destruct p as [a| |key k|key v ttl k|key k|k|k|k]; simpl in *; eauto.
  - destruct (kv_read m (service i) (time i) key) as [r|] eqn:E;
      [|split; [done|split; [done|by exists W]]].
    split; [done|]. split; [done|]. exists W. split; [|done]. apply Hp. intros v ->.
    apply (Hm (key, v)). eapply read_written, E.
  - destruct Hp as [Hv Hp]. destruct (kv_write m (service i) (time i) key v ttl) as [m' ok] eqn:E.
    pose proof (λ p, write_history m (service i) (time i) key v ttl p) as Hh.
    pose proof (λ p, write_keeps m (service i) (time i) key v ttl p) as Hk.
    pose proof (write_accepted m (service i) (time i) key v ttl) as Ha.
    rewrite E in Hh, Hk, Ha. simpl in Hh, Hk, Ha. split; [|split; [done|]].
    + intros p Hin. apply Hh in Hin as [Hin| ->]; auto.
    + destruct ok; [|exists W; split; [exact I|auto]]. exists ((key, v) :: W). split; [done|].
      intros x [->|Hx]%elem_of_cons; auto.
  - destruct (kv_remove m (service i) key) as [m' ok] eqn:E.
    pose proof (λ p, remove_history m (service i) key p) as Hh. rewrite E in Hh. simpl in Hh.
    split; [intros p Hin; apply Hm; by apply Hh|]. split; [intros p; apply Hh|].
    exists W. split; [by destruct ok|]. intros x Hx. apply Hh; auto.
  - destruct (fresh_token (random i)) as [[t|]|]; simpl; eauto.
Qed.
End Obeys.

(** ** Sessions hold what was submitted to them *)

Section Sound.
Context (E : list event).

(** A session is stored under its own key, without credentials or with those
    of one submission to it. *)
Definition sound (key : string) (v : kv_value) : Prop :=
  match v with
  | CountText _ => True
  | SessionJson s =>
      (encrypted s = None ∧ ephemeralPublicKey s = None ∧ nonce s = None) ∨
      ∃ t e k n, key = session_key t ∧ brought E t e k n ∧
        encrypted s = Some e ∧ ephemeralPublicKey s = Some k ∧ nonce s = Some n
  end.

#[local] Arguments sound key v : simpl never.
#[local] Arguments store_get token : simpl never.
#[local] Arguments store_create token key : simpl never.
#[local] Arguments store_has token : simpl never.
#[local] Arguments store_submit token enc epk n : simpl never.
#[local] Arguments limiter_check key rule : simpl never.

Section Handlers.
Context (b : jvalue).
Notation safe := (obeys sound b).

(** Past an awaited part. *)
Local Ltac past H := apply (obeys_bind _ _ _ _ _ _ _ H).

Lemma store_get_safe t W :
  safe (λ W r, ∀ s, r = Some s → sound (session_key t) (SessionJson s)) (store_get t) W.
Proof.
  unfold store_get. simpl. intros [[s|]|] Hr; simpl; [|exact I|done].
  intros now. destruct (expired now s); simpl; [done|]. intros s' [= <-]. by apply (Hr (SessionJson s)).
Qed.

Lemma store_has_safe t W : safe (λ _ _, True) (store_has t) W.
Proof. past (store_get_safe t W). done. Qed.

Lemma limiter_safe key rule W : safe (λ _ _, True) (limiter_check key rule) W.
Proof.
  unfold limiter_check. cbn [obeys]. intros now raw _.
  match goal with |- obeys _ _ _ (if ?c then _ else _) _ => destruct c end; [exact I|by split].
Qed.

Lemma limited_safe cfg key rule next Q W : (∀ W, safe Q next W) →
  (∀ W, Q W (withCors cfg (w_rateLimited 60000))) → safe Q (limited_route cfg key rule next) W.
Proof. intros Hn Hq. past (limiter_safe key rule W). intros W' [] _; [apply Hn|apply Hq]. Qed.

Lemma session_or_404_safe cfg t found Q W :
  (∀ W s, sound (session_key t) (SessionJson s) → safe Q (found s) W) →
  (∀ W, Q W (withCors cfg (w_error 404 not_found))) → safe Q (session_or_404 cfg t found) W.
Proof.
  intros Hf Hq. past (store_get_safe t W). intros W' [s|] Hs; [apply Hf; by apply Hs|apply Hq].
Qed.

Lemma pick_token_safe n W : safe (λ _ _, True) (pick_token n) W.
Proof.
  revert W. induction n as [|n IH]; intros W; [done|]. intros c.
  past (store_has_safe c W). intros W' [] _; [apply IH|exact I].
Qed.

Lemma store_create_safe t key W : safe (λ _ _, True) (store_create t key) W.
Proof. intros now. split; [by left|exact I]. Qed.

Lemma create_safe cfg W : safe (λ _ _, True) (create_route cfg) W.
Proof.
  past (limiter_safe "global" GLOBAL_SESSION_LIMIT W). intros W1 [] _; [|exact I].
  cbn [obeys negb].
  destruct (if falsy b then None else _) as [key|]; [|exact I]. destruct (str_truthy key); [|exact I].
  past (pick_token_safe 10 W1). intros W2 [c|] _; [|exact I].
  past (store_create_safe c key W2). intros W3 _ _.
  past (store_get_safe c W3). intros W4 [s|] _; exact I.
Qed.

Lemma store_submit_safe t e k n W : brought E t e k n →
  safe (λ W ok, ok = true → ∃ pk x,
    (session_key t, SessionJson (Session pk x (Some e) (Some k) (Some n))) ∈ W)
    (store_submit t e k n) W.
Proof.
  intros Hb. past (store_get_safe t W). intros W' [s|] _; [|done].
  destruct (opt_truthy (encrypted s)); [done|]. intros now. split; [right; by exists t, e, k, n|].
  intros _. exists (publicKey s), (expiresAt s). apply elem_of_cons. by left.
Qed.

(** A submission that is answered 200 has written its session. *)
Definition submit_ok (t : string) (W : list (string * kv_value)) (r : response) : Prop :=
  status r = 200 → ∃ e k n pk x, submission b e k n ∧
    (session_key t, SessionJson (Session pk x (Some e) (Some k) (Some n))) ∈ W.

Lemma submit_safe cfg t W : (∀ e k n, submission b e k n → brought E t e k n) →
  safe (submit_ok t) (submit_route cfg t) W.
Proof.
  intros Hb. simpl. destruct (falsy b) eqn:Ef; [done|].
  destruct (str_field b "encrypted") as [e|] eqn:Ee, (str_field b "ephemeralPublicKey") as [k|] eqn:Ek,
    (str_field b "nonce") as [n|] eqn:En; try done.
  assert (Hs : submission b e k n) by done.
  past (store_submit_safe t e k n W (Hb _ _ _ Hs)). intros W' [] Hok Hst; [|done].
  destruct (Hok eq_refl) as (pk & x & Hin). by exists e, k, n, pk, x.
Qed.

(** What a poll may be answered. *)
Definition poll_ok (t : string) (r : response) : Prop :=
  answers r 429 [("error", JStr "Too many requests")]%string ∨
  answers r 404 [("error", JStr "Session not found or expired")]%string ∨
  answers r 200 [("status", JStr "pending")]%string ∨
  ∃ e k n, brought E t e k n ∧ ready r e k n.

Lemma poll_safe cfg t W : safe (λ _, poll_ok t) (poll_route cfg t) W.
Proof.
  apply session_or_404_safe; [|by right; left]. intros W' s Hs. simpl. unfold w_poll_response.
  destruct (opt_truthy (encrypted s)) eqn:Et; [|by right; right; left].
  right; right; right. destruct Hs as [[He _]|(t' & e & k & n & Hk & Hb & -> & -> & ->)].
  { by rewrite He in Et. }
  apply session_key_inj in Hk as <-. by exists e, k, n.
Qed.

Lemma request_safe cfg req W : (∀ t e k n, submit_request req t → submission b e k n → brought E t e k n) →
  safe (λ _ _, True) (handleRequest cfg req) W.
Proof.
  intros Hb. destruct (decide (submit_request req (nth 2 (path_segments req) ""%string))) as [Hs|Hs].
  { rewrite (submit_dispatch _ _ _ Hs). apply limited_safe; [|done]. intros W'.
    eapply obeys_mono; [apply submit_safe|done]. intros e k n. by apply Hb. }
  unfold handleRequest. repeat case_match; try exact I.
  - apply limited_safe; [apply create_safe|done].
  - apply limited_safe; [|done]. intros W'. by apply session_or_404_safe.
  - exfalso. apply Hs. bool_cases. split; [naive_solver|].
    by apply session_route_3.
  - apply limited_safe; [|done]. intros W'. apply session_or_404_safe; [|done].
    intros W2 s _. by case_match.
  - past (store_get_safe (nth 1 (path_segments req) ""%string) W). intros W' [s|] _; exact I.
  - unfold redirect_route. case_match; [exact I|]. by apply session_or_404_safe.
Qed.
End Handlers.
End Sound.

(** ** What holds of a run *)

Section Run.
Context {K : Type} `{KVLaws K} (cfg : config) (m0 : K) (Hfresh : kv_history m0 = []) (E : list event).

(** Every value written is sound, and a request in progress has come where its
    effects have brought it, with its writes in the namespace. *)
Record run_ok (Q : worker_request → jvalue → list (string * kv_value) → response → Prop)
    (s : system K) : Prop := {
  ro_history : all_sound (sound E) (namespace s);
  ro_calls id c : running s !! id = Some c →
    left c = alone (asked_body c) (met c) (handleRequest cfg (asked c)) ∧
    ∃ W, obeys (sound E) (asked_body c) (Q (asked c) (asked_body c)) (left c) W ∧
      ∀ x, x ∈ W → x ∈ kv_history (namespace s) }.

Lemma step_run_ok Q s ev : run_ok Q s →
  (∀ id req b, ev = Start id req b → obeys (sound E) b (Q req b) (handleRequest cfg req) []) →
  run_ok Q (step cfg s ev).
Proof.
  intros [Hh Hc] Hq. destruct ev as [id req b|id i]; simpl.
  - split; [exact Hh|]. simpl. intros id' c [[<- <-]|[_ Hc']]%lookup_insert_Some; [|by apply (Hc id')].
    simpl. split; [done|]. exists []. split; [by apply (Hq id)|]. intros x Hx. by apply not_elem_of_nil in Hx.
  - destruct (running s !! id) as [c|] eqn:Ec; [|done]. destruct (Hc _ _ Ec) as (Hl & W & Ho & HW).
    pose proof (advance_obeys (sound E) (asked_body c) (left c) _ W i (namespace s) Ho Hh HW) as Ha.
    destruct (advance (asked_body c) i (namespace s) (left c)) as [m' p'] eqn:Ea.
    destruct Ha as (Hh' & Hmono & W' & Ho' & HW'). split; [exact Hh'|]. simpl.
    intros id' c' [[<- <-]|[_ Hc']]%lookup_insert_Some; simpl.
    + split; [|by exists W']. unfold alone. rewrite foldl_app. simpl.
      change (foldl _ _ (met c)) with (alone (asked_body c) (met c) (handleRequest cfg (asked c))).
      by rewrite <- Hl, Ea.
    + destruct (Hc _ _ Hc') as (Hl' & W2 & Ho2 & HW2). split; [done|]. exists W2. split; [done|].
      intros x Hx. by apply Hmono, HW2.
Qed.

Lemma run_is_ok Q :
  (∀ id req b, Start id req b ∈ E → obeys (sound E) b (Q req b) (handleRequest cfg req) []) →
  run_ok Q (run cfg (System m0 ∅) E).
Proof.
  intros Hq. unfold run. assert (HE : ∀ ev, ev ∈ E → ev ∈ E) by done. revert HE.
  assert (Hs : run_ok Q (System m0 ∅)).
  { split; simpl; [|intros id c Hc; by rewrite lookup_empty in Hc].
    intros p Hp. rewrite Hfresh in Hp. by apply not_elem_of_nil in Hp. }
  revert Hs. generalize (System m0 ∅). generalize E at 1 3 as evs.
  induction evs as [|ev evs IH]; intros s Hs HE; [done|]. simpl. apply IH.
  - apply step_run_ok; [done|]. intros id req b ->. apply (Hq id), HE, elem_of_cons. by left.
  - intros ev' Hev. apply HE, elem_of_cons. by right.
Qed.

Lemma brought_here id req b t e k n : Start id req b ∈ E → submit_request req t →
  submission b e k n → brought E t e k n.
Proof. intros; by exists id, req, b. Qed.

(** The request [c] has ended with the answer [r]. *)
Lemma answered_ok Q id c r :
  (∀ id req b, Start id req b ∈ E → obeys (sound E) b (Q req b) (handleRequest cfg req) []) →
  let s := run cfg (System m0 ∅) E in
  running s !! id = Some c → fetch_answer (left c) = Some r →
  answers r 500 [("error", JStr "Internal server error")]%string ∨
  ∃ W, Q (asked c) (asked_body c) W r ∧ ∀ x, x ∈ W → x ∈ kv_history (namespace s).
Proof.
  intros Hq s Hc Hr. destruct (ro_calls _ _ (run_is_ok Q Hq) id c Hc) as (_ & W & Ho & HW).
  destruct (left c) as [a| | | | | | |]; try done; injection Hr as <-; [right|by left].
  by exists W.
Qed.

Lemma poll_answered id c t r : running (run cfg (System m0 ∅) E) !! id = Some c →
  poll_request (asked c) t → fetch_answer (left c) = Some r →
  answers r 500 [("error", JStr "Internal server error")]%string ∨ poll_ok E t r.
Proof.
  intros Hc Hp Hr.
  destruct (answered_ok (λ req _ _ r, poll_request req t → poll_ok E t r) id c r) as [H5|(W & HQ & _)]; auto.
  intros id' req b Hs. destruct (decide (poll_request req t)) as [Hp'|Hn].
  - rewrite (poll_dispatch _ _ _ Hp'). eapply obeys_mono; [|intros ? ? Hx _; exact Hx].
    apply (limited_safe E b cfg _ _ _ (λ _, poll_ok E t)); [intros; apply poll_safe|by left].
  - eapply obeys_mono; [apply request_safe|by intros]. intros t' e k n. by apply (brought_here id').
Qed.

Lemma submit_answered id c t r : running (run cfg (System m0 ∅) E) !! id = Some c →
  submit_request (asked c) t → fetch_answer (left c) = Some r → status r = 200 →
  ∃ e k n pk x, submission (asked_body c) e k n ∧
    (session_key t, SessionJson (Session pk x (Some e) (Some k) (Some n))) ∈
      kv_history (namespace (run cfg (System m0 ∅) E)).
Proof.
  intros Hc Hp Hr Hst.
  destruct (answered_ok (λ req b W r, submit_request req t → submit_ok b t W r) id c r)
    as [[H5 _]|(W & HQ & HW)]; auto; [|by rewrite Hst in H5|].
  - intros id' req b Hs. destruct (decide (submit_request req t)) as [Hp'|Hn].
    + rewrite (submit_dispatch _ _ _ Hp'). eapply obeys_mono; [|intros ? ? Hx _; exact Hx].
      apply limited_safe; [|done]. intros W. apply submit_safe. intros e k n. by apply (brought_here id' req).
    + eapply obeys_mono; [apply request_safe|by intros]. intros t' e k n. by apply (brought_here id').
  - destruct (HQ Hp Hst) as (e & k & n & pk & x & Hsub & Hin). exists e, k, n, pk, x. auto.
Qed.

Lemma call_alone id c : running (run cfg (System m0 ∅) E) !! id = Some c →
  left c = alone (asked_body c) (met c) (handleRequest cfg (asked c)).
Proof.
  intros Hc. apply (ro_calls (λ _ _ _ _, True) _ (run_is_ok _ (λ id req b Hs,
    request_safe E b cfg req [] (λ t e k n, brought_here id req b t e k n Hs))) id c Hc).
Qed.
End Run.

(** ** The effects of one request *)

Section Effects.
Context {K : Type} `{KVNamespace K}.

(** A read that met [x] has shown [v]; a write that met [x] is accepted. *)
Definition shown (x : K * input) (key : string) (v : option kv_value) : Prop :=
  kv_read x.1 (service x.2) (time x.2) key = Some v.

Definition accepted (x : K * input) (key : string) (v : kv_value) (ttl : Z) : Prop :=
  (kv_write x.1 (service x.2) (time x.2) key v ttl).2 = true.

(** The limiter finds fewer than [limit] requests counted under [name] in this
    minute, and counts one more. *)
Definition let_through (name : string) (limit : nat) (x1 x2 x3 : K * input) : Prop :=
  ∃ (c : nat) (key : string), key = ("rl:" ++ name ++ ":" ++ pretty (time x1.2 / 60000))%string ∧
    (c < limit)%nat ∧ (shown x2 key None ∧ c = 0%nat ∨ shown x2 key (Some (CountText (Some c)))) ∧
    accepted x3 key (CountText (Some (S c))) 60.

Lemma alone_ret {A} b xs (a : A) : alone (K := K) b xs (Ret a) = Ret a.
Proof. by induction xs. Qed.

Lemma alone_throw {A} b xs : alone (K := K) b xs (@Throw A) = Throw.
Proof. by induction xs. Qed.

Lemma limited_alone cfg name limit x1 x2 x3 xs b next :
  let_through name limit x1 x2 x3 →
  alone b (x1 :: x2 :: x3 :: xs) (limited_route cfg name (Rule limit 60000) next) = alone b xs next.
Proof.
  intros (c & key & Hkey & Hc & Hs & Ha). unfold limited_route, limiter_check, rate_key.
  unfold alone. cbn [foldl advance bind fst snd windowMs maxRequests]. fold (time x1.2).
  change (RL_PREFIX ++ name ++ ":" ++ pretty (time x1.2 / 60000))%string
    with ("rl:" ++ name ++ ":" ++ pretty (time x1.2 / 60000))%string. rewrite <- Hkey.
  assert (Hr : ∃ raw, shown x2 key raw ∧ parse_count raw = Some c).
  { destruct Hs as [[Hs ->]|Hs]; eexists; by split. }
  destruct Hr as (raw & Hs' & Hp). unfold shown in Hs'. rewrite Hs'. cbn [fst snd]. rewrite Hp.
  rewrite (proj2 (Nat.leb_gt _ _) Hc). cbn [bind advance].
  unfold accepted in Ha. change ((60000 + 999) / 1000) with 60. simpl fmap.
  destruct (kv_write _ _ _ _ _ _) as [m' ok]. simpl in Ha. by subst ok.
Qed.

Lemma store_get_alone {A} (f : option SessionData → prog A) x1 x2 xs b t s :
  shown x1 (session_key t) (Some (SessionJson s)) → time x2.2 ≤ expiresAt s →
  alone b (x1 :: x2 :: xs) (bind (store_get t) f) = alone b xs (f (Some s)).
Proof.
  intros Hs Ht. unfold alone, store_get. cbn [foldl advance bind fst snd]. unfold shown in Hs. rewrite Hs.
  cbn [fst snd bind parse_session advance]. unfold expired. by rewrite (proj2 (Z.ltb_ge _ _)) by lia.
Qed.

Lemma poll_alone cfg req t s e k n x1 x2 x3 x4 x5 xs b :
  poll_request req t → let_through ("poll:" ++ client_ip req) 30 x1 x2 x3 →
  shown x4 (session_key t) (Some (SessionJson s)) → time x5.2 ≤ expiresAt s →
  encrypted s = Some e → e ≠ ""%string → ephemeralPublicKey s = Some k → nonce s = Some n →
  ∃ r, alone b (x1 :: x2 :: x3 :: x4 :: x5 :: xs) (handleRequest cfg req) = Ret r ∧ ready r e k n.
Proof.
  intros Hp Hl Hs Ht He Hne Hk Hn. rewrite (poll_dispatch _ _ _ Hp), (limited_alone _ _ _ _ _ _ _ _ _ Hl).
  unfold poll_route, session_or_404. rewrite (store_get_alone _ _ _ _ _ _ _ Hs Ht), alone_ret.
  eexists. split; [reflexivity|]. unfold w_poll_response. rewrite He, Hk, Hn.
  assert (Ht' : opt_truthy (Some e) = true) by by destruct e. by rewrite Ht'.
Qed.

Lemma submit_alone cfg req t s e k n x1 x2 x3 x4 x5 x6 x7 x8 xs b :
  submit_request req t → let_through ("submit:" ++ client_ip req) 3 x1 x2 x3 →
  submission b e k n →
  shown x5 (session_key t) (Some (SessionJson s)) → time x6.2 ≤ expiresAt s →
  opt_truthy (encrypted s) = false →
  alone b (x1 :: x2 :: x3 :: x4 :: x5 :: x6 :: x7 :: x8 :: xs) (handleRequest cfg req) =
  if (kv_write x8.1 (service x8.2) (time x8.2) (session_key t)
        (SessionJson (Session (publicKey s) (expiresAt s) (Some e) (Some k) (Some n)))
        (remaining_seconds s (time x7.2))).2
  then Ret (withCors cfg (w_json 200 [("status", JStr "ok")]%string)) else Throw.
Proof.
  intros Hp Hl (Hf & He & Hk & Hn) Hs Ht Hc.
  rewrite (submit_dispatch _ _ _ Hp), (limited_alone _ _ _ _ _ _ _ _ _ Hl).
  unfold submit_route, alone, store_submit, store_get. cbn [foldl advance fst snd].
  rewrite Hf, He, Hk, Hn. cbn [foldl advance bind fst snd]. unfold shown in Hs. rewrite Hs.
  cbn [fst snd bind parse_session advance]. unfold expired. rewrite (proj2 (Z.ltb_ge _ _)) by lia.
  cbn [bind]. rewrite Hc. cbn [bind advance fst snd]. unfold submitted.
  destruct (kv_write _ _ _ _ _ _) as [m' [|]]; cbn [fst snd bind];
    [apply alone_ret|apply alone_throw].
Qed.

Lemma submit_refused_alone cfg req t v e k n x1 x2 x3 x4 x5 x6 xs b :
  submit_request req t → let_through ("submit:" ++ client_ip req) 3 x1 x2 x3 →
  submission b e k n → shown x5 (session_key t) v →
  (v = None ∨ ∃ s, v = Some (SessionJson s) ∧ time x6.2 ≤ expiresAt s ∧ opt_truthy (encrypted s) = true) →
  alone b (x1 :: x2 :: x3 :: x4 :: x5 :: x6 :: xs) (handleRequest cfg req) =
  Ret (withCors cfg (w_error 404 "Session not found, expired, or already submitted")).
Proof.
  intros Hp Hl (Hf & He & Hk & Hn) Hs Hv.
  rewrite (submit_dispatch _ _ _ Hp), (limited_alone _ _ _ _ _ _ _ _ _ Hl).
  unfold submit_route, alone, store_submit, store_get. cbn [foldl advance fst snd].
  rewrite Hf, He, Hk, Hn. cbn [foldl advance bind fst snd]. unfold shown in Hs. rewrite Hs.
  destruct Hv as [->|(s & -> & Ht & Hc)]; cbn [fst snd bind parse_session advance].
  { apply alone_ret. }
  unfold expired. rewrite (proj2 (Z.ltb_ge _ _)) by lia. cbn [bind]. rewrite Hc. apply alone_ret.
Qed.

(** The handler ends after at most [n] effects. *)
Fixpoint within {A} (n : nat) (p : prog A) : Prop :=
  match p, n with
  | (Ret _ | Throw), _ => True
  | KvGet _ k, S n => ∀ r, within n (k r)
  | KvPut _ _ _ k, S n => within n k
  | KvDelete _ k, S n => within n k
  | Now k, S n => ∀ t, within n (k t)
  | Body k, S n => ∀ b, within n (k b)
  | _, _ => False
  end.

Lemma within_alone (p : prog response) n b xs : within n p → (n <= length xs)%nat →
  ∃ r, fetch_answer (alone (K := K) b xs p) = Some r.
Proof.
  revert p n. induction xs as [|x xs IH]; intros p n Hp Hn; simpl in Hn.
  - assert (n = 0%nat) as -> by lia. destruct p; try done; by eexists.
  - destruct p as [a| |key k|key v ttl k|key k|k|k|k];
      [rewrite alone_ret; by eexists|rewrite alone_throw; by eexists|..];
      (destruct n as [|n]; [done|]); try done;
      change (alone b (x :: xs) ?p) with (alone b xs (advance b x.2 x.1 p).2); simpl in Hp; cbn [advance].
    + destruct (kv_read _ _ _ _); [apply (IH _ n); [apply Hp|lia]|].
      cbn [snd]. rewrite alone_throw. by eexists.
    + destruct (kv_write _ _ _ _ _ _) as [m []]; [apply (IH _ n); [apply Hp|lia]|].
      cbn [snd]. rewrite alone_throw. by eexists.
    + destruct (kv_remove _ _ _) as [m []]; [apply (IH _ n); [apply Hp|lia]|].
      cbn [snd]. rewrite alone_throw. by eexists.
    + apply (IH _ n); [apply Hp|lia].
    + apply (IH _ n); [apply Hp|lia].
Qed.

Lemma limited_within cfg key rule next n : within n next →
  within (S (S (S n))) (limited_route cfg key rule next).
Proof.
  intros Hn. unfold limited_route, limiter_check. cbn [bind within]. intros t raw.
  match goal with |- context [if ?c then Ret false else _] => destruct c end; [exact I|exact Hn].
Qed.

Lemma poll_within cfg req t : poll_request req t → within 6 (handleRequest cfg req).
Proof.
  intros Hp. rewrite (poll_dispatch _ _ _ Hp). apply limited_within.
  intros [[s|]|]; [|exact I..]. intros now. cbn [bind]. destruct (expired now s); exact I.
Qed.

Lemma submit_within cfg req t : submit_request req t → within 8 (handleRequest cfg req).
Proof.
  intros Hp. rewrite (submit_dispatch _ _ _ Hp). apply limited_within.
  intros b. destruct (falsy b); [exact I|].
  destruct (str_field b "encrypted") as [e|], (str_field b "ephemeralPublicKey") as [k|],
    (str_field b "nonce") as [n|]; try exact I.
  intros [[s|]|]; [|exact I..]. intros now. cbn [bind]. destruct (expired now s); [exact I|].
  cbn [bind]. destruct (opt_truthy (encrypted s)); [exact I|]. intros now'. exact I.
Qed.
End Effects.

(** * Properties *)

(** C3: the worker relays, on a namespace whose reads may be stale or empty and
    whose operations may fail: in every interleaving of the effects of any
    requests, from a namespace that is new on, a poll ends after at most six
    effects, and its answer is an error (500, 429 or 404), that the credentials
    are pending, or exactly the blob, the key and the nonce of one of the
    submissions to its session; it is the latter when its read shows a session
    with credentials before its expiry and the limiter lets it through.  A
    submission ends after at most eight effects; it is answered 200 only when a
    session with exactly its three fields is among the values written under the
    session's key.  When the limiter lets it through and its read shows the
    session before its expiry, it is answered 200 if the session has no
    credentials and the namespace accepts the write of the session with the
    three fields and of the remaining seconds as its expiry; it is answered 404
    if the session has credentials, or if the read shows none. *)
Theorem worker_relay_delivers {K} `{KVLaws K} cfg (m0 : K) evs :
  kv_history m0 = [] →
  let s := run cfg (System m0 ∅) evs in
  ∀ id c t, running s !! id = Some c →
  (poll_request (asked c) t →
     ((6 <= length (met c))%nat → ∃ r, answer s id = Some r) ∧
     (∀ r, answer s id = Some r →
        answers r 500 [("error", JStr "Internal server error")]%string ∨
        answers r 429 [("error", JStr "Too many requests")]%string ∨
        answers r 404 [("error", JStr "Session not found or expired")]%string ∨
        answers r 200 [("status", JStr "pending")]%string ∨
        ∃ e k n, brought evs t e k n ∧ ready r e k n) ∧
     (∀ x1 x2 x3 x4 x5 xs ss e k n, met c = x1 :: x2 :: x3 :: x4 :: x5 :: xs →
        let_through ("poll:" ++ client_ip (asked c)) 30 x1 x2 x3 →
        shown x4 ("s:" ++ t) (Some (SessionJson ss)) → time x5.2 ≤ expiresAt ss →
        encrypted ss = Some e → e ≠ ""%string → ephemeralPublicKey ss = Some k → nonce ss = Some n →
        ∃ r, answer s id = Some r ∧ ready r e k n)) ∧
  (submit_request (asked c) t →
     ((8 <= length (met c))%nat → ∃ r, answer s id = Some r) ∧
     (∀ r, answer s id = Some r → status r = 200 →
        ∃ e k n pk x, submission (asked_body c) e k n ∧
          (("s:" ++ t)%string, SessionJson (Session pk x (Some e) (Some k) (Some n))) ∈
            kv_history (namespace s)) ∧
     (∀ x1 x2 x3 x4 x5 x6 xs v e k n, met c = x1 :: x2 :: x3 :: x4 :: x5 :: x6 :: xs →
        let_through ("submit:" ++ client_ip (asked c)) 3 x1 x2 x3 → submission (asked_body c) e k n →
        shown x5 ("s:" ++ t) v →
        ((v = None ∨ ∃ ss, v = Some (SessionJson ss) ∧ time x6.2 ≤ expiresAt ss ∧
            opt_truthy (encrypted ss) = true) →
         ∃ r, answer s id = Some r ∧ status r = 404) ∧
        ∀ x7 x8 xs' ss, xs = x7 :: x8 :: xs' → v = Some (SessionJson ss) → time x6.2 ≤ expiresAt ss →
          opt_truthy (encrypted ss) = false →
          accepted x8 ("s:" ++ t)
            (SessionJson (Session (publicKey ss) (expiresAt ss) (Some e) (Some k) (Some n)))
            (Z.max 1 ((expiresAt ss - time x7.2) / 1000)) →
          ∃ r, answer s id = Some r ∧ answers r 200 [("status", JStr "ok")]%string)).
Proof.
  intros Hm0 s id c t Hc. assert (Hl : left c = _) by exact (call_alone cfg m0 Hm0 evs id c Hc).
  assert (Ha : answer s id = fetch_answer (left c)) by (unfold answer; by rewrite Hc).
  rewrite Ha. split; intros Hp; (split; [|split]).
  - rewrite Hl. by apply within_alone, poll_within with t.
  - intros r Hr. by apply (poll_answered cfg m0 Hm0 evs id c).
  - intros x1 x2 x3 x4 x5 xs ss e k n Hx Hlt Hs Ht He Hne Hk Hn. rewrite Hl, Hx.
    destruct (poll_alone cfg (asked c) t ss e k n x1 x2 x3 x4 x5 xs (asked_body c)) as (r & -> & Hr);
      [done..|]. by exists r.
  - rewrite Hl. by apply within_alone, submit_within with t.
  - intros r Hr Hst. by apply (submit_answered cfg m0 Hm0 evs id c t r).
  - intros x1 x2 x3 x4 x5 x6 xs v e k n Hx Hlt Hb Hs. rewrite Hl, Hx. split.
    + intros Hv. rewrite (submit_refused_alone cfg (asked c) t v e k n) by done. by eexists.
    + intros x7 x8 xs' ss -> -> Ht He Hacc. rewrite (submit_alone cfg (asked c) t ss e k n) by done.
      unfold accepted in Hacc. unfold session_key, SESSION_PREFIX, remaining_seconds. rewrite Hacc.
      by eexists.
Qed.

(** Workers KV refuses an expiry of less than sixty seconds, so in the last
    minute of a session a submission that the limiter lets through, and whose
    read shows the session without credentials, fails with 500. *)
Theorem late_submission_fails {K} `{KVLaws K} cfg req t s e k n x1 x2 x3 x4 x5 x6 x7 x8 xs b :
  submit_request req t → let_through ("submit:" ++ client_ip req) 3 x1 x2 x3 →
  submission b e k n → shown x5 ("s:" ++ t) (Some (SessionJson s)) → time x6.2 ≤ expiresAt s →
  opt_truthy (encrypted s) = false → expiresAt s - 60000 < time x7.2 →
  fetch_answer (alone (K := K) b (x1 :: x2 :: x3 :: x4 :: x5 :: x6 :: x7 :: x8 :: xs) (handleRequest cfg req)) =
  Some (w_error 500 "Internal server error").
Proof.
  intros Hp Hl Hb Hs Ht Hc Hlate. rewrite (submit_alone cfg req t s e k n) by done.
  rewrite write_short; [done|]. unfold remaining_seconds.
  assert ((expiresAt s - time x7.2) / 1000 < 60) by (apply Z.div_lt_upper_bound; lia). lia.
Qed.

(** ** Concrete runs *)

Definition example_worker : config := Config "https://flowhelm.to" "https://flowhelm.to" "page".

Definition example_submission (blob : string) : jvalue :=
  JObj [("encrypted", JStr blob); ("ephemeralPublicKey", JStr "ek"); ("nonce", JStr "n")]%string.

Definition example_create : worker_request :=
  WorkerRequest "POST" "/api/session" (Some "10.0.0.3"%string) None.

Definition example_submit : worker_request :=
  WorkerRequest "POST" "/api/session/ddddd" (Some "10.0.0.1"%string) None.

Definition example_poll : worker_request :=
  WorkerRequest "GET" "/api/session/ddddd/poll" None (Some "10.0.0.2, proxy"%string).

Definition at_time (t : Z) : input := At t (replicate 20 35) 0.

(** The effects of a request, all at one time. *)
Definition steps (id n : nat) (t : Z) : list event := replicate n (Step id (at_time t)).

Definition example_session : list event :=
  Start 0 example_create (JObj [("publicKey", JStr "pk")]%string) :: steps 0 15 100000.

Definition example_relay : list event :=
  example_session ++ [Start 1 example_submit (example_submission "blob")] ++ steps 1 8 200000 ++
  [Start 2 example_poll JNull] ++ steps 2 6 300000.

Definition fresh_system : system log_kv := System [] ∅.

Lemma worker_relay_delivers_witness :
  let s := run example_worker fresh_system example_relay in
  (∃ r, answer s 1 = Some r ∧ answers r 200 [("status", JStr "ok")]%string) ∧
  (∃ r, answer s 2 = Some r ∧ ready r "blob" "ek" "n").
Proof.
  intros s.
  assert (H1 : ∃ c, running s !! 1%nat = Some c) by (eexists; vm_compute; reflexivity).
  assert (H2 : ∃ c, running s !! 2%nat = Some c) by (eexists; vm_compute; reflexivity).
  destruct H1 as [c1 H1], H2 as [c2 H2].
  pose proof (worker_relay_delivers example_worker ([] : log_kv) example_relay eq_refl 1 c1 "ddddd" H1) as R1.
  pose proof (worker_relay_delivers example_worker ([] : log_kv) example_relay eq_refl 2 c2 "ddddd" H2) as R2.
  vm_compute in H1. vm_compute in H2. injection H1 as <-. injection H2 as <-. split.
  - destruct R1 as [_ (_ & _ & R1)]; [by split|].
    eapply R1; [reflexivity| |by repeat split|vm_compute; reflexivity|..].
    + exists 0%nat. eexists. split; [reflexivity|]. split; [lia|]. split; [left|]; by vm_compute.
    + reflexivity.
    + reflexivity.
    + vm_compute. discriminate.
    + reflexivity.
    + vm_compute. reflexivity.
  - destruct R2 as [(_ & _ & R2) _]; [by split|].
    eapply R2; [reflexivity| |vm_compute; reflexivity|..].
    + exists 0%nat. eexists. split; [reflexivity|]. split; [lia|]. split; [left|]; by vm_compute.
    + vm_compute. discriminate.
    + reflexivity.
    + discriminate.
    + reflexivity.
    + reflexivity.
Defined.

(** The test for an earlier submission does not hold across the awaits of
    the namespace: of two submissions that overlap both are answered 200, and
    the poll gives the second although the first was answered before it. *)
Example submissions_race :
  let s := run example_worker fresh_system (example_session ++
    [Start 1 example_submit (example_submission "first"); Start 2 example_submit (example_submission "second")] ++
    steps 1 7 200000 ++ steps 2 7 200000 ++ steps 1 1 200000 ++
    [Start 3 example_poll JNull] ++ steps 3 5 200000 ++ steps 2 1 200001 ++
    [Start 4 example_poll JNull] ++ steps 4 5 200002) in
  (status <$> answer s 1) = Some 200 ∧ (status <$> answer s 2) = Some 200 ∧
  (resp <$> answer s 3) = Some (Json [("status", JStr "ready"); ("encrypted", JStr "first");
    ("ephemeralPublicKey", JStr "ek"); ("nonce", JStr "n")]%string) ∧
  (resp <$> answer s 4) = Some (Json [("status", JStr "ready"); ("encrypted", JStr "second");
    ("ephemeralPublicKey", JStr "ek"); ("nonce", JStr "n")]%string).
Proof. vm_compute. repeat split. Qed.

(** A read that misses the latest change lets a second submission replace the
    first long after it was answered. *)
Example stale_submission :
  let s := run example_worker fresh_system (example_session ++
    [Start 1 example_submit (example_submission "first")] ++ steps 1 8 200000 ++
    [Start 2 example_submit (example_submission "second")] ++ steps 2 4 270000 ++
    [Step 2 (At 270000 [] 2)] ++ steps 2 3 270000) in
  (status <$> answer s 1) = Some 200 ∧ (status <$> answer s 2) = Some 200.
Proof. vm_compute. repeat split. Qed.

(** [session!] after the creation: when the read behind the write does not show
    the session yet, the request is answered 500, and the session is stored all
    the same. *)
Example stale_creation :
  let s := run example_worker fresh_system
    (Start 0 example_create (JObj [("publicKey", JStr "pk")]%string) ::
     steps 0 11 100000 ++ [Step 0 (At 100000 [] 1)] ++ steps 0 3 100000) in
  (status <$> answer s 0) = Some 500 ∧
  log_lookup (namespace s) 100001 "s:ddddd" = Some (SessionJson (Session "pk" 700000 None None None)).
Proof. vm_compute. repeat split. Qed.
