(* ===== verification/MessageQueue.v ===== *)
(** * The persistent message queue

    [src/orchestrator/message-queue.ts].  The table is the list of its rows and
    each method is the one SQL statement it runs, at the time [now].
    PostgreSQL may return any of the rows that tie on [created_at]; the
    definitions take the first, and the theorems only use that it is oldest. *)

From S2P Require Import Prelude JsMap.

Inductive QueueStatus := pending | processing | completed | failed | dead_letter.

#[export] Instance QueueStatus_eq_dec : EqDecision QueueStatus.
Proof. solve_decision. Defined.

Record InboundMessage := Inbound {
  msg_id : string;
  channel : string;
  userId : string;
  senderName : string;
  text : option string;
  audioPath : option string;
  imagePath : option string;
  replyToMessageId : option string;
  timestamp : Z;
  isFromMe : bool;
  metadata : jvalue }.

(** A row of the table; also the [QueuedItem] that [rowToItem] makes of it. *)
Record row := Row {
  id : nat;
  message_id : string;
  chat_id : string;
  payload : InboundMessage;
  status : QueueStatus;
  attempts : nat;
  max_attempts : nat;
  created_at : Z;
  updated_at : Z;
  error : option string }.

(** The table and the next value of its identity column. *)
Record queue := Queue { rows : list row; next_id : nat }.

Definition set_status (s : QueueStatus) (now : Z) (r : row) : row :=
  Row (id r) (message_id r) (chat_id r) (payload r) s (attempts r) (max_attempts r)
    (created_at r) now (error r).

Definition set_attempts (n : nat) (r : row) : row :=
  Row (id r) (message_id r) (chat_id r) (payload r) (status r) n (max_attempts r)
    (created_at r) (updated_at r) (error r).

Definition set_error (e : option string) (r : row) : row :=
  Row (id r) (message_id r) (chat_id r) (payload r) (status r) (attempts r) (max_attempts r)
    (created_at r) (updated_at r) e.

Definition has_status (s : QueueStatus) (r : row) : bool := bool_decide (status r = s).
Definition has_id (n : nat) (r : row) : bool := (id r =? n).

(** [UPDATE queue SET f WHERE p] *)
Definition update_where (p : row → bool) (f : row → row) (q : queue) : queue :=
  Queue (map (λ r, if p r then f r else r) (rows q)) (next_id q).

(** [SELECT ... WHERE p ORDER BY created_at ASC LIMIT 1] *)
Definition oldest (p : row → bool) (rs : list row) : option row :=
  foldl (λ best r,
    if p r then
      match best with
      | None => Some r
      | Some b => if (created_at r <? created_at b)%Z then Some r else best
      end
    else best) None rs.

(** ** Operations *)

Definition recoverStuckMessages (now : Z) : queue → queue :=
  update_where (has_status processing) (set_status pending now).

(** [start()] of a new process on the table the last one left. *)
Definition start (now : Z) : queue → queue := recoverStuckMessages now.

(** [enqueue] with the default of the constructor, [maxAttempts ?? 3]. *)
Definition enqueue (dflt : nat) (now : Z) (message : InboundMessage) (maxAttempts : option nat)
  (q : queue) : nat * queue :=
  let r := Row (next_id q) (msg_id message) (userId message) message pending 0
    (default dflt maxAttempts) now now None in
  (next_id q, Queue (rows q ++ [r]) (S (next_id q))).

Definition dequeue_where (p : row → bool) (now : Z) (q : queue) : option row * queue :=
  match oldest (λ r, has_status pending r && p r) (rows q) with
  | None => (None, q)
  | Some r =>
      let take r := set_status processing now (set_attempts (S (attempts r)) r) in
      (Some (take r), update_where (has_id (id r)) take q)
  end.

Definition dequeue : Z → queue → option row * queue := dequeue_where (λ _, true).

Definition dequeueForChat (chatId : string) : Z → queue → option row * queue :=
  dequeue_where (λ r, bool_decide (chat_id r = chatId)).

Definition acknowledge (now : Z) (queueId : nat) : queue → queue :=
  update_where (has_id queueId) (set_status completed now).

Definition failed_status (r : row) : QueueStatus :=
  if (max_attempts r <=? attempts r) then dead_letter else pending.

Definition fail_item (now : Z) (queueId : nat) (err : string) : queue → queue :=
  update_where (has_id queueId)
    (λ r, set_error (Some err) (set_status (failed_status r) now r)).

Definition count_status (s : QueueStatus) (q : queue) : nat :=
  length (List.filter (has_status s) (rows q)).

(** [counts]: the object starts at zero and takes the groups the query returns. *)
Definition counts (q : queue) : list (QueueStatus * nat) :=
  map (λ s, (s, count_status s q)) [pending; processing; completed; failed; dead_letter].

Definition created_le (r r' : row) : Prop := (created_at r <= created_at r')%Z.
#[export] Instance created_le_dec : RelDecision created_le.
Proof. intros r r'. unfold created_le. apply _. Defined.

Definition getDeadLetters (q : queue) : list row :=
  merge_sort created_le (List.filter (has_status dead_letter) (rows q)).

(** [SELECT DISTINCT chat_id ... ORDER BY chat_id], ordered by code units. *)
Definition pendingChatIds (q : queue) : list string :=
  merge_sort String.le (remove_dups (map chat_id (List.filter (has_status pending) (rows q)))).

Definition pendingCount (q : queue) : nat := count_status pending q.

Definition purgeCompleted (now olderThanMs : Z) (q : queue) : nat * queue :=
  let old r := has_status completed r && (updated_at r <? now - olderThanMs)%Z in
  (length (List.filter old (rows q)),
   Queue (List.filter (λ r, negb (old r)) (rows q)) (next_id q)).

Definition retryDeadLetter (now : Z) (queueId : nat) (q : queue) : bool * queue :=
  let hit r := has_id queueId r && has_status dead_letter r in
  (existsb hit (rows q),
   update_where hit (λ r, set_error None (set_attempts 0 (set_status pending now r))) q).

(** ** Lemmas *)

Record queue_ok (q : queue) : Prop := {
  ids_distinct : NoDup (map id (rows q));
  ids_below : Forall (λ r, id r < next_id q) (rows q);
  chats_match : Forall (λ r, chat_id r = userId (payload r)) (rows q) }.

Definition empty_queue : queue := Queue [] 1.

Lemma empty_queue_ok : queue_ok empty_queue.
Proof. split; constructor. Qed.

(** An update that keeps the identity of the rows. *)
Definition keeps_identity (f : row → row) : Prop :=
  ∀ r, id (f r) = id r ∧ chat_id (f r) = chat_id r ∧ payload (f r) = payload r ∧
       max_attempts (f r) = max_attempts r ∧ created_at (f r) = created_at r.

Lemma update_ok p f q : keeps_identity f → queue_ok q → queue_ok (update_where p f q).
Proof.
  intros Hf [Hd Hb Hc]. split; simpl.
  - rewrite map_map. erewrite map_ext; [exact Hd|]. intros r. simpl. destruct (p r); [|done]. apply Hf.
  - apply Forall_map. eapply Forall_impl; [exact Hb|]. simpl. intros r Hr. destruct (p r); [|done].
    by rewrite (proj1 (Hf r)).
  - apply Forall_map. eapply Forall_impl; [exact Hc|]. simpl. intros r Hr. destruct (p r); [|done].
    destruct (Hf r) as (_ & -> & -> & _). done.
Qed.

Lemma oldest_spec p rs :
  match oldest p rs with
  | Some r => r ∈ rs ∧ p r = true ∧ ∀ r', r' ∈ rs → p r' = true → (created_at r <= created_at r')%Z
  | None => ∀ r, r ∈ rs → p r = false
  end.
Proof.
  unfold oldest. induction rs as [|r rs IH] using rev_ind; [by intros r ?%not_elem_of_nil|].
  rewrite foldl_snoc. destruct (foldl _ None rs) as [b|]; destruct (p r) eqn:Hp.
  - destruct IH as (Hb & Hpb & Hmin). destruct (created_at r <? created_at b)%Z eqn:E; bool_cases.
    + split; [set_solver|]. split; [done|]. intros r' [Hr'|Hr']%elem_of_app Hp'.
      * specialize (Hmin r' Hr' Hp'). lia.
      * apply list_elem_of_singleton in Hr' as ->. lia.
    + split; [set_solver|]. split; [done|]. intros r' [Hr'|Hr']%elem_of_app Hp'; [by apply Hmin|].
      by apply list_elem_of_singleton in Hr' as ->.
  - destruct IH as (Hb & Hpb & Hmin). split; [set_solver|]. split; [done|].
    intros r' [Hr'|Hr']%elem_of_app Hp'; [by apply Hmin|].
    apply list_elem_of_singleton in Hr' as ->. congruence.
  - split; [set_solver|]. split; [done|]. intros r' [Hr'|Hr']%elem_of_app Hp'.
    + rewrite IH in Hp'; done.
    + by apply list_elem_of_singleton in Hr' as ->.
  - intros r' [Hr'|Hr']%elem_of_app; [by apply IH|]. by apply list_elem_of_singleton in Hr' as ->.
Qed.

Lemma row_by_id q r r' : queue_ok q → r ∈ rows q → r' ∈ rows q → id r = id r' → r = r'.
Proof.
  intros [Hd _ _] Hr Hr' E. apply list_elem_of_lookup in Hr as [i Hi], Hr' as [j Hj].
  assert (i = j) as ->; [|congruence].
  apply (NoDup_lookup (map id (rows q)) i j (id r)); [done|by rewrite list_lookup_fmap, Hi|].
  by rewrite list_lookup_fmap, Hj, E.
Qed.

(** ** Taking a message *)

Definition taken (now : Z) (r : row) : row :=
  set_status processing now (set_attempts (S (attempts r)) r).

Lemma taken_identity now : keeps_identity (taken now).
Proof. by intros r. Qed.

Lemma set_status_identity s now : keeps_identity (set_status s now).
Proof. by intros r. Qed.

(** The row that was taken, as it was before. *)
Lemma dequeue_where_spec p now q :
  queue_ok q →
  match dequeue_where p now q with
  | (None, q') => q' = q ∧ ∀ r, r ∈ rows q → p r = true → status r ≠ pending
  | (Some i, q') =>
      queue_ok q' ∧
      ∃ r, r ∈ rows q ∧ p r = true ∧ status r = pending ∧ i = taken now r ∧
        (∀ r', r' ∈ rows q → p r' = true → status r' = pending →
           (created_at r <= created_at r')%Z) ∧
        rows q' = map (λ r', if has_id (id r) r' then i else r') (rows q)
  end.
Proof.
  intros Hq. unfold dequeue_where.
  pose proof (oldest_spec (λ r, has_status pending r && p r) (rows q)) as H.
  destruct (oldest _ _) as [r|].
  - destruct H as (Hr & Hp & Hmin). apply andb_prop in Hp as [Hs Hp].
    apply bool_decide_eq_true in Hs.
    split; [by apply update_ok, Hq|]. exists r. repeat (split; [done|]). split.
    + intros r' Hr' Hp' Hs'. apply Hmin; [done|]. unfold has_status.
      by rewrite Hp', bool_decide_true.
    + simpl. apply map_ext_in. intros r' Hr'%list_elem_of_In. unfold has_id.
      destruct (id r' =? id r) eqn:E; bool_cases; [|done].
      by rewrite (row_by_id q r' r) by done.
  - split; [done|]. intros r Hr Hp Hs. specialize (H r Hr). unfold has_status in H.
    by rewrite bool_decide_true, Hp in H.
Qed.

(** ** Runs *)

Inductive queue_op :=
| QEnqueue (m : InboundMessage) (maxAttempts : option nat)
| QDequeue
| QDequeueFor (chatId : string)
| QAck (queueId : nat)
| QFail (queueId : nat) (err : string)
| QPurge (olderThanMs : Z)
| QRetry (queueId : nat)
| QRestart.

Section Runs.
(** [this.maxAttempts] *)
Context (dflt : nat).

Definition queue_step (q : queue) (o : Z * queue_op) : queue :=
  let '(now, op) := o in
  match op with
  | QEnqueue m max => (enqueue dflt now m max q).2
  | QDequeue => (dequeue now q).2
  | QDequeueFor c => (dequeueForChat c now q).2
  | QAck i => acknowledge now i q
  | QFail i e => fail_item now i e q
  | QPurge age => (purgeCompleted now age q).2
  | QRetry i => (retryDeadLetter now i q).2
  | QRestart => start now q
  end.

Lemma dequeue_where_ok p now q : queue_ok q → queue_ok (dequeue_where p now q).2.
Proof.
  intros Hq. pose proof (dequeue_where_spec p now q Hq) as H.
  destruct (dequeue_where p now q) as [[i|] q']; simpl; [apply H|by destruct H as [-> _]].
Qed.

Lemma filter_rows_ok f q n : queue_ok q → next_id q ≤ n →
  queue_ok (Queue (List.filter f (rows q)) n).
Proof.
  intros [Hd Hb Hc] Hn. split; simpl.
  - clear Hb Hc. induction (rows q) as [|r rs IH]; [done|]. simpl in *.
    apply NoDup_cons in Hd as [Hr Hd]. destruct (f r); simpl; [|auto]. apply NoDup_cons.
    split; [|auto]. intros Hin. apply Hr. apply list_elem_of_In, in_map_iff in Hin as (r' & E & Hin).
    apply List.filter_In in Hin as [Hin _]. rewrite <- E. apply list_elem_of_In, in_map. done.
  - rewrite Forall_forall in *. intros r Hr%list_elem_of_In%List.filter_In.
    destruct Hr as [Hr%list_elem_of_In _]. specialize (Hb r Hr). lia.
  - rewrite Forall_forall in *. intros r Hr%list_elem_of_In%List.filter_In.
    destruct Hr as [Hr%list_elem_of_In _]. auto.
Qed.

Lemma enqueue_ok now m max q : queue_ok q → queue_ok (enqueue dflt now m max q).2.
Proof.
  intros [Hd Hb Hc]. split; simpl.
  - rewrite map_app. apply NoDup_app. split; [done|]. split; [|apply NoDup_singleton].
    intros i Hi ->%list_elem_of_singleton. apply list_elem_of_In, in_map_iff in Hi as (r & E & Hr).
    apply list_elem_of_In in Hr. rewrite Forall_forall in Hb. specialize (Hb r Hr). simpl in *. lia.
  - apply Forall_app. split; [|by repeat constructor]. eapply Forall_impl; [exact Hb|].
    simpl. intros. lia.
  - apply Forall_app. split; [done|]. by repeat constructor.
Qed.

Lemma queue_step_ok q o : queue_ok q → queue_ok (queue_step q o).
Proof.
  intros Hq. destruct o as [now []]; simpl.
  - by apply (enqueue_ok now).
  - by apply dequeue_where_ok.
  - by apply dequeue_where_ok.
  - by apply update_ok.
  - by apply update_ok.
  - by apply filter_rows_ok.
  - by apply update_ok.
  - by apply update_ok.
Qed.

(** *** Bound on the attempts *)

(** After [n] restarts: a row at rest has attempts left, one in processing has
    used at most its limit, each restart adding one. *)
Definition attempts_ok (n : nat) (r : row) : Prop :=
  match status r with
  | pending => attempts r < max_attempts r + n
  | _ => attempts r ≤ max_attempts r + n
  end.

Definition restarts (o : Z * queue_op) : nat := match o.2 with QRestart => 1 | _ => 0 end.

(** The limits are positive. *)
Definition positive_limit (o : Z * queue_op) : Prop :=
  match o.2 with QEnqueue _ max => 0 < default dflt max | _ => True end.

(** No message has been given a limit of zero, and none has status [failed]. *)
Definition row_inv (n : nat) (r : row) : Prop :=
  0 < max_attempts r ∧ status r ≠ failed ∧ attempts_ok n r.

Lemma update_inv (p : row → bool) f q n m :
  (∀ r, p r = true → row_inv n r → row_inv m (f r)) → (∀ r, p r = false → row_inv n r → row_inv m r) →
  Forall (row_inv n) (rows q) → Forall (row_inv m) (rows (update_where p f q)).
Proof.
  intros Hf Hid H. simpl. apply Forall_map. eapply Forall_impl; [exact H|]. simpl.
  intros r Hr. destruct (p r) eqn:E; auto.
Qed.

Lemma row_inv_weaken n m r : n ≤ m → row_inv n r → row_inv m r.
Proof. intros Hn (? & ? & Ha). repeat split; try done. unfold attempts_ok in *. case_match; lia. Qed.

Lemma dequeue_inv p now q n :
  Forall (row_inv n) (rows q) → queue_ok q → Forall (row_inv n) (rows (dequeue_where p now q).2).
Proof.
  intros H Hq. pose proof (dequeue_where_spec p now q Hq) as Hs.
  destruct (dequeue_where p now q) as [[i|] q']; simpl; [|by destruct Hs as [-> _]].
  destruct Hs as (_ & r & Hr & _ & Hst & -> & _ & ->). rewrite Forall_forall in H.
  apply Forall_map, Forall_forall. intros r' Hr'. destruct (has_id (id r) r'); [|by apply H].
  destruct (H r Hr) as (Hm & _ & Ha). split; [done|]. split; [done|].
  unfold attempts_ok in *. rewrite Hst in Ha. simpl. lia.
Qed.

Lemma queue_step_inv q o n :
  Forall (row_inv n) (rows q) → queue_ok q → positive_limit o →
  Forall (row_inv (n + restarts o)) (rows (queue_step q o)).
Proof.
  intros H Hq Hp. destruct o as [now op].
  assert (Hid : ∀ r, row_inv n r → row_inv (n + 0) r) by (intros; by rewrite Nat.add_0_r).
  assert (Hsame : Forall (row_inv (n + 0)) (rows q)) by (by rewrite Nat.add_0_r).
  unfold positive_limit in Hp. unfold restarts.
  destruct op as [m max| |c|i|i e|age|i|]; simpl in *.
  - apply Forall_app. split; [done|]. constructor; [|constructor].
    split; [done|]. split; [done|]. unfold attempts_ok. simpl. lia.
  - rewrite Nat.add_0_r. by apply dequeue_inv.
  - rewrite Nat.add_0_r. by apply dequeue_inv.
  - apply (update_inv _ _ _ n); [|auto|done]. intros r _ (Hm & _ & Ha). split; [done|]. split; [done|].
    unfold attempts_ok in *. simpl. repeat case_match; lia.
  - apply (update_inv _ _ _ n); [|auto|done]. intros r _ (Hm & _ & Ha). split; [done|].
    unfold attempts_ok, failed_status in *. simpl.
    destruct (max_attempts r <=? attempts r) eqn:E; bool_cases; (split; [done|]);
      repeat case_match; lia.
  - rewrite Forall_forall in *. intros r [Hr%list_elem_of_In _]%list_elem_of_In%List.filter_In. auto.
  - apply (update_inv _ _ _ n); [|auto|done]. intros r _ (Hm & _ & Ha). split; [done|]. split; [done|].
    unfold attempts_ok. simpl. lia.
  - apply (update_inv _ _ _ n); [| |done].
    + intros r E (Hm & _ & Ha). unfold has_status in E. bool_cases. split; [done|]. split; [done|].
      unfold attempts_ok in *. rewrite E in Ha. simpl. lia.
    + intros r _. apply row_inv_weaken. lia.
Qed.

Lemma queue_run_inv ops q n :
  Forall (row_inv n) (rows q) → queue_ok q → Forall positive_limit ops →
  queue_ok (foldl queue_step q ops) ∧
  Forall (row_inv (n + sum_list (map restarts ops))) (rows (foldl queue_step q ops)).
Proof.
  revert q n. induction ops as [|o ops IH]; intros q n H Hq Hp; simpl; [by rewrite Nat.add_0_r|].
  apply Forall_cons in Hp as [Ho Hp]. rewrite Nat.add_assoc.
  apply IH; [by apply queue_step_inv|by apply queue_step_ok|done].
Qed.

(** *** Handing out *)

(** The message that a call hands out, and the one that it brings back. *)
Definition handed (q : queue) (o : Z * queue_op) : option nat :=
  match o.2 with
  | QDequeue => id <$> (dequeue o.1 q).1
  | QDequeueFor c => id <$> (dequeueForChat c o.1 q).1
  | _ => None
  end.

Definition brought_back (q : queue) (o : Z * queue_op) : option nat :=
  match o.2 with QRetry i => if (retryDeadLetter o.1 i q).1 then Some i else None | _ => None end.

Definition tally (i : nat) (q : queue) (o : Z * queue_op) (n : nat) : nat :=
  if bool_decide (handed q o = Some i) then S n
  else if bool_decide (brought_back q o = Some i) then 0 else n.

(** How often message [i] is handed out in a run, from its last return on. *)
Fixpoint handouts (i : nat) (q : queue) (ops : list (Z * queue_op)) (n : nat) : nat :=
  match ops with
  | [] => n
  | o :: ops => handouts i (queue_step q o) ops (tally i q o n)
  end.

Definition counted (q : queue) (n : nat → nat) : Prop :=
  (∀ r, r ∈ rows q → attempts r = n (id r)) ∧ ∀ i, next_id q ≤ i → n i = 0.

Lemma counted_update p f q n : (∀ r, id (f r) = id r ∧ attempts (f r) = attempts r) → counted q n → counted (update_where p f q) n.
Proof.
  intros Hf [Ha Hn]. split; [|done]. simpl. intros r (r0 & -> & Hr0)%list_elem_of_fmap.
  specialize (Ha r0 Hr0). destruct (p r0); [|done]. destruct (Hf r0) as [-> ->]. done.
Qed.

Lemma counted_dequeue p now q n : queue_ok q → counted q n →
  counted (dequeue_where p now q).2 (λ i, if bool_decide (id <$> (dequeue_where p now q).1 = Some i) then S (n i) else n i).
Proof.
  intros Hq [Ha Hn]. pose proof (dequeue_where_spec p now q Hq) as H.
  assert (Hnext : next_id (dequeue_where p now q).2 = next_id q) by (unfold dequeue_where; by destruct (oldest _ _)).
  split.
  - destruct (dequeue_where p now q) as [[x|] q']; simpl in *.
    + destruct H as (_ & r & Hr & _ & _ & -> & _ & ->). intros r1 (r0 & -> & Hr0)%list_elem_of_fmap.
      unfold has_id. destruct (id r0 =? id r) eqn:E; bool_cases.
      * rewrite bool_decide_eq_true_2 by done. simpl. by rewrite (Ha r Hr).
      * case_bool_decide as F; [|by apply Ha]. injection F as F. by destruct E.
    + destruct H as [-> _]. exact Ha.
  - rewrite Hnext. intros i Hi. rewrite bool_decide_eq_false_2; [by apply Hn|].
    destruct (dequeue_where p now q) as [[x|] q']; simpl in *; [|done]. intros [= <-].
    destruct H as (_ & r & Hr & _ & _ & -> & _). destruct Hq as [_ Hb _]. rewrite Forall_forall in Hb. specialize (Hb r Hr). simpl in *. lia.
Qed.

Lemma counted_step q o n : queue_ok q → counted q n → counted (queue_step q o) (λ i, tally i q o (n i)).
Proof.
  intros Hq Hc. destruct o as [now op]. unfold tally, handed, brought_back.
  destruct op as [m max| |c|i|i e|age|i|]; cbn [queue_step fst snd]; try (by apply counted_update); try by apply counted_dequeue.
  - destruct Hc as [Ha Hn]. simpl. split; simpl.
    + intros r [Hr|Hr%list_elem_of_singleton]%elem_of_app; [by apply Ha|]. subst r. simpl. by rewrite Hn.
    + intros i Hi. apply Hn. lia.
  - destruct Hc as [Ha Hn]. split; simpl; [|done]. intros r [Hr _]%list_elem_of_In%List.filter_In. by apply Ha, list_elem_of_In.
  - destruct Hc as [Ha Hn]. set (hit := λ r, has_id i r && has_status dead_letter r).
    unfold retryDeadLetter. cbv zeta. fold hit. cbn [fst snd]. split.
    + cbn [rows update_where]. intros r (r0 & -> & Hr0)%list_elem_of_fmap. destruct (hit r0) eqn:E.
      * assert (Hx : existsb hit (rows q) = true) by (apply existsb_exists; exists r0; split; [by apply list_elem_of_In|done]).
        rewrite Hx. unfold hit in E. bool_cases. unfold has_id in *. bool_cases. cbn [id set_error set_attempts set_status attempts].
        by rewrite (bool_decide_eq_true_2 (Some i = Some (id r0))) by congruence.
      * destruct (existsb hit (rows q)) eqn:Hx; [|by apply Ha]. cbn [bool_decide].
        destruct (decide (i = id r0)) as [->|Hne]; [|rewrite (bool_decide_eq_false_2 (Some i = Some (id r0))) by congruence; by apply Ha].
        apply existsb_exists in Hx as (r1 & Hr1%list_elem_of_In & [H1 H2]%andb_prop). unfold has_id in H1. bool_cases.
        rewrite (row_by_id q r1 r0) in H2 by done. unfold hit in E. unfold has_id in E. by rewrite Nat.eqb_refl, H2 in E.
    + intros j Hj. rewrite Hn by done. by repeat case_bool_decide.
Qed.

Lemma handouts_count ops q n r : queue_ok q → counted q n → r ∈ rows (foldl queue_step q ops) →
  attempts r = handouts (id r) q ops (n (id r)).
Proof.
  revert q n. induction ops as [|o ops IH]; intros q n Hq Hc Hr; [by apply Hc|]. cbn [handouts].
  apply (IH (queue_step q o) (λ i, tally i q o (n i))); [by apply queue_step_ok|by apply counted_step|done].
Qed.

(** What is taken is the oldest of the pending rows that qualify. *)
Definition oldest_taken (Q : row → Prop) (taken : option row) (l : list row) : Prop :=
  match taken with
  | None => ∀ r, r ∈ l → Q r → status r ≠ pending
  | Some i => ∃ r, r ∈ l ∧ Q r ∧ status r = pending ∧ id i = id r ∧ payload i = payload r ∧
      ∀ r', r' ∈ l → Q r' → status r' = pending → (created_at r <= created_at r')%Z
  end.

Lemma dequeue_where_oldest p (Q : row → Prop) now q : queue_ok q → (∀ r, p r = true ↔ Q r) →
  oldest_taken Q (dequeue_where p now q).1 (rows q).
Proof.
  intros Hq Hp. pose proof (dequeue_where_spec p now q Hq) as H.
  destruct (dequeue_where p now q) as [[i|] q']; cbn [fst] in *.
  - destruct H as (_ & r & Hr & Hc & Hs & -> & Hmin & _). exists r. rewrite <- Hp. repeat split; try done.
    intros r' Hr' Hc' Hs'. apply Hmin; [done|by apply Hp|done].
  - destruct H as [_ H]. intros r Hr Hc. apply H; [done|by apply Hp].
Qed.

(** *** Nothing is lost *)

(** The row stays, under its identity. *)
Definition same_message (r r' : row) : Prop :=
  id r' = id r ∧ chat_id r' = chat_id r ∧ payload r' = payload r ∧
  max_attempts r' = max_attempts r ∧ created_at r' = created_at r.

Lemma update_keeps p f q r : keeps_identity f → r ∈ rows q →
  ∃ r', r' ∈ rows (update_where p f q) ∧ same_message r r'.
Proof.
  intros Hf Hr. exists (if p r then f r else r). split.
  - simpl. apply list_elem_of_fmap. by exists r.
  - destruct (p r); [apply Hf|by repeat split].
Qed.

Lemma queue_step_keeps q o r : queue_ok q → r ∈ rows q →
  (∃ r', r' ∈ rows (queue_step q o) ∧ same_message r r') ∨
  (∃ age, o.2 = QPurge age ∧ status r = completed ∧ (updated_at r < o.1 - age)%Z).
Proof.
  intros Hq Hr. assert (Hd : ∀ p now, ∃ r', r' ∈ rows (dequeue_where p now q).2 ∧ same_message r r').
  { intros p now. unfold dequeue_where. destruct (oldest _ _); simpl;
      [by apply update_keeps|exists r; by repeat split]. }
  destruct o as [now op]. destruct op as [m max| |c|i|i e|age|i|]; simpl;
    try (left; by apply update_keeps); try (left; by apply Hd).
  - left. exists r. split; [set_solver|by repeat split].
  - destruct (has_status completed r && (updated_at r <? now - age)%Z) eqn:E.
    + right. exists age. bool_cases. unfold has_status in *. bool_cases. done.
    + left. exists r. split; [|by repeat split].
      apply list_elem_of_In, List.filter_In. split; [by apply list_elem_of_In|by rewrite E].
Qed.
End Runs.

(** ** The theorems *)

(** [dequeueForChat] takes the oldest pending message of the chat, marks it
    processing, counts the attempt and changes no other row; it returns nothing
    exactly when the chat has no pending message. *)
Theorem dequeueForChat_oldest c now q :
  queue_ok q →
  match dequeueForChat c now q with
  | (None, q') => q' = q ∧ ∀ r, r ∈ rows q → chat_id r = c → status r ≠ pending
  | (Some i, q') =>
      ∃ r, r ∈ rows q ∧ chat_id r = c ∧ status r = pending ∧
        id i = id r ∧ payload i = payload r ∧ status i = processing ∧ attempts i = S (attempts r) ∧
        (∀ r', r' ∈ rows q → chat_id r' = c → status r' = pending → (created_at r <= created_at r')%Z) ∧
        rows q' = map (λ r', if has_id (id r) r' then i else r') (rows q)
  end.
Proof.
  intros Hq. pose proof (dequeue_where_spec (λ r, bool_decide (chat_id r = c)) now q Hq) as H.
  unfold dequeueForChat. destruct (dequeue_where _ _ _) as [[i|] q'].
  - destruct H as (_ & r & Hr & Hc & Hs & -> & Hmin & E). bool_cases. exists r.
    do 7 (split; [done|]). split; [|exact E].
    intros r' Hr' Hc'. apply Hmin; [done|]. by rewrite bool_decide_true.
  - destruct H as [-> H]. split; [done|]. intros r Hr Hc. apply H; [done|]. by rewrite bool_decide_true.
Qed.

Definition example_message (i chat : string) : InboundMessage :=
  Inbound i "telegram" chat "Ann" (Some "hi") None None None 0 false JNull.

Definition example_queue : queue :=
  foldl (queue_step 3) empty_queue
    [(10%Z, QEnqueue (example_message "m1" "tg:1") None);
     (20%Z, QEnqueue (example_message "m2" "tg:2") (Some 1));
     (30%Z, QEnqueue (example_message "m3" "tg:1") None)].

Lemma example_queue_ok : queue_ok example_queue.
Proof. unfold example_queue. cbn [foldl]. repeat apply queue_step_ok. apply empty_queue_ok. Qed.

Lemma dequeueForChat_oldest_witness :
  queue_ok example_queue ∧
  ∃ i q', dequeueForChat "tg:1" 40 example_queue = (Some i, q') ∧ id i = 1 ∧
    ∀ r', r' ∈ rows example_queue → chat_id r' = "tg:1"%string → status r' = pending →
      (10 <= created_at r')%Z.
Proof.
  split; [exact example_queue_ok|].
  pose proof (dequeueForChat_oldest "tg:1" 40 example_queue example_queue_ok) as R.
  destruct (dequeueForChat "tg:1" 40 example_queue) as [[i|] q'] eqn:E; [|vm_compute in E; discriminate E].
  destruct R as (r & Hr & _ & _ & Hid & _ & _ & _ & Hmin & _).
  vm_compute in E. injection E as <- <-. eexists _, _. split; [reflexivity|]. split; [reflexivity|].
  intros r' Hr' Hc Hs. specialize (Hmin r' Hr' Hc Hs). simpl in Hid.
  assert (r = Row 1 "m1" "tg:1" (example_message "m1" "tg:1") pending 0 3 10 10 None) as ->; [|exact Hmin].
  apply (row_by_id example_queue); [exact example_queue_ok|exact Hr| |symmetry; exact Hid].
  vm_compute. left.
Defined.

(** C36: in every run from the empty table, with the calls of the repository in any
    order and at any times, the rows keep distinct identities and the chat of
    their message; no row is ever [failed]; the attempts of a message are the number of
    times it was handed out since it was last brought back from the dead letters, and
    that is at most its limit, plus one for each restart of the run. At the end of the
    run a call that takes the next message, of any chat or of one, gives the oldest
    pending one, and gives nothing only when there is none. *)
Theorem queue_run_bounds dflt ops :
  Forall (positive_limit dflt) ops →
  let q := foldl (queue_step dflt) empty_queue ops in
  queue_ok q ∧ count_status failed q = 0 ∧
  (∀ r, r ∈ rows q → attempts r = handouts dflt (id r) empty_queue ops 0 ∧
       handouts dflt (id r) empty_queue ops 0 ≤ max_attempts r + sum_list (map restarts ops)) ∧
  (∀ now, oldest_taken (λ _, True) (dequeue now q).1 (rows q)) ∧
  ∀ now c, oldest_taken (λ r, chat_id r = c) (dequeueForChat c now q).1 (rows q).
Proof.
  intros Hp. cbv zeta.
  destruct (queue_run_inv dflt ops empty_queue 0) as [Hq Hr]; [constructor|apply empty_queue_ok|done|].
  split; [done|]. rewrite Forall_forall in Hr. split; [|split; [|split; intros; apply dequeue_where_oldest; try done; intros; by rewrite ?bool_decide_eq_true]].
  - unfold count_status.
    destruct (List.filter _ _) as [|r rs] eqn:E; [done|]. exfalso.
    assert (Hin : In r (List.filter (has_status failed) (rows (foldl (queue_step dflt) empty_queue ops))))
      by (rewrite E; by left).
    apply List.filter_In in Hin as [Hin%list_elem_of_In Hs]. unfold has_status in Hs. bool_cases.
    by destruct (Hr r Hin) as (_ & ? & _).
  - intros r Hin. assert (Ha : attempts r = handouts dflt (id r) empty_queue ops 0).
    { apply (handouts_count dflt ops empty_queue (λ _, 0) r empty_queue_ok); [|done].
      split; [by intros ? ?%not_elem_of_nil|done]. }
    split; [done|]. rewrite <- Ha. destruct (Hr r Hin) as (_ & _ & Hb). simpl in Hb. unfold attempts_ok in Hb.
    case_match; lia.
Qed.

(** The limit plus the restarts is reached: one attempt allowed, two made. *)
Lemma queue_run_bounds_witness :
  let ops := [(10%Z, QEnqueue (example_message "m1" "tg:1") (Some 1)); (20%Z, QDequeue);
              (30%Z, QRestart); (40%Z, QDequeue)] in
  let q := foldl (queue_step 3) empty_queue ops in
  map attempts (rows q) = [2] ∧ handouts 3 1 empty_queue ops 0 = 2 ∧
  ∀ r, r ∈ rows q → handouts 3 (id r) empty_queue ops 0 ≤ max_attempts r + 1.
Proof.
  intros ops q. split; [vm_compute; reflexivity|]. split; [vm_compute; reflexivity|].
  intros r Hr. apply (queue_run_bounds 3 ops); [|exact Hr]. repeat constructor.
Defined.

(** [fail] returns a message to the queue while it has attempts left and moves
    it to the dead letters when it has not, recording the error, and touches no
    other row; [retryDeadLetter] brings exactly a dead letter back, with no
    attempts counted, and answers whether there was one. *)
Theorem fail_then_retry now now' i err q r :
  queue_ok q → r ∈ rows q → id r = i →
  let q1 := fail_item now i err q in
  let '(hit, q2) := retryDeadLetter now' i q1 in
  let exhausted := max_attempts r <=? attempts r in
  rows q1 = map (λ r', if has_id i r' then
      set_error (Some err) (set_status (if exhausted then dead_letter else pending) now r) else r') (rows q) ∧
  hit = exhausted ∧
  rows q2 = map (λ r', if has_id i r' then
      if exhausted then set_error None (set_attempts 0 (set_status pending now' r))
      else set_error (Some err) (set_status pending now r) else r') (rows q).
Proof.
  intros Hq Hr Hi. cbv zeta. unfold retryDeadLetter.
  assert (Eq : rows (fail_item now i err q) = map (λ r', if has_id i r' then
      set_error (Some err) (set_status (if max_attempts r <=? attempts r then dead_letter else pending) now r)
      else r') (rows q)).
  { simpl. apply map_ext_in. intros r' Hr'%list_elem_of_In. destruct (has_id i r') eqn:E; [|done].
    apply Nat.eqb_eq in E. by rewrite (row_by_id q r' r) by (done || congruence). }
  split; [exact Eq|]. split.
  - apply eq_true_iff_eq. rewrite existsb_exists. rewrite Eq. split.
    + intros (r' & (r0 & <- & Hr0)%in_map_iff & [H1 H2]%andb_prop).
      destruct (has_id i r0) eqn:E; [|by rewrite E in H1].
      unfold has_status in H2. simpl in H2. bool_cases. by destruct (max_attempts r <=? attempts r).
    + intros Hex. rewrite Hex. eexists. split.
      * apply in_map_iff. exists r. split; [reflexivity|by apply list_elem_of_In].
      * assert (Hh : has_id i r = true) by (by apply Nat.eqb_eq). rewrite Hh.
        by apply andb_true_intro.
  - unfold update_where at 1. cbn [rows]. rewrite Eq, map_map. apply map_ext. intros r'.
    destruct (has_id i r') eqn:E; [|by rewrite E]. unfold has_id at 1. cbn [id set_error set_status].
    rewrite Hi, Nat.eqb_refl. by destruct (max_attempts r <=? attempts r).
Qed.

Lemma fail_then_retry_witness :
  let q := (dequeueForChat "tg:2" 40 example_queue).2 in
  let q1 := fail_item 50 2 "boom" q in
  queue_ok q ∧ map status (rows q1) = [pending; dead_letter; pending] ∧
  (retryDeadLetter 60 2 q1).1 = true.
Proof.
  intros q q1. assert (Hq : queue_ok q) by (apply dequeue_where_ok, example_queue_ok).
  split; [exact Hq|]. split; [vm_compute; reflexivity|].
  destruct (nth_error (rows q) 1) as [r|] eqn:E; [|vm_compute in E; discriminate E].
  assert (Hr : r ∈ rows q) by (apply list_elem_of_In; apply (nth_error_In _ 1 E)).
  assert (Hi : id r = 2) by (vm_compute in E; injection E as <-; reflexivity).
  pose proof (fail_then_retry 50 60 2 "boom" q r Hq Hr Hi) as R. cbv zeta in R. fold q1 in R.
  destruct (retryDeadLetter 60 2 q1) as [hit q2]. destruct R as (_ & Hh & _).
  etransitivity; [exact Hh|]. vm_compute in E. injection E as <-. reflexivity.
Defined.

(** No call loses a message: a row is gone after a call only when the call
    purges and the row was completed before the cutoff. *)
Theorem queue_loses_nothing dflt q o r :
  queue_ok q → r ∈ rows q →
  (∃ r', r' ∈ rows (queue_step dflt q o) ∧ id r' = id r ∧ payload r' = payload r) ∨
  (∃ age, o.2 = QPurge age ∧ status r = completed ∧ (updated_at r < o.1 - age)%Z).
Proof.
  intros Hq Hr. destruct (queue_step_keeps dflt q o r Hq Hr) as [(r' & ? & ? & ? & ? & _)|?]; [|by right].
  left. by exists r'.
Qed.

Lemma queue_loses_nothing_witness :
  queue_ok example_queue ∧
  ∃ r', r' ∈ rows (queue_step 3 example_queue (99%Z, QPurge 0)) ∧ id r' = 1.
Proof.
  split; [exact example_queue_ok|].
  destruct (rows example_queue) as [|r rs] eqn:E; [vm_compute in E; discriminate E|].
  assert (Hr : r ∈ rows example_queue) by (rewrite E; left).
  assert (Hi : id r = 1 ∧ status r = pending)
    by (vm_compute in E; injection E as <- _; split; reflexivity).
  destruct Hi as [Hi Hs].
  destruct (queue_loses_nothing 3 example_queue (99%Z, QPurge 0) r example_queue_ok Hr)
    as [(r' & Hr' & Hid & _)|(age & _ & Hc & _)].
  - exists r'. split; [exact Hr'|congruence].
  - congruence.
Defined.
