(* ===== verification/Orchestrator.v ===== *)
(** * The orchestrator

    [src/orchestrator/orchestrator.ts]: the preparation of a message, and the
    concurrent processing of the queue.  The asynchronous functions run in
    pieces between their awaits; a thread is one running call and its state is
    the await it stands at.  Each step below is the code between two awaits, or
    one SQL statement. *)

From Stdlib Require Import Ascii.
From S2P Require Import Prelude JsMap MessageQueue.

(** ** Preparing a message *)

(** [path.basename] *)
Definition basename (p : string) : string :=
  List.last (List.filter str_truthy (str_split "/"%char p)) ""%string.

Definition toServicePath (serviceDownloadsPrefix hostPath : string) : string :=
  (serviceDownloadsPrefix ++ "/" ++ basename hostPath)%string.

Definition is_path_char (c : ascii) : bool :=
  let n := nat_of_ascii c in
  ((97 <=? n) && (n <=? 122)) || ((65 <=? n) && (n <=? 90)) || ((48 <=? n) && (n <=? 57)) ||
  (n =? 95) || (n =? 45).

(** [chatId.replace(/[^a-zA-Z0-9_-]/g, '_')] *)
Fixpoint sanitizeForPath (s : string) : string :=
  match s with
  | EmptyString => EmptyString
  | String c s' => String (if is_path_char c then c else "_"%char) (sanitizeForPath s')
  end.

Definition with_text (t : string) (m : InboundMessage) : InboundMessage :=
  Inbound (msg_id m) (channel m) (userId m) (senderName m) (Some t) (audioPath m) (imagePath m)
    (replyToMessageId m) (timestamp m) (isFromMe m) (metadata m).

Definition newlines : string := String "010" (String "010" "").

Definition caption (m : InboundMessage) : string :=
  if opt_truthy (text m) then (default "" (text m) ++ newlines)%string else "".

(** [message.text || fallback] *)
Definition text_or (m : InboundMessage) (fallback : string) : string :=
  if opt_truthy (text m) then default "" (text m) else fallback.

Section Prepare.
(** The service container: the transcription of the file under a path of its
    own, [None] when the call throws.  No client is [None]. *)
Context (serviceClient : option (string → option string)) (serviceDownloadsPrefix : string).

(** Step 0; the second component is the file that is unlinked. *)
Definition transcribe_step (m : InboundMessage) : InboundMessage * option string :=
  if opt_truthy (audioPath m) then
    let path := default ""%string (audioPath m) in
    let text' :=
      match serviceClient with
      | Some transcribe =>
          match transcribe (toServicePath serviceDownloadsPrefix path) with
          | Some result => (caption m ++ "[Voice message transcription]: " ++ result)%string
          | None => text_or m "[Voice message could not be transcribed]"
          end
      | None => text_or m "[Voice message received but service container is not configured]"
      end in
    (with_text text' m, Some path)
  else (m, None).

(** Step 0.25. *)
Definition image_step (m : InboundMessage) : InboundMessage :=
  if opt_truthy (imagePath m) then
    with_text (caption m ++ "[The user sent an image. View it at: /workspace/downloads/" ++
      basename (default "" (imagePath m)) ++ "]")%string m
  else m.

Definition prepare (m : InboundMessage) : InboundMessage := image_step (transcribe_step m).1.
End Prepare.

(** [message.text?.trim().startsWith('/')] *)
Definition is_command (m : InboundMessage) : bool :=
  match text m with Some t => starts_with "/" (trim t) | None => false end.

(** The reply of [handleTaskFailure], when there is one. *)
Definition failure_notice (item : row) : bool := max_attempts item <=? attempts item.

(** ** State *)

(** The awaits a running call may stand at. *)
Inductive thread :=
| Dequeuing (chat : string)            (* the query of dequeueForChat *)
| Dequeued (item : option row)         (* ... answered, not yet resumed *)
| Running (item : row)                 (* the try block of processQueueItem *)
| Finishing (item : row)               (* its queue update answered *)
| Scanning                             (* the query of drainPendingMessages *)
| Scanned (chats : list string).       (* ... answered, not yet resumed *)

Record orch := Orch {
  table : queue;
  active : jsmap nat;
  processingCount : nat;
  threads : list thread;
  notifications : list string;
  stopping : bool;
  refused : list string }.

(** [refused] records, for the statements below, the chats that the test of the
    concurrency limit has turned away; no step reads it. *)

Definition set_threads (ts : list thread) (s : orch) : orch :=
  Orch (table s) (active s) (processingCount s) ts (notifications s) (stopping s) (refused s).

Definition set_table (q : queue) (s : orch) : orch :=
  Orch q (active s) (processingCount s) (threads s) (notifications s) (stopping s) (refused s).

(** A new process: [start] of the queue and of the orchestrator, up to the query
    of [drainPendingMessages]. *)
Definition restart (now : Z) (q : queue) : orch :=
  Orch (MessageQueue.start now q) [] 0 [Scanning] [] false [].

Section Steps.
Context (maxConcurrentContainers dflt : nat).

(** [onNewMessage] up to its await. *)
Definition onNewMessage (chat : string) (s : orch) : orch :=
  if map_has (active s) chat then s
  else if maxConcurrentContainers <=? length (active s) then
    Orch (table s) (active s) (processingCount s) (threads s) (notifications s) (stopping s)
      (refused s ++ [chat])
  else set_threads (threads s ++ [Dequeuing chat]) s.

(** The callback of [subscribe]. *)
Definition on_notify (chat : string) (s : orch) : orch :=
  if stopping s then s else onNewMessage chat s.

(** [processQueueItem] up to its first await. *)
Definition begin_item (item : row) (s : orch) : orch :=
  Orch (table s) (map_set (active s) (userId (payload item)) (id item)) (S (processingCount s))
    (threads s ++ [Running item]) (notifications s) (stopping s) (refused s).

(** The [finally] block, and [drainChat] up to its await. *)
Definition finally_item (item : row) (s : orch) : orch :=
  let chat := userId (payload item) in
  Orch (table s) (map_delete (active s) chat) (processingCount s - 1)
    (threads s ++ (if stopping s then [] else [Dequeuing chat]))
    (notifications s) (stopping s) (refused s).

(** How the [try] block ends: acknowledged; failed; or failed with an error in
    [queue.fail] itself, which [handleTaskFailure] swallows. *)
Inductive task_end := Success | Failure (err : string) | FailureUnrecorded.

Inductive event :=
| Enqueue (m : InboundMessage) (maxAttempts : option nat)
| Notify (i : nat)
| Query (i : nat)
| Resume (i : nat)
| TaskEnd (i : nat) (e : task_end)
| Stop
| Restart.

(** Thread [i] is replaced, or removed. *)
Definition replace_thread (i : nat) (t : thread) (s : orch) : orch :=
  set_threads (<[i := t]> (threads s)) s.
Definition remove_thread (i : nat) (s : orch) : orch :=
  set_threads (base.delete i (threads s)) s.

Definition step (s : orch) (now : Z) (ev : event) : option orch :=
  match ev with
  | Enqueue m max =>
      let '(_, q) := enqueue dflt now m max (table s) in
      Some (Orch q (active s) (processingCount s) (threads s) (notifications s ++ [userId m])
        (stopping s) (refused s))
  | Notify i =>
      match notifications s !! i with
      | None => None
      | Some chat => Some (on_notify chat
          (Orch (table s) (active s) (processingCount s) (threads s)
            (base.delete i (notifications s)) (stopping s) (refused s)))
      end
  | Query i =>
      match threads s !! i with
      | Some (Dequeuing chat) =>
          let '(item, q) := dequeueForChat chat now (table s) in
          Some (replace_thread i (Dequeued item) (set_table q s))
      | Some Scanning => Some (replace_thread i (Scanned (pendingChatIds (table s))) s)
      | _ => None
      end
  | Resume i =>
      match threads s !! i with
      | Some (Dequeued None) => Some (remove_thread i s)
      | Some (Dequeued (Some item)) => Some (begin_item item (remove_thread i s))
      | Some (Finishing item) => Some (finally_item item (remove_thread i s))
      | Some (Scanned chats) => Some (foldl (λ s chat, onNewMessage chat s) (remove_thread i s) chats)
      | _ => None
      end
  | TaskEnd i e =>
      match threads s !! i with
      | Some (Running item) =>
          let q := match e with
                   | Success => acknowledge now (id item) (table s)
                   | Failure err => fail_item now (id item) err (table s)
                   | FailureUnrecorded => table s
                   end in
          Some (replace_thread i (Finishing item) (set_table q s))
      | _ => None
      end
  | Stop => Some (Orch (table s) (active s) (processingCount s) (threads s) (notifications s) true
      (refused s))
  | Restart => Some (restart now (table s))
  end.

Fixpoint run (s : orch) (evs : list (Z * event)) : option orch :=
  match evs with
  | [] => Some s
  | (now, ev) :: evs => match step s now ev with Some s => run s evs | None => None end
  end.

Definition reachable (s : orch) : Prop :=
  ∃ evs, run (restart 0 empty_queue) evs = Some s.

(** [reachable] by rule induction. *)
Lemma run_app s evs evs' :
  run s (evs ++ evs') = match run s evs with Some s => run s evs' | None => None end.
Proof.
  revert s. induction evs as [|[now ev] evs IH]; intros s; [done|]. simpl.
  by destruct (step s now ev).
Qed.

Lemma reachable_ind (P : orch → Prop) :
  P (restart 0 empty_queue) →
  (∀ s now ev s', reachable s → P s → step s now ev = Some s' → P s') →
  ∀ s, reachable s → P s.
Proof.
  intros H0 Hs s [evs Hr]. revert s Hr. induction evs as [|[now ev] evs IH] using rev_ind; intros s.
  - by intros [= <-].
  - rewrite run_app. destruct (run _ evs) as [s1|] eqn:E; [|done]. simpl.
    destruct (step s1 now ev) as [s2|] eqn:Es; [|done]. intros [= <-].
    apply (Hs s1 now ev); [by exists evs|by apply IH|done].
Qed.

(** ** The messages in hand *)

(** The queue item a thread holds. *)
Definition held (t : thread) : list row :=
  match t with
  | Dequeued (Some item) => [item]
  | Running item => [item]
  | _ => []
  end.

Definition hands (ts : list thread) : list row := mjoin (map held ts).

(** The rows in hand are distinct rows of the table, all in processing. *)
Record hands_ok (s : orch) : Prop := {
  hands_table : queue_ok (table s);
  hands_distinct : NoDup (map id (hands (threads s)));
  hands_rows : ∀ r, r ∈ hands (threads s) → r ∈ rows (table s) ∧ status r = processing }.

Lemma hands_app ts ts' : hands (ts ++ ts') = hands ts ++ hands ts'.
Proof. unfold hands. by rewrite map_app, join_app. Qed.

(** A thread in the middle of the list. *)
Lemma thread_split (ts : list thread) i t : ts !! i = Some t →
  ∃ l r, ts = l ++ t :: r ∧ (∀ t', <[i := t']> ts = l ++ t' :: r) ∧ base.delete i ts = l ++ r.
Proof.
  intros Hi. exists (take i ts), (drop (S i) ts). split; [by rewrite take_drop_middle|].
  split; [|by rewrite delete_take_drop].
  intros t'. by apply insert_take_drop; apply lookup_lt_Some in Hi.
Qed.

Lemma hands_mid l t r : hands (l ++ t :: r) ≡ₚ held t ++ hands (l ++ r).
Proof.
  rewrite !hands_app. unfold hands. simpl. apply Permutation_app_swap_app.
Qed.

(** Replacing hands by a permutation of a part of them. *)
Lemma hands_ok_sub s s' hs :
  hands_ok s → hs ++ hands (threads s') ≡ₚ hands (threads s) → table s' = table s → hands_ok s'.
Proof.
  intros [Ht Hd Hr] Hp Et. split; rewrite ?Et; [done| |].
  - rewrite <- Hp, map_app in Hd. by apply NoDup_app in Hd as (_ & _ & ?).
  - intros r Hin. apply Hr. rewrite <- Hp. apply elem_of_app. by right.
Qed.
Lemma onNewMessage_hands chat s :
  table (onNewMessage chat s) = table s ∧ hands (threads (onNewMessage chat s)) = hands (threads s).
Proof.
  unfold onNewMessage. repeat case_match; try done. simpl. by rewrite hands_app, app_nil_r.
Qed.

Lemma scan_hands chats s :
  let s' := foldl (λ s chat, onNewMessage chat s) s chats in
  table s' = table s ∧ hands (threads s') = hands (threads s).
Proof.
  revert s. induction chats as [|c chats IH]; intros s; [done|]. simpl.
  destruct (IH (onNewMessage c s)) as [-> ->]. apply onNewMessage_hands.
Qed.

Lemma hands_ok_same s s' :
  hands_ok s → hands (threads s') = hands (threads s) → table s' = table s → hands_ok s'.
Proof. intros Hs E. apply (hands_ok_sub s s' []); [done|by rewrite E]. Qed.

(** A pending row joins the hands. *)
Lemma hands_ok_query s now chat l r :
  hands_ok s → threads s = l ++ Dequeuing chat :: r →
  let '(item, q) := dequeueForChat chat now (table s) in
  hands_ok (set_threads (l ++ Dequeued item :: r) (set_table q s)).
Proof.
  intros [Ht Hd Hr] E. rewrite E in Hd, Hr.
  assert (Hm : hands (l ++ Dequeuing chat :: r) = hands (l ++ r))
    by (rewrite !hands_app; reflexivity).
  rewrite Hm in Hd, Hr.
  pose proof (dequeue_where_spec (λ r, bool_decide (chat_id r = chat)) now (table s) Ht) as Hs.
  fold (dequeueForChat chat now (table s)) in Hs.
  destruct (dequeueForChat chat now (table s)) as [[item|] q].
  - destruct Hs as (Hq & x & Hx & _ & Hp & -> & _ & Erows).
    assert (Hne : ∀ y, y ∈ hands (l ++ r) → id y ≠ id x).
    { intros y Hy Eid. destruct (Hr y Hy) as [Hy' Hs].
      rewrite (row_by_id (table s) y x) in Hs by done. congruence. }
    split; simpl; [done| |].
    + rewrite hands_mid. simpl. apply NoDup_cons. split; [|done].
      intros (y & E1 & Hy)%list_elem_of_fmap. by apply (Hne y).
    + intros y. rewrite hands_mid. rewrite Erows. intros [->|Hy]%elem_of_cons.
      * split; [|done]. apply list_elem_of_fmap. exists x. split; [|done].
        unfold has_id. by rewrite Nat.eqb_refl.
      * destruct (Hr y Hy) as [Hy' Hsy]. split; [|done]. apply list_elem_of_fmap. exists y.
        split; [|done]. unfold has_id. rewrite (proj2 (Nat.eqb_neq _ _)); [done|by apply Hne].
  - destruct Hs as [-> _]. split; simpl; [done| |];
      rewrite ?(hands_app l), ?(hands_app l r) in *; done.
Qed.

(** A row leaves the hands when its queue item is updated. *)
Lemma hands_ok_update s f item l r :
  hands_ok s → threads s = l ++ Running item :: r → keeps_identity f →
  hands_ok (set_threads (l ++ Finishing item :: r)
    (set_table (update_where (has_id (id item)) f (table s)) s)).
Proof.
  intros [Ht Hd Hr] E Hf. rewrite E in Hd, Hr.
  assert (Hm : hands (l ++ Finishing item :: r) = hands (l ++ r))
    by (rewrite !hands_app; reflexivity).
  rewrite hands_mid in Hd. simpl in Hd. apply NoDup_cons in Hd as [Hn Hd].
  split; simpl; [by apply update_ok|by rewrite Hm|].
  rewrite Hm. intros y Hy. destruct (Hr y) as [Hy' Hs]; [rewrite hands_mid; by right|].
  split; [|done]. apply list_elem_of_fmap. exists y. split; [|done].
  unfold has_id. rewrite (proj2 (Nat.eqb_neq _ _)); [done|].
  intros Eid. apply Hn. apply list_elem_of_fmap. by exists y.
Qed.

Lemma step_hands s now ev s' : hands_ok s → step s now ev = Some s' → hands_ok s'.
Proof.
  intros Hs. pose proof Hs as [Ht Hd Hr]. destruct ev as [m max|i|i|i|i e| |]; cbn [step].
  - pose proof (enqueue_ok dflt now m max (table s) Ht) as He.
    unfold enqueue in *. intros [= <-]. split; simpl; [exact He|done|].
    intros r Hin. destruct (Hr r Hin). split; [|done]. apply elem_of_app. by left.
  - destruct (notifications s !! i) as [chat|]; [|done]. intros [= <-]. unfold on_notify.
    case_match; [by apply (hands_ok_same s)|].
    apply (hands_ok_same s); [done|exact (proj2 (onNewMessage_hands _ _))|exact (proj1 (onNewMessage_hands _ _))].
  - destruct (threads s !! i) as [t|] eqn:Ei; [|done].
    destruct (thread_split _ _ _ Ei) as (l & r & El & Erep & _).
    destruct t as [chat|item|item|item| |chats]; try done.
    + pose proof (hands_ok_query s now chat l r Hs El) as H.
      destruct (dequeueForChat chat now (table s)) as [item q]. intros [= <-].
      unfold replace_thread. simpl. by rewrite Erep.
    + intros [= <-]. apply (hands_ok_same s); [done| |done]. simpl. by rewrite Erep, El, !hands_app.
  - destruct (threads s !! i) as [t|] eqn:Ei; [|done].
    destruct (thread_split _ _ _ Ei) as (l & r & El & _ & Edel).
    assert (Hl : hands (threads s) ≡ₚ held t ++ hands (l ++ r)) by (rewrite El; apply hands_mid).
    destruct t as [chat|[item|]|item|item| |chats]; try done; intros [= <-].
    + apply (hands_ok_sub s _ []); [done| |done]. simpl. rewrite Edel, hands_app, Hl.
      apply Permutation_app_comm.
    + apply (hands_ok_sub s _ []); [done| |done]. simpl. by rewrite Edel, Hl.
    + apply (hands_ok_sub s _ []); [done| |done]. simpl. rewrite Edel, hands_app, Hl.
      destruct (stopping s); simpl; by rewrite app_nil_r.
    + destruct (scan_hands chats (remove_thread i s)) as [E1 E2].
      apply (hands_ok_sub s _ []); [done| |done]. simpl. rewrite E2. simpl. by rewrite Edel, Hl.
  - destruct (threads s !! i) as [t|] eqn:Ei; [|done].
    destruct (thread_split _ _ _ Ei) as (l & r & El & Erep & _).
    destruct t as [chat|item|item|item| |chats]; try done. intros [= <-].
    unfold replace_thread. simpl. rewrite Erep. destruct e as [|err|].
    + by apply hands_ok_update.
    + by apply hands_ok_update.
    + apply (hands_ok_sub s _ [item]); [done| |done]. simpl.
      rewrite El, (hands_mid l (Running item)). by rewrite !hands_app.
  - intros [= <-]. by apply (hands_ok_same s).
  - intros [= <-]. split; simpl; [by apply update_ok|constructor|by intros r ?%not_elem_of_nil].
Qed.

Lemma restart_hands : hands_ok (restart 0 empty_queue).
Proof. split; simpl; [by apply update_ok, empty_queue_ok|constructor|by intros r ?%not_elem_of_nil]. Qed.

Lemma reachable_hands s : reachable s → hands_ok s.
Proof.
  apply (reachable_ind hands_ok); [apply restart_hands|]. intros s1 now ev s2 _. apply step_hands.
Qed.

(** ** The messages that wait *)

(** The thread is in [processQueueItem] for the chat. *)
Definition works (c : string) (t : thread) : bool :=
  match t with
  | Running item | Finishing item => bool_decide (userId (payload item) = c)
  | _ => false
  end.

(** The thread has the queue of the chat still to look at, now or when it is done. *)
Definition serves (c : string) (t : thread) : bool :=
  match t with
  | Dequeuing c' => bool_decide (c' = c)
  | Dequeued (Some item) => bool_decide (userId (payload item) = c)
  | Dequeued None => false
  | Running _ | Finishing _ => works c t
  | Scanning => true
  | Scanned cs => bool_decide (c ∈ cs)
  end.

Definition attended (c : string) (s : orch) : Prop :=
  c ∈ notifications s ∨ existsb (serves c) (threads s) = true.

(** All that is pending is attended, but for the chats of [except]. *)
Record waiting_but (except : string → Prop) (s : orch) : Prop := {
  active_wf : map_wf (active s);
  active_works : ∀ c, map_has (active s) c = true → existsb (works c) (threads s) = true;
  pending_attended : refused s = [] → stopping s = false →
    ∀ r, r ∈ rows (table s) → status r = pending → attended (chat_id r) s ∨ except (chat_id r) }.

Definition nobody (c : string) : Prop := False.

Lemma works_serves c ts : existsb (works c) ts = true → existsb (serves c) ts = true.
Proof.
  rewrite !existsb_exists. intros (t & Ht & Hw). exists t. split; [done|]. by destruct t.
Qed.

Lemma existsb_mid (f : thread → bool) l t r :
  existsb f (l ++ t :: r) = f t || existsb f (l ++ r).
Proof. rewrite !existsb_app. simpl. by destruct (existsb f l), (f t). Qed.

Lemma existsb_snoc (f : thread → bool) l t : existsb f (l ++ [t]) = f t || existsb f l.
Proof. rewrite existsb_app. simpl. by destruct (existsb f l), (f t). Qed.

Lemma onNewMessage_mono c s :
  table (onNewMessage c s) = table s ∧ active (onNewMessage c s) = active s ∧
  stopping (onNewMessage c s) = stopping s ∧
  notifications (onNewMessage c s) = notifications s ∧
  (refused (onNewMessage c s) = [] → refused s = []) ∧
  (∀ f, existsb f (threads s) = true → existsb f (threads (onNewMessage c s)) = true).
Proof.
  unfold onNewMessage. destruct (map_has _ _); [done|]. destruct (_ <=? _); simpl; split_and!; try done.
  - intros H. by apply app_eq_nil in H as [? _].
  - intros f Hf. by rewrite existsb_snoc, Hf, orb_true_r.
Qed.

(** [onNewMessage] attends to its chat, or the limit refuses it. *)
Lemma onNewMessage_waiting (except : string → Prop) c s :
  waiting_but (λ c', c' = c ∨ except c') s → waiting_but except (onNewMessage c s).
Proof.
  intros [Hw Ha Hp]. destruct (onNewMessage_mono c s) as (Et & Ea & Es & En & Er & Ex).
  split; [by rewrite Ea|intros c' Hc; rewrite Ea in Hc; by apply Ex, Ha|].
  intros Hr Hs r Hin Hst. rewrite Et in Hin. rewrite Es in Hs.
  destruct (Hp (Er Hr) Hs r Hin Hst) as [[Hn|He]|[->|He]].
  - left. left. by rewrite En.
  - left. right. by apply Ex.
  - left. right. clear Hp. revert Hr. unfold onNewMessage.
    destruct (map_has (active s) c) eqn:E; [intros _; by apply works_serves, Ha|].
    destruct (_ <=? _); simpl; [intros H; by apply app_eq_nil in H as [_ ?]|].
    intros _. rewrite existsb_snoc. simpl. by rewrite bool_decide_true.
  - by right.
Qed.

Lemma scan_waiting cs s :
  waiting_but (λ c, c ∈ cs) s →
  waiting_but nobody (foldl (λ s chat, onNewMessage chat s) s cs).
Proof.
  revert s. induction cs as [|c cs IH]; intros s H; simpl.
  - destruct H as [? ? Hp]. split; [done..|]. intros Hr Hs r Hin Hst.
    destruct (Hp Hr Hs r Hin Hst) as [?|?%not_elem_of_nil]; [by left|done].
  - apply IH, onNewMessage_waiting. destruct H as [? ? Hp]. split; [done..|].
    intros Hr Hs r Hin Hst. destruct (Hp Hr Hs r Hin Hst) as [?|[->|?]%elem_of_cons]; auto.
Qed.

Lemma pendingChatIds_elem q r :
  r ∈ rows q → status r = pending → chat_id r ∈ pendingChatIds q.
Proof.
  intros Hr Hs. unfold pendingChatIds. rewrite merge_sort_Permutation, elem_of_remove_dups.
  apply list_elem_of_fmap. exists r. split; [done|]. apply list_elem_of_In, List.filter_In.
  split; [by apply list_elem_of_In|]. unfold has_status. by rewrite bool_decide_true.
Qed.

(** The other threads when one is replaced. *)
Lemma existsb_replace (f : thread → bool) ts i t t' :
  ts !! i = Some t → (f t = true → f t' = true) →
  existsb f ts = true → existsb f (<[i := t']> ts) = true.
Proof.
  intros Hi Hf. destruct (thread_split _ _ _ Hi) as (l & r & -> & -> & _).
  rewrite !existsb_mid. destruct (f t); [by rewrite Hf|]. simpl. intros ->. apply orb_true_r.
Qed.

Lemma existsb_remove (f : thread → bool) ts i t :
  ts !! i = Some t → f t = false → existsb f ts = true → existsb f (base.delete i ts) = true.
Proof.
  intros Hi Hf. destruct (thread_split _ _ _ Hi) as (l & r & -> & _ & ->).
  by rewrite existsb_mid, Hf.
Qed.

Lemma elem_of_remove (l : list string) i x y :
  l !! i = Some x → y ∈ l → y = x ∨ y ∈ base.delete i l.
Proof.
  intros Hi Hy. rewrite <- (take_drop_middle l i x Hi) in Hy. rewrite delete_take_drop.
  apply elem_of_app in Hy as [?|[->|?]%elem_of_cons]; rewrite elem_of_app; auto.
Qed.

Lemma map_has_set {A} (m : jsmap A) k a j :
  map_has (map_set m k a) j = bool_decide (k = j) || map_has m j.
Proof. unfold map_has. rewrite map_get_set. case_decide; [by rewrite bool_decide_true|].
  by rewrite bool_decide_false. Qed.

Lemma map_has_delete {A} (m : jsmap A) k j : map_wf m →
  map_has (map_delete m k) j = negb (bool_decide (k = j)) && map_has m j.
Proof. intros. unfold map_has. rewrite map_get_delete by done. case_decide;
  [by rewrite bool_decide_true|by rewrite bool_decide_false]. Qed.

(** The rows pending after [f] are pending before, or the chat [c] has them. *)
Definition pending_from (c : string) (q q' : queue) : Prop :=
  ∀ r, r ∈ rows q' → status r = pending → (r ∈ rows q) ∨ chat_id r = c.

Lemma replace_waiting s i t t' c q :
  waiting_but nobody s → threads s !! i = Some t →
  (∀ c', works c' t = works c' t') →
  (∀ c', serves c' t = true → serves c' t' = true ∨ ¬ ∃ r, r ∈ rows q ∧ status r = pending ∧ chat_id r = c') →
  pending_from c (table s) q → (serves c t' = true ∨ ¬ ∃ r, r ∈ rows q ∧ status r = pending ∧ chat_id r = c) →
  waiting_but nobody (replace_thread i t' (set_table q s)).
Proof.
  intros [Hw Ha Hp] Hi Hwk Hsv Hq Hc. split; simpl; [done| |].
  - intros c' Hc'. apply (existsb_replace _ _ _ t); [done|by rewrite Hwk|by apply Ha].
  - intros Hr Hs r Hin Hst. left.
    destruct (Hq r Hin Hst) as [Hin'|Ec].
    + destruct (Hp Hr Hs r Hin' Hst) as [[Hn|He]|[]]; [by left|]. right. simpl.
      destruct (thread_split _ _ _ Hi) as (l & rr & El & Erep & _). rewrite El, existsb_mid in He.
      rewrite Erep, existsb_mid. destruct (serves (chat_id r) t) eqn:E.
      * destruct (Hsv _ E) as [->|Hno]; [done|]. exfalso. apply Hno. by exists r.
      * simpl in He. by rewrite He, orb_true_r.
    + right. simpl. destruct (thread_split _ _ _ Hi) as (l & rr & El & Erep & _).
      rewrite Erep, existsb_mid, Ec. destruct Hc as [->|Hno]; [done|].
      exfalso. apply Hno. by exists r.
Qed.

Lemma query_waiting s now i chat :
  hands_ok s → waiting_but nobody s → threads s !! i = Some (Dequeuing chat) →
  let '(item, q) := dequeueForChat chat now (table s) in
  waiting_but nobody (replace_thread i (Dequeued item) (set_table q s)).
Proof.
  intros [Ht _ _] Hs Hi.
  pose proof (dequeue_where_spec (λ r, bool_decide (chat_id r = chat)) now (table s) Ht) as Hd.
  fold (dequeueForChat chat now (table s)) in Hd.
  destruct (dequeueForChat chat now (table s)) as [[item|] q].
  - destruct Hd as (_ & x & Hx & Hc & _ & -> & _ & Er). apply bool_decide_eq_true in Hc.
    assert (Eu : userId (payload x) = chat).
    { destruct Ht as [_ _ Hm]. rewrite Forall_forall in Hm. rewrite <- Hc. symmetry. by apply Hm. }
    apply (replace_waiting s i (Dequeuing chat) _ chat); try done.
    + intros c Hc'. left. simpl in *. bool_cases. apply bool_decide_eq_true. congruence.
    + intros r Hr Hst. left. rewrite Er in Hr. apply list_elem_of_fmap in Hr as (y & -> & Hy).
      by destruct (has_id (id x) y).
    + left. simpl. by rewrite bool_decide_true.
  - destruct Hd as [-> Hno]. apply (replace_waiting s i (Dequeuing chat) _ chat); try done.
    + intros c Hc'. right. simpl in Hc'. bool_cases. subst c. intros (r & Hr & Hst & Hc).
      apply (Hno r Hr); [|done]. by apply bool_decide_eq_true.
    + intros r Hr Hst. by left.
    + right. intros (r & Hr & Hst & Hc). apply (Hno r Hr); [|done]. by apply bool_decide_eq_true.
Qed.

Lemma update_pending_from s item f :
  hands_ok s → item ∈ hands (threads s) → keeps_identity f →
  pending_from (userId (payload item)) (table s) (update_where (has_id (id item)) f (table s)).
Proof.
  intros [Ht _ Hr] Hin Hf r Hr' Hst. simpl in Hr'. apply list_elem_of_fmap in Hr' as (y & -> & Hy).
  destruct (has_id (id item) y) eqn:E; [|by left]. right. apply Nat.eqb_eq in E.
  destruct (Hr item Hin) as [Hit _]. rewrite (row_by_id (table s) y item) by done.
  destruct (Hf item) as (_ & -> & _). destruct Ht as [_ _ Hm]. rewrite Forall_forall in Hm. by apply Hm.
Qed.

Lemma task_end_waiting s i item q :
  waiting_but nobody s → threads s !! i = Some (Running item) →
  pending_from (userId (payload item)) (table s) q →
  waiting_but nobody (replace_thread i (Finishing item) (set_table q s)).
Proof.
  intros Hs Hi Hq. apply (replace_waiting s i (Running item) _ (userId (payload item))); try done.
  - by left.
  - left. simpl. by rewrite bool_decide_true.
Qed.

Lemma resume_waiting s i s' now :
  waiting_but nobody s → step s now (Resume i) = Some s' → waiting_but nobody s'.
Proof.
  intros [Hw Ha Hp]. cbn [step]. destruct (threads s !! i) as [t|] eqn:Hi; [|done].
  destruct t as [chat|[item|]|item|item| |chats]; try done; intros [= <-].
  - (* the item starts *)
    split; simpl; [by apply map_wf_set| |].
    + intros c. rewrite map_has_set, existsb_snoc. simpl. intros Hc.
      destruct (bool_decide (userId (payload item) = c)); [done|]. simpl in *.
      apply (existsb_remove _ _ _ (Dequeued (Some item))); [done|done|by apply Ha].
    + intros Hr Hs r Hin Hst. left.
      destruct (Hp Hr Hs r Hin Hst) as [[Hn|He]|[]]; [by left|]. right. simpl.
      rewrite existsb_snoc. simpl. destruct (bool_decide (userId (payload item) = chat_id r)) eqn:E; [done|].
      simpl. by apply (existsb_remove _ _ _ (Dequeued (Some item))).
  - (* there was none *)
    split; simpl; [done| |].
    + intros c Hc. apply (existsb_remove _ _ _ (Dequeued None)); [done|done|by apply Ha].
    + intros Hr Hs r Hin Hst. left.
      destruct (Hp Hr Hs r Hin Hst) as [[Hn|He]|[]]; [by left|]. right. simpl.
      by apply (existsb_remove _ _ _ (Dequeued None)).
  - (* the item is done *)
    split; simpl; [by apply map_wf_delete| |].
    + intros c. rewrite map_has_delete by done. intros [Hne Hc]%andb_prop.
      rewrite existsb_app. rewrite (existsb_remove _ _ _ (Finishing item)); [done|done| |by apply Ha].
      simpl. by apply negb_true_iff.
    + intros Hr Hs r Hin Hst. left.
      destruct (Hp Hr Hs r Hin Hst) as [[Hn|He]|[]]; [by left|]. right. simpl. rewrite Hs.
      rewrite existsb_snoc. simpl. destruct (bool_decide (userId (payload item) = chat_id r)) eqn:E; [done|].
      simpl. by apply (existsb_remove _ _ _ (Finishing item)).
  - (* the scan *)
    apply scan_waiting. split; simpl; [done| |].
    + intros c Hc. apply (existsb_remove _ _ _ (Scanned chats)); [done|done|by apply Ha].
    + intros Hr Hs r Hin Hst.
      destruct (Hp Hr Hs r Hin Hst) as [[Hn|He]|[]]; [by left; left|].
      destruct (bool_decide (chat_id r ∈ chats)) eqn:E; [right; by bool_cases|].
      left. right. simpl. by apply (existsb_remove _ _ _ (Scanned chats)).
Qed.

Lemma step_waiting s now ev s' :
  hands_ok s → waiting_but nobody s → step s now ev = Some s' → waiting_but nobody s'.
Proof.
  intros Hh Hs. destruct ev as [m max|i|i|i|i e| |].
  - cbn [step enqueue]. intros [= <-]. destruct Hs as [Hw Ha Hp]. split; simpl; [done..|].
    intros Hr Hst r [Hin|Hin]%elem_of_app Hpend; left.
    + destruct (Hp Hr Hst r Hin Hpend) as [[Hn|He]|[]]; [|by right].
      left. simpl. apply elem_of_app. by left.
    + apply list_elem_of_singleton in Hin as ->. left. simpl. apply elem_of_app. right. by left.
  - cbn [step]. destruct (notifications s !! i) as [chat|] eqn:Hi; [|done]. intros [= <-].
    unfold on_notify. destruct Hs as [Hw Ha Hp]. simpl. destruct (stopping s) eqn:Es.
    + split; simpl; [done|done|]. intros _ ?. congruence.
    + apply onNewMessage_waiting. split; simpl; [done|done|].
      intros Hr Hst r Hin Hpend. destruct (Hp Hr Hst r Hin Hpend) as [[Hn|He]|[]].
      * destruct (elem_of_remove _ _ _ _ Hi Hn) as [->|?]; [right; by left|]. left. by left.
      * left. by right.
  - cbn [step]. destruct (threads s !! i) as [t|] eqn:Hi; [|done].
    destruct t as [chat|item|item|item| |chats]; try done.
    + pose proof (query_waiting s now i chat Hh Hs Hi) as H.
      destruct (dequeueForChat chat now (table s)) as [item q]. by intros [= <-].
    + intros [= <-]. replace s with (set_table (table s) s) at 2 by (by destruct s).
      apply (replace_waiting s i Scanning _ ""%string); try done.
      * intros c _. destruct (decide (c ∈ pendingChatIds (table s))) as [?|Hn].
        -- left. simpl. by apply bool_decide_eq_true.
        -- right. intros (r & Hr & Hst & <-). apply Hn. by apply pendingChatIds_elem.
      * intros r Hr Hst. by left.
      * destruct (decide (""%string ∈ pendingChatIds (table s))) as [?|Hn].
        -- left. simpl. by apply bool_decide_eq_true.
        -- right. intros (r & Hr & Hst & E). apply Hn. rewrite <- E. by apply pendingChatIds_elem.
  - by apply resume_waiting.
  - cbn [step]. destruct (threads s !! i) as [t|] eqn:Hi; [|done].
    destruct t as [chat|item|item|item| |chats]; try done. intros [= <-].
    assert (Hin : item ∈ hands (threads s)).
    { destruct (thread_split _ _ _ Hi) as (l & r & -> & _). rewrite hands_mid. by left. }
    apply task_end_waiting; [done|done|].
    destruct e as [|err|]; [by apply update_pending_from|by apply update_pending_from|].
    intros r Hr _. by left.
  - cbn [step]. intros [= <-]. destruct Hs as [Hw Ha Hp]. by split.
  - cbn [step]. intros [= <-]. split; simpl; [apply map_wf_nil|done|].
    intros _ _ r _ _. left. by right.
Qed.

Lemma reachable_waiting s : reachable s → hands_ok s ∧ waiting_but nobody s.
Proof.
  apply (reachable_ind (λ s, hands_ok s ∧ waiting_but nobody s)).
  - split; [apply restart_hands|]. split; simpl; [apply map_wf_nil|done|by intros _ _ r ?%not_elem_of_nil].
  - intros s1 now ev s2 _ [Hh Hs] Hst. split; [by eapply step_hands|by eapply step_waiting].
Qed.

(** ** The count of tasks *)

Definition in_task (t : thread) : bool :=
  match t with Running _ | Finishing _ => true | _ => false end.

Definition counted (s : orch) : Prop :=
  processingCount s = length (List.filter in_task (threads s)).

Lemma tasks_mid l t r :
  length (List.filter in_task (l ++ t :: r)) =
  (if in_task t then 1 else 0) + length (List.filter in_task (l ++ r)).
Proof. rewrite !List.filter_app. simpl. rewrite !length_app. destruct (in_task t); simpl; lia. Qed.

Lemma onNewMessage_counted c s : counted s → counted (onNewMessage c s).
Proof.
  unfold counted, onNewMessage. intros H. repeat case_match; simpl; try done.
  by rewrite List.filter_app, app_nil_r.
Qed.

Lemma scan_counted cs s : counted s → counted (foldl (λ s chat, onNewMessage chat s) s cs).
Proof. revert s. induction cs as [|c cs IH]; intros s H; [done|]. by apply IH, onNewMessage_counted. Qed.

Lemma step_counted s now ev s' : counted s → step s now ev = Some s' → counted s'.
Proof.
  intros Hc. destruct ev as [m max|i|i|i|i e| |]; cbn [step].
  - unfold enqueue. by intros [= <-].
  - destruct (notifications s !! i); [|done]. intros [= <-]. unfold on_notify.
    case_match; [done|by apply onNewMessage_counted].
  - destruct (threads s !! i) as [t|] eqn:Hi; [|done].
    destruct (thread_split _ _ _ Hi) as (l & r & El & Erep & _).
    unfold counted in *. rewrite El, tasks_mid in Hc. destruct t; try done.
    + destruct (dequeueForChat _ _ _) as [item q]. intros [= <-]. simpl. by rewrite Erep, tasks_mid.
    + intros [= <-]. simpl. by rewrite Erep, tasks_mid.
  - destruct (threads s !! i) as [t|] eqn:Hi; [|done].
    destruct (thread_split _ _ _ Hi) as (l & r & El & _ & Edel).
    unfold counted in *. rewrite El, tasks_mid in Hc.
    destruct t as [chat|[item|]|item|item| |chats]; try done; intros [= <-]; simpl in *.
    + rewrite Edel, tasks_mid, app_nil_r. simpl. by rewrite Hc.
    + by rewrite Edel.
    + rewrite Edel, Hc. destruct (stopping s).
      * rewrite app_nil_r. lia.
      * rewrite tasks_mid, app_nil_r. simpl. lia.
    + apply scan_counted. unfold counted. simpl. by rewrite Edel.
  - destruct (threads s !! i) as [t|] eqn:Hi; [|done].
    destruct (thread_split _ _ _ Hi) as (l & r & El & Erep & _).
    unfold counted in *. rewrite El, tasks_mid in Hc. destruct t; try done. intros [= <-].
    simpl. by rewrite Erep, tasks_mid.
  - by intros [= <-].
  - by intros [= <-].
Qed.

Lemma reachable_counted s : reachable s → counted s.
Proof. apply (reachable_ind counted); [done|]. intros s1 now ev s2 _. apply step_counted. Qed.
End Steps.

(** ** The theorems *)

(** C4: in every interleaving of notifications, queries, task ends and restarts,
    the messages the running calls hold are distinct rows of the queue, all in
    processing, so that no message is processed by two calls at once; and
    [processingCount] is the number of calls inside [processQueueItem]. *)
Theorem no_message_in_two_hands max dflt s :
  reachable max dflt s →
  NoDup (map id (hands (threads s))) ∧
  (∀ r, r ∈ hands (threads s) → r ∈ rows (table s) ∧ status r = processing) ∧
  processingCount s = length (List.filter in_task (threads s)).
Proof.
  intros Hr. destruct (reachable_hands max dflt s Hr) as [_ ? ?]. split; [done|]. split; [done|].
  by apply (reachable_counted max dflt).
Qed.

(** C5: nothing is forgotten: as long as the concurrency limit has turned no chat
    away and the orchestrator is not stopping, every pending message belongs to
    a chat with a notification under way or a call that will still look at its
    queue; at rest, no message is pending. *)
Theorem no_message_stranded max dflt s :
  reachable max dflt s → refused s = [] → stopping s = false →
  (∀ r, r ∈ rows (table s) → status r = pending → attended (chat_id r) s) ∧
  (threads s = [] → notifications s = [] → pendingCount (table s) = 0).
Proof.
  intros Hr Hf Hs. destruct (reachable_waiting max dflt s Hr) as [_ [_ _ Hp]].
  assert (Hatt : ∀ r, r ∈ rows (table s) → status r = pending → attended (chat_id r) s)
    by (intros r Hin Hst; by destruct (Hp Hf Hs r Hin Hst)).
  split; [done|]. intros Ht Hn. unfold pendingCount, count_status.
  destruct (List.filter _ _) as [|r rs] eqn:E; [done|]. exfalso.
  assert (Hin : In r (List.filter (has_status pending) (rows (table s)))) by (rewrite E; by left).
  apply List.filter_In in Hin as [Hin%list_elem_of_In Hst]. unfold has_status in Hst. bool_cases.
  destruct (Hatt r Hin Hst) as [H|H].
  - rewrite Hn in H. by apply not_elem_of_nil in H.
  - by rewrite Ht in H.
Qed.

Definition example_chat (n : string) : string := ("tg:" ++ n)%string.

(** A message is taken, fails, is taken again by [drainChat] and succeeds. *)
Definition example_run : list (Z * event) :=
  [(1, Query 0); (2, Resume 0); (3, Enqueue (example_message "m1" "tg:1") None); (4, Notify 0);
   (5, Query 0); (6, Resume 0); (7, TaskEnd 0 (Failure "boom")); (8, Resume 0);
   (9, Query 0); (10, Resume 0); (11, TaskEnd 0 Success); (12, Resume 0); (13, Query 0);
   (14, Resume 0)]%Z.

Lemma no_message_in_two_hands_witness :
  ∃ s, run 5 3 (restart 0 empty_queue) (take 6 example_run) = Some s ∧
    length (hands (threads s)) = 1 ∧ NoDup (map id (hands (threads s))).
Proof.
  destruct (run 5 3 (restart 0 empty_queue) (take 6 example_run)) as [s|] eqn:E;
    [|vm_compute in E; discriminate E].
  exists s. split; [reflexivity|]. split; [vm_compute in E; injection E as <-; reflexivity|].
  apply (no_message_in_two_hands 5 3 s). exists (take 6 example_run). exact E.
Defined.

Lemma no_message_stranded_witness :
  ∃ s, run 5 3 (restart 0 empty_queue) example_run = Some s ∧
    map attempts (rows (table s)) = [2] ∧ pendingCount (table s) = 0.
Proof.
  destruct (run 5 3 (restart 0 empty_queue) example_run) as [s|] eqn:E;
    [|vm_compute in E; discriminate E].
  exists s. split; [reflexivity|].
  assert (Hs : refused s = [] ∧ stopping s = false ∧ threads s = [] ∧ notifications s = [] ∧
    map attempts (rows (table s)) = [2]) by (vm_compute in E; injection E as <-; repeat split).
  destruct Hs as (Hf & Hs & Ht & Hn & Ha). split; [exact Ha|].
  apply (no_message_stranded 5 3 s (ex_intro _ example_run E) Hf Hs); [exact Ht|exact Hn].
Defined.

(** A chat that the concurrency limit turns away is not come back to when a
    slot is free: the orchestrator can come to rest, with no call running and
    no notification under way, while the queue holds a pending message. *)
Theorem limit_strands_message :
  ∃ s, reachable 1 3 s ∧ threads s = [] ∧ notifications s = [] ∧ stopping s = false ∧
       pendingCount (table s) = 1.
Proof.
  set (evs := [(1, Query 0); (2, Resume 0); (3, Enqueue (example_message "m1" "tg:1") None); (4, Notify 0);
    (5, Query 0); (6, Resume 0); (7, Enqueue (example_message "m2" "tg:2") None); (8, Notify 0);
    (9, TaskEnd 0 Success); (10, Resume 0); (11, Query 0); (12, Resume 0)]%Z).
  destruct (run 1 3 (restart 0 empty_queue) evs) as [s|] eqn:E; [|vm_compute in E; discriminate E].
  exists s. split; [by exists evs|]. vm_compute in E. injection E as <-. by repeat split.
Qed.

(** Neither one task per chat nor the limit of concurrent tasks is kept.
    Under a limit of one, two messages of one chat that arrive together run at
    the same time, because the test comes before the await and the entry of
    [activeTasks] after it; and the scan at start runs three chats at once. *)
Theorem concurrency_limits_broken :
  (∃ s r1 r2, reachable 1 3 s ∧ threads s = [Running r1; Running r2] ∧
     userId (payload r1) = userId (payload r2) ∧ id r1 ≠ id r2) ∧
  (∃ s, reachable 1 3 s ∧ processingCount s = 3 ∧ length (active s) = 3).
Proof.
  split.
  - set (evs := [(1, Query 0); (2, Resume 0); (3, Enqueue (example_message "m1" "tg:1") None);
      (4, Enqueue (example_message "m2" "tg:1") None); (5, Notify 0); (6, Notify 0);
      (7, Query 0); (8, Query 1); (9, Resume 0); (10, Resume 0)]%Z).
    destruct (run 1 3 (restart 0 empty_queue) evs) as [s|] eqn:E; [|vm_compute in E; discriminate E].
    vm_compute in E. assert (Hr : reachable 1 3 s) by (by exists evs). injection E as <-.
    eexists _, _, _. split; [exact Hr|]. split; [reflexivity|]. by split.
  - set (evs := [(1, Enqueue (example_message "m1" "tg:1") None);
      (2, Enqueue (example_message "m2" "tg:2") None); (3, Enqueue (example_message "m3" "tg:3") None);
      (4, Restart); (5, Query 0); (6, Resume 0); (7, Query 0); (8, Query 1); (9, Query 2);
      (10, Resume 0); (11, Resume 0); (12, Resume 0)]%Z).
    destruct (run 1 3 (restart 0 empty_queue) evs) as [s|] eqn:E; [|vm_compute in E; discriminate E].
    vm_compute in E. assert (Hr : reachable 1 3 s) by (by exists evs). injection E as <-.
    eexists _. split; [exact Hr|]. by split.
Qed.

(** When a task fails and the failure is recorded, its row is the item the
    call holds with the error, and the user is told that the message was given
    up exactly when the row went to the dead letters. *)
Theorem failure_notice_dead_letter max dflt s now i item err s' r :
  reachable max dflt s → threads s !! i = Some (Running item) →
  step max dflt s now (TaskEnd i (Failure err)) = Some s' →
  r ∈ rows (table s') → id r = id item →
  payload r = payload item ∧ error r = Some err ∧
  status r = (if failure_notice item then dead_letter else pending).
Proof.
  intros Hre Hi. destruct (reachable_hands max dflt s Hre) as [Ht _ Hrows]. cbn [step]. rewrite Hi.
  intros [= <-] Hr Hid. simpl in Hr.
  assert (Hin : item ∈ rows (table s)).
  { apply Hrows. destruct (thread_split _ _ _ Hi) as (l & rr & -> & _). rewrite hands_mid. by left. }
  apply list_elem_of_fmap in Hr as (y & -> & Hy).
  destruct (has_id (id item) y) eqn:E; [|by apply Nat.eqb_neq in E].
  apply Nat.eqb_eq in E. by rewrite (row_by_id (table s) y item).
Qed.

Lemma failure_notice_dead_letter_witness :
  ∃ s' r, r ∈ rows (table s') ∧ status r = dead_letter ∧ error r = Some "boom"%string.
Proof.
  set (evs := [(1, Query 0); (2, Resume 0); (3, Enqueue (example_message "m1" "tg:1") (Some 1%nat));
    (4, Notify 0); (5, Query 0); (6, Resume 0)]%Z).
  destruct (run 5 3 (restart 0 empty_queue) evs) as [s|] eqn:E; [|vm_compute in E; discriminate E].
  destruct (threads s !! 0) as [[| |item| | |]|] eqn:Ei;
    try (vm_compute in E; injection E as <-; vm_compute in Ei; discriminate Ei).
  destruct (step 5 3 s 7 (TaskEnd 0 (Failure "boom"))) as [s'|] eqn:Es;
    [|cbn [step] in Es; rewrite Ei in Es; discriminate Es].
  destruct (rows (table s')) as [|r rs] eqn:Er.
  { vm_compute in E. injection E as <-. vm_compute in Es. injection Es as <-. discriminate Er. }
  assert (Hr : r ∈ rows (table s')) by (rewrite Er; left).
  exists s', r. split; [exact Hr|].
  assert (Hid : id r = id item ∧ failure_notice item = true).
  { vm_compute in E. injection E as <-. vm_compute in Ei. injection Ei as <-.
    vm_compute in Es. injection Es as <-. simpl in Er. injection Er as <- _. by split. }
  destruct Hid as [Hid Hf].
  destruct (failure_notice_dead_letter 5 3 s 7 0 item "boom" s' r
    (ex_intro _ evs E) Ei Es Hr Hid) as (_ & He & Hst).
  rewrite Hf in Hst. split; [exact Hst|exact He].
Defined.

(** ** A retried voice message *)

(** The files of the shared directory, by name; the service transcribes the
    files that are there. *)
Definition service (stt : string → string) (files : list string) (path : string) : option string :=
  if bool_decide (basename path ∈ files) then Some (stt (basename path)) else None.

(** One attempt at an item, as far as its text: the text and the files left. *)
Definition attempt_text (stt : string → string) (prefix : string) (files : list string)
  (m : InboundMessage) : option string * list string :=
  let '(m', gone) := transcribe_step (Some (service stt files)) prefix m in
  (text m', match gone with
            | Some p => List.filter (λ f, negb (bool_decide (f = basename p))) files
            | None => files
            end).

Lemma filter_gone (f : string) (files : list string) : f ∉ List.filter (λ g, negb (bool_decide (g = f))) files.
Proof.
  rewrite list_elem_of_In, List.filter_In, negb_true_iff. intros [_ H]. bool_cases. done.
Qed.

(** The audio file of a voice message is unlinked by the first attempt, and
    the queue keeps the original message, so that the retry of a task that
    failed after its transcription gets the fallback text instead. *)
Theorem retry_loses_transcription stt prefix files m path :
  audioPath m = Some path → str_truthy path = true →
  basename (toServicePath prefix path) = basename path → basename path ∈ files →
  let '(first, files') := attempt_text stt prefix files m in
  first = Some (caption m ++ "[Voice message transcription]: " ++ stt (basename path))%string ∧
  (attempt_text stt prefix files' m).1 = Some (text_or m "[Voice message could not be transcribed]").
Proof.
  intros Hp Ht Hb Hin. unfold attempt_text, transcribe_step. rewrite Hp. cbn [opt_truthy default].
  rewrite Ht. simpl. unfold service. rewrite Hb, bool_decide_true by done. split; [done|].
  rewrite bool_decide_false by apply filter_gone. done.
Qed.

Lemma retry_loses_transcription_witness :
  let m := Inbound "m1" "telegram" "tg:1" "Ann" None (Some "/home/a/downloads/v.ogg"%string) None None 0
    false JNull in
  let '(first, files') := attempt_text (λ _, "hello"%string) "/downloads" ["v.ogg"%string] m in
  first = Some "[Voice message transcription]: hello"%string ∧
  (attempt_text (λ _, "hello"%string) "/downloads" files' m).1 =
    Some "[Voice message could not be transcribed]"%string.
Proof.
  intros m. apply (retry_loses_transcription (λ _, "hello"%string) "/downloads" ["v.ogg"%string] m
    "/home/a/downloads/v.ogg"); [reflexivity|reflexivity|reflexivity|left].
Defined.

(** * The health monitor

    [src/orchestrator/health.ts]: the state of the monitored components and their checks,
    with the interval to the next one.  Intervals and the multiplier are integers, as the
    defaults are; a result above the limit is the limit, so their rounding at large powers
    has no effect.  Checks and restarts are outside: what they give is an argument.  The
    timers between the checks are the events of a run. *)

Module Health.
Local Open Scope Z_scope.
Local Open Scope list_scope.

Record HealthMonitorOptions := Options { baseInterval : Z; maxBackoff : Z; backoffMultiplier : Z }.

Definition DEFAULTS : HealthMonitorOptions := Options 30000 300000 2.

Record ComponentHealth := Health {
  healthy : bool;
  lastCheck : Z;
  lastHealthy : option Z;
  consecutiveFailures : nat;
  currentInterval : Z }.

(** A check gives its verdict or throws; a target may be restarted. *)
Inductive checked := Verdict (b : bool) | Thrown.
Record target := Target { target_name : string; restartable : bool }.

Section Monitor.
Context (o : HealthMonitorOptions).

Definition calculateBackoff (failures : nat) : Z :=
  if (failures =? 0)%nat then baseInterval o
  else Z.min (baseInterval o * backoffMultiplier o ^ Z.of_nat failures) (maxBackoff o).

Definition initial (now : Z) : ComponentHealth := Health true now None 0 (baseInterval o).

Definition monitor (now : Z) (targets : list target) : jsmap ComponentHealth :=
  fold_left (λ m t, map_set m (target_name t) (initial now)) targets [].

(** The state after a check, and whether the target is then restarted. *)
Definition checkTarget (t : target) (now : Z) (c : checked) (m : jsmap ComponentHealth) : jsmap ComponentHealth * bool :=
  match map_get m (target_name t) with
  | None => (m, false)
  | Some h =>
      let n := S (consecutiveFailures h) in
      let failed := Health false now (lastHealthy h) n (calculateBackoff n) in
      match c with
      | Verdict true => (map_set m (target_name t) (Health true now (Some now) 0 (baseInterval o)), false)
      | Verdict false => (map_set m (target_name t) failed, restartable t && (n <=? 3)%nat)
      | Thrown => (map_set m (target_name t) failed, false)
      end
  end.

Definition isHealthy (m : jsmap ComponentHealth) (name : string) : bool :=
  match map_get m name with Some h => healthy h | None => false end.

Definition getAllHealth (m : jsmap ComponentHealth) : list ComponentHealth := map snd m.

(** What [scheduleNext] waits for. *)
Definition next_check (m : jsmap ComponentHealth) (name : string) : Z :=
  match map_get m name with Some h => currentInterval h | None => baseInterval o end.

(** ** Runs of one target *)

Fixpoint checks (t : target) (m : jsmap ComponentHealth) (l : list (Z * checked)) : jsmap ComponentHealth * nat :=
  match l with
  | [] => (m, 0%nat)
  | (now, c) :: l =>
      let '(m1, r) := checkTarget t now c m in
      let '(m2, n) := checks t m1 l in
      (m2, ((if r then 1 else 0) + n)%nat)
  end.

(** A component is healthy exactly when it has no failures to its name, and its interval
    is the one of that number. *)
Definition health_ok (h : ComponentHealth) : Prop :=
  healthy h = (consecutiveFailures h =? 0)%nat ∧ currentInterval h = calculateBackoff (consecutiveFailures h).

Definition monitor_ok (m : jsmap ComponentHealth) : Prop := ∀ name h, map_get m name = Some h → health_ok h.

Lemma set_ok m name h : monitor_ok m → health_ok h → monitor_ok (map_set m name h).
Proof.
  intros Hm Hh name' h'. rewrite map_get_set. case_decide; [by intros [= <-]|apply Hm].
Qed.

Lemma monitor_new_ok now targets : monitor_ok (monitor now targets).
Proof.
  unfold monitor. assert (H : ∀ m, monitor_ok m → monitor_ok (fold_left (λ m t, map_set m (target_name t) (initial now)) targets m)).
  { induction targets as [|t l IH]; intros m Hm; [done|]. simpl. by apply IH, set_ok. }
  by apply H.
Qed.

Lemma checkTarget_ok t now c m : monitor_ok m → monitor_ok (checkTarget t now c m).1.
Proof.
  intros Hm. unfold checkTarget. destruct (map_get m (target_name t)) as [h|]; [|done].
  by destruct c as [[]|]; apply set_ok.
Qed.

(** The interval never falls below the base, never exceeds the limit and never shrinks
    while failures go on. *)
Lemma backoff_bounds n : 0 < baseInterval o → baseInterval o ≤ maxBackoff o → 1 ≤ backoffMultiplier o →
  baseInterval o ≤ calculateBackoff n ≤ maxBackoff o.
Proof.
  intros Hb Hm Hx. unfold calculateBackoff. destruct (n =? 0)%nat; [lia|].
  assert (1 ≤ backoffMultiplier o ^ Z.of_nat n) by (apply Z.lt_pred_le; simpl; apply Z.pow_pos_nonneg; lia). nia.
Qed.

Lemma backoff_mono n : 0 < baseInterval o → baseInterval o ≤ maxBackoff o → 1 ≤ backoffMultiplier o →
  calculateBackoff n ≤ calculateBackoff (S n).
Proof.
  intros Hb Hm Hx. pose proof (backoff_bounds (S n) Hb Hm Hx) as Hs. unfold calculateBackoff in *.
  destruct (n =? 0)%nat eqn:E; [lia|]. simpl (S n =? 0)%nat in *. cbn iota in *.
  assert (backoffMultiplier o ^ Z.of_nat n ≤ backoffMultiplier o ^ Z.of_nat (S n)) by (apply Z.pow_le_mono_r; lia). nia.
Qed.

(** Restarts of a run of failures are at most three. *)
Lemma failing_restarts t m l h : map_get m (target_name t) = Some h →
  Forall (λ x, x.2 ≠ Verdict true) l → ((checks t m l).2 ≤ 3 - consecutiveFailures h)%nat.
Proof.
  revert m h. induction l as [|[now c] l IH]; intros m h Hh Hl; simpl; [lia|].
  apply Forall_cons in Hl as [Hc Hl]. unfold checkTarget. rewrite Hh.
  set (f := Health false now (lastHealthy h) (S (consecutiveFailures h)) (calculateBackoff (S (consecutiveFailures h)))).
  specialize (IH (map_set m (target_name t) f) f). rewrite map_get_set_eq in IH. specialize (IH eq_refl Hl). simpl in IH.
  destruct c as [[]|]; [done|..]; destruct (checks t _ l) as [m2 n]; simpl in *.
  - destruct (restartable t); simpl; [|lia]. destruct (consecutiveFailures h) as [|[|[|k]]]; simpl in *; lia.
  - lia.
Qed.

(** Whatever the checks give, a component is healthy exactly when it has no failures to
    its name; its next check is due after an interval between the base and the limit; and
    while it goes on failing it is restarted three times at most. *)
Theorem checks_stay_ok t now0 targets l : 0 < baseInterval o → baseInterval o ≤ maxBackoff o → 1 ≤ backoffMultiplier o →
  monitor_ok (checks t (monitor now0 targets) l).1 ∧
  (∀ name, baseInterval o ≤ next_check (checks t (monitor now0 targets) l).1 name ≤ maxBackoff o) ∧
  (Forall (λ x, x.2 ≠ Verdict true) l → ((checks t (monitor now0 targets) l).2 ≤ 3)%nat).
Proof.
  intros Hb Hm Hx. assert (Hok : monitor_ok (checks t (monitor now0 targets) l).1).
  { generalize (monitor_new_ok now0 targets). generalize (monitor now0 targets).
    induction l as [|[now c] l IH]; intros m Hok; simpl; [done|].
    pose proof (checkTarget_ok t now c m Hok) as H1. destruct (checkTarget t now c m) as [m1 r]. simpl in H1.
    specialize (IH m1 H1). by destruct (checks t m1 l). }
  split; [done|]. split.
  - intros name. unfold next_check. destruct (map_get _ name) as [h|] eqn:E; [|lia].
    destruct (Hok name h E) as [_ ->]. by apply backoff_bounds.
  - intros Hl. destruct (map_get (monitor now0 targets) (target_name t)) as [h|] eqn:E.
    + pose proof (failing_restarts t _ l h E Hl). lia.
    + assert (Hn : ∀ l, checks t (monitor now0 targets) l = (monitor now0 targets, 0%nat)).
      { clear -E. intros l. induction l as [|[now c] l IH]; simpl; [done|]. unfold checkTarget. by rewrite E, IH. }
      rewrite Hn. simpl. lia.
Qed.
End Monitor.

Lemma checks_stay_ok_witness :
  let t := Target "proxy" true in
  let l := [(1, Verdict false); (2, Verdict false); (3, Thrown); (4, Verdict false); (5, Verdict false)] in
  let m := (checks DEFAULTS t (monitor DEFAULTS 0 [t]) l).1 in
  next_check DEFAULTS m "proxy" = 300000 ∧ isHealthy m "proxy" = false ∧ monitor_ok DEFAULTS m.
Proof.
  intros t l m. split; [vm_compute; reflexivity|]. split; [vm_compute; reflexivity|].
  apply (checks_stay_ok DEFAULTS t 0 [t] l); vm_compute; intuition discriminate.
Defined.
End Health.
