(* ===== verification/ProxyRules.v ===== *)
(** * Credential rules of the proxy

    [src/proxy/credential-schema.ts] after parsing: the rules, the matching of
    hosts, the filter by billing method and the choice by request headers; the
    enforcement of request rules of [src/proxy/mitm-handler.ts] and
    [src/proxy/proxy-server.ts]; and [src/proxy/placeholders.ts]. *)

From Stdlib Require Import Ascii.
From S2P Require Import Prelude JsMap JsString.

Inductive credential_method := OAuth | ApiKey.

#[export] Instance credential_method_eq_dec : EqDecision credential_method.
Proof. solve_decision. Defined.

Record rate_limit := RateLimit { requests : nat; windowSeconds : Z }.

Record request_rules := Rules {
  methods : option (list string);
  pathPrefixes : option (list string);
  maxBodySize : option Z }.

Record CredentialRule := Credential {
  name : string;
  hostPattern : string;
  header : string;
  value : string;
  values : option (list string);
  rateLimit : option rate_limit;
  rules : option request_rules;
  expiresAt : option Z;
  credentialMethod : option credential_method }.

Record CredentialRules := CredentialFile {
  credentials : list CredentialRule;
  pinningBypass : list string;
  secrets : jsmap string }.

(** ** Hosts *)

Definition matchesHostPattern (hostname pattern : string) : bool :=
  if starts_with "*." pattern then
    let suffix := str_drop 1 pattern in
    ends_with suffix hostname && (String.length suffix <? String.length hostname)
  else bool_decide (hostname = pattern).

Definition findCredentialForHost (hostname : string) (rs : list CredentialRule)
  : option CredentialRule :=
  find (λ r, matchesHostPattern hostname (hostPattern r)) rs.

Definition findAllCredentialsForHost (hostname : string) (rs : list CredentialRule)
  : list CredentialRule :=
  List.filter (λ r, matchesHostPattern hostname (hostPattern r)) rs.

Definition method_allowed (active : credential_method) (c : CredentialRule) : bool :=
  match credentialMethod c with None => true | Some m => bool_decide (m = active) end.

Definition filterByCredentialMethod (cs : list CredentialRule) (active : option credential_method)
  : list CredentialRule :=
  match active with None => cs | Some m => List.filter (method_allowed m) cs end.

(** ** Headers *)

(** The value of a header: the strings of [string | string[]]. *)
Abbreviation headers := (jsmap (list string)).

Definition header_key (c : CredentialRule) : string := to_lower (header c).

Definition selectCredentialByHeaders (cs : list CredentialRule) (hs : headers)
  : option CredentialRule :=
  match cs with
  | [] => None
  | [c] => Some c
  | first :: _ =>
      match find (λ c, map_has hs (header_key c)) cs with
      | Some c => Some c
      | None => Some first
      end
  end.

(** ** Request rules *)

(** [Number(content-length ?? 0)]: the HTTP parser lets only digits through;
    anything else is [None], not a number, which no comparison holds of. *)
Fixpoint digits_value (acc : Z) (s : string) : option Z :=
  match s with
  | EmptyString => Some acc
  | String c s' =>
      let n := Z.of_nat (nat_of_ascii c) in
      if (48 <=? n)%Z && (n <=? 57)%Z then digits_value (acc * 10 + (n - 48))%Z s' else None
  end.

Definition content_length (hs : headers) : option Z :=
  match map_get hs "content-length" with
  | Some [s] => digits_value 0 s
  | Some _ => None
  | None => Some 0%Z
  end.

(** A list that restricts: given and not empty. *)
Definition restricts (l : option (list string)) : list string := default [] l.

Definition method_ok (r : request_rules) (method : string) : bool :=
  bool_decide (restricts (methods r) = []) || bool_decide (method ∈ restricts (methods r)).

Definition path_ok (r : request_rules) (path : string) : bool :=
  bool_decide (restricts (pathPrefixes r) = []) ||
  existsb (λ prefix, starts_with prefix path) (restricts (pathPrefixes r)).

Definition size_ok (r : request_rules) (len : option Z) : bool :=
  match maxBodySize r, len with
  | Some max, Some n => negb (max <? n)%Z
  | _, _ => true
  end.

(** [enforceRules], and the same tests in [handleRequest]: the status of the
    first rule that the request breaks. *)
Definition enforceRules (c : CredentialRule) (method path : string) (len : option Z) : option Z :=
  match rules c with
  | None => None
  | Some r =>
      if negb (method_ok r method) then Some 403%Z
      else if negb (path_ok r path) then Some 403%Z
      else if negb (size_ok r len) then Some 413%Z
      else None
  end.

(** ** Placeholders *)

Definition PLACEHOLDER_OAUTH_TOKEN : string := "flowhelm-proxy-placeholder-oauth-token".
Definition PLACEHOLDER_API_KEY : string :=
  "sk-ant-REDACTED".

(** The options after their defaults from the environment. *)
Definition getPlaceholderEnv (method : option credential_method) (hasOAuth hasApiKey : bool)
  : jsmap string :=
  let method := match method with
                | Some m => m
                | None => if hasOAuth && negb hasApiKey then OAuth else ApiKey
                end in
  match method with
  | OAuth => [("CLAUDE_CODE_OAUTH_TOKEN"%string, PLACEHOLDER_OAUTH_TOKEN)]
  | ApiKey => [("ANTHROPIC_API_KEY"%string, PLACEHOLDER_API_KEY)]
  end.

(** ** Lemmas *)

Lemma matches_wildcard hostname domain :
  matchesHostPattern hostname ("*." ++ domain) = true ↔
  ∃ sub, sub ≠ ""%string ∧ hostname = (sub ++ "." ++ domain)%string.
Proof.
  unfold matchesHostPattern.
  change (starts_with "*." ("*." ++ domain)) with (starts_with "" domain).
  assert (E : starts_with "" domain = true) by (by destruct domain). rewrite E.
  cbv zeta. change (str_drop 1 ("*." ++ domain)%string) with ("." ++ domain)%string.
  rewrite andb_true_iff, suffix_app, Nat.ltb_lt. split.
  - intros [[p ->] Hl]. exists p. split; [|done]. intros ->. exact (Nat.lt_irrefl _ Hl).
  - intros (sub & Hne & ->). split; [by exists sub|]. rewrite !length_app_string.
    destruct sub as [|c sub]; [done|]. cbn [String.length]. lia.
Qed.

(** ** The theorems *)

(** A rule [*.domain] matches exactly the hosts with a non-empty part before
    [.domain], and any other pattern only the equal host. *)
Theorem matchesHostPattern_spec hostname pattern :
  matchesHostPattern hostname pattern = true ↔
  (∃ domain sub, pattern = ("*." ++ domain)%string ∧ sub ≠ ""%string ∧
     hostname = (sub ++ "." ++ domain)%string) ∨
  (¬ (∃ domain, pattern = ("*." ++ domain)%string) ∧ hostname = pattern).
Proof.
  destruct (starts_with "*." pattern) eqn:E.
  - apply prefix_app in E as [domain ->]. rewrite matches_wildcard. split.
    + intros (sub & ? & ->). left. by exists domain, sub.
    + intros [(d & sub & Ed & ? & ->)|[Hn _]]; [|by destruct Hn; exists domain].
      assert (domain = d) as -> by exact (f_equal (str_drop 2) Ed).
      by exists sub.
  - unfold matchesHostPattern. rewrite E, bool_decide_eq_true. split.
    + intros ->. right. split; [|done]. intros Hp. by apply prefix_app in Hp; rewrite Hp in E.
    + intros [(d & _ & -> & _)|[_ ?]]; [|done].
      assert (Hp : starts_with "*." ("*." ++ d) = true) by (apply prefix_app; by exists d). congruence.
Qed.

Lemma find_first {A} (f : A → bool) l :
  match find f l with
  | Some x => ∃ l1 l2, l = l1 ++ x :: l2 ∧ f x = true ∧ Forall (λ y, f y = false) l1
  | None => Forall (λ y, f y = false) l
  end.
Proof.
  induction l as [|a l IH]; simpl; [constructor|]. destruct (f a) eqn:E.
  - exists [], l. by repeat constructor.
  - destruct (find f l) as [x|]; [|by constructor].
    destruct IH as (l1 & l2 & -> & Hx & Hl). exists (a :: l1), l2. split; [done|]. split; [done|].
    by constructor.
Qed.

(** The rule that is chosen for a request is one of the host's, and with an
    active billing method one of that method or of none; of several it is the
    first whose header the request carries, or the first of all when there is
    none; and there is always a choice when there is a candidate. *)
Theorem selected_credential active hostname rs hs :
  let cs := filterByCredentialMethod (findAllCredentialsForHost hostname rs) active in
  match selectCredentialByHeaders cs hs with
  | None => cs = []
  | Some c =>
      c ∈ rs ∧ matchesHostPattern hostname (hostPattern c) = true ∧
      (∀ m, active = Some m → credentialMethod c = None ∨ credentialMethod c = Some m) ∧
      ∃ l1 l2, cs = l1 ++ c :: l2 ∧
        (l1 = [] ∨ map_has hs (header_key c) = true) ∧
        Forall (λ d, map_has hs (header_key d) = false) l1 ∧
        (map_has hs (header_key c) = false → 1 < length cs →
         Forall (λ d, map_has hs (header_key d) = false) cs)
  end.
Proof.
  intros cs. assert (Hall : ∀ c, c ∈ cs → c ∈ rs ∧ matchesHostPattern hostname (hostPattern c) = true ∧
      (∀ m, active = Some m → credentialMethod c = None ∨ credentialMethod c = Some m)).
  { intros c Hc. unfold cs, filterByCredentialMethod in Hc.
    assert (Hf : c ∈ findAllCredentialsForHost hostname rs ∧
      ∀ m, active = Some m → credentialMethod c = None ∨ credentialMethod c = Some m).
    { destruct active as [m|]; [|split; [done|by intros]].
      apply list_elem_of_In, List.filter_In in Hc as [Hc Hm]. split; [by apply list_elem_of_In|].
      intros m' [= <-]. unfold method_allowed in Hm. destruct (credentialMethod c); [|by left].
      bool_cases. right. by subst. }
    destruct Hf as [Hf Hm].
    apply list_elem_of_In, List.filter_In in Hf as [Hf%list_elem_of_In ?]. done. }
  clearbody cs. unfold selectCredentialByHeaders. destruct cs as [|c0 [|c1 cs]]; [done| |].
  - destruct (Hall c0) as (? & ? & ?); [left|]. do 3 (split; [done|]). exists [], [].
    split; [done|]. split; [by left|]. split; [constructor|]. simpl. lia.
  - pose proof (find_first (λ c, map_has hs (header_key c)) (c0 :: c1 :: cs)) as Hf.
    destruct (find _ _) as [c|].
    + destruct Hf as (l1 & l2 & E & Hc & Hl).
      destruct (Hall c) as (? & ? & ?); [rewrite E; set_solver|]. do 3 (split; [done|]).
      exists l1, l2. split; [done|]. split; [by right|]. split; [done|]. congruence.
    + destruct (Hall c0) as (? & ? & ?); [left|]. do 3 (split; [done|]). exists [], (c1 :: cs).
      split; [done|]. split; [by left|]. split; [constructor|]. done.
Qed.

(** A request passes the rules of a credential exactly when its method is
    listed, one of the path prefixes fits and the declared length is within the
    limit, each where the rule restricts it; a request without a declared
    length passes the limit whatever its body. *)
Theorem enforceRules_spec c r method path hs :
  rules c = Some r →
  (enforceRules c method path (content_length hs) = None ↔
     (restricts (methods r) = [] ∨ method ∈ restricts (methods r)) ∧
     (restricts (pathPrefixes r) = [] ∨
        ∃ p rest, p ∈ restricts (pathPrefixes r) ∧ path = (p ++ rest)%string) ∧
     (∀ max n, maxBodySize r = Some max → content_length hs = Some n → (n <= max)%Z)) ∧
  (map_get hs "content-length" = None → ∀ max, maxBodySize r = Some max → (0 <= max)%Z →
     enforceRules c method path (content_length hs) ≠ Some 413%Z).
Proof.
  intros Hr. unfold enforceRules. rewrite Hr. split.
  - assert (Hm : method_ok r method = true ↔
      restricts (methods r) = [] ∨ method ∈ restricts (methods r))
      by (unfold method_ok; by rewrite orb_true_iff, !bool_decide_eq_true).
    assert (Hp : path_ok r path = true ↔ restricts (pathPrefixes r) = [] ∨
        ∃ p rest, p ∈ restricts (pathPrefixes r) ∧ path = (p ++ rest)%string).
    { unfold path_ok. rewrite orb_true_iff, bool_decide_eq_true, existsb_exists.
      split; (intros [?|Hx]; [by left|right]).
      - destruct Hx as (p & Hp & [rest ->]%prefix_app). exists p, rest. by rewrite list_elem_of_In.
      - destruct Hx as (p & rest & Hp & ->). exists p. rewrite <- list_elem_of_In.
        split; [done|]. apply prefix_app. by exists rest. }
    assert (Hs : size_ok r (content_length hs) = true ↔
      ∀ max n, maxBodySize r = Some max → content_length hs = Some n → (n <= max)%Z).
    { unfold size_ok. destruct (maxBodySize r) as [max|], (content_length hs) as [n|];
        try (split; [intros _ ? ? ? ?; congruence|done]).
      rewrite negb_true_iff, Z.ltb_ge. split; [congruence|]. intros H. by apply H. }
    rewrite <- Hm, <- Hp, <- Hs.
    destruct (method_ok r method), (path_ok r path), (size_ok r (content_length hs)); simpl; naive_solver.
  - intros Hc max Hmax Hpos. unfold content_length. rewrite Hc. unfold size_ok. rewrite Hmax.
    rewrite (proj2 (Z.ltb_ge _ _)) by done. simpl. by repeat case_match.
Qed.

Definition example_credential : CredentialRule :=
  Credential "anthropic" "api.anthropic.com" "x-api-key" "sk-real" None None
    (Some (Rules (Some ["POST"]) (Some ["/v1/messages"]) (Some 100%Z)))%string None (Some ApiKey).

Lemma enforceRules_spec_witness :
  rules example_credential =
    Some (Rules (Some ["POST"]) (Some ["/v1/messages"]) (Some 100%Z))%string ∧
  enforceRules example_credential "POST" "/v1/messages" (content_length []) ≠ Some 413%Z.
Proof.
  split; [reflexivity|].
  destruct (enforceRules_spec example_credential _ "POST" "/v1/messages" [] eq_refl) as [_ H].
  apply (H eq_refl 100%Z eq_refl). lia.
Defined.

(** Whatever is configured and detected, the agent gets exactly one
    placeholder, never a value of its own; with a configured method it is that
    method's variable, without one it is the OAuth variable exactly when OAuth
    alone is available. *)
Theorem placeholder_exactly_one method hasOAuth hasApiKey :
  let env := getPlaceholderEnv method hasOAuth hasApiKey in
  length env = 1 ∧
  (map_get env "CLAUDE_CODE_OAUTH_TOKEN" = Some PLACEHOLDER_OAUTH_TOKEN ↔
     method = Some OAuth ∨ method = None ∧ hasOAuth = true ∧ hasApiKey = false) ∧
  (map_get env "ANTHROPIC_API_KEY" = Some PLACEHOLDER_API_KEY ↔
     ¬ (method = Some OAuth ∨ method = None ∧ hasOAuth = true ∧ hasApiKey = false)).
Proof. destruct method as [[]|], hasOAuth, hasApiKey; simpl; naive_solver. Qed.
