(* ===== verification/ProxyState.v ===== *)
(** * State of the proxy

    The in-memory components of the proxy: the rate limiter, the key rotator,
    the certificate cache and the metrics
    ([src/proxy/rate-limiter.ts], [key-rotator.ts], [cert-cache.ts],
    [metrics.ts]), each a module. *)

From Stdlib Require Import SpecFloat.
From stdpp Require Import pretty.
From S2P Require Import Prelude JsMap BridgeLimiter ProxyRules.
Local Open Scope Z_scope.

Lemma filter_all {A} (P : A → Prop) `{!∀ x, Decision (P x)} (l : list A) :
  Forall P l → filter P l = l.
Proof. induction 1; [done|]. rewrite filter_cons, decide_True by done. by f_equal. Qed.

(** ** Rate limiter *)

Module Limiter.

Record window := Window { timestamps : list Z; rule : rate_limit }.

Definition limiter := jsmap window.

Record limit_result := LimitResult {
  allowed : bool;
  remaining : option nat;      (* [None] for Infinity *)
  retryAfterMs : Z }.

Definition window_ms (r : rate_limit) : Z := windowSeconds r * 1000.

Definition register (credentialName : string) (r : rate_limit) (l : limiter) : limiter :=
  map_set l credentialName (Window [] r).

Definition check (credentialName : string) (now : Z) (l : limiter) : limit_result * limiter :=
  match map_get l credentialName with
  | None => (LimitResult true None 0, l)
  | Some entry =>
      let r := rule entry in
      let ts := after (now - window_ms r) (timestamps entry) in
      let l := map_set l credentialName (Window ts r) in
      if (requests r <=? length ts)%nat then
        (LimitResult false (Some 0%nat) (Z.max 0 (hd now ts + window_ms r - now)), l)
      else (LimitResult true (Some (requests r - length ts)%nat) 0, l)
  end.

Definition record (credentialName : string) (now : Z) (l : limiter) : limiter :=
  match map_get l credentialName with
  | None => l
  | Some entry => map_set l credentialName (Window (timestamps entry ++ [now]) (rule entry))
  end.

Definition consume (credentialName : string) (now : Z) (l : limiter) : limit_result * limiter :=
  let '(res, l) := check credentialName now l in
  (res, if allowed res then record credentialName now l else l).

Definition reset (l : limiter) : limiter := map_values (λ e, Window [] (rule e)) l.

Definition stats (credentialName : string) (now : Z) (l : limiter) : option (nat * nat * Z) :=
  match map_get l credentialName with
  | None => None
  | Some e => Some (length (after (now - window_ms (rule e)) (timestamps e)), requests (rule e),
                    windowSeconds (rule e))
  end.

(** [buildRateLimiter] of [main.ts]. *)
Definition buildRateLimiter (cs : list CredentialRule) : limiter :=
  foldl (λ l c, match rateLimit c with Some r => register (name c) r l | None => l end) [] cs.

(** The rule as the window lemmas of the bridge's limiter take it. *)
Definition bridge_rule (r : rate_limit) : RateLimitRule := Rule (requests r) (window_ms r).

(** [consume] admits as one [admit_request] does. *)
Lemma consume_admit n now l ts r :
  map_get l n = Some (Window ts r) →
  (consume n now l).2 = map_set (map_set l n (Window (after (now - window_ms r) ts) r)) n
    (Window (admit_request (bridge_rule r) now ts).2 r) ∨
  (consume n now l).2 = map_set l n (Window (admit_request (bridge_rule r) now ts).2 r).
Proof.
  intros E. unfold consume, check. rewrite E. cbn [rule timestamps].
  unfold admit_request. cbn [bridge_rule windowMs maxRequests].
  destruct (_ <=? _)%nat; simpl; [by right|]. left. unfold record. by rewrite map_get_set_eq.
Qed.

Lemma consume_allowed n now l ts r :
  map_get l n = Some (Window ts r) →
  allowed (consume n now l).1 = (admit_request (bridge_rule r) now ts).1.
Proof.
  intros E. unfold consume, check. rewrite E. cbn [rule timestamps].
  unfold admit_request. cbn [bridge_rule windowMs maxRequests]. by destruct (_ <=? _)%nat.
Qed.

Lemma consume_get n now l ts r :
  map_get l n = Some (Window ts r) →
  map_get (consume n now l).2 n = Some (Window (admit_request (bridge_rule r) now ts).2 r).
Proof.
  intros E. destruct (consume_admit n now l ts r E) as [->| ->]; apply map_get_set_eq.
Qed.

Lemma consume_other n m now l : n ≠ m → map_get (consume m now l).2 n = map_get l n.
Proof.
  intros Hne. unfold consume, check. destruct (map_get l m) as [e|] eqn:E; simpl.
  - destruct (_ <=? _)%nat; simpl; [by rewrite map_get_set_ne|].
    unfold record. rewrite map_get_set_eq. by rewrite !map_get_set_ne.
  - unfold record. by rewrite E.
Qed.

(** The times at which a run of calls of [consume] is allowed under [n]. *)
Fixpoint allowed_times (n : string) (l : limiter) (calls : list (Z * string)) : list Z :=
  match calls with
  | [] => []
  | (now, m) :: calls =>
      let '(res, l) := consume m now l in
      (if decide (m = n) then if allowed res then [now] else [] else []) ++ allowed_times n l calls
  end.

Fixpoint in_order (now : Z) (calls : list (Z * string)) : Prop :=
  match calls with
  | [] => True
  | (t, _) :: calls => now ≤ t ∧ in_order t calls
  end.

Lemma allowed_window n r log ts l calls now T :
  0 ≤ window_ms r → map_get l n = Some (Window ts r) →
  window_inv (bridge_rule r) log ts now → in_order now calls →
  (in_window (bridge_rule r) T (log ++ allowed_times n l calls) ≤ requests r)%nat.
Proof.
  intros Hw. revert log ts l now. induction calls as [|[t m] calls IH]; intros log ts l now Hl Hi Ho.
  - rewrite app_nil_r. apply Hi.
  - destruct Ho as [Hn Ho]. cbn [allowed_times].
    pose proof (window_later _ _ _ _ _ Hi Hn) as Hi'.
    destruct (decide (m = n)) as [->|Hne].
    + pose proof (consume_allowed n t l ts r Hl) as Ha. pose proof (consume_get n t l ts r Hl) as Hg.
      pose proof (admit_inv (bridge_rule r) log ts t Hw Hi') as Hadm.
      destruct (consume n t l) as [res l']. simpl in Ha, Hg. rewrite Ha.
      destruct (admit_request _ _ _) as [ok ts']. simpl in Ha, Hg, Hadm |- *.
      rewrite app_assoc. eapply IH; [exact Hg| |exact Ho].
      destruct ok; [done|]. by rewrite app_nil_r.
    + pose proof (consume_other n m t l) as Hc. destruct (consume m t l) as [res l'].
      simpl in Hc |- *. eapply IH; [|exact Hi'|exact Ho]. rewrite Hc; [exact Hl|congruence].
Qed.

Lemma registered_window n r l :
  map_get (register n r l) n = Some (Window [] r).
Proof. apply map_get_set_eq. Qed.

Lemma register_get n r l m :
  map_get (register n r l) m = if decide (n = m) then Some (Window [] r) else map_get l m.
Proof. apply map_get_set. Qed.

Lemma build_get n r cs :
  map_get (buildRateLimiter cs) n = Some r →
  timestamps r = [] ∧ ∃ c, c ∈ cs ∧ name c = n ∧ rateLimit c = Some (rule r).
Proof.
  unfold buildRateLimiter. induction cs as [|c cs IH] using rev_ind; [done|].
  rewrite foldl_snoc. destruct (rateLimit c) as [rl|] eqn:E.
  - rewrite register_get. case_decide as Hn.
    + intros [= <-]. split; [done|]. exists c. split; [set_solver|]. by split.
    + intros [? (c' & ? & ? & ?)]%IH. split; [done|]. exists c'. split; [set_solver|]. by split.
  - intros [? (c' & ? & ? & ?)]%IH. split; [done|]. exists c'. split; [set_solver|]. by split.
Qed.
End Limiter.

(** ** Key rotator *)

Module Rotator.

(** The counters by credential name. *)
Definition rotator := jsmap nat.

Definition getCounter (n : string) (r : rotator) : nat := default 0%nat (map_get r n).

Definition keys (c : CredentialRule) : list string := default [] (values c).

Definition getNextValue (c : CredentialRule) (r : rotator) : string * rotator :=
  if (length (keys c) =? 0)%nat then (value c, r)
  else
    let current := getCounter (name c) r in
    (nth (current mod length (keys c)) (keys c) (value c), map_set r (name c) (S current)).

Definition reset (r : rotator) : rotator := [].

(** A run of calls, with the value each gives. *)
Fixpoint served (r : rotator) (calls : list CredentialRule) : list (string * string) :=
  match calls with
  | [] => []
  | c :: calls => let '(v, r) := getNextValue c r in (name c, v) :: served r calls
  end.

(** The values given to the calls of one credential. *)
Definition values_of (n : string) (vs : list (string * string)) : list string :=
  map snd (List.filter (λ e, bool_decide (e.1 = n)) vs).

Lemma counter_next c r n :
  getCounter n (getNextValue c r).2 =
  if bool_decide (name c = n) && negb (length (keys c) =? 0)%nat then S (getCounter n r)
  else getCounter n r.
Proof.
  unfold getNextValue. destruct (length (keys c) =? 0)%nat; simpl; [by rewrite andb_false_r|].
  unfold getCounter. rewrite map_get_set, andb_true_r.
  case_decide; [rewrite bool_decide_true by done; by subst|by rewrite bool_decide_false].
Qed.

Lemma served_round_robin c calls r :
  keys c ≠ [] → Forall (λ d, name d = name c → d = c) calls →
  values_of (name c) (served r calls) =
  map (λ i, nth (i mod length (keys c)) (keys c) (value c))
    (seq (getCounter (name c) r) (length (List.filter (λ d, bool_decide (name d = name c)) calls))).
Proof.
  intros Hk Hall. revert r. induction Hall as [|d calls Hd _ IH]; intros r; [done|].
  assert (Hl : (length (keys c) =? 0)%nat = false) by (apply Nat.eqb_neq; by destruct (keys c)).
  cbn [served]. pose proof (counter_next d r (name c)) as Hc.
  destruct (getNextValue d r) as [v r'] eqn:E. cbn [List.filter].
  unfold values_of in *. cbn [List.filter fst]. simpl in Hc.
  destruct (bool_decide (name d = name c)) eqn:En.
  - apply bool_decide_eq_true in En. assert (d = c) as -> by auto. rewrite Hl in Hc. simpl in Hc. cbn [length seq map snd].
    rewrite IH, Hc. f_equal. unfold getNextValue in E. rewrite Hl in E. by injection E as <- _.
  - simpl in Hc. by rewrite IH, Hc.
Qed.
End Rotator.

(** ** Certificate cache *)

Module Cache.
Section Cache.
Context {T : Type}.

Record entry := Entry { cached : T; expiresAt : Z }.

Record cert_cache := CertCache {
  cache : jsmap entry;
  maxEntries : nat;
  ttlMs : Z }.

Definition DEFAULT_MAX_ENTRIES : nat := 200.
Definition DEFAULT_TTL_MS : Z := 30 * 24 * 60 * 60 * 1000.

Definition new_cache (max : option nat) (ttl : option Z) : cert_cache :=
  CertCache [] (default DEFAULT_MAX_ENTRIES max) (default DEFAULT_TTL_MS ttl).

Definition with_cache (c : cert_cache) (m : jsmap entry) : cert_cache :=
  CertCache m (maxEntries c) (ttlMs c).

Definition cache_get (key : string) (now : Z) (c : cert_cache) : option T * cert_cache :=
  match map_get (cache c) key with
  | None => (None, c)
  | Some e =>
      if expiresAt e <? now then (None, with_cache c (map_delete (cache c) key))
      else (Some (cached e), with_cache c (map_set (map_delete (cache c) key) key e))
  end.

(** Deleting the first key of an empty map, [undefined], deletes nothing. *)
Definition drop_first (m : jsmap entry) : jsmap entry :=
  match map_keys m with k :: _ => map_delete m k | [] => m end.

Definition cache_set (key : string) (v : T) (now : Z) (c : cert_cache) : cert_cache :=
  let m := map_delete (cache c) key in
  let m := if (maxEntries c <=? length m)%nat then drop_first m else m in
  with_cache c (map_set m key (Entry v (now + ttlMs c))).

Definition cache_has (key : string) (now : Z) (c : cert_cache) : bool * cert_cache :=
  match map_get (cache c) key with
  | None => (false, c)
  | Some e =>
      if expiresAt e <? now then (false, with_cache c (map_delete (cache c) key)) else (true, c)
  end.

Definition cache_clear (c : cert_cache) : cert_cache := with_cache c [].

Definition cache_size (c : cert_cache) : nat := length (cache c).

(** [getOrCreate]: the generator is awaited between the two halves. *)
Definition getOrCreate_start (key : string) (now : Z) (c : cert_cache) : option T * cert_cache :=
  cache_get key now c.
Definition getOrCreate_finish (key : string) (v : T) (now : Z) (c : cert_cache) : T * cert_cache :=
  (v, cache_set key v now c).

Inductive cache_op :=
| CGet (key : string)
| CSet (key : string) (v : T)
| CHas (key : string)
| CClear.

Definition cache_step (c : cert_cache) (o : Z * cache_op) : cert_cache :=
  match o.2 with
  | CGet k => (cache_get k o.1 c).2
  | CSet k v => cache_set k v o.1 c
  | CHas k => (cache_has k o.1 c).2
  | CClear => cache_clear c
  end.

Definition cache_ok (c : cert_cache) : Prop :=
  map_wf (cache c) ∧ (length (cache c) ≤ Nat.max 1 (maxEntries c))%nat.

Lemma set_fresh (m : jsmap entry) k e : map_wf m → map_set (map_delete m k) k e = map_delete m k ++ [(k, e)].
Proof.
  intros _. unfold map_delete. induction m as [|[k' e'] m IH]; [done|].
  rewrite filter_cons. case_decide as H; simpl in *; [|done]. rewrite decide_False by done.
  by rewrite IH.
Qed.

Lemma set_absent (m : jsmap entry) k e : k ∉ map_keys m → map_set m k e = m ++ [(k, e)].
Proof.
  induction m as [|[k' e'] m IH]; simpl; [done|]. intros [? ?]%not_elem_of_cons.
  rewrite decide_False by done. by rewrite IH.
Qed.

Lemma keys_delete (m : jsmap entry) k : map_keys (map_delete m k) = filter (λ j, j ≠ k) (map_keys m).
Proof.
  unfold map_delete, map_keys. induction m as [|[k' e'] m IH]; [done|].
  rewrite filter_cons. simpl. rewrite filter_cons. repeat case_decide; simpl; by rewrite ?IH.
Qed.

Lemma drop_first_tail (m : jsmap entry) : map_wf m → drop_first m = tail m.
Proof.
  unfold drop_first, map_wf. destruct m as [|[k e] m]; [done|]. simpl.
  intros [Hk _]%NoDup_cons. unfold map_delete. rewrite filter_cons, decide_False by (simpl; tauto).
  apply filter_all, Forall_forall. intros [k' e'] Hin. simpl. intros ->. apply Hk.
  apply list_elem_of_fmap. by exists (k, e').
Qed.

Lemma map_keys_app (m m' : jsmap entry) : map_keys (m ++ m') = map_keys m ++ map_keys m'.
Proof. apply map_app. Qed.

Lemma keys_tail (m : jsmap entry) : map_keys (tail m) = tail (map_keys m).
Proof. by destruct m. Qed.

(** The keys after a [set], least recently used first. *)
Lemma cache_set_keys k v now c : map_wf (cache c) →
  let ks := filter (λ j, j ≠ k) (map_keys (cache c)) in
  map_keys (cache (cache_set k v now c)) =
  (if (maxEntries c <=? length ks)%nat then tail ks else ks) ++ [k].
Proof.
  intros Hw ks. unfold cache_set. cbn [cache with_cache].
  assert (Hk : k ∉ ks) by (unfold ks; rewrite list_elem_of_filter; tauto).
  assert (Hlen : length (map_delete (cache c) k) = length ks).
  { unfold ks. rewrite <- keys_delete. unfold map_keys. by rewrite length_map. }
  rewrite Hlen. rewrite set_absent.
  - rewrite map_keys_app. f_equal.
    destruct (_ <=? _)%nat; [|by rewrite keys_delete].
    rewrite drop_first_tail, keys_tail, keys_delete by auto with fh. done.
  - destruct (_ <=? _)%nat; [|by rewrite keys_delete].
    rewrite drop_first_tail, keys_tail, keys_delete by auto with fh.
    intros Hin. apply Hk. fold ks in Hin. destruct ks; [done|]. by right.
Qed.

Lemma cache_get_keys k now c : map_wf (cache c) →
  map_keys (cache (cache_get k now c).2) =
  match map_get (cache c) k with
  | None => map_keys (cache c)
  | Some e => filter (λ j, j ≠ k) (map_keys (cache c)) ++ (if expiresAt e <? now then [] else [k])
  end.
Proof.
  intros Hw. unfold cache_get. destruct (map_get (cache c) k) as [e|]; [|done].
  destruct (expiresAt e <? now); simpl.
  - by rewrite keys_delete, app_nil_r.
  - rewrite set_fresh by done. by rewrite map_keys_app, keys_delete.
Qed.

(** *** The bound *)

Lemma keys_length {A} (m : jsmap A) : length (map_keys m) = length m.
Proof. apply length_map. Qed.

Lemma filter_ne_absent (k : string) (ks : list string) : k ∉ ks → filter (λ j, j ≠ k) ks = ks.
Proof. intros Hk. apply filter_all, Forall_forall. intros j Hj ->. done. Qed.

Lemma filter_ne_length (k : string) (ks : list string) : NoDup ks → k ∈ ks →
  S (length (filter (λ j, j ≠ k) ks)) = length ks.
Proof.
  induction 1 as [|j ks Hj _ IH]; [by intros ?%not_elem_of_nil|].
  rewrite filter_cons. intros [->|Hin]%elem_of_cons.
  - by rewrite decide_False, filter_ne_absent by tauto.
  - destruct (decide (j ≠ k)) as [E|E]; simpl; [by rewrite IH|].
    apply dec_stable in E. by subst.
Qed.

Lemma map_wf_snoc (m : jsmap entry) k e : map_wf m → map_wf (map_set (map_delete m k) k e).
Proof. intros. auto with fh. Qed.

Lemma cache_step_wf c o : map_wf (cache c) → map_wf (cache (cache_step c o)).
Proof.
  intros Hw. destruct o as [now [k|k v|k|]]; cbn [cache_step fst snd].
  - unfold cache_get. repeat case_match; simpl; auto with fh.
  - unfold cache_set. simpl. apply map_wf_set. case_match; [|auto with fh].
    rewrite drop_first_tail by auto with fh. unfold map_wf. rewrite keys_tail.
    assert (Hd : NoDup (map_keys (map_delete (cache c) k))) by (apply map_wf_delete, Hw).
    destruct (map_keys _); [done|]. by apply NoDup_cons in Hd as [_ ?].
  - unfold cache_has. repeat case_match; simpl; auto with fh.
  - apply map_wf_nil.
Qed.

Lemma cache_step_limits c o :
  maxEntries (cache_step c o) = maxEntries c ∧ ttlMs (cache_step c o) = ttlMs c.
Proof.
  destruct o as [now [k|k v|k|]]; cbn [cache_step fst snd]; unfold cache_get, cache_has;
    repeat case_match; done.
Qed.

Lemma cache_step_ok c o : cache_ok c → cache_ok (cache_step c o).
Proof.
  intros [Hw Hl]. split; [by apply cache_step_wf|]. destruct (cache_step_limits c o) as [-> _].
  destruct o as [now [k|k v|k|]]; cbn [cache_step fst snd].
  - rewrite <- keys_length, cache_get_keys by done. rewrite <- keys_length in Hl.
    destruct (map_get (cache c) k) as [e|] eqn:E; [|done].
    assert (Hin : k ∈ map_keys (cache c)).
    { destruct (decide (k ∈ map_keys (cache c))) as [|Hn]; [done|]. apply map_get_None in Hn. congruence. }
    pose proof (filter_ne_length k _ Hw Hin). rewrite length_app. destruct (_ <? _); simpl; lia.
  - rewrite <- keys_length, cache_set_keys by done. rewrite <- keys_length in Hl. rewrite length_app.
    pose proof (length_filter (λ j, j ≠ k) (map_keys (cache c))) as Hf.
    destruct (_ <=? _)%nat eqn:E; bool_cases; simpl.
    + destruct (filter _ _) as [|j ks] eqn:Ek; simpl in *; [lia|].
      destruct (decide (k ∈ map_keys (cache c))) as [Hin|Hin].
      * pose proof (filter_ne_length k _ Hw Hin) as H. rewrite Ek in H. simpl in H. lia.
      * lia.
    + lia.
  - unfold cache_has. destruct (map_get _ _) as [e|]; [|done].
    destruct (_ <? _); simpl; [|done]. etransitivity; [apply map_size_filter|done].
  - simpl. lia.
Qed.

(** *** The order *)

Definition op_key (o : Z * cache_op) : option string :=
  match o.2 with CGet k | CSet k _ | CHas k => Some k | CClear => None end.

(** [k] is there with its entry, and what was used after it is among [U]. *)
Definition keeps (U : list string) (k : string) (e : entry) (c : cert_cache) : Prop :=
  map_wf (cache c) ∧ map_get (cache c) k = Some e ∧
  ∃ pre post, map_keys (cache c) = pre ++ k :: post ∧ Forall (λ j, j ∈ U) post.

Lemma other_get k j now c : map_wf (cache c) → j ≠ k →
  map_get (cache (cache_get j now c).2) k = map_get (cache c) k.
Proof.
  intros Hw Hne. unfold cache_get. destruct (map_get (cache c) j) as [e|]; [|done].
  destruct (_ <? _); simpl; rewrite ?map_get_set_ne, map_get_delete, decide_False by done; done.
Qed.

Lemma filter_split (k j : string) (pre post : list string) : j ≠ k →
  filter (λ i, i ≠ j) (pre ++ k :: post) =
  filter (λ i, i ≠ j) pre ++ k :: filter (λ i, i ≠ j) post.
Proof. intros Hne. by rewrite filter_app, filter_cons, decide_True. Qed.

Lemma Forall_filter_ne (P : string → Prop) (j : string) (ks : list string) :
  Forall P ks → Forall P (filter (λ i, i ≠ j) ks).
Proof.
  rewrite !Forall_forall. intros H i [_ Hi]%list_elem_of_filter. auto.
Qed.

Lemma keeps_get U k e j now c :
  keeps U k e c → j ≠ k → j ∈ U → keeps U k e (cache_get j now c).2.
Proof.
  intros (Hw & Hk & pre & post & E & Hp) Hne Hj.
  split; [by apply (cache_step_wf c (now, CGet j))|]. split; [by rewrite other_get|].
  rewrite cache_get_keys by done. destruct (map_get (cache c) j) as [e'|]; [|by exists pre, post].
  rewrite E, filter_split by done. exists (filter (λ i, i ≠ j) pre).
  eexists. rewrite <- app_assoc. simpl. split; [reflexivity|]. apply Forall_app.
  split; [by apply Forall_filter_ne|]. destruct (_ <? _); by repeat constructor.
Qed.

Lemma keeps_has U k e j now c : keeps U k e c → j ≠ k → keeps U k e (cache_has j now c).2.
Proof.
  intros (Hw & Hk & pre & post & E & Hp) Hne. unfold cache_has.
  destruct (map_get (cache c) j) as [e'|]; [|split; [done|split; [done|by exists pre, post]]].
  destruct (_ <? _); [|split; [done|split; [done|by exists pre, post]]].
  split; simpl; [auto with fh|]. split; [by rewrite map_get_delete, decide_False|].
  rewrite keys_delete, E, filter_split by done. eexists _, _. split; [reflexivity|].
  by apply Forall_filter_ne.
Qed.

Lemma keeps_set U k e j v now c :
  keeps U k e c → j ≠ k → j ∈ U → (length U < maxEntries c)%nat → keeps U k e (cache_set j v now c).
Proof.
  intros (Hw & Hk & pre & post & E & Hp) Hne Hj HU.
  split; [by apply (cache_step_wf c (now, CSet j v))|].
  pose proof (cache_set_keys j v now c Hw) as Hks. cbv zeta in Hks. rewrite E, filter_split in Hks by done.
  set (pre' := filter (λ i, i ≠ j) pre) in *. set (post' := filter (λ i, i ≠ j) post) in *.
  assert (Hpost : Forall (λ i, i ∈ U) post') by (by apply Forall_filter_ne).
  assert (Hnd : NoDup (j :: post')).
  { unfold map_wf in Hw. rewrite E in Hw. apply NoDup_app in Hw as (_ & _ & [_ Hnd]%NoDup_cons).
    constructor; [unfold post'; rewrite list_elem_of_filter; tauto|by apply NoDup_filter]. }
  assert (Hlen : (length (j :: post') ≤ length U)%nat).
  { apply (submseteq_length (j :: post') U), NoDup_submseteq; [done|].
    intros i [->|Hi]%elem_of_cons; [done|]. rewrite Forall_forall in Hpost. by apply Hpost. }
  assert (Hdrop : (maxEntries c <= length (pre' ++ k :: post'))%nat → pre' ≠ []).
  { intros Hm ->. simpl in *. lia. }
  split.
  - unfold cache_set. cbn [cache with_cache]. rewrite map_get_set_ne by done.
    destruct (maxEntries c <=? length (map_delete (cache c) j))%nat eqn:Em.
    + assert (Hkd : map_keys (map_delete (cache c) j) = pre' ++ k :: post')
        by (by rewrite keys_delete, E, filter_split).
      bool_cases. rewrite <- keys_length, Hkd in Em. specialize (Hdrop Em).
      pose proof (map_wf_delete (cache c) j Hw) as Hwd. unfold drop_first. rewrite Hkd.
      destruct pre' as [|i pre']; [done|]. simpl. unfold map_wf in Hwd. rewrite Hkd in Hwd.
      simpl in Hwd. apply NoDup_cons in Hwd as [Hi _].
      assert (i ≠ k) by (intros ->; apply Hi, elem_of_app; right; left).
      rewrite map_get_delete, decide_False by auto with fh.
      by rewrite map_get_delete, decide_False.
    + by rewrite map_get_delete, decide_False.
  - rewrite Hks. destruct (maxEntries c <=? length (pre' ++ k :: post'))%nat eqn:Em.
    + bool_cases. destruct pre' as [|i pre']; [by destruct (Hdrop Em)|]. simpl.
      exists pre', (post' ++ [j]). rewrite <- app_assoc. split; [done|]. apply Forall_app.
      by repeat constructor.
    + exists pre', (post' ++ [j]). rewrite <- app_assoc. split; [done|]. apply Forall_app.
      by repeat constructor.
Qed.

Lemma keeps_step U k e o c :
  keeps U k e c → (∃ j, op_key o = Some j ∧ j ≠ k ∧ j ∈ U) → (length U < maxEntries c)%nat →
  keeps U k e (cache_step c o).
Proof.
  destruct o as [now op]. intros Hk (j & Hj & Hne & HU) Hl.
  unfold op_key in Hj. destruct op as [i|i v|i|]; simplify_eq/=; unfold cache_step; simpl.
  - by apply keeps_get.
  - by apply keeps_set.
  - by apply keeps_has.
Qed.

Lemma keeps_run U k e ops c :
  keeps U k e c → Forall (λ o, ∃ j, op_key o = Some j ∧ j ≠ k ∧ j ∈ U) ops →
  (length U < maxEntries c)%nat → keeps U k e (foldl cache_step c ops).
Proof.
  intros Hk Hops. revert c Hk. induction Hops as [|o ops Ho _ IH]; intros c Hk Hl; [done|].
  simpl. apply IH; [by apply keeps_step|]. by destruct (cache_step_limits c o) as [-> _].
Qed.

Lemma keeps_start U k v now c : map_wf (cache c) →
  keeps U k (Entry v (now + ttlMs c)) (cache_set k v now c).
Proof.
  intros Hw. split; [by apply (cache_step_wf c (now, CSet k v))|].
  split; [unfold cache_set; simpl; apply map_get_set_eq|].
  pose proof (cache_set_keys k v now c Hw) as Hks. cbv zeta in Hks. rewrite Hks.
  eexists _, []. by split.
Qed.
End Cache.
Arguments entry T : clear implicits.
Arguments cert_cache T : clear implicits.
Arguments cache_op T : clear implicits.
End Cache.

(** ** Metrics *)

Module Metrics.

Record circular := Circular {
  buffer : list Z;
  capacity : nat;
  index : nat;
  count : nat }.

Definition new_circular (capacity : nat) : circular := Circular (replicate capacity 0) capacity 0 0.

Definition push (v : Z) (b : circular) : circular :=
  Circular (<[(index b mod capacity b)%nat := v]> (buffer b)) (capacity b) (S (index b))
    (if (count b <? capacity b)%nat then S (count b) else count b).

(** The array's [sort] by value. *)
Definition sorted (b : circular) : list Z := merge_sort Z.le (take (count b) (buffer b)).

(** *** Doubles *)

Definition double (z : Z) : spec_float := binary_normalize 53 1024 z 0 false.

Definition ceil_double (f : spec_float) : Z :=
  match f with
  | S754_finite s m e =>
      let v := if s then - Z.pos m else Z.pos m in
      if 0 <=? e then v * 2 ^ e else - ((- v) / 2 ^ (- e))
  | _ => 0
  end.

(** [Math.ceil((p / 100) * length) - 1], as the doubles give it. *)
Definition percentile_index (p : Z) (len : nat) : Z :=
  ceil_double (SFmul 53 1024 (SFdiv 53 1024 (double p) (double 100)) (double (Z.of_nat len))) - 1.

Definition percentile (values : list Z) (p : Z) : Z :=
  if (length values =? 0)%nat then 0
  else nth (Z.to_nat (Z.max 0 (percentile_index p (length values)))) values 0.

Record metrics := ProxyMetrics {
  startedAt : Z;
  totalRequests : nat;
  credentialCounts : jsmap nat;
  statusCodeCounts : jsmap nat;
  rateLimitHits : nat;
  latencyBuffer : circular }.

Definition new_metrics (now : Z) (latencyBufferSize : option nat) : metrics :=
  ProxyMetrics now 0 [] [] 0 (new_circular (default 1000%nat latencyBufferSize)).

Definition increment (k : string) (m : jsmap nat) : jsmap nat :=
  map_set m k (S (default 0%nat (map_get m k))).

Definition record (credentialName : string) (statusCode durationMs : Z) (m : metrics) : metrics :=
  ProxyMetrics (startedAt m) (S (totalRequests m))
    (increment credentialName (credentialCounts m))
    (increment (pretty statusCode) (statusCodeCounts m))
    (rateLimitHits m) (push durationMs (latencyBuffer m)).

Definition recordRateLimitHit (m : metrics) : metrics :=
  ProxyMetrics (startedAt m) (totalRequests m) (credentialCounts m) (statusCodeCounts m)
    (S (rateLimitHits m)) (latencyBuffer m).

Record latency := Latency { p50 : Z; p90 : Z; p99 : Z; measured : nat }.

Record metrics_snapshot := MetricsSnapshot {
  uptime : Z;
  total : nat;
  perCredential : jsmap nat;
  statusCodes : jsmap nat;
  hits : nat;
  latencies : latency }.

Definition snapshot (now : Z) (m : metrics) : metrics_snapshot :=
  let s := sorted (latencyBuffer m) in
  MetricsSnapshot (now - startedAt m) (totalRequests m) (credentialCounts m) (statusCodeCounts m)
    (rateLimitHits m)
    (Latency (percentile s 50) (percentile s 90) (percentile s 99) (count (latencyBuffer m))).

Definition reset (m : metrics) : metrics :=
  ProxyMetrics (startedAt m) 0 [] [] 0 (latencyBuffer m).

(** *** The buffer holds the last measurements *)

(** The values pushed so far stand for the buffer. *)
Record buffer_holds (vs : list Z) (b : circular) : Prop := {
  holds_length : length (buffer b) = capacity b;
  holds_index : index b = length vs;
  holds_count : count b = Nat.min (capacity b) (length vs);
  holds_values : ∀ i, (i < length vs)%nat → (length vs - capacity b <= i)%nat →
    buffer b !! (i mod capacity b)%nat = vs !! i }.

Lemma holds_new capacity : buffer_holds [] (new_circular capacity).
Proof. split; simpl; [apply length_replicate|done|lia|intros; lia]. Qed.

(** Two indices less than the capacity apart have different slots. *)
Lemma slots_distinct c i j : (i < j)%nat → (j - i < c)%nat → (i mod c ≠ j mod c)%nat.
Proof.
  intros Hij Hc E. assert (Hc0 : c ≠ 0%nat) by lia.
  pose proof (Nat.div_mod_eq i c) as Hi. pose proof (Nat.div_mod_eq j c) as Hj.
  rewrite E in Hi. assert (Hd : (j - i = c * (j / c - i / c))%nat) by nia.
  destruct (j / c - i / c)%nat eqn:Eq; nia.
Qed.

Lemma holds_push vs b v : (0 < capacity b)%nat →
  buffer_holds vs b → buffer_holds (vs ++ [v]) (push v b).
Proof.
  intros Hc [Hl Hi Hn Hv].
  assert (Hm : (index b mod capacity b < length (buffer b))%nat)
    by (rewrite Hl; apply Nat.mod_upper_bound; lia).
  split; simpl.
  - by rewrite length_insert.
  - rewrite Hi, length_app. simpl. lia.
  - rewrite length_app, Hn. simpl. destruct (_ <? _)%nat eqn:E; bool_cases; lia.
  - rewrite length_app. simpl. intros i Hlt Hge.
    destruct (decide (i = length vs)) as [->|Hne].
    + rewrite Hi, list_lookup_insert_eq by (by rewrite Hi in Hm).
      by rewrite lookup_app_r, Nat.sub_diag by lia.
    + rewrite Hi, list_lookup_insert_ne.
      * rewrite lookup_app_l by lia. apply Hv; lia.
      * apply not_eq_sym, slots_distinct; lia.
Qed.

(** As many consecutive indices as slots fill every slot. *)
Lemma slots_permutation c s : (0 < c)%nat →
  map (λ k, (k mod c)%nat) (seq s c) ≡ₚ seq 0 c.
Proof.
  intros Hc. apply NoDup_Permutation_bis.
  - apply NoDup_ListNoDup. apply NoDup_fmap_2_strong; [|apply NoDup_seq].
    intros i j Hi%elem_of_seq Hj%elem_of_seq E.
    destruct (Nat.lt_trichotomy i j) as [H|[H|H]]; [|done|]; exfalso.
    + by apply (slots_distinct c i j); [|lia|].
    + by apply (slots_distinct c j i); [|lia|].
  - by rewrite length_map, !length_seq.
  - intros x (k & <- & _)%in_map_iff. apply in_seq. pose proof (Nat.mod_upper_bound k c). lia.
Qed.

(** The last [n] values. *)
Definition last_values (n : nat) (vs : list Z) : list Z := drop (length vs - n) vs.

Lemma holds_take vs b : (0 < capacity b)%nat → buffer_holds vs b →
  take (count b) (buffer b) ≡ₚ last_values (capacity b) vs.
Proof.
  intros Hc [Hl Hi Hn Hv]. unfold last_values.
  assert (E : drop (length vs - capacity b) vs =
    map (λ k, nth (k mod capacity b) (buffer b) 0)
      (seq (length vs - capacity b) (count b))).
  { apply list_eq. intros k. rewrite lookup_drop, list_lookup_fmap.
    destruct (decide (k < count b)%nat) as [Hk|Hk].
    - rewrite lookup_seq_lt by done. simpl. rewrite <- Hv by lia.
      rewrite nth_lookup. destruct (buffer b !! _) eqn:El; [done|].
      apply lookup_ge_None in El. pose proof (Nat.mod_upper_bound (length vs - capacity b + k) (capacity b)). lia.
    - rewrite lookup_seq_ge by lia. simpl. apply lookup_ge_None. lia. }
  rewrite E. destruct (decide (length vs <= capacity b)%nat) as [Hle|Hgt].
  - replace (length vs - capacity b)%nat with 0%nat by lia.
    assert (Et : take (count b) (buffer b) = map (λ k, nth (k mod capacity b) (buffer b) 0) (seq 0 (count b))).
    { apply list_eq. intros k. rewrite list_lookup_fmap.
      destruct (decide (k < count b)%nat) as [Hk|Hk].
      - rewrite lookup_seq_lt, lookup_take_lt by lia. simpl. rewrite Nat.mod_small by lia.
        rewrite nth_lookup. destruct (buffer b !! k) eqn:El; [done|].
        apply lookup_ge_None in El. lia.
      - rewrite lookup_seq_ge by lia. simpl. apply lookup_ge_None. rewrite length_take. lia. }
    by rewrite Et.
  - replace (count b) with (capacity b) by lia. rewrite take_ge by lia.
    assert (Eb : buffer b = map (λ k, nth k (buffer b) 0) (seq 0 (capacity b))).
    { apply list_eq. intros k. rewrite list_lookup_fmap.
      destruct (decide (k < capacity b)%nat) as [Hk|Hk].
      - rewrite lookup_seq_lt by lia. simpl. rewrite nth_lookup.
        destruct (buffer b !! k) eqn:El; [done|]. apply lookup_ge_None in El. lia.
      - rewrite lookup_seq_ge by lia. simpl. apply lookup_ge_None. lia. }
    rewrite Eb at 1. rewrite <- (map_map (λ k, (k mod capacity b)%nat) (λ k, nth k (buffer b) 0)).
    apply Permutation_map, Permutation_sym, slots_permutation. lia.
Qed.
End Metrics.

(** ** The theorems *)

(** With the limiter built from any rules, and calls of [consume] under any
    names on a clock that does not run backwards, no window of a rule contains
    more allowed calls of its credential than the rule says. *)
Theorem consume_window_bound cs n e calls T :
  map_get (Limiter.buildRateLimiter cs) n = Some e → 0 ≤ Limiter.window_ms (Limiter.rule e) →
  Limiter.in_order 0 calls →
  (in_window (Limiter.bridge_rule (Limiter.rule e)) T
    (Limiter.allowed_times n (Limiter.buildRateLimiter cs) calls) ≤ requests (Limiter.rule e))%nat.
Proof.
  intros He Hw Ho. destruct (Limiter.build_get n e cs He) as [Ht _]. destruct e as [ts r].
  simpl in Ht. subst ts.
  apply (Limiter.allowed_window n r [] [] _ calls 0 T Hw He); [apply window_start|exact Ho].
Qed.

Definition example_limited : CredentialRule :=
  Credential "anthropic" "api.anthropic.com" "x-api-key" "sk" (Some ["k1"; "k2"])
    (Some (RateLimit 2 60)) None None None.

Lemma consume_window_bound_witness :
  let l := Limiter.buildRateLimiter [example_limited] in
  let calls := [(1, "anthropic"); (2, "anthropic"); (3, "anthropic"); (60001, "anthropic")]%string in
  Limiter.allowed_times "anthropic" l calls = [1; 2; 60001] ∧
  (in_window (Rule 2 60000) 60001 (Limiter.allowed_times "anthropic" l calls) ≤ 2)%nat.
Proof.
  intros l calls. split; [vm_compute; reflexivity|].
  apply (consume_window_bound [example_limited] "anthropic"
    (Limiter.Window [] (RateLimit 2 60)) calls 60001); [reflexivity|vm_compute; discriminate|].
  simpl. lia.
Defined.

(** Between reloads, the calls of a credential with several keys take its keys
    in turn, whatever calls of other credentials come between. *)
Theorem rotation_round_robin c calls :
  Rotator.keys c ≠ [] → Forall (λ d, name d = name c → d = c) calls →
  Rotator.values_of (name c) (Rotator.served (Rotator.reset []) calls) =
  map (λ i, nth (i mod length (Rotator.keys c)) (Rotator.keys c) (value c))
    (seq 0 (length (List.filter (λ d, bool_decide (name d = name c)) calls))).
Proof. apply Rotator.served_round_robin. Qed.

Lemma rotation_round_robin_witness :
  Rotator.values_of "anthropic"
    (Rotator.served [] [example_limited; example_credential; example_limited; example_limited]) =
    ["k1"; "k2"; "k1"]%string ∨
  Rotator.values_of "anthropic" (Rotator.served [] [example_limited; example_limited; example_limited]) =
    ["k1"; "k2"; "k1"]%string.
Proof.
  right. apply (rotation_round_robin example_limited [example_limited; example_limited; example_limited]).
  - discriminate.
  - repeat constructor.
Defined.

(** The certificate cache keeps its keys distinct and never more entries than
    its bound; and it evicts by least use: an entry that was just set is served
    until its expiry, and not after, as long as fewer distinct other keys than
    the bound are used in the meantime. *)
Theorem cert_cache_lru {T} (c : Cache.cert_cache T) k v now now' ops U :
  Cache.cache_ok c →
  Forall (λ o, ∃ j, Cache.op_key o = Some j ∧ j ≠ k ∧ j ∈ U) ops → (length U < Cache.maxEntries c)%nat →
  let c' := foldl Cache.cache_step (Cache.cache_set k v now c) ops in
  Cache.cache_ok c' ∧
  (Cache.cache_get k now' c').1 = if now + Cache.ttlMs c <? now' then None else Some v.
Proof.
  intros Hok Hops HU c'. split.
  - unfold c'. assert (Hs : Cache.cache_ok (Cache.cache_set k v now c))
      by (apply (Cache.cache_step_ok c (now, Cache.CSet k v)), Hok).
    clear HU Hops. revert Hs. generalize (Cache.cache_set k v now c).
    induction ops as [|o ops IH]; intros d Hd; [done|]. by apply IH, Cache.cache_step_ok.
  - destruct (Cache.keeps_run U k (Cache.Entry v (now + Cache.ttlMs c)) ops (Cache.cache_set k v now c))
      as (_ & Hg & _); [apply Cache.keeps_start, Hok|exact Hops|exact HU|].
    fold c' in Hg. unfold Cache.cache_get. rewrite Hg. simpl. by destruct (_ <? _).
Qed.

Lemma cert_cache_lru_witness :
  let c := Cache.CertCache (T := nat) [] 2 100 in
  let c' := foldl Cache.cache_step (Cache.cache_set "a" 1%nat 10 c)
    [(20, Cache.CSet "b" 2%nat); (30, Cache.CGet "b")] in
  (Cache.cache_get "a" 110 c').1 = Some 1%nat.
Proof.
  intros c c'. apply (cert_cache_lru c "a" 1%nat 10 110
    [(20, Cache.CSet "b" 2%nat); (30, Cache.CGet "b")] ["b"%string]).
  - split; simpl; [apply map_wf_nil|lia].
  - repeat constructor; exists "b"%string; (split; [reflexivity|split; [discriminate|left]]).
  - simpl. lia.
Defined.

Definition percentile_exact (p : Z) (len : nat) : bool :=
  Metrics.percentile_index p len =? (p * Z.of_nat len + 99) / 100 - 1.

Lemma percentiles_exact p len : p ∈ [50; 90; 99] → (len ≤ 1000)%nat →
  Metrics.percentile_index p len = (p * Z.of_nat len + 99) / 100 - 1.
Proof.
  intros Hp Hl. apply Z.eqb_eq. fold (percentile_exact p len).
  assert (H : ∀ q, q ∈ [50; 90; 99] → forallb_below (percentile_exact q) 1001 = true).
  { apply Forall_forall. apply Forall_cons; split; [vm_compute; reflexivity|].
    apply Forall_cons; split; [vm_compute; reflexivity|].
    apply Forall_singleton. vm_compute; reflexivity. }
  apply (forallb_below_spec _ _ (H p Hp)). lia.
Qed.

(** After any measurements, the latency buffer holds the last ones, as many as
    its capacity, and the snapshot's percentiles are those of the sorted
    measurements at the nearest rank, the double arithmetic being exact for
    every buffer of at most a thousand. *)
Theorem latency_percentiles cap vs p :
  (0 < cap ≤ 1000)%nat → p ∈ [50; 90; 99] → vs ≠ [] →
  let s := Metrics.sorted (foldl (λ b v, Metrics.push v b) (Metrics.new_circular cap) vs) in
  s ≡ₚ Metrics.last_values cap vs ∧ StronglySorted Z.le s ∧
  Metrics.percentile s p = nth (Z.to_nat ((p * Z.of_nat (length s) + 99) / 100 - 1)) s 0 ∧
  (Z.to_nat ((p * Z.of_nat (length s) + 99) / 100 - 1) < length s)%nat.
Proof.
  intros Hc Hp Hvs s.
  assert (Hh : Metrics.buffer_holds vs (foldl (λ b v, Metrics.push v b) (Metrics.new_circular cap) vs)
    ∧ Metrics.capacity (foldl (λ b v, Metrics.push v b) (Metrics.new_circular cap) vs) = cap).
  { clear s Hvs. induction vs as [|v vs IH] using rev_ind; [split; [apply Metrics.holds_new|done]|].
    rewrite foldl_snoc. destruct IH as [IH Ecap]. split; [apply Metrics.holds_push; [lia|done]|done]. }
  destruct Hh as [Hh Ecap].
  assert (Hperm : s ≡ₚ Metrics.last_values cap vs).
  { unfold s, Metrics.sorted. rewrite merge_sort_Permutation.
    pose proof (Metrics.holds_take _ _ ltac:(rewrite Ecap; lia) Hh) as Hp'. by rewrite Ecap in Hp'. }
  assert (Hlen : (0 < length s ≤ 1000)%nat).
  { rewrite Hperm. unfold Metrics.last_values. rewrite length_drop.
    destruct vs; [done|]. simpl. lia. }
  split; [done|]. split; [apply (StronglySorted_merge_sort Z.le)|].
  assert (Hidx : (Z.to_nat ((p * Z.of_nat (length s) + 99) / 100 - 1) < length s)%nat).
  { assert (50 ≤ p ≤ 99) by (revert Hp; clear; rewrite !elem_of_cons; intros [->|[->|[->|H]]];
      [lia..|by apply not_elem_of_nil in H]).
    assert (H1 : (p * Z.of_nat (length s) + 99) / 100 < Z.of_nat (length s) + 1)
      by (apply Z.div_lt_upper_bound; nia). lia. }
  split; [|done]. unfold Metrics.percentile. rewrite (proj2 (Nat.eqb_neq _ _)) by lia.
  rewrite percentiles_exact by (done || lia). f_equal.
  assert (50 ≤ p) by (revert Hp; clear; rewrite !elem_of_cons; intros [->|[->|[->|H]]];
      [lia..|by apply not_elem_of_nil in H]).
  assert (1 ≤ (p * Z.of_nat (length s) + 99) / 100) by (apply Z.div_le_lower_bound; nia). lia.
Qed.

Lemma latency_percentiles_witness :
  let s := Metrics.sorted (foldl (λ b v, Metrics.push v b) (Metrics.new_circular 3) [9; 5; 7; 1]) in
  s = [1; 5; 7] ∧ Metrics.percentile s 50 = 5 ∧ s ≡ₚ [5; 7; 1].
Proof.
  intros s. split; [vm_compute; reflexivity|]. split; [vm_compute; reflexivity|].
  apply (latency_percentiles 3 [9; 5; 7; 1] 50); [lia|left|discriminate].
Defined.

(** [reset] clears every counter of the metrics but leaves the latency buffer:
    the percentiles of the next snapshot are those before it. *)
Theorem reset_keeps_latencies m now :
  let s := Metrics.snapshot now m in
  let s' := Metrics.snapshot now (Metrics.reset m) in
  Metrics.total s' = 0%nat ∧ Metrics.hits s' = 0%nat ∧ Metrics.perCredential s' = [] ∧
  Metrics.statusCodes s' = [] ∧ Metrics.latencies s' = Metrics.latencies s.
Proof. by repeat split. Qed.
