(* ===== verification/ProxyServer.v ===== *)
(** * The proxy server

    [src/proxy/proxy-server.ts], [src/proxy/mitm-handler.ts] and the reload of
    [src/proxy/main.ts].  A request is answered by the proxy or forwarded; the
    upstream response comes back in a later step.  TLS, sockets and the
    [URL] parser are outside: a request carries the parsed target. *)

From Stdlib Require Import Ascii.
From stdpp Require Import pretty.
From S2P Require Import Prelude JsMap JsString BridgeLimiter ProxyRules ProxyState.
Local Open Scope Z_scope.

(** ** Requests, outcomes and state *)

Record url_parts := Url { hostname : string; pathname : string; search : string }.

Record request := Request {
  req_url : option string;
  req_method : option string;
  req_headers : headers;
  req_target : option url_parts }.   (* [new URL(url)]; [None] when it throws *)

Record forward := Forward {
  to_host : string;
  to_port : Z;
  to_path : string;
  to_method : option string;
  to_headers : headers;
  used_credential : string;
  tracks_cost : bool }.

Inductive outcome :=
| Answer (status : Z) (retryAfter : option Z)
| Upstream (f : forward).

Record audit_entry := Audit {
  audit_method : string;
  audit_target : string;
  audit_status : Z;
  audit_credential : string }.

Record proxy := Proxy {
  creds : list CredentialRule;
  limiter : Limiter.limiter;
  keyRotator : option Rotator.rotator;
  metrics : option Metrics.metrics;
  costLog : bool;
  pinned : list string;
  mitmHandler : bool;
  activeCredentialMethod : option credential_method;
  audit : list audit_entry }.

Definition set_limiter (l : Limiter.limiter) (p : proxy) : proxy :=
  Proxy (creds p) l (keyRotator p) (metrics p) (costLog p) (pinned p) (mitmHandler p)
    (activeCredentialMethod p) (audit p).
Definition set_rotator (r : option Rotator.rotator) (p : proxy) : proxy :=
  Proxy (creds p) (limiter p) r (metrics p) (costLog p) (pinned p) (mitmHandler p)
    (activeCredentialMethod p) (audit p).
Definition set_metrics (m : option Metrics.metrics) (p : proxy) : proxy :=
  Proxy (creds p) (limiter p) (keyRotator p) m (costLog p) (pinned p) (mitmHandler p)
    (activeCredentialMethod p) (audit p).
Definition log_request (method target : string) (status : Z) (credential : string) (p : proxy) : proxy :=
  Proxy (creds p) (limiter p) (keyRotator p) (metrics p) (costLog p) (pinned p) (mitmHandler p)
    (activeCredentialMethod p) (audit p ++ [Audit method target status credential]).

Definition limit_hit (p : proxy) : proxy :=
  set_metrics (Metrics.recordRateLimitHit <$> metrics p) p.

(** [this.rateLimiter.consume(name)] where the credential has a limit. *)
Definition consume_limit (c : CredentialRule) (now : Z) (p : proxy) : Limiter.limit_result * proxy :=
  match rateLimit c with
  | None => (Limiter.LimitResult true None 0, p)
  | Some _ => let '(r, l) := Limiter.consume (name c) now (limiter p) in (r, set_limiter l p)
  end.

(** [Math.ceil(retryAfterMs / 1000)] *)
Definition retry_seconds (ms : Z) : Z := (ms + 999) / 1000.

(** ** Headers of the outbound request *)

Definition HOP_BY_HOP_HEADERS : list string :=
  ["host"; "connection"; "keep-alive"; "proxy-authorization"; "proxy-connection"; "te"; "trailer";
   "transfer-encoding"; "upgrade"].

Definition PROXY_HEADERS : list string := ["host"; "proxy-authorization"; "proxy-connection"].

Definition keep_headers (dropped : list string) (hs : headers) : headers :=
  filter (λ e, e.1 ∉ dropped) hs.

(** The authentication header that must not go with [key]. *)
Definition competing (key : string) : option string :=
  if bool_decide (key = "authorization"%string) then Some "x-api-key"%string
  else if bool_decide (key = "x-api-key"%string) then Some "authorization"%string
  else None.

Definition delete_opt (k : option string) (hs : headers) : headers :=
  match k with Some k => map_delete hs k | None => hs end.

(** [keyRotator ? keyRotator.getNextValue(credential) : credential.value] *)
Definition next_value (c : CredentialRule) (p : proxy) : string * proxy :=
  match keyRotator p with
  | Some r => let '(v, r) := Rotator.getNextValue c r in (v, set_rotator (Some r) p)
  | None => (value c, p)
  end.

Definition inject (c : CredentialRule) (v : string) (hs : headers) : headers :=
  delete_opt (competing (header_key c)) (map_set hs (header_key c) [v]).

(** ** Plain HTTP *)

Definition credential_name (c : option CredentialRule) : string :=
  match c with Some c => name c | None => "none" end.

(** From the injection to the upstream request. *)
Definition forward_http (c : option CredentialRule) (u : url_parts) (req : request) (p : proxy)
  : outcome * proxy :=
  let hs := filter (λ e, to_lower e.1 ∉ PROXY_HEADERS) (req_headers req) in
  let '(hs, p) := match c with
                  | Some c => let '(v, p) := next_value c p in (inject c v hs, p)
                  | None => (hs, p)
                  end in
  (Upstream (Forward (hostname u) 443 (pathname u ++ search u) (req_method req) hs
     (credential_name c) false), p).

Definition handleRequest (p : proxy) (now : Z) (req : request) : outcome * proxy :=
  let url := default "/"%string (req_url req) in
  let method := default "UNKNOWN"%string (req_method req) in
  let is_get := bool_decide (req_method req = Some "GET"%string) in
  if bool_decide (url = "/healthz"%string) && is_get then (Answer 200 None, p)
  else if bool_decide (url = "/metrics"%string) && is_get then (Answer 200 None, p)
  else match req_target req with
  | None => (Answer 400 None, log_request method url 400 "none" p)
  | Some u =>
      match findCredentialForHost (hostname u) (creds p) with
      | None => forward_http None u req p
      | Some c =>
          let '(r, p) := consume_limit c now p in
          if negb (Limiter.allowed r) then
            (Answer 429 (Some (retry_seconds (Limiter.retryAfterMs r))),
             log_request method (hostname u) 429 (name c) (limit_hit p))
          else
            let m := default "GET"%string (req_method req) in
            match enforceRules c m (pathname u) (content_length (req_headers req)) with
            | Some st => (Answer st None, log_request m (hostname u) st (name c) p)
            | None => forward_http (Some c) u req p
            end
      end
  end.

(** ** CONNECT *)

Inductive connect_outcome :=
| BadRequest
| LimitedConnect
| Tunnel (host : string) (port : Z)                                   (* raw TCP *)
| Intercept (host : string) (port : Z) (credentials : list CredentialRule).

(** [Number(portStr) || 443] for a port of digits. *)
Definition port_of (s : option string) : Z :=
  match s with
  | Some s => if str_truthy s then
                match digits_value 0 s with Some n => if n =? 0 then 443 else n | None => 443 end
              else 443
  | None => 443
  end.

Definition host_credentials (p : proxy) (host : string) : list CredentialRule :=
  filterByCredentialMethod (findAllCredentialsForHost host (creds p)) (activeCredentialMethod p).

Definition handleConnect (p : proxy) (now : Z) (req_url : option string) : connect_outcome * proxy :=
  let target := default ""%string req_url in
  let parts := str_split ":"%char target in
  let host := nth 0 parts ""%string in
  let port := port_of (parts !! 1%nat) in
  if negb (str_truthy host) then (BadRequest, p)
  else
    let cs := host_credentials p host in
    match cs with
    | c :: _ =>
        if mitmHandler p && negb (bool_decide (host ∈ pinned p)) then
          (* MitmHandler.handleConnect *)
          let '(r, p) := consume_limit c now p in
          if Limiter.allowed r then (Intercept host port cs, p)
          else (LimitedConnect, log_request "CONNECT-MITM" host 429 (name c) (limit_hit p))
        else
          let '(r, p) := consume_limit c now p in
          if Limiter.allowed r then (Tunnel host port, p)
          else (LimitedConnect, log_request "CONNECT" target 429 (name c) p)
    | [] => (Tunnel host port, p)
    end.

(** A request inside an intercepted tunnel. *)
Definition handleMitmRequest (p : proxy) (host : string) (port : Z) (cs : list CredentialRule)
    (req : request) : outcome * proxy :=
  let method := default "GET"%string (req_method req) in
  let reqPath := default "/"%string (req_url req) in
  match selectCredentialByHeaders cs (req_headers req) with
  | None => (Answer 502 None, p)
  | Some c =>
      match enforceRules c method reqPath (content_length (req_headers req)) with
      | Some st => (Answer st None, log_request (method ++ "-MITM") host st (name c) p)
      | None =>
          let '(v, p) := next_value c p in
          let hs := inject c v (keep_headers HOP_BY_HOP_HEADERS (req_headers req)) in
          let track := costLog p && includes "anthropic" (hostPattern c) in
          let hs := if track then map_delete hs "accept-encoding" else hs in
          (Upstream (Forward host port reqPath (Some method) hs (name c) track), p)
      end
  end.

(** The end of an upstream response. *)
Definition upstream_end (f : forward) (method : string) (statusCode durationMs : Z) (p : proxy) : proxy :=
  log_request method (to_host f) statusCode (used_credential f)
    (set_metrics (Metrics.record (used_credential f) statusCode durationMs <$> metrics p) p).

(** ** Reload *)

Definition reloadCredentials (cs : list CredentialRule) (l : Limiter.limiter)
    (r : option Rotator.rotator) (m : option Metrics.metrics) (bypass : option (list string)) (p : proxy) : proxy :=
  Proxy cs l (match r with Some _ => r | None => keyRotator p end)
    (match m with Some _ => m | None => metrics p end) (costLog p)
    (default (pinned p) bypass) (mitmHandler p) (activeCredentialMethod p) (audit p).

Definition empty_rules : CredentialRules := CredentialFile [] [] [].

(** [loadCredentialRules]: [None] when decryption or parsing throws. *)
Definition loadCredentialRules (keyHex : string) (file : option CredentialRules) : CredentialRules :=
  if negb (str_truthy keyHex) then empty_rules else default empty_rules file.

Definition EXPIRY_WARN_THRESHOLD : Z := 60 * 60 * 1000.

Inductive expiry := Expired | ExpiresSoon.

(** The warnings of [checkExpirations]. *)
Definition checkExpirations (cs : list CredentialRule) (now : Z) : list (string * expiry) :=
  mjoin (map (λ c,
    match ProxyRules.expiresAt c with
    | Some t =>
        if t =? 0 then []
        else if t - now <=? 0 then [(name c, Expired)]
        else if t - now <=? EXPIRY_WARN_THRESHOLD then [(name c, ExpiresSoon)]
        else []
    | None => []
    end) cs).

(** The process of [main.ts]: the server, and the rules its expiry timer has
    captured. *)
Record process := Process { server : proxy; timer_rules : list CredentialRule }.

Definition main (now : Z) (keyHex : string) (file : option CredentialRules) (ca : bool)
    (credentialMethodRaw : option string) : process :=
  let rs := loadCredentialRules keyHex file in
  let active := if bool_decide (credentialMethodRaw = Some "oauth"%string) then Some OAuth
                else if bool_decide (credentialMethodRaw = Some "api_key"%string) then Some ApiKey
                else None in
  Process
    (Proxy (credentials rs) (Limiter.buildRateLimiter (credentials rs)) (Some [])
      (Some (Metrics.new_metrics now None)) true (pinningBypass rs) ca active [])
    (credentials rs).

(** The handler of SIGHUP, with its own expiry check. *)
Definition on_sighup (now : Z) (keyHex : string) (file : option CredentialRules) (pr : process)
  : list (string * expiry) * process :=
  let rs := loadCredentialRules keyHex file in
  let p := reloadCredentials (credentials rs) (Limiter.buildRateLimiter (credentials rs))
    (Rotator.reset <$> keyRotator (server pr)) None (Some (pinningBypass rs)) (server pr) in
  (checkExpirations (credentials rs) now, Process p (timer_rules pr)).

(** The timer of the expiry check. *)
Definition on_expiry_timer (now : Z) (pr : process) : list (string * expiry) :=
  checkExpirations (timer_rules pr) now.

(** ** Headers *)

Lemma map_wf_delete_opt k (hs : headers) : map_wf hs → map_wf (delete_opt k hs).
Proof. destruct k; simpl; auto with fh. Qed.

Lemma map_get_delete_opt k (hs : headers) j : map_wf hs →
  map_get (delete_opt k hs) j = if bool_decide (k = Some j) then None else map_get hs j.
Proof.
  intros Hw. destruct k as [k|]; cbn [delete_opt]; [|by rewrite bool_decide_false].
  rewrite map_get_delete by done. case_decide; case_bool_decide; congruence.
Qed.

Lemma inject_get c v (hs : headers) j : map_wf hs →
  map_get (inject c v hs) j =
  if bool_decide (competing (header_key c) = Some j) then None
  else if bool_decide (header_key c = j) then Some [v] else map_get hs j.
Proof.
  intros Hw. unfold inject. rewrite map_get_delete_opt by auto with fh.
  case_bool_decide; [done|]. rewrite map_get_set. case_decide; by case_bool_decide.
Qed.

Lemma keep_headers_get dropped (hs : headers) j : map_wf hs →
  map_get (keep_headers dropped hs) j = if bool_decide (j ∈ dropped) then None else map_get hs j.
Proof.
  intros Hw. unfold keep_headers. rewrite map_get_filter by done. simpl.
  destruct (map_get hs j); [|by case_bool_decide]. case_decide; by case_bool_decide.
Qed.

(** The value that is injected is one the credential was given. *)
Lemma next_value_of c p : (next_value c p).1 = value c ∨ (next_value c p).1 ∈ Rotator.keys c.
Proof.
  unfold next_value. destruct (keyRotator p) as [r|]; [|by left]. unfold Rotator.getNextValue.
  destruct (length (Rotator.keys c) =? 0)%nat eqn:E; [by left|]. right. simpl.
  apply list_elem_of_In, nth_In. apply Nat.mod_upper_bound. by apply Nat.eqb_neq.
Qed.

Lemma next_value_limiter c p : limiter (next_value c p).2 = limiter p.
Proof.
  unfold next_value. destruct (keyRotator p); [|done]. by destruct (Rotator.getNextValue _ _).
Qed.

Lemma next_value_costLog c p : costLog (next_value c p).2 = costLog p.
Proof.
  unfold next_value. destruct (keyRotator p); [|done]. by destruct (Rotator.getNextValue _ _).
Qed.

Lemma bool_decide_if_iff {A} (P Q : Prop) `{!Decision P, !Decision Q} (x y : A) : (P ↔ Q) →
  (if bool_decide P then x else y) = if bool_decide Q then x else y.
Proof. intros H. by rewrite (bool_decide_ext P Q H). Qed.

(** ** The theorems *)

(** The rule for a request: the first whose header the request carries, or the first of all
    when it carries none of them. *)
Definition rule_for (cs : list CredentialRule) (hs : headers) (c : CredentialRule) : Prop :=
  ∃ l1 l2, cs = l1 ++ c :: l2 ∧
    ((map_get hs (to_lower (header c)) ≠ None ∧ ∀ d, d ∈ l1 → map_get hs (to_lower (header d)) = None) ∨
     (l1 = [] ∧ ∀ d, d ∈ cs → map_get hs (to_lower (header d)) = None)).

(** What the rule's restrictions admit; an absent or empty list admits everything. *)
Definition admitted (c : CredentialRule) (method path : string) (len : option Z) : Prop :=
  ∀ r, rules c = Some r →
    (∀ l, methods r = Some l → l = [] ∨ method ∈ l) ∧
    (∀ l, pathPrefixes r = Some l → l = [] ∨ ∃ p rest, p ∈ l ∧ path = (p ++ rest)%string) ∧
    ∀ max n, maxBodySize r = Some max → len = Some n → (n <= max)%Z.

Lemma selected_rule cs hs : match selectCredentialByHeaders cs hs with
  | Some c => rule_for cs hs c
  | None => cs = []
  end.
Proof.
  assert (Hf : ∀ d, map_has hs (header_key d) = false ↔ map_get hs (to_lower (header d)) = None).
  { intros d. unfold map_has, header_key. by destruct (map_get _ _). }
  unfold selectCredentialByHeaders. destruct cs as [|c0 [|c1 cs]]; [done|..].
  - exists [], []. split; [done|]. destruct (map_get hs (to_lower (header c0))) eqn:E; [left|right].
    + split; [done|]. by intros d ?%not_elem_of_nil.
    + split; [done|]. by intros d ->%list_elem_of_singleton.
  - pose proof (find_first (λ c, map_has hs (header_key c)) (c0 :: c1 :: cs)) as H. destruct (find _ _) as [c|].
    + destruct H as (l1 & l2 & -> & Hc & Hl). exists l1, l2. split; [done|]. left. split.
      * intros E%Hf. congruence.
      * rewrite Forall_forall in Hl. intros d Hd. by apply Hf, Hl.
    + exists [], (c1 :: cs). split; [done|]. right. split; [done|]. rewrite Forall_forall in H.
      intros d Hd. by apply Hf, H.
Qed.

Lemma enforceRules_admitted c method path hs : match enforceRules c method path (content_length hs) with
  | None => admitted c method path (content_length hs)
  | Some st => ¬ admitted c method path (content_length hs) ∧ (st = 403 ∨ st = 413)%Z
  end.
Proof.
  destruct (rules c) as [r|] eqn:Er; [|unfold enforceRules, admitted; rewrite Er; by intros].
  pose proof (proj1 (enforceRules_spec c r method path hs Er)) as H.
  assert (Ha : admitted c method path (content_length hs) ↔ enforceRules c method path (content_length hs) = None).
  { rewrite H. unfold admitted, restricts. rewrite Er. split.
    - intros Hr. destruct (Hr r eq_refl) as (Hm & Hp & Hs). split; [|split; [|done]].
      + destruct (methods r) as [l|]; [by apply Hm|by left].
      + destruct (pathPrefixes r) as [l|]; [by apply Hp|by left].
    - intros (Hm & Hp & Hs) r' [= <-]. split; [|split; [|done]]; intros l El; rewrite El in *; done. }
  destruct (enforceRules _ _ _ _) as [st|] eqn:E; [|by apply Ha]. split; [by rewrite Ha|].
  unfold enforceRules in E. rewrite Er in E. repeat case_match; naive_solver.
Qed.

(** C17: what becomes of a request in an intercepted tunnel. Without a rule it is answered
    502, and 403 or 413 when the restrictions of its rule do not admit it. Every other
    request goes to the host of the tunnel with its own method and path and a value of the
    rule in the rule's header, whatever the agent sent there; the other authentication
    header, authorization or x-api-key, the hop-by-hop headers and, when the costs of the
    host are tracked, accept-encoding are gone, and every other header is the agent's. *)
Theorem mitm_headers p host port cs req : map_wf (req_headers req) →
  let method := default "GET"%string (req_method req) in
  let path := default "/"%string (req_url req) in
  let len := content_length (req_headers req) in
  match (handleMitmRequest p host port cs req).1 with
  | Answer st _ => (cs = [] ∧ st = 502%Z) ∨
      ∃ c, rule_for cs (req_headers req) c ∧ ¬ admitted c method path len ∧ (st = 403 ∨ st = 413)%Z
  | Upstream f =>
      ∃ c v, rule_for cs (req_headers req) c ∧ admitted c method path len ∧
        (v = value c ∨ ∃ l, values c = Some l ∧ v ∈ l) ∧
        to_host f = host ∧ to_port f = port ∧ to_path f = path ∧ to_method f = Some method ∧
        let key := to_lower (header c) in
        ∀ j, map_get (to_headers f) j =
          if costLog p && includes "anthropic" (hostPattern c) && bool_decide (j = "accept-encoding"%string) then None
          else if bool_decide (key = "authorization" ∧ j = "x-api-key" ∨ key = "x-api-key" ∧ j = "authorization")%string
               then None
          else if bool_decide (key = j) then Some [v]
          else if bool_decide (j ∈ ["host"; "connection"; "keep-alive"; "proxy-authorization"; "proxy-connection"; "te";
                                    "trailer"; "transfer-encoding"; "upgrade"])%string then None
          else map_get (req_headers req) j
  end.
Proof.
  intros Hw method path len. unfold handleMitmRequest. pose proof (selected_rule cs (req_headers req)) as Hsel.
  destruct (selectCredentialByHeaders _ _) as [c|]; [|by left].
  pose proof (enforceRules_admitted c method path (req_headers req)) as Hr. fold method path len. fold len in Hr.
  destruct (enforceRules c method path len) as [st|]; [right; by exists c|].
  pose proof (next_value_of c p) as Hv. pose proof (next_value_costLog c p) as Hl. destruct (next_value c p) as [v p1].
  cbn [fst snd] in Hv, Hl |- *. exists c, v. split; [done|]. split; [done|]. split.
  { unfold Rotator.keys in Hv. destruct (values c) as [l|]; [|destruct Hv as [?|?%not_elem_of_nil]; [by left|done]].
    destruct Hv as [?|?]; [by left|right]. by exists l. }
  do 4 (split; [done|]). intros j. set (key := to_lower (header c)). cbn [to_headers]. rewrite Hl.
  assert (Hk : map_wf (keep_headers HOP_BY_HOP_HEADERS (req_headers req))) by (unfold keep_headers; auto with fh).
  change ["host"; _; _; _; _; _; _; _; _]%string with HOP_BY_HOP_HEADERS.
  rewrite <- (keep_headers_get HOP_BY_HOP_HEADERS) by done.
  assert (Hi : map_wf (inject c v (keep_headers HOP_BY_HOP_HEADERS (req_headers req))))
    by (unfold inject; auto using map_wf_delete_opt with fh).
  assert (Hin : map_get (inject c v (keep_headers HOP_BY_HOP_HEADERS (req_headers req))) j =
    if bool_decide (key = "authorization" ∧ j = "x-api-key" ∨ key = "x-api-key" ∧ j = "authorization")%string then None
    else if bool_decide (key = j) then Some [v] else map_get (keep_headers HOP_BY_HOP_HEADERS (req_headers req)) j).
  { rewrite inject_get by done. fold key. unfold competing. change (header_key c) with key.
    destruct (decide (key = "authorization")%string) as [E|E]; [rewrite (bool_decide_true _ E)|rewrite (bool_decide_false _ E);
      destruct (decide (key = "x-api-key")%string) as [E'|E']; [rewrite (bool_decide_true _ E')|rewrite (bool_decide_false _ E')]];
      apply bool_decide_if_iff; split.
    - intros [= <-]. by left.
    - intros [[_ ->]|[Ek _]]; [done|]. rewrite E in Ek. discriminate Ek.
    - intros [= <-]. by right.
    - intros [[Ek _]|[_ ->]]; [|done]. by destruct E.
    - done.
    - by intros [[Ek _]|[Ek _]]. }
  rewrite <- Hin. destruct (costLog p && includes _ _); cbn [andb]; [|done].
  rewrite map_get_delete by done. clear Hin. destruct (decide _) as [Ed|Ed]; [by rewrite bool_decide_true|by rewrite bool_decide_false by (intros ->; by apply Ed)].
Qed.

Definition example_oauth : CredentialRule :=
  Credential "oauth" "api.anthropic.com" "Authorization" "Bearer real" None None None None (Some OAuth).
Definition example_key : CredentialRule :=
  Credential "key" "api.anthropic.com" "x-api-key" "sk-real" None (Some (RateLimit 1 60)) None None
    (Some ApiKey).

Definition example_proxy (active : option credential_method) (cs : list CredentialRule) : proxy :=
  Proxy cs (Limiter.buildRateLimiter cs) (Some []) None true [] true active [].

Definition agent_request : request :=
  Request (Some "/v1/messages") (Some "POST")
    [("x-api-key", ["placeholder"]); ("connection", ["keep-alive"]); ("accept", ["*/*"])]
    (Some (Url "api.anthropic.com" "/v1/messages" ""))%string.

Lemma mitm_headers_witness :
  ∃ f p', handleMitmRequest (example_proxy None [example_key]) "api.anthropic.com" 443 [example_key]
      agent_request = (Upstream f, p') ∧
    to_headers f = [("x-api-key", ["sk-real"]); ("accept", ["*/*"])]%string ∧
    ∃ c v, rule_for [example_key] (req_headers agent_request) c ∧
      (v = value c ∨ ∃ l, values c = Some l ∧ v ∈ l).
Proof.
  assert (Hw : map_wf (req_headers agent_request)) by (apply (bool_decide_unpack _); vm_compute; exact I).
  pose proof (mitm_headers (example_proxy None [example_key]) "api.anthropic.com" 443 [example_key]
    agent_request Hw) as R. cbv zeta in R.
  destruct (handleMitmRequest _ _ _ _ _) as [o p'] eqn:E. destruct o as [st ra|f].
  - vm_compute in E. discriminate E.
  - exists f, p'. split; [reflexivity|]. split.
    + vm_compute in E. injection E as <- _. reflexivity.
    + destruct R as (c & v & Hc & _ & Hv & _). exists c, v. split; [exact Hc|exact Hv].
Defined.

(** With an active billing method, no CONNECT is intercepted with a
    credential of the other method, and one is intercepted only for a host that
    a rule matches and that is not pinned. *)
Theorem intercept_respects_method p now url host port cs p' m :
  handleConnect p now url = (Intercept host port cs, p') → activeCredentialMethod p = Some m →
  cs ≠ [] ∧ mitmHandler p = true ∧ host ∉ pinned p ∧
  ∀ c, c ∈ cs → c ∈ creds p ∧ matchesHostPattern host (hostPattern c) = true ∧
       (credentialMethod c = None ∨ credentialMethod c = Some m).
Proof.
  unfold handleConnect. cbv zeta. intros H Hm.
  destruct (negb (str_truthy _)); [done|].
  destruct (host_credentials p (nth 0 _ _)) as [|c0 cs0] eqn:Ecs; [done|].
  destruct (mitmHandler p && _) eqn:Emitm.
  - destruct (consume_limit c0 now p) as [r p1]. destruct (Limiter.allowed r); [|done].
    injection H as <- <- <- <-. apply andb_prop in Emitm as [? Hp]. apply negb_true_iff in Hp.
    apply bool_decide_eq_false in Hp. split; [done|]. split; [done|]. split; [done|].
    intros c Hc. rewrite <- Ecs in Hc. unfold host_credentials, filterByCredentialMethod in Hc.
    rewrite Hm in Hc. apply list_elem_of_In, List.filter_In in Hc as [Hc Ha].
    apply List.filter_In in Hc as [Hc ?]. split; [by apply list_elem_of_In|]. split; [done|].
    unfold method_allowed in Ha. destruct (credentialMethod c); [|by left].
    apply bool_decide_eq_true in Ha. right. by subst.
  - destruct (consume_limit c0 now p) as [r p1]. by destruct (Limiter.allowed r).
Qed.

Lemma intercept_respects_method_witness :
  ∃ cs p', handleConnect (example_proxy (Some OAuth) [example_key; example_oauth]) 5
      (Some "api.anthropic.com:443"%string) = (Intercept "api.anthropic.com" 443 cs, p') ∧
    map name cs = ["oauth"%string] ∧
    ∀ c, c ∈ cs → credentialMethod c = None ∨ credentialMethod c = Some OAuth.
Proof.
  pose proof (intercept_respects_method (example_proxy (Some OAuth) [example_key; example_oauth]) 5
    (Some "api.anthropic.com:443"%string)) as R.
  destruct (handleConnect _ _ _) as [o p'] eqn:E. vm_compute in E. injection E as <- <-.
  eexists _, _. split; [reflexivity|]. split; [reflexivity|].
  intros c Hc. destruct (R _ _ _ _ OAuth eq_refl eq_refl) as (_ & _ & _ & H). apply (H c Hc).
Defined.

(** The plain HTTP path chooses among all rules: with the billing method set
    to OAuth, a forwarded request carries the API key. *)
Theorem http_ignores_method :
  ∃ p req f p', activeCredentialMethod p = Some OAuth ∧
    handleRequest p 5 req = (Upstream f, p') ∧
    map_get (to_headers f) "x-api-key" = Some [value example_key] ∧
    credentialMethod example_key = Some ApiKey ∧
    host_credentials p (to_host f) = [example_oauth].
Proof.
  exists (example_proxy (Some OAuth) [example_key; example_oauth]), agent_request.
  destruct (handleRequest _ _ _) as [o p'] eqn:E. vm_compute in E. injection E as <- <-.
  eexists _, _. split; [reflexivity|]. split; [reflexivity|]. by repeat split.
Qed.

(** The limit of a credential counts tunnels, not requests: no request inside
    an intercepted tunnel changes the limiter or is refused with 429, whatever
    came before. *)
Theorem tunnel_requests_unlimited p host port cs reqs :
  let '(outs, p') := foldl (λ '(outs, p) req,
    let '(o, p) := handleMitmRequest p host port cs req in (outs ++ [o], p)) ([], p) reqs in
  limiter p' = limiter p ∧ Forall (λ o, ∀ ra, o ≠ Answer 429 ra) outs.
Proof.
  assert (H1 : ∀ p req, limiter (handleMitmRequest p host port cs req).2 = limiter p ∧
    ∀ ra, (handleMitmRequest p host port cs req).1 ≠ Answer 429 ra).
  { intros q req. unfold handleMitmRequest. destruct (selectCredentialByHeaders _ _) as [c|]; [|done].
    destruct (enforceRules _ _ _ _) as [st|] eqn:E.
    - split; [done|]. simpl. intros ra [= -> <-]. unfold enforceRules in E.
      repeat case_match; discriminate E.
    - pose proof (next_value_limiter c q) as Hl. destruct (next_value c q) as [v q'].
      simpl in *. by split. }
  assert (Hgen : ∀ outs p, Forall (λ o, ∀ ra, o ≠ Answer 429 ra) outs →
    let '(outs', p') := foldl (λ '(outs, p) req,
      let '(o, p) := handleMitmRequest p host port cs req in (outs ++ [o], p)) (outs, p) reqs in
    limiter p' = limiter p ∧ Forall (λ o, ∀ ra, o ≠ Answer 429 ra) outs').
  { induction reqs as [|req reqs IH]; intros outs q Ho; simpl; [done|].
    destruct (H1 q req) as [Hl Ha]. destruct (handleMitmRequest q host port cs req) as [o q'].
    simpl in *. specialize (IH (outs ++ [o]) q'). destruct (foldl _ _ reqs) as [outs' p'].
    rewrite <- Hl. apply IH, Forall_app. split; [done|]. by constructor. }
  apply (Hgen [] p). constructor.
Qed.

(** After a reload the server has exactly the rules of the file, with their
    limits fresh and the keys from the first again, and no rule at all when the
    file cannot be read; but the expiry timer goes on with the rules of the
    start of the process. *)
Theorem sighup_reloads now now' keyHex file pr :
  let '(_, pr') := on_sighup now keyHex file pr in
  let rs := match file with Some f => if str_truthy keyHex then f else empty_rules | None => empty_rules end in
  creds (server pr') = credentials rs ∧ pinned (server pr') = pinningBypass rs ∧
  (∀ n w, map_get (limiter (server pr')) n = Some w → Limiter.timestamps w = []) ∧
  (∀ r, keyRotator (server pr') = Some r → ∀ n, Rotator.getCounter n r = 0%nat) ∧
  activeCredentialMethod (server pr') = activeCredentialMethod (server pr) ∧
  on_expiry_timer now' pr' = on_expiry_timer now' pr.
Proof.
  unfold on_sighup, loadCredentialRules. cbv zeta.
  assert (E : (if negb (str_truthy keyHex) then empty_rules else default empty_rules file) =
    match file with Some f => if str_truthy keyHex then f else empty_rules | None => empty_rules end)
    by (destruct file; by destruct (str_truthy keyHex)).
  rewrite E. split; [done|]. split; [done|]. split.
  - intros n w Hw. by apply Limiter.build_get in Hw as [? _].
  - split; [|done]. intros r. simpl. destruct (keyRotator (server pr)); simpl; by intros [= <-].
Qed.

(** The timer warns of a credential that the file no longer has. *)
Example stale_expiry_warning :
  let old := Credential "old" "a.b" "x" "v" None None None (Some 100) None in
  let pr := main 1 "00" (Some (CredentialFile [old] [] [])) false None in
  let '(now_warnings, pr') := on_sighup 50 "00" (Some empty_rules) pr in
  now_warnings = [] ∧ on_expiry_timer 200 pr' = [("old"%string, Expired)].
Proof. by vm_compute. Qed.
