(* ===== verification/PortRegistry.v ===== *)
(** * The port registry

    [src/admin/port-registry.ts].  The JSON file is its parsed content; a method
    reads it at its start and writes it at its end. *)

From stdpp Require Import pretty.
From S2P Require Import Prelude.
Local Open Scope Z_scope.

Record port_set := Ports { proxy : Z; channel : Z; service : Z; database : Z }.

Record PortAllocation := Allocation {
  username : string;
  basePort : Z;
  ports : port_set;
  allocatedAt : string }.

Record PortRegistryData := Registry {
  firstPort : Z;                 (* [basePort] of the file *)
  portsPerUser : Z;
  allocations : list PortAllocation }.

Definition DEFAULT_BASE_PORT : Z := 10000.
Definition DEFAULT_PORTS_PER_USER : Z := 10.
Definition MAX_PORT : Z := 65535.

(** The quotation mark. *)
Definition quote : string := String (Ascii.ascii_of_nat 34) EmptyString.

(** [PORT_OFFSETS] from a block's first port. *)
Definition ports_at (base : Z) : port_set := Ports (base + 0) (base + 1) (base + 2) (base + 3).

Definition with_allocations (d : PortRegistryData) (l : list PortAllocation) : PortRegistryData :=
  Registry (firstPort d) (portsPerUser d) l.

(** [init]: an existing file is kept. *)
Definition init (dfltBase dfltPerUser : option Z) (file : option PortRegistryData) : PortRegistryData :=
  match file with
  | Some d => d
  | None => Registry (default DEFAULT_BASE_PORT dfltBase) (default DEFAULT_PORTS_PER_USER dfltPerUser) []
  end.

Definition get (user : string) (d : PortRegistryData) : option PortAllocation :=
  find (λ a, bool_decide (username a = user)) (allocations d).

(** The search for the first free block. *)
Definition next_base (perUser : Z) (start : Z) (usedBases : list Z) : Z :=
  foldl (λ nextBase used, if nextBase =? used then used + perUser else nextBase) start usedBases.

Definition allocate (user now : string) (d : PortRegistryData)
  : result (PortAllocation * PortRegistryData) :=
  match get user d with
  | Some _ => Err ("Port allocation already exists for user " ++ quote ++ user ++ quote)
  | None =>
      let usedBases := merge_sort Z.le (map basePort (allocations d)) in
      let nextBase := next_base (portsPerUser d) (firstPort d) usedBases in
      if MAX_PORT <? nextBase + portsPerUser d - 1 then
        Err ("Port exhaustion: cannot allocate " ++ pretty (portsPerUser d) ++
             " ports starting from " ++ pretty nextBase)
      else
        let a := Allocation user nextBase (ports_at nextBase) now in
        Ok (a, with_allocations d (allocations d ++ [a]))
  end.

(** [findIndex] and [splice]. *)
Fixpoint splice_user (user : string) (l : list PortAllocation)
  : option (PortAllocation * list PortAllocation) :=
  match l with
  | [] => None
  | a :: l =>
      if bool_decide (username a = user) then Some (a, l)
      else match splice_user user l with Some (r, l') => Some (r, a :: l') | None => None end
  end.

Definition free (user : string) (d : PortRegistryData) : result (PortAllocation * PortRegistryData) :=
  match splice_user user (allocations d) with
  | None => Err ("No port allocation found for user " ++ quote ++ user ++ quote)
  | Some (a, l) => Ok (a, with_allocations d l)
  end.

(** The conflicts of allocation [a] with the later ones. *)
Definition overlap (perUser : Z) (a b : PortAllocation) : bool :=
  (basePort a <=? basePort b + perUser - 1) && (basePort b <=? basePort a + perUser - 1).

Definition overlap_text (perUser : Z) (a b : PortAllocation) : string :=
  "Port overlap: " ++ username a ++ " (" ++ pretty (basePort a) ++ "-" ++
  pretty (basePort a + perUser - 1) ++ ") " ++ "and " ++ username b ++ " (" ++
  pretty (basePort b) ++ "-" ++ pretty (basePort b + perUser - 1) ++ ")".

Definition duplicate_text (a : PortAllocation) : string :=
  "Duplicate allocation for user " ++ quote ++ username a ++ quote.

Fixpoint conflicts (perUser : Z) (l : list PortAllocation) : list string :=
  match l with
  | [] => []
  | a :: l =>
      map (overlap_text perUser a) (List.filter (overlap perUser a) l) ++
      map (λ _, duplicate_text a) (List.filter (λ b, bool_decide (username a = username b)) l) ++
      conflicts perUser l
  end.

Definition detectConflicts (d : PortRegistryData) : list string :=
  conflicts (portsPerUser d) (allocations d).

(** ** The search *)

Section Search.
Context (p : Z) (Hp : 0 < p).

(** The starts of the blocks from [start] on. *)
Definition aligned (start u : Z) : Prop := ∃ k : nat, u = start + Z.of_nat k * p.

Lemma next_base_skip start us :
  Forall (λ u, start < u) us → next_base p start us = start.
Proof.
  induction 1 as [|u us Hu _ IH]; [done|]. unfold next_base. simpl.
  rewrite (proj2 (Z.eqb_neq _ _)) by lia. exact IH.
Qed.

Lemma next_base_spec start us :
  StronglySorted Z.lt us → Forall (aligned start) us →
  aligned start (next_base p start us) ∧ next_base p start us ∉ us ∧
  ∀ u, aligned start u → u < next_base p start us → u ∈ us.
Proof.
  intros Hs. revert start. induction Hs as [|u us Hs IH Hu]; intros start Ha.
  - split; [exists 0%nat; simpl; lia|]. split; [apply not_elem_of_nil|].
    intros u [k ->] Hlt. simpl in Hlt. lia.
  - apply Forall_cons in Ha as [[k Ek] Ha]. destruct (decide (start = u)) as [->|Hne].
    + assert (Ha' : Forall (aligned (u + p)) us).
      { rewrite Forall_forall in *. intros v Hv. destruct (Ha v Hv) as [j Ej].
        specialize (Hu v Hv). destruct j as [|j]; [simpl in Ej; lia|].
        exists j. rewrite Ej. lia. }
      change (next_base p u (u :: us)) with
        (next_base p (if u =? u then u + p else u) us). rewrite Z.eqb_refl.
      destruct (IH (u + p) Ha') as ([j Ej] & Hn & Hall). split; [exists (S j); lia|].
      split.
      * apply not_elem_of_cons. split; [|done]. nia.
      * intros v [i Ei] Hlt. destruct i as [|i]; [simpl in Ei; assert (v = u) as -> by lia; left|]. right.
        apply Hall; [|done]. exists i. lia.
    + assert (Hlt : Forall (λ v, start < v) (u :: us)).
      { assert (start < u) by nia. constructor; [done|]. eapply Forall_impl; [exact Hu|].
        simpl. intros. lia. }
      rewrite next_base_skip by done. split; [exists 0%nat; simpl; lia|]. split.
      * intros Hin. rewrite Forall_forall in Hlt. specialize (Hlt _ Hin). lia.
      * intros v [i Ei] Hv. nia.
Qed.
End Search.

Lemma sorted_bases l : NoDup l → StronglySorted Z.lt (merge_sort Z.le l).
Proof.
  intros Hd. assert (Hs : StronglySorted Z.le (merge_sort Z.le l)) by apply (StronglySorted_merge_sort Z.le).
  assert (Hn : NoDup (merge_sort Z.le l)) by (by rewrite merge_sort_Permutation).
  induction Hs as [|u us _ IH Hu]; [constructor|]. apply NoDup_cons in Hn as [Hn Hd'].
  constructor; [by apply IH|]. rewrite Forall_forall in *. intros v Hv. specialize (Hu v Hv).
  assert (u ≠ v) by (intros ->; done). lia.
Qed.

(** ** The registry's invariant *)

(** Distinct users with distinct whole blocks from the first port on, all within
    the range of ports. *)
Record registry_ok (d : PortRegistryData) : Prop := {
  per_user : 0 < portsPerUser d;
  users_distinct : NoDup (map username (allocations d));
  bases_distinct : NoDup (map basePort (allocations d));
  blocks : Forall (λ a, aligned (portsPerUser d) (firstPort d) (basePort a) ∧
    basePort a + portsPerUser d - 1 ≤ MAX_PORT ∧ ports a = ports_at (basePort a)) (allocations d) }.

Lemma find_user user l :
  find (λ a, bool_decide (username a = user)) l = None ↔ user ∉ map username l.
Proof.
  induction l as [|a l IH]; simpl; [split; [intros _; apply not_elem_of_nil|done]|].
  rewrite not_elem_of_cons. case_bool_decide as E; [naive_solver|]. rewrite IH. naive_solver.
Qed.

Lemma aligned_bases d : registry_ok d →
  StronglySorted Z.lt (merge_sort Z.le (map basePort (allocations d))) ∧
  Forall (aligned (portsPerUser d) (firstPort d)) (merge_sort Z.le (map basePort (allocations d))).
Proof.
  intros [Hp _ Hb Hk]. split; [by apply sorted_bases|]. rewrite merge_sort_Permutation.
  apply Forall_map. eapply Forall_impl; [exact Hk|]. simpl. by intros a [? _].
Qed.

Lemma allocate_spec user now d : registry_ok d →
  match allocate user now d with
  | Ok (a, d') =>
      registry_ok d' ∧ user ∉ map username (allocations d) ∧ username a = user ∧
      allocations d' = allocations d ++ [a] ∧ ports a = ports_at (basePort a) ∧
      aligned (portsPerUser d) (firstPort d) (basePort a) ∧
      (∀ u, aligned (portsPerUser d) (firstPort d) u → u ∉ map basePort (allocations d) →
         basePort a ≤ u)
  | Err _ =>
      user ∈ map username (allocations d) ∨
      ∀ u, aligned (portsPerUser d) (firstPort d) u → u ∉ map basePort (allocations d) →
         MAX_PORT < u + portsPerUser d - 1
  end.
Proof.
  intros Hok. pose proof (aligned_bases d Hok) as [Hs Ha]. destruct Hok as [Hp Hu Hb Hk].
  unfold allocate, get. destruct (find _ _) eqn:Ef.
  - left. destruct (decide (user ∈ map username (allocations d))) as [|Hn]; [done|].
    apply find_user in Hn. congruence.
  - apply find_user in Ef.
    destruct (next_base_spec (portsPerUser d) Hp (firstPort d) _ Hs Ha) as (Hal & Hfree & Hleast).
    cbv zeta. set (nb := next_base _ _ _) in *.
    assert (Hfree' : nb ∉ map basePort (allocations d)) by (by rewrite <- (merge_sort_Permutation Z.le)).
    assert (Hleast' : ∀ u, aligned (portsPerUser d) (firstPort d) u →
      u ∉ map basePort (allocations d) → nb ≤ u).
    { intros u Hu1 Hu2. destruct (Z.lt_ge_cases u nb) as [Hlt|]; [|done].
      specialize (Hleast u Hu1 Hlt). by rewrite merge_sort_Permutation in Hleast. }
    destruct (MAX_PORT <? nb + portsPerUser d - 1) eqn:E; bool_cases.
    + right. intros u Hu1 Hu2. specialize (Hleast' u Hu1 Hu2). lia.
    + split; [|done]. split; simpl.
      * done.
      * rewrite map_app. apply NoDup_app. split; [done|]. split; [|apply NoDup_singleton].
        intros x Hx ->%list_elem_of_singleton. done.
      * rewrite map_app. apply NoDup_app. split; [done|]. split; [|apply NoDup_singleton].
        intros x Hx ->%list_elem_of_singleton. done.
      * apply Forall_app. split; [done|]. constructor; [|constructor]. simpl. split; [done|]. by split.
Qed.

Lemma splice_spec user l :
  match splice_user user l with
  | Some (a, l') => username a = user ∧ ∃ l1 l2, l = l1 ++ a :: l2 ∧ l' = l1 ++ l2 ∧ user ∉ map username l1
  | None => user ∉ map username l
  end.
Proof.
  induction l as [|b l IH]; simpl; [apply not_elem_of_nil|]. case_bool_decide as E.
  - split; [done|]. exists [], l. split; [done|]. split; [done|]. apply not_elem_of_nil.
  - destruct (splice_user user l) as [[a l']|].
    + destruct IH as (Ha & l1 & l2 & -> & -> & Hn). split; [done|]. exists (b :: l1), l2.
      split; [done|]. split; [done|]. simpl. apply not_elem_of_cons. by split.
    + apply not_elem_of_cons. by split.
Qed.

Lemma free_ok user d : registry_ok d →
  match free user d with Ok (_, d') => registry_ok d' | Err _ => True end.
Proof.
  intros [Hp Hu Hb Hk]. unfold free. pose proof (splice_spec user (allocations d)) as Hs.
  destruct (splice_user _ _) as [[a l]|]; [|done]. destruct Hs as (_ & l1 & l2 & E & -> & _).
  rewrite E in Hu, Hb, Hk. rewrite map_app in Hu, Hb. simpl in Hu, Hb. split; simpl; [done| | |].
  - rewrite map_app. apply NoDup_app in Hu as (H1 & H2 & [_ H3]%NoDup_cons). apply NoDup_app.
    split; [done|]. split; [|done]. intros x Hx Hx2. apply (H2 x Hx). by right.
  - rewrite map_app. apply NoDup_app in Hb as (H1 & H2 & [_ H3]%NoDup_cons). apply NoDup_app.
    split; [done|]. split; [|done]. intros x Hx Hx2. apply (H2 x Hx). by right.
  - apply Forall_app in Hk as [? [_ ?]%Forall_cons]. by apply Forall_app.
Qed.

Lemma filter_nil_iff {A} (f : A → bool) l : List.filter f l = [] ↔ Forall (λ x, f x = false) l.
Proof.
  induction l as [|x l IH]; simpl; [done|]. destruct (f x) eqn:E.
  - split; [done|]. intros H. apply Forall_cons in H as [H _]. congruence.
  - rewrite IH, Forall_cons. naive_solver.
Qed.

Lemma map_nil_iff {A B} (f : A → B) l : map f l = [] ↔ l = [].
Proof. by destruct l. Qed.

(** Two allocations do not conflict. *)
Definition separate (per : Z) (a b : PortAllocation) : Prop :=
  overlap per a b = false ∧ username a ≠ username b.

Lemma conflicts_none per l : conflicts per l = [] ↔ ForallOrdPairs (separate per) l.
Proof.
  induction l as [|a l IH]; simpl; [split; [constructor|done]|].
  rewrite !app_nil, !map_nil_iff, !filter_nil_iff, IH. split.
  - intros (H1 & H2 & H3). constructor; [|done]. rewrite Forall_forall in *. intros b Hb.
    split; [by apply H1|]. specialize (H2 b Hb). by bool_cases.
  - intros H. inversion H as [|? ? Hall Hrest]; subst. rewrite !Forall_forall in *.
    split; [intros b Hb; apply (Hall b Hb)|]. split; [|done].
    intros b Hb. apply bool_decide_eq_false. apply (Hall b Hb).
Qed.

Lemma separate_blocks per start a b : 0 < per →
  aligned per start (basePort a) → aligned per start (basePort b) →
  basePort a ≠ basePort b → overlap per a b = false.
Proof.
  intros Hp [i Ei] [j Ej] Hne. unfold overlap. apply andb_false_iff.
  rewrite !Z.leb_gt, Ei, Ej. assert (i ≠ j) by congruence. nia.
Qed.

Lemma registry_separate d : registry_ok d → ForallOrdPairs (separate (portsPerUser d)) (allocations d).
Proof.
  intros [Hp Hu Hb Hk]. induction (allocations d) as [|a l IH]; [constructor|].
  simpl in Hu, Hb. apply NoDup_cons in Hu as [Hua Hu], Hb as [Hba Hb].
  apply Forall_cons in Hk as [(Ha & _) Hk]. constructor; [|by apply IH].
  rewrite Forall_forall in *. intros b Hin. destruct (Hk b Hin) as (Hbk & _). split.
  - apply (separate_blocks _ (firstPort d)); [done|done|done|].
    intros E. apply Hba. rewrite E. apply list_elem_of_fmap. by exists b.
  - intros E. apply Hua. rewrite E. apply list_elem_of_fmap. by exists b.
Qed.

(** ** Runs *)

Inductive registry_op := OpAllocate (user now : string) | OpFree (user : string).

(** A call that throws writes nothing. *)
Definition registry_step (d : PortRegistryData) (op : registry_op) : PortRegistryData :=
  match op with
  | OpAllocate user now => match allocate user now d with Ok (_, d') => d' | Err _ => d end
  | OpFree user => match free user d with Ok (_, d') => d' | Err _ => d end
  end.

Lemma registry_step_ok d op : registry_ok d → registry_ok (registry_step d op).
Proof.
  intros Hok. destruct op as [user now|user]; simpl.
  - pose proof (allocate_spec user now d Hok) as H. destruct (allocate user now d) as [[a d']|]; [|done].
    apply H.
  - pose proof (free_ok user d Hok) as H. by destruct (free user d) as [[a d']|].
Qed.

Definition start_registry (base per : option Z) : PortRegistryData := init base per None.

Lemma registry_run_ok base per ops : 0 < default DEFAULT_PORTS_PER_USER per →
  registry_ok (foldl registry_step (start_registry base per) ops).
Proof.
  intros Hp. apply (foldl_inv registry_ok); [|intros; by apply registry_step_ok].
  split; simpl; [done|constructor..].
Qed.

Lemma registry_step_fixed d op :
  portsPerUser (registry_step d op) = portsPerUser d ∧ firstPort (registry_step d op) = firstPort d.
Proof.
  destruct op as [user now|user]; simpl; unfold allocate, free; repeat (case_match; simplify_eq/=); done.
Qed.

Definition port_list (a : PortAllocation) : list Z :=
  [proxy (ports a); channel (ports a); service (ports a); database (ports a)].

(** ** The theorems *)

(** Whatever users are allocated and freed, in any order, the blocks of the
    registry never overlap, no user has two, all ports are within range, and
    [detectConflicts] reports nothing; with at least four ports per user, no
    port is assigned twice. *)
Theorem registry_run_disjoint base per ops :
  0 < default DEFAULT_PORTS_PER_USER per →
  let d := foldl registry_step (start_registry base per) ops in
  detectConflicts d = [] ∧ NoDup (map username (allocations d)) ∧
  Forall (λ a, firstPort d ≤ basePort a ∧ basePort a + portsPerUser d - 1 ≤ MAX_PORT) (allocations d) ∧
  (4 ≤ portsPerUser d → ∀ a b x, a ∈ allocations d → b ∈ allocations d →
     x ∈ port_list a → x ∈ port_list b → username a = username b).
Proof.
  intros Hp d. pose proof (registry_run_ok base per ops Hp) as Hok. fold d in Hok.
  split; [by apply conflicts_none, registry_separate|]. destruct Hok as [Hper Hu Hb Hk].
  split; [done|]. split.
  - eapply Forall_impl; [exact Hk|]. simpl. intros a ([k ->] & ? & _). split; [nia|done].
  - intros H4 a b x Ha Hb' Hxa Hxb. rewrite Forall_forall in Hk.
    destruct (Hk a Ha) as ([i Ei] & _ & Pa), (Hk b Hb') as ([j Ej] & _ & Pb).
    unfold port_list in Hxa, Hxb. rewrite Pa in Hxa. rewrite Pb in Hxb.
    assert (Hra : basePort a ≤ x ≤ basePort a + 3) by (simpl in Hxa; set_solver by lia).
    assert (Hrb : basePort b ≤ x ≤ basePort b + 3) by (simpl in Hxb; set_solver by lia).
    assert (Hij : i = j) by nia.
    assert (Eab : basePort a = basePort b) by congruence.
    apply list_elem_of_lookup in Ha as [m Hm], Hb' as [n Hn].
    assert (m = n) as ->; [|congruence].
    apply (NoDup_lookup (map basePort (allocations d)) m n (basePort a)); [done| |];
      rewrite list_lookup_fmap; [by rewrite Hm|by rewrite Hn, Eab].
Qed.

Definition example_ops : list registry_op :=
  [OpAllocate "ann" "t1"; OpAllocate "bob" "t2"; OpFree "ann"; OpAllocate "eve" "t3"; OpAllocate "ann" "t4"].

Lemma registry_run_disjoint_witness :
  let d := foldl registry_step (start_registry None None) example_ops in
  map (λ a, (username a, basePort a)) (allocations d) =
    [("bob", 10010); ("eve", 10000); ("ann", 10020)]%string ∧ detectConflicts d = [].
Proof.
  intros d. split; [vm_compute; reflexivity|].
  apply (registry_run_disjoint None None example_ops). reflexivity.
Defined.

(** On every registry that a run produces, [allocate] gives a user without a
    block the first free block and adds it alone; it throws exactly when the
    user has a block or no free block is left within the range of ports. *)
Theorem allocate_first_free base per ops user now :
  0 < default DEFAULT_PORTS_PER_USER per →
  let d := foldl registry_step (start_registry base per) ops in
  let is_free u := aligned (portsPerUser d) (firstPort d) u ∧ u ∉ map basePort (allocations d) in
  match allocate user now d with
  | Ok (a, d') =>
      user ∉ map username (allocations d) ∧ allocations d' = allocations d ++ [a] ∧
      username a = user ∧ ports a = ports_at (basePort a) ∧
      is_free (basePort a) ∧ ∀ u, is_free u → basePort a ≤ u
  | Err _ =>
      user ∈ map username (allocations d) ∨
      ∀ u, is_free u → MAX_PORT < u + portsPerUser d - 1
  end.
Proof.
  intros Hp d is_free. pose proof (registry_run_ok base per ops Hp) as Hok. fold d in Hok.
  pose proof (allocate_spec user now d Hok) as H. destruct (allocate user now d) as [[a d']|e].
  - destruct H as (Hok' & Hn & Hu & Ea & Hports & Hal & Hleast).
    do 4 (split; [done|]). split; [|intros u [? ?]; by apply Hleast].
    split; [done|]. destruct Hok' as [_ _ Hb _]. rewrite Ea, map_app in Hb.
    apply NoDup_app in Hb as (_ & Hd & _). intros Hin. apply (Hd _ Hin). left.
  - destruct H as [H|H]; [by left|right]. intros u [? ?]. by apply H.
Qed.

Lemma allocate_first_free_witness :
  let d := foldl registry_step (start_registry None None) [OpAllocate "ann" "t1"; OpAllocate "bob" "t2"; OpFree "ann"] in
  ∃ a d', allocate "eve" "t" d = Ok (a, d') ∧ basePort a = 10000 ∧
    allocations d' = allocations d ++ [a].
Proof.
  intros d. assert (Hp : 0 < default DEFAULT_PORTS_PER_USER None) by reflexivity.
  pose proof (allocate_first_free None None
    [OpAllocate "ann" "t1"; OpAllocate "bob" "t2"; OpFree "ann"] "eve" "t" Hp) as R.
  cbv zeta in R. fold d in R.
  destruct (allocate "eve" "t" d) as [[a d']|e] eqn:E; [|vm_compute in E; discriminate E].
  exists a, d'. split; [reflexivity|]. destruct R as (_ & Hd & _). split; [|exact Hd].
  vm_compute in E. injection E as <- <-. reflexivity.
Defined.

(** With three ports per user, a size the constructor accepts, the database
    port of one user is the proxy port of the next, and [detectConflicts], which
    looks at blocks only, reports nothing. *)
Theorem small_blocks_share_port :
  let d := foldl registry_step (start_registry None (Some 3)) [OpAllocate "ann" "t1"; OpAllocate "bob" "t2"] in
  detectConflicts d = [] ∧
  ∃ a b, get "ann" d = Some a ∧ get "bob" d = Some b ∧ database (ports a) = proxy (ports b).
Proof. split; [by vm_compute|]. eexists _, _. split; [reflexivity|]. split; [reflexivity|]. reflexivity. Qed.
