(* ===== verification/AgentCli.v ===== *)
(** * Commands and responses of the agent runtimes

    [src/agent/]: the command line that is executed in an agent container, the
    prompt and the MCP configuration it refers to, and the parsing of what it
    prints.  [JSON.parse] is an argument, [None] where it throws. *)

From Stdlib Require Import Ascii.
From stdpp Require Import pretty.
From S2P Require Import Prelude JsMap JsString.
Local Open Scope string_scope.
Local Open Scope list_scope.

(** ** [system-prompt.ts] *)

Definition newline : string := String "010" "".

Definition lines (l : list string) : string := String.concat newline l.

Definition prompt_body : string := lines [
  "## Core Behavior";
  "";
  "- Respond directly and concisely to the user's message.";
  "- Use the tools available to you when needed. Prefer action over explanation.";
  "- When you learn something about the user (preferences, facts, contacts), store it using memory tools so you can recall it later.";
  "- When you need context about the user or past conversations, search memory first.";
  "- Never fabricate information. If you don't know something and can't find it in memory, say so.";
  "- Respect the user's communication style. Match their formality level.";
  "";
  "## Memory Tools";
  "";
  "You have access to memory tools via MCP. Use them proactively:";
  "";
  "- **search_semantic**: Find stored facts, preferences, and patterns about the user.";
  "- **store_semantic**: Save new facts, preferences, or patterns you learn.";
  "- **recall_conversation**: Review recent conversation history.";
  "- **search_external**: Search uploaded documents and knowledge base.";
  "- **get_identity**: Get your configured identity and the user's profile.";
  "- **observe_personality**: Record observations about the user's communication style.";
  "";
  "Your appended context (below) contains pre-fetched memory relevant to this message. MCP tools let you search for additional context during your response.";
  "";
  "## Guidelines";
  "";
  "- Be helpful, accurate, and respectful.";
  "- Keep responses focused on what the user asked.";
  "- If a task requires multiple steps, break it down and execute each step.";
  "- For ambiguous requests, make reasonable assumptions and note them.";
  "- Prioritize the user's stated preferences (from memory) in your responses."]%string.

Definition buildSystemPrompt (useCustom : bool) (agentName username : option string) : option string :=
  if negb useCustom then None
  else
    let name := default "FlowHelm Agent"%string agentName in
    let user := if opt_truthy username then (" for " ++ default "" username)%string else ""%string in
    Some ("You are " ++ name ++ ", a personal AI assistant" ++ user ++
      ". You help with tasks, answer questions, and manage information through conversation." ++
      newline ++ newline ++ prompt_body)%string.

Definition estimatePromptTokens (prompt : string) : nat := (String.length prompt + 3) / 4.

(** ** [mcp-config.ts] *)

Record McpConfigOptions := McpOptions {
  socketPath : string;
  bridgeScriptPath : option string;
  tcpHost : option string;
  tcpPort : option Z }.

Record McpServerConfig := McpServer {
  mcp_command : string;
  mcp_args : list string;
  mcp_env : list (string * string) }.

Definition DEFAULT_BRIDGE_SCRIPT : string := "/workspace/stdio-to-uds-bridge.cjs".
Definition DEFAULT_SOCKET_PATH : string := "/workspace/ipc/memory.sock".

(** The entry [flowhelm] of [mcpServers]. *)
Definition generateMcpConfig (options : option McpConfigOptions) : McpServerConfig :=
  let bridgeScript := default DEFAULT_BRIDGE_SCRIPT (options ≫= bridgeScriptPath) in
  let host := options ≫= tcpHost in
  let port := options ≫= tcpPort in
  match host, port with
  | Some h, Some p =>
      if str_truthy h && negb (p =? 0)%Z then
        McpServer "node" [bridgeScript] [("FLOWHELM_MCP_HOST", h); ("FLOWHELM_MCP_PORT", pretty p)]%string
      else McpServer "node" [bridgeScript]
             [("FLOWHELM_MCP_SOCKET"%string, default DEFAULT_SOCKET_PATH (socketPath <$> options))]
  | _, _ => McpServer "node" [bridgeScript]
              [("FLOWHELM_MCP_SOCKET"%string, default DEFAULT_SOCKET_PATH (socketPath <$> options))]
  end.

(** ** Commands *)

Record ContainerExecOptions := ExecOptions {
  message : string;
  systemPrompt : string;
  mcpConfigPath : string;
  maxTurns : Z;
  resumeSessionId : option string;
  useCustomSystemPrompt : bool;
  disableSlashCommands : bool;
  tools : option string }.

(** [if (value) args.push(flag, value)] *)
Definition flag_value (flag : string) (value : option string) : list string :=
  if opt_truthy value then [flag; default "" value]%string else [].

Definition flag_only (flag : string) (b : bool) : list string := if b then [flag] else [].

Definition buildCliCommand (o : ContainerExecOptions) : list string :=
  (["claude"; "-p"; "--output-format"; "json"] ++
   ["--dangerously-skip-permissions"] ++
   ["--max-turns"; pretty (maxTurns o)] ++
   (if useCustomSystemPrompt o then flag_value "--system-prompt" (buildSystemPrompt true None None) else []) ++
   flag_value "--append-system-prompt" (Some (systemPrompt o)) ++
   ["--mcp-config"; mcpConfigPath o] ++ ["--strict-mcp-config"] ++
   flag_value "--resume" (resumeSessionId o) ++
   flag_only "--disable-slash-commands" (disableSlashCommands o) ++
   flag_value "--allowedTools" (tools o) ++
   [message o]).

Record AgentTask := Task {
  task_id : string;
  task_chatId : string;
  task_message : string;
  task_username : string;
  task_maxTurns : Z;
  task_env : jsmap string;
  task_systemPrompt : option string;
  task_mcpPort : option Z }.

(** The fields of [config.agent] that the commands use. *)
Record agent_config := AgentConfig {
  cliUseCustomSystemPrompt : bool;
  cliDisableSlashCommands : bool;
  cliTools : option string }.

(** [CliRuntime.buildCommand], with the session of the container. *)
Definition cli_command (cfg : agent_config) (task : AgentTask) (sessionId : option string) : list string :=
  buildCliCommand (ExecOptions (task_message task) (default ""%string (task_systemPrompt task))
    "/workspace/config/mcp-config.json" (task_maxTurns task) sessionId (cliUseCustomSystemPrompt cfg)
    (cliDisableSlashCommands cfg) (cliTools cfg)).

(** [SdkRuntime.buildCommand] *)
Definition sdk_command (cfg : agent_config) (task : AgentTask) (sessionId : option string) : list string :=
  (["node"; "/workspace/sdk-runner.js"; "--message"; task_message task; "--max-turns";
    pretty (task_maxTurns task); "--mcp-config"; "/workspace/config/mcp-config.json"] ++
   flag_value "--append-system-prompt" (task_systemPrompt task) ++
   (if cliUseCustomSystemPrompt cfg then flag_value "--system-prompt" (buildSystemPrompt true None None) else []) ++
   flag_value "--resume" sessionId ++
   flag_value "--allowed-tools" (cliTools cfg)).

(** ** Responses *)

(** The values that come out of the JSON are used as they are. *)
Record ParsedCliResponse := Parsed {
  text : jvalue;
  success : bool;
  error : option jvalue;
  sessionId : jvalue;
  numTurns : jvalue;
  inputTokens : jvalue;
  outputTokens : jvalue }.

(** [v ?? d] *)
Definition nullish (v : option jvalue) (d : jvalue) : jvalue :=
  match v with None | Some JNull => d | Some v => v end.

(** [v || d], for a property that may be undefined. *)
Definition or_else (v : option jvalue) (d : jvalue) : jvalue :=
  match v with Some v => if falsy v then d else v | None => d end.

Definition truthy_field (v : jvalue) (name : string) : bool :=
  match field v name with Some x => negb (falsy x) | None => false end.

Definition failed_response (txt : string) (err : string) : ParsedCliResponse :=
  Parsed (JStr txt) false (Some (JStr err)) (JStr "") (JNum 0) (JNum 0) (JNum 0).

(** Reading a property of [null] throws. *)
Definition read_response (in_tokens out_tokens : string) (v : jvalue) : result ParsedCliResponse :=
  match v with
  | JNull => Err "Cannot read properties of null"
  | _ => Ok (Parsed (nullish (field v "result") (JStr ""))
      (negb (truthy_field v "is_error"))
      (if truthy_field v "is_error" then Some (or_else (field v "result") (JStr "Agent returned an error"))
       else None)
      (nullish (field v "session_id") (JStr "")) (nullish (field v "num_turns") (JNum 0))
      (nullish (field v in_tokens) (JNum 0)) (nullish (field v out_tokens) (JNum 0)))
  end.

(** The text up to the last [c], inclusive. *)
Fixpoint upto_last (c : ascii) (s : string) : option string :=
  match s with
  | EmptyString => None
  | String d s' =>
      match upto_last c s' with
      | Some r => Some (String d r)
      | None => if decide (d = c) then Some (String d "") else None
      end
  end.

(** [s.match(/\{[\s\S]*\}/)]: from the first brace to the last closing one. *)
Fixpoint match_braces (s : string) : option string :=
  match s with
  | EmptyString => None
  | String d s' =>
      if decide (d = "{"%char) then
        match upto_last "}"%char s' with Some r => Some (String d r) | None => None end
      else match_braces s'
  end.

Section Parse.
Context (json_parse : string → option jvalue).

Definition parseCliResponse (stdout stderr : string) : result ParsedCliResponse :=
  let trimmed := trim stdout in
  if negb (str_truthy trimmed) then
    Ok (failed_response "" (if str_truthy (trim stderr) then trim stderr else "Empty response from agent"))
  else
    let json := match json_parse trimmed with
                | Some v => Some v
                | None => match match_braces trimmed with
                          | Some o => json_parse o
                          | None => None
                          end
                end in
    match json with
    | Some v => read_response "total_input_tokens" "total_output_tokens" v
    | None => Ok (failed_response trimmed "Failed to parse agent response as JSON")
    end.

(** [SdkRuntime.parseExecResult] *)
Definition parseSdkResponse (stdout stderr : string) : result ParsedCliResponse :=
  let trimmed := trim stdout in
  if negb (str_truthy trimmed) then
    Ok (failed_response ""
          (if str_truthy (trim stderr) then trim stderr else "Empty response from SDK runner"))
  else
    match json_parse trimmed with
    | Some v => read_response "input_tokens" "output_tokens" v
    | None => Ok (failed_response trimmed "Failed to parse SDK runner response as JSON")
    end.

(** The object on a line, when it parses; [null] throws on the first read, inside
    the same [try]. *)
Definition line_entry (line : string) : option jvalue :=
  let line := trim line in
  if str_truthy line then
    match json_parse line with Some JNull | None => None | Some v => Some v end
  else None.

Definition assistant_uuid (line : string) : option string :=
  v ← line_entry line;
  if bool_decide (str_field v "type" = Some "assistant") then str_field v "uuid" else None.

Definition extractLastAssistantUuid (sessionJsonl : string) : option string :=
  head (omap assistant_uuid (rev (str_split "010"%char (trim sessionJsonl)))).

Definition system_session (line : string) : option string :=
  v ← line_entry line;
  if bool_decide (str_field v "type" = Some "system") then str_field v "session_id" else None.

Definition extractSessionIdFromJsonl (sessionJsonl : string) : option string :=
  head (omap system_session (str_split "010"%char (trim sessionJsonl))).
End Parse.

(** ** Reading a command back *)

(** A reference reader of the command line: an optional flag is read when its
    value and something after it follow. *)
Definition opt_flag (flag : string) (args : list string) : option string * list string :=
  match args with
  | f :: v :: (_ :: _) as rest => if decide (f = flag) then (Some v, tail (tail args)) else (None, args)
  | _ => (None, args)
  end.

Definition opt_switch (flag : string) (args : list string) : bool * list string :=
  match args with
  | f :: (_ :: _) as rest => if decide (f = flag) then (true, tail args) else (false, args)
  | _ => (false, args)
  end.

Record cli_reading := Reading {
  r_turns : string;
  r_system : option string;
  r_append : option string;
  r_mcp : string;
  r_resume : option string;
  r_disable : bool;
  r_tools : option string;
  r_message : string }.

Definition read_cli (args : list string) : option cli_reading :=
  match args with
  | "claude" :: "-p" :: "--output-format" :: "json" :: "--dangerously-skip-permissions" ::
    "--max-turns" :: turns :: rest =>
      let '(sys, rest) := opt_flag "--system-prompt" rest in
      let '(app, rest) := opt_flag "--append-system-prompt" rest in
      match rest with
      | "--mcp-config" :: mcp :: "--strict-mcp-config" :: rest =>
          let '(res, rest) := opt_flag "--resume" rest in
          let '(dis, rest) := opt_switch "--disable-slash-commands" rest in
          let '(tls, rest) := opt_flag "--allowedTools" rest in
          match rest with
          | [msg] => Some (Reading turns sys app mcp res dis tls msg)
          | _ => None
          end
      | _ => None
      end
  | _ => None
  end.

(** [Some v] only for a value that is not empty. *)
Definition non_empty (v : option string) : option string := if opt_truthy v then v else None.

Lemma flag_value_cases flag v :
  flag_value flag v = [] ∧ non_empty v = None ∨
  ∃ s, flag_value flag v = [flag; s] ∧ non_empty v = Some s.
Proof.
  unfold flag_value, non_empty. destruct v as [s|]; [|by left]. simpl.
  destruct (str_truthy s); [right; by exists s|by left].
Qed.

Lemma read_cli_command o : read_cli (buildCliCommand o) = Some (Reading (pretty (maxTurns o))
  (if useCustomSystemPrompt o then buildSystemPrompt true None None else None)
  (non_empty (Some (systemPrompt o))) (mcpConfigPath o) (non_empty (resumeSessionId o))
  (disableSlashCommands o) (non_empty (tools o)) (message o)).
Proof.
  assert (Hsys : (if useCustomSystemPrompt o then buildSystemPrompt true None None else None) =
    non_empty (if useCustomSystemPrompt o then buildSystemPrompt true None None else None))
    by (by destruct (useCustomSystemPrompt o)).
  unfold buildCliCommand. rewrite Hsys.
  replace (if useCustomSystemPrompt o then flag_value "--system-prompt" (buildSystemPrompt true None None)
           else []) with (flag_value "--system-prompt"
    (if useCustomSystemPrompt o then buildSystemPrompt true None None else None))
    by (by destruct (useCustomSystemPrompt o)).
  generalize (if useCustomSystemPrompt o then buildSystemPrompt true None None else None). intros sys.
  destruct (flag_value_cases "--system-prompt" sys) as [[-> ->]|(a & -> & ->)],
    (flag_value_cases "--append-system-prompt" (Some (systemPrompt o))) as [[-> ->]|(b & -> & ->)],
    (flag_value_cases "--resume" (resumeSessionId o)) as [[-> ->]|(c & -> & ->)],
    (disableSlashCommands o),
    (flag_value_cases "--allowedTools" (tools o)) as [[-> ->]|(d & -> & ->)]; reflexivity.
Qed.

(** Whatever the options are, the command the CLI runtime executes reads back as
    exactly the turns, prompts, MCP configuration, session, tools and message it was
    built from: no value is taken for a flag, whatever it contains. *)
Theorem cli_command_readback cfg task sid :
  read_cli (cli_command cfg task sid) = Some (Reading (pretty (task_maxTurns task))
    (if cliUseCustomSystemPrompt cfg then buildSystemPrompt true None None else None)
    (non_empty (task_systemPrompt task)) "/workspace/config/mcp-config.json" (non_empty sid)
    (cliDisableSlashCommands cfg) (non_empty (cliTools cfg)) (task_message task)).
Proof.
  unfold cli_command. rewrite read_cli_command. by destruct (task_systemPrompt task).
Qed.

(** ** The braces of a noisy output *)

Lemma upto_last_None c s : upto_last c s = None ↔ lacks c s.
Proof.
  induction s as [|d s IH]; simpl.
  - split; [intros _; apply lacks_nil|done].
  - rewrite lacks_cons, <- IH. destruct (upto_last c s); [naive_solver|].
    case_decide; naive_solver.
Qed.

Lemma upto_last_app c p q : lacks c q → upto_last c (p ++ String c q) = Some (p ++ String c "")%string.
Proof.
  intros Hq%upto_last_None. induction p as [|d p IH]; simpl.
  - rewrite Hq. by case_decide.
  - by rewrite IH.
Qed.

Lemma upto_last_Some c s r : upto_last c s = Some r →
  ∃ p q, s = (p ++ String c q)%string ∧ r = (p ++ String c "")%string ∧ lacks c q.
Proof.
  revert r. induction s as [|d s IH]; intros r; simpl; [done|].
  destruct (upto_last c s) as [r'|] eqn:E.
  - intros [= <-]. destruct (IH _ eq_refl) as (p & q & -> & -> & Hq). by exists (String d p), q.
  - apply upto_last_None in E. case_decide; [|done]. subst. intros [= <-]. by exists ""%string, s.
Qed.

(** The matched text runs from the first opening brace to the last closing one. *)
Lemma match_braces_spec s o : match_braces s = Some o ↔
  ∃ p m q, s = (p ++ "{" ++ m ++ "}" ++ q)%string ∧ lacks "{" p ∧ lacks "}" q ∧
    o = ("{" ++ m ++ "}")%string.
Proof.
  split.
  - revert o. induction s as [|d s IH]; intros o; simpl; [done|]. case_decide as Hd.
    + destruct (upto_last _ s) as [r|] eqn:E; [|done]. intros [= <-]. subst d.
      apply upto_last_Some in E as (m & q & -> & -> & Hq). exists ""%string, m, q.
      split; [done|]. split; [apply lacks_nil|done].
    + intros (p & m & q & -> & Hp & Hq & ->)%IH. exists (String d p), m, q.
      split; [done|]. split; [|done]. apply lacks_cons. split; [|done].
      intros E. by apply Hd.
  - intros (p & m & q & -> & Hp & Hq & ->). induction p as [|d p IH]; simpl in *.
    + change (match upto_last "}" (m ++ String "}" q)%string with
              | Some r => Some (String "{" r) | None => None end = Some ("{" ++ m ++ "}")%string).
      by rewrite (upto_last_app "}" m q Hq).
    + apply lacks_cons in Hp as [? Hp]. rewrite decide_False by congruence. auto.
Qed.

(** ** Responses *)

Section Responses.
Context (json_parse : string → option jvalue).

(** The text that is tried when the output as a whole does not parse. *)
Definition embedded (out o : string) : Prop :=
  ∃ p m q, out = (p ++ "{" ++ m ++ "}" ++ q)%string ∧ lacks "{" p ∧ lacks "}" q ∧
    o = ("{" ++ m ++ "}")%string.

Definition response_json (out : string) (v : jvalue) : Prop :=
  json_parse out = Some v ∨
  json_parse out = None ∧ ∃ o, embedded out o ∧ json_parse o = Some v.

Lemma response_json_parse out v : response_json out v ↔
  match json_parse out with
  | Some w => Some w
  | None => match_braces out ≫= json_parse
  end = Some v.
Proof.
  unfold response_json, embedded. destruct (json_parse out) as [w|].
  - naive_solver.
  - setoid_rewrite <- match_braces_spec. destruct (match_braces out) as [o|]; simpl; naive_solver.
Qed.

Lemma read_response_spec i o v r : read_response i o v = Ok r →
  v ≠ JNull ∧ success r = negb (truthy_field v "is_error") ∧
  text r = nullish (field v "result") (JStr "").
Proof. destruct v; [done|..]; by intros [= <-]. Qed.

Lemma read_response_total i o v : v ≠ JNull → ∃ r, read_response i o v = Ok r.
Proof. destruct v; [done|..]; by eexists. Qed.

(** The response is a success exactly when the output is not blank and a JSON value
    that is not [null], the whole output or the text between its first and its last
    brace, has no truthy [is_error]; its text is then the [result] of that value. *)
Theorem parseCliResponse_success stdout stderr txt :
  (∃ r, parseCliResponse json_parse stdout stderr = Ok r ∧ success r = true ∧ text r = txt) ↔
  str_truthy (trim stdout) = true ∧
  ∃ v, response_json (trim stdout) v ∧ v ≠ JNull ∧ truthy_field v "is_error" = false ∧
    txt = nullish (field v "result") (JStr "").
Proof.
  setoid_rewrite response_json_parse. unfold parseCliResponse.
  destruct (str_truthy (trim stdout)); simpl; [|naive_solver].
  change (match match_braces (trim stdout) with Some o => json_parse o | None => None end)
    with (match_braces (trim stdout) ≫= json_parse).
  destruct (match json_parse (trim stdout) with Some _ => _ | None => _ end) as [v|].
  - split.
    + intros (r & Er & Hs & <-). split; [done|]. exists v. split; [done|].
      apply read_response_spec in Er as (Hv & Es & ->). rewrite Es, negb_true_iff in Hs. done.
    + intros (_ & ? & [= <-] & Hv & He & ->).
      destruct (read_response_total "total_input_tokens" "total_output_tokens" v Hv) as [r Er].
      exists r. split; [done|]. apply read_response_spec in Er as (_ & -> & ->). by rewrite He.
  - split; [|naive_solver]. by intros (r & [= <-] & ? & _).
Qed.

(** Only an output that is [null] makes the parser throw. *)
Lemma parseCliResponse_throws stdout stderr e : parseCliResponse json_parse stdout stderr = Err e →
  response_json (trim stdout) JNull.
Proof.
  rewrite response_json_parse. unfold parseCliResponse.
  destruct (str_truthy (trim stdout)); simpl; [|done].
  change (match match_braces (trim stdout) with Some o => json_parse o | None => None end)
    with (match_braces (trim stdout) ≫= json_parse).
  destruct (match json_parse (trim stdout) with Some _ => _ | None => _ end) as [v|]; [|done].
  by destruct v.
Qed.

(** ** The transcript of a session *)

Lemma head_omap_Some {A B} (f : A → option B) l y :
  head (omap f l) = Some y ↔
  ∃ pre x post, l = pre ++ x :: post ∧ f x = Some y ∧ Forall (λ x, f x = None) pre.
Proof.
  split.
  - induction l as [|x l IH]; simpl; [done|]. destruct (f x) as [z|] eqn:E; simpl.
    + intros [= <-]. by exists [], x, l.
    + intros (pre & x' & post & -> & ? & ?)%IH. exists (x :: pre), x', post. naive_solver.
  - intros (pre & x & post & -> & E & Hpre). induction Hpre as [|z pre Hz _ IH]; simpl.
    + by rewrite E.
    + by rewrite Hz.
Qed.

(** The uuid is that of the last line of the transcript that is an assistant message
    with a uuid, lines that do not parse skipped. *)
Theorem extractLastAssistantUuid_last jsonl u :
  extractLastAssistantUuid json_parse jsonl = Some u ↔
  ∃ before line after, str_split "010" (trim jsonl) = before ++ line :: after ∧
    assistant_uuid json_parse line = Some u ∧
    Forall (λ l, assistant_uuid json_parse l = None) after.
Proof.
  unfold extractLastAssistantUuid. rewrite head_omap_Some. split.
  - intros (pre & x & post & E & Hx & Hpre). exists (rev post), x, (rev pre).
    split; [|split; [done|by apply Forall_rev]].
    rewrite <- (rev_involutive (str_split _ _)), E, rev_app_distr. simpl.
    by rewrite <- app_assoc.
  - intros (b & x & a & E & Hx & Ha). exists (rev a), x, (rev b).
    split; [|split; [done|by apply Forall_rev]].
    rewrite E, rev_app_distr. simpl. by rewrite <- app_assoc.
Qed.
End Responses.
