(* ===== verification/JsParse.v ===== *)
(** * Numbers read from text

    [parseInt(s, 10)] and [parseFloat(s)] of a decimal numeral, and what they give back
    of a printed integer.  An integer of [parseInt] is exact; the code reads ports,
    identifiers and counters with it, below the 53 bits of a double. *)

From Stdlib Require Import Ascii.
From stdpp Require Import pretty.
From S2P Require Import Prelude JsMap JsString JsNumber.
Local Open Scope string_scope.
Local Open Scope list_scope.

Definition digit (c : ascii) : option N :=
  let n := N_of_ascii c in if ((48 <=? n) && (n <=? 57))%N then Some (n - 48)%N else None.

(** The digits at the start of a text, onto [acc]; [seen] when there was one before. *)
Fixpoint read_digits (acc : N) (seen : bool) (s : string) : option N :=
  match s with
  | String c s =>
      match digit c with
      | Some d => read_digits (acc * 10 + d) true s
      | None => if seen then Some acc else None
      end
  | EmptyString => if seen then Some acc else None
  end.

Definition signed (s : string) : Z * string :=
  match s with
  | String c s' => if bool_decide (c = "-"%char) then (-1, s')%Z
                   else if bool_decide (c = "+"%char) then (1, s')%Z else (1, s)%Z
  | EmptyString => (1%Z, s)
  end.

(** [parseInt(s, 10)], [None] for [NaN]. *)
Definition parseInt (s : string) : option Z :=
  let (sign, s) := signed (trim_start s) in
  match read_digits 0 false s with Some n => Some (sign * Z.of_N n)%Z | None => None end.

(** ** Printed integers *)

Lemma digit_pretty n : (n < 10)%N → digit (pretty_N_char n) = Some n.
Proof.
  intros Hn. assert (n = 0 ∨ n = 1 ∨ n = 2 ∨ n = 3 ∨ n = 4 ∨ n = 5 ∨ n = 6 ∨ n = 7 ∨ n = 8 ∨ n = 9)%N
    as Hcases by lia. destruct_or!; subst; reflexivity.
Qed.

Lemma read_digits_pretty n s seen : (0 < n)%N →
  read_digits 0 seen (pretty_N_go n s) = read_digits n true s.
Proof.
  revert s seen. induction (N.lt_wf_0 n) as [n _ IH]; intros s seen Hn.
  rewrite pretty_N_go_step by done. assert (Hd : (n `mod` 10 < 10)%N) by (by apply N.mod_lt).
  pose proof (N.div_mod' n 10) as E.
  assert (n `div` 10 = 0 ∨ 0 < n `div` 10)%N as [Hz|Hp] by lia.
  - rewrite Hz, pretty_N_go_0. simpl. rewrite digit_pretty by done. f_equal. lia.
  - rewrite IH; [|by apply N.div_lt|done]. simpl. rewrite digit_pretty by done. f_equal. lia.
Qed.

Lemma pretty_N_first n s : (0 < n)%N → ∃ c r, pretty_N_go n s = String c r ∧ is_Some (digit c).
Proof.
  revert s. induction (N.lt_wf_0 n) as [n _ IH]; intros s Hn. rewrite pretty_N_go_step by done.
  assert (n `div` 10 = 0 ∨ 0 < n `div` 10)%N as [Hz|Hp] by (destruct (n `div` 10)%N; lia).
  - rewrite Hz, pretty_N_go_0. eexists _, _. split; [done|]. rewrite digit_pretty; [by eexists|].
    by apply N.mod_lt.
  - apply IH; [by apply N.div_lt|done].
Qed.

(** [/^\d+$/.test(s)] *)
Definition all_digits (s : string) : bool :=
  forallb (λ c, bool_decide (is_Some (digit c))) (String.list_ascii_of_string s) && str_truthy s.

Lemma pretty_N_digits n s : (0 < n)%N →
  forallb (λ c, bool_decide (is_Some (digit c))) (String.list_ascii_of_string s) = true →
  forallb (λ c, bool_decide (is_Some (digit c))) (String.list_ascii_of_string (pretty_N_go n s)) = true.
Proof.
  revert s. induction (N.lt_wf_0 n) as [n _ IH]; intros s Hn Hs. rewrite pretty_N_go_step by done.
  assert (Hd : forallb (λ c, bool_decide (is_Some (digit c)))
    (String.list_ascii_of_string (String (pretty_N_char (n `mod` 10)) s)) = true).
  { cbn [String.list_ascii_of_string forallb]. rewrite digit_pretty by (by apply N.mod_lt). by rewrite Hs. }
  assert (n `div` 10 = 0 ∨ 0 < n `div` 10)%N as [Hz|Hp] by (destruct (n `div` 10)%N; lia).
  - by rewrite Hz, pretty_N_go_0.
  - apply IH; [by apply N.div_lt|done|done].
Qed.

(** A printed number is its digits. *)
Lemma pretty_N_read n : all_digits (pretty n) = true ∧ read_digits 0 false (pretty n) = Some n.
Proof.
  unfold pretty, pretty_N. case_decide as E; [by subst|]. assert (Hn : (0 < n)%N) by lia. split.
  - unfold all_digits. rewrite pretty_N_digits by done. by destruct (pretty_N_first n "" Hn) as (c & r & -> & _).
  - by rewrite read_digits_pretty.
Qed.

Lemma pretty_N_head (n : N) : ∃ c r, pretty n = String c r ∧ is_Some (digit c).
Proof.
  unfold pretty, pretty_N. case_decide; [exists "0"%char, ""%string; by split|].
  apply pretty_N_first. lia.
Qed.

(** Only the number zero has a leading zero. *)
Lemma pretty_N_zero (n : N) : starts_with "0" (pretty n) = true → pretty n = "0"%string.
Proof.
  unfold pretty, pretty_N. case_decide as E; [done|]. intros H. exfalso. assert (Hn : (0 < n)%N) by lia.
  assert (Hg : ∀ m s, (0 < m)%N → starts_with "0" (pretty_N_go m s) = true → False); [|by apply (Hg n ""%string)].
  clear. intros m. induction (N.lt_wf_0 m) as [m _ IH]; intros s Hm. rewrite pretty_N_go_step by done.
  assert (m `div` 10 = 0 ∨ 0 < m `div` 10)%N as [Hz|Hp] by (destruct (m `div` 10)%N; lia).
  - rewrite Hz, pretty_N_go_0. pose proof (N.div_mod' m 10) as Hd. pose proof (N.mod_lt m 10 ltac:(done)) as Hl.
    assert (Hs : ∀ k, (0 < k < 10)%N → starts_with "0" (String (pretty_N_char k) s) = false).
    { intros k Hk. assert (k = 1 ∨ k = 2 ∨ k = 3 ∨ k = 4 ∨ k = 5 ∨ k = 6 ∨ k = 7 ∨ k = 8 ∨ k = 9)%N as Hc by lia.
      destruct_or!; subst; reflexivity. }
    rewrite Hs by lia. done.
  - apply IH; [by apply N.div_lt|done].
Qed.

Lemma digit_plain c : is_Some (digit c) → is_space c = false ∧ c ≠ "-"%char ∧ c ≠ "+"%char.
Proof.
  intros [d Hd]. assert (Hs : is_space c = false ∨ digit c = None) by (by destruct c as [[] [] [] [] [] [] [] []]; vm_compute; auto).
  split; [destruct Hs; congruence|]. split; intros ->; done.
Qed.

Lemma pretty_Z_N (z : Z) : (0 ≤ z)%Z → pretty z = pretty (Z.to_N z).
Proof. intros Hz. unfold pretty, pretty_Z. destruct z; [done|done|lia]. Qed.

(** [parseInt(String(n), 10)] is [n]. *)
Lemma parseInt_pretty (z : Z) : (0 ≤ z)%Z → parseInt (pretty z) = Some z.
Proof.
  intros Hz. rewrite pretty_Z_N by done. unfold pretty, pretty_N. case_decide as E.
  { assert (z = 0%Z) as -> by lia. reflexivity. }
  assert (Hn : (0 < Z.to_N z)%N) by lia. pose proof (read_digits_pretty (Z.to_N z) "" false Hn) as Hr.
  destruct (pretty_N_first (Z.to_N z) "" Hn) as (c & r & Ec & Hc). rewrite Ec in *.
  apply digit_plain in Hc as (Hs & Hm & Hp). unfold parseInt. simpl. rewrite Hs. unfold signed.
  rewrite !bool_decide_eq_false_2 by done. rewrite Hr. cbn [read_digits]. f_equal. lia.
Qed.

(** ** Decimal numerals *)

(** The digits at the start of a text: their value onto [acc], their number, the rest. *)
Fixpoint span_digits (acc : N) (n : nat) (s : string) : N * nat * string :=
  match s with
  | String c s' =>
      match digit c with
      | Some d => span_digits (acc * 10 + d) (S n) s'
      | None => (acc, n, s)
      end
  | EmptyString => (acc, n, s)
  end.

(** The double nearest to [m / 10 ^ k]. *)
Definition decimal (m : N) (k : nat) : spec_float :=
  match m with
  | N0 => S754_zero false
  | Npos p => SFdiv 53 1024 (S754_finite false p 0) (S754_finite false (Pos.of_nat (10 ^ k)) 0)
  end.

(** [\d+(?:\.\d+)?] at the start of a text, with [parseFloat] of it, and the rest. *)
Definition decimal_prefix (s : string) : option (spec_float * string) :=
  let '(m, n, r) := span_digits 0 0 s in
  if (n =? 0)%nat then None
  else
    match r with
    | String "." r' =>
        let '(m', k, r'') := span_digits m 0 r' in
        if (k =? 0)%nat then Some (decimal m 0, r) else Some (decimal m' k, r'')
    | _ => Some (decimal m 0, r)
    end.

(** ** [parseFloat] *)

Definition with_sign (sign : Z) (f : spec_float) : spec_float := if (sign <? 0)%Z then SFopp f else f.

(** The double nearest to [m * 10 ^ e]. *)
Definition scaled (m : N) (e : Z) : spec_float :=
  match m with
  | N0 => S754_zero false
  | Npos p => SFdiv 53 1024 (S754_finite false (p * Z.to_pos (10 ^ Z.max 0 e)) 0)
                (S754_finite false (Z.to_pos (10 ^ Z.max 0 (- e))) 0)
  end.

(** The exponent at the start of a text, zero when there is none. *)
Definition exponent (s : string) : Z :=
  match s with
  | String c r =>
      if bool_decide (c = "e"%char ∨ c = "E"%char) then
        let (sign, r) := signed r in
        match read_digits 0 false r with Some n => (sign * Z.of_N n)%Z | None => 0%Z end
      else 0%Z
  | EmptyString => 0%Z
  end.

(** [S754_nan] where no numeral starts the text. *)
Definition parseFloat (s : string) : spec_float :=
  let (sign, s) := signed (trim_start s) in
  if starts_with "Infinity" s then with_sign sign (S754_infinity false)
  else
    let '(m, n, r) := span_digits 0 0 s in
    let '(m, k, r) := match r with String "." r' => span_digits m 0 r' | _ => (m, O, r) end in
    if (n + k =? 0)%nat then S754_nan
    else with_sign sign (scaled m (exponent r - Z.of_nat k)).

Example parseFloat_texts :
  map parseFloat ["2"; " 1.5 cores"; "-.25"; "3e2x"; "x1"; "."] =
  [double 2; SFdiv 53 1024 (double 3) (double 2); SFdiv 53 1024 (double (-1)) (double 4); double 300; S754_nan; S754_nan].
Proof. vm_compute. reflexivity. Qed.
