(* ===== verification/HostFs.v ===== *)
(** * Paths and files of the host

    The parts of [node:path] and [node:fs/promises] that the agent runtime uses:
    [path.join] under an absolute directory, recursive [mkdir] and [writeFile].
    A path is the list of its components, without empty ones. *)

From Stdlib Require Import Ascii.
From stdpp Require Import gmap.
From S2P Require Import Prelude JsMap JsString.

Abbreviation path := (list string).

(** ** Paths *)

Definition norm_step (acc : path) (c : string) : path :=
  if bool_decide (c = "" ∨ c = ".") then acc
  else if bool_decide (c = "..") then removelast acc
  else acc ++ [c].

(** [path.join(dir, rel)] *)
Definition path_join (dir : path) (rel : string) : path := foldl norm_step dir (str_split "/" rel).

(** [path.dirname(p)] *)
Definition dirname (p : path) : path := removelast p.

(** The relative path of the components below a directory. *)
Definition rel_path (p : path) : string := String.concat "/" p.

(** A name of a directory entry. *)
Definition entry_name (n : string) : Prop := n ≠ "" ∧ n ≠ "." ∧ n ≠ ".." ∧ lacks "/" n.

#[export] Instance entry_name_dec n : Decision (entry_name n).
Proof. unfold entry_name. apply _. Defined.

(** ** Files and directories *)

Record hostfs := Fs { files : gmap path string; dirs : gset path }.

Fixpoint prefixes (p : path) : list path :=
  [] :: match p with [] => [] | x :: p => map (cons x) (prefixes p) end.

(** [mkdir(p, { recursive: true })] *)
Definition mkdir_p (fs : hostfs) (p : path) : result hostfs :=
  if bool_decide (Exists (λ q, is_Some (files fs !! q)) (prefixes p)) then Err "ENOTDIR"
  else Ok (Fs (files fs) (list_to_set (prefixes p) ∪ dirs fs)).

(** [writeFile(p, content)] *)
Definition writeFile (fs : hostfs) (p : path) (content : string) : result hostfs :=
  if bool_decide (p = [] ∨ p ∈ dirs fs) then Err "EISDIR"
  else if bool_decide (dirname p = [] ∨ dirname p ∈ dirs fs)
  then Ok (Fs (<[p := content]> (files fs)) (dirs fs))
  else Err "ENOENT".

(** ** Lemmas *)

Lemma elem_of_prefixes q p : q ∈ prefixes p ↔ q `prefix_of` p.
Proof.
  revert q. induction p as [|x p IH]; intros q; simpl.
  - rewrite list_elem_of_singleton. split; [by intros ->|by intros ?%prefix_nil_inv].
  - rewrite elem_of_cons, list_elem_of_In, in_map_iff. split.
    + intros [->|(q' & <- & Hq%list_elem_of_In)]; [apply prefix_nil|].
      apply prefix_cons. by apply IH.
    + destruct q as [|y q]; [by left|]. intros H. right.
      pose proof (prefix_cons_inv_1 _ _ _ _ H) as ->. apply prefix_cons_inv_2 in H.
      exists q. split; [done|]. by apply list_elem_of_In, IH.
Qed.

Lemma mkdir_p_Ok fs p :
  (∀ q, q `prefix_of` p → files fs !! q = None) →
  mkdir_p fs p = Ok (Fs (files fs) (list_to_set (prefixes p) ∪ dirs fs)).
Proof.
  intros H. unfold mkdir_p. rewrite bool_decide_eq_false_2; [done|].
  rewrite Exists_exists. intros (q & Hq%elem_of_prefixes & [c Hc]). by rewrite H in Hc.
Qed.

Lemma writeFile_Ok fs p x c : p ++ [x] ∉ dirs fs → p ∈ dirs fs →
  writeFile fs (p ++ [x]) c = Ok (Fs (<[p ++ [x] := c]> (files fs)) (dirs fs)).
Proof.
  intros Hx Hp. unfold writeFile, dirname. rewrite removelast_last.
  rewrite bool_decide_eq_false_2, bool_decide_eq_true_2; [done|by right|].
  intros [E|?]; [|done]. by apply app_nil in E as [_ ?].
Qed.

Lemma norm_step_name acc n : entry_name n → norm_step acc n = acc ++ [n].
Proof.
  intros (H1 & H2 & H3 & _). unfold norm_step.
  rewrite bool_decide_eq_false_2 by naive_solver. by rewrite bool_decide_eq_false_2.
Qed.



(** ** Relative paths as text *)

Abbreviation comps := (str_split "/").

Lemma str_split_aux_ne sep s acc : str_split_aux sep s acc ≠ [].
Proof. revert acc. induction s as [|c s IH]; intros acc; simpl; [done|]. by case_decide. Qed.

Lemma comps_ne k : comps k ≠ [].
Proof. apply str_split_aux_ne. Qed.

Lemma comps_rel_path p : p ≠ [] → Forall entry_name p → comps (rel_path p) = p.
Proof.
  intros Hp Hn. unfold rel_path. destruct p as [|x p]; [done|]. apply str_split_concat.
  eapply Forall_impl; [exact Hn|]. by intros ? (_ & _ & _ & ?).
Qed.

Lemma path_join_comps dir k : Forall entry_name (comps k) → path_join dir k = dir ++ comps k.
Proof.
  unfold path_join. generalize (comps k). intros p Hp. revert dir.
  induction Hp as [|n p Hn _ IH]; intros dir; simpl; [by rewrite app_nil_r|].
  rewrite norm_step_name by done. rewrite IH. by rewrite <- app_assoc.
Qed.

Lemma str_split_aux_snoc sep r acc :
  str_split_aux sep (r ++ String sep "") acc = str_split_aux sep r acc ++ [""%string].
Proof.
  revert acc. induction r as [|c r IH]; intros acc.
  - change (str_split_aux sep (String sep "") acc = [acc] ++ [""%string]). simpl. by case_decide.
  - rewrite string_app_cons. simpl. case_decide; by rewrite IH.
Qed.

(** The text of a path of names does not end in a slash. *)
Lemma no_trailing_slash k : Forall entry_name (comps k) → ends_with "/" k = false.
Proof.
  intros Hn. destruct (ends_with "/" k) eqn:E; [|done]. exfalso.
  apply suffix_app in E as [r ->]. unfold str_split in Hn. rewrite str_split_aux_snoc in Hn.
  apply Forall_app in Hn as [_ Hn]. apply Forall_cons in Hn as [[? _] _]. done.
Qed.
