(* ===== verification/AgentSessions.v ===== *)
(** * Sessions of the agents

    [src/agent/session-manager.ts]: the table [agent_sessions], the walk over the
    session files of a directory and their restoration under another one.  A
    query is one atomic statement on the rows; [Date.now()] is an argument. *)

From Stdlib Require Import Ascii.
From stdpp Require Import gmap.
From S2P Require Import Prelude JsMap JsString HostFs.
Local Open Scope fh_scope.

(** ** The table *)

Record AgentSession := Session {
  chatId : string;
  sessionId : string;
  sessionFiles : jsmap string;
  lastAssistantUuid : option string;
  messageCount : Z;
  createdAt : Z;
  updatedAt : Z;
  expiresAt : Z }.

(** The rows in the order the table has them, and the chats its foreign key
    refers to. *)
Record session_db := Db { chats : gset string; rows : list AgentSession }.

Record SessionManagerOptions := ManagerOptions { idleTimeout : Z; hardExpiry : Z }.

(** [rows] with the row of a chat changed. *)
Definition update_row (chat : string) (f : AgentSession → AgentSession) (l : list AgentSession) :
    list AgentSession :=
  map (λ r, if decide (chatId r = chat) then f r else r) l.

Section Manager.
Context (opts : SessionManagerOptions).
(** What a JSONB column gives back for the map that was stored in it, in the
    order [Object.entries] lists it. *)
Context (jsonb : jsmap string → jsmap string).

Definition getActiveSession (db : session_db) (now : Z) (chat : string) : option AgentSession :=
  head (filter (λ r, chatId r = chat ∧ (now < expiresAt r)%Z) (rows db)).

Definition saveSession (db : session_db) (now : Z) (chat session : string) (sfiles : jsmap string)
    (uuid : option string) (count : option Z) : result session_db :=
  let row := Session chat session (jsonb sfiles) uuid (default 1%Z count) now now
               (now + hardExpiry opts)%Z in
  if bool_decide (Exists (λ r, chatId r = chat) (rows db)) then
    Ok (Db (chats db) (update_row chat (λ old, Session chat session (jsonb sfiles) uuid
          (default 1%Z count) (createdAt old) now (now + hardExpiry opts)%Z) (rows db)))
  else if bool_decide (chat ∈ chats db) then Ok (Db (chats db) (rows db ++ [row]))
  else Err "insert or update on table agent_sessions violates foreign key constraint".

Definition deleteSession (db : session_db) (chat : string) : session_db :=
  Db (chats db) (filter (λ r, chatId r ≠ chat) (rows db)).

Definition cleanupExpired (db : session_db) (now : Z) : session_db * nat :=
  (Db (chats db) (filter (λ r, ¬ (expiresAt r ≤ now)%Z) (rows db)),
   length (filter (λ r, (expiresAt r ≤ now)%Z) (rows db))).

Definition touchSession (db : session_db) (now : Z) (chat : string) : session_db :=
  Db (chats db) (update_row chat (λ r, Session (chatId r) (sessionId r) (sessionFiles r)
    (lastAssistantUuid r) (messageCount r) (createdAt r) now (now + idleTimeout opts)%Z) (rows db)).

(** [ORDER BY updated_at DESC] *)
Definition newer (a b : AgentSession) : Prop := (updatedAt b ≤ updatedAt a)%Z.

#[export] Instance newer_dec a b : Decision (newer a b).
Proof. unfold newer. apply _. Defined.

Definition listActiveSessions (db : session_db) (now : Z) : list AgentSession :=
  merge_sort newer (filter (λ r, (now < expiresAt r)%Z) (rows db)).

(** ** Session files *)

Inductive dirent :=
| FileEnt (name : string) (content : option string)
| DirEnt (name : string) (entries : option (list dirent)).

(** [None] is a file or directory that cannot be read. *)
Definition isSessionFile (filename : string) : bool :=
  ends_with ".jsonl" filename || ends_with ".json" filename ||
  bool_decide (filename = "sessions-index.json").

(** One entry of [walkDir]; [rel] is the path from the base directory. *)
Fixpoint walk_entry (rel : path) (e : dirent) (acc : jsmap string) : jsmap string :=
  match e with
  | DirEnt name (Some entries) =>
      (fix go (es : list dirent) (acc : jsmap string) : jsmap string :=
         match es with
         | [] => acc
         | e :: es => go es (walk_entry (rel ++ [name]) e acc)
         end) entries acc
  | DirEnt name None => acc
  | FileEnt name content =>
      if isSessionFile name then
        match content with
        | Some c => map_set acc (rel_path (rel ++ [name])) c
        | None => acc
        end
      else acc
  end.

Definition walkDir (rel : path) (entries : list dirent) (acc : jsmap string) : jsmap string :=
  fold_left (λ acc e, walk_entry rel e acc) entries acc.

(** [entries] is [None] when the directory cannot be read. *)
Definition readSessionDir (entries : option (list dirent)) : jsmap string :=
  match entries with Some es => walkDir [] es [] | None => [] end.

Definition saveFromFilesystem (db : session_db) (now : Z) (chat : string)
    (source : option (list dirent)) (session : string) (uuid : option string) (count : option Z) :
    result session_db :=
  saveSession db now chat session (readSessionDir source) uuid count.

(** The loop of [restoreToFilesystem]: the files written before a failure stay. *)
Fixpoint restore_files (fs : hostfs) (target : path) (sfiles : jsmap string) : hostfs * result unit :=
  match sfiles with
  | [] => (fs, Ok tt)
  | (rel, content) :: sfiles =>
      let full := path_join target rel in
      match mkdir_p fs (dirname full) with
      | Err e => (fs, Err e)
      | Ok fs =>
          if ends_with "/" rel then (fs, Err "EISDIR")
          else match writeFile fs full content with
               | Err e => (fs, Err e)
               | Ok fs => restore_files fs target sfiles
               end
      end
  end.

Definition restoreToFilesystem (db : session_db) (now : Z) (fs : hostfs) (chat : string)
    (target : path) : hostfs * result (option AgentSession) :=
  match getActiveSession db now chat with
  | None => (fs, Ok None)
  | Some s =>
      match restore_files fs target (sessionFiles s) with
      | (fs, Ok _) => (fs, Ok (Some s))
      | (fs, Err e) => (fs, Err e)
      end
  end.
End Manager.

(** ** The history of one chat *)

(** The statements that change the table, each with the time it is issued at. *)
Inductive session_op :=
| Save (now : Z) (chat session : string) (sfiles : jsmap string) (uuid : option string) (count : option Z)
| Delete (chat : string)
| Cleanup (now : Z)
| Touch (now : Z) (chat : string).

Section Refinement.
Context (opts : SessionManagerOptions) (jsonb : jsmap string → jsmap string).

(** A refused insert changes nothing. *)
Definition apply_op (db : session_db) (op : session_op) : session_db :=
  match op with
  | Save now chat session sfiles uuid count =>
      match saveSession opts jsonb db now chat session sfiles uuid count with
      | Ok db => db
      | Err _ => db
      end
  | Delete chat => deleteSession db chat
  | Cleanup now => (cleanupExpired db now).1
  | Touch now chat => touchSession opts db now chat
  end.

Definition session_history (chs : gset string) (ops : list session_op) : session_db :=
  foldl apply_op (Db chs []) ops.

(** What a chat sees of the operations: a session or none, whatever happens to the
    other chats. *)
Definition chat_step (known : bool) (chat : string) (s : option AgentSession) (op : session_op) :
    option AgentSession :=
  match op with
  | Save now c session sfiles uuid count =>
      if decide (c = chat) then
        match s with
        | Some old => Some (Session chat session (jsonb sfiles) uuid (default 1%Z count)
                              (createdAt old) now (now + hardExpiry opts)%Z)
        | None => if known then Some (Session chat session (jsonb sfiles) uuid (default 1%Z count)
                                        now now (now + hardExpiry opts)%Z) else None
        end
      else s
  | Delete c => if decide (c = chat) then None else s
  | Cleanup now => match s with
                   | Some r => if decide (expiresAt r ≤ now)%Z then None else Some r
                   | None => None
                   end
  | Touch now c =>
      if decide (c = chat) then
        match s with
        | Some r => Some (Session chat (sessionId r) (sessionFiles r) (lastAssistantUuid r)
                            (messageCount r) (createdAt r) now (now + idleTimeout opts)%Z)
        | None => None
        end
      else s
  end.

Definition unexpired (now : Z) (s : option AgentSession) : option AgentSession :=
  match s with Some r => if decide (now < expiresAt r)%Z then Some r else None | None => None end.

(** The rows by their key. *)
Definition keyed (l : list AgentSession) : jsmap AgentSession := map (λ r, (chatId r, r)) l.

Definition table_ok (db : session_db) : Prop := map_wf (keyed (rows db)).

Lemma map_keys_keyed l : map_keys (keyed l) = map chatId l.
Proof. unfold map_keys, keyed. by rewrite map_map. Qed.

Lemma keyed_filter (P : AgentSession → Prop) `{!∀ r, Decision (P r)} l :
  keyed (filter P l) = filter (λ e, P e.2) (keyed l).
Proof.
  induction l as [|r l IH]; [done|]. simpl. rewrite !filter_cons. simpl.
  case_decide; simpl; by rewrite IH.
Qed.

Lemma keyed_get_chat l c r : map_get (keyed l) c = Some r → chatId r = c.
Proof.
  intros H%map_get_Some_elem. unfold keyed in H.
  apply list_elem_of_In, in_map_iff in H as (r' & [= <- <-] & _). done.
Qed.

Lemma keyed_update_keys c f l : (∀ r, chatId r = c → chatId (f r) = c) →
  map_keys (keyed (update_row c f l)) = map_keys (keyed l).
Proof.
  intros Hf. induction l as [|r l IH]; [done|]. simpl. rewrite IH. f_equal.
  destruct (decide (chatId r = c)) as [E|]; [|done]. by rewrite Hf.
Qed.

Lemma keyed_update_get c f l c' : (∀ r, chatId r = c → chatId (f r) = c) →
  map_get (keyed (update_row c f l)) c' =
  if decide (c = c') then f <$> map_get (keyed l) c' else map_get (keyed l) c'.
Proof.
  intros Hf. induction l as [|r l IH]; simpl; [by case_decide|].
  rewrite IH. destruct (decide (chatId r = c)) as [E|Hne]; simpl.
  - rewrite (Hf r E), E. by destruct (decide (c = c')).
  - destruct (decide (chatId r = c')); [|done]. by rewrite decide_False by congruence.
Qed.

Lemma keyed_app l r c : map_get (keyed (l ++ [r])) c =
  match map_get (keyed l) c with
  | Some x => Some x
  | None => if decide (chatId r = c) then Some r else None
  end.
Proof.
  unfold keyed. induction l as [|x l IH]; simpl; [done|]. by destruct (decide (chatId x = c)).
Qed.

Lemma chat_exists l c :
  Exists (λ r, chatId r = c) l ↔ is_Some (map_get (keyed l) c).
Proof.
  induction l as [|r l IH]; simpl.
  - rewrite Exists_nil. split; [done|by intros []].
  - rewrite Exists_cons, IH. case_decide; naive_solver.
Qed.

Lemma getActiveSession_keyed db now c : table_ok db →
  getActiveSession db now c = unexpired now (map_get (keyed (rows db)) c).
Proof.
  unfold table_ok, map_wf, getActiveSession. rewrite map_keys_keyed.
  generalize (rows db). intros l. induction l as [|r l IH]; simpl; [done|].
  intros [Hr Hl]%NoDup_cons. rewrite filter_cons.
  destruct (decide (chatId r = c)) as [<-|Hne].
  - unfold unexpired. destruct (decide (now < expiresAt r)%Z).
    + by rewrite decide_True.
    + rewrite decide_False by naive_solver. rewrite IH by done.
      assert (E : map_get (keyed l) (chatId r) = None).
      { apply map_get_None. by rewrite map_keys_keyed. }
      by rewrite E.
  - rewrite decide_False by naive_solver. auto.
Qed.

Lemma session_op_ok db op : table_ok db → table_ok (apply_op db op).
Proof.
  unfold table_ok. intros H. destruct op as [now c s fs u n|c|now|now c]; simpl.
  - unfold saveSession. case_bool_decide as He; simpl.
    + unfold map_wf. by rewrite keyed_update_keys.
    + case_bool_decide; simpl; [|done]. unfold map_wf in *. rewrite map_keys_keyed in *.
      rewrite map_app. apply NoDup_app. split; [done|]. split; [|apply NoDup_singleton].
      intros x Hx ->%list_elem_of_singleton. simpl in Hx. apply He.
      apply list_elem_of_In, in_map_iff in Hx as (r & Er & Hr%list_elem_of_In).
      apply Exists_exists. by exists r.
  - rewrite keyed_filter. auto with fh.
  - rewrite keyed_filter. auto with fh.
  - unfold map_wf. by rewrite keyed_update_keys.
Qed.

Lemma apply_op_chats db op : chats (apply_op db op) = chats db.
Proof.
  destruct op; simpl; [|done..]. unfold saveSession. by repeat case_bool_decide.
Qed.

(** One statement is one step of every chat. *)
Lemma apply_op_step db op c : table_ok db →
  map_get (keyed (rows (apply_op db op))) c =
  chat_step (bool_decide (c ∈ chats db)) c (map_get (keyed (rows db)) c) op.
Proof.
  unfold table_ok. intros Hok. destruct op as [now c' s fs u n|c'|now|now c']; simpl.
  - unfold saveSession. case_bool_decide as He; rewrite chat_exists in He; simpl.
    + rewrite keyed_update_get by done.
      case_decide as E; [subst|done]. destruct He as [old ->]. done.
    + destruct (map_get (keyed (rows db)) c') eqn:E; [by destruct He; eexists|].
      destruct (decide (c' = c)) as [->|Hne].
      * rewrite E. case_bool_decide; simpl; [|done]. rewrite keyed_app, E. simpl.
        by rewrite decide_True.
      * case_bool_decide; simpl; [|done]. rewrite keyed_app. simpl. rewrite decide_False by done.
        by destruct (map_get _ c).
  - rewrite keyed_filter, map_get_filter by done. simpl.
    destruct (map_get (keyed (rows db)) c) as [r|] eqn:E; [|by case_decide].
    apply keyed_get_chat in E. subst. repeat case_decide; congruence.
  - rewrite keyed_filter, map_get_filter by done. simpl.
    destruct (map_get (keyed (rows db)) c) as [r|] eqn:E; [|done].
    repeat case_decide; tauto.
  - rewrite keyed_update_get by done.
    case_decide; [subst|done]. destruct (map_get (keyed (rows db)) c) as [r|] eqn:E; [|done].
    simpl. by rewrite (keyed_get_chat _ _ _ E).
Qed.

Lemma session_history_ok chs ops : table_ok (session_history chs ops) ∧
  chats (session_history chs ops) = chs ∧
  ∀ c, map_get (keyed (rows (session_history chs ops))) c =
       foldl (chat_step (bool_decide (c ∈ chs)) c) None ops.
Proof.
  unfold session_history. induction ops as [|op ops (Hok & Hch & IH)] using rev_ind; simpl.
  - split; [exact (map_wf_nil (A := AgentSession))|done].
  - rewrite !foldl_app. simpl. split; [by apply session_op_ok|]. split; [by rewrite apply_op_chats|].
    intros c. rewrite foldl_app. simpl. rewrite apply_op_step, Hch, IH by done. done.
Qed.

(** C19: whatever the interleaving of saves, deletions, sweeps and touches of all chats,
    the session a chat gets is the one its own history of operations gives, unless
    it has expired: one session per chat, kept apart from the others. *)
Theorem sessions_refine chs ops now chat :
  getActiveSession (session_history chs ops) now chat =
  unexpired now (foldl (chat_step (bool_decide (chat ∈ chs)) chat) None ops).
Proof.
  destruct (session_history_ok chs ops) as (Hok & _ & E).
  rewrite getActiveSession_keyed by done. by rewrite E.
Qed.

(** The sweep removes exactly the rows that no query returns. *)
Lemma cleanup_invisible db now t chat : table_ok db → (now ≤ t)%Z →
  getActiveSession (cleanupExpired db now).1 t chat = getActiveSession db t chat.
Proof.
  intros Hok Ht. rewrite !getActiveSession_keyed by (done || by apply (session_op_ok db (Cleanup now))).
  rewrite (apply_op_step db (Cleanup now)) by done. simpl.
  destruct (map_get (keyed (rows db)) chat) as [r|]; [|done].
  unfold unexpired. repeat case_decide; simpl; try done; lia.
Qed.
End Refinement.

(** ** Restoring files *)

(** Nothing is below [target], and no file is on the way to it. *)
Definition clear_below (fs : hostfs) (target : path) : Prop :=
  (∀ q, q ≠ [] → files fs !! (target ++ q) = None ∧ target ++ q ∉ dirs fs) ∧
  (∀ q, q `prefix_of` target → files fs !! q = None).

(** Relative paths of which none lies below another. *)
Definition files_ok (m : jsmap string) : Prop :=
  map_wf m ∧ (∀ k, k ∈ map_keys m → Forall entry_name (comps k)) ∧
  (∀ k k', k ∈ map_keys m → k' ∈ map_keys m → comps k `prefix_of` comps k' → k = k').

(** What has been restored when the files of [done] have been written. *)
Definition restored (fs0 : hostfs) (target : path) (done : jsmap string) (fs : hostfs) : Prop :=
  (∀ q c, q ≠ [] → files fs !! (target ++ q) = Some c ↔ ∃ k, (k, c) ∈ done ∧ comps k = q) ∧
  (∀ q, ¬ target `prefix_of` q ∨ q = target → files fs !! q = files fs0 !! q) ∧
  (∀ q, q ≠ [] → target ++ q ∈ dirs fs →
    ∃ k, k ∈ map_keys done ∧ q `prefix_of` comps k ∧ q ≠ comps k).

Lemma elem_of_keys {A} (m : jsmap A) k a : (k, a) ∈ m → k ∈ map_keys m.
Proof. intros H. apply list_elem_of_fmap. by exists (k, a). Qed.

Lemma elem_of_keys_app {A} (m1 m2 : jsmap A) k :
  k ∈ map_keys (m1 ++ m2) ↔ k ∈ map_keys m1 ∨ k ∈ map_keys m2.
Proof. unfold map_keys. by rewrite map_app, elem_of_app. Qed.

Lemma elem_of_keys_last {A} (m : jsmap A) k a : k ∈ map_keys (m ++ [(k, a)]).
Proof. apply elem_of_keys_app. right. left. Qed.

Lemma prefix_app_cases {A} (q t p : list A) : q `prefix_of` t ++ p →
  q `prefix_of` t ∨ ∃ r, r ≠ [] ∧ q = t ++ r ∧ r `prefix_of` p.
Proof.
  revert q. induction t as [|x t IH]; intros q Hq; simpl in *.
  - destruct q as [|y q]; [left; apply prefix_nil|]. right. by exists (y :: q).
  - destruct q as [|y q]; [left; apply prefix_nil|].
    pose proof (prefix_cons_inv_1 _ _ _ _ Hq) as ->. apply prefix_cons_inv_2, IH in Hq.
    destruct Hq as [?|(r & ? & -> & ?)]; [left; by apply prefix_cons|]. right. by exists r.
Qed.

Lemma prefix_app_inv {A} (t p q : list A) : t ++ p `prefix_of` t ++ q → p `prefix_of` q.
Proof. intros [r E]. rewrite <- app_assoc in E. apply app_inv_head in E. by exists r. Qed.

Section Restore.
Context (fs0 : hostfs) (target : path) (Hclear : clear_below fs0 target).

Lemma restored_nil : restored fs0 target [] fs0.
Proof.
  destruct Hclear as [Hb _]. split; [|split; [done|]].
  - intros q c Hq. destruct (Hb q Hq) as [-> _]. split; [done|]. by intros (k & ?%elem_of_nil & _).
  - intros q Hq Hd. by destruct (Hb q Hq).
Qed.

(** No file is on the way to a path that is still to be written. *)
Lemma restored_way done fs k c p0 x q : files_ok (done ++ [(k, c)]) → restored fs0 target done fs →
  comps k = p0 ++ [x] → q `prefix_of` target ++ p0 → files fs !! q = None.
Proof.
  intros (Hwf & _ & Hfree) (Hf & Hout & _) Ek [Hq|(r & Hr & -> & Hrp)]%prefix_app_cases.
  - rewrite Hout; [by apply (proj2 Hclear)|]. destruct (decide (q = target)) as [->|Hne]; [by right|].
    left. intros Hq'. apply Hne. by apply (anti_symm prefix).
  - destruct (files fs !! (target ++ r)) as [c'|] eqn:E; [|done]. exfalso.
    apply (Hf r c' Hr) in E as (k' & Hk' & <-).
    assert (k' = k) as ->.
    { apply Hfree; [apply elem_of_keys_app; left; by eapply elem_of_keys|apply elem_of_keys_last|].
      rewrite Ek. etransitivity; [exact Hrp|]. by exists [x]. }
    rewrite Ek in Hrp. apply prefix_length in Hrp. rewrite length_app in Hrp. simpl in Hrp. lia.
Qed.

Lemma restored_step done fs k c : files_ok (done ++ [(k, c)]) → restored fs0 target done fs →
  ∃ fs1 fs2, mkdir_p fs (dirname (target ++ comps k)) = Ok fs1 ∧
    writeFile fs1 (target ++ comps k) c = Ok fs2 ∧ restored fs0 target (done ++ [(k, c)]) fs2.
Proof.
  intros Hok Hr. destruct (exists_last (comps_ne k)) as (p0 & x & Ek).
  pose proof (λ q, restored_way done fs k c p0 x q Hok Hr Ek) as Hway.
  destruct Hok as (Hwf & _ & Hfree), Hr as (Hf & Hout & Hd).
  pose proof (elem_of_keys_last done k c) as Hin.
  assert (Hsub : ∀ k', k' ∈ map_keys done → k' ∈ map_keys (done ++ [(k, c)])).
  { intros k' ?. apply elem_of_keys_app. by left. }
  assert (Hnew : k ∉ map_keys done).
  { unfold map_wf, map_keys in Hwf. rewrite map_app in Hwf. apply NoDup_app in Hwf as (_ & Hwf & _).
    intros Hk. apply (Hwf k Hk). left. }
  rewrite Ek. unfold dirname. rewrite app_assoc, removelast_last.
  eexists _, _. split; [by apply mkdir_p_Ok|]. split; [apply writeFile_Ok; simpl|].
  - rewrite not_elem_of_union, elem_of_list_to_set, elem_of_prefixes. split.
    + intros Hp%prefix_length. rewrite length_app in Hp. simpl in Hp. lia.
    + rewrite <- app_assoc, <- Ek. intros Hp. apply Hd in Hp as (k' & Hk' & Hp & Hne); [|apply comps_ne].
      apply Hne. by rewrite (Hfree k k') by auto.
  - rewrite elem_of_union, elem_of_list_to_set, elem_of_prefixes. by left.
  - rewrite <- app_assoc, <- Ek. split; [|split]; simpl.
    + intros q c' Hq. destruct (decide (q = comps k)) as [->|Hne].
      * rewrite lookup_insert_eq. setoid_rewrite elem_of_app. setoid_rewrite list_elem_of_singleton.
        split; [intros [= ->]; exists k; auto|]. intros (k' & [Hk'|[= -> ->]] & E); [|done].
        assert (k' = k) as ->; [|by apply elem_of_keys in Hk'].
        apply Hfree; [apply Hsub; by eapply elem_of_keys|done|by rewrite E].
      * rewrite lookup_insert_ne by (intros E; apply app_inv_head in E; by apply Hne).
        rewrite Hf by done. setoid_rewrite elem_of_app. setoid_rewrite list_elem_of_singleton.
        split; [intros (k' & ? & ?); exists k'; auto|].
        intros (k' & [?|[= -> ->]] & E); [by exists k'|by destruct Hne].
    + intros q Hq. rewrite lookup_insert_ne; [by apply Hout|]. intros <-.
      destruct Hq as [Hq|E]; [apply Hq; by exists (comps k)|].
      apply (f_equal length) in E. rewrite length_app in E.
      pose proof (comps_ne k). destruct (comps k); [done|]. simpl in E. lia.
    + intros q Hq. rewrite elem_of_union, elem_of_list_to_set, elem_of_prefixes.
      intros [Hp|Hp]; [|destruct (Hd q Hq Hp) as (k' & ? & ? & ?); exists k'; auto].
      apply prefix_app_inv in Hp. exists k. split; [done|]. rewrite Ek. split.
      * etransitivity; [exact Hp|]. by exists [x].
      * intros ->. apply prefix_length in Hp. rewrite length_app in Hp. simpl in Hp. lia.
Qed.

Lemma files_ok_app m1 m2 : files_ok (m1 ++ m2) → files_ok m1.
Proof.
  unfold files_ok, map_wf, map_keys. rewrite map_app. intros (Hwf & Hn & Hf).
  apply NoDup_app in Hwf as [? _]. setoid_rewrite elem_of_app in Hn. setoid_rewrite elem_of_app in Hf.
  auto.
Qed.

Lemma restore_files_restored m done fs : files_ok (done ++ m) → restored fs0 target done fs →
  ∃ fs', restore_files fs target m = (fs', Ok tt) ∧ restored fs0 target (done ++ m) fs'.
Proof.
  revert done fs. induction m as [|[k c] m IH]; intros done fs Hok Hr; cbn [restore_files].
  - exists fs. by rewrite app_nil_r.
  - replace (done ++ (k, c) :: m) with ((done ++ [(k, c)]) ++ m) in * by by rewrite <- app_assoc.
    pose proof (files_ok_app _ _ Hok) as Hok'.
    assert (Hn : Forall entry_name (comps k)).
    { apply Hok', elem_of_keys_last. }
    destruct (restored_step done fs k c Hok' Hr) as (fs1 & fs2 & E1 & E2 & Hr').
    rewrite path_join_comps, E1, no_trailing_slash, E2 by done. by apply IH.
Qed.

(** A map of well-formed paths is restored in full, and nothing else changes. *)
Lemma restore_files_spec m : files_ok m →
  ∃ fs', restore_files fs0 target m = (fs', Ok tt) ∧ restored fs0 target m fs'.
Proof. intros Hok. by apply (restore_files_restored m []), restored_nil. Qed.
End Restore.

(** ** The walk over a directory *)

Definition ent_name (e : dirent) : string :=
  match e with FileEnt n _ => n | DirEnt n _ => n end.

(** The readable session files of a tree. *)
Inductive in_tree : list dirent → path → string → Prop :=
| in_file es n c : FileEnt n (Some c) ∈ es → isSessionFile n = true → in_tree es [n] c
| in_dir es n es' p c : DirEnt n (Some es') ∈ es → in_tree es' p c → in_tree es (n :: p) c.

(** What a file system guarantees: the entries of a directory have distinct names. *)
Inductive tree_ok : list dirent → Prop :=
| TreeOk es : NoDup (map ent_name es) → Forall entry_name (map ent_name es) →
    (∀ n es', DirEnt n (Some es') ∈ es → tree_ok es') → tree_ok es.

Lemma dirent_rect' (P : dirent → Prop) :
  (∀ n c, P (FileEnt n c)) → (∀ n, P (DirEnt n None)) →
  (∀ n es, Forall P es → P (DirEnt n (Some es))) → ∀ e, P e.
Proof.
  intros Hf Hn Hd. fix IH 1. intros [n c|n [es|]]; [apply Hf| |apply Hn].
  apply Hd. induction es as [|e es IHes]; constructor; [apply IH|exact IHes].
Qed.

Lemma in_tree_cons e es p c : in_tree (e :: es) p c ↔ in_tree [e] p c ∨ in_tree es p c.
Proof.
  split.
  - inversion 1 as [? n ? Hn Hs|? n es' p' ? Hn Hi]; subst;
      apply elem_of_cons in Hn as [<-|Hn];
      [left; apply in_file; [left|done]|right; by apply in_file
      |left; eapply in_dir; [left|done]|right; by eapply in_dir].
  - intros [H|H]; inversion H as [? n ? Hn Hs|? n es' p' ? Hn Hi]; subst.
    + apply list_elem_of_singleton in Hn as <-. apply in_file; [left|done].
    + apply list_elem_of_singleton in Hn as <-. eapply in_dir; [left|done].
    + apply in_file; [by right|done].
    + eapply in_dir; [by right|done].
Qed.

Lemma in_tree_nil p c : ¬ in_tree [] p c.
Proof. inversion 1 as [? ? ? Hn|? ? ? ? ? Hn]; by apply elem_of_nil in Hn. Qed.

Lemma in_tree_dir n es p c :
  in_tree [DirEnt n (Some es)] p c ↔ ∃ p', p = n :: p' ∧ in_tree es p' c.
Proof.
  split.
  - inversion 1 as [? n' ? Hn|? n' es' p' ? Hn Hi]; subst;
      apply list_elem_of_singleton in Hn; [done|]. injection Hn as -> ->. by exists p'.
  - intros (p' & -> & ?). eapply in_dir; [left|done].
Qed.

Lemma in_tree_ne es p c : in_tree es p c → p ≠ [].
Proof. by inversion 1. Qed.

Lemma in_tree_names es p c : tree_ok es → in_tree es p c → Forall entry_name p.
Proof.
  intros Hok Hin. induction Hin as [es n c Hn _|es n es' p c Hn _ IH]; inversion Hok as [? _ Hall Hsub]; subst.
  - rewrite Forall_singleton. rewrite Forall_forall in Hall. apply Hall.
    by apply list_elem_of_In, (in_map ent_name _ (FileEnt n (Some c))), list_elem_of_In.
  - constructor; [|by eapply IH, Hsub]. rewrite Forall_forall in Hall. apply Hall.
    by apply list_elem_of_In, (in_map ent_name _ (DirEnt n (Some es'))), list_elem_of_In.
Qed.

(** A path is one file, and no file lies below another. *)
Lemma in_tree_prefix es p c p' c' : tree_ok es → in_tree es p c → in_tree es p' c' →
  p `prefix_of` p' → p = p' ∧ c = c'.
Proof.
  intros Hok Hin. revert p' c'.
  induction Hin as [es n c Hn _|es n es1 p c Hn _ IH]; intros p' c' Hin' Hp;
    inversion Hok as [? Hnd _ Hsub]; subst; inversion Hin' as [? n' ? Hn' _|? n' es2 q ? Hn' Hi]; subst;
    pose proof (prefix_cons_inv_1 _ _ _ _ Hp) as <-;
    pose proof (NoDup_map_inj ent_name _ _ _ Hnd Hn Hn' eq_refl) as E.
  - by injection E as ->.
  - done.
  - done.
  - injection E as ->. apply prefix_cons_inv_2 in Hp.
    by destruct (IH (Hsub _ _ Hn) q c' Hi Hp) as [-> ->].
Qed.

(** What the walk has found: its entries are those it started with, and the files of
    the tree under [rel]. *)
Definition found (rel : path) (es : list dirent) (acc acc' : jsmap string) : Prop :=
  (map_wf acc → map_wf acc') ∧
  ∀ k c, map_get acc' k = Some c →
    map_get acc k = Some c ∨ ∃ p, in_tree es p c ∧ k = rel_path (rel ++ p).

Lemma walk_entry_found e : ∀ rel acc, found rel [e] acc (walk_entry rel e acc).
Proof.
  induction e as [n content|n|n es IH] using dirent_rect'; intros rel acc.
  - simpl. destruct (isSessionFile n) eqn:Es; [|by split; auto].
    destruct content as [x|]; [|by split; auto]. split; [apply map_wf_set|].
    intros k c. rewrite map_get_set. case_decide; [|auto]. intros [= ->]. right. exists [n].
    split; [apply in_file; [left|done]|done].
  - by split; auto.
  - simpl. revert acc. induction IH as [|e es He _ IHes]; intros acc; [by split; auto|].
    destruct (IHes (walk_entry (rel ++ [n]) e acc)) as [W1 G1].
    destruct (He (rel ++ [n]) acc) as [W2 G2]. split; [auto|].
    intros k c Hk. destruct (G1 k c Hk) as [Hk'|(p & Hp & ->)].
    + destruct (G2 k c Hk') as [?|(p & Hp & ->)]; [by left|]. right. exists (n :: p).
      rewrite in_tree_dir, <- app_assoc. split; [|done]. exists p. rewrite in_tree_cons. auto.
    + right. apply in_tree_dir in Hp as (p' & -> & Hp). exists (n :: p').
      rewrite in_tree_dir. split; [|done]. exists p'. rewrite in_tree_cons. auto.
Qed.

Lemma walkDir_found es rel acc : found rel es acc (walkDir rel es acc).
Proof.
  revert acc. induction es as [|e es IH]; intros acc; [by split; auto|]. simpl.
  destruct (IH (walk_entry rel e acc)) as [W1 G1], (walk_entry_found e rel acc) as [W2 G2].
  split; [auto|]. intros k c Hk. setoid_rewrite in_tree_cons.
  destruct (G1 k c Hk) as [Hk'|(p & Hp & ->)]; [|right; by eauto].
  destruct (G2 k c Hk') as [?|(p & Hp & ->)]; [by left|right; by eauto].
Qed.

Definition covers (rel : path) (es : list dirent) (acc acc' : jsmap string) : Prop :=
  (∀ k, is_Some (map_get acc k) → is_Some (map_get acc' k)) ∧
  ∀ p c, in_tree es p c → is_Some (map_get acc' (rel_path (rel ++ p))).

Lemma walk_entry_covers e : ∀ rel acc, covers rel [e] acc (walk_entry rel e acc).
Proof.
  induction e as [n content|n|n es IH] using dirent_rect'; intros rel acc.
  - simpl. split.
    + intros k Hk. destruct (isSessionFile n), content; [|done..].
      rewrite map_get_set. by case_decide.
    + intros p c H. inversion H as [? n' ? Hn Hs|? n' es' p' ? Hn Hi]; subst;
        apply list_elem_of_singleton in Hn; [|done]. injection Hn as -> <-. rewrite Hs.
      rewrite map_get_set_eq. by eexists.
  - split; [auto|]. intros p c H. inversion H as [? n' ? Hn Hs|? n' es' p' ? Hn Hi]; subst;
      by apply list_elem_of_singleton in Hn.
  - simpl. revert acc. induction IH as [|e es He _ IHes]; intros acc.
    + split; [auto|]. intros p c (p' & _ & []%in_tree_nil)%in_tree_dir.
    + destruct (IHes (walk_entry (rel ++ [n]) e acc)) as [K1 C1].
      destruct (He (rel ++ [n]) acc) as [K2 C2]. split; [auto|].
      intros p c (p' & -> & [Hp|Hp]%in_tree_cons)%in_tree_dir.
      * apply K1. apply C2 in Hp. by rewrite <- app_assoc in Hp.
      * eapply C1, in_tree_dir. by exists p'.
Qed.

Lemma walkDir_covers es rel acc : covers rel es acc (walkDir rel es acc).
Proof.
  revert acc. induction es as [|e es IH]; intros acc.
  - split; [auto|]. by intros p c []%in_tree_nil.
  - simpl. destruct (IH (walk_entry rel e acc)) as [K1 C1], (walk_entry_covers e rel acc) as [K2 C2].
    split; [auto|]. intros p c [Hp|Hp]%in_tree_cons; [apply K1; by eapply C2|by eapply C1].
Qed.

(** The map of a tree: its keys are the paths of the tree's files. *)
Lemma readSessionDir_spec es : tree_ok es →
  files_ok (readSessionDir (Some es)) ∧
  ∀ p c, p ≠ [] → (∃ k, (k, c) ∈ readSessionDir (Some es) ∧ comps k = p) ↔ in_tree es p c.
Proof.
  intros Hok. simpl. destruct (walkDir_found es [] []) as [W G], (walkDir_covers es [] []) as [_ C].
  specialize (W map_wf_nil). simpl in G, C.
  assert (Hin : ∀ k c, (k, c) ∈ walkDir [] es [] → in_tree es (comps k) c).
  { intros k c Hk%(map_get_elem _ _ _ W). destruct (G k c Hk) as [?|(p & Hp & ->)]; [done|].
    rewrite comps_rel_path; [done|by eapply in_tree_ne|by eapply in_tree_names]. }
  assert (Hkey : ∀ k, k ∈ map_keys (walkDir [] es []) → ∃ c, (k, c) ∈ walkDir [] es []).
  { intros k Hk. apply list_elem_of_fmap in Hk as ([k' c] & -> & ?). by exists c. }
  split; [split; [done|split]|].
  - intros k (c & Hk)%Hkey. by eapply in_tree_names, Hin.
  - intros k k' (c & Hk)%Hkey (c' & Hk')%Hkey Hp.
    apply Hin in Hk as Hi, Hk' as Hi'. destruct (in_tree_prefix _ _ _ _ _ Hok Hi Hi' Hp) as [E _].
    apply (map_get_elem _ _ _ W) in Hk, Hk'.
    destruct (G k c Hk) as [?|(p & Hp1 & ->)], (G k' c' Hk') as [?|(p' & Hp2 & ->)]; try done.
    rewrite !comps_rel_path in E by (by eapply in_tree_ne || by eapply in_tree_names). by rewrite E.
  - intros p c Hp. split; [intros (k & Hk & <-); by apply Hin|]. intros Ht.
    destruct (C p c Ht) as [c' Hc']. exists (rel_path p).
    assert (Ep : comps (rel_path p) = p) by (by apply comps_rel_path; [|eapply in_tree_names]).
    split; [|done]. apply map_get_Some_elem in Hc'. apply Hin in Hc' as Hi. rewrite Ep in Hi.
    by destruct (in_tree_prefix _ _ _ _ _ Hok Ht Hi (reflexivity p)) as [_ ->].
Qed.

(** ** Round trip *)

Lemma files_ok_perm m m' : m ≡ₚ m' → files_ok m → files_ok m'.
Proof.
  intros Hm (Hwf & Hn & Hf). unfold files_ok, map_wf, map_keys in *.
  assert (Hk : map fst m ≡ₚ map fst m') by (by apply Permutation_map).
  split; [by rewrite <- Hk|]. setoid_rewrite <- Hk. done.
Qed.

Section RoundTrip.
Context (opts : SessionManagerOptions) (jsonb : jsmap string → jsmap string).
(** A JSONB column keeps the entries of a map, in an order of its own. *)
Context (jsonb_entries : ∀ m, jsonb m ≡ₚ m).

Lemma saveSession_active db now chat session sfiles uuid count db' t :
  table_ok db → saveSession opts jsonb db now chat session sfiles uuid count = Ok db' →
  (t < now + hardExpiry opts)%Z →
  ∃ s, getActiveSession db' t chat = Some s ∧ sessionId s = session ∧ sessionFiles s = jsonb sfiles.
Proof.
  intros Hok E Ht.
  pose proof (apply_op_step opts jsonb db (Save now chat session sfiles uuid count) chat Hok) as Hs.
  pose proof (session_op_ok opts jsonb db (Save now chat session sfiles uuid count) Hok) as Hok'.
  simpl in Hs, Hok'. rewrite E in Hs, Hok'. rewrite getActiveSession_keyed, Hs by done.
  rewrite decide_True by done. unfold saveSession in E.
  pose proof (chat_exists (rows db) chat) as Hx.
  destruct (bool_decide (Exists _ _)) eqn:He; [apply bool_decide_eq_true in He|apply bool_decide_eq_false in He];
    rewrite Hx in He.
  - destruct He as [old ->]. simpl. rewrite decide_True by done. by eexists.
  - case_bool_decide; [|done]. destruct (map_get _ chat); [by destruct He; eexists|]. simpl.
    rewrite decide_True by done. by eexists.
Qed.

(** Session files survive the restart of a container: what is saved from a directory
    is, until the session expires, restored under an empty one with exactly the readable
    session files of the source, each with its content, and nothing outside the
    directory changes. *)
Theorem session_files_roundtrip db now chat es session uuid count db' t fs target :
  table_ok db → tree_ok es → clear_below fs target →
  saveFromFilesystem opts jsonb db now chat (Some es) session uuid count = Ok db' →
  (t < now + hardExpiry opts)%Z →
  ∃ fs' s, restoreToFilesystem db' t fs chat target = (fs', Ok (Some s)) ∧ sessionId s = session ∧
    (∀ p c, p ≠ [] → files fs' !! (target ++ p) = Some c ↔ in_tree es p c) ∧
    (∀ p, ¬ target `prefix_of` p → files fs' !! p = files fs !! p).
Proof.
  intros Hok Htree Hclear E Ht. unfold saveFromFilesystem in E.
  destruct (saveSession_active _ _ _ _ _ _ _ _ _ Hok E Ht) as (s & Hs & Hid & Hfiles).
  destruct (readSessionDir_spec es Htree) as [Hm Hin].
  pose proof (files_ok_perm _ _ (symmetry (jsonb_entries _)) Hm) as Hm'.
  destruct (restore_files_spec fs target Hclear _ Hm') as (fs' & Er & Hf & Hout & _).
  exists fs', s. unfold restoreToFilesystem. rewrite Hs, Hfiles, Er.
  split; [done|]. split; [done|]. split.
  - intros p c Hp. rewrite Hf by done. setoid_rewrite jsonb_entries. by apply Hin.
  - intros p Hp. apply Hout. by left.
Qed.
End RoundTrip.

Lemma session_files_roundtrip_witness :
  let opts := ManagerOptions 3600000 86400000 in
  let es := [FileEnt "a.jsonl" (Some "x"); FileEnt "b.txt" (Some "y");
             DirEnt "sub" (Some [FileEnt "c.json" (Some "z")])] in
  ∃ db', saveFromFilesystem opts reverse (Db {["c1"]} []) 0 "c1" (Some es) "s1" None None = Ok db' ∧
  ∃ fs' s, restoreToFilesystem db' 1000 (Fs ∅ ∅) "c1" ["data"] = (fs', Ok (Some s)) ∧
    sessionId s = "s1" ∧
    (∀ p c, p ≠ [] → files fs' !! (["data"] ++ p) = Some c ↔ in_tree es p c) ∧
    (∀ p, ¬ ["data"] `prefix_of` p → files fs' !! p = files (Fs ∅ ∅) !! p).
Proof.
  intros opts es. eexists. split; [vm_compute; reflexivity|].
  apply (session_files_roundtrip opts reverse (λ m, reverse_Permutation m) (Db {["c1"]} []) 0 "c1" es "s1"
           None None).
  - exact (map_wf_nil (A := AgentSession)).
  - constructor.
    + apply (bool_decide_unpack _). vm_compute. exact I.
    + apply (bool_decide_unpack _). vm_compute. exact I.
    + intros n es' Hn. apply list_elem_of_In in Hn. simpl in Hn.
      destruct Hn as [?|[?|[[= <- <-]|[]]]]; [done..|].
      constructor; [apply (bool_decide_unpack _); vm_compute; exact I..|].
      intros n es' Hn%list_elem_of_singleton. done.
  - split; [intros q _; split; [done|apply not_elem_of_empty]|done].
  - vm_compute. reflexivity.
  - simpl. lia.
Defined.
