(* ===== verification/Threads.v ===== *)
(** * Asynchronous functions over shared state

    An [async] function as a tree of atomic steps: between two steps it is
    suspended at an [await], and the other functions in progress may run.  A step
    may start further functions ([void f()]).  The logic is rely-guarantee
    reasoning: [safe] says that a function keeps an invariant and a guarantee
    whatever the others do within the rely. *)

From S2P Require Import Prelude.

Section Threads.
Context {S Tag : Type}.

(** [Throw] is a rejected promise; [Wait b k] is suspended until [b] holds. *)
#[universes(template=no)] Inductive prog (A : Type) : Type :=
| Ret (a : A)
| Throw
| Step (f : Z → S → S * list (Tag * prog unit) * prog A)
| Wait (b : S → bool) (k : prog A).

Arguments Ret {A} a.
Arguments Throw {A}.
Arguments Step {A} f.
Arguments Wait {A} b k.

(** [await p], then [g]. *)
Fixpoint bind {A B} (p : prog A) (g : A → prog B) : prog B :=
  match p with
  | Ret a => g a
  | Throw => Throw
  | Step f => Step (λ t s, let '(s', sp, p') := f t s in (s', sp, bind p' g))
  | Wait b k => Wait b (bind k g)
  end.

(** [try { p } catch { h }] *)
Fixpoint catch {A} (p : prog A) (h : prog A) : prog A :=
  match p with
  | Ret a => Ret a
  | Throw => h
  | Step f => Step (λ t s, let '(s', sp, p') := f t s in (s', sp, catch p' h))
  | Wait b k => Wait b (catch k h)
  end.

(** A step that reads and changes the state, one that may be refused, and one that
    starts another function. *)
Definition update {A} (f : Z → S → S * A) : prog A :=
  Step (λ t s, let '(s', a) := f t s in (s', [], Ret a)).

Definition call {A} (f : Z → S → option (S * A)) : prog A :=
  Step (λ t s, match f t s with Some (s', a) => (s', [], Ret a) | None => (s, [], Throw) end).

Definition spawn (tag : Tag) (p : prog unit) : prog unit := Step (λ _ s, (s, [(tag, p)], Ret tt)).

Definition finished {A} (p : prog A) : bool :=
  match p with Ret _ | Throw => true | _ => false end.

(** ** Scheduling *)

Context {R : Type}.

(** The functions in progress, with their tags, in the order they were started. *)
Record system := System { shared : S; threads : list (Tag * prog (option R)) }.

Definition background (q : Tag * prog unit) : Tag * prog (option R) :=
  (q.1, bind q.2 (λ _, Ret None)).

(** The next step of one function, at time [t]. *)
Definition advance (i : nat) (t : Z) (sys : system) : system :=
  match threads sys !! i with
  | Some (tag, Step f) =>
      let '(s', sp, p') := f t (shared sys) in
      System s' (<[i := (tag, p')]> (threads sys) ++ map background sp)
  | Some (tag, Wait b k) =>
      if b (shared sys) then System (shared sys) (<[i := (tag, k)]> (threads sys)) else sys
  | _ => sys
  end.

Definition launch (tag : Tag) (p : prog (option R)) (sys : system) : system :=
  System (shared sys) (threads sys ++ [(tag, p)]).

(** ** Safety *)

Context (I : S → Prop) (rely : S → S → Prop) (guar : Tag → S → S → Prop) (post : Tag → S → Prop).

(** From state [s], [p] keeps [I], makes only steps of its guarantee, starts only
    safe functions, and ends with [Q] or throws with [T]. *)
Fixpoint safe {A} (tag : Tag) (p : prog A) (Q : A → S → Prop) (T : S → Prop) (s : S) : Prop :=
  match p with
  | Ret a => Q a s
  | Throw => T s
  | Step f => ∀ t s1, rely s s1 → I s1 →
      match f t s1 with
      | (s2, sp, p') =>
          I s2 ∧ guar tag s1 s2 ∧
          (fix all (l : list (Tag * prog unit)) : Prop :=
             match l with
             | [] => True
             | (tag', q) :: l => safe tag' q (λ _, post tag') (post tag') s2 ∧ finished q = false ∧ all l
             end) sp ∧
          safe tag p' Q T s2
      end
  | Wait b k => ∀ s1, rely s s1 → I s1 → b s1 = true → safe tag k Q T s1
  end.

Definition safe_spawned (s : S) (q : Tag * prog unit) : Prop :=
  safe q.1 q.2 (λ _, post q.1) (post q.1) s ∧ finished q.2 = false.

Lemma safe_Step {A} tag (f : Z → S → S * list (Tag * prog unit) * prog A) (Q : A → S → Prop) T s :
  safe tag (Step f) Q T s ↔
  ∀ t s1, rely s s1 → I s1 →
    I (f t s1).1.1 ∧ guar tag s1 (f t s1).1.1 ∧ Forall (safe_spawned (f t s1).1.1) (f t s1).1.2 ∧
    safe tag (f t s1).2 Q T (f t s1).1.1.
Proof.
  simpl. split; intros H t s1 Hr HI; specialize (H t s1 Hr HI); destruct (f t s1) as [[s2 sp] p']; simpl in *.
  - destruct H as (? & ? & Hsp & ?). split; [done|]. split; [done|]. split; [|done].
    induction sp as [|[tag' q] sp IH]; constructor.
    + destruct Hsp as (? & ? & _). done.
    + apply IH. by destruct Hsp as (_ & _ & ?).
  - destruct H as (? & ? & Hsp & ?). split; [done|]. split; [done|]. split; [|done].
    induction Hsp as [|[tag' q] sp [? ?] _ IH]; done.
Qed.

(** Induction over the steps of a function. *)
Lemma prog_ind' {A} (P : prog A → Prop) :
  (∀ a, P (Ret a)) → P Throw → (∀ f, (∀ t s, P (f t s).2) → P (Step f)) →
  (∀ b k, P k → P (Wait b k)) → ∀ p, P p.
Proof.
  intros HR HT HS HW. fix IH 1. intros [a| |f|b k]; [apply HR|apply HT| |apply HW, IH].
  apply HS. intros t s. destruct (f t s) as [[s' sp] p']. apply IH.
Qed.

Context (rely_refl : ∀ s, rely s s) (rely_trans : ∀ s1 s2 s3, rely s1 s2 → rely s2 s3 → rely s1 s3).
Context (guar_rely : ∀ tag s1 s2, guar tag s1 s2 → rely s1 s2).

Lemma safe_post {A} tag (p : prog A) (Q Q' : A → S → Prop) (T T' : S → Prop) s :
  (∀ a s, Q a s → Q' a s) → (∀ s, T s → T' s) → safe tag p Q T s → safe tag p Q' T' s.
Proof.
  intros HQ HT. revert s. induction p as [a| |f IH|b k IH] using prog_ind'; intros s; [apply HQ|apply HT| |].
  - rewrite !safe_Step. intros H t s1 Hr HI. destruct (H t s1 Hr HI) as (? & ? & ? & ?). auto 10.
  - simpl. intros H s1 Hr HI Hb. apply IH. auto.
Qed.

Lemma safe_bind {A B} tag (p : prog A) (g : A → prog B) Q T s :
  safe tag p (λ a s, safe tag (g a) Q T s) T s → safe tag (bind p g) Q T s.
Proof.
  revert s. induction p as [a| |f IH|b k IH] using prog_ind'; intros s; [done|done| |].
  - cbn [bind]. rewrite !safe_Step. intros H t s1 Hr HI. specialize (H t s1 Hr HI). specialize (IH t s1).
    destruct (f t s1) as [[s2 sp] p']. simpl in *. destruct H as (? & ? & ? & ?). auto.
  - simpl. intros H s1 Hr HI Hb. apply IH. auto.
Qed.

Lemma safe_catch {A} tag (p h : prog A) Q T s :
  safe tag p Q (λ s, safe tag h Q T s) s → safe tag (catch p h) Q T s.
Proof.
  revert s. induction p as [a| |f IH|b k IH] using prog_ind'; intros s; [done|done| |].
  - cbn [catch]. rewrite !safe_Step. intros H t s1 Hr HI. specialize (H t s1 Hr HI). specialize (IH t s1).
    destruct (f t s1) as [[s2 sp] p']. simpl in *. destruct H as (? & ? & ? & ?). auto.
  - simpl. intros H s1 Hr HI Hb. apply IH. auto.
Qed.

Lemma safe_update {A} tag (f : Z → S → S * A) Q T s :
  (∀ t s1, rely s s1 → I s1 → I (f t s1).1 ∧ guar tag s1 (f t s1).1 ∧ Q (f t s1).2 (f t s1).1) →
  safe tag (update f) Q T s.
Proof.
  intros H. unfold update. rewrite safe_Step. intros t s1 Hr HI. specialize (H t s1 Hr HI).
  destruct (f t s1) as [s2 a]. simpl in *. destruct H as (? & ? & ?). auto.
Qed.

Lemma safe_call {A} tag (f : Z → S → option (S * A)) Q (T : S → Prop) s :
  (∀ s1, guar tag s1 s1) →
  (∀ t s1, rely s s1 → I s1 →
     match f t s1 with
     | Some (s2, a) => I s2 ∧ guar tag s1 s2 ∧ Q a s2
     | None => T s1
     end) →
  safe tag (call f) Q T s.
Proof.
  intros Hg H. unfold call. rewrite safe_Step. intros t s1 Hr HI. specialize (H t s1 Hr HI).
  destruct (f t s1) as [[s2 a]|]; simpl; [destruct H as (? & ? & ?)|]; auto.
Qed.

Lemma safe_spawn tag tag' p (Q : unit → S → Prop) T s : (∀ s1, guar tag s1 s1) →
  (∀ s1, rely s s1 → I s1 → safe_spawned s1 (tag', p) ∧ Q tt s1) →
  safe tag (spawn tag' p) Q T s.
Proof.
  intros Hg H. unfold spawn. rewrite safe_Step. intros t s1 Hr HI. simpl.
  destruct (H s1 Hr HI) as [? ?]. split; [done|]. split; [done|]. split; [|done]. by constructor.
Qed.

(** A function that is still suspended is not affected by what the rely allows. *)
Lemma safe_rely {A} tag (p : prog A) Q T s s' :
  finished p = false → rely s s' → safe tag p Q T s → safe tag p Q T s'.
Proof. destruct p; simpl; [done..| |]; intros _ Hr H; intros; apply H; eauto. Qed.

(** What has happened when a function ends is within the rely. *)
Lemma safe_since {A} tag (p : prog A) Q T s :
  safe tag p Q T s → safe tag p (λ a s', Q a s' ∧ rely s s') T s.
Proof.
  enough (H : ∀ s0, rely s0 s → safe tag p Q T s → safe tag p (λ a s', Q a s' ∧ rely s0 s') T s) by by apply H.
  revert s. induction p as [a| |f IH|b k IH] using prog_ind'; intros s s0 H0; [done|done| |].
  - rewrite !safe_Step. intros H t s1 Hr HI. destruct (H t s1 Hr HI) as (? & Hg & ? & ?). split_and!; [done..|].
    apply IH; [|done]. eapply rely_trans; [by eapply rely_trans|]. by eapply guar_rely.
  - simpl. intros H s1 Hr HI Hb. apply IH; [|by apply H]. by eapply rely_trans.
Qed.

(** ** Runs *)

Definition thread_ok (s : S) (th : Tag * prog (option R)) : Prop :=
  finished th.2 = true ∨ safe th.1 th.2 (λ _, post th.1) (post th.1) s.

Definition system_ok (sys : system) : Prop :=
  I (shared sys) ∧ Forall (thread_ok (shared sys)) (threads sys).

Lemma thread_ok_rely s s' th : rely s s' → thread_ok s th → thread_ok s' th.
Proof.
  intros Hr [?|Hs]; [by left|]. destruct (finished th.2) eqn:E; [by left|]. right.
  by eapply safe_rely.
Qed.

Lemma background_safe s q : safe_spawned s q →
  safe (background q).1 (background q).2 (λ _, post q.1) (post q.1) s ∧ finished (background q).2 = false.
Proof.
  intros [Hs Hf]. split; [by apply safe_bind|]. by destruct q as [tag []].
Qed.

(** What one step of one function does to the system. *)
Lemma advance_ok i t sys : system_ok sys →
  system_ok (advance i t sys) ∧
  (advance i t sys = sys ∨
   ∃ tag p p', threads sys !! i = Some (tag, p) ∧ finished p = false ∧
     (guar tag (shared sys) (shared (advance i t sys)) ∨ shared (advance i t sys) = shared sys) ∧
     threads (advance i t sys) !! i = Some (tag, p') ∧
     (finished p' = true → post tag (shared (advance i t sys))) ∧
     (∀ j th, j ≠ i → threads sys !! j = Some th → threads (advance i t sys) !! j = Some th) ∧
     ∀ j tag' q, threads (advance i t sys) !! j = Some (tag', q) → finished q = true →
       j = i ∨ threads sys !! j = Some (tag', q)).
Proof.
  intros [HI Hth]. unfold advance. destruct (threads sys !! i) as [[tag p]|] eqn:E; [|by split; [|left]].
  assert (Hlt : i < length (threads sys)) by (by eapply lookup_lt_Some).
  pose proof (proj1 (Forall_lookup _ _) Hth _ _ E) as [Hp|Hp]; [by destruct p; simpl in *; split; auto|].
  simpl in Hp. destruct p as [a| |f|b k]; [by split; [|left]..| |].
  - rewrite safe_Step in Hp. destruct (Hp t (shared sys) (rely_refl _) HI) as (HI' & Hg & Hsp & Hp').
    destruct (f t (shared sys)) as [[s' sp] p']. simpl in *. split.
    + split; [done|]. simpl. apply Forall_app. split.
      * apply Forall_insert; [|by right]. eapply Forall_impl; [exact Hth|].
        intros th. apply thread_ok_rely. by eapply guar_rely.
      * apply Forall_map. eapply Forall_impl; [exact Hsp|]. intros q Hq. right.
        by apply background_safe.
    + right. exists tag, (Step f), p'. split; [done|]. split; [done|]. split; [by left|].
      rewrite lookup_app_l by (by rewrite length_insert). rewrite list_lookup_insert_eq by done.
      split; [done|]. split; [by destruct p'|]. split.
      * intros j th Hj Hl. rewrite lookup_app_l; [by rewrite list_lookup_insert_ne|].
        rewrite length_insert. by eapply lookup_lt_Some.
      * intros j tag' q Hl Hf. apply lookup_app_Some in Hl as [Hl|[_ Hl]].
        -- destruct (decide (j = i)); [by left|]. rewrite list_lookup_insert_ne in Hl by done. by right.
        -- exfalso. apply list_elem_of_lookup_2, list_elem_of_In, in_map_iff in Hl as (x & Ex & Hx%list_elem_of_In).
           rewrite Forall_forall in Hsp. destruct (background_safe _ _ (Hsp x Hx)) as [_ Hx'].
           rewrite Ex in Hx'. simpl in Hx'. congruence.
  - destruct (b (shared sys)) eqn:Eb; [|by split; [|left]].
    pose proof (Hp (shared sys) (rely_refl _) HI Eb) as Hk. split.
    + split; [done|]. simpl. apply Forall_insert; [done|by right].
    + right. exists tag, (Wait b k), k. split; [done|]. split; [done|]. split; [by right|]. simpl.
      rewrite list_lookup_insert_eq by done. split; [done|]. split; [by destruct k|]. split.
      * intros j th Hj Hl. by rewrite list_lookup_insert_ne.
      * intros j tag' q Hl Hf. destruct (decide (j = i)); [by left|].
        rewrite list_lookup_insert_ne in Hl by done. by right.
Qed.

Lemma launch_ok tag p sys : system_ok sys → safe tag p (λ _, post tag) (post tag) (shared sys) →
  system_ok (launch tag p sys).
Proof.
  intros [HI Hth] Hp. split; [done|]. simpl. apply Forall_app. split; [done|].
  constructor; [by right|done].
Qed.
End Threads.

Arguments prog S Tag A : clear implicits.
Arguments Ret {S Tag A} a.
Arguments Throw {S Tag A}.
Arguments Step {S Tag A} f.
Arguments Wait {S Tag A} b k.
Arguments system S Tag R : clear implicits.
Arguments System {S Tag R} shared threads.

Notation "'await' x ':=' p 'in' q" := (bind p (λ x, q))
  (at level 100, x name, p at level 100, q at level 200, right associativity) : fh_scope.
