(* ===== verification/Jobs.v ===== *)
(** * Background jobs beside other transactions

    A job is an asynchronous function of [Threads.v] of which one call runs at a
    time, as a flag in the source ensures: a call while another is in progress
    returns at once.  Between two of its steps the other jobs may make steps, and the
    rest of the program may change the shared state by whole transactions.  [alone]
    runs a job undisturbed. *)

From S2P Require Import Prelude Threads.
Local Open Scope fh_scope.

Section Programs.
Context {S Job : Type}.

Abbreviation job := (prog S Job).

(** A query, and a statement that reads the clock before it is sent. *)
Definition query {A} (f : S → A) : job A := update (λ _ s, (s, f s)).

(** [for (const x of l) await f(x)] *)
Fixpoint for_each {A} (f : A → job unit) (l : list A) : job unit :=
  match l with
  | [] => Ret tt
  | x :: l => bind (f x) (λ _, for_each f l)
  end.

(** A loop that counts. *)
Fixpoint sum_each {A} (f : A → job nat) (l : list A) : job nat :=
  match l with
  | [] => Ret 0%nat
  | x :: l => await n := f x in await m := sum_each f l in Ret (n + m)%nat
  end.

(** ** Undisturbed runs *)

(** The final state, the value if the job does not throw, and the number of steps; step
    [i] takes place at time [clock i]. *)
Section Alone.
Context (clock : nat → Z).

Fixpoint alone {A} (i : nat) (p : job A) (s : S) : S * option A * nat :=
  match p with
  | Ret a => (s, Some a, i)
  | Throw => (s, None, i)
  | Step f => let '(s', _, p') := f (clock i) s in alone (Datatypes.S i) p' s'
  | Wait b k => if b s then alone i k s else (s, None, i)
  end.

Lemma alone_bind {A B} i (p : job A) (g : A → job B) s :
  alone i (bind p g) s =
  match alone i p s with
  | (s', Some a, j) => alone j (g a) s'
  | (s', None, j) => (s', None, j)
  end.
Proof.
  revert i s. induction p as [a| |f IH|b k IH] using prog_ind'; intros i s; simpl; [done|done| |].
  - specialize (IH (clock i) s). destruct (f (clock i) s) as [[s1 sp] p']. simpl in *. apply IH.
  - destruct (b s); [apply IH|done].
Qed.

Lemma alone_update {A} i (f : Z → S → S * A) s :
  alone i (update f) s = ((f (clock i) s).1, Some (f (clock i) s).2, Datatypes.S i).
Proof. simpl. by destruct (f (clock i) s). Qed.

Lemma alone_call {A} i (f : Z → S → option (S * A)) s :
  alone i (call f) s =
  match f (clock i) s with
  | Some (s', a) => (s', Some a, Datatypes.S i)
  | None => (s, None, Datatypes.S i)
  end.
Proof. simpl. by destruct (f (clock i) s) as [[s' a]|]. Qed.

End Alone.

(** ** Interleaved runs *)

Context `{!EqDecision Job} {A Op : Type} (env : Op → S → S) (main : Job → job A).

Record job_system := JobSystem { shared : S; current : Job → option (job A) }.

(** [Start j] is a call of the job's [run]; [Tick j t] resumes it at time [t]. *)
Inductive job_event := Other (op : Op) | Start (j : Job) | Tick (j : Job) (t : Z).

Definition busy (sys : job_system) (j : Job) : bool :=
  match current sys j with Some p => negb (finished p) | None => false end.

Definition set_current (sys : job_system) (j : Job) (p : job A) : Job → option (job A) :=
  λ i, if decide (i = j) then Some p else current sys i.

Definition job_step (sys : job_system) (ev : job_event) : job_system :=
  match ev with
  | Other op => JobSystem (env op (shared sys)) (current sys)
  | Start j => if busy sys j then sys else JobSystem (shared sys) (set_current sys j (main j))
  | Tick j t =>
      match current sys j with
      | Some (Step f) => let '(s', _, p') := f t (shared sys) in JobSystem s' (set_current sys j p')
      | Some (Wait b k) => if b (shared sys) then JobSystem (shared sys) (set_current sys j k) else sys
      | _ => sys
      end
  end.

Definition idle_system (s : S) : job_system := JobSystem s (λ _, None).

(** Each job has its own rely, which the steps of the others and the transactions
    respect. *)
Context (I : S → Prop) (rely : Job → S → S → Prop).
Context (rely_refl : ∀ j s, rely j s s).
Context (rely_trans : ∀ j s1 s2 s3, rely j s1 s2 → rely j s2 s3 → rely j s1 s3).
Context (env_ok : ∀ op s, I s → I (env op s) ∧ ∀ j, rely j s (env op s)).

Definition to_others (j : Job) (s1 s2 : S) : Prop := ∀ i, i ≠ j → rely i s1 s2.

Definition job_safe {B} (j : Job) (p : job B) (Q : B → S → Prop) (T : S → Prop) (s : S) : Prop :=
  safe I (rely j) to_others (λ _ _, True) j p Q T s.

Abbreviation job_fine j p s := (job_safe j p (λ _ _, True) (λ _, True) s).

Context (main_safe : ∀ j s, I s → job_fine j (main j) s).

Definition jobs_ok (sys : job_system) : Prop :=
  I (shared sys) ∧ ∀ j p, current sys j = Some p → finished p = true ∨ job_fine j p (shared sys).

Lemma jobs_ok_set sys j p s' : jobs_ok sys → I s' → to_others j (shared sys) s' →
  job_fine j p s' → jobs_ok (JobSystem s' (set_current sys j p)).
Proof.
  intros [_ Hj] HI Hg Hp. split; [done|]. intros i q. simpl. unfold set_current. case_decide as E.
  - intros [= <-]. subst i. by right.
  - intros Eq. destruct (Hj i q Eq) as [?|Hq]; [by left|]. destruct (finished q) eqn:Ef; [by left|]. right.
    unfold job_safe. eapply safe_rely; [exact (rely_trans i)|done|by apply Hg|exact Hq].
Qed.

Lemma job_step_keeps sys ev : jobs_ok sys → jobs_ok (job_step sys ev).
Proof.
  intros Hok. pose proof Hok as [HI Hj]. destruct ev as [op|j|j t]; simpl.
  - destruct (env_ok op (shared sys) HI) as [HI' Hr]. split; [done|]. intros j p E.
    destruct (Hj j p E) as [?|Hp]; [by left|]. destruct (finished p) eqn:Ef; [by left|]. right.
    unfold job_safe. eapply safe_rely; [exact (rely_trans j)|done|apply Hr|exact Hp].
  - destruct (busy sys j); [done|]. apply jobs_ok_set; [done..| |by apply main_safe]. intros i _. apply rely_refl.
  - destruct (current sys j) as [[a| |f|b k]|] eqn:E; [done..| | |done].
    + destruct (Hj _ _ E) as [?|Hp]; [done|]. unfold job_safe in Hp. rewrite safe_Step in Hp.
      destruct (Hp t (shared sys) (rely_refl _ _) HI) as (HI' & Hg & _ & Hp').
      destruct (f t (shared sys)) as [[s' sp] p']. simpl in *. by apply jobs_ok_set.
    + destruct (Hj _ _ E) as [?|Hp]; [done|]. destruct (b (shared sys)) eqn:Eb; [|done].
      apply jobs_ok_set; [done..| |by apply Hp]. intros i _. apply rely_refl.
Qed.

Lemma job_run_keeps s evs : I s → I (shared (fold_left job_step evs (idle_system s))).
Proof.
  intros HI. assert (H : ∀ sys, jobs_ok sys → I (shared (fold_left job_step evs sys))).
  { induction evs as [|ev evs IH]; intros sys Hs; [apply Hs|]. simpl. by apply IH, job_step_keeps. }
  apply H. by split.
Qed.
End Programs.

Arguments job_system S Job A : clear implicits.
Arguments job_event Job Op : clear implicits.

(** ** Rules for jobs *)

Section Rules.
Context {S Job : Type} (I : S → Prop) (rely : Job → S → S → Prop) (rely_refl : ∀ j s, rely j s s) (j : Job).

Abbreviation ok := (job_safe I rely j).

Lemma ok_bind {A B} (p : prog S Job A) (g : A → prog S Job B) Q T s :
  ok p (λ a s, ok (g a) Q T s) T s → ok (bind p g) Q T s.
Proof. apply safe_bind. Qed.

Lemma ok_post {A} (p : prog S Job A) (Q Q' : A → S → Prop) (T T' : S → Prop) s :
  (∀ a s, Q a s → Q' a s) → (∀ s, T s → T' s) → ok p Q T s → ok p Q' T' s.
Proof. intros HQ HT. by apply safe_post. Qed.

Lemma ok_catch {A} (p h : prog S Job A) Q T s : ok p Q (λ s, ok h Q T s) s → ok (catch p h) Q T s.
Proof. apply safe_catch. Qed.

Lemma ok_call {A} (f : Z → S → option (S * A)) Q (T : S → Prop) s :
  (∀ t s1, rely j s s1 → I s1 →
     match f t s1 with Some (s2, a) => I s2 ∧ to_others rely j s1 s2 ∧ Q a s2 | None => T s1 end) →
  ok (call f) Q T s.
Proof.
  intros H. apply safe_call; [by intros s1 i _|]. intros t s1 Hr HI. specialize (H t s1 Hr HI).
  destruct (f t s1) as [[s2 a]|]; [|done]. by destruct H as (? & ? & ?).
Qed.

Lemma ok_query {A} (f : S → A) (Q : A → S → Prop) T s :
  (∀ s1, rely j s s1 → I s1 → Q (f s1) s1) → ok (query f) Q T s.
Proof. intros H. apply safe_update. intros t s1 Hr HI. split; [done|]. split; [by intros i _|]. by apply H. Qed.

(** A loop keeps what each round keeps. *)
Lemma ok_for_each {A} (J : list A → S → Prop) (f : A → prog S Job unit) l T s :
  (∀ x l s, J (x :: l) s → ok (f x) (λ _, J l) T s) → J l s → ok (for_each f l) (λ _, J []) T s.
Proof.
  intros Hf. revert s. induction l as [|x l IH]; intros s HJ; [exact HJ|].
  simpl. apply ok_bind. eapply ok_post; [|done|by apply Hf]. intros ? s'. apply IH.
Qed.

Lemma ok_sum_each {A} (J : S → Prop) (f : A → prog S Job nat) l T s :
  (∀ x s, x ∈ l → J s → ok (f x) (λ _, J) T s) → J s → ok (sum_each f l) (λ _, J) T s.
Proof.
  revert s. induction l as [|x l IH]; intros s Hf HJ; [exact HJ|].
  simpl. apply ok_bind. eapply ok_post; [|done|apply Hf; [left|done]]. intros n s' Hs'.
  apply ok_bind. eapply ok_post; [|done|apply IH; [|exact Hs']]; [by intros m s''|]. intros y s1 Hy. apply Hf. by right.
Qed.
End Rules.

(** ** Rules for undisturbed runs

    [ends I p Q T s]: undisturbed from [s], and as long as [I] holds at every step, [p]
    ends with [Q] or throws with [T], whatever the times of its steps. *)

Section Ends.
Context {S Job : Type} (I : S → Prop).

Fixpoint ends {A} (p : prog S Job A) (Q : A → S → Prop) (T : S → Prop) (s : S) : Prop :=
  match p with
  | Ret a => Q a s
  | Throw => T s
  | Step f => I s → ∀ t, let '(s', _, p') := f t s in ends p' Q T s'
  | Wait _ _ => False
  end.

(** [I] itself is what the rules for jobs give. *)
Lemma alone_ends {A} clock i rely j (p : prog S Job A) Q' T' Q T s : (∀ j s, rely j s s) → I s →
  job_safe I rely j p Q' T' s → ends p Q T s →
  match alone clock i p s with
  | (s', Some a, _) => Q a s' ∧ I s'
  | (s', None, _) => T s' ∧ I s'
  end.
Proof.
  intros Hrefl. revert i s. induction p as [a| |f IH|b k IH] using prog_ind'; intros i s HI Hp He; simpl in He |- *; [by split..| |done].
  unfold job_safe in Hp. rewrite safe_Step in Hp. destruct (Hp (clock i) s (Hrefl j s) HI) as (HI' & _ & _ & Hp').
  specialize (He HI (clock i)). specialize (IH (clock i) s).
  destruct (f (clock i) s) as [[s' sp] p']. by apply IH.
Qed.

Lemma ends_bind {A B} (p : prog S Job A) (g : A → prog S Job B) Q T s :
  ends p (λ a s, ends (g a) Q T s) T s → ends (bind p g) Q T s.
Proof.
  revert s. induction p as [a| |f IH|b k IH] using prog_ind'; intros s; [done|done| |done].
  simpl. intros H HI t. specialize (H HI t). specialize (IH t s). destruct (f t s) as [[s' sp] p']. by apply IH.
Qed.

Lemma ends_post {A} (p : prog S Job A) (Q Q' : A → S → Prop) (T T' : S → Prop) s :
  (∀ a s, Q a s → Q' a s) → (∀ s, T s → T' s) → ends p Q T s → ends p Q' T' s.
Proof.
  intros HQ HT. revert s. induction p as [a| |f IH|b k IH] using prog_ind'; intros s; [apply HQ|apply HT| |done].
  simpl. intros H HI t. specialize (H HI t). specialize (IH t s). destruct (f t s) as [[s' sp] p']. by apply IH.
Qed.

Lemma ends_catch {A} (p h : prog S Job A) Q T s : ends p Q (λ s, ends h Q T s) s → ends (catch p h) Q T s.
Proof.
  revert s. induction p as [a| |f IH|b k IH] using prog_ind'; intros s; [done|done| |done].
  simpl. intros H HI t. specialize (H HI t). specialize (IH t s). destruct (f t s) as [[s' sp] p']. by apply IH.
Qed.

Lemma ends_call {A} (f : Z → S → option (S * A)) Q (T : S → Prop) s :
  (I s → ∀ t, match f t s with Some (s2, a) => Q a s2 | None => T s end) → ends (call f) Q T s.
Proof. intros H HI t. specialize (H HI t). by destruct (f t s) as [[s2 a]|]. Qed.

Lemma ends_update {A} (f : Z → S → S * A) (Q : A → S → Prop) T s :
  (I s → ∀ t, Q (f t s).2 (f t s).1) → ends (update f) Q T s.
Proof. intros H HI t. specialize (H HI t). by destruct (f t s). Qed.

Lemma ends_query {A} (f : S → A) (Q : A → S → Prop) T s : (I s → Q (f s) s) → ends (query f) Q T s.
Proof. intros H. apply ends_update. intros HI t. by apply H. Qed.

Lemma ends_for_each {A} (J : list A → S → Prop) (f : A → prog S Job unit) l (T : S → Prop) s :
  (∀ x l s, J (x :: l) s → ends (f x) (λ _, J l) T s) → J l s → ends (for_each f l) (λ _, J []) T s.
Proof.
  intros Hf. revert s. induction l as [|x l IH]; intros s HJ; [exact HJ|].
  simpl. apply ends_bind. eapply ends_post; [|done|by apply Hf]. intros ? s'. apply IH.
Qed.

Lemma ends_sum_each {A} (J : list A → S → Prop) (f : A → prog S Job nat) l (T : S → Prop) s :
  (∀ x l s, J (x :: l) s → ends (f x) (λ _, J l) T s) → J l s → ends (sum_each f l) (λ _, J []) T s.
Proof.
  intros Hf. revert s. induction l as [|x l IH]; intros s HJ; [exact HJ|].
  simpl. apply ends_bind. eapply ends_post; [|done|by apply Hf]. intros n s' Hs'.
  apply ends_bind. eapply ends_post; [|done|by apply IH]. by intros m s1.
Qed.
End Ends.
