(* ===== verification/Containers.v ===== *)
(** * Containers

    [src/container/podman-runtime.ts]: the arguments of [podman create] and the
    reading of [podman ps]; [src/container/resource-limits.ts];
    [src/container/lifecycle.ts].  The engine is outside the repository: the
    interface [ContainerRuntime] of [src/orchestrator/types.ts] is a class whose
    laws state what Podman documents. *)

From Stdlib Require Import Ascii QArith.
From stdpp Require Import pretty.
From S2P Require Import Prelude JsMap JsString.
Local Open Scope fh_scope.
Local Open Scope string_scope.
Local Open Scope list_scope.

(** ** Configuration of a container *)

Record MountConfig := Mount {
  source : string;
  target : string;
  readOnly : bool;
  selinuxLabel : option string;
  chownToUser : option bool }.

Record TmpfsConfig := Tmpfs { tmpfs_target : string; size : string; mode : option string }.

Record ContainerConfig := Config {
  name : string;
  image : string;
  memoryLimit : string;
  cpuLimit : string;
  pidsLimit : Z;
  rootReadOnly : bool;
  mounts : list MountConfig;
  tmpfs : list TmpfsConfig;
  env : jsmap string;
  ports : option (list string);
  network : string;
  securityOpts : list string;
  userNamespace : option string;
  workDir : option string;
  command : option (list string) }.

(** ** [resource-limits.ts] *)

Definition is_digit (c : ascii) : bool := let n := nat_of_ascii c in (48 <=? n)%nat && (n <=? 57)%nat.

(** [/^\d+[bkmg]?$/i] *)
Fixpoint digits_unit (s : string) : bool :=
  match s with
  | EmptyString => true
  | String c EmptyString => is_digit c || bool_decide (c ∈ String.list_ascii_of_string "bkmgBKMG")
  | String c s => is_digit c && digits_unit s
  end.

Definition validateMemoryLimit (limit : string) : bool :=
  match limit with String c s => is_digit c && digits_unit s | EmptyString => false end.

(** [Number(limit)], [None] for [NaN], is an argument. *)
Definition validateCpuLimit (num : option Q) : bool :=
  match num with Some q => negb (Qle_bool q 0) && Qle_bool q 128 | None => false end.

(** The limit is an integer. *)
Definition validatePidsLimit (limit : Z) : bool := (1 <=? limit)%Z && (limit <=? 32768)%Z.

Definition quote : string := String (ascii_of_nat 34) "".

Definition buildResourceLimitArgs (Number : string → option Q) (memoryLimit cpuLimit : string)
    (pidsLimit : Z) : result (list string) :=
  if negb (validateMemoryLimit memoryLimit) then
    Err ("Invalid memory limit: " ++ quote ++ memoryLimit ++ quote ++ ". Use format like " ++ quote ++
         "512m" ++ quote ++ " or " ++ quote ++ "2g" ++ quote ++ ".")
  else if negb (validateCpuLimit (Number cpuLimit)) then
    Err ("Invalid CPU limit: " ++ quote ++ cpuLimit ++ quote ++ ". Use a positive number like " ++ quote ++
         "0.5" ++ quote ++ " or " ++ quote ++ "2" ++ quote ++ ".")
  else if negb (validatePidsLimit pidsLimit) then
    Err ("Invalid PIDs limit: " ++ pretty pidsLimit ++ ". Must be an integer between 1 and 32768.")
  else Ok ["--memory"; memoryLimit; "--cpus"; cpuLimit; "--pids-limit"; pretty pidsLimit].

(** ** [podman-runtime.ts] *)

(** [if (value) args.push(flag, value)] *)
Definition flag_if (flag : string) (value : option string) : list string :=
  if opt_truthy value then [flag; default "" value] else [].

Definition is_true (b : option bool) : bool := default false b.

Definition mount_arg (m : MountConfig) : string :=
  let opts := (if readOnly m then ["ro"] else []) ++
              (if opt_truthy (selinuxLabel m) then [default "" (selinuxLabel m)] else []) ++
              (if is_true (chownToUser m) then ["U"] else []) in
  (source m ++ ":" ++ target m ++
   match opts with [] => "" | _ => ":" ++ String.concat "," opts end)%string.

Definition tmpfs_arg (t : TmpfsConfig) : string :=
  (tmpfs_target t ++ ":size=" ++ size t ++
   if opt_truthy (mode t) then ",mode=" ++ default "" (mode t) else "")%string.

Definition flags (flag : string) (values : list string) : list string :=
  concat (map (λ v, [flag; v]) values).

Definition buildCreateArgs (Number : string → option Q) (c : ContainerConfig) : result (list string) :=
  let* limits := buildResourceLimitArgs Number (memoryLimit c) (cpuLimit c) (pidsLimit c) in
  Ok (["create"; "--name"; name c] ++ limits ++
      (if rootReadOnly c then ["--read-only"] else []) ++
      flag_if "--userns" (userNamespace c) ++
      flags "--publish" (default [] (ports c)) ++
      flag_if "--network" (Some (network c)) ++
      flag_if "--workdir" (workDir c) ++
      flags "--volume" (map mount_arg (mounts c)) ++
      flags "--tmpfs" (map tmpfs_arg (tmpfs c)) ++
      flags "--env" (map (λ e, (e.1 ++ "=" ++ e.2)%string) (env c)) ++
      flags "--security-opt" (securityOpts c) ++
      [image c] ++ default [] (command c)).

(** [stopped] of the source is never produced. *)
Inductive ContainerState := Created | Running | Paused | Exited | Unknown.

#[export] Instance ContainerState_eq_dec : EqDecision ContainerState.
Proof. solve_decision. Defined.

Definition mapStatusToState (status : string) : ContainerState :=
  let normalized := to_lower status in
  if bool_decide (normalized = "running") then Running
  else if bool_decide (normalized = "created") then Created
  else if bool_decide (normalized = "paused") then Paused
  else if bool_decide (normalized = "exited" ∨ normalized = "stopped") then Exited
  else Unknown.

Definition mapStateToStatus (state : ContainerState) : string :=
  match state with
  | Running => "running" | Created => "created" | Paused => "paused" | Exited => "exited"
  | Unknown => "unknown"
  end.

Record ContainerInfo := Info { info_id : string; info_name : string; info_state : ContainerState }.

(** One entry of [podman ps]; [None] when [Names] is not an array. *)
Definition parseContainerInfo (Id : string) (Names : option (list string)) (State : string) :
    ContainerInfo :=
  Info Id (match Names with Some (n :: _) => n | _ => "" end) (mapStatusToState State).

Record ExecResult := Executed { stdout : string; stderr : string }.

(** ** The interface of the engine *)

(** Every operation that changes the engine may be refused, [None]. [containers] and
    [issued], the identifiers given so far, are what the laws speak of. *)
Class ContainerRuntime (E : Type) := {
  rt_containers : E → list ContainerInfo;
  rt_issued : E → list string;
  rt_list : E → string → option (list ContainerInfo);
  rt_create : E → ContainerConfig → option (E * string);
  rt_start : E → string → option E;
  rt_stop : E → string → option E;
  rt_remove : E → string → option E;
  rt_exec : E → string → list string → option (E * ExecResult);
  rt_isHealthy : E → string → bool;
  rt_networkExists : E → string → bool;
  rt_createNetwork : E → string → option E }.

Definition set_state (id : string) (st : ContainerState) (i : ContainerInfo) : ContainerInfo :=
  if decide (info_id i = id) then Info (info_id i) (info_name i) st else i.

(** A name is given to one container at a time, and an identifier to one ever. *)
Class RuntimeLaws (E : Type) `{ContainerRuntime E} := {
  create_law e c e' id : rt_create e c = Some (e', id) →
    (∀ i, i ∈ rt_containers e → info_name i ≠ name c) ∧ id ∉ rt_issued e ∧
    rt_issued e' = id :: rt_issued e ∧
    rt_containers e' = rt_containers e ++ [Info id (name c) Created];
  start_law e id e' : rt_start e id = Some e' →
    rt_issued e' = rt_issued e ∧ rt_containers e' = map (set_state id Running) (rt_containers e);
  stop_law e id e' : rt_stop e id = Some e' →
    rt_issued e' = rt_issued e ∧ rt_containers e' = map (set_state id Exited) (rt_containers e);
  remove_law e id e' : rt_remove e id = Some e' →
    rt_issued e' = rt_issued e ∧ rt_containers e' = filter (λ i, info_id i ≠ id) (rt_containers e);
  exec_law e id c e' r : rt_exec e id c = Some (e', r) →
    rt_issued e' = rt_issued e ∧ rt_containers e' = rt_containers e;
  network_law e n e' : rt_createNetwork e n = Some e' →
    rt_issued e' = rt_issued e ∧ rt_containers e' = rt_containers e;
  list_law e p l : rt_list e p = Some l →
    l = filter (λ i, starts_with p (info_name i) = true) (rt_containers e) }.

(** ** [lifecycle.ts] *)

Section Lifecycle.
Context {E : Type} `{RuntimeLaws E}.
Context (username : string).

Definition agent_prefix : string := ("flowhelm-agent-" ++ username ++ "-")%string.
Definition agentContainer (taskId : string) : string := (agent_prefix ++ taskId)%string.
Definition proxyContainer : string := ("flowhelm-proxy-" ++ username)%string.
Definition channelContainer : string := ("flowhelm-channel-" ++ username)%string.
Definition serviceContainer : string := ("flowhelm-service-" ++ username)%string.
Definition networkName : string := ("flowhelm-network-" ++ username)%string.

(** [op(id).catch(() => {})] for each container, one after the other: the calls of
    [Promise.all] do not depend on each other. *)
Definition each (op : E → string → option E) (e : E) (l : list ContainerInfo) : E :=
  foldl (λ e i, default e (op e (info_id i))) e l.

Definition ensureNetwork (e : E) : option E :=
  if rt_networkExists e networkName then Some e else rt_createNetwork e networkName.

(** The containers removed, with the engine. *)
Definition cleanupOrphans (e : E) : option (E * list ContainerInfo) :=
  l ← rt_list e agent_prefix;
  let orphans := filter (λ i, info_state i ≠ Running) l in
  Some (each rt_remove e orphans, orphans).

Definition lifecycle_start (e : E) : option E :=
  e ← ensureNetwork e; fst <$> cleanupOrphans e.

Definition user_container (i : ContainerInfo) : bool :=
  starts_with agent_prefix (info_name i) || bool_decide (info_name i = proxyContainer) ||
  bool_decide (info_name i = channelContainer) || bool_decide (info_name i = serviceContainer).

Definition lifecycle_stop (e : E) : option E :=
  l ← rt_list e "flowhelm-";
  let userContainers := filter (λ i, user_container i = true) l in
  match userContainers with
  | [] => Some e
  | _ =>
      let e := each rt_stop e (filter (λ i, info_state i = Running) userContainers) in
      Some (each rt_remove e userContainers)
  end.
End Lifecycle.

(** ** What start and stop leave behind *)

Section LifecycleLaws.
Context {E : Type} `{RuntimeLaws E}.
Implicit Types (e : E).

(** [rt_remove] on a list of containers takes away none but these. *)
Lemma each_remove_keeps e l i : i ∈ rt_containers e → info_id i ∉ map info_id l →
  i ∈ rt_containers (each rt_remove e l).
Proof.
  unfold each. revert e. induction l as [|j l IH]; intros e Hi Hn; simpl in *; [done|].
  apply not_elem_of_cons in Hn as [Hne Hn]. apply IH; [|done].
  destruct (rt_remove e (info_id j)) as [e'|] eqn:Er; simpl; [|done].
  destruct (remove_law _ _ _ Er) as [_ ->]. by apply list_elem_of_filter.
Qed.

(** ... and, when none of the calls is refused, all of these. *)
Lemma each_remove_gone e l i : (∀ e id, is_Some (rt_remove e id)) →
  i ∈ rt_containers (each rt_remove e l) → i ∈ rt_containers e ∧ info_id i ∉ map info_id l.
Proof.
  intros Htot. unfold each. revert e. induction l as [|j l IH]; intros e Hi; simpl in *.
  - split; [done|apply not_elem_of_nil].
  - apply IH in Hi as [Hi Hn]. destruct (Htot e (info_id j)) as [e' Er]. rewrite Er in Hi. simpl in Hi.
    destruct (remove_law _ _ _ Er) as [_ Ee]. rewrite Ee in Hi. apply list_elem_of_filter in Hi as [? ?].
    split; [done|]. by apply not_elem_of_cons.
Qed.

Lemma each_stop_names e l i : i ∈ rt_containers (each rt_stop e l) →
  ∃ i', i' ∈ rt_containers e ∧ info_id i' = info_id i ∧ info_name i' = info_name i.
Proof.
  unfold each. revert e. induction l as [|j l IH]; intros e Hi; simpl in *; [by exists i|].
  apply IH in Hi as (i' & Hi' & Eid & En). destruct (rt_stop e (info_id j)) as [e'|] eqn:Er; simpl in Hi'.
  - destruct (stop_law _ _ _ Er) as [_ Ee]. rewrite Ee in Hi'.
    apply list_elem_of_In, in_map_iff in Hi' as (x & <- & Hx%list_elem_of_In). exists x.
    split; [done|]. rewrite <- Eid, <- En. unfold set_state. by case_decide.
  - by exists i'.
Qed.

Lemma ensureNetwork_containers username e e' :
  ensureNetwork username e = Some e' → rt_containers e' = rt_containers e.
Proof.
  unfold ensureNetwork. destruct (rt_networkExists _ _); [by intros [= <-]|].
  by intros [_ ?]%network_law.
Qed.

(** The clean-up at the start of the service removes agent containers only when they do
    not run: one that the crash of the service has left running is still there
    afterwards, and a new container of its name is refused. *)
Theorem running_orphan_blocks username e e' i cfg :
  lifecycle_start username e = Some e' → i ∈ rt_containers e → info_state i = Running →
  (∀ j, j ∈ rt_containers e → info_id j = info_id i → j = i) →
  i ∈ rt_containers e' ∧ (name cfg = info_name i → rt_create e' cfg = None).
Proof.
  intros Hstart Hi Hrun Huniq.
  assert (Hi' : i ∈ rt_containers e').
  { unfold lifecycle_start in Hstart. destruct (ensureNetwork username e) as [e1|] eqn:En; [|done].
    apply ensureNetwork_containers in En. simpl in Hstart. unfold cleanupOrphans in Hstart.
    destruct (rt_list e1 (agent_prefix username)) as [l|] eqn:El; [|done]. simpl in Hstart.
    injection Hstart as <-. apply each_remove_keeps; [by rewrite En|].
    intros Hin. apply list_elem_of_In, in_map_iff in Hin as (j & Ej & Hj%list_elem_of_In).
    apply list_elem_of_filter in Hj as [Hns Hj]. rewrite (list_law _ _ _ El), En in Hj.
    apply list_elem_of_filter in Hj as [_ Hj]. rewrite (Huniq j Hj Ej) in Hns. done. }
  split; [done|]. intros Hname. destruct (rt_create e' cfg) as [[e2 id]|] eqn:Ec; [|done].
  destruct (create_law _ _ _ _ Ec) as [Hnew _]. by destruct (Hnew i Hi').
Qed.

(** The shutdown of the service leaves none of the user's containers, when the engine
    carries out the removals, and takes away no container of another identifier. *)
Theorem lifecycle_stop_removes username e e' :
  (∀ e id, is_Some (rt_remove e id)) → lifecycle_stop username e = Some e' →
  (∀ i, i ∈ rt_containers e' → user_container username i = false) ∧
  (∀ i, i ∈ rt_containers e → info_state i ≠ Running →
    (∀ j, j ∈ rt_containers e → user_container username j = true → info_id j ≠ info_id i) →
    i ∈ rt_containers e').
Proof.
  intros Htot. unfold lifecycle_stop. destruct (rt_list e "flowhelm-") as [l|] eqn:El; [|done]. simpl.
  apply list_law in El. subst l. set (ucs := filter _ _).
  assert (Hucs : ∀ i, i ∈ ucs ↔ user_container username i = true ∧ i ∈ rt_containers e).
  { intros i. unfold ucs. rewrite !list_elem_of_filter. split; [naive_solver|].
    intros [Hu Hi]. split; [done|]. split; [|done]. apply prefix_app. revert Hu. unfold user_container.
    rewrite !orb_true_iff, !bool_decide_eq_true, prefix_app.
    intros [[[[r E1]|E1]|E1]|E1]; rewrite E1; eexists; reflexivity. }
  intros Hstop.
  assert (Ee : e' = each rt_remove (each rt_stop e (filter (λ i, info_state i = Running) ucs)) ucs).
  { destruct ucs as [|x ucs']; injection Hstop as <-; done. }
  rewrite Ee. split.
  - intros i Hi. apply (each_remove_gone _ _ _ Htot) in Hi as [Hi Hn].
    destruct (user_container username i) eqn:Eu; [|done]. destruct Hn.
    apply each_stop_names in Hi as (i' & Hi' & <- & En).
    apply list_elem_of_In, in_map, list_elem_of_In, Hucs. split; [|done].
    unfold user_container in *. by rewrite En.
  - intros i Hi Hnr Hother. apply each_remove_keeps.
    + assert (Hin : ∀ j, j ∈ filter (λ i, info_state i = Running) ucs → info_id j ≠ info_id i).
      { intros j Hj. apply list_elem_of_filter in Hj as [_ Hj]. apply Hucs in Hj as [? ?]. auto. }
      clear Ee Hstop Hucs Hother. generalize dependent (filter (λ i, info_state i = Running) ucs).
      intros l. unfold each. clear ucs. revert e Hi.
      induction l as [|j l IH]; intros e Hi Hin; simpl; [done|].
      apply IH; [|intros ? ?; apply Hin; by right].
      destruct (rt_stop e (info_id j)) as [e1|] eqn:Er; simpl; [|done].
      destruct (stop_law _ _ _ Er) as [_ ->]. replace i with (set_state (info_id j) Exited i).
      * by apply list_elem_of_In, in_map, list_elem_of_In.
      * unfold set_state. rewrite decide_False; [done|]. intros E1. by apply (Hin j (list_elem_of_here _ _)).
    + intros Hin. apply list_elem_of_In, in_map_iff in Hin as (j & Ej & Hj%list_elem_of_In).
      apply Hucs in Hj as [? ?]. by apply (Hother j).
Qed.
End LifecycleLaws.

(** ** An engine for the witnesses *)

(** Containers, identifiers given, networks, and what the next commands print. *)
Record sim_engine := Sim {
  sim_containers : list ContainerInfo;
  sim_issued : list string;
  sim_networks : list string;
  sim_script : list ExecResult }.

Definition sim_create (e : sim_engine) (c : ContainerConfig) : option (sim_engine * string) :=
  let id := ("c" ++ pretty (Z.of_nat (length (sim_issued e))))%string in
  if bool_decide (Exists (λ i, info_name i = name c) (sim_containers e) ∨ id ∈ sim_issued e) then None
  else Some (Sim (sim_containers e ++ [Info id (name c) Created]) (id :: sim_issued e)
               (sim_networks e) (sim_script e), id).

Definition sim_with (e : sim_engine) (l : list ContainerInfo) : sim_engine :=
  Sim l (sim_issued e) (sim_networks e) (sim_script e).

#[export] Instance sim_runtime : ContainerRuntime sim_engine := {
  rt_containers := sim_containers;
  rt_issued := sim_issued;
  rt_list e p := Some (filter (λ i, starts_with p (info_name i) = true) (sim_containers e));
  rt_create := sim_create;
  rt_start e id := Some (sim_with e (map (set_state id Running) (sim_containers e)));
  rt_stop e id := Some (sim_with e (map (set_state id Exited) (sim_containers e)));
  rt_remove e id := Some (sim_with e (filter (λ i, info_id i ≠ id) (sim_containers e)));
  rt_exec e id c :=
    if bool_decide (Exists (λ i, info_id i = id ∧ info_state i = Running) (sim_containers e)) then
      match sim_script e with
      | r :: rs => Some (Sim (sim_containers e) (sim_issued e) (sim_networks e) rs, r)
      | [] => Some (e, Executed "" "")
      end
    else Some (e, Executed "" "Error: no running container with that ID");
  rt_isHealthy e id :=
    bool_decide (Exists (λ i, info_id i = id ∧ info_state i = Running) (sim_containers e));
  rt_networkExists e n := bool_decide (n ∈ sim_networks e);
  rt_createNetwork e n := Some (Sim (sim_containers e) (sim_issued e) (n :: sim_networks e) (sim_script e)) }.

#[export] Instance sim_laws : RuntimeLaws sim_engine.
Proof.
  split; simpl.
  - intros e c e' id. unfold sim_create. case_bool_decide as Hc; [done|]. intros [= <- <-]. simpl.
    split; [|split; [|done]]; [|by intros ?; apply Hc; right].
    intros i Hi En. apply Hc. left. apply Exists_exists. by exists i.
  - by intros e id e' [= <-].
  - by intros e id e' [= <-].
  - by intros e id e' [= <-].
  - intros e id c e' r. case_bool_decide; [destruct (sim_script e)|]; by intros [= <- <-].
  - by intros e n e' [= <-].
  - by intros e p l [= <-].
Qed.

Lemma running_orphan_blocks_witness :
  let i := Info "c0" "flowhelm-agent-alice-0a1b" Running in
  let e := Sim [i; Info "c1" "flowhelm-agent-alice-2c3d" Exited] ["c1"; "c0"] ["flowhelm-network-alice"] [] in
  let cfg := Config "flowhelm-agent-alice-0a1b" "agent" "512m" "1.0" 256 false [] [] [] None "" [] None None None in
  let e' := Sim [i] ["c1"; "c0"] ["flowhelm-network-alice"] [] in
  lifecycle_start "alice" e = Some e' ∧ i ∈ rt_containers e' ∧
  (name cfg = info_name i → rt_create e' cfg = None).
Proof.
  intros i e cfg e'. assert (Hs : lifecycle_start "alice" e = Some e') by (vm_compute; reflexivity).
  split; [exact Hs|]. apply (running_orphan_blocks "alice" e e' i cfg Hs).
  - left.
  - reflexivity.
  - intros j Hj. simpl in Hj. apply elem_of_cons in Hj as [Ej|Hj].
    { by rewrite Ej. }
    apply list_elem_of_singleton in Hj. rewrite Hj. intros E. discriminate E.
Defined.

Lemma lifecycle_stop_removes_witness :
  let e := Sim [Info "c0" "flowhelm-agent-alice-0a1b" Running; Info "c1" "flowhelm-proxy-bob" Exited]
             ["c1"; "c0"] [] [] in
  let e' := Sim [Info "c1" "flowhelm-proxy-bob" Exited] ["c1"; "c0"] [] [] in
  lifecycle_stop "alice" e = Some e' ∧
  (∀ i, i ∈ rt_containers e' → user_container "alice" i = false) ∧
  (∀ i, i ∈ rt_containers e → info_state i ≠ Running →
    (∀ j, j ∈ rt_containers e → user_container "alice" j = true → info_id j ≠ info_id i) →
    i ∈ rt_containers e').
Proof.
  intros e e'. assert (Hs : lifecycle_stop "alice" e = Some e') by (vm_compute; reflexivity).
  split; [exact Hs|]. apply (lifecycle_stop_removes "alice" e e'); [|exact Hs].
  intros e1 id. by eexists.
Defined.
