(* ===== verification/AgentPool.v ===== *)
(** * Warm containers of the agents

    [src/agent/warm-container-runtime.ts]: one container per chat that stays alive
    between messages, its creation from the saved session, the execution of a task
    in it, the backup after each message, the idle timers, and the shutdown.  The
    methods of one runtime run concurrently over its maps, its container objects,
    the engine, the session table and the files of the host; each [await] is a
    point where they interleave.  [buildCommand] and [parseExecResult] are the
    abstract methods of the source ([AgentCli.v] has both runtimes' versions).

    Left out of [createWarmContainer]: the copying of skills and of the host's
    credentials into directories of the chat, and the log lines. *)

From Stdlib Require Import Ascii.
From stdpp Require Import gmap pretty.
From S2P Require Import Prelude JsMap JsString ProxyRules HostFs AgentCli AgentSessions Threads Containers.
Local Open Scope fh_scope.
Local Open Scope string_scope.
Local Open Scope list_scope.

(** ** State *)

Record WarmContainer := Warm {
  containerId : string;
  containerName : string;
  chatId : string;
  sessionId : option string;
  createdAt : Z;
  lastActivityAt : Z;
  messageCount : Z;
  sessionDir : path;
  ipcDir : path }.

(** The configuration, the environment of the process, and the options. *)
Record pool_config := PoolConfig {
  dataDir : path;
  agent_image : string;
  agent_memoryLimit : string;
  agent_cpuLimit : string;
  agent_pidsLimit : Z;
  agent_idleTimeout : Z;
  agent_credentialMethod : option credential_method;
  caCertPath : option string;
  proxyUrl : string;
  isMacOS : bool;
  process_oauth : option string;
  process_api_key : option string }.

(** What an observer of the engine sees of the pool. *)
Inductive pool_event :=
| ContainerCreated (id : string) (chat : string) (cfg : ContainerConfig)
| TaskStarted (chat : string) (id : string) (cmd : list string)
| TaskEnded (chat : string) (id : string)
| ContainerStopped (id : string).

(** [heap] holds the [WarmContainer] objects, shared by reference; [timers] are the
    armed timers with the chat and the time they fire at; [pending] counts what the
    [Promise.all] of a shutdown still waits for. *)
Record pool (E : Type) := Pool {
  engine : E;
  db : session_db;
  host : hostfs;
  heap : list WarmContainer;
  warmContainers : jsmap nat;
  idleTimers : jsmap nat;
  timers : gmap nat (string * Z);
  next_timer : nat;
  pending : list nat;
  trace : list pool_event }.
Arguments Pool {E}.
Arguments engine {E}.
Arguments db {E}.
Arguments host {E}.
Arguments heap {E}.
Arguments warmContainers {E}.
Arguments idleTimers {E}.
Arguments timers {E}.
Arguments next_timer {E}.
Arguments pending {E}.
Arguments trace {E}.

Section Setters.
Context {E : Type}.
Implicit Types (s : pool E).

Definition with_engine s (e : E) : pool E :=
  Pool e (db s) (host s) (heap s) (warmContainers s) (idleTimers s) (timers s) (next_timer s)
    (pending s) (trace s).
Definition with_db s d : pool E :=
  Pool (engine s) d (host s) (heap s) (warmContainers s) (idleTimers s) (timers s) (next_timer s)
    (pending s) (trace s).
Definition with_host s h : pool E :=
  Pool (engine s) (db s) h (heap s) (warmContainers s) (idleTimers s) (timers s) (next_timer s)
    (pending s) (trace s).
Definition with_heap s h : pool E :=
  Pool (engine s) (db s) (host s) h (warmContainers s) (idleTimers s) (timers s) (next_timer s)
    (pending s) (trace s).
Definition with_warm s w : pool E :=
  Pool (engine s) (db s) (host s) (heap s) w (idleTimers s) (timers s) (next_timer s)
    (pending s) (trace s).
Definition with_timers s it tm n : pool E :=
  Pool (engine s) (db s) (host s) (heap s) (warmContainers s) it tm n (pending s) (trace s).
Definition with_pending s p : pool E :=
  Pool (engine s) (db s) (host s) (heap s) (warmContainers s) (idleTimers s) (timers s)
    (next_timer s) p (trace s).
Definition log s ev : pool E :=
  Pool (engine s) (db s) (host s) (heap s) (warmContainers s) (idleTimers s) (timers s)
    (next_timer s) (pending s) (trace s ++ [ev]).

(** ** Idle timers *)

Definition clearIdleTimer s (chat : string) : pool E :=
  match map_get (idleTimers s) chat with
  | Some timer => with_timers s (map_delete (idleTimers s) chat) (base.delete timer (timers s)) (next_timer s)
  | None => s
  end.

Definition resetIdleTimer (idleTimeout : Z) s (now : Z) (chat : string) : pool E :=
  let s := clearIdleTimer s chat in
  let timer := next_timer s in
  with_timers s (map_set (idleTimers s) chat timer)
    (<[timer := (chat, now + idleTimeout)%Z]> (timers s)) (S timer).
End Setters.

(** ** The container of a chat *)

Section Config.
Context (cfg : pool_config) (hashChatId : string → string).

(** The text of a path of the host. *)
Definition host_path (p : path) : string := ("/" ++ rel_path p)%string.

Definition container_name (task : AgentTask) : string :=
  ("flowhelm-agent-" ++ task_username task ++ "-" ++ hashChatId (task_chatId task))%string.

Definition chat_dir (kind : string) (chat : string) : path := dataDir cfg ++ [kind; hashChatId chat].
Definition session_dir (chat : string) : path := chat_dir "sessions" chat.
Definition ipc_dir : path := dataDir cfg ++ ["ipc"].
Definition config_dir (chat : string) : path := chat_dir "agent-config" chat.
Definition skills_dir (chat : string) : path := chat_dir "skills-sync" chat.
Definition downloads_dir : path := dataDir cfg ++ ["downloads"].

(** [chatId.replace(/[^a-zA-Z0-9_-]/g, '_')] *)
Definition sanitize (s : string) : string :=
  String.string_of_list_ascii (map (λ c,
    if bool_decide (c ∈ String.list_ascii_of_string
         "abcdefghijklmnopqrstuvwxyzABCDEFGHIJKLMNOPQRSTUVWXYZ0123456789_-")
    then c else "_"%char) (String.list_ascii_of_string s)).

Definition mcp_config (task : AgentTask) : McpServerConfig :=
  match task_mcpPort task with
  | Some p => if isMacOS cfg && negb (p =? 0)%Z
              then generateMcpConfig (Some (McpOptions "" None (Some "host.containers.internal") (Some p)))
              else generateMcpConfig (Some (McpOptions
                     ("/workspace/ipc/" ++ sanitize (task_chatId task) ++ "-memory.sock")%string None None None))
  | None => generateMcpConfig (Some (McpOptions
              ("/workspace/ipc/" ++ sanitize (task_chatId task) ++ "-memory.sock")%string None None None))
  end.

Definition has_ca : bool := opt_truthy (caCertPath cfg).

Definition CA_TARGET : string := "/usr/local/share/ca-certificates/flowhelm-proxy-ca.crt".

(** [{ ...m, ...n }] *)
Definition spread {A} (m n : jsmap A) : jsmap A := fold_left (λ m e, map_set m e.1 e.2) n m.

Definition real_credentials : jsmap string :=
  (if opt_truthy (process_oauth cfg) then [("CLAUDE_CODE_OAUTH_TOKEN", default "" (process_oauth cfg))]
   else []) ++
  (if opt_truthy (process_api_key cfg) then [("ANTHROPIC_API_KEY", default "" (process_api_key cfg))]
   else []).

Definition agent_env (task : AgentTask) : jsmap string :=
  spread (spread (spread
    [("HTTPS_PROXY", proxyUrl cfg); ("HTTP_PROXY", proxyUrl cfg); ("NO_PROXY", "localhost,127.0.0.1");
     ("HOME", "/home/flowhelm")]
    (if has_ca then [("NODE_EXTRA_CA_CERTS", CA_TARGET)] else []))
    (if has_ca
     then getPlaceholderEnv (agent_credentialMethod cfg) (opt_truthy (process_oauth cfg))
            (opt_truthy (process_api_key cfg))
     else real_credentials))
    (task_env task).

Definition bind_mount (p target : string) (ro : bool) : MountConfig := Mount p target ro (Some "Z") None.

Definition agent_mounts (chat : string) : list MountConfig :=
  [bind_mount (host_path (session_dir chat)) "/home/flowhelm/.claude-host" false] ++
  (if isMacOS cfg then [] else [bind_mount (host_path ipc_dir) "/workspace/ipc" false]) ++
  [bind_mount (host_path (config_dir chat)) "/workspace/config" true;
   bind_mount (host_path (skills_dir chat)) "/workspace/.claude/skills" true;
   bind_mount (host_path downloads_dir) "/workspace/downloads" true] ++
  (if has_ca then [bind_mount (default "" (caCertPath cfg)) CA_TARGET true] else []).

Definition agent_container (task : AgentTask) : ContainerConfig :=
  Config (container_name task) (agent_image cfg) (agent_memoryLimit cfg) (agent_cpuLimit cfg)
    (agent_pidsLimit cfg) false (agent_mounts (task_chatId task)) [Tmpfs "/tmp" "100m" None]
    (agent_env task) None ("flowhelm-network-" ++ task_username task)%string ["no-new-privileges"]
    (Some "keep-id:uid=1000,gid=1000") (Some "/workspace") (Some ["sleep"; "infinity"]).
End Config.

(** The command that copies the session files into the container. *)
Definition copy_session : list string := ["sh"; "-c";
  ("mkdir -p /home/flowhelm/.claude" ++
   " && cp -a /home/flowhelm/.claude-host/. /home/flowhelm/.claude/ 2>/dev/null" ++
   " && if [ -f /home/flowhelm/.claude/__claude.json ]; then" ++
   "   cp /home/flowhelm/.claude/__claude.json /home/flowhelm/.claude.json;" ++
   "   rm /home/flowhelm/.claude/__claude.json;" ++ " fi" ++
   " && chown -R flowhelm:flowhelm /home/flowhelm/.claude /home/flowhelm/.claude.json 2>/dev/null" ++
   "; true")%string].

(** ** The methods *)

Inductive tag :=
| ForTask (chat : string)
| Backup
| Idle (chat : string)
| Stopping
| ShuttingDown.

#[export] Instance tag_eq_dec : EqDecision tag.
Proof. solve_decision. Defined.

Section Pool.
Context {E R : Type} `{ContainerRuntime E}.
Context (cfg : pool_config) (opts : SessionManagerOptions).
Context (jsonb : jsmap string → jsmap string) (hashChatId : string → string).
Context (mcp_json : McpServerConfig → string).
Context (buildCommand : AgentTask → WarmContainer → list string).
Context (parseExecResult : string → string → result (R * string)).

Abbreviation async := (prog (pool E) tag).

Definition get_container (ref : nat) : async WarmContainer :=
  call (λ _ s, c ← heap s !! ref; Some (s, c)).

(** A call of the engine. *)
Definition on_engine {A} (f : E → option (E * A)) : async A :=
  call (λ _ s, match f (engine s) with Some (e, a) => Some (with_engine s e, a) | None => None end).

Definition on_engine_ (f : E → option E) : async unit :=
  on_engine (λ e, match f e with Some e => Some (e, tt) | None => None end).

Definition exec (id : string) (cmd : list string) : async ExecResult := on_engine (λ e, rt_exec e id cmd).

Definition stop_container (id : string) : async unit :=
  call (λ _ s, match rt_stop (engine s) id with
               | Some e => Some (log (with_engine s e) (ContainerStopped id), tt)
               | None => None
               end).

(** *** Session backup *)

Definition claudeDir : string := "/home/flowhelm/.claude".

Fixpoint read_files (id : string) (paths : list string) (acc : jsmap string) : async (jsmap string) :=
  match paths with
  | [] => Ret acc
  | absPath :: paths =>
      let relativePath := str_drop (String.length claudeDir + 1) absPath in
      if str_truthy relativePath then
        await acc := catch (await r := exec id ["cat"; absPath] in Ret (map_set acc relativePath (stdout r)))
                           (Ret acc) in
        read_files id paths acc
      else read_files id paths acc
  end.

Definition readSessionFilesFromContainer (id : string) : async (jsmap string) :=
  await l := exec id ["find"; (claudeDir ++ "/projects")%string; "-type"; "f"] in
  await sfiles := read_files id (filter (λ f, str_truthy f = true) (str_split "010"%char (trim (stdout l)))) [] in
  catch (await r := exec id ["cat"; "/home/flowhelm/.claude.json"] in
         Ret (if str_truthy (trim (stdout r)) then map_set sfiles "__claude.json" (stdout r) else sfiles))
        (Ret sfiles).

Definition save_files (chat : string) (ref : nat) (session : string) (sfiles : jsmap string) : async unit :=
  call (λ t s, c ← heap s !! ref;
        match saveSession opts jsonb (db s) t chat session sfiles None (Some (messageCount c)) with
        | Ok d => Some (with_db s d, tt)
        | Err _ => None
        end).

Definition asyncBackupSession (chat : string) (ref : nat) (id session : string) : async unit :=
  if str_truthy session then
    catch (await sfiles := readSessionFilesFromContainer id in
           match sfiles with
           | [] => Ret tt
           | _ => save_files chat ref session sfiles
           end) (Ret tt)
  else Ret tt.

(** *** Creation *)

Definition host_op (f : hostfs → result hostfs) : async unit :=
  call (λ _ s, match f (host s) with Ok h => Some (with_host s h, tt) | Err _ => None end).

Definition restore_session (chat : string) : async (option AgentSession) :=
  Step (λ t s, match restoreToFilesystem (db s) t (host s) chat (session_dir cfg hashChatId chat) with
               | (h, Ok r) => (with_host s h, [], Ret r)
               | (h, Err _) => (with_host s h, [], Throw)
               end).

Definition create_container (task : AgentTask) : async string :=
  call (λ _ s, match rt_create (engine s) (agent_container cfg hashChatId task) with
               | Some (e, id) =>
                   Some (log (with_engine s e)
                           (ContainerCreated id (task_chatId task) (agent_container cfg hashChatId task)), id)
               | None => None
               end).

(** The object of a new container, its entry and its timer. *)
Definition enter_container (task : AgentTask) (id : string) (restored : option AgentSession) : async nat :=
  update (λ t s,
    let c := Warm id (container_name hashChatId task) (task_chatId task)
               (AgentSessions.sessionId <$> restored) t t 0
               (session_dir cfg hashChatId (task_chatId task)) (ipc_dir cfg) in
    let ref := length (heap s) in
    (resetIdleTimer (agent_idleTimeout cfg)
       (with_warm (with_heap s (heap s ++ [c])) (map_set (warmContainers s) (task_chatId task) ref))
       t (task_chatId task), ref)).

Definition createWarmContainer (task : AgentTask) : async nat :=
  let chat := task_chatId task in
  let network := ("flowhelm-network-" ++ task_username task)%string in
  await _ := host_op (λ h, mkdir_p h (session_dir cfg hashChatId chat)) in
  await _ := host_op (λ h, mkdir_p h (ipc_dir cfg)) in
  await _ := host_op (λ h, mkdir_p h (config_dir cfg hashChatId chat)) in
  await _ := host_op (λ h, mkdir_p h (skills_dir cfg hashChatId chat)) in
  await _ := host_op (λ h, mkdir_p h (downloads_dir cfg)) in
  await _ := host_op (λ h, writeFile h (config_dir cfg hashChatId chat ++ ["mcp-config.json"])
                             (mcp_json (mcp_config cfg task))) in
  await restored := restore_session chat in
  await networkExists := update (λ _ s, (s, rt_networkExists (engine s) network)) in
  await _ := (if networkExists then Ret tt else on_engine_ (λ e, rt_createNetwork e network)) in
  await id := create_container task in
  await _ := on_engine_ (λ e, rt_start e id) in
  await _ := exec id copy_session in
  await _ := (if has_ca cfg
              then catch (await _ := exec id ["sh"; "-c"; "update-ca-certificates 2>/dev/null; true"] in Ret tt)
                         (Ret tt)
              else Ret tt) in
  enter_container task id restored.

Definition getOrCreateContainer (task : AgentTask) : async nat :=
  let chat := task_chatId task in
  await existing := update (λ _ s, (s, map_get (warmContainers s) chat)) in
  match existing with
  | Some ref =>
      await c := get_container ref in
      await healthy := update (λ _ s, (s, rt_isHealthy (engine s) (containerId c))) in
      if healthy then Ret ref
      else
        await _ := update (λ _ s, (clearIdleTimer (with_warm s (map_delete (warmContainers s) chat)) chat, tt)) in
        createWarmContainer task
  | None => createWarmContainer task
  end.

(** *** Execution *)

(** A command takes two steps: it is started, and later it ends. *)
Definition start_command (task : AgentTask) (ref : nat) (fresh : bool) :
    async (string * list string) :=
  call (λ _ s, c ← heap s !! ref;
        let c := if fresh then Warm (containerId c) (containerName c) (chatId c) None (createdAt c)
                                 (lastActivityAt c) (messageCount c) (sessionDir c) (ipcDir c) else c in
        let cmd := buildCommand task c in
        Some (log (with_heap s (<[ref := c]> (heap s))) (TaskStarted (task_chatId task) (containerId c) cmd),
              (containerId c, cmd))).

Definition run_command (task : AgentTask) (ref : nat) (fresh : bool) : async ExecResult :=
  await x := start_command task ref fresh in
  call (λ _ s, match rt_exec (engine s) x.1 x.2 with
               | Some (e, r) => Some (log (with_engine s e) (TaskEnded (task_chatId task) x.1), r)
               | None => None
               end).

Definition resume_failed (r : ExecResult) : bool :=
  negb (str_truthy (trim (stdout r))) && includes "No conversation found" (stderr r).

(** The container object after a message. *)
Definition after_message (session : string) (now : Z) (c : WarmContainer) : WarmContainer :=
  Warm (containerId c) (containerName c) (chatId c)
    (if str_truthy session then Some session else sessionId c) (createdAt c) now
    (messageCount c + 1) (sessionDir c) (ipcDir c).

Definition finish_task (chat : string) (ref : nat) (session : string) : async unit :=
  Step (λ t s, match heap s !! ref with
    | Some c => (resetIdleTimer (agent_idleTimeout cfg)
                   (with_heap s (<[ref := after_message session t c]> (heap s))) t chat,
                 (if str_truthy session
                  then [(Backup, asyncBackupSession chat ref (containerId c) session)] else []),
                 Ret tt)
    | None => (s, [], Throw)
    end).

Definition execute (task : AgentTask) : async R :=
  await ref := getOrCreateContainer task in
  await r := run_command task ref false in
  await r := (if resume_failed r then run_command task ref true else Ret r) in
  match parseExecResult (stdout r) (stderr r) with
  | Err _ => Throw
  | Ok (res, session) => await _ := finish_task (task_chatId task) ref session in Ret res
  end.

(** *** Idle timeout and shutdown *)

Definition stop_and_remove (chat : string) (ref : nat) (id session : string) : async unit :=
  catch (await _ := asyncBackupSession chat ref id session in
         await _ := stop_container id in
         on_engine_ (λ e, rt_remove e id)) (Ret tt).

Definition handleIdleTimeout (chat : string) : async unit :=
  await existing := update (λ _ s, (s, map_get (warmContainers s) chat)) in
  match existing with
  | None => Ret tt
  | Some ref =>
      await c := get_container ref in
      await _ := stop_and_remove chat ref (containerId c) (default "" (sessionId c)) in
      update (λ _ s, (with_timers (with_warm s (map_delete (warmContainers s) chat))
                        (map_delete (idleTimers s) chat) (timers s) (next_timer s), tt))
  end.

(** One of the promises a shutdown waits for; [k] is the shutdown's counter. *)
Definition stop_one (k : nat) (chat : string) (ref : nat) (id session : string) : async unit :=
  await _ := stop_and_remove chat ref id session in
  update (λ _ s, (with_pending s (alter pred k (pending s)), tt)).

Definition stop_promises (k : nat) (h : list WarmContainer) (entries : jsmap nat) : list (tag * async unit) :=
  omap (λ e : string * nat, c ← h !! e.2;
    Some (Stopping, stop_one k e.1 e.2 (containerId c) (default "" (sessionId c)))) entries.

Definition shutdown : async unit :=
  await k := Step (λ _ s,
    let k := length (pending s) in
    let promises := stop_promises k (heap s) (warmContainers s) in
    (with_pending (with_timers s [] (foldr base.delete (timers s) (map snd (idleTimers s))) (next_timer s))
       (pending s ++ [length promises]), promises, Ret k)) in
  await _ := Wait (λ s, bool_decide (pending s !! k = Some 0)) (Ret tt) in
  update (λ _ s, (with_warm s [], tt)).

(** ** The runtime *)

Inductive pool_op :=
| Execute (task : AgentTask)
| Shutdown
| Fire (timer : nat) (now : Z)
| Advance (i : nat) (now : Z).

Abbreviation runtime := (system (pool E) tag R).

Definition pool_step (sys : runtime) (op : pool_op) : runtime :=
  match op with
  | Execute task => launch (ForTask (task_chatId task)) (await r := execute task in Ret (Some r)) sys
  | Shutdown => launch ShuttingDown (await _ := shutdown in Ret None) sys
  | Fire timer now =>
      let s := shared sys in
      match timers s !! timer with
      | Some (chat, due) =>
          if (due <=? now)%Z then
            launch (Idle chat) (await _ := handleIdleTimeout chat in Ret None)
              (System (with_timers s (idleTimers s) (base.delete timer (timers s)) (next_timer s)) (threads sys))
          else sys
      | None => sys
      end
  | Advance i now => advance i now sys
  end.

Definition run (sys : runtime) (ops : list pool_op) : runtime := fold_left pool_step ops sys.

Definition init (e : E) (d : session_db) (h : hostfs) : runtime :=
  System (Pool e d h [] [] [] ∅ 0 [] []) [].
End Pool.
