(* ===== verification/PoolInvariant.v ===== *)
(** * The invariant of the warm containers

    What every method of [AgentPool.v] keeps, whatever the others do between its
    steps: entries and objects belong to their chat, identifiers are given once,
    containers the pool has not created are left alone, and timers belong to the
    chat they are kept for. *)

From Stdlib Require Import Ascii.
From stdpp Require Import gmap pretty.
From S2P Require Import Prelude JsMap JsString ProxyRules HostFs AgentCli AgentSessions Threads Containers AgentPool.
Local Open Scope fh_scope.
Local Open Scope string_scope.
Local Open Scope list_scope.

(** ** The invariant of the pool *)

Definition created_ids (tr : list pool_event) : list string :=
  omap (λ ev, match ev with ContainerCreated id _ _ => Some id | _ => None end) tr.

(** An event that says nothing about who uses a container. *)
Definition neutral (ev : pool_event) : Prop :=
  match ev with TaskEnded _ _ | ContainerStopped _ => True | _ => False end.

(** The chat's idle timer is armed. *)
Definition armed {E} (s : pool E) (chat : string) : Prop :=
  ∃ timer due, map_get (idleTimers s) chat = Some timer ∧ timers s !! timer = Some (chat, due).

Section Invariant.
Context {E : Type} `{RuntimeLaws E}.
Context (cfg : pool_config) (hashChatId : string → string).
(** All tasks are those of one user; [stale] are containers that the pool has not
    created, by identifier and name. *)
Context (user : string) (stale : list (string * string)).

(** The container of [id] was created for a task of this chat. *)
Definition created_for (tr : list pool_event) (chat id : string) : Prop :=
  ∃ task, task_chatId task = chat ∧ task_username task = user ∧
    ContainerCreated id chat (agent_container cfg hashChatId task) ∈ tr ∧
    ∀ x, x ∈ stale → x.2 ≠ container_name hashChatId task.

Record pool_inv (s : pool E) : Prop := {
  inv_warm : ∀ chat ref, map_get (warmContainers s) chat = Some ref →
    ∃ c, heap s !! ref = Some c ∧ chatId c = chat;
  inv_warm_wf : map_wf (warmContainers s);
  inv_heap : ∀ ref c, heap s !! ref = Some c → created_for (trace s) (chatId c) (containerId c);
  inv_started : ∀ chat id cmd, TaskStarted chat id cmd ∈ trace s → created_for (trace s) chat id;
  inv_nodup : NoDup (created_ids (trace s));
  inv_issued : ∀ id, id ∈ created_ids (trace s) → id ∈ rt_issued (engine s);
  inv_stale : ∀ x, x ∈ stale → x.1 ∈ rt_issued (engine s) ∧ x.1 ∉ created_ids (trace s) ∧
    ∃ i, i ∈ rt_containers (engine s) ∧ info_id i = x.1 ∧ info_name i = x.2;
  inv_idle : ∀ chat timer, map_get (idleTimers s) chat = Some timer →
    timer < next_timer s ∧ ∀ x, timers s !! timer = Some x → x.1 = chat;
  inv_idle_wf : map_wf (idleTimers s) }.

(** Objects keep their identity and events are never forgotten. *)
Definition pool_le (s s' : pool E) : Prop :=
  (∀ ref c, heap s !! ref = Some c →
     ∃ c', heap s' !! ref = Some c' ∧ containerId c' = containerId c ∧ chatId c' = chatId c) ∧
  (∀ ev, ev ∈ trace s → ev ∈ trace s').

(** A chat with a container keeps its timer, or gets one with its container. *)
Definition keeps_watch (s s' : pool E) : Prop :=
  ∀ chat, is_Some (map_get (warmContainers s') chat) →
    armed s' chat ∨ is_Some (map_get (warmContainers s) chat) ∧ (armed s chat → armed s' chat).

Definition pool_guar (tg : tag) (s s' : pool E) : Prop :=
  pool_le s s' ∧ (tg ≠ ShuttingDown → keeps_watch s s').

(** What holds when a method ends. *)
Definition pool_post (tg : tag) (s : pool E) : Prop :=
  match tg with
  | Idle chat => map_get (warmContainers s) chat = None
  | ShuttingDown => warmContainers s = []
  | _ => True
  end.

Lemma pool_le_refl s : pool_le s s.
Proof. split; [|done]. intros ref c Hc. by exists c. Qed.

Lemma pool_le_trans s1 s2 s3 : pool_le s1 s2 → pool_le s2 s3 → pool_le s1 s3.
Proof.
  intros [H1 T1] [H2 T2]. split; [|by auto]. intros ref c Hc.
  destruct (H1 ref c Hc) as (c2 & Hc2 & E1 & E2), (H2 ref c2 Hc2) as (c3 & Hc3 & E3 & E4).
  exists c3. by rewrite E3, E4.
Qed.

Lemma pool_guar_le tg s s' : pool_guar tg s s' → pool_le s s'.
Proof. by intros []. Qed.

Lemma keeps_watch_refl s : keeps_watch s s.
Proof. intros chat Hw. by right. Qed.

Lemma pool_guar_refl tg s : pool_guar tg s s.
Proof. split; [apply pool_le_refl|intros _; apply keeps_watch_refl]. Qed.

Lemma created_for_mono tr tr' chat id :
  (∀ ev, ev ∈ tr → ev ∈ tr') → created_for tr chat id → created_for tr' chat id.
Proof. intros Hs (task & ? & ? & ? & ?). exists task. auto. Qed.

Lemma created_ids_app tr tr' : created_ids (tr ++ tr') = created_ids tr ++ created_ids tr'.
Proof. apply omap_app. Qed.

Lemma created_ids_neutral l : Forall neutral l → created_ids l = [].
Proof.
  unfold created_ids. induction 1 as [|ev l Hev _ IH]; [done|]. simpl. by destruct ev.
Qed.

Lemma created_for_id tr chat id : created_for tr chat id → id ∈ created_ids tr.
Proof.
  intros (task & _ & _ & Hin & _). apply list_elem_of_omap.
  by exists (ContainerCreated id chat (agent_container cfg hashChatId task)).
Qed.

(** ** Steps that leave the maps alone *)

(** The containers that are not the pool's are still there. *)
Definition keeps_others (s : pool E) (e : E) : Prop :=
  rt_issued e = rt_issued (engine s) ∧
  ∀ i, i ∈ rt_containers (engine s) → info_id i ∉ created_ids (trace s) →
    ∃ i', i' ∈ rt_containers e ∧ info_id i' = info_id i ∧ info_name i' = info_name i.

Definition same_core (s s' : pool E) : Prop :=
  heap s' = heap s ∧ warmContainers s' = warmContainers s ∧ idleTimers s' = idleTimers s ∧
  timers s' = timers s ∧ next_timer s' = next_timer s ∧
  (∃ l, trace s' = trace s ++ l ∧ Forall neutral l) ∧ keeps_others s (engine s').

Lemma same_core_ok tg s s' : same_core s s' → pool_inv s → pool_inv s' ∧ pool_guar tg s s'.
Proof.
  intros (Eh & Ew & Ei & Et & En & (l & Etr & Hl) & Eis & Hk) HI.
  assert (Hin : ∀ ev, ev ∈ trace s → ev ∈ trace s') by (intros ev ?; rewrite Etr; apply elem_of_app; auto).
  assert (Eid : created_ids (trace s') = created_ids (trace s)).
  { by rewrite Etr, created_ids_app, (created_ids_neutral l Hl), app_nil_r. }
  split.
  - split; rewrite ?Eh, ?Ew, ?Ei, ?Et, ?En, ?Eid, ?Eis; try apply HI.
    + intros ref c Hc. eapply created_for_mono; [exact Hin|]. by eapply HI.
    + intros chat id cmd Hs. eapply created_for_mono; [exact Hin|]. rewrite Etr in Hs.
      apply elem_of_app in Hs as [Hs|Hs]; [by eapply HI|].
      rewrite Forall_forall in Hl. by destruct (Hl _ Hs).
    + intros x Hx. destruct (inv_stale s HI x Hx) as (? & Hn & i & Hi & E1 & E2).
      split; [done|]. split; [done|]. destruct (Hk i Hi) as (i' & Hi' & E3 & E4); [by rewrite E1|].
      exists i'. by rewrite E3, E4.
  - split; [split; [|done]|].
    + intros ref c Hc. exists c. by rewrite Eh.
    + intros _ chat. unfold armed. rewrite Ew, Ei, Et. auto.
Qed.

Lemma keeps_others_same s e : rt_issued e = rt_issued (engine s) →
  rt_containers e = rt_containers (engine s) → keeps_others s e.
Proof. intros E1 E2. split; [done|]. intros i Hi _. exists i. by rewrite E2. Qed.

Lemma keeps_others_state s e id st : rt_issued e = rt_issued (engine s) →
  rt_containers e = map (set_state id st) (rt_containers (engine s)) → keeps_others s e.
Proof.
  intros E1 E2. split; [done|]. intros i Hi _. exists (set_state id st i). rewrite E2. split.
  - by apply list_elem_of_In, in_map, list_elem_of_In.
  - unfold set_state. by case_decide.
Qed.

Lemma keeps_others_remove s e id : rt_issued e = rt_issued (engine s) → id ∈ created_ids (trace s) →
  rt_containers e = filter (λ i, info_id i ≠ id) (rt_containers (engine s)) → keeps_others s e.
Proof.
  intros E1 Hid E2. split; [done|]. intros i Hi Hn. exists i. rewrite E2. split; [|done].
  apply list_elem_of_filter. split; [|done]. intros Ei. by rewrite Ei in Hn.
Qed.

Lemma same_core_engine s e : keeps_others s e → same_core s (with_engine s e).
Proof. intros Hk. repeat (split; [done|]). split; [|done]. exists []. by rewrite app_nil_r. Qed.

Lemma same_core_log s s' ev : same_core s s' → neutral ev → same_core s (log s' ev).
Proof.
  intros (? & ? & ? & ? & ? & (l & Etr & Hl) & ?) Hev. repeat (split; [done|]). split; [|done].
  exists (l ++ [ev]). simpl. rewrite Etr, app_assoc. split; [done|]. apply Forall_app. auto.
Qed.

Lemma same_core_other s s' : heap s' = heap s → warmContainers s' = warmContainers s →
  idleTimers s' = idleTimers s → timers s' = timers s → next_timer s' = next_timer s →
  trace s' = trace s → engine s' = engine s → same_core s s'.
Proof.
  intros ? ? ? ? ? Etr Ee. repeat (split; [done|]). split.
  - exists []. by rewrite app_nil_r.
  - rewrite Ee. by apply keeps_others_same.
Qed.
(** ** Idle timers *)

Definition idle_ok (s : pool E) : Prop :=
  map_wf (idleTimers s) ∧
  ∀ chat timer, map_get (idleTimers s) chat = Some timer →
    timer < next_timer s ∧ ∀ x, timers s !! timer = Some x → x.1 = chat.

Lemma idle_ok_clear s chat : idle_ok s → idle_ok (clearIdleTimer s chat).
Proof.
  intros [Hwf Hi]. unfold clearIdleTimer. destruct (map_get (idleTimers s) chat) as [tm|] eqn:Eg; [|done].
  split; simpl; [auto with fh|]. intros chat' tm'. rewrite map_get_delete by done.
  case_decide; [done|]. intros H'. destruct (Hi _ _ H') as [? Hx]. split; [done|].
  intros x [_ Hl]%lookup_delete_Some. auto.
Qed.

Lemma clear_get s chat : idle_ok s → map_get (idleTimers (clearIdleTimer s chat)) chat = None.
Proof.
  intros [Hwf _]. unfold clearIdleTimer. destruct (map_get (idleTimers s) chat) eqn:Eg; simpl; [|done].
  rewrite map_get_delete by done. by rewrite decide_True.
Qed.

Lemma armed_clear s chat chat' : idle_ok s → chat ≠ chat' → armed s chat' → armed (clearIdleTimer s chat) chat'.
Proof.
  intros [Hwf Hi] Hne (tm & due & Hg & Ht). unfold clearIdleTimer.
  destruct (map_get (idleTimers s) chat) as [tm'|] eqn:Eg; [|by exists tm, due].
  exists tm, due. simpl. rewrite map_get_delete, decide_False by done. split; [done|].
  rewrite lookup_delete_ne; [done|]. intros ->. by destruct (Hi _ _ Eg) as [_ Hx], (Hx _ Ht).
Qed.

Lemma reset_fields idle (s : pool E) now chat :
  let s' := resetIdleTimer idle s now chat in
  heap s' = heap s ∧ warmContainers s' = warmContainers s ∧ trace s' = trace s ∧ engine s' = engine s.
Proof. unfold resetIdleTimer, clearIdleTimer. by destruct (map_get (idleTimers s) chat). Qed.

Lemma clear_fields (s : pool E) chat :
  let s' := clearIdleTimer s chat in
  heap s' = heap s ∧ warmContainers s' = warmContainers s ∧ trace s' = trace s ∧ engine s' = engine s ∧
  next_timer s' = next_timer s.
Proof. unfold clearIdleTimer. by destruct (map_get (idleTimers s) chat). Qed.

Lemma idle_ok_reset idle s now chat : idle_ok s → idle_ok (resetIdleTimer idle s now chat).
Proof.
  intros Hok. pose proof (idle_ok_clear s chat Hok) as [Hwf Hi]. unfold resetIdleTimer.
  split; simpl; [auto with fh|]. intros chat' tm. rewrite map_get_set. case_decide as Hc.
  - intros [= <-]. split; [lia|]. intros x. rewrite lookup_insert_eq. intros [= <-]. done.
  - intros Hg. destruct (Hi _ _ Hg) as [Hlt Hx]. split; [lia|]. intros x.
    rewrite lookup_insert_ne by lia. auto.
Qed.

Lemma armed_reset idle s now chat chat' : idle_ok s → chat' = chat ∨ armed s chat' →
  armed (resetIdleTimer idle s now chat) chat'.
Proof.
  intros Hok Hor. unfold resetIdleTimer, armed. simpl.
  destruct (decide (chat = chat')) as [->|Hne].
  - exists (next_timer (clearIdleTimer s chat')), (now + idle)%Z.
    by rewrite map_get_set_eq, lookup_insert_eq.
  - destruct Hor as [?|Ha]; [congruence|]. apply (armed_clear s chat chat' Hok Hne) in Ha.
    destruct Ha as (tm & due & Hg & Ht). exists tm, due. rewrite map_get_set_ne by done.
    split; [done|]. destruct (idle_ok_clear s chat Hok) as [_ Hi]. destruct (Hi _ _ Hg).
    by rewrite lookup_insert_ne by lia.
Qed.

(** ** Steps that change the maps *)

(** A state with new maps, over the same engine and history. *)
Lemma pool_inv_maps s s' : pool_inv s → trace s' = trace s → engine s' = engine s →
  (∀ ref c, heap s' !! ref = Some c → created_for (trace s) (chatId c) (containerId c)) →
  (∀ chat ref, map_get (warmContainers s') chat = Some ref → ∃ c, heap s' !! ref = Some c ∧ chatId c = chat) →
  map_wf (warmContainers s') → idle_ok s' → pool_inv s'.
Proof.
  intros HI Et Ee Hh Hw Hwf [Hiwf Hi]. split; rewrite ?Et, ?Ee; try done; apply HI.
Qed.

Lemma inv_idle_ok s : pool_inv s → idle_ok s.
Proof. intros HI. split; apply HI. Qed.

(** Replacing an object by one of the same identity. *)
Lemma heap_replace (s : pool E) ref c c' : heap s !! ref = Some c → containerId c' = containerId c → chatId c' = chatId c →
  ∀ ref' c0, heap s !! ref' = Some c0 →
    ∃ c1, <[ref := c']> (heap s) !! ref' = Some c1 ∧ containerId c1 = containerId c0 ∧ chatId c1 = chatId c0.
Proof.
  intros Hc E1 E2 ref' c0 Hc0. destruct (decide (ref = ref')) as [<-|Hne].
  - exists c'. rewrite list_lookup_insert_eq by (by eapply lookup_lt_Some).
    rewrite Hc in Hc0. injection Hc0 as <-. done.
  - exists c0. by rewrite list_lookup_insert_ne.
Qed.

Lemma heap_replace_inv (s : pool E) ref c c' : heap s !! ref = Some c →
  ∀ ref' c1, <[ref := c']> (heap s) !! ref' = Some c1 → c1 = c' ∨ heap s !! ref' = Some c1.
Proof.
  intros Hc ref' c1 H1. destruct (decide (ref = ref')) as [<-|Hne].
  - rewrite list_lookup_insert_eq in H1 by (by eapply lookup_lt_Some). injection H1 as ->. by left.
  - rewrite list_lookup_insert_ne in H1 by done. by right.
Qed.

Lemma replace_ok s ref c c' : pool_inv s → heap s !! ref = Some c → containerId c' = containerId c →
  chatId c' = chatId c → pool_inv (with_heap s (<[ref := c']> (heap s))).
Proof.
  intros HI Hc E1 E2. apply (pool_inv_maps s); try done; simpl.
  - intros ref' c1 H1. destruct (heap_replace_inv s ref c c' Hc ref' c1 H1) as [->|H2].
    + rewrite E1, E2. by eapply (inv_heap _ HI).
    + by eapply (inv_heap _ HI).
  - intros chat ref' Hw. destruct (inv_warm s HI _ _ Hw) as (c0 & Hc0 & <-).
    destruct (heap_replace s ref c c' Hc E1 E2 _ _ Hc0) as (c1 & ? & ? & ?). by exists c1.
  - apply HI.
  - exact (inv_idle_ok s HI).
Qed.

Lemma start_command_ok tg s ref c c' cmd : pool_inv s → heap s !! ref = Some c →
  containerId c' = containerId c → chatId c' = chatId c →
  let s' := log (with_heap s (<[ref := c']> (heap s))) (TaskStarted (chatId c) (containerId c) cmd) in
  pool_inv s' ∧ pool_guar tg s s'.
Proof.
  intros HI Hc E1 E2. pose proof (replace_ok s ref c c' HI Hc E1 E2) as HI'. simpl.
  assert (Hin : ∀ ev, ev ∈ trace s → ev ∈ trace s ++ [TaskStarted (chatId c) (containerId c) cmd])
    by (intros ? ?; apply elem_of_app; auto).
  assert (Eid : created_ids (trace s ++ [TaskStarted (chatId c) (containerId c) cmd]) = created_ids (trace s))
    by (rewrite created_ids_app; apply app_nil_r).
  split.
  - split; simpl; rewrite ?Eid; try apply HI'.
    + intros ref' c1 H1. eapply created_for_mono; [exact Hin|]. by eapply (inv_heap _ HI').
    + intros chat id cmd' Hs. eapply created_for_mono; [exact Hin|].
      apply elem_of_app in Hs as [Hs|Hs]; [by eapply (inv_started _ HI)|].
      apply list_elem_of_singleton in Hs. injection Hs as -> -> _. by eapply (inv_heap _ HI).
  - split; [split; [by apply heap_replace with (c := c)|done]|].
    intros _ chat. unfold armed. simpl. auto.
Qed.

Lemma finish_task_ok tg idle s ref c c' now chat : pool_inv s → heap s !! ref = Some c →
  containerId c' = containerId c → chatId c' = chatId c →
  let s' := resetIdleTimer idle (with_heap s (<[ref := c']> (heap s))) now chat in
  pool_inv s' ∧ pool_guar tg s s'.
Proof.
  intros HI Hc E1 E2 s'. pose proof (replace_ok s ref c c' HI Hc E1 E2) as HI'.
  destruct (reset_fields idle (with_heap s (<[ref := c']> (heap s))) now chat) as (Fh & Fw & Ft & Fe).
  fold s' in Fh, Fw, Ft, Fe. split.
  - apply (pool_inv_maps _ s' HI'); rewrite ?Fh, ?Fw; try done; try apply HI'.
    by apply idle_ok_reset, inv_idle_ok.
  - split; [split; [rewrite Fh; by apply heap_replace with (c := c)|by rewrite Ft]|].
    intros _ chat' Hw. right. rewrite Fw in Hw. split; [done|]. intros Ha.
    apply armed_reset; [by apply inv_idle_ok|]. by right.
Qed.
Lemma heap_app (s : pool E) c ref c0 : heap s !! ref = Some c0 → (heap s ++ [c]) !! ref = Some c0.
Proof. intros Hc. rewrite lookup_app_l; [done|]. by eapply lookup_lt_Some. Qed.

Lemma enter_ok tg idle s c now chat : pool_inv s → chatId c = chat →
  created_for (trace s) chat (containerId c) →
  let s' := resetIdleTimer idle (with_warm (with_heap s (heap s ++ [c]))
              (map_set (warmContainers s) chat (length (heap s)))) now chat in
  pool_inv s' ∧ pool_guar tg s s'.
Proof.
  intros HI Ec Hcr s'. set (s1 := with_warm _ _) in s'.
  destruct (reset_fields idle s1 now chat) as (Fh & Fw & Ft & Fe). fold s' in Fh, Fw, Ft, Fe.
  assert (Hidle : idle_ok s1) by exact (inv_idle_ok s HI). split.
  - apply (pool_inv_maps s s' HI Ft Fe); rewrite ?Fh, ?Fw; simpl.
    + intros ref c1 H1. apply lookup_app_Some in H1 as [H1|[_ H1]]; [by eapply (inv_heap _ HI)|].
      apply list_elem_of_lookup_2, list_elem_of_singleton in H1. subst c1. by rewrite Ec.
    + intros chat' ref. rewrite map_get_set. case_decide as Hd.
      * intros [= <-]. exists c. rewrite Ec. split; [|done].
        rewrite lookup_app_r by done. by rewrite Nat.sub_diag.
      * intros Hw. destruct (inv_warm s HI _ _ Hw) as (c0 & Hc0 & ?). exists c0. split; [by apply heap_app|done].
    + apply map_wf_set, HI.
    + by apply idle_ok_reset.
  - split; [split; [|by rewrite Ft]|].
    + intros ref c0 Hc0. exists c0. rewrite Fh. split; [by apply heap_app|done].
    + intros _ chat'. rewrite Fw. simpl. rewrite map_get_set. case_decide as Hd; intros Hw.
      * left. apply armed_reset; [done|]. by left.
      * right. split; [done|]. intros Ha. apply armed_reset; [done|]. by right.
Qed.

(** Removing entries: the heap stays, and timers of other chats. *)
Lemma drop_entry_ok tg s s' chat : pool_inv s → heap s' = heap s →
  warmContainers s' = map_delete (warmContainers s) chat → trace s' = trace s → engine s' = engine s →
  idle_ok s' → (∀ chat', chat ≠ chat' → armed s chat' → armed s' chat') →
  pool_inv s' ∧ pool_guar tg s s'.
Proof.
  intros HI Fh Fw Ft Fe Hidle Harm. pose proof (inv_warm_wf _ HI) as Hwf.
  assert (Hg : ∀ chat' ref, map_get (warmContainers s') chat' = Some ref →
    chat ≠ chat' ∧ map_get (warmContainers s) chat' = Some ref).
  { intros chat' ref. rewrite Fw, map_get_delete by done. by case_decide. }
  split.
  - apply (pool_inv_maps s s' HI Ft Fe); rewrite ?Fh, ?Fw; [apply HI| |auto with fh|done].
    intros chat' ref Hw. rewrite <- Fw in Hw. apply Hg in Hw as [_ Hw]. by apply HI.
  - split; [split; [|by rewrite Ft]|].
    + intros ref c Hc. exists c. by rewrite Fh.
    + intros _ chat' [ref Hw]. apply Hg in Hw as [Hne Hw]. right. split; [by exists ref|]. auto.
Qed.

Lemma unhealthy_ok tg s chat : pool_inv s →
  let s' := clearIdleTimer (with_warm s (map_delete (warmContainers s) chat)) chat in
  pool_inv s' ∧ pool_guar tg s s'.
Proof.
  intros HI s'. set (s1 := with_warm _ _) in s'.
  destruct (clear_fields s1 chat) as (Fh & Fw & Ft & Fe & _). fold s' in Fh, Fw, Ft, Fe.
  assert (Hidle : idle_ok s1) by exact (inv_idle_ok s HI).
  apply (drop_entry_ok tg s s' chat); try done; [by apply idle_ok_clear|].
  intros chat' Hne Ha. apply (armed_clear s1 chat chat' Hidle Hne). exact Ha.
Qed.

Lemma idle_end_ok tg s chat : pool_inv s →
  let s' := with_timers (with_warm s (map_delete (warmContainers s) chat))
              (map_delete (idleTimers s) chat) (timers s) (next_timer s) in
  pool_inv s' ∧ pool_guar tg s s' ∧ map_get (warmContainers s') chat = None.
Proof.
  intros HI s'. pose proof (inv_idle_wf _ HI) as Hiwf.
  destruct (drop_entry_ok tg s s' chat) as [? ?]; try done.
  - split; simpl; [auto with fh|]. intros chat' tm. rewrite map_get_delete by done.
    case_decide; [done|]. apply HI.
  - intros chat' Hne (tm & due & Hg & Ht). exists tm, due. simpl.
    by rewrite map_get_delete, decide_False.
  - split; [done|]. split; [done|]. simpl. rewrite map_get_delete by apply HI. by rewrite decide_True.
Qed.

Lemma create_container_ok tg s e id task : pool_inv s → task_username task = user →
  rt_create (engine s) (agent_container cfg hashChatId task) = Some (e, id) →
  let s' := log (with_engine s e)
              (ContainerCreated id (task_chatId task) (agent_container cfg hashChatId task)) in
  pool_inv s' ∧ pool_guar tg s s' ∧ created_for (trace s') (task_chatId task) id.
Proof.
  intros HI Hu Ec. destruct (create_law _ _ _ _ Ec) as (Hname & Hid & Eis & Eco). simpl.
  set (ev := ContainerCreated _ _ _).
  assert (Hin : ∀ x, x ∈ trace s → x ∈ trace s ++ [ev]) by (intros ? ?; apply elem_of_app; auto).
  assert (Eid : created_ids (trace s ++ [ev]) = created_ids (trace s) ++ [id]) by apply created_ids_app.
  assert (Hnew : id ∉ created_ids (trace s)) by (intros Hi; by apply Hid, HI).
  assert (Hfor : created_for (trace s ++ [ev]) (task_chatId task) id).
  { exists task. split; [done|]. split; [done|]. split; [apply elem_of_app; right; left|].
    intros x Hx En. destruct (inv_stale s HI x Hx) as (_ & _ & i & Hi & _ & Ei).
    apply (Hname i Hi). by rewrite Ei. }
  split; [|split; [|done]].
  - split; simpl; rewrite ?Eid, ?Eis, ?Eco; try apply HI.
    + intros ref c Hc. eapply created_for_mono; [exact Hin|]. by eapply (inv_heap _ HI).
    + intros chat id' cmd Hs. eapply created_for_mono; [exact Hin|].
      apply elem_of_app in Hs as [Hs|Hs]; [by eapply (inv_started _ HI)|].
      by apply list_elem_of_singleton in Hs.
    + apply NoDup_app. split; [apply HI|]. split; [|apply NoDup_singleton].
      by intros x Hx ->%list_elem_of_singleton.
    + intros x [Hx|Hx%list_elem_of_singleton]%elem_of_app; [right; by apply HI|subst; left].
    + intros x Hx. destruct (inv_stale s HI x Hx) as (Hi & Hn & i & Hic & E1 & E2).
      split; [by right|]. split.
      * rewrite not_elem_of_app, list_elem_of_singleton. split; [done|]. intros Ex. by rewrite Ex in Hi.
      * exists i. split; [apply elem_of_app; by left|done].
  - split; [split; [|done]|].
    + intros ref c Hc. by exists c.
    + intros _ chat. unfold armed. simpl. auto.
Qed.

(** The shutdown disarms every timer at its start, and forgets every container at its
    end. *)
Lemma foldr_delete_lookup (m : gmap nat (string * Z)) l k x :
  foldr base.delete m l !! k = Some x → m !! k = Some x.
Proof. induction l as [|a l IH]; simpl; [done|]. by intros [_ ?]%lookup_delete_Some; auto. Qed.

Lemma shutdown_start_ok s p : pool_inv s →
  let s' := with_pending (with_timers s [] (foldr base.delete (timers s) (map snd (idleTimers s)))
              (next_timer s)) p in
  pool_inv s' ∧ pool_guar ShuttingDown s s'.
Proof.
  intros HI s'. split.
  - apply (pool_inv_maps s s' HI); try done; try apply HI. split; [apply map_wf_nil|done].
  - split; [|done]. split; [|done]. intros ref c Hc. by exists c.
Qed.

Lemma shutdown_end_ok s : pool_inv s →
  pool_inv (with_warm s []) ∧ pool_guar ShuttingDown s (with_warm s []).
Proof.
  intros HI. split.
  - apply (pool_inv_maps s _ HI); try done; try apply HI; [apply map_wf_nil|exact (inv_idle_ok s HI)].
  - split; [|done]. split; [|done]. intros ref c Hc. by exists c.
Qed.
End Invariant.

(** ** Every method keeps the invariant *)

Section Safety.
Context {E R : Type} `{RuntimeLaws E}.
Context (cfg : pool_config) (opts : SessionManagerOptions).
Context (jsonb : jsmap string → jsmap string) (hashChatId : string → string).
Context (mcp_json : McpServerConfig → string).
Context (buildCommand : AgentTask → WarmContainer → list string).
Context (parseExecResult : string → string → result (R * string)).
Context (user : string) (stale : list (string * string)).

Abbreviation inv := (pool_inv (E := E) cfg hashChatId user stale).
Abbreviation created := (created_for cfg hashChatId user stale).
Abbreviation sf := (safe inv pool_le pool_guar pool_post).

Lemma sf_call {A} tg (f : Z → pool E → option (pool E * A)) Q (T : pool E → Prop) s :
  (∀ t s1, pool_le s s1 → inv s1 →
     match f t s1 with
     | Some (s2, a) => inv s2 ∧ pool_guar tg s1 s2 ∧ (pool_le s s2 → Q a s2)
     | None => T s1
     end) →
  sf tg (call f) Q T s.
Proof.
  intros Hf. apply safe_call; [apply pool_guar_refl|]. intros t s1 Hle HI. specialize (Hf t s1 Hle HI).
  destruct (f t s1) as [[s2 a]|]; [|done]. destruct Hf as (? & Hg & HQ). split; [done|]. split; [done|].
  apply HQ. eapply pool_le_trans; [exact Hle|]. by eapply pool_guar_le.
Qed.

(** A call that leaves the maps alone. *)
Lemma sf_core {A} tg (f : Z → pool E → option (pool E * A)) Q (T : pool E → Prop) s :
  (∀ t s1, pool_le s s1 → inv s1 →
     match f t s1 with
     | Some (s2, a) => same_core s1 s2 ∧ (pool_le s s2 → Q a s2)
     | None => T s1
     end) →
  sf tg (call f) Q T s.
Proof.
  intros Hf. apply sf_call. intros t s1 Hle HI. specialize (Hf t s1 Hle HI).
  destruct (f t s1) as [[s2 a]|]; [|done]. destruct Hf as (Hc & HQ).
  destruct (same_core_ok cfg hashChatId user stale tg s1 s2 Hc HI). done.
Qed.

(** Reading the state. *)
Lemma sf_read {A} tg (f : pool E → A) Q T s :
  (∀ s1, pool_le s s1 → inv s1 → Q (f s1) s1) → sf tg (update (λ _ s, (s, f s))) Q T s.
Proof.
  intros HQ. apply safe_update. intros t s1 Hle HI. simpl.
  split; [done|]. split; [apply pool_guar_refl|auto].
Qed.

Lemma sf_update {A} tg (f : Z → pool E → pool E * A) Q T s :
  (∀ t s1, pool_le s s1 → inv s1 →
     inv (f t s1).1 ∧ pool_guar tg s1 (f t s1).1 ∧ (pool_le s (f t s1).1 → Q (f t s1).2 (f t s1).1)) →
  sf tg (update f) Q T s.
Proof.
  intros Hf. apply safe_update. intros t s1 Hle HI. destruct (Hf t s1 Hle HI) as (? & Hg & HQ).
  split; [done|]. split; [done|]. apply HQ. eapply pool_le_trans; [exact Hle|]. by eapply pool_guar_le.
Qed.

(** [T] holds wherever [s] may have gone. *)
Abbreviation later := (λ s (T : pool E → Prop), ∀ s1, pool_le s s1 → T s1).

Lemma sf_engine {A} tg (f : E → option (E * A)) Q (T : pool E → Prop) s :
  (∀ s1 e a, pool_le s s1 → inv s1 → f (engine s1) = Some (e, a) → keeps_others s1 e) →
  (∀ a, later s (Q a)) → later s T → sf tg (on_engine f) Q T s.
Proof.
  intros Hf HQ HT. apply sf_core. intros t s1 Hle HI. destruct (f (engine s1)) as [[e a]|] eqn:Ef; [|auto].
  split; [|auto]. apply same_core_engine. by eapply Hf.
Qed.

Lemma sf_exec tg id cmd Q (T : pool E → Prop) s :
  (∀ r, later s (Q r)) → later s T → sf tg (exec id cmd) Q T s.
Proof.
  intros HQ HT. apply sf_engine; [|done..]. intros s1 e a _ _ Ef.
  destruct (exec_law _ _ _ _ _ Ef). by apply keeps_others_same.
Qed.

Lemma sf_host tg f Q (T : pool E → Prop) s : later s (Q tt) → later s T → sf tg (host_op f) Q T s.
Proof.
  intros HQ HT. apply sf_core. intros t s1 Hle HI. destruct (f (host s1)); [|auto].
  split; [by apply same_core_other|auto].
Qed.

Lemma sf_get tg ref Q T s c0 : heap s !! ref = Some c0 →
  (∀ c s1, pool_le s s1 → inv s1 → heap s1 !! ref = Some c → containerId c = containerId c0 →
     chatId c = chatId c0 → Q c s1) →
  sf tg (get_container ref) Q T s.
Proof.
  intros Hc HQ. apply sf_core. intros t s1 Hle HI.
  destruct (proj1 Hle _ _ Hc) as (c & Hc1 & E1 & E2). simpl. rewrite Hc1. simpl.
  split; [by apply same_core_other|auto].
Qed.

(** *** Backup *)

Lemma sf_read_files tg id paths acc (Q : jsmap string → pool E → Prop) T s :
  (∀ m, later s (Q m)) → sf tg (read_files id paths acc) Q T s.
Proof.
  revert acc s. induction paths as [|p paths IH]; intros acc s HQ; cbn [read_files].
  - apply (HQ acc), pool_le_refl.
  - cbv zeta. destruct (str_truthy _); [|by apply IH].
    assert (HR : ∀ m, later s (sf tg (read_files id paths m) Q T)).
    { intros m s1 Hle. apply IH. intros m' s2 Hle2. apply HQ. by eapply pool_le_trans. }
    apply safe_bind, safe_catch, safe_bind, sf_exec.
    + intros r s1 Hle. exact (HR _ s1 Hle).
    + intros s1 Hle. exact (HR _ s1 Hle).
Qed.

Lemma sf_backup tg chat ref id session Q T s : later s (Q tt) →
  sf tg (asyncBackupSession opts jsonb chat ref id session) Q T s.
Proof.
  intros HQ. unfold asyncBackupSession. destruct (str_truthy session); [|apply HQ, pool_le_refl].
  assert (Hd : later s (λ s1, sf tg (Ret tt) Q T s1)) by done.
  apply safe_catch, safe_bind. unfold readSessionFilesFromContainer.
  assert (Hsave : ∀ m, later s (λ s1, sf tg (match m with [] => Ret tt | _ => save_files opts jsonb chat ref session m end)
      Q (λ s2, sf tg (Ret tt) Q T s2) s1)).
  { intros m s1 Hle. destruct m as [|e m]; [by apply Hd|]. apply sf_core. intros t s2 Hle2 HI.
    assert (Hle' : pool_le s s2) by (by eapply pool_le_trans). simpl.
    destruct (heap s2 !! ref) as [c|]; simpl; [|by apply HQ]. destruct (saveSession _ _ _ _ _ _ _ _ _); [|by apply HQ].
    split; [by apply same_core_other|]. intros Hle3. apply HQ. exact (pool_le_trans _ _ _ Hle Hle3). }
  apply safe_bind, sf_exec; [|done]. intros l s1 Hle. apply safe_bind, sf_read_files. intros m s2 Hle2.
  assert (Hle' : pool_le s s2) by (by eapply pool_le_trans).
  apply safe_catch, safe_bind, sf_exec.
  - intros r s3 Hle3. apply Hsave. by eapply pool_le_trans.
  - intros s3 Hle3. apply Hsave. by eapply pool_le_trans.
Qed.
(** A chain of hypotheses [pool_le s s1], [pool_le s1 s2], ... *)
Ltac le_chain :=
  match goal with
  | |- pool_le ?s ?s => apply pool_le_refl
  | Hle : pool_le ?s ?s' |- pool_le ?s ?s' => exact Hle
  | Hle : pool_le ?s ?s1 |- pool_le ?s _ => apply (pool_le_trans _ _ _ Hle); clear Hle; le_chain
  end.

(** *** Creation *)

(** The object of a chat. *)
Definition obj (s : pool E) (ref : nat) (chat : string) : Prop :=
  ∃ c, heap s !! ref = Some c ∧ chatId c = chat.

Lemma obj_le s s1 ref chat : pool_le s s1 → obj s ref chat → obj s1 ref chat.
Proof. intros [Hle _] (c & Hc & <-). destruct (Hle _ _ Hc) as (c1 & ? & ? & ?). by exists c1. Qed.

Lemma created_le (s s1 : pool E) chat id : pool_le s s1 → created (trace s) chat id → created (trace s1) chat id.
Proof. intros [_ Hle]. by apply created_for_mono. Qed.

Lemma sf_host_bind {B} tg f (g : unit → prog (pool E) tag B) Q T s :
  later s (sf tg (g tt) Q T) → later s T → sf tg (bind (host_op f) g) Q T s.
Proof. intros. by apply safe_bind, sf_host. Qed.

Lemma sf_exec_bind {B} tg id cmd (g : ExecResult → prog (pool E) tag B) Q T s :
  (∀ r, later s (sf tg (g r) Q T)) → later s T → sf tg (bind (exec id cmd) g) Q T s.
Proof. intros. by apply safe_bind, sf_exec. Qed.

Lemma sf_enter tg task id restored Q T s :
  created (trace s) (task_chatId task) id → task_username task = user →
  (∀ ref s1, pool_le s s1 → obj s1 ref (task_chatId task) → Q ref s1) →
  sf tg (enter_container cfg hashChatId task id restored) Q T s.
Proof.
  intros Hid Hu HQ. apply sf_update. intros t s1 Hle HI. cbv zeta.
  set (c := Warm _ _ _ _ _ _ _ _ _).
  assert (Hid1 : created (trace s1) (chatId c) (containerId c)) by (by eapply created_le).
  destruct (enter_ok cfg hashChatId user stale tg (agent_idleTimeout cfg) s1 c t (task_chatId task) HI
              eq_refl Hid1) as [HI2 Hg].
  split; [exact HI2|]. split; [exact Hg|]. intros Hle2. apply HQ; [exact Hle2|]. exists c. split; [|done].
  cbn [fst snd]. destruct (reset_fields (agent_idleTimeout cfg) (with_warm (with_heap s1 (heap s1 ++ [c]))
    (map_set (warmContainers s1) (task_chatId task) (length (heap s1)))) t (task_chatId task)) as (-> & _).
  simpl. rewrite lookup_app_r by done. by rewrite Nat.sub_diag.
Qed.

Lemma sf_create tg task Q T s :
  task_username task = user → (∀ ref s1, pool_le s s1 → obj s1 ref (task_chatId task) → Q ref s1) →
  later s T → sf tg (createWarmContainer cfg hashChatId mcp_json task) Q T s.
Proof.
  intros Hu HQ HT. unfold createWarmContainer. cbv zeta.
  do 6 (apply sf_host_bind; [|intros; apply HT; le_chain]; intros).
  apply safe_bind. unfold restore_session. rewrite safe_Step. intros t s7 Hle7 HI7.
  destruct (restoreToFilesystem _ _ _ _ _) as [h [restored|]]; cbn [fst snd].
  2:{ destruct (same_core_ok cfg hashChatId user stale tg s7 (with_host s7 h)) as [? Hg];
        [by apply same_core_other|done|].
      pose proof (pool_guar_le _ _ _ Hg). split; [done|]. split; [done|]. split; [constructor|]. apply HT. le_chain. }
  destruct (same_core_ok cfg hashChatId user stale tg s7 (with_host s7 h)) as [? Hg];
    [by apply same_core_other|done|].
  pose proof (pool_guar_le _ _ _ Hg). split; [done|]. split; [done|]. split; [constructor|].
  set (s8 := with_host s7 h) in *. clearbody s8.
  apply safe_bind, sf_read. intros s9 Hle9 _. apply safe_bind.
  assert (Hrest : ∀ s10, pool_le s9 s10 → sf tg (await id := create_container cfg hashChatId task in
    await _ := on_engine_ (λ e, rt_start e id) in
    await _ := exec id copy_session in
    await _ := (if has_ca cfg
              then catch (await _ := exec id ["sh"; "-c"; "update-ca-certificates 2>/dev/null; true"] in Ret tt)
                         (Ret tt)
              else Ret tt) in
    enter_container cfg hashChatId task id restored) Q T s10).
  { intros s10 Hle10. apply safe_bind, sf_call. intros t1 s11 Hle11 HI11.
    destruct (rt_create _ _) as [[e id]|] eqn:Ec; [|apply HT; le_chain].
    destruct (create_container_ok cfg hashChatId user stale tg s11 e id task HI11 Hu Ec) as (? & ? & Hid).
    split; [done|]. split; [done|]. intros Hle12. set (s12 := log _ _) in *. clearbody s12.
    apply safe_bind, sf_engine.
    { intros s13 e' a _ _. destruct (rt_start (engine s13) id) eqn:Es; [|done]. intros [= <- <-].
      destruct (start_law _ _ _ Es). by eapply keeps_others_state. }
    2:{ intros. apply HT. le_chain. }
    intros _ s13 Hle13. apply sf_exec_bind; [|intros; apply HT; le_chain]. intros _ s14 Hle14.
    assert (Hfin : ∀ s15, pool_le s14 s15 → sf tg (enter_container cfg hashChatId task id restored) Q T s15).
    { intros s15 Hle15. apply sf_enter; [|done|].
      - apply (created_le s12); [le_chain|done].
      - intros ref s16 Hle16. apply HQ. le_chain. }
    apply safe_bind. destruct (has_ca cfg); [|apply Hfin, pool_le_refl].
    apply safe_catch, safe_bind, sf_exec; [|done]. by intros _. }
  destruct (rt_networkExists _ _); [apply Hrest, pool_le_refl|].
  apply sf_engine; [|by intros _|intros; apply HT; le_chain].
  intros s10 e a _ _. destruct (rt_createNetwork _ _) eqn:En; [|done]. intros [= <- <-].
  destruct (network_law _ _ _ En). by apply keeps_others_same.
Qed.

Lemma sf_getOrCreate tg task Q T s :
  task_username task = user → (∀ ref s1, pool_le s s1 → obj s1 ref (task_chatId task) → Q ref s1) →
  later s T → sf tg (getOrCreateContainer cfg hashChatId mcp_json task) Q T s.
Proof.
  intros Hu HQ HT. unfold getOrCreateContainer. cbv zeta. apply safe_bind, sf_read. intros s1 Hle1 HI1.
  assert (Hcreate : later s1 (sf tg (createWarmContainer cfg hashChatId mcp_json task) Q T)).
  { intros s2 Hle2. apply sf_create; [done| |intros; apply HT; le_chain]. intros. apply HQ; [le_chain|done]. }
  destruct (map_get (warmContainers s1) (task_chatId task)) as [ref|] eqn:Ew; [|apply Hcreate, pool_le_refl].
  destruct (inv_warm _ _ _ _ _ HI1 _ _ Ew) as (c0 & Hc0 & Echat).
  apply safe_bind, (sf_get _ _ _ _ _ c0 Hc0). intros c s2 Hle2 _ Hc Eid Ec.
  apply safe_bind, sf_read. intros s3 Hle3 _. destruct (rt_isHealthy _ _).
  - apply HQ; [le_chain|]. apply (obj_le s2); [done|]. exists c. by rewrite Ec.
  - apply safe_bind, sf_update. intros t s4 Hle4 HI4.
    destruct (unhealthy_ok cfg hashChatId user stale tg s4 (task_chatId task) HI4) as [? Hg].
    split; [done|]. split; [done|]. intros Hle5. apply Hcreate. cbn [fst] in *. le_chain.
Qed.
(** *** Execution *)

Lemma sf_run_command tg task ref fresh Q T s :
  obj s ref (task_chatId task) → (∀ r, later s (Q r)) → later s T →
  sf tg (run_command buildCommand task ref fresh) Q T s.
Proof.
  intros Hobj HQ HT. unfold run_command. apply safe_bind, sf_call. intros t s1 Hle1 HI1.
  destruct (obj_le _ _ _ _ Hle1 Hobj) as (c & Hc & Ec). simpl. rewrite Hc. cbn [mbind option_bind].
  set (c' := if fresh then _ else c).
  assert (Eid : containerId c' = containerId c) by (by destruct fresh).
  assert (Ech : chatId c' = chatId c) by (by destruct fresh).
  destruct (start_command_ok cfg hashChatId user stale tg s1 ref c c' (buildCommand task c') HI1 Hc Eid Ech)
    as [HI2 Hg]. rewrite Ec, <- Eid in HI2, Hg.
  split; [exact HI2|]. split; [exact Hg|]. intros Hle2. apply sf_core. intros t2 s3 Hle3 _. cbn [fst snd].
  destruct (rt_exec _ _ _) as [[e r]|] eqn:Er; [|apply HT; le_chain]. split.
  - apply same_core_log; [|done]. destruct (exec_law _ _ _ _ _ Er).
    by apply same_core_engine, keeps_others_same.
  - intros Hle4. apply HQ. le_chain.
Qed.

Lemma sf_finish tg chat ref session Q T s : obj s ref chat → later s (Q tt) → later s T →
  sf tg (finish_task cfg opts jsonb chat ref session) Q T s.
Proof.
  intros Hobj HQ HT. unfold finish_task. rewrite safe_Step. intros t s1 Hle1 HI1.
  destruct (obj_le _ _ _ _ Hle1 Hobj) as (c & Hc & Ec). rewrite Hc. cbn [fst snd].
  destruct (finish_task_ok cfg hashChatId user stale tg (agent_idleTimeout cfg) s1 ref c
              (after_message session t c) t chat HI1 Hc eq_refl eq_refl) as [HI2 Hg].
  pose proof (pool_guar_le _ _ _ Hg) as Hle2.
  split; [done|]. split; [done|]. split; [|apply HQ; cbn [fst snd] in *; le_chain].
  destruct (str_truthy session) eqn:Es; [|constructor]. constructor; [|constructor]. split.
  - by apply sf_backup.
  - simpl. unfold asyncBackupSession. by rewrite Es.
Qed.

Lemma sf_execute task (Q : R → pool E → Prop) T s : task_username task = user →
  (∀ r, later s (Q r)) → later s T →
  sf (ForTask (task_chatId task))
    (execute cfg opts jsonb hashChatId mcp_json buildCommand parseExecResult task) Q T s.
Proof.
  intros Hu HQ HT. unfold execute. apply safe_bind, sf_getOrCreate; [done| |done]. intros ref s1 Hle1 Hobj.
  apply safe_bind, sf_run_command; [done| |intros; apply HT; le_chain]. intros r s2 Hle2.
  apply (obj_le _ _ _ _ Hle2) in Hobj.
  assert (Hend : ∀ r, later s2 (sf (ForTask (task_chatId task))
    (match parseExecResult (stdout r) (stderr r) with
     | Err _ => Throw
     | Ok (res, session) => await _ := finish_task cfg opts jsonb (task_chatId task) ref session in Ret res
     end) Q T)).
  { intros r' s3 Hle3. destruct (parseExecResult _ _) as [[res session]|]; [|apply HT; le_chain].
    apply safe_bind, sf_finish; [by eapply obj_le| |]; intros; [apply HQ|apply HT]; le_chain. }
  apply safe_bind. destruct (resume_failed r); [|apply Hend, pool_le_refl].
  apply sf_run_command; [done|exact Hend|]. intros; apply HT; le_chain.
Qed.

(** *** Idle timeout and shutdown *)

Lemma sf_stop_and_remove tg chat ref c0 session Q T s : heap s !! ref = Some c0 → later s (Q tt) →
  sf tg (stop_and_remove opts jsonb chat ref (containerId c0) session) Q T s.
Proof.
  intros Hc HQ. unfold stop_and_remove.
  assert (Hr : later s (sf tg (Ret tt) Q T)) by done.
  apply safe_catch, safe_bind, sf_backup. intros s1 Hle1. apply safe_bind, sf_core.
  intros t s2 Hle2 _. destruct (rt_stop _ _) as [e|] eqn:Es; [|apply Hr; le_chain]. split.
  - apply same_core_log; [|done]. destruct (stop_law _ _ _ Es).
    apply same_core_engine. by eapply keeps_others_state.
  - intros Hle3. apply sf_engine; [|intros [] s4 Hle4; apply HQ; le_chain|intros s4 Hle4; apply Hr; le_chain].
    intros s4 e' [] Hle4 HI4. destruct (rt_remove _ _) as [e2|] eqn:Er; [|done]. intros [= <-].
    destruct (remove_law _ _ _ Er). eapply keeps_others_remove; [done| |done].
    assert (Hle : pool_le s s4) by le_chain. destruct (proj1 Hle _ _ Hc) as (c4 & Hc4 & <- & _).
    eapply created_for_id, (inv_heap _ _ _ _ _ HI4). exact Hc4.
Qed.

Lemma sf_idle chat s :
  sf (Idle chat) (handleIdleTimeout opts jsonb chat) (λ _, pool_post (Idle chat)) (pool_post (Idle chat)) s.
Proof.
  unfold handleIdleTimeout. apply safe_bind, sf_read. intros s1 _ HI1.
  destruct (map_get (warmContainers s1) chat) as [ref|] eqn:Ew; [|exact Ew].
  destruct (inv_warm _ _ _ _ _ HI1 _ _ Ew) as (c0 & Hc0 & Ec0).
  apply safe_bind, (sf_get _ _ _ _ _ c0 Hc0). intros c s2 Hle2 HI2 Hc Eid Ec.
  apply safe_bind, sf_stop_and_remove; [done|]. intros s3 _. apply sf_update. intros t s4 _ HI4.
  by destruct (idle_end_ok cfg hashChatId user stale (Idle chat) s4 chat HI4) as (? & ? & ?).
Qed.

Lemma sf_stop_one k chat ref c0 session s : heap s !! ref = Some c0 →
  sf Stopping (stop_one opts jsonb k chat ref (containerId c0) session)
    (λ _, pool_post Stopping) (pool_post Stopping) s.
Proof.
  intros Hc. unfold stop_one. apply safe_bind, sf_stop_and_remove; [done|]. intros s1 _.
  apply sf_update. intros t s2 _ HI2.
  destruct (same_core_ok cfg hashChatId user stale Stopping s2 (with_pending s2 (alter pred k (pending s2))))
    as [? ?]; [by apply same_core_other|done|done].
Qed.

Lemma sf_shutdown s :
  sf ShuttingDown (shutdown opts jsonb) (λ _, pool_post ShuttingDown) (pool_post ShuttingDown) s.
Proof.
  unfold shutdown. apply safe_bind. rewrite safe_Step. intros t s1 Hle1 HI1. cbv zeta. cbn [fst snd].
  destruct (shutdown_start_ok cfg hashChatId user stale s1
    (pending s1 ++ [length (stop_promises opts jsonb (length (pending s1)) (heap s1) (warmContainers s1))]) HI1)
    as [? ?].
  split; [done|]. split; [done|]. split.
  - apply Forall_forall. intros [tg p] Hp. apply list_elem_of_omap in Hp as ([chat ref] & Hin & Hp).
    simpl in Hp. destruct (heap s1 !! ref) as [c|] eqn:Ec; [|done]. injection Hp as <- <-.
    split; [|unfold stop_one, stop_and_remove, asyncBackupSession; cbn [snd]; by destruct (str_truthy _)].
    by apply sf_stop_one.
  - apply safe_bind. intros s2 _ _ _. apply sf_update. intros t2 s3 _ HI3.
    by destruct (shutdown_end_ok cfg hashChatId user stale s3 HI3).
Qed.
End Safety.

