(* ===== verification/PoolRuns.v ===== *)
(** * Runs of the warm containers

    The consequences of the invariant of [PoolInvariant.v] for every interleaving of
    tasks, idle timeouts, backups and shutdowns, and runs of one chat that show
    what the interleavings can do. *)

From Stdlib Require Import Ascii.
From stdpp Require Import gmap pretty.
From S2P Require Import Prelude JsMap JsString ProxyRules HostFs AgentCli AgentSessions Threads Containers AgentPool PoolInvariant.
Local Open Scope fh_scope.
Local Open Scope string_scope.
Local Open Scope list_scope.

(** ** Runs *)

Section Runs.
Context {E R : Type} `{RuntimeLaws E}.
Context (cfg : pool_config) (opts : SessionManagerOptions).
Context (jsonb : jsmap string → jsmap string) (hashChatId : string → string).
Context (mcp_json : McpServerConfig → string).
Context (buildCommand : AgentTask → WarmContainer → list string).
Context (parseExecResult : string → string → result (R * string)).
Context (user : string).

Abbreviation runtime := (system (pool E) tag R).
Abbreviation step := (pool_step cfg opts jsonb hashChatId mcp_json buildCommand parseExecResult).
Abbreviation run := (run cfg opts jsonb hashChatId mcp_json buildCommand parseExecResult).

(** A service runs the tasks of one user. *)
Definition of_user (op : pool_op) : Prop :=
  match op with Execute task => task_username task = user | _ => True end.

Section Stale.
Context (stale : list (string * string)).
Abbreviation ok := (system_ok (pool_inv (E := E) cfg hashChatId user stale) pool_le pool_guar pool_post (R := R)).

Lemma fire_shared sys timer chat due : ok sys → timers (shared sys) !! timer = Some (chat, due) →
  let s := shared sys in
  ok (System (with_timers s (idleTimers s) (base.delete timer (timers s)) (next_timer s)) (threads sys)).
Proof.
  intros [HI Hth] Ht s. set (s' := with_timers _ _ _ _). split; simpl.
  - apply (pool_inv_maps cfg hashChatId user stale s s' HI); try done; try apply HI.
    split; [apply HI|]. intros chat' tm Hg. destruct (inv_idle _ _ _ _ _ HI _ _ Hg) as [? Hx].
    split; [done|]. intros x Hl. unfold s' in Hl. cbn in Hl. apply lookup_delete_Some in Hl as [_ Hl]. auto.
  - eapply Forall_impl; [exact Hth|]. intros th.
    apply thread_ok_rely; [apply pool_le_trans|]. split; [|done]. intros ref c Hc. by exists c.
Qed.

Lemma pool_step_ok sys op : of_user op → ok sys → ok (step sys op).
Proof.
  intros Hu Hok. destruct op as [task| |timer now|i now]; cbn [pool_step].
  - apply launch_ok; [done|]. apply safe_bind, sf_execute; [done|by intros r s1 Hle|done].
  - apply launch_ok; [done|]. apply safe_bind. exact (sf_shutdown _ _ _ _ _ _ _).
  - cbv zeta. destruct (timers (shared sys) !! timer) as [[chat due]|] eqn:Et; [|done].
    destruct (due <=? now)%Z; [|done]. apply launch_ok; [by eapply fire_shared|].
    apply safe_bind. exact (sf_idle _ _ _ _ _ _ _ _).
  - by apply advance_ok; [apply pool_le_refl|apply pool_le_trans|apply pool_guar_le|].
Qed.

Lemma pool_run_ok sys ops : Forall of_user ops → ok sys → ok (run sys ops).
Proof.
  intros Hu. revert sys. induction Hu as [|op ops Hop _ IH]; intros sys Hok; [done|].
  apply IH. by apply pool_step_ok.
Qed.

Lemma init_ok e d h :
  (∀ x, x ∈ stale → x.1 ∈ rt_issued e ∧ ∃ i, i ∈ rt_containers e ∧ info_id i = x.1 ∧ info_name i = x.2) →
  ok (init e d h).
Proof.
  intros Hs. split; [|constructor]. simpl. split; simpl; try done.
  - apply map_wf_nil.
  - intros chat id cmd Hin. by apply elem_of_nil in Hin.
  - apply NoDup_nil_2.
  - intros id Hin. by apply elem_of_nil in Hin.
  - intros x Hx. destruct (Hs x Hx) as (? & i & ?). split; [done|]. split; [apply not_elem_of_nil|]. by exists i.
  - apply map_wf_nil.
Qed.
End Stale.

(** An identifier is that of one container. *)
Lemma created_once tr id chat chat' c c' : NoDup (created_ids tr) →
  ContainerCreated id chat c ∈ tr → ContainerCreated id chat' c' ∈ tr → chat = chat' ∧ c = c'.
Proof.
  assert (Hin : ∀ tr chat c, ContainerCreated id chat c ∈ tr → id ∈ created_ids tr).
  { intros tr0 ch c0 Hc. apply list_elem_of_omap. by exists (ContainerCreated id ch c0). }
  induction tr as [|ev tr IH]; simpl; [by intros _ ?%elem_of_nil|]. intros Hnd H1 H2.
  destruct ev as [id0 ch0 c0|? ? ?|? ?|?].
  - apply NoDup_cons in Hnd as [Hn Hnd].
    apply elem_of_cons in H1 as [E1|H1], H2 as [E2|H2].
    + injection E1 as -> -> ->. by injection E2 as -> ->.
    + injection E1 as -> -> ->. apply Hin in H2. done.
    + injection E2 as -> -> ->. apply Hin in H1. done.
    + by apply IH.
  - apply elem_of_cons in H1 as [?|H1], H2 as [?|H2]; try done. by apply IH.
  - apply elem_of_cons in H1 as [?|H1], H2 as [?|H2]; try done. by apply IH.
  - apply elem_of_cons in H1 as [?|H1], H2 as [?|H2]; try done. by apply IH.
Qed.

(** C12: however executions, idle timeouts, backups and shutdowns interleave and whatever the
    engine refuses, the command of a task is started only in a container that was
    created for the task's own chat, with that chat's session directory, configuration
    and skills mounted, and no container is ever used for two chats. *)
Theorem tasks_stay_in_their_container e d h ops chat id cmd : Forall of_user ops →
  TaskStarted chat id cmd ∈ trace (shared (run (init e d h) ops)) →
  ∃ c, ContainerCreated id chat c ∈ trace (shared (run (init e d h) ops)) ∧
    mounts c = agent_mounts cfg hashChatId chat ∧
    ∀ chat' c', ContainerCreated id chat' c' ∈ trace (shared (run (init e d h) ops)) → chat' = chat ∧ c' = c.
Proof.
  intros Hu Hs.
  destruct (pool_run_ok [] (init e d h) ops Hu) as [HI _]; [by apply init_ok; intros ? ?%elem_of_nil|].
  destruct (inv_started _ _ _ _ _ HI _ _ _ Hs) as (task & Ec & _ & Hin & _).
  exists (agent_container cfg hashChatId task). split; [done|]. split; [by rewrite <- Ec|].
  intros chat' c' Hin'. by destruct (created_once _ _ _ _ _ _ (inv_nodup _ _ _ _ _ HI) Hin Hin') as [-> ->].
Qed.

(** A chat whose container is still there when the service starts again is not served:
    the name is taken, and no task of it is ever started. *)
Theorem surviving_container_blocks_chat e d h ops chat i id cmd : Forall of_user ops →
  i ∈ rt_containers e → info_id i ∈ rt_issued e →
  info_name i = ("flowhelm-agent-" ++ user ++ "-" ++ hashChatId chat)%string →
  TaskStarted chat id cmd ∉ trace (shared (run (init e d h) ops)).
Proof.
  intros Hu Hi Hiss Hname Hs.
  destruct (pool_run_ok [(info_id i, info_name i)] (init e d h) ops Hu) as [HI _].
  { apply init_ok. intros x ->%list_elem_of_singleton. split; [done|]. by exists i. }
  destruct (inv_started _ _ _ _ _ HI _ _ _ Hs) as (task & Ec & Eu & _ & Hst).
  apply (Hst (info_id i, info_name i)); [left|]. unfold container_name. by rewrite Eu, Ec.
Qed.

(** ** Idle containers are watched *)

Definition watched (sys : runtime) (chat : string) : Prop :=
  armed (shared sys) chat ∨
  ∃ i tg p, threads sys !! i = Some (tg, p) ∧ finished p = false ∧ (tg = Idle chat ∨ tg = ShuttingDown).

Definition all_watched (sys : runtime) : Prop :=
  ∀ chat, is_Some (map_get (warmContainers (shared sys)) chat) → watched sys chat.

Lemma watched_launch sys tg p chat : watched sys chat → watched (launch tg p sys) chat.
Proof.
  intros [Ha|(i & tg' & p' & Hi & Hf & Ht)]; [by left|]. right. exists i, tg', p'. simpl.
  split; [|done]. rewrite lookup_app_l; [done|]. by eapply lookup_lt_Some.
Qed.

Lemma watched_fire sys timer chat due chat' : timers (shared sys) !! timer = Some (chat, due) →
  watched sys chat' →
  let s := shared sys in
  watched (launch (Idle chat) (await _ := handleIdleTimeout opts jsonb chat in Ret None)
    (System (with_timers s (idleTimers s) (base.delete timer (timers s)) (next_timer s)) (threads sys))) chat'.
Proof.
  intros Ht Hw s. destruct (decide (chat = chat')) as [<-|Hne].
  - right. exists (length (threads sys)), (Idle chat), (await _ := handleIdleTimeout opts jsonb chat in Ret None).
    simpl. rewrite lookup_app_r by done. rewrite Nat.sub_diag. auto.
  - apply watched_launch. destruct Hw as [(tm & due' & Hg & Ht')|Hw]; [left|by right].
    exists tm, due'. split; [done|]. simpl. rewrite lookup_delete_ne; [done|]. intros ->.
    rewrite Ht in Ht'. congruence.
Qed.

Lemma step_watched sys op :
  system_ok (pool_inv (E := E) cfg hashChatId user []) pool_le pool_guar pool_post (R := R) sys →
  all_watched sys → all_watched (step sys op).
Proof.
  intros Hok HW. destruct op as [task| |timer now|i now]; cbn [pool_step].
  - intros chat Hc. by apply watched_launch, HW.
  - intros chat Hc. by apply watched_launch, HW.
  - cbv zeta. destruct (timers (shared sys) !! timer) as [[chat due]|] eqn:Et; [|done].
    destruct (due <=? now)%Z; [|done]. intros chat' Hc. eapply watched_fire; [done|]. by apply HW.
  - destruct (advance_ok _ _ _ _ pool_le_refl pool_le_trans pool_guar_le i now sys Hok)
      as [_ [->|(tg & p & p' & Hi & Hf & Hg & Hi' & Hpost & Hkeep & _)]]; [done|].
    set (sys' := advance i now sys) in *. intros chat Hc.
    destruct (finished p') eqn:Ef'; [specialize (Hpost eq_refl)|].
    + destruct (decide (tg = ShuttingDown)) as [->|Hns].
      { simpl in Hpost. rewrite Hpost in Hc. by destruct Hc. }
      assert (Hk : keeps_watch (shared sys) (shared sys')).
      { destruct Hg as [[_ Hk]| ->]; [by apply Hk|apply keeps_watch_refl]. }
      destruct (Hk chat Hc) as [?|[Hc0 Harm]]; [by left|].
      destruct (HW chat Hc0) as [?|(j & tg2 & p2 & Hj & Hf2 & Ht)]; [left; auto|].
      right. exists j, tg2, p2. split; [|done]. apply Hkeep; [|done]. intros ->.
      rewrite Hi in Hj. injection Hj as -> ->. destruct Ht as [->|?]; [|done].
      simpl in Hpost. rewrite Hpost in Hc. by destruct Hc.
    + destruct (decide (tg = ShuttingDown)) as [->|Hns].
      { right. exists i, ShuttingDown, p'. auto. }
      assert (Hk : keeps_watch (shared sys) (shared sys')).
      { destruct Hg as [[_ Hk]| ->]; [by apply Hk|apply keeps_watch_refl]. }
      destruct (Hk chat Hc) as [?|[Hc0 Harm]]; [by left|].
      destruct (HW chat Hc0) as [?|(j & tg2 & p2 & Hj & Hf2 & Ht)]; [left; auto|].
      right. destruct (decide (j = i)) as [->|Hne].
      * rewrite Hi in Hj. injection Hj as -> ->. by exists i, tg2, p'.
      * exists j, tg2, p2. split; [by apply Hkeep|done].
Qed.

(** Under any interleaving, every container in the map of warm containers has its idle
    timer armed, or is being stopped by an idle timeout or a shutdown in progress: none
    is forgotten. *)
Theorem warm_containers_watched e d h ops chat : Forall of_user ops →
  is_Some (map_get (warmContainers (shared (run (init e d h) ops))) chat) →
  watched (run (init e d h) ops) chat.
Proof.
  intros Hu. revert chat. fold (all_watched (run (init e d h) ops)).
  assert (Hok : system_ok (pool_inv (E := E) cfg hashChatId user []) pool_le pool_guar pool_post (R := R) (init e d h))
    by (by apply init_ok; intros ? ?%elem_of_nil).
  assert (HW : all_watched (init e d h)) by (by intros chat []).
  revert Hok HW. generalize (init e d h : runtime). induction Hu as [|op ops Hop _ IH]; intros sys Hok HW; [done|].
  apply IH; [by apply pool_step_ok|by apply step_watched].
Qed.
End Runs.

(** ** Credentials *)

(** The service with other secret tokens. *)
Definition with_secrets (cfg : pool_config) (o k : option string) : pool_config :=
  PoolConfig (dataDir cfg) (agent_image cfg) (agent_memoryLimit cfg) (agent_cpuLimit cfg)
    (agent_pidsLimit cfg) (agent_idleTimeout cfg) (agent_credentialMethod cfg) (caCertPath cfg)
    (proxyUrl cfg) (isMacOS cfg) o k.

(** With the intercepting proxy in place, the container of a task does not depend on the
    credentials of the service: two services that differ only in their secret tokens
    create the same container, so that no token reaches an agent. *)
Theorem agent_container_hides_credentials cfg hashChatId task o k :
  has_ca cfg = true →
  opt_truthy o = opt_truthy (process_oauth cfg) → opt_truthy k = opt_truthy (process_api_key cfg) →
  agent_container (with_secrets cfg o k) hashChatId task = agent_container cfg hashChatId task.
Proof.
  unfold agent_container, agent_env, agent_mounts, has_ca. simpl. intros -> -> ->. reflexivity.
Qed.

(** ** Runs of one chat *)

Section Examples.

Definition example_cfg : pool_config :=
  PoolConfig ["data"] "agent:1" "512m" "1.0" 256 3600000 (Some ApiKey) (Some "/ca.pem")
    "http://proxy:10000" false None (Some "sk-real").

Definition example_task (msg : string) : AgentTask := Task "t1" "c1" msg "alice" 25 [] None None.

Definition example_agent : agent_config := AgentConfig false false None.

(** The chats [c1] and [c2] of one user; every answer belongs to session [s1], and the
    engine prints what [script] says. *)
Definition example_init (script : list ExecResult) : system (pool sim_engine) tag string :=
  init (Sim [] [] [] script) (Db {["c1"; "c2"]} []) (Fs ∅ ∅).

Definition example_run (script : list ExecResult) (ops : list pool_op) :
    system (pool sim_engine) tag string :=
  run example_cfg (ManagerOptions 3600000 86400000) (λ m, m) (λ c, c) mcp_command
    (λ task c, cli_command example_agent task (sessionId c)) (λ out _, Ok (out, "s1"))
    (example_init script) ops.

(** [n] steps of function [i] at time [t]. *)
Definition advances (i n : nat) (t : Z) : list pool_op := repeat (Advance i t) n.

(** A first message, answered, and its backup. *)
Definition first_message : list pool_op :=
  [Execute (example_task "hi")] ++ advances 0 40 0 ++ advances 1 20 0.

Definition answers : list ExecResult := [Executed "" ""; Executed "" ""; Executed "hello" ""].

Definition resumes (cmd : list string) : bool := bool_decide ("--resume" ∈ cmd).

(** What a run did: tasks started, with whether they resume a session, and ended, and
    containers stopped. *)
Inductive mark :=
| Started (id : string) (resumed : bool)
| Ended (id : string)
| Stopped (id : string).

Definition summary (tr : list pool_event) : list mark :=
  omap (λ ev, match ev with
              | TaskStarted _ id cmd => Some (Started id (resumes cmd))
              | TaskEnded _ id => Some (Ended id)
              | ContainerStopped id => Some (Stopped id)
              | ContainerCreated _ _ _ => None
              end) tr.

(** A session survives an idle timeout: the container is stopped and removed, the next
    message gets a new one, the files saved after the first message are on the host
    again, and the command resumes the session. *)
Theorem session_survives_idle_timeout :
  let sys := example_run
    (answers ++ [Executed "/home/flowhelm/.claude/projects/p/s1.jsonl" ""; Executed "log" ""; Executed "" ""])
    (first_message ++ [Fire 1 3600000] ++ advances 2 20 3600000 ++
     [Execute (example_task "again")] ++ advances 3 40 3700000) in
  summary (trace (shared sys)) = [Started "c0" false; Ended "c0"; Stopped "c0"; Started "c1" true; Ended "c1"] ∧
  sim_containers (engine (shared sys)) = [Info "c1" "flowhelm-agent-alice-c1" Running] ∧
  files (host (shared sys)) !! ["data"; "sessions"; "c1"; "projects"; "p"; "s1.jsonl"] = Some "log".
Proof. vm_compute. auto. Qed.

(** A session that the agent no longer knows is given up: the message is sent again
    without it, and answered. *)
Theorem stale_session_retried :
  let sys := example_run
    (answers ++ [Executed "" ""; Executed "" ""; Executed "" "No conversation found with session ID: s1";
                 Executed "fresh" ""])
    (first_message ++ [Execute (example_task "again")] ++ advances 2 40 1000) in
  summary (trace (shared sys)) = 
    [Started "c0" false; Ended "c0"; Started "c0" true; Ended "c0"; Started "c0" false; Ended "c0"] ∧
  threads sys !! 2 = Some (ForTask "c1", Ret (Some "fresh")).
Proof. vm_compute. auto. Qed.

(** The idle timer runs on while a task is being executed: a message that comes shortly
    before it fires has its container stopped and removed before the command ends. *)
Theorem idle_timeout_stops_running_task :
  let sys := example_run answers
    (first_message ++ [Execute (example_task "again")] ++ advances 2 4 3599999 ++
     [Fire 1 3600000] ++ advances 3 20 3600000) in
  summary (trace (shared sys)) = [Started "c0" false; Ended "c0"; Started "c0" true; Stopped "c0"] ∧
  sim_containers (engine (shared sys)) = [].
Proof. vm_compute. auto. Qed.

(** The clean-up of an idle container forgets the container that a message arriving
    meanwhile has created: it runs on without an entry, nothing that is in progress
    stops it, and the next message of the chat fails because its name is taken. *)
Theorem idle_cleanup_loses_new_container :
  let ops := first_message ++ [Fire 1 3600000] ++ advances 2 5 3600000 ++
    [Execute (example_task "again")] ++ advances 3 11 3600001 ++ advances 2 1 3600001 ++
    advances 3 20 3600001 ++ advances 2 1 3600002 ++ advances 4 20 3600002 in
  let sys := example_run answers ops in
  let next := example_run answers (ops ++ [Execute (example_task "third")] ++ advances 5 40 3600003) in
  warmContainers (shared sys) = [] ∧ forallb (λ th, finished th.2) (threads sys) = true ∧
  sim_containers (engine (shared sys)) = [Info "c1" "flowhelm-agent-alice-c1" Running] ∧
  threads next !! 5 = Some (ForTask "c1", Throw).
Proof. vm_compute. auto. Qed.

(** A container can write outside its session directory.  The list of session files is
    split into lines, and each line has its first 23 characters cut off without a look
    at them; a directory with a line break in its name yields a line of which the rest
    starts with [..], and restoring the session of chat [c1] writes into that of [c2]. *)
Theorem session_restore_escapes :
  let found := ("/home/flowhelm/.claude/projects/p" ++ newline ++
                "aaaaaaaaaaaaaaaaaaaaaaa../c2/settings.json")%string in
  let sys := example_run
    (answers ++ [Executed found ""; Executed "" "cat: Is a directory"; Executed "planted" ""; Executed "" ""])
    (first_message ++ [Fire 1 3600000] ++ advances 2 20 3600000 ++
     [Execute (example_task "again")] ++ advances 3 40 3700000) in
  files (host (shared sys)) !! ["data"; "sessions"; "c2"; "settings.json"] = Some "planted".
Proof. vm_compute. auto. Qed.
(** ** Witnesses *)

Lemma example_ops_of_user : Forall (of_user "alice") first_message.
Proof. unfold first_message, advances. repeat constructor. Qed.

Lemma tasks_stay_in_their_container_witness :
  let sys := example_run answers first_message in
  ∃ c, ContainerCreated "c0" "c1" c ∈ trace (shared sys) ∧
    mounts c = agent_mounts example_cfg (λ c, c) "c1" ∧
    ∀ chat' c', ContainerCreated "c0" chat' c' ∈ trace (shared sys) → chat' = "c1" ∧ c' = c.
Proof.
  apply (tasks_stay_in_their_container example_cfg (ManagerOptions 3600000 86400000) (λ m, m) (λ c, c)
           mcp_command (λ task c, cli_command example_agent task (sessionId c)) (λ out _, Ok (out, "s1")) "alice"
           (Sim [] [] [] answers) (Db {["c1"; "c2"]} []) (Fs ∅ ∅) first_message "c1" "c0"
           (cli_command example_agent (example_task "hi") None)).
  - exact example_ops_of_user.
  - apply (list_elem_of_lookup_2 _ 1). vm_compute. reflexivity.
Defined.

Lemma surviving_container_blocks_chat_witness :
  let i := Info "old" "flowhelm-agent-alice-c1" Running in
  info_state i = Running ∧ ¬ ∃ id cmd, TaskStarted "c1" id cmd ∈ trace (shared (run (R := string) example_cfg
    (ManagerOptions 3600000 86400000) (λ m, m) (λ c, c) mcp_command
    (λ task c, cli_command example_agent task (sessionId c)) (λ out _, Ok (out, "s1"))
    (init (Sim [i] ["old"] [] answers) (Db {["c1"; "c2"]} []) (Fs ∅ ∅)) first_message)).
Proof.
  intros i. split; [reflexivity|]. intros (id & cmd & Hs). revert Hs.
  apply (surviving_container_blocks_chat example_cfg (ManagerOptions 3600000 86400000) (λ m, m) (λ c, c)
           mcp_command (λ task c, cli_command example_agent task (sessionId c)) (λ out _, Ok (out, "s1")) "alice"
           (Sim [i] ["old"] [] answers) (Db {["c1"; "c2"]} []) (Fs ∅ ∅) first_message "c1" i id cmd).
  - exact example_ops_of_user.
  - left.
  - left.
  - reflexivity.
Defined.

Lemma warm_containers_watched_witness :
  watched (example_run answers first_message) "c1".
Proof.
  apply (warm_containers_watched example_cfg (ManagerOptions 3600000 86400000) (λ m, m) (λ c, c)
           mcp_command (λ task c, cli_command example_agent task (sessionId c)) (λ out _, Ok (out, "s1")) "alice"
           (Sim [] [] [] answers) (Db {["c1"; "c2"]} []) (Fs ∅ ∅) first_message "c1").
  - exact example_ops_of_user.
  - exists 0. vm_compute. reflexivity.
Defined.

Lemma agent_container_hides_credentials_witness :
  agent_container (PoolConfig ["data"] "agent:1" "512m" "1.0" 256 3600000 (Some ApiKey) (Some "/ca.pem")
    "http://proxy:10000" false None (Some "sk-other")) (λ c, c) (example_task "hi") =
  agent_container example_cfg (λ c, c) (example_task "hi").
Proof.
  apply (agent_container_hides_credentials example_cfg (λ c, c) (example_task "hi") None (Some "sk-other"));
    reflexivity.
Defined.
End Examples.
