(* ===== verification/GmailFilter.v ===== *)
(** * The filter of incoming mail

    [src/channels/gmail/filter.ts]: the detection of automated senders, the rules of
    the user, and the importance score with its double arithmetic.  [RegExp] on the
    patterns of the user is an argument; the regular expression that the filter
    builds itself, from a pattern with stars, is written out. *)

From Stdlib Require Import Ascii SpecFloat.
From stdpp Require Import pretty.
From S2P Require Import Prelude JsMap JsString JsNumber.
Local Open Scope string_scope.
Local Open Scope list_scope.

(** ** Types *)

(** The fields of [ParsedEmail] that the filter reads. *)
Record ParsedEmail := Email {
  from : string;
  subject : string;
  labelIds : list string;
  isStarred : bool;
  isImportant : bool;
  headers : jsmap string }.

Record EmailFilterRules := FilterRules {
  starredOnly : bool;
  importantContacts : list string;
  labels : list string;
  excludeSenders : list string;
  minImportance : spec_float }.

Record FilterResult := Filtered {
  passed : bool;
  reason : option string;
  importance : spec_float }.

Definition AUTOMATED_SENDER_PATTERNS : list string := [
  "noreply@"; "no-reply@"; "no_reply@"; "donotreply@"; "do-not-reply@"; "mailer-daemon@"; "postmaster@";
  "bounce@"; "bounces@"; "notifications@"; "notification@"; "auto-confirm@"; "automailer@"].

(** [headers[name] ?? ''] *)
Definition header (email : ParsedEmail) (name : string) : string := default "" (map_get (headers email) name).

Definition isAutomatedEmail (email : ParsedEmail) : option string :=
  let autoSubmitted := header email "auto-submitted" in
  let precedence := to_lower (header email "precedence") in
  if str_truthy autoSubmitted && negb (bool_decide (autoSubmitted = "no"))
  then Some ("Auto-Submitted: " ++ autoSubmitted)%string
  else if bool_decide (precedence = "bulk" ∨ precedence = "list" ∨ precedence = "junk")
  then Some ("Precedence: " ++ precedence)%string
  else if str_truthy (header email "x-auto-response-suppress")
  then Some "X-Auto-Response-Suppress header present"
  else if str_truthy (header email "list-unsubscribe")
  then Some "List-Unsubscribe header present (mailing list)"
  else match List.find (λ pattern, includes pattern (to_lower (from email))) AUTOMATED_SENDER_PATTERNS with
       | Some pattern => Some ("Automated sender pattern: " ++ pattern)%string
       | None => None
       end.

(** ** Importance *)

Definition add_if (b : bool) (n : Z) (score : spec_float) : spec_float :=
  if b then plus score (hundredths n) else score.

Definition has_label (email : ParsedEmail) (l : string) : bool := bool_decide (l ∈ labelIds email).

Definition in_inbox (email : ParsedEmail) : bool :=
  has_label email "INBOX" && negb (has_label email "CATEGORY_PROMOTIONS") &&
  negb (has_label email "CATEGORY_SOCIAL") && negb (has_label email "CATEGORY_UPDATES").

Definition has_subject (email : ParsedEmail) : bool := (0 <? String.length (subject email))%nat.

Definition computeImportance (email : ParsedEmail) : spec_float :=
  let score := hundredths 20 in
  let score := add_if (isStarred email) 30 score in
  let score := add_if (isImportant email) 20 score in
  let score := add_if (has_label email "CATEGORY_PERSONAL") 15 score in
  let score := add_if (in_inbox email) 10 score in
  let score := add_if (has_subject email) 5 score in
  if SFltb score (double 1) then score else double 1.

(** ** Contacts *)

Definition line_terminator (c : ascii) : bool := ((nat_of_ascii c =? 10) || (nat_of_ascii c =? 13))%nat.

(** The regular expression [^...$] of a pattern, with [.*] for each star. *)
Fixpoint glob (p s : list ascii) {struct p} : bool :=
  match p with
  | [] => match s with [] => true | _ => false end
  | c :: p' =>
      if bool_decide (c = "*"%char) then
        (fix star (s : list ascii) : bool :=
           glob p' s ||
           match s with d :: s' => negb (line_terminator d) && star s' | [] => false end) s
      else match s with d :: s' => bool_decide (c = d) && glob p' s' | [] => false end
  end.

Definition matches_contact (contact sender : string) : bool :=
  let pattern := to_lower contact in
  if includes "*" pattern
  then glob (String.list_ascii_of_string pattern) (String.list_ascii_of_string sender)
  else includes pattern sender.

(** ** The filter *)

Section Filter.
(** [new RegExp(pattern, 'i').test(s)], [None] when the pattern is not valid. *)
Context (regexp_test : string → string → option bool).

Definition excludes (email : ParsedEmail) (pattern : string) : bool :=
  default false (regexp_test pattern (to_lower (from email))).

Definition rejected (why : string) (i : spec_float) : FilterResult := Filtered false (Some why) i.

Definition evaluateFilter (email : ParsedEmail) (rules : EmailFilterRules) : FilterResult :=
  let importance := computeImportance email in
  match isAutomatedEmail email with
  | Some why => rejected ("Automated email: " ++ why) importance
  | None =>
  match List.find (excludes email) (excludeSenders rules) with
  | Some pattern => rejected ("Sender excluded by pattern: " ++ pattern) importance
  | None =>
  if (0 <? length (labels rules))%nat && negb (existsb (has_label email) (labels rules)) then
    rejected ("Missing required label (need one of: " ++ String.concat ", " (labels rules) ++ ")") importance
  else if starredOnly rules && negb (isStarred email) then
    rejected "Not starred (starredOnly is enabled)" importance
  else if (0 <? length (importantContacts rules))%nat &&
          negb (existsb (λ c, matches_contact c (to_lower (from email))) (importantContacts rules)) then
    rejected "Sender not in important contacts" importance
  else if SFltb importance (minImportance rules) then
    rejected ("Importance " ++ toFixed2 importance ++ " below threshold " ++ toFixed2 (minImportance rules))
      importance
  else Filtered true None importance
  end end.
End Filter.

(** The configured values over the defaults. *)
Record filter_config := FilterConfig {
  c_starredOnly : option bool;
  c_importantContacts : option (list string);
  c_labels : option (list string);
  c_excludeSenders : option (list string);
  c_minImportance : option spec_float }.

Definition buildFilterRules (c : filter_config) : EmailFilterRules :=
  FilterRules (default false (c_starredOnly c)) (default [] (c_importantContacts c))
    (default ["INBOX"] (c_labels c)) (default [] (c_excludeSenders c))
    (default (double 0) (c_minImportance c)).

(** ** What passes *)

(** A reference for the patterns: a star stands for any text on one line. *)
Inductive globs : list ascii → list ascii → Prop :=
| globs_nil : globs [] []
| globs_star p l s : Forall (λ d, line_terminator d = false) l → globs p s → globs ("*"%char :: p) (l ++ s)
| globs_char c p s : c ≠ "*"%char → globs p s → globs (c :: p) (c :: s).

Lemma glob_globs p s : glob p s = true ↔ globs p s.
Proof.
  revert s. induction p as [|c p IH]; intros s; cbn [glob].
  - destruct s; split; [constructor|done|done|]. by inversion 1.
  - case_bool_decide as Hc; [subst c|].
    + split.
      * induction s as [|d s IHs]; rewrite orb_true_iff, IH.
        -- intros [Hg|?]; [|done]. by apply (globs_star p []).
        -- rewrite andb_true_iff, negb_true_iff. intros [Hg|[Hd Hs]]; [by apply (globs_star p [])|].
           apply IHs in Hs. inversion Hs as [|p' l s' Hl Hg E1 E2|? ? ? Hne]; subst; [|done].
           apply (globs_star p (d :: l)); [by constructor|done].
      * inversion 1 as [|p' l s' Hl Hg|? ? ? Hne]; subst; [|done]. clear H.
        induction Hl as [|d l Hd _ IHl]; simpl.
        -- apply IH in Hg. destruct s'; by rewrite Hg.
        -- by rewrite Hd, IHl, orb_true_r.
    + destruct s as [|d s]; [split; [done|inversion 1; done]|].
      rewrite andb_true_iff, bool_decide_eq_true, IH. split; [intros [<- ?]; by constructor|].
      inversion 1; by subst.
Qed.

(** A pattern without stars matches itself only. *)
Lemma globs_plain p s : "*"%char ∉ p → globs p s ↔ s = p.
Proof.
  intros Hp. split.
  - induction 1 as [|p l s|c p s Hc _ IH]; [done| |].
    + destruct Hp. left.
    + apply not_elem_of_cons in Hp as [_ Hp]. by rewrite IH.
  - intros ->. induction p as [|c p IH]; [constructor|]. apply not_elem_of_cons in Hp as [Hc Hp].
    constructor; [congruence|auto].
Qed.

Lemma existsb_nonempty {A} (f : A → bool) l :
  (0 <? length l)%nat && negb (existsb f l) = false ↔ l = [] ∨ ∃ x, x ∈ l ∧ f x = true.
Proof.
  destruct l as [|a l]; simpl length; cbn [Nat.ltb Nat.leb andb]; [split; [by left|done]|].
  rewrite negb_false_iff, existsb_exists. setoid_rewrite list_elem_of_In. naive_solver.
Qed.

(** A message passes exactly when it is not automated, no valid exclusion pattern
    matches its sender, it has one of the labels if any are required, it is starred if
    that is required, its sender matches a contact if any are listed, and its
    importance is not below the threshold. *)
Theorem evaluateFilter_passed regexp_test email rules :
  passed (evaluateFilter regexp_test email rules) = true ↔
  isAutomatedEmail email = None ∧
  (∀ p, p ∈ excludeSenders rules → regexp_test p (to_lower (from email)) ≠ Some true) ∧
  (labels rules = [] ∨ ∃ l, l ∈ labels rules ∧ l ∈ labelIds email) ∧
  (starredOnly rules = true → isStarred email = true) ∧
  (importantContacts rules = [] ∨
     ∃ c, c ∈ importantContacts rules ∧ matches_contact c (to_lower (from email)) = true) ∧
  SFltb (computeImportance email) (minImportance rules) = false.
Proof.
  unfold evaluateFilter. destruct (isAutomatedEmail email); [split; [done|by intros [? _]]|].
  destruct (List.find _ _) as [p|] eqn:Ef.
  { apply find_some in Ef as [Hin He]. split; [done|]. intros (_ & Hn & _).
    destruct (Hn p); [by apply list_elem_of_In|]. unfold excludes in He.
    by destruct (regexp_test p _) as [[]|]. }
  assert (Hex : ∀ p, p ∈ excludeSenders rules → regexp_test p (to_lower (from email)) ≠ Some true).
  { intros p Hp E. apply list_elem_of_In in Hp. pose proof (find_none _ _ Ef p Hp) as Hf.
    unfold excludes in Hf. by rewrite E in Hf. }
  assert (Hl : (0 <? length (labels rules))%nat && negb (existsb (has_label email) (labels rules)) = false ↔
    (labels rules = [] ∨ ∃ l, l ∈ labels rules ∧ l ∈ labelIds email)).
  { rewrite existsb_nonempty. unfold has_label. by setoid_rewrite bool_decide_eq_true. }
  pose proof (existsb_nonempty (λ c, matches_contact c (to_lower (from email))) (importantContacts rules)) as Hc.
  destruct ((0 <? length (labels rules))%nat && _); [split; [done|intros (_ & _ & Hl' & _); by apply Hl in Hl']|].
  assert (Hs : starredOnly rules && negb (isStarred email) = false ↔
    (starredOnly rules = true → isStarred email = true)).
  { destruct (starredOnly rules), (isStarred email); simpl; intuition congruence. }
  destruct (starredOnly rules && _); [split; [done|intros (_ & _ & _ & Hs' & _); by apply Hs in Hs']|].
  destruct ((0 <? length (importantContacts rules))%nat && _);
    [split; [done|intros (_ & _ & _ & _ & Hc' & _); by apply Hc in Hc']|].
  destruct (SFltb _ _); [split; [done|by intros (_ & _ & _ & _ & _ & ?)]|].
  split; [|done]. intros _. split; [done|]. split; [done|].
  split; [by apply Hl|]. split; [by apply Hs|]. split; [by apply Hc|done].
Qed.

(** ** Importance in doubles *)

(** The documented score, in hundredths. *)
Definition nominal (email : ParsedEmail) : Z :=
  (20 + (if isStarred email then 30 else 0) + (if isImportant email then 20 else 0) +
   (if has_label email "CATEGORY_PERSONAL" then 15 else 0) + (if in_inbox email then 10 else 0) +
   (if has_subject email then 5 else 0))%Z.

(** The four combinations whose sum of doubles falls short of the documented score. *)
Definition falls_short (starred important personal inbox subj : bool) : bool :=
  match starred, important, personal, inbox, subj with
  | false, false, true, false, true | false, false, true, true, false
  | false, false, true, true, true | true, true, false, true, false => true
  | _, _, _, _, _ => false
  end.

(** The score is never more than 1 and rounds to the documented sum of its parts, but as
    a double it is below it for four combinations: a personal message in the inbox with
    a subject, documented as 0.5, is rejected by a threshold of 0.5. *)
Theorem importance_short_of_documented email :
  SFleb (computeImportance email) (double 1) = true ∧
  toFixed2 (computeImportance email) = toFixed2 (hundredths (nominal email)) ∧
  SFltb (computeImportance email) (hundredths (nominal email)) =
    falls_short (isStarred email) (isImportant email) (has_label email "CATEGORY_PERSONAL") (in_inbox email)
      (has_subject email).
Proof.
  unfold computeImportance, nominal.
  destruct (isStarred email), (isImportant email), (has_label email "CATEGORY_PERSONAL"), (in_inbox email),
    (has_subject email); vm_compute; auto.
Qed.

(** ** Contacts by domain *)

Lemma list_lower s : String.list_ascii_of_string (to_lower s) = map lower_ascii (String.list_ascii_of_string s).
Proof. induction s as [|c s IH]; [done|]. simpl. by rewrite IH. Qed.

Lemma to_lower_app s1 s2 : to_lower (s1 ++ s2) = (to_lower s1 ++ to_lower s2)%string.
Proof. apply list_of_string_inj. by rewrite list_of_string_app, !list_lower, list_of_string_app, map_app. Qed.

(** Lower-casing neither makes nor hides a character that is no letter. *)
Lemma lacks_lower c s : (∀ d, lower_ascii d = c → d = c) → lacks c s → lacks c (to_lower s).
Proof.
  unfold lacks. intros Hc Hs. rewrite list_lower. intros Hin.
  apply list_elem_of_In, in_map_iff in Hin as (d & Ed & Hd%list_elem_of_In). by rewrite (Hc d Ed) in Hd.
Qed.

Lemma app_last_lower q a s : (q ++ ">")%string = (a ++ "@" ++ to_lower s)%string → ends_with ">" s = true.
Proof.
  intros E. apply (f_equal String.list_ascii_of_string) in E.
  rewrite !list_of_string_app, list_lower in E. apply suffix_app.
  destruct (decide (String.list_ascii_of_string s = [])) as [E0|Hne].
  - rewrite E0 in E. change (String.list_ascii_of_string q ++ [">"%char] =
      String.list_ascii_of_string a ++ ["@"%char]) in E. by apply app_inj_tail in E as [_ ?].
  - destruct (exists_last Hne) as (l & c & El). exists (String.string_of_list_ascii l).
    apply list_of_string_inj. rewrite list_of_string_app, String.list_ascii_of_string_of_list_ascii, El.
    f_equal. rewrite El, map_app, !app_assoc in E. apply app_inj_tail in E as [_ Ec]. f_equal.
    revert Ec. clear. by destruct c as [[] [] [] [] [] [] [] []].
Qed.

Lemma domain_contact_iff domain sender : lacks "*" domain →
  matches_contact ("*@" ++ domain) (to_lower sender) = true ↔
   ∃ p, to_lower sender = (p ++ "@" ++ to_lower domain)%string ∧
        Forall (λ d, line_terminator d = false) (String.list_ascii_of_string p).
Proof.
  intros Hd.
  assert (Hstar : "*"%char ∉ "@"%char :: String.list_ascii_of_string (to_lower domain)).
  { apply not_elem_of_cons. split; [done|]. apply lacks_lower; [|done].
    clear. intros d. by destruct d as [[] [] [] [] [] [] [] []]. }
  unfold matches_contact. rewrite to_lower_app. change (to_lower "*@") with "*@".
  assert (includes "*" ("*@" ++ to_lower domain) = true) as ->.
  { apply includes_spec. by exists "", ("@" ++ to_lower domain)%string. }
  rewrite list_of_string_app. change (String.list_ascii_of_string "*@") with ["*"; "@"]%char.
  cbn [app]. rewrite glob_globs. split.
  - inversion 1 as [|p' l s' Hl Hg E1 E2|? ? ? Hne]; subst; [|done].
    apply (globs_plain _ _ Hstar) in Hg. subst s'.
    exists (String.string_of_list_ascii l). rewrite String.list_ascii_of_string_of_list_ascii. split; [|done].
    apply list_of_string_inj. rewrite list_of_string_app, String.list_ascii_of_string_of_list_ascii. done.
  - intros (p & -> & Hl). rewrite list_of_string_app. apply globs_star; [done|].
    by apply (globs_plain _ _ Hstar).
Qed.

(** A contact [*@domain] matches a sender exactly when its whole text ends in [@domain]:
    the header of a sender with a display name, which ends in [>], is not matched. *)
Theorem domain_contact_needs_bare_address domain sender :
  lacks "*" domain →
  (matches_contact ("*@" ++ domain) (to_lower sender) = true ↔
   ∃ p, to_lower sender = (p ++ "@" ++ to_lower domain)%string ∧
        Forall (λ d, line_terminator d = false) (String.list_ascii_of_string p)) ∧
  (∀ name, ends_with ">" domain = false → sender = (name ++ ">")%string →
   matches_contact ("*@" ++ domain) (to_lower sender) = false).
Proof.
  intros Hd. pose proof (domain_contact_iff domain sender Hd) as Hiff. split; [done|].
  intros name Hend ->. destruct (matches_contact _ _); [|done]. exfalso.
  destruct (proj1 Hiff eq_refl) as (p & E & _). rewrite to_lower_app in E.
  apply app_last_lower in E. congruence.
Qed.

Lemma domain_contact_needs_bare_address_witness :
  lacks "*" "company.com" ∧
  (matches_contact "*@company.com" (to_lower "boss@company.com") = true ↔
   ∃ p, to_lower "boss@company.com" = (p ++ "@" ++ to_lower "company.com")%string ∧
        Forall (λ d, line_terminator d = false) (String.list_ascii_of_string p)) ∧
  matches_contact "*@company.com" (to_lower "The Boss <boss@company.com>") = false.
Proof.
  assert (Hl : lacks "*" "company.com") by (apply (bool_decide_unpack _); vm_compute; exact I).
  split; [exact Hl|]. split.
  - apply (domain_contact_needs_bare_address "company.com" "boss@company.com" Hl).
  - apply (proj2 (domain_contact_needs_bare_address "company.com" "The Boss <boss@company.com>" Hl)
             "The Boss <boss@company.com"); vm_compute; reflexivity.
Defined.
