(* ===== verification/Profiles.v ===== *)
(** * Agent profiles

    [src/orchestrator/profile-manager.ts]: profiles with their identity, personality
    and memories, over the tables of [src/orchestrator/schema.sql] with their keys,
    unique indexes, foreign keys and cascades.  A method is one atomic operation;
    a UUID is a number from a supply that gives none twice.  The identifiers of
    the rows that nothing refers to are left out. *)

From Stdlib Require Import SpecFloat.
From S2P Require Import Prelude.
Local Open Scope fh_scope.
Local Open Scope string_scope.
Local Open Scope list_scope.

(** ** Tables *)

Abbreviation uuid := nat.

Record AgentProfile := Profile {
  id : uuid;
  name : string;
  description : option string;
  isDefault : bool;
  createdAt : Z;
  updatedAt : Z }.

Record chat_row := Chat { chat_id : string; chat_profile : uuid; chat_updated : Z }.

Record semantic_data := SemanticData {
  content : string;
  embedding : list spec_float;
  memory_type : string;
  importance : spec_float;
  depth : Z;
  token_count : Z;
  source_session : option uuid;
  earliest_at : option Z;
  latest_at : option Z }.

Record semantic_row := Semantic {
  s_id : uuid;
  s_profile : uuid;
  s_data : semantic_data;
  s_created : Z;
  s_updated : Z;
  s_accessed : Z;
  s_access_count : Z }.

Record meta_data := MetaData {
  m_content : string;
  m_embedding : list spec_float;
  reflection_type : string;
  confidence : spec_float;
  m_depth : Z }.

Record meta_row := Meta {
  m_id : uuid;
  m_profile : uuid;
  m_data : meta_data;
  m_created : Z;
  m_updated : Z;
  m_accessed : Z }.

Record external_row := External {
  e_profile : uuid;
  e_content : string;
  e_embedding : list spec_float;
  source_type : string;
  source_ref : string;
  e_created : Z }.

Record identity_row := Identity {
  i_profile : uuid;
  role : string;
  expertise : list string;
  tone : string;
  instructions : option string;
  i_created : Z;
  i_updated : Z }.

Record personality_row := Personality {
  p_profile : uuid;
  dimension : string;
  p_content : string;
  p_confidence : spec_float;
  evidence_count : Z;
  p_created : Z;
  p_updated : Z }.

(** The four join tables are sets of pairs. *)
Record profile_db := Db {
  profiles : list AgentProfile;
  chats : list chat_row;
  semantic : list semantic_row;
  meta : list meta_row;
  external : list external_row;
  identity : list identity_row;
  personality : list personality_row;
  summary_messages : list (uuid * (string * string));
  summary_parents : list (uuid * uuid);
  meta_sources : list (uuid * uuid);
  meta_parents : list (uuid * uuid);
  next_uuid : nat }.

Definition with_profiles (db : profile_db) (l : list AgentProfile) (n : nat) : profile_db :=
  Db l (chats db) (semantic db) (meta db) (external db) (identity db) (personality db)
    (summary_messages db) (summary_parents db) (meta_sources db) (meta_parents db) n.

(** ** Queries *)

Definition getProfile (db : profile_db) (pid : uuid) : option AgentProfile :=
  List.find (λ p, bool_decide (id p = pid)) (profiles db).

Definition getProfileByName (db : profile_db) (n : string) : option AgentProfile :=
  List.find (λ p, bool_decide (name p = n)) (profiles db).

Definition getDefaultProfile (db : profile_db) : option AgentProfile :=
  List.find isDefault (profiles db).

Definition getChatProfile (db : profile_db) (chat : string) : option AgentProfile :=
  c ← List.find (λ c, bool_decide (chat_id c = chat)) (chats db);
  getProfile db (chat_profile c).

(** A profile with its numbers of chats, semantic and meta memories. *)
Record AgentProfileWithStats := Stats {
  st_profile : AgentProfile;
  chatCount : nat;
  semanticMemoryCount : nat;
  metaMemoryCount : nat }.

Definition older (p q : AgentProfile) : Prop := (createdAt p ≤ createdAt q)%Z.

#[export] Instance older_dec p q : Decision (older p q).
Proof. unfold older. apply _. Defined.

Definition listProfiles (db : profile_db) : list AgentProfileWithStats :=
  map (λ p, Stats p (length (filter (λ c, chat_profile c = id p) (chats db)))
                    (length (filter (λ r, s_profile r = id p) (semantic db)))
                    (length (filter (λ r, m_profile r = id p) (meta db))))
    (merge_sort older (profiles db)).

(** ** Operations *)

(** [INSERT INTO agent_profiles], with its unique name and its unique default. *)
Definition insert_profile (db : profile_db) (n : string) (d : option string) (dflt : bool) (now : Z) :
    result (AgentProfile * profile_db) :=
  if bool_decide (n ∈ map name (profiles db)) then Err "duplicate key value violates unique constraint"
  else if dflt && existsb isDefault (profiles db) then
    Err "duplicate key value violates unique constraint"
  else
    let p := Profile (next_uuid db) n d dflt now now in
    Ok (p, with_profiles db (profiles db ++ [p]) (S (next_uuid db))).

Section Manager.
Context (maxProfiles : nat).

Definition limit_reached (db : profile_db) : bool := (maxProfiles <=? length (profiles db))%nat.

Definition createProfile (db : profile_db) (now : Z) (n : string) (d : option string) :
    result (AgentProfile * profile_db) :=
  if limit_reached db then Err "Profile limit reached"
  else insert_profile db n d (length (profiles db) =? 0)%nat now.

(** The two statements of the transaction. *)
Definition unset_default (now : Z) (q : AgentProfile) : AgentProfile :=
  if isDefault q then Profile (id q) (name q) (description q) false (createdAt q) now else q.

Definition make_default (pid : uuid) (now : Z) (q : AgentProfile) : AgentProfile :=
  if decide (id q = pid) then Profile (id q) (name q) (description q) true (createdAt q) now else q.

Definition setDefaultProfile (db : profile_db) (now : Z) (pid : uuid) : result profile_db :=
  match getProfile db pid with
  | None => Err "Profile not found"
  | Some p =>
      if isDefault p then Ok db
      else Ok (with_profiles db (map (make_default pid now) (map (unset_default now) (profiles db)))
                 (next_uuid db))
  end.

(** Returns the previous profile of the chat. *)
Definition assignChat (db : profile_db) (now : Z) (chat : string) (pid : uuid) : result (uuid * profile_db) :=
  match getProfile db pid with
  | None => Err "Target profile not found"
  | Some _ =>
      match List.find (λ c, bool_decide (chat_id c = chat)) (chats db) with
      | None => Err "Chat not found"
      | Some c =>
          Ok (chat_profile c,
              Db (profiles db)
                (map (λ c, if decide (chat_id c = chat) then Chat (chat_id c) pid now else c) (chats db))
                (semantic db) (meta db) (external db) (identity db) (personality db) (summary_messages db)
                (summary_parents db) (meta_sources db) (meta_parents db) (next_uuid db))
      end
  end.

(** The identifiers of a profile's memories. *)
Definition semantic_ids (db : profile_db) (pid : uuid) : list uuid :=
  map s_id (filter (λ r, s_profile r = pid) (semantic db)).
Definition meta_ids (db : profile_db) (pid : uuid) : list uuid :=
  map m_id (filter (λ r, m_profile r = pid) (meta db)).

(** The statements of [deleteProfile]; deleting a meta memory takes its rows of
    [meta_parent_sources] along, by cascade. *)
Definition delete_rows (db : profile_db) (pid : uuid) : profile_db :=
  let sids := semantic_ids db pid in
  let mids := meta_ids db pid in
  Db (filter (λ p, id p ≠ pid) (profiles db)) (chats db)
    (filter (λ r, s_profile r ≠ pid) (semantic db))
    (filter (λ r, m_profile r ≠ pid) (meta db))
    (filter (λ r, e_profile r ≠ pid) (external db))
    (filter (λ r, i_profile r ≠ pid) (identity db))
    (filter (λ r, p_profile r ≠ pid) (personality db))
    (filter (λ l, l.1 ∉ sids) (summary_messages db))
    (filter (λ l, l.1 ∉ sids ∧ l.2 ∉ sids) (summary_parents db))
    (filter (λ l, l.1 ∉ mids ∧ l.2 ∉ sids) (meta_sources db))
    (filter (λ l, l.1 ∉ mids ∧ l.2 ∉ mids) (meta_parents db))
    (next_uuid db).

Definition deleteProfile (db : profile_db) (pid : uuid) : result profile_db :=
  match getProfile db pid with
  | None => Err "Profile not found"
  | Some p =>
      if isDefault p then Err "Cannot delete the default profile. Set another profile as default first."
      else if existsb (λ c, bool_decide (chat_profile c = pid)) (chats db)
      then Err "Cannot delete profile with assigned chats. Reassign chats first."
      else Ok (delete_rows db pid)
  end.

(** ** Cloning *)

(** [INSERT ... ON CONFLICT DO NOTHING] *)
Definition insert_link {A} `{EqDecision A} (l : list A) (x : A) : list A :=
  if bool_decide (x ∈ l) then l else l ++ [x].

(** A [Map] from old to new identifiers. *)
Fixpoint id_get (m : list (uuid * uuid)) (a : uuid) : option uuid :=
  match m with
  | [] => None
  | (x, y) :: m => if decide (x = a) then Some y else id_get m a
  end.

(** A loop over the memories of the source, in the order of their identifiers: each row
    is copied under a new identifier. *)
Fixpoint clone_rows {A} (id_of : A → uuid) (copy : uuid → A → A) (err : string) (rows : list A)
    (next : nat) (olds : list uuid) (m : list (uuid * uuid)) : result (list A * nat * list (uuid * uuid)) :=
  match olds with
  | [] => Ok (rows, next, m)
  | old :: olds =>
      match List.find (λ r, bool_decide (id_of r = old)) rows with
      | None => Err err
      | Some r => clone_rows id_of copy err (rows ++ [copy next r]) (S next) olds (m ++ [(old, next)])
      end
  end.

Definition copy_semantic (pid : uuid) (now : Z) (new : uuid) (r : semantic_row) : semantic_row :=
  Semantic new pid (s_data r) now now now 0.

Definition clone_semantic (rows : list semantic_row) (pid : uuid) (now : Z) (next : nat) (olds : list uuid) :
    result (list semantic_row * nat * list (uuid * uuid)) :=
  clone_rows s_id (copy_semantic pid now) "Failed to clone semantic memory" rows next olds [].

Definition copy_meta (pid : uuid) (now : Z) (new : uuid) (r : meta_row) : meta_row :=
  Meta new pid (m_data r) now now now.

Definition clone_meta (rows : list meta_row) (pid : uuid) (now : Z) (next : nat) (olds : list uuid) :
    result (list meta_row * nat * list (uuid * uuid)) :=
  clone_rows m_id (copy_meta pid now) "Failed to clone meta memory" rows next olds [].

(** The links whose first end is a memory of the source, both ends renamed. *)
Definition clone_links {B C} `{EqDecision C} (f : uuid * B → option C) (ids : list uuid)
    (src : list (uuid * B)) (l : list C) : list C :=
  fold_left (λ acc x, match f x with Some y => insert_link acc y | None => acc end)
    (filter (λ x, x.1 ∈ ids) src) l.

Definition both (m1 m2 : list (uuid * uuid)) (x : uuid * uuid) : option (uuid * uuid) :=
  a ← id_get m1 x.1; b ← id_get m2 x.2; Some (a, b).

Definition first_only (m : list (uuid * uuid)) (x : uuid * (string * string)) : option (uuid * (string * string)) :=
  a ← id_get m x.1; Some (a, x.2).

Definition cloneProfile (db : profile_db) (now : Z) (source : uuid) (newName : string)
    (newDescription : option string) : result (AgentProfile * profile_db) :=
  match getProfile db source with
  | None => Err "Source profile not found"
  | Some src =>
      if limit_reached db then Err "Profile limit reached"
      else
        let* (p, db1) := insert_profile db newName
          (match newDescription with Some d => Some d | None => description src end) false now in
        let pid := id p in
        let identity' := map (λ r, Identity pid (role r) (expertise r) (tone r) (instructions r) now now)
                           (filter (λ r, i_profile r = source) (identity db1)) in
        let personality' := map (λ r, Personality pid (dimension r) (p_content r) (p_confidence r)
                                        (evidence_count r) now now)
                              (filter (λ r, p_profile r = source) (personality db1)) in
        let external' := map (λ r, External pid (e_content r) (e_embedding r) (source_type r) (source_ref r) now)
                           (filter (λ r, e_profile r = source) (external db1)) in
        let sids := semantic_ids db1 source in
        let mids := meta_ids db1 source in
        let* (srows, n1, smap) := clone_semantic (semantic db1) pid now (next_uuid db1) (merge_sort le sids) in
        let* (mrows, n2, mmap) := clone_meta (meta db1) pid now n1 (merge_sort le mids) in
        Ok (p, Db (profiles db1) (chats db1) srows mrows (external db1 ++ external')
          (identity db1 ++ identity') (personality db1 ++ personality')
          (clone_links (first_only smap) sids (summary_messages db1) (summary_messages db1))
          (clone_links (both smap smap) sids (summary_parents db1) (summary_parents db1))
          (clone_links (both mmap smap) mids (meta_sources db1) (meta_sources db1))
          (clone_links (both mmap mmap) mids (meta_parents db1) (meta_parents db1)) n2)
  end.
End Manager.

(** ** Cloned rows *)

Section CloneRows.
Context {A : Type} (id_of : A → uuid) (copy : uuid → A → A) (err : string).
Context (copy_id : ∀ n r, id_of (copy n r) = n).

Lemma find_id_app (l : list A) x old r :
  List.find (λ r, bool_decide (id_of r = old)) l = Some r →
  List.find (λ r, bool_decide (id_of r = old)) (l ++ [x]) = Some r.
Proof. induction l as [|y l IH]; simpl; [done|]. by destruct (bool_decide _). Qed.

Lemma find_id_in (l : list A) old :
  old ∈ map id_of l → ∃ r, List.find (λ r, bool_decide (id_of r = old)) l = Some r.
Proof.
  induction l as [|y l IH]; simpl; [by intros ?%elem_of_nil|]. intros Hin.
  case_bool_decide; [by eexists|]. apply elem_of_cons in Hin as [->|Hin]; [done|auto].
Qed.

Lemma clone_rows_spec olds : ∀ rows next m, (∀ o, o ∈ olds → o ∈ map id_of rows) →
  ∃ new, clone_rows id_of copy err rows next olds m =
      Ok (rows ++ new, next + length olds, m ++ zip olds (seq next (length olds))) ∧
    map id_of new = seq next (length olds) ∧
    Forall2 (λ old r, ∃ r0 n, List.find (λ r, bool_decide (id_of r = old)) rows = Some r0 ∧ r = copy n r0)
      olds new.
Proof.
  induction olds as [|old olds IH]; intros rows next m Hin; cbn [clone_rows].
  - exists []. simpl. rewrite !app_nil_r, Nat.add_0_r. by split; [|split; [|constructor]].
  - destruct (find_id_in rows old) as [r Hr]; [apply Hin; left|]. rewrite Hr.
    destruct (IH (rows ++ [copy next r]) (S next) (m ++ [(old, next)])) as (new & E & Hid & Hf).
    { intros o Ho. rewrite map_app. apply elem_of_app. left. apply Hin. by right. }
    exists (copy next r :: new). rewrite E. simpl. rewrite Hid, copy_id, <- !app_assoc.
    split; [by rewrite Nat.add_succ_r|]. split; [done|]. constructor; [by exists r, next|].
    assert (Hmem : Forall (λ o, o ∈ map id_of rows) olds) by (apply Forall_forall; intros o Ho; apply Hin; by right).
    clear - Hf Hmem. revert Hmem. induction Hf as [|o x olds new (r0 & n & Hr0 & Hx) _ IHf]; intros Hmem; constructor.
    + apply Forall_cons in Hmem as [Ho _]. destruct (find_id_in rows o Ho) as [r1 Hr1].
      rewrite (find_id_app _ _ _ _ Hr1) in Hr0. injection Hr0 as <-. by exists r1, n.
    + apply IHf. by apply Forall_cons in Hmem as [_ ?].
Qed.
End CloneRows.

Lemma id_get_zip olds next a b : NoDup olds →
  id_get (zip olds (seq next (length olds))) a = Some b ↔ ∃ i, olds !! i = Some a ∧ b = next + i.
Proof.
  revert next. induction olds as [|o olds IH]; intros next Hnd; simpl; [split; [done|by intros (i & ? & _)]|].
  apply NoDup_cons in Hnd as [Ho Hnd]. case_decide as Hd.
  - subst. split; [intros [= ->]; exists 0; split; [done|lia]|].
    intros ([|i] & Hi & ->); [by rewrite Nat.add_0_r|]. simpl in Hi.
    by apply list_elem_of_lookup_2 in Hi.
  - rewrite IH by done. split.
    + intros (i & Hi & ->). exists (S i). split; [done|lia].
    + intros ([|i] & Hi & ->); simpl in Hi; [congruence|]. exists i. split; [done|lia].
Qed.

(** The new identifier of an old one. *)
Definition renamed (m : list (uuid * uuid)) (a : uuid) : uuid := default 0 (id_get m a).

Lemma elem_of_insert_link {A} `{EqDecision A} (l : list A) x y : y ∈ insert_link l x ↔ y ∈ l ∨ y = x.
Proof.
  unfold insert_link. case_bool_decide.
  - split; [by left|]. by intros [?| ->].
  - by rewrite elem_of_app, list_elem_of_singleton.
Qed.

Lemma elem_of_clone_links {B C} `{EqDecision C} (f : uuid * B → option C) ids src l y :
  y ∈ clone_links f ids src l ↔ y ∈ l ∨ ∃ x, x ∈ src ∧ x.1 ∈ ids ∧ f x = Some y.
Proof.
  unfold clone_links. revert l. induction src as [|x src IH]; intros l; simpl.
  - split; [by left|]. intros [?|(x & Hx & _)]; [done|]. by apply elem_of_nil in Hx.
  - setoid_rewrite elem_of_cons. rewrite filter_cons. case_decide as Hx.
    + simpl. rewrite IH. destruct (f x) as [z|] eqn:Ef.
      * rewrite elem_of_insert_link. split; [|naive_solver].
        intros [[?| ->]|(x' & ? & ? & ?)]; [by left|right; by exists x; auto|right; exists x'; auto].
      * split; [|intros [?|(x' & [->|?] & ? & ?)]; [by left|congruence|right; by exists x']].
        intros [?|(x' & ? & ? & ?)]; [by left|right; exists x'; auto].
    + rewrite IH. split; [|intros [?|(x' & [->|?] & ? & ?)]; [by left|done|right; by exists x']].
      intros [?|(x' & ? & ? & ?)]; [by left|right; exists x'; auto].
Qed.

(** ** The invariant of the tables *)

Definition sids (db : profile_db) : list uuid := map s_id (semantic db).
Definition mids (db : profile_db) : list uuid := map m_id (meta db).
Definition pids (db : profile_db) : list uuid := map id (profiles db).

Record profiles_ok (db : profile_db) : Prop := {
  ok_pids : NoDup (pids db);
  ok_names : NoDup (map name (profiles db));
  ok_default : profiles db = [] ∨ length (filter (λ p, isDefault p = true) (profiles db)) = 1;
  ok_sids : NoDup (sids db);
  ok_mids : NoDup (mids db);
  ok_bound : ∀ x, x ∈ pids db ++ sids db ++ mids db → x < next_uuid db;
  ok_chats : ∀ c, c ∈ chats db → chat_profile c ∈ pids db;
  ok_semantic : ∀ r, r ∈ semantic db → s_profile r ∈ pids db;
  ok_meta : ∀ r, r ∈ meta db → m_profile r ∈ pids db;
  ok_external : ∀ r, r ∈ external db → e_profile r ∈ pids db;
  ok_identity : ∀ r, r ∈ identity db → i_profile r ∈ pids db;
  ok_personality : ∀ r, r ∈ personality db → p_profile r ∈ pids db;
  ok_one_identity : NoDup (map i_profile (identity db));
  ok_one_personality : NoDup (map (λ r, (p_profile r, dimension r)) (personality db));
  ok_sm : ∀ l, l ∈ summary_messages db → l.1 ∈ sids db;
  ok_sp : ∀ l, l ∈ summary_parents db → l.1 ∈ sids db ∧ l.2 ∈ sids db;
  ok_ms : ∀ l, l ∈ meta_sources db → l.1 ∈ mids db ∧ l.2 ∈ sids db;
  ok_mp : ∀ l, l ∈ meta_parents db → l.1 ∈ mids db ∧ l.2 ∈ mids db }.

Lemma elem_of_ids {A} (f : A → uuid) (P : A → Prop) `{!∀ r, Decision (P r)} l x :
  x ∈ map f (filter P l) → x ∈ map f l.
Proof. rewrite !elem_of_map. intros (r & [_ Hr]%list_elem_of_filter & <-). by exists r. Qed.

Lemma NoDup_map_filter {A B} (f : A → B) (P : A → Prop) `{!∀ r, Decision (P r)} l :
  NoDup (map f l) → NoDup (map f (filter P l)).
Proof.
  induction l as [|a l IH]; simpl; [done|]. intros [Ha Hl]%NoDup_cons. rewrite filter_cons.
  case_decide; [|auto]. simpl. apply NoDup_cons. split; [|auto].
  rewrite elem_of_map. intros (r & [_ Hr]%list_elem_of_filter & Er). apply Ha. apply elem_of_map. by exists r.
Qed.

(** ** What a clone is *)

(** The rows of the new profile, and the renaming of memories. *)
Definition clone_shape (db db' : profile_db) (now : Z) (src : uuid) (p : AgentProfile)
    (solds molds : list uuid) (snew : list semantic_row) (mnew : list meta_row)
    (smap mmap : list (uuid * uuid)) : Prop :=
  solds ≡ₚ semantic_ids db src ∧ molds ≡ₚ meta_ids db src ∧
  smap = zip solds (seq (S (next_uuid db)) (length solds)) ∧
  mmap = zip molds (seq (S (next_uuid db) + length solds) (length molds)) ∧
  id p = next_uuid db ∧ isDefault p = false ∧ name p ∉ map name (profiles db) ∧
  map s_id snew = seq (S (next_uuid db)) (length solds) ∧
  map m_id mnew = seq (S (next_uuid db) + length solds) (length molds) ∧
  Forall2 (λ old r, ∃ r0 n, List.find (λ r, bool_decide (s_id r = old)) (semantic db) = Some r0 ∧
    r = copy_semantic (id p) now n r0) solds snew ∧
  Forall2 (λ old r, ∃ r0 n, List.find (λ r, bool_decide (m_id r = old)) (meta db) = Some r0 ∧
    r = copy_meta (id p) now n r0) molds mnew ∧
  db' = Db (profiles db ++ [p]) (chats db) (semantic db ++ snew) (meta db ++ mnew)
    (external db ++ map (λ r, External (id p) (e_content r) (e_embedding r) (source_type r) (source_ref r) now)
       (filter (λ r, e_profile r = src) (external db)))
    (identity db ++ map (λ r, Identity (id p) (role r) (expertise r) (tone r) (instructions r) now now)
       (filter (λ r, i_profile r = src) (identity db)))
    (personality db ++ map (λ r, Personality (id p) (dimension r) (p_content r) (p_confidence r)
         (evidence_count r) now now) (filter (λ r, p_profile r = src) (personality db)))
    (clone_links (first_only smap) (semantic_ids db src) (summary_messages db) (summary_messages db))
    (clone_links (both smap smap) (semantic_ids db src) (summary_parents db) (summary_parents db))
    (clone_links (both mmap smap) (meta_ids db src) (meta_sources db) (meta_sources db))
    (clone_links (both mmap mmap) (meta_ids db src) (meta_parents db) (meta_parents db))
    (S (next_uuid db) + length solds + length molds).

Lemma insert_profile_Ok db n d dflt now p db1 : insert_profile db n d dflt now = Ok (p, db1) →
  p = Profile (next_uuid db) n d dflt now now ∧ n ∉ map name (profiles db) ∧
  db1 = with_profiles db (profiles db ++ [p]) (S (next_uuid db)) ∧
  (dflt = true → existsb isDefault (profiles db) = false).
Proof.
  unfold insert_profile. case_bool_decide as Hn; [done|].
  destruct (dflt && existsb isDefault (profiles db)) eqn:Ed; [done|]. intros [= <- <-].
  split; [done|]. split; [done|]. split; [done|]. by intros ->.
Qed.

Lemma cloneProfile_shape maxp db now src n d p db' : cloneProfile maxp db now src n d = Ok (p, db') →
  ∃ solds molds snew mnew smap mmap, clone_shape db db' now src p solds molds snew mnew smap mmap.
Proof.
  unfold cloneProfile. destruct (getProfile db src) as [srcp|]; [|done].
  destruct (limit_reached maxp db); [done|].
  destruct (insert_profile _ _ _ _ _) as [[p0 db1]|] eqn:Ei; [|done].
  apply insert_profile_Ok in Ei as (Hp & Hn & -> & _).
  unfold with_profiles, clone_semantic, clone_meta.
  cbn [profiles chats semantic meta external identity personality summary_messages summary_parents
       meta_sources meta_parents next_uuid].
  destruct (clone_rows_spec s_id (copy_semantic (id p0) now) "Failed to clone semantic memory" (λ _ _, eq_refl)
    (merge_sort le (semantic_ids db src)) (semantic db) (S (next_uuid db)) []) as (snew & Es & His & Hfs).
  { intros o. rewrite (merge_sort_Permutation le). apply elem_of_ids. }
  destruct (clone_rows_spec m_id (copy_meta (id p0) now) "Failed to clone meta memory" (λ _ _, eq_refl)
    (merge_sort le (meta_ids db src)) (meta db)
    (S (next_uuid db) + length (merge_sort le (semantic_ids db src))) []) as (mnew & Em & Him & Hfm).
  { intros o. rewrite (merge_sort_Permutation le). apply elem_of_ids. }
  change (semantic_ids (Db _ _ _ _ _ _ _ _ _ _ _ _) src) with (semantic_ids db src).
  change (meta_ids (Db _ _ _ _ _ _ _ _ _ _ _ _) src) with (meta_ids db src).
  rewrite Es, Em. intros [= <- <-]. eexists _, _, snew, mnew, _, _.
  split; [apply (merge_sort_Permutation le)|]. split; [apply (merge_sort_Permutation le)|].
  split; [reflexivity|]. split; [reflexivity|]. rewrite Hp. cbn [id isDefault name].
  split; [done|]. split; [done|]. split; [done|]. split; [done|]. split; [done|].
  rewrite Hp in Hfs, Hfm. cbn [id] in Hfs, Hfm. split; [done|]. split; [done|]. reflexivity.
Qed.

Lemma cloneProfile_allowed maxp db now src n d p db' : cloneProfile maxp db now src n d = Ok (p, db') →
  ¬ ((∀ p, p ∈ profiles db → id p ≠ src) ∨ (maxp ≤ length (profiles db))%nat ∨ n ∈ map name (profiles db)).
Proof.
  unfold cloneProfile. destruct (getProfile db src) as [srcp|] eqn:Eg; [|done].
  unfold limit_reached. destruct (Nat.leb_spec maxp (length (profiles db))); [done|].
  destruct (insert_profile _ _ _ _ _) as [[p0 db1]|] eqn:Ei; [|done]. intros _.
  apply insert_profile_Ok in Ei as (_ & Hn & _). intros [Hs|[Hl|?]]; [|lia|done].
  apply find_some in Eg as [Hin Ep]. apply (Hs srcp); [by apply list_elem_of_In|by apply bool_decide_eq_true in Ep].
Qed.

Lemma cloneProfile_name maxp db now src n d p db' : cloneProfile maxp db now src n d = Ok (p, db') → name p = n.
Proof.
  unfold cloneProfile. destruct (getProfile db src); [|done]. destruct (limit_reached maxp db); [done|].
  destruct (insert_profile _ _ _ _ _) as [[p0 db1]|] eqn:Ei; [|done].
  apply insert_profile_Ok in Ei as (-> & _). destruct (clone_semantic _ _ _ _ _) as [[[? ?] ?]|]; [|done].
  destruct (clone_meta _ _ _ _ _) as [[[? ?] ?]|]; [|done]. by intros [= <- <-].
Qed.

(** Every failure is refused at once. *)
Lemma cloneProfile_Err maxp db now src n d e : cloneProfile maxp db now src n d = Err e →
  (∀ p, p ∈ profiles db → id p ≠ src) ∨ (maxp ≤ length (profiles db))%nat ∨ n ∈ map name (profiles db).
Proof.
  unfold cloneProfile. destruct (getProfile db src) as [srcp|] eqn:Eg.
  2: { intros _. left. intros p Hp Ep. apply list_elem_of_In in Hp. apply (find_none _ _ Eg) in Hp.
       by apply bool_decide_eq_false in Hp. }
  unfold limit_reached. destruct (Nat.leb_spec maxp (length (profiles db))) as [Hl|_]; [by right; left|].
  unfold insert_profile. case_bool_decide as Hn; [by right; right|]. cbn [andb].
  set (p0 := Profile _ _ _ _ _ _). unfold with_profiles, clone_semantic, clone_meta.
  cbn [profiles chats semantic meta external identity personality summary_messages summary_parents
       meta_sources meta_parents next_uuid].
  destruct (clone_rows_spec s_id (copy_semantic (id p0) now) "Failed to clone semantic memory" (λ _ _, eq_refl)
    (merge_sort le (semantic_ids db src)) (semantic db) (S (next_uuid db)) []) as (snew & Es & _).
  { intros o. rewrite (merge_sort_Permutation le). apply elem_of_ids. }
  destruct (clone_rows_spec m_id (copy_meta (id p0) now) "Failed to clone meta memory" (λ _ _, eq_refl)
    (merge_sort le (meta_ids db src)) (meta db)
    (S (next_uuid db) + length (merge_sort le (semantic_ids db src))) []) as (mnew & Em & _).
  { intros o. rewrite (merge_sort_Permutation le). apply elem_of_ids. }
  change (semantic_ids (Db _ _ _ _ _ _ _ _ _ _ _ _) src) with (semantic_ids db src).
  change (meta_ids (Db _ _ _ _ _ _ _ _ _ _ _ _) src) with (meta_ids db src).
  by rewrite Es, Em.
Qed.

(** The links after a copy: the old ones, and new ones both ends of which are new. *)
Definition links_apart (old new : list (uuid * uuid)) (firsts seconds : list uuid) : Prop :=
  (∀ l, l ∈ old → l ∈ new) ∧ ∀ l, l ∈ new → l ∈ old ∨ (l.1 ∈ firsts ∧ l.2 ∈ seconds).

Section Renaming.
Context (olds : list uuid) (start : nat) (Hnd : NoDup olds).
Abbreviation m := (zip olds (seq start (length olds))).

Lemma renamed_get a : a ∈ olds →
  id_get m a = Some (renamed m a) ∧ start ≤ renamed m a < start + length olds.
Proof.
  intros [i Hi]%list_elem_of_lookup. unfold renamed.
  assert (E : id_get m a = Some (start + i)) by (apply id_get_zip; [done|by exists i]).
  rewrite E. simpl. apply lookup_lt_Some in Hi. split; [done|lia].
Qed.

Lemma renamed_inv a b : id_get m a = Some b → a ∈ olds ∧ b = renamed m a.
Proof.
  intros E. unfold renamed. rewrite E. split; [|done].
  apply id_get_zip in E as (i & Hi & _); [|done]. by eapply list_elem_of_lookup_2.
Qed.

Lemma renamed_at i a : olds !! i = Some a → renamed m a = start + i.
Proof.
  intros Hi. unfold renamed.
  assert (E : id_get m a = Some (start + i)) by (apply id_get_zip; [done|by exists i]). by rewrite E.
Qed.

Lemma renamed_inj a b : a ∈ olds → b ∈ olds → renamed m a = renamed m b → a = b.
Proof.
  intros [i Hi]%list_elem_of_lookup [j Hj]%list_elem_of_lookup E.
  rewrite (renamed_at i a Hi), (renamed_at j b Hj) in E. assert (i = j) as <- by lia. congruence.
Qed.
End Renaming.

(** The links of the clone are the links of the source, renamed. *)
Lemma both_iso olds1 start1 olds2 start2 ids src a b :
  let m1 := zip olds1 (seq start1 (length olds1)) in
  let m2 := zip olds2 (seq start2 (length olds2)) in
  NoDup olds1 → NoDup olds2 → ids ≡ₚ olds1 → (∀ l : uuid * uuid, l ∈ src → l.1 < start1) →
  a ∈ olds1 → b ∈ olds2 →
  (a, b) ∈ src ↔ (renamed m1 a, renamed m2 b) ∈ clone_links (both m1 m2) ids src src.
Proof.
  intros m1 m2 Hn1 Hn2 Hids Hsrc Ha Hb.
  destruct (renamed_get olds1 start1 Hn1 a Ha) as [Ea La], (renamed_get olds2 start2 Hn2 b Hb) as [Eb _].
  rewrite elem_of_clone_links. unfold both. split.
  - intros Hin. right. exists (a, b). cbn [fst snd]. rewrite Hids. unfold m1, m2. by rewrite Ea, Eb.
  - intros [Hin|([x y] & Hx & _ & E)].
    + apply Hsrc in Hin. simpl in Hin. unfold m1 in *. lia.
    + cbn [fst snd] in E. destruct (id_get m1 x) as [x'|] eqn:Ex; [|done].
      destruct (id_get m2 y) as [y'|] eqn:Ey; [|done]. simpl in E. injection E as -> ->.
      apply (renamed_inv _ _ Hn1) in Ex as [Hxo Ex]. apply (renamed_inv _ _ Hn2) in Ey as [Hyo Ey].
      apply (renamed_inj _ _ Hn1) in Ex; [|done..]. apply (renamed_inj _ _ Hn2) in Ey; [|done..]. by subst.
Qed.

Lemma both_apart olds1 start1 olds2 start2 ids src :
  let m1 := zip olds1 (seq start1 (length olds1)) in
  let m2 := zip olds2 (seq start2 (length olds2)) in
  NoDup olds1 → NoDup olds2 →
  links_apart src (clone_links (both m1 m2) ids src src) (map (renamed m1) olds1) (map (renamed m2) olds2).
Proof.
  intros m1 m2 Hn1 Hn2. split; intros l; rewrite elem_of_clone_links; [by left|].
  intros [?|([x y] & _ & _ & E)]; [by left|right]. unfold both in E. cbn [fst snd] in E.
  destruct (id_get m1 x) as [x'|] eqn:Ex; [|done]. destruct (id_get m2 y) as [y'|] eqn:Ey; [|done]. injection E as <-.
  apply (renamed_inv _ _ Hn1) in Ex as [Hx ->]. apply (renamed_inv _ _ Hn2) in Ey as [Hy ->]. cbn [fst snd].
  split; apply elem_of_map; by eexists.
Qed.

Lemma first_only_apart olds start ids src :
  let m := zip olds (seq start (length olds)) in
  NoDup olds → let new := clone_links (first_only m) ids src src in
  (∀ l, l ∈ src → l ∈ new) ∧ ∀ l, l ∈ new → l ∈ src ∨ l.1 ∈ map (renamed m) olds.
Proof.
  intros m Hn new. unfold new. split; intros l; rewrite elem_of_clone_links; [by left|].
  intros [?|([x y] & _ & _ & E)]; [by left|right]. unfold first_only in E. cbn [fst snd] in E.
  destruct (id_get m x) as [x'|] eqn:Ex; [|done]. injection E as <-.
  apply (renamed_inv _ _ Hn) in Ex as [Hx ->]. cbn [fst]. apply elem_of_map. by eexists.
Qed.

Lemma first_only_iso olds start ids src a x :
  let m := zip olds (seq start (length olds)) in
  NoDup olds → ids ≡ₚ olds → (∀ l : uuid * (string * string), l ∈ src → l.1 < start) → a ∈ olds →
  (a, x) ∈ src ↔ (renamed m a, x) ∈ clone_links (first_only m) ids src src.
Proof.
  intros m Hn Hids Hsrc Ha. destruct (renamed_get olds start Hn a Ha) as [Ea La].
  rewrite elem_of_clone_links. unfold first_only. split.
  - intros Hin. right. exists (a, x). cbn [fst snd]. rewrite Hids. unfold m. by rewrite Ea.
  - intros [Hin|([z y] & Hx & _ & E)].
    + apply Hsrc in Hin. simpl in Hin. unfold m in *. lia.
    + cbn [fst snd] in E. destruct (id_get m z) as [z'|] eqn:Ez; [|done]. simpl in E. injection E as -> ->.
      apply (renamed_inv _ _ Hn) in Ez as [Hzo Ez]. apply (renamed_inj _ _ Hn) in Ez; [|done..]. by subst.
Qed.

(** Copied rows, for the two kinds of memory. *)
Lemma copied_rows {A D} (id_of : A → uuid) (data : A → D) (copy : uuid → A → A) olds start rows new :
  let m := zip olds (seq start (length olds)) in
  NoDup olds → NoDup (map id_of rows) → (∀ n r, data (copy n r) = data r) →
  map id_of new = seq start (length olds) →
  Forall2 (λ old r, ∃ r0 n, List.find (λ r, bool_decide (id_of r = old)) rows = Some r0 ∧ r = copy n r0) olds new →
  (∀ r, r ∈ rows → id_of r ∈ olds → ∃ r', r' ∈ new ∧ id_of r' = renamed m (id_of r) ∧ data r' = data r) ∧
  (∀ r', r' ∈ new → ∃ r, r ∈ rows ∧ id_of r ∈ olds ∧ id_of r' = renamed m (id_of r)).
Proof.
  intros m Hno Hnr Hdata Hids Hf.
  assert (Hat : ∀ i r', new !! i = Some r' → id_of r' = start + i).
  { intros i r' Hi. assert (Hs : map id_of new !! i = Some (id_of r')) by (by rewrite list_lookup_fmap, Hi).
    rewrite Hids, lookup_seq in Hs. naive_solver. }
  assert (Hone : ∀ r0 o, List.find (λ r, bool_decide (id_of r = o)) rows = Some r0 → r0 ∈ rows ∧ id_of r0 = o).
  { intros r0 o [Hin Ho]%find_some. apply bool_decide_eq_true in Ho. by apply list_elem_of_In in Hin. }
  split.
  - intros r Hr [i Hi]%list_elem_of_lookup.
    destruct (Forall2_lookup_l _ _ _ _ _ Hf Hi) as (r' & Hi' & r0 & n & Hfind & ->).
    exists (copy n r0). split; [by eapply list_elem_of_lookup_2|]. unfold m.
    rewrite (renamed_at _ start Hno i _ Hi), (Hat i _ Hi'), Hdata. split; [done|].
    apply Hone in Hfind as [Hr0 Eid]. f_equal. by apply (NoDup_map_inj id_of rows).
  - intros r' [i Hi]%list_elem_of_lookup.
    destruct (Forall2_lookup_r _ _ _ _ _ Hf Hi) as (o & Ho & r0 & n & Hfind & ->).
    apply Hone in Hfind as [Hr0 Eid]. exists r0. split; [done|]. rewrite Eid.
    split; [by eapply list_elem_of_lookup_2|]. unfold m. by rewrite (renamed_at _ start Hno i _ Ho), (Hat i _ Hi).
Qed.

(** ** Cloning is an isomorphism *)

(** The memories of [new] are those of [src] under the names [f] and [g], with the
    same links between them and no others; its identity, personality and documents are
    copies; and nothing of another profile has changed. *)
Record cloned (db db' : profile_db) (src new : uuid) (f g : uuid → uuid) : Prop := {
  cl_fresh : (∀ a, a ∈ semantic_ids db src → f a ∉ map s_id (semantic db)) ∧
    ∀ a, a ∈ meta_ids db src → g a ∉ map m_id (meta db);
  cl_apart_messages : (∀ l, l ∈ summary_messages db → l ∈ summary_messages db') ∧
    ∀ l, l ∈ summary_messages db' → l ∈ summary_messages db ∨ l.1 ∈ semantic_ids db' new;
  cl_apart_parents : links_apart (summary_parents db) (summary_parents db') (semantic_ids db' new) (semantic_ids db' new);
  cl_apart_sources : links_apart (meta_sources db) (meta_sources db') (meta_ids db' new) (semantic_ids db' new);
  cl_apart_metas : links_apart (meta_parents db) (meta_parents db') (meta_ids db' new) (meta_ids db' new);
  cl_identity : ∃ now, identity db' = identity db ++
    map (λ r, Identity new (role r) (expertise r) (tone r) (instructions r) now now) (filter (λ r, i_profile r = src) (identity db));
  cl_personality : ∃ now, personality db' = personality db ++
    map (λ r, Personality new (dimension r) (p_content r) (p_confidence r) (evidence_count r) now now)
      (filter (λ r, p_profile r = src) (personality db));
  cl_external : ∃ now, external db' = external db ++
    map (λ r, External new (e_content r) (e_embedding r) (source_type r) (source_ref r) now)
      (filter (λ r, e_profile r = src) (external db));
  cl_semantic : ∀ r, r ∈ semantic db → s_profile r = src →
    ∃ r', r' ∈ semantic db' ∧ s_profile r' = new ∧ s_id r' = f (s_id r) ∧ s_data r' = s_data r;
  cl_semantic_only : ∀ r', r' ∈ semantic db' → s_profile r' = new →
    ∃ r, r ∈ semantic db ∧ s_profile r = src ∧ s_id r' = f (s_id r);
  cl_meta : ∀ r, r ∈ meta db → m_profile r = src →
    ∃ r', r' ∈ meta db' ∧ m_profile r' = new ∧ m_id r' = g (m_id r) ∧ m_data r' = m_data r;
  cl_meta_only : ∀ r', r' ∈ meta db' → m_profile r' = new →
    ∃ r, r ∈ meta db ∧ m_profile r = src ∧ m_id r' = g (m_id r);
  cl_semantic_inj : ∀ a b, a ∈ semantic_ids db src → b ∈ semantic_ids db src → f a = f b → a = b;
  cl_meta_inj : ∀ a b, a ∈ meta_ids db src → b ∈ meta_ids db src → g a = g b → a = b;
  cl_summary_messages : ∀ a x, a ∈ semantic_ids db src →
    (a, x) ∈ summary_messages db ↔ (f a, x) ∈ summary_messages db';
  cl_summary_parents : ∀ a b, a ∈ semantic_ids db src → b ∈ semantic_ids db src →
    (a, b) ∈ summary_parents db ↔ (f a, f b) ∈ summary_parents db';
  cl_meta_sources : ∀ a b, a ∈ meta_ids db src → b ∈ semantic_ids db src →
    (a, b) ∈ meta_sources db ↔ (g a, f b) ∈ meta_sources db';
  cl_meta_parents : ∀ a b, a ∈ meta_ids db src → b ∈ meta_ids db src →
    (a, b) ∈ meta_parents db ↔ (g a, g b) ∈ meta_parents db';
  cl_others : ∀ r, s_profile r ≠ new → r ∈ semantic db' ↔ r ∈ semantic db;
  cl_other_metas : ∀ r, m_profile r ≠ new → r ∈ meta db' ↔ r ∈ meta db }.

Lemma pid_bound db x : profiles_ok db → x ∈ pids db → x < next_uuid db.
Proof. intros Hok Hx. apply (ok_bound _ Hok). apply elem_of_app. by left. Qed.

Lemma sid_bound db x : profiles_ok db → x ∈ sids db → x < next_uuid db.
Proof. intros Hok Hx. apply (ok_bound _ Hok). apply elem_of_app. right. apply elem_of_app. by left. Qed.

Lemma mid_bound db x : profiles_ok db → x ∈ mids db → x < next_uuid db.
Proof. intros Hok Hx. apply (ok_bound _ Hok). apply elem_of_app. right. apply elem_of_app. by right. Qed.

(** A copied row is of the new profile. *)
Lemma copied_profile {A} (id_of : A → uuid) (copy : uuid → A → A) (prof : A → uuid) pid rows olds new :
  (∀ n r, prof (copy n r) = pid) →
  Forall2 (λ old r, ∃ r0 n, List.find (λ r, bool_decide (id_of r = old)) rows = Some r0 ∧ r = copy n r0) olds new →
  ∀ r, r ∈ new → prof r = pid.
Proof.
  intros Hp Hf r [i Hi]%list_elem_of_lookup.
  by destruct (Forall2_lookup_r _ _ _ _ _ Hf Hi) as (o & _ & r0 & n & _ & ->).
Qed.

(** Copying the rows of a profile [src] under the fresh profile [pid]: the rows of [pid]
    are then exactly the copies, under other identifiers, and no other row changes. *)
Lemma cloned_rows {A D} (id_of : A → uuid) (prof : A → uuid) (data : A → D) (copy : uuid → A → A)
    pid src start rows olds new :
  let f := renamed (zip olds (seq start (length olds))) in
  NoDup (map id_of rows) → (∀ r, r ∈ rows → prof r ≠ pid) →
  (∀ n r, data (copy n r) = data r) → (∀ n r, prof (copy n r) = pid) →
  olds ≡ₚ map id_of (filter (λ r, prof r = src) rows) →
  map id_of new = seq start (length olds) →
  Forall2 (λ old r, ∃ r0 n, List.find (λ r, bool_decide (id_of r = old)) rows = Some r0 ∧ r = copy n r0) olds new →
  (∀ r, r ∈ rows → prof r = src →
     ∃ r', r' ∈ rows ++ new ∧ prof r' = pid ∧ id_of r' = f (id_of r) ∧ data r' = data r) ∧
  (∀ r', r' ∈ rows ++ new → prof r' = pid → ∃ r, r ∈ rows ∧ prof r = src ∧ id_of r' = f (id_of r)) ∧
  (∀ a b, a ∈ olds → b ∈ olds → f a = f b → a = b) ∧
  (∀ r, prof r ≠ pid → r ∈ rows ++ new ↔ r ∈ rows).
Proof.
  intros f Hnd Hold Hdata Hprof Hs Hids Hf.
  assert (Hno : NoDup olds) by (rewrite Hs; by apply NoDup_map_filter).
  destruct (copied_rows id_of data copy olds start rows new Hno Hnd Hdata Hids Hf) as [H1 H2].
  pose proof (copied_profile id_of copy prof pid _ _ _ Hprof Hf) as Hp.
  assert (Hin : ∀ r, r ∈ rows → id_of r ∈ olds ↔ prof r = src).
  { intros r Hr. rewrite Hs, elem_of_map. split.
    - intros (r' & [Ep Hr']%list_elem_of_filter & Ei).
      by rewrite <- (NoDup_map_inj id_of rows r' r Hnd Hr' Hr Ei).
    - intros Ep. exists r. by rewrite list_elem_of_filter. }
  split; [|split; [|split]].
  - intros r Hr Ep. apply (Hin r Hr) in Ep. destruct (H1 r Hr Ep) as (r' & Hr' & Ei & Ed).
    exists r'. split; [apply elem_of_app; by right|]. split; [by apply Hp|done].
  - intros r' [Hr'|Hr']%elem_of_app Ep; [by apply Hold in Hr'|].
    destruct (H2 r' Hr') as (r & Hr & Ho & Ei). exists r. split; [done|]. split; [by apply Hin|done].
  - intros a b Ha Hb. by apply (renamed_inj olds _ Hno).
  - intros r Hr. rewrite elem_of_app. split; [|by left]. intros [?|Hn]; [done|]. by apply Hp in Hn.
Qed.

(** Renamed identifiers are the identifiers of the copies. *)
Lemma renamed_ids olds start new_ids : NoDup olds → new_ids = seq start (length olds) →
  map (renamed (zip olds (seq start (length olds)))) olds = new_ids.
Proof.
  intros Hn ->. apply list_eq. intros i. change (map ?f ?l) with (f <$> l). rewrite list_lookup_fmap.
  destruct (olds !! i) as [a|] eqn:Ea; cbn [fmap option_map option_fmap].
  - rewrite (renamed_at _ start Hn i a Ea). symmetry. apply lookup_seq. split; [done|by eapply lookup_lt_Some].
  - symmetry. apply lookup_ge_None in Ea. apply lookup_ge_None. by rewrite length_seq.
Qed.

(** The identifiers of a profile that had no rows before the copies. *)
Lemma ids_of_copies {A} (id_of prof : A → uuid) rows new pid : (∀ r, r ∈ rows → prof r ≠ pid) → (∀ r, r ∈ new → prof r = pid) →
  map id_of (filter (λ r, prof r = pid) (rows ++ new)) = map id_of new.
Proof.
  intros Hr Hn. rewrite filter_app, map_app.
  assert (filter (λ r, prof r = pid) rows = []) as ->.
  { apply elem_of_nil_inv. intros r [E Hin]%list_elem_of_filter. by apply (Hr r). }
  assert (filter (λ r, prof r = pid) new = new) as ->; [|done].
  induction new as [|r new IH]; [done|]. rewrite filter_cons_True by (apply Hn; left). f_equal. apply IH.
  intros r' ?. apply Hn. by right.
Qed.

(** C18: cloning fails exactly when the source is missing, the number of profiles is at its
    limit or the name is taken. A clone has the memories of its source, each with the same
    content under a new identifier, and between them exactly the links of the source that
    have both ends in it; every new link has both ends in the clone, so that none leads
    back into the source, and a link of the source to a memory of another profile is not
    copied. The identity, the personality and the documents are copied, and no row or
    link of another profile changes. *)
Theorem clone_isomorphic maxp db now src n d : profiles_ok db →
  let refused := (∀ p, p ∈ profiles db → id p ≠ src) ∨ (maxp ≤ length (profiles db))%nat ∨ n ∈ map name (profiles db) in
  match cloneProfile maxp db now src n d with
  | Ok (p, db') => ¬ refused ∧ name p = n ∧ id p ∉ map id (profiles db) ∧ profiles db' = profiles db ++ [p] ∧
      ∃ f g, cloned db db' src (id p) f g
  | Err _ => refused
  end.
Proof.
  intros Hok refused. destruct (cloneProfile maxp db now src n d) as [[p db']|e] eqn:E; [|by apply cloneProfile_Err in E].
  split; [by eapply cloneProfile_allowed|]. pose proof (cloneProfile_name _ _ _ _ _ _ _ _ E) as En.
  apply cloneProfile_shape in E as (solds & molds & snew & mnew & smap & mmap &
    Hs & Hm & Esm & Emm & Hid & _ & _ & Hsi & Hmi & Hfs & Hfm & ->). subst smap mmap.
  split; [done|]. split; [intros Hp%(pid_bound _ _ Hok); lia|]. split; [done|].
  assert (Hso : ∀ r, r ∈ semantic db → s_profile r ≠ id p).
  { intros r Hr Er. apply (ok_semantic _ Hok), (pid_bound _ _ Hok) in Hr. lia. }
  assert (Hmo : ∀ r, r ∈ meta db → m_profile r ≠ id p).
  { intros r Hr Er. apply (ok_meta _ Hok), (pid_bound _ _ Hok) in Hr. lia. }
  assert (Hns : NoDup solds) by (rewrite Hs; apply NoDup_map_filter, Hok).
  assert (Hnm : NoDup molds) by (rewrite Hm; apply NoDup_map_filter, Hok).
  destruct (cloned_rows s_id s_profile s_data (copy_semantic (id p) now) (id p) src (S (next_uuid db))
    (semantic db) solds snew (ok_sids _ Hok) Hso (λ _ _, eq_refl) (λ _ _, eq_refl) Hs Hsi Hfs)
    as (Hs1 & Hs2 & Hs3 & Hs4).
  destruct (cloned_rows m_id m_profile m_data (copy_meta (id p) now) (id p) src
    (S (next_uuid db) + length solds) (meta db) molds mnew (ok_mids _ Hok) Hmo (λ _ _, eq_refl)
    (λ _ _, eq_refl) Hm Hmi Hfm) as (Hm1 & Hm2 & Hm3 & Hm4).
  assert (Hlt : ∀ x, x ∈ sids db ∨ x ∈ mids db → x < S (next_uuid db)).
  { intros x [Hx|Hx]; [apply (sid_bound _ _ Hok) in Hx|apply (mid_bound _ _ Hok) in Hx]; lia. }
  set (f := renamed (zip solds (seq (S (next_uuid db)) (length solds)))).
  set (g := renamed (zip molds (seq (S (next_uuid db) + length solds) (length molds)))).
  set (db' := Db _ _ _ _ _ _ _ _ _ _ _ _).
  assert (Hsn : semantic_ids db' (id p) = map f solds).
  { unfold semantic_ids, db'. cbn [semantic]. rewrite ids_of_copies; [by rewrite Hsi; symmetry; apply renamed_ids|done|].
    by apply (copied_profile s_id (copy_semantic (id p) now) s_profile (id p) (semantic db) solds). }
  assert (Hmn : meta_ids db' (id p) = map g molds).
  { unfold meta_ids, db'. cbn [meta]. rewrite ids_of_copies; [by rewrite Hmi; symmetry; apply renamed_ids|done|].
    by apply (copied_profile m_id (copy_meta (id p) now) m_profile (id p) (meta db) molds). }
  exists f, g. split; rewrite ?Hsn, ?Hmn; unfold db';
    cbn [semantic meta summary_messages summary_parents meta_sources meta_parents identity personality external]; eauto.
  - split; intros a Ha Hin.
    + rewrite <- Hs in Ha. destruct (renamed_get _ (S (next_uuid db)) Hns a Ha) as [_ H]. fold f in H.
      apply (sid_bound _ _ Hok) in Hin. lia.
    + rewrite <- Hm in Ha. destruct (renamed_get _ (S (next_uuid db) + length solds) Hnm a Ha) as [_ H]. fold g in H.
      apply (mid_bound _ _ Hok) in Hin. lia.
  - by apply first_only_apart.
  - by apply both_apart.
  - by apply both_apart.
  - by apply both_apart.
  - intros a b. rewrite <- Hs. apply Hs3.
  - intros a b. rewrite <- Hm. apply Hm3.
  - intros a x Ha. apply first_only_iso; [done|by symmetry| |by rewrite Hs].
    intros l Hl. apply Hlt. left. apply (ok_sm _ Hok l Hl).
  - intros a b Ha Hb. apply both_iso; [done..|by symmetry| |by rewrite Hs|by rewrite Hs].
    intros l Hl. apply Hlt. left. apply (ok_sp _ Hok l Hl).
  - intros a b Ha Hb. apply both_iso; [done..|by symmetry| |by rewrite Hm|by rewrite Hs].
    intros l Hl. assert (l.1 < S (next_uuid db)) by (apply Hlt; right; apply (ok_ms _ Hok l Hl)). lia.
  - intros a b Ha Hb. apply both_iso; [done..|by symmetry| |by rewrite Hm|by rewrite Hm].
    intros l Hl. assert (l.1 < S (next_uuid db)) by (apply Hlt; right; apply (ok_mp _ Hok l Hl)). lia.
Qed.

(** ** The profile of a chat *)

(** The profile that the chat's row names, if both rows exist. *)
Definition profile_of_chat (t : profile_db) (chat : string) : option AgentProfile :=
  c ← head (filter (λ c, chat_id c = chat) (chats t)); head (filter (λ p, id p = chat_profile c) (profiles t)).

Lemma find_head {A} (P : A → Prop) `{!∀ x, Decision (P x)} l : List.find (λ x, bool_decide (P x)) l = head (filter P l).
Proof.
  induction l as [|x l IH]; [done|]. rewrite filter_cons. cbn [List.find].
  destruct (decide (P x)); [by rewrite bool_decide_true|by rewrite bool_decide_false].
Qed.

Lemma getChatProfile_row t chat : getChatProfile t chat = profile_of_chat t chat.
Proof.
  unfold getChatProfile, getProfile, profile_of_chat. rewrite find_head. destruct (head _); [apply find_head|done].
Qed.

(** ** Every operation keeps the tables in order *)

Inductive profile_op :=
| Create (now : Z) (n : string) (d : option string)
| SetDefault (now : Z) (pid : uuid)
| Assign (now : Z) (chat : string) (pid : uuid)
| Delete (pid : uuid)
| Clone (now : Z) (src : uuid) (n : string) (d : option string).

(** A refused operation changes nothing. *)
Definition apply_op (maxp : nat) (db : profile_db) (op : profile_op) : profile_db :=
  match op with
  | Create now n d => match createProfile maxp db now n d with Ok (_, db) => db | Err _ => db end
  | SetDefault now pid => match setDefaultProfile db now pid with Ok db => db | Err _ => db end
  | Assign now chat pid => match assignChat db now chat pid with Ok (_, db) => db | Err _ => db end
  | Delete pid => match deleteProfile db pid with Ok db => db | Err _ => db end
  | Clone now src n d => match cloneProfile maxp db now src n d with Ok (_, db) => db | Err _ => db end
  end.

Lemma getProfile_Some db pid p : getProfile db pid = Some p → p ∈ profiles db ∧ id p = pid.
Proof. intros [Hin E]%find_some. apply bool_decide_eq_true in E. by apply list_elem_of_In in Hin. Qed.

Lemma getProfile_pids db pid p : getProfile db pid = Some p → pid ∈ pids db.
Proof. intros [Hp <-]%getProfile_Some. apply elem_of_map. by exists p. Qed.

(** The references of a table survive when the profiles only grow. *)
Lemma grown_refs {A} (f : A → uuid) (l : list A) (P Q : list uuid) :
  (∀ r, r ∈ l → f r ∈ P) → (∀ x, x ∈ P → x ∈ Q) → ∀ r, r ∈ l → f r ∈ Q.
Proof. auto. Qed.

Lemma insert_ok db n d dflt now p db1 : profiles_ok db → insert_profile db n d dflt now = Ok (p, db1) →
  (if dflt then profiles db = [] else profiles db ≠ []) → profiles_ok db1.
Proof.
  intros Hok Ei Hd. apply insert_profile_Ok in Ei as (-> & Hn & -> & _).
  set (p := Profile _ _ _ _ _ _). set (db1 := with_profiles _ _ _).
  assert (Epids : pids db1 = pids db ++ [next_uuid db]) by (unfold pids; simpl; by rewrite map_app).
  assert (Hsub : ∀ x, x ∈ pids db → x ∈ pids db1) by (intros x ?; rewrite Epids; apply elem_of_app; by left).
  split; rewrite ?Epids; try apply Hok.
  - apply NoDup_app. split; [apply Hok|]. split; [|apply NoDup_singleton].
    intros x Hx ->%list_elem_of_singleton. apply (pid_bound _ _ Hok) in Hx. lia.
  - simpl. rewrite map_app. apply NoDup_app. split; [apply Hok|]. split; [|apply NoDup_singleton].
    by intros x Hx ->%list_elem_of_singleton.
  - right. simpl. rewrite filter_app, length_app, filter_cons. simpl. destruct dflt.
    + rewrite Hd. done.
    + rewrite decide_False by done. simpl. destruct (ok_default _ Hok) as [?|E]; [done|]. by rewrite E.
  - intros x. rewrite <- app_assoc, elem_of_app, (elem_of_app [_]), list_elem_of_singleton. simpl.
    intros [Hx|[->|Hx]]; [|lia|]; (assert (x < next_uuid db); [|lia]); apply (ok_bound _ Hok);
      apply elem_of_app; auto.
  - rewrite <- Epids. apply (grown_refs _ _ _ _ (ok_chats _ Hok) Hsub).
  - rewrite <- Epids. apply (grown_refs _ _ _ _ (ok_semantic _ Hok) Hsub).
  - rewrite <- Epids. apply (grown_refs _ _ _ _ (ok_meta _ Hok) Hsub).
  - rewrite <- Epids. apply (grown_refs _ _ _ _ (ok_external _ Hok) Hsub).
  - rewrite <- Epids. apply (grown_refs _ _ _ _ (ok_identity _ Hok) Hsub).
  - rewrite <- Epids. apply (grown_refs _ _ _ _ (ok_personality _ Hok) Hsub).
Qed.

Lemma default_id pid now q : id (make_default pid now (unset_default now q)) = id q.
Proof. unfold make_default, unset_default. by destruct (isDefault q); simpl; case_decide. Qed.

Lemma default_name pid now q : name (make_default pid now (unset_default now q)) = name q.
Proof. unfold make_default, unset_default. by destruct (isDefault q); simpl; case_decide. Qed.

Lemma default_flag pid now q : isDefault (make_default pid now (unset_default now q)) = true ↔ id q = pid.
Proof.
  unfold make_default, unset_default. destruct (isDefault q) eqn:Ed; simpl;
    destruct (decide (id q = pid)); simpl; split; congruence.
Qed.

Lemma count_default l pid now : NoDup (map id l) → pid ∈ map id l →
  length (filter (λ p, isDefault p = true) (map (make_default pid now) (map (unset_default now) l))) = 1.
Proof.
  assert (Hnone : ∀ l, pid ∉ map id l →
    filter (λ p, isDefault p = true) (map (make_default pid now) (map (unset_default now) l)) = []).
  { intros l'. induction l' as [|q l' IH]; simpl; [done|]. intros [Hq Hl]%not_elem_of_cons. rewrite filter_cons.
    rewrite decide_False by (rewrite default_flag; congruence). auto. }
  induction l as [|q l IH]; simpl; [by intros _ ?%elem_of_nil|]. intros [Hq Hnd]%NoDup_cons Hin.
  rewrite filter_cons. destruct (decide (id q = pid)) as [E|Hne].
  - rewrite decide_True by (by apply default_flag). simpl. rewrite E in Hq. by rewrite Hnone.
  - rewrite decide_False by (by rewrite default_flag). apply elem_of_cons in Hin as [?|Hin]; [congruence|auto].
Qed.

Lemma setDefault_ok db now pid db1 : profiles_ok db → setDefaultProfile db now pid = Ok db1 → profiles_ok db1.
Proof.
  intros Hok. unfold setDefaultProfile. destruct (getProfile db pid) as [p|] eqn:Ep; [|done].
  destruct (isDefault p); [by intros [= <-]|]. set (l' := map _ (map _ _)). intros [= <-].
  assert (Hid : map id l' = pids db).
  { unfold l', pids. rewrite !map_map. apply map_ext, default_id. }
  assert (Hnm : map name l' = map name (profiles db)).
  { unfold l'. rewrite !map_map. apply map_ext, default_name. }
  split; unfold pids; cbn [profiles with_profiles chats semantic meta external identity personality
    summary_messages summary_parents meta_sources meta_parents next_uuid]; rewrite ?Hid, ?Hnm; try apply Hok.
  right. apply count_default; [apply Hok|]. by eapply getProfile_pids.
Qed.

Lemma assign_ok db now chat pid q db1 : profiles_ok db → assignChat db now chat pid = Ok (q, db1) → profiles_ok db1.
Proof.
  intros Hok. unfold assignChat. destruct (getProfile db pid) as [p|] eqn:Ep; [|done].
  destruct (List.find _ _); [|done]. intros [= <- <-]. split; try apply Hok.
  intros c' (c0 & Hc0 & <-)%elem_of_map. case_decide; [|by apply (ok_chats _ Hok)].
  cbn [chat_profile]. by eapply getProfile_pids.
Qed.

Lemma kept_id {A} (f g : A → uuid) (l : list A) pid x : x ∈ map f l →
  x ∉ map f (filter (λ r, g r = pid) l) → x ∈ map f (filter (λ r, g r ≠ pid) l).
Proof.
  rewrite !elem_of_map. intros (r & Hr & <-) Hn. exists r. split; [|done]. apply list_elem_of_filter.
  split; [|done]. intros E. apply Hn. exists r. by rewrite list_elem_of_filter.
Qed.

Lemma filter_keeps {A} (P Q : A → Prop) `{!∀ x, Decision (P x)} `{!∀ x, Decision (Q x)} (l : list A) :
  (∀ x, x ∈ l → P x → Q x) → filter P (filter Q l) = filter P l.
Proof.
  induction l as [|a l IH]; intros Hl; [done|]. rewrite (filter_cons P), (filter_cons Q).
  assert (IH' : filter P (filter Q l) = filter P l) by (apply IH; intros x ?; apply Hl; by right).
  destruct (decide (Q a)) as [Hq|Hq].
  - rewrite filter_cons, IH'. done.
  - rewrite IH', decide_False; [done|]. intros Hp. apply Hq, Hl; [left|done].
Qed.

Lemma delete_ok db pid db1 : profiles_ok db → deleteProfile db pid = Ok db1 → profiles_ok db1.
Proof.
  intros Hok. unfold deleteProfile. destruct (getProfile db pid) as [p|] eqn:Ep; [|done].
  destruct (isDefault p) eqn:Ed; [done|]. destruct (existsb _ _) eqn:Ec; [done|]. intros [= <-].
  apply getProfile_Some in Ep as [Hp Eid].
  assert (Hpid : ∀ x, x ∈ pids db → x ≠ pid → x ∈ map id (filter (λ p, id p ≠ pid) (profiles db))).
  { intros x (q & Hq & <-)%elem_of_map Hne. apply elem_of_map. exists q. by rewrite list_elem_of_filter. }
  assert (Href : ∀ {A} (f : A → uuid) (l : list A), (∀ r, r ∈ l → f r ∈ pids db) →
    ∀ r, r ∈ filter (λ r, f r ≠ pid) l → f r ∈ map id (filter (λ p, id p ≠ pid) (profiles db))).
  { intros A f l Hl r [Hne Hr]%list_elem_of_filter. auto. }
  split; cbn [pids delete_rows profiles chats semantic meta external identity personality summary_messages
    summary_parents meta_sources meta_parents next_uuid]; unfold pids, sids, mids;
    cbn [delete_rows profiles semantic meta].
  - apply NoDup_map_filter, Hok.
  - apply NoDup_map_filter, Hok.
  - right. destruct (ok_default _ Hok) as [E|E]; [rewrite E in Hp; by apply elem_of_nil in Hp|].
    rewrite <- E. f_equal. apply filter_keeps. intros q Hq Hq' Eq.
    rewrite (NoDup_map_inj id (profiles db) q p (ok_pids _ Hok) Hq Hp) in Hq'; congruence.
  - apply NoDup_map_filter, Hok.
  - apply NoDup_map_filter, Hok.
  - intros x Hx. apply (ok_bound _ Hok). rewrite !elem_of_app in *.
    destruct Hx as [Hx|[Hx|Hx]]; apply elem_of_ids in Hx; auto.
  - intros c Hc. apply Hpid; [by apply (ok_chats _ Hok)|]. intros E. revert Ec. apply not_false_iff_true.
    apply existsb_exists. exists c. split; [by apply list_elem_of_In|]. by apply bool_decide_eq_true.
  - apply Href, (ok_semantic _ Hok).
  - apply Href, (ok_meta _ Hok).
  - apply Href, (ok_external _ Hok).
  - apply Href, (ok_identity _ Hok).
  - apply Href, (ok_personality _ Hok).
  - apply NoDup_map_filter, Hok.
  - apply NoDup_map_filter, Hok.
  - intros l [Hl Hin]%list_elem_of_filter. apply kept_id; [by apply (ok_sm _ Hok)|done].
  - intros l [[H1 H2] Hin]%list_elem_of_filter. destruct (ok_sp _ Hok l Hin). split; by apply kept_id.
  - intros l [[H1 H2] Hin]%list_elem_of_filter. destruct (ok_ms _ Hok l Hin). split; by apply kept_id.
  - intros l [[H1 H2] Hin]%list_elem_of_filter. destruct (ok_mp _ Hok l Hin). split; by apply kept_id.
Qed.

Lemma NoDup_map_weaken {A B C} (f : A → B) (g : A → C) (l : list A) : NoDup (map f l) →
  (∀ x y, x ∈ l → y ∈ l → g x = g y → f x = f y) → NoDup (map g l).
Proof.
  induction l as [|a l IH]; simpl; [intros _ _; apply NoDup_nil_2|].
  intros [Ha Hl]%NoDup_cons Hg. apply NoDup_cons. split.
  - rewrite elem_of_map. intros (x & Hx & E). apply Ha. apply elem_of_map. exists x. split; [done|].
    apply Hg; [by right|left|done].
  - apply IH; [done|]. intros x y Hx Hy. apply Hg; by right.
Qed.

(** New keys, all of them above the old ones. *)
Lemma NoDup_app_seq (l : list nat) start n : NoDup l → (∀ x, x ∈ l → x < start) → NoDup (l ++ seq start n).
Proof.
  intros Hl Hb. apply NoDup_app. split; [done|]. split; [|apply NoDup_ListNoDup, seq_NoDup].
  intros x Hx Hs%elem_of_seq. apply Hb in Hx. lia.
Qed.

Lemma clone_source maxp db now src n d p db' : cloneProfile maxp db now src n d = Ok (p, db') →
  src ∈ pids db ∧ (length (profiles db) < maxp)%nat.
Proof.
  unfold cloneProfile. destruct (getProfile db src) as [q|] eqn:Eq; [|done].
  apply getProfile_pids in Eq. unfold limit_reached. destruct (_ <=? _)%nat eqn:El; [done|].
  apply Nat.leb_gt in El. done.
Qed.

(** The ends of the links of a clone are memories. *)
Lemma both_ends olds1 start1 olds2 start2 ids (src : list (uuid * uuid)) (P Q : list uuid) l :
  NoDup olds1 → NoDup olds2 → (∀ l, l ∈ src → l.1 ∈ P ∧ l.2 ∈ Q) →
  l ∈ clone_links (both (zip olds1 (seq start1 (length olds1))) (zip olds2 (seq start2 (length olds2)))) ids src src →
  l.1 ∈ P ++ seq start1 (length olds1) ∧ l.2 ∈ Q ++ seq start2 (length olds2).
Proof.
  intros Hn1 Hn2 Hsrc. rewrite elem_of_clone_links, !elem_of_app, !elem_of_seq.
  intros [Hl|([x y] & _ & _ & E)]; [by destruct (Hsrc l Hl); auto|]. unfold both in E. cbn [fst snd] in E.
  destruct (id_get _ x) as [x'|] eqn:Ex; [|done]. destruct (id_get _ y) as [y'|] eqn:Ey; [|done].
  injection E as <-. apply (renamed_inv _ _ Hn1) in Ex as [Hx ->]. apply (renamed_inv _ _ Hn2) in Ey as [Hy ->].
  destruct (renamed_get olds1 start1 Hn1 x Hx) as [_ ?], (renamed_get olds2 start2 Hn2 y Hy) as [_ ?]. auto.
Qed.

Lemma NoDup_copied_keys {A K} (key key' : A → K) (prof : A → uuid) src rows :
  NoDup (map key rows) → (∀ r r', r ∈ rows → key r ≠ key' r') →
  (∀ r r', prof r = src → prof r' = src → key' r = key' r' → key r = key r') →
  NoDup (map key rows ++ map key' (filter (λ r, prof r = src) rows)).
Proof.
  intros Hnd Hne Hinj. apply NoDup_app. split; [done|]. split.
  - intros x (r & Hr & <-)%elem_of_map (r' & _ & E)%elem_of_map. by apply (Hne r r').
  - apply (NoDup_map_weaken key); [by apply NoDup_map_filter|].
    intros r r' [Er _]%list_elem_of_filter [Er' _]%list_elem_of_filter. by apply Hinj.
Qed.

Lemma first_only_ends olds start a x (new := seq start (length olds)) :
  NoDup olds → first_only (zip olds new) a = Some x → x.1 ∈ new.
Proof.
  intros Hno E. unfold first_only in E. destruct (id_get _ a.1) as [y|] eqn:Ey; [|done].
  injection E as <-. cbn [fst]. unfold new in Ey. apply (renamed_inv _ _ Hno) in Ey as [Hx ->].
  apply elem_of_seq. by destruct (renamed_get olds start Hno _ Hx).
Qed.

Lemma clone_ok maxp db now src n d p db' : profiles_ok db → cloneProfile maxp db now src n d = Ok (p, db') →
  profiles_ok db'.
Proof.
  intros Hok E. destruct (clone_source _ _ _ _ _ _ _ _ E) as [Hsrc _].
  apply cloneProfile_shape in E as (solds & molds & snew & mnew & smap & mmap &
    Hs & Hm & -> & -> & Hid & Hdef & Hname & Hsi & Hmi & Hfs & Hfm & ->).
  assert (Hns : NoDup solds) by (rewrite Hs; apply NoDup_map_filter, Hok).
  assert (Hnm : NoDup molds) by (rewrite Hm; apply NoDup_map_filter, Hok).
  pose proof (copied_profile s_id (copy_semantic (id p) now) s_profile (id p) _ _ _ (λ _ _, eq_refl) Hfs) as Hsp.
  pose proof (copied_profile m_id (copy_meta (id p) now) m_profile (id p) _ _ _ (λ _ _, eq_refl) Hfm) as Hmp.
  assert (Hsub : ∀ x, x ∈ pids db → x ∈ pids db ++ [id p]) by (intros; apply elem_of_app; by left).
  assert (Hpb : ∀ x, x ∈ pids db → x ≠ id p) by (intros x Hx; apply (pid_bound _ _ Hok) in Hx; lia).
  assert (Hnew : ∀ {A} (f : A → uuid) (l new : list A), (∀ r, r ∈ l → f r ∈ pids db) →
    (∀ r, r ∈ new → f r = id p) → ∀ r, r ∈ l ++ new → f r ∈ pids db ++ [id p]).
  { intros A f l new Hl Hn r [Hr|Hr]%elem_of_app; [by apply Hsub, Hl|]. rewrite (Hn r Hr).
    apply elem_of_app. right. left. }
  assert (Hmap : ∀ {A B} (f : B → uuid) (g : A → B) (l : list A), (∀ a, f (g a) = id p) →
    ∀ r, r ∈ map g l → f r = id p) by (intros A B f g l Hg r (a & _ & <-)%elem_of_map; apply Hg).
  split; unfold pids, sids, mids; cbn [profiles chats semantic meta external identity personality
    summary_messages summary_parents meta_sources meta_parents next_uuid];
    rewrite ?map_app, ?Hsi, ?Hmi; cbn [map].
  - apply NoDup_app. split; [apply Hok|]. split; [|apply NoDup_singleton].
    intros x Hx ->%list_elem_of_singleton. by apply (Hpb _ Hx).
  - apply NoDup_app. split; [apply Hok|]. split; [|apply NoDup_singleton].
    by intros x Hx ->%list_elem_of_singleton.
  - right. rewrite filter_app, length_app, filter_cons, decide_False by congruence. simpl.
    destruct (ok_default _ Hok) as [E0|E]; [|by rewrite E]. unfold pids in Hsrc. rewrite E0 in Hsrc.
    by apply elem_of_nil in Hsrc.
  - apply NoDup_app_seq; [apply Hok|]. intros x Hx. apply (sid_bound _ _ Hok) in Hx. lia.
  - apply NoDup_app_seq; [apply Hok|]. intros x Hx. apply (mid_bound _ _ Hok) in Hx. lia.
  - intros x. rewrite !elem_of_app, list_elem_of_singleton, !elem_of_seq.
    intros [[Hx|Hx]|[[Hx|?]|[Hx|?]]]; try lia;
      [apply (pid_bound _ _ Hok) in Hx|apply (sid_bound _ _ Hok) in Hx|apply (mid_bound _ _ Hok) in Hx]; lia.
  - intros c Hc. by apply Hsub, (ok_chats _ Hok).
  - apply Hnew; [apply Hok|exact Hsp].
  - apply Hnew; [apply Hok|exact Hmp].
  - apply Hnew; [apply Hok|by apply Hmap].
  - apply Hnew; [apply Hok|by apply Hmap].
  - apply Hnew; [apply Hok|by apply Hmap].
  - rewrite map_map. apply NoDup_copied_keys; [apply Hok| |by intros r r' -> ->].
    intros r r' Hr. apply Hpb, (ok_identity _ Hok r Hr).
  - rewrite map_map. apply NoDup_copied_keys; [apply Hok| |].
    + intros r r' Hr [= E _]. by apply (Hpb _ (ok_personality _ Hok r Hr)).
    + intros r r' -> -> [= E]. by rewrite E.
  - intros l. rewrite elem_of_clone_links, elem_of_app.
    intros [Hl|(x & _ & _ & E)]; [left; by apply (ok_sm _ Hok)|right]. by apply first_only_ends in E.
  - intros l. apply both_ends; [done..|]. apply Hok.
  - intros l. apply both_ends; [done..|]. apply Hok.
  - intros l. apply both_ends; [done..|]. apply Hok.
Qed.

Lemma apply_op_ok maxp db op : profiles_ok db → profiles_ok (apply_op maxp db op).
Proof.
  intros Hok. destruct op as [now n d|now pid|now chat pid|pid|now src n d]; simpl.
  - unfold createProfile. destruct (limit_reached maxp db); [done|].
    destruct (insert_profile _ _ _ _ _) as [[p db1]|] eqn:E; [|done].
    apply (insert_ok _ _ _ _ _ _ _ Hok E). by destruct (profiles db).
  - destruct (setDefaultProfile _ _ _) eqn:E; [|done]. by eapply setDefault_ok.
  - destruct (assignChat _ _ _ _) as [[q db1]|] eqn:E; [|done]. by eapply assign_ok.
  - destruct (deleteProfile _ _) eqn:E; [|done]. by eapply delete_ok.
  - destruct (cloneProfile _ _ _ _ _ _) as [[p db1]|] eqn:E; [|done]. by eapply clone_ok.
Qed.

Lemma apply_op_count maxp db op : (length (profiles db) ≤ maxp → length (profiles (apply_op maxp db op)) ≤ maxp)%nat.
Proof.
  intros Hlen. destruct op as [now n d|now pid|now chat pid|pid|now src n d]; simpl.
  - unfold createProfile, limit_reached. destruct (maxp <=? _)%nat eqn:El; [done|]. apply Nat.leb_gt in El.
    destruct (insert_profile _ _ _ _ _) as [[p db1]|] eqn:E; [|done].
    apply insert_profile_Ok in E as (_ & _ & -> & _). simpl. rewrite length_app. simpl. lia.
  - unfold setDefaultProfile. destruct (getProfile db pid) as [p|]; [|done]. destruct (isDefault p); [done|].
    simpl. by rewrite !length_map.
  - unfold assignChat. destruct (getProfile db pid); [|done]. by destruct (List.find _ _).
  - unfold deleteProfile. destruct (getProfile db pid) as [p|]; [|done]. destruct (isDefault p); [done|].
    destruct (existsb _ _); [done|]. simpl. etransitivity; [apply length_filter|done].
  - destruct (cloneProfile _ _ _ _ _ _) as [[p db1]|] eqn:E; [|done].
    destruct (clone_source _ _ _ _ _ _ _ _ E) as [_ Hlt].
    apply cloneProfile_shape in E as (? & ? & ? & ? & ? & ? & E). unfold clone_shape in E.
    destruct E as (_ & _ & _ & _ & _ & _ & _ & _ & _ & _ & _ & ->). simpl. rewrite length_app. simpl. lia.
Qed.

(** Whatever is created, cloned, deleted, assigned or made the default, in whatever
    order: exactly one profile is the default as soon as there is one, the limit holds,
    and no chat, memory or link refers to a row that does not exist. *)
Theorem profiles_stay_ok maxp db ops : profiles_ok db → (length (profiles db) ≤ maxp)%nat →
  profiles_ok (fold_left (apply_op maxp) ops db) ∧
  (length (profiles (fold_left (apply_op maxp) ops db)) ≤ maxp)%nat.
Proof.
  revert db. induction ops as [|op ops IH]; intros db Hok Hlen; simpl; [done|].
  apply IH; [by apply apply_op_ok|by apply apply_op_count].
Qed.

(** A profile is deleted exactly when it exists, is not the default and has no chat;
    no row of it is left then, and the rows of the others and the links between their
    memories stay. *)
Theorem deleteProfile_complete db pid : profiles_ok db →
  (is_ok (deleteProfile db pid) = true ↔
     ∃ p, getProfile db pid = Some p ∧ isDefault p = false ∧ ∀ c, c ∈ chats db → chat_profile c ≠ pid) ∧
  ∀ db', deleteProfile db pid = Ok db' →
    getProfile db' pid = None ∧ semantic_ids db' pid = [] ∧ meta_ids db' pid = [] ∧
    (∀ r, r ∈ semantic db' ↔ r ∈ semantic db ∧ s_profile r ≠ pid) ∧
    (∀ r, r ∈ meta db' ↔ r ∈ meta db ∧ m_profile r ≠ pid) ∧
    (∀ a b, a ∉ semantic_ids db pid → b ∉ semantic_ids db pid →
       (a, b) ∈ summary_parents db' ↔ (a, b) ∈ summary_parents db) ∧
    (∀ a b, a ∉ meta_ids db pid → b ∉ semantic_ids db pid →
       (a, b) ∈ meta_sources db' ↔ (a, b) ∈ meta_sources db).
Proof.
  intros Hok. unfold deleteProfile. split.
  - destruct (getProfile db pid) as [p|]; [|split; [done|by intros (? & ? & _)]].
    destruct (isDefault p) eqn:Ed; [split; [done|intros (q & [= <-] & ? & _); congruence]|].
    destruct (existsb _ _) eqn:Ec; split; try done.
    + intros (q & _ & _ & Hn). apply existsb_exists in Ec as (c & Hc & Ep). apply bool_decide_eq_true in Ep.
      apply list_elem_of_In in Hc. by apply Hn in Hc.
    + intros _. exists p. split; [done|]. split; [done|]. intros c Hc Ep. revert Ec. apply not_false_iff_true.
      apply existsb_exists. exists c. split; [by apply list_elem_of_In|]. by apply bool_decide_eq_true.
  - intros db'. destruct (getProfile db pid) as [p|]; [|done]. destruct (isDefault p); [done|].
    destruct (existsb _ _); [done|]. intros [= <-].
    assert (Hnil : ∀ {A} (f g : A → uuid) (l : list A),
      map f (filter (λ r, g r = pid) (filter (λ r, g r ≠ pid) l)) = []).
    { intros A f g l. induction l as [|a l IH]; [done|]. rewrite (filter_cons (λ r, g r ≠ pid)).
      case_decide as Hne; [|done]. rewrite filter_cons, decide_False; done. }
    split; [|split; [apply Hnil|split; [apply Hnil|]]].
    + destruct (getProfile (delete_rows db pid) pid) as [q|] eqn:Eq; [|done].
      apply getProfile_Some in Eq as [Hq Eq]. simpl in Hq. by apply list_elem_of_filter in Hq as [? _].
    + split; [intros r; simpl; rewrite list_elem_of_filter; naive_solver|].
      split; [intros r; simpl; rewrite list_elem_of_filter; naive_solver|].
      split; intros a b Ha Hb; simpl; rewrite list_elem_of_filter; naive_solver.
Qed.

(** ** A clone of two summaries and an insight *)

Definition example_data (c : string) : semantic_data :=
  SemanticData c [] "summary" (S754_zero false) 0 10 None None None.

Definition example_db : profile_db :=
  Db [Profile 0 "default" None true 0 0; Profile 5 "work" None false 0 0] [Chat "c1" 0 0]
    [Semantic 1 0 (example_data "day") 0 0 0 0; Semantic 2 0 (example_data "week") 0 0 0 3]
    [Meta 3 0 (MetaData "insight" [] "insight" (S754_zero false) 0) 0 0 0] []
    [Identity 0 "assistant" [] "warm" None 0 0] [] [(1, ("m1", "c1"))] [(2, 1)] [(3, 2)] [] 6.

Lemma example_db_ok : profiles_ok example_db.
Proof.
  split; try (apply (bool_decide_unpack _); vm_compute; exact I); try (by intros ? ?%elem_of_nil).
  - apply Forall_forall. repeat (apply Forall_cons; split; [vm_compute; lia|]). apply Forall_nil_2.
  - intros c ->%list_elem_of_singleton. left.
  - apply Forall_forall. repeat (apply Forall_cons; split; [left|]). apply Forall_nil_2.
  - intros r ->%list_elem_of_singleton. left.
  - intros r ->%list_elem_of_singleton. left.
  - intros r ->%list_elem_of_singleton. left.
  - intros r ->%list_elem_of_singleton. split; [right; left|left].
  - intros r ->%list_elem_of_singleton. split; [left|right; left].
Qed.

Lemma clone_isomorphic_witness :
  ∃ p db', cloneProfile 5 example_db 100 0 "copy" None = Ok (p, db') ∧
    summary_parents db' = [(2, 1); (8, 7)] ∧ meta_sources db' = [(3, 2); (9, 8)] ∧
    ∃ f g, cloned example_db db' 0 (id p) f g.
Proof.
  pose proof (clone_isomorphic 5 example_db 100 0 "copy" None example_db_ok) as H. cbv zeta in H.
  destruct (cloneProfile 5 example_db 100 0 "copy" None) as [[p db']|] eqn:E; [|vm_compute in E; discriminate E].
  exists p, db'. split; [reflexivity|]. destruct H as (_ & _ & _ & _ & H).
  split; [|split]; [vm_compute in E; injection E as _ <-; reflexivity..|exact H].
Defined.

Lemma profiles_stay_ok_witness :
  profiles_ok (fold_left (apply_op 5) [Clone 100 0 "copy" None; Assign 101 "c1" 6; SetDefault 102 6; Delete 0]
    example_db) ∧
  (length (profiles (fold_left (apply_op 5) [Clone 100 0 "copy" None; Assign 101 "c1" 6; SetDefault 102 6; Delete 0]
    example_db)) ≤ 5)%nat.
Proof. apply profiles_stay_ok; [exact example_db_ok|simpl; lia]. Defined.

Lemma deleteProfile_complete_witness :
  (is_ok (deleteProfile example_db 5) = true ↔
     ∃ p, getProfile example_db 5 = Some p ∧ isDefault p = false ∧
          ∀ c, c ∈ chats example_db → chat_profile c ≠ 5) ∧
  getProfile (delete_rows example_db 5) 5 = None.
Proof.
  destruct (deleteProfile_complete example_db 5 example_db_ok) as [H1 H2]. split; [exact H1|].
  apply (H2 (delete_rows example_db 5)). reflexivity.
Defined.
