(* ===== verification/Identity.v ===== *)
(** * Identity and personality

    [src/orchestrator/identity.ts]: the identity and personality of an agent, by
    profile, those of the user, the proposals to change an identity, and the XML
    context an agent is given.  The agent's rows are those of [Profiles.v], with the
    checks and foreign keys of [src/orchestrator/schema.sql]; a method is one atomic
    operation.  A column of type REAL gives back [real x] for [x]. *)

From Stdlib Require Import Ascii.
From S2P Require Import Prelude JsMap JsString JsNumber Profiles.
Local Open Scope fh_scope.
Local Open Scope string_scope.
Local Open Scope list_scope.

(** ** Confidence *)

Definition confirmConfidence (current : spec_float) : spec_float :=
  js_min (hundredths 95) (plus current (times (minus (double 1) current) (hundredths 10))).

Definition contradictConfidence (current : spec_float) : spec_float :=
  js_max (hundredths 10) (times current (hundredths 80)).

(** ** Tables *)

Definition AGENT_DIMENSIONS : list string :=
  ["communication_style"; "humor"; "emotional_register"; "values"; "rapport"; "boundaries"].

Definition USER_DIMENSIONS : list string :=
  ["communication_style"; "work_patterns"; "decision_making"; "priorities"; "preferences"; "boundaries"].

Definition SOURCES : list string := ["inferred"; "declared"; "onboarding"].

Record UserIdentity := User {
  u_name : option string;
  u_role : option string;
  organization : option string;
  timezone : option string;
  language : option string;
  contact : jvalue;
  notes : option string;
  u_created : Z;
  u_updated : Z }.

(** The argument of [updateUserIdentity]. *)
Record user_fields := UserFields {
  f_name : option string;
  f_role : option string;
  f_organization : option string;
  f_timezone : option string;
  f_language : option string;
  f_contact : option jvalue;
  f_notes : option string }.

Record UserPersonalityEntry := Trait {
  t_dimension : string;
  t_content : string;
  t_confidence : spec_float;
  t_evidence : Z;
  t_source : string;
  t_created : Z;
  t_updated : Z }.

Record IdentityProposal := Proposal {
  pr_profile : uuid;
  pr_field : string;
  pr_newValue : string;
  pr_reason : string;
  pr_createdAt : Z }.

(** [state] holds the rows of that table that are proposals. *)
Record identity_db := IdentityDb {
  tables : profile_db;
  user_identity : list UserIdentity;
  user_personality : list UserPersonalityEntry;
  state : jsmap IdentityProposal }.

Definition with_identity (db : identity_db) (l : list identity_row) : identity_db :=
  let t := tables db in
  IdentityDb (Db (profiles t) (chats t) (semantic t) (meta t) (external t) l (personality t)
    (summary_messages t) (summary_parents t) (meta_sources t) (meta_parents t) (next_uuid t))
    (user_identity db) (user_personality db) (state db).

Definition with_personality (db : identity_db) (l : list personality_row) : identity_db :=
  let t := tables db in
  IdentityDb (Db (profiles t) (chats t) (semantic t) (meta t) (external t) (identity t) l
    (summary_messages t) (summary_parents t) (meta_sources t) (meta_parents t) (next_uuid t))
    (user_identity db) (user_personality db) (state db).

Definition with_traits (db : identity_db) (l : list UserPersonalityEntry) : identity_db :=
  IdentityDb (tables db) (user_identity db) l (state db).

Definition with_users (db : identity_db) (l : list UserIdentity) : identity_db :=
  IdentityDb (tables db) l (user_personality db) (state db).

Definition with_state (db : identity_db) (l : jsmap IdentityProposal) : identity_db :=
  IdentityDb (tables db) (user_identity db) (user_personality db) l.

(** ** Agent identity *)

Definition profile_exists (db : identity_db) (pid : uuid) : bool :=
  bool_decide (pid ∈ pids (tables db)).

Definition getAgentIdentity (db : identity_db) (pid : uuid) : option identity_row :=
  List.find (λ r, bool_decide (i_profile r = pid)) (identity (tables db)).

Definition update_identity (db : identity_db) (pid : uuid) (f : identity_row → identity_row) : identity_db :=
  with_identity db (map (λ r, if decide (i_profile r = pid) then f r else r) (identity (tables db))).

Definition setAgentIdentity (db : identity_db) (now : Z) (pid : uuid) (role : string)
    (expertise : list string) (tone : string) (instructions : option string) :
    result (identity_row * identity_db) :=
  match getAgentIdentity db pid with
  | Some old =>
      let row (r : identity_row) := Identity pid role expertise tone instructions (i_created r) now in
      Ok (row old, update_identity db pid row)
  | None =>
      if profile_exists db pid then
        let row := Identity pid role expertise tone instructions now now in
        Ok (row, with_identity db (identity (tables db) ++ [row]))
      else Err "violates foreign key constraint"
  end.

(** ** Personality *)

Definition INT_MAX : Z := 2147483647.

(** [ORDER BY dimension] *)
Definition dim_le {A} (dim : A → string) (x y : A) : Prop := String.leb (dim x) (dim y) = true.

#[export] Instance dim_le_dec {A} (dim : A → string) x y : Decision (dim_le dim x y).
Proof. unfold dim_le. apply _. Defined.

Definition getAgentPersonality (db : identity_db) (pid : uuid) : list personality_row :=
  merge_sort (dim_le dimension) (filter (λ r, p_profile r = pid) (personality (tables db))).

Definition agent_entry (pid : uuid) (dim : string) (r : personality_row) : bool :=
  bool_decide (p_profile r = pid ∧ dimension r = dim).

Definition trait_of (dim : string) (r : UserPersonalityEntry) : bool := bool_decide (t_dimension r = dim).

Definition deleteAgentPersonality (db : identity_db) (pid : uuid) (dim : string) : bool * identity_db :=
  (existsb (agent_entry pid dim) (personality (tables db)),
   with_personality db (List.filter (λ r, negb (agent_entry pid dim r)) (personality (tables db)))).

Definition getUserPersonality (db : identity_db) : list UserPersonalityEntry :=
  merge_sort (dim_le t_dimension) (user_personality db).

Definition deleteUserPersonality (db : identity_db) (dim : string) : bool * identity_db :=
  (existsb (trait_of dim) (user_personality db),
   with_traits db (List.filter (λ r, negb (trait_of dim r)) (user_personality db))).

Section Observe.
Context (real : spec_float → spec_float).

Definition confirmed (now : Z) (content : string) (r : personality_row) : personality_row :=
  Personality (p_profile r) (dimension r) content (real (confirmConfidence (p_confidence r)))
    (evidence_count r + 1) (p_created r) now.

Definition observeAgentPersonality (db : identity_db) (now : Z) (pid : uuid) (dim content : string) :
    result (personality_row * identity_db) :=
  match List.find (agent_entry pid dim) (personality (tables db)) with
  | Some old =>
      if (evidence_count old + 1 <=? INT_MAX)%Z then
        Ok (confirmed now content old,
            with_personality db (map (λ r, if agent_entry pid dim r then confirmed now content r else r)
                                   (personality (tables db))))
      else Err "integer out of range"
  | None =>
      if negb (bool_decide (dim ∈ AGENT_DIMENSIONS)) then Err "violates check constraint"
      else if negb (profile_exists db pid) then Err "violates foreign key constraint"
      else
        let row := Personality pid dim content (real (hundredths 80)) 1 now now in
        Ok (row, with_personality db (personality (tables db) ++ [row]))
  end.

Definition confirmed_trait (now : Z) (content source : string) (r : UserPersonalityEntry) : UserPersonalityEntry :=
  Trait (t_dimension r) content (real (confirmConfidence (t_confidence r))) (t_evidence r + 1) source
    (t_created r) now.

Definition initialConfidence (source : string) : spec_float :=
  if bool_decide (source = "declared" ∨ source = "onboarding") then hundredths 70 else hundredths 30.

Definition observeUserPersonality (db : identity_db) (now : Z) (dim content source : string) :
    result (UserPersonalityEntry * identity_db) :=
  if negb (bool_decide (source ∈ SOURCES)) then Err "violates check constraint" else
  match List.find (trait_of dim) (user_personality db) with
  | Some old =>
      if (t_evidence old + 1 <=? INT_MAX)%Z then
        Ok (confirmed_trait now content source old,
            with_traits db (map (λ r, if trait_of dim r then confirmed_trait now content source r else r)
                              (user_personality db)))
      else Err "integer out of range"
  | None =>
      if negb (bool_decide (dim ∈ USER_DIMENSIONS)) then Err "violates check constraint"
      else
        let row := Trait dim content (real (initialConfidence source)) 1 source now now in
        Ok (row, with_traits db (user_personality db ++ [row]))
  end.
End Observe.

(** ** User identity *)

Definition getUserIdentity (db : identity_db) : option UserIdentity := head (user_identity db).

(** [COALESCE(v, old)] *)
Definition coalesce {A} (v old : option A) : option A := match v with Some _ => v | None => old end.

Definition update_user (now : Z) (f : user_fields) (u : UserIdentity) : UserIdentity :=
  User (coalesce (f_name f) (u_name u)) (coalesce (f_role f) (u_role u))
    (coalesce (f_organization f) (organization u)) (coalesce (f_timezone f) (timezone u))
    (coalesce (f_language f) (language u)) (default (contact u) (f_contact f))
    (coalesce (f_notes f) (notes u)) (u_created u) now.

Definition insert_user (now : Z) (f : user_fields) : UserIdentity :=
  User (f_name f) (f_role f) (f_organization f) (f_timezone f) (Some (default "en" (f_language f)))
    (default (JObj []) (f_contact f)) (f_notes f) now now.

(** The update has no condition: it changes every row of the table. *)
Definition updateUserIdentity (db : identity_db) (now : Z) (f : user_fields) : UserIdentity * identity_db :=
  match getUserIdentity db with
  | Some u => (update_user now f u, with_users db (map (update_user now f) (user_identity db)))
  | None => (insert_user now f, with_users db [insert_user now f])
  end.

(** ** Proposals *)

Definition proposal_key (pr : string) : string := ("identity_proposal_" ++ pr)%string.

Definition proposeIdentityUpdate (db : identity_db) (now : Z) (random_uuid : string) (pid : uuid)
    (field newValue reason : string) : identity_db :=
  with_state db (map_set (state db) (proposal_key random_uuid) (Proposal pid field newValue reason now)).

Section Confirm.
(** [UPDATE agent_identity SET "column" = value] for a column that is not one of text:
    the row, or the error of the database. *)
Context (other_column : string → string → identity_row → result identity_row).

Definition set_column (column value : string) (now : Z) (r : identity_row) : result identity_row :=
  if bool_decide (column = "role") then
    Ok (Identity (i_profile r) value (expertise r) (tone r) (instructions r) (i_created r) now)
  else if bool_decide (column = "tone") then
    Ok (Identity (i_profile r) (role r) (expertise r) value (instructions r) (i_created r) now)
  else if bool_decide (column = "instructions") then
    Ok (Identity (i_profile r) (role r) (expertise r) (tone r) (Some value) (i_created r) now)
  else
    let* r := other_column column value r in
    Ok (Identity (i_profile r) (role r) (expertise r) (tone r) (instructions r) (i_created r) now).

Definition confirmIdentityUpdate (db : identity_db) (now : Z) (proposalId : string) : result (bool * identity_db) :=
  let key := proposal_key proposalId in
  match map_get (state db) key with
  | None => Ok (false, db)
  | Some pr =>
      match getAgentIdentity db (pr_profile pr) with
      | None => Ok (false, db)
      | Some r =>
          if bool_decide (pr_field pr = "expertise") then
            let e := map trim (str_split ","%char (pr_newValue pr)) in
            let db := update_identity db (pr_profile pr)
              (λ r, Identity (i_profile r) (role r) e (tone r) (instructions r) (i_created r) now) in
            Ok (true, with_state db (map_delete (state db) key))
          else
            let* r := set_column (pr_field pr) (pr_newValue pr) now r in
            let db := update_identity db (pr_profile pr) (λ _, r) in
            Ok (true, with_state db (map_delete (state db) key))
      end
  end.
End Confirm.

(** ** The context *)

Definition dq : string := String "034" "".
Definition newline : string := String "010" "".

(** [s.replace(/c/g, r)] *)
Fixpoint replace_all (c : ascii) (r s : string) : string :=
  match s with
  | EmptyString => EmptyString
  | String d s => if decide (d = c) then (r ++ replace_all c r s)%string else String d (replace_all c r s)
  end.

Definition escapeXml (s : string) : string :=
  replace_all "034"%char "&quot;" (replace_all ">"%char "&gt;" (replace_all "<"%char "&lt;" (replace_all "&"%char "&amp;" s))).

Record IdentityThresholds := Thresholds {
  personalityConfidenceThreshold : spec_float;
  userPersonalityConfidenceThreshold : spec_float }.

Definition push_if (b : bool) (l : list string) : list string := if b then l else [].

Definition agent_lines (a : identity_row) : list string :=
  let e := String.concat ", " (expertise a) in
  ["  <agent role=" ++ dq ++ escapeXml (role a) ++ dq ++ " tone=" ++ dq ++ escapeXml (tone a) ++ dq ++ ">"]%string ++
  push_if (str_truthy e) ["    <expertise>" ++ escapeXml e ++ "</expertise>"]%string ++
  push_if (opt_truthy (instructions a))
    ["    <instructions>" ++ escapeXml (default "" (instructions a)) ++ "</instructions>"]%string ++
  ["  </agent>"].

Definition dim_line (dim content : string) (confidence : spec_float) : string :=
  ("    <dim name=" ++ dq ++ dim ++ dq ++ " confidence=" ++ dq ++ toFixed2 confidence ++ dq ++ ">" ++
  escapeXml content ++ "</dim>")%string.

(** One attribute of the user, when it is not empty. *)
Definition user_attr (attr : string) (v : option string) : list string :=
  push_if (opt_truthy v) [attr ++ "=" ++ dq ++ escapeXml (default "" v) ++ dq]%string.

Definition user_line (u : UserIdentity) : string :=
  ("  <user " ++ String.concat " "
    (user_attr "name" (u_name u) ++ user_attr "role" (u_role u) ++ user_attr "org" (organization u) ++
     user_attr "tz" (timezone u) ++ user_attr "lang" (Some (default "en" (language u))))%list ++ " />")%string.

Definition personality_lines (tag : string) (dims : list string) : list string :=
  match dims with
  | [] => []
  | _ => ["  <" ++ tag ++ ">"]%string ++ dims ++ ["  </" ++ tag ++ ">"]%string
  end.

Definition agent_traits (db : identity_db) (th : IdentityThresholds) (pid : uuid) : list personality_row :=
  List.filter (λ p, SFleb (personalityConfidenceThreshold th) (p_confidence p)) (getAgentPersonality db pid).

Definition user_traits (db : identity_db) (th : IdentityThresholds) : list UserPersonalityEntry :=
  List.filter (λ p, SFleb (userPersonalityConfidenceThreshold th) (t_confidence p)) (getUserPersonality db).

Definition buildIdentityContext (db : identity_db) (th : IdentityThresholds) (pid : uuid) : string :=
  String.concat newline
    (["<identity>"] ++
     match getAgentIdentity db pid with Some a => agent_lines a | None => [] end ++
     personality_lines "agent_personality"
       (map (λ p, dim_line (dimension p) (p_content p) (p_confidence p)) (agent_traits db th pid)) ++
     match getUserIdentity db with Some u => [user_line u] | None => [] end ++
     personality_lines "user_personality"
       (map (λ p, dim_line (t_dimension p) (t_content p) (t_confidence p)) (user_traits db th)) ++
     ["</identity>"]).

(** ** A reader of the context *)

Definition entity (s : string) : option (ascii * nat) :=
  if starts_with "&amp;" s then Some ("&"%char, 4)
  else if starts_with "&lt;" s then Some ("<"%char, 3)
  else if starts_with "&gt;" s then Some (">"%char, 3)
  else if starts_with "&quot;" s then Some ("034"%char, 5)
  else None.

(** [skip] characters belong to an entity that has been read. *)
Fixpoint unescape (skip : nat) (s : string) : string :=
  match s, skip with
  | EmptyString, _ => EmptyString
  | String _ s, S skip => unescape skip s
  | String c s', O =>
      match entity s with
      | Some (d, n) => String d (unescape n s')
      | None => String c (unescape 0 s')
      end
  end.

(** The text is cut at the angle brackets. *)
Fixpoint cut (inside : bool) (acc s : string) : list (bool * string) :=
  match s with
  | EmptyString => [(inside, acc)]
  | String c s =>
      if decide (c = if inside then ">"%char else "<"%char) then (inside, acc) :: cut (negb inside) "" s
      else cut inside (acc ++ String c "")%string s
  end.

Inductive token :=
| Text (s : string)
| Tag (names values : list string).

#[export] Instance token_eq_dec : EqDecision token.
Proof. solve_decision. Defined.

Fixpoint alternate (l : list string) : list string * list string :=
  match l with
  | a :: b :: l => let '(names, values) := alternate l in (a :: names, unescape 0 b :: values)
  | l => (l, [])
  end.

Definition read_piece (p : bool * string) : token :=
  if p.1 then let '(names, values) := alternate (str_split "034"%char p.2) in Tag names values
  else Text (unescape 0 p.2).

Definition read_xml (s : string) : list token := map read_piece (cut false "" s).

(** ** What the context holds *)

(** An attribute's name with what precedes it, and its value. *)
Abbreviation attrs := (list (string * string)).

Definition tag_tokens (a : attrs) (last : string) : token := Tag (map fst a ++ [last]) (map snd a).

(** A line of the context: a tag, or an element with its text. *)
Inductive xml_line :=
| XTag (indent : string) (a : attrs) (last : string)
| XElem (indent : string) (a : attrs) (last text close : string).

Definition line_tokens (before : string) (l : xml_line) : list token :=
  match l with
  | XTag i a last => [Text (before ++ i); tag_tokens a last]
  | XElem i a last t c => [Text (before ++ i); tag_tokens a last; Text t; Tag [c] []]
  end%string.

Definition document (l : list xml_line) : list token :=
  match l with
  | [] => []
  | x :: l => line_tokens "" x ++ flat_map (line_tokens newline) l
  end ++ [Text ""].

Definition elem_if (b : bool) (l : list xml_line) : list xml_line := if b then l else [].

Definition agent_xml (a : identity_row) : list xml_line :=
  let e := String.concat ", " (expertise a) in
  [XTag "  " [("agent role=", role a); (" tone=", tone a)] ""] ++
  elem_if (str_truthy e) [XElem "    " [] "expertise" e "/expertise"] ++
  elem_if (opt_truthy (instructions a))
    [XElem "    " [] "instructions" (default "" (instructions a)) "/instructions"] ++
  [XTag "  " [] "/agent"].

Definition dim_xml (dim content : string) (confidence : spec_float) : xml_line :=
  XElem "    " [("dim name=", dim); (" confidence=", toFixed2 confidence)] "" content "/dim".

(** The non-empty attributes of the user, the first after the tag's name. *)
Definition user_attrs (u : UserIdentity) : attrs :=
  let given := List.filter (λ x : string * option string, opt_truthy x.2)
    [("name", u_name u); ("role", u_role u); ("org", organization u); ("tz", timezone u);
     ("lang", Some (default "en" (language u)))] in
  match map (λ x, (x.1 ++ "=", default "" x.2))%string given with
  | [] => []
  | (n, v) :: l => ("user " ++ n, v)%string :: map (λ x, (" " ++ x.1, x.2)%string) l
  end.

Definition user_xml (u : UserIdentity) : xml_line :=
  XTag "  " (user_attrs u) (if user_attrs u is [] then "user  /" else " /").

Definition personality_xml (tag : string) (dims : list xml_line) : list xml_line :=
  match dims with
  | [] => []
  | _ => [XTag "  " [] tag] ++ dims ++ [XTag "  " [] ("/" ++ tag)%string]
  end.

Definition context_xml (db : identity_db) (th : IdentityThresholds) (pid : uuid) : list xml_line :=
  [XTag "" [] "identity"] ++
  match getAgentIdentity db pid with Some a => agent_xml a | None => [] end ++
  personality_xml "agent_personality"
    (map (λ p, dim_xml (dimension p) (p_content p) (p_confidence p)) (agent_traits db th pid)) ++
  match getUserIdentity db with Some u => [user_xml u] | None => [] end ++
  personality_xml "user_personality"
    (map (λ p, dim_xml (t_dimension p) (t_content p) (t_confidence p)) (user_traits db th)) ++
  [XTag "" [] "/identity"].

(** ** Escaping *)

Definition escape_char (c : ascii) : string :=
  if decide (c = "&"%char) then "&amp;" else if decide (c = "<"%char) then "&lt;"
  else if decide (c = ">"%char) then "&gt;" else if decide (c = "034"%char) then "&quot;" else String c "".

Fixpoint escape (s : string) : string :=
  match s with EmptyString => EmptyString | String c s => (escape_char c ++ escape s)%string end.

Lemma replace_all_app c r s1 s2 : replace_all c r (s1 ++ s2) = (replace_all c r s1 ++ replace_all c r s2)%string.
Proof.
  induction s1 as [|d s1 IH]; [done|]. rewrite string_app_cons. cbn [replace_all]. rewrite IH.
  case_decide; [by rewrite string_app_assoc|done].
Qed.

Lemma escapeXml_escape s : escapeXml s = escape s.
Proof.
  induction s as [|c s IH]; [done|]. cbn [escape]. rewrite <- IH.
  change (String c s) with (String c "" ++ s)%string. unfold escapeXml.
  rewrite !replace_all_app. f_equal. unfold escape_char. cbn [replace_all].
  destruct (decide (c = "&"%char)) as [->|?]; [done|]. cbn [replace_all].
  destruct (decide (c = "<"%char)) as [->|?]; [done|]. cbn [replace_all].
  destruct (decide (c = ">"%char)) as [->|?]; [done|]. cbn [replace_all].
  destruct (decide (c = "034"%char)) as [->|?]; done.
Qed.

(** What escaped text cannot hold. *)
Lemma escape_lacks d s : d = ">"%char ∨ d = "<"%char ∨ d = "034"%char → lacks d (escapeXml s).
Proof.
  intros Hd. rewrite escapeXml_escape. induction s as [|c s IH]; [apply lacks_nil|]. cbn [escape].
  apply lacks_app. split; [|done]. clear IH. unfold escape_char.
  repeat (case_decide; [by destruct Hd as [->|[->| ->]]; apply (bool_decide_unpack _)|]).
  apply lacks_cons. split; [|apply lacks_nil]. intros ->. by destruct Hd as [?|[?|?]].
Qed.

Lemma entity_other c s : c ≠ "&"%char → entity (String c s) = None.
Proof.
  intros Hc. unfold entity, starts_with. cbn [String.prefix].
  by destruct (Ascii.ascii_dec "&" c) as [<-|_].
Qed.

Lemma unescape_escape s r : unescape 0 (escape s ++ r) = (s ++ unescape 0 r)%string.
Proof.
  induction s as [|c s IH]; [done|]. cbn [escape]. rewrite string_app_assoc, string_app_cons, <- IH.
  generalize (escape s ++ r)%string. clear IH. intros t. unfold escape_char.
  repeat (case_decide; [subst; by destruct t|]).
  change (unescape 0 (String c t) = String c (unescape 0 t)). cbn [unescape]. by rewrite entity_other.
Qed.

Lemma unescape_escapeXml s : unescape 0 (escapeXml s) = s.
Proof.
  rewrite escapeXml_escape, <- (string_app_nil_r (escape s)), unescape_escape. apply string_app_nil_r.
Qed.

(** Text without an ampersand is read as it is. *)
Lemma unescape_plain s : lacks "&" s → unescape 0 s = s.
Proof.
  induction s as [|c s IH]; [done|]. intros [? Hs]%lacks_cons. cbn [unescape].
  rewrite entity_other by congruence. by rewrite IH.
Qed.

(** ** Reading back what is printed *)

(** Text that the template writes as it is. *)
Definition literal (s : string) : Prop :=
  Forall (λ c, c ∉ ["&"; "<"; ">"; "034"]%char) (String.list_ascii_of_string s).

#[export] Instance literal_dec s : Decision (literal s).
Proof. unfold literal. apply _. Defined.

Lemma literal_lacks c s : c ∈ ["&"; "<"; ">"; "034"]%char → literal s → lacks c s.
Proof. intros Hc Hs Hin. unfold literal in Hs. rewrite Forall_forall in Hs. by apply (Hs c). Qed.

Lemma escapeXml_literal s : literal s → escapeXml s = s.
Proof.
  rewrite escapeXml_escape. induction s as [|c s IH]; [done|]. intros [Hc Hs]%Forall_cons.
  cbn [escape]. rewrite IH by done. unfold escape_char.
  do 4 (rewrite decide_False by (intros ->; by apply Hc, (bool_decide_unpack _))). done.
Qed.

Lemma literal_app s1 s2 : literal (s1 ++ s2) ↔ literal s1 ∧ literal s2.
Proof. unfold literal. by rewrite list_of_string_app, Forall_app. Qed.

Definition print_attrs (a : attrs) (last : string) : string :=
  foldr (λ x acc, x.1 ++ String "034" (escapeXml x.2 ++ String "034" acc))%string last a.

Definition print_line (l : xml_line) : string :=
  match l with
  | XTag i a last => i ++ String "<" (print_attrs a last ++ String ">" "")
  | XElem i a last t c =>
      i ++ String "<" (print_attrs a last ++ String ">" (escapeXml t ++ String "<" (c ++ String ">" "")))
  end%string.

Definition attrs_ok (a : attrs) (last : string) : Prop := Forall (λ x, literal x.1) a ∧ literal last.

Definition line_ok (l : xml_line) : Prop :=
  match l with
  | XTag i a last => literal i ∧ attrs_ok a last
  | XElem i a last _ c => literal i ∧ attrs_ok a last ∧ literal c
  end.

Lemma cut_app (inside : bool) acc t s : let d := if inside then ">"%char else "<"%char in
  lacks d t → cut inside acc (t ++ String d s) = (inside, (acc ++ t)%string) :: cut (negb inside) "" s.
Proof.
  intros d. revert acc. induction t as [|c t IH]; intros acc.
  - intros _. change ("" ++ ?s)%string with s. cbn [cut]. rewrite decide_True by done. by rewrite string_app_nil_r.
  - intros [Hc Ht]%lacks_cons. rewrite string_app_cons. cbn [cut]. rewrite decide_False by (unfold d in *; congruence).
    rewrite IH by done. by rewrite string_app_assoc.
Qed.

Lemma print_attrs_lacks a last : attrs_ok a last → lacks ">" (print_attrs a last).
Proof.
  intros [Ha Hl]. induction Ha as [|x a Hx _ IH]; cbn [print_attrs foldr].
  - by apply literal_lacks; [apply (bool_decide_unpack _)|].
  - apply lacks_app. split; [by apply literal_lacks; [apply (bool_decide_unpack _)|]|].
    apply lacks_cons. split; [done|]. apply lacks_app. split; [apply escape_lacks; auto|].
    by apply lacks_cons.
Qed.

Lemma read_attrs a last : attrs_ok a last → read_piece (true, print_attrs a last) = tag_tokens a last.
Proof.
  intros [Ha Hl]. unfold read_piece, tag_tokens. cbn [fst snd].
  assert (E : alternate (str_split "034" (print_attrs a last)) = (map fst a ++ [last], map snd a)); [|by rewrite E].
  unfold str_split. induction Ha as [|x a Hx _ IH]; cbn [print_attrs foldr].
  - rewrite str_split_aux_lacks; [done|]. apply literal_lacks; [by apply (bool_decide_unpack _)|done].
  - rewrite str_split_aux_app by (apply literal_lacks; [by apply (bool_decide_unpack _)|done]).
    rewrite str_split_aux_app by (apply escape_lacks; auto).
    cbn [alternate]. fold (print_attrs a last). rewrite IH.
    change ("" ++ ?s)%string with s. by rewrite unescape_escapeXml.
Qed.

(** A line is read back after any text that the line before it has left. *)
Lemma read_line before l rest : literal before → line_ok l →
  map read_piece (cut false before (print_line l ++ rest)) =
  line_tokens before l ++ map read_piece (cut false "" rest).
Proof.
  assert (Htext : ∀ i t, literal before → literal i → map read_piece (cut false before (i ++ String "<" t)) =
    Text (before ++ i) :: map read_piece (cut true "" t)).
  { intros i t Hb Hi. rewrite (cut_app false) by (apply literal_lacks; [by apply (bool_decide_unpack _)|done]).
    cbn [map]. f_equal. unfold read_piece. cbn [fst snd]. f_equal. apply unescape_plain.
    apply literal_lacks; [by apply (bool_decide_unpack _)|]. by apply literal_app. }
  assert (Htag : ∀ a last t, attrs_ok a last → map read_piece (cut true "" (print_attrs a last ++ String ">" t)) =
    tag_tokens a last :: map read_piece (cut false "" t)).
  { intros a last t Ha. rewrite (cut_app true) by (by apply print_attrs_lacks). cbn [map].
    change ("" ++ ?s)%string with s. by rewrite read_attrs. }
  intros Hb. destruct l as [i a last|i a last t c]; intros Hl; cbn [print_line line_tokens].
  - destruct Hl as [Hi Ha]. repeat rewrite ?string_app_assoc, ?string_app_cons. rewrite Htext, Htag by done. done.
  - destruct Hl as (Hi & Ha & Hc). repeat rewrite ?string_app_assoc, ?string_app_cons. rewrite Htext, Htag by done.
    rewrite (cut_app false) by (apply escape_lacks; auto). cbn [map negb].
    change ("" ++ ?s)%string with s. rewrite (Htag [] c) by (by split; [constructor|]).
    unfold read_piece at 1. cbn [fst snd]. by rewrite unescape_escapeXml.
Qed.

Lemma read_document x l : Forall line_ok (x :: l) →
  read_xml (String.concat newline (map print_line (x :: l))) = document (x :: l).
Proof.
  intros Hok. unfold read_xml, document. rewrite <- app_assoc.
  assert (H : ∀ l x before, literal before → Forall line_ok (x :: l) →
    map read_piece (cut false before (String.concat newline (map print_line (x :: l)))) =
    line_tokens before x ++ flat_map (line_tokens newline) l ++ [Text ""]).
  { clear. induction l as [|y l IH]; intros x before Hb [Hx Hl]%Forall_cons.
    - cbn [map String.concat flat_map app]. rewrite <- (string_app_nil_r (print_line x)), read_line by done. done.
    - change (String.concat newline (map print_line (x :: y :: l)))
        with (print_line x ++ newline ++ String.concat newline (map print_line (y :: l)))%string.
      rewrite read_line by done. f_equal. change (cut false "" (newline ++ ?s)) with (cut false newline s).
      rewrite IH by (done || by apply (bool_decide_unpack _)). cbn [flat_map]. by rewrite <- app_assoc. }
  apply H; [by apply (bool_decide_unpack _)|done].
Qed.

(** ** The tables in order *)

(** The fields that the tool for proposals admits. *)
Definition IDENTITY_FIELDS : list string := ["role"; "expertise"; "tone"; "instructions"].

(** What holds of the tables: the keys and references of [Profiles.v], one row for the
    user, one entry for a dimension, each with a dimension and a source that the checks
    admit, no confidence above 0.95, and proposals for the fields that the tool for
    proposals admits. *)
Record identity_ok (db : identity_db) : Prop := {
  io_tables : profiles_ok (tables db);
  io_user : (length (user_identity db) ≤ 1)%nat;
  io_agent_dims : ∀ r, r ∈ personality (tables db) → dimension r ∈ AGENT_DIMENSIONS;
  io_agent_confidence : ∀ r, r ∈ personality (tables db) → SFltb (hundredths 95) (p_confidence r) = false;
  io_dims : ∀ r, r ∈ user_personality db → t_dimension r ∈ USER_DIMENSIONS;
  io_one : NoDup (map t_dimension (user_personality db));
  io_sources : ∀ r, r ∈ user_personality db → t_source r ∈ SOURCES;
  io_confidence : ∀ r, r ∈ user_personality db → SFltb (hundredths 95) (t_confidence r) = false;
  io_state : map_wf (state db);
  io_fields : ∀ e, e ∈ state db → pr_field e.2 ∈ IDENTITY_FIELDS }.

Lemma agent_dim_literal d : d ∈ AGENT_DIMENSIONS → literal d.
Proof. revert d. apply Forall_forall. repeat constructor; by apply (bool_decide_unpack _). Qed.

Lemma user_dim_literal d : d ∈ USER_DIMENSIONS → literal d.
Proof. revert d. apply Forall_forall. repeat constructor; by apply (bool_decide_unpack _). Qed.

Lemma toFixed2_literal f : literal (toFixed2 f).
Proof.
  apply Forall_forall. intros c Hc Hin. revert Hc. fold (lacks c (toFixed2 f)).
  assert (Hok : Forall (λ c, digit_sign c = false ∧ c ≠ "."%char) ["&"; "<"; ">"; "034"]%char)
    by (by apply (bool_decide_unpack _)).
  rewrite Forall_forall in Hok. destruct (Hok c Hin). by apply toFixed2_lacks.
Qed.

(** ** The context is read back *)

(** Normal form of an appended text: to the right, over the literals. *)
Ltac append_right := repeat rewrite ?string_app_assoc, ?string_app_cons.

Lemma agent_lines_print a : agent_lines a = map print_line (agent_xml a).
Proof.
  unfold agent_lines, agent_xml. rewrite !map_app. cbn [map]. f_equal; [|f_equal; [|f_equal]].
  - f_equal. cbn [print_line print_attrs foldr fst snd]. by append_right.
  - unfold push_if, elem_if. by destruct (str_truthy _).
  - unfold push_if, elem_if. by destruct (opt_truthy _).
Qed.

Lemma dim_line_print dim content c : literal dim → dim_line dim content c = print_line (dim_xml dim content c).
Proof.
  intros Hd. unfold dim_line, dim_xml. cbn [print_line print_attrs foldr fst snd].
  rewrite (escapeXml_literal dim), (escapeXml_literal (toFixed2 c)) by (done || apply toFixed2_literal).
  by append_right.
Qed.

Lemma user_line_print u : user_line u = print_line (user_xml u).
Proof.
  unfold user_line, user_xml, user_attrs, user_attr, push_if. cbn [List.filter snd].
  destruct (opt_truthy (u_name u)), (opt_truthy (u_role u)), (opt_truthy (organization u)),
    (opt_truthy (timezone u)), (opt_truthy (Some (default "en" (language u))));
    cbn [app map String.concat print_line print_attrs foldr fst snd]; by append_right.
Qed.

Lemma personality_print tag dims dims' : dims = map print_line dims' →
  personality_lines tag dims = map print_line (personality_xml tag dims').
Proof.
  intros ->. unfold personality_lines, personality_xml. destruct dims' as [|d l]; [done|].
  rewrite !map_app. done.
Qed.

Lemma elem_of_agent_traits db th pid p : p ∈ agent_traits db th pid → p ∈ personality (tables db).
Proof.
  unfold agent_traits, getAgentPersonality. rewrite list_elem_of_In, filter_In, <- list_elem_of_In.
  intros [Hp _]. rewrite merge_sort_Permutation in Hp. by apply list_elem_of_filter in Hp as [_ ?].
Qed.

Lemma elem_of_user_traits db th p : p ∈ user_traits db th → p ∈ user_personality db.
Proof.
  unfold user_traits, getUserPersonality. rewrite list_elem_of_In, filter_In, <- list_elem_of_In.
  intros [Hp _]. by rewrite merge_sort_Permutation in Hp.
Qed.

Lemma map_dim_lines {A} (dim content : A → string) (conf : A → spec_float) l :
  (∀ p, p ∈ l → literal (dim p)) →
  map (λ p, dim_line (dim p) (content p) (conf p)) l =
  map print_line (map (λ p, dim_xml (dim p) (content p) (conf p)) l).
Proof.
  intros Hl. rewrite map_map. apply map_ext_in. intros p Hp. apply dim_line_print, Hl. by apply list_elem_of_In.
Qed.

Lemma buildIdentityContext_print db th pid : identity_ok db →
  buildIdentityContext db th pid = String.concat newline (map print_line (context_xml db th pid)).
Proof.
  intros Hok. unfold buildIdentityContext, context_xml. f_equal. rewrite !map_app.
  rewrite (personality_print _ _ _ (map_dim_lines dimension p_content p_confidence (agent_traits db th pid)
    (λ p Hp, agent_dim_literal _ (io_agent_dims _ Hok p (elem_of_agent_traits _ _ _ _ Hp))))).
  rewrite (personality_print _ _ _ (map_dim_lines t_dimension t_content t_confidence (user_traits db th)
    (λ p Hp, user_dim_literal _ (io_dims _ Hok p (elem_of_user_traits _ _ _ Hp))))).
  f_equal. f_equal; [|f_equal; f_equal].
  - destruct (getAgentIdentity db pid); [apply agent_lines_print|done].
  - destruct (getUserIdentity db); [|done]. cbn [map]. by rewrite user_line_print.
Qed.

Lemma personality_xml_ok tag dims : literal tag → Forall line_ok dims → Forall line_ok (personality_xml tag dims).
Proof.
  intros Ht Hd. unfold personality_xml. destruct dims; [constructor|].
  assert (Htag : ∀ t, literal t → line_ok (XTag "  " [] t)).
  { intros t Hl. split; [by apply (bool_decide_unpack _)|]. by split; [constructor|]. }
  apply Forall_app. split; [by apply Forall_singleton, Htag|]. apply Forall_app. split; [done|].
  apply Forall_singleton, Htag, literal_app. split; [by apply (bool_decide_unpack _)|done].
Qed.

Lemma user_xml_ok u : line_ok (user_xml u).
Proof.
  unfold user_xml, user_attrs. cbn [List.filter snd].
  destruct (opt_truthy (u_name u)), (opt_truthy (u_role u)), (opt_truthy (organization u)),
    (opt_truthy (timezone u)), (opt_truthy (Some (default "en" (language u))));
    (split; [by apply (bool_decide_unpack _)|split; [|by apply (bool_decide_unpack _)]]);
    cbn [map fst snd]; repeat constructor; by apply (bool_decide_unpack _).
Qed.

Lemma context_xml_ok db th pid : Forall line_ok (context_xml db th pid).
Proof.
  assert (Hdims : ∀ {A} (dim content : A → string) (conf : A → spec_float) l,
    Forall line_ok (map (λ p, dim_xml (dim p) (content p) (conf p)) l)).
  { intros A dim content conf l. apply Forall_map, Forall_true. intros p. by apply (bool_decide_unpack _). }
  unfold context_xml. repeat (apply Forall_app; split).
  - by repeat constructor; apply (bool_decide_unpack _).
  - destruct (getAgentIdentity db pid) as [a|]; [|constructor]. unfold agent_xml, elem_if.
    repeat (apply Forall_app; split); [..|destruct (str_truthy _)|destruct (opt_truthy _)|];
      repeat constructor; by apply (bool_decide_unpack _).
  - apply personality_xml_ok; [by apply (bool_decide_unpack _)|apply Hdims].
  - destruct (getUserIdentity db); [|constructor]. constructor; [apply user_xml_ok|constructor].
  - apply personality_xml_ok; [by apply (bool_decide_unpack _)|apply Hdims].
  - by repeat constructor; apply (bool_decide_unpack _).
Qed.

(** C13: the context an agent is given reads back as exactly the elements of the template with
    the stored texts as their attributes and contents: no text of the user or of an
    agent, whatever it contains, ends an attribute or opens or closes an element. *)
Theorem identity_context_readback db th pid : identity_ok db →
  read_xml (buildIdentityContext db th pid) = document (context_xml db th pid).
Proof.
  intros Hok. rewrite buildIdentityContext_print by done. pose proof (context_xml_ok db th pid) as Hl.
  unfold context_xml in *. by apply read_document.
Qed.

(** ** Witnesses *)

Definition example_identity : identity_db :=
  IdentityDb example_db [User (Some "A <b> & c") None None None (Some "en") (JObj []) None 0 0]
    [Trait "preferences" "says </dim><agent role=" (hundredths 30) 1 "inferred" 0 0] [].

Lemma example_identity_ok : identity_ok example_identity.
Proof.
  split; try (apply (bool_decide_unpack _); vm_compute; exact I); try (by intros ? ?%elem_of_nil).
  - exact example_db_ok.
  - intros r ->%list_elem_of_singleton. by apply (bool_decide_unpack _).
  - intros r ->%list_elem_of_singleton. by apply (bool_decide_unpack _).
  - by intros r ->%list_elem_of_singleton.
Qed.

Lemma identity_context_readback_witness :
  let th := Thresholds (hundredths 50) (hundredths 20) in
  read_xml (buildIdentityContext example_identity th 0) = document (context_xml example_identity th 0) ∧
  Text "says </dim><agent role=" ∈ document (context_xml example_identity th 0).
Proof.
  intros th. split; [apply (identity_context_readback example_identity th 0 example_identity_ok)|].
  apply (bool_decide_unpack _). vm_compute. exact I.
Defined.
