(* ===== verification/IdentityOps.v ===== *)
(** * Runs of the identity manager

    What the operations of [Identity.v] keep, interleaved in any order with those of
    the profile manager on the same tables, and what a proposal does. *)

From Stdlib Require Import Ascii.
From S2P Require Import Prelude JsMap JsString JsNumber Profiles Identity.
Local Open Scope fh_scope.
Local Open Scope string_scope.
Local Open Scope list_scope.

(** A column of type REAL rounds a number to six digits and keeps its order with those
    that have no more; 0.95 is one. *)
Class RealLaws (real : spec_float → spec_float) : Prop :=
  real_bound : ∀ x, SFltb (hundredths 95) x = false → SFltb (hundredths 95) (real x) = false.

Lemma js_min_bound a b : SFltb a a = false → SFltb a (js_min a b) = false.
Proof.
  intros Ha. unfold js_min, SFltb. destruct (SFcompare a b) as [[]|] eqn:E; [exact Ha..| |].
  - by rewrite E.
  - destruct a; reflexivity.
Qed.

Lemma confirm_bound c : SFltb (hundredths 95) (confirmConfidence c) = false.
Proof. apply js_min_bound. reflexivity. Qed.

(** ** Changing the rows of one table *)

Lemma identity_rows_ok db l : profiles_ok (tables db) → (∀ r, r ∈ l → i_profile r ∈ pids (tables db)) →
  NoDup (map i_profile l) → profiles_ok (tables (with_identity db l)).
Proof. intros [] Hl Hn. split; done. Qed.

Lemma personality_rows_ok db l : profiles_ok (tables db) → (∀ r, r ∈ l → p_profile r ∈ pids (tables db)) →
  NoDup (map (λ r, (p_profile r, dimension r)) l) → profiles_ok (tables (with_personality db l)).
Proof. intros [] Hl Hn. split; done. Qed.

(** Rows updated in place keep their keys. *)
Lemma map_update_keys {A K} (key : A → K) (b : A → bool) (f : A → A) l :
  (∀ r, b r = true → key (f r) = key r) → map key (map (λ r, if b r then f r else r) l) = map key l.
Proof.
  intros Hf. rewrite map_map. apply map_ext. intros r. destruct (b r) eqn:E; [by apply Hf|done].
Qed.

Lemma elem_of_update {A} (b : A → bool) (f : A → A) l r : r ∈ map (λ r, if b r then f r else r) l →
  r ∈ l ∨ ∃ r0, r0 ∈ l ∧ b r0 = true ∧ r = f r0.
Proof.
  intros (r0 & Hr & E)%elem_of_map. destruct (b r0) eqn:Eb; [right|left; by subst]. by exists r0.
Qed.

Lemma elem_of_List_filter {A} (b : A → bool) l (r : A) : r ∈ List.filter b l ↔ r ∈ l ∧ b r = true.
Proof. by rewrite !list_elem_of_In, filter_In. Qed.

Lemma NoDup_map_List_filter {A K} (key : A → K) (b : A → bool) l :
  NoDup (map key l) → NoDup (map key (List.filter b l)).
Proof.
  induction l as [|a l IH]; simpl; [done|]. intros [Ha Hl]%NoDup_cons. destruct (b a); [|auto]. simpl.
  apply NoDup_cons. split; [|auto]. rewrite elem_of_map. intros (r & [Hr _]%elem_of_List_filter & Er).
  apply Ha, elem_of_map. by exists r.
Qed.

Lemma find_none_keys {A} (b : A → bool) l r : List.find b l = None → r ∈ l → b r = false.
Proof. intros Hn Hr. eapply find_none; [done|]. by apply list_elem_of_In. Qed.

(** ** The operations *)

Section Ops.
Context (real : spec_float → spec_float) `{!RealLaws real}.
Context (other_column : string → string → identity_row → result identity_row).
Context (maxProfiles : nat).

Lemma real_confirm c : SFltb (hundredths 95) (real (confirmConfidence c)) = false.
Proof. apply (real_bound (real := real)), confirm_bound. Qed.

Lemma real_initial : SFltb (hundredths 95) (real (hundredths 80)) = false.
Proof. by apply (real_bound (real := real)). Qed.

Lemma setAgentIdentity_ok db now pid rl ex tn ins row db' : identity_ok db →
  setAgentIdentity db now pid rl ex tn ins = Ok (row, db') → identity_ok db'.
Proof.
  intros Hok. unfold setAgentIdentity. destruct (getAgentIdentity db pid) as [old|] eqn:Eg.
  - intros [= _ <-]. destruct Hok as [Ht ? ? ? ? ? ? ? ? ?]. split; try done. apply identity_rows_ok; [done|..].
    + intros r (r0 & Hr & <-)%elem_of_map. pose proof (ok_identity _ Ht r0 Hr). by case_decide as Ep; [rewrite <- Ep|].
    + rewrite map_map. erewrite map_ext; [apply Ht|]. intros r. simpl. by case_decide.
  - destruct (profile_exists db pid) eqn:Ep; [|done]. intros [= _ <-]. apply bool_decide_eq_true in Ep.
    destruct Hok as [Ht ? ? ? ? ? ? ? ? ?]. split; try done. apply identity_rows_ok; [done|..].
    + intros r [Hr| ->%list_elem_of_singleton]%elem_of_app; [by apply Ht|done].
    + rewrite map_app. apply NoDup_app. split; [apply Ht|]. split; [|apply NoDup_singleton].
      intros x (r & Hr & <-)%elem_of_map E%list_elem_of_singleton.
      apply (find_none_keys _ _ r Eg) in Hr. by apply bool_decide_eq_false in Hr.
Qed.

Lemma observeAgent_ok db now pid dim content row db' : identity_ok db →
  observeAgentPersonality real db now pid dim content = Ok (row, db') → identity_ok db'.
Proof.
  intros Hok. unfold observeAgentPersonality. destruct (List.find _ _) as [old|] eqn:Ef.
  - destruct (_ <=? _)%Z; [|done]. intros [= _ <-]. destruct Hok as [Ht ? Hd Hc ? ? ? ? ? ?].
    split; try done; cbn [tables with_personality personality].
    + apply personality_rows_ok; [done|..].
      * intros r [Hr|(r0 & Hr & _ & ->)]%elem_of_update; [by apply (ok_personality _ Ht)|].
        by apply (ok_personality _ Ht r0).
      * rewrite map_update_keys by done. apply Ht.
    + intros r [Hr|(r0 & Hr & _ & ->)]%elem_of_update; [auto|]. by apply (Hd r0).
    + intros r [Hr|(r0 & Hr & _ & ->)]%elem_of_update; [auto|]. exact (real_confirm _).
  - destruct (bool_decide (dim ∈ AGENT_DIMENSIONS)) eqn:Ed; [|done]. cbn [negb].
    destruct (profile_exists db pid) eqn:Ep; [|done]. intros [= _ <-]. apply bool_decide_eq_true in Ep, Ed.
    destruct Hok as [Ht ? Hd Hc ? ? ? ? ? ?]. split; try done; cbn [tables with_personality personality].
    + apply personality_rows_ok; [done|..].
      * intros r [Hr|Hr%list_elem_of_singleton]%elem_of_app; [by apply (ok_personality _ Ht)|by subst].
      * rewrite map_app. apply NoDup_app. split; [apply Ht|]. split; [|apply NoDup_singleton].
        intros x (r & Hr & <-)%elem_of_map. cbn [map]. rewrite list_elem_of_singleton. intros [= E1 E2].
        apply (find_none_keys _ _ r Ef) in Hr. apply bool_decide_eq_false in Hr. by destruct Hr.
    + intros r [Hr| ->%list_elem_of_singleton]%elem_of_app; auto.
    + intros r [Hr| ->%list_elem_of_singleton]%elem_of_app; [auto|]. exact real_initial.
Qed.

Lemma deleteAgent_ok db pid dim : identity_ok db → identity_ok (deleteAgentPersonality db pid dim).2.
Proof.
  intros [Ht ? Hd Hc ? ? ? ? ? ?]. split; try done; cbn [tables with_personality personality deleteAgentPersonality snd].
  - apply personality_rows_ok; [done|..].
    + intros r [Hr _]%elem_of_List_filter. by apply (ok_personality _ Ht).
    + apply NoDup_map_List_filter, Ht.
  - intros r [Hr _]%elem_of_List_filter. auto.
  - intros r [Hr _]%elem_of_List_filter. auto.
Qed.

Lemma observeUser_ok db now dim content source row db' : identity_ok db →
  observeUserPersonality real db now dim content source = Ok (row, db') → identity_ok db'.
Proof.
  intros Hok. unfold observeUserPersonality. destruct (bool_decide (source ∈ SOURCES)) eqn:Es; [|done]. cbn [negb].
  apply bool_decide_eq_true in Es. destruct (List.find _ _) as [old|] eqn:Ef.
  - destruct (_ <=? _)%Z; [|done]. intros [= _ <-]. destruct Hok as [Ht ? ? ? Hd Hn Hs Hc ? ?].
    split; try done; cbn [user_personality with_traits].
    + intros r [Hr|(r0 & Hr & _ & ->)]%elem_of_update; [auto|]. by apply (Hd r0).
    + by rewrite map_update_keys.
    + intros r [Hr|(r0 & Hr & _ & ->)]%elem_of_update; auto.
    + intros r [Hr|(r0 & Hr & _ & ->)]%elem_of_update; [auto|]. exact (real_confirm _).
  - destruct (bool_decide (dim ∈ USER_DIMENSIONS)) eqn:Ed; [|done]. intros [= _ <-]. apply bool_decide_eq_true in Ed.
    destruct Hok as [Ht ? ? ? Hd Hn Hs Hc ? ?]. split; try done; cbn [user_personality with_traits].
    + intros r [Hr| ->%list_elem_of_singleton]%elem_of_app; auto.
    + rewrite map_app. apply NoDup_app. split; [done|]. split; [|apply NoDup_singleton].
      intros x (r & Hr & <-)%elem_of_map E%list_elem_of_singleton.
      apply (find_none_keys _ _ r Ef) in Hr. by apply bool_decide_eq_false in Hr.
    + intros r [Hr| ->%list_elem_of_singleton]%elem_of_app; auto.
    + intros r [Hr| ->%list_elem_of_singleton]%elem_of_app; [auto|]. apply (real_bound (real := real)).
      unfold initialConfidence. by case_bool_decide.
Qed.

Lemma deleteUser_ok db dim : identity_ok db → identity_ok (deleteUserPersonality db dim).2.
Proof.
  intros [Ht ? ? ? Hd Hn Hs Hc ? ?]. split; try done; cbn [user_personality with_traits deleteUserPersonality snd].
  - intros r [Hr _]%elem_of_List_filter. auto.
  - by apply NoDup_map_List_filter.
  - intros r [Hr _]%elem_of_List_filter. auto.
  - intros r [Hr _]%elem_of_List_filter. auto.
Qed.

Lemma updateUser_ok db now f : identity_ok db → identity_ok (updateUserIdentity db now f).2.
Proof.
  intros [Ht Hu ? ? ? ? ? ? ? ?]. unfold updateUserIdentity, getUserIdentity.
  destruct (user_identity db) eqn:E; split; try done; cbn in *; by rewrite length_map.
Qed.

Lemma propose_ok db now random pid f v w : identity_ok db → f ∈ IDENTITY_FIELDS →
  identity_ok (proposeIdentityUpdate db now random pid f v w).
Proof.
  intros [Ht ? ? ? ? ? ? ? Hw Hf] Hin. split; try done; cbn [state with_state proposeIdentityUpdate].
  - by apply map_wf_set.
  - intros [k pr] He. apply (map_get_elem _ k pr) in He; [|by apply map_wf_set].
    rewrite map_get_set in He. case_decide; [by injection He as <-|].
    apply map_get_Some_elem in He. by apply (Hf (k, pr)).
Qed.

(** A row updated under a proposal keeps its profile. *)
Lemma set_column_profile column value now r r' : column ∈ IDENTITY_FIELDS → column ≠ "expertise" →
  set_column other_column column value now r = Ok r' → i_profile r' = i_profile r.
Proof.
  unfold set_column. intros Hc Hne.
  destruct (bool_decide (column = "role")) eqn:E1; [by intros [= <-]|].
  destruct (bool_decide (column = "tone")) eqn:E2; [by intros [= <-]|].
  destruct (bool_decide (column = "instructions")) eqn:E3; [by intros [= <-]|].
  apply bool_decide_eq_false in E1, E2, E3. unfold IDENTITY_FIELDS in Hc. rewrite !elem_of_cons in Hc.
  by destruct Hc as [?|[?|[?|[?|?%elem_of_nil]]]].
Qed.

Lemma update_identity_ok db pid f : identity_ok db → (∀ r, i_profile r = pid → i_profile (f r) = pid) →
  identity_ok (update_identity db pid f).
Proof.
  intros [Ht ? ? ? ? ? ? ? ? ?] Hf. split; try done. apply identity_rows_ok; [done|..].
  - intros r (r0 & Hr & <-)%elem_of_map. pose proof (ok_identity _ Ht r0 Hr). case_decide as E; [|done].
    rewrite (Hf r0 E). by rewrite <- E.
  - rewrite map_map. erewrite map_ext; [apply Ht|]. intros r. simpl. case_decide as E; [by rewrite (Hf r E)|done].
Qed.

Lemma drop_proposal_ok db key : identity_ok db → identity_ok (with_state db (map_delete (state db) key)).
Proof.
  intros [Ht ? ? ? ? ? ? ? Hw Hf]. split; try done; cbn [state with_state].
  - by apply map_wf_delete.
  - intros e He. apply Hf. by apply list_elem_of_filter in He as [_ ?].
Qed.

Lemma confirm_ok db now pr b db' : identity_ok db →
  confirmIdentityUpdate other_column db now pr = Ok (b, db') → identity_ok db'.
Proof.
  intros Hok. unfold confirmIdentityUpdate. destruct (map_get _ _) as [p|] eqn:Em; [|by intros [= _ <-]].
  destruct (getAgentIdentity db (pr_profile p)) as [r|] eqn:Eg; [|by intros [= _ <-]].
  apply find_some in Eg as [_ Er]. apply bool_decide_eq_true in Er.
  apply map_get_Some_elem in Em. pose proof (io_fields _ Hok _ Em) as Hf. cbn [snd] in Hf.
  case_bool_decide as Ee.
  - intros [= _ <-]. change (state db) with (state (update_identity db (pr_profile p)
      (λ r, Identity (i_profile r) (role r) (map trim (str_split ","%char (pr_newValue p))) (tone r)
              (instructions r) (i_created r) now))). by apply drop_proposal_ok, update_identity_ok.
  - destruct (set_column _ _ _ _ _) as [r'|] eqn:Ec; [|done]. intros [= _ <-].
    apply set_column_profile in Ec; [|done..].
    change (state db) with (state (update_identity db (pr_profile p) (λ _, r'))).
    apply drop_proposal_ok, update_identity_ok; [done|]. intros ? _. by rewrite Ec.
Qed.

(** ** The operations of the profiles *)

Lemma profile_op_traits t op r : r ∈ personality (apply_op maxProfiles t op) →
  ∃ r0, r0 ∈ personality t ∧ dimension r = dimension r0 ∧ p_confidence r = p_confidence r0.
Proof.
  assert (Hsame : r ∈ personality t →
    ∃ r0, r0 ∈ personality t ∧ dimension r = dimension r0 ∧ p_confidence r = p_confidence r0) by (by exists r).
  destruct op as [now n d|now pid|now chat pid|pid|now src n d]; cbn [apply_op].
  - unfold createProfile, insert_profile. by repeat (case_match; simplify_eq/=).
  - unfold setDefaultProfile. by repeat (case_match; simplify_eq/=).
  - unfold assignChat. by repeat (case_match; simplify_eq/=).
  - unfold deleteProfile. repeat (case_match; simplify_eq/=); try done.
    intros [_ Hr]%list_elem_of_filter. auto.
  - destruct (cloneProfile _ _ _ _ _ _) as [[p t']|] eqn:E; [|done].
    apply cloneProfile_shape in E as (? & ? & ? & ? & ? & ? & _ & _ & _ & _ & _ & _ & _ & _ & _ & _ & _ & ->).
    cbn [personality]. intros [?|(r0 & [_ Hr0]%list_elem_of_filter & <-)%elem_of_map]%elem_of_app; [auto|].
    by exists r0.
Qed.

Inductive identity_op :=
| OnProfiles (op : profile_op)
| SetAgent (now : Z) (pid : uuid) (role : string) (expertise : list string) (tone : string)
    (instructions : option string)
| ObserveAgent (now : Z) (pid : uuid) (dim content : string)
| ForgetAgent (pid : uuid) (dim : string)
| UpdateUser (now : Z) (f : user_fields)
| ObserveUser (now : Z) (dim content source : string)
| ForgetUser (dim : string)
| Propose (now : Z) (random_uuid : string) (pid : uuid) (field newValue reason : string)
| Confirm (now : Z) (proposalId : string).

Definition result_db {A} (db : identity_db) (r : result (A * identity_db)) : identity_db :=
  match r with Ok (_, db') => db' | Err _ => db end.

(** A refused operation changes nothing. *)
Definition identity_step (db : identity_db) (op : identity_op) : identity_db :=
  match op with
  | OnProfiles op =>
      IdentityDb (apply_op maxProfiles (tables db) op) (user_identity db) (user_personality db) (state db)
  | SetAgent now pid r e t i => result_db db (setAgentIdentity db now pid r e t i)
  | ObserveAgent now pid d c => result_db db (observeAgentPersonality real db now pid d c)
  | ForgetAgent pid d => (deleteAgentPersonality db pid d).2
  | UpdateUser now f => (updateUserIdentity db now f).2
  | ObserveUser now d c s => result_db db (observeUserPersonality real db now d c s)
  | ForgetUser d => (deleteUserPersonality db d).2
  | Propose now u pid f v w => proposeIdentityUpdate db now u pid f v w
  | Confirm now pr => result_db db (confirmIdentityUpdate other_column db now pr)
  end.

(** The tool that makes proposals admits four fields. *)
Definition admitted (op : identity_op) : Prop :=
  match op with Propose _ _ _ f _ _ => f ∈ IDENTITY_FIELDS | _ => True end.

Lemma identity_step_ok db op : admitted op → identity_ok db → identity_ok (identity_step db op).
Proof.
  intros Ha Hok. destruct op; cbn [identity_step].
  - assert (Ht : profiles_ok (apply_op maxProfiles (tables db) op)) by (apply apply_op_ok, Hok).
    pose proof (profile_op_traits (tables db) op) as Htr. destruct Hok as [? ? Hd Hc ? ? ? ? ? ?].
    split; try done; cbn [tables].
    + intros r (r0 & Hr0 & -> & _)%Htr. auto.
    + intros r (r0 & Hr0 & _ & ->)%Htr. auto.
  - destruct (setAgentIdentity _ _ _ _ _ _ _) as [[]|] eqn:E; [|done]. by eapply setAgentIdentity_ok.
  - destruct (observeAgentPersonality _ _ _ _ _ _) as [[]|] eqn:E; [|done]. by eapply observeAgent_ok.
  - by apply deleteAgent_ok.
  - by apply updateUser_ok.
  - destruct (observeUserPersonality _ _ _ _ _ _) as [[]|] eqn:E; [|done]. by eapply observeUser_ok.
  - by apply deleteUser_ok.
  - by apply propose_ok.
  - destruct (confirmIdentityUpdate _ _ _ _) as [[]|] eqn:E; [|done]. by eapply confirm_ok.
Qed.

(** Whatever operations on identities, personalities, proposals and profiles follow one
    another: the tables stay in order, no chat, memory, identity or trait refers to a
    profile that is gone, there is one identity and one entry for a dimension, and no
    confidence exceeds 0.95. *)
Theorem identity_stays_ok db ops : Forall admitted ops → identity_ok db →
  identity_ok (fold_left identity_step ops db).
Proof.
  intros Ha. revert db. induction Ha as [|op ops Hop _ IH]; intros db Hok; [done|].
  apply IH. by apply identity_step_ok.
Qed.
End Ops.

(** ** Proposals *)

Section Proposals.
Context (other_column : string → string → identity_row → result identity_row).

(** The identity with one field replaced. *)
Definition replaced (field value : string) (now : Z) (r : identity_row) : identity_row :=
  let this f := bool_decide (field = f) in
  Identity (i_profile r) (if this "role" then value else role r)
    (if this "expertise" then map trim (str_split ","%char value) else expertise r)
    (if this "tone" then value else tone r) (if this "instructions" then Some value else instructions r)
    (i_created r) now.

Lemma find_update pid (f : identity_row → identity_row) l p : (∀ r, i_profile r = pid → i_profile (f r) = pid) →
  List.find (λ r, bool_decide (i_profile r = p)) (map (λ r, if decide (i_profile r = pid) then f r else r) l) =
  (λ r, if decide (p = pid) then f r else r) <$> List.find (λ r, bool_decide (i_profile r = p)) l.
Proof.
  intros Hf. induction l as [|r l IH]; [done|]. cbn [map List.find].
  destruct (decide (i_profile r = pid)) as [E|Hne].
  - rewrite (Hf r E), E. case_bool_decide as Ep; [|exact IH]. cbn. by rewrite decide_True.
  - case_bool_decide as Ep; [|exact IH]. cbn. rewrite decide_False; [done|]. congruence.
Qed.

Lemma confirm_replaces db now u p r : map_get (state db) (proposal_key u) = Some p →
  pr_field p ∈ IDENTITY_FIELDS → getAgentIdentity db (pr_profile p) = Some r →
  confirmIdentityUpdate other_column db now u =
    Ok (true, with_state (update_identity db (pr_profile p)
                            (if bool_decide (pr_field p = "expertise")
                             then replaced (pr_field p) (pr_newValue p) now
                             else λ _, replaced (pr_field p) (pr_newValue p) now r))
                         (map_delete (state db) (proposal_key u))).
Proof.
  intros Hp Hf Hr. unfold confirmIdentityUpdate. rewrite Hp, Hr. unfold IDENTITY_FIELDS in Hf.
  rewrite !elem_of_cons in Hf. unfold replaced, set_column.
  destruct Hf as [->|[->|[->|[->|[]%elem_of_nil]]]]; reflexivity.
Qed.

(** A proposal waits for its confirmation and changes nothing; confirmed, it sets exactly
    its field of its profile's identity and is gone: confirmed again, it is refused. *)
Theorem proposal_applies_once db u pid f v w r t now now' : identity_ok db → f ∈ IDENTITY_FIELDS →
  getAgentIdentity db pid = Some r →
  let db1 := proposeIdentityUpdate db t u pid f v w in
  getAgentIdentity db1 = getAgentIdentity db ∧
  ∃ db2, confirmIdentityUpdate other_column db1 now u = Ok (true, db2) ∧
    (∀ p, getAgentIdentity db2 p = if decide (p = pid) then Some (replaced f v now r) else getAgentIdentity db p) ∧
    confirmIdentityUpdate other_column db2 now' u = Ok (false, db2).
Proof.
  intros Hok Hf Hr db1. split; [done|]. eexists. split; [|split].
  - apply (confirm_replaces db1 now u (Proposal pid f v w t) r); [|done..].
    unfold db1, proposeIdentityUpdate. cbn [state with_state]. apply map_get_set_eq.
  - intros p. cbn [pr_field pr_newValue pr_profile]. unfold getAgentIdentity. cbn.
    pose proof Hr as Hfind. apply find_some in Hr as [_ Ep].
    apply bool_decide_eq_true in Ep. rewrite find_update.
    + case_decide as E; [subst p|by destruct (List.find _ _)].
      unfold getAgentIdentity in Hfind. rewrite Hfind. cbn. by case_bool_decide.
    + intros r' E. by case_bool_decide.
  - unfold confirmIdentityUpdate. cbn [state with_state]. rewrite map_get_delete, decide_True; [done..|].
    unfold db1, proposeIdentityUpdate. cbn [state with_state]. apply map_wf_set, Hok.
Qed.
End Proposals.


(** ** Witnesses *)

#[local] Instance ops_real : RealLaws (λ x, x).
Proof. by intros x. Qed.

Lemma identity_stays_ok_witness :
  let ops := [ObserveUser 10 "preferences" "short answers" "declared"; SetAgent 11 5 "analyst" [] "dry" None;
              ObserveAgent 12 0 "humor" "none"; OnProfiles (Clone 13 0 "copy" None); Propose 14 "u" 6 "tone" "warm" "";
              Confirm 15 "u"; OnProfiles (Delete 5)] in
  let db := fold_left (identity_step (λ x, x) (λ _ _ _, Err "no such column") 5) ops example_identity in
  identity_ok db ∧ map tone (identity (tables db)) = ["warm"; "warm"] ∧
  map dimension (personality (tables db)) = ["humor"; "humor"].
Proof.
  intros ops db. split; [|split; vm_compute; reflexivity].
  apply (identity_stays_ok (λ x, x) (λ _ _ _, Err "no such column") 5 example_identity ops);
    [|exact example_identity_ok].
  repeat (apply Forall_cons; split; [first [exact I|apply (bool_decide_unpack _); vm_compute; exact I]|]).
  apply Forall_nil_2.
Defined.

Lemma proposal_applies_once_witness :
  let db1 := proposeIdentityUpdate example_identity 1 "u" 0 "expertise" "law, tax" "asked" in
  ∃ db2, confirmIdentityUpdate (λ _ _ _, Err "no such column") db1 2 "u" = Ok (true, db2) ∧
    (expertise <$> getAgentIdentity db2 0) = Some ["law"; "tax"] ∧
    confirmIdentityUpdate (λ _ _ _, Err "no such column") db2 3 "u" = Ok (false, db2).
Proof.
  intros db1.
  destruct (proposal_applies_once (λ _ _ _, Err "no such column") example_identity "u" 0 "expertise" "law, tax"
    "asked" (Identity 0 "assistant" [] "warm" None 0 0) 1 2 3) as (_ & db2 & H1 & H2 & H3).
  - exact example_identity_ok.
  - apply (bool_decide_unpack _). vm_compute. exact I.
  - reflexivity.
  - exists db2. split; [exact H1|]. split; [|exact H3]. rewrite H2. vm_compute. reflexivity.
Defined.
