(* ===== verification/ChannelCommands.v ===== *)
(** * Commands of a channel

    [src/orchestrator/channel-commands.ts]: the messages that start with a slash and
    are executed against the tables of [Identity.v] and [Profiles.v] instead of going
    to the agent.  A handler returns the database it leaves and its result, [Err]
    where it throws; the clock is read once for a command.  The em dash of the
    responses stands for its bytes. *)

From Stdlib Require Import Ascii.
From stdpp Require Import pretty.
From S2P Require Import Prelude JsMap JsString JsNumber Profiles Identity IdentityOps.
Local Open Scope fh_scope.
Local Open Scope string_scope.
Local Open Scope list_scope.

(** ** Words *)

(** [s.split(/\s+/).filter(Boolean)] *)
Fixpoint words_aux (acc s : string) : list string :=
  match s with
  | EmptyString => if str_truthy acc then [acc] else []
  | String c s =>
      if is_space c then (if str_truthy acc then [acc] else []) ++ words_aux "" s
      else words_aux (acc ++ String c "")%string s
  end.

Definition tokenize (input : string) : list string := words_aux "" input.

(** ** Fields *)

(** [\w] *)
Definition word_char (c : ascii) : bool :=
  let n := nat_of_ascii c in
  ((48 <=? n) && (n <=? 57) || (65 <=? n) && (n <=? 90) || (n =? 95) || (97 <=? n) && (n <=? 122))%nat.

(** [(\w+)=] at the start of [s], with the text after it. *)
Fixpoint key_at (acc s : string) : option (string * string) :=
  match s with
  | EmptyString => None
  | String c s =>
      if word_char c then key_at (acc ++ String c "")%string s
      else if decide (c = "="%char) then (if str_truthy acc then Some (acc, s) else None)
      else None
  end.

(** The first place at which [(\w+)=] matches. *)
Fixpoint find_key (s : string) : option (string * string) :=
  match key_at "" s with
  | Some r => Some r
  | None => match s with String _ s => find_key s | EmptyString => None end
  end.

(** The lookahead [,\s*\w+=]. *)
Definition pair_ahead (s : string) : bool :=
  match s with
  | String c s => bool_decide (c = ","%char) && bool_decide (is_Some (key_at "" (trim_start s)))
  | EmptyString => false
  end.

(** [[\s\S]*?] up to the lookahead or the end, and the rest. *)
Fixpoint take_value (s : string) : string * string :=
  match s with
  | EmptyString => ("", "")
  | String c s' =>
      if pair_ahead s then ("", s) else let '(v, r) := take_value s' in (String c v, r)
  end.

(** The matches of the pattern, one after another. *)
Fixpoint matches (fuel : nat) (s : string) : list (string * string) :=
  match fuel with
  | O => []
  | S fuel =>
      match find_key s with
      | None => []
      | Some (k, s) => let '(v, s) := take_value s in (k, v) :: matches fuel s
      end
  end.

(** [value.replace(/,\s*$/, '')] *)
Fixpoint drop_trailing_comma (v : string) : string :=
  match v with
  | EmptyString => EmptyString
  | String c v' =>
      if bool_decide (c = ","%char) && bool_decide (trim_start v' = "") then ""
      else String c (drop_trailing_comma v')
  end.

(** [result[key] = value]; assigning a string to [__proto__] has no effect. *)
Definition set_field (fields : jsmap string) (m : string * string) : jsmap string :=
  let key := to_lower m.1 in
  let value := trim m.2 in
  if str_truthy value && negb (bool_decide (key = "__proto__"))
  then map_set fields key (drop_trailing_comma value) else fields.

Definition parseKeyValuePairs (args : list string) : jsmap string :=
  let joined := trim (String.concat " " args) in
  foldl set_field [] (matches (S (String.length joined)) joined).

(** A key that names an array index, by its number. *)
Fixpoint digits (acc : N) (s : string) : option N :=
  match s with
  | EmptyString => Some acc
  | String c s =>
      let n := nat_of_ascii c in
      if ((48 <=? n) && (n <=? 57))%nat then digits (10 * acc + N.of_nat (n - 48)) s else None
  end.

Definition index_of (key : string) : option N :=
  match digits 0 key with
  | Some n => if bool_decide (key = pretty n) && (n <? 4294967295)%N then Some n else None
  | None => None
  end.

Definition index_le (x y : string * string) : Prop := (default 0 (index_of x.1) <= default 0 (index_of y.1))%N.

#[export] Instance index_le_dec x y : Decision (index_le x y).
Proof. unfold index_le. apply _. Defined.

(** [Object.entries]: the array indices first, in their order. *)
Definition object_entries (fields : jsmap string) : list (string * string) :=
  let is_index (e : string * string) := bool_decide (is_Some (index_of e.1)) in
  merge_sort index_le (List.filter is_index fields) ++ List.filter (λ e, negb (is_index e)) fields.

(** ** Responses *)

Record ChannelCommandResult := Result { handled : bool; response : option string }.

Definition ok (text : string) : ChannelCommandResult := Result true (Some text).

Definition lines (l : list string) : string := String.concat newline l.

Definition quoted (s : string) : string := (dq ++ s ++ dq)%string.

Definition em_dash : string := String "226" (String "128" (String "148" "")).

Definition valid_agent : string := String.concat ", " AGENT_DIMENSIONS.
Definition valid_user : string := String.concat ", " USER_DIMENSIONS.

Definition HELP_GENERAL : string :=
  lines [
    "Available commands:";
    "";
    "/identity show " ++ em_dash ++ " View agent and user identity";
    "/identity set agent <field>=<value> " ++ em_dash ++ " Set agent identity fields";
    "/identity set user <field>=<value> " ++ em_dash ++ " Set user identity fields";
    "";
    "/personality show " ++ em_dash ++ " View agent and user personality";
    "/personality set agent <dim>=<content> " ++ em_dash ++ " Set agent personality dimension";
    "/personality set user <dim>=<content> " ++ em_dash ++ " Set user personality dimension";
    "/personality reset agent <dim> " ++ em_dash ++ " Reset agent personality dimension";
    "/personality reset user <dim> " ++ em_dash ++ " Reset user personality dimension";
    "";
    "/profile list " ++ em_dash ++ " List all profiles";
    "/profile show " ++ em_dash ++ " Show current profile";
    "/profile switch <name> " ++ em_dash ++ " Switch to a different profile";
    "";
    "/help [identity|personality|profile] " ++ em_dash ++ " Show detailed help"]%string.

Definition HELP_IDENTITY : string :=
  lines [
    "Identity commands:";
    "";
    "/identity show";
    "  View both agent and user identity.";
    "";
    "/identity set agent role=Executive assistant";
    "/identity set agent tone=Professional but warm";
    "/identity set agent expertise=email, calendar, scheduling";
    "/identity set agent instructions=Always draft emails first";
    "  Set agent identity fields. Multiple: /identity set agent role=Dev, tone=Direct";
    "";
    "/identity set user name=Stan Tyan";
    "/identity set user role=CTO";
    "/identity set user org=Acme Corp";
    "/identity set user timezone=Europe/Helsinki";
    "/identity set user language=en";
    "  Set user identity fields. Multiple: /identity set user name=Stan, role=CTO"]%string.

Definition HELP_PERSONALITY : string :=
  lines [
    "Personality commands:";
    "";
    "/personality show";
    "  View all agent and user personality dimensions.";
    "";
    "Agent personality dimensions: " ++ valid_agent;
    "User personality dimensions: " ++ valid_user;
    "";
    "/personality set agent communication_style=Concise, uses bullet points";
    "/personality set agent humor=Dry humor OK. No puns.";
    "  Set agent personality dimensions.";
    "";
    "/personality set user work_patterns=Active 9am-6pm";
    "/personality set user communication_style=Short and direct";
    "  Declare your personality dimensions.";
    "";
    "/personality reset agent humor";
    "/personality reset user decision_making";
    "  Reset a dimension (let the agent re-infer it from conversations)."]%string.

Definition HELP_PROFILE : string :=
  lines [
    "Profile commands:";
    "";
    "/profile list";
    "  List all profiles with stats.";
    "";
    "/profile show";
    "  Show the current chat's profile.";
    "";
    "/profile switch work-assistant";
    "  Switch this chat to a different profile."]%string.

(** ** Handlers *)

(** The database a handler leaves, and its result. *)
Abbreviation outcome := (identity_db * result ChannelCommandResult)%type.

Definition answer (db : identity_db) (text : string) : outcome := (db, Ok (ok text)).

(** [args[i]?.toLowerCase()] *)
Definition sub (args : list string) (i : nat) : option string := to_lower <$> args !! i.

Definition resolveProfileId (db : identity_db) (chat : string) : option uuid :=
  match getChatProfile (tables db) chat with
  | Some p => Some (id p)
  | None => id <$> getDefaultProfile (tables db)
  end.

Section Handlers.
Context (real : spec_float → spec_float) (now : Z) (chat : string).

Definition shown (label : string) (v : option string) : list string :=
  push_if (opt_truthy v) [(label ++ default "" v)%string].

Definition identityShow (db : identity_db) : outcome :=
  let agent :=
    match resolveProfileId db chat with
    | Some pid =>
        match getAgentIdentity db pid with
        | Some a =>
            ["Agent Identity:"; "  Role: " ++ role a; "  Tone: " ++ tone a;
             "  Expertise: " ++ match expertise a with [] => "(none)" | e => String.concat ", " e end]%string ++
            shown "  Instructions: " (instructions a)
        | None => ["Agent Identity: (not configured)"]
        end
    | None => ["Agent Identity: (no profile)"]
    end in
  let user :=
    match getUserIdentity db with
    | Some u =>
        [""; "User Identity:"] ++ shown "  Name: " (u_name u) ++ shown "  Role: " (u_role u) ++
        shown "  Organization: " (organization u) ++ shown "  Timezone: " (timezone u) ++
        shown "  Language: " (Some (default "en" (language u)))
    | None => [""; "User Identity: (not configured)"]
    end in
  answer db (lines (agent ++ user)).

(** [fields[k] ?? existing] *)
Definition or_existing (fields : jsmap string) (k : string) (existing : option string) : option string :=
  coalesce (map_get fields k) existing.

Definition identitySetAgent (db : identity_db) (args : list string) : outcome :=
  let fields := parseKeyValuePairs args in
  if bool_decide (fields = []) then
    answer db (lines ["Usage: /identity set agent role=Executive assistant";
                      "Fields: role, tone, expertise, instructions"])
  else
    match resolveProfileId db chat with
    | None => answer db "No profile assigned to this chat."
    | Some pid =>
        let existing := getAgentIdentity db pid in
        let new_role := or_existing fields "role" (role <$> existing) in
        let new_tone := or_existing fields "tone" (tone <$> existing) in
        if negb (opt_truthy new_role) || negb (opt_truthy new_tone) then
          answer db (lines ["Both role and tone are required when creating agent identity.";
                            "Example: /identity set agent role=Assistant, tone=Professional"])
        else
          let new_expertise :=
            if opt_truthy (map_get fields "expertise")
            then List.filter str_truthy (map trim (str_split ","%char (default "" (map_get fields "expertise"))))
            else default [] (expertise <$> existing) in
          let new_instructions := or_existing fields "instructions" (existing ≫= instructions) in
          match setAgentIdentity db now pid (default "" new_role) new_expertise (default "" new_tone)
                  new_instructions with
          | Ok (_, db) => answer db "Agent identity updated."
          | Err e => (db, Err e)
          end
    end.

Definition identitySetUser (db : identity_db) (args : list string) : outcome :=
  let fields := parseKeyValuePairs args in
  if bool_decide (fields = []) then
    answer db (lines ["Usage: /identity set user name=Stan Tyan"; "Fields: name, role, org, timezone, language"])
  else
    answer (updateUserIdentity db now
              (UserFields (map_get fields "name") (map_get fields "role") (map_get fields "org")
                 (map_get fields "timezone") (map_get fields "language") None None)).2
      "User identity updated.".

Definition handleIdentity (db : identity_db) (args : list string) : outcome :=
  match sub args 0 with
  | None => identityShow db
  | Some s =>
      if bool_decide (s = "show") then identityShow db
      else if bool_decide (s = "set") then
        if bool_decide (sub args 1 = Some "agent") then identitySetAgent db (drop 2 args)
        else if bool_decide (sub args 1 = Some "user") then identitySetUser db (drop 2 args)
        else answer db (lines ["Usage:"; "/identity set agent role=..."; "/identity set user name=..."])
      else answer db (lines ["Usage:"; "/identity show"; "/identity set agent <field>=<value>";
                             "/identity set user <field>=<value>"])
  end.

Definition personalityShow (db : identity_db) : outcome :=
  let agent :=
    match resolveProfileId db chat with
    | Some pid =>
        match getAgentPersonality db pid with
        | [] => ["Agent Personality: (none configured)"]
        | l =>
            "Agent Personality:" ::
            map (λ e, "  " ++ dimension e ++ ": " ++ p_content e ++ " (confidence: " ++ toFixed2 (p_confidence e) ++
                      ")")%string l
        end
    | None => ["Agent Personality: (no profile)"]
    end in
  let user :=
    match getUserPersonality db with
    | [] => [""; "User Personality: (none configured)"]
    | l =>
        [""; "User Personality:"] ++
        map (λ e, "  " ++ t_dimension e ++ ": " ++ t_content e ++ " (confidence: " ++ toFixed2 (t_confidence e) ++
                  ", source: " ++ t_source e ++ ")")%string l
    end in
  answer db (lines (agent ++ user)).

Definition invalid_dimension (key valid : string) : string :=
  ("Invalid dimension " ++ quoted key ++ ". Valid: " ++ valid)%string.

(** The loop over the entries; what an earlier entry has changed stays when a later one
    throws. *)
Fixpoint set_dimensions (dims : list string) (valid who : string)
    (observe : identity_db → string → string → result identity_db) (db : identity_db)
    (entries : list (string * string)) (results : list string) : outcome :=
  match entries with
  | [] => answer db (lines results)
  | (key, value) :: entries =>
      if bool_decide (key ∈ dims) then
        match observe db key value with
        | Ok db =>
            set_dimensions dims valid who observe db entries
              (results ++ [(who ++ " personality " ++ quoted key ++ " updated.")%string])
        | Err e => (db, Err e)
        end
      else set_dimensions dims valid who observe db entries (results ++ [invalid_dimension key valid])
  end.

Definition observe_agent (pid : uuid) (db : identity_db) (dim content : string) : result identity_db :=
  let* (_, db) := observeAgentPersonality real db now pid dim content in Ok db.

Definition observe_user (db : identity_db) (dim content : string) : result identity_db :=
  let* (_, db) := observeUserPersonality real db now dim content "declared" in Ok db.

Definition personalitySetAgent (db : identity_db) (args : list string) : outcome :=
  match object_entries (parseKeyValuePairs args) with
  | [] =>
      answer db (lines ["Usage: /personality set agent communication_style=Concise, uses bullet points";
                        "Valid dimensions: " ++ valid_agent])%string
  | entries =>
      match resolveProfileId db chat with
      | None => answer db "No profile assigned to this chat."
      | Some pid => set_dimensions AGENT_DIMENSIONS valid_agent "Agent" (observe_agent pid) db entries []
      end
  end.

Definition personalitySetUser (db : identity_db) (args : list string) : outcome :=
  match object_entries (parseKeyValuePairs args) with
  | [] =>
      answer db (lines ["Usage: /personality set user work_patterns=Active 9am-6pm";
                        "Valid dimensions: " ++ valid_user])%string
  | entries => set_dimensions USER_DIMENSIONS valid_user "User" observe_user db entries []
  end.

Definition reset_answer (who dim : string) (r : bool * identity_db) : outcome :=
  answer r.2
    (if r.1
     then who ++ " personality " ++ quoted dim ++ " reset. The agent can re-infer it from conversation."
     else "No " ++ to_lower who ++ " personality " ++ quoted dim ++ " found to reset.")%string.

Definition personalityResetAgent (db : identity_db) (args : list string) : outcome :=
  let dim := to_lower (trim (String.concat " " args)) in
  if bool_decide (dim = "") then
    answer db (lines ["Usage: /personality reset agent <dimension>"; "Valid dimensions: " ++ valid_agent])%string
  else if negb (bool_decide (dim ∈ AGENT_DIMENSIONS)) then answer db (invalid_dimension dim valid_agent)
  else
    match resolveProfileId db chat with
    | None => answer db "No profile assigned to this chat."
    | Some pid => reset_answer "Agent" dim (deleteAgentPersonality db pid dim)
    end.

Definition personalityResetUser (db : identity_db) (args : list string) : outcome :=
  let dim := to_lower (trim (String.concat " " args)) in
  if bool_decide (dim = "") then
    answer db (lines ["Usage: /personality reset user <dimension>"; "Valid dimensions: " ++ valid_user])%string
  else if negb (bool_decide (dim ∈ USER_DIMENSIONS)) then answer db (invalid_dimension dim valid_user)
  else reset_answer "User" dim (deleteUserPersonality db dim).

Definition handlePersonality (db : identity_db) (args : list string) : outcome :=
  match sub args 0 with
  | None => personalityShow db
  | Some s =>
      if bool_decide (s = "show") then personalityShow db
      else if bool_decide (s = "set") then
        if bool_decide (sub args 1 = Some "agent") then personalitySetAgent db (drop 2 args)
        else if bool_decide (sub args 1 = Some "user") then personalitySetUser db (drop 2 args)
        else answer db (lines ["Usage:"; "/personality set agent <dimension>=<content>";
                               "/personality set user <dimension>=<content>"])
      else if bool_decide (s = "reset") then
        if bool_decide (sub args 1 = Some "agent") then personalityResetAgent db (drop 2 args)
        else if bool_decide (sub args 1 = Some "user") then personalityResetUser db (drop 2 args)
        else answer db (lines ["Usage:"; "/personality reset agent <dimension>"; "/personality reset user <dimension>"])
      else answer db (lines ["Usage:"; "/personality show"; "/personality set agent|user <dimension>=<content>";
                             "/personality reset agent|user <dimension>"])
  end.

Definition profile_line (p : AgentProfileWithStats) : string :=
  let q := st_profile p in
  ("  " ++ name q ++ (if isDefault q then " (default)" else "") ++
   (if opt_truthy (description q) then " " ++ em_dash ++ " " ++ default "" (description q) else "") ++
   " [" ++ pretty (Z.of_nat (chatCount p)) ++ " chats, " ++ pretty (Z.of_nat (semanticMemoryCount p)) ++
   " memories]")%string.

Definition profileList (db : identity_db) : outcome :=
  match listProfiles (tables db) with
  | [] => answer db "No profiles configured."
  | l => answer db (lines ("Profiles:" :: map profile_line l))
  end.

Definition profileShow (db : identity_db) : outcome :=
  match getChatProfile (tables db) chat with
  | None => answer db "No profile assigned to this chat."
  | Some p =>
      answer db (lines (["Current profile: " ++ name p]%string ++ shown "Description: " (description p) ++
                        push_if (isDefault p) ["(This is the default profile)"]))
  end.

Definition with_tables (db : identity_db) (t : profile_db) : identity_db :=
  IdentityDb t (user_identity db) (user_personality db) (state db).

Definition profileSwitch (db : identity_db) (n : string) : outcome :=
  match getProfileByName (tables db) n with
  | None => answer db ("Profile " ++ quoted n ++ " not found. Use /profile list to see available profiles.")%string
  | Some p =>
      match assignChat (tables db) now chat (id p) with
      | Ok (_, t) => answer (with_tables db t) ("Switched to profile " ++ quoted n ++ ".")%string
      | Err e => answer db ("Failed to switch profile: " ++ e)%string
      end
  end.

Definition handleProfile (db : identity_db) (args : list string) : outcome :=
  match sub args 0 with
  | None => profileList db
  | Some s =>
      if bool_decide (s = "list") then profileList db
      else if bool_decide (s = "show") then profileShow db
      else if bool_decide (s = "switch") then
        let n := trim (String.concat " " (drop 1 args)) in
        if bool_decide (n = "") then answer db "Usage: /profile switch <name>" else profileSwitch db n
      else answer db (lines ["Usage:"; "/profile list"; "/profile show"; "/profile switch <name>"])
  end.

Definition handleHelp (args : list string) : ChannelCommandResult :=
  let topic := sub args 0 in
  if bool_decide (topic = Some "identity") then ok HELP_IDENTITY
  else if bool_decide (topic = Some "personality") then ok HELP_PERSONALITY
  else if bool_decide (topic = Some "profile") then ok HELP_PROFILE
  else ok HELP_GENERAL.

Definition handle (db : identity_db) (text : string) : outcome :=
  let trimmed := trim text in
  let not_handled := (db, Ok (Result false None)) in
  if negb (starts_with "/" trimmed) then not_handled
  else
    let tokens := tokenize trimmed in
    let command := sub tokens 0 in
    if bool_decide (command = Some "/identity") then handleIdentity db (drop 1 tokens)
    else if bool_decide (command = Some "/personality") then handlePersonality db (drop 1 tokens)
    else if bool_decide (command = Some "/profile") then handleProfile db (drop 1 tokens)
    else if bool_decide (command = Some "/help") then (db, Ok (handleHelp (drop 1 tokens)))
    else not_handled.
End Handlers.

(** ** The fuel of the matcher *)

Lemma key_at_shorter acc s k r : key_at acc s = Some (k, r) → (String.length r < String.length s)%nat.
Proof.
  revert acc. induction s as [|c s IH]; intros acc; [done|]. cbn [key_at String.length].
  destruct (word_char c); [intros H%IH; lia|]. destruct (decide _); [|done].
  destruct (str_truthy acc); [|done]. intros [= _ <-]. lia.
Qed.

Lemma find_key_shorter s k r : find_key s = Some (k, r) → (String.length r < String.length s)%nat.
Proof.
  induction s as [|c s IH]; cbn [find_key]; [done|].
  destruct (key_at "" (String c s)) as [[k' r']|] eqn:E.
  - intros [= <- <-]. by eapply key_at_shorter.
  - intros H%IH. cbn [String.length]. lia.
Qed.

Lemma take_value_shorter s v r : take_value s = (v, r) → (String.length r ≤ String.length s)%nat.
Proof.
  revert v. induction s as [|c s IH]; intros v; cbn [take_value]; [by intros [= _ <-]|].
  destruct (pair_ahead (String c s)); [by intros [= _ <-]|]. destruct (take_value s) as [v' r'].
  intros [= _ <-]. pose proof (IH v' eq_refl). cbn [String.length]. lia.
Qed.

(** Each match uses up text, so that more fuel than the length of the text changes
    nothing: [parseKeyValuePairs] has all the matches. *)
Lemma matches_enough fuel fuel' s : (String.length s < fuel)%nat → (String.length s < fuel')%nat →
  matches fuel s = matches fuel' s.
Proof.
  revert fuel' s. induction fuel as [|fuel IH]; intros [|fuel'] s H H'; [lia..|]. cbn [matches].
  destruct (find_key s) as [[k r]|] eqn:E; [|done]. apply find_key_shorter in E.
  destruct (take_value r) as [v r'] eqn:Et. apply take_value_shorter in Et. f_equal. apply IH; lia.
Qed.

(** ** What a command may change *)

(** [db'] differs from [db] only in the identity and personality of profile [own], the
    rows of the user and the profile of [chat]. *)
Record touches (own : option uuid) (chat : string) (db db' : identity_db) : Prop := {
  tc_ok : identity_ok db → identity_ok db';
  tc_identity : ∀ p, own ≠ Some p → getAgentIdentity db' p = getAgentIdentity db p;
  tc_personality : ∀ p, own ≠ Some p → filter (λ r, p_profile r = p) (personality (tables db')) =
    filter (λ r, p_profile r = p) (personality (tables db));
  tc_profiles : profiles (tables db') = profiles (tables db);
  tc_memories : semantic (tables db') = semantic (tables db) ∧ meta (tables db') = meta (tables db) ∧
    external (tables db') = external (tables db);
  tc_links : summary_messages (tables db') = summary_messages (tables db) ∧
    summary_parents (tables db') = summary_parents (tables db) ∧
    meta_sources (tables db') = meta_sources (tables db) ∧ meta_parents (tables db') = meta_parents (tables db);
  tc_state : state db' = state db;
  tc_chats : ∀ c, c ≠ chat → getChatProfile (tables db') c = getChatProfile (tables db) c }.

Lemma touches_refl own chat db : touches own chat db db.
Proof. by split. Qed.

Lemma touches_trans own chat db1 db2 db3 :
  touches own chat db1 db2 → touches own chat db2 db3 → touches own chat db1 db3.
Proof.
  intros [A1 A2 A3 A4 (A5 & A6 & A7) (A8 & A9 & A10 & A11) A12 A13]
    [B1 B2 B3 B4 (B5 & B6 & B7) (B8 & B9 & B10 & B11) B12 B13].
  split; [auto|intros p Hp; by rewrite B2, A2|intros p Hp; by rewrite B3, A3|by rewrite B4|
    by rewrite B5, B6, B7|by rewrite B8, B9, B10, B11|by rewrite B12|intros c Hc; by rewrite B13, A13].
Qed.

Lemma find_map_other {A} (b : A → bool) (P : A → Prop) `{!∀ r, Decision (P r)} (f : A → A) l :
  (∀ r, P r → b r = false ∧ b (f r) = false) →
  List.find b (map (λ r, if decide (P r) then f r else r) l) = List.find b l.
Proof.
  intros Hf. induction l as [|r l IH]; [done|]. cbn [map List.find]. destruct (decide (P r)) as [E|].
  - destruct (Hf r E) as [-> ->]. exact IH.
  - destruct (b r); [done|exact IH].
Qed.

Lemma filter_map_other {A} (P : A → Prop) `{!∀ r, Decision (P r)} (c : A → bool) (f : A → A) l :
  (∀ r, c r = true → ¬ P r ∧ ¬ P (f r)) →
  filter P (map (λ r, if c r then f r else r) l) = filter P l.
Proof.
  intros Hf. induction l as [|r l IH]; [done|]. cbn [map]. rewrite !filter_cons. destruct (c r) eqn:E.
  - destruct (Hf r E). by rewrite !decide_False by done.
  - by rewrite IH.
Qed.

Lemma find_app_other {A} (b : A → bool) l r : b r = false → List.find b (l ++ [r]) = List.find b l.
Proof. intros Hr. induction l as [|x l IH]; cbn; [by rewrite Hr|]. by destruct (b x). Qed.

Lemma find_app_none {A} (b : A → bool) l r : List.find b l = None →
  List.find b (l ++ [r]) = if b r then Some r else None.
Proof. induction l as [|x l IH]; cbn; [done|]. by destruct (b x). Qed.

Section Touches.
Context (real : spec_float → spec_float) `{!RealLaws real} (now : Z) (chat : string).

Lemma set_touches db pid r e t i row db' :
  setAgentIdentity db now pid r e t i = Ok (row, db') → touches (Some pid) chat db db'.
Proof.
  intros E. split; [intros Hok; by eapply setAgentIdentity_ok| |by revert E; unfold setAgentIdentity;
    repeat (case_match; simplify_eq/=); intros; simplify_eq/=..].
  intros p Hp. unfold setAgentIdentity in E. destruct (getAgentIdentity db pid) as [old|].
  - injection E as _ <-. unfold getAgentIdentity, update_identity. cbn [tables with_identity identity].
    apply find_map_other. intros x Hx. split; apply bool_decide_eq_false; cbn; congruence.
  - destruct (profile_exists db pid); [|done]. injection E as _ <-. apply find_app_other.
    apply bool_decide_eq_false. cbn. congruence.
Qed.

Lemma observe_agent_touches pid db d c db' :
  observe_agent real now pid db d c = Ok db' → touches (Some pid) chat db db'.
Proof.
  unfold observe_agent. destruct (observeAgentPersonality _ _ _ _ _ _) as [[row db1]|] eqn:E; [|done].
  intros [= <-]. split; [intros Hok; by eapply observeAgent_ok| | |by revert E; unfold observeAgentPersonality;
    repeat (case_match; simplify_eq/=); intros; simplify_eq/=..].
  - intros p Hp. revert E. unfold observeAgentPersonality. by repeat (case_match; simplify_eq/=); intros; simplify_eq/=.
  - intros p Hp. unfold observeAgentPersonality in E. destruct (List.find _ _) as [old|].
    + destruct (_ <=? _)%Z; [|done]. injection E as _ <-. cbn [tables with_personality personality].
      apply filter_map_other. intros r [Er _]%bool_decide_eq_true. cbn. split; congruence.
    + do 2 (destruct (negb _); [done|]). injection E as _ <-. cbn [tables with_personality personality].
      rewrite filter_app, filter_cons, decide_False by (cbn; congruence). by rewrite app_nil_r.
Qed.

Lemma forget_agent_touches pid db d : touches (Some pid) chat db (deleteAgentPersonality db pid d).2.
Proof.
  split; [apply deleteAgent_ok|done| |done..]. intros p Hp. cbn [deleteAgentPersonality snd tables with_personality personality].
  induction (personality (tables db)) as [|r l IH]; [done|]. cbn [List.filter]. unfold agent_entry at 1.
  case_bool_decide as E; cbn [negb]; rewrite !filter_cons; [|by rewrite IH].
  destruct E as [E _]. by rewrite decide_False by congruence.
Qed.

Lemma observe_user_touches own db d c db' :
  observe_user real now db d c = Ok db' → touches own chat db db'.
Proof.
  unfold observe_user. destruct (observeUserPersonality _ _ _ _ _ _) as [[row db1]|] eqn:E; [|done].
  intros [= <-]. split; [intros Hok; by eapply observeUser_ok|by revert E; unfold observeUserPersonality;
    repeat (case_match; simplify_eq/=); intros; simplify_eq/=..].
Qed.

Lemma forget_user_touches own db d : touches own chat db (deleteUserPersonality db d).2.
Proof. split; [apply deleteUser_ok|done..]. Qed.

Lemma update_user_touches own db f : touches own chat db (updateUserIdentity db now f).2.
Proof. split; [apply updateUser_ok|unfold updateUserIdentity; by destruct (getUserIdentity db)..]. Qed.

Lemma switch_touches own db pid old t : assignChat (tables db) now chat pid = Ok (old, t) →
  touches own chat db (with_tables db t).
Proof.
  intros E. split.
  - intros Hok. pose proof (identity_step_ok real (λ _ _ _, Err "") 0 db
      (OnProfiles (Assign now chat pid)) I Hok) as H. cbn in H. by rewrite E in H.
  - unfold assignChat in E. intros p Hp. by repeat (case_match; simplify_eq/=).
  - unfold assignChat in E. intros p Hp. by repeat (case_match; simplify_eq/=).
  - unfold assignChat in E. by repeat (case_match; simplify_eq/=).
  - unfold assignChat in E. by repeat (case_match; simplify_eq/=).
  - unfold assignChat in E. by repeat (case_match; simplify_eq/=).
  - done.
  - intros c Hc. unfold assignChat in E. repeat (case_match; simplify_eq/=). unfold getChatProfile. cbn [chats].
    rewrite find_map_other; [done|]. intros x Hx. split; apply bool_decide_eq_false; cbn; congruence.
Qed.

Lemma set_dimensions_touches own dims valid who observe db entries results :
  (∀ db d c db', observe db d c = Ok db' → touches own chat db db') →
  touches own chat db (set_dimensions dims valid who observe db entries results).1.
Proof.
  intros Ho. revert db results. induction entries as [|[k v] es IH]; intros db results; [apply touches_refl|].
  cbn [set_dimensions]. case_bool_decide; [|apply IH].
  destruct (observe db k v) as [db1|] eqn:E; [|apply touches_refl].
  eapply touches_trans; [by eapply Ho|apply IH].
Qed.

Lemma answer_touches own db db' text : touches own chat db db' → touches own chat db (answer db' text).1.
Proof. done. Qed.

Lemma identity_touches db args : touches (resolveProfileId db chat) chat db (handleIdentity now chat db args).1.
Proof.
  assert (Hset : ∀ args, touches (resolveProfileId db chat) chat db (identitySetAgent now chat db args).1).
  { intros a. unfold identitySetAgent. case_bool_decide; [apply touches_refl|].
    destruct (resolveProfileId db chat) as [pid|]; [|apply touches_refl].
    destruct (_ || _); [apply touches_refl|].
    destruct (setAgentIdentity _ _ _ _ _ _ _) as [[row db1]|] eqn:E; [|apply touches_refl].
    by eapply set_touches. }
  assert (Huser : ∀ args, touches (resolveProfileId db chat) chat db (identitySetUser now db args).1).
  { intros a. unfold identitySetUser. case_bool_decide; [apply touches_refl|]. apply update_user_touches. }
  unfold handleIdentity. destruct (sub args 0); [|apply touches_refl].
  repeat case_bool_decide; auto; apply touches_refl.
Qed.

Lemma personality_touches db args :
  touches (resolveProfileId db chat) chat db (handlePersonality real now chat db args).1.
Proof.
  assert (Hset : ∀ args, touches (resolveProfileId db chat) chat db (personalitySetAgent real now chat db args).1).
  { intros a. unfold personalitySetAgent. destruct (object_entries _) as [|e es]; [apply touches_refl|].
    destruct (resolveProfileId db chat) as [pid|]; [|apply touches_refl].
    apply set_dimensions_touches. apply observe_agent_touches. }
  assert (Huser : ∀ args, touches (resolveProfileId db chat) chat db (personalitySetUser real now db args).1).
  { intros a. unfold personalitySetUser. destruct (object_entries _) as [|e es]; [apply touches_refl|].
    apply set_dimensions_touches. apply observe_user_touches. }
  assert (Hreset : ∀ args, touches (resolveProfileId db chat) chat db (personalityResetAgent chat db args).1).
  { intros a. unfold personalityResetAgent. case_bool_decide; [apply touches_refl|].
    destruct (negb _); [apply touches_refl|]. destruct (resolveProfileId db chat) as [pid|]; [|apply touches_refl].
    apply forget_agent_touches. }
  assert (Hforget : ∀ args, touches (resolveProfileId db chat) chat db (personalityResetUser db args).1).
  { intros a. unfold personalityResetUser. case_bool_decide; [apply touches_refl|].
    destruct (negb _); [apply touches_refl|]. apply forget_user_touches. }
  unfold handlePersonality. destruct (sub args 0); [|apply touches_refl].
  repeat case_bool_decide; auto; apply touches_refl.
Qed.

Lemma profile_touches db args : touches (resolveProfileId db chat) chat db (handleProfile now chat db args).1.
Proof.
  assert (Hlist : touches (resolveProfileId db chat) chat db (profileList db).1).
  { unfold profileList. destruct (listProfiles _); apply touches_refl. }
  assert (Hshow : touches (resolveProfileId db chat) chat db (profileShow chat db).1).
  { unfold profileShow. destruct (getChatProfile _ _); apply touches_refl. }
  assert (Hswitch : ∀ n, touches (resolveProfileId db chat) chat db (profileSwitch now chat db n).1).
  { intros n. unfold profileSwitch. destruct (getProfileByName _ _) as [p|]; [|apply touches_refl].
    destruct (assignChat _ _ _ _) as [[old t]|] eqn:E; [|apply touches_refl]. by eapply switch_touches. }
  unfold handleProfile. destruct (sub args 0); [|done].
  repeat case_bool_decide; auto; apply touches_refl.
Qed.

(** The profile in the row of the chat; without one, the profile marked as the default. *)
Definition own_profile (t : profile_db) : option uuid :=
  match profile_of_chat t chat with
  | Some p => Some (id p)
  | None => id <$> head (filter (λ p, isDefault p = true) (profiles t))
  end.

Lemma resolve_own db : resolveProfileId db chat = own_profile (tables db).
Proof.
  unfold resolveProfileId, own_profile. rewrite getChatProfile_row. destruct (profile_of_chat _ _); [done|].
  f_equal. unfold getDefaultProfile. rewrite <- find_head. induction (profiles (tables db)) as [|p l IH]; [done|].
  cbn [List.find]. by destruct (isDefault p).
Qed.

(** C22: a command changes at most the identity and personality of the profile that the row
    of its chat names, or of the profile marked as the default where the chat has none, the
    rows of the user, and the profile of its own chat, and it keeps the tables in order: the
    other profiles, all memories and their links, the proposals and the other chats stay as
    they are. *)
Theorem command_stays_in_its_profile db text :
  touches (own_profile (tables db)) chat db (handle real now chat db text).1.
Proof.
  rewrite <- resolve_own. unfold handle. destruct (negb _); [apply touches_refl|].
  repeat (case_bool_decide; [by (apply identity_touches || apply personality_touches ||
    apply profile_touches || apply touches_refl)|]). apply touches_refl.
Qed.
End Touches.

(** ** Commands do not fail *)

(** No count is about to leave the range of the column. *)
Definition counts_room (db : identity_db) : Prop :=
  (∀ r, r ∈ personality (tables db) → evidence_count r < INT_MAX)%Z ∧
  (∀ r, r ∈ user_personality db → t_evidence r < INT_MAX)%Z.

Lemma set_field_wf fields m : map_wf fields → map_wf (set_field fields m).
Proof. unfold set_field. destruct (_ && _); [apply map_wf_set|done]. Qed.

Lemma parse_wf args : map_wf (parseKeyValuePairs args).
Proof.
  unfold parseKeyValuePairs. apply foldl_inv; [exact (map_wf_nil (A := string))|]. intros. by apply set_field_wf.
Qed.

Lemma filter_complement {A} (b : A → bool) l : List.filter b l ++ List.filter (λ x, negb (b x)) l ≡ₚ l.
Proof.
  induction l as [|x l IH]; [done|]. simpl. destruct (b x); simpl; [by rewrite IH|].
  by rewrite <- Permutation_middle, IH.
Qed.

Lemma object_entries_perm fields : object_entries fields ≡ₚ fields.
Proof. unfold object_entries. rewrite merge_sort_Permutation. apply filter_complement. Qed.

Lemma resolve_exists db chat pid : resolveProfileId db chat = Some pid → pid ∈ pids (tables db).
Proof.
  unfold resolveProfileId, getChatProfile.
  destruct (List.find _ (chats (tables db))) as [c|]; cbn.
  - destruct (getProfile (tables db) (chat_profile c)) as [p|] eqn:E.
    + intros [= <-]. apply getProfile_Some in E as [Hp _]. apply elem_of_map. by exists p.
    + destruct (getDefaultProfile _) as [p|] eqn:Ed; [|done]. intros [= <-]. apply find_some in Ed as [Hp _].
      apply elem_of_map. exists p. by rewrite list_elem_of_In.
  - destruct (getDefaultProfile _) as [p|] eqn:Ed; [|done]. intros [= <-]. apply find_some in Ed as [Hp _].
    apply elem_of_map. exists p. by rewrite list_elem_of_In.
Qed.

Section Total.
Context (real : spec_float → spec_float) (now : Z) (chat : string).

(** The loop over the entries succeeds when each observation does and leaves room for
    those of other dimensions. *)
Lemma set_dimensions_total (dims : list string) valid who observe (Inv : identity_db → Prop)
    (Room : string → identity_db → Prop) db entries results :
  (∀ db d c, d ∈ dims → Inv db → Room d db → ∃ db', observe db d c = Ok db' ∧ Inv db' ∧
     ∀ d', d' ≠ d → Room d' db → Room d' db') →
  NoDup (map fst entries) → Inv db → (∀ d, d ∈ map fst entries → Room d db) →
  ∃ db' text, set_dimensions dims valid who observe db entries results = (db', Ok (ok text)).
Proof.
  intros Ho. revert db results. induction entries as [|[k v] es IH]; intros db results; cbn [map fst];
    [by eexists _, _|].
  intros [Hk Hnd]%NoDup_cons Hinv Hroom. cbn [set_dimensions]. case_bool_decide as Hd.
  - destruct (Ho db k v Hd Hinv (Hroom k ltac:(left))) as (db1 & -> & Hinv1 & Hroom1).
    apply IH; [done|done|]. intros d Hin. apply Hroom1; [by intros ->|]. apply Hroom. by right.
  - apply IH; [done|done|]. intros d Hin. apply Hroom. by right.
Qed.

Definition agent_room (pid : uuid) (d : string) (db : identity_db) : Prop :=
  ∀ r, r ∈ personality (tables db) → agent_entry pid d r = true → (evidence_count r < INT_MAX)%Z.

Lemma observe_agent_total pid db d c : d ∈ AGENT_DIMENSIONS → pid ∈ pids (tables db) → agent_room pid d db →
  ∃ db', observe_agent real now pid db d c = Ok db' ∧ pid ∈ pids (tables db') ∧
    ∀ d', d' ≠ d → agent_room pid d' db → agent_room pid d' db'.
Proof.
  intros Hd Hp Hr. unfold observe_agent, observeAgentPersonality.
  destruct (List.find _ _) as [old|] eqn:E.
  - apply find_some in E as [Hin E]. apply list_elem_of_In in Hin. pose proof (Hr _ Hin E).
    destruct (_ <=? _)%Z eqn:El; [|apply Z.leb_gt in El; lia]. eexists. split; [done|]. split; [done|].
    intros d' Hne Hr' r [Hin' | (r0 & _ & E0 & ->)]%elem_of_update; [by apply Hr'|].
    unfold agent_entry in *. intros [_ Ed']%bool_decide_eq_true. apply bool_decide_eq_true in E0 as [_ Ed].
    cbn in Ed'. congruence.
  - rewrite (bool_decide_eq_true_2 _ Hd). cbn [negb]. unfold profile_exists.
    rewrite (bool_decide_eq_true_2 _ Hp). cbn [negb]. eexists. split; [done|]. split; [done|].
    intros d' Hne Hr' r. cbn [tables with_personality personality].
    intros [Hin'|Hin']%elem_of_app; [by apply Hr'|]. apply list_elem_of_singleton in Hin' as ->.
    unfold agent_entry. cbn. intros [_ Ed']%bool_decide_eq_true. congruence.
Qed.

Definition user_room (d : string) (db : identity_db) : Prop :=
  ∀ r, r ∈ user_personality db → t_dimension r = d → (t_evidence r < INT_MAX)%Z.

Lemma observe_user_total db d c : d ∈ USER_DIMENSIONS → user_room d db →
  ∃ db', observe_user real now db d c = Ok db' ∧ ∀ d', d' ≠ d → user_room d' db → user_room d' db'.
Proof.
  intros Hd Hr. unfold observe_user, observeUserPersonality. cbn [negb bool_decide].
  rewrite (bool_decide_eq_true_2 ("declared" ∈ SOURCES)) by (by apply (bool_decide_unpack _)). cbn [negb].
  destruct (List.find _ _) as [old|] eqn:E.
  - apply find_some in E as [Hin E]. apply list_elem_of_In in Hin. apply bool_decide_eq_true in E.
    pose proof (Hr _ Hin E).
    destruct (_ <=? _)%Z eqn:El; [|apply Z.leb_gt in El; lia]. eexists. split; [done|].
    intros d' Hne Hr' r [Hin' | (r0 & _ & E0 & ->)]%elem_of_update; [by apply Hr'|].
    apply bool_decide_eq_true in E0. cbn. congruence.
  - rewrite (bool_decide_eq_true_2 _ Hd). cbn [negb]. eexists. split; [done|].
    intros d' Hne Hr' r. cbn [user_personality with_traits].
    intros [Hin'|Hin']%elem_of_app; [by apply Hr'|]. apply list_elem_of_singleton in Hin' as ->. cbn. congruence.
Qed.

(** A handler that answers. *)
Definition answers (o : outcome) : Prop := ∃ db text, o = (db, Ok (ok text)).

Lemma answer_answers db text : answers (answer db text).
Proof. by eexists _, _. Qed.

Lemma identity_answers db args : answers (handleIdentity now chat db args).
Proof.
  assert (Hset : ∀ args, answers (identitySetAgent now chat db args)).
  { intros a. unfold identitySetAgent. case_bool_decide; [apply answer_answers|].
    destruct (resolveProfileId db chat) as [pid|] eqn:Er; [|apply answer_answers].
    destruct (_ || _); [apply answer_answers|]. unfold setAgentIdentity.
    destruct (getAgentIdentity db pid); [apply answer_answers|]. unfold profile_exists.
    rewrite (bool_decide_eq_true_2 _ (resolve_exists _ _ _ Er)). apply answer_answers. }
  assert (Huser : ∀ args, answers (identitySetUser now db args)).
  { intros a. unfold identitySetUser. case_bool_decide; apply answer_answers. }
  unfold handleIdentity. destruct (sub args 0); [|apply answer_answers].
  repeat case_bool_decide; auto; apply answer_answers.
Qed.

Lemma entries_nodup args : NoDup (map fst (object_entries (parseKeyValuePairs args))).
Proof. rewrite object_entries_perm. apply parse_wf. Qed.

Lemma personality_answers db args : counts_room db → answers (handlePersonality real now chat db args).
Proof.
  intros [Ha Hu].
  assert (Hset : ∀ args, answers (personalitySetAgent real now chat db args)).
  { intros a. unfold personalitySetAgent. pose proof (entries_nodup a) as Hnd.
    destruct (object_entries _) as [|e es]; [apply answer_answers|].
    destruct (resolveProfileId db chat) as [pid|] eqn:Er; [|apply answer_answers].
    apply (set_dimensions_total _ _ _ _ (λ db, pid ∈ pids (tables db)) (agent_room pid)); [|done| |].
    - intros db0 d c Hd Hp Hr. by apply observe_agent_total.
    - by eapply resolve_exists.
    - intros d _ r Hr _. by apply Ha. }
  assert (Huser : ∀ args, answers (personalitySetUser real now db args)).
  { intros a. unfold personalitySetUser. pose proof (entries_nodup a) as Hnd.
    destruct (object_entries _) as [|e es]; [apply answer_answers|].
    apply (set_dimensions_total _ _ _ _ (λ _, True) user_room); [|done|done|].
    - intros db0 d c Hd _ Hr. destruct (observe_user_total db0 d c Hd Hr) as (db' & E & Hk). by exists db'.
    - intros d _ r Hr _. by apply Hu. }
  assert (Hreset : ∀ args, answers (personalityResetAgent chat db args)).
  { intros a. unfold personalityResetAgent. case_bool_decide; [apply answer_answers|].
    destruct (negb _); [apply answer_answers|]. destruct (resolveProfileId db chat); apply answer_answers. }
  assert (Hforget : ∀ args, answers (personalityResetUser db args)).
  { intros a. unfold personalityResetUser. case_bool_decide; [apply answer_answers|].
    destruct (negb _); apply answer_answers. }
  unfold handlePersonality, personalityShow. destruct (sub args 0); [|apply answer_answers].
  repeat case_bool_decide; auto; apply answer_answers.
Qed.

Lemma profile_answers db args : answers (handleProfile now chat db args).
Proof.
  assert (Hlist : answers (profileList db)) by (unfold profileList; destruct (listProfiles _); apply answer_answers).
  assert (Hshow : answers (profileShow chat db))
    by (unfold profileShow; destruct (getChatProfile _ _); apply answer_answers).
  assert (Hswitch : ∀ n, answers (profileSwitch now chat db n)).
  { intros n. unfold profileSwitch. destruct (getProfileByName _ _) as [p|]; [|apply answer_answers].
    destruct (assignChat _ _ _ _) as [[old t]|]; apply answer_answers. }
  unfold handleProfile. destruct (sub args 0); [|done]. repeat case_bool_decide; auto; apply answer_answers.
Qed.

Definition COMMANDS : list string := ["/identity"; "/personality"; "/profile"; "/help"].

(** A message whose first word is one of the four commands, in any case, is answered
    without an error, whatever its arguments are; any other message is left to the agent
    and changes nothing. *)
Theorem command_answered db text : counts_room db →
  if starts_with "/" (trim text) && bool_decide (sub (tokenize (trim text)) 0 ∈ map Some COMMANDS)
  then ∃ db' reply, handle real now chat db text = (db', Ok (ok reply))
  else handle real now chat db text = (db, Ok (Result false None)).
Proof.
  intros Hroom. unfold handle. destruct (starts_with _ _); [cbn [negb andb]|done].
  destruct (sub (tokenize (trim text)) 0) as [c|]; [|done]. unfold COMMANDS. cbn [map].
  case_bool_decide as Hc.
  - rewrite !elem_of_cons in Hc. destruct Hc as [[= ->]|[[= ->]|[[= ->]|[[= ->]|[]%elem_of_nil]]]];
      repeat first [rewrite bool_decide_eq_true_2 by done|rewrite bool_decide_eq_false_2 by done].
    + apply identity_answers.
    + by apply personality_answers.
    + apply profile_answers.
    + unfold handleHelp. repeat case_bool_decide; by eexists _, _.
  - rewrite !elem_of_cons in Hc. by rewrite !bool_decide_eq_false_2 by naive_solver.
Qed.
End Total.

(** ** Fields are read back *)

(** Single spaces between words: whether [s] ends in one, [None] where there are other
    spaces or two of them.  [prev] tells whether a space comes before. *)
Fixpoint spacing (prev : bool) (s : string) : option bool :=
  match s with
  | EmptyString => Some prev
  | String c s =>
      if is_space c then (if bool_decide (c = " "%char) && negb prev then spacing true s else None)
      else spacing false s
  end.

Definition single_spaced (s : string) : Prop := spacing true s = Some false.

Lemma spacing_app prev s t : spacing prev (s ++ t) = spacing prev s ≫= λ p, spacing p t.
Proof.
  revert prev. induction s as [|c s IH]; intros prev; [done|]. rewrite string_app_cons. cbn [spacing].
  destruct (is_space c); [|apply IH]. destruct (_ && _); [apply IH|done].
Qed.

Lemma spacing_weaken s p : s ≠ "" → spacing true s = Some p → spacing false s = Some p.
Proof.
  destruct s as [|c s]; [done|]. intros _. cbn [spacing]. destruct (is_space c); [|done].
  by rewrite andb_false_r.
Qed.

Lemma words_concat s :
  (∀ acc, acc ≠ "" → spacing false s = Some false → String.concat " " (words_aux acc s) = (acc ++ s)%string) ∧
  (single_spaced s → words_aux "" s ≠ [] ∧ String.concat " " (words_aux "" s) = s).
Proof.
  unfold single_spaced.
  induction s as [|c s [IH1 IH2]]; cbn [spacing words_aux].
  - split; [|done]. intros acc Hacc _. unfold str_truthy. rewrite bool_decide_eq_false_2 by done.
    cbn. by rewrite string_app_nil_r.
  - split.
    + intros acc Hacc. destruct (is_space c).
      * destruct (bool_decide (c = " "%char)) eqn:Ec; [|done]. apply bool_decide_eq_true in Ec as ->. cbn [andb negb].
        intros Hs. destruct (IH2 Hs) as [Hne IH]. unfold str_truthy. rewrite bool_decide_eq_false_2 by done.
        cbn [negb app]. destruct (words_aux "" s) as [|w ws]; [done|].
        change (String.concat " " (acc :: w :: ws)) with (acc ++ " " ++ String.concat " " (w :: ws))%string.
        by rewrite IH.
      * intros Hs. rewrite IH1; [|by destruct acc|done]. by rewrite string_app_assoc.
    + destruct (is_space c); [by rewrite andb_false_r|]. intros Hs. change ("" ++ ?x)%string with x.
      rewrite IH1 by done. split; [|done]. intros E.
      assert (H : String.concat " " (words_aux (String c "") s) = "") by (by rewrite E).
      by rewrite IH1 in H.
Qed.

Lemma trim_single_spaced s t : s ≠ "" → single_spaced (s ++ t) → trim (s ++ t) = (s ++ t)%string.
Proof.
  unfold single_spaced, trim. intros _ Hs. assert (Hstart : trim_start (s ++ t) = (s ++ t)%string).
  { destruct (s ++ t)%string as [|c r]; [done|]. cbn [spacing trim_start] in *. destruct (is_space c); [|done].
    by rewrite andb_false_r in Hs. }
  rewrite Hstart. clear Hstart. revert Hs. generalize (s ++ t)%string. clear. intros s Hs.
  assert (Hlast : ∀ p, spacing p s = Some false → s ≠ "" → ∃ s' c, s = (s' ++ String c "")%string ∧ is_space c = false).
  { clear. induction s as [|c s IH]; [done|]. intros p Hp _. cbn [spacing] in Hp. destruct (is_space c) eqn:Ec.
    - destruct (_ && _); [|done]. destruct (decide (s = "")) as [->|Hne]; [done|].
      destruct (IH true Hp Hne) as (s' & d & -> & Hd). by exists (String c s'), d.
    - destruct (decide (s = "")) as [->|Hne]; [by exists "", c|].
      destruct (IH false Hp Hne) as (s' & d & -> & Hd). by exists (String c s'), d. }
  destruct (decide (s = "")) as [->|Hne]; [done|]. destruct (Hlast true Hs Hne) as (s' & c & -> & Hc).
  unfold trim_end. rewrite rev_string_app. change (String.rev (String c "")) with (String c "").
  rewrite string_app_cons. cbn [trim_start]. rewrite Hc. rewrite <- string_app_cons, rev_string_app, rev_string_involutive.
  done.
Qed.

Definition is_word (s : string) : Prop := s ≠ "" ∧ Forall (λ c, word_char c = true) (String.list_ascii_of_string s).

(** A field that a command can carry: a key in lower case, and a value of single-spaced
    words in which no other pair begins and that does not end in a comma. *)
Record clean_field (f : string * string) : Prop := {
  cf_word : is_word f.1;
  cf_lower : to_lower f.1 = f.1;
  cf_proto : f.1 ≠ "__proto__";
  cf_spaces : single_spaced f.2;
  cf_comma : drop_trailing_comma f.2 = f.2;
  cf_value : take_value f.2 = (f.2, "") }.

Definition render_field (f : string * string) : string := (f.1 ++ "=" ++ f.2)%string.

Definition render (fields : list (string * string)) : string := String.concat ", " (map render_field fields).

(** What follows a value. *)
Definition rest_text (fields : list (string * string)) : string :=
  match fields with [] => "" | _ => ", " ++ render fields end%string.

Lemma word_not_space c : word_char c = true → is_space c = false.
Proof. by destruct c as [[] [] [] [] [] [] [] []]. Qed.

Lemma key_at_word acc k r : acc ≠ "" ∨ k ≠ "" → Forall (λ c, word_char c = true) (String.list_ascii_of_string k) →
  key_at acc (k ++ String "=" r) = Some ((acc ++ k)%string, r).
Proof.
  revert acc. induction k as [|c k IH]; intros acc Hne.
  - intros _. destruct Hne as [Hne|]; [|done]. change ("" ++ ?x)%string with x. cbn [key_at].
    change (word_char "="%char) with false. cbn [negb]. rewrite decide_True by done.
    unfold str_truthy. rewrite bool_decide_eq_false_2 by done. by rewrite string_app_nil_r.
  - intros [Hc Hk]%Forall_cons. rewrite string_app_cons. cbn [key_at]. rewrite Hc, IH; [|by left; destruct acc|done].
    by rewrite string_app_assoc.
Qed.

Lemma find_key_word k r : is_word k → find_key (k ++ String "=" r) = Some (k, r).
Proof.
  intros [Hne Hk]. pose proof (key_at_word "" k r (or_intror Hne) Hk) as E. change ("" ++ ?x)%string with x in E.
  destruct k as [|c k]; [done|]. rewrite string_app_cons in *. cbn [find_key]. by rewrite E.
Qed.

(** Text that a comma follows has no pair that it does not have by itself. *)
Lemma key_at_rest acc s t : key_at acc s = None → key_at acc (s ++ String "," t) = None.
Proof.
  revert acc. induction s as [|c s IH]; intros acc; [done|]. rewrite string_app_cons. cbn [key_at].
  destruct (word_char c); [apply IH|]. destruct (decide _); [|done]. by destruct (str_truthy acc).
Qed.

Lemma trim_start_rest s t : trim_start (s ++ String "," t) = (trim_start s ++ String "," t)%string.
Proof.
  induction s as [|c s IH]; [done|]. rewrite string_app_cons. cbn [trim_start]. by destruct (is_space c).
Qed.

Lemma pair_ahead_rest s t : s ≠ "" → pair_ahead s = false → pair_ahead (s ++ String "," t) = false.
Proof.
  destruct s as [|c s]; [done|]. intros _. rewrite string_app_cons. cbn [pair_ahead].
  destruct (bool_decide (c = ","%char)); [|done]. cbn [andb]. rewrite !bool_decide_eq_false, trim_start_rest.
  intros Hn. rewrite key_at_rest; [by intros []|]. destruct (key_at "" (trim_start s)); [by destruct Hn|done].
Qed.

Lemma pair_ahead_render f fields : clean_field f → pair_ahead (", " ++ render (f :: fields)) = true.
Proof.
  intros Hf. destruct (cf_word f Hf) as [Hne Hk].
  assert (E : ∃ r, render (f :: fields) = (f.1 ++ String "=" r)%string).
  { destruct fields as [|g fields]; [by exists f.2|]. exists (f.2 ++ ", " ++ render (g :: fields))%string.
    change (render (f :: g :: fields)) with (render_field f ++ ", " ++ render (g :: fields))%string.
    unfold render_field. by rewrite !string_app_assoc. }
  destruct E as [r ->]. change (", " ++ ?x)%string with (String "," (String " " x)).
  cbn [pair_ahead]. apply andb_true_intro. split; [done|]. apply bool_decide_eq_true.
  change (trim_start (String " " ?x)) with (trim_start x).
  assert (Et : trim_start (f.1 ++ String "=" r) = (f.1 ++ String "=" r)%string).
  { destruct f.1 as [|c k]; [done|]. apply Forall_cons in Hk as [Hc _]. rewrite string_app_cons. cbn [trim_start].
    by rewrite word_not_space. }
  rewrite Et, (key_at_word "" f.1 r (or_intror Hne) Hk). by eexists.
Qed.

Lemma take_value_rest v fields : Forall clean_field fields → take_value v = (v, "") →
  take_value (v ++ rest_text fields) = (v, rest_text fields).
Proof.
  intros Hf. destruct fields as [|f fields]; cbn [rest_text]; [by rewrite string_app_nil_r|].
  apply Forall_cons in Hf as [Hf _]. pose proof (pair_ahead_render f fields Hf) as Hp.
  change (", " ++ render (f :: fields))%string with (String "," (" " ++ render (f :: fields))) in *.
  revert Hp. generalize (" " ++ render (f :: fields))%string. intros t Hp.
  induction v as [|c v IH].
  - intros _. change ("" ++ ?x)%string with x. cbn [take_value]. by rewrite Hp.
  - cbn [take_value]. destruct (pair_ahead (String c v)) eqn:E; [done|].
    destruct (take_value v) as [v' r] eqn:Ev. intros [= -> ->]. rewrite string_app_cons. cbn [take_value].
    rewrite <- string_app_cons, pair_ahead_rest by done. by rewrite IH.
Qed.

Lemma find_key_rest f fields : clean_field f →
  find_key (rest_text (f :: fields)) = Some (f.1, (f.2 ++ rest_text fields)%string) ∧
  find_key (render (f :: fields)) = Some (f.1, (f.2 ++ rest_text fields)%string).
Proof.
  intros Hf.
  assert (E : render (f :: fields) = (f.1 ++ String "=" (f.2 ++ rest_text fields))%string).
  { destruct fields as [|g fields]; [by cbn; rewrite string_app_nil_r|].
    change (render (f :: g :: fields)) with (render_field f ++ ", " ++ render (g :: fields))%string.
    unfold render_field. by rewrite !string_app_assoc. }
  cbn [rest_text]. rewrite E. split; [|apply find_key_word, Hf].
  change (find_key (", " ++ ?x)) with (find_key x). apply find_key_word, Hf.
Qed.

Lemma matches_rest fields fuel : Forall clean_field fields → (length fields < fuel)%nat →
  matches fuel (rest_text fields) = fields ∧ matches fuel (render fields) = fields.
Proof.
  revert fuel. induction fields as [|f fields IH]; intros [|fuel] Hf Hlen; cbn [length] in Hlen; [lia|done|lia|].
  apply Forall_cons in Hf as [Hf Hfs]. destruct (find_key_rest f fields Hf) as [E1 E2].
  destruct (IH fuel Hfs ltac:(lia)) as [IH1 _]. cbn [matches].
  rewrite E1, E2, take_value_rest, IH1 by (done || apply Hf). by destruct f.
Qed.

Lemma clean_truthy f : clean_field f → str_truthy f.2 = true.
Proof.
  intros Hf. pose proof (cf_spaces f Hf) as Hs. unfold str_truthy. destruct f.2; [done|]. by apply negb_true_iff, bool_decide_eq_false.
Qed.

Lemma clean_trim f : clean_field f → trim f.2 = f.2.
Proof.
  intros Hf. pose proof (cf_spaces f Hf) as Hs. pose proof (clean_truthy f Hf) as Ht.
  rewrite <- (string_app_nil_r f.2). apply trim_single_spaced; [by intros E; rewrite E in Ht|by rewrite string_app_nil_r].
Qed.

Lemma set_fields fields m : Forall clean_field fields → NoDup (map_keys m ++ map fst fields) →
  foldl set_field m fields = m ++ fields.
Proof.
  revert m. induction fields as [|f fields IH]; intros m; cbn [foldl map]; [by intros; rewrite app_nil_r|].
  intros [Hf Hfs]%Forall_cons Hnd. unfold set_field at 2. rewrite (clean_trim f Hf), (clean_truthy f Hf), (cf_lower f Hf).
  rewrite (bool_decide_eq_false_2 _ (cf_proto f Hf)), (cf_comma f Hf). cbn [negb andb].
  rewrite map_set_new.
  - rewrite IH; [by rewrite <- app_assoc, <- surjective_pairing|done|].
    unfold map_keys in *. rewrite map_app, <- app_assoc. done.
  - apply NoDup_app in Hnd as (_ & Hd & _). intros Hin. apply (Hd _ Hin). left.
Qed.

Lemma spacing_word p k : is_word k → spacing p k = Some false.
Proof.
  intros [Hne Hk]. revert p. induction k as [|c k IH]; [done|]. intros p. apply Forall_cons in Hk as [Hc Hk].
  cbn [spacing]. rewrite word_not_space by done. destruct k as [|d k]; [done|]. by apply IH.
Qed.

Lemma spacing_render f fields : Forall clean_field (f :: fields) → single_spaced (render (f :: fields)).
Proof.
  assert (Hone : ∀ f, clean_field f → single_spaced (render_field f)).
  { intros g Hg. unfold single_spaced, render_field. rewrite spacing_app, (spacing_word _ _ (cf_word g Hg)). cbn [mbind option_bind].
    change (spacing false ("=" ++ g.2)) with (spacing false g.2). apply spacing_weaken; [|apply Hg]. pose proof (clean_truthy g Hg) as Ht. intros E. by rewrite E in Ht. }
  unfold single_spaced. revert f. induction fields as [|g fields IH]; intros f [Hf Hfs]%Forall_cons; [by apply Hone|].
  change (render (f :: g :: fields)) with (render_field f ++ ", " ++ render (g :: fields))%string.
  rewrite spacing_app, (Hone f Hf). cbn [mbind option_bind]. rewrite spacing_app. cbn. by apply IH.
Qed.

Lemma length_render fields : Forall clean_field fields → (length fields ≤ String.length (render fields))%nat.
Proof.
  destruct fields as [|f fields]; [done|]. revert f. induction fields as [|g fields IH]; intros f [Hf Hfs]%Forall_cons.
  - change (render [f]) with (f.1 ++ String "=" f.2)%string. rewrite length_app_string. simpl. lia.
  - change (render (f :: g :: fields)) with (render_field f ++ String "," (String " " (render (g :: fields))))%string.
    rewrite length_app_string. pose proof (IH g Hfs). simpl in *. lia.
Qed.

Lemma parse_render fields : Forall clean_field fields → NoDup (map fst fields) →
  parseKeyValuePairs (tokenize (render fields)) = fields.
Proof.
  intros Hf Hnd. destruct fields as [|f fields]; [reflexivity|].
  pose proof (spacing_render f fields Hf) as Hs. unfold parseKeyValuePairs, tokenize.
  destruct (words_concat (render (f :: fields))) as [_ Hw]. destruct (Hw Hs) as [_ ->].
  assert (Ht : trim (render (f :: fields)) = render (f :: fields)).
  { rewrite <- (string_app_nil_r (render _)). apply trim_single_spaced; [|by rewrite string_app_nil_r].
    intros E. by rewrite E in Hs. }
  rewrite Ht. destruct (matches_rest (f :: fields) (S (String.length (render (f :: fields)))) Hf) as [_ ->].
  { pose proof (length_render (f :: fields) Hf). lia. }
  by apply set_fields.
Qed.

(** A command that carries fields is read back: written as pairs that commas separate, in
    the message and cut into words, they are parsed to the same fields in the same
    order, whatever commas the values contain. *)
Theorem fields_readback fields : Forall clean_field fields → NoDup (map fst fields) →
  parseKeyValuePairs (tokenize (render fields)) = fields.
Proof. apply parse_render. Qed.

(** ** Setting the identity of the agent *)

Definition set_agent_command (fields : list (string * string)) : string :=
  ("/identity set agent " ++ render fields)%string.

Lemma words_prefix acc w s : Forall (λ c, is_space c = false) (String.list_ascii_of_string w) →
  (acc ++ w)%string ≠ "" → words_aux acc (w ++ String " " s) = (acc ++ w)%string :: words_aux "" s.
Proof.
  revert acc. induction w as [|c w IH]; intros acc.
  - intros _ Hne. rewrite string_app_nil_r in *. change ("" ++ ?x)%string with x. cbn [words_aux].
    change (is_space " "%char) with true. cbn [negb]. unfold str_truthy. by rewrite bool_decide_eq_false_2.
  - intros [Hc Hw]%Forall_cons Hne. rewrite string_app_cons. cbn [words_aux]. rewrite Hc, IH; [by rewrite string_app_assoc|done|].
    by rewrite string_app_assoc.
Qed.

Lemma set_agent_tokens f fields : Forall clean_field (f :: fields) →
  trim (set_agent_command (f :: fields)) = set_agent_command (f :: fields) ∧
  tokenize (set_agent_command (f :: fields)) = ["/identity"; "set"; "agent"] ++ tokenize (render (f :: fields)).
Proof.
  intros Hf. unfold set_agent_command. split.
  - apply trim_single_spaced; [done|]. unfold single_spaced. rewrite spacing_app.
    assert (E : spacing true "/identity set agent " = Some true) by (vm_compute; reflexivity).
    rewrite E. by apply spacing_render.
  - unfold tokenize.
    change ("/identity set agent " ++ ?x)%string with
      ("/identity" ++ String " " ("set" ++ String " " ("agent" ++ String " " x)))%string.
    by rewrite !words_prefix by (apply (bool_decide_unpack _); vm_compute; exact I).
Qed.

Lemma handle_set_agent real now chat db f fields : Forall clean_field (f :: fields) →
  handle real now chat db (set_agent_command (f :: fields)) =
  identitySetAgent now chat db (tokenize (render (f :: fields))).
Proof.
  intros Hf. destruct (set_agent_tokens f fields Hf) as [Etrim Etok]. unfold handle. rewrite Etrim, Etok.
  change (starts_with "/" (set_agent_command (f :: fields))) with (starts_with "" (str_drop 1 (set_agent_command (f :: fields)))).
  replace (starts_with "" _) with true by (by destruct (str_drop 1 (set_agent_command (f :: fields)))).
  cbn [negb]. change (drop 1 (["/identity"; "set"; "agent"] ++ ?l)) with (["set"; "agent"] ++ l).
  change (sub (["/identity"; "set"; "agent"] ++ ?l) 0) with (Some "/identity").
  rewrite bool_decide_eq_true_2 by done. unfold handleIdentity.
  change (sub (["set"; "agent"] ++ ?l) 0) with (Some "set"). change (sub (["set"; "agent"] ++ ?l) 1) with (Some "agent").
  cbv beta iota. rewrite (bool_decide_eq_false_2 ("set" = "show")) by done. rewrite (bool_decide_eq_true_2 ("set" = "set")) by done.
  rewrite bool_decide_eq_true_2 by done. reflexivity.
Qed.

(** A user who sets role and tone of the agent gets exactly these in the tables, for the
    profile of the chat, with the expertise and the instructions there were. *)
Theorem set_agent_identity real now chat db pid r t :
  clean_field ("role", r) → clean_field ("tone", t) → identity_ok db → resolveProfileId db chat = Some pid →
  let old := getAgentIdentity db pid in
  ∃ db', handle real now chat db (set_agent_command [("role", r); ("tone", t)]) =
           (db', Ok (ok "Agent identity updated.")) ∧
    getAgentIdentity db' pid = Some (Identity pid r (default [] (expertise <$> old)) t (old ≫= instructions)
                                       (default now (i_created <$> old)) now).
Proof.
  intros Hr Ht Hok Hpid old. set (fields := [("role", r); ("tone", t)]).
  assert (Hf : Forall clean_field fields) by (by apply Forall_cons; split; [|apply Forall_singleton]).
  unfold fields at 1. rewrite handle_set_agent by exact Hf. fold fields.
  unfold identitySetAgent. rewrite parse_render; [|done|by apply (bool_decide_unpack _)].
  rewrite bool_decide_eq_false_2 by done. rewrite Hpid. fold old.
  change (or_existing fields "role" _) with (Some r). change (or_existing fields "tone" _) with (Some t).
  change (or_existing fields "instructions" (old ≫= instructions)) with (old ≫= instructions).
  change (map_get fields "expertise") with (@None string).
  pose proof (clean_truthy _ Hr) as Hrt. pose proof (clean_truthy _ Ht) as Htt. cbn [snd] in Hrt, Htt.
  cbn [opt_truthy negb default]. rewrite Hrt, Htt. cbn [negb orb]. unfold setAgentIdentity. fold old.
  destruct old as [a|] eqn:Ea; cbn [option_fmap option_map mbind option_bind].
  - eexists. split; [reflexivity|]. unfold getAgentIdentity, update_identity. cbn [tables with_identity identity].
    rewrite find_update by done. unfold old, getAgentIdentity in Ea. rewrite Ea. cbn. by rewrite decide_True.
  - unfold profile_exists. rewrite (bool_decide_eq_true_2 _ (resolve_exists _ _ _ Hpid)).
    eexists. split; [reflexivity|]. unfold old, getAgentIdentity in *. cbn [tables with_identity identity].
    rewrite find_app_none by done. cbn. by rewrite bool_decide_eq_true_2.
Qed.

(** ** Witnesses *)

#[local] Instance commands_real : RealLaws (λ x, x).
Proof. by intros x. Qed.

Definition example_role : string := "Analyst, mostly a=b".
Definition example_fields : list (string * string) := [("role", example_role); ("tone", "dry")].

Lemma example_fields_clean : Forall clean_field example_fields.
Proof.
  repeat (apply Forall_cons; split; [|]); [..|apply Forall_nil_2].
  - split; try (vm_compute; reflexivity); [split; [done|]|done]. by apply (bool_decide_unpack _).
  - split; try (vm_compute; reflexivity); [split; [done|]|done]. by apply (bool_decide_unpack _).
Qed.

Lemma fields_readback_witness :
  tokenize (render example_fields) = ["role=Analyst,"; "mostly"; "a=b,"; "tone=dry"] ∧
  parseKeyValuePairs (tokenize (render example_fields)) = example_fields.
Proof.
  split; [vm_compute; reflexivity|].
  apply (fields_readback example_fields); [exact example_fields_clean|apply (bool_decide_unpack _); exact I].
Defined.

Lemma set_agent_identity_witness :
  ∃ db', handle (λ x, x) 9 "c1" example_identity (set_agent_command example_fields) =
           (db', Ok (ok "Agent identity updated.")) ∧
    getAgentIdentity db' 0 = Some (Identity 0 example_role [] "dry" None 0 9).
Proof.
  pose proof example_fields_clean as Hf. apply Forall_cons in Hf as [Hr Hf]. apply Forall_cons in Hf as [Ht _].
  apply (set_agent_identity (λ x, x) 9 "c1" example_identity 0 example_role "dry" Hr Ht); [exact example_identity_ok|].
  reflexivity.
Defined.

Lemma command_stays_in_its_profile_witness :
  touches (Some 0) "c1" example_identity (handle (λ x, x) 9 "c1" example_identity "/profile switch work").1 ∧
  getChatProfile (tables (handle (λ x, x) 9 "c1" example_identity "/profile switch work").1) "c1" =
    Some (Profile 5 "work" None false 0 0).
Proof.
  split; [|vm_compute; reflexivity].
  apply (command_stays_in_its_profile (λ x, x) 9 "c1" example_identity "/profile switch work").
Defined.

Lemma command_answered_witness :
  ∃ db' reply, handle (λ x, x) 9 "c1" example_identity "/PERSONALITY set user humor=x, preferences=lists" =
    (db', Ok (ok reply)).
Proof.
  apply (command_answered (λ x, x) 9 "c1" example_identity "/PERSONALITY set user humor=x, preferences=lists").
  split; intros r; [by intros ?%elem_of_nil|by intros ->%list_elem_of_singleton].
Defined.
