(* ===== verification/Json.v ===== *)
(** * JSON values with fractional numbers, and their texts

    What [JSON.parse] gives and [JSON.stringify] prints, compactly and with an indent, the
    conversions of JavaScript that the server applies to such values ([ToBoolean],
    [ToString], [Math.floor], [Math.round]), and the fact that a compact text is one line.
    How a number prints is an argument. *)

From Stdlib Require Import Ascii.
From S2P Require Import Prelude JsMap JsString JsNumber Identity.
Local Open Scope list_scope.
Local Open Scope string_scope.

Inductive json :=
| Null
| Bool (b : bool)
| Num (f : spec_float)
| Str (s : string)
| Arr (l : list json)
| Obj (fields : list (string * json)).

Section Induction.
Context (P : json → Prop).
Context (HNull : P Null) (HBool : ∀ b, P (Bool b)) (HNum : ∀ f, P (Num f)) (HStr : ∀ s, P (Str s)).
Context (HArr : ∀ l, Forall P l → P (Arr l)) (HObj : ∀ fs, Forall (λ f, P f.2) fs → P (Obj fs)).

Fixpoint json_nested_ind (v : json) : P v :=
  match v with
  | Null => HNull
  | Bool b => HBool b
  | Num f => HNum f
  | Str s => HStr s
  | Arr l => HArr l ((fix go l : Forall P l := match l with
                                  | [] => Forall_nil_2 _
                                  | v :: l => Forall_cons_2 _ _ _ (json_nested_ind v) (go l)
                                  end) l)
  | Obj fs => HObj fs ((fix go fs : Forall (λ f, P f.2) fs := match fs with
                                     | [] => Forall_nil_2 _
                                     | f :: fs => Forall_cons_2 _ _ _ (json_nested_ind f.2) (go fs)
                                     end) fs)
  end.
End Induction.

(** [v[key]] for a name that no prototype has. *)
Definition prop (v : json) (key : string) : option json :=
  match v with Obj fs => map_get fs key | _ => None end.

Definition is_zero (f : spec_float) : bool := match f with S754_zero _ => true | _ => false end.
Definition not_a_number (f : spec_float) : bool := match f with S754_nan => true | _ => false end.

(** [Boolean(v)], undefined being [None]. *)
Definition truthy (v : option json) : bool :=
  match v with
  | None | Some Null => false
  | Some (Bool b) => b
  | Some (Num f) => negb (is_zero f || not_a_number f)
  | Some (Str s) => str_truthy s
  | Some (Arr _) | Some (Obj _) => true
  end.

(** [v ?? d] *)
Definition nullish (v : option json) (d : json) : json :=
  match v with None | Some Null => d | Some v => v end.

(** A field that [JSON.stringify] leaves out when it is undefined. *)
Definition opt_member {A} (key : string) (f : A → json) (v : option A) : list (string * json) :=
  match v with Some a => [(key, f a)] | None => [] end.

Definition int (n : Z) : json := Num (double n).
Definition count (n : nat) : json := int (Z.of_nat n).
Definition texts (l : list string) : json := Arr (map Str l).

Fixpoint of_jvalue (v : jvalue) : json :=
  match v with
  | JNull => Null
  | JBool b => Bool b
  | JNum n => int n
  | JStr s => Str s
  | JArr l => Arr (map of_jvalue l)
  | JObj fs => Obj (map (λ f, (f.1, of_jvalue f.2)) fs)
  end.

(** ** Numbers *)

(** [n / 2 ^ k] rounded down, of a finite double. *)
Definition floor_with (num : Z → Z → Z) (s : bool) (m : positive) (e : Z) : Z :=
  let n := if s then Z.neg m else Z.pos m in
  if (0 <=? e)%Z then (n * 2 ^ e)%Z else num n (2 ^ (- e))%Z.

(** [Math.max(1, Math.min(max, Math.floor(x)))], [None] for NaN. *)
Definition clamp (max : nat) (x : spec_float) : option nat :=
  match x with
  | S754_nan => None
  | S754_infinity s => Some (if s then 1 else max `max` 1)%nat
  | S754_zero _ => Some 1%nat
  | S754_finite s m e => Some (Z.to_nat (Z.max 1 (Z.min (Z.of_nat max) (floor_with Z.div s m e))))
  end.

(** [Math.round(x)]: the nearest integer, the larger of two. *)
Definition js_round (x : spec_float) : spec_float :=
  match x with
  | S754_finite s m e =>
      match floor_with (λ n d, (2 * n + d) / (2 * d)) s m e with
      | Z0 => S754_zero s
      | z => double z
      end
  | _ => x
  end%Z.

Definition round3 (n : spec_float) : spec_float := SFdiv 53 1024 (js_round (times n (double 1000))) (double 1000).

(** ** Texts *)

Definition hex_lower (n : N) : string := String (ascii_of_N (if (n <? 10)%N then n + 48 else n + 87)) "".

Definition escape_char (c : ascii) : string :=
  let n := N_of_ascii c in
  match n with
  | 8%N => "\b" | 9%N => "\t" | 10%N => "\n" | 12%N => "\f" | 13%N => "\r" | 92%N => "\\"
  | 34%N => String "\" dq
  | _ => if (n <? 32)%N then "\u00" ++ hex_lower (n / 16) ++ hex_lower (n mod 16) else String c ""
  end.

Fixpoint escape_text (s : string) : string :=
  match s with EmptyString => "" | String c s => escape_char c ++ escape_text s end.

Definition quote (s : string) : string := dq ++ escape_text s ++ dq.

Section Print.
Context (show : spec_float → string).

Definition number_text (f : spec_float) : string :=
  match f with S754_nan | S754_infinity _ => "null" | _ => show f end.

Definition bool_text (b : bool) : string := if b then "true" else "false".

(** [JSON.stringify(v)] *)
Fixpoint stringify (v : json) : string :=
  match v with
  | Null => "null"
  | Bool b => bool_text b
  | Num f => number_text f
  | Str s => quote s
  | Arr l => "[" ++ String.concat "," (map stringify l) ++ "]"
  | Obj fs => "{" ++ String.concat "," (map (λ f, quote f.1 ++ ":" ++ stringify f.2) fs) ++ "}"
  end.

Fixpoint pad (n : nat) : string := match n with O => "" | S n => "  " ++ pad n end.

Definition block (left right : string) (depth : nat) (items : list string) : string :=
  match items with
  | [] => left ++ right
  | _ => left ++ newline ++ pad (S depth) ++ String.concat ("," ++ newline ++ pad (S depth)) items ++
         newline ++ pad depth ++ right
  end.

(** [JSON.stringify(v, null, 2)] *)
Fixpoint stringify_indented (depth : nat) (v : json) : string :=
  match v with
  | Arr l => block "[" "]" depth (map (stringify_indented (S depth)) l)
  | Obj fs => block "{" "}" depth (map (λ f, quote f.1 ++ ": " ++ stringify_indented (S depth) f.2) fs)
  | v => stringify v
  end.

(** [String(v)] of a parsed value, undefined being [None]; it throws on an object with a
    member toString, which hides the inherited method and is no function. *)
Fixpoint to_string (v : json) : option string :=
  match v with
  | Null => Some "null"
  | Bool b => Some (bool_text b)
  | Num S754_nan => Some "NaN"
  | Num (S754_infinity s) => Some (if s then "-Infinity" else "Infinity")
  | Num f => Some (show f)
  | Str s => Some s
  | Arr l =>
      items ← mapM (λ v, match v with Null => Some "" | v => to_string v end) l;
      Some (String.concat "," items)
  | Obj fs => if map_has fs "toString" then None else Some "[object Object]"
  end.

Definition template (v : option json) : option string :=
  match v with None => Some "undefined" | Some v => to_string v end.
End Print.

(** ** One line *)

Class NumberText (show : spec_float → string) : Prop :=
  number_one_line f : lacks "010"%char (show f).

Lemma lacks_concat c sep l : lacks c sep → Forall (lacks c) l → lacks c (String.concat sep l).
Proof.
  intros Hs. induction l as [|x [|y l] IH]; [intros _; apply lacks_nil|by intros [? _]%Forall_cons|].
  intros [Hx Hl]%Forall_cons. change (lacks c (x ++ sep ++ String.concat sep (y :: l))).
  rewrite !lacks_app. split; [done|]. split; [done|by apply IH].
Qed.

Lemma escape_char_one_line c : lacks "010"%char (escape_char c).
Proof. destruct c as [[] [] [] [] [] [] [] []]; apply (bool_decide_unpack _); vm_compute; exact I. Qed.

Lemma escape_text_one_line s : lacks "010"%char (escape_text s).
Proof.
  induction s as [|c s IH]; [apply lacks_nil|]. cbn [escape_text]. rewrite lacks_app.
  split; [apply escape_char_one_line|done].
Qed.

Lemma dq_one_line : lacks "010"%char dq.
Proof. by apply (bool_decide_unpack _). Qed.

Lemma quote_one_line s : lacks "010"%char (quote s).
Proof. unfold quote. rewrite !lacks_app. pose proof dq_one_line. pose proof (escape_text_one_line s). tauto. Qed.

(** A compact text has no line break. *)
Lemma stringify_one_line show `{!NumberText show} v : lacks "010"%char (stringify show v).
Proof.
  assert (Hw : ∀ s, bool_decide (lacks "010"%char s) = true → lacks "010"%char s) by (by intros s ?%bool_decide_eq_true).
  induction v as [|b|f|s|l IH|fs IH] using json_nested_ind; cbn [stringify].
  - by apply Hw.
  - by destruct b; apply Hw.
  - unfold number_text. destruct f; (by apply Hw) || apply number_one_line.
  - apply quote_one_line.
  - rewrite !lacks_app. split; [by apply Hw|]. split; [|by apply Hw]. apply lacks_concat; [by apply Hw|].
    by rewrite Forall_map.
  - rewrite !lacks_app. split; [by apply Hw|]. split; [|by apply Hw]. apply lacks_concat; [by apply Hw|].
    rewrite Forall_map. eapply Forall_impl; [exact IH|]. intros f Hf. cbn. rewrite !lacks_app.
    split; [apply quote_one_line|]. split; [by apply Hw|done].
Qed.

(** ** Clamping *)

Lemma clamp_bounds max x n : clamp max x = Some n → (1 ≤ n ≤ max `max` 1)%nat.
Proof. destruct x as [s|[]| |s m e]; intros [= <-]; lia. Qed.

Lemma clamp_number max x : not_a_number x = false → ∃ n, clamp max x = Some n.
Proof. destruct x as [s|s| |s m e]; try done; eauto. Qed.
