(* ===== verification/JsonText.v ===== *)
(** * JSON texts

    [JSON.stringify(v, null, 2)] and [JSON.parse] on the values of [JsMap.v], whose numbers
    are integers, and the fact that what is printed is read back.  Of the texts that are
    JSON the parser refuses those with a fraction or an exponent, or with a character
    outside the units that a string has here. *)

From Stdlib Require Import Ascii.
From stdpp Require Import pretty.
From S2P Require Import Prelude JsMap JsString JsNumber Identity JsParse Json.
Local Open Scope list_scope.
Local Open Scope string_scope.
Local Open Scope nat_scope.

(** ** Printing *)

Fixpoint json_text (depth : nat) (v : jvalue) : string :=
  match v with
  | JNull => "null"
  | JBool b => bool_text b
  | JNum n => pretty n
  | JStr s => quote s
  | JArr l => block "[" "]" depth (map (json_text (S depth)) l)
  | JObj fs => block "{" "}" depth (map (λ f, quote f.1 ++ ": " ++ json_text (S depth) f.2) fs)
  end.

(** [JSON.stringify(v)], without indentation. *)
Fixpoint json_compact (v : jvalue) : string :=
  match v with
  | JNull => "null"
  | JBool b => bool_text b
  | JNum n => pretty n
  | JStr s => quote s
  | JArr l => "[" ++ String.concat "," (map json_compact l) ++ "]"
  | JObj fs => "{" ++ String.concat "," (map (λ f, quote f.1 ++ ":" ++ json_compact f.2) fs) ++ "}"
  end.

(** A member that is left out when it is undefined. *)
Definition member {A} (key : string) (f : A → jvalue) (v : option A) : list (string * jvalue) :=
  match v with Some a => [(key, f a)] | None => [] end.

(** ** Parsing *)

Definition json_space (c : ascii) : bool := bool_decide (N_of_ascii c ∈ [9; 10; 13; 32]%N).

Fixpoint skip (s : string) : string :=
  match s with String c t => if json_space c then skip t else s | EmptyString => "" end.

Definition hex_value (c : ascii) : option N :=
  let n := N_of_ascii c in
  if ((48 <=? n) && (n <=? 57))%N then Some (n - 48)%N
  else if ((65 <=? n) && (n <=? 70))%N then Some (n - 55)%N
  else if ((97 <=? n) && (n <=? 102))%N then Some (n - 87)%N
  else None.

Definition unit_of (a b c d : ascii) : option ascii :=
  w ← hex_value a; x ← hex_value b; y ← hex_value c; z ← hex_value d;
  let n := (((w * 16 + x) * 16 + y) * 16 + z)%N in
  if (n <? 256)%N then Some (ascii_of_N n) else None.

Definition simple_escape (c : ascii) : option ascii :=
  match N_of_ascii c with
  | 34%N | 92%N | 47%N => Some c
  | 98%N => Some "008"%char | 102%N => Some "012"%char | 110%N => Some "010"%char
  | 114%N => Some "013"%char | 116%N => Some "009"%char
  | _ => None
  end.

(** A text after its opening quotation mark, and what follows its closing one. *)
Fixpoint read_text (s : string) : option (string * string) :=
  match s with
  | EmptyString => None
  | String c t =>
      match N_of_ascii c with
      | 34%N => Some ("", t)
      | 92%N =>
          match t with
          | EmptyString => None
          | String e t =>
              match N_of_ascii e with
              | 117%N =>
                  match t with
                  | String a (String b (String g (String d t))) =>
                      u ← unit_of a b g d; r ← read_text t; Some (String u r.1, r.2)
                  | _ => None
                  end
              | _ => u ← simple_escape e; r ← read_text t; Some (String u r.1, r.2)
              end
          end
      | n => if (n <? 32)%N then None else r ← read_text t; Some (String c r.1, r.2)
      end
  end.

(** The digits of an integer, which has no leading zero, and what follows. *)
Fixpoint span (s : string) : string * string :=
  match s with
  | String c t => if bool_decide (is_Some (digit c)) then (String c (span t).1, (span t).2) else ("", s)
  | EmptyString => ("", "")
  end.

Definition read_natural (s : string) : option (Z * string) :=
  let '(digits, rest) := span s in
  n ← read_digits 0 false digits;
  if bool_decide (starts_with "0" digits = true ∧ digits ≠ "0") then None
  else if starts_with "." rest || starts_with "e" rest || starts_with "E" rest then None
  else Some (Z.of_N n, rest).

Definition read_number (s : string) : option (jvalue * string) :=
  match s with
  | String c t => if bool_decide (c = "-"%char) then r ← read_natural t; Some (JNum (- r.1), r.2)
                  else r ← read_natural s; Some (JNum r.1, r.2)
  | EmptyString => None
  end.

Definition after (p : string) (v : jvalue) (s : string) : option (jvalue * string) :=
  if starts_with p s then Some (v, str_drop (String.length p) s) else None.

(** A value; the items of an array, and the members of an object, up to its end.  Fuel is
    used up by one at each call. *)
Fixpoint read_value (fuel : nat) (s : string) : option (jvalue * string) :=
  match fuel with
  | O => None
  | S fuel =>
      match s with
      | EmptyString => None
      | String c t =>
          match N_of_ascii c with
          | 123%N =>
              let t := skip t in
              if starts_with "}" t then Some (JObj [], str_drop 1 t)
              else r ← read_members fuel [] t; Some (JObj r.1, r.2)
          | 91%N =>
              let t := skip t in
              if starts_with "]" t then Some (JArr [], str_drop 1 t)
              else r ← read_items fuel t; Some (JArr r.1, r.2)
          | 34%N => r ← read_text t; Some (JStr r.1, r.2)
          | 116%N => after "true" (JBool true) s
          | 102%N => after "false" (JBool false) s
          | 110%N => after "null" JNull s
          | _ => read_number s
          end
      end
  end
with read_items (fuel : nat) (s : string) : option (list jvalue * string) :=
  match fuel with
  | O => None
  | S fuel =>
      r ← read_value fuel s;
      match skip r.2 with
      | String c t =>
          if bool_decide (c = ","%char) then q ← read_items fuel (skip t); Some (r.1 :: q.1, q.2)
          else if bool_decide (c = "]"%char) then Some ([r.1], t) else None
      | EmptyString => None
      end
  end
with read_members (fuel : nat) (fs : list (string * jvalue)) (s : string) : option (list (string * jvalue) * string) :=
  match fuel with
  | O => None
  | S fuel =>
      if starts_with dq s then
        k ← read_text (str_drop 1 s);
        let t := skip k.2 in
        if starts_with ":" t then
          r ← read_value fuel (skip (str_drop 1 t));
          let fs := map_set fs k.1 r.1 in
          match skip r.2 with
          | String c t =>
              if bool_decide (c = ","%char) then read_members fuel fs (skip t)
              else if bool_decide (c = "}"%char) then Some (fs, t) else None
          | EmptyString => None
          end
        else None
      else None
  end.

Definition json_parse (s : string) : option jvalue :=
  r ← read_value (2 * String.length s + 1) (skip s);
  if bool_decide (skip r.2 = "") then Some r.1 else None.

(** ** Induction *)

Section Induction.
Context (P : jvalue → Prop).
Context (HNull : P JNull) (HBool : ∀ b, P (JBool b)) (HNum : ∀ n, P (JNum n)) (HStr : ∀ s, P (JStr s)).
Context (HArr : ∀ l, Forall P l → P (JArr l)) (HObj : ∀ fs, Forall (λ f, P f.2) fs → P (JObj fs)).

Fixpoint jvalue_nested_ind (v : jvalue) : P v :=
  match v with
  | JNull => HNull
  | JBool b => HBool b
  | JNum n => HNum n
  | JStr s => HStr s
  | JArr l => HArr l ((fix go l : Forall P l := match l with
                                  | [] => Forall_nil_2 _
                                  | v :: l => Forall_cons_2 _ _ _ (jvalue_nested_ind v) (go l)
                                  end) l)
  | JObj fs => HObj fs ((fix go fs : Forall (λ f, P f.2) fs := match fs with
                                     | [] => Forall_nil_2 _
                                     | f :: fs => Forall_cons_2 _ _ _ (jvalue_nested_ind f.2) (go fs)
                                     end) fs)
  end.
End Induction.

(** No object has a key twice. *)
Fixpoint unique_keys (v : jvalue) : Prop :=
  match v with
  | JArr l => foldr (λ x q, unique_keys x ∧ q) True l
  | JObj fs => NoDup fs.*1 ∧ foldr (λ (f : string * jvalue) q, unique_keys f.2 ∧ q) True fs
  | _ => True
  end.

Lemma unique_keys_arr l : unique_keys (JArr l) ↔ Forall unique_keys l.
Proof. simpl. induction l as [|x l IH]; simpl; [by split|]. by rewrite Forall_cons, IH. Qed.

Lemma unique_keys_obj fs : unique_keys (JObj fs) ↔ NoDup fs.*1 ∧ Forall (λ f, unique_keys f.2) fs.
Proof.
  simpl. assert (H : foldr (λ (f : string * jvalue) q, unique_keys f.2 ∧ q) True fs ↔ Forall (λ f, unique_keys f.2) fs).
  { induction fs as [|x l IH]; simpl; [by split|]. by rewrite Forall_cons, IH. }
  by rewrite H.
Qed.

(** ** White space and texts *)

Lemma skip_pad n s : skip (pad n ++ s) = skip s.
Proof. induction n as [|n IH]; [done|exact IH]. Qed.

Lemma skip_break n s : skip (newline ++ pad n ++ s) = skip s.
Proof. apply skip_pad. Qed.

Lemma read_escape c t : read_text (escape_char c ++ t) = (r ← read_text t; Some (String c r.1, r.2)).
Proof. destruct c as [[] [] [] [] [] [] [] []]; reflexivity. Qed.

Lemma read_text_escaped s t : read_text (escape_text s ++ dq ++ t) = Some (s, t).
Proof.
  induction s as [|c s IH]; [done|]. cbn [escape_text]. rewrite string_app_assoc, read_escape, IH. done.
Qed.

(** ** Numbers *)

Definition stops (s : string) : Prop :=
  match s with
  | String c _ => digit c = None ∧ c ≠ "."%char ∧ c ≠ "e"%char ∧ c ≠ "E"%char
  | EmptyString => True
  end.

Lemma span_digits_app s t : forallb (λ c, bool_decide (is_Some (digit c))) (String.list_ascii_of_string s) = true →
  stops t → span (s ++ t) = (s, t).
Proof.
  intros Hs Ht. induction s as [|c s IH].
  - destruct t as [|c t]; [done|]. destruct Ht as [Hc _]. change (span (String c t) = ("", String c t)). cbn [span].
    rewrite Hc, bool_decide_eq_false_2; [done|]. by intros [? ?].
  - cbn [String.list_ascii_of_string forallb] in Hs. apply andb_true_iff in Hs as [Hc Hs].
    rewrite string_app_cons. cbn [span]. rewrite Hc, IH by done. done.
Qed.

Lemma starts_with_stops c s : stops s → c = "."%char ∨ c = "e"%char ∨ c = "E"%char →
  starts_with (String c "") s = false.
Proof.
  intros Hs Hc. apply not_true_is_false. intros [r ->]%prefix_app. destruct Hs as (_ & ? & ? & ?).
  by destruct Hc as [->|[->| ->]].
Qed.

Lemma read_natural_pretty (n : N) t : stops t → read_natural (pretty n ++ t) = Some (Z.of_N n, t).
Proof.
  intros Ht. destruct (pretty_N_read n) as [Hd Hr]. unfold all_digits in Hd. apply andb_true_iff in Hd as [Hd _].
  unfold read_natural. rewrite span_digits_app by done. rewrite Hr. simpl.
  rewrite bool_decide_eq_false_2 by (by intros [Hz ?]; apply pretty_N_zero in Hz).
  by rewrite !starts_with_stops by auto.
Qed.

Lemma read_number_pretty (z : Z) t : stops t → read_number (pretty z ++ t) = Some (JNum z, t).
Proof.
  intros Ht. destruct (decide (0 ≤ z)%Z) as [Hz|Hz].
  - rewrite pretty_Z_N by done. unfold read_number. rewrite read_natural_pretty by done.
    destruct (pretty_N_head (Z.to_N z)) as (c & r & E & Hc). rewrite E, string_app_cons.
    apply digit_plain in Hc as (_ & Hm & _). rewrite bool_decide_eq_false_2 by done. simpl. do 3 f_equal. lia.
  - destruct z as [|p|p]; [lia|lia|]. change (pretty (Z.neg p)) with (String "-" (pretty (N.pos p))).
    rewrite string_app_cons. unfold read_number. rewrite bool_decide_eq_true_2 by done.
    by rewrite read_natural_pretty.
Qed.

(** ** Reading back *)

(** The fuel that a value takes. *)
Definition chain (l : list nat) : nat := foldr (λ x n, S (x `max` n)) 0 l.

Fixpoint need (v : jvalue) : nat :=
  match v with
  | JArr l => S (chain (map need l))
  | JObj fs => S (chain (map (λ f, need f.2) fs))
  | _ => 1
  end.

Lemma chain_bound {A} (f : A → nat) (g : A → string) l : Forall (λ x, f x < 2 * String.length (g x)) l →
  chain (map f l) ≤ 2 * foldr (λ s n, String.length s + n) 0 (map g l).
Proof. induction 1 as [|x l Hx _ IH]; simpl; lia. Qed.

Lemma concat_length sep l : foldr (λ s n, String.length s + n) 0 l ≤ String.length (String.concat sep l).
Proof.
  induction l as [|x [|y l] IH]; [done|simpl; lia|].
  change (String.concat sep (x :: y :: l)) with (x ++ sep ++ String.concat sep (y :: l)).
  rewrite !length_app_string. cbn [foldr] in *. lia.
Qed.

Lemma block_length left right depth items : 
  String.length left + foldr (λ s n, String.length s + n) 0 items + String.length right ≤
  String.length (block left right depth items).
Proof.
  unfold block. destruct items as [|x l]; [rewrite length_app_string; simpl; lia|].
  pose proof (concat_length ("," ++ newline ++ pad (S depth)) (x :: l)). rewrite !length_app_string. lia.
Qed.

Lemma text_nonempty depth v : ∃ c r, json_text depth v = String c r ∧ json_space c = false ∧ c ≠ "]"%char.
Proof.
  assert (Hb : ∀ a b items, json_space a = false → a ≠ "]"%char →
    ∃ c r, block (String a "") b depth items = String c r ∧ json_space c = false ∧ c ≠ "]"%char).
  { intros a b items Ha. unfold block. destruct items; eexists _, _; by split. }
  destruct v as [|[]|n|s|l|fs]; try (eexists _, _; by split); try by apply Hb.
  cbn [json_text]. destruct (decide (0 ≤ n)%Z) as [Hz|Hz].
  - rewrite pretty_Z_N by done. destruct (pretty_N_head (Z.to_N n)) as (c & r & -> & [d Hc]). exists c, r. split; [done|].
    destruct c as [[] [] [] [] [] [] [] []]; done || (vm_compute in Hc; discriminate).
  - destruct n as [|p|p]; [lia|lia|]. by exists "-"%char, (pretty (N.pos p)).
Qed.

Lemma skip_text depth v t : skip (json_text depth v ++ t) = json_text depth v ++ t.
Proof. destruct (text_nonempty depth v) as (c & r & -> & Hc & _). rewrite string_app_cons. cbn [skip]. by rewrite Hc. Qed.

Lemma need_bound depth v : need v < 2 * String.length (json_text depth v).
Proof.
  revert depth. induction v as [|b|n|s|l IH|fs IH] using jvalue_nested_ind; intros depth.
  - simpl. lia.
  - destruct b; simpl; lia.
  - destruct (text_nonempty depth (JNum n)) as (c & r & -> & _). simpl. lia.
  - simpl. unfold quote. rewrite length_app_string. simpl. lia.
  - cbn [need json_text]. pose proof (block_length "[" "]" depth (map (json_text (S depth)) l)) as Hb.
    assert (Hc : chain (map need l) ≤ 2 * foldr (λ s n, String.length s + n) 0 (map (json_text (S depth)) l)).
    { apply chain_bound. eapply Forall_impl; [exact IH|]. intros v Hv. apply Hv. }
    change (String.length "[") with 1 in Hb. change (String.length "]") with 1 in Hb. lia.
  - cbn [need json_text]. set (items := map (λ f, quote f.1 ++ ": " ++ json_text (S depth) f.2) fs). pose proof (block_length "{" "}" depth items) as Hb.
    assert (Hc : chain (map (λ f, need f.2) fs) ≤ 2 * foldr (λ s n, String.length s + n) 0 items).
    { unfold items. apply chain_bound. eapply Forall_impl; [exact IH|].
      intros [k v] Hv. cbn [snd fst] in *. specialize (Hv (S depth)). rewrite !length_app_string. lia. }
    change (String.length "{") with 1 in Hb. change (String.length "}") with 1 in Hb. lia.
Qed.

Definition reads_back (v : jvalue) : Prop := ∀ depth fuel t, need v ≤ fuel → stops t →
  read_value fuel (json_text depth v ++ t) = Some (v, t).

Definition separator (depth : nat) : string := "," ++ newline ++ pad depth.

Lemma concat_map {A} sep (f : A → string) x y l :
  String.concat sep (map f (x :: y :: l)) = f x ++ sep ++ String.concat sep (map f (y :: l)).
Proof. done. Qed.

Lemma skip_separator n w : skip (separator n ++ w) = String "," (newline ++ pad n ++ w).
Proof. unfold separator. by rewrite string_app_assoc. Qed.

Lemma stops_newline t : stops (newline ++ t).
Proof. done. Qed.

Lemma skip_items depth l w : l ≠ [] →
  skip (String.concat (separator depth) (map (json_text depth) l) ++ w) =
  String.concat (separator depth) (map (json_text depth) l) ++ w.
Proof.
  destruct l as [|x [|y l]]; [done|intros _; apply skip_text|]. intros _.
  rewrite concat_map, string_app_assoc. apply skip_text.
Qed.

Lemma read_items_back depth l fuel t : l ≠ [] → Forall reads_back l → chain (map need l) ≤ fuel →
  read_items fuel (String.concat (separator (S depth)) (map (json_text (S depth)) l) ++ newline ++ pad depth ++ "]" ++ t) = Some (l, t).
Proof.
  revert fuel. induction l as [|x l IH]; intros fuel Hne Hl Hf; [done|]. apply Forall_cons in Hl as [Hx Hl].
  simpl in Hf. destruct fuel as [|fuel]; [lia|]. cbn [read_items]. destruct l as [|y l].
  - cbn [map String.concat]. rewrite Hx by (lia || apply stops_newline). cbn [mbind option_bind fst snd].
    rewrite skip_break. change (skip ("]" ++ t)) with (String "]" t). done.
  - rewrite concat_map, !string_app_assoc. rewrite Hx by (lia || done). cbn [mbind option_bind fst snd].
    rewrite skip_separator. cbv iota. rewrite bool_decide_eq_true_2 by done. rewrite skip_break.
    rewrite (skip_items _ (y :: l)), IH by (done || (simpl in *; lia)). done.
Qed.

Definition member_text (depth : nat) (f : string * jvalue) : string := quote f.1 ++ ": " ++ json_text depth f.2.

Lemma skip_members depth l w : l ≠ [] →
  skip (String.concat (separator depth) (map (member_text depth) l) ++ w) =
  String.concat (separator depth) (map (member_text depth) l) ++ w.
Proof. by destruct l as [|x [|y l]]. Qed.

Lemma drop_dq w : str_drop 1 (dq ++ w) = w.
Proof. done. Qed.

Lemma skip_colon w : skip (": " ++ w) = ":" ++ " " ++ w.
Proof. done. Qed.

Lemma drop_colon w : skip (str_drop 1 (":" ++ " " ++ w)) = skip w.
Proof. done. Qed.

(** What follows a member: another one, or the end of the object. *)
Definition member_end (fuel : nat) (fs : list (string * jvalue)) (s : string) : option (list (string * jvalue) * string) :=
  match skip s with
  | String c t =>
      if bool_decide (c = ","%char) then read_members fuel fs (skip t)
      else if bool_decide (c = "}"%char) then Some (fs, t) else None
  | EmptyString => None
  end.

Lemma read_member depth k v acc fuel w : reads_back v → need v ≤ fuel → stops w → k ∉ acc.*1 →
  read_members (S fuel) acc (member_text depth (k, v) ++ w) = member_end fuel (acc ++ [(k, v)])%list w.
Proof.
  intros Hv Hf Hw Hk. unfold member_text, quote. cbn [fst snd read_members]. rewrite !string_app_assoc.
  rewrite (proj2 (prefix_app dq _)) by (by eexists). rewrite drop_dq, read_text_escaped. cbn [mbind option_bind fst snd].
  rewrite skip_colon. cbv zeta. rewrite (proj2 (prefix_app ":" _)) by (by eexists).
  rewrite drop_colon, skip_text, Hv by done. cbn [mbind option_bind fst snd]. by rewrite map_set_new.
Qed.

Lemma read_members_back depth (fs acc : list (string * jvalue)) fuel t :
  fs ≠ [] → Forall (λ f, reads_back f.2) fs → NoDup (acc ++ fs)%list.*1 → chain (map (λ f, need f.2) fs) ≤ fuel →
  read_members fuel acc (String.concat (separator (S depth)) (map (member_text (S depth)) fs) ++ newline ++ pad depth ++ "}" ++ t) =
  Some ((acc ++ fs)%list, t).
Proof.
  revert acc fuel. induction fs as [|[k v] fs IH]; intros acc fuel Hne Hl Hnd Hf; [done|].
  apply Forall_cons in Hl as [Hx Hl].   simpl in Hf, Hx. destruct fuel as [|fuel]; [lia|].
  assert (Hk : k ∉ acc.*1).
  { rewrite fmap_app in Hnd. apply NoDup_app in Hnd as (_ & Hnd & _). intros Hin. apply (Hnd k); [exact Hin|left]. }
  destruct fs as [|y fs].
  - cbn [map String.concat]. rewrite read_member by (lia || done). unfold member_end. by rewrite skip_break.
  - rewrite concat_map, !string_app_assoc. rewrite read_member by (lia || done).
    unfold member_end. rewrite skip_separator. cbv iota. rewrite bool_decide_eq_true_2 by done.
    rewrite skip_break, (skip_members _ (y :: fs)) by done.
    rewrite IH; [by rewrite <- app_assoc|done|done|by rewrite <- app_assoc|simpl in *; lia].
Qed.

Lemma after_word p v t : after p v (p ++ t) = Some (v, t).
Proof. unfold after. rewrite (proj2 (prefix_app p _)) by (by eexists). by rewrite str_drop_app. Qed.

(** Any other value starts with a digit or a minus sign. *)
Lemma read_value_number fuel (n : Z) t : read_value (S fuel) (pretty n ++ t) = read_number (pretty n ++ t).
Proof.
  assert (Hd : ∀ c r, is_Some (digit c) ∨ c = "-"%char → read_value (S fuel) (String c r) = read_number (String c r)).
  { intros c r Hc. assert (Hn : digit c = None ∧ c ≠ "-"%char ∨
      read_value (S fuel) (String c r) = read_number (String c r)) by
      (destruct c as [[] [] [] [] [] [] [] []]; first [right; reflexivity|left; split; [reflexivity|discriminate]]).
    destruct Hn as [[Hn Hm]|?]; [|done]. rewrite Hn in Hc. by destruct Hc as [[? ?]|?]. }
  destruct (decide (0 ≤ n)%Z) as [Hz|Hz].
  - rewrite pretty_Z_N by done. destruct (pretty_N_head (Z.to_N n)) as (c & r & -> & Hc). rewrite string_app_cons. auto.
  - destruct n as [|p|p]; [lia|lia|]. apply Hd. by right.
Qed.

Lemma read_array fuel w : read_value (S fuel) ("[" ++ w) =
  if starts_with "]" (skip w) then Some (JArr [], str_drop 1 (skip w))
  else r ← read_items fuel (skip w); Some (JArr r.1, r.2).
Proof. done. Qed.

Lemma read_object fuel w : read_value (S fuel) ("{" ++ w) =
  if starts_with "}" (skip w) then Some (JObj [], str_drop 1 (skip w))
  else r ← read_members fuel [] (skip w); Some (JObj r.1, r.2).
Proof. done. Qed.

Lemma reads_all {A} (f : A → jvalue) (l : list A) :
  Forall (λ x, unique_keys (f x) → reads_back (f x)) l → Forall (λ x, unique_keys (f x)) l → Forall (λ x, reads_back (f x)) l.
Proof. rewrite !Forall_forall. intros H Hu x Hx. by apply H, Hu. Qed.

Lemma block_array depth x l t : block "[" "]" depth (map (json_text (S depth)) (x :: l)) ++ t =
  "[" ++ newline ++ pad (S depth) ++ String.concat (separator (S depth)) (map (json_text (S depth)) (x :: l)) ++ newline ++ pad depth ++ "]" ++ t.
Proof. unfold block. cbn [map]. by rewrite !string_app_assoc. Qed.

Lemma block_object depth x l t : block "{" "}" depth (map (member_text (S depth)) (x :: l)) ++ t =
  "{" ++ newline ++ pad (S depth) ++ String.concat (separator (S depth)) (map (member_text (S depth)) (x :: l)) ++ newline ++ pad depth ++ "}" ++ t.
Proof. unfold block. cbn [map]. by rewrite !string_app_assoc. Qed.

Lemma items_start depth x l w :
  starts_with "]" (String.concat (separator depth) (map (json_text depth) (x :: l)) ++ w) = false.
Proof.
  assert (H : ∀ u, starts_with "]" (json_text depth x ++ u) = false).
  { intros u. apply not_true_is_false. intros [r E]%prefix_app.
    destruct (text_nonempty depth x) as (c & q & Eq & _ & Hc). rewrite Eq in E. by injection E. }
  destruct l as [|y l]; [apply H|]. rewrite concat_map, string_app_assoc. apply H.
Qed.

Lemma members_start depth x l w :
  starts_with "}" (String.concat (separator depth) (map (member_text depth) (x :: l)) ++ w) = false.
Proof.
  apply not_true_is_false. intros [r E]%prefix_app. destruct l as [|y l]; discriminate E.
Qed.

Lemma value_reads_back v : unique_keys v → reads_back v.
Proof.
  induction v as [|b|n|s|l IH|fs IH] using jvalue_nested_ind; intros Hu depth fuel t Hf Ht;
    (destruct fuel as [|fuel]; [simpl in Hf; lia|]).
  - exact (after_word "null" JNull t).
  - destruct b; [exact (after_word "true" (JBool true) t)|exact (after_word "false" (JBool false) t)].
  - cbn [json_text]. by rewrite read_value_number, read_number_pretty.
  - cbn [json_text]. unfold quote. rewrite !string_app_assoc.
    change (read_value (S fuel) (dq ++ escape_text s ++ dq ++ t)) with
      (r ← read_text (escape_text s ++ dq ++ t); Some (JStr r.1, r.2)). by rewrite read_text_escaped.
  - apply unique_keys_arr in Hu. cbn [need] in Hf. cbn [json_text]. destruct l as [|x l].
    { change (block _ _ _ _ ++ t) with ("[" ++ "]" ++ t). by rewrite read_array, (proj2 (prefix_app "]" _)) by (by eexists). }
    assert (Hl : Forall reads_back (x :: l)) by (by apply (reads_all (λ v, v))).
    rewrite block_array, read_array, skip_break, skip_items by done. rewrite items_start, read_items_back by (done || lia). done.
  - apply unique_keys_obj in Hu as [Hnd Hu]. cbn [need] in Hf. cbn [json_text]. destruct fs as [|x fs].
    { change (block _ _ _ _ ++ t) with ("{" ++ "}" ++ t). by rewrite read_object, (proj2 (prefix_app "}" _)) by (by eexists). }
    assert (Hl : Forall (λ f, reads_back f.2) (x :: fs)) by (by apply (reads_all snd)).
    rewrite block_object, read_object, skip_break, skip_members by done.
    rewrite members_start, read_members_back by (done || lia). done.
Qed.

(** A value without a key twice in an object is what its text is parsed as. *)
Theorem json_readback v : unique_keys v → json_parse (json_text 0 v) = Some v.
Proof.
  intros Hu. unfold json_parse. pose proof (need_bound 0 v) as Hn. pose proof (skip_text 0 v "") as Hs.
  pose proof (value_reads_back v Hu 0 (2 * String.length (json_text 0 v) + 1) "" ltac:(lia) I) as Hr.
  rewrite !string_app_nil_r in *. by rewrite Hs, Hr.
Qed.

Example example_value : jvalue :=
  JObj [("a b", JArr [JNum 1; JNum (-20); JBool true; JArr []]); (dq ++ newline, JObj [("x", JStr "\"); ("y", JNull)]); ("", JObj [])].

Lemma json_readback_witness : json_parse (json_text 0 example_value) = Some example_value.
Proof. apply json_readback. cbn. set_unfold. repeat split; try done; repeat constructor; set_solver. Defined.

Example parse_spaced : json_parse ("{ " ++ dq ++ "a" ++ dq ++ ":[1, -20 ,true]," ++ dq ++ "\u0041" ++ dq ++ ": {} }") =
  Some (JObj [("a", JArr [JNum 1; JNum (-20); JBool true]); ("A", JObj [])]).
Proof. reflexivity. Qed.

Example parse_refused : map json_parse ["01"; "[1,]"; "{"; "1 2"; "-"] = replicate 5 None.
Proof. reflexivity. Qed.
