(* ===== verification/CredentialSchema.v ===== *)
(** * The schema of the credential file

    [credentialRulesSchema] and [parseCredentialRules] of [src/proxy/credential-schema.ts]:
    which JSON values are credential files, and what they are read as.  The checks of the
    schema language that the schema uses ([object], [array], [record], [string], [number],
    [enum], [optional], [default]) are written out; members that it does not name are
    dropped.  Lengths are in code units. *)

From Stdlib Require Import Ascii.
From S2P Require Import Prelude JsMap JsString JsNumber JsParse Json JsonText ProxyRules.
Local Open Scope list_scope.
Local Open Scope string_scope.

(** ** Host patterns *)

Definition letter_or_digit (c : ascii) : bool :=
  let n := N_of_ascii c in
  ((48 <=? n) && (n <=? 57) || (65 <=? n) && (n <=? 90) || (97 <=? n) && (n <=? 122))%N.

(** A label of [[a-zA-Z0-9]([a-zA-Z0-9-]*[a-zA-Z0-9])?]. *)
Definition label (s : string) : bool :=
  let l := String.list_ascii_of_string s in
  forallb (λ c, letter_or_digit c || bool_decide (c = "-"%char)) l &&
  match head l, last l with Some a, Some b => letter_or_digit a && letter_or_digit b | _, _ => false end.

Definition host_pattern (s : string) : bool :=
  forallb label (str_split "." (if starts_with "*." s then str_drop 2 s else s)).

(** ** Checks *)

Definition length_within (min max : nat) (s : string) : bool :=
  (min <=? String.length s)%nat && (String.length s <=? max)%nat.

Definition nonempty (s : string) : bool := (1 <=? String.length s)%nat.

Definition text_that (P : string → bool) (v : jvalue) : option string :=
  match v with JStr s => if P s then Some s else None | _ => None end.

Definition number_from (min : Z) (v : jvalue) : option Z :=
  match v with JNum n => if (min <=? n)%Z then Some n else None | _ => None end.

Definition any_number (v : jvalue) : option Z := match v with JNum n => Some n | _ => None end.

Definition array_of {A} (read : jvalue → option A) (v : jvalue) : option (list A) :=
  match v with JArr l => mapM read l | _ => None end.

Definition nonempty_array {A} (read : jvalue → option A) (v : jvalue) : option (list A) :=
  l ← array_of read v; match l with [] => None | _ => Some l end.

Definition is_object (v : jvalue) : bool := match v with JObj _ => true | _ => false end.

Definition required {A} (read : jvalue → option A) (v : jvalue) (key : string) : option A :=
  field v key ≫= read.

Definition optional {A} (read : jvalue → option A) (v : jvalue) (key : string) : option (option A) :=
  match field v key with None => Some None | Some x => Some <$> read x end.

Definition defaulting {A} (read : jvalue → option A) (d : A) (v : jvalue) (key : string) : option A :=
  match field v key with None => Some d | Some x => read x end.

(** ** The schema *)

Definition rateLimitSchema (v : jvalue) : option rate_limit :=
  n ← required (number_from 1) v "requests";
  w ← required (number_from 1) v "windowSeconds";
  Some (RateLimit (Z.to_nat n) w).

Definition requestRulesSchema (v : jvalue) : option request_rules :=
  if is_object v then
    ms ← optional (array_of (text_that nonempty)) v "methods";
    ps ← optional (array_of (text_that nonempty)) v "pathPrefixes";
    b ← optional (number_from 0) v "maxBodySize";
    Some (Rules ms ps b)
  else None.

Definition method_name (m : credential_method) : string := match m with OAuth => "oauth" | ApiKey => "api_key" end.

Definition credential_method_of (v : jvalue) : option credential_method :=
  match v with
  | JStr s => if bool_decide (s = "oauth") then Some OAuth else if bool_decide (s = "api_key") then Some ApiKey else None
  | _ => None
  end.

Definition credentialRuleSchema (v : jvalue) : option CredentialRule :=
  n ← required (text_that (length_within 1 128)) v "name";
  p ← required (text_that (λ s, nonempty s && host_pattern s)) v "hostPattern";
  h ← required (text_that (length_within 1 256)) v "header";
  x ← required (text_that nonempty) v "value";
  xs ← optional (nonempty_array (text_that nonempty)) v "values";
  l ← optional rateLimitSchema v "rateLimit";
  r ← optional requestRulesSchema v "rules";
  e ← optional any_number v "expiresAt";
  m ← optional credential_method_of v "credentialMethod";
  Some (Credential n p h x xs l r e m).

Definition secret_of (f : string * jvalue) : option (string * string) :=
  match f.2 with JStr s => Some (f.1, s) | _ => None end.

Definition secrets_of (v : jvalue) : option (jsmap string) :=
  match v with JObj fs => mapM secret_of fs | _ => None end.

Definition parseCredentialRules (v : jvalue) : option CredentialRules :=
  if is_object v then
    cs ← defaulting (array_of credentialRuleSchema) [] v "credentials";
    ps ← defaulting (array_of (text_that nonempty)) [] v "pinningBypass";
    ss ← defaulting secrets_of [] v "secrets";
    Some (CredentialFile cs ps ss)
  else None.

(** ** A credential file as JSON *)

Definition strings (l : list string) : jvalue := JArr (map JStr l).

Definition rate_limit_json (l : rate_limit) : jvalue :=
  JObj [("requests", JNum (Z.of_nat (requests l))); ("windowSeconds", JNum (windowSeconds l))].

Definition request_rules_json (r : request_rules) : jvalue :=
  JObj (app (member "methods" strings (methods r))
       (app (member "pathPrefixes" strings (pathPrefixes r)) (member "maxBodySize" JNum (maxBodySize r)))).

Definition credential_json (c : CredentialRule) : jvalue :=
  JObj (app [("name", JStr (name c)); ("hostPattern", JStr (hostPattern c)); ("header", JStr (header c)); ("value", JStr (value c))]
       (app (member "values" strings (values c))
       (app (member "rateLimit" rate_limit_json (rateLimit c))
       (app (member "rules" request_rules_json (rules c))
       (app (member "expiresAt" JNum (expiresAt c))
            (member "credentialMethod" (JStr ∘ method_name) (credentialMethod c))))))).

Definition rules_json (r : CredentialRules) : jvalue :=
  JObj [("credentials", JArr (map credential_json (credentials r)));
        ("pinningBypass", strings (pinningBypass r));
        ("secrets", JObj (map (λ f, (f.1, JStr f.2)) (secrets r)))].

(** ** What the schema accepts of the files that the program holds *)

Definition request_rules_ok (r : request_rules) : bool :=
  default true (forallb nonempty <$> methods r) && default true (forallb nonempty <$> pathPrefixes r) &&
  default true (Z.leb 0 <$> maxBodySize r).

Definition rate_limit_ok (l : rate_limit) : bool := (1 <=? requests l)%nat && (1 <=? windowSeconds l)%Z.

Definition values_ok (l : list string) : bool := negb (bool_decide (l = [])) && forallb nonempty l.

Definition valid_credential (c : CredentialRule) : bool :=
  length_within 1 128 (name c) && (nonempty (hostPattern c) && host_pattern (hostPattern c)) &&
  length_within 1 256 (header c) && nonempty (value c) &&
  default true (values_ok <$> values c) &&
  default true (rate_limit_ok <$> rateLimit c) &&
  default true (request_rules_ok <$> rules c).

Definition valid_rules (r : CredentialRules) : bool :=
  forallb valid_credential (credentials r) && forallb nonempty (pinningBypass r).

(** ** Reading back *)

(** [read] accepts the JSON of what satisfies [P], and of nothing else. *)
Definition accepts {A} (read : jvalue → option A) (f : A → jvalue) (P : A → bool) : Prop :=
  ∀ x, read (f x) = if P x then Some x else None.

Lemma accepts_text P : accepts (text_that P) JStr P.
Proof. done. Qed.

Lemma accepts_number min : accepts (number_from min) JNum (Z.leb min).
Proof. by intros x. Qed.

Lemma mapM_accepts {A B} (read : B → option A) (f : A → B) (P : A → bool) l :
  (∀ x, read (f x) = if P x then Some x else None) → mapM read (map f l) = if forallb P l then Some l else None.
Proof.
  intros H. induction l as [|x l IH]; [done|]. cbn [map mapM forallb]. rewrite H. destruct (P x); [|done].
  cbn [mbind option_bind andb]. rewrite IH. by destruct (forallb P l).
Qed.

Lemma accepts_array {A} (read : jvalue → option A) f P :
  accepts read f P → accepts (array_of read) (λ l, JArr (map f l)) (forallb P).
Proof. intros H l. exact (mapM_accepts read f P l H). Qed.

Lemma accepts_nonempty_array {A} (read : jvalue → option A) f P : accepts read f P →
  accepts (nonempty_array read) (λ l, JArr (map f l)) (λ l, negb (bool_decide (l = [])) && forallb P l).
Proof.
  intros H l. unfold nonempty_array. rewrite (accepts_array _ _ _ H l). destruct l as [|x l]; [done|].
  rewrite bool_decide_eq_false_2 by done. cbn [negb andb]. by destruct (forallb P (x :: l)).
Qed.

Lemma required_accepts {A} (read : jvalue → option A) f P v key x : accepts read f P → field v key = Some (f x) →
  required read v key = if P x then Some x else None.
Proof. unfold required. intros H ->. apply H. Qed.

Lemma optional_accepts {A} (read : jvalue → option A) f P v key o : accepts read f P → field v key = f <$> o →
  optional read v key = if default true (P <$> o) then Some o else None.
Proof. unfold optional. intros H ->. destruct o as [x|]; [|done]. simpl. rewrite H. by destruct (P x). Qed.

Lemma defaulting_accepts {A} (read : jvalue → option A) f P d v key x : accepts read f P → field v key = Some (f x) →
  defaulting read d v key = if P x then Some x else None.
Proof. unfold defaulting. intros H ->. apply H. Qed.

Lemma accepts_rate_limit : accepts rateLimitSchema rate_limit_json rate_limit_ok.
Proof.
  unfold rate_limit_ok.
  intros [n w]. unfold rateLimitSchema. rewrite (required_accepts _ _ _ _ "requests" (Z.of_nat n) (accepts_number 1)) by done.
  replace (1 <=? Z.of_nat n)%Z with (1 <=? n)%nat by (apply eq_true_iff_eq; rewrite Nat.leb_le, Z.leb_le; lia).
  cbn [requests windowSeconds]. destruct (1 <=? n)%nat; [|done]. cbn [mbind option_bind andb].
  rewrite (required_accepts _ _ _ _ "windowSeconds" w (accepts_number 1)) by done. destruct (1 <=? w)%Z; [|done].
  cbn [mbind option_bind]. by rewrite Nat2Z.id.
Qed.

Lemma accepts_request_rules : accepts requestRulesSchema request_rules_json request_rules_ok.
Proof.
  intros r. unfold requestRulesSchema. cbn [is_object request_rules_json].
  pose proof (accepts_array _ _ _ (accepts_text nonempty)) as Ht.
  rewrite (optional_accepts _ _ _ _ "methods" (methods r) Ht) by (by destruct r as [[|] [|] [|]]).
  unfold request_rules_ok. destruct (default true (forallb nonempty <$> methods r)); [|done]. cbn [mbind option_bind].
  rewrite (optional_accepts _ _ _ _ "pathPrefixes" (pathPrefixes r) Ht) by (by destruct r as [[|] [|] [|]]).
  destruct (default true (forallb nonempty <$> pathPrefixes r)); [|done]. cbn [mbind option_bind].
  rewrite (optional_accepts _ _ _ _ "maxBodySize" (maxBodySize r) (accepts_number 0)) by (by destruct r as [[|] [|] [|]]).
  destruct (default true (Z.leb 0 <$> maxBodySize r)); [|done]. by destruct r.
Qed.

Lemma accepts_method : accepts credential_method_of (JStr ∘ method_name) (λ _, true).
Proof. by intros []. Qed.

Lemma credential_field c : let v := credential_json c in
  field v "values" = strings <$> values c ∧ field v "rateLimit" = rate_limit_json <$> rateLimit c ∧
  field v "rules" = request_rules_json <$> rules c ∧ field v "expiresAt" = JNum <$> expiresAt c ∧
  field v "credentialMethod" = (JStr ∘ method_name) <$> credentialMethod c.
Proof. destruct c as [n p h x [xs|] [l|] [r|] [e|] [m|]]; by repeat split. Qed.

Lemma accepts_credential : accepts credentialRuleSchema credential_json valid_credential.
Proof.
  intros c. destruct (credential_field c) as (Hv & Hl & Hr & He & Hm). unfold credentialRuleSchema, valid_credential.
  rewrite (required_accepts _ _ _ _ "name" (name c) (accepts_text _)) by done.
  destruct (length_within 1 128 (name c)); [|done]. cbn [mbind option_bind andb].
  rewrite (required_accepts _ _ _ _ "hostPattern" (hostPattern c) (accepts_text _)) by done. cbv beta.
  destruct (nonempty (hostPattern c) && host_pattern (hostPattern c)); [|done]. cbn [mbind option_bind andb].
  rewrite (required_accepts _ _ _ _ "header" (header c) (accepts_text _)) by done.
  destruct (length_within 1 256 (header c)); [|done]. cbn [mbind option_bind andb].
  rewrite (required_accepts _ _ _ _ "value" (value c) (accepts_text _)) by done.
  destruct (nonempty (value c)); [|done]. cbn [mbind option_bind andb].
  rewrite (optional_accepts _ _ _ _ _ _ (accepts_nonempty_array _ _ _ (accepts_text nonempty)) Hv).
  change (λ l, negb (bool_decide (l = [])) && forallb nonempty l) with values_ok.
  destruct (default true (values_ok <$> values c)); [|done]. cbn [mbind option_bind andb].
  rewrite (optional_accepts _ _ _ _ _ _ accepts_rate_limit Hl).
  destruct (default true (rate_limit_ok <$> rateLimit c)); [|done]. cbn [mbind option_bind andb].
  rewrite (optional_accepts _ _ _ _ _ _ accepts_request_rules Hr).
  destruct (default true (request_rules_ok <$> rules c)); [|done]. cbn [mbind option_bind andb].
  rewrite (optional_accepts any_number JNum (λ _, true) _ _ _ (λ _, eq_refl) He).
  replace (default true ((λ _ : Z, true) <$> expiresAt c)) with true by (by destruct (expiresAt c)).
  rewrite (optional_accepts _ _ _ _ _ _ accepts_method Hm).
  replace (default true ((λ _, true) <$> credentialMethod c)) with true by (by destruct (credentialMethod c)).
  by destruct c.
Qed.

Lemma accepts_secrets : accepts secrets_of (λ l, JObj (map (λ f, (f.1, JStr f.2)) l)) (λ _, true).
Proof.
  intros l. unfold secrets_of. rewrite (mapM_accepts _ _ (λ _, true)) by (by intros []).
  by rewrite (proj2 (forallb_forall _ _)).
Qed.

Lemma parse_saved r :
  parseCredentialRules (rules_json r) = if valid_rules r then Some r else None.
Proof.
  unfold parseCredentialRules. cbn [is_object rules_json].
  rewrite (defaulting_accepts _ _ _ _ _ "credentials" (credentials r) (accepts_array _ _ _ accepts_credential)) by done.
  unfold valid_rules. destruct (forallb valid_credential (credentials r)); [|done]. cbn [mbind option_bind andb].
  rewrite (defaulting_accepts _ _ _ _ _ "pinningBypass" (pinningBypass r) (accepts_array _ _ _ (accepts_text nonempty))) by done.
  destruct (forallb nonempty (pinningBypass r)); [|done]. cbn [mbind option_bind andb].
  rewrite (defaulting_accepts _ _ _ _ _ "secrets" (secrets r) accepts_secrets) by done. by destruct r.
Qed.

(** C27: the schema accepts exactly the valid files that the program writes, and reads them as
    what they were. *)
Theorem credential_file_readback r :
  parseCredentialRules (rules_json r) = if valid_rules r then Some r else None.
Proof. apply parse_saved. Qed.

(** ** What every accepted file satisfies *)

Definition only_valid {A} (read : jvalue → option A) (P : A → bool) : Prop := ∀ v x, read v = Some x → P x = true.

Lemma only_valid_array {A} (read : jvalue → option A) P : only_valid read P → only_valid (array_of read) (forallb P).
Proof.
  intros H v l. destruct v as [| | | |vs|]; try done. cbn [array_of]. intros Hm%mapM_Some_1.
  induction Hm as [|x y vs l Hx _ IH]; [done|]. cbn [forallb]. by rewrite (H _ _ Hx), IH.
Qed.

Lemma only_valid_text P : only_valid (text_that P) P.
Proof. intros v x. unfold text_that. destruct v; try done. destruct (P s) eqn:E; [|done]. by intros [= <-]. Qed.

Lemma only_valid_number min : only_valid (number_from min) (Z.leb min).
Proof. intros v x. unfold number_from. destruct v; try done. destruct (min <=? n)%Z eqn:E; [|done]. by intros [= <-]. Qed.

Lemma only_valid_required {A} (read : jvalue → option A) P v key x :
  only_valid read P → required read v key = Some x → P x = true.
Proof. unfold required. intros H (y & _ & Hy)%bind_Some. by apply (H y). Qed.

Lemma only_valid_optional {A} (read : jvalue → option A) P v key o :
  only_valid read P → optional read v key = Some o → default true (P <$> o) = true.
Proof.
  unfold optional. intros H. destruct (field v key) as [y|]; [|by intros [= <-]].
  destruct (read y) as [x|] eqn:E; [|done]. intros [= <-]. by apply (H y).
Qed.

Lemma only_valid_rate_limit : only_valid rateLimitSchema rate_limit_ok.
Proof.
  intros v l. unfold rateLimitSchema. intros (n & Hn & (w & Hw & [= <-])%bind_Some)%bind_Some.
  apply (only_valid_required _ _ _ _ _ (only_valid_number 1)) in Hn, Hw. unfold rate_limit_ok. cbn [requests windowSeconds].
  rewrite Hw. rewrite (proj2 (Nat.leb_le _ _)); [done|]. apply Z.leb_le in Hn. lia.
Qed.

Lemma only_valid_request_rules : only_valid requestRulesSchema request_rules_ok.
Proof.
  intros v r. unfold requestRulesSchema. destruct (is_object v); [|done].
  intros (ms & Hm & (ps & Hp & (b & Hb & [= <-])%bind_Some)%bind_Some)%bind_Some.
  pose proof (only_valid_array _ _ (only_valid_text nonempty)) as Ht.
  apply (only_valid_optional _ _ _ _ _ Ht) in Hm, Hp. apply (only_valid_optional _ _ _ _ _ (only_valid_number 0)) in Hb.
  unfold request_rules_ok. cbn [methods pathPrefixes maxBodySize]. by rewrite Hm, Hp, Hb.
Qed.

Lemma only_valid_values : only_valid (nonempty_array (text_that nonempty)) values_ok.
Proof.
  intros v l. unfold nonempty_array. intros (l' & Hl & E)%bind_Some. apply (only_valid_array _ _ (only_valid_text nonempty)) in Hl.
  destruct l' as [|x l']; [done|]. injection E as <-. unfold values_ok. by rewrite bool_decide_eq_false_2.
Qed.

Lemma only_valid_credential : only_valid credentialRuleSchema valid_credential.
Proof.
  intros v c. unfold credentialRuleSchema.
  intros (n & Hn & (p & Hp & (h & Hh & (x & Hx & H)%bind_Some)%bind_Some)%bind_Some)%bind_Some.
  apply bind_Some in H as (xs & Hxs & (l & Hl & (r & Hr & (e & _ & (m & _ & [= <-])%bind_Some)%bind_Some)%bind_Some)%bind_Some).
  apply (only_valid_required _ _ _ _ _ (only_valid_text _)) in Hn, Hp, Hh, Hx.
  apply (only_valid_optional _ _ _ _ _ only_valid_values) in Hxs.
  apply (only_valid_optional _ _ _ _ _ only_valid_rate_limit) in Hl.
  apply (only_valid_optional _ _ _ _ _ only_valid_request_rules) in Hr.
  unfold valid_credential. cbn [name hostPattern header value values rateLimit rules]. by rewrite Hn, Hp, Hh, Hx, Hxs, Hl, Hr.
Qed.

(** Whatever the file holds, what it is read as is valid. *)
Lemma parsed_rules_valid v r : parseCredentialRules v = Some r → valid_rules r = true.
Proof.
  unfold parseCredentialRules. destruct (is_object v); [|done].
  intros (cs & Hc & (ps & Hp & (ss & _ & [= <-])%bind_Some)%bind_Some)%bind_Some. unfold valid_rules. cbn [credentials pinningBypass].
  assert (Hd : ∀ {A} (read : jvalue → option (list A)) P key l, only_valid read (forallb P) →
    defaulting read [] v key = Some l → forallb P l = true).
  { intros A read P key l H. unfold defaulting. destruct (field v key) as [y|]; [by apply H|by intros [= <-]]. }
  rewrite (Hd _ _ _ _ _ (only_valid_array _ _ only_valid_credential) Hc).
  by rewrite (Hd _ _ _ _ _ (only_valid_array _ _ (only_valid_text nonempty)) Hp).
Qed.

Example host_patterns :
  map host_pattern ["api.anthropic.com"; "*.googleapis.com"; "a-b.c"; "*"; "a..b"; "-a.com"; "*.*.com"; ""] =
  [true; true; true; false; false; false; false; false].
Proof. reflexivity. Qed.

(** ** Keys *)

Lemma credential_keys c : unique_keys (credential_json c).
Proof.
  apply unique_keys_obj. destruct c as [n p h x xs l r e m]. split.
  - apply (bool_decide_unpack _). destruct xs, l, r, e, m; vm_compute; exact I.
  - assert (Hr : ∀ r, unique_keys (request_rules_json r)).
    { intros [ms ps b]. apply unique_keys_obj. split; [apply (bool_decide_unpack _); by destruct ms, ps, b|].
      destruct ms, ps, b; cbn [member app]; repeat (apply Forall_cons; split; [|]); try apply Forall_nil_2; try done;
        by apply unique_keys_arr, Forall_map, Forall_true. }
    assert (Hl : ∀ l, unique_keys (rate_limit_json l)).
    { intros [k w]. apply unique_keys_obj. split; [by apply (bool_decide_unpack _)|]. by repeat constructor. }
    destruct xs, l, r, e, m; cbn [member app]; repeat (apply Forall_cons; split; [|]); try apply Forall_nil_2;
      cbn [fst snd]; try done; by apply unique_keys_arr, Forall_map, Forall_true.
Qed.

Lemma rules_keys r : map_wf (secrets r) → unique_keys (rules_json r).
Proof.
  intros Hw. apply unique_keys_obj. split; [by apply (bool_decide_unpack _)|]. repeat apply Forall_cons_2; [| | |apply Forall_nil_2].
  - apply unique_keys_arr, Forall_map, Forall_true, credential_keys.
  - by apply unique_keys_arr, Forall_map, Forall_true.
  - apply unique_keys_obj. rewrite <- list_fmap_compose. split; [done|]. by apply Forall_map, Forall_true.
Qed.
