(* ===== verification/Vault.v ===== *)
(** * The credential vault

    [src/proxy/credential-store.ts]: the encrypted file of the credential rules and
    secrets, its key file, and every method of [CredentialStore] but the certificate of
    [ensureCA].  A method is a function of [Threads.v]: it is suspended at each access to
    a file, and [writeFile] is two accesses, one that empties the file and one that
    writes it.  The authenticated cipher is outside, with the laws of its documentation;
    so are the random bytes, and whether the process may write to a file whose mode is
    read-only.  Files are read and written without errors otherwise, and their texts are
    kept as they are before their encoding.  No secret is named like an array index. *)

From Stdlib Require Import Ascii.
From S2P Require Import Prelude JsMap JsString JsNumber JsParse Json JsonText ProxyRules CredentialSchema Jobs Threads.
Local Open Scope list_scope.
Local Open Scope string_scope.
Local Open Scope fh_scope.

Definition IV_LENGTH : nat := 16.
Definition AUTH_TAG_LENGTH : nat := 16.
Definition KEY_LENGTH : nat := 32.

(** ** The cipher *)

(** [seal key iv text] is the ciphertext and the tag, [None] when the cipher refuses the
    key; [unseal key iv tag text] is [None] when the authentication fails. *)
Class Aead (seal : string → string → string → option (string * string))
  (unseal : string → string → string → string → option string) : Prop := {
  seals key iv text : String.length key = KEY_LENGTH → is_Some (seal key iv text);
  tag_length key iv text c tag : seal key iv text = Some (c, tag) → String.length tag = AUTH_TAG_LENGTH;
  unseals key iv text c tag : seal key iv text = Some (c, tag) → unseal key iv tag c = Some text }.

(** [random i n]: what the [i]-th call of [randomBytes] gives, of [n] bytes. *)
Class RandomBytes (random : nat → nat → string) : Prop := random_length i n : String.length (random i n) = n.

Section Crypto.
Context (seal : string → string → string → option (string * string)).
Context (unseal : string → string → string → string → option string).

Definition encrypt (iv plaintext key : string) : option string :=
  c ← seal key iv plaintext; Some (iv ++ c.2 ++ c.1).

Definition decrypt (data key : string) : option string :=
  if (String.length data <? IV_LENGTH + AUTH_TAG_LENGTH)%nat then None
  else
    let iv := str_take IV_LENGTH data in
    let authTag := str_take AUTH_TAG_LENGTH (str_drop IV_LENGTH data) in
    let ciphertext := str_drop (IV_LENGTH + AUTH_TAG_LENGTH) data in
    unseal key iv authTag ciphertext.

Context `{!Aead seal unseal}.

Lemma decrypt_encrypt iv text key data : String.length iv = IV_LENGTH →
  encrypt iv text key = Some data → decrypt data key = Some text.
Proof.
  intros Hiv. unfold encrypt. intros ([c tag] & Hs & [= <-])%bind_Some. pose proof (tag_length _ _ _ _ _ Hs) as Ht.
  unfold decrypt. cbn [fst snd]. rewrite !length_app_string, Hiv, Ht.
  rewrite (proj2 (Nat.ltb_ge _ _)) by lia. rewrite <- Hiv, str_take_app, str_drop_app, <- Ht, str_take_app.
  replace (String.length iv + String.length tag)%nat with (String.length (iv ++ tag)) by apply length_app_string.
  rewrite <- string_app_assoc, str_drop_app. by eapply unseals.
Qed.
End Crypto.

(** ** Base64 *)

Definition BASE64URL : string := "ABCDEFGHIJKLMNOPQRSTUVWXYZabcdefghijklmnopqrstuvwxyz0123456789-_".

Definition sextet (n : N) : ascii := default "A"%char (String.get (N.to_nat n) BASE64URL).

(** [buffer.toString('base64url')] *)
Fixpoint base64url (s : string) : string :=
  match s with
  | String a (String b (String c s)) =>
      let n := (N_of_ascii a * 65536 + N_of_ascii b * 256 + N_of_ascii c)%N in
      String (sextet (n / 262144)) (String (sextet (n / 4096 mod 64))
        (String (sextet (n / 64 mod 64)) (String (sextet (n mod 64)) (base64url s))))
  | String a (String b "") =>
      let n := (N_of_ascii a * 256 + N_of_ascii b)%N in
      String (sextet (n / 1024)) (String (sextet (n / 16 mod 64)) (String (sextet (n mod 16 * 4)) ""))
  | String a "" => String (sextet (N_of_ascii a / 4)) (String (sextet (N_of_ascii a mod 4 * 16)) "")
  | EmptyString => ""
  end.

Example base64_ex : base64url "any carnal pleas" = "YW55IGNhcm5hbCBwbGVhcw".
Proof. reflexivity. Qed.

(** ** The files *)

(** [credentials.enc], [credentials.key], and the plaintext files of older versions. *)
Record vault := Vault { enc : option string; key_file : option string; legacy : jsmap string; draws : nat }.

Definition EMPTY : CredentialRules := CredentialFile [] [] [].

Definition set_credentials (l : list CredentialRule) (r : CredentialRules) : CredentialRules :=
  CredentialFile l (pinningBypass r) (secrets r).
Definition set_secrets (l : jsmap string) (r : CredentialRules) : CredentialRules :=
  CredentialFile (credentials r) (pinningBypass r) l.

Section Store.
Context (seal : string → string → string → option (string * string)).
Context (unseal : string → string → string → string → option string).
Context (random : nat → nat → string).
Context (keyOverride : option string) (root : bool).

Abbreviation method := (prog vault unit).

(** What is written over the start of a file. *)
Definition over (data old : string) : string := data ++ str_drop (String.length data) old.

Definition with_enc (data : string) (w : vault) : vault := Vault (Some data) (key_file w) (legacy w) (draws w).
Definition with_key (key : string) (w : vault) : vault := Vault (enc w) (Some key) (legacy w) (draws w).
Definition drawn (w : vault) : vault := Vault (enc w) (key_file w) (legacy w) (S (draws w)).

(** *** The key *)

Definition readKeyFile (w : vault) : option string :=
  key ← key_file w; if (String.length key =? KEY_LENGTH)%nat then Some key else None.

(** The file is created with mode 0o400. *)
Definition writeKeyFile (key : string) : method unit :=
  await _ := call (λ _ w, if bool_decide (key_file w = None) || root then Some (with_key "" w, tt) else None) in
  update (λ _ w, (with_key (over key (default "" (key_file w))) w, tt)).

Definition ensureKey : method string :=
  match keyOverride with
  | Some key => Ret key
  | None =>
      await found := update (λ _ w, match readKeyFile w with
                                    | Some key => (w, inl key)
                                    | None => (drawn w, inr (random (draws w) KEY_LENGTH))
                                    end) in
      match found with
      | inl key => Ret key
      | inr key => await _ := writeKeyFile key in Ret key
      end
  end.

(** *** The rules *)

Definition read_rules (key : string) (file : option string) : option CredentialRules :=
  match file with
  | None => Some EMPTY
  | Some data => txt ← decrypt unseal data key; v ← json_parse txt; parseCredentialRules v
  end.

Definition loadCredentials (key : string) : method CredentialRules :=
  call (λ _ w, r ← read_rules key (enc w); Some (w, r)).

Definition saveCredentials (rules : CredentialRules) (key : string) : method unit :=
  await data := call (λ _ w, d ← encrypt seal (random (draws w) IV_LENGTH) (json_text 0 (rules_json rules)) key;
                             Some (drawn w, d)) in
  await _ := update (λ _ w, (with_enc "" w, tt)) in
  update (λ _ w, (with_enc (over data (default "" (enc w))) w, tt)).

Definition load : method CredentialRules := await key := ensureKey in loadCredentials key.

Definition save (rules : CredentialRules) : method unit := await key := ensureKey in saveCredentials rules key.

(** *** Credentials *)

Definition without (n : string) (l : list CredentialRule) : list CredentialRule :=
  filter (λ c, name c ≠ n) l.

Definition addCredential (n host hdr val : string) (limit : option rate_limit) : method CredentialRules :=
  await rules := load in
  let rules := set_credentials (without n (credentials rules) ++ [Credential n host hdr val None limit None None None])%list rules in
  await _ := save rules in
  Ret rules.

Definition removeCredential (n : string) : method CredentialRules :=
  await rules := load in
  let before := length (credentials rules) in
  let rules := set_credentials (without n (credentials rules)) rules in
  if (length (credentials rules) =? before)%nat then Throw
  else await _ := save rules in Ret rules.

Definition listCredentials : method (list (string * string * string)) :=
  await rules := load in
  Ret (map (λ c, (name c, hostPattern c, header c)) (credentials rules)).

Definition readKey : method string := call (λ _ w, key ← readKeyFile w; Some (w, key)).

(** *** Secrets *)

Definition getSecret (n : string) : method (option string) :=
  await rules := load in Ret (map_get (secrets rules) n).

Definition setSecret (n val : string) : method unit :=
  await rules := load in
  save (set_secrets (map_set (secrets rules) n val) rules).

(** [readFile(join(secretsDir, file)).trim()], [None] when it throws. *)
Definition legacy_text (file : string) (w : vault) : option string := trim <$> map_get (legacy w) file.

Definition dbPassword : method string :=
  await rules := load in
  match truthy_text (map_get (secrets rules) "db-password") with
  | Some password => Ret password
  | None =>
      await password := update (λ _ w, match truthy_text (legacy_text "db-password" w) with
                                       | Some password => (w, password)
                                       | None => (drawn w, base64url (random (draws w) 24))
                                       end) in
      await _ := save (set_secrets (map_set (secrets rules) "db-password" password) rules) in
      Ret password
  end.

(** *** Migration *)

Record migration := Migration {
  m_file : string; m_name : string; m_host : string; m_header : string; m_prefix : string; m_method : credential_method }.

Definition migrations : list migration :=
  [Migration "oauth-token" "anthropic-oauth" "api.anthropic.com" "Authorization" "Bearer " OAuth;
   Migration "api-key" "anthropic-api-key" "api.anthropic.com" "x-api-key" "" ApiKey].

Definition migrated (m : migration) (val : string) : CredentialRule :=
  Credential (m_name m) (m_host m) (m_header m) (m_prefix m ++ val) None None None None (Some (m_method m)).

Fixpoint migrate_each (ms : list migration) (rules : CredentialRules) (changed : bool) : method (CredentialRules * bool) :=
  match ms with
  | [] => Ret (rules, changed)
  | m :: ms =>
      if existsb (λ c, bool_decide (name c = m_name m)) (credentials rules) then migrate_each ms rules changed
      else
        await val := query (legacy_text (m_file m)) in
        match truthy_text val with
        | None => migrate_each ms rules changed
        | Some val => migrate_each ms (set_credentials (credentials rules ++ [migrated m val])%list rules) true
        end
  end.

Definition migrateAuthTokens : method unit :=
  await rules := load in
  await r := migrate_each migrations rules false in
  if r.2 then save r.1 else Ret tt.
End Store.

(** ** What the vault holds *)

Definition file_ok (r : CredentialRules) : Prop := valid_rules r = true ∧ map_wf (secrets r).

Lemma base64url_length k s : String.length s = (3 * k)%nat → String.length (base64url s) = (4 * k)%nat.
Proof.
  revert s. induction k as [|k IH]; intros s Hs; [by destruct s|].
  destruct s as [|a [|b [|c s]]]; simpl in Hs; try lia. cbn [base64url String.length]. rewrite IH by lia. lia.
Qed.

Section Holds.
Context (seal : string → string → string → option (string * string)).
Context (unseal : string → string → string → string → option string).
Context `{!Aead seal unseal}.
Context (random : nat → nat → string) `{!RandomBytes random}.
Context (keyOverride : option string) (root : bool).

Abbreviation load := (load unseal random keyOverride root).
Abbreviation save := (save seal random keyOverride root).
Abbreviation done_alone p Q T w := (ends (λ _ : vault, True) p Q T w).

Definition usable (key : string) (w : vault) : Prop :=
  match keyOverride with Some k => k = key | None => key_file w = Some key end ∧ String.length key = KEY_LENGTH.

(** The rules that the files hold; before the first use there are no files. *)
Definition holds (w : vault) (r : CredentialRules) : Prop :=
  file_ok r ∧
  ((∃ key, usable key w ∧ read_rules unseal key (enc w) = Some r) ∨
   (keyOverride = None ∧ key_file w = None ∧ enc w = None ∧ r = EMPTY)).

Lemma readKeyFile_usable key w : keyOverride = None → usable key w → readKeyFile w = Some key.
Proof. unfold usable, readKeyFile. intros -> [-> Hl]. simpl. by rewrite Hl. Qed.

Lemma ensureKey_alone w r (Q : string → vault → Prop) T : holds w r →
  (∀ key w', usable key w' → read_rules unseal key (enc w') = Some r → legacy w' = legacy w → Q key w') →
  done_alone (ensureKey random keyOverride root) Q T w.
Proof.
  intros [_ Hh] HQ. unfold ensureKey. destruct keyOverride as [key|] eqn:Ek.
  - destruct Hh as [(key' & [Hu Hl] & Hr)|[? _]]; [|done]. rewrite Ek in Hu. subst key'. simpl. apply HQ; [|done|done].
    unfold usable. by rewrite Ek.
  - apply ends_bind, ends_update. intros _ t. destruct Hh as [(key & Hu & Hr)|(_ & Hk & He & ->)].
    + rewrite (readKeyFile_usable key) by done. cbn. by apply HQ.
    + unfold readKeyFile. rewrite Hk. cbn. intros _ _. rewrite Hk. cbn. intros _ _. cbn. apply HQ; [|by cbn; rewrite He|done].
      unfold usable. rewrite Ek. cbn. split; [|apply random_length]. f_equal. unfold over. cbn.
      destruct (String.length (random (draws w) KEY_LENGTH)); apply string_app_nil_r.
Qed.

Lemma load_alone w r (Q : CredentialRules → vault → Prop) T : holds w r →
  (∀ w', holds w' r → legacy w' = legacy w → Q r w') → done_alone load Q T w.
Proof.
  intros Hh HQ. apply ends_bind. eapply ensureKey_alone; [exact Hh|]. intros key w' Hu Hr Hl.
  apply ends_call. intros _ t. rewrite Hr. simpl. apply HQ; [|done]. split; [apply Hh|]. left. by exists key.
Qed.

Lemma over_empty data : over data "" = data.
Proof. unfold over. destruct data; apply string_app_nil_r. Qed.

Lemma save_alone w r0 r (Q : unit → vault → Prop) T : holds w r0 → file_ok r →
  (∀ w', holds w' r → legacy w' = legacy w → Q tt w') → done_alone (save r) Q T w.
Proof.
  intros Hh Hr HQ. apply ends_bind. eapply ensureKey_alone; [exact Hh|]. intros key w' Hu _ Hl.
  pose proof (json_readback (rules_json r) (rules_keys r (proj2 Hr))) as Hj. unfold saveCredentials.
  revert Hj. generalize (json_text 0 (rules_json r)). intros txt Hj. apply ends_bind, ends_call. intros _ t.
  destruct (seals key (random (draws w') IV_LENGTH) txt) as [[c tag] Hs]; [apply Hu|].
  assert (He : encrypt seal (random (draws w') IV_LENGTH) txt key = Some (random (draws w') IV_LENGTH ++ tag ++ c))
    by (unfold encrypt; by rewrite Hs).
  rewrite He. pose proof (decrypt_encrypt seal unseal _ _ _ _ (random_length _ _) He) as Hd. clear He Hs. revert Hd.
  generalize (random (draws w') IV_LENGTH ++ tag ++ c). intros data Hd.
  cbn [mbind option_bind]. apply ends_bind, ends_update. intros _ _. cbn [fst snd]. apply ends_update. intros _ _. cbn [fst snd].
  apply HQ; [|done]. split; [done|]. left. exists key. split; [unfold usable in *; by destruct keyOverride|].
  cbn [enc with_enc from_option]. rewrite over_empty. unfold read_rules. rewrite Hd. cbn [mbind option_bind].
  rewrite Hj. cbn [mbind option_bind]. by rewrite parse_saved, (proj1 Hr).
Qed.

(** ** Methods as operations on the rules *)

Inductive vault_op :=
| Add (n host hdr val : string) (limit : option rate_limit)
| Remove (n : string)
| ListAll
| Get (n : string)
| Put (n val : string)
| DbPassword
| Migrate.

Inductive answer := Rules_ (r : CredentialRules) | Names (l : list (string * string * string)) | Text (o : option string) | Done.

Abbreviation method A := (prog vault unit A).

Definition answering {A} (f : A → answer) (p : method A) : method answer := await a := p in Ret (f a).

Definition perform (op : vault_op) : method answer :=
  match op with
  | Add n host hdr val limit => answering Rules_ (addCredential seal unseal random keyOverride root n host hdr val limit)
  | Remove n => answering Rules_ (removeCredential seal unseal random keyOverride root n)
  | ListAll => answering Names (listCredentials unseal random keyOverride root)
  | Get n => answering Text (getSecret unseal random keyOverride root n)
  | Put n val => answering (λ _, Done) (setSecret seal unseal random keyOverride root n val)
  | DbPassword => answering (Text ∘ Some) (dbPassword seal unseal random keyOverride root)
  | Migrate => answering (λ _, Done) (migrateAuthTokens seal unseal random keyOverride root)
  end.

Definition file_text (files : jsmap string) (file : string) : option string :=
  truthy_text (trim <$> map_get files file).

Definition migrate_rule (files : jsmap string) (r : CredentialRules) (m : migration) : CredentialRules :=
  if existsb (λ c, bool_decide (name c = m_name m)) (credentials r) then r
  else match file_text files (m_file m) with
       | Some val => set_credentials (credentials r ++ [migrated m val])%list r
       | None => r
       end.

(** The rules with a credential from an old file, unless there is one of the name or the
    file has no text. *)
Definition adopt (files : jsmap string) (file n host hdr prefix : string) (m : credential_method) (r : CredentialRules) : CredentialRules :=
  if decide (n ∈ map name (credentials r)) then r
  else match map_get files file with
       | Some t =>
           if decide (trim t = "") then r
           else CredentialFile (credentials r ++ [Credential n host hdr (prefix ++ trim t) None None None None (Some m)])%list
                  (pinningBypass r) (secrets r)
       | None => r
       end.

(** The answer, [None] for a rejection, and the new rules; [pw] is used where a password
    is made up. *)
Definition spec (files : jsmap string) (pw : string) (op : vault_op) (r : CredentialRules) : option answer * CredentialRules :=
  let others n := filter (λ c, name c ≠ n) (credentials r) in
  match op with
  | Add n host hdr val limit =>
      let r := CredentialFile (others n ++ [Credential n host hdr val None limit None None None])%list (pinningBypass r) (secrets r) in
      (Some (Rules_ r), r)
  | Remove n =>
      if decide (n ∈ map name (credentials r)) then
        let r := CredentialFile (others n) (pinningBypass r) (secrets r) in (Some (Rules_ r), r)
      else (None, r)
  | ListAll => (Some (Names (map (λ c, (name c, hostPattern c, header c)) (credentials r))), r)
  | Get n => (Some (Text (map_get (secrets r) n)), r)
  | Put n val => (Some Done, CredentialFile (credentials r) (pinningBypass r) (map_set (secrets r) n val))
  | DbPassword =>
      match map_get (secrets r) "db-password" with
      | Some (String _ _ as p) => (Some (Text (Some p)), r)
      | _ =>
          let p := match map_get files "db-password" with
                   | Some t => if decide (trim t = "") then pw else trim t | None => pw end in
          (Some (Text (Some p)), CredentialFile (credentials r) (pinningBypass r) (map_set (secrets r) "db-password" p))
      end
  | Migrate =>
      (Some Done, adopt files "api-key" "anthropic-api-key" "api.anthropic.com" "x-api-key" "" ApiKey
                    (adopt files "oauth-token" "anthropic-oauth" "api.anthropic.com" "Authorization" "Bearer " OAuth r))
  end.

(** Names that every object has. *)
Definition inherited : list string :=
  ["__proto__"; "constructor"; "hasOwnProperty"; "isPrototypeOf"; "propertyIsEnumerable"; "toLocaleString"; "toString";
   "valueOf"; "__defineGetter__"; "__defineSetter__"; "__lookupGetter__"; "__lookupSetter__"].

(** A credential that the schema does not accept makes the file unreadable; the secrets are
    the properties of an object, which has some names of its own. *)
Definition op_ok (op : vault_op) : Prop :=
  match op with
  | Add n host hdr val limit => valid_credential (Credential n host hdr val None limit None None None) = true
  | Get n | Put n _ => n ∉ inherited
  | _ => True
  end.

Lemma migrate_adopt files r m : migrate_rule files r m = adopt files (m_file m) (m_name m) (m_host m) (m_header m) (m_prefix m) (m_method m) r.
Proof.
  unfold migrate_rule, adopt, file_text. assert (He : existsb (λ c, bool_decide (name c = m_name m)) (credentials r) = true ↔
    m_name m ∈ map name (credentials r)).
  { rewrite existsb_exists, elem_of_map. split; intros (c & H1 & H2).
    - exists c. apply list_elem_of_In in H1. apply bool_decide_eq_true in H2. done.
    - exists c. split; [by apply list_elem_of_In|by apply bool_decide_eq_true]. }
  destruct (existsb _ _); case_decide as Hd; try done; [by destruct Hd; apply He|by apply He in Hd|].
  destruct (map_get files (m_file m)) as [t|]; [|done]. cbn [fmap option_fmap option_map].
  case_decide as Et; [by rewrite Et|]. by rewrite (proj2 (truthy_text_Some (Some (trim t)) (trim t))).
Qed.

Lemma old_password files pw : default pw (file_text files "db-password") =
  match map_get files "db-password" with Some t => if decide (trim t = "") then pw else trim t | None => pw end.
Proof.
  unfold file_text. destruct (map_get files "db-password") as [t|]; [|done]. cbn [fmap option_fmap option_map].
  case_decide as Et; [by rewrite Et|]. by rewrite (proj2 (truthy_text_Some (Some (trim t)) (trim t))).
Qed.

Lemma spec_password files pw r : spec files pw DbPassword r =
  match truthy_text (map_get (secrets r) "db-password") with
  | Some p => (Some (Text (Some p)), r)
  | None =>
      let p := default pw (file_text files "db-password") in
      (Some (Text (Some p)), set_secrets (map_set (secrets r) "db-password" p) r)
  end.
Proof. cbn [spec]. rewrite old_password. by destruct (map_get (secrets r) "db-password") as [[|a p]|]. Qed.

Lemma spec_migrate files pw r : spec files pw Migrate r = (Some Done, foldl (migrate_rule files) r migrations).
Proof. unfold migrations. cbn [foldl]. by rewrite !migrate_adopt. Qed.

Lemma set_credentials_ok l r : file_ok r → forallb valid_credential l = true → file_ok (set_credentials l r).
Proof. intros [Hv Hw] Hl. split; [|done]. unfold valid_rules in *. cbn. by apply andb_true_iff in Hv as [_ ->]; rewrite Hl. Qed.

Lemma set_secret_ok n val r : file_ok r → file_ok (set_secrets (map_set (secrets r) n val) r).
Proof. intros [Hv Hw]. split; [done|]. by apply map_wf_set. Qed.

Lemma credentials_ok r : file_ok r → forallb valid_credential (credentials r) = true.
Proof. intros [[? ?]%andb_true_iff _]. done. Qed.

Lemma without_ok n l : forallb valid_credential l = true → forallb valid_credential (without n l) = true.
Proof.
  rewrite !forallb_forall. intros Hl c Hc%list_elem_of_In. apply list_elem_of_filter in Hc as [_ Hc].
  by apply Hl, list_elem_of_In.
Qed.

Definition refines (p : method answer) (files : jsmap string) (w : vault) (f : string → option answer * CredentialRules) : Prop :=
  done_alone p
    (λ a w', legacy w' = files ∧ ∃ pw, String.length pw = 32 ∧ (f pw).1 = Some a ∧ holds w' (f pw).2)
    (λ w', legacy w' = files ∧ ∃ pw, String.length pw = 32 ∧ (f pw).1 = None ∧ holds w' (f pw).2) w.

Definition any_password : string := "password-password-password-passw".

Lemma without_length n l : length (without n l) = length l ↔ n ∉ map name l.
Proof.
  induction l as [|c l IH]; [split; [intros _; apply not_elem_of_nil|done]|].
  unfold without in *. cbn [map]. rewrite not_elem_of_cons, filter_cons. pose proof (length_filter (λ c, name c ≠ n) l).
  case_decide; cbn [length]; [rewrite Nat.succ_inj_wd, IH; naive_solver|]. split; [lia|naive_solver].
Qed.

Lemma migrated_ok m val : m ∈ migrations → str_truthy val = true → valid_credential (migrated m val) = true.
Proof.
  intros Hm Hv. unfold migrations in Hm. set_unfold in Hm. destruct val as [|c val]; [done|].
  by destruct Hm as [->|[->|[]]].
Qed.

Lemma migrate_rule_ok files r m : m ∈ migrations → file_ok r → file_ok (migrate_rule files r m).
Proof.
  intros Hm Hr. unfold migrate_rule. destruct (existsb _ _); [done|]. unfold file_text.
  destruct (truthy_text (trim <$> map_get files (m_file m))) as [val|] eqn:E; [|done].
  apply set_credentials_ok; [done|]. rewrite forallb_app, credentials_ok by done. cbn [forallb andb].
  unfold truthy_text in E. apply bind_Some in E as (t & _ & E). destruct (str_truthy t) eqn:Et; [|done].
  injection E as ->. by rewrite migrated_ok.
Qed.

Lemma migrations_ok files r : file_ok r → file_ok (foldl (migrate_rule files) r migrations).
Proof.
  intros Hr. assert (H : ∀ ms r, Forall (λ m, m ∈ migrations) ms → file_ok r → file_ok (foldl (migrate_rule files) r ms)).
  { intros ms. induction ms as [|m ms IH]; intros r' Hms Hr'; [done|]. apply Forall_cons in Hms as [Hm Hms].
    by apply IH, migrate_rule_ok. }
  apply H; [by apply Forall_forall|done].
Qed.

Lemma migrate_each_alone ms r changed w :
  done_alone (migrate_each ms r changed)
    (λ x w', w' = w ∧ x.1 = foldl (migrate_rule (legacy w)) r ms ∧ (x.2 = false → changed = false ∧ x.1 = r))
    (λ _, False) w.
Proof.
  revert r changed. induction ms as [|m ms IH]; intros r changed; cbn [migrate_each foldl]; [done|].
  destruct (existsb _ _) eqn:E.
  { replace (migrate_rule (legacy w) r m) with r by (unfold migrate_rule; by rewrite E). apply IH. }
  apply ends_bind, ends_query. intros _. fold (file_text (legacy w) (m_file m)). unfold legacy_text.
  change (truthy_text (trim <$> map_get (legacy w) (m_file m))) with (file_text (legacy w) (m_file m)).
  destruct (file_text (legacy w) (m_file m)) as [val|] eqn:Ev.
  - replace (migrate_rule (legacy w) r m) with (set_credentials (credentials r ++ [migrated m val])%list r)
      by (unfold migrate_rule; by rewrite E, Ev).
    eapply ends_post; [| |apply IH]; [|done]. intros x w' (-> & Ex & Hx). split; [done|]. split; [done|]. by intros [? _]%Hx.
  - replace (migrate_rule (legacy w) r m) with r by (unfold migrate_rule; by rewrite E, Ev). apply IH.
Qed.

Lemma perform_refines op w r : holds w r → op_ok op →
  refines (perform op) (legacy w) w (λ pw, spec (legacy w) pw op r).
Proof.
  intros Hh Hop. assert (Hr : file_ok r) by apply Hh. destruct op as [n host hdr val limit|n| |n|n val| |];
    unfold refines, perform, answering; apply ends_bind.
  - apply ends_bind. eapply load_alone; [exact Hh|]. intros w1 H1 El1. cbv zeta. apply ends_bind.
    eapply save_alone; [exact H1| |].
    { apply set_credentials_ok; [done|]. cbn in Hop. rewrite forallb_app, without_ok by (by apply credentials_ok).
      cbn [forallb andb]. by rewrite Hop. }
    intros w2 H2 El2. cbn [ends]. split; [congruence|]. exists any_password. by split.
  - apply ends_bind. eapply load_alone; [exact Hh|]. intros w1 H1 El1. cbv zeta.
    pose proof (without_length n (credentials r)) as Hl. cbn [credentials set_credentials spec].
    destruct (length (without n (credentials r)) =? length (credentials r))%nat eqn:E; bool_cases.
    + cbn [ends]. split; [congruence|]. exists any_password. rewrite decide_False by (by apply Hl). by split.
    + apply ends_bind. eapply save_alone; [exact H1|by apply set_credentials_ok, without_ok, credentials_ok|].
      intros w2 H2 El2. cbn [ends]. split; [congruence|]. exists any_password.
      rewrite decide_True by (destruct (decide (n ∈ map name (credentials r))) as [?|Hn]; [done|by apply Hl in Hn]). by split.
  - apply ends_bind. eapply load_alone; [exact Hh|]. intros w1 H1 El1. cbn [ends]. split; [congruence|]. by exists any_password.
  - apply ends_bind. eapply load_alone; [exact Hh|]. intros w1 H1 El1. cbn [ends]. split; [congruence|]. by exists any_password.
  - apply ends_bind. eapply load_alone; [exact Hh|]. intros w1 H1 El1.
    eapply save_alone; [exact H1|by apply set_secret_ok|]. intros w2 H2 El2. cbn [ends]. split; [congruence|]. by exists any_password.
  - apply ends_bind. eapply load_alone; [exact Hh|]. intros w1 H1 El1.
    destruct (truthy_text (map_get (secrets r) "db-password")) as [p|] eqn:Ep.
    { cbn [ends]. split; [congruence|]. exists any_password. by rewrite spec_password, Ep. }
    apply ends_bind, ends_update. intros _ t. unfold legacy_text. rewrite El1. fold (file_text (legacy w) "db-password").
    destruct (file_text (legacy w) "db-password") as [p|] eqn:Ef.
    + cbn [fst snd]. apply ends_bind. eapply save_alone; [exact H1|by apply set_secret_ok|].
      intros w2 H2 El2. cbn [ends]. split; [congruence|]. exists any_password. by rewrite spec_password, Ep, Ef.
    + cbn [fst snd]. apply ends_bind. eapply (save_alone (drawn w1) r); [|by apply set_secret_ok|].
      { destruct H1 as [? [(key & Hu & Hk)|H1]]; split; [done| |done|]; [left; exists key; split; [exact Hu|done]|by right]. }
      intros w2 H2 El2. cbn [ends]. split; [by rewrite El2|]. exists (base64url (random (draws w1) 24)).
      split; [|by rewrite spec_password, Ep, Ef]. rewrite (base64url_length 8); [done|]. by rewrite random_length.
  - apply ends_bind. eapply load_alone; [exact Hh|]. intros w1 H1 El1. apply ends_bind.
    eapply ends_post; [| |apply migrate_each_alone]; [|by intros w']. intros [r' b] w' (-> & E & Hb). cbn [fst snd] in *. subst r'.
    rewrite El1 in *. destruct b.
    + eapply save_alone; [exact H1|by apply migrations_ok|]. intros w2 H2 El2. cbn [ends]. split; [congruence|].
      exists any_password. by rewrite spec_migrate.
    + cbn [ends]. split; [congruence|]. exists any_password. rewrite spec_migrate. cbn [fst snd]. rewrite (proj2 (Hb eq_refl)). by split.
Qed.

(** *** Sequences of calls *)

Fixpoint vault_run (clock : nat → Z) (ops : list vault_op) (w : vault) : list (option answer) * vault :=
  match ops with
  | [] => ([], w)
  | op :: ops =>
      let '(w1, a, _) := alone clock 0 (perform op) w in
      let '(l, w2) := vault_run clock ops w1 in (a :: l, w2)
  end.

Inductive spec_run (files : jsmap string) : list vault_op → CredentialRules → list (option answer) → CredentialRules → Prop :=
| spec_nil r : spec_run files [] r [] r
| spec_cons op ops pw r l r' : String.length pw = 32%nat → spec_run files ops (spec files pw op r).2 l r' →
    spec_run files (op :: ops) r ((spec files pw op r).1 :: l) r'.

Lemma alone_of_ends {A} clock i (p : prog vault unit A) Q T w : done_alone p Q T w →
  match alone clock i p w with (w', Some a, _) => Q a w' | (w', None, _) => T w' end.
Proof.
  revert i w. induction p as [a| |f IH|b k IH] using prog_ind'; intros i w H; simpl in H |- *; [done|done| |done].
  specialize (H I (clock i)). specialize (IH (clock i) w). destruct (f (clock i) w) as [[w' sp] p']. by apply IH.
Qed.

Lemma run_refines clock ops w r : holds w r → Forall op_ok ops →
  ∃ r', spec_run (legacy w) ops r (vault_run clock ops w).1 r' ∧ holds (vault_run clock ops w).2 r'.
Proof.
  revert w r. induction ops as [|op ops IH]; intros w r Hh Hops; [exists r; by split; [constructor|]|].
  apply Forall_cons in Hops as [Hop Hops]. pose proof (alone_of_ends clock 0 _ _ _ _ (perform_refines op w r Hh Hop)) as H1.
  cbn [vault_run]. destruct (alone clock 0 (perform op) w) as [[w1 a] j].
  assert (∃ pw, String.length pw = 32%nat ∧ (spec (legacy w) pw op r).1 = a ∧ holds w1 (spec (legacy w) pw op r).2 ∧
    legacy w1 = legacy w) as (pw & Hpw & Ea & H2 & El) by (destruct a; naive_solver).
  destruct (IH w1 _ H2 Hops) as (r' & Hs & Hr'). rewrite El in Hs. destruct (vault_run clock ops w1) as [l w2].
  exists r'. split; [|done]. rewrite <- Ea. by econstructor.
Qed.

(** C39: called one after the other on a vault that holds rules, the methods of the store keep
    one set of rules in its files, answer from it and change it as their specification says:
    a value that was set is got, a credential that was added replaces those of its name and
    is listed, a made-up password of 32 characters is kept, the tokens of old files are taken
    over once.  The condition is that every credential that is added is one that the schema of
    the file accepts, and that no secret has the name of a property that every object has. *)
Theorem vault_refines clock ops w r : holds w r → Forall op_ok ops →
  ∃ r', spec_run (legacy w) ops r (vault_run clock ops w).1 r' ∧ holds (vault_run clock ops w).2 r'.
Proof. apply run_refines. Qed.

Definition password_of (r : CredentialRules) : option string := truthy_text (map_get (secrets r) "db-password").

Definition sets_password (op : vault_op) : bool :=
  match op with Put n _ => bool_decide (n = "db-password") | _ => false end.

Lemma spec_keeps_password files pw op r p : password_of r = Some p → sets_password op = false →
  password_of (spec files pw op r).2 = Some p.
Proof.
  intros Hp Hop. destruct op as [n host hdr val limit|n| |n|n val| |]; try done.
  - cbn [spec]. by case_decide.
  - apply bool_decide_eq_false in Hop. unfold password_of in *. cbn [spec snd set_secrets secrets].
    by rewrite map_get_set_ne.
  - rewrite spec_password. unfold password_of in *. by rewrite Hp.
  - rewrite spec_migrate. cbn [snd]. assert (Hs : ∀ ms r, secrets (foldl (migrate_rule files) r ms) = secrets r).
    { intros ms. induction ms as [|m ms IH]; intros r'; [done|]. cbn [foldl]. rewrite IH. unfold migrate_rule.
      destruct (existsb _ _); [done|]. by destruct (file_text files (m_file m)). }
    unfold password_of in *. by rewrite Hs.
Qed.

Lemma spec_run_password files ops r l r' p : spec_run files ops r l r' → Forall (λ op, sets_password op = false) ops →
  password_of r = Some p → password_of r' = Some p.
Proof.
  induction 1 as [r|op ops pw r l r' _ _ IH]; [done|]. intros [Hop Hops]%Forall_cons Hp. by apply IH, spec_keeps_password.
Qed.

Lemma spec_run_app files ops1 ops2 r l r' : spec_run files (ops1 ++ ops2) r l r' →
  ∃ l1 l2 r1, l = (l1 ++ l2)%list ∧ spec_run files ops1 r l1 r1 ∧ spec_run files ops2 r1 l2 r'.
Proof.
  revert r l. induction ops1 as [|op ops1 IH]; intros r l; [intros Hs; exists [], l, r; by repeat constructor|].
  cbn [app]. intros Hs. inversion Hs as [|? ? pw ? l0 ? Hpw Hs']; subst. destruct (IH _ _ Hs') as (l1 & l2 & r1 & -> & H1 & H2).
  exists ((spec files pw op r).1 :: l1), l2, r1. split; [done|]. split; [by econstructor|done].
Qed.

Lemma password_nonempty files pw file : String.length pw = 32%nat → default pw (file_text files file) ≠ "".
Proof.
  intros Hl. destruct (file_text files file) as [q|] eqn:E; [by apply truthy_text_Some in E as [_ ?]|]. cbn. by intros ->.
Qed.

(** The password of the database is made up, or taken from its old file, once: whatever
    else is done with the vault, it is the same from then on. *)
Theorem password_kept clock ops w r : holds w r → Forall op_ok ops → Forall (λ op, sets_password op = false) ops →
  ∃ p l, p ≠ "" ∧ (vault_run clock (DbPassword :: ops ++ [DbPassword]) w).1 = (Some (Text (Some p)) :: l ++ [Some (Text (Some p))])%list.
Proof.
  intros Hh Hok Hops. destruct (run_refines clock (DbPassword :: ops ++ [DbPassword]) w r Hh) as (r' & Hs & _).
  { constructor; [done|]. apply Forall_app. split; [done|]. by constructor. }
  revert Hs. generalize (legacy w), (vault_run clock (DbPassword :: ops ++ [DbPassword]) w).1. intros files answers Hs.
  inversion Hs as [|? ? pw ? l0 ? Hpw Hs']; subst. clear Hs.
  destruct (spec_run_app _ _ _ _ _ _ Hs') as (l1 & l2 & r1 & -> & Hmid & Hend). clear Hs'.
  assert (∃ p, p ≠ "" ∧ (spec files pw DbPassword r).1 = Some (Text (Some p)) ∧
    password_of (spec files pw DbPassword r).2 = Some p) as (p & Hp & Ep & Hr1).
  { rewrite spec_password. destruct (truthy_text (map_get (secrets r) "db-password")) as [p|] eqn:E.
    - exists p. split; [by apply truthy_text_Some in E as [_ ?]|]. by split.
    - exists (default pw (file_text files "db-password")). pose proof (password_nonempty files pw "db-password" Hpw) as Hp.
      split; [done|]. split; [done|]. unfold password_of. cbn [snd set_secrets secrets].
      rewrite map_get_set_eq. by apply truthy_text_Some. }
  exists p, l1. split; [done|]. rewrite Ep. do 2 f_equal. inversion Hend as [|? ? pw2 ? l3 ? _ Hnil]; subst. inversion Hnil; subst.
  f_equal. apply (spec_run_password _ _ _ _ _ _ Hmid Hops) in Hr1. rewrite spec_password. unfold password_of in Hr1. by rewrite Hr1.
Qed.
End Holds.

(** ** Examples *)

Fixpoint repeat_char (c : ascii) (n : nat) : string := match n with O => "" | S n => String c (repeat_char c n) end.

Lemma repeat_char_length c n : String.length (repeat_char c n) = n.
Proof. induction n as [|n IH]; [done|]. simpl. by rewrite IH. Qed.

(** A cipher that only marks its texts, by the key. *)
Definition toy_seal (key iv txt : string) : option (string * string) :=
  if (String.length key =? KEY_LENGTH)%nat then Some (txt, str_take AUTH_TAG_LENGTH key) else None.
Definition toy_unseal (key iv tag txt : string) : option string :=
  if String.eqb tag (str_take AUTH_TAG_LENGTH key) then Some txt else None.

#[export] Instance toy_aead : Aead toy_seal toy_unseal.
Proof.
  split.
  - intros key iv txt Hl. unfold toy_seal. rewrite Hl, Nat.eqb_refl. by eexists.
  - intros key iv txt c tag. unfold toy_seal. destruct (String.length key =? KEY_LENGTH)%nat eqn:E; [|done].
    intros Es. assert (tag = str_take AUTH_TAG_LENGTH key) as -> by congruence. apply Nat.eqb_eq in E.
    by rewrite length_str_take, E.
  - intros key iv txt c tag. unfold toy_seal, toy_unseal. destruct (_ =? _)%nat; [|done]. intros Es.
    assert (tag = str_take AUTH_TAG_LENGTH key) as -> by congruence. rewrite String.eqb_refl. congruence.
Qed.

Definition toy_random (i n : nat) : string := repeat_char (ascii_of_nat (97 + i mod 26)) n.

#[export] Instance toy_random_bytes : RandomBytes toy_random.
Proof. intros i n. apply repeat_char_length. Qed.

Definition new_vault : vault := Vault None None [("oauth-token", "sk-ant-oat01 ")] 0.

Lemma new_vault_holds : holds toy_unseal None new_vault EMPTY.
Proof. split; [by split; [|constructor]|]. by right. Qed.

Definition example_ops : list vault_op :=
  [Put "a-b" "x"; Get "a-b"; DbPassword; Migrate; Add "t" "h.com" "x-t" "v" None; ListAll; Remove "u"; DbPassword].

Lemma example_ops_ok : Forall op_ok example_ops.
Proof. repeat (apply Forall_cons; split; [first [exact I|reflexivity|apply (bool_decide_unpack _); vm_compute; exact I]|]). apply Forall_nil_2. Qed.

Abbreviation toy_run := (vault_run toy_seal toy_unseal toy_random None false (λ _, 0%Z)).

Lemma vault_refines_witness :
  let answers := (toy_run example_ops new_vault).1 in
  (answers !! 1%nat = Some (Some (Text (Some "x"))) ∧ answers !! 6%nat = Some None ∧
   answers !! 5%nat = Some (Some (Names [("anthropic-oauth", "api.anthropic.com", "Authorization"); ("t", "h.com", "x-t")]))) ∧
  ∃ r', spec_run (legacy new_vault) example_ops EMPTY answers r'.
Proof.
  cbv zeta. split; [vm_compute; by repeat split|].
  destruct (vault_refines toy_seal toy_unseal toy_random None false (λ _, 0%Z) example_ops new_vault EMPTY
    new_vault_holds example_ops_ok) as (r' & Hs & _). exists r'. exact Hs.
Defined.

Lemma password_kept_witness :
  ∃ p l, p ≠ "" ∧ (toy_run (DbPassword :: [Put "a-b" "x"; Migrate] ++ [DbPassword])%list new_vault).1 =
    (Some (Text (Some p)) :: l ++ [Some (Text (Some p))])%list.
Proof.
  apply (password_kept toy_seal toy_unseal toy_random None false (λ _, 0%Z) [Put "a-b" "x"; Migrate] new_vault EMPTY new_vault_holds);
    repeat (apply Forall_cons; split; [first [exact I|reflexivity|apply (bool_decide_unpack _); vm_compute; exact I]|]);
    apply Forall_nil_2.
Defined.

(** A credential with a host pattern that the schema does not accept, or with an empty
    value, is stored, and from then on the file cannot be read. *)
Example invalid_credential_locks_vault :
  let w := (toy_run [Put "a-b" "x"; Add "t" "https://h.com" "x-t" "v" None] new_vault).2 in
  (toy_run [Get "a-b"; DbPassword; Remove "t"] w).1 = [None; None; None].
Proof. vm_compute. reflexivity. Qed.

(** *** Methods that overlap

    Two methods run at the same time on a vault that holds one secret. *)

Definition one_secret : vault := (toy_run [Put "a-b" "0"] new_vault).2.

Definition overlapping (val1 val2 : string) (schedule : list nat) : vault :=
  let set n val := bind (setSecret toy_seal toy_unseal toy_random None false n val) (λ _, Ret (@None unit)) in
  shared (fold_left (λ sys i, advance i 0%Z sys) schedule
            (System one_secret [(tt, set "whatsapp-auth-creds" val1); (tt, set "wa-key:session:1" val2)])).

Definition values_read (w : vault) : list (option answer) :=
  (toy_run [Get "a-b"; Get "whatsapp-auth-creds"; Get "wa-key:session:1"] w).1.

(** One after the other: both are kept. *)
Example updates_apart : values_read (overlapping "c" "k" [0; 0; 0; 0; 0; 0; 1; 1; 1; 1; 1; 1]) =
  [Some (Text (Some "0")); Some (Text (Some "c")); Some (Text (Some "k"))].
Proof. vm_compute. reflexivity. Qed.

(** Both load before either saves: the first update is lost. *)
Example update_lost : values_read (overlapping "c" "k" [0; 0; 1; 1; 0; 0; 0; 0; 1; 1; 1; 1]) =
  [Some (Text (Some "0")); Some (Text None); Some (Text (Some "k"))].
Proof. vm_compute. reflexivity. Qed.

(** Both empty the file before either writes, and the second text is shorter: it is
    followed by the end of the first one, and no method can read the vault again. *)
Example vault_destroyed :
  values_read (overlapping "some longer credentials" "k" [0; 0; 1; 1; 0; 0; 1; 1; 0; 1; 0; 1]) = [None; None; None].
Proof. vm_compute. reflexivity. Qed.

(** A method that loads while another saves is rejected. *)
Example load_rejected : values_read (overlapping "c" "k" [0; 0; 0; 0; 0]) = [None; None; None].
Proof. vm_compute. reflexivity. Qed.
