(* ===== verification/AuthState.v ===== *)
(** * The session of WhatsApp in the vault

    [src/channels/whatsapp/auth-state.ts]: the credentials and the signal keys of a
    WhatsApp session are secrets of the vault of [Vault.v], loaded and saved as a whole
    by every operation.  The values and their texts are those of the WhatsApp library;
    its in-memory object of credentials is an argument where it is saved. *)

From Stdlib Require Import Ascii.
From S2P Require Import Prelude JsMap JsString JsNumber JsParse Json JsonText ProxyRules CredentialSchema Jobs Threads Vault.
Local Open Scope list_scope.
Local Open Scope string_scope.
Local Open Scope fh_scope.

Definition CREDS_SECRET_KEY : string := "whatsapp-auth-creds".
Definition KEY_PREFIX : string := "wa-key:".

Definition keyName (type id : string) : string := KEY_PREFIX ++ type ++ ":" ++ id.

Section AuthState.
Context {V : Type} (serialize : V → string) (deserialize : string → option V).
Context (initAuthCreds : V) (fromObject : V → V).
Context (seal : string → string → string → option (string * string)).
Context (unseal : string → string → string → string → option string).
Context (random : nat → nat → string) (keyOverride : option string) (root : bool).

Abbreviation method := (prog vault unit).
Abbreviation load := (load unseal random keyOverride root).
Abbreviation save := (save seal random keyOverride root).
Abbreviation getSecret := (getSecret unseal random keyOverride root).
Abbreviation setSecret := (setSecret seal unseal random keyOverride root).

Definition parsed (json : string) : method V := match deserialize json with Some v => Ret v | None => Throw end.

Definition saveCreds (creds : V) : method unit := setSecret CREDS_SECRET_KEY (serialize creds).

(** The credentials that the session starts with. *)
Definition useVaultAuthState : method V :=
  await credsJson := getSecret CREDS_SECRET_KEY in
  match truthy_text credsJson with
  | Some json => parsed json
  | None => await _ := saveCreds initAuthCreds in Ret initAuthCreds
  end.

Definition revive (type : string) (v : V) : V := if bool_decide (type = "app-state-sync-key") then fromObject v else v.

(** The values of the ids that have one. *)
Fixpoint read_keys (type : string) (secrets : jsmap string) (ids : list string) (data : jsmap V) : method (jsmap V) :=
  match ids with
  | [] => Ret data
  | id :: ids =>
      match truthy_text (map_get secrets (keyName type id)) with
      | None => read_keys type secrets ids data
      | Some json => await v := parsed json in read_keys type secrets ids (map_set data id (revive type v))
      end
  end.

Definition keys_get (type : string) (ids : list string) : method (jsmap V) :=
  await rules := load in
  read_keys type (secrets rules) ids [].

(** A key that is set, or removed; and whether that changed anything. *)
Definition set_entry (category : string) (acc : jsmap string * bool) (e : string * option V) : jsmap string * bool :=
  let name := keyName category e.1 in
  match e.2 with
  | Some v => (map_set acc.1 name (serialize v), true)
  | None => if map_has acc.1 name then (map_delete acc.1 name, true) else acc
  end.

Definition set_category (acc : jsmap string * bool) (c : string * option (jsmap (option V))) : jsmap string * bool :=
  foldl (set_entry c.1) acc (default [] c.2).

Definition keys_set (data : jsmap (option (jsmap (option V)))) : method unit :=
  await rules := load in
  let r := foldl set_category (secrets rules, false) data in
  if r.2 then save (set_secrets r.1 rules) else Ret tt.

Definition auth_secret (n : string) : bool := bool_decide (n = CREDS_SECRET_KEY) || starts_with KEY_PREFIX n.

Definition clearVaultAuthState : method unit :=
  await rules := load in
  let changed := map_has (secrets rules) CREDS_SECRET_KEY in
  let kept := map_delete (secrets rules) CREDS_SECRET_KEY in
  let keys := filter (λ n, starts_with KEY_PREFIX n = true) (map_keys kept) in
  if changed || negb (bool_decide (keys = [])) then save (set_secrets (foldl map_delete kept keys) rules)
  else Ret tt.
End AuthState.

(** ** Names *)

Lemma keyName_inj type1 id1 type2 id2 : lacks ":"%char type1 → lacks ":"%char type2 →
  keyName type1 id1 = keyName type2 id2 → type1 = type2 ∧ id1 = id2.
Proof.
  intros H1 H2 E%string_app_inj. revert type2 H2 E. induction type1 as [|c type1 IH]; intros [|d type2] H2 E.
  - split; [done|]. by injection E.
  - exfalso. apply lacks_cons in H2 as [H2 _]. apply H2. by injection E.
  - exfalso. apply lacks_cons in H1 as [H1 _]. apply H1. by injection E.
  - apply lacks_cons in H1 as [_ H1]. apply lacks_cons in H2 as [_ H2]. injection E as -> E.
    destruct (IH H1 type2 H2 E) as [-> ->]. done.
Qed.

Lemma keyName_creds type id : keyName type id ≠ CREDS_SECRET_KEY.
Proof. done. Qed.

Lemma auth_secret_keyName type id : auth_secret (keyName type id) = true.
Proof. unfold auth_secret. apply orb_true_iff. right. apply prefix_app. by eexists. Qed.

(** The texts of the values: [JSON.stringify] and [JSON.parse] with the replacer and the
    reviver of the library. *)
Class Serializer {V} (serialize : V → string) (deserialize : string → option V) : Prop := {
  deserializes v : deserialize (serialize v) = Some v;
  serialized v : serialize v ≠ "" }.

Section Sessions.
Context {V : Type} (serialize : V → string) (deserialize : string → option V) `{!Serializer serialize deserialize}.
Context (initAuthCreds : V) (fromObject : V → V).

(** ** Changes to the secrets *)

(** The signal keys that rules store, by their type and their identifier. *)
Definition session (s : jsmap string) (stored : string → string → option V) : Prop :=
  ∀ type id, lacks ":"%char type → map_get s ("wa-key:" ++ type ++ ":" ++ id) = serialize <$> stored type id.

Abbreviation key_data := (jsmap (option (jsmap (option V)))).

Definition change (data : key_data) (stored : string → string → option V) (type id : string) : option V :=
  match map_get data type with
  | Some (Some entries) => default (stored type id) (map_get entries id)
  | _ => stored type id
  end.

(** The names of the types have no colon, and an object has a name once. *)
Definition data_ok (data : key_data) : Prop :=
  map_wf data ∧ Forall (λ c, lacks ":"%char c.1 ∧ default True (map_wf <$> c.2)) data.

Lemma map_get_deleted {A} (m : jsmap A) k j : map_get (map_delete m k) j = if decide (k = j) then None else map_get m j.
Proof.
  induction m as [|[n a] m IH]; [by case_decide|]. change (map_delete ((n, a) :: m) k) with
    (filter (λ e : string * A, e.1 ≠ k) ((n, a) :: m)). rewrite filter_cons. cbn [fst].
  destruct (decide (n ≠ k)) as [Hn|Hn%dec_stable]; cbn [map_get]; fold (map_delete m k); rewrite IH;
    repeat case_decide; congruence.
Qed.

Lemma set_entry_get category acc e n : map_get (set_entry serialize category acc e).1 n =
  if decide (n = keyName category e.1) then serialize <$> e.2 else map_get acc.1 n.
Proof.
  destruct e as [id [v|]]; unfold set_entry; cbn [fst snd fmap option_fmap option_map].
  - rewrite map_get_set. case_decide; case_decide; congruence.
  - unfold map_has. destruct (map_get acc.1 (keyName category id)) as [x|] eqn:E; cbn [fst].
    + rewrite map_get_deleted. case_decide; case_decide; congruence.
    + case_decide; [by subst|done].
Qed.

Lemma set_entries_get category es acc : map_wf es →
  (∀ id, map_get (foldl (set_entry serialize category) acc es).1 (keyName category id) =
     match map_get es id with Some o => serialize <$> o | None => map_get acc.1 (keyName category id) end) ∧
  (∀ n, (∀ id, n ≠ keyName category id) → map_get (foldl (set_entry serialize category) acc es).1 n = map_get acc.1 n).
Proof.
  intros Hw. revert acc. induction es as [|[id o] es IH]; intros acc; [done|].
  apply NoDup_cons in Hw as [Hn Hw]. destruct (IH Hw (set_entry serialize category acc (id, o))) as [H1 H2]. split.
  - intros id'. cbn [foldl]. rewrite H1, set_entry_get. cbn [fst snd]. destruct (decide (id' = id)) as [->|Hne].
    + rewrite (proj2 (map_get_None es id) Hn). rewrite decide_True by done. cbn. by rewrite decide_True.
    + rewrite decide_False by (intros E%string_app_inj; apply string_app_inj in E; by apply (string_app_inj ":") in E).
      cbn [map_get]. by rewrite decide_False.
  - intros n Hne. cbn [foldl]. rewrite H2 by done. rewrite set_entry_get. by rewrite decide_False.
Qed.

Definition changed (s : jsmap string) (data : key_data) : jsmap string * bool := foldl (set_category serialize) (s, false) data.

Lemma set_categories_get data acc : data_ok data →
  (∀ type id, lacks ":"%char type → map_get (foldl (set_category serialize) acc data).1 (keyName type id) =
     match map_get data type with
     | Some (Some es) => match map_get es id with Some o => serialize <$> o | None => map_get acc.1 (keyName type id) end
     | _ => map_get acc.1 (keyName type id)
     end) ∧
  (∀ n, (∀ category id, n ≠ keyName category id) → map_get (foldl (set_category serialize) acc data).1 n = map_get acc.1 n).
Proof.
  revert acc. induction data as [|[c o] data IH]; intros acc [Hw Hd]; [done|]. apply NoDup_cons in Hw as [Hn Hw].
  apply Forall_cons in Hd as [[Hc Ho] Hd]. cbn [fst snd] in Hc, Ho. cbn [foldl].
  destruct (IH (set_category serialize acc (c, o)) (conj Hw Hd)) as [H1 H2].
  assert (Hes : map_wf (default [] o)) by (destruct o; [exact Ho|constructor]).
  destruct (set_entries_get c (default [] o) acc Hes) as [H3 H4]. split.
  - intros type id Ht. rewrite H1 by done. cbn [map_get fst snd]. destruct (decide (c = type)) as [->|Hne].
    + rewrite (proj2 (map_get_None data type) Hn). unfold set_category. cbn [fst snd]. rewrite H3. by destruct o.
    + assert (Hk : map_get (set_category serialize acc (c, o)).1 (keyName type id) = map_get acc.1 (keyName type id)).
      { apply H4. intros id' E. by apply keyName_inj in E as [? _]. }
      by rewrite Hk.
  - intros n Hau. rewrite H2 by done. apply H4. intros id. apply Hau.
Qed.

Lemma set_entry_wf category acc e : map_wf acc.1 → map_wf (set_entry serialize category acc e).1.
Proof.
  intros Hw. destruct e as [id [v|]]; unfold set_entry; cbn [fst snd]; [by apply map_wf_set|].
  destruct (map_has _ _); [by apply map_wf_delete|done].
Qed.

Lemma set_categories_wf data acc : map_wf acc.1 → map_wf (foldl (set_category serialize) acc data).1.
Proof.
  revert acc. induction data as [|[c o] data IH]; intros acc Hw; [done|]. apply IH. unfold set_category. cbn [fst snd].
  revert acc Hw. induction (default [] o) as [|e es IHe]; intros acc Hw; [done|]. by apply IHe, set_entry_wf.
Qed.

(** Nothing has changed where the flag is not set. *)
Lemma set_categories_flag data acc :
  (foldl (set_category serialize) acc data).2 = false → foldl (set_category serialize) acc data = acc.
Proof.
  assert (He : ∀ category es acc, (foldl (set_entry serialize category) acc es).2 = false →
    foldl (set_entry serialize category) acc es = acc).
  { intros category es. induction es as [|e es IH]; intros a Ha; [done|]. cbn [foldl] in *. pose proof (IH _ Ha) as E.
    rewrite E in Ha |- *. destruct e as [id [v|]]; unfold set_entry in *; cbn [fst snd] in *; [done|].
    by destruct (map_has _ _). }
  revert acc. induction data as [|[c o] data IH]; intros acc Ha; [done|]. cbn [foldl] in *. pose proof (IH _ Ha) as E.
  rewrite E in Ha |- *. by apply He.
Qed.

Lemma change_session data s stored : data_ok data → session s stored → session (changed s data).1 (change data stored).
Proof.
  intros Hd Hs type id Ht. unfold changed. change ("wa-key:" ++ type ++ ":" ++ id) with (keyName type id). rewrite (proj1 (set_categories_get data (s, false) Hd)) by done.
  unfold change. destruct (map_get data type) as [[es|]|]; [|by apply Hs..].
  destruct (map_get es id) as [o|]; [done|]. by apply Hs.
Qed.

(** ** The operations, one after the other *)

Context (seal : string → string → string → option (string * string)).
Context (unseal : string → string → string → string → option string) `{!Aead seal unseal}.
Context (random : nat → nat → string) `{!RandomBytes random} (keyOverride : option string) (root : bool).

Abbreviation holds := (holds unseal keyOverride).
Abbreviation keys_get := (keys_get deserialize fromObject unseal random keyOverride root).
Abbreviation keys_set := (keys_set serialize seal unseal random keyOverride root).
Abbreviation done_alone p Q w := (ends (λ _ : vault, True) p Q (λ _, False) w).

(** What the vault holds beside the session. *)
Definition same_others (r r' : CredentialRules) : Prop :=
  credentials r' = credentials r ∧ pinningBypass r' = pinningBypass r ∧
  ∀ n, auth_secret n = false → map_get (secrets r') n = map_get (secrets r) n.

(** Nothing in the vault has changed beside secrets with names of signal keys. *)
Definition only_keys (r r' : CredentialRules) : Prop :=
  credentials r' = credentials r ∧ pinningBypass r' = pinningBypass r ∧
  ∀ n, (∀ type id, n ≠ "wa-key:" ++ type ++ ":" ++ id) → map_get (secrets r') n = map_get (secrets r) n.

Lemma secrets_ok s r : file_ok r → map_wf s → file_ok (set_secrets s r).
Proof. by intros [Hv _] Hw. Qed.

Lemma keys_set_alone data w r stored : holds w r → data_ok data → session (secrets r) stored →
  done_alone (keys_set data)
    (λ _ w', ∃ r', holds w' r' ∧ session (secrets r') (change data stored) ∧ only_keys r r') w.
Proof.
  intros Hh Hd Hs. apply ends_bind. eapply load_alone; [apply _|exact Hh|]. intros w1 H1 _. cbv zeta. fold (changed (secrets r) data).
  pose proof (change_session data (secrets r) stored Hd Hs) as Hs'.
  assert (Ho : only_keys r (set_secrets (changed (secrets r) data).1 r)).
  { split; [done|]. split; [done|]. intros n Hn. by apply (proj2 (set_categories_get data (secrets r, false) Hd)). }
  destruct (changed (secrets r) data).2 eqn:E.
  - eapply save_alone; [apply _|apply _|exact H1|apply secrets_ok, set_categories_wf; apply Hh|]. intros w2 H2 _.
    by exists (set_secrets (changed (secrets r) data).1 r).
  - cbn [ends]. exists r. split; [done|]. unfold changed in *. rewrite (set_categories_flag _ _ E) in Hs'. by split.
Qed.

Lemma read_keys_alone type s stored ids m w : lacks ":"%char type → session s stored →
  done_alone (read_keys deserialize fromObject type s ids m)
    (λ m' w', w' = w ∧ ∀ id, map_get m' id = if decide (id ∈ ids) then
       match stored type id with Some v => Some (revive fromObject type v) | None => map_get m id end else map_get m id) w.
Proof.
  intros Ht Hs. revert m. induction ids as [|i ids IH]; intros m.
  - cbn [read_keys ends]. split; [done|]. intros id. by rewrite decide_False by apply not_elem_of_nil.
  - cbn [read_keys]. change (keyName type i) with ("wa-key:" ++ type ++ ":" ++ i). rewrite Hs by done. destruct (stored type i) as [v|] eqn:Ei; cbn [fmap option_fmap option_map].
    + rewrite (proj2 (truthy_text_Some _ (serialize v))) by (split; [done|apply serialized]).
      unfold parsed. rewrite deserializes. eapply ends_post; [| |apply IH]; [|done]. intros m' w' [-> Hm]. split; [done|].
      intros id. rewrite Hm, map_get_set. destruct (decide (id ∈ i :: ids)) as [Hi|Hi]; rewrite elem_of_cons in Hi;
        destruct (decide (id ∈ ids)), (decide (i = id)); subst; rewrite ?Ei; try done; naive_solver.
    + eapply ends_post; [| |apply IH]; [|done]. intros m' w' [-> Hm]. split; [done|].
      intros id. rewrite Hm. destruct (decide (id ∈ i :: ids)) as [Hi|Hi]; rewrite elem_of_cons in Hi;
        destruct (decide (id ∈ ids)), (decide (i = id)); subst; rewrite ?Ei; try done; naive_solver.
Qed.

(** C29: one after the other, the operations on the keys of a session are those on a map from
    type and identifier to a value: what is got is what was last set (an object of the
    protocol for app state keys), a key that was set to null is gone, and nothing else in
    the vault has changed, neither its rules, nor its other secrets, nor the credentials of
    the session.  Types have no colon, and no identifier is [__proto__]. *)
Theorem session_keys_refine datas type ids w r stored : holds w r → session (secrets r) stored →
  Forall data_ok datas → lacks ":"%char type → "__proto__" ∉ ids →
  done_alone (await _ := for_each keys_set datas in keys_get type ids)
    (λ m w', (∀ id, id ∈ ids → map_get m id =
                (if decide (type = "app-state-sync-key") then fromObject else Datatypes.id) <$>
                  foldl (λ f d, change d f) stored datas type id) ∧
             (∀ id, id ∉ ids → map_get m id = None) ∧ ∃ r', holds w' r' ∧ only_keys r r') w.
Proof.
  intros Hh Hs Hd Ht _. apply ends_bind.
  assert (Hset : done_alone (for_each keys_set datas)
    (λ _ w', ∃ r', holds w' r' ∧ session (secrets r') (foldl (λ f d, change d f) stored datas) ∧ only_keys r r') w).
  { revert w r stored Hh Hs. induction datas as [|d datas IH]; intros w r stored Hh Hs; [by exists r|].
    apply Forall_cons in Hd as [Hd0 Hd]. cbn [for_each foldl]. apply ends_bind.
    eapply ends_post; [| |by apply keys_set_alone]; [|done]. intros _ w1 (r1 & H1 & Hs1 & Ho1).
    eapply ends_post; [| |by apply (IH Hd w1 r1)]; [|done]. intros _ w2 (r2 & H2 & Hs2 & Ho2). exists r2. split; [done|]. split; [done|].
    destruct Ho1 as (E1 & P1 & O1), Ho2 as (E2 & P2 & O2). split; [congruence|]. split; [congruence|].
    intros n Hn. by rewrite O2, O1. }
  eapply ends_post; [| |exact Hset]; [|done]. intros _ w1 (r1 & H1 & Hs1 & Ho1).
  apply ends_bind. eapply load_alone; [apply _|exact H1|]. intros w2 H2 _.
  eapply ends_post; [| |apply (read_keys_alone type _ _ ids [] w2 Ht Hs1)]; [|done]. intros m w' [-> Hm]. split; [|split].
  - intros id Hi. rewrite Hm, decide_True by done. unfold revive.
    destruct (foldl _ _ _ type id); [|done]. simpl. case_bool_decide; by case_decide.
  - intros id Hi. by rewrite Hm, decide_False.
  - by exists r1.
Qed.

Abbreviation save_creds := (saveCreds serialize seal unseal random keyOverride root).
Abbreviation use_state := (useVaultAuthState serialize deserialize initAuthCreds seal unseal random keyOverride root).

(** Credentials that were saved are those of the next start. *)
Lemma creds_readback creds w r : holds w r →
  done_alone (await _ := save_creds creds in use_state) (λ v w', v = creds ∧ ∃ r', holds w' r' ∧ same_others r r') w.
Proof.
  intros Hh. apply ends_bind, ends_bind. eapply load_alone; [apply _|exact Hh|]. intros w1 H1 _.
  eapply save_alone; [apply _|apply _|exact H1|by apply set_secret_ok, Hh|]. intros w2 H2 _.
  apply ends_bind, ends_bind. eapply load_alone; [apply _|exact H2|]. intros w3 H3 _. cbn [ends set_secrets secrets].
  rewrite map_get_set_eq. rewrite (proj2 (truthy_text_Some _ (serialize creds))) by (split; [done|apply serialized]).
  unfold parsed. rewrite deserializes. cbn [ends]. split; [done|]. eexists. split; [exact H3|]. split; [done|]. split; [done|].
  intros n Hn. cbn [set_secrets secrets]. rewrite map_get_set_ne; [done|]. intros <-. done.
Qed.

End Sessions.

(** ** Logging out *)

Section Clearing.
Context (seal : string → string → string → option (string * string)).
Context (unseal : string → string → string → string → option string) `{!Aead seal unseal}.
Context (random : nat → nat → string) `{!RandomBytes random} (keyOverride : option string) (root : bool).

Abbreviation clear := (clearVaultAuthState seal unseal random keyOverride root).

Lemma delete_all_get keys (s : jsmap string) n : map_get (foldl map_delete s keys) n = if decide (n ∈ keys) then None else map_get s n.
Proof.
  revert s. induction keys as [|k keys IH]; intros s; [by rewrite decide_False by apply not_elem_of_nil|].
  cbn [foldl]. rewrite IH, map_get_deleted. destruct (decide (n ∈ k :: keys)) as [Hi|Hi]; rewrite elem_of_cons in Hi;
    destruct (decide (n ∈ keys)), (decide (k = n)); subst; try done; naive_solver.
Qed.

Lemma delete_all_wf keys (s : jsmap string) : map_wf s → map_wf (foldl map_delete s keys).
Proof. revert s. induction keys as [|k keys IH]; intros s Hs; [done|]. by apply IH, map_wf_delete. Qed.

Lemma map_has_false {A} (m : jsmap A) k : map_has m k = false → map_get m k = None.
Proof. unfold map_has. by destruct (map_get m k). Qed.

(** A log-out removes the credentials and every key of the session, and nothing else. *)
Theorem clear_removes_session w r : holds unseal keyOverride w r →
  ends (λ _ : vault, True) clear
    (λ _ w', ∃ r', holds unseal keyOverride w' r' ∧ same_others r r' ∧ ∀ n, auth_secret n = true → map_get (secrets r') n = None) (λ _, False) w.
Proof.
  intros Hh. apply ends_bind. eapply load_alone; [apply _|exact Hh|]. intros w1 H1 _. cbv zeta.
  set (kept := map_delete (secrets r) CREDS_SECRET_KEY). set (keys := filter _ (map_keys kept)).
  assert (Hkey : ∀ n, starts_with KEY_PREFIX n = true → n ∉ keys → map_get kept n = None).
  { intros n Hp Hn. apply map_get_None. intros Hin. apply Hn, list_elem_of_filter. done. }
  assert (Hgone : ∀ n, auth_secret n = true → n ∉ keys → map_get kept n = None).
  { intros n [Hn|Hn]%orb_true_iff Hk; [|by apply Hkey]. apply bool_decide_eq_true in Hn as ->. unfold kept.
    rewrite map_get_deleted. by rewrite decide_True. }
  assert (Hkeep : ∀ n, auth_secret n = false → map_get kept n = map_get (secrets r) n ∧ n ∉ keys).
  { intros n [Hc Hp]%orb_false_iff. apply bool_decide_eq_false in Hc. unfold kept at 1. rewrite map_get_deleted. split.
    - rewrite decide_False; [done|]. by intros <-.
    - intros [Hs _]%list_elem_of_filter. congruence. }
  destruct (map_has (secrets r) CREDS_SECRET_KEY || negb (bool_decide (keys = []))) eqn:E.
  - eapply save_alone; [apply _|apply _|exact H1|apply secrets_ok, delete_all_wf, map_wf_delete; apply Hh|].
    intros w2 H2 _. eexists. split; [exact H2|]. split; [split; [done|]; split; [done|]|]; intros n Hn; cbn [set_secrets secrets];
      rewrite delete_all_get.
    + destruct (Hkeep n Hn) as [<- Hk]. by rewrite decide_False.
    + case_decide; [done|]. by apply Hgone.
  - cbn [ends]. apply orb_false_iff in E as [Ec Ek]. apply negb_false_iff, bool_decide_eq_true in Ek.
    exists r. split; [done|]. split; [done|]. intros n Hn. apply map_has_false in Ec.
    destruct (decide (n = CREDS_SECRET_KEY)) as [->|Hc]; [done|]. specialize (Hgone n Hn). rewrite Ek in Hgone.
    unfold kept in Hgone. rewrite map_get_deleted, decide_False in Hgone by congruence. apply Hgone, not_elem_of_nil.
Qed.
End Clearing.

(** ** Examples *)

Definition toy_serialize (v : string) : string := "=" ++ v.
Definition toy_deserialize (s : string) : option string := match s with String _ v => Some v | EmptyString => None end.

#[export] Instance toy_serializer : Serializer toy_serialize toy_deserialize.
Proof. by split. Qed.

Definition example_changes : list (jsmap (option (jsmap (option string)))) :=
  [[("session", Some [("1", Some "a"); ("2", Some "b")]); ("pre-key", None)]; [("session", Some [("1", None); ("3", Some "c")])]].

Definition example_keys : prog vault unit (jsmap string) :=
  await _ := for_each (keys_set toy_serialize toy_seal toy_unseal toy_random None false) example_changes in
  keys_get toy_deserialize (λ v, v) toy_unseal toy_random None false "session" ["1"; "2"; "3"].

Lemma session_keys_refine_witness :
  (alone (λ _, 0%Z) 0 example_keys new_vault).1.2 = Some [("2", "b"); ("3", "c")] ∧
  ends (λ _ : vault, True) example_keys
    (λ m w', (∀ id, id ∈ ["1"; "2"; "3"] → map_get m id =
                (if decide ("session" = "app-state-sync-key") then (λ v, v) else Datatypes.id) <$> foldl (λ f d, change d f) (λ _ _, None) example_changes "session" id) ∧
             (∀ id, id ∉ ["1"; "2"; "3"] → map_get m id = None) ∧ ∃ r', holds toy_unseal None w' r' ∧ only_keys EMPTY r')
    (λ _, False) new_vault.
Proof.
  split; [vm_compute; reflexivity|].
  apply (session_keys_refine toy_serialize toy_deserialize (λ v, v) toy_seal toy_unseal toy_random None false example_changes
    "session" ["1"; "2"; "3"] new_vault EMPTY (λ _ _, None)); [exact new_vault_holds|by intros type id| | |].
  - unfold example_changes, data_ok, map_wf. repeat (apply Forall_cons; split; [|]); try apply Forall_nil_2;
      repeat split; try (apply (bool_decide_unpack _); vm_compute; exact I);
      repeat (apply Forall_cons; split; [|]); try apply Forall_nil_2; cbn [snd];
      split; apply (bool_decide_unpack _); vm_compute; exact I.
  - apply (bool_decide_unpack _). vm_compute. exact I.
  - apply (bool_decide_unpack _). vm_compute. exact I.
Defined.


Lemma clear_removes_session_witness :
  ends (λ _ : vault, True) (clearVaultAuthState toy_seal toy_unseal toy_random None false)
    (λ _ w', ∃ r', holds toy_unseal None w' r' ∧ same_others EMPTY r' ∧ ∀ n, auth_secret n = true → map_get (secrets r') n = None)
    (λ _, False) new_vault.
Proof. apply (clear_removes_session toy_seal toy_unseal toy_random None false new_vault EMPTY new_vault_holds). Defined.
