(* ===== verification/ChannelServer.v ===== *)
(** * The HTTP interface of the channel container

    [src/channels/channel-server.ts]: the orchestrator's requests for outbound messages
    and Google Workspace commands, and the reports on the adapters.  A handler runs
    until it awaits an adapter, a token or a process, and goes on when that has an
    outcome; many are in progress at a time.  The adapters, the token provider and the
    [gws] program are outside: what they answer are events. *)

From Stdlib Require Import Ascii.
From stdpp Require Import gmap pretty.
From S2P Require Import Prelude JsMap JsString JsNumber Identity Json.
Local Open Scope list_scope.
Local Open Scope string_scope.

(** ** [parseCommandArgs] *)

Definition dq_char : ascii := "034".

Record arg_state := Args { args : list string; current : string; inSingle : bool; inDouble : bool }.

Definition flush (s : arg_state) : list string :=
  if str_truthy (current s) then (args s ++ [current s])%list else args s.

Definition arg_step (s : arg_state) (ch : ascii) : arg_state :=
  if bool_decide (ch = "'"%char) && negb (inDouble s) then Args (args s) (current s) (negb (inSingle s)) (inDouble s)
  else if bool_decide (ch = dq_char) && negb (inSingle s) then Args (args s) (current s) (inSingle s) (negb (inDouble s))
  else if bool_decide (ch = " "%char) && negb (inSingle s) && negb (inDouble s) then
    if str_truthy (current s) then Args (flush s) "" (inSingle s) (inDouble s) else s
  else Args (args s) (current s ++ String ch "") (inSingle s) (inDouble s).

Definition parseCommandArgs (command : string) : list string :=
  flush (foldl arg_step (Args [] "" false false) (String.list_ascii_of_string command)).

(** How a caller writes an argument: in the quotes that it has not. *)
Definition quote_arg (a : string) : string :=
  if bool_decide (dq_char ∈ String.list_ascii_of_string a) then "'" ++ a ++ "'" else dq ++ a ++ dq.

Definition quotable (a : string) : Prop := a ≠ "" ∧ (lacks dq_char a ∨ lacks "'"%char a).

Definition command_line (l : list string) : string := String.concat " " (map quote_arg l).

Definition read_args (s : arg_state) (text : string) : arg_state :=
  foldl arg_step s (String.list_ascii_of_string text).

Lemma read_args_app s t1 t2 : read_args s (t1 ++ t2) = read_args (read_args s t1) t2.
Proof. unfold read_args. by rewrite list_of_string_app, foldl_app. Qed.

Lemma read_double l a c : lacks dq_char a → read_args (Args l c false true) a = Args l (c ++ a) false true.
Proof.
  revert c. induction a as [|x a IH]; intros c Ha; [by rewrite string_app_nil_r|].
  apply lacks_cons in Ha as [Hx Ha]. assert (Hs : arg_step (Args l c false true) x = Args l (c ++ String x "") false true).
  { unfold arg_step. simpl. by rewrite andb_false_r, (bool_decide_eq_false_2 (x = dq_char)), !andb_false_r by done. }
  unfold read_args in *. simpl. rewrite Hs, IH by done. by rewrite string_app_assoc.
Qed.

Lemma read_single l a c : lacks "'"%char a → read_args (Args l c true false) a = Args l (c ++ a) true false.
Proof.
  revert c. induction a as [|x a IH]; intros c Ha; [by rewrite string_app_nil_r|].
  apply lacks_cons in Ha as [Hx Ha]. assert (Hs : arg_step (Args l c true false) x = Args l (c ++ String x "") true false).
  { unfold arg_step. simpl. by rewrite (bool_decide_eq_false_2 (x = "'"%char)), !andb_false_r by done. }
  unfold read_args in *. simpl. rewrite Hs, IH by done. by rewrite string_app_assoc.
Qed.

Lemma read_quoted l a : quotable a → read_args (Args l "" false false) (quote_arg a) = Args l a false false.
Proof.
  intros [_ Ha]. unfold quote_arg. case_bool_decide as E; rewrite !read_args_app.
  - destruct Ha as [?|Ha]; [done|]. change (read_args (Args l "" false false) "'") with (Args l "" true false).
    by rewrite read_single.
  - change (read_args (Args l "" false false) dq) with (Args l "" false true). by rewrite read_double.
Qed.

Lemma read_command_line done_ l : Forall quotable l →
  flush (read_args (Args done_ "" false false) (command_line l)) = (done_ ++ l)%list.
Proof.
  unfold command_line. revert done_. induction l as [|a l IH]; intros dn Hl; [unfold flush; simpl; by rewrite app_nil_r|].
  apply Forall_cons in Hl as [Ha Hl]. destruct l as [|b l].
  - simpl. rewrite read_quoted by done. unfold flush. simpl. destruct Ha as [Ha _]. by destruct a.
  - change (String.concat " " (map quote_arg (a :: b :: l))) with
      (quote_arg a ++ " " ++ String.concat " " (map quote_arg (b :: l))).
    rewrite !read_args_app, read_quoted by done.
    assert (Hs : read_args (Args dn a false false) " " = Args (dn ++ [a])%list "" false false).
    { destruct Ha as [Ha _]. by destruct a. }
    rewrite Hs, IH by done. by rewrite <- app_assoc.
Qed.

(** A command line of quoted arguments is split into these arguments, whatever blanks and
    quotes of the other kind they have in them. *)
Theorem args_readback l : Forall quotable l → parseCommandArgs (command_line l) = l.
Proof. intros Hl. exact (read_command_line [] l Hl). Qed.

(** An empty argument is lost. *)
Example empty_argument_lost : parseCommandArgs (command_line ["--subject"; ""; "--body"; "hi"]) =
  ["--subject"; "--body"; "hi"].
Proof. reflexivity. Qed.

(** A quote that is not closed takes the rest as one argument. *)
Example open_quote_accepted : parseCommandArgs "--body it's fine" = ["--body"; "its fine"].
Proof. reflexivity. Qed.

(** ** State *)

(** A request to send; the fields are not validated beyond their truthiness. *)
Record SendRequest := Send {
  sr_channel : string;
  sr_userId : json;
  sr_text : json;
  sr_reply : option json }.

(** What a handler in progress waits for. *)
Inductive waiting :=
| Sending (m : SendRequest)
| AwaitingToken (command : json) (timeout : spec_float)
| Running.

Record server := Server {
  adapters : jsmap bool;                 (* whether each is connected *)
  gwsTokenProvider : bool;
  startedAt : Z;
  errorCounts : jsmap nat;
  lastErrors : jsmap string;
  lastMessageAt : jsmap Z;
  in_progress : gmap nat waiting }.

Definition put_adapters (l : jsmap bool) (s : server) : server :=
  Server l (gwsTokenProvider s) (startedAt s) (errorCounts s) (lastErrors s) (lastMessageAt s) (in_progress s).
Definition put_progress (p : gmap nat waiting) (s : server) : server :=
  Server (adapters s) (gwsTokenProvider s) (startedAt s) (errorCounts s) (lastErrors s) (lastMessageAt s) p.
Definition put_last (l : jsmap Z) (s : server) : server :=
  Server (adapters s) (gwsTokenProvider s) (startedAt s) (errorCounts s) (lastErrors s) l (in_progress s).

Definition trackError (channel error : string) (s : server) : server :=
  Server (adapters s) (gwsTokenProvider s) (startedAt s)
    (map_set (errorCounts s) channel (S (default 0 (map_get (errorCounts s) channel))))
    (map_set (lastErrors s) channel error) (lastMessageAt s) (in_progress s).

(** ** Answers *)

Record response := Response { status : Z; answer : json }.

Definition sendError (st : Z) (code message : string) : response :=
  Response st (Obj [("error", Str message); ("code", Str code)]).

Definition send_ok : response := Response 200 (Obj [("success", Bool true)]).

Definition handleHealthz (now : Z) (s : server) : response :=
  Response 200 (Obj
    [("status", Str (if existsb snd (adapters s) then "ok" else "degraded"));
     ("channels", Obj (map (λ a : string * bool, (a.1, Str (if a.2 then "connected" else "disconnected"))) (adapters s)));
     ("uptimeMs", int (now - startedAt s))]).

Definition status_detail (s : server) (a : string * bool) : string * json :=
  (a.1, Obj (app [("status", Str (if a.2 then "connected" else "disconnected"))]
    (app (opt_member "lastMessageAt" int (map_get (lastMessageAt s) a.1))
      (app [("errorCount", count (default 0 (map_get (errorCounts s) a.1)))]
        (opt_member "lastError" Str (map_get (lastErrors s) a.1)))))).

Definition handleStatus (now : Z) (s : server) : response :=
  Response 200 (Obj [("channels", Obj (map (status_detail s) (adapters s))); ("uptimeMs", int (now - startedAt s))]).

(** What a step of a handler does: it answers, or waits. *)
Inductive action :=
| Answer (r : response)
| Await (w : waiting).

(** The request's body: the chunks that arrive, or an error of the socket. *)
Definition MAX_BODY : nat := 1048576.

Fixpoint read_chunks (size : nat) (acc : string) (chunks : list string) : result string :=
  match chunks with
  | [] => Ok acc
  | c :: chunks =>
      let size := size + String.length c in
      if (MAX_BODY <? size)%nat then Err "Request body too large" else read_chunks size (acc ++ c) chunks
  end.

Definition readBody (chunks : result (list string)) : result string :=
  match chunks with Ok l => read_chunks 0 "" l | Err e => Err e end.

Section Handlers.
Context (parse_json : string → result json) (to_number : json → spec_float) (show : spec_float → string).

(** The body and its value; [null] has no properties. *)
Definition parsed_body (chunks : result (list string)) (property : string) : result json :=
  match readBody chunks with
  | Err e => Err e
  | Ok body =>
      match parse_json body with
      | Err e => Err e
      | Ok Null => Err ("Cannot read properties of null (reading '" ++ property ++ "')")
      | Ok v => Ok v
      end
  end.

Definition internal_error (msg : string) : response := sendError 500 "INTERNAL_ERROR" msg.

(** A text with a value in it; conversion may throw. *)
Definition with_text (v : option json) (f : string → response) : response :=
  match template show v with
  | Some t => f t
  | None => internal_error "Cannot convert object to primitive value"
  end.

Definition handleSend (s : server) (chunks : result (list string)) : action :=
  match parsed_body chunks "channel" with
  | Err msg => Answer (internal_error msg)
  | Ok parsed =>
      let channel := prop parsed "channel" in
      if negb (truthy channel) || negb (truthy (prop parsed "userId")) || negb (truthy (prop parsed "text")) then
        Answer (sendError 400 "INVALID_REQUEST" "channel, userId, and text are required")
      else
        let found := match channel with Some (Str c) => map_get (adapters s) c | _ => None end in
        match channel, found with
        | Some (Str c), Some connected =>
            if negb connected then
              Answer (sendError 503 "CHANNEL_DISCONNECTED" ("Channel " ++ dq ++ c ++ dq ++ " is disconnected"))
            else Await (Sending (Send c (default Null (prop parsed "userId")) (default Null (prop parsed "text"))
                                   (prop parsed "replyToMessageId")))
        | _, _ =>
            Answer (with_text channel (λ t, sendError 404 "CHANNEL_NOT_FOUND"
                                              ("Channel " ++ dq ++ t ++ dq ++ " not configured")))
        end
  end.

(** [Math.min(parsed.timeout ?? 30_000, 60_000)] *)
Definition gws_timeout (v : option json) : spec_float :=
  match v with
  | None | Some Null => double 30000
  | Some (Num f) => js_min f (double 60000)
  | Some v => js_min (to_number v) (double 60000)
  end.

Definition handleGws (s : server) (chunks : result (list string)) : action :=
  if negb (gwsTokenProvider s) then
    Answer (sendError 503 "GWS_DISABLED"
      "Google Workspace CLI not configured. Gmail adapter must be active with OAuth credentials.")
  else
    match parsed_body chunks "command" with
    | Err msg => Answer (internal_error msg)
    | Ok parsed =>
        if negb (truthy (prop parsed "command")) then Answer (sendError 400 "INVALID_REQUEST" "command is required")
        else Await (AwaitingToken (default Null (prop parsed "command")) (gws_timeout (prop parsed "timeout")))
    end.

Definition handleRequest (s : server) (now : Z) (method url : string) (chunks : result (list string)) : action :=
  let at_route m u := bool_decide (method = m) && bool_decide (url = u) in
  if at_route "GET" "/healthz" then Answer (handleHealthz now s)
  else if at_route "GET" "/status" then Answer (handleStatus now s)
  else if at_route "POST" "/send" then handleSend s chunks
  else if at_route "POST" "/gws" then handleGws s chunks
  else Answer (sendError 404 "NOT_FOUND" ("Unknown endpoint: " ++ method ++ " " ++ url)).

(** ** What follows an await *)

Definition send_done (s : server) (now : Z) (m : SendRequest) (r : result unit) : server * response :=
  match r with
  | Ok _ => (put_last (map_set (lastMessageAt s) (sr_channel m) now) s, send_ok)
  | Err msg => (trackError (sr_channel m) msg s, sendError 502 "SEND_FAILED" msg)
  end.

(** The arguments of a command that need not be a text: only a text has characters. *)
Definition command_args (command : json) : result (list string) :=
  let not_text := Err "command.charAt is not a function" in
  match command with
  | Str c => Ok (parseCommandArgs c)
  | Arr (_ :: _) => not_text
  | Obj _ =>
      match prop command "length" with
      | Some v => if SFltb (double 0) (match v with Num f => f | _ => to_number v end) then not_text else Ok []
      | None => Ok []
      end
  | _ => Ok []
  end.

(** A process that is started, with its token and timeout. *)
Record spawned := Spawn { sp_args : list string; sp_token : string; sp_timeout : spec_float }.

Definition gws_failed (s : server) (msg : string) : server * response :=
  (trackError "gws" msg s, sendError 502 "GWS_FAILED" msg).

(** What [execFile] calls back with: the code of its error, if there is one, which may be
    null; a spawn that failed; or arguments it does not take. *)
Inductive exited :=
| Exited (code : option (option json)) (stdout stderr : string)
| NotSpawned
| NotTaken (msg : string).

Definition gws_done (s : server) (e : exited) : server * response :=
  match e with
  | Exited code out err =>
      let exitCode := match code with Some (Some c) => c | Some None => int 1 | None => int 0 end in
      let ok := match exitCode with Num f => is_zero f | _ => false end in
      (s, Response 200 (Obj (app [("success", Bool ok); ("output", Str out)]
        (app (if str_truthy err then [("stderr", Str err)] else []) [("exitCode", exitCode)]))))
  | NotSpawned =>
      (s, Response 200 (Obj [("success", Bool false); ("output", Str ""); ("stderr", Str "Failed to spawn gws");
                             ("exitCode", int 1)]))
  | NotTaken msg => gws_failed s msg
  end.

(** ** Interleavings *)

Inductive event :=
| Request (rid : nat) (now : Z) (method url : string) (chunks : result (list string))
| Sent (rid : nat) (now : Z) (r : result unit)
| Token (rid : nat) (r : result string)
| Exit (rid : nat) (e : exited)
| Connection (name : string) (connected : bool).

(** What a step shows outside. *)
Inductive output :=
| Answered (rid : nat) (r : response)
| Handed (rid : nat) (m : SendRequest)
| Started (rid : nat) (p : spawned).

Definition finish (s : server) (rid : nat) (r : response) : server * list output :=
  (put_progress (base.delete rid (in_progress s)) s, [Answered rid r]).

Definition step (s : server) (ev : event) : server * list output :=
  match ev with
  | Request rid now method url chunks =>
      match handleRequest s now method url chunks with
      | Answer r => (s, [Answered rid r])
      | Await w => (put_progress (<[rid := w]> (in_progress s)) s,
                    match w with Sending m => [Handed rid m] | _ => [] end)
      end
  | Sent rid now r =>
      match in_progress s !! rid with
      | Some (Sending m) => let '(s, resp) := send_done s now m r in finish s rid resp
      | _ => (s, [])
      end
  | Token rid r =>
      match in_progress s !! rid with
      | Some (AwaitingToken command timeout) =>
          match r with
          | Err msg => let '(s, resp) := gws_failed s msg in finish s rid resp
          | Ok token =>
              match command_args command with
              | Err msg => let '(s, resp) := gws_failed s msg in finish s rid resp
              | Ok l => (put_progress (<[rid := Running]> (in_progress s)) s, [Started rid (Spawn l token timeout)])
              end
          end
      | _ => (s, [])
      end
  | Exit rid e =>
      match in_progress s !! rid with
      | Some Running => let '(s, resp) := gws_done s e in finish s rid resp
      | _ => (s, [])
      end
  | Connection name connected => (put_adapters (map_set (adapters s) name connected) s, [])
  end.

Fixpoint run (s : server) (evs : list event) : server * list output :=
  match evs with
  | [] => (s, [])
  | ev :: evs => let '(s, o1) := step s ev in let '(s, o2) := run s evs in (s, (o1 ++ o2)%list)
  end.
End Handlers.

Definition new_server (l : jsmap bool) (gws : bool) (now : Z) : server := Server l gws now [] [] [] ∅.

(** ** Requests and answers *)

Definition request_id (ev : event) : option nat := match ev with Request rid _ _ _ _ => Some rid | _ => None end.
Definition answer_id (o : output) : option nat := match o with Answered rid _ => Some rid | _ => None end.
Definition requests (evs : list event) : list nat := omap request_id evs.
Definition answered (o : list output) : list nat := omap answer_id o.
Definition open_requests (s : server) : list nat := elements (dom (in_progress s)).

Section Runs.
Context (parse_json : string → result json) (to_number : json → spec_float) (show : spec_float → string).
Local Abbreviation step' := (step parse_json to_number show).
Local Abbreviation run' := (run parse_json to_number show).

Lemma run_snoc s evs ev : run' s (evs ++ [ev]) =
  ((step' (run' s evs).1 ev).1, ((run' s evs).2 ++ (step' (run' s evs).1 ev).2)%list).
Proof.
  revert s. induction evs as [|e evs IH]; intros s; simpl.
  - destruct (step' s ev) as [s' o]. simpl. by rewrite app_nil_r.
  - destruct (step' s e) as [s1 o1]. rewrite IH. destruct (run' s1 evs) as [s2 o2]. simpl.
    destruct (step' s2 ev) as [s3 o3]. simpl. by rewrite app_assoc.
Qed.

Lemma open_close p rid w : p !! rid = Some w →
  rid :: elements (dom (base.delete rid p : gmap nat waiting)) ≡ₚ elements (dom p).
Proof.
  intros Hp. assert (Hin : rid ∈ dom p) by (by apply elem_of_dom_2 in Hp). rewrite dom_delete_L. symmetry.
  rewrite (union_difference_singleton_L rid (dom p)) at 1 by done.
  rewrite elements_disj_union by set_solver. by rewrite elements_singleton.
Qed.

Lemma open_insert (p : gmap nat waiting) rid w : p !! rid = None →
  elements (dom (<[rid := w]> p)) ≡ₚ rid :: elements (dom p).
Proof.
  intros Hp. apply not_elem_of_dom in Hp. rewrite dom_insert_L, elements_disj_union by set_solver.
  by rewrite elements_singleton.
Qed.

(** A step accounts for its request and its answer. *)
Lemma finish_accounts s0 s rid w r : in_progress s0 !! rid = Some w → in_progress s = in_progress s0 →
  answered (finish s rid r).2 ++ open_requests (finish s rid r).1 ≡ₚ open_requests s0.
Proof. intros Hp E. unfold open_requests. simpl. rewrite E. by eapply open_close. Qed.

Lemma step_accounts s ev :
  (∀ rid, request_id ev = Some rid → in_progress s !! rid = None) →
  answered (step' s ev).2 ++ open_requests (step' s ev).1 ≡ₚ requests [ev] ++ open_requests s.
Proof.
  intros Hnew. destruct ev as [rid now method url chunks|rid now r|rid r|rid e|name connected]; simpl.
  - destruct (handleRequest _ _ _ _ _ _ _ _) as [r|w]; [done|].
    destruct w; by apply open_insert, Hnew.
  - destruct (in_progress s !! rid) as [[m| |]|] eqn:E; try done. 
    destruct r as [u|msg]; by apply (finish_accounts s _ _ (Sending m)).
  - destruct (in_progress s !! rid) as [[m|command timeout|]|] eqn:E; try done.
    destruct r as [token|msg]; [|by apply (finish_accounts s _ _ (AwaitingToken command timeout))].
    destruct (command_args to_number command) as [l|msg]; [|by apply (finish_accounts s _ _ (AwaitingToken command timeout))].
    simpl. unfold open_requests. simpl. by rewrite dom_insert_lookup_L.
  - destruct (in_progress s !! rid) as [[m| |]|] eqn:E; try done.
    destruct e; by apply (finish_accounts s _ _ Running).
  - done.
Qed.

Lemma requests_app l1 l2 : requests (l1 ++ l2) = (requests l1 ++ requests l2)%list.
Proof. apply omap_app. Qed.
Lemma answered_app l1 l2 : answered (l1 ++ l2) = (answered l1 ++ answered l2)%list.
Proof. apply omap_app. Qed.

Lemma run_accounts s evs : in_progress s = ∅ → NoDup (requests evs) →
  answered (run' s evs).2 ++ open_requests (run' s evs).1 ≡ₚ requests evs.
Proof.
  intros Hs. induction evs as [|ev evs IH] using rev_ind; intros Hnd.
  - unfold open_requests. simpl. by rewrite Hs, dom_empty_L, elements_empty.
  - rewrite requests_app in *. apply NoDup_app in Hnd as (Hnd & Hdis & _). specialize (IH Hnd).
    rewrite run_snoc. simpl. rewrite answered_app, <- app_assoc, step_accounts.
    + rewrite <- IH. solve_Permutation.
    + intros rid Hr. apply not_elem_of_dom. intros Hin. apply (Hdis rid).
      * rewrite <- IH. apply elem_of_app. right. unfold open_requests. set_solver.
      * unfold requests. simpl. rewrite Hr. by left.
Qed.

(** Sends in progress were handed to their adapter, and what is answered as sent was sent. *)
Definition handed_ok (s : server) (o : list output) : Prop :=
  ∀ rid m, in_progress s !! rid = Some (Sending m) → Handed rid m ∈ o.

Lemma step_handed s o ev : handed_ok s o → handed_ok (step' s ev).1 (o ++ (step' s ev).2).
Proof.
  intros Ho. assert (Hsame : ∀ s' o', (∀ rid m, in_progress s' !! rid = Some (Sending m) →
    in_progress s !! rid = Some (Sending m) ∨ Handed rid m ∈ o') → handed_ok s' (o ++ o')).
  { intros s' o' Hp rid m H. apply elem_of_app. destruct (Hp rid m H) as [?|?]; [left; by apply Ho|by right]. }
  assert (Hfin : ∀ s1 rid r, in_progress s1 = in_progress s → handed_ok (finish s1 rid r).1 (o ++ (finish s1 rid r).2)).
  { intros s1 rid r E1. apply Hsame. intros rid' m H. left. simpl in H. rewrite E1 in H.
    by apply lookup_delete_Some in H as [_ ?]. }
  assert (Hid : handed_ok s (o ++ [])) by (apply Hsame; naive_solver).
  destruct ev as [rid now method url chunks|rid now r|rid r|rid e|name connected]; simpl.
  - destruct (handleRequest _ _ _ _ _ _ _ _) as [r|w]; [apply Hsame; naive_solver|].
    apply Hsame. intros rid' m. simpl. rewrite lookup_insert_Some. intros [[-> ->]|[_ H]]; [right; by left|by left].
  - destruct (in_progress s !! rid) as [[m| |]|]; try done. destruct r; by apply Hfin.
  - destruct (in_progress s !! rid) as [[m|command timeout|]|]; try done.
    destruct r as [token|msg]; [|by apply Hfin]. destruct (command_args _ _); [|by apply Hfin].
    apply Hsame. intros rid' m. simpl. rewrite lookup_insert_Some. naive_solver.
  - destruct (in_progress s !! rid) as [[m| |]|]; try done. destruct e; by apply Hfin.
  - apply Hsame. naive_solver.
Qed.

Lemma run_handed s evs : in_progress s = ∅ → handed_ok (run' s evs).1 (run' s evs).2.
Proof.
  intros Hs. induction evs as [|ev evs IH] using rev_ind.
  - intros rid m. simpl. by rewrite Hs.
  - rewrite run_snoc. by apply step_handed.
Qed.

Lemma status_ne r1 r2 : status r1 ≠ status r2 → r1 ≠ r2.
Proof. by intros H ->. Qed.

Lemma with_text_not_sent v f : (∀ t, f t ≠ send_ok) → with_text show v f ≠ send_ok.
Proof. intros Hf. unfold with_text. destruct (template show v); [apply Hf|done]. Qed.

Lemma request_not_sent s now method url chunks r :
  handleRequest parse_json to_number show s now method url chunks = Answer r → r ≠ send_ok.
Proof.
  unfold handleRequest. repeat case_match; intros E; try (injection E as <-; done).
  - revert E. unfold handleSend. repeat case_match; intros [= <-]; try done; by apply with_text_not_sent.
  - revert E. unfold handleGws. repeat case_match; by intros [= <-].
Qed.

Lemma step_sent s ev rid : Answered rid send_ok ∈ (step' s ev).2 →
  ∃ now m, ev = Sent rid now (Ok tt) ∧ in_progress s !! rid = Some (Sending m).
Proof.
  destruct ev as [rid' now method url chunks|rid' now r|rid' r|rid' e|name connected]; simpl.
  - destruct (handleRequest _ _ _ _ _ _ _ _) as [r|w] eqn:E.
    + apply request_not_sent in E. intros [= ->]%list_elem_of_singleton. done.
    + destruct w; [|by intros ?%elem_of_nil..]. by intros ?%list_elem_of_singleton.
  - destruct (in_progress s !! rid') as [[m| |]|] eqn:E; try (by intros ?%elem_of_nil).
    destruct r as [[]|msg]; intros [= ->]%list_elem_of_singleton; by exists now, m.
  - destruct (in_progress s !! rid') as [[m|command timeout|]|]; try (by intros ?%elem_of_nil).
    destruct r as [token|msg]; [|by intros [= ->]%list_elem_of_singleton].
    destruct (command_args _ _); by intros [= ?]%list_elem_of_singleton.
  - destruct (in_progress s !! rid') as [[m| |]|]; try (by intros ?%elem_of_nil).
    destruct e as [[[c|]|] out err| |msg]; simpl; intros [= -> H]%list_elem_of_singleton; try done;
      revert H; by destruct (str_truthy err).
  - by intros ?%elem_of_nil.
Qed.

Lemma request_hands s now method url chunks m :
  handleRequest parse_json to_number show s now method url chunks = Await (Sending m) →
  method = "POST" ∧ url = "/send" ∧ map_get (adapters s) (sr_channel m) = Some true ∧
  ∃ body, parsed_body parse_json chunks "channel" = Ok body ∧ prop body "channel" = Some (Str (sr_channel m)) ∧
    prop body "userId" = Some (sr_userId m) ∧ prop body "text" = Some (sr_text m) ∧
    prop body "replyToMessageId" = sr_reply m.
Proof.
  unfold handleRequest. destruct (bool_decide (method = "POST") && bool_decide (url = "/send")) eqn:E.
  - apply andb_true_iff in E as [Em%bool_decide_eq_true Eu%bool_decide_eq_true].
    assert (Hroute : ∀ u, bool_decide (method = "GET") && u = false) by (by intros u; rewrite Em).
    rewrite !Hroute. intros Hh. split; [done|]. split; [done|]. revert Hh. unfold handleSend.
    destruct (parsed_body _ _ _) as [body|e]; [|done].
    destruct (negb (truthy (prop body "channel")) || _ || _) eqn:Et; [done|].
    destruct (prop body "channel") as [[| | |c| |]|] eqn:Ec; try done.
    destruct (map_get (adapters s) c) as [[]|] eqn:Ea; [|done..]. simpl. intros [= <-]. simpl. split; [done|].
    exists body. split; [done|]. split; [done|].
    by destruct (prop body "userId"), (prop body "text"); rewrite ?orb_true_r in Et.
  - repeat case_match; try done. unfold handleGws. repeat case_match; done.
Qed.

(** A request as it arrived, with what it asks to send. *)
Definition asks_to_send (l : jsmap bool) (ev : event) (rid : nat) (m : SendRequest) : Prop :=
  ∃ now chunks body, ev = Request rid now "POST" "/send" chunks ∧
    parsed_body parse_json chunks "channel" = Ok body ∧ map_get l (sr_channel m) = Some true ∧
    prop body "channel" = Some (Str (sr_channel m)) ∧ prop body "userId" = Some (sr_userId m) ∧
    prop body "text" = Some (sr_text m) ∧ prop body "replyToMessageId" = sr_reply m.

Lemma step_hands_over s ev rid m : Handed rid m ∈ (step' s ev).2 → asks_to_send (adapters s) ev rid m.
Proof.
  destruct ev as [rid' now method url chunks|rid' now r|rid' r|rid' e|name connected]; simpl.
  - destruct (handleRequest _ _ _ _ _ _ _ _) as [r|w] eqn:E; [by intros [= ]%list_elem_of_singleton|].
    destruct w as [m'| |]; [|by intros ?%elem_of_nil..]. intros [= -> ->]%list_elem_of_singleton.
    apply request_hands in E as (-> & -> & ? & body & ? & ? & ? & ? & ?). by exists now, chunks, body.
  - destruct (in_progress s !! rid') as [[m'| |]|]; try (by intros ?%elem_of_nil).
    destruct r; by intros [= ]%list_elem_of_singleton.
  - destruct (in_progress s !! rid') as [[m'|command timeout|]|]; try (by intros ?%elem_of_nil).
    destruct r as [token|msg]; [|by intros [= ]%list_elem_of_singleton].
    destruct (command_args _ _); by intros [= ]%list_elem_of_singleton.
  - destruct (in_progress s !! rid') as [[m'| |]|]; try (by intros ?%elem_of_nil).
    destruct e; by intros [= ]%list_elem_of_singleton.
  - by intros ?%elem_of_nil.
Qed.

Lemma run_hands_over s evs rid m : Handed rid m ∈ (run' s evs).2 →
  ∃ evs1 ev evs2, evs = (evs1 ++ ev :: evs2)%list ∧ asks_to_send (adapters (run' s evs1).1) ev rid m.
Proof.
  induction evs as [|ev evs IH] using rev_ind; [by intros ?%elem_of_nil|].
  rewrite run_snoc. simpl. intros [H|H]%elem_of_app.
  - destruct (IH H) as (l1 & e & l2 & -> & Ha). exists l1, e, (l2 ++ [ev])%list. by rewrite <- app_assoc.
  - exists evs, ev, []. split; [done|]. by apply step_hands_over.
Qed.

Lemma run_sent s evs rid : in_progress s = ∅ → Answered rid send_ok ∈ (run' s evs).2 →
  ∃ m now, Handed rid m ∈ (run' s evs).2 ∧ Sent rid now (Ok tt) ∈ evs.
Proof.
  intros Hs. induction evs as [|ev evs IH] using rev_ind; intros Hr; [by apply elem_of_nil in Hr|].
  rewrite run_snoc in *. simpl in *. setoid_rewrite elem_of_app. apply elem_of_app in Hr as [Hr|Hr].
  - destruct (IH Hr) as (m & now & ? & ?). exists m, now. split; by left.
  - apply step_sent in Hr as (now & m & -> & Hp). exists m, now. split; [left; by apply run_handed|right; by left].
Qed.

(** C20: requests with different identifiers are each answered once, or still wait for their
    adapter, token or process.  What is answered as sent was reported as sent by the
    adapter; and an adapter is only handed what a request to send asks for, when it is
    the adapter of the channel that the request names, and connected. *)
Theorem channel_requests s evs : in_progress s = ∅ → NoDup (requests evs) →
  let final := run' s evs in
  answered final.2 ++ open_requests final.1 ≡ₚ requests evs ∧
  (∀ rid, Answered rid send_ok ∈ final.2 →
     ∃ m now, Handed rid m ∈ final.2 ∧ Sent rid now (Ok tt) ∈ evs) ∧
  ∀ rid m, Handed rid m ∈ final.2 →
    ∃ evs1 ev evs2, evs = (evs1 ++ ev :: evs2)%list ∧ asks_to_send (adapters (run' s evs1).1) ev rid m.
Proof.
  intros Hs Hnd final. split; [by apply run_accounts|]. split; intros; [by apply run_sent|by apply run_hands_over].
Qed.
End Runs.

(** ** Two requests at a time *)

Definition example_body (text : string) : json :=
  Obj [("channel", Str "telegram"); ("userId", Str "tg:1"); ("text", Str text)].
Definition example_parse (t : string) : result json := Ok (example_body t).
Definition example_server : server := new_server [("telegram", true); ("gmail", false)] false 0.
Definition example_requests : list event :=
  [Request 1 5 "POST" "/send" (Ok ["hi"]); Request 2 6 "POST" "/send" (Ok ["a"; "b"]);
   Request 3 7 "POST" "/gws" (Ok ["x"]); Sent 2 8 (Err "Too Many Requests"); Connection "telegram" false;
   Request 4 9 "POST" "/send" (Ok ["late"]); Sent 1 10 (Ok tt)].

Lemma channel_requests_witness :
  let final := run example_parse (λ _, S754_nan) (λ _, "") example_server example_requests in
  answered final.2 = [3; 2; 4; 1] ∧ Answered 1 send_ok ∈ final.2 ∧
  map_get (errorCounts final.1) "telegram" = Some 1 ∧
  answered final.2 ++ open_requests final.1 ≡ₚ requests example_requests.
Proof.
  intros final. split; [vm_compute; reflexivity|]. split; [vm_compute; set_solver|].
  split; [vm_compute; reflexivity|].
  apply (channel_requests example_parse (λ _, S754_nan) (λ _, "") example_server example_requests).
  - reflexivity.
  - apply (bool_decide_unpack _). exact I.
Defined.

Definition example_args : list string := ["gmail"; "+send"; "--body"; "it's 5 o'clock"; "--subject"; "say " ++ dq ++ "hi" ++ dq].

Lemma args_readback_witness :
  Forall quotable example_args ∧ parseCommandArgs (command_line example_args) = example_args.
Proof.
  assert (H : Forall quotable example_args).
  { repeat (apply Forall_cons; split; [split; [discriminate|]|]); [..|apply Forall_nil; exact I];
      [left|left|left|left|left|right]; apply (bool_decide_unpack _); exact I. }
  split; [exact H|]. apply (args_readback _ H).
Defined.

(** * The orchestrator's client of the channel container

    [src/channels/channel-client.ts], and the path of a message from it through the
    server of [ChannelServer.v] to an adapter.  A request may fail before there is a
    response; the texts of the requests and responses are those of [JSON.stringify]. *)

Local Open Scope list_scope.
Local Open Scope string_scope.

Record ChannelClient := Client { baseUrl : string; client_timeout : Z }.

(** The constructor, with the defaults of its options. *)
Definition new_client (url : string) (timeout : option Z) : ChannelClient :=
  Client (if ends_with "/" url then String.substring 0 (String.length url - 1) url else url) (default 10000%Z timeout).

(** A request as [fetch] takes it, with the time after which it is given up. *)
Record http_request := HttpRequest {
  hr_method : string;
  hr_url : string;
  hr_body : option json;
  hr_timeout : Z }.

(** What [fetch] gives: an error, or a status and what [response.json()] gives. *)
Record http_response := HttpResponse { hs_status : Z; hs_json : result json }.
Definition fetched : Type := result http_response.

(** What becomes of a request: the head of a response and the rest of it, each at its time;
    an error of the connection; or nothing. *)
Inductive network :=
| Answers (head last : Z) (r : http_response)
| Fails (at_ : Z) (msg : string)
| Silent.

Definition aborted : string := "The operation was aborted due to timeout".

(** [AbortSignal.timeout]: a request made at [t0] is given up after its time, also between
    the head of the response and its end. *)
Definition perform (q : http_request) (t0 : Z) (n : network) : fetched :=
  let deadline := (t0 + hr_timeout q)%Z in
  match n with
  | Answers head last r =>
      if (head <? deadline)%Z
      then Ok (HttpResponse (hs_status r) (if (last <? deadline)%Z then hs_json r else Err aborted))
      else Err aborted
  | Fails t msg => if (t <? deadline)%Z then Err msg else Err aborted
  | Silent => Err aborted
  end.

Definition ok_status (r : http_response) : bool := (200 <=? hs_status r)%Z && (hs_status r <? 300)%Z.

Section Client.
Context (show : spec_float → string).

Definition send_body (channel userId text : string) (replyToMessageId : option string) : json :=
  Obj (app [("channel", Str channel); ("userId", Str userId); ("text", Str text)]
         (opt_member "replyToMessageId" Str replyToMessageId)).

Definition send_request (c : ChannelClient) (channel userId text : string) (reply : option string) : http_request :=
  HttpRequest "POST" (baseUrl c ++ "/send") (Some (send_body channel userId text reply)) (client_timeout c).

Definition gws_request (c : ChannelClient) (command : string) (timeout : option Z) : http_request :=
  HttpRequest "POST" (baseUrl c ++ "/gws") (Some (Obj (("command", Str command) :: opt_member "timeout" int timeout)))
    (Z.min (default 30000 timeout) 60000 + 5000)%Z.

(** [throw new Error(`what (status): ${error.error}`)] *)
Definition failed_status (what : string) (r : http_response) : string :=
  let error := match hs_json r with Ok v => v | Err _ => Obj [("error", Str "Unknown error")] end in
  match error with
  | Null => "Cannot read properties of null (reading 'error')"
  | _ => match template show (prop error "error") with
         | Some t => what ++ " (" ++ pretty (hs_status r) ++ "): " ++ t
         | None => "Cannot convert object to primitive value"
         end
  end.

Definition with_response {A} (f : fetched) (failed : http_response → string) (value : json → A) : result A :=
  match f with
  | Err e => Err e
  | Ok r => if ok_status r then match hs_json r with Ok v => Ok (value v) | Err e => Err e end else Err (failed r)
  end.

Definition client_send (c : ChannelClient) (channel userId text : string) (reply : option string) (t0 : Z) (n : network) :
    result unit :=
  with_response (perform (send_request c channel userId text reply) t0 n) (failed_status "Channel send failed") (λ _, tt).

Definition client_gws (c : ChannelClient) (command : string) (timeout : option Z) (t0 : Z) (n : network) : result json :=
  with_response (perform (gws_request c command timeout) t0 n) (failed_status "gws command failed") (λ v, v).

Definition health_request (c : ChannelClient) : http_request := HttpRequest "GET" (baseUrl c ++ "/healthz") None 5000.
Definition health (c : ChannelClient) (t0 : Z) (n : network) : result json :=
  with_response (perform (health_request c) t0 n) (λ r, "Channel health check failed: " ++ pretty (hs_status r)) (λ v, v).

Definition status_request (c : ChannelClient) : http_request := HttpRequest "GET" (baseUrl c ++ "/status") None 5000.
Definition client_status (c : ChannelClient) (t0 : Z) (n : network) : result json :=
  with_response (perform (status_request c) t0 n) (λ r, "Channel status check failed: " ++ pretty (hs_status r)) (λ v, v).

Definition isReachable (c : ChannelClient) (t0 : Z) (n : network) : bool := is_ok (health c t0 n).

(** ** From the client to the adapter *)

Context (parse_json : string → result json) (to_number : json → spec_float).

(** What [JSON.parse] makes of the text of a value. *)
Definition reads_back (v : json) : Prop := parse_json (stringify show v) = Ok v.

(** The server's response, as it goes over the network. *)
Definition on_the_wire (r : response) : http_response :=
  HttpResponse (ChannelServer.status r) (parse_json (stringify show (answer r))).

Lemma read_chunks_concat size acc l : (size + list_sum (map String.length l) ≤ MAX_BODY)%nat →
  read_chunks size acc l = Ok (acc ++ String.concat "" l).
Proof.
  revert size acc. induction l as [|c l IH]; intros size acc Hl; simpl in Hl |- *; [by rewrite string_app_nil_r|].
  destruct (MAX_BODY <? size + String.length c)%nat eqn:E; bool_cases; [lia|]. rewrite IH by lia.
  f_equal. rewrite string_app_assoc. f_equal. by destruct l; simpl; rewrite ?string_app_nil_r.
Qed.

Abbreviation step' := (step parse_json to_number show).

Definition asked (channel userId text : string) (reply : option string) : SendRequest :=
  Send channel (Str userId) (Str text) (Str <$> reply).

Lemma body_members channel userId text reply :
  prop (send_body channel userId text reply) "channel" = Some (Str channel) ∧
  prop (send_body channel userId text reply) "userId" = Some (Str userId) ∧
  prop (send_body channel userId text reply) "text" = Some (Str text) ∧
  prop (send_body channel userId text reply) "replyToMessageId" = Str <$> reply.
Proof. by destruct reply. Qed.

Lemma request_reaches_adapter s rid now channel userId text reply chunks :
  let body := send_body channel userId text reply in
  String.concat "" chunks = stringify show body → (list_sum (map String.length chunks) ≤ MAX_BODY)%nat →
  reads_back body → channel ≠ "" → userId ≠ "" → text ≠ "" → map_get (adapters s) channel = Some true →
  step' s (Request rid now "POST" "/send" (Ok chunks)) =
    (put_progress (<[rid := Sending (asked channel userId text reply)]> (in_progress s)) s,
     [Handed rid (asked channel userId text reply)]).
Proof.
  intros body Hc Hl Hb Hch Hu Ht Ha. destruct (body_members channel userId text reply) as (E1 & E2 & E3 & E4).
  fold body in E1, E2, E3, E4. cbn [step]. unfold handleRequest. simpl (bool_decide _ && _). cbn iota.
  assert (Hp : parsed_body parse_json (Ok chunks) "channel" = Ok body).
  { unfold parsed_body, readBody. rewrite read_chunks_concat by done. change ("" ++ ?x) with x. by rewrite Hc, Hb. }
  assert (Htr : ∀ t, t ≠ "" → str_truthy t = true) by (by intros []).
  unfold handleSend. rewrite Hp, E1, E2, E3. simpl. rewrite !Htr by done. simpl. rewrite Ha. unfold asked. by destruct reply.
Qed.

(** C21: a message with a user and a text, whose request is at most a megabyte, for a
    connected channel, reaches the channel's adapter as it is, however its request is cut
    into chunks. When the whole response comes before the client's time is up (ten seconds
    by default), the client reports success if the adapter did, and the adapter's error
    otherwise; when it comes later, breaks off or does not come, the client reports a
    failure, whatever the adapter did, so that a success of the client is always one of the
    adapter. *)
Theorem client_to_adapter c t0 s rid now now' channel userId text reply chunks r :
  let body := send_body channel userId text reply in
  let s1 := (step' s (Request rid now "POST" "/send" (Ok chunks))).1 in
  let out := (step' s1 (Sent rid now' r)).2 in
  let client n := client_send c channel userId text reply t0 n in
  String.concat "" chunks = stringify show body → (list_sum (map String.length chunks) ≤ 1048576)%nat →
  reads_back body → channel ≠ "" → userId ≠ "" → text ≠ "" → map_get (adapters s) channel = Some true →
  reads_back (answer send_ok) → (∀ msg, r = Err msg → reads_back (answer (sendError 502 "SEND_FAILED" msg))) →
  (step' s (Request rid now "POST" "/send" (Ok chunks))).2 =
    [Handed rid (Send channel (Str userId) (Str text) (Str <$> reply))] ∧
  ∃ resp, out = [Answered rid resp] ∧
    (∀ head last, (head ≤ last < t0 + client_timeout c)%Z →
       client (Answers head last (on_the_wire resp)) =
         match r with Ok _ => Ok tt | Err msg => Err ("Channel send failed (502): " ++ msg) end) ∧
    (∀ head last, (t0 + client_timeout c ≤ last)%Z → ∃ e, client (Answers head last (on_the_wire resp)) = Err e) ∧
    (∀ t msg, ∃ e, client (Fails t msg) = Err e) ∧ ∃ e, client Silent = Err e.
Proof.
  intros body s1 out client Hc Hl Hb Hch Hu Ht Ha Hok Herr. unfold out, s1.
  rewrite (request_reaches_adapter s rid now channel userId text reply chunks) by done. split; [done|].
  cbn [fst step in_progress put_progress]. rewrite lookup_insert_eq.
  assert (Hw : ∃ resp, (let '(s', resp) := send_done (put_progress (<[rid:=Sending (asked channel userId text reply)]> (in_progress s)) s)
      now' (asked channel userId text reply) r in finish s' rid resp).2 = [Answered rid resp] ∧
    with_response (Ok (on_the_wire resp)) (failed_status "Channel send failed") (λ _, tt) =
      match r with Ok _ => Ok tt | Err msg => Err ("Channel send failed (502): " ++ msg) end ∧
    with_response (Ok (HttpResponse (ChannelServer.status resp) (Err aborted))) (failed_status "Channel send failed") (λ _, tt) =
      Err (match r with Ok _ => aborted | Err _ => "Channel send failed (502): Unknown error" end)).
  { destruct r as [[]|msg]; simpl.
    - exists send_ok. split; [done|]. unfold on_the_wire, with_response. simpl. unfold reads_back in Hok.
      simpl in Hok. by rewrite Hok.
    - exists (sendError 502 "SEND_FAILED" msg). split; [done|]. unfold on_the_wire, with_response. simpl.
      specialize (Herr msg eq_refl). unfold reads_back in Herr. simpl in Herr. unfold failed_status. cbn [hs_json hs_status].
      by rewrite Herr. }
  destruct Hw as (resp & Eo & Ein & Elate). exists resp. split; [exact Eo|].
  unfold client, client_send, perform. cbn [hr_timeout send_request]. split; [|split; [|split]].
  - intros head last [Hh Hlast]. rewrite (proj2 (Z.ltb_lt head _)), (proj2 (Z.ltb_lt last _)) by lia. exact Ein.
  - intros head last Hlast. rewrite (proj2 (Z.ltb_ge last _)) by lia.
    destruct (head <? _)%Z; [eexists; exact Elate|by eexists].
  - intros t msg. destruct (t <? _)%Z; by eexists.
  - by eexists.
Qed.
End Client.

(** ** One message *)

(** A parser of the two texts that occur. *)
Definition plain (f : spec_float) : string := "0".
Definition example_message : json := send_body "telegram" "tg:1" "it's done" (Some "7").
Definition example_failure : json := answer (sendError 502 "SEND_FAILED" "Forbidden").
Definition two_texts (t : string) : result json :=
  match List.find (λ v, bool_decide (stringify plain v = t)) [example_message; answer send_ok; example_failure] with
  | Some v => Ok v
  | None => Err "Unexpected token"
  end.

Definition cut (t : string) : list string := [String.substring 0 11 t; String.substring 11 (String.length t) t].

Lemma client_to_adapter_witness :
  let chunks := cut (stringify plain example_message) in
  let s1 := (step two_texts (λ _, S754_nan) plain example_server (Request 1 5 "POST" "/send" (Ok chunks))).1 in
  ∃ resp, (step two_texts (λ _, S754_nan) plain s1 (Sent 1 9 (Err "Forbidden"))).2 = [Answered 1 resp] ∧
    client_send plain (Client "http://c" 10000) "telegram" "tg:1" "it's done" (Some "7") 5
      (Answers 9 10 (on_the_wire plain two_texts resp)) = Err "Channel send failed (502): Forbidden".
Proof.
  intros chunks s1.
  destruct (client_to_adapter plain two_texts (λ _, S754_nan) (Client "http://c" 10000) 5 example_server 1 5 9 "telegram" "tg:1"
    "it's done" (Some "7") chunks (Err "Forbidden")) as (_ & resp & E & H & _).
  - vm_compute. reflexivity.
  - apply Nat.leb_le. vm_compute. reflexivity.
  - vm_compute. reflexivity.
  - discriminate.
  - discriminate.
  - discriminate.
  - reflexivity.
  - vm_compute. reflexivity.
  - intros msg [= <-]. vm_compute. reflexivity.
  - exists resp. split; [exact E|]. apply H. cbn [client_timeout]. lia.
Defined.
