(* ===== verification/CostLog.v ===== *)
(** * The cost log of the proxy

    [src/proxy/cost-log.ts]: the usage that a response of the Anthropic API reports, whole
    or as a stream of server-sent events, and the file to which the proxy appends it, one
    JSON object per line.  The file system answers each call with success or an error.

    [JSON.parse] gives an object for a text that begins with a brace, or throws. *)

From Stdlib Require Import Ascii.
From S2P Require Import Prelude JsMap JsString JsNumber Identity Json.
Local Open Scope list_scope.
Local Open Scope string_scope.

Record CostEntry := Cost {
  ts : string;
  credential : string;
  model : string;
  inputTokens : spec_float;
  outputTokens : spec_float;
  cacheCreationInputTokens : option spec_float;
  cacheReadInputTokens : option spec_float }.

Definition cost_json (e : CostEntry) : json :=
  Obj (app [("ts", Str (ts e)); ("credential", Str (credential e)); ("model", Str (model e));
            ("inputTokens", Num (inputTokens e)); ("outputTokens", Num (outputTokens e))]
         (app (opt_member "cacheCreationInputTokens" Num (cacheCreationInputTokens e))
            (opt_member "cacheReadInputTokens" Num (cacheReadInputTokens e)))).

(** ** Reading the usage *)

(** [typeof v[key] === 'number'], and likewise for texts. *)
Definition number_at (v : option json) (key : string) : option spec_float :=
  match v with Some v => match prop v key with Some (Num f) => Some f | _ => None end | None => None end.

Definition string_at (v : json) (key : string) : option string :=
  match prop v key with Some (Str s) => Some s | _ => None end.

(** What either format has collected. *)
Record usage := Usage {
  u_input : spec_float;
  u_output : spec_float;
  u_creation : option spec_float;
  u_read : option spec_float;
  u_model : string }.

Definition no_usage : usage := Usage (double 0) (double 0) None None "unknown".

(** Nothing is logged for a response that cost nothing. *)
Definition entry_of (now credentialName : string) (u : usage) : option CostEntry :=
  if is_zero (u_input u) && is_zero (u_output u) && negb (truthy (Num <$> u_creation u)) && negb (truthy (Num <$> u_read u))
  then None
  else Some (Cost now credentialName (u_model u) (u_input u) (u_output u) (u_creation u) (u_read u)).

Section Parse.
Context (parse_json : string → result json).

Definition begins_with_brace (s : string) : bool := starts_with "{" (trim_start s).

Definition json_usage (obj : json) : option usage :=
  let usage := prop obj "usage" in
  if truthy usage then
    Some (Usage (default (double 0) (number_at usage "input_tokens")) (default (double 0) (number_at usage "output_tokens"))
            (number_at usage "cache_creation_input_tokens") (number_at usage "cache_read_input_tokens")
            (default "unknown" (string_at obj "model")))
  else None.

Definition parseJsonUsage (now body credentialName : string) : option CostEntry :=
  match parse_json body with
  | Ok obj => u ← json_usage obj; entry_of now credentialName u
  | Err _ => None
  end.

Definition or_else {A} (o : option A) (d : option A) : option A := match o with Some _ => o | None => d end.

Definition sse_event (u : usage) (event : json) : usage :=
  let type := string_at event "type" in
  let u :=
    if bool_decide (type = Some "message_start") then
      match prop event "message" with
      | Some message =>
          if truthy (Some message) then
            let started := prop message "usage" in
            let started := if truthy started then started else None in
            Usage (default (u_input u) (number_at started "input_tokens")) (u_output u)
              (or_else (number_at started "cache_creation_input_tokens") (u_creation u))
              (or_else (number_at started "cache_read_input_tokens") (u_read u))
              (default (u_model u) (string_at message "model"))
          else u
      | None => u
      end
    else u in
  if bool_decide (type = Some "message_delta") then
    let delta := prop event "usage" in
    if truthy delta then
      Usage (u_input u) (default (u_output u) (number_at delta "output_tokens")) (u_creation u) (u_read u) (u_model u)
    else u
  else u.

Definition sse_line (u : usage) (line : string) : usage :=
  if starts_with "data: " line then
    let jsonStr := str_drop 6 line in
    if begins_with_brace jsonStr then
      match parse_json jsonStr with Ok event => sse_event u event | Err _ => u end
    else u
  else u.

Definition parseSseUsage (now body credentialName : string) : option CostEntry :=
  entry_of now credentialName (foldl sse_line no_usage (str_split "010"%char body)).

Definition parseAnthropicUsage (now body credentialName : string) : option CostEntry :=
  if begins_with_brace body then parseJsonUsage now body credentialName else parseSseUsage now body credentialName.

(** ** The file *)

Record cost_log := CostLog { initialized : bool; log_text : string }.

Context (show : spec_float → string).

Definition cost_line (e : CostEntry) : string := stringify show (cost_json e).

(** A call of [log], with what creating the directory and appending give.  The first is
    not within the [try]. *)
Definition log (s : cost_log) (e : CostEntry) (made appended : result unit) : cost_log * result unit :=
  let write s :=
    match appended with
    | Ok _ => CostLog (initialized s) (log_text s ++ cost_line e ++ newline)
    | Err _ => s
    end in
  if initialized s then (write s, Ok tt)
  else match made with
       | Ok _ => (write (CostLog true (log_text s)), Ok tt)
       | Err msg => (s, Err msg)
       end.

(** ** A stream and the response that it makes up *)

Definition sse_lines (ev : string * json) : list string := ["event: " ++ ev.1; "data: " ++ stringify show ev.2; ""].

Definition sse_text (evs : list (string * json)) : string := String.concat newline (app (mjoin (map sse_lines evs)) [""]).

Definition reads_back (v : json) : Prop := parse_json (stringify show v) = Ok v.

Definition is_object (v : json) : bool := match v with Obj _ => true | _ => false end.

Lemma stringify_object v : is_object v = true → begins_with_brace (stringify show v) = true.
Proof.
  destruct v; try done. intros _. cbn [stringify]. apply prefix_app.
  exists (String.concat "," (map (λ f, quote f.1 ++ ":" ++ stringify show f.2) fields) ++ "}"). reflexivity.
Qed.

Lemma sse_data u v : is_object v = true → reads_back v → sse_line u ("data: " ++ stringify show v) = sse_event u v.
Proof.
  intros Ho Hr. unfold sse_line. rewrite (proj2 (prefix_app "data: " _)) by (by eexists).
  change (str_drop 6 ("data: " ++ stringify show v)) with (stringify show v). cbn zeta.
  by rewrite stringify_object, Hr.
Qed.

Context `{!NumberText show}.

Lemma sse_text_split evs : Forall (λ ev, lacks "010"%char ev.1) evs →
  str_split "010"%char (sse_text evs) = app (mjoin (map sse_lines evs)) [""].
Proof.
  intros Hev. assert (Hl : Forall (lacks "010"%char) (app (mjoin (map sse_lines evs)) [""])).
  { apply Forall_app. split; [|apply Forall_singleton, lacks_nil].
    induction Hev as [|ev evs Ht _ IH]; [apply Forall_nil_2|]. simpl.
    repeat (apply Forall_cons; split); [| |apply lacks_nil|exact IH].
    - apply lacks_app. split; [by apply (bool_decide_unpack _)|done].
    - apply lacks_app. split; [by apply (bool_decide_unpack _)|by apply stringify_one_line]. }
  unfold sse_text. destruct (app _ _) as [|x p] eqn:E; [by destruct (mjoin _)|]. by apply str_split_concat.
Qed.

Lemma sse_text_fold u evs : Forall (λ ev, lacks "010"%char ev.1) evs → Forall (λ ev, is_object ev.2 = true ∧ reads_back ev.2) evs →
  foldl sse_line u (str_split "010"%char (sse_text evs)) = foldl sse_event u (map snd evs).
Proof.
  intros Ht Hv. rewrite sse_text_split, foldl_app by done. change (foldl sse_line ?x [""]) with x.
  clear Ht. revert u. induction Hv as [|ev evs [Ho Hr] _ IH]; intros u; [done|].
  change (mjoin (map sse_lines (ev :: evs))) with (app (sse_lines ev) (mjoin (map sse_lines evs))).
  change (map snd (ev :: evs)) with (ev.2 :: map snd evs). rewrite foldl_app. change (foldl sse_line u (sse_lines ev)) with (sse_line u ("data: " ++ stringify show ev.2)).
  by rewrite sse_data.
Qed.

(** The usage of a response: what its whole body says, and what the first and the last
    events of its stream say. *)
Definition input_usage (u : usage) : list (string * json) :=
  app [("input_tokens", Num (u_input u))]
    (app (opt_member "cache_creation_input_tokens" Num (u_creation u))
       (opt_member "cache_read_input_tokens" Num (u_read u))).

Definition output_usage (u : usage) : list (string * json) := [("output_tokens", Num (u_output u))].

Definition response_body (u : usage) : json :=
  Obj [("type", Str "message"); ("model", Str (u_model u)); ("usage", Obj (app (input_usage u) (output_usage u)))].

Definition start_event (u : usage) : json :=
  Obj [("type", Str "message_start");
       ("message", Obj [("model", Str (u_model u)); ("usage", Obj (input_usage u))])].

Definition delta_event (u : usage) : json :=
  Obj [("type", Str "message_delta"); ("usage", Obj (output_usage u))].

Definition stream (u : usage) (others : list (string * json)) : list (string * json) :=
  ("message_start", start_event u) :: app others [("message_delta", delta_event u)].

(** Another event of a stream, which reports no usage. *)
Definition other_event (ev : string * json) : Prop :=
  lacks "010"%char ev.1 ∧ is_object ev.2 = true ∧ reads_back ev.2 ∧
  string_at ev.2 "type" ≠ Some "message_start" ∧ string_at ev.2 "type" ≠ Some "message_delta".

Lemma other_event_skip u ev : other_event ev → sse_event u ev.2 = u.
Proof.
  intros (_ & _ & _ & H1 & H2). unfold sse_event. cbn zeta. by rewrite !bool_decide_eq_false_2.
Qed.

Lemma start_usage u : sse_event no_usage (start_event u) = Usage (u_input u) (double 0) (u_creation u) (u_read u) (u_model u).
Proof. by destruct u as [i o [c|] [r|] m]. Qed.

Lemma delta_usage u v : sse_event v (delta_event u) = Usage (u_input v) (u_output u) (u_creation v) (u_read v) (u_model v).
Proof. done. Qed.

Lemma whole_usage u : json_usage (response_body u) = Some u.
Proof. by destruct u as [i o [c|] [r|] m]. Qed.

(** The stream of a response, whatever other events are in it, is charged as the whole
    response would be. *)
Theorem streamed_like_whole now credentialName u others :
  Forall other_event others → reads_back (start_event u) → reads_back (delta_event u) → reads_back (response_body u) →
  parseAnthropicUsage now (sse_text (stream u others)) credentialName =
    parseAnthropicUsage now (stringify show (response_body u)) credentialName.
Proof.
  intros Ho Hs Hd Hw. unfold parseAnthropicUsage. rewrite (stringify_object (response_body u)) by done.
  assert (Hb : begins_with_brace (sse_text (stream u others)) = false).
  { apply not_true_iff_false. unfold begins_with_brace. intros (r & E)%prefix_app. discriminate E. }
  rewrite Hb. unfold parseJsonUsage, parseSseUsage. rewrite Hw, whole_usage. cbn [mbind option_bind].
  rewrite sse_text_fold.
  - unfold stream. cbn [map foldl snd]. rewrite map_app, foldl_app, start_usage.
    assert (Hskip : ∀ v, foldl sse_event v (map snd others) = v).
    { clear -Ho. induction Ho as [|ev others He _ IH]; intros v; [done|]. simpl. by rewrite other_event_skip. }
    rewrite Hskip. cbn [map foldl snd]. rewrite delta_usage. by destruct u.
  - unfold stream. apply Forall_cons. split; [by apply (bool_decide_unpack _)|]. apply Forall_app.
    split; [eapply Forall_impl; [exact Ho|]; by intros ev [? _]|].
    apply Forall_singleton. by apply (bool_decide_unpack _).
  - unfold stream. apply Forall_cons. split; [done|]. apply Forall_app.
    split; [eapply Forall_impl; [exact Ho|]; by intros ev (_ & ? & ? & _)|]. by apply Forall_singleton.
Qed.

(** ** The lines of the file *)

Record log_call := LogCall { lc_entry : CostEntry; lc_made : result unit; lc_appended : result unit }.

(** Calls in turn: the entries that were written, and the errors thrown to the caller. *)
Fixpoint log_run (s : cost_log) (calls : list log_call) : cost_log * list CostEntry * list string :=
  match calls with
  | [] => (s, [], [])
  | c :: calls =>
      let '(s1, r) := log s (lc_entry c) (lc_made c) (lc_appended c) in
      let '(s2, l, es) := log_run s1 calls in
      (s2, app (if is_ok r && is_ok (lc_appended c) then [lc_entry c] else []) l,
       match r with Ok _ => es | Err e => e :: es end)
  end.

Lemma log_text_run s calls : let '(s', l, _) := log_run s calls in
  log_text s' = log_text s ++ String.concat "" (map (λ e, cost_line e ++ newline) l).
Proof.
  revert s. induction calls as [|c calls IH]; intros s; simpl; [by rewrite string_app_nil_r|].
  assert (Hl : log_text (log s (lc_entry c) (lc_made c) (lc_appended c)).1 = log_text s ++
    (if is_ok (log s (lc_entry c) (lc_made c) (lc_appended c)).2 && is_ok (lc_appended c)
     then cost_line (lc_entry c) ++ newline else "")).
  { unfold log. destruct (initialized s), (lc_made c), (lc_appended c); simpl; by rewrite ?string_app_nil_r. }
  destruct (log s (lc_entry c) (lc_made c) (lc_appended c)) as [s1 r]. specialize (IH s1).
  destruct (log_run s1 calls) as [[s2 l] es]. rewrite IH. simpl in Hl. rewrite Hl.
  destruct (is_ok r && is_ok (lc_appended c)); simpl; [|by rewrite string_app_nil_r].
  rewrite string_app_assoc. f_equal. by destruct l; simpl; rewrite ?string_app_nil_r, ?string_app_assoc.
Qed.

Lemma split_lines_written l : str_split "010"%char (String.concat "" (map (λ e, cost_line e ++ newline) l)) = app (map cost_line l) [""].
Proof.
  induction l as [|e l IH]; [done|].
  assert (E : String.concat "" (map (λ e, cost_line e ++ newline) (e :: l)) =
    cost_line e ++ String "010" (String.concat "" (map (λ e, cost_line e ++ newline) l))).
  { destruct l; simpl; rewrite ?string_app_nil_r; [done|]. by rewrite string_app_assoc. }
  rewrite E. unfold str_split. rewrite str_split_aux_app by (by apply stringify_one_line). simpl. f_equal. apply IH.
Qed.

(** One step of a run. *)
Lemma log_run_cons s c calls : log_run s (c :: calls) =
  let '(s1, r) := log s (lc_entry c) (lc_made c) (lc_appended c) in
  let '(s2, l, es) := log_run s1 calls in
  (s2, app (if is_ok r && is_ok (lc_appended c) then [lc_entry c] else []) l, match r with Ok _ => es | Err e => e :: es end).
Proof. done. Qed.

Lemma log_ok s e made appended : is_ok made = true → (log s e made appended).2 = Ok tt.
Proof. unfold log. by destruct (initialized s), made. Qed.

Lemma log_run_entries s calls e : e ∈ (log_run s calls).1.2 → ∃ c, c ∈ calls ∧ lc_entry c = e.
Proof.
  revert s. induction calls as [|c calls IH]; intros s; [by intros ?%elem_of_nil|]. rewrite log_run_cons.
  destruct (log s _ _ _) as [s1 r]. specialize (IH s1). destruct (log_run s1 calls) as [[s2 l] es]. simpl in *.
  intros [H|H]%elem_of_app; [|destruct (IH H) as (c' & ? & ?); exists c'; split; [by right|done]].
  destruct (is_ok r && _); [|by apply elem_of_nil in H]. apply list_elem_of_singleton in H as ->.
  exists c. split; [by left|done].
Qed.

Lemma log_run_thrown s calls : (log_run s calls).2 ≠ [] → ∃ c, c ∈ calls ∧ is_ok (lc_made c) = false.
Proof.
  revert s. induction calls as [|c calls IH]; intros s; [done|]. rewrite log_run_cons.
  pose proof (log_ok s (lc_entry c) (lc_made c) (lc_appended c)) as Hok.
  destruct (is_ok (lc_made c)) eqn:Em; [|intros _; exists c; split; [by left|done]].
  destruct (log s _ _ _) as [s1 r]. simpl in Hok. rewrite (Hok eq_refl). specialize (IH s1).
  destruct (log_run s1 calls) as [[s2 l] es]. simpl in *. intros Hes. destruct (IH Hes) as (c' & ? & ?).
  exists c'. split; [by right|done].
Qed.

Definition all_succeed (calls : list log_call) : Prop :=
  Forall (λ c, is_ok (lc_made c) = true ∧ is_ok (lc_appended c) = true) calls.

Lemma log_run_all s calls : all_succeed calls →
  (log_run s calls).1.2 = map lc_entry calls ∧ (log_run s calls).2 = [].
Proof.
  intros H. revert s. induction H as [|c calls [Hm Ha] _ IH]; intros s; [done|]. rewrite log_run_cons.
  pose proof (log_ok s (lc_entry c) (lc_made c) (lc_appended c) Hm) as Hok.
  destruct (log s _ _ _) as [s1 r]. simpl in Hok. rewrite Hok. specialize (IH s1).
  destruct (log_run s1 calls) as [[s2 l] es]. simpl in *. destruct IH as [-> ->]. by rewrite Ha.
Qed.

(** The lines of a new file are the entries that were written, each on one line whatever
    texts it has in it, so reading the lines gives the entries; a call throws only when
    the directory cannot be created; and nothing is lost while no call of the file system
    fails. *)
Theorem costs_framed calls :
  Forall (λ c, reads_back (cost_json (lc_entry c))) calls →
  let '(s, l, thrown) := log_run (CostLog false "") calls in
  (∃ lines, str_split "010"%char (log_text s) = app lines [""] ∧ map parse_json lines = map (λ e, Ok (cost_json e)) l) ∧
  (thrown ≠ [] → ∃ c, c ∈ calls ∧ is_ok (lc_made c) = false) ∧
  (all_succeed calls → l = map lc_entry calls ∧ thrown = []).
Proof.
  intros Hr. pose proof (log_text_run (CostLog false "") calls) as Ht.
  pose proof (log_run_entries (CostLog false "") calls) as Hl.
  pose proof (log_run_thrown (CostLog false "") calls) as He. pose proof (log_run_all (CostLog false "") calls) as Hall.
  destruct (log_run _ calls) as [[s l] thrown]. simpl in *. split; [|by split]. rewrite Ht.
  change ("" ++ ?x) with x. exists (map cost_line l). split; [apply split_lines_written|]. rewrite map_map.
  apply map_ext_in. intros e He'%list_elem_of_In. destruct (Hl e He') as (c & Hc & <-). rewrite Forall_forall in Hr.
  by apply Hr.
Qed.
End Parse.

(** ** Examples *)

Definition digit_text (f : spec_float) : string := if is_zero f then "0" else "7".

Lemma digit_text_one_line : NumberText digit_text.
Proof. intros f. unfold digit_text. by destruct (is_zero f); apply (bool_decide_unpack _). Qed.

(** A parser of the given values. *)
Definition parser_of (l : list json) (t : string) : result json :=
  match List.find (λ v, bool_decide (stringify digit_text v = t)) l with Some v => Ok v | None => Err "Unexpected token" end.

Definition example_usage : usage := Usage (double 7) (double 7) None (Some (double 7)) "claude".
Definition ping : json := Obj [("type", Str "ping")].

Lemma streamed_like_whole_witness :
  let parse := parser_of [start_event example_usage; ping; delta_event example_usage; response_body example_usage] in
  let text := sse_text digit_text (stream example_usage [("ping", ping)]) in
  parseAnthropicUsage parse "t" text "key" = Some (Cost "t" "key" "claude" (double 7) (double 7) None (Some (double 7))) ∧
  parseAnthropicUsage parse "t" text "key" =
    parseAnthropicUsage parse "t" (stringify digit_text (response_body example_usage)) "key".
Proof.
  intros parse text. split; [vm_compute; reflexivity|].
  apply (streamed_like_whole parse digit_text (NumberText0 := digit_text_one_line)).
  - apply Forall_singleton. split; [apply (bool_decide_unpack _); exact I|].
    split; [reflexivity|]. split; [vm_compute; reflexivity|]. split; vm_compute; discriminate.
  - vm_compute. reflexivity.
  - vm_compute. reflexivity.
  - vm_compute. reflexivity.
Defined.

Definition example_cost (m : string) : CostEntry := Cost "t" "key" m (double 7) (double 0) None None.
Definition failing : result unit := Err "ENOSPC".

(** A disk that is full for the second entry. *)
Lemma costs_framed_witness :
  let parse := parser_of [cost_json (example_cost "a"); cost_json (example_cost ("b" ++ newline)); cost_json (example_cost "c")] in
  let calls := [LogCall (example_cost ("b" ++ newline)) (Ok tt) (Ok tt); LogCall (example_cost "a") failing failing;
                LogCall (example_cost "c") failing (Ok tt)] in
  (log_run digit_text (CostLog false "") calls).1.2 = [example_cost ("b" ++ newline); example_cost "c"] ∧
  ∃ lines, str_split "010"%char (log_text (log_run digit_text (CostLog false "") calls).1.1) = app lines [""] ∧
    map parse lines = [Ok (cost_json (example_cost ("b" ++ newline))); Ok (cost_json (example_cost "c"))].
Proof.
  intros parse calls. split; [vm_compute; reflexivity|].
  pose proof (costs_framed parse digit_text (NumberText0 := digit_text_one_line) calls) as H.
  destruct H as (H & _); [|exact H].
  repeat (apply Forall_cons; split; [vm_compute; reflexivity|]). apply Forall_nil_2.
Defined.

(** The directory that cannot be created makes [log] throw, although writing is meant to
    be best-effort. *)
Example log_throws : (log digit_text (CostLog false "") (example_cost "a") (Err "EACCES") (Ok tt)).2 = Err "EACCES".
Proof. reflexivity. Qed.
