(* ===== verification/McpTools.v ===== *)
(** * The tools the MCP server publishes

    [TOOL_DEFINITIONS] of [src/orchestrator/mcp-server.ts], a definition for each tool,
    with its JSON schema, and what it means that arguments conform to a schema. *)

From S2P Require Import Prelude JsMap JsString JsNumber Identity Json.
Local Open Scope list_scope.
Local Open Scope string_scope.

(** The type of a member (any when absent), its description, the admitted values and, of
    an array, the type of the items. *)
Record property_schema := Property {
  p_type : option string;
  p_description : string;
  p_enum : option (list string);
  p_items : option string }.

Record ToolDefinition := Tool {
  t_name : string;
  t_about : string;
  t_properties : list (string * property_schema);
  t_required : list string }.

(** ** Conformance *)

Definition has_type (type : string) (v : json) : bool :=
  match v with
  | Str _ => bool_decide (type = "string")
  | Num f => bool_decide (type = "number") && negb (not_a_number f)
  | Arr _ => bool_decide (type = "array")
  | Obj _ => bool_decide (type = "object")
  | Bool _ => bool_decide (type = "boolean")
  | Null => bool_decide (type = "null")
  end.

Definition admits (p : property_schema) (v : json) : bool :=
  match p_type p with Some t => has_type t v | None => true end &&
  match p_enum p with
  | Some l => match v with Str s => bool_decide (s ∈ l) | _ => false end
  | None => true
  end &&
  match p_items p, v with
  | Some t, Arr l => forallb (has_type t) l
  | _, _ => true
  end.

(** The arguments are an object with the required members, and the members that the
    schema speaks of are as it says. *)
Definition conforms (def : ToolDefinition) (args : json) : bool :=
  match args with
  | Obj _ =>
      forallb (λ k, match prop args k with Some _ => true | None => false end) (t_required def) &&
      forallb (λ p, match prop args p.1 with Some v => admits p.2 v | None => true end) (t_properties def)
  | _ => false
  end.

(** ** As JSON *)

Definition property_json (p : property_schema) : json :=
  Obj (opt_member "type" Str (p_type p) ++ [("description", Str (p_description p))] ++
       opt_member "enum" texts (p_enum p) ++ opt_member "items" (λ t, Obj [("type", Str t)]) (p_items p))%list.

Definition tool_json (d : ToolDefinition) : json :=
  Obj [("name", Str (t_name d)); ("description", Str (t_about d));
       ("inputSchema", Obj ([("type", Str "object");
                             ("properties", Obj (map (λ p, (p.1, property_json p.2)) (t_properties d)))] ++
                            match t_required d with [] => [] | l => [("required", texts l)] end)%list)].

(** ** The tools *)

Definition tool_search_semantic : ToolDefinition :=
  Tool "search_semantic"
    ("Search Tier 2 Semantic Memory (facts, preferences, patterns, contacts, instructions, " ++
      "summaries, procedures) by semantic similarity with composite scoring.")
    [("query", Property (Some "string") "Search query text" None None);
     ("type", Property (Some "string") "Filter by memory type" (Some 
       ["preference"; "fact"; "pattern"; "contact"; "instruction"; "summary"; "procedure"]) None);
     ("limit", Property (Some "number") "Max results (default 10, max 50)" None None)]
    ["query"].

Definition tool_search_external : ToolDefinition :=
  Tool "search_external"
    "Search External Memory (documents, user-provided references) by cosine similarity."
    [("query", Property (Some "string") "Search query text" None None);
     ("source", Property (Some "string") "Filter by source type" (Some ["document"; "user_provided"]) None);
     ("limit", Property (Some "number") "Max results (default 5, max 50)" None None)]
    ["query"].

Definition tool_recall_conversation : ToolDefinition :=
  Tool "recall_conversation"
    "Retrieve chronological message history from Working Memory (Tier 1)."
    [("chat_id", Property (Some "string") "Chat ID" None None);
     ("session_id", Property (Some "string") "Session ID" None None);
     ("limit", Property (Some "number") "Max messages (default 20, max 100)" None None)]
    [].

Definition tool_store_semantic : ToolDefinition :=
  Tool "store_semantic"
    ("Store a new Tier 2 Semantic Memory entry. Use to capture facts, preferences, or patterns " ++
      "mid-task.")
    [("content", Property (Some "string") "Memory content (max 2000 chars)" None None);
     ("type", Property (Some "string") "Memory type" (Some 
       ["preference"; "fact"; "pattern"; "contact"; "instruction"; "summary"; "procedure"]) None);
     ("importance", Property (Some "number") "Importance 0.0-1.0" None None)]
    ["content"; "type"].

Definition tool_get_memory_stats : ToolDefinition :=
  Tool "get_memory_stats"
    "Get aggregate counts across all memory tiers."
    []
    [].

Definition tool_expand_memory : ToolDefinition :=
  Tool "expand_memory"
    ("Drill into a summary entry. Depth-0 returns source messages, depth-1+ returns child " ++
      "summaries. LCM-inspired DAG traversal.")
    [("memory_id", Property (Some "string") "Summary entry ID to expand" None None)]
    ["memory_id"].

Definition tool_search_meta : ToolDefinition :=
  Tool "search_meta"
    ("Search Tier 3 Meta Memory (insights, heuristics, self-assessments) with confidence-weighted " ++
      "scoring. Supports depth filtering for recursive metacognitive DAG.")
    [("query", Property (Some "string") "Search query text" None None);
     ("type", Property (Some "string") "Filter by reflection type" (Some ["insight"; "heuristic"; "self_assessment"]) None);
     ("limit", Property (Some "number") "Max results (default 5, max 20)" None None);
     ("min_depth", Property (Some "number") "Minimum DAG depth (0=direct observation, 1=evaluation, 2+=synthesis)" None None);
     ("max_depth", Property (Some "number") "Maximum DAG depth" None None)]
    ["query"].

Definition tool_expand_meta : ToolDefinition :=
  Tool "expand_meta"
    ("Expand a Tier 3 meta memory entry. For depth>0 entries, returns the child meta entries that " ++
      "were condensed into it. For depth=0 entries, returns the source Tier 2 semantic memories.")
    [("meta_id", Property (Some "string") "Meta memory entry ID to expand" None None)]
    ["meta_id"].

Definition tool_trace_to_source : ToolDefinition :=
  Tool "trace_to_source"
    ("Trace a Tier 3 meta memory entry all the way down to its source Tier 2 semantic memories, " ++
      "recursively traversing the metacognitive DAG.")
    [("meta_id", Property (Some "string") "Meta memory entry ID to trace" None None)]
    ["meta_id"].

Definition tool_get_identity : ToolDefinition :=
  Tool "get_identity"
    ("Retrieve full identity snapshot: agent identity, agent personality, user identity, user " ++
      "personality.")
    []
    [].

Definition tool_observe_personality : ToolDefinition :=
  Tool "observe_personality"
    ("Record an observation about an agent personality dimension. Confidence grows with " ++
      "confirming evidence.")
    [("dimension", Property (Some "string") "Personality dimension" (Some 
       ["communication_style"; "humor"; "emotional_register"; "values"; "rapport"; "boundaries"]) None);
     ("observation", Property (Some "string") "Observation content" None None)]
    ["dimension"; "observation"].

Definition tool_observe_user : ToolDefinition :=
  Tool "observe_user"
    ("Record an observation about a user personality dimension. Inferred from interaction " ++
      "patterns.")
    [("dimension", Property (Some "string") "User personality dimension" (Some 
       ["communication_style"; "work_patterns"; "decision_making"; "priorities"; "preferences"; "boundaries"]) None);
     ("observation", Property (Some "string") "Observation content" None None);
     ("source", Property (Some "string") "Source of observation" (Some ["inferred"; "declared"; "onboarding"]) None)]
    ["dimension"; "observation"].

Definition tool_propose_identity_update : ToolDefinition :=
  Tool "propose_identity_update"
    "Propose a change to agent identity. Requires user confirmation via messaging channel."
    [("field", Property (Some "string") "Identity field to update" (Some ["role"; "expertise"; "tone"; "instructions"]) None);
     ("new_value", Property (Some "string") "Proposed new value" None None);
     ("reason", Property (Some "string") "Reason for the change" None None)]
    ["field"; "new_value"; "reason"].

Definition tool_update_user_identity : ToolDefinition :=
  Tool "update_user_identity"
    "Update user identity fields discovered in conversation (name, role, timezone, etc.)."
    [("field", Property (Some "string") "Identity field to update" (Some 
       ["name"; "role"; "organization"; "timezone"; "language"; "notes"]) None);
     ("value", Property (Some "string") "New value" None None)]
    ["field"; "value"].

Definition tool_list_profiles : ToolDefinition :=
  Tool "list_profiles"
    ("List all agent profiles with stats (chat count, memory count). Allows the agent to be aware " ++
      "of the user's profile setup.")
    []
    [].

Definition tool_get_current_profile : ToolDefinition :=
  Tool "get_current_profile"
    ("Get the current chat's agent profile (name, description, is_default). Allows the agent to " ++
      "identify itself.")
    []
    [].

Definition tool_switch_chat_profile : ToolDefinition :=
  Tool "switch_chat_profile"
    ("Reassign the current chat to a different agent profile. Enables chat-based profile " ++
      "management (" ++
      dq ++
      "switch me to my work profile" ++
      dq ++
      ").")
    [("profile_name", Property (Some "string") "Name of the target profile" None None)]
    ["profile_name"].

Definition tool_install_skill : ToolDefinition :=
  Tool "install_skill"
    ("Install a skill from the FlowHelm registry. The skill will be available on the next agent " ++
      "invocation.")
    [("name", Property (Some "string") ("Skill name from the registry (e.g., " ++ dq ++ "gmail" ++ dq ++ ", " ++ dq ++ "data-analysis" ++ dq ++ ")") None None)]
    ["name"].

Definition tool_uninstall_skill : ToolDefinition :=
  Tool "uninstall_skill"
    "Remove an installed skill. Fails if other installed skills depend on it."
    [("name", Property (Some "string") "Name of the skill to uninstall" None None)]
    ["name"].

Definition tool_list_skills : ToolDefinition :=
  Tool "list_skills"
    "List installed skills, built-in skills, and available skills from the registry."
    []
    [].

Definition tool_search_skills : ToolDefinition :=
  Tool "search_skills"
    "Search the skills registry by keyword. Returns matching skills with install status."
    [("query", Property (Some "string") "Search keyword (matched against name and description)" None None)]
    ["query"].

Definition tool_update_config : ToolDefinition :=
  Tool "update_config"
    ("Update a FlowHelm configuration field. Only allowlisted fields can be modified via chat. " ++
      "Security-sensitive fields are blocked.")
    [("field", Property (Some "string") ("Dot-notation config path (e.g., " ++ dq ++ "channels.gmail.enabled" ++ dq ++ ")") None None);
     ("value", Property None "New value for the field" None None)]
    ["field"; "value"].

Definition tool_get_auth_url : ToolDefinition :=
  Tool "get_auth_url"
    ("Generate an OAuth authorization URL for a service. Returns a URL for the user to open in " ++
      "their browser.")
    [("service", Property (Some "string") ("Service name (e.g., " ++ dq ++ "google" ++ dq ++ ", " ++ dq ++ "slack" ++ dq ++ ")") None None);
     ("scopes", Property (Some "array") "OAuth scopes to request" None (Some "string"))]
    ["service"].

Definition tool_get_system_status : ToolDefinition :=
  Tool "get_system_status"
    "Get FlowHelm system health: memory stats, profiles, installed skills, MCP server status."
    []
    [].

Definition tool_google_workspace : ToolDefinition :=
  Tool "google_workspace"
    ("Execute any Google Workspace operation via the gws CLI. This single tool handles Gmail, " ++
      "Google Contacts, Google Calendar, Google Drive, and all other Google Workspace services." ++
      newline ++
      newline ++
      "Common commands:" ++
      newline ++
      "  Email:" ++
      newline ++
      "    gws gmail +send --to bob@example.com --subject " ++
      dq ++
      "Hello" ++
      dq ++
      " --body " ++
      dq ++
      "Hi Bob" ++
      dq ++
      newline ++
      "    gws gmail +send --to a@example.com --cc b@example.com --subject " ++
      dq ++
      "Re: Topic" ++
      dq ++
      " --body " ++
      dq ++
      "Reply text" ++
      dq ++
      newline ++
      "    gws gmail users messages list --params '{" ++
      dq ++
      "q" ++
      dq ++
      ":" ++
      dq ++
      "from:alice@example.com" ++
      dq ++
      "}'" ++
      newline ++
      "    gws gmail users messages list --params '{" ++
      dq ++
      "q" ++
      dq ++
      ":" ++
      dq ++
      "subject:invoice after:2026/03/01" ++
      dq ++
      "}'" ++
      newline ++
      "    gws gmail +read --id MESSAGE_ID" ++
      newline ++
      "  Contacts:" ++
      newline ++
      "    gws people otherContacts search --params '{" ++
      dq ++
      "query" ++
      dq ++
      ":" ++
      dq ++
      "John" ++
      dq ++
      "}'" ++
      newline ++
      "    gws people people createContact --json '{" ++
      dq ++
      "names" ++
      dq ++
      ":[{" ++
      dq ++
      "displayName" ++
      dq ++
      ":" ++
      dq ++
      "Alice" ++
      dq ++
      "}]," ++
      dq ++
      "emailAddresses" ++
      dq ++
      ":[{" ++
      dq ++
      "value" ++
      dq ++
      ":" ++
      dq ++
      "alice@example.com" ++
      dq ++
      "}]}'" ++
      newline ++
      "    gws people people updateContact --params '{" ++
      dq ++
      "resourceName" ++
      dq ++
      ":" ++
      dq ++
      "people/CONTACT_ID" ++
      dq ++
      "}' --json '{" ++
      dq ++
      "names" ++
      dq ++
      ":[{" ++
      dq ++
      "displayName" ++
      dq ++
      ":" ++
      dq ++
      "Alice Smith" ++
      dq ++
      "}]}'" ++
      newline ++
      "    gws people people deleteContact --params '{" ++
      dq ++
      "resourceName" ++
      dq ++
      ":" ++
      dq ++
      "people/CONTACT_ID" ++
      dq ++
      "}'" ++
      newline ++
      "  Calendar:" ++
      newline ++
      "    gws calendar events list --params '{" ++
      dq ++
      "calendarId" ++
      dq ++
      ":" ++
      dq ++
      "primary" ++
      dq ++
      "}'" ++
      newline ++
      "  Drive:" ++
      newline ++
      "    gws drive files list --params '{" ++
      dq ++
      "pageSize" ++
      dq ++
      ":10}'" ++
      newline ++
      newline ++
      "The gws CLI has full access to Google Workspace APIs. All responses are JSON. OAuth " ++
      "credentials are managed automatically by the channel container.")
    [("command", Property (Some "string") ("gws CLI command (e.g., 'gmail +send --to bob@example.com --subject " ++
      dq ++
      "Hello" ++
      dq ++
      " --body " ++
      dq ++
      "Hi" ++
      dq ++
      "')") None None);
     ("timeout", Property (Some "number") "Command timeout in ms (default: 30000, max: 60000)" None None)]
    ["command"].

Definition TOOL_DEFINITIONS : list ToolDefinition :=
  [tool_search_semantic; tool_search_external; tool_recall_conversation; tool_store_semantic;
   tool_get_memory_stats; tool_expand_memory; tool_search_meta; tool_expand_meta;
   tool_trace_to_source; tool_get_identity; tool_observe_personality; tool_observe_user;
   tool_propose_identity_update; tool_update_user_identity; tool_list_profiles; tool_get_current_profile;
   tool_switch_chat_profile; tool_install_skill; tool_uninstall_skill; tool_list_skills;
   tool_search_skills; tool_update_config; tool_get_auth_url; tool_get_system_status;
   tool_google_workspace].

(** ** Members of conforming arguments *)

Lemma forallb_elem {A} (f : A → bool) l x : forallb f l = true → x ∈ l → f x = true.
Proof. intros H Hx. rewrite forallb_forall in H. by apply H, list_elem_of_In. Qed.

Lemma conforms_required def args k : conforms def args = true → k ∈ t_required def → ∃ v, prop args k = Some v.
Proof.
  unfold conforms. destruct args; try done. intros [H _]%andb_true_iff Hk.
  pose proof (forallb_elem _ _ _ H Hk) as Hv. cbv beta in Hv. destruct (prop _ k) as [v|]; [by exists v|done].
Qed.

Lemma conforms_member def args k p v : conforms def args = true → (k, p) ∈ t_properties def →
  prop args k = Some v → admits p v = true.
Proof.
  unfold conforms. destruct args; try done. intros [_ H]%andb_true_iff Hk Hv.
  pose proof (forallb_elem _ _ _ H Hk) as Hp. cbv beta in Hp. cbn [fst snd] in Hp. by rewrite Hv in Hp.
Qed.

Lemma has_string v : has_type "string" v = true → ∃ s, v = Str s.
Proof. destruct v; try done; eauto. Qed.

Lemma has_number v : has_type "number" v = true → ∃ f, v = Num f ∧ not_a_number f = false.
Proof. destruct v; try done. cbn. intros H%negb_true_iff. eauto. Qed.

(** A member of type string, and one of several strings. *)
Lemma admits_string d e i v : admits (Property (Some "string") d e i) v = true → ∃ s, v = Str s.
Proof. unfold admits. cbn [p_type]. intros [[H _]%andb_true_iff _]%andb_true_iff. by apply has_string. Qed.

Lemma admits_enum t d l i v : admits (Property t d (Some l) i) v = true → ∃ s, v = Str s ∧ s ∈ l.
Proof.
  unfold admits. cbn [p_enum]. intros [[_ H]%andb_true_iff _]%andb_true_iff. destruct v; try done.
  apply bool_decide_eq_true in H. eauto.
Qed.

Lemma admits_number d e i v : admits (Property (Some "number") d e i) v = true → ∃ f, v = Num f ∧ not_a_number f = false.
Proof. unfold admits. cbn [p_type]. intros [[H _]%andb_true_iff _]%andb_true_iff. by apply has_number. Qed.
