(* ===== verification/Scoring.v ===== *)
(** * Scores of memories

    [src/orchestrator/scoring.ts]: the composite score of a candidate and the choice of
    the best candidates, on double-precision numbers. *)

From S2P Require Import Prelude JsMap JsNumber.
Local Open Scope list_scope.

(** ** The order of the numbers *)

(** Numbers other than NaN are ordered like these triples. *)
Definition float_key (f : spec_float) : Z * Z * Z :=
  match f with
  | S754_infinity true => (-2, 0, 0)
  | S754_finite true m e => (-1, - e, Z.neg m)
  | S754_zero _ | S754_nan => (0, 0, 0)
  | S754_finite false m e => (1, e, Z.pos m)
  | S754_infinity false => (2, 0, 0)
  end%Z.

Definition key_compare (a b : Z * Z * Z) : comparison :=
  match (a.1.1 ?= b.1.1)%Z with
  | Eq => match (a.1.2 ?= b.1.2)%Z with Eq => (a.2 ?= b.2)%Z | c => c end
  | c => c
  end.

Definition is_nan (f : spec_float) : bool := match f with S754_nan => true | _ => false end.

Lemma SFcompare_key a b : is_nan a = false → is_nan b = false →
  SFcompare a b = Some (key_compare (float_key a) (float_key b)).
Proof.
  destruct a as [sa|[]| |[] ma ea], b as [sb|[]| |[] mb eb]; intros ? ?; try done; cbn [SFcompare float_key];
    unfold key_compare; cbn [fst snd Z.compare]; rewrite ?Z.compare_opp, ?Z.opp_involutive;
    change (Pos.compare_cont Eq ma mb) with (ma ?= mb)%positive;
    destruct (Z.compare_spec ea eb) as [->|?|?]; rewrite ?Z.compare_refl; try done.
  all: try (replace (eb ?= ea)%Z with Gt by (symmetry; by apply Z.compare_gt_iff); done).
  all: try (replace (eb ?= ea)%Z with Lt by (symmetry; by apply Z.compare_lt_iff); done).
Qed.

Lemma key_compare_le a b : key_compare a b ≠ Gt ↔
  (a.1.1 < b.1.1 ∨ (a.1.1 = b.1.1 ∧ (a.1.2 < b.1.2 ∨ (a.1.2 = b.1.2 ∧ a.2 ≤ b.2))))%Z.
Proof.
  unfold key_compare. destruct (Z.compare_spec a.1.1 b.1.1); [|naive_solver lia..].
  destruct (Z.compare_spec a.1.2 b.1.2); [|naive_solver lia..].
  destruct (Z.compare_spec a.2 b.2); naive_solver lia.
Qed.

Lemma SFleb_key a b : is_nan a = false → is_nan b = false →
  SFleb a b = true ↔ key_compare (float_key a) (float_key b) ≠ Gt.
Proof. intros Ha Hb. unfold SFleb. rewrite SFcompare_key by done. by destruct (key_compare _ _). Qed.

Lemma SFltb_key a b : is_nan a = false → is_nan b = false →
  SFltb a b = negb (SFleb b a).
Proof.
  intros Ha Hb. unfold SFltb, SFleb. rewrite !SFcompare_key by done.
  assert (E : key_compare (float_key b) (float_key a) = CompOpp (key_compare (float_key a) (float_key b))).
  { unfold key_compare. rewrite (Z.compare_antisym (float_key a).1.1), (Z.compare_antisym (float_key a).1.2),
      (Z.compare_antisym (float_key a).2).
    destruct (_ ?= _)%Z, (_ ?= _)%Z, (_ ?= _)%Z; reflexivity. }
  rewrite E. destruct (key_compare (float_key a) (float_key b)); reflexivity.
Qed.

Lemma SFleb_trans a b c : is_nan a = false → is_nan b = false → is_nan c = false →
  SFleb a b = true → SFleb b c = true → SFleb a c = true.
Proof. intros Ha Hb Hc. rewrite !SFleb_key, !key_compare_le by done. lia. Qed.

Lemma SFleb_total a b : is_nan a = false → is_nan b = false → SFleb a b = true ∨ SFleb b a = true.
Proof. intros Ha Hb. rewrite !SFleb_key, !key_compare_le by done. lia. Qed.

Lemma SFleb_refl a : is_nan a = false → SFleb a a = true.
Proof. intros Ha. by destruct (SFleb_total a a). Qed.

(** ** Composite scores *)

Definition MS_PER_DAY : Z := 86400000.

Record ScoringWeights := Weights {
  alpha : spec_float;
  beta : spec_float;
  gamma : spec_float;
  lambda : spec_float }.

Section Rank.
(** [Math.exp] *)
Context (exp : spec_float → spec_float).

Definition compositeScore (similarity : spec_float) (lastAccessedMs : Z) (importance : spec_float)
    (weights : ScoringWeights) (nowMs : Z) : spec_float :=
  let deltaDays := js_max (double 0) (SFdiv 53 1024 (double (nowMs - lastAccessedMs)) (double MS_PER_DAY)) in
  let recencyDecay := exp (times (SFopp (lambda weights)) deltaDays) in
  plus (plus (times (alpha weights) similarity) (times (beta weights) recencyDecay)) (times (gamma weights) importance).

Context {A : Type}.

(** What the source spreads into a candidate. *)
Record candidate := Candidate {
  c_row : A;
  c_similarity : spec_float;
  c_lastAccessed : Z;
  c_importance : spec_float }.

Definition score_of (weights : ScoringWeights) (now : Z) (c : candidate) : spec_float :=
  compositeScore (c_similarity c) (c_lastAccessed c) (c_importance c) weights now.

(** [sort((a, b) => b.compositeScore - a.compositeScore)], which keeps the order of equal
    candidates. *)
Fixpoint insert_ranked {B} (x : B * spec_float) (l : list (B * spec_float)) : list (B * spec_float) :=
  match l with
  | [] => [x]
  | y :: l' => if SFltb x.2 y.2 then y :: insert_ranked x l' else x :: l
  end.

Definition sort_ranked {B} (l : list (B * spec_float)) : list (B * spec_float) := foldr insert_ranked [] l.

Definition rankByCompositeScore (candidates : list candidate) (weights : ScoringWeights) (limit : nat) (now : Z) :
    list (candidate * spec_float) :=
  take limit (sort_ranked (map (λ c, (c, score_of weights now c)) candidates)).

(** ** The best candidates *)

Definition above {B} (x y : B * spec_float) : Prop := SFleb y.2 x.2 = true.

Lemma insert_ranked_perm {B} (x : B * spec_float) l : insert_ranked x l ≡ₚ x :: l.
Proof. induction l as [|y l IH]; [done|]. simpl. destruct (SFltb x.2 y.2); [|done]. rewrite IH. apply Permutation_swap. Qed.

Lemma sort_ranked_perm {B} (l : list (B * spec_float)) : sort_ranked l ≡ₚ l.
Proof. induction l as [|x l IH]; [done|]. simpl. by rewrite insert_ranked_perm, IH. Qed.

Definition numbers {B} (l : list (B * spec_float)) : Prop := Forall (λ x, is_nan x.2 = false) l.

Lemma insert_ranked_sorted {B} (x : B * spec_float) l : is_nan x.2 = false → numbers l → StronglySorted above l →
  StronglySorted above (insert_ranked x l).
Proof.
  intros Hx. induction l as [|y l IH]; intros Hn Hs; [by constructor; [constructor|]|].
  apply Forall_cons in Hn as [Hy Hn]. apply StronglySorted_inv in Hs as [Hs Hf]. simpl.
  rewrite SFltb_key by done. destruct (SFleb y.2 x.2) eqn:E; simpl.
  - constructor; [by constructor|]. constructor; [done|]. rewrite Forall_forall in Hf, Hn |- *.
    intros z Hz. apply (SFleb_trans _ y.2); [by apply Hn|done..|by apply Hf|done].
  - constructor; [by apply IH|]. rewrite insert_ranked_perm. constructor; [|done]. unfold above.
    destruct (SFleb_total x.2 y.2); [done..|congruence].
Qed.

Lemma sort_ranked_sorted {B} (l : list (B * spec_float)) : numbers l → StronglySorted above (sort_ranked l).
Proof.
  induction 1 as [|x l Hx Hl IH]; [constructor|]. simpl. apply insert_ranked_sorted; [done| |done].
  unfold numbers. by rewrite sort_ranked_perm.
Qed.

Lemma StronglySorted_app_above {B} (R : B → B → Prop) l k x y :
  StronglySorted R (l ++ k) → x ∈ l → y ∈ k → R x y.
Proof.
  induction l as [|z l IH]; intros Hs Hx Hy; [by apply not_elem_of_nil in Hx|].
  simpl in Hs. apply StronglySorted_inv in Hs as [Hs Hf]. apply elem_of_cons in Hx as [->|Hx]; [|by apply IH].
  rewrite Forall_forall in Hf. apply Hf, elem_of_app. by right.
Qed.

(** The ranking returns as many candidates as there are, up to the limit, each with its
    own score, best first; none that it leaves out scores higher than one it returns. *)
Theorem rank_best candidates weights limit now :
  Forall (λ c, is_nan (score_of weights now c) = false) candidates →
  let ranked := rankByCompositeScore candidates weights limit now in
  length ranked = (limit `min` length candidates)%nat ∧
  StronglySorted above ranked ∧
  ∃ left_out, candidates ≡ₚ map fst ranked ++ left_out ∧
    (∀ c s, (c, s) ∈ ranked → s = score_of weights now c) ∧
    ∀ c s c', (c, s) ∈ ranked → c' ∈ left_out → SFleb (score_of weights now c') s = true.
Proof.
  intros Hn ranked. set (all := map (λ c, (c, score_of weights now c)) candidates).
  assert (Hall : numbers all) by (by apply Forall_map).
  assert (Hs : StronglySorted above (take limit (sort_ranked all) ++ drop limit (sort_ranked all))).
  { rewrite take_drop. by apply sort_ranked_sorted. }
  assert (Hin : ∀ x, x ∈ sort_ranked all → x.2 = score_of weights now x.1).
  { intros x. rewrite sort_ranked_perm. by intros (c & _ & <-)%elem_of_map. }
  split; [|split].
  - unfold ranked, rankByCompositeScore. rewrite length_take, (Permutation_length (sort_ranked_perm _)). by rewrite length_map.
  - clear -Hs. unfold ranked, rankByCompositeScore. fold all.
    induction (take limit (sort_ranked all)) as [|x l IH]; [constructor|]. simpl in Hs.
    apply StronglySorted_inv in Hs as [Hs Hf]. constructor; [by apply IH|]. by apply Forall_app in Hf as [? _].
  - exists (map fst (drop limit (sort_ranked all))). split; [|split].
    + unfold ranked, rankByCompositeScore. fold all. rewrite <- map_app, take_drop, sort_ranked_perm.
      unfold all. rewrite map_map. simpl. by rewrite map_id.
    + intros c s Hc. apply (Hin (c, s)). by eapply subseteq_take.
    + intros c s c' Hc (x & Hx & <-)%elem_of_map. rewrite <- Hin by (by eapply subseteq_drop).
      by apply (StronglySorted_app_above _ _ _ (c, s) x Hs).
Qed.
End Rank.

Arguments candidate A : clear implicits.

Definition example_candidate (n : nat) (s : Z) : candidate nat := Candidate n (hundredths s) 0 (hundredths 50).

Definition example_weights : ScoringWeights :=
  Weights (hundredths 50) (hundredths 30) (hundredths 20) (hundredths 1).

Lemma rank_best_witness :
  let l := [example_candidate 1 20; example_candidate 2 90; example_candidate 3 50; example_candidate 4 90] in
  let ranked := rankByCompositeScore (λ _, double 1) l example_weights 3 0 in
  map (λ x, c_row x.1) ranked = [2; 4; 3]%nat ∧ StronglySorted above ranked.
Proof.
  intros l ranked. split; [vm_compute; reflexivity|].
  apply (rank_best (λ _, double 1) l example_weights 3 0).
  repeat (apply Forall_cons; split; [vm_compute; reflexivity|]). apply Forall_nil_2.
Defined.
