(* ===== verification/MemoryDb.v ===== *)
(** * The memory tables

    The tables of the four memory tiers in [src/orchestrator/schema.sql] and the
    statements that fill them: sessions and working messages
    ([src/orchestrator/database.ts], [src/orchestrator/memory.ts]) on top of the
    semantic, meta and external memories, their links and the profiles, which are
    those of [Profiles.v].  A statement that violates a constraint gives [None].  The
    columns that nothing here reads are left out, and with them the unique pair of
    channel and external identifier of a chat.  A column of type REAL, and each
    component of a vector, gives back [real x] for [x]. *)

From S2P Require Import Prelude JsMap JsString JsNumber Profiles.
Local Open Scope string_scope.
Local Open Scope list_scope.

(** ** Tables *)

Record session_row := Session {
  ss_id : uuid;
  ss_chat : string;
  startedAt : Z;
  endedAt : option Z }.

Record message_row := Message {
  w_id : string;
  w_chat : string;
  sender_name : string;
  w_content : option string;
  timestamp : Z;
  is_from_me : bool;
  is_bot_message : bool;
  w_session : option uuid }.

Record memory_db := MemoryDb {
  tabs : profile_db;
  sessions : list session_row;
  working : list message_row;
  state : jsmap string }.

(** The primary key of a message. *)
Definition w_key (m : message_row) : string * string := (w_id m, w_chat m).

Definition with_tabs (db : memory_db) (t : profile_db) : memory_db :=
  MemoryDb t (sessions db) (working db) (state db).

Definition put_chats (t : profile_db) (l : list chat_row) : profile_db :=
  Db (profiles t) l (semantic t) (meta t) (external t) (identity t) (personality t)
    (summary_messages t) (summary_parents t) (meta_sources t) (meta_parents t) (next_uuid t).

Definition put_semantic (t : profile_db) (l : list semantic_row) (n : nat) : profile_db :=
  Db (profiles t) (chats t) l (meta t) (external t) (identity t) (personality t)
    (summary_messages t) (summary_parents t) (meta_sources t) (meta_parents t) n.

Definition put_meta (t : profile_db) (l : list meta_row) (n : nat) : profile_db :=
  Db (profiles t) (chats t) (semantic t) l (external t) (identity t) (personality t)
    (summary_messages t) (summary_parents t) (meta_sources t) (meta_parents t) n.

Definition put_external (t : profile_db) (l : list external_row) : profile_db :=
  Db (profiles t) (chats t) (semantic t) (meta t) l (identity t) (personality t)
    (summary_messages t) (summary_parents t) (meta_sources t) (meta_parents t) (next_uuid t).

(** The links alone. *)
Definition put_links (t : profile_db) (sm : list (uuid * (string * string))) (sp ms mp : list (uuid * uuid)) :
    profile_db :=
  Db (profiles t) (chats t) (semantic t) (meta t) (external t) (identity t) (personality t)
    sm sp ms mp (next_uuid t).

(** [ORDER BY f] *)
Definition not_after {A} (f : A → Z) (x y : A) : Prop := (f x ≤ f y)%Z.

#[export] Instance not_after_dec {A} (f : A → Z) : RelDecision (not_after f).
Proof. intros x y. unfold not_after. apply _. Defined.

Definition sort_on {A} (f : A → Z) (l : list A) : list A := merge_sort (not_after f) l.

Definition session_ids (db : memory_db) : list uuid := map ss_id (sessions db).

(** ** Statements *)

Definition MEMORY_TYPES : list string :=
  ["preference"; "fact"; "pattern"; "contact"; "instruction"; "summary"; "procedure"].

Definition REFLECTION_TYPES : list string := ["insight"; "heuristic"; "self_assessment"].

Definition DIMENSIONS : nat := 384.

(** [CHECK (x >= 0 AND x <= 1)]; for PostgreSQL a NaN is larger than any number. *)
Definition unit_interval (x : spec_float) : bool := SFleb (double 0) x && SFleb x (double 1).

(** ** The vector extension *)

(** The distance of two vectors, and the positions of the vectors of a table that a scan of
    its index visits for [ORDER BY embedding <=> v], nearest first; it may miss some. The
    index of a table is one for the rows of all profiles. *)
Record VectorIndex := Indexing {
  cosine_distance : list spec_float → list spec_float → spec_float;
  neighbours : list spec_float → list (list spec_float) → list nat }.

Definition scanned {A} (ix : VectorIndex) (vector_of : A → list spec_float) (v : list spec_float) (rows : list A) : list A :=
  omap (λ i, rows !! i) (neighbours ix v (map vector_of rows)).

(** [SELECT ... WHERE P ORDER BY embedding <=> v LIMIT k]: the condition is tested on the
    rows that the scan visits. *)
Definition nearest {A} (ix : VectorIndex) (vector_of : A → list spec_float) (v : list spec_float) (k : nat)
    (P : A → Prop) `{!∀ r, Decision (P r)} (rows : list A) : list A :=
  take k (filter P (scanned ix vector_of v rows)).

Lemma elem_of_nearest {A} ix (vec : A → list spec_float) v k (P : A → Prop) `{!∀ r, Decision (P r)} rows x :
  x ∈ nearest ix vec v k P rows → P x ∧ x ∈ rows.
Proof.
  unfold nearest, scanned. intros Hx. apply subseteq_take in Hx.
  apply list_elem_of_filter in Hx as [HP (i & _ & Hi)%list_elem_of_omap]. split; [done|by eapply list_elem_of_lookup_2].
Qed.

Definition similarity (ix : VectorIndex) (v w : list spec_float) : spec_float :=
  minus (double 1) (cosine_distance ix v w).

Section Statements.
Context (real : spec_float → spec_float).

Definition insert_semantic (db : memory_db) (pid : uuid) (d : semantic_data) (now : Z) :
    option (memory_db * uuid) :=
  let t := tabs db in
  let sid := next_uuid t in
  if bool_decide (pid ∈ pids t) && bool_decide (memory_type d ∈ MEMORY_TYPES) &&
     unit_interval (real (importance d)) && (length (embedding d) =? DIMENSIONS)%nat &&
     match source_session d with Some x => bool_decide (x ∈ session_ids db) | None => true end
  then
    let d := SemanticData (content d) (map real (embedding d)) (memory_type d) (real (importance d)) (depth d)
               (token_count d) (source_session d) (earliest_at d) (latest_at d) in
    Some (with_tabs db (put_semantic t (semantic t ++ [Semantic sid pid d now now now 0]) (S sid)), sid)
  else None.

Definition insert_meta (db : memory_db) (pid : uuid) (d : meta_data) (now : Z) : option (memory_db * uuid) :=
  let t := tabs db in
  let mid := next_uuid t in
  if bool_decide (pid ∈ pids t) && bool_decide (reflection_type d ∈ REFLECTION_TYPES) &&
     unit_interval (real (confidence d)) && (length (m_embedding d) =? DIMENSIONS)%nat
  then
    let d := MetaData (m_content d) (map real (m_embedding d)) (reflection_type d) (real (confidence d)) (m_depth d) in
    Some (with_tabs db (put_meta t (meta t ++ [Meta mid pid d now now now]) (S mid)), mid)
  else None.

(** The inserts into the four join tables: the first two refuse a pair that is there, the
    others leave it. *)
Definition link_message (db : memory_db) (sid : uuid) (key : string * string) : option memory_db :=
  let t := tabs db in
  if bool_decide (sid ∈ sids t) && bool_decide (key ∈ map w_key (working db)) &&
     negb (bool_decide ((sid, key) ∈ summary_messages t))
  then Some (with_tabs db (put_links t (summary_messages t ++ [(sid, key)]) (summary_parents t)
                             (meta_sources t) (meta_parents t)))
  else None.

Definition link_summary (db : memory_db) (parent child : uuid) : option memory_db :=
  let t := tabs db in
  if bool_decide (parent ∈ sids t) && bool_decide (child ∈ sids t) &&
     negb (bool_decide ((parent, child) ∈ summary_parents t))
  then Some (with_tabs db (put_links t (summary_messages t) (summary_parents t ++ [(parent, child)])
                             (meta_sources t) (meta_parents t)))
  else None.

Definition link_source (db : memory_db) (mid sid : uuid) : option memory_db :=
  let t := tabs db in
  if bool_decide (mid ∈ mids t) && bool_decide (sid ∈ sids t)
  then Some (with_tabs db (put_links t (summary_messages t) (summary_parents t)
                             (insert_link (meta_sources t) (mid, sid)) (meta_parents t)))
  else None.

Definition link_meta (db : memory_db) (parent child : uuid) : option memory_db :=
  let t := tabs db in
  if bool_decide (parent ∈ mids t) && bool_decide (child ∈ mids t)
  then Some (with_tabs db (put_links t (summary_messages t) (summary_parents t)
                             (meta_sources t) (insert_link (meta_parents t) (parent, child))))
  else None.

(** [UPDATE memory_meta SET confidence = c, updated_at = now WHERE id = mid] *)
Definition set_confidence (mid : uuid) (c : spec_float) (now : Z) (r : meta_row) : meta_row :=
  if decide (m_id r = mid) then
    Meta (m_id r) (m_profile r)
      (MetaData (m_content (m_data r)) (m_embedding (m_data r)) (reflection_type (m_data r)) (real c)
         (m_depth (m_data r))) (m_created r) now (m_accessed r)
  else r.

Definition update_confidence (db : memory_db) (mid : uuid) (c : spec_float) (now : Z) : option memory_db :=
  let t := tabs db in
  if unit_interval (real c) || negb (bool_decide (mid ∈ mids t))
  then Some (with_tabs db (put_meta t (map (set_confidence mid c now) (meta t)) (next_uuid t)))
  else None.

Definition set_state (db : memory_db) (key value : string) : memory_db :=
  MemoryDb (tabs db) (sessions db) (working db) (map_set (state db) key value).

(** ** What the rest of the program does to the tables *)

(** [Math.ceil(text.length / 4)] *)
Definition estimateTokens (text : string) : Z := ((Z.of_nat (String.length text) + 3) / 4)%Z.

Definition defaultImportance (type : string) : spec_float :=
  if bool_decide (type = "instruction") then double 1
  else if bool_decide (type = "procedure") then hundredths 80
  else if bool_decide (type = "summary") then hundredths 70
  else hundredths 50.

Record StoreSemanticOptions := StoreSemanticOptions_ {
  o_content : string;
  o_type : string;
  o_importance : option spec_float;
  o_session : option uuid;
  o_depth : option Z;
  o_profile : uuid }.

(** After the embedding of the content. *)
Definition storeSemanticMemory (db : memory_db) (now : Z) (o : StoreSemanticOptions) (vector : list spec_float) :
    option (memory_db * uuid) :=
  insert_semantic db (o_profile o)
    (SemanticData (o_content o) vector (o_type o) (default (defaultImportance (o_type o)) (o_importance o))
       (default 0%Z (o_depth o)) (estimateTokens (o_content o)) (o_session o) None None) now.

(** With the rows of the join tables, by cascade. *)
Definition deleteSemanticMemory (db : memory_db) (sid : uuid) : memory_db * bool :=
  let t := tabs db in
  (with_tabs db
     (put_links (put_semantic t (filter (λ r, s_id r ≠ sid) (semantic t)) (next_uuid t))
        (filter (λ l, l.1 ≠ sid) (summary_messages t))
        (filter (λ l, l.1 ≠ sid ∧ l.2 ≠ sid) (summary_parents t))
        (filter (λ l, l.2 ≠ sid) (meta_sources t)) (meta_parents t)),
   bool_decide (sid ∈ sids t)).

Definition storeExternalMemory (db : memory_db) (now : Z) (content : string) (type ref : string) (pid : uuid)
    (vector : list spec_float) : option memory_db :=
  let t := tabs db in
  if bool_decide (pid ∈ pids t) && bool_decide (type ∈ ["document"; "user_provided"]) &&
     (length vector =? DIMENSIONS)%nat
  then Some (with_tabs db (put_external t (external t ++ [External pid content (map real vector) type ref now])))
  else None.

Definition removeExternalBySource (db : memory_db) (ref : string) (pid : uuid) : memory_db * nat :=
  let t := tabs db in
  (with_tabs db (put_external t (filter (λ r, ¬ (source_ref r = ref ∧ e_profile r = pid)) (external t))),
   length (filter (λ r, source_ref r = ref ∧ e_profile r = pid) (external t))).

Definition updateSemanticAccess (db : memory_db) (now : Z) (sid : uuid) : memory_db :=
  let t := tabs db in
  with_tabs db (put_semantic t
    (map (λ r, if decide (s_id r = sid)
               then Semantic (s_id r) (s_profile r) (s_data r) (s_created r) (s_updated r) now (s_access_count r + 1)
               else r) (semantic t)) (next_uuid t)).

Definition updateMetaAccess (db : memory_db) (now : Z) (mid : uuid) : memory_db :=
  let t := tabs db in
  with_tabs db (put_meta t
    (map (λ r, if decide (m_id r = mid)
               then Meta (m_id r) (m_profile r) (m_data r) (m_created r) (m_updated r) now
               else r) (meta t)) (next_uuid t)).

Definition upsertChat (db : memory_db) (now : Z) (chat : string) (pid : uuid) : option memory_db :=
  let t := tabs db in
  if bool_decide (chat ∈ map chat_id (chats t)) then
    Some (with_tabs db (put_chats t
      (map (λ c, if decide (chat_id c = chat) then Chat (chat_id c) (chat_profile c) now else c) (chats t))))
  else if bool_decide (pid ∈ pids t) then
    Some (with_tabs db (put_chats t (chats t ++ [Chat chat pid now])))
  else None.

(** The second statement of [storeMessage]; the first is [upsertChat]. *)
Definition insert_message (db : memory_db) (m : message_row) : option memory_db :=
  if bool_decide (w_key m ∈ map w_key (working db)) then Some db
  else if bool_decide (w_chat m ∈ map chat_id (chats (tabs db))) &&
          match w_session m with Some x => bool_decide (x ∈ session_ids db) | None => true end
  then Some (MemoryDb (tabs db) (sessions db) (working db ++ [m]) (state db))
  else None.

Definition backfillSessionId (db : memory_db) (key : string * string) (x : uuid) : option memory_db :=
  if bool_decide (x ∈ session_ids db) then
    Some (MemoryDb (tabs db) (sessions db)
      (map (λ m, if decide (w_key m = key ∧ w_session m = None)
                 then Message (w_id m) (w_chat m) (sender_name m) (w_content m) (timestamp m)
                        (is_from_me m) (is_bot_message m) (Some x)
                 else m) (working db)) (state db))
  else None.

Definition startSession (db : memory_db) (now : Z) (chat : string) : option (memory_db * uuid) :=
  let t := tabs db in
  if bool_decide (chat ∈ map chat_id (chats t)) then
    let x := next_uuid t in
    Some (MemoryDb (put_semantic t (semantic t) (S x)) (sessions db ++ [Session x chat now None])
            (working db) (state db), x)
  else None.

Definition endSession (db : memory_db) (now : Z) (x : uuid) : memory_db :=
  MemoryDb (tabs db)
    (map (λ s, if decide (ss_id s = x) then Session (ss_id s) (ss_chat s) (startedAt s) (Some now) else s)
       (sessions db)) (working db) (state db).

(** The statements and transactions of the other parts. *)
Inductive memory_op :=
| ProfileOp (op : profile_op)
| UpsertChat (now : Z) (chat : string) (pid : uuid)
| InsertMessage (m : message_row)
| Backfill (key : string * string) (x : uuid)
| StartSession (now : Z) (chat : string)
| EndSession (now : Z) (x : uuid)
| StoreSemantic (now : Z) (o : StoreSemanticOptions) (vector : list spec_float)
| DeleteSemantic (sid : uuid)
| StoreExternal (now : Z) (content type ref : string) (pid : uuid) (vector : list spec_float)
| RemoveExternal (ref : string) (pid : uuid)
| AccessSemantic (now : Z) (sid : uuid)
| AccessMeta (now : Z) (mid : uuid)
| SetState (key value : string).

Definition memory_step (maxp : nat) (op : memory_op) (db : memory_db) : memory_db :=
  match op with
  | ProfileOp op => with_tabs db (apply_op maxp (tabs db) op)
  | UpsertChat now chat pid => default db (upsertChat db now chat pid)
  | InsertMessage m => default db (insert_message db m)
  | Backfill key x => default db (backfillSessionId db key x)
  | StartSession now chat => from_option fst db (startSession db now chat)
  | EndSession now x => endSession db now x
  | StoreSemantic now o v => from_option fst db (storeSemanticMemory db now o v)
  | DeleteSemantic sid => (deleteSemanticMemory db sid).1
  | StoreExternal now c ty r pid v => default db (storeExternalMemory db now c ty r pid v)
  | RemoveExternal r pid => (removeExternalBySource db r pid).1
  | AccessSemantic now sid => updateSemanticAccess db now sid
  | AccessMeta now mid => updateMetaAccess db now mid
  | SetState k v => set_state db k v
  end.
End Statements.
