(* ===== verification/MemoryInv.v ===== *)
(** * The invariant of the memory tables

    What holds of the tables of [MemoryDb.v] between any two statements: keys and
    references, the shape of the links between the tiers, and bounds; every
    transaction of the rest of the program keeps it, a clone of a profile included. *)

From S2P Require Import Prelude JsMap JsNumber Profiles IdentityOps MemoryDb.
Local Open Scope list_scope.

(** ** Links *)

Definition summary_of_depth (d : Z) (r : semantic_row) : Prop :=
  memory_type (s_data r) = "summary"%string ∧ depth (s_data r) = d.

Record links_ok (t : profile_db) : Prop := {
  lk_summary sid key : (sid, key) ∈ summary_messages t →
    ∃ r, r ∈ semantic t ∧ s_id r = sid ∧ summary_of_depth 0 r;
  lk_once r r' key : r ∈ semantic t → r' ∈ semantic t →
    (s_id r, key) ∈ summary_messages t → (s_id r', key) ∈ summary_messages t →
    s_profile r = s_profile r' → s_id r = s_id r';
  lk_parent p c : (p, c) ∈ summary_parents t → ∃ rp rc, rp ∈ semantic t ∧ rc ∈ semantic t ∧
    s_id rp = p ∧ s_id rc = c ∧ summary_of_depth 1 rp ∧ summary_of_depth 0 rc;
  lk_parent_once p p' c : (p, c) ∈ summary_parents t → (p', c) ∈ summary_parents t → p = p';
  lk_source m s : (m, s) ∈ meta_sources t → ∃ rm rs, rm ∈ meta t ∧ rs ∈ semantic t ∧
    m_id rm = m ∧ s_id rs = s ∧ m_depth (m_data rm) = 0%Z ∧ m_profile rm = s_profile rs;
  lk_meta p c : (p, c) ∈ meta_parents t → ∃ rp rc, rp ∈ meta t ∧ rc ∈ meta t ∧
    m_id rp = p ∧ m_id rc = c ∧ m_depth (m_data rp) = (m_depth (m_data rc) + 1)%Z ∧
    m_profile rp = m_profile rc ∧ reflection_type (m_data rp) = reflection_type (m_data rc);
  lk_depth r : r ∈ meta t → (0 ≤ m_depth (m_data r))%Z;
  lk_confidence r : r ∈ meta t → unit_interval (confidence (m_data r)) = true }.

Record memory_ok (db : memory_db) : Prop := {
  mo_tabs : profiles_ok (tabs db);
  mo_links : links_ok (tabs db);
  mo_session_ids : NoDup (session_ids db);
  mo_session_bound x : x ∈ session_ids db → x < next_uuid (tabs db);
  mo_session_chat s : s ∈ sessions db → ss_chat s ∈ map chat_id (chats (tabs db));
  mo_keys : NoDup (map w_key (working db));
  mo_message_chat m : m ∈ working db → w_chat m ∈ map chat_id (chats (tabs db));
  mo_message_session m x : m ∈ working db → w_session m = Some x → x ∈ session_ids db;
  mo_linked l : l ∈ summary_messages (tabs db) → l.2 ∈ map w_key (working db) }.

Definition linked (t : profile_db) (key : string * string) : Prop := key ∈ map snd (summary_messages t).
Definition condensed (t : profile_db) (c : uuid) : Prop := c ∈ map snd (summary_parents t).

#[export] Instance linked_dec t key : Decision (linked t key).
Proof. unfold linked. apply _. Defined.

(** What transactions leave as it is: rows may go, but what stays keeps its data, no
    summary gets new messages, and no old summary a parent. *)
Record stable (t t' : profile_db) : Prop := {
  sb_next : next_uuid t ≤ next_uuid t';
  sb_semantic r' : r' ∈ semantic t' → s_id r' < next_uuid t →
    ∃ r, r ∈ semantic t ∧ s_id r = s_id r' ∧ s_profile r = s_profile r' ∧ s_data r = s_data r';
  sb_meta r' : r' ∈ meta t' → m_id r' < next_uuid t →
    ∃ r, r ∈ meta t ∧ m_id r = m_id r' ∧ m_profile r = m_profile r' ∧
      m_depth (m_data r) = m_depth (m_data r') ∧ reflection_type (m_data r) = reflection_type (m_data r') }.

Definition no_new_sources (t t' : profile_db) : Prop :=
  (∀ key, linked t' key → linked t key) ∧ (∀ c, c < next_uuid t → condensed t' c → condensed t c).

#[export] Instance stable_refl : Reflexive stable.
Proof. intros t. split; [done|..]; intros r ? _; by exists r. Qed.

#[export] Instance stable_trans : Transitive stable.
Proof.
  intros t1 t2 t3 [N1 S1 M1] [N2 S2 M2]. split; [lia|..]; intros r Hr Hlt.
  - destruct (S2 r Hr) as (r2 & Hr2 & E2 & P2 & D2); [lia|].
    destruct (S1 r2 Hr2) as (r1 & Hr1 & E1 & P1 & D1); [lia|]. exists r1. split_and!; congruence.
  - destruct (M2 r Hr) as (r2 & Hr2 & E2 & P2 & D2 & T2); [lia|].
    destruct (M1 r2 Hr2) as (r1 & Hr1 & E1 & P1 & D1 & T1); [lia|]. exists r1. split_and!; congruence.
Qed.

Lemma no_new_refl t : no_new_sources t t.
Proof. by split. Qed.

Lemma no_new_trans t1 t2 t3 : stable t1 t2 → no_new_sources t1 t2 → no_new_sources t2 t3 → no_new_sources t1 t3.
Proof.
  intros Hs [A1 B1] [A2 B2]. split; [auto|]. intros c Hc Hc3. apply B1, B2; [done| |done].
  pose proof (sb_next _ _ Hs). lia.
Qed.

(** Two tables with the same rows and links. *)
Lemma links_same t t' : semantic t' = semantic t → meta t' = meta t → summary_messages t' = summary_messages t →
  summary_parents t' = summary_parents t → meta_sources t' = meta_sources t → meta_parents t' = meta_parents t →
  next_uuid t ≤ next_uuid t' → links_ok t → links_ok t' ∧ stable t t' ∧ no_new_sources t t'.
Proof.
  intros E1 E2 E3 E4 E5 E6 Hn H. split; [|split].
  - destruct H. split; rewrite ?E1, ?E2, ?E3, ?E4, ?E5, ?E6; auto.
  - split; [done|..]; rewrite ?E1, ?E2; intros r ? _; by exists r.
  - unfold no_new_sources, linked, condensed. by rewrite E3, E4.
Qed.

(** ** Fewer rows *)

Definition same_semantic (r r' : semantic_row) : Prop :=
  s_id r = s_id r' ∧ s_profile r = s_profile r' ∧ s_data r = s_data r'.

Definition same_meta (r r' : meta_row) : Prop :=
  m_id r = m_id r' ∧ m_profile r = m_profile r' ∧ m_depth (m_data r) = m_depth (m_data r') ∧
  reflection_type (m_data r) = reflection_type (m_data r').

(** Tables whose rows are old ones, with the same data, and whose links are old ones
    between rows that are still there. *)
Record shrinks (t t' : profile_db) : Prop := {
  sh_next : next_uuid t ≤ next_uuid t';
  sh_semantic r' : r' ∈ semantic t' → ∃ r, r ∈ semantic t ∧ same_semantic r r';
  sh_meta r' : r' ∈ meta t' → (∃ r, r ∈ meta t ∧ same_meta r r') ∧
    unit_interval (confidence (m_data r')) = true;
  sh_sm l : l ∈ summary_messages t' → l ∈ summary_messages t ∧
    ∀ r, r ∈ semantic t → s_id r = l.1 → ∃ r', r' ∈ semantic t' ∧ same_semantic r r';
  sh_sp l : l ∈ summary_parents t' → l ∈ summary_parents t ∧
    ∀ r, r ∈ semantic t → s_id r = l.1 ∨ s_id r = l.2 → ∃ r', r' ∈ semantic t' ∧ same_semantic r r';
  sh_ms l : l ∈ meta_sources t' → l ∈ meta_sources t ∧
    (∀ r, r ∈ meta t → m_id r = l.1 → ∃ r', r' ∈ meta t' ∧ same_meta r r') ∧
    ∀ r, r ∈ semantic t → s_id r = l.2 → ∃ r', r' ∈ semantic t' ∧ same_semantic r r';
  sh_mp l : l ∈ meta_parents t' → l ∈ meta_parents t ∧
    ∀ r, r ∈ meta t → m_id r = l.1 ∨ m_id r = l.2 → ∃ r', r' ∈ meta t' ∧ same_meta r r' }.

Lemma shrinks_ok t t' : shrinks t t' → links_ok t → links_ok t' ∧ stable t t' ∧ no_new_sources t t'.
Proof.
  intros [Hn Hs Hm Hsm Hsp Hms Hmp] H. split; [|split].
  - split.
    + intros sid key Hl. destruct (Hsm _ Hl) as [Hl0 Hr]. destruct (lk_summary _ H _ _ Hl0) as (r & Hr0 & <- & Hd).
      destruct (Hr r Hr0 eq_refl) as (r' & Hr' & E1 & E2 & E3). exists r'.
      split; [done|]. split; [done|]. unfold summary_of_depth in *. by rewrite <- E3.
    + intros r1 r2 key Hr1 Hr2 L1 L2 Hp. destruct (Hs r1 Hr1) as (q1 & Hq1 & E1 & P1 & _).
      destruct (Hs r2 Hr2) as (q2 & Hq2 & E2 & P2 & _). rewrite <- E1, <- E2.
      apply (lk_once _ H q1 q2 key Hq1 Hq2); rewrite ?E1, ?E2; [apply (Hsm _ L1)|apply (Hsm _ L2)|congruence].
    + intros p c Hl. destruct (Hsp _ Hl) as [Hl0 Hr].
      destruct (lk_parent _ H _ _ Hl0) as (rp & rc & Hrp & Hrc & <- & <- & Dp & Dc).
      destruct (Hr rp Hrp) as (rp' & Hrp' & E1 & _ & D1); [by left|].
      destruct (Hr rc Hrc) as (rc' & Hrc' & E2 & _ & D2); [by right|].
      exists rp', rc'. unfold summary_of_depth in *. rewrite <- D1, <- D2. destruct_and?. by split_and!.
    + intros p p' c L1%Hsp L2%Hsp. eapply (lk_parent_once _ H); [apply L1|apply L2].
    + intros m s Hl. destruct (Hms _ Hl) as (Hl0 & Hrm & Hrs).
      destruct (lk_source _ H _ _ Hl0) as (rm & rs & Hm0 & Hs0 & <- & <- & D & P).
      destruct (Hrm rm Hm0 eq_refl) as (rm' & ? & E1 & P1 & D1 & _).
      destruct (Hrs rs Hs0 eq_refl) as (rs' & ? & E2 & P2 & _).
      exists rm', rs'. rewrite <- D1, <- P1, <- P2. by split_and!.
    + intros p c Hl. destruct (Hmp _ Hl) as [Hl0 Hr].
      destruct (lk_meta _ H _ _ Hl0) as (rp & rc & Hrp & Hrc & <- & <- & Hd & Hp & Ht).
      destruct (Hr rp Hrp) as (rp' & ? & E1 & P1 & D1 & T1); [by left|].
      destruct (Hr rc Hrc) as (rc' & ? & E2 & P2 & D2 & T2); [by right|].
      exists rp', rc'. rewrite <- D1, <- D2, <- P1, <- P2, <- T1, <- T2. by split_and!.
    + intros r (( q & Hq & _ & _ & <- & _) & _)%Hm. by apply (lk_depth _ H).
    + intros r [_ Hc]%Hm. done.
  - split; [done|..].
    + intros r' (r & Hr & E1 & E2 & E3)%Hs _. by exists r.
    + intros r' [(r & Hr & E1 & E2 & E3 & E4) _]%Hm _. by exists r.
  - split.
    + intros key (l & Hl & E)%elem_of_map. apply elem_of_map. exists l. by split; [apply Hsm|].
    + intros c _ (l & Hl & E)%elem_of_map. apply elem_of_map. exists l. by split; [apply Hsp|].
Qed.

Lemma NoDup_same {A} (f : A → uuid) (l : list A) (x y : A) : NoDup (map f l) → x ∈ l → y ∈ l → f x = f y → x = y.
Proof. apply NoDup_map_inj. Qed.

(** The rows a cascade leaves. *)
Lemma kept_row {A} (P : A → Prop) `{!∀ x, Decision (P x)} (R : A → A → Prop) (l : list A) x :
  R x x → x ∈ l → P x → ∃ y, y ∈ filter P l ∧ R x y.
Proof. intros HR Hx HP. exists x. by rewrite list_elem_of_filter. Qed.

Lemma same_semantic_refl r : same_semantic r r.
Proof. done. Qed.

Lemma same_meta_refl r : same_meta r r.
Proof. done. Qed.

Lemma delete_rows_shrinks t pid : profiles_ok t → links_ok t → shrinks t (delete_rows t pid).
Proof.
  intros Ht Hl.
  assert (Hsid : ∀ r, r ∈ semantic t → s_id r ∉ semantic_ids t pid → s_profile r ≠ pid).
  { intros r Hr Hn E. apply Hn, elem_of_map. exists r. by rewrite list_elem_of_filter. }
  assert (Hmid : ∀ r, r ∈ meta t → m_id r ∉ meta_ids t pid → m_profile r ≠ pid).
  { intros r Hr Hn E. apply Hn, elem_of_map. exists r. by rewrite list_elem_of_filter. }
  unfold delete_rows. split; cbn [next_uuid semantic meta summary_messages summary_parents meta_sources meta_parents].
  - done.
  - intros r [_ Hr]%list_elem_of_filter. by exists r.
  - intros r [_ Hr]%list_elem_of_filter. split; [by exists r|]. by apply (lk_confidence _ Hl).
  - intros l [H1 Hin]%list_elem_of_filter. split; [done|]. intros r Hr E.
    apply kept_row; [done..|]. apply Hsid; [done|]. by rewrite E.
  - intros l [[H1 H2] Hin]%list_elem_of_filter. split; [done|]. intros r Hr E.
    apply kept_row; [done..|]. apply Hsid; [done|]. by destruct E as [-> | ->].
  - intros l [[H1 H2] Hin]%list_elem_of_filter. split; [done|]. split; intros r Hr E.
    + apply kept_row; [done..|]. apply Hmid; [done|]. by rewrite E.
    + apply kept_row; [done..|]. apply Hsid; [done|]. by rewrite E.
  - intros l [[H1 H2] Hin]%list_elem_of_filter. split; [done|]. intros r Hr E.
    apply kept_row; [done..|]. apply Hmid; [done|]. by destruct E as [-> | ->].
Qed.

Lemma delete_semantic_shrinks db sid : profiles_ok (tabs db) → links_ok (tabs db) →
  shrinks (tabs db) (tabs (deleteSemanticMemory db sid).1).
Proof.
  intros Ht Hl. split; cbn.
  - done.
  - intros r [_ Hr]%list_elem_of_filter. by exists r.
  - intros r Hr. split; [by exists r|]. by apply (lk_confidence _ Hl).
  - intros l [H1 Hin]%list_elem_of_filter. split; [done|]. intros r Hr E.
    apply kept_row; [done..|]. by rewrite E.
  - intros l [[H1 H2] Hin]%list_elem_of_filter. split; [done|]. intros r Hr E.
    apply kept_row; [done..|]. by destruct E as [-> | ->].
  - intros l [H1 Hin]%list_elem_of_filter. split; [done|]. split; intros r Hr E.
    + by exists r.
    + apply kept_row; [done..|]. by rewrite E.
  - intros l Hin. split; [done|]. intros r Hr _. by exists r.
Qed.

(** An update of columns that the links do not see. *)
Lemma update_shrinks t (f : semantic_row → semantic_row) (g : meta_row → meta_row) : links_ok t →
  (∀ r, same_semantic r (f r)) → (∀ r, same_meta r (g r)) →
  (∀ r, r ∈ meta t → unit_interval (confidence (m_data (g r))) = true) →
  shrinks t (put_meta (put_semantic t (map f (semantic t)) (next_uuid t)) (map g (meta t)) (next_uuid t)).
Proof.
  intros Hl Hf Hg Hc.
  assert (Hs : ∀ r, r ∈ semantic t → ∃ r', r' ∈ map f (semantic t) ∧ same_semantic r r').
  { intros r Hr. exists (f r). split; [|apply Hf]. apply elem_of_map. by exists r. }
  assert (Hm : ∀ r, r ∈ meta t → ∃ r', r' ∈ map g (meta t) ∧ same_meta r r').
  { intros r Hr. exists (g r). split; [|apply Hg]. apply elem_of_map. by exists r. }
  split; cbn; try done.
  - intros r (q & Hq & <-)%elem_of_map. exists q. by split; [|apply Hf].
  - intros r (q & Hq & <-)%elem_of_map. split; [exists q; by split; [|apply Hg]|by apply Hc].
  - intros l Hin. split; [done|]. intros r Hr _. by apply Hs.
  - intros l Hin. split; [done|]. intros r Hr _. by apply Hs.
  - intros l Hin. split; [done|]. split; intros r Hr _; [by apply Hm|by apply Hs].
  - intros l Hin. split; [done|]. intros r Hr _. by apply Hm.
Qed.

(** ** A new row *)

Lemma insert_semantic_ok t r : links_ok t → s_id r = next_uuid t → (∀ x, x ∈ sids t → x < next_uuid t) →
  let t' := put_semantic t (semantic t ++ [r]) (S (next_uuid t)) in
  links_ok t' ∧ stable t t' ∧ no_new_sources t t'.
Proof.
  intros H Hid Hb t'. assert (Hold : ∀ q, q ∈ semantic t → q ∈ semantic t') by (intros; apply elem_of_app; by left).
  assert (Hno : ∀ key, (s_id r, key) ∉ summary_messages t).
  { intros key Hl. destruct (lk_summary _ H _ _ Hl) as (q & Hq & E & _).
    assert (s_id q < next_uuid t) by (apply Hb, elem_of_map; by exists q). lia. }
  split; [|split].
  - split; cbn [summary_messages summary_parents meta_sources meta_parents meta t' put_semantic]; try apply H.
    + intros sid key Hl. destruct (lk_summary _ H _ _ Hl) as (q & Hq & ? & ?). exists q. auto.
    + intros r1 r2 key [H1|H1%list_elem_of_singleton]%elem_of_app [H2|H2%list_elem_of_singleton]%elem_of_app L1 L2 Hp; subst.
      * by eapply (lk_once _ H).
      * by apply Hno in L2.
      * by apply Hno in L1.
      * done.
    + intros p c Hl. destruct (lk_parent _ H _ _ Hl) as (rp & rc & ? & ? & ? & ? & ? & ?). exists rp, rc. auto 10.
    + intros m s Hl. destruct (lk_source _ H _ _ Hl) as (rm & rs & ? & ? & ? & ? & ? & ?). exists rm, rs. auto 10.
  - split; cbn; [lia|..].
    + intros q [Hq|Hq%list_elem_of_singleton]%elem_of_app Hlt; [by exists q|]. subst. lia.
    + intros q Hq _. by exists q.
  - by split.
Qed.

Lemma insert_meta_ok t r : links_ok t → m_id r = next_uuid t → (0 ≤ m_depth (m_data r))%Z →
  unit_interval (confidence (m_data r)) = true →
  let t' := put_meta t (meta t ++ [r]) (S (next_uuid t)) in
  links_ok t' ∧ stable t t' ∧ no_new_sources t t'.
Proof.
  intros H Hid Hd Hc t'. assert (Hold : ∀ q, q ∈ meta t → q ∈ meta t') by (intros; apply elem_of_app; by left).
  split; [|split].
  - split; cbn [summary_messages summary_parents meta_sources meta_parents semantic t' put_meta]; try apply H.
    + intros m s Hl. destruct (lk_source _ H _ _ Hl) as (rm & rs & ? & ? & ? & ? & ? & ?). exists rm, rs. auto 10.
    + intros p c Hl. destruct (lk_meta _ H _ _ Hl) as (rp & rc & ? & ? & ? & ? & ? & ? & ?). exists rp, rc. auto 10.
    + intros q [Hq|Hq%list_elem_of_singleton]%elem_of_app; [by apply (lk_depth _ H)|by subst].
    + intros q [Hq|Hq%list_elem_of_singleton]%elem_of_app; [by apply (lk_confidence _ H)|by subst].
  - split; cbn; [lia|..].
    + intros q Hq _. by exists q.
    + intros q [Hq|Hq%list_elem_of_singleton]%elem_of_app Hlt; [by exists q|]. subst. lia.
  - by split.
Qed.

(** ** Clones *)

(** What a clone adds: copies of the source's rows under the new names [f] and [g], and
    the source's links renamed. *)
Record copied (t t' : profile_db) (src new : uuid) (f g : uuid → option uuid) : Prop := {
  cp_next : next_uuid t ≤ next_uuid t';
  cp_fresh a b : f a = Some b ∨ g a = Some b → next_uuid t ≤ b;
  cp_new_profile : next_uuid t ≤ new;
  cp_f_inj a a' b : f a = Some b → f a' = Some b → a = a';
  cp_semantic r : r ∈ semantic t' ↔ r ∈ semantic t ∨
    ∃ r0, r0 ∈ semantic t ∧ s_profile r0 = src ∧ f (s_id r0) = Some (s_id r) ∧ s_profile r = new ∧
      s_data r = s_data r0 ∧ r ∈ semantic t';
  cp_semantic_copy r0 b : r0 ∈ semantic t → f (s_id r0) = Some b →
    ∃ r, r ∈ semantic t' ∧ s_id r = b ∧ s_profile r = new ∧ s_data r = s_data r0;
  cp_meta r : r ∈ meta t' ↔ r ∈ meta t ∨
    ∃ r0, r0 ∈ meta t ∧ m_profile r0 = src ∧ g (m_id r0) = Some (m_id r) ∧ m_profile r = new ∧
      m_data r = m_data r0 ∧ r ∈ meta t';
  cp_meta_copy r0 b : r0 ∈ meta t → g (m_id r0) = Some b →
    ∃ r, r ∈ meta t' ∧ m_id r = b ∧ m_profile r = new ∧ m_data r = m_data r0;
  cp_sm l : l ∈ summary_messages t' ↔ l ∈ summary_messages t ∨
    ∃ a, (a, l.2) ∈ summary_messages t ∧ f a = Some l.1;
  cp_sp l : l ∈ summary_parents t' → l ∈ summary_parents t ∨
    ∃ a b, (a, b) ∈ summary_parents t ∧ f a = Some l.1 ∧ f b = Some l.2;
  cp_ms l : l ∈ meta_sources t' → l ∈ meta_sources t ∨
    ∃ a b, (a, b) ∈ meta_sources t ∧ g a = Some l.1 ∧ f b = Some l.2;
  cp_mp l : l ∈ meta_parents t' → l ∈ meta_parents t ∨
    ∃ a b, (a, b) ∈ meta_parents t ∧ g a = Some l.1 ∧ g b = Some l.2 }.

(** The copies of the rows of one table. *)
Lemma copied_table {A D} (id_of prof : A → uuid) (data : A → D) (copy : uuid → A → A) src pid start rows olds new :
  let f := id_get (zip olds (seq start (length olds))) in
  NoDup (map id_of rows) → olds ≡ₚ map id_of (filter (λ r, prof r = src) rows) →
  map id_of new = seq start (length olds) → (∀ n r, prof (copy n r) = pid) → (∀ n r, data (copy n r) = data r) →
  Forall2 (λ old r, ∃ r0 n, List.find (λ r, bool_decide (id_of r = old)) rows = Some r0 ∧ r = copy n r0) olds new →
  (∀ r, r ∈ new → ∃ r0, r0 ∈ rows ∧ prof r0 = src ∧ f (id_of r0) = Some (id_of r) ∧ prof r = pid ∧ data r = data r0) ∧
  (∀ r0 b, r0 ∈ rows → f (id_of r0) = Some b → ∃ r, r ∈ new ∧ id_of r = b ∧ prof r = pid ∧ data r = data r0) ∧
  (∀ a b, f a = Some b → start ≤ b) ∧ (∀ a a' b, f a = Some b → f a' = Some b → a = a').
Proof.
  intros f Hnd Hs Hids Hprof Hdata Hf.
  assert (Hno : NoDup olds) by (rewrite Hs; by apply NoDup_map_filter).
  assert (Hg : ∀ a b, f a = Some b ↔ ∃ i, olds !! i = Some a ∧ b = start + i) by (intros; by apply id_get_zip).
  assert (Hrow : ∀ i a r, olds !! i = Some a → new !! i = Some r → id_of r = start + i ∧
    ∃ r0, r0 ∈ rows ∧ id_of r0 = a ∧ prof r = pid ∧ data r = data r0).
  { intros i a r Ha Hr. split.
    - assert (E : map id_of new !! i = Some (id_of r)) by (by rewrite list_lookup_fmap, Hr).
      rewrite Hids in E. by apply lookup_seq in E as [-> _].
    - destruct (Forall2_lookup_lr _ _ _ _ _ _ Hf Ha Hr) as (r0 & n & [Hin E]%find_some & ->).
      exists r0. apply bool_decide_eq_true in E. rewrite list_elem_of_In. by rewrite Hprof, Hdata. }
  split; [|split; [|split]].
  - intros r [i Hi]%list_elem_of_lookup. destruct (Forall2_lookup_r _ _ _ _ _ Hf Hi) as (a & Ha & _).
    destruct (Hrow i a r Ha Hi) as (Eid & r0 & Hr0 & <- & Hp & Hd). exists r0.
    assert (Hsrc : id_of r0 ∈ olds) by (by eapply list_elem_of_lookup_2). rewrite Hs, elem_of_map in Hsrc.
    destruct Hsrc as (q & [Eq Hq]%list_elem_of_filter & Ei).
    rewrite (NoDup_map_inj id_of rows q r0 Hnd Hq Hr0 Ei) in Eq.
    split_and!; try done. apply Hg. by exists i.
  - intros r0 b Hr0 (i & Hi & ->)%Hg. destruct (Forall2_lookup_l _ _ _ _ _ Hf Hi) as (r & Hr & _).
    destruct (Hrow i _ r Hi Hr) as (Eid & q & Hq & E & Hp & Hd).
    rewrite (NoDup_map_inj id_of rows q r0 Hnd Hq Hr0 E) in Hd. exists r. by split; [eapply list_elem_of_lookup_2|].
  - intros a b (i & _ & ->)%Hg. lia.
  - intros a a' b (i & Hi & ->)%Hg (i' & Hi' & E)%Hg. assert (i' = i) as -> by lia. congruence.
Qed.

Lemma clone_copied maxp t now src n d p t' : profiles_ok t → cloneProfile maxp t now src n d = Ok (p, t') →
  ∃ f g, copied t t' src (id p) f g.
Proof.
  intros Hok E. apply cloneProfile_shape in E as (solds & molds & snew & mnew & smap & mmap &
    Hs & Hm & Esm & Emm & Hid & _ & _ & Hsi & Hmi & Hfs & Hfm & ->). subst smap mmap.
  destruct (copied_table s_id s_profile s_data (copy_semantic (id p) now) src (id p) (S (next_uuid t))
    (semantic t) solds snew (ok_sids _ Hok) Hs Hsi (λ _ _, eq_refl) (λ _ _, eq_refl) Hfs) as (S1 & S2 & S3 & S4).
  destruct (copied_table m_id m_profile m_data (copy_meta (id p) now) src (id p) (S (next_uuid t) + length solds)
    (meta t) molds mnew (ok_mids _ Hok) Hm Hmi (λ _ _, eq_refl) (λ _ _, eq_refl) Hfm) as (M1 & M2 & M3 & M4).
  exists (id_get (zip solds (seq (S (next_uuid t)) (length solds)))),
    (id_get (zip molds (seq (S (next_uuid t) + length solds) (length molds)))).
  split; cbn [next_uuid semantic meta summary_messages summary_parents meta_sources meta_parents].
  - lia.
  - intros a b [E|E]; [apply S3 in E|apply M3 in E]; lia.
  - lia.
  - apply S4.
  - intros r. rewrite elem_of_app. split.
    + intros [?|Hr]; [by left|right]. destruct (S1 r Hr) as (r0 & ? & ? & ? & ? & ?).
      exists r0. split_and!; try done. apply elem_of_app. by right.
    + intros [?|(r0 & _ & _ & _ & _ & _ & Hr)]; [by left|]. by apply elem_of_app in Hr.
  - intros r0 b Hr0 Hb. destruct (S2 r0 b Hr0 Hb) as (r & ? & ?). exists r. by rewrite elem_of_app; auto.
  - intros r. rewrite elem_of_app. split.
    + intros [?|Hr]; [by left|right]. destruct (M1 r Hr) as (r0 & ? & ? & ? & ? & ?).
      exists r0. split_and!; try done. apply elem_of_app. by right.
    + intros [?|(r0 & _ & _ & _ & _ & _ & Hr)]; [by left|]. by apply elem_of_app in Hr.
  - intros r0 b Hr0 Hb. destruct (M2 r0 b Hr0 Hb) as (r & ? & ?). exists r. by rewrite elem_of_app; auto.
  - intros [a x]. rewrite elem_of_clone_links. unfold first_only. split.
    + intros [?|([b y] & Hl & _ & Ef)]; [by left|right]. simplify_option_eq. by exists b.
    + intros [?|(b & Hl & Ef)]; [by left|right]. exists (b, x). simpl in *. rewrite Ef. split_and!; try done.
      apply id_get_zip in Ef as (i & Hi & _); [|rewrite Hs; by apply NoDup_map_filter, Hok].
      rewrite <- Hs. by eapply list_elem_of_lookup_2.
  - intros [a b]. rewrite elem_of_clone_links. unfold both.
    intros [?|([c e] & Hl & _ & Ef)]; [by left|right]. simplify_option_eq. by exists c, e.
  - intros [a b]. rewrite elem_of_clone_links. unfold both.
    intros [?|([c e] & Hl & _ & Ef)]; [by left|right]. simplify_option_eq. by exists c, e.
  - intros [a b]. rewrite elem_of_clone_links. unfold both.
    intros [?|([c e] & Hl & _ & Ef)]; [by left|right]. simplify_option_eq. by exists c, e.
Qed.

Section Copied.
Context (t t' : profile_db) (src new : uuid) (f g : uuid → option uuid).
Context (Hok : profiles_ok t) (H : links_ok t) (Hc : copied t t' src new f g).

Lemma old_summary l : l ∈ summary_messages t → l.1 < next_uuid t.
Proof.
  destruct l as [sid key]. intros Hl. destruct (lk_summary _ H _ _ Hl) as (q & Hq & <- & _).
  apply (sid_bound _ _ Hok), elem_of_map. by exists q.
Qed.

Lemma old_parent l : l ∈ summary_parents t → l.1 < next_uuid t ∧ l.2 < next_uuid t.
Proof.
  destruct l as [p c]. intros Hl. destruct (lk_parent _ H _ _ Hl) as (rp & rc & Hp & Hr & <- & <- & _).
  split; apply (sid_bound _ _ Hok), elem_of_map; eauto.
Qed.

Lemma copied_semantic_in r : r ∈ semantic t → r ∈ semantic t'.
Proof. intros Hr. apply (cp_semantic _ _ _ _ _ _ Hc). by left. Qed.

Lemma copied_meta_in r : r ∈ meta t → r ∈ meta t'.
Proof. intros Hr. apply (cp_meta _ _ _ _ _ _ Hc). by left. Qed.

(** A row of the new tables is an old one, or a copy under a fresh name. *)
Lemma copied_row r : r ∈ semantic t' →
  (r ∈ semantic t ∧ s_id r < next_uuid t ∧ s_profile r ≠ new) ∨
  (∃ r0, r0 ∈ semantic t ∧ s_profile r0 = src ∧ f (s_id r0) = Some (s_id r) ∧ s_profile r = new ∧
     s_data r = s_data r0 ∧ next_uuid t ≤ s_id r).
Proof.
  intros [Hr|(r0 & ? & ? & Ef & ? & ? & _)]%(cp_semantic _ _ _ _ _ _ Hc).
  - left. split; [done|]. split; [apply (sid_bound _ _ Hok), elem_of_map; by exists r|].
    apply (ok_semantic _ Hok), (pid_bound _ _ Hok) in Hr. pose proof (cp_new_profile _ _ _ _ _ _ Hc). lia.
  - right. exists r0. split_and!; try done. apply (cp_fresh _ _ _ _ _ _ Hc (s_id r0)). by left.
Qed.

(** A link from a copy is the source's link. *)
Lemma copied_message r key : r ∈ semantic t' → (s_id r, key) ∈ summary_messages t' →
  (r ∈ semantic t ∧ s_profile r ≠ new ∧ (s_id r, key) ∈ summary_messages t) ∨
  (∃ r0, r0 ∈ semantic t ∧ s_profile r0 = src ∧ f (s_id r0) = Some (s_id r) ∧ s_profile r = new ∧
     (s_id r0, key) ∈ summary_messages t).
Proof.
  intros Hr Hl. apply (cp_sm _ _ _ _ _ _ Hc) in Hl. destruct (copied_row r Hr) as [(Hr0 & Hlt & Hp)|(r0 & H0 & P & Ef & Hp & _ & Hge)].
  - destruct Hl as [Hl|(a & _ & Ea)]; [by left|]. simpl in Ea.
    pose proof (cp_fresh _ _ _ _ _ _ Hc a (s_id r) (or_introl Ea)). lia.
  - right. exists r0. split_and!; try done. destruct Hl as [Hl|(a & Hl & Ea)].
    + apply old_summary in Hl. simpl in Hl. lia.
    + simpl in Ea. by rewrite (cp_f_inj _ _ _ _ _ _ Hc _ _ _ Ef Ea).
Qed.

Lemma copied_links_ok : links_ok t'.
Proof.
  split.
  - intros sid key [Hl|(a & Hl & Ea)]%(cp_sm _ _ _ _ _ _ Hc); destruct (lk_summary _ H _ _ Hl) as (r & Hr & E & Hd).
    + exists r. split; [by apply copied_semantic_in|done].
    + subst a. destruct (cp_semantic_copy _ _ _ _ _ _ Hc r sid Hr Ea) as (r' & Hr' & E & _ & D).
      exists r'. unfold summary_of_depth in *. by rewrite D.
  - intros r r' key Hr Hr' L L' Hp.
    destruct (copied_message r key Hr L) as [(H1 & P1 & L1)|(r1 & H1 & P1 & E1 & N1 & L1)],
      (copied_message r' key Hr' L') as [(H2 & P2 & L2)|(r2 & H2 & P2 & E2 & N2 & L2)]; try congruence.
    + by apply (lk_once _ H r r' key).
    + assert (E : s_id r1 = s_id r2) by (apply (lk_once _ H r1 r2 key); congruence). congruence.
  - intros p c [Hl|(a & b & Hl & Ea & Eb)]%(cp_sp _ _ _ _ _ _ Hc);
      destruct (lk_parent _ H _ _ Hl) as (rp & rc & Hrp & Hrc & E1 & E2 & D1 & D2).
    + exists rp, rc. split_and!; try done; by apply copied_semantic_in.
    + subst. destruct (cp_semantic_copy _ _ _ _ _ _ Hc rp p Hrp Ea) as (rp' & ? & ? & _ & Dp).
      destruct (cp_semantic_copy _ _ _ _ _ _ Hc rc c Hrc Eb) as (rc' & ? & ? & _ & Dc).
      exists rp', rc'. unfold summary_of_depth in *. by rewrite Dp, Dc.
  - intros p p' c [L|(a & b & L & Ea & Eb)]%(cp_sp _ _ _ _ _ _ Hc) [L'|(a' & b' & L' & Ea' & Eb')]%(cp_sp _ _ _ _ _ _ Hc);
      simpl in *.
    + by eapply (lk_parent_once _ H).
    + apply old_parent in L as [_ L]. pose proof (cp_fresh _ _ _ _ _ _ Hc _ _ (or_introl Eb')). simpl in L. lia.
    + apply old_parent in L' as [_ L']. pose proof (cp_fresh _ _ _ _ _ _ Hc _ _ (or_introl Eb)). simpl in L'. lia.
    + rewrite (cp_f_inj _ _ _ _ _ _ Hc _ _ _ Eb Eb') in L. rewrite (lk_parent_once _ H _ _ _ L L') in Ea. congruence.
  - intros m s [Hl|(a & b & Hl & Ea & Eb)]%(cp_ms _ _ _ _ _ _ Hc);
      destruct (lk_source _ H _ _ Hl) as (rm & rs & Hrm & Hrs & E1 & E2 & D & P).
    + exists rm, rs. split_and!; try done; [by apply copied_meta_in|by apply copied_semantic_in].
    + subst. destruct (cp_meta_copy _ _ _ _ _ _ Hc rm m Hrm Ea) as (rm' & ? & ? & Pm & Dm).
      destruct (cp_semantic_copy _ _ _ _ _ _ Hc rs s Hrs Eb) as (rs' & ? & ? & Ps & Ds).
      exists rm', rs'. rewrite Dm, Pm, Ps. by split_and!.
  - intros p c [Hl|(a & b & Hl & Ea & Eb)]%(cp_mp _ _ _ _ _ _ Hc);
      destruct (lk_meta _ H _ _ Hl) as (rp & rc & Hrp & Hrc & E1 & E2 & D & P & T).
    + exists rp, rc. split_and!; try done; by apply copied_meta_in.
    + subst. destruct (cp_meta_copy _ _ _ _ _ _ Hc rp p Hrp Ea) as (rp' & ? & ? & Pp & Dp).
      destruct (cp_meta_copy _ _ _ _ _ _ Hc rc c Hrc Eb) as (rc' & ? & ? & Pc & Dc).
      exists rp', rc'. rewrite Dp, Dc, Pp, Pc. by split_and!.
  - intros r [Hr|(r0 & Hr & _ & _ & _ & D & _)]%(cp_meta _ _ _ _ _ _ Hc); [|rewrite D]; by apply (lk_depth _ H).
  - intros r [Hr|(r0 & Hr & _ & _ & _ & D & _)]%(cp_meta _ _ _ _ _ _ Hc); [|rewrite D]; by apply (lk_confidence _ H).
Qed.

Lemma copied_stable : stable t t' ∧ no_new_sources t t'.
Proof.
  split; [split|split].
  - apply (cp_next _ _ _ _ _ _ Hc).
  - intros r Hr Hlt. destruct (copied_row r Hr) as [(? & _)|(r0 & _ & _ & _ & _ & _ & ?)]; [by exists r|lia].
  - intros r [Hr|(r0 & _ & _ & Eg & _)]%(cp_meta _ _ _ _ _ _ Hc) Hlt; [by exists r|].
    pose proof (cp_fresh _ _ _ _ _ _ Hc _ _ (or_intror Eg)). lia.
  - intros key (l & [Hl|(a & Hl & _)]%(cp_sm _ _ _ _ _ _ Hc) & <-)%elem_of_map; apply elem_of_map; eauto.
  - intros c Hlt (l & [Hl|(a & b & _ & _ & Eb)]%(cp_sp _ _ _ _ _ _ Hc) & <-)%elem_of_map; [apply elem_of_map; eauto|].
    pose proof (cp_fresh _ _ _ _ _ _ Hc _ _ (or_introl Eb)). lia.
Qed.
End Copied.

(** ** The profiles' invariant under the statements *)

Lemma chats_tabs_ok t l : profiles_ok t → (∀ c, c ∈ l → chat_profile c ∈ pids t) → profiles_ok (put_chats t l).
Proof. intros [] Hl. by split. Qed.

Lemma external_tabs_ok t l : profiles_ok t → (∀ r, r ∈ l → e_profile r ∈ pids t) → profiles_ok (put_external t l).
Proof. intros [] Hl. by split. Qed.

Lemma fresh_snoc (l : list uuid) n : NoDup l → (∀ x, x ∈ l → x < n) → NoDup (l ++ [n]).
Proof.
  intros Hl Hb. apply NoDup_app. split; [done|]. split; [|apply NoDup_singleton].
  intros x Hx ->%list_elem_of_singleton. apply Hb in Hx. lia.
Qed.

Lemma semantic_tabs_ok t r : profiles_ok t → s_id r = next_uuid t → s_profile r ∈ pids t →
  profiles_ok (put_semantic t (semantic t ++ [r]) (S (next_uuid t))).
Proof.
  intros Hok Hid Hp. pose proof (λ x, sid_bound t x Hok) as Hs. pose proof (λ x, ok_bound t Hok x) as Hb.
  destruct Hok. assert (Hsids : ∀ x, x ∈ sids t → x ∈ map s_id (semantic t ++ [r])).
  { intros x Hx. rewrite map_app. apply elem_of_app. by left. }
  split; unfold sids, mids, pids in *; cbn; try done.
  - rewrite map_app. simpl. rewrite Hid. by apply fresh_snoc.
  - intros x [Hx|[Hx|Hx]%elem_of_app]%elem_of_app.
    + assert (x < next_uuid t) by (apply Hb, elem_of_app; by left). lia.
    + rewrite map_app in Hx. apply elem_of_app in Hx as [Hx|Hx%list_elem_of_singleton]; [apply Hs in Hx; lia|lia].
    + assert (x < next_uuid t) by (apply Hb, elem_of_app; right; apply elem_of_app; by right). lia.
  - intros q [Hq|Hq%list_elem_of_singleton]%elem_of_app; [auto|by subst].
  - intros l Hl. auto.
  - intros l Hl. destruct (ok_sp l Hl). auto.
  - intros l Hl. destruct (ok_ms l Hl). auto.
Qed.

Lemma meta_tabs_ok t r : profiles_ok t → m_id r = next_uuid t → m_profile r ∈ pids t →
  profiles_ok (put_meta t (meta t ++ [r]) (S (next_uuid t))).
Proof.
  intros Hok Hid Hp. pose proof (λ x, mid_bound t x Hok) as Hs. pose proof (λ x, ok_bound t Hok x) as Hb.
  destruct Hok. assert (Hmids : ∀ x, x ∈ mids t → x ∈ map m_id (meta t ++ [r])).
  { intros x Hx. rewrite map_app. apply elem_of_app. by left. }
  split; unfold sids, mids, pids in *; cbn; try done.
  - rewrite map_app. simpl. rewrite Hid. by apply fresh_snoc.
  - intros x [Hx|[Hx|Hx]%elem_of_app]%elem_of_app.
    + assert (x < next_uuid t) by (apply Hb, elem_of_app; by left). lia.
    + assert (x < next_uuid t) by (apply Hb, elem_of_app; right; apply elem_of_app; by left). lia.
    + rewrite map_app in Hx. apply elem_of_app in Hx as [Hx|Hx%list_elem_of_singleton]; [apply Hs in Hx; lia|lia].
  - intros q [Hq|Hq%list_elem_of_singleton]%elem_of_app; [auto|by subst].
  - intros l Hl. destruct (ok_ms l Hl). auto.
  - intros l Hl. destruct (ok_mp l Hl). auto.
Qed.

Lemma map_id_same {A} (id_of : A → uuid) (f : A → A) l : (∀ r, id_of (f r) = id_of r) → map id_of (map f l) = map id_of l.
Proof. intros H. rewrite map_map. by apply map_ext. Qed.

Lemma update_tabs_ok t (f : semantic_row → semantic_row) (g : meta_row → meta_row) : profiles_ok t →
  (∀ r, same_semantic r (f r)) → (∀ r, same_meta r (g r)) →
  profiles_ok (put_meta (put_semantic t (map f (semantic t)) (next_uuid t)) (map g (meta t)) (next_uuid t)).
Proof.
  intros Hok Hf Hg.
  assert (Es : map s_id (map f (semantic t)) = map s_id (semantic t)).
  { apply map_id_same. intros r. by destruct (Hf r) as [-> _]. }
  assert (Em : map m_id (map g (meta t)) = map m_id (meta t)).
  { apply map_id_same. intros r. by destruct (Hg r) as [-> _]. }
  destruct Hok. split; unfold sids, mids, pids in *; cbn; rewrite ?Es, ?Em; try done.
  - intros r (q & Hq & <-)%elem_of_map. destruct (Hf q) as (_ & <- & _). auto.
  - intros r (q & Hq & <-)%elem_of_map. destruct (Hg q) as (_ & <- & _). auto.
Qed.

Lemma delete_semantic_tabs_ok db sid : profiles_ok (tabs db) → profiles_ok (tabs (deleteSemanticMemory db sid).1).
Proof.
  intros Hok. pose proof (λ x, ok_bound _ Hok x) as Hb. destruct Hok.
  assert (Hkept : ∀ x, x ∈ sids (tabs db) → x ≠ sid → x ∈ map s_id (filter (λ r, s_id r ≠ sid) (semantic (tabs db)))).
  { intros x (r & Hr & <-)%elem_of_map Hx. apply elem_of_map. exists r. by rewrite list_elem_of_filter. }
  split; unfold sids, mids, pids in *; cbn; try done.
  - by apply NoDup_map_filter.
  - intros x [Hx|[Hx|Hx]%elem_of_app]%elem_of_app; apply Hb; rewrite !elem_of_app; auto.
    right. left. by eapply elem_of_ids.
  - intros r [_ Hr]%list_elem_of_filter. auto.
  - intros l [? Hl]%list_elem_of_filter. auto.
  - intros l [[? ?] Hl]%list_elem_of_filter. destruct (ok_sp l Hl). auto.
  - intros l [? Hl]%list_elem_of_filter. destruct (ok_ms l Hl). auto.
Qed.
