(* ===== verification/MemoryOps.v ===== *)
(** * The statements keep the memory tables in order

    Every statement of [MemoryDb.v], and every transaction of the profile manager on the
    same tables, keeps the invariant of [MemoryInv.v]; the jobs' inserts into the join
    tables keep it where a job makes them. *)

From S2P Require Import Prelude JsMap JsNumber Profiles IdentityOps MemoryDb MemoryInv.
Local Open Scope list_scope.

(** What the transactions of the rest of the program do, as seen by a job. *)
Definition undisturbing (t t' : profile_db) : Prop := stable t t' ∧ no_new_sources t t'.

#[export] Instance undisturbing_refl : Reflexive undisturbing.
Proof. intros t. split; [done|apply no_new_refl]. Qed.

#[export] Instance undisturbing_trans : Transitive undisturbing.
Proof. intros t1 t2 t3 [S1 N1] [S2 N2]. split; [by transitivity t2|by eapply no_new_trans]. Qed.

Definition calm (db db' : memory_db) : Prop := memory_ok db' ∧ undisturbing (tabs db) (tabs db').

Lemma calm_refl db : memory_ok db → calm db db.
Proof. by split. Qed.

(** ** Changing the tables of the memories *)

Lemma with_tabs_ok db t' : memory_ok db → profiles_ok t' → links_ok t' → (next_uuid (tabs db) ≤ next_uuid t')%nat →
  map chat_id (chats t') = map chat_id (chats (tabs db)) →
  (∀ key, linked t' key → key ∈ map w_key (working db)) → memory_ok (with_tabs db t').
Proof.
  intros [] Ht Hl Hn Hc Hk. split; cbn [tabs sessions working with_tabs]; rewrite ?Hc; auto.
  - intros x Hx. apply mo_session_bound in Hx. lia.
  - intros l Hin. apply Hk, elem_of_map. by exists l.
Qed.

Lemma linked_known db key : memory_ok db → linked (tabs db) key → key ∈ map w_key (working db).
Proof. intros Hok (l & Hl & <-)%elem_of_map. by apply (mo_linked _ Hok). Qed.

Lemma with_tabs_calm db t' : memory_ok db → profiles_ok t' →
  links_ok t' ∧ stable (tabs db) t' ∧ no_new_sources (tabs db) t' →
  map chat_id (chats t') = map chat_id (chats (tabs db)) → calm db (with_tabs db t').
Proof.
  intros Hok Ht (Hl & Hs & Hn) Hc. split; [|by split]. apply with_tabs_ok; [done..|apply Hs|done|].
  intros key Hk. by apply linked_known, Hn.
Qed.

(** The rest of the tables. *)
Lemma rows_calm db l m s : memory_ok db → NoDup (map ss_id l) →
  (∀ x, x ∈ map ss_id l → x < next_uuid (tabs db)) → (∀ x, x ∈ session_ids db → x ∈ map ss_id l) →
  (∀ x, x ∈ l → ss_chat x ∈ map chat_id (chats (tabs db))) → NoDup (map w_key m) →
  (∀ k, k ∈ map w_key (working db) → k ∈ map w_key m) →
  (∀ x, x ∈ m → w_chat x ∈ map chat_id (chats (tabs db))) →
  (∀ x y, x ∈ m → w_session x = Some y → y ∈ map ss_id l) → calm db (MemoryDb (tabs db) l m s).
Proof.
  intros Hok H1 H2 H3 H4 H5 H6 H7 H8. split; [|done]. destruct Hok. split; cbn [tabs sessions working session_ids]; auto.
Qed.

Lemma update_semantic_calm db (f : semantic_row → semantic_row) : memory_ok db → (∀ r, same_semantic r (f r)) →
  calm db (with_tabs db (put_semantic (tabs db) (map f (semantic (tabs db))) (next_uuid (tabs db)))).
Proof.
  intros Hok Hf. pose proof (mo_tabs _ Hok) as Ht. pose proof (mo_links _ Hok) as Hl.
  assert (E : put_semantic (tabs db) (map f (semantic (tabs db))) (next_uuid (tabs db)) =
    put_meta (put_semantic (tabs db) (map f (semantic (tabs db))) (next_uuid (tabs db)))
      (map (λ r, r) (meta (tabs db))) (next_uuid (tabs db))) by (unfold put_meta, put_semantic; by rewrite map_id).
  rewrite E. apply with_tabs_calm; [done| | |done].
  - by apply update_tabs_ok.
  - apply shrinks_ok; [|done]. apply update_shrinks; [done..|]. apply (lk_confidence _ Hl).
Qed.

Lemma update_meta_calm db (g : meta_row → meta_row) : memory_ok db → (∀ r, same_meta r (g r)) →
  (∀ r, r ∈ meta (tabs db) → unit_interval (confidence (m_data (g r))) = true) →
  calm db (with_tabs db (put_meta (tabs db) (map g (meta (tabs db))) (next_uuid (tabs db)))).
Proof.
  intros Hok Hg Hc. pose proof (mo_tabs _ Hok) as Ht. pose proof (mo_links _ Hok) as Hl.
  assert (E : put_meta (tabs db) (map g (meta (tabs db))) (next_uuid (tabs db)) =
    put_meta (put_semantic (tabs db) (map (λ r, r) (semantic (tabs db))) (next_uuid (tabs db)))
      (map g (meta (tabs db))) (next_uuid (tabs db))) by (unfold put_meta, put_semantic; by rewrite map_id).
  rewrite E. apply with_tabs_calm; [done| | |done].
  - by apply update_tabs_ok.
  - apply shrinks_ok; [|done]. by apply update_shrinks.
Qed.

(** ** New rows *)

Section Statements.
Context (real : spec_float → spec_float).

Lemma insert_semantic_step db pid d now db' sid : memory_ok db → insert_semantic real db pid d now = Some (db', sid) →
  calm db db' ∧ sid = next_uuid (tabs db) ∧ summary_messages (tabs db') = summary_messages (tabs db) ∧
  ∃ r, r ∈ semantic (tabs db') ∧ s_id r = sid ∧ s_profile r = pid ∧
    memory_type (s_data r) = memory_type d ∧ depth (s_data r) = depth d.
Proof.
  intros Hok. unfold insert_semantic. set (t := tabs db).
  destruct (bool_decide (pid ∈ pids t)) eqn:Ep; [|done]. apply bool_decide_eq_true in Ep.
  case_match; [|done]. set (r := Semantic _ _ _ _ _ _ _). intros [= <- <-].
  pose proof (mo_tabs _ Hok) as Ht. split; [|split; [done|split; [done|]]].
  - apply with_tabs_calm; [done| | |done].
    + by apply semantic_tabs_ok.
    + apply insert_semantic_ok; [apply Hok|done|]. intros x. by apply sid_bound.
  - exists r. split; [|done]. cbn. apply elem_of_app. right. by apply list_elem_of_singleton.
Qed.

Lemma insert_meta_step db pid d now db' mid : memory_ok db → (0 ≤ m_depth d)%Z → insert_meta real db pid d now = Some (db', mid) →
  calm db db' ∧ mid = next_uuid (tabs db) ∧
  ∃ r, r ∈ meta (tabs db') ∧ m_id r = mid ∧ m_profile r = pid ∧
    m_depth (m_data r) = m_depth d ∧ reflection_type (m_data r) = reflection_type d.
Proof.
  intros Hok Hd. unfold insert_meta. set (t := tabs db). case_match eqn:E; [|done].
  apply andb_true_iff in E as [[[Ep%bool_decide_eq_true _]%andb_true_iff Hc]%andb_true_iff _].
  set (r := Meta _ _ _ _ _ _). intros [= <- <-].
  pose proof (mo_tabs _ Hok) as Ht. split; [|split; [done|]].
  - apply with_tabs_calm; [done| | |done].
    + by apply meta_tabs_ok.
    + by apply insert_meta_ok; [apply Hok|..].
  - exists r. split; [|done]. cbn. apply elem_of_app. right. by apply list_elem_of_singleton.
Qed.

Lemma update_confidence_step db mid c now db' : memory_ok db → update_confidence real db mid c now = Some db' → calm db db'.
Proof.
  intros Hok. unfold update_confidence. cbn zeta. case_match eqn:E; [|done]. intros [= <-].
  apply orb_true_iff in E. apply update_meta_calm; [done|..].
  - intros r. unfold set_confidence. by destruct (decide (m_id r = mid)).
  - intros r Hr. unfold set_confidence. destruct (decide (m_id r = mid)) as [Em|].
    { destruct E as [Hc|Hc%negb_true_iff%bool_decide_eq_false]; [exact Hc|]. exfalso. apply Hc, elem_of_map. by exists r. }
    by apply (lk_confidence _ (mo_links _ Hok)).
Qed.

(** ** New links *)

Lemma link_message_step db sid key r db' : memory_ok db → r ∈ semantic (tabs db) → s_id r = sid →
  summary_of_depth 0 r →
  (∀ r', r' ∈ semantic (tabs db) → (s_id r', key) ∈ summary_messages (tabs db) → s_profile r' = s_profile r →
     s_id r' = sid) →
  link_message db sid key = Some db' →
  memory_ok db' ∧ stable (tabs db) (tabs db') ∧
  (∀ l, l ∈ summary_messages (tabs db') → l ∈ summary_messages (tabs db) ∨ l = (sid, key)) ∧
  summary_parents (tabs db') = summary_parents (tabs db).
Proof.
  intros Hok Hr Hid Hd Honly. unfold link_message. cbn zeta. case_match eqn:E; [|done]. intros [= <-].
  apply andb_true_iff in E as [[Hsid Hkey]%andb_true_iff _]. apply bool_decide_eq_true in Hsid, Hkey.
  pose proof (mo_tabs _ Hok) as Ht. pose proof (mo_links _ Hok) as Hl.
  assert (Hin : ∀ l, l ∈ summary_messages (tabs db) ++ [(sid, key)] →
    l ∈ summary_messages (tabs db) ∨ l = (sid, key)) by (intros l; by rewrite elem_of_app, list_elem_of_singleton).
  split; [|split; [|by split]].
  - apply with_tabs_ok; [done|..|done|done|].
    + destruct Ht. split; try done. intros l [?| ->]%Hin; [auto|done].
    + split; cbn [semantic meta summary_messages summary_parents meta_sources meta_parents put_links]; try apply Hl.
      * intros s k [L|L]%Hin; [by apply (lk_summary _ Hl) in L|]. simplify_eq. by exists r.
      * intros r1 r2 k H1 H2 [L1|L1]%Hin [L2|L2]%Hin Hp; simplify_eq.
        -- by eapply (lk_once _ Hl).
        -- apply (NoDup_map_inj s_id _ r2 r (ok_sids _ Ht)) in Hr as ->; [|done|congruence].
           rewrite (Honly r1); congruence.
        -- apply (NoDup_map_inj s_id _ r1 r (ok_sids _ Ht)) in Hr as ->; [|done|congruence].
           rewrite (Honly r2); congruence.
        -- congruence.
    + intros k (l & [L| ->]%Hin & <-)%elem_of_map; [by apply (mo_linked _ Hok)|done].
  - split; [done|..]; intros q ? _; by exists q.
Qed.

Lemma link_summary_step db parent child rp rc db' : memory_ok db → rp ∈ semantic (tabs db) → s_id rp = parent →
  summary_of_depth 1 rp → rc ∈ semantic (tabs db) → s_id rc = child → summary_of_depth 0 rc →
  ¬ condensed (tabs db) child → link_summary db parent child = Some db' →
  memory_ok db' ∧ stable (tabs db) (tabs db') ∧ summary_messages (tabs db') = summary_messages (tabs db) ∧
  (∀ l, l ∈ summary_parents (tabs db') → l ∈ summary_parents (tabs db) ∨ l = (parent, child)).
Proof.
  intros Hok Hrp Hp Dp Hrc Hc Dc Hno. unfold link_summary. cbn zeta. case_match eqn:E; [|done]. intros [= <-].
  apply andb_true_iff in E as [[Hps Hcs]%andb_true_iff _]. apply bool_decide_eq_true in Hps, Hcs.
  pose proof (mo_tabs _ Hok) as Ht. pose proof (mo_links _ Hok) as Hl.
  assert (Hin : ∀ l, l ∈ summary_parents (tabs db) ++ [(parent, child)] →
    l ∈ summary_parents (tabs db) ∨ l = (parent, child)) by (intros l; by rewrite elem_of_app, list_elem_of_singleton).
  assert (Hc' : ∀ p, (p, child) ∉ summary_parents (tabs db)).
  { intros p L. apply Hno, elem_of_map. by exists (p, child). }
  split; [|split; [|by split]].
  - apply with_tabs_ok; [done|..|done|done|by intros key; apply (linked_known db)].
    + destruct Ht. split; try done. intros l [?| ->]%Hin; [auto|done].
    + split; cbn [semantic meta summary_messages summary_parents meta_sources meta_parents put_links]; try apply Hl.
      * intros p c [L|L]%Hin; [by apply (lk_parent _ Hl) in L|]. simplify_eq. by exists rp, rc.
      * intros p p' c [L1|L1]%Hin [L2|L2]%Hin; simplify_eq; [by eapply (lk_parent_once _ Hl)|..]; by apply Hc' in L1 || by apply Hc' in L2 || done.
  - split; [done|..]; intros q ? _; by exists q.
Qed.

Lemma link_source_step db mid sid rm rs db' : memory_ok db → rm ∈ meta (tabs db) → m_id rm = mid →
  m_depth (m_data rm) = 0%Z → rs ∈ semantic (tabs db) → s_id rs = sid → m_profile rm = s_profile rs →
  link_source db mid sid = Some db' → calm db db'.
Proof.
  intros Hok Hrm Hm Dm Hrs Hs Hp. unfold link_source. cbn zeta. case_match eqn:E; [|done]. intros [= <-].
  apply andb_true_iff in E as [Hms Hss]. apply bool_decide_eq_true in Hms, Hss.
  pose proof (mo_tabs _ Hok) as Ht. pose proof (mo_links _ Hok) as Hl. apply with_tabs_calm; [done|..|done].
  - destruct Ht. split; try done. intros l [?| ->]%elem_of_insert_link; [auto|done].
  - split; [|split; [|done]].
    + split; cbn [semantic meta summary_messages summary_parents meta_sources meta_parents put_links]; try apply Hl.
      intros m s [L|L]%elem_of_insert_link; [by apply (lk_source _ Hl) in L|]. simplify_eq. by exists rm, rs.
    + split; [done|..]; intros q ? _; by exists q.
Qed.

Lemma link_meta_step db parent child rp rc db' : memory_ok db → rp ∈ meta (tabs db) → m_id rp = parent →
  rc ∈ meta (tabs db) → m_id rc = child → m_depth (m_data rp) = (m_depth (m_data rc) + 1)%Z →
  m_profile rp = m_profile rc → reflection_type (m_data rp) = reflection_type (m_data rc) →
  link_meta db parent child = Some db' → calm db db'.
Proof.
  intros Hok Hrp Hp Hrc Hc Hd Hpr Hty. unfold link_meta. cbn zeta. case_match eqn:E; [|done]. intros [= <-].
  apply andb_true_iff in E as [Hms Hss]. apply bool_decide_eq_true in Hms, Hss.
  pose proof (mo_tabs _ Hok) as Ht. pose proof (mo_links _ Hok) as Hl. apply with_tabs_calm; [done|..|done].
  - destruct Ht. split; try done. intros l [?| ->]%elem_of_insert_link; [auto|done].
  - split; [|split; [|done]].
    + split; cbn [semantic meta summary_messages summary_parents meta_sources meta_parents put_links]; try apply Hl.
      intros p c [L|L]%elem_of_insert_link; [by apply (lk_meta _ Hl) in L|]. simplify_eq. by exists rp, rc.
    + split; [done|..]; intros q ? _; by exists q.
Qed.

Lemma set_state_calm db key value : memory_ok db → calm db (set_state db key value).
Proof. intros []. split; [by split|done]. Qed.

(** ** The other parts *)

Lemma same_tables_calm db t' : memory_ok db → profiles_ok t' → semantic t' = semantic (tabs db) →
  meta t' = meta (tabs db) → summary_messages t' = summary_messages (tabs db) →
  summary_parents t' = summary_parents (tabs db) → meta_sources t' = meta_sources (tabs db) →
  meta_parents t' = meta_parents (tabs db) → (next_uuid (tabs db) ≤ next_uuid t')%nat →
  map chat_id (chats t') = map chat_id (chats (tabs db)) → calm db (with_tabs db t').
Proof. intros Hok Ht E1 E2 E3 E4 E5 E6 Hn Hc. apply with_tabs_calm; [done..| |done]. apply links_same; try done. apply Hok. Qed.

Lemma profile_op_calm maxp db op : memory_ok db → calm db (with_tabs db (apply_op maxp (tabs db) op)).
Proof.
  intros Hok. pose proof (apply_op_ok maxp _ op (mo_tabs _ Hok)) as Ht. revert Ht.
  destruct op as [now n d|now pid|now chat pid|pid|now src n d]; cbn [apply_op].
  - destruct (createProfile _ _ _ _ _) as [[p t']|] eqn:E; [|by intros; apply same_tables_calm].
    unfold createProfile in E. case_match; [done|]. apply insert_profile_Ok in E as (_ & _ & -> & _).
    intros Ht. apply same_tables_calm; try done. cbn. lia.
  - unfold setDefaultProfile. destruct (getProfile _ _) as [p|]; [|by intros; apply same_tables_calm].
    destruct (isDefault p); intros Ht; by apply same_tables_calm.
  - unfold assignChat. destruct (getProfile _ _); [|by intros; apply same_tables_calm].
    destruct (List.find _ _); intros Ht; apply same_tables_calm; try done.
    cbn. rewrite map_map. apply map_ext. intros c'. by case_decide.
  - unfold deleteProfile. destruct (getProfile _ _) as [p|]; [|by intros; apply same_tables_calm].
    destruct (isDefault p); [by intros; apply same_tables_calm|].
    destruct (existsb _ _); [by intros; apply same_tables_calm|]. intros Ht. apply with_tabs_calm; [done..| |done].
    apply shrinks_ok; [|apply Hok]. apply delete_rows_shrinks; apply Hok.
  - destruct (cloneProfile _ _ _ _ _ _) as [[p t']|] eqn:E; [|by intros; apply same_tables_calm].
    intros Ht. destruct (clone_copied _ _ _ _ _ _ _ _ (mo_tabs _ Hok) E) as (f & g & Hc).
    apply with_tabs_calm; [done..| |].
    + pose proof (mo_tabs _ Hok). pose proof (mo_links _ Hok). split; [by eapply copied_links_ok|by eapply copied_stable].
    + apply cloneProfile_shape in E as (? & ? & ? & ? & ? & ? & _ & _ & _ & _ & _ & _ & _ & _ & _ & _ & _ & ->). done.
Qed.

Lemma semantic_access_same sid now r : same_semantic r
  (if decide (s_id r = sid)
   then Semantic (s_id r) (s_profile r) (s_data r) (s_created r) (s_updated r) now (s_access_count r + 1) else r).
Proof. by case_decide. Qed.

Lemma meta_access_same mid now r : same_meta r
  (if decide (m_id r = mid)
   then Meta (m_id r) (m_profile r) (m_data r) (m_created r) (m_updated r) now else r).
Proof. by case_decide. Qed.

Lemma upsertChat_calm db now chat pid db' : memory_ok db → upsertChat db now chat pid = Some db' →
  memory_ok db' ∧ undisturbing (tabs db) (tabs db').
Proof.
  intros Hok. pose proof (mo_tabs _ Hok) as Ht. unfold upsertChat. cbn zeta. case_bool_decide as Hc.
  - intros [= <-]. apply same_tables_calm; try done.
    + apply chats_tabs_ok; [done|]. intros c (c0 & Hc0 & <-)%elem_of_map. apply (ok_chats _ Ht) in Hc0. by case_decide.
    + cbn. rewrite map_map. apply map_ext. intros c'. by case_decide.
  - case_bool_decide as Hp; [|done]. intros [= <-].
    split; [|split; [split; [done|..]; intros q ? _; by exists q|done]].
    assert (Hsub : ∀ x, x ∈ map chat_id (chats (tabs db)) → x ∈ map chat_id (chats (tabs db) ++ [Chat chat pid now])).
    { intros x Hx. rewrite map_app. apply elem_of_app. by left. }
    pose proof (mo_links _ Hok) as Hl. destruct Hok. split; cbn [tabs sessions working with_tabs]; auto.
    + apply chats_tabs_ok; [done|]. intros c [?| ->%list_elem_of_singleton]%elem_of_app; [by apply (ok_chats _ Ht)|done].
    + split; apply Hl.
Qed.

Lemma insert_message_calm db m db' : memory_ok db → insert_message db m = Some db' → calm db db'.
Proof.
  intros Hok. unfold insert_message. case_bool_decide as Hk; [intros [= <-]; by apply calm_refl|].
  case_match eqn:E; [|done]. intros [= <-]. apply andb_true_iff in E as [Hc%bool_decide_eq_true Hs].
  pose proof Hok as []. apply rows_calm; try done.
  - rewrite map_app. apply NoDup_app. split; [done|]. split; [|apply NoDup_singleton].
    by intros x Hx ->%list_elem_of_singleton.
  - intros k Hin. rewrite map_app. apply elem_of_app. by left.
  - intros x [?| ->%list_elem_of_singleton]%elem_of_app; auto.
  - intros x y [?| ->%list_elem_of_singleton]%elem_of_app E; [by eapply mo_message_session|].
    rewrite E in Hs. by apply bool_decide_eq_true in Hs.
Qed.

Lemma backfill_calm db key x db' : memory_ok db → backfillSessionId db key x = Some db' → calm db db'.
Proof.
  intros Hok. unfold backfillSessionId. case_bool_decide as Hx; [|done]. intros [= <-]. pose proof Hok as [].
  set (f := λ m : message_row, _). assert (Hf : ∀ m, w_key (f m) = w_key m ∧ w_chat (f m) = w_chat m ∧
    (w_session (f m) = w_session m ∨ w_session (f m) = Some x)) by (intros m; unfold f; case_decide; auto).
  assert (E : map w_key (map f (working db)) = map w_key (working db)).
  { rewrite map_map. apply map_ext. intros m. apply Hf. }
  apply rows_calm; rewrite ?E; try done.
  - intros m (m0 & Hm0 & <-)%elem_of_map. destruct (Hf m0) as (_ & -> & _). auto.
  - intros m y (m0 & Hm0 & <-)%elem_of_map. destruct (Hf m0) as (_ & _ & [-> | ->]); [by apply mo_message_session|].
    by intros [= <-].
Qed.

Lemma startSession_calm db now chat db' x : memory_ok db → startSession db now chat = Some (db', x) → calm db db'.
Proof.
  intros Hok. unfold startSession. cbn zeta. case_bool_decide as Hc; [|done]. intros [= <- <-].
  pose proof (mo_tabs _ Hok) as Ht. pose proof (mo_links _ Hok) as Hl. set (n := next_uuid (tabs db)).
  assert (E : map ss_id (sessions db ++ [Session n chat now None]) = session_ids db ++ [n]) by (by rewrite map_app).
  destruct (links_same (tabs db) (put_semantic (tabs db) (semantic (tabs db)) (S n))) as (Hl' & Hs & Hn);
    try done; [cbn; lia|].
  split; [|done]. pose proof Hok as []. split; unfold session_ids; cbn [tabs sessions working]; rewrite ?E; auto.
  - pose proof (ok_bound _ Ht) as Hb. destruct Ht. split; try done. intros y Hy. apply Hb in Hy. cbn. lia.
  - apply fresh_snoc; auto.
  - intros y [Hy| ->%list_elem_of_singleton]%elem_of_app; [apply mo_session_bound in Hy|]; cbn; lia.
  - intros s [?| ->%list_elem_of_singleton]%elem_of_app; auto.
  - intros m y Hm Em. apply elem_of_app. left. by eapply mo_message_session.
Qed.

Lemma endSession_calm db now x : memory_ok db → calm db (endSession db now x).
Proof.
  intros Hok. unfold endSession. pose proof Hok as []. set (f := λ s : session_row, _).
  assert (Hf : ∀ s, ss_id (f s) = ss_id s ∧ ss_chat (f s) = ss_chat s) by (intros s; unfold f; by case_decide).
  assert (E : map ss_id (map f (sessions db)) = session_ids db).
  { unfold session_ids. rewrite map_map. apply map_ext. intros s. apply Hf. }
  apply rows_calm; rewrite ?E; try done. intros s (s0 & Hs0 & <-)%elem_of_map.
  destruct (Hf s0) as [_ ->]. auto.
Qed.

(** Whatever the rest of the program does: the tables stay in order, and neither a
    message nor an existing summary becomes a source. *)
Lemma memory_step_calm maxp op db : memory_ok db → calm db (memory_step real maxp op db).
Proof.
  intros Hok. pose proof (calm_refl db Hok) as Hr. pose proof (mo_tabs _ Hok) as Ht.
  destruct op; cbn [memory_step].
  - by apply profile_op_calm.
  - destruct (upsertChat _ _ _ _) eqn:E; [|done]. by eapply upsertChat_calm.
  - destruct (insert_message _ _) eqn:E; [|done]. by eapply insert_message_calm.
  - destruct (backfillSessionId _ _ _) eqn:E; [|done]. by eapply backfill_calm.
  - destruct (startSession _ _ _) as [[? ?]|] eqn:E; [|done]. by eapply startSession_calm.
  - by apply endSession_calm.
  - unfold storeSemanticMemory. destruct (insert_semantic _ _ _ _ _) as [[? ?]|] eqn:E; [|done].
    by eapply insert_semantic_step.
  - apply with_tabs_calm; [done|by apply delete_semantic_tabs_ok| |done].
    apply shrinks_ok; [|apply Hok]. apply delete_semantic_shrinks; apply Hok.
  - unfold storeExternalMemory. cbn zeta. case_match eqn:E; [|done].
    apply andb_true_iff in E as [[Hp%bool_decide_eq_true _]%andb_true_iff _].
    apply same_tables_calm; try done. apply external_tabs_ok; [done|].
    intros r [?| ->%list_elem_of_singleton]%elem_of_app; [by apply (ok_external _ Ht)|done].
  - apply same_tables_calm; try done. apply external_tabs_ok; [done|].
    intros r [_ Hin]%list_elem_of_filter. by apply (ok_external _ Ht).
  - apply update_semantic_calm; [done|]. apply semantic_access_same.
  - apply update_meta_calm; [done|apply meta_access_same|]. intros r Hin. pose proof (lk_confidence _ (mo_links _ Hok) _ Hin).
    by case_decide.
  - by apply set_state_calm.
Qed.
End Statements.

(** ** What the statements for a message do *)

Definition stored (db : memory_db) (key : string * string) : Prop := key ∈ map w_key (working db).

#[export] Instance stored_dec db key : Decision (stored db key).
Proof. unfold stored. apply _. Defined.

(** Everything but the times of the chats. *)
Record same_but_chats (db db' : memory_db) : Prop := {
  sc_profiles : profiles (tabs db') = profiles (tabs db);
  sc_semantic : semantic (tabs db') = semantic (tabs db);
  sc_sessions : sessions db' = sessions db;
  sc_working : working db' = working db }.

Lemma upsert_outcome db now chat pid :
  match upsertChat db now chat pid with
  | Some db' => (chat ∈ map chat_id (chats (tabs db)) ∨ pid ∈ pids (tabs db)) ∧
      chat ∈ map chat_id (chats (tabs db')) ∧ same_but_chats db db'
  | None => chat ∉ map chat_id (chats (tabs db)) ∧ pid ∉ pids (tabs db)
  end.
Proof.
  unfold upsertChat. cbn zeta. case_bool_decide as Hc.
  - split; [by left|]. split; [|done]. simpl. rewrite map_map, (map_ext _ chat_id); [done|]. intros c. by case_decide.
  - case_bool_decide; [|done]. split; [by right|]. split; [|done]. simpl. rewrite map_app. apply elem_of_app. right. by left.
Qed.

Lemma insert_outcome db m : w_chat m ∈ map chat_id (chats (tabs db)) →
  (∀ x, w_session m = Some x → x ∈ session_ids db) →
  insert_message db m = Some (if bool_decide (stored db (w_key m)) then db
                              else MemoryDb (tabs db) (sessions db) (working db ++ [m]) (state db)).
Proof.
  intros Hc Hs. unfold insert_message. destruct (decide (stored db (w_key m))) as [Hk|Hk].
  - by rewrite !bool_decide_eq_true_2.
  - rewrite (bool_decide_eq_false_2 (w_key m ∈ _)) by done. rewrite (bool_decide_eq_false_2 (stored _ _)) by done.
    rewrite bool_decide_eq_true_2 by done. simpl. destruct (w_session m) as [x|]; [|done].
    rewrite bool_decide_eq_true_2; [done|]. by apply Hs.
Qed.
