(* ===== verification/Consolidation.v ===== *)
(** * Consolidation

    [MemoryConsolidationJob] of [src/orchestrator/consolidation.ts]: summaries and facts
    from the messages of ended sessions, and condensed summaries from summaries.  A run is
    a job of [Jobs.v] over the tables of [MemoryDb.v].  The provider and the embedding
    model are parameters, as is [JSON.parse] of a reply, read at the type the source
    expects. *)

From Stdlib Require Import Ascii.
From stdpp Require Import pretty.
From S2P Require Import Prelude JsMap JsString JsNumber Profiles IdentityOps Threads Jobs MemoryDb MemoryInv MemoryOps.
Local Open Scope fh_scope.
Local Open Scope string_scope.
Local Open Scope list_scope.

(** ** Requests and replies *)

Inductive system_prompt :=
| D0_SYSTEM_PROMPT
| D1_SYSTEM_PROMPT
| FACT_EXTRACTION_SYSTEM_PROMPT
| reflection_prompt (depth : Z) (type : string).

Record SummarizationOptions := Options { model : string; maxTokens : Z; systemPrompt : system_prompt }.

(** A reply that is not JSON, JSON that is not an array, or the entries, [None] for null. *)
Inductive reply (A : Type) :=
| Unparsable
| NotArray
| Items (l : list (option A)).
Arguments Unparsable {A}.
Arguments NotArray {A}.
Arguments Items {A} l.

(** A property that is missing or null is [None]. *)
Record ExtractedFact := Fact {
  f_content : option string;
  f_type : option string;
  f_importance : option spec_float }.

(** The background jobs on the memory tables. *)
Inductive memory_job := ConsolidationJob | ReflectionJob.

#[export] Instance memory_job_eq_dec : EqDecision memory_job.
Proof. solve_decision. Defined.

Record Providers := Providing {
  summarize : Z → SummarizationOptions → string → option string;
  embed : Z → string → option (list spec_float) }.

(** [await] of a request; the time is the one at which the reply is there. *)
Definition ask {J} (pr : Providers) (o : SummarizationOptions) (text : string) : prog memory_db J (string * Z) :=
  call (λ t db, r ← summarize pr t o text; Some (db, (r, t))).

Definition embedding_of {J} (pr : Providers) (text : string) : prog memory_db J (list spec_float * Z) :=
  call (λ t db, v ← embed pr t text; Some (db, (v, t))).

(** ** Helpers *)

Section Chunks.
Context {A : Type} (size : nat).

(** One round of the loop per element is enough, [size] being positive. *)
Fixpoint chunks_from (fuel : nat) (arr : list A) : list (list A) :=
  match fuel, arr with
  | S fuel, _ :: _ => take size arr :: chunks_from fuel (drop size arr)
  | _, _ => []
  end.

Definition chunkArray (arr : list A) : list (list A) := chunks_from (length arr) arr.

Lemma chunks_from_spec fuel arr : (0 < size)%nat → (length arr ≤ fuel)%nat →
  concat (chunks_from fuel arr) = arr ∧
  Forall (λ c, c ≠ [] ∧ (length c ≤ size)%nat) (chunks_from fuel arr).
Proof.
  intros Hs. revert arr. induction fuel as [|fuel IH]; intros [|x arr] Hl; simpl in Hl; try done; [lia|].
  destruct size as [|n] eqn:E; [lia|]. cbn [chunks_from]. rewrite <- E in *.
  destruct (IH (drop size (x :: arr))) as [Hc Hf]; [rewrite length_drop; simpl; lia|]. split.
  - simpl. by rewrite Hc, take_drop.
  - constructor; [|done]. split; [by rewrite E|]. rewrite length_take. lia.
Qed.

(** The chunks are the array, cut into pieces of at most the size, none of them empty. *)
Lemma chunkArray_spec arr : (0 < size)%nat →
  concat (chunkArray arr) = arr ∧ Forall (λ c, c ≠ [] ∧ (length c ≤ size)%nat) (chunkArray arr).
Proof. intros Hs. by apply chunks_from_spec. Qed.
End Chunks.

(** ** Queries *)

Record ConsolidationConfig := ConsolidationConfig_ {
  consolidationModel : string;
  minUnconsolidatedMessages : nat;
  chunkSize : nat;
  consolidationThreshold : nat;
  d0MaxTokens : Z;
  d1MaxTokens : Z }.

Definition in_session (x : uuid) (m : message_row) : Prop := w_session m = Some x.

#[export] Instance in_session_dec x m : Decision (in_session x m).
Proof. unfold in_session. apply _. Defined.

Definition ended (db : memory_db) (x : uuid) : Prop :=
  Exists (λ s, ss_id s = x ∧ endedAt s ≠ None) (sessions db).

#[export] Instance ended_dec db x : Decision (ended db x).
Proof. unfold ended. apply _. Defined.

(** Some message of the session is the source of a summary. *)
Definition touched (db : memory_db) (x : uuid) : Prop :=
  Exists (λ m, in_session x m ∧ linked (tabs db) (w_key m)) (working db).

#[export] Instance touched_dec db x : Decision (touched db x).
Proof. unfold touched. apply _. Defined.

(** The messages that [run] counts. *)
Definition counted (db : memory_db) (m : message_row) : Prop :=
  match w_session m with Some x => ended db x ∧ ¬ touched db x | None => False end.

#[export] Instance counted_dec db m : Decision (counted db m).
Proof. unfold counted. destruct (w_session m); apply _. Defined.

Definition unconsolidatedCount (db : memory_db) : nat := length (filter (counted db) (working db)).

Definition session_messages (db : memory_db) (x : uuid) : list message_row :=
  sort_on timestamp (filter (λ m, in_session x m ∧ ¬ linked (tabs db) (w_key m)) (working db)).

(** The ended sessions that have an unconsolidated message. *)
Definition sessions_to_do (db : memory_db) : list (uuid * string) :=
  map (λ s, (ss_id s, ss_chat s))
    (sort_on (λ s, Z.of_nat (ss_id s))
       (filter (λ s, endedAt s ≠ None ∧
          Exists (λ m, in_session (ss_id s) m ∧ ¬ linked (tabs db) (w_key m)) (working db)) (sessions db))).

Definition chat_profile_of (db : memory_db) (chat : string) : option uuid :=
  chat_profile <$> List.find (λ c, bool_decide (chat_id c = chat)) (chats (tabs db)).

(** A summary of messages without a parent. *)
Definition uncondensed (t : profile_db) (r : semantic_row) : Prop :=
  summary_of_depth 0 r ∧ ¬ condensed t (s_id r).

#[export] Instance uncondensed_dec t r : Decision (uncondensed t r).
Proof. unfold uncondensed, summary_of_depth, condensed. apply _. Defined.

Definition session_summaries (db : memory_db) (x : uuid) : list semantic_row :=
  filter (λ r, uncondensed (tabs db) r ∧ source_session (s_data r) = Some x) (semantic (tabs db)).

(** [GROUP BY ms.source_session, s.chat_id HAVING COUNT( * ) >= threshold]: the chats. *)
Definition condensation_candidates (cfg : ConsolidationConfig) (db : memory_db) : list string :=
  map ss_chat (filter (λ s, let n := length (session_summaries db (ss_id s)) in
                            (0 < n)%nat ∧ (consolidationThreshold cfg ≤ n)%nat) (sessions db)).

Definition of_chat (db : memory_db) (chat : string) (r : semantic_row) : Prop :=
  match source_session (s_data r) with
  | Some x => Exists (λ s, ss_id s = x ∧ ss_chat s = chat) (sessions db)
  | None => False
  end.

#[export] Instance of_chat_dec db chat r : Decision (of_chat db chat r).
Proof. unfold of_chat. destruct (source_session (s_data r)); apply _. Defined.

(** [ORDER BY earliest_at ASC], where NULL comes last. *)
Definition earlier_start (r r' : semantic_row) : Prop :=
  match earliest_at (s_data r), earliest_at (s_data r') with
  | Some a, Some b => (a ≤ b)%Z
  | None, Some _ => False
  | _, None => True
  end.

#[export] Instance earlier_start_dec : RelDecision earlier_start.
Proof. intros r r'. unfold earlier_start. repeat case_match; apply _. Defined.

Definition d0Summaries (db : memory_db) (chat : string) : list semantic_row :=
  merge_sort earlier_start
    (filter (λ r, of_chat db chat r ∧ uncondensed (tabs db) r) (semantic (tabs db))).

(** ** The job *)

Section Job.
Context (real : spec_float → spec_float) (providers : Providers).
Context (parse_facts : string → reply ExtractedFact).
Context (cfg : ConsolidationConfig).

Abbreviation job := (prog memory_db memory_job).
Abbreviation summarize_text := (ask (J := memory_job) providers).
Abbreviation embed_text := (embedding_of (J := memory_job) providers).

Definition getProfileIdForChat (chat : string) : job uuid :=
  call (λ _ db, pid ← chat_profile_of db chat; Some (db, pid)).

Definition format_message (m : message_row) : string :=
  "[" ++ (if is_bot_message m then "assistant" else sender_name m) ++ "]: " ++ default "(no text)" (w_content m).

Definition insert_fact (x : uuid) (pid : uuid) (now : Z) (f : option ExtractedFact) : job unit :=
  match f with
  | None => Throw
  | Some (Fact (Some content) (Some type) importance) =>
      if str_truthy content && str_truthy type then
        await v := embed_text content in
        call (λ _ db,
          r ← insert_semantic real db pid
                (SemanticData content v.1 type
                   (js_max (double 0) (js_min (double 1) (default (hundredths 50) importance))) 0
                   (estimateTokens content) (Some x) None None) now;
          Some (r.1, tt))
      else Ret tt
  | Some _ => Ret tt
  end.

Definition extractFacts (formatted : string) (x : uuid) (pid : uuid) : job unit :=
  catch
    (await result := summarize_text (Options (consolidationModel cfg) 500 FACT_EXTRACTION_SYSTEM_PROMPT) formatted in
     match parse_facts result.1 with
     | Unparsable => Throw
     | NotArray => Ret tt
     | Items facts => for_each (insert_fact x pid result.2) facts
     end)
    (Ret tt).

Definition format_messages (chunk : list message_row) : string := String.concat (String "010"%char "") (map format_message chunk).

(** [Number(chunk[0]?.timestamp)]; no chunk is empty. *)
Definition consolidate_chunk (x : uuid) (pid : uuid) (chunk : list message_row) : job unit :=
  let formatted := format_messages chunk in
  await summary := summarize_text (Options (consolidationModel cfg) (d0MaxTokens cfg) D0_SYSTEM_PROMPT) formatted in
  await v := embed_text summary.1 in
  await sid := call (λ _ db,
    insert_semantic real db pid
      (SemanticData summary.1 v.1 "summary" (hundredths 70) 0 (estimateTokens summary.1) (Some x)
         (timestamp <$> head chunk) (timestamp <$> last chunk)) v.2) in
  await _ := for_each (λ m, call (λ _ db, db' ← link_message db sid (w_key m); Some (db', tt))) chunk in
  extractFacts formatted x pid.

Definition consolidateSession (s : uuid * string) : job unit :=
  await messages := query (λ db, session_messages db s.1) in
  match messages with
  | [] => Ret tt
  | _ =>
      await pid := getProfileIdForChat s.2 in
      for_each (consolidate_chunk s.1 pid) (chunkArray (chunkSize cfg) messages)
  end.

(** [`[Summary ${i + 1}]: ${s.content}`] *)
Definition format_summary (i : nat) (r : semantic_row) : string :=
  "[Summary " ++ pretty (S i) ++ "]: " ++ content (s_data r).

Definition newline2 : string := String "010"%char (String "010"%char "").

(** [Number(null)] is 0. *)
Definition bound_of (f : semantic_data → option Z) (r : option semantic_row) : option Z :=
  (λ r, default 0%Z (f (s_data r))) <$> r.

Definition condenseSummaries (chat : string) : job unit :=
  await pid := getProfileIdForChat chat in
  await d0 := query (λ db, d0Summaries db chat) in
  if (length d0 <? consolidationThreshold cfg)%nat then Ret tt
  else
    let formatted := String.concat newline2 (imap format_summary d0) in
    await condensed := summarize_text (Options (consolidationModel cfg) (d1MaxTokens cfg) D1_SYSTEM_PROMPT) formatted in
    await v := embed_text condensed.1 in
    await parent := call (λ _ db,
      insert_semantic real db pid
        (SemanticData condensed.1 v.1 "summary" (hundredths 70) 1 (estimateTokens condensed.1) None
           (bound_of earliest_at (head d0)) (bound_of latest_at (last d0))) v.2) in
    for_each (λ c, call (λ _ db, db' ← link_summary db parent (s_id c); Some (db', tt))) d0.

Definition condenseIfReady : job unit :=
  await candidates := query (condensation_candidates cfg) in
  for_each condenseSummaries candidates.

(** [running] is the flag of [Jobs.busy]. *)
Definition run_consolidation : job nat :=
  await unconsolidated := query unconsolidatedCount in
  if (unconsolidated <? minUnconsolidatedMessages cfg)%nat then Ret 0%nat
  else
    await todo := query sessions_to_do in
    await _ := for_each consolidateSession todo in
    await _ := update (λ t db, (set_state db "last_consolidation_at" (pretty t), tt)) in
    await _ := condenseIfReady in
    Ret (length todo).
End Job.

(** ** What the jobs rely on *)

(** Consolidation relies on nothing else giving sources to summaries; reflection does not
    mind. *)
Definition rely (j : memory_job) (db db' : memory_db) : Prop :=
  match j with
  | ConsolidationJob => undisturbing (tabs db) (tabs db')
  | ReflectionJob => stable (tabs db) (tabs db')
  end.

Lemma rely_refl j db : rely j db db.
Proof. destruct j; simpl; reflexivity. Qed.

Lemma rely_trans j db1 db2 db3 : rely j db1 db2 → rely j db2 db3 → rely j db1 db3.
Proof. destruct j; simpl; intros; by etransitivity. Qed.

Lemma calm_rely j db db' : calm db db' → rely j db db'.
Proof. intros [_ [Hs Hn]]. destruct j; simpl; [by split|done]. Qed.

Lemma calm_to_others j db db' : calm db db' → to_others rely j db db'.
Proof. intros H i _. by apply calm_rely. Qed.

Abbreviation memory_job_ok := (job_safe memory_ok rely).

Section Rely.
Context (j : memory_job).

Definition lasting (J : memory_db → Prop) : Prop := ∀ db db', rely j db db' → J db → J db'.

Lemma ok_calm_call {A} (f : Z → memory_db → option (memory_db * A)) (J : memory_db → Prop)
    (Q : A → memory_db → Prop) (T : memory_db → Prop) db :
  lasting J → J db → (∀ db1, J db1 → T db1) →
  (∀ t db1, memory_ok db1 → J db1 → match f t db1 with Some (db2, a) => calm db1 db2 ∧ (J db2 → Q a db2) | None => True end) →
  memory_job_ok j (call f) Q T db.
Proof.
  intros HJ Hdb HT H. apply ok_call; [apply rely_refl|]. intros t db1 Hr Hok. pose proof (HJ _ _ Hr Hdb) as Hdb1.
  specialize (H t db1 Hok Hdb1). destruct (f t db1) as [[db2 a]|]; [|by apply HT].
  destruct H as [Hc HQ]. split; [apply Hc|]. split; [by apply calm_to_others|].
  apply HQ, (HJ db1 db2); [by apply calm_rely|done].
Qed.

Lemma ok_ask (pr : Providers) o text (J : memory_db → Prop) (Q : string * Z → memory_db → Prop) (T : memory_db → Prop) db :
  lasting J → J db → (∀ db1, J db1 → T db1) → (∀ r db1, J db1 → Q r db1) → memory_job_ok j (ask pr o text) Q T db.
Proof.
  intros HJ Hdb HT HQ. eapply ok_calm_call; [exact HJ|done..|]. intros t db1 Hok HJ1.
  destruct (summarize pr t o text); simpl; [|done]. split; [by apply calm_refl|apply HQ].
Qed.

Lemma ok_embedding (pr : Providers) text (J : memory_db → Prop) (Q : list spec_float * Z → memory_db → Prop)
    (T : memory_db → Prop) db :
  lasting J → J db → (∀ db1, J db1 → T db1) → (∀ r db1, J db1 → Q r db1) →
  memory_job_ok j (embedding_of pr text) Q T db.
Proof.
  intros HJ Hdb HT HQ. eapply ok_calm_call; [exact HJ|done..|]. intros t db1 Hok HJ1.
  destruct (embed pr t text); simpl; [|done]. split; [by apply calm_refl|apply HQ].
Qed.

Lemma ok_lasting_query {A} (f : memory_db → A) (J : memory_db → Prop) (Q : A → memory_db → Prop) T db :
  lasting J → J db → (∀ db1, memory_ok db1 → J db1 → Q (f db1) db1) → memory_job_ok j (query f) Q T db.
Proof. intros HJ Hdb HQ. apply ok_query; [apply rely_refl|]. intros db1 Hr Hok. apply HQ; [done|]. by eapply HJ. Qed.
End Rely.

Lemma lasting_True j : lasting j (λ _, True).
Proof. done. Qed.

(** ** Safety *)

Section Safety.
Context (real : spec_float → spec_float) (providers : Providers).
Context (parse_facts : string → reply ExtractedFact).
Context (cfg : ConsolidationConfig).

Abbreviation lasts := (lasting ConsolidationJob).
Abbreviation ok := (memory_job_ok ConsolidationJob).

Lemma insert_fact_ok x pid now f J db : lasts J → J db → ok (insert_fact real providers x pid now f) (λ _, J) J db.
Proof.
  intros HJ Hdb. destruct f as [[[c|] [ty|] imp]|]; cbn [insert_fact]; try done.
  destruct (str_truthy c && str_truthy ty); [|done]. apply ok_bind. apply ok_embedding with J; [done..|].
  intros v db1 Hdb1. apply ok_calm_call with J; [done..|]. intros t db2 Hok HJ2.
  destruct (insert_semantic _ _ _ _ _) as [[db3 sid]|] eqn:E; simpl; [|done].
  apply insert_semantic_step in E as [Hc _]; done.
Qed.

Lemma extractFacts_ok text x pid J db : lasts J → J db →
  ok (extractFacts real providers parse_facts cfg text x pid) (λ _, J) J db.
Proof.
  intros HJ Hdb. unfold extractFacts. apply ok_catch. apply ok_post with (λ _, J) J; [done..|].
  apply ok_bind. apply ok_ask with J; [done..|]. intros r db1 Hdb1. destruct (parse_facts r.1); [done..|].
  apply (ok_for_each _ _ _ (λ _, J)); [|done]. intros f l' db2 Hdb2. by apply insert_fact_ok.
Qed.

(** Messages that nothing summarises yet. *)
Definition fresh_messages (l : list message_row) (db : memory_db) : Prop :=
  NoDup (map w_key l) ∧ ∀ m, m ∈ l → ¬ linked (tabs db) (w_key m).

(** A summary of a given depth, if it is still there. *)
Definition summary_named (d : Z) (sid : uuid) (db : memory_db) : Prop :=
  (sid < next_uuid (tabs db))%nat ∧ ∀ r, r ∈ semantic (tabs db) → s_id r = sid → summary_of_depth d r.

Lemma fresh_lasts l : lasts (fresh_messages l).
Proof. intros db db' [_ [Hk _]] [Hn Hf]. split; [done|]. intros m Hm L. by apply (Hf m Hm), Hk. Qed.

Lemma named_stable d sid db db' : stable (tabs db) (tabs db') → summary_named d sid db → summary_named d sid db'.
Proof.
  intros [Hn Hs _] [Hlt Hd]. split; [lia|]. intros r Hr E. destruct (Hs r Hr) as (r0 & Hr0 & E0 & _ & Ed); [lia|].
  unfold summary_of_depth. rewrite <- Ed. apply Hd; [done|congruence].
Qed.

Lemma named_lasts d sid : lasts (summary_named d sid).
Proof. intros db db' [Hs _]. by apply named_stable. Qed.

Lemma lasting_and j J J' : lasting j J → lasting j J' → lasting j (λ db, J db ∧ J' db).
Proof. intros H H' db db' Hr [? ?]. split; [by eapply H|by eapply H']. Qed.

Lemma new_summary_named db pid d now db' sid : memory_ok db → memory_type d = "summary" →
  insert_semantic real db pid d now = Some (db', sid) → summary_named (depth d) sid db'.
Proof.
  intros Hok Hty E. destruct (insert_semantic_step _ _ _ _ _ _ _ Hok E) as (Hc & _ & _ & r & Hr & <- & _ & Et & Ed).
  destruct Hc as [Hok' _]. split.
  - apply (sid_bound _ _ (mo_tabs _ Hok')), elem_of_map. by exists r.
  - intros q Hq Eq. rewrite (NoDup_map_inj s_id _ q r (ok_sids _ (mo_tabs _ Hok')) Hq Hr Eq).
    by split; [rewrite Et|].
Qed.

Lemma link_chunk_ok sid chunk rest db : fresh_messages (chunk ++ rest) db → summary_named 0 sid db →
  ok (for_each (λ m, call (λ _ db, db' ← link_message db sid (w_key m); Some (db', tt))) chunk)
    (λ _, fresh_messages rest) (λ _, True) db.
Proof.
  intros Hf Hs. set (J := λ l db, fresh_messages (l ++ rest) db ∧ summary_named 0 sid db).
  apply ok_post with (λ _ : unit, J []) (λ _, True); [by intros ? db' [? _]|done|].
  apply ok_for_each; [|by split]. intros m l db1 HJ1. apply ok_call; [apply rely_refl|]. intros t db2 Hr Hok.
  assert (HJ : J (m :: l) db2).
  { eapply (lasting_and ConsolidationJob); [apply fresh_lasts|apply named_lasts|exact Hr|exact HJ1]. }
  destruct HJ as [[Hnd Hfr] Hn]. destruct (link_message db2 sid (w_key m)) as [db3|] eqn:E; simpl; [|done].
  assert (Hsid : sid ∈ sids (tabs db2)).
  { unfold link_message in E. cbn zeta in E. case_match eqn:Eb; [|done].
    apply andb_true_iff in Eb as [[Hb _]%andb_true_iff _]. by apply bool_decide_eq_true in Hb. }
  apply elem_of_map in Hsid as (r & Hr2 & Er).
  assert (Hm : ¬ linked (tabs db2) (w_key m)) by (apply Hfr; left).
  destruct (link_message_step db2 sid (w_key m) r db3 Hok Hr2 Er) as (Hok3 & Hst & Hin & _); [by apply Hn| |done|].
  { intros r' _ L _. exfalso. apply Hm, elem_of_map. by exists (s_id r', w_key m). }
  split; [done|]. split; [by intros [] ?|]. split; [|by eapply named_stable]. simpl in Hnd.
  apply NoDup_cons in Hnd as [Hm' Hnd]. split; [done|]. intros m' Hin' (lk & [L| ->]%Hin & Ek)%elem_of_map.
  - apply (Hfr m'); [by right|]. apply elem_of_map. by exists lk.
  - apply Hm', elem_of_map. exists m'. by split.
Qed.

Lemma consolidate_chunk_ok x pid chunk rest db : fresh_messages (chunk ++ rest) db →
  ok (consolidate_chunk real providers parse_facts cfg x pid chunk) (λ _, fresh_messages rest) (λ _, True) db.
Proof.
  intros Hf. unfold consolidate_chunk. apply ok_bind.
  apply ok_ask with (fresh_messages (chunk ++ rest)); [apply fresh_lasts|done..|]. intros summary db1 H1.
  apply ok_bind. apply ok_embedding with (fresh_messages (chunk ++ rest)); [apply fresh_lasts|done..|].
  intros v db2 H2. apply ok_bind.
  apply ok_calm_call with (fresh_messages (chunk ++ rest)); [apply fresh_lasts|done..|].
  intros t db3 Hok H3. destruct (insert_semantic _ _ _ _ _) as [[db4 sid]|] eqn:E; [|done].
  assert (Hn : summary_named 0 sid db4) by (by eapply new_summary_named in E). apply insert_semantic_step in E as [Hc _]; [|done].
  split; [done|]. intros H4. apply ok_bind. eapply ok_post; [|done|by apply link_chunk_ok].
  intros ? db5 H5. apply ok_post with (λ _, fresh_messages rest) (fresh_messages rest); [done|done|].
  by apply extractFacts_ok; [apply fresh_lasts|].
Qed.

Lemma session_messages_fresh db x : memory_ok db → fresh_messages (session_messages db x) db.
Proof.
  intros Hok. unfold session_messages, sort_on. split.
  - rewrite (merge_sort_Permutation _). by apply NoDup_map_filter, Hok.
  - intros m Hm. rewrite (merge_sort_Permutation _), list_elem_of_filter in Hm. by destruct Hm as [[_ ?] _].
Qed.

Lemma getProfileIdForChat_ok chat J (Q : uuid → memory_db → Prop) db : lasts J → J db → (∀ pid db1, J db1 → Q pid db1) →
  ok (getProfileIdForChat chat) Q (λ _, True) db.
Proof.
  intros HJ Hdb HQ. apply ok_calm_call with J; [done..|]. intros t db1 Hok HJ1.
  destruct (chat_profile_of db1 chat); simpl; [|done]. split; [by apply calm_refl|apply HQ].
Qed.

Hypothesis size_positive : (0 < chunkSize cfg)%nat.

Lemma consolidateSession_ok s db :
  ok (consolidateSession real providers parse_facts cfg s) (λ _ _, True) (λ _, True) db.
Proof.
  unfold consolidateSession. apply ok_bind. apply ok_query; [apply rely_refl|]. intros db1 _ Hok.
  pose proof (session_messages_fresh db1 s.1 Hok) as Hf. destruct (session_messages db1 s.1) as [|m l] eqn:E; [done|].
  rewrite <- E in *. apply ok_bind. apply getProfileIdForChat_ok with (fresh_messages (session_messages db1 s.1));
    [apply fresh_lasts|done|]. intros pid db2 H2.
  apply ok_post with (λ _ : unit, fresh_messages (concat [])) (λ _, True); [done..|].
  apply (ok_for_each _ _ _ (λ l, fresh_messages (concat l))).
  - intros chunk l' db3 H3. by apply consolidate_chunk_ok.
  - by rewrite (proj1 (chunkArray_spec _ _ size_positive)).
Qed.

(** Summaries that are nobody's source yet. *)
Definition loose_summaries (l : list semantic_row) (db : memory_db) : Prop :=
  NoDup (map s_id l) ∧
  ∀ c, c ∈ l → ¬ condensed (tabs db) (s_id c) ∧ summary_named 0 (s_id c) db.

Lemma loose_lasts l : lasts (loose_summaries l).
Proof.
  intros db db' Hr [Hn Hl]. split; [done|]. intros c Hc. destruct (Hl c Hc) as [Hco Hna].
  split; [|by eapply named_lasts]. intros Hc'. destruct Hr as [_ [_ Hs]]. apply Hco, Hs; [apply Hna|done].
Qed.

Lemma link_children_ok parent l db : loose_summaries l db → summary_named 1 parent db →
  ok (for_each (λ c, call (λ _ db, db' ← link_summary db parent (s_id c); Some (db', tt))) l)
    (λ _ _, True) (λ _, True) db.
Proof.
  intros Hl Hp. set (J := λ l db, loose_summaries l db ∧ summary_named 1 parent db).
  apply ok_post with (λ _ : unit, J []) (λ _, True); [done..|].
  apply ok_for_each; [|by split]. intros c l' db1 HJ1. apply ok_call; [apply rely_refl|]. intros t db2 Hr Hok.
  assert (HJ : J (c :: l') db2).
  { eapply (lasting_and ConsolidationJob); [apply loose_lasts|apply named_lasts|exact Hr|exact HJ1]. }
  destruct HJ as [[Hnd Hlo] Hn]. destruct (link_summary db2 parent (s_id c)) as [db3|] eqn:E; simpl; [|done].
  assert (Hin : parent ∈ sids (tabs db2) ∧ s_id c ∈ sids (tabs db2)).
  { unfold link_summary in E. cbn zeta in E. case_match eqn:Eb; [|done].
    apply andb_true_iff in Eb as [[H1 H2]%andb_true_iff _]. by apply bool_decide_eq_true in H1, H2. }
  destruct Hin as [(rp & Hrp & Ep)%elem_of_map (rc & Hrc & Ec)%elem_of_map].
  destruct (Hlo c) as [Hco Hna]; [left|].
  destruct (link_summary_step db2 parent (s_id c) rp rc db3) as (Hok3 & Hst & _ & Hsp); try done;
    [by apply Hn|by apply Hna|].
  split; [done|]. split; [by intros [] ?|]. split; [|by eapply named_stable]. simpl in Hnd.
  apply NoDup_cons in Hnd as [Hc' Hnd]. split; [done|]. intros c' Hc''. destruct (Hlo c') as [Hco' Hna']; [by right|].
  split; [|by eapply named_stable]. intros (lk & [L| ->]%Hsp & Ek)%elem_of_map.
  - apply Hco', elem_of_map. by exists lk.
  - apply Hc', elem_of_map. exists c'. by split.
Qed.

Lemma d0Summaries_loose db chat : memory_ok db → loose_summaries (d0Summaries db chat) db.
Proof.
  intros Hok. pose proof (mo_tabs _ Hok) as Ht. unfold d0Summaries. split.
  - rewrite (merge_sort_Permutation _). by apply NoDup_map_filter, Ht.
  - intros c Hc. rewrite (merge_sort_Permutation _), list_elem_of_filter in Hc. destruct Hc as [[_ [Hd Hco]] Hc].
    split; [done|]. split; [apply (sid_bound _ _ Ht), elem_of_map; by exists c|].
    intros r Hr E. by rewrite (NoDup_map_inj s_id _ r c (ok_sids _ Ht) Hr Hc E).
Qed.

Lemma condenseSummaries_ok chat db :
  ok (condenseSummaries real providers cfg chat) (λ _ _, True) (λ _, True) db.
Proof.
  unfold condenseSummaries. apply ok_bind. apply getProfileIdForChat_ok with (λ _, True); [done..|]. intros pid db1 _.
  apply ok_bind. apply ok_query; [apply rely_refl|]. intros db2 _ Hok.
  pose proof (d0Summaries_loose db2 chat Hok) as Hl. destruct (_ <? _)%nat; [done|].
  set (d0 := d0Summaries db2 chat) in *. apply ok_bind.
  apply ok_ask with (loose_summaries d0); [apply loose_lasts|done..|]. intros summary db3 H3.
  apply ok_bind. apply ok_embedding with (loose_summaries d0); [apply loose_lasts|done..|]. intros v db4 H4.
  apply ok_bind. apply ok_calm_call with (loose_summaries d0); [apply loose_lasts|done..|].
  intros t db5 Hok5 H5. destruct (insert_semantic _ _ _ _ _) as [[db6 parent]|] eqn:E; [|done].
  assert (Hn : summary_named 1 parent db6) by (by eapply new_summary_named in E). apply insert_semantic_step in E as [Hc _]; [|done].
  split; [done|]. intros H6. by apply link_children_ok.
Qed.

Lemma run_consolidation_ok db :
  ok (run_consolidation real providers parse_facts cfg) (λ _ _, True) (λ _, True) db.
Proof.
  unfold run_consolidation. apply ok_bind. apply ok_lasting_query with (λ _, True); [done..|]. intros db1 _ _.
  destruct (_ <? _)%nat; [done|]. apply ok_bind. apply ok_lasting_query with (λ _, True); [done..|]. intros db2 _ _.
  apply ok_bind. eapply ok_post; [|done|apply (ok_for_each _ _ _ (λ _ _, True)); [|done]].
  - intros _ db3 _. apply ok_bind. apply safe_update. intros t db4 _ Hok4.
    pose proof (set_state_calm db4 "last_consolidation_at" (pretty t) Hok4) as Hc.
    split; [apply Hc|]. split; [by apply calm_to_others|].
    apply ok_bind. eapply ok_post with (λ _ _, True) (λ _, True); [done..|].
    unfold condenseIfReady. apply ok_bind. apply ok_lasting_query with (λ _, True); [done..|]. intros db5 _ _.
    apply (ok_for_each _ _ _ (λ _ _, True)); [|done]. intros chat l db6 _. apply condenseSummaries_ok.
  - intros s l db3 _. apply consolidateSession_ok.
Qed.
End Safety.
