(* ===== verification/ConsolidationRuns.v ===== *)
(** * What a consolidation run achieves

    An undisturbed run of [Consolidation.v] whose provider and embedding model answer
    leaves no message of an ended session without a summary and no batch of summaries to
    condense; and what a run leaves aside. *)

From S2P Require Import Prelude JsMap JsString JsNumber Profiles IdentityOps Threads Jobs MemoryDb MemoryInv MemoryOps Consolidation.
Local Open Scope fh_scope.
Local Open Scope string_scope.
Local Open Scope list_scope.

(** A REAL between 0 and 1 stays there. *)
Class RealUnit (real : spec_float → spec_float) : Prop :=
  real_unit : ∀ x, unit_interval x = true → unit_interval (real x) = true.

(** Both models answer, with a vector of the right length. *)
Record answering (pr : Providers) : Prop := {
  an_summarize t o text : summarize pr t o text ≠ None;
  an_embed t text : ∃ v, embed pr t text = Some v ∧ length v = DIMENSIONS }.

Lemma length_filter_le {A} (P Q : A → Prop) `{!∀ x, Decision (P x)} `{!∀ x, Decision (Q x)} (l : list A) :
  (∀ x, x ∈ l → P x → Q x) → (length (filter P l) ≤ length (filter Q l))%nat.
Proof.
  intros HPQ. induction l as [|x l IH]; [done|]. rewrite !filter_cons.
  assert (IH' : (length (filter P l) ≤ length (filter Q l))%nat) by (apply IH; intros y ?; apply HPQ; by right).
  destruct (decide (P x)) as [HP|]; destruct (decide (Q x)) as [HQ|HQ]; simpl; try lia.
  exfalso. apply HQ, HPQ; [left|done].
Qed.

(** A link from a summary of the message's session. *)
Definition sums_up (db : memory_db) (l : uuid * (string * string)) : Prop :=
  ∃ m r, m ∈ working db ∧ w_key m = l.2 ∧ r ∈ semantic (tabs db) ∧ s_id r = l.1 ∧
    w_session m ≠ None ∧ source_session (s_data r) = w_session m.

(** What a run leaves as it was, and the links it makes. *)
Record extends (db db' : memory_db) : Prop := {
  ex_sessions : sessions db' = sessions db;
  ex_working : working db' = working db;
  ex_profiles : profiles (tabs db') = profiles (tabs db);
  ex_chats : chats (tabs db') = chats (tabs db);
  ex_semantic r : r ∈ semantic (tabs db) → r ∈ semantic (tabs db');
  ex_new l : l ∈ summary_messages (tabs db') → l ∈ summary_messages (tabs db) ∨ sums_up db' l;
  ex_linked l : l ∈ summary_messages (tabs db) → l ∈ summary_messages (tabs db');
  ex_condensed l : l ∈ summary_parents (tabs db) → l ∈ summary_parents (tabs db') }.

#[export] Instance extends_refl : Reflexive extends.
Proof. split; auto. Qed.

#[export] Instance extends_trans : Transitive extends.
Proof.
  intros d1 d2 d3 H1 H2. pose proof H1 as []. pose proof H2 as []. split; try (first [congruence|auto]).
  intros l [Hl|?]%(ex_new _ _ H2); [|by right]. apply (ex_new _ _ H1) in Hl as [?|(m & r & Hm & ? & Hr & Hl)]; [by left|].
  right. exists m, r. rewrite (ex_working _ _ H2). split_and!; auto; apply Hl.
Qed.

Lemma extends_linked db db' key : extends db db' → linked (tabs db) key → linked (tabs db') key.
Proof. intros He (l & Hl & <-)%elem_of_map. apply elem_of_map. exists l. by split; [apply (ex_linked _ _ He)|]. Qed.

Section Undisturbed.
Context (real : spec_float → spec_float) `{!RealUnit real} (providers : Providers).
Context (parse_facts : string → reply ExtractedFact).
Context (cfg : ConsolidationConfig).

Abbreviation ends := (ends (Job := memory_job) memory_ok).

Lemma insert_semantic_extends db pid d now db' sid : insert_semantic real db pid d now = Some (db', sid) →
  extends db db' ∧ sid ∈ sids (tabs db') ∧
  ∃ r, semantic (tabs db') = semantic (tabs db) ++ [r] ∧ s_id r = sid ∧ depth (s_data r) = depth d ∧
    source_session (s_data r) = source_session d.
Proof.
  unfold insert_semantic. cbn zeta. case_match; [|done]. intros [= <- <-]. split.
  { split; auto. intros r Hr. apply elem_of_app. by left. }
  split; [|by eexists]. unfold sids. cbn. rewrite map_app. apply elem_of_app. right. by apply list_elem_of_singleton.
Qed.

Lemma insert_semantic_some db pid d now : pid ∈ pids (tabs db) → memory_type d ∈ MEMORY_TYPES →
  unit_interval (importance d) = true → length (embedding d) = DIMENSIONS →
  (∀ x, source_session d = Some x → x ∈ session_ids db) → is_Some (insert_semantic real db pid d now).
Proof.
  intros Hp Ht Hi Hl Hx. unfold insert_semantic. cbn zeta.
  rewrite (bool_decide_true _ Hp), (bool_decide_true _ Ht), real_unit, Hl by done. cbn [andb Nat.eqb].
  rewrite Nat.eqb_refl. destruct (source_session d) as [x|]; [|done].
  by rewrite (bool_decide_true _ (Hx x eq_refl)).
Qed.

Lemma ask_any o text (Q : string * Z → memory_db → Prop) (T : memory_db → Prop) db :
  T db → (∀ r, Q r db) → ends (ask providers o text) Q T db.
Proof. intros HT HQ. apply ends_call. intros _ t. destruct (summarize _ _ _ _); [apply HQ|apply HT]. Qed.

Lemma embedding_any text (Q : list spec_float * Z → memory_db → Prop) (T : memory_db → Prop) db :
  T db → (∀ r, Q r db) → ends (embedding_of providers text) Q T db.
Proof. intros HT HQ. apply ends_call. intros _ t. destruct (embed _ _ _); [apply HQ|apply HT]. Qed.

(** Facts: whatever comes of them. *)
Lemma insert_fact_ends db0 x pid now f db : extends db0 db →
  ends (insert_fact real providers x pid now f) (λ _, extends db0) (extends db0) db.
Proof.
  intros He. destruct f as [[[c|] [ty|] imp]|]; cbn [insert_fact]; try done.
  destruct (str_truthy c && str_truthy ty); [|done]. apply ends_bind, embedding_any; [done|]. intros v.
  apply ends_call. intros _ t. destruct (insert_semantic _ _ _ _ _) as [[db1 sid]|] eqn:E; cbn [mbind option_bind]; [|done].
  apply insert_semantic_extends in E as [E _]. by transitivity db.
Qed.

Lemma extractFacts_ends db0 text x pid T db : extends db0 db →
  ends (extractFacts real providers parse_facts cfg text x pid) (λ _, extends db0) T db.
Proof.
  intros He. unfold extractFacts. apply ends_catch.
  apply (ends_post _ _ (λ _, extends db0) _ (extends db0)); [done..|]. apply ends_bind, ask_any; [done|]. intros r.
  destruct (parse_facts _); [done..|].
  apply (ends_for_each _ (λ _, extends db0)); [|done]. intros f l' db1 H1. by apply insert_fact_ends.
Qed.

Context (Hpr : answering providers).

Lemma ask_ends o text (Q : string * Z → memory_db → Prop) T db :
  (∀ r, Q r db) → ends (ask providers o text) Q T db.
Proof.
  intros HQ. apply ends_call. intros _ t. pose proof (an_summarize _ Hpr t o text).
  by destruct (summarize _ _ _ _); simpl.
Qed.

Lemma embedding_ends text (Q : list spec_float * Z → memory_db → Prop) T db :
  (∀ r, length r.1 = DIMENSIONS → Q r db) → ends (embedding_of providers text) Q T db.
Proof.
  intros HQ. apply ends_call. intros _ t. destruct (an_embed _ Hpr t text) as (v & -> & Hl). simpl. by apply HQ.
Qed.

Lemma summary_ends pid d now (Q : uuid → memory_db → Prop) T db : pid ∈ pids (tabs db) →
  memory_type d = "summary" → importance d = hundredths 70 → length (embedding d) = DIMENSIONS →
  (∀ x, source_session d = Some x → x ∈ session_ids db) →
  (∀ db' sid, memory_ok db → insert_semantic real db pid d now = Some (db', sid) → Q sid db') →
  ends (call (λ _ db, insert_semantic real db pid d now)) Q T db.
Proof.
  intros Hp Ht Hi Hl Hx HQ. apply ends_call. intros Hok _.
  destruct (insert_semantic_some db pid d now Hp) as [[db' sid] E]; [|rewrite Hi; reflexivity|exact Hl|exact Hx|].
  - rewrite Ht. do 5 right. left.
  - rewrite E. by apply HQ.
Qed.

(** ** Messages *)

Definition unlinked_from (x sid : uuid) (l : list message_row) (db : memory_db) : Prop :=
  (∃ r, r ∈ semantic (tabs db) ∧ s_id r = sid ∧ source_session (s_data r) = Some x) ∧ NoDup (map w_key l) ∧
  ∀ m, m ∈ l → m ∈ working db ∧ in_session x m ∧ (sid, w_key m) ∉ summary_messages (tabs db).

Lemma link_chunk_ends db0 x sid chunk db : extends db0 db → unlinked_from x sid chunk db →
  ends (for_each (λ m, call (λ _ db, db' ← link_message db sid (w_key m); Some (db', tt))) chunk)
    (λ _ db', extends db0 db' ∧ ∀ m, m ∈ chunk → linked (tabs db') (w_key m)) (λ _, False) db.
Proof.
  intros He Hu.
  set (J := λ l db', extends db0 db' ∧ unlinked_from x sid l db' ∧
    ∀ m, m ∈ chunk → m ∈ l ∨ linked (tabs db') (w_key m)).
  apply (ends_post _ _ (λ _ : unit, J []) _ (λ _, False)); [|done|].
  { intros ? db' (H1 & _ & H2). split; [done|]. intros m Hm. by destruct (H2 m Hm) as [?%not_elem_of_nil|]. }
  apply ends_for_each; [|split_and!; auto]. intros m l db1 (H1 & (Hr & Hnd & Hl) & H2).
  apply ends_call. intros Hok _. destruct (Hl m) as (Hk0 & Hx & Hno); [left|].
  assert (Hk : w_key m ∈ map w_key (working db1)) by (apply elem_of_map; by exists m).
  assert (Hs : sid ∈ sids (tabs db1)) by (destruct Hr as (r & ? & <- & _); apply elem_of_map; by exists r).
  unfold link_message. cbn zeta. rewrite (bool_decide_true _ Hs), (bool_decide_true _ Hk), (bool_decide_false _ Hno).
  simpl. simpl in Hnd. apply NoDup_cons in Hnd as [Hm Hnd].
  set (db2 := with_tabs _ _). assert (H12 : extends db1 db2).
  { split; try done; intros lk Hlk; cbn in *; [|apply elem_of_app; by left].
    apply elem_of_app in Hlk as [?| ->%list_elem_of_singleton]; [by left|right].
    destruct Hr as (r & Hr & Hs' & Hsx). exists m, r. unfold in_session in Hx. rewrite Hx. by split_and!. }
  split; [by transitivity db1|]. split; [split; [done|split; [done|]]|].
  - intros m' Hm'. destruct (Hl m') as (Hk' & Hx' & Hno'); [by right|]. split; [done|]. split; [done|]. cbn.
    intros [?|E%list_elem_of_singleton]%elem_of_app; [done|]. apply Hm.
    apply (f_equal snd) in E. cbn [snd] in E. rewrite <- E. apply elem_of_map. by exists m'.
  - intros m' [[-> |Hin]%elem_of_cons|Hlk]%H2; [|by left|].
    + right. unfold linked. cbn. rewrite map_app. apply elem_of_app. right. by apply list_elem_of_singleton.
    + right. by eapply extends_linked.
Qed.

Context (db0 : memory_db) (Hok0 : memory_ok db0).

Lemma consolidate_chunk_ends x pid chunk db : extends db0 db → x ∈ session_ids db0 → pid ∈ pids (tabs db0) →
  NoDup (map w_key chunk) → (∀ m, m ∈ chunk → m ∈ working db0 ∧ in_session x m) →
  ends (consolidate_chunk real providers parse_facts cfg x pid chunk)
    (λ _ db', extends db db' ∧ ∀ m, m ∈ chunk → linked (tabs db') (w_key m)) (λ _, False) db.
Proof.
  intros He Hx Hp Hnd Hin. unfold consolidate_chunk.
  apply ends_bind, ask_ends. intros summary. apply ends_bind, embedding_ends. intros v Hv. apply ends_bind.
  apply summary_ends; try done.
  - unfold pids. by rewrite (ex_profiles _ _ He).
  - intros y [= <-]. unfold session_ids. by rewrite (ex_sessions _ _ He).
  - intros db1 sid Hok E. pose proof (insert_semantic_step _ _ _ _ _ _ _ Hok E) as (_ & Hsid & Hsm & _).
    apply insert_semantic_extends in E as (E1 & _ & r1 & Es1 & Hr1 & _ & Hx1). apply ends_bind.
    eapply ends_post; [| |apply (link_chunk_ends db x sid chunk db1 E1)]; [|done|].
    + intros ? db2 [H2 Hl2]. eapply ends_post; [| |by apply (extractFacts_ends db2 _ _ _ (λ _, False))]; [|done].
      intros ? db3 H3. split; [by transitivity db2|]. intros m Hm. eapply extends_linked; [exact H3|by apply Hl2].
    + split; [|split; [done|]].
      { exists r1. split; [|by split]. rewrite Es1. apply elem_of_app. right. by apply list_elem_of_singleton. }
      intros m Hm. destruct (Hin m Hm) as [Hm0 Hmx]. split; [|split; [done|]].
      * by rewrite (ex_working _ _ E1), (ex_working _ _ He).
      * rewrite Hsm, Hsid. intros L. apply (ok_sm _ (mo_tabs _ Hok)) in L.
        apply (sid_bound _ _ (mo_tabs _ Hok)) in L. simpl in L. lia.
Qed.

Lemma chat_profile_known db chat : memory_ok db → chat ∈ map chat_id (chats (tabs db)) →
  ∃ pid, chat_profile_of db chat = Some pid ∧ pid ∈ pids (tabs db).
Proof.
  intros Hok (c & Hc & E)%elem_of_map. unfold chat_profile_of.
  destruct (List.find _ _) as [c'|] eqn:Ef.
  - exists (chat_profile c'). split; [done|]. apply find_some in Ef as [Hin _]. apply list_elem_of_In in Hin.
    by apply (ok_chats _ (mo_tabs _ Hok)).
  - apply list_elem_of_In in Hc. apply (find_none _ _ Ef) in Hc. apply bool_decide_eq_false in Hc. congruence.
Qed.

Hypothesis size_positive : (0 < chunkSize cfg)%nat.

Definition session_done (db : memory_db) (x : uuid) : Prop :=
  ∀ m, m ∈ working db → in_session x m → linked (tabs db) (w_key m).

Lemma session_done_extends db db' x : extends db db' → session_done db x → session_done db' x.
Proof.
  intros He Hd m Hm Hx. eapply extends_linked; [exact He|]. apply Hd; [|done]. by rewrite <- (ex_working _ _ He).
Qed.

Lemma consolidateSession_ends s db : extends db0 db → s ∈ sessions db0 →
  ends (consolidateSession real providers parse_facts cfg (ss_id s, ss_chat s))
    (λ _ db', extends db db' ∧ session_done db' (ss_id s)) (λ _, False) db.
Proof.
  intros He Hs. unfold consolidateSession. cbn [fst snd]. apply ends_bind, ends_query. intros Hok.
  set (l := session_messages db (ss_id s)).
  assert (Hl : ∀ m, m ∈ l ↔ m ∈ working db ∧ in_session (ss_id s) m ∧ ¬ linked (tabs db) (w_key m)).
  { intros m. unfold l, session_messages, sort_on. rewrite (merge_sort_Permutation _), list_elem_of_filter. tauto. }
  assert (Hnd : NoDup (map w_key l)) by (apply session_messages_fresh; done).
  assert (Hdone : ∀ db', extends db db' → (∀ m, m ∈ l → linked (tabs db') (w_key m)) → session_done db' (ss_id s)).
  { intros db' H' Hm m Hin Hx. rewrite (ex_working _ _ H') in Hin.
    destruct (decide (linked (tabs db) (w_key m))); [by eapply extends_linked|]. by apply Hm, Hl. }
  destruct l as [|m0 l0] eqn:El.
  - split; [done|]. apply Hdone; [done|]. by intros m ?%not_elem_of_nil.
  - rewrite <- El in *. apply ends_bind, ends_call. intros _ _.
    destruct (chat_profile_known db (ss_chat s) Hok) as (pid & -> & Hpid).
    { rewrite (ex_chats _ _ He). by apply (mo_session_chat _ Hok0). }
    simpl. set (J := λ cs db', extends db db' ∧ NoDup (map w_key (concat cs)) ∧
      ∀ m, m ∈ l → m ∈ concat cs ∨ linked (tabs db') (w_key m)).
    set (J' := λ cs db', J cs db' ∧ ∀ m, m ∈ concat cs → m ∈ l).
    apply (ends_post _ _ (λ _ : unit, J' []) _ (λ _, False)); [|done|].
    { intros ? db1 [(H1 & _ & H2) _]. split; [done|]. apply Hdone; [done|]. intros m Hm.
      by destruct (H2 m Hm) as [?%not_elem_of_nil|]. }
    apply ends_for_each.
    + intros chunk cs db1 [(H1 & Hn & H2) H3]. simpl in Hn, H2, H3. rewrite map_app in Hn.
      apply NoDup_app in Hn as (Hn1 & _ & Hn2).
      eapply ends_post; [| |apply consolidate_chunk_ends]; [|done|..].
      * intros ? db2 [H12 Hc]. split; [split; [by transitivity db1|split; [done|]]|].
        -- intros m [[Hin|Hin]%elem_of_app|Hlk]%H2; [right; by apply Hc|by left|].
           right. by eapply extends_linked.
        -- intros m Hm. apply H3, elem_of_app. by right.
      * by transitivity db.
      * unfold session_ids. apply elem_of_map. by exists s.
      * unfold pids in *. by rewrite <- (ex_profiles _ _ He).
      * done.
      * intros m Hm. rewrite <- (ex_working _ _ He). destruct (proj1 (Hl m)) as (? & ? & _); [|done].
        apply H3, elem_of_app. by left.
    + destruct (chunkArray_spec (chunkSize cfg) l size_positive) as [Hc _]. unfold J', J. rewrite Hc.
      split; [|done]. split; [done|]. split; [done|]. intros m Hm. by left.
Qed.
(** ** Summaries *)

Lemma condensed_extends db db' c : extends db db' → condensed (tabs db) c → condensed (tabs db') c.
Proof. intros He (l & Hl & <-)%elem_of_map. apply elem_of_map. exists l. by split; [apply (ex_condensed _ _ He)|]. Qed.

Lemma session_summaries_le db db' r x : extends db db' → semantic (tabs db') = semantic (tabs db) ++ [r] →
  depth (s_data r) ≠ 0%Z → (length (session_summaries db' x) ≤ length (session_summaries db x))%nat.
Proof.
  intros He Es Hd. unfold session_summaries. rewrite Es, filter_app, length_app, (filter_cons_False _ r).
  - simpl. rewrite Nat.add_0_r. apply length_filter_le. intros q Hq [[Hs Hc] Hx]. split; [|done]. split; [done|].
    intros Hc'. by apply Hc, (condensed_extends db).
  - intros [[[_ ?] _] _]. done.
Qed.

Lemma session_in_chat db s : s ∈ sessions db →
  (length (session_summaries db (ss_id s)) ≤ length (d0Summaries db (ss_chat s)))%nat.
Proof.
  intros Hs. unfold d0Summaries. rewrite (Permutation_length (merge_sort_Permutation _ _)).
  apply length_filter_le. intros r Hr [Hu Hx]. split; [|done]. unfold of_chat. rewrite Hx.
  apply Exists_exists. by exists s.
Qed.

Lemma link_children_ends parent d0 db : parent ∈ sids (tabs db) → NoDup (map s_id d0) →
  (∀ c, c ∈ d0 → (parent, s_id c) ∉ summary_parents (tabs db) ∧ s_id c ∈ sids (tabs db)) →
  ends (for_each (λ c, call (λ _ db, db' ← link_summary db parent (s_id c); Some (db', tt))) d0)
    (λ _ db', extends db db' ∧ semantic (tabs db') = semantic (tabs db) ∧
       ∀ c, c ∈ d0 → condensed (tabs db') (s_id c)) (λ _, False) db.
Proof.
  intros Hp Hnd Hd.
  set (J := λ l db', extends db db' ∧ semantic (tabs db') = semantic (tabs db) ∧ NoDup (map s_id l) ∧
    (∀ c, c ∈ l → (parent, s_id c) ∉ summary_parents (tabs db') ∧ s_id c ∈ sids (tabs db)) ∧
    ∀ c, c ∈ d0 → c ∈ l ∨ condensed (tabs db') (s_id c)).
  apply (ends_post _ _ (λ _ : unit, J []) _ (λ _, False)); [|done|].
  { intros ? db' (H1 & H2 & _ & _ & H3). split; [done|]. split; [done|]. intros c Hc.
    by destruct (H3 c Hc) as [?%not_elem_of_nil|]. }
  apply ends_for_each; [|split; [done|split_and!; auto]]. intros c l db1 (H1 & H2 & Hn & Hl & H3).
  apply ends_call. intros Hok _. destruct (Hl c) as [Hno Hs]; [left|].
  assert (Esids : sids (tabs db1) = sids (tabs db)) by (unfold sids; by rewrite H2).
  unfold link_summary. cbn zeta. rewrite Esids, (bool_decide_true _ Hp), (bool_decide_true _ Hs), (bool_decide_false _ Hno).
  cbn [andb negb mbind option_bind]. simpl in Hn. apply NoDup_cons in Hn as [Hc Hn].
  set (db2 := with_tabs _ _). assert (H12 : extends db1 db2).
  { split; try done; intros lk Hlk; [by left|]. cbn. apply elem_of_app. by left. }
  split; [by transitivity db1|]. split; [done|]. split; [done|]. split.
  - intros c' Hc'. destruct (Hl c') as [Hno' Hs']; [by right|]. split; [|done]. cbn.
    intros [?|E%list_elem_of_singleton]%elem_of_app; [done|]. apply Hc.
    apply (f_equal snd) in E. cbn [snd] in E. rewrite <- E. apply elem_of_map. by exists c'.
  - intros c' [[-> |Hin]%elem_of_cons|Hlk]%H3; [|by left|].
    + right. unfold condensed. cbn. rewrite map_app. apply elem_of_app. right. by apply list_elem_of_singleton.
    + right. by eapply condensed_extends.
Qed.

Definition not_due (db : memory_db) (s : session_row) : Prop :=
  (length (session_summaries db (ss_id s)) < consolidationThreshold cfg)%nat.

Definition fewer_summaries (db db' : memory_db) : Prop :=
  extends db db' ∧ ∀ x, (length (session_summaries db' x) ≤ length (session_summaries db x))%nat.

Hypothesis threshold_positive : (0 < consolidationThreshold cfg)%nat.

Lemma condenseSummaries_ends chat db : extends db0 db → chat ∈ map chat_id (chats (tabs db0)) →
  ends (condenseSummaries real providers cfg chat)
    (λ _ db', fewer_summaries db db' ∧ ∀ s, s ∈ sessions db0 → ss_chat s = chat → not_due db' s) (λ _, False) db.
Proof.
  intros He Hchat. unfold condenseSummaries. apply ends_bind, ends_call. intros Hok _.
  destruct (chat_profile_known db chat Hok) as (pid & -> & Hpid); [by rewrite (ex_chats _ _ He)|].
  cbn [mbind option_bind]. apply ends_bind, ends_query. intros _.
  pose proof (d0Summaries_loose db chat Hok) as [Hnd _]. set (d0 := d0Summaries db chat) in *.
  assert (Hin : ∀ c, c ∈ d0 ↔ (of_chat db chat c ∧ uncondensed (tabs db) c) ∧ c ∈ semantic (tabs db)).
  { intros c. unfold d0, d0Summaries. by rewrite (merge_sort_Permutation _), list_elem_of_filter. }
  destruct (length d0 <? _)%nat eqn:El.
  { apply Nat.ltb_lt in El. split; [by split|]. intros s Hs <-. unfold not_due.
    rewrite <- (ex_sessions _ _ He) in Hs. pose proof (session_in_chat db s Hs). unfold d0 in El. lia. }
  apply ends_bind, ask_ends. intros summary. apply ends_bind, embedding_ends. intros v Hv. apply ends_bind.
  apply summary_ends; [done..|]. intros db1 parent Hok1 E.
  pose proof (insert_semantic_step _ _ _ _ _ _ _ Hok1 E) as (_ & Hparent & _).
  assert (Esp : summary_parents (tabs db1) = summary_parents (tabs db)).
  { unfold insert_semantic in E. cbn zeta in E. case_match; [|done]. by injection E as <- <-. }
  apply insert_semantic_extends in E as (E1 & Hp1 & r & Es & Hr & Hdr & _). cbn [depth] in Hdr.
  eapply ends_post; [| |apply (link_children_ends parent d0 db1); [done..|]]; [|done|].
  - intros ? db2 (E2 & Es2 & Hc2). assert (E02 : extends db db2) by (by transitivity db1).
    rewrite Es in Es2. split.
    + split; [done|]. intros x. eapply session_summaries_le; [done..|]. by rewrite Hdr.
    + intros s Hs Hch. unfold not_due. enough (session_summaries db2 (ss_id s) = []) as -> by (simpl; lia).
      apply elem_of_nil_inv. intros c. unfold session_summaries.
      rewrite list_elem_of_filter, Es2, elem_of_app, list_elem_of_singleton.
      intros [[[Hd Hco] Hx] [Hc| ->]]; [|by destruct Hd; rewrite Hdr in *]. apply Hco, Hc2, Hin. split; [|done]. split.
      * unfold of_chat. rewrite Hx. apply Exists_exists. exists s. by rewrite (ex_sessions _ _ He).
      * split; [done|]. intros Hc'. by apply Hco, (condensed_extends db).
  - intros c Hc. split.
    + rewrite Esp, Hparent. intros L. apply (ok_sp _ (mo_tabs _ Hok1)) in L as [L _].
      apply (sid_bound _ _ (mo_tabs _ Hok1)) in L. simpl in L. lia.
    + apply Hin in Hc as [_ Hc]. unfold sids. rewrite Es, map_app. apply elem_of_app. left. apply elem_of_map. by exists c.
Qed.

Lemma condenseIfReady_ends db : extends db0 db →
  ends (condenseIfReady real providers cfg)
    (λ _ db', extends db db' ∧ ∀ s, s ∈ sessions db0 → not_due db' s) (λ _, False) db.
Proof.
  intros He. unfold condenseIfReady. apply ends_bind, ends_query. intros Hok.
  set (l := condensation_candidates cfg db).
  set (J := λ (l : list string) db', fewer_summaries db db' ∧ (∀ c, c ∈ l → c ∈ map chat_id (chats (tabs db0))) ∧
    ∀ s, s ∈ sessions db0 → ss_chat s ∈ l ∨ not_due db' s).
  apply (ends_post _ _ (λ _ : unit, J []) _ (λ _, False)); [|done|].
  { intros ? db' ([H1 _] & _ & H2). split; [done|]. intros s Hs. by destruct (H2 s Hs) as [?%not_elem_of_nil|]. }
  apply ends_for_each.
  - intros chat l' db1 ([H1 Hle] & Hch & H2).
    eapply ends_post; [| |apply condenseSummaries_ends]; [|done|by transitivity db|apply Hch; left].
    intros ? db2 [[H12 Hle2] H3]. split; [split; [by transitivity db1|]|split].
    + intros x. etransitivity; [apply Hle2|apply Hle].
    + intros c Hc. apply Hch. by right.
    + intros s Hs. destruct (H2 s Hs) as [[E|Hin]%elem_of_cons|Hn]; [right; by apply H3|by left|right].
      unfold not_due in *. specialize (Hle2 (ss_id s)). lia.
  - split; [by split|]. split.
    + intros c (s & [_ Hs]%list_elem_of_filter & <-)%elem_of_map.
      rewrite (ex_sessions _ _ He) in Hs. by apply (mo_session_chat _ Hok0).
    + intros s Hs. destruct (Nat.lt_ge_cases (length (session_summaries db (ss_id s))) (consolidationThreshold cfg)) as [|Hn];
        [by right|left]. apply elem_of_map. exists s. split; [|done]. rewrite list_elem_of_filter, (ex_sessions _ _ He).
      split; [|done]. lia.
Qed.

(** ** The run *)

Lemma run_consolidation_ends : (minUnconsolidatedMessages cfg ≤ unconsolidatedCount db0)%nat →
  ends (run_consolidation real providers parse_facts cfg)
    (λ n db', n = length (sessions_to_do db0) ∧ extends db0 db' ∧
       (∀ s, s ∈ sessions db0 → endedAt s ≠ None → session_done db' (ss_id s)) ∧
       ∀ s, s ∈ sessions db0 → not_due db' s) (λ _, False) db0.
Proof.
  intros Hmin. unfold run_consolidation. apply ends_bind, ends_query. intros _.
  rewrite (proj2 (Nat.ltb_ge _ _) Hmin). apply ends_bind, ends_query. intros _. apply ends_bind.
  set (todo := sessions_to_do db0).
  assert (Htodo : ∀ x, x ∈ todo ↔ ∃ s, s ∈ sessions db0 ∧ x = (ss_id s, ss_chat s) ∧ endedAt s ≠ None ∧
    Exists (λ m, in_session (ss_id s) m ∧ ¬ linked (tabs db0) (w_key m)) (working db0)).
  { intros x. unfold todo, sessions_to_do, sort_on. rewrite elem_of_map. split.
    - intros (s & Hs & <-). rewrite (merge_sort_Permutation _), list_elem_of_filter in Hs. exists s. tauto.
    - intros (s & Hs & -> & He & Hx). exists s. split; [|done]. by rewrite (merge_sort_Permutation _), list_elem_of_filter. }
  set (J := λ (l : list (uuid * string)) db', extends db0 db' ∧ (∀ x, x ∈ l → x ∈ todo) ∧
    ∀ s, s ∈ sessions db0 → (ss_id s, ss_chat s) ∈ todo → (ss_id s, ss_chat s) ∈ l ∨ session_done db' (ss_id s)).
  apply (ends_post _ _ (λ _ : unit, J []) _ (λ _, False)); [|done|].
  - intros ? db1 (H1 & _ & H2). apply ends_bind, ends_update. intros _ t. cbn [fst snd].
    set (db2 := set_state _ _ _). assert (H12 : extends db1 db2) by (split; auto). apply ends_bind.
    eapply ends_post; [| |apply condenseIfReady_ends]; [|done|by transitivity db1].
    intros ? db3 [H3 Hdue]. assert (H13 : extends db1 db3) by (by transitivity db2). split; [done|].
    split; [by transitivity db1|]. split; [|done]. intros s Hs He. apply (session_done_extends db1); [done|].
    destruct (decide ((ss_id s, ss_chat s) ∈ todo)) as [Hin|Hno].
    { by destruct (H2 s Hs Hin) as [?%not_elem_of_nil|]. }
    intros m Hm Hx. rewrite (ex_working _ _ H1) in Hm. apply (extends_linked db0); [done|].
    destruct (decide (linked (tabs db0) (w_key m))) as [|Hl]; [done|]. exfalso. apply Hno, Htodo. exists s.
    split_and!; try done. apply Exists_exists. by exists m.
  - apply ends_for_each.
    + intros x l db1 (H1 & Hsub & H2). destruct (proj1 (Htodo x)) as (s & Hs & -> & _); [apply Hsub; left|].
      eapply ends_post; [| |by apply consolidateSession_ends]; [|done]. intros ? db2 [H12 Hd].
      split; [by transitivity db1|]. split; [intros y ?; apply Hsub; by right|].
      intros s' Hs' Hin'. destruct (H2 s' Hs' Hin') as [[E|Hin]%elem_of_cons|Hd'].
      * right. by injection E as -> _.
      * by left.
      * right. by eapply session_done_extends.
    + split; [done|]. split; [done|]. intros s _ ?. by left.
Qed.
End Undisturbed.

(** ** Properties of the undisturbed run *)

Section Runs.
Context (real : spec_float → spec_float) (providers : Providers).
Context (parse_facts : string → reply ExtractedFact).
Context (cfg : ConsolidationConfig) (clock : nat → Z).

Abbreviation run := (run_consolidation real providers parse_facts cfg).

(** A message that no summary has. *)
Definition unsummarised (db : memory_db) (m : message_row) : Prop :=
  ∀ sid, (sid, w_key m) ∉ summary_messages (tabs db).

Lemma not_linked db m : ¬ linked (tabs db) (w_key m) ↔ unsummarised db m.
Proof.
  split.
  - intros H sid Hl. apply H, elem_of_map. by exists (sid, w_key m).
  - intros H ([sid k] & Hl & E)%elem_of_map. cbn in E. subst k. by apply (H sid).
Qed.

Lemma enough_counted db msgs : NoDup msgs →
  (∀ m, m ∈ msgs → m ∈ working db ∧ ∃ s, s ∈ sessions db ∧ endedAt s ≠ None ∧ w_session m = Some (ss_id s) ∧
     ∀ m', m' ∈ working db → w_session m' = Some (ss_id s) → unsummarised db m') →
  (length msgs ≤ unconsolidatedCount db)%nat.
Proof.
  intros Hnd H. apply submseteq_length, NoDup_submseteq; [done|]. intros m Hm.
  destruct (H m Hm) as (Hw & s & Hs & He & Hx & Hf). apply list_elem_of_filter. split; [|done].
  unfold counted. rewrite Hx. split; [apply Exists_exists; by exists s|].
  intros (m' & Hm' & Hx' & Hl)%Exists_exists. by apply (not_linked db m'); [apply Hf|].
Qed.

Lemma sessions_to_do_spec db : memory_ok db → ∃ todo, length (sessions_to_do db) = length todo ∧ NoDup todo ∧
  ∀ s, s ∈ todo ↔ s ∈ sessions db ∧ endedAt s ≠ None ∧
    ∃ m, m ∈ working db ∧ w_session m = Some (ss_id s) ∧ unsummarised db m.
Proof.
  intros Hok. unfold sessions_to_do. set (todo := sort_on _ _). exists todo. split; [by rewrite length_map|].
  subst todo. unfold sort_on. split.
  - rewrite (merge_sort_Permutation _). apply NoDup_filter, (NoDup_fmap_1 ss_id), (mo_session_ids _ Hok).
  - intros s. rewrite (merge_sort_Permutation _), list_elem_of_filter, Exists_exists. setoid_rewrite not_linked.
    unfold in_session. naive_solver.
Qed.

(** C8: when at least the configured number of messages belong to ended sessions of which
    no message has a summary, and both models answer, an undisturbed run returns the
    number of the ended sessions that had a message without a summary. Afterwards every
    message of an ended session is linked to a summary of depth 0, to one made from its
    own session where it had none before; no session has as many summaries of depth 0
    without a parent as the threshold of condensation; the tables are in order, and no
    memory, message or session is lost or changed. *)
Theorem consolidation_covers `{!RealUnit real} db msgs : memory_ok db → answering providers →
  (0 < chunkSize cfg)%nat → (0 < consolidationThreshold cfg)%nat →
  NoDup msgs → (minUnconsolidatedMessages cfg ≤ length msgs)%nat →
  (∀ m, m ∈ msgs → m ∈ working db ∧ ∃ s, s ∈ sessions db ∧ endedAt s ≠ None ∧ w_session m = Some (ss_id s) ∧
     ∀ m', m' ∈ working db → w_session m' = Some (ss_id s) → unsummarised db m') →
  ∃ db' todo steps, alone clock 0 run db = (db', Some (length todo), steps) ∧
    (NoDup todo ∧ ∀ s, s ∈ todo ↔ s ∈ sessions db ∧ endedAt s ≠ None ∧
       ∃ m, m ∈ working db ∧ w_session m = Some (ss_id s) ∧ unsummarised db m) ∧
    (∀ s m, s ∈ sessions db → endedAt s ≠ None → m ∈ working db → w_session m = Some (ss_id s) →
       ∃ r, r ∈ semantic (tabs db') ∧ (s_id r, w_key m) ∈ summary_messages (tabs db') ∧
         memory_type (s_data r) = "summary" ∧ depth (s_data r) = 0%Z ∧
         ((s_id r, w_key m) ∈ summary_messages (tabs db) ∨ source_session (s_data r) = Some (ss_id s))) ∧
    (∀ s l, s ∈ sessions db → NoDup l →
       (∀ r, r ∈ l → r ∈ semantic (tabs db') ∧ memory_type (s_data r) = "summary" ∧ depth (s_data r) = 0%Z ∧
          source_session (s_data r) = Some (ss_id s) ∧ ∀ p, (p, s_id r) ∉ summary_parents (tabs db')) →
       (length l < consolidationThreshold cfg)%nat) ∧
    memory_ok db' ∧ (∀ r, r ∈ semantic (tabs db) → r ∈ semantic (tabs db')) ∧
    sessions db' = sessions db ∧ working db' = working db.
Proof.
  intros Hok Hpr Hs Ht Hnd Hmin Hmsgs.
  assert (Hm : (minUnconsolidatedMessages cfg ≤ unconsolidatedCount db)%nat)
    by (etransitivity; [exact Hmin|by apply enough_counted]).
  pose proof (alone_ends memory_ok clock 0 rely ConsolidationJob run _ _ _ _ db rely_refl Hok
    (run_consolidation_ok real providers parse_facts cfg Hs db)
    (run_consolidation_ends real providers parse_facts cfg Hpr db Hok Hs Ht Hm)) as H.
  destruct (alone clock 0 run db) as [[db' [n|]] k]; [|by destruct H].
  destruct H as [(-> & He & Hd & Hn) Hok']. destruct (sessions_to_do_spec db Hok) as (todo & -> & Htodo).
  exists db', todo, k. split; [done|]. split; [done|]. split; [|split; [|split; [done|split; [apply He|by destruct He]]]].
  - intros s m Hin Hend Hmw Hx. destruct (proj1 (elem_of_map _ _ _) (Hd s Hin Hend m ltac:(by rewrite (ex_working _ _ He)) Hx))
      as ([sid key] & Hl & E). cbn [snd] in E. subst key.
    destruct (lk_summary _ (mo_links _ Hok') _ _ Hl) as (r & Hr & <- & Hty & Hdp).
    exists r. do 4 (split; [done|]). destruct (ex_new _ _ He _ Hl) as [?|(m' & r' & Hm' & Ek & Hr' & Er & _ & Hsx)]; [by left|right].
    cbn [fst snd] in *. rewrite (NoDup_map_inj s_id (semantic (tabs db')) r r' (ok_sids _ (mo_tabs _ Hok'))) by done.
    rewrite Hsx, <- Hx. f_equal. apply (NoDup_map_inj w_key (working db')); [apply (mo_keys _ Hok')|..]; try done. by rewrite (ex_working _ _ He).
  - intros s l Hin Hl Hall. eapply Nat.le_lt_trans; [|exact (Hn s Hin)].
    apply submseteq_length, NoDup_submseteq; [done|]. intros r Hr. destruct (Hall r Hr) as (Hrs & Hty & Hdp & Hsx & Hp).
    apply list_elem_of_filter. split; [|done]. split; [|done]. split; [done|].
    intros ([p c] & Hpc & E)%elem_of_map. cbn in E. subst c. by apply (Hp p).
Qed.

(** When no message is counted, nothing happens. *)
Lemma nothing_counted db i : (1 ≤ minUnconsolidatedMessages cfg)%nat → unconsolidatedCount db = 0%nat →
  alone clock i run db = (db, Some 0%nat, S i).
Proof.
  intros Hmin Hc. unfold run_consolidation, query. rewrite alone_bind, alone_update. cbn [fst snd].
  rewrite Hc. by destruct (minUnconsolidatedMessages cfg); [lia|].
Qed.

(** A session of which one chunk was summarised before the provider failed is not counted
    again: as long as every ended session has a summarised message, no run does anything
    about the others. *)
Theorem partial_sessions_skipped db i : (1 ≤ minUnconsolidatedMessages cfg)%nat →
  (∀ s m, s ∈ sessions db → endedAt s ≠ None → m ∈ working db → in_session (ss_id s) m → touched db (ss_id s)) →
  alone clock i run db = (db, Some 0%nat, S i).
Proof.
  intros Hmin Hall. apply nothing_counted; [done|]. unfold unconsolidatedCount.
  enough (filter (counted db) (working db) = []) as -> by done. apply elem_of_nil_inv.
  intros m [Hc Hm]%list_elem_of_filter. unfold counted in Hc. destruct (w_session m) as [x|] eqn:Ex; [|done].
  destruct Hc as [He Ht]. apply Exists_exists in He as (s & Hs & <- & He). by apply Ht, (Hall s m).
Qed.

(** The one operation that ends a session. *)
Definition ends_session (op : memory_op) : bool := match op with EndSession _ _ => true | _ => false end.

Lemma unended_step maxp db op : ends_session op = false → Forall (λ s, endedAt s = None) (sessions db) →
  Forall (λ s, endedAt s = None) (sessions (memory_step real maxp op db)).
Proof.
  intros Hop H. destruct op; cbn [memory_step ends_session] in *; try done.
  - unfold upsertChat. cbn zeta. by repeat case_match.
  - unfold insert_message. by repeat case_match.
  - unfold backfillSessionId. by repeat case_match.
  - unfold startSession. cbn zeta. case_match; [|done]. cbn. apply Forall_app. by split; [|constructor].
  - unfold storeSemanticMemory, insert_semantic. cbn zeta. by repeat case_match.
  - unfold storeExternalMemory. cbn zeta. by repeat case_match.
Qed.

(** As long as nothing calls [endSession], consolidation has nothing to do. *)
Theorem unended_sessions_skipped maxp db ops i : (1 ≤ minUnconsolidatedMessages cfg)%nat →
  Forall (λ s, endedAt s = None) (sessions db) → Forall (λ op, ends_session op = false) ops →
  let db' := fold_left (λ db op, memory_step real maxp op db) ops db in
  alone clock i run db' = (db', Some 0%nat, S i).
Proof.
  intros Hmin H0 Hops db'. assert (H : Forall (λ s, endedAt s = None) (sessions db')).
  { unfold db'. clear db' i. revert db H0. induction Hops as [|op ops Hop _ IH]; intros db H0; [done|].
    simpl. by apply IH, unended_step. }
  apply partial_sessions_skipped; [done|]. intros s m Hs He. exfalso. apply He.
  rewrite Forall_forall in H. by apply H.
Qed.
End Runs.

(** ** Examples *)

Definition example_vector : list spec_float := repeat (double 0) 384.

Definition example_providers : Providers := Providing
  (λ _ o _, match systemPrompt o with FACT_EXTRACTION_SYSTEM_PROMPT => Some "facts" | _ => Some "summary" end)
  (λ _ _, Some example_vector).

Definition example_facts (text : string) : reply ExtractedFact :=
  Items [Some (Fact (Some "likes tea") (Some "preference") None); Some (Fact None None None); None].

Definition example_config : ConsolidationConfig := ConsolidationConfig_ "haiku" 2 2 2 400 500.

(** Two profiles; a chat of the first with an ended session of three messages. *)
Definition example_tabs : profile_db :=
  Db [Profile 0 "default" None true 1 1; Profile 1 "work" None false 2 2] [Chat "c" 0 1] [] [] [] [] [] [] [] [] [] 3.

Definition example_message (n : string) (t : Z) (bot : bool) : message_row :=
  Message n "c" "ann" (Some n) t bot bot (Some 2%nat).

Definition example_memory : memory_db :=
  MemoryDb example_tabs [Session 2 "c" 5 (Some 9%Z)]
    [example_message "m1" 6 false; example_message "m2" 7 true; example_message "m3" 8 false] [].

Lemma example_memory_ok : memory_ok example_memory.
Proof.
  split; cbn.
  - split; try (apply (bool_decide_unpack _); vm_compute; exact I); try (by intros ? ?%not_elem_of_nil).
    + apply Forall_forall. repeat (apply Forall_cons; split; [vm_compute; lia|]). apply Forall_nil_2.
    + intros c ->%list_elem_of_singleton. left.
  - split; cbn; by intros * ?%not_elem_of_nil.
  - apply NoDup_singleton.
  - intros x ->%list_elem_of_singleton. lia.
  - intros s ->%list_elem_of_singleton. left.
  - apply (bool_decide_unpack _). vm_compute. exact I.
  - intros m. rewrite !elem_of_cons. intros [->|[->|[->|?%not_elem_of_nil]]]; [by left..|done].
  - intros m x. rewrite !elem_of_cons. intros [->|[->|[->|?%not_elem_of_nil]]]; [intros [= <-]; by left..|done].
  - by intros l ?%not_elem_of_nil.
Qed.

#[local] Instance example_unit : RealUnit (λ x, x).
Proof. intros x Hx. exact Hx. Qed.

Lemma example_answering : answering example_providers.
Proof. split; [by intros t [m n []] text|]. intros t text. by exists example_vector. Qed.

Lemma consolidation_covers_witness :
  ∃ db' steps, alone Z.of_nat 0 (run_consolidation (λ x, x) example_providers example_facts example_config) example_memory =
    (db', Some 1%nat, steps) ∧
    ∀ m, m ∈ working example_memory → ∃ r, r ∈ semantic (tabs db') ∧
      (s_id r, w_key m) ∈ summary_messages (tabs db') ∧ source_session (s_data r) = Some 2%nat.
Proof.
  destruct (consolidation_covers (λ x, x) example_providers example_facts example_config Z.of_nat example_memory
    (working example_memory) example_memory_ok example_answering) as (db' & todo & k & E & [Hnd Ht] & Hm & _).
  - vm_compute. lia.
  - vm_compute. lia.
  - apply (NoDup_fmap_1 w_key), (mo_keys _ example_memory_ok).
  - vm_compute. lia.
  - intros m Hm. split; [done|]. exists (Session 2 "c" 5 (Some 9%Z)). split; [left|]. split; [done|].
    split; [|by intros m' _ _ sid ?%not_elem_of_nil].
    revert m Hm. apply Forall_forall. repeat constructor.
  - assert (Hs : todo = [Session 2 "c" 5 (Some 9%Z)]).
    { apply Permutation_singleton_r, NoDup_Permutation; [done|apply NoDup_singleton|]. intros s.
      rewrite Ht, list_elem_of_singleton. split; [by intros [?%list_elem_of_singleton _]|].
      intros ->. split; [left|]. split; [done|]. exists (example_message "m1" 6 false). split; [left|]. split; [done|].
      by intros sid ?%not_elem_of_nil. }
    subst todo. exists db', k. split; [exact E|]. intros m Hin.
    destruct (Hm (Session 2 "c" 5 (Some 9%Z)) m) as (r & Hr & Hl & _ & _ & Hs); [left|done|done|..].
    + revert m Hin. apply Forall_forall. repeat constructor.
    + exists r. split; [done|]. split; [done|]. destruct Hs as [Hs|Hs]; [exfalso; exact (not_elem_of_nil _ Hs)|exact Hs].
Defined.

(** After a chat has been assigned to another profile, the summaries it has under the old
    one are condensed into the new one's memory. *)
Definition mixed_ops : list memory_op :=
  [ProfileOp (Assign 20 "c" 1); StartSession 21 "c";
   InsertMessage (Message "m4" "c" "ann" (Some "m4") 22 false false (Some 6%nat));
   InsertMessage (Message "m5" "c" "ann" (Some "m5") 23 false false (Some 6%nat));
   InsertMessage (Message "m6" "c" "ann" (Some "m6") 24 false false (Some 6%nat)); EndSession 25 6].

Definition run_example (cfg : ConsolidationConfig) (db : memory_db) : memory_db :=
  (alone Z.of_nat 0 (run_consolidation (λ x, x) example_providers (λ _, NotArray) cfg) db).1.1.

Definition mixed_memory : memory_db :=
  let db1 := run_example (ConsolidationConfig_ "haiku" 2 3 2 400 500) example_memory in
  run_example example_config (fold_left (λ db op, memory_step (λ x, x) 5 op db) mixed_ops
    (MemoryDb (put_semantic (tabs db1) (semantic (tabs db1)) 6) (sessions db1) (working db1) (state db1))).

(** The last summary of [db] is a parent of the first, which belongs to profile 0, in the
    memory of profile 1. *)
Definition mixes_profiles (db : memory_db) : bool :=
  match last (semantic (tabs db)), head (semantic (tabs db)) with
  | Some rp, Some rc =>
      bool_decide ((s_id rp, s_id rc) ∈ summary_parents (tabs db)) && (s_profile rp =? 1)%nat && (s_profile rc =? 0)%nat
  | _, _ => false
  end.

Lemma mixes_profiles_spec db : mixes_profiles db = true → ∃ rp rc,
  rp ∈ semantic (tabs db) ∧ rc ∈ semantic (tabs db) ∧
  (s_id rp, s_id rc) ∈ summary_parents (tabs db) ∧ s_profile rp = 1%nat ∧ s_profile rc = 0%nat.
Proof.
  unfold mixes_profiles. destruct (last _) as [rp|] eqn:Ep; [|done]. destruct (head _) as [rc|] eqn:Ec; [|done].
  intros [[H%bool_decide_eq_true H1%Nat.eqb_eq]%andb_true_iff H2%Nat.eqb_eq]%andb_true_iff. exists rp, rc.
  split; [by apply last_Some_elem_of|]. split; [by apply head_Some_elem_of|done].
Qed.

Example condensation_mixes_profiles : ∃ rp rc,
  rp ∈ semantic (tabs mixed_memory) ∧ rc ∈ semantic (tabs mixed_memory) ∧
  (s_id rp, s_id rc) ∈ summary_parents (tabs mixed_memory) ∧ s_profile rp = 1%nat ∧ s_profile rc = 0%nat.
Proof. apply mixes_profiles_spec. vm_compute. reflexivity. Qed.
