(* ===== verification/Reflection.v ===== *)
(** * Reflection

    [MemoryReflectionJob] of [src/orchestrator/reflection.ts]: observations from recent
    semantic memories, condensed observations from observations, and the cascade that
    lets the confidence of an observation follow that of its sources. *)

From Stdlib Require Import Ascii.
From stdpp Require Import pretty.
From S2P Require Import Prelude JsMap JsString JsNumber Profiles Identity IdentityOps Threads Jobs MemoryDb MemoryInv MemoryOps Consolidation.
Local Open Scope fh_scope.
Local Open Scope string_scope.
Local Open Scope list_scope.

Record ReflectionConfig := ReflectionConfig_ {
  enabled : bool;
  reflectionModel : string;
  maxInputTokens : Z;
  minSemanticEntries : nat;
  confidenceThreshold : spec_float;
  metaCondensationThreshold : nat;
  d1MetaMaxTokens : Z;
  d2MetaMaxTokens : Z;
  maxMetaDepth : nat;
  contradictionCascade : bool }.

(** A property that is missing or null is [None]. *)
Record ParsedReflection := Parsed {
  r_content : option string;
  r_confidence : option spec_float }.

(** ** Helpers *)

Definition truncateToTokens (text : string) (maxTokens : Z) : string :=
  let maxChars := (maxTokens * 4)%Z in
  if (Z.of_nat (String.length text) <=? maxChars)%Z then text else str_take (Z.to_nat maxChars) text.

Definition getPromptForDepth (depth : Z) (type : string) : system_prompt :=
  if (depth =? 0)%Z then reflection_prompt 0 type
  else if (depth =? 1)%Z then reflection_prompt 1 type
  else reflection_prompt 2 type.

(** [Number(value)] of what the job itself writes; another value is refused. *)
Fixpoint decimal_from (acc : Z) (s : string) : option Z :=
  match s with
  | EmptyString => Some acc
  | String c s =>
      let d := (unit_of c - 48)%Z in
      if (0 <=? d)%Z && (d <=? 9)%Z then decimal_from (10 * acc + d) s else None
  end.

Definition decimal (s : string) : option Z :=
  match s with EmptyString => None | _ => decimal_from 0 s end.

(** [confidence >= 0.2] *)
Definition confident (r : meta_row) : Prop := SFleb (hundredths 20) (confidence (m_data r)) = true.

#[export] Instance confident_dec r : Decision (confident r).
Proof. unfold confident. apply _. Defined.

(** ** Queries *)

(** [WHERE profile_id = ... AND created_at > since ORDER BY created_at DESC] *)
Definition recent_entries (db : memory_db) (pid : uuid) (since : Z) : list semantic_row :=
  sort_on (λ r, (- s_created r)%Z)
    (filter (λ r, s_profile r = pid ∧ (since < s_created r)%Z) (semantic (tabs db))).

Definition condensed_meta (t : profile_db) (c : uuid) : Prop := c ∈ map snd (meta_parents t).

#[export] Instance condensed_meta_dec t c : Decision (condensed_meta t c).
Proof. unfold condensed_meta. apply _. Defined.

Definition uncondensed_meta (db : memory_db) (pid : uuid) (type : string) (d : Z) : list meta_row :=
  sort_on m_created
    (filter (λ r, m_profile r = pid ∧ reflection_type (m_data r) = type ∧ m_depth (m_data r) = d ∧
                  confident r ∧ ¬ condensed_meta (tabs db) (m_id r)) (meta (tabs db))).

Definition comparable (pid : uuid) (type : string) (d : Z) (r : meta_row) : Prop :=
  m_profile r = pid ∧ reflection_type (m_data r) = type ∧ m_depth (m_data r) = d ∧ confident r.

#[export] Instance comparable_dec pid type d r : Decision (comparable pid type d r).
Proof. unfold comparable. apply _. Defined.

Definition meta_by_id (t : profile_db) (mid : uuid) : option meta_row :=
  List.find (λ r, bool_decide (m_id r = mid)) (meta t).

(** The confident entries of a depth that have sources of the depth below. *)
Definition parents_at (db : memory_db) (pid : uuid) (d : Z) : list meta_row :=
  filter (λ r, m_profile r = pid ∧ m_depth (m_data r) = d ∧ confident r ∧
               m_id r ∈ map fst (meta_parents (tabs db))) (meta (tabs db)).

(** The sources of an entry. *)
Definition children_of (t : profile_db) (mid : uuid) : list meta_row :=
  omap (λ l, if decide (l.1 = mid) then meta_by_id t l.2 else None) (meta_parents t).

(** [total > 0 && low / total > 0.5]: the quotient is exact enough for fewer than
    [2 ^ 53] sources. *)
Definition contradicted (t : profile_db) (mid : uuid) : bool :=
  let total := length (children_of t mid) in
  let low := length (filter (λ r, ¬ confident r) (children_of t mid)) in
  (0 <? total)%nat && (total <? 2 * low)%nat.

(** ** The job *)

Section Job.
Context (real : spec_float → spec_float) (providers : Providers) (index : VectorIndex).
Context (parse_reflections : string → reply ParsedReflection) (show_number : spec_float → string).
Context (cfg : ReflectionConfig).

Abbreviation job := (prog memory_db memory_job).
Abbreviation summarize_text := (ask (J := memory_job) providers).
Abbreviation embed_text := (embedding_of (J := memory_job) providers).

Definition types : list string := ["insight"; "heuristic"; "self_assessment"].

(** The statements of both kinds of reflection, each of which reads the clock. *)
Definition store_meta (pid : uuid) (d : meta_data) : job uuid :=
  call (λ t db, insert_meta real db pid d t).

Definition set_meta_confidence (mid : uuid) (c : spec_float) : job unit :=
  call (λ t db, db' ← update_confidence real db mid c t; Some (db', tt)).

Definition link_all (link : memory_db → uuid → uuid → option memory_db) (mid : uuid) (ids : list uuid) : job unit :=
  for_each (λ x, call (λ _ db, db' ← link db mid x; Some (db', tt))) ids.

Definition computeSimilarity (v : list spec_float) (mid : uuid) : job spec_float :=
  query (λ db, match meta_by_id (tabs db) mid with
               | Some r => similarity index v (m_embedding (m_data r))
               | None => double 0
               end).

(** One round of the loop of [runReflection]. *)
Definition store_reflection (type : string) (sourceIds : list uuid) (pid : uuid) (d : Z)
    (reflection : option ParsedReflection) : job nat :=
  match reflection with
  | None => Throw
  | Some (Parsed (Some content) conf) =>
      if negb (str_truthy content) then Ret 0%nat
      else
        let confidence := js_max (confidenceThreshold cfg) (js_min (hundredths 90) (default (hundredths 50) conf)) in
        await v := embed_text content in
        await existing := query (λ db,
          head (nearest index (λ r, m_embedding (m_data r)) v.1 1 (comparable pid type d) (meta (tabs db)))) in
        await confirmed :=
          (match existing with
           | None => Ret false
           | Some e =>
               await sim := computeSimilarity v.1 (m_id e) in
               if SFltb (hundredths 85) sim then
                 await _ := set_meta_confidence (m_id e) (confirmConfidence (Profiles.confidence (m_data e))) in
                 Ret true
               else if SFltb (hundredths 70) sim then
                 await _ := set_meta_confidence (m_id e) (contradictConfidence (Profiles.confidence (m_data e))) in
                 Ret false
               else Ret false
           end) in
        if confirmed then Ret 0%nat
        else
          await mid := store_meta pid (MetaData content v.1 type confidence d) in
          await _ := link_all link_source mid sourceIds in
          Ret 1%nat
  | Some _ => Ret 0%nat
  end.

Definition runReflection (type : string) (prompt : system_prompt) (content : string) (sourceIds : list uuid)
    (pid : uuid) (d : Z) : job nat :=
  catch
    (await result := summarize_text (Options (reflectionModel cfg) 500 prompt) content in
     match parse_reflections result.1 with
     | Unparsable => Throw
     | NotArray => Ret 0%nat
     | Items reflections => sum_each (store_reflection type sourceIds pid d) reflections
     end)
    (Ret 0%nat).

(** One round of the loop of [runCondensation]. *)
Definition store_condensed (type : string) (childIds : list uuid) (pid : uuid) (d : Z) (confidenceFloor : spec_float)
    (reflection : option ParsedReflection) : job nat :=
  match reflection with
  | None => Throw
  | Some (Parsed (Some content) conf) =>
      if negb (str_truthy content) then Ret 0%nat
      else
        let confidence := js_max confidenceFloor (js_min (hundredths 95) (default (hundredths 50) conf)) in
        await v := embed_text content in
        await mid := store_meta pid (MetaData content v.1 type confidence d) in
        await _ := link_all link_meta mid childIds in
        Ret 1%nat
  | Some _ => Ret 0%nat
  end.

Definition runCondensation (type : string) (prompt : system_prompt) (content : string) (childIds : list uuid)
    (pid : uuid) (d : Z) (confidenceFloor : spec_float) (maxTokens : Z) : job nat :=
  catch
    (await result := summarize_text (Options (reflectionModel cfg) maxTokens prompt) content in
     match parse_reflections result.1 with
     | Unparsable => Throw
     | NotArray => Ret 0%nat
     | Items reflections => sum_each (store_condensed type childIds pid d confidenceFloor) reflections
     end)
    (Ret 0%nat).

Definition format_entry (r : semantic_row) : string :=
  "[" ++ memory_type (s_data r) ++ "] (importance: " ++ show_number (importance (s_data r)) ++ "): " ++
  content (s_data r).

Definition lines (l : list string) : string := String.concat (String "010"%char "") l.

Definition generateD0 (pid : uuid) : job nat :=
  await last := query (λ db, map_get (state db) "last_reflection_at") in
  await recent := call (λ _ db,
    since ← (match last with Some v => decimal v | None => Some 0%Z end);
    Some (db, recent_entries db pid since)) in
  if (length recent <? minSemanticEntries cfg)%nat then Ret 0%nat
  else
    let truncated := truncateToTokens (lines (map format_entry recent)) (maxInputTokens cfg) in
    sum_each (λ type, runReflection type (reflection_prompt 0 type) truncated (map s_id recent) pid 0) types.

Definition format_meta (r : meta_row) : string :=
  "(confidence: " ++ toFixed2 (Profiles.confidence (m_data r)) ++ "): " ++ m_content (m_data r).

(** The average of the confidences and 0.05 more, at most 0.95. *)
Definition confidence_floor (l : list meta_row) : spec_float :=
  js_min (hundredths 95)
    (plus (SFdiv 53 1024 (fold_left (λ sum r, plus sum (Profiles.confidence (m_data r))) l (double 0))
             (double (Z.of_nat (length l)))) (hundredths 5)).

Definition condenseMetaType (sourceDepth targetDepth : Z) (pid : uuid) (type : string) : job nat :=
  await uncondensed := query (λ db, uncondensed_meta db pid type sourceDepth) in
  if (length uncondensed <? metaCondensationThreshold cfg)%nat then Ret 0%nat
  else
    let maxTokens := if (targetDepth =? 1)%Z then d1MetaMaxTokens cfg else d2MetaMaxTokens cfg in
    let truncated := truncateToTokens (lines (map format_meta uncondensed)) (maxTokens * 4) in
    runCondensation type (getPromptForDepth targetDepth type) truncated (map m_id uncondensed) pid targetDepth
      (confidence_floor uncondensed) maxTokens.

Definition condenseMeta (sourceDepth targetDepth : Z) (pid : uuid) : job nat :=
  sum_each (condenseMetaType sourceDepth targetDepth pid) types.

(** The depths from [d] on, [n] of them, until nothing is created. *)
Fixpoint condense_depths (n : nat) (d : Z) (pid : uuid) : job nat :=
  match n with
  | O => Ret 0%nat
  | S n =>
      await created := condenseMeta (d - 1) d pid in
      if (created =? 0)%nat then Ret created
      else await more := condense_depths n (d + 1) pid in Ret (created + more)%nat
  end.

Definition decay_parent (parent : meta_row) : job nat :=
  await low := query (λ db, contradicted (tabs db) (m_id parent)) in
  if low then
    await _ := set_meta_confidence (m_id parent) (contradictConfidence (Profiles.confidence (m_data parent))) in
    Ret 1%nat
  else Ret 0%nat.

Definition runContradictionCascade (pid : uuid) : job nat :=
  sum_each (λ d, await parents := query (λ db, parents_at db pid d) in sum_each decay_parent parents)
    (map Z.of_nat (seq 1 (maxMetaDepth cfg))).

Definition runForProfile (pid : uuid) : job nat :=
  await observed := generateD0 pid in
  await condensed := condense_depths (maxMetaDepth cfg) 1 pid in
  if contradictionCascade cfg then
    await _ := runContradictionCascade pid in Ret (observed + condensed)%nat
  else Ret (observed + condensed)%nat.

(** [running] is the flag of [Jobs.busy]. *)
Definition run_reflection : job nat :=
  if enabled cfg then
    await profiles := query (λ db, merge_sort le (pids (tabs db))) in
    await totalCreated := sum_each runForProfile profiles in
    await _ := update (λ t db, (set_state db "last_reflection_at" (pretty t), tt)) in
    Ret totalCreated
  else Ret 0%nat.
End Job.

(** ** Safety *)

Section Safety.
Context (real : spec_float → spec_float) (providers : Providers) (index : VectorIndex).
Context (parse_reflections : string → reply ParsedReflection) (show_number : spec_float → string).
Context (cfg : ReflectionConfig).

Abbreviation lasts := (lasting ReflectionJob).
Abbreviation ok := (memory_job_ok ReflectionJob).

(** An entry of a given depth, profile and type, and a memory of a given profile, if they
    are still there. *)
Definition meta_named (d : Z) (pid : uuid) (type : string) (mid : uuid) (db : memory_db) : Prop :=
  (mid < next_uuid (tabs db))%nat ∧ ∀ r, r ∈ meta (tabs db) → m_id r = mid →
    m_depth (m_data r) = d ∧ m_profile r = pid ∧ reflection_type (m_data r) = type.

Definition semantic_owned (pid sid : uuid) (db : memory_db) : Prop :=
  (sid < next_uuid (tabs db))%nat ∧ ∀ r, r ∈ semantic (tabs db) → s_id r = sid → s_profile r = pid.

Lemma meta_named_lasts d pid type mid : lasts (meta_named d pid type mid).
Proof.
  intros db db' [Hn _ Hm] [Hlt Hd]. split; [lia|]. intros r Hr E.
  destruct (Hm r Hr) as (r0 & Hr0 & E0 & Ep & Ed & Et); [lia|]. rewrite <- Ep, <- Ed, <- Et. apply Hd; [done|congruence].
Qed.

Lemma semantic_owned_lasts pid sid : lasts (semantic_owned pid sid).
Proof.
  intros db db' [Hn Hs _] [Hlt Hd]. split; [lia|]. intros r Hr E.
  destruct (Hs r Hr) as (r0 & Hr0 & E0 & Ep & _); [lia|]. rewrite <- Ep. apply Hd; [done|congruence].
Qed.

Lemma lasting_all {A} j (J : A → memory_db → Prop) (l : list A) :
  (∀ x, lasting j (J x)) → lasting j (λ db, ∀ x, x ∈ l → J x db).
Proof. intros H db db' Hr Hl x Hx. by eapply H; [|apply Hl]. Qed.

Lemma store_meta_ok pid d J (Q : uuid → memory_db → Prop) db : lasts J → J db → (0 ≤ m_depth d)%Z →
  (∀ mid db', J db' → meta_named (m_depth d) pid (reflection_type d) mid db' → Q mid db') →
  ok (store_meta real pid d) Q J db.
Proof.
  intros HJ Hdb Hd HQ. apply ok_calm_call with J; [done..|]. intros t db1 Hok HJ1.
  destruct (insert_meta _ _ _ _ _) as [[db2 mid]|] eqn:E; [|done].
  apply insert_meta_step in E as (Hc & _ & r & Hr & <- & Ep & Ed & Et); [|done..]. split; [done|]. intros HJ2.
  apply HQ; [done|]. destruct Hc as [Hok2 _]. pose proof (mo_tabs _ Hok2) as Ht. split.
  - apply (mid_bound _ _ Ht), elem_of_map. by exists r.
  - intros q Hq Eq. by rewrite (NoDup_map_inj m_id _ q r (ok_mids _ Ht) Hq Hr Eq).
Qed.

Lemma set_meta_confidence_ok mid c J db : lasts J → J db → ok (set_meta_confidence real mid c) (λ _, J) J db.
Proof.
  intros HJ Hdb. apply ok_calm_call with J; [done..|]. intros t db1 Hok HJ1.
  destruct (update_confidence _ _ _ _ _) as [db2|] eqn:E; cbn [mbind option_bind]; [|done].
  by apply update_confidence_step in E.
Qed.

(** Linking a new entry to all its sources. *)
Lemma link_all_ok link mid ids J db : lasts J → J db →
  (∀ x db1 db2, x ∈ ids → memory_ok db1 → J db1 → link db1 mid x = Some db2 → calm db1 db2) →
  ok (link_all link mid ids) (λ _, J) J db.
Proof.
  intros HJ Hdb Hl. apply ok_post with (λ _ : unit, λ db, J db ∧ [] ⊆ ids) J; [by intros ? ? [? _]|done|].
  apply (ok_for_each _ _ _ (λ l db, J db ∧ l ⊆ ids)); [|by split]. intros x l db1 [H1 Hsub].
  apply ok_calm_call with J; [done..|]. intros t db2 Hok HJ2.
  destruct (link db2 mid x) as [db3|] eqn:E; cbn [mbind option_bind]; [|done]. split.
  - eapply Hl; [|done..]. apply Hsub. left.
  - intros HJ3. split; [done|]. intros y Hy. apply Hsub. by right.
Qed.

Lemma link_source_calm mid sid pid type db db' : memory_ok db → meta_named 0 pid type mid db → semantic_owned pid sid db →
  link_source db mid sid = Some db' → calm db db'.
Proof.
  intros Hok [_ Hm] [_ Hs] E.
  assert (H : mid ∈ mids (tabs db) ∧ sid ∈ sids (tabs db)).
  { unfold link_source in E. cbn zeta in E. case_match eqn:Eb; [|done].
    apply andb_true_iff in Eb as [H1 H2]. by apply bool_decide_eq_true in H1, H2. }
  destruct H as [(rm & Hrm & <-)%elem_of_map (rs & Hrs & <-)%elem_of_map].
  destruct (Hm rm Hrm eq_refl) as (Hd & Hp & _). eapply link_source_step; try done. by rewrite Hp, (Hs rs).
Qed.

Lemma link_meta_calm mid child d pid type db db' : memory_ok db → meta_named d pid type mid db →
  meta_named (d - 1) pid type child db → link_meta db mid child = Some db' → calm db db'.
Proof.
  intros Hok [_ Hm] [_ Hs] E.
  assert (H : mid ∈ mids (tabs db) ∧ child ∈ mids (tabs db)).
  { unfold link_meta in E. cbn zeta in E. case_match eqn:Eb; [|done].
    apply andb_true_iff in Eb as [H1 H2]. by apply bool_decide_eq_true in H1, H2. }
  destruct H as [(rm & Hrm & <-)%elem_of_map (rs & Hrs & <-)%elem_of_map].
  destruct (Hm rm Hrm eq_refl) as (Hd & Hp & Ht). destruct (Hs rs Hrs eq_refl) as (Hd' & Hp' & Ht').
  apply (link_meta_step db (m_id rm) (m_id rs) rm rs); try done; [lia|congruence..].
Qed.

(** What the loop of a reflection keeps: the sources belong to the profile. *)
Definition sources_owned (pid : uuid) (ids : list uuid) (db : memory_db) : Prop := ∀ x, x ∈ ids → semantic_owned pid x db.

Lemma sources_owned_lasts pid ids : lasts (sources_owned pid ids).
Proof. apply lasting_all. intros x. apply semantic_owned_lasts. Qed.

Lemma store_reflection_ok type ids pid f db : sources_owned pid ids db →
  ok (store_reflection real providers index cfg type ids pid 0 f) (λ _, sources_owned pid ids) (sources_owned pid ids) db.
Proof.
  intros Hdb. pose proof (sources_owned_lasts pid ids) as HJ. set (J := sources_owned pid ids) in *.
  destruct f as [[[c|] conf]|]; cbn [store_reflection]; [|done..]. destruct (negb _); [done|].
  apply ok_bind. apply ok_embedding with J; [done..|]. intros v db1 H1.
  apply ok_bind. apply ok_lasting_query with J; [done..|]. intros db2 _ H2. apply ok_bind.
  apply ok_post with (λ _ : bool, J) J; [| done|].
  - intros [] db3 H3; [done|]. apply ok_bind. apply store_meta_ok with (J := J); [done..|]. cbn [m_depth reflection_type].
    intros mid db4 H4 Hm. apply ok_bind. apply ok_post with (λ _ : unit, λ db, J db ∧ meta_named 0 pid type mid db)
      (λ db, J db ∧ meta_named 0 pid type mid db); [by intros ? ? [? _]|by intros ? [? _]|].
    apply link_all_ok; [apply lasting_and; [done|apply meta_named_lasts]|done|].
    intros x db5 db6 Hx Hok5 [H5 Hm5] E. by eapply link_source_calm; [..|exact (H5 x Hx)|].
  - destruct (head _) as [e|]; [|done]. apply ok_bind.
    apply ok_lasting_query with J; [done..|]. intros db3 _ H3.
    destruct (SFltb _ _); [apply ok_bind; by apply set_meta_confidence_ok|].
    destruct (SFltb _ _); [apply ok_bind; by apply set_meta_confidence_ok|done].
Qed.

Lemma runReflection_ok type prompt text ids pid db : sources_owned pid ids db →
  ok (runReflection real providers index parse_reflections cfg type prompt text ids pid 0)
    (λ _, sources_owned pid ids) (sources_owned pid ids) db.
Proof.
  intros Hdb. pose proof (sources_owned_lasts pid ids) as HJ. set (J := sources_owned pid ids) in *.
  unfold runReflection. apply ok_catch. apply ok_post with (λ _ : nat, J) J; [done..|].
  apply ok_bind. apply ok_ask with J; [done..|]. intros r db1 H1.
  destruct (parse_reflections r.1); [done..|]. apply ok_sum_each; [|done]. intros f db2 _ H2. by apply store_reflection_ok.
Qed.

Lemma generateD0_ok pid db :
  ok (generateD0 real providers index parse_reflections show_number cfg pid) (λ _ _, True) (λ _, True) db.
Proof.
  unfold generateD0. apply ok_bind. apply ok_lasting_query with (λ _, True); [done..|]. intros db1 _ _.
  apply ok_bind. apply ok_calm_call with (λ _, True); [done..|]. intros t db2 Hok _.
  destruct (match map_get _ _ with Some _ => _ | None => _ end) as [since|]; cbn [mbind option_bind]; [|done].
  split; [by apply calm_refl|]. intros _. destruct (_ <? _)%nat; [done|].
  set (ids := map s_id (recent_entries db2 pid since)).
  apply ok_post with (λ _ : nat, sources_owned pid ids) (sources_owned pid ids); [done..|].
  apply ok_sum_each; [intros type db3 _ H3; by apply runReflection_ok|].
  pose proof (mo_tabs _ Hok) as Ht. intros x (r & Hr & <-)%elem_of_map. unfold recent_entries, sort_on in Hr.
  rewrite (merge_sort_Permutation _), list_elem_of_filter in Hr. destruct Hr as [[Hp _] Hr]. split.
  - apply (sid_bound _ _ Ht), elem_of_map. by exists r.
  - intros q Hq Eq. by rewrite (NoDup_map_inj s_id _ q r (ok_sids _ Ht) Hq Hr Eq).
Qed.

Definition children_named (d : Z) (pid : uuid) (type : string) (ids : list uuid) (db : memory_db) : Prop :=
  ∀ x, x ∈ ids → meta_named d pid type x db.

Lemma children_named_lasts d pid type ids : lasts (children_named d pid type ids).
Proof. apply lasting_all. intros x. apply meta_named_lasts. Qed.

Lemma store_condensed_ok type ids pid d fl f db : (0 ≤ d)%Z → children_named (d - 1) pid type ids db →
  ok (store_condensed real providers type ids pid d fl f) (λ _, children_named (d - 1) pid type ids)
    (children_named (d - 1) pid type ids) db.
Proof.
  intros Hd Hdb. pose proof (children_named_lasts (d - 1) pid type ids) as HJ.
  set (J := children_named (d - 1) pid type ids) in *.
  destruct f as [[[c|] conf]|]; cbn [store_condensed]; [|done..]. destruct (negb _); [done|].
  apply ok_bind. apply ok_embedding with J; [done..|]. intros v db1 H1.
  apply ok_bind. apply store_meta_ok with (J := J); [done..|]. cbn [m_depth reflection_type].
  intros mid db4 H4 Hm. apply ok_bind. apply ok_post with (λ _ : unit, λ db, J db ∧ meta_named d pid type mid db)
    (λ db, J db ∧ meta_named d pid type mid db); [by intros ? ? [? _]|by intros ? [? _]|].
  apply link_all_ok; [apply lasting_and; [done|apply meta_named_lasts]|done|].
  intros x db5 db6 Hx Hok5 [H5 Hm5] E. by eapply link_meta_calm; [..|exact (H5 x Hx)|].
Qed.

Lemma condenseMetaType_ok d pid type db : (1 ≤ d)%Z →
  ok (condenseMetaType real providers parse_reflections cfg (d - 1) d pid type) (λ _ _, True) (λ _, True) db.
Proof.
  intros Hd. unfold condenseMetaType. apply ok_bind. apply ok_query; [apply rely_refl|]. intros db1 _ Hok.
  destruct (_ <? _)%nat; [done|]. set (l := uncondensed_meta db1 pid type (d - 1)). set (ids := map m_id l).
  set (J := children_named (d - 1) pid type ids).
  assert (HJ : J db1).
  { pose proof (mo_tabs _ Hok) as Ht. intros x (r & Hr & <-)%elem_of_map. unfold l, uncondensed_meta, sort_on in Hr.
    rewrite (merge_sort_Permutation _), list_elem_of_filter in Hr. destruct Hr as [(Hp & Hty & Hde & _) Hr]. split.
    - apply (mid_bound _ _ Ht), elem_of_map. by exists r.
    - intros q Hq Eq. by rewrite (NoDup_map_inj m_id _ q r (ok_mids _ Ht) Hq Hr Eq). }
  pose proof (children_named_lasts (d - 1) pid type ids) as Hlast.
  unfold runCondensation. apply ok_catch. apply ok_post with (λ _ : nat, J) J; [done..|].
  apply ok_bind. apply ok_ask with J; [done..|]. intros r db2 H2.
  destruct (parse_reflections r.1); [done..|]. apply ok_sum_each; [|done]. intros f db3 _ H3.
  apply store_condensed_ok; [lia|done].
Qed.

Lemma condense_depths_ok n d pid db : (1 ≤ d)%Z →
  ok (condense_depths real providers parse_reflections cfg n d pid) (λ _ _, True) (λ _, True) db.
Proof.
  revert d db. induction n as [|n IH]; intros d db Hd; [done|]. cbn [condense_depths]. apply ok_bind.
  apply ok_post with (λ (_ : nat) (_ : memory_db), True) (λ _, True); [|done|].
  - intros created db1 _. destruct (created =? 0)%nat; [done|]. apply ok_bind.
    apply ok_post with (λ (_ : nat) (_ : memory_db), True) (λ _, True); [done..|]. apply IH. lia.
  - apply (ok_sum_each _ _ _ (λ _, True)); [|done]. intros type db1 _ _. by apply condenseMetaType_ok.
Qed.

Lemma cascade_ok pid db : ok (runContradictionCascade real cfg pid) (λ _ _, True) (λ _, True) db.
Proof.
  apply (ok_sum_each _ _ _ (λ _, True)); [|done]. intros d db1 _ _. apply ok_bind.
  apply ok_lasting_query with (λ _, True); [done..|]. intros db2 _ _.
  apply (ok_sum_each _ _ _ (λ _, True)); [|done]. intros r db3 _ _. apply ok_bind.
  apply ok_lasting_query with (λ _, True); [done..|]. intros db4 _ _. destruct (contradicted _ _); [|done].
  apply ok_bind. apply ok_post with (λ (_ : unit) (_ : memory_db), True) (λ _, True); [done..|].
  by apply (set_meta_confidence_ok _ _ (λ _, True)).
Qed.

Lemma run_reflection_ok db :
  ok (run_reflection real providers index parse_reflections show_number cfg) (λ _ _, True) (λ _, True) db.
Proof.
  unfold run_reflection. destruct (enabled cfg); [|done]. apply ok_bind.
  apply ok_lasting_query with (λ _, True); [done..|]. intros db1 _ _. apply ok_bind.
  apply ok_post with (λ (_ : nat) (_ : memory_db), True) (λ _, True); [|done|].
  - intros n db2 _. apply ok_bind. apply safe_update. intros t db4 _ Hok4.
    pose proof (set_state_calm db4 "last_reflection_at" (pretty t) Hok4) as Hc.
    split; [apply Hc|]. split; [by apply calm_to_others|done].
  - apply (ok_sum_each _ _ _ (λ _, True)); [|done]. intros pid db2 _ _. unfold runForProfile. apply ok_bind.
    eapply ok_post with (λ _ _, True) (λ _, True); [|done|apply generateD0_ok]. intros n db3 _. apply ok_bind.
    eapply ok_post with (λ _ _, True) (λ _, True); [|done|by apply condense_depths_ok]. intros m db4 _.
    destruct (contradictionCascade cfg); [|done]. apply ok_bind.
    eapply ok_post with (λ _ _, True) (λ _, True); [done..|]. apply cascade_ok.
Qed.
End Safety.
