(* ===== verification/MemoryRuns.v ===== *)
(** * The background jobs together

    Consolidation, reflection and the rest of the program on the same tables, in any
    interleaving; and what the contradiction cascade of [Reflection.v] computes. *)

From S2P Require Import Prelude JsMap JsString JsNumber Profiles Identity IdentityOps Threads Jobs MemoryDb MemoryInv MemoryOps Consolidation ConsolidationRuns Reflection.
Local Open Scope fh_scope.
Local Open Scope string_scope.
Local Open Scope list_scope.

Section System.
Context (real : spec_float → spec_float) (providers : Providers) (index : VectorIndex).
Context (parse_facts : string → reply ExtractedFact) (parse_reflections : string → reply ParsedReflection).
Context (show_number : spec_float → string).
Context (ccfg : ConsolidationConfig) (rcfg : ReflectionConfig) (maxProfiles : nat).



End System.

(** ** The contradiction cascade *)

(** Rows and tables without the time of the last update. *)
Definition strip (r : meta_row) : meta_row := Meta (m_id r) (m_profile r) (m_data r) (m_created r) 0 (m_accessed r).

Definition erase (t : profile_db) : profile_db := put_meta t (map strip (meta t)) (next_uuid t).

Definition alike (t t' : profile_db) : Prop := erase t = erase t'.

#[export] Instance alike_equiv : Equivalence alike.
Proof. split; repeat intro; unfold alike in *; congruence. Qed.

Section Cascade.
Context (real : spec_float → spec_float).

Definition decay (r : meta_row) : meta_row :=
  Meta (m_id r) (m_profile r)
    (MetaData (m_content (m_data r)) (m_embedding (m_data r)) (reflection_type (m_data r))
       (real (contradictConfidence (confidence (m_data r)))) (m_depth (m_data r)))
    (m_created r) (m_updated r) (m_accessed r).

(** An entry with more sources that have lost their confidence than that have kept it. *)
Definition outweighed (t : profile_db) (mid : uuid) : Prop :=
  (length (filter confident (children_of t mid)) < length (filter (λ r, ¬ confident r) (children_of t mid)))%nat.

#[export] Instance outweighed_dec t mid : Decision (outweighed t mid).
Proof. unfold outweighed. apply _. Defined.

Definition to_decay (t : profile_db) (pid : uuid) (d : Z) (r : meta_row) : bool :=
  bool_decide (m_profile r = pid ∧ m_depth (m_data r) = d ∧ confident r ∧ m_id r ∈ map fst (meta_parents t)) &&
  bool_decide (outweighed t (m_id r)).

Lemma length_filter_parts {A} (P : A → Prop) `{!∀ x, Decision (P x)} (l : list A) :
  (length (filter P l) + length (filter (λ x, ¬ P x) l))%nat = length l.
Proof.
  induction l as [|x l IH]; [done|]. destruct (decide (P x)).
  - rewrite filter_cons_True, (filter_cons_False (λ x, ¬ P x)) by tauto. simpl. lia.
  - rewrite filter_cons_False, (filter_cons_True (λ x, ¬ P x)) by tauto. simpl. lia.
Qed.

Lemma contradicted_outweighed t mid : contradicted t mid = bool_decide (outweighed t mid).
Proof.
  unfold contradicted, outweighed. pose proof (length_filter_parts confident (children_of t mid)).
  apply eq_true_iff_eq. rewrite bool_decide_eq_true, andb_true_iff, !Nat.ltb_lt. lia.
Qed.

Definition set_meta (t : profile_db) (l : list meta_row) : profile_db := put_meta t l (next_uuid t).

(** One depth at once: every confident entry most of whose sources are not, decays. *)
Definition decay_level (pid : uuid) (t : profile_db) (d : Z) : profile_db :=
  set_meta t (map (λ r, if to_decay t pid d r then decay r else r) (meta t)).

Definition decay_levels (pid : uuid) (depth : nat) (t : profile_db) : profile_db :=
  fold_left (decay_level pid) (map Z.of_nat (seq 1 depth)) t.

Lemma meta_by_id_map t (f : meta_row → meta_row) mid : (∀ r, m_id (f r) = m_id r) →
  meta_by_id (set_meta t (map f (meta t))) mid = f <$> meta_by_id t mid.
Proof.
  intros Hf. unfold meta_by_id. cbn [meta set_meta put_meta]. induction (meta t) as [|r l IH]; [done|]. simpl.
  rewrite Hf. by destruct (bool_decide (m_id r = mid)).
Qed.

Lemma children_map t f mid : (∀ r, m_id (f r) = m_id r) →
  children_of (set_meta t (map f (meta t))) mid = map f (children_of t mid).
Proof.
  intros Hf. unfold children_of.
  change (meta_parents (set_meta t (map f (meta t)))) with (meta_parents t).
  induction (meta_parents t) as [|l ls IH]; [done|]. unfold omap in *. cbn [list_omap].
  destruct (decide (l.1 = mid)); [|exact IH]. rewrite meta_by_id_map by done.
  destruct (meta_by_id t l.2); cbn [fmap option_fmap option_map map]; by rewrite IH.
Qed.

Lemma filter_map_same {A} (P : A → Prop) `{!∀ x, Decision (P x)} (f : A → A) l : (∀ x, x ∈ l → P (f x) ↔ P x) →
  length (filter P (map f l)) = length (filter P l).
Proof.
  induction l as [|x l IH]; intros Hf; [done|]. simpl. rewrite !filter_cons.
  assert (IH' : length (filter P (map f l)) = length (filter P l)) by (apply IH; intros y ?; apply Hf; by right).
  destruct (Hf x) as [H1 H2]; [left|]. destruct (decide (P (f x))), (decide (P x)); simpl; tauto || lia.
Qed.

Lemma contradicted_map t f mid : (∀ r, m_id (f r) = m_id r) →
  (∀ r, r ∈ children_of t mid → confident (f r) ↔ confident r) →
  contradicted (set_meta t (map f (meta t))) mid = contradicted t mid.
Proof.
  intros Hf Hc. unfold contradicted. rewrite children_map by done. rewrite length_map.
  rewrite (filter_map_same (λ r, ¬ confident r) f); [done|]. intros r Hr. by rewrite Hc.
Qed.

Lemma contradicted_erase t mid : contradicted (erase t) mid = contradicted t mid.
Proof. by apply (contradicted_map t strip). Qed.

Lemma to_decay_erase t pid d r : to_decay (erase t) pid d (strip r) = to_decay t pid d r.
Proof. unfold to_decay. by rewrite <- !contradicted_outweighed, contradicted_erase. Qed.

Lemma erase_level pid t d : erase (decay_level pid t d) = erase (decay_level pid (erase t) d).
Proof.
  unfold decay_level, erase, set_meta. cbn [put_meta meta next_uuid profiles chats semantic external identity
    personality summary_messages summary_parents meta_sources meta_parents].
  unfold put_meta. f_equal. rewrite !map_map. apply map_ext. intros r.
  change (put_meta t (map strip (meta t)) (next_uuid t)) with (erase t).
  change (Db _ _ _ (map strip (meta t)) _ _ _ _ _ _ _ _) with (erase t). rewrite to_decay_erase.
  by destruct (to_decay t pid d r).
Qed.

#[export] Instance decay_level_proper pid : Proper (alike ==> eq ==> alike) (decay_level pid).
Proof. intros t t' Ht d ? <-. unfold alike in *. by rewrite (erase_level pid t), (erase_level pid t'), Ht. Qed.
Lemma alike_iff t t' : alike t t' ↔ map strip (meta t) = map strip (meta t') ∧ set_meta t [] = set_meta t' [].
Proof.
  unfold alike, erase, set_meta, put_meta. split.
  - intros [=]. split; congruence.
  - intros [E [=]]. congruence.
Qed.

(** ** The job *)

Abbreviation ends := (ends (Job := memory_job) memory_ok).

Definition rest_same (db db' : memory_db) : Prop :=
  sessions db' = sessions db ∧ working db' = working db ∧ state db' = state db.

Lemma children_linked t mid r : r ∈ children_of t mid → r ∈ meta t ∧ (mid, m_id r) ∈ meta_parents t.
Proof.
  unfold children_of. intros (l & Hl & E)%list_elem_of_omap. case_decide as El; [|done].
  apply find_some in E as [Hr%list_elem_of_In Eid%bool_decide_eq_true]. split; [done|].
  destruct l as [a b]. simpl in *. by subst.
Qed.

(** The entries from depth [d] on have a confidence that can decay. *)
Definition decayable (t : profile_db) (d : Z) : Prop :=
  ∀ r, r ∈ meta t → (d ≤ m_depth (m_data r))%Z →
    unit_interval (real (contradictConfidence (confidence (m_data r)))) = true.

Section Level.
Context (pid : uuid) (d : Z) (t0 : profile_db) (Hok0 : profiles_ok t0) (Hl0 : links_ok t0) (Hdec : decayable t0 d).

(** The rows when the parents in [l] are still to be done. *)
Definition partial (l : list meta_row) (r : meta_row) : meta_row :=
  if to_decay t0 pid d r && negb (bool_decide (m_id r ∈ map m_id l)) then decay r else r.

Lemma partial_id l r : m_id (partial l r) = m_id r.
Proof. unfold partial. by destruct (_ && _). Qed.

Definition partly (l : list meta_row) (t : profile_db) : Prop := alike t (set_meta t0 (map (partial l) (meta t0))).

Lemma partly_contradicted l t p : partly l t → p ∈ meta t0 → m_depth (m_data p) = d →
  contradicted t (m_id p) = contradicted t0 (m_id p).
Proof.
  intros Ht Hp Hd. rewrite <- (contradicted_erase t), Ht, contradicted_erase. apply contradicted_map; [apply partial_id|].
  intros r [Hr Hlk]%children_linked. destruct (lk_meta _ Hl0 _ _ Hlk) as (rp & rc & Hrp & Hrc & Ep & Ec & Hde & _).
  rewrite (NoDup_map_inj m_id _ rp p (ok_mids _ Hok0) Hrp Hp Ep) in Hde.
  rewrite (NoDup_map_inj m_id _ rc r (ok_mids _ Hok0) Hrc Hr Ec) in Hde.
  unfold partial, to_decay. rewrite bool_decide_false; [done|]. intros (_ & ? & _). lia.
Qed.

Lemma partial_other p l r : m_id r ≠ m_id p → partial (p :: l) r = partial l r.
Proof.
  intros Hne. unfold partial. rewrite (bool_decide_ext (m_id r ∈ map m_id (p :: l)) (m_id r ∈ map m_id l)); [done|].
  simpl. rewrite elem_of_cons. naive_solver.
Qed.

Lemma strip_confidence mid c now r :
  strip (set_confidence real mid c now r) = strip (set_confidence real mid c now (strip r)).
Proof. unfold set_confidence. cbn [m_id strip]. by destruct (decide (m_id r = mid)). Qed.

(** The statement that does one parent. *)
Lemma partly_update p l t now : partly (p :: l) t → p ∈ meta t0 → to_decay t0 pid d p = true → m_id p ∉ map m_id l →
  partly l (put_meta t (map (set_confidence real (m_id p) (contradictConfidence (confidence (m_data p))) now) (meta t))
              (next_uuid t)).
Proof.
  intros Ht Hp Hd Hn. apply alike_iff in Ht as [Hm Hs]. apply alike_iff. split; [|exact Hs].
  cbn [meta put_meta set_meta] in *. set (g := set_confidence _ _ _ _).
  rewrite map_map, (map_ext _ (λ r, strip (g (strip r)))) by (intros r; apply strip_confidence).
  rewrite <- (map_map strip (λ r, strip (g r))), Hm, !map_map. apply map_ext_in. intros r Hr%list_elem_of_In.
  unfold g. rewrite <- strip_confidence. unfold set_confidence. rewrite partial_id. destruct (decide _) as [E|E].
  - rewrite (NoDup_map_inj m_id _ r p (ok_mids _ Hok0) Hr Hp E). unfold partial. rewrite Hd.
    rewrite (bool_decide_true (m_id p ∈ _)), (bool_decide_false _ Hn) by left. done.
  - by rewrite partial_other.
Qed.

(** A parent that is not contradicted needs none. *)
Lemma partly_skip p l t : partly (p :: l) t → p ∈ meta t0 → to_decay t0 pid d p = false → partly l t.
Proof.
  intros Ht Hp Hd. unfold partly in *. rewrite Ht. unfold set_meta. apply alike_iff. split; [|done]. cbn [meta put_meta].
  f_equal. apply map_ext_in. intros r Hr%list_elem_of_In. destruct (decide (m_id r = m_id p)) as [E|E]; [|by apply partial_other].
  rewrite (NoDup_map_inj m_id _ r p (ok_mids _ Hok0) Hr Hp E). unfold partial. by rewrite Hd.
Qed.

Lemma elem_of_parents db p : tabs db = t0 → p ∈ parents_at db pid d ↔ p ∈ meta t0 ∧
  m_profile p = pid ∧ m_depth (m_data p) = d ∧ confident p ∧ m_id p ∈ map fst (meta_parents t0).
Proof. intros <-. unfold parents_at. rewrite list_elem_of_filter. tauto. Qed.

Lemma decay_parents_ends db0 l db : rest_same db0 db → partly l (tabs db) → NoDup (map m_id l) →
  (∀ p, p ∈ l → p ∈ meta t0 ∧ m_profile p = pid ∧ m_depth (m_data p) = d ∧ confident p ∧
     m_id p ∈ map fst (meta_parents t0)) →
  ends (sum_each (decay_parent real) l) (λ _ db', rest_same db0 db' ∧ partly [] (tabs db')) (λ _, False) db.
Proof.
  intros Hr Hp Hn Hl.
  set (J := λ l db', rest_same db0 db' ∧ partly l (tabs db') ∧ NoDup (map m_id l) ∧
    ∀ p, p ∈ l → p ∈ meta t0 ∧ m_profile p = pid ∧ m_depth (m_data p) = d ∧ confident p ∧
      m_id p ∈ map fst (meta_parents t0)).
  apply (ends_post _ _ (λ _ : nat, J []) _ (λ _, False)); [by intros ? ? (? & ? & _)|done|].
  apply ends_sum_each; [|by split_and!]. clear l db Hr Hp Hn Hl. intros p l db1 (H1 & H2 & H3 & H4).
  destruct (H4 p) as (Hp & Hcond); [left|]. simpl in H3. apply NoDup_cons in H3 as [Hno Hn].
  assert (Hd : to_decay t0 pid d p = contradicted t0 (m_id p)).
  { unfold to_decay. by rewrite <- contradicted_outweighed, bool_decide_true. }
  assert (Hl : ∀ p, p ∈ l → p ∈ meta t0 ∧ m_profile p = pid ∧ m_depth (m_data p) = d ∧ confident p ∧
    m_id p ∈ map fst (meta_parents t0)) by (intros q ?; apply H4; by right).
  unfold decay_parent. apply ends_bind, ends_query. intros _.
  rewrite (partly_contradicted _ _ _ H2 Hp) by apply Hcond. destruct (contradicted t0 (m_id p)).
  - apply ends_bind, ends_call. intros _ now. unfold update_confidence. cbn zeta.
    rewrite (Hdec p Hp) by (destruct Hcond as (_ & -> & _); lia). cbn [orb mbind option_bind].
    split; [done|]. split; [by apply partly_update|done].
  - split; [done|]. split; [by eapply partly_skip|done].
Qed.

Lemma level_ends db : tabs db = t0 →
  ends (await parents := query (λ db, parents_at db pid d) in sum_each (decay_parent real) parents)
    (λ _ db', rest_same db db' ∧ alike (tabs db') (decay_level pid t0 d)) (λ _, False) db.
Proof.
  intros E. apply ends_bind, ends_query. intros Hok.
  eapply ends_post; [| |apply (decay_parents_ends db)]; [| |done|..]; [|done|..].
  - intros _ db' [H1 H2]. split; [done|]. unfold partly in H2. rewrite H2. unfold decay_level.
    apply alike_iff. split; [|done]. cbn [meta set_meta put_meta]. f_equal. apply map_ext. intros r.
    unfold partial. by rewrite andb_true_r.
  - unfold partly. rewrite E. apply alike_iff. split; [|done]. cbn [meta set_meta put_meta]. f_equal.
    symmetry. erewrite map_ext_in; [apply map_id|]. intros r Hr%list_elem_of_In. unfold partial.
    destruct (to_decay t0 pid d r) eqn:Ed; [|done]. rewrite bool_decide_true; [done|].
    apply elem_of_map. exists r. split; [|done]. apply elem_of_parents; [done|].
    unfold to_decay in Ed. apply andb_true_iff in Ed as [Ed%bool_decide_eq_true _]. by split.
  - unfold parents_at. rewrite E. by apply NoDup_map_filter, Hok0.
  - intros p. by rewrite elem_of_parents.
Qed.
End Level.

(** Decaying a depth does not touch the ones above, nor what the levels depend on. *)
Lemma decayable_level pid t d : decayable t d → decayable (decay_level pid t d) (d + 1).
Proof.
  intros Hd r (r0 & Hr0 & E)%elem_of_map Hge. unfold to_decay in E. rewrite <- contradicted_outweighed in E. case_bool_decide as Hc; cbn [andb] in E.
  - destruct (contradicted t (m_id r0)); subst r; cbn in *; destruct Hc as (_ & Hc & _); [lia|apply Hd; [done|lia]].
  - subst r. apply Hd; [done|lia].
Qed.

Lemma decayable_alike t t' d : alike t t' → decayable t d → decayable t' d.
Proof.
  intros [Hm _]%alike_iff Hd r Hr. assert (Hs : strip r ∈ map strip (meta t)).
  { rewrite Hm. apply elem_of_map. by exists r. }
  apply elem_of_map in Hs as (r0 & Hr0 & E). assert (Ed : m_data r0 = m_data r) by (by injection E).
  intros Hge. rewrite <- Ed. apply Hd; [done|by rewrite Ed].
Qed.

Lemma cascade_levels_ends pid (db0 : memory_db) n : ∀ (start : nat) db t, rest_same db0 db → alike (tabs db) t →
  decayable (tabs db) (Z.of_nat start) →
  ends (sum_each (λ d, await parents := query (λ db, parents_at db pid d) in sum_each (decay_parent real) parents)
          (map Z.of_nat (seq start n)))
    (λ _ db', rest_same db0 db' ∧
       alike (tabs db') (fold_left (decay_level pid) (map Z.of_nat (seq start n)) t)) (λ _, False) db.
Proof.
  induction n as [|n IH]; intros start db t Hr Ha Hd; [by split|]. cbn [seq map sum_each fold_left].
  apply ends_bind. apply ends_bind, ends_query. intros Hok.
  pose proof (level_ends pid (Z.of_nat start) (tabs db) (mo_tabs _ Hok) (mo_links _ Hok) Hd db eq_refl) as H.
  unfold query in H. cbn in H. specialize (H Hok 0%Z).
  eapply ends_post; [| |exact H]; [|done]. intros k db1 [H1 H2]. apply ends_bind.
  eapply ends_post; [| |apply (IH (S start) db1 (decay_level pid t (Z.of_nat start)))]; [|done|..].
  - intros k' db2 H3. exact H3.
  - unfold rest_same in *. intuition congruence.
  - rewrite H2. by rewrite Ha.
  - rewrite Nat2Z.inj_succ. apply (decayable_alike (decay_level pid (tabs db) (Z.of_nat start))); [by rewrite H2|].
    by apply decayable_level.
Qed.

Context (rcfg : ReflectionConfig) (clock : nat → Z).

(** C38: undisturbed, the contradiction cascade of a profile computes the levels one after
    the other, each at once: an entry of depth [d] decays exactly when it is confident and
    more than half of its sources are not, after the levels below; all else stays, and the
    order in which the entries of a depth come does not matter. *)
Theorem cascade_by_levels pid db i : memory_ok db → decayable (tabs db) 1 →
  ∃ db' n steps, alone clock i (runContradictionCascade real rcfg pid) db = (db', Some n, steps) ∧
    memory_ok db' ∧ rest_same db db' ∧ alike (tabs db') (decay_levels pid (maxMetaDepth rcfg) (tabs db)).
Proof.
  intros Hok Hd.
  pose proof (alone_ends memory_ok clock i rely ReflectionJob (runContradictionCascade real rcfg pid) _ _ _ _ db
    rely_refl Hok (cascade_ok real rcfg pid db)
    (cascade_levels_ends pid db (maxMetaDepth rcfg) 1 db (tabs db) ltac:(done) ltac:(done) Hd)) as H.
  destruct (alone clock i _ db) as [[db' [n|]] k]; [|by destruct H]. exists db', n, k.
  destruct H as [[H1 H2] H3]. by split_and!.
Qed.
End Cascade.

(** ** Examples *)

(** A parent at depth 1 whose two sources have lost their confidence. *)
Definition example_meta (i : uuid) (c d : Z) : meta_row :=
  Meta i 0 (MetaData "insight" example_vector "insight" (hundredths c) d) 3 3 3.

Definition cascade_tabs : profile_db :=
  Db [Profile 0 "default" None true 1 1] [Chat "c" 0 1] [] [example_meta 1 10 0; example_meta 2 15 0; example_meta 3 90 1]
    [] [] [] [] [] [] [(3, 1); (3, 2)]%nat 4.

Definition cascade_memory : memory_db := MemoryDb cascade_tabs [] [] [].

Lemma cascade_memory_ok : memory_ok cascade_memory.
Proof.
  split; cbn; try (by intros * ?%not_elem_of_nil); try apply NoDup_nil_2.
  - split; try (apply (bool_decide_unpack _); vm_compute; exact I); try (by intros ? ?%not_elem_of_nil).
    + apply Forall_forall. repeat (apply Forall_cons; split; [vm_compute; lia|]). apply Forall_nil_2.
    + intros c ->%list_elem_of_singleton. left.
    + apply Forall_forall. repeat (apply Forall_cons; split; [left|]). apply Forall_nil_2.
    + apply Forall_forall. repeat (apply Forall_cons; split; [apply (bool_decide_unpack _); vm_compute; exact I|]).
      apply Forall_nil_2.
  - split; try (by intros * ?%not_elem_of_nil).
    + cbn [meta_parents cascade_tabs]. intros p c [E|[E|?%not_elem_of_nil]%elem_of_cons]%elem_of_cons; [| |done]; injection E as -> ->.
      * exists (example_meta 3 90 1), (example_meta 1 10 0). split_and!; try done; [do 2 right; left|left].
      * exists (example_meta 3 90 1), (example_meta 2 15 0). split_and!; try done; [do 2 right; left|right; left].
    + apply Forall_forall. repeat (apply Forall_cons; split; [vm_compute; discriminate|]). apply Forall_nil_2.
    + apply Forall_forall. repeat (apply Forall_cons; split; [vm_compute; reflexivity|]). apply Forall_nil_2.
Qed.

Definition example_reflection_config : ReflectionConfig :=
  ReflectionConfig_ true "haiku" 4000 2 (hundredths 30) 2 400 300 3 true.

Lemma cascade_by_levels_witness : ∃ db' n steps,
  alone Z.of_nat 0 (runContradictionCascade (λ x, x) example_reflection_config 0) cascade_memory = (db', Some n, steps) ∧
  alike (tabs db') (decay_levels (λ x, x) 0 3 cascade_tabs).
Proof.
  destruct (cascade_by_levels (λ x, x) example_reflection_config Z.of_nat 0%nat cascade_memory 0%nat cascade_memory_ok)
    as (db' & n & k & E & _ & _ & Ha).
  - intros r Hr _. revert r Hr. apply Forall_forall.
    repeat (apply Forall_cons; split; [vm_compute; reflexivity|]). apply Forall_nil_2.
  - exists db', n, k. split; [exact E|exact Ha].
Defined.


(** The mark of the last reflection moves past entries that were too few to reflect on:
    with one entry before the first run and one before the second, and two needed, neither
    run creates anything, although both entries are there. *)
Definition example_entry (c : string) : StoreSemanticOptions := StoreSemanticOptions_ c "fact" None None None 0.

Definition reflect_example (t : nat) (replies : list (option ParsedReflection)) (db : memory_db) :
    memory_db * option nat :=
  (alone (λ i, Z.of_nat (t + i)) 0
     (run_reflection (λ x, x) example_providers (Indexing (λ _ _, double 0) (λ _ l, seq 0 (length l)))
        (λ _, Items replies) (λ _, "") example_reflection_config) db).1.

Definition store_example (t : Z) (c : string) (db : memory_db) : memory_db :=
  memory_step (λ x, x) 5 (StoreSemantic t (example_entry c) example_vector) db.

Definition idea : list (option ParsedReflection) := [Some (Parsed (Some "idea") None)].

Example small_batches_lost :
  let '(db1, n1) := reflect_example 20 idea (store_example 10 "first" example_memory) in
  let '(db2, n2) := reflect_example 200 idea (store_example 100 "second" db1) in
  (n1, n2, length (semantic (tabs db2)), length (meta (tabs db2))) = (Some 0%nat, Some 0%nat, 2%nat, 0%nat).
Proof. vm_compute. reflexivity. Qed.

(** An entry that cannot be read makes the run forget the entries created before it: they
    are in the tables, but not counted. *)
Example partial_reflection_uncounted :
  let '(db, n) := reflect_example 20 (idea ++ [None])
                    (store_example 11 "second" (store_example 10 "first" example_memory)) in
  (n, map (λ r, (m_depth (m_data r), reflection_type (m_data r))) (meta (tabs db))) =
  (Some 0%nat, [(0%Z, "insight"); (0%Z, "heuristic"); (0%Z, "self_assessment")]).
Proof. vm_compute. reflexivity. Qed.
