(* ===== verification/Memory.v ===== *)
(** * Retrieval from the memory tiers

    The queries of [src/orchestrator/memory.ts], each on one state of the tables: the
    ranked retrievals, the expansion of a memory into its sources, and the sessions. *)

From S2P Require Import Prelude JsMap JsString JsNumber Profiles IdentityOps Scoring MemoryDb MemoryInv Consolidation Reflection.
Local Open Scope string_scope.
Local Open Scope list_scope.

(** ** From a memory to its sources *)

Inductive expansion :=
| NoExpansion
| Messages (l : list message_row)
| ChildSummaries (l : list semantic_row).

Inductive meta_expansion :=
| NoMeta
| SourceSemantics (l : list semantic_row)
| ChildMetas (l : list meta_row).

Definition expandMemory (db : memory_db) (sid : uuid) : expansion :=
  let t := tabs db in
  match List.find (λ r, bool_decide (s_id r = sid ∧ memory_type (s_data r) = "summary")) (semantic t) with
  | None => NoExpansion
  | Some r =>
      if (depth (s_data r) =? 0)%Z then
        Messages (sort_on timestamp (filter (λ m, (sid, w_key m) ∈ summary_messages t) (working db)))
      else
        ChildSummaries (merge_sort earlier_start
          (filter (λ r, (sid, s_id r) ∈ summary_parents t) (semantic t)))
  end.

(** [ORDER BY depth, created_at] *)
Definition depth_created (r r' : meta_row) : Prop :=
  (m_depth (m_data r) < m_depth (m_data r'))%Z ∨
  (m_depth (m_data r) = m_depth (m_data r') ∧ (m_created r ≤ m_created r')%Z).

#[export] Instance depth_created_dec : RelDecision depth_created.
Proof. intros r r'. unfold depth_created. apply _. Defined.

Definition expandMetaMemory (t : profile_db) (mid : uuid) : meta_expansion :=
  match meta_by_id t mid with
  | None => NoMeta
  | Some r =>
      if (m_depth (m_data r) =? 0)%Z then
        SourceSemantics (sort_on s_created (filter (λ r, (mid, s_id r) ∈ meta_sources t) (semantic t)))
      else
        ChildMetas (merge_sort depth_created (filter (λ r, (mid, m_id r) ∈ meta_parents t) (meta t)))
  end.

(** The filter that drops an identifier seen before. *)
Fixpoint dedup (seen : list uuid) (l : list semantic_row) : list semantic_row :=
  match l with
  | [] => []
  | r :: l => if bool_decide (s_id r ∈ seen) then dedup seen l else r :: dedup (s_id r :: seen) l
  end.

(** The recursion ends because links lead down; [fuel] bounds its depth.  The code awaits a
    query for each entry; here all of them see one state of the tables. *)
Fixpoint traceMetaToSources (fuel : nat) (t : profile_db) (mid : uuid) : option (list semantic_row) :=
  match fuel with
  | O => None
  | S fuel =>
      match expandMetaMemory t mid with
      | NoMeta => Some []
      | SourceSemantics l => Some l
      | ChildMetas children =>
          sources ← mapM (λ c, traceMetaToSources fuel t (m_id c)) children;
          Some (dedup [] (concat sources))
      end
  end.

(** What the links say. *)
Inductive source_of (t : profile_db) : uuid → semantic_row → Prop :=
| by_source mid r : r ∈ semantic t → (mid, s_id r) ∈ meta_sources t → source_of t mid r
| by_child mid child r : (mid, child) ∈ meta_parents t → source_of t child r → source_of t mid r.

(** Rows of one table: equal when their identifiers are. *)
Definition same_table (l : list semantic_row) : Prop := ∀ x y, x ∈ l → y ∈ l → s_id x = s_id y → x = y.

Lemma elem_of_dedup l : ∀ seen r, same_table l → r ∈ dedup seen l ↔ r ∈ l ∧ s_id r ∉ seen.
Proof.
  induction l as [|x l IH]; intros seen r Hinj.
  - split; [by intros ?%not_elem_of_nil|by intros [?%not_elem_of_nil _]].
  - simpl. assert (Hinj' : same_table l) by (intros y z Hy Hz; apply Hinj; by right).
    case_bool_decide as Hs.
    + rewrite (IH _ _ Hinj'), elem_of_cons. split; [naive_solver|]. intros [[->|?] ?]; [done|by split].
    + rewrite !elem_of_cons, (IH _ _ Hinj'), elem_of_cons. split.
      * intros [->|[Hr Hn]]; [by split; [left|]|]. split; [by right|]. intros ?. apply Hn. by right.
      * intros [[->|Hr] Hn]; [by left|]. destruct (decide (s_id r = s_id x)) as [E|Hne]; [left|right].
        -- apply Hinj; [by right|by left|done].
        -- split; [done|]. by intros [?|?].
Qed.

Lemma NoDup_dedup l : ∀ seen, NoDup (map s_id (dedup seen l)) ∧ ∀ r, r ∈ dedup seen l → s_id r ∉ seen.
Proof.
  induction l as [|x l IH]; intros seen; simpl; [split; [constructor|by intros r ?%not_elem_of_nil]|].
  case_bool_decide as Hs; [apply IH|]. destruct (IH (s_id x :: seen)) as [Hn Hf]. split.
  - simpl. constructor; [|done]. intros (r & Hr & E)%elem_of_map. apply (Hf r Hr). rewrite E. by left.
  - intros r [->|Hr]%elem_of_cons; [done|]. apply Hf in Hr. intros ?. apply Hr. by right.
Qed.

Lemma meta_by_id_Some t mid r : meta_by_id t mid = Some r → r ∈ meta t ∧ m_id r = mid.
Proof. intros [Hr%list_elem_of_In E%bool_decide_eq_true]%find_some. done. Qed.

Lemma meta_by_id_None t mid : meta_by_id t mid = None → mid ∉ mids t.
Proof.
  intros Hn (r & Hr%list_elem_of_In & E)%elem_of_map. apply (find_none _ _ Hn) in Hr.
  apply bool_decide_eq_false in Hr. done.
Qed.

Lemma mapM_total {A B} (f : A → option B) (R : A → B → Prop) l : (∀ x, x ∈ l → ∃ y, f x = Some y ∧ R x y) →
  ∃ k, mapM f l = Some k ∧ Forall2 R l k.
Proof.
  induction l as [|x l IH]; intros Hf; [exists []; by split; [|constructor]|].
  destruct (Hf x) as (y & E & HR); [left|]. destruct IH as (k & Ek & Hk); [intros z Hz; apply Hf; by right|].
  exists (y :: k). cbn [mapM]. rewrite E. cbn [mbind option_bind]. rewrite Ek. by split; [|constructor].
Qed.

Section Trace.
Context (t : profile_db) (Hok : profiles_ok t) (Hl : links_ok t).

(** What the links say of an entry, by its depth. *)
Lemma source_of_inv mid r : source_of t mid r → ∃ m, m ∈ meta t ∧ m_id m = mid ∧ r ∈ semantic t ∧
  s_profile r = m_profile m ∧
  ((m_depth (m_data m) = 0%Z ∧ (mid, s_id r) ∈ meta_sources t) ∨
   ((0 < m_depth (m_data m))%Z ∧ ∃ c, c ∈ meta t ∧ (mid, m_id c) ∈ meta_parents t ∧
      (m_depth (m_data c) < m_depth (m_data m))%Z ∧ source_of t (m_id c) r)).
Proof.
  induction 1 as [mid r Hr Hlk|mid child r Hlk Hs (c & Hc & E & Hr & Hp & _)].
  - destruct (lk_source _ Hl _ _ Hlk) as (rm & rs & Hrm & Hrs & <- & E & Hd & Hp). exists rm.
    rewrite (NoDup_map_inj s_id _ rs r (ok_sids _ Hok) Hrs Hr E) in Hp. split_and!; auto.
  - destruct (lk_meta _ Hl _ _ Hlk) as (rp & rc & Hrp & Hrc & <- & E' & Hd & Hp' & _). exists rp.
    assert (rc = c) as -> by (apply (NoDup_map_inj m_id _ _ _ (ok_mids _ Hok) Hrc Hc); congruence).
    pose proof (lk_depth _ Hl c Hc). split_and!; [done..|congruence|right]. split; [lia|]. exists c.
    rewrite E. split_and!; [done..|lia|done].
Qed.

Definition traced (mid : uuid) (l : list semantic_row) : Prop :=
  NoDup (map s_id l) ∧ ∀ r, r ∈ l ↔ source_of t mid r.

Lemma traced_table mid l : traced mid l → ∀ r, r ∈ l → r ∈ semantic t.
Proof. intros [_ Hl'] r Hr. apply Hl', source_of_inv in Hr as (m & _ & _ & Hr & _). done. Qed.

Lemma trace_from fuel m : m ∈ meta t → (m_depth (m_data m) < Z.of_nat fuel)%Z →
  ∃ l, traceMetaToSources fuel t (m_id m) = Some l ∧ traced (m_id m) l.
Proof.
  revert m. induction fuel as [|fuel IH]; intros m Hm Hf; [pose proof (lk_depth _ Hl m Hm); lia|].
  cbn [traceMetaToSources]. unfold expandMetaMemory.
  destruct (meta_by_id t (m_id m)) as [m'|] eqn:E.
  2:{ apply meta_by_id_None in E. exfalso. apply E, elem_of_map. by exists m. }
  apply meta_by_id_Some in E as [Hm' E]. rewrite (NoDup_map_inj m_id _ m' m (ok_mids _ Hok) Hm' Hm E). clear m' Hm' E.
  destruct (Z.eqb_spec (m_depth (m_data m)) 0) as [Hd|Hd].
  - eexists. split; [reflexivity|]. unfold sort_on. split.
    + rewrite (merge_sort_Permutation _). apply NoDup_map_filter, Hok.
    + intros r. rewrite (merge_sort_Permutation _), list_elem_of_filter. split.
      * intros [Hlk Hr]. by apply by_source.
      * intros Hs. apply source_of_inv in Hs as (m' & Hm' & E & Hr & _ & [[_ Hlk]|[Hpos _]]); [by split|].
        rewrite (NoDup_map_inj m_id _ m' m (ok_mids _ Hok) Hm' Hm E) in Hpos. lia.
  - set (children := merge_sort _ _).
    assert (Hch : ∀ c, c ∈ children ↔ c ∈ meta t ∧ (m_id m, m_id c) ∈ meta_parents t).
    { intros c. unfold children. rewrite (merge_sort_Permutation _), list_elem_of_filter. tauto. }
    assert (Hdown : ∀ c, c ∈ children → (m_depth (m_data c) < Z.of_nat fuel)%Z).
    { intros c [Hc Hlk]%Hch. destruct (lk_meta _ Hl _ _ Hlk) as (rp & rc & Hrp & Hrc & E & E' & Hde & _).
      rewrite (NoDup_map_inj m_id _ rp m (ok_mids _ Hok) Hrp Hm E), (NoDup_map_inj m_id _ rc c (ok_mids _ Hok) Hrc Hc E') in Hde.
      lia. }
    destruct (mapM_total (λ c, traceMetaToSources fuel t (m_id c)) (λ c, traced (m_id c)) children) as (ls & Els & Hls).
    { intros c Hc. apply IH; [by apply Hch|by apply Hdown]. }
    rewrite Els. cbn [mbind option_bind]. eexists. split; [reflexivity|].
    assert (Hin : ∀ r, r ∈ concat ls ↔ ∃ c, c ∈ children ∧ source_of t (m_id c) r).
    { intros r. rewrite list_elem_of_In, in_concat. split.
      - intros (l & Hl'%list_elem_of_In & Hr%list_elem_of_In).
        apply list_elem_of_lookup in Hl' as [i Hi]. destruct (Forall2_lookup_r _ _ _ _ _ Hls Hi) as (c & Hc & Ht).
        exists c. split; [by eapply list_elem_of_lookup_2|]. by apply Ht.
      - intros (c & Hc & Hs). apply list_elem_of_lookup in Hc as [i Hi].
        destruct (Forall2_lookup_l _ _ _ _ _ Hls Hi) as (l & Hl' & Ht). exists l.
        split; [apply list_elem_of_In; by eapply list_elem_of_lookup_2|]. apply list_elem_of_In. by apply Ht. }
    assert (Htable : same_table (concat ls)).
    { intros x y (c & _ & Hx)%Hin (c' & _ & Hy)%Hin E.
      apply source_of_inv in Hx as (_ & _ & _ & Hx & _). apply source_of_inv in Hy as (_ & _ & _ & Hy & _).
      by apply (NoDup_map_inj s_id _ _ _ (ok_sids _ Hok) Hx Hy). }
    split; [apply NoDup_dedup|]. intros r. rewrite elem_of_dedup by done. rewrite Hin. split.
    + intros [(c & [Hc Hlk]%Hch & Hs) _]. by eapply by_child.
    + intros Hs. split; [|by intros ?%not_elem_of_nil].
      apply source_of_inv in Hs as (m' & Hm' & E & _ & _ & [[H0 _]|[_ (c & Hc & Hlk & _ & Hs)]]).
      * rewrite (NoDup_map_inj m_id _ m' m (ok_mids _ Hok) Hm' Hm E) in H0. done.
      * exists c. split; [by apply Hch|done].
Qed.
End Trace.

(** C40: tracing an entry ends, in as many levels as its depth, and gives each memory it
    comes from exactly once: those the links lead to, all of the entry's own profile. *)
Theorem trace_complete db m fuel : memory_ok db → m ∈ meta (tabs db) → (m_depth (m_data m) < Z.of_nat fuel)%Z →
  ∃ l, traceMetaToSources fuel (tabs db) (m_id m) = Some l ∧ NoDup (map s_id l) ∧
    (∀ r, r ∈ l ↔ source_of (tabs db) (m_id m) r) ∧ ∀ r, r ∈ l → s_profile r = m_profile m.
Proof.
  intros Hok Hm Hf. pose proof (mo_tabs _ Hok) as Ht. pose proof (mo_links _ Hok) as Hl.
  destruct (trace_from (tabs db) Ht Hl fuel m Hm Hf) as (l & E & Hn & Hin). exists l. split_and!; try done.
  intros r Hr. apply Hin, (source_of_inv _ Ht Hl) in Hr as (m' & Hm' & E' & _ & Hp & _).
  by rewrite (NoDup_map_inj m_id _ m' m (ok_mids _ Ht) Hm' Hm E') in Hp.
Qed.

(** An entry that is not there has no sources. *)
Lemma trace_unknown t mid fuel : mid ∉ mids t → traceMetaToSources (S fuel) t mid = Some [].
Proof.
  intros Hn. cbn [traceMetaToSources]. unfold expandMetaMemory. destruct (meta_by_id t mid) as [m|] eqn:E; [|done].
  apply meta_by_id_Some in E as [Hm <-]. exfalso. apply Hn, elem_of_map. by exists m.
Qed.

(** ** The newest messages *)

(** [SELECT * FROM (... ORDER BY timestamp DESC LIMIT n) sub ORDER BY timestamp ASC] *)
Definition newest (limit : nat) (l : list message_row) : list message_row :=
  sort_on timestamp (take limit (sort_on (λ m, (- timestamp m)%Z) l)).

Definition getMessagesSince (db : memory_db) (chat : string) (since : Z) (limit : option nat) : list message_row :=
  newest (default 50%nat limit)
    (filter (λ m, w_chat m = chat ∧ (since < timestamp m)%Z ∧ is_bot_message m = false) (working db)).

Definition getRecentMessages (db : memory_db) (chat : string) (limit : option nat) : list message_row :=
  newest (default 20%nat limit) (filter (λ m, w_chat m = chat) (working db)).

#[export] Instance not_after_total {A} (f : A → Z) : Total (not_after f).
Proof. intros x y. unfold not_after. lia. Qed.

#[export] Instance not_after_trans {A} (f : A → Z) : Transitive (not_after f).
Proof. intros x y z. unfold not_after. lia. Qed.

(** Of the messages of a chat, the newest, as many as asked for, in the order of their
    times: none that is left out is newer than one returned. *)
Theorem newest_window limit l :
  Sorted (not_after timestamp) (newest limit l) ∧ length (newest limit l) = (limit `min` length l)%nat ∧
  ∃ older, l ≡ₚ newest limit l ++ older ∧
    ∀ m m', m ∈ newest limit l → m' ∈ older → (timestamp m' ≤ timestamp m)%Z.
Proof.
  set (down := sort_on (λ m, (- timestamp m)%Z) l).
  assert (Hp : newest limit l ≡ₚ take limit down) by apply merge_sort_Permutation.
  assert (Hd : down ≡ₚ l) by apply merge_sort_Permutation.
  split; [apply Sorted_merge_sort, _|]. split.
  - rewrite (Permutation_length Hp), length_take. by rewrite (Permutation_length Hd).
  - exists (drop limit down). split; [by rewrite Hp, take_drop|]. intros m m' Hm Hm'. rewrite Hp in Hm.
    assert (Hs : StronglySorted (not_after (λ m, (- timestamp m)%Z)) (take limit down ++ drop limit down)).
    { rewrite take_drop. apply (StronglySorted_merge_sort _). }
    pose proof (StronglySorted_app_above _ _ _ m m' Hs Hm Hm') as H. unfold not_after in H. lia.
Qed.

(** ** Ranked retrieval *)

Record MetaInjectionConfig := MetaInjection {
  cascade_strategy : bool;
  d2MinSimilarity : spec_float;
  d1MinSimilarity : spec_float;
  d0MinSimilarity : spec_float;
  d2Slots : nat;
  d1Slots : nat;
  d0Slots : nat }.

Definition DEFAULT_META_INJECTION : MetaInjectionConfig :=
  MetaInjection true (hundredths 30) (hundredths 40) (hundredths 50) 2 2 1.

Record MemoryManagerOptions := ManagerOptions {
  workingMemoryLimit : nat;
  semanticMemoryLimit : nat;
  metaMemoryLimit : nat;
  externalMemoryLimit : nat;
  externalSimilarityThreshold : spec_float;
  scoringWeights : ScoringWeights;
  candidateMultiplier : nat;
  metaInjection : MetaInjectionConfig }.

Definition no_type (type : option string) (x : string) : Prop :=
  match type with Some ty => if str_truthy ty then x = ty else True | None => True end.

#[export] Instance no_type_dec type x : Decision (no_type type x).
Proof. unfold no_type. repeat case_match; apply _. Defined.

Section Queries.
Context (index : VectorIndex) (exp : spec_float → spec_float) (opts : MemoryManagerOptions).

Definition semantic_candidate (v : list spec_float) (r : semantic_row) : candidate semantic_row :=
  Candidate r (similarity index v (embedding (s_data r))) (s_accessed r) (importance (s_data r)).

Definition meta_candidate (v : list spec_float) (r : meta_row) : candidate meta_row :=
  Candidate r (similarity index v (m_embedding (m_data r))) (m_accessed r) (confidence (m_data r)).

Definition ranked {A} (l : list (candidate A)) (limit : nat) (now : Z) : list (candidate A * spec_float) :=
  rankByCompositeScore exp l (scoringWeights opts) limit now.

(** [v] is the embedding of the text. *)
Definition querySemanticMemory (t : profile_db) (v : list spec_float) (pid : uuid) (type : option string)
    (limit : option nat) (now : Z) : list (candidate semantic_row * spec_float) :=
  let limit := default (semanticMemoryLimit opts) limit in
  ranked (map (semantic_candidate v)
            (nearest index (λ r, embedding (s_data r)) v (limit * candidateMultiplier opts)
               (λ r, s_profile r = pid ∧ no_type type (memory_type (s_data r))) (semantic t))) limit now.

Definition queryMetaMemory (t : profile_db) (v : list spec_float) (pid : uuid) (type : option string)
    (limit : option nat) (minDepth maxDepth : option Z) (now : Z) : list (candidate meta_row * spec_float) :=
  let limit := default (metaMemoryLimit opts) limit in
  ranked (map (meta_candidate v)
            (nearest index (λ r, m_embedding (m_data r)) v (limit * candidateMultiplier opts)
               (λ r, m_profile r = pid ∧ no_type type (reflection_type (m_data r)) ∧ confident r ∧
                     (default 0 minDepth ≤ m_depth (m_data r) ≤ default 999 maxDepth)%Z) (meta t))) limit now.

Definition fetchMetaAtDepthRange (t : profile_db) (v : list spec_float) (pid : uuid) (minDepth maxDepth : Z)
    (limit : nat) (minSimilarity : spec_float) (now : Z) : list (candidate meta_row * spec_float) :=
  ranked (map (meta_candidate v)
            (List.filter (λ r, SFleb minSimilarity (similarity index v (m_embedding (m_data r))))
               (nearest index (λ r, m_embedding (m_data r)) v (limit * candidateMultiplier opts)
                  (λ r, m_profile r = pid ∧ confident r ∧ (minDepth ≤ m_depth (m_data r) ≤ maxDepth)%Z) (meta t))))
    limit now.

(** [COALESCE(MAX(depth), 0)] *)
Definition max_depth (t : profile_db) (pid : uuid) : Z :=
  match map (λ r, m_depth (m_data r)) (filter (λ r, m_profile r = pid ∧ confident r) (meta t)) with
  | [] => 0%Z
  | d :: l => fold_left Z.max l d
  end.

(** The results, before their accesses are recorded. *)
Definition meta_cascade (t : profile_db) (v : list spec_float) (pid : uuid) (cfg : MetaInjectionConfig) (now : Z) :
    list (candidate meta_row * spec_float) :=
  let maxDepth := max_depth t pid in
  (if (2 <=? maxDepth)%Z && (0 <? d2Slots cfg)%nat
   then fetchMetaAtDepthRange t v pid 2 maxDepth (d2Slots cfg) (d2MinSimilarity cfg) now else []) ++
  (if (0 <? d1Slots cfg)%nat then fetchMetaAtDepthRange t v pid 1 1 (d1Slots cfg) (d1MinSimilarity cfg) now else []) ++
  (if (0 <? d0Slots cfg)%nat then fetchMetaAtDepthRange t v pid 0 0 (d0Slots cfg) (d0MinSimilarity cfg) now else []).

Definition access_meta (db : memory_db) (now : Z) (l : list (candidate meta_row * spec_float)) : memory_db :=
  fold_left (λ db x, updateMetaAccess db now (m_id (c_row x.1))) l db.

Definition access_semantic (db : memory_db) (now : Z) (l : list (candidate semantic_row * spec_float)) : memory_db :=
  fold_left (λ db x, updateSemanticAccess db now (s_id (c_row x.1))) l db.

Definition queryMetaCascade (db : memory_db) (v : list spec_float) (pid : uuid) (cfg : option MetaInjectionConfig)
    (now : Z) : list (candidate meta_row * spec_float) * memory_db :=
  let results := meta_cascade (tabs db) v pid (default (metaInjection opts) cfg) now in
  (results, access_meta db now results).

Definition queryExternalMemory (t : profile_db) (v : list spec_float) (pid : uuid) (source : option string)
    (limit : option nat) : list (external_row * spec_float) :=
  let limit := default (externalMemoryLimit opts) limit in
  List.filter (λ x, SFleb (externalSimilarityThreshold opts) x.2)
    (map (λ r, (r, similarity index v (e_embedding r)))
       (nearest index e_embedding v limit
          (λ r, e_profile r = pid ∧ no_type source (source_type r)) (external t))).

(** ** What a query returns *)

Lemma elem_of_ranked {A} (l : list (candidate A)) limit now x : x ∈ ranked l limit now → x.1 ∈ l.
Proof.
  unfold ranked, rankByCompositeScore. intros Hx. apply subseteq_take in Hx. rewrite sort_ranked_perm in Hx.
  by apply elem_of_map in Hx as (c & Hc & <-).
Qed.

Lemma length_ranked {A} (l : list (candidate A)) limit now : (length (ranked l limit now) ≤ limit)%nat.
Proof. unfold ranked, rankByCompositeScore. rewrite length_take. lia. Qed.

Lemma querySemanticMemory_rows t v pid type limit now x : x ∈ querySemanticMemory t v pid type limit now →
  c_row x.1 ∈ semantic t ∧ s_profile (c_row x.1) = pid ∧ no_type type (memory_type (s_data (c_row x.1))).
Proof.
  intros (r & Hr & E)%elem_of_ranked%elem_of_map. rewrite <- E. apply elem_of_nearest in Hr.
  cbn. tauto.
Qed.

Lemma queryMetaMemory_rows t v pid type limit lo hi now x : x ∈ queryMetaMemory t v pid type limit lo hi now →
  c_row x.1 ∈ meta t ∧ m_profile (c_row x.1) = pid ∧ confident (c_row x.1).
Proof.
  intros (r & Hr & E)%elem_of_ranked%elem_of_map. rewrite <- E. apply elem_of_nearest in Hr.
  cbn. tauto.
Qed.

Lemma fetchMeta_rows t v pid lo hi limit sim now x : x ∈ fetchMetaAtDepthRange t v pid lo hi limit sim now →
  c_row x.1 ∈ meta t ∧ m_profile (c_row x.1) = pid ∧ confident (c_row x.1) ∧ (lo ≤ m_depth (m_data (c_row x.1)) ≤ hi)%Z.
Proof.
  intros (r & Hr & E)%elem_of_ranked%elem_of_map. rewrite <- E. apply elem_of_List_filter in Hr as [Hr _].
  apply elem_of_nearest in Hr. cbn. tauto.
Qed.

Lemma meta_cascade_rows t v pid cfg now x : x ∈ meta_cascade t v pid cfg now →
  c_row x.1 ∈ meta t ∧ m_profile (c_row x.1) = pid ∧ confident (c_row x.1) ∧ (0 ≤ m_depth (m_data (c_row x.1)))%Z.
Proof.
  unfold meta_cascade. intros [Hx|[Hx|Hx]%elem_of_app]%elem_of_app; (case_match; [|by apply not_elem_of_nil in Hx]);
    apply fetchMeta_rows in Hx as (? & ? & ? & ?); (split; [done|]; split; [done|]; split; [done|lia]).
Qed.

Lemma queryExternalMemory_rows t v pid source limit x : x ∈ queryExternalMemory t v pid source limit →
  x.1 ∈ external t ∧ e_profile x.1 = pid ∧ SFleb (externalSimilarityThreshold opts) x.2 = true.
Proof.
  intros [(r & Hr & E)%elem_of_map Hs]%elem_of_List_filter. rewrite <- E in *. apply elem_of_nearest in Hr.
  cbn in *. tauto.
Qed.

(** ** Sessions and statistics *)

Definition getActiveSession (db : memory_db) (chat : string) : option session_row :=
  head (sort_on (λ s, (- startedAt s)%Z) (filter (λ s, ss_chat s = chat ∧ endedAt s = None) (sessions db))).

Definition getSessionMessages (db : memory_db) (x : uuid) (limit : option nat) : list message_row :=
  newest (default (workingMemoryLimit opts) limit) (filter (in_session x) (working db)).

(** [GROUP BY]: one property for each value, with its count. *)
Definition count_by (prefix : string) (keys : list string) (stats : jsmap nat) : jsmap nat :=
  fold_left (λ s k, map_set s (prefix ++ k)%string (length (filter (λ x, x = k) keys))) (remove_dups keys) stats.

Definition getMemoryStats (db : memory_db) (pid : uuid) : jsmap nat :=
  let t := tabs db in
  let stats := count_by "semantic_" (map (λ r, memory_type (s_data r)) (filter (λ r, s_profile r = pid) (semantic t))) [] in
  let stats := count_by "meta_"
    (map (λ r, reflection_type (m_data r)) (filter (λ r, m_profile r = pid ∧ confident r) (meta t))) stats in
  let stats := count_by "external_" (map source_type (filter (λ r, e_profile r = pid) (external t))) stats in
  map_set stats "working_messages" (length (working db)).
End Queries.

(** The session that is active is the open one of the chat that was started last. *)
Definition open_session (db : memory_db) (chat : string) (s : session_row) : Prop :=
  s ∈ sessions db ∧ ss_chat s = chat ∧ endedAt s = None.

Definition latest_open (db : memory_db) (chat : string) (o : option session_row) : Prop :=
  match o with
  | Some s => open_session db chat s ∧ ∀ s', open_session db chat s' → (startedAt s' ≤ startedAt s)%Z
  | None => ∀ s, ¬ open_session db chat s
  end.

Lemma active_session_latest db chat : latest_open db chat (getActiveSession db chat).
Proof.
  unfold getActiveSession. set (l := sort_on (λ s, (- startedAt s)%Z) _).
  assert (Hl : ∀ s, s ∈ l ↔ open_session db chat s).
  { intros s. unfold l, sort_on. rewrite (merge_sort_Permutation _), list_elem_of_filter. unfold open_session. tauto. }
  assert (Hs : StronglySorted (not_after (λ s, (- startedAt s)%Z)) l) by apply (StronglySorted_merge_sort _).
  destruct l as [|s l']; simpl.
  - by intros s ?%Hl%not_elem_of_nil.
  - split; [apply Hl; left|]. apply StronglySorted_inv in Hs as [_ Hs]. rewrite Forall_forall in Hs.
    intros s' [->|Hs']%Hl%elem_of_cons; [lia|]. apply Hs in Hs'. unfold not_after in Hs'. lia.
Qed.

(** A session's messages: the newest, as many as asked for, in order. *)
Lemma elem_of_session_messages opts db x limit m : m ∈ getSessionMessages opts db x limit → m ∈ working db ∧ in_session x m.
Proof.
  unfold getSessionMessages, newest, sort_on. rewrite (merge_sort_Permutation _). intros Hm%subseteq_take.
  rewrite (merge_sort_Permutation _), list_elem_of_filter in Hm. tauto.
Qed.

(** ** Witnesses *)

Definition traced_tabs : profile_db :=
  Db [Profile 0 "default" None true 1 1] [] [Semantic 1 0 (example_data "tea") 3 3 3 0; Semantic 2 0 (example_data "jam") 4 4 4 0]
    [Meta 3 0 (MetaData "a" [] "insight" (hundredths 50) 0) 5 5 5; Meta 4 0 (MetaData "b" [] "insight" (hundredths 50) 0) 6 6 6;
     Meta 5 0 (MetaData "c" [] "insight" (hundredths 60) 1) 7 7 7]
    [] [] [] [] [] [(3, 1); (4, 1); (4, 2)]%nat [(5, 3); (5, 4)]%nat 6.

Lemma traced_memory_ok : memory_ok (MemoryDb traced_tabs [] [] []).
Proof.
  split; cbn; try (by intros * ?%not_elem_of_nil); try apply NoDup_nil_2.
  - split; try (apply (bool_decide_unpack _); vm_compute; exact I); try (by intros ? ?%not_elem_of_nil);
      apply Forall_forall; repeat (apply Forall_cons; split; [|]); try apply Forall_nil_2;
      try (vm_compute; lia); try left; apply (bool_decide_unpack _); vm_compute; exact I.
  - split; try (by intros * ?%not_elem_of_nil).
    + by intros r r' key _ _ ?%not_elem_of_nil.
    + cbn [meta_sources traced_tabs]. intros m s [E|[E|[E|?%not_elem_of_nil]%elem_of_cons]%elem_of_cons]%elem_of_cons;
        [| | |done]; injection E as -> ->.
      * exists (Meta 3 0 (MetaData "a" [] "insight" (hundredths 50) 0) 5 5 5), (Semantic 1 0 (example_data "tea") 3 3 3 0).
        split_and!; try done; left.
      * exists (Meta 4 0 (MetaData "b" [] "insight" (hundredths 50) 0) 6 6 6), (Semantic 1 0 (example_data "tea") 3 3 3 0).
        split_and!; try done; [right; left|left].
      * exists (Meta 4 0 (MetaData "b" [] "insight" (hundredths 50) 0) 6 6 6), (Semantic 2 0 (example_data "jam") 4 4 4 0).
        split_and!; try done; right; left.
    + cbn [meta_parents traced_tabs]. intros p c [E|[E|?%not_elem_of_nil]%elem_of_cons]%elem_of_cons; [| |done]; injection E as -> ->;
        exists (Meta 5 0 (MetaData "c" [] "insight" (hundredths 60) 1) 7 7 7).
      * exists (Meta 3 0 (MetaData "a" [] "insight" (hundredths 50) 0) 5 5 5). split_and!; try done; [do 2 right; left|left].
      * exists (Meta 4 0 (MetaData "b" [] "insight" (hundredths 50) 0) 6 6 6). split_and!; try done; [do 2 right; left|right; left].
    + apply Forall_forall. repeat (apply Forall_cons; split; [vm_compute; discriminate|]). apply Forall_nil_2.
    + apply Forall_forall. repeat (apply Forall_cons; split; [vm_compute; reflexivity|]). apply Forall_nil_2.
Qed.

Lemma trace_complete_witness : ∃ l, traceMetaToSources 2 traced_tabs 5 = Some l ∧ map s_id l = [1; 2]%nat ∧
  ∀ r, r ∈ l ↔ source_of traced_tabs 5 r.
Proof.
  destruct (trace_complete (MemoryDb traced_tabs [] [] []) (Meta 5 0 (MetaData "c" [] "insight" (hundredths 60) 1) 7 7 7) 2
    traced_memory_ok) as (l & E & _ & Hin & _).
  - do 2 right. left.
  - vm_compute. reflexivity.
  - exists l. split; [exact E|]. split; [|exact Hin].
    assert (E' : traceMetaToSources 2 traced_tabs 5 = Some (semantic traced_tabs)) by (vm_compute; reflexivity).
    assert (El : Some l = Some (semantic traced_tabs)) by (transitivity (traceMetaToSources 2 traced_tabs 5); [symmetry; exact E|exact E']).
    injection El as ->. reflexivity.
Defined.
