(* ===== verification/MessageRouter.v ===== *)
(** * Replies

    [src/orchestrator/message-router.ts]: what happens to the result of an agent's run.
    The reply is handed to the channel container, stored among the messages of the chat,
    and tool calls that sent a mail or created an event leave a fact in the memory of the
    chat's profile.  The channel client and the model of embeddings are outside: what
    they do at a time is an argument. *)

From S2P Require Import Prelude JsMap JsString JsNumber Profiles Json MemoryDb MemoryInv MemoryOps Memory Jobs Threads Consolidation.
Local Open Scope fh_scope.
Local Open Scope string_scope.
Local Open Scope list_scope.

Record outbound := Outbound { ob_channel : string; ob_chat : string; ob_text : string; ob_reply : option string }.

(** The database, and the messages that were handed to the channel client. *)
Record router_state := Router { rdb : memory_db; attempts : list outbound }.

Record ToolCallRecord := ToolCall { tool : string; call_args : json; call_result : option string }.

Record AgentResult := Result { reply_text : string; toolCalls : list ToolCallRecord; succeeded : bool }.

(** ** Facts from tool calls *)

Record ExtractedFact := Fact { fact_content : string; fact_type : string; fact_importance : spec_float }.

Definition string_arg (call : ToolCallRecord) (key d : string) : string :=
  match prop (call_args call) key with Some (Str s) => s | _ => d end.

Definition extractFactFromToolCall (call : ToolCallRecord) : option ExtractedFact :=
  let has_result := match call_result call with Some r => str_truthy r | None => false end in
  if includes "gmail" (tool call) && includes "send" (tool call) && has_result then
    let subject := string_arg call "subject" "" in
    Some (Fact ("Sent email to " ++ string_arg call "to" "unknown" ++
                (if str_truthy subject then ": " ++ subject else "")) "fact" (hundredths 60))
  else if includes "calendar" (tool call) && includes "insert" (tool call) && has_result then
    Some (Fact ("Created calendar event: " ++ string_arg call "summary" "event") "fact" (hundredths 60))
  else None.

(** ** The router *)

Section Router.
Context (real : spec_float → spec_float) (pr : Providers).

(** Whether a message that is handed to the client at a time is delivered, and the random
    part of the identifier of the stored reply. *)
Context (delivered : Z → outbound → bool) (bot_id : Z → string).

Abbreviation job := (prog router_state unit).

Definition on_db {A} (f : Z → memory_db → option (memory_db * A)) : job A :=
  call (λ t s, (λ r, (Router r.1 (attempts s), r.2)) <$> f t (rdb s)).

Definition ask_db {A} (f : memory_db → A) : job A := query (λ s, f (rdb s)).

(** A failure of the client goes to the log. *)
Definition deliver (client : bool) (m : outbound) : job bool :=
  if client then update (λ t s, (Router (rdb s) (attempts s ++ [m]), delivered t m)) else Ret false.

(** [storeMessage] of [src/orchestrator/database.ts]: two statements.  The profile of a
    chat without one is the empty text, which is no identifier. *)
Definition store_reply (chat text : string) (session : option session_row) (profile : option uuid) (now : Z) : job unit :=
  match profile with
  | None => Throw
  | Some pid =>
      await _ := on_db (λ t db, (λ db, (db, tt)) <$> upsertChat db t chat pid) in
      on_db (λ _ db, (λ db, (db, tt)) <$>
        insert_message db (Message (bot_id now) chat "FlowHelm" (Some text) now true true (ss_id <$> session)))
  end.

Definition sendResponse (started client : bool) (chat channel text : string) (replyToId : option string) : job unit :=
  if started then
    await _ := deliver client (Outbound channel chat text replyToId) in
    await session := ask_db (λ db, getActiveSession db chat) in
    await profile := update (λ t s, (s, (id <$> getChatProfile (tabs (rdb s)) chat, t))) in
    store_reply chat text session profile.1 profile.2
  else Throw.

Definition store_fact (session : option session_row) (profile : option uuid) (f : ExtractedFact) : job unit :=
  await v := call (λ t s, v ← embed pr t (fact_content f); Some (s, (v, t))) in
  match profile with
  | None => Throw
  | Some pid =>
      await _ := on_db (λ _ db, storeSemanticMemory real db v.2
        (StoreSemanticOptions_ (fact_content f) (fact_type f) (Some (fact_importance f)) (ss_id <$> session) None pid) v.1) in
      Ret tt
  end.

Definition extractMemories (chat : string) (result : AgentResult) : job unit :=
  await session := ask_db (λ db, getActiveSession db chat) in
  await profile := ask_db (λ db, id <$> getChatProfile (tabs db) chat) in
  for_each (λ c, match extractFactFromToolCall c with
                 | Some f => store_fact session profile f
                 | None => Ret tt
                 end) (toolCalls result).

Definition handleAgentResult (started client : bool) (chat channel : string) (result : AgentResult)
    (replyToId : option string) : job unit :=
  await _ := (if str_truthy (reply_text result) then
                sendResponse started client chat channel (reply_text result) replyToId else Ret tt) in
  if succeeded result && str_truthy (reply_text result) then extractMemories chat result else Ret tt.

(** ** Outcome *)

Lemma ask_db_alone {A} clock i (f : memory_db → A) s : alone clock i (ask_db f) s = (s, Some (f (rdb s)), S i).
Proof. done. Qed.

Lemma active_session_known db chat x : getActiveSession db chat = Some x → x ∈ sessions db.
Proof.
  unfold getActiveSession. intros H. apply head_Some_elem_of in H. unfold sort_on in H.
  rewrite merge_sort_Permutation in H. by apply list_elem_of_filter in H as [_ H].
Qed.

(** What the statement says of the facts of tool calls. *)
Definition contains (needle s : string) : Prop := ∃ a b, s = (a ++ needle ++ b)%string.

Definition answered (c : ToolCallRecord) : Prop := ∃ r, call_result c = Some r ∧ r ≠ "".

Definition sent_mail (c : ToolCallRecord) : Prop := contains "gmail" (tool c) ∧ contains "send" (tool c) ∧ answered c.

Definition created_event (c : ToolCallRecord) : Prop :=
  contains "calendar" (tool c) ∧ contains "insert" (tool c) ∧ answered c.

(** The text of an argument, or what stands in for one that is no text. *)
Definition argument (c : ToolCallRecord) (key otherwise text : string) : Prop :=
  prop (call_args c) key = Some (Str text) ∨ ((∀ s, prop (call_args c) key ≠ Some (Str s)) ∧ text = otherwise).

Definition mail_text (c : ToolCallRecord) (text : string) : Prop := ∃ to subject,
  argument c "to" "unknown" to ∧ argument c "subject" "" subject ∧
  text = if decide (subject = "") then ("Sent email to " ++ to)%string else ("Sent email to " ++ to ++ ": " ++ subject)%string.

Definition event_text (c : ToolCallRecord) (text : string) : Prop := ∃ summary,
  argument c "summary" "event" summary ∧ text = ("Created calendar event: " ++ summary)%string.

(** The fact of a tool call, if it leaves one. *)
Definition fact_text (c : ToolCallRecord) (o : option string) : Prop :=
  (sent_mail c → ∃ text, o = Some text ∧ mail_text c text) ∧
  (¬ sent_mail c → created_event c → ∃ text, o = Some text ∧ event_text c text) ∧
  (¬ sent_mail c → ¬ created_event c → o = None).

(** The columns of a stored fact. *)
Definition fact_row (session : option uuid) (pid : uuid) (r : semantic_row) (text : string) : Prop :=
  s_profile r = pid ∧ content (s_data r) = text ∧ memory_type (s_data r) = "fact" ∧
  importance (s_data r) = real (hundredths 60) ∧ source_session (s_data r) = session.

Lemma string_arg_text c key d : argument c key d (string_arg c key d).
Proof. unfold argument, string_arg. destruct (prop (call_args c) key) as [[]|]; naive_solver. Qed.

Lemma answered_iff c : match call_result c with Some r => str_truthy r | None => false end = true ↔ answered c.
Proof.
  unfold answered. destruct (call_result c) as [[|a r]|]; simpl; split; try done.
  - by intros (r & [= <-] & ?).
  - intros _. by exists (String a r).
  - by intros (r & ? & _).
Qed.

Lemma extract_text c : fact_text c (fact_content <$> extractFactFromToolCall c).
Proof.
  unfold extractFactFromToolCall. cbn zeta. set (has := match call_result c with Some r => str_truthy r | None => false end).
  assert (Hm : includes "gmail" (tool c) && includes "send" (tool c) && has = true ↔ sent_mail c)
    by (unfold sent_mail, has; rewrite !andb_true_iff, answered_iff, !includes_spec; unfold contains; tauto).
  assert (He : includes "calendar" (tool c) && includes "insert" (tool c) && has = true ↔ created_event c)
    by (unfold created_event, has; rewrite !andb_true_iff, answered_iff, !includes_spec; unfold contains; tauto).
  destruct (includes "gmail" (tool c) && _ && has).
  - assert (Hs : sent_mail c) by by apply Hm. split; [|by split]. intros _. eexists. split; [reflexivity|].
    exists (string_arg c "to" "unknown"), (string_arg c "subject" ""). split; [apply string_arg_text|].
    split; [apply string_arg_text|]. cbn [fact_content]. destruct (string_arg c "subject" "") as [|a q]; simpl;
      [by rewrite string_app_nil_r|done].
  - assert (Hs : ¬ sent_mail c) by (intros H; by apply Hm in H). split; [done|].
    destruct (includes "calendar" (tool c) && _ && has).
    + assert (Hc : created_event c) by by apply He. split; [|done]. intros _ _. eexists. split; [reflexivity|].
      exists (string_arg c "summary" "event"). split; [apply string_arg_text|done].
    + split; [|done]. intros _ Hc. by apply He in Hc.
Qed.

Lemma fact_shape c f : extractFactFromToolCall c = Some f → fact_type f = "fact" ∧ fact_importance f = hundredths 60.
Proof. unfold extractFactFromToolCall. cbn zeta. repeat case_match; by intros [= <-]. Qed.

Record adds_facts (session : option uuid) (pid : uuid) (s s' : router_state) (fs : list string) : Prop := {
  af_attempts : attempts s' = attempts s;
  af_working : working (rdb s') = working (rdb s);
  af_sessions : sessions (rdb s') = sessions (rdb s);
  af_profiles : profiles (tabs (rdb s')) = profiles (tabs (rdb s));
  af_rows : ∃ rows, semantic (tabs (rdb s')) = semantic (tabs (rdb s)) ++ rows ∧ Forall2 (fact_row session pid) rows fs }.

Lemma adds_nil x pid s : adds_facts x pid s s [].
Proof. split; try done. exists []. by rewrite app_nil_r. Qed.

Lemma adds_app x pid s1 s2 s3 l1 l2 : adds_facts x pid s1 s2 l1 → adds_facts x pid s2 s3 l2 →
  adds_facts x pid s1 s3 (l1 ++ l2).
Proof.
  intros [A1 W1 S1 P1 (r1 & E1 & F1)] [A2 W2 S2 P2 (r2 & E2 & F2)]. split; try congruence.
  exists (r1 ++ r2). split; [by rewrite E2, E1, app_assoc|by apply Forall2_app].
Qed.

Section Outcome.
Context (Hreal : unit_interval (real (hundredths 60)) = true).
Context (clock : nat → Z).

(** The embeddings of all texts can be had, each with its number of components. *)
Definition embeddings_work : Prop := ∀ t text, ∃ v, embed pr t text = Some v ∧ length v = DIMENSIONS.

Lemma store_fact_alone i s session pid c f : extractFactFromToolCall c = Some f → pid ∈ pids (tabs (rdb s)) →
  (∀ x, session = Some x → x ∈ sessions (rdb s)) →
  (∃ s', alone clock i (store_fact session (Some pid) f) s = (s', Some tt, S (S i)) ∧
    adds_facts (ss_id <$> session) pid s s' [fact_content f]) ∨
  (∃ j, alone clock i (store_fact session (Some pid) f) s = (s, None, j) ∧ ¬ embeddings_work).
Proof.
  intros Hf Hp Hs. apply fact_shape in Hf as [Et Ei]. unfold store_fact.
  rewrite alone_bind, alone_call. destruct (embed pr (clock i) (fact_content f)) as [v|] eqn:Ev; cbn [mbind option_bind].
  2: { right. eexists. split; [reflexivity|]. intros Hw. destruct (Hw (clock i) (fact_content f)) as (v & Hv & _). congruence. }
  unfold on_db. rewrite alone_bind, alone_call. unfold storeSemanticMemory, insert_semantic.
  cbn [o_profile o_type o_importance o_content o_session from_option Datatypes.id memory_type importance embedding source_session rdb fst snd].
  assert (Hx : match ss_id <$> session with Some x => bool_decide (x ∈ session_ids (rdb s)) | None => true end = true).
  { destruct session as [x|]; [|done]. simpl. apply bool_decide_eq_true_2, elem_of_map. exists x. split; [by apply Hs|done]. }
  rewrite Et, Ei, Hreal, Hx. assert (Hb : bool_decide (pid ∈ pids (tabs (rdb s))) = true) by by apply bool_decide_eq_true_2.
  rewrite Hb. destruct (decide (length v = DIMENSIONS)) as [Hl|Hl].
  - left. rewrite (proj2 (Nat.eqb_eq _ _) Hl). eexists. split; [reflexivity|]. split; try done.
    eexists. split; [reflexivity|]. constructor; [|constructor]. done.
  - right. rewrite (proj2 (Nat.eqb_neq _ _) Hl). eexists. split; [reflexivity|].
    intros Hw. destruct (Hw (clock i) (fact_content f)) as (v' & Hv & Hl'). congruence.
Qed.

(** The texts of the calls' facts, in their order. *)
Abbreviation texts calls := (map (λ c, fact_content <$> extractFactFromToolCall c) calls).

Lemma facts_alone calls i s session pid : pid ∈ pids (tabs (rdb s)) →
  (∀ x, session = Some x → x ∈ sessions (rdb s)) →
  ∃ s' r j written, alone clock i (for_each (λ c, match extractFactFromToolCall c with
             | Some f => store_fact session (Some pid) f | None => Ret tt end) calls) s = (s', r, j) ∧
    adds_facts (ss_id <$> session) pid s s' written ∧
    (∃ rest, omap Datatypes.id (texts calls) = written ++ rest ∧ (r = Some tt → rest = [])) ∧ (embeddings_work → r = Some tt).
Proof.
  revert i s. induction calls as [|c calls IH]; intros i s Hp Hs.
  { exists s, (Some tt), i, []. split; [done|]. split; [apply adds_nil|]. split; [by exists []|done]. }
  simpl. rewrite alone_bind. destruct (extractFactFromToolCall c) as [f|] eqn:Ef; [|by apply IH]. cbn [fmap option_fmap option_map omap].
  destruct (store_fact_alone i s session pid c f Ef Hp Hs) as [(s1 & -> & H1)|(j & -> & Hn)].
  - destruct (IH (S (S i)) s1) as (s2 & r & j & w & -> & H2 & (rest & Ew & Hr) & He).
    + unfold pids. by rewrite (af_profiles _ _ _ _ _ H1).
    + intros x Ex. rewrite (af_sessions _ _ _ _ _ H1). by apply Hs.
    + exists s2, r, j, (fact_content f :: w). split; [done|]. split; [by apply (adds_app _ _ _ _ _ [_] _ H1)|].
      split; [|done]. exists rest. split; [|done]. simpl. f_equal. exact Ew.
  - exists s, None, j, []. split; [done|]. split; [apply adds_nil|]. split; [by eexists|done].
Qed.

Lemma upsert_chat_profile db now chat pid db' c : chat ∈ map chat_id (chats (tabs db)) →
  upsertChat db now chat pid = Some db' → getChatProfile (tabs db') c = getChatProfile (tabs db) c.
Proof.
  intros Hc. unfold upsertChat. cbn zeta. rewrite bool_decide_eq_true_2 by done. intros [= <-].
  unfold getChatProfile. cbn [tabs with_tabs put_chats chats]. clear Hc. induction (chats (tabs db)) as [|r l IH]; [done|].
  simpl. destruct (decide (chat_id r = chat)); simpl; (case_bool_decide; [done|apply IH]).
Qed.

Lemma profile_of_chat_known t chat p : getChatProfile t chat = Some p → chat ∈ map chat_id (chats t) ∧ id p ∈ pids t.
Proof.
  unfold getChatProfile. destruct (List.find _ _) as [c|] eqn:E; [|done]. simpl. intros Hp.
  apply List.find_some in E as [Hc Eq%bool_decide_eq_true]. apply list_elem_of_In in Hc. split.
  - apply elem_of_map. by exists c.
  - apply getProfile_Some in Hp as [Hp _]. apply elem_of_map. by exists p.
Qed.

(** The session of the rows that are written about a chat. *)
Definition current_session (db : memory_db) (chat : string) : option uuid := ss_id <$> getActiveSession db chat.

Definition reply_row (db : memory_db) (chat text : string) (now : Z) : message_row :=
  Message (bot_id now) chat "FlowHelm" (Some text) now true true (current_session db chat).

Lemma store_reply_alone i s chat text p now : getChatProfile (tabs (rdb s)) chat = Some p →
  ¬ stored (rdb s) (bot_id now, chat) →
  ∃ db', alone clock i (store_reply chat text (getActiveSession (rdb s) chat) (Some (id p)) now) s =
           (Router db' (attempts s), Some tt, S (S i)) ∧
    working db' = working (rdb s) ++ [reply_row (rdb s) chat text now] ∧
    sessions db' = sessions (rdb s) ∧ semantic (tabs db') = semantic (tabs (rdb s)) ∧
    getChatProfile (tabs db') chat = Some p.
Proof.
  intros Hp Hnew. destruct (profile_of_chat_known _ _ _ Hp) as [Hc Hpid]. unfold store_reply, on_db.
  rewrite alone_bind, alone_call. pose proof (upsert_outcome (rdb s) (clock i) chat (id p)) as Hu.
  destruct (upsertChat _ _ _ _) as [db1|] eqn:E; [|tauto]. destruct Hu as (_ & Hc1 & [Hpr Hse Hss Hw]).
  cbn [fmap option_fmap option_map fst snd]. rewrite alone_call. cbn [rdb attempts].
  rewrite insert_outcome; [|done|].
  - rewrite bool_decide_eq_false_2 by (unfold stored; by rewrite Hw).
    eexists. split; [reflexivity|]. cbn [working sessions tabs]. rewrite Hw, Hss.
    split; [done|]. split; [done|]. split; [done|].
    change (getChatProfile (tabs db1) chat = Some p). by rewrite (upsert_chat_profile _ _ _ _ _ chat Hc E).
  - intros x. cbn [w_session]. destruct (getActiveSession (rdb s) chat) as [y|] eqn:Ey; [|done]. intros [= <-].
    apply active_session_known in Ey. unfold session_ids. rewrite Hss. apply elem_of_map. by exists y.
Qed.

Lemma send_alone i s client chat channel text reply p : getChatProfile (tabs (rdb s)) chat = Some p →
  (∀ t, ¬ stored (rdb s) (bot_id t, chat)) →
  ∃ db' now j, alone clock i (sendResponse true client chat channel text reply) s =
      (Router db' (attempts s ++ if client then [Outbound channel chat text reply] else []), Some tt, j) ∧
    working db' = working (rdb s) ++ [reply_row (rdb s) chat text now] ∧
    sessions db' = sessions (rdb s) ∧ semantic (tabs db') = semantic (tabs (rdb s)) ∧
    getChatProfile (tabs db') chat = Some p.
Proof.
  intros Hp Hnew. unfold sendResponse. rewrite alone_bind.
  set (s1 := Router (rdb s) (attempts s ++ if client then [Outbound channel chat text reply] else [])).
  assert (Hd : ∃ b j, alone clock i (deliver client (Outbound channel chat text reply)) s = (s1, Some b, j)).
  { unfold s1. destruct client; simpl; [by eexists _, _|]. exists false, i. rewrite app_nil_r. by destruct s. }
  destruct Hd as (b & j & ->). rewrite alone_bind, ask_db_alone, alone_bind, alone_update. cbn [fst snd].
  replace (id <$> getChatProfile (tabs (rdb s1)) chat) with (Some (id p)) by (unfold s1; cbn [rdb]; by rewrite Hp).
  destruct (store_reply_alone (S (S j)) s1 chat text p (clock (S j)) Hp (Hnew _)) as (db' & -> & H).
  by eexists db', _, _.
Qed.

Lemma texts_of calls : Forall2 fact_text calls (texts calls).
Proof. induction calls as [|c calls IH]; simpl; constructor; [apply extract_text|done]. Qed.

(** C28: in a run of the router that no other part interrupts, for a chat with a profile and
    identifiers that are new: a reply that is not empty is handed to the channel client once
    and stored once, as the bot's message in the chat's latest open session, whether or not
    it was delivered.  When the agent succeeded, each call of a tool for sending mail, or for
    inserting into a calendar, that came back with a result leaves one fact in the memory of
    the chat's profile, and no other call does, in their order; an embedding that fails ends
    the run after a part of the facts, and only that does. *)
Theorem result_outcome s client chat channel result reply p :
  profile_of_chat (tabs (rdb s)) chat = Some p → reply_text result ≠ "" →
  (∀ t, ¬ stored (rdb s) (bot_id t, chat)) →
  ∃ s' r now j session, alone clock 0 (handleAgentResult true client chat channel result reply) s = (s', r, j) ∧
    latest_open (rdb s) chat session ∧
    attempts s' = attempts s ++ (if client then [Outbound channel chat (reply_text result) reply] else []) ∧
    working (rdb s') = working (rdb s) ++
      [Message (bot_id now) chat "FlowHelm" (Some (reply_text result)) now true true (ss_id <$> session)] ∧
    ∃ rows facts written rest, semantic (tabs (rdb s')) = semantic (tabs (rdb s)) ++ rows ∧
      Forall2 (fact_row (ss_id <$> session) (id p)) rows written ∧
      Forall2 fact_text (if succeeded result then toolCalls result else []) facts ∧
      omap Datatypes.id facts = written ++ rest ∧ (r = Some tt → rest = []) ∧ (embeddings_work → r = Some tt).
Proof.
  rewrite <- getChatProfile_row. intros Hp Ht Hnew. assert (Ht' : str_truthy (reply_text result) = true) by by destruct (reply_text result).
  unfold handleAgentResult. rewrite Ht', alone_bind, andb_true_r.
  destruct (send_alone 0 s client chat channel (reply_text result) reply p Hp Hnew) as (db1 & now & j & -> & Hw & Hss & Hse & Hp1).
  pose proof (active_session_latest (rdb s) chat) as Hl. destruct (succeeded result).
  - set (s1 := Router db1 _). unfold extractMemories. rewrite alone_bind, ask_db_alone, alone_bind, ask_db_alone.
    replace (id <$> getChatProfile (tabs (rdb s1)) chat) with (Some (id p)) by (unfold s1; cbn [rdb]; by rewrite Hp1).
    assert (Ha : getActiveSession (rdb s1) chat = getActiveSession (rdb s) chat) by (unfold getActiveSession; simpl; by rewrite Hss).
    destruct (facts_alone (toolCalls result) (S (S j)) s1 (getActiveSession (rdb s1) chat) (id p))
      as (s2 & r & k & written & E & H & (rest & Er & Hr) & He).
    + by apply (profile_of_chat_known _ chat p).
    + intros x. apply active_session_known.
    + exists s2, r, now, k, (getActiveSession (rdb s) chat). rewrite E. destruct H as [A W _ _ (rows & E2 & F)].
      rewrite A, W, E2. split; [done|]. split; [done|]. split; [done|]. split; [done|].
      exists rows, (texts (toolCalls result)), written, rest. rewrite <- Ha.
      split; [simpl; by rewrite Hse|]. split; [done|]. split; [apply texts_of|done].
  - eexists _, _, now, j, (getActiveSession (rdb s) chat). split; [reflexivity|].
    split; [done|]. split; [done|]. split; [done|]. exists [], [], [], []. simpl. rewrite app_nil_r, Hse.
    split; [done|]. split; [constructor|]. split; [constructor|done].
Qed.
End Outcome.
End Router.

(** ** A reply to a new chat *)

Definition zero_providers : Providers := Providing (λ _ _ _, None) (λ _ _, Some (replicate DIMENSIONS (double 0))).

Definition one_chat : memory_db :=
  MemoryDb (Db [Profile 0 "default" None true 1 1] [Chat "tg:1" 0 1] [] [] [] [] [] [] [] [] [] 2)
    [Session 1 "tg:1" 5 None] [] [].

Definition mail_sent : AgentResult :=
  Result "Done." [ToolCall "gmail_send" (Obj [("to", Str "bob@example.com"); ("subject", Str "Hi")]) (Some "sent");
                  ToolCall "gmail_send" (Obj []) None; ToolCall "calendar_insert" (Obj []) (Some "ok")] true.

Lemma result_outcome_witness :
  let run := alone Z.of_nat 0
    (handleAgentResult (λ x, x) zero_providers (λ _ _, false) (λ _, "bot") true true "tg:1" "telegram" mail_sent None)
    (Router one_chat []) in
  let s' := run.1.1 in
  run.1.2 = Some tt ∧ attempts s' = [Outbound "telegram" "tg:1" "Done." None] ∧
  map w_content (working (rdb s')) = [Some "Done."] ∧
  map (λ r, content (s_data r)) (semantic (tabs (rdb s'))) =
    ["Sent email to bob@example.com: Hi"; "Created calendar event: event"].
Proof.
  intros run s'.
  destruct (result_outcome (λ x, x) zero_providers (λ _ _, false) (λ _, "bot")
    ltac:(vm_compute; reflexivity) Z.of_nat (Router one_chat []) true "tg:1" "telegram" mail_sent None
    (Profile 0 "default" None true 1 1)) as (s1 & r & now & j & session & E & _ & Ha & Hw & rows & facts & written & rest & _ & _ & _ & _ & _ & He).
  - reflexivity.
  - discriminate.
  - intros t H. apply elem_of_nil in H. exact H.
  - assert (Es : s' = s1) by (unfold s', run; rewrite E; reflexivity).
    assert (Er : run.1.2 = r) by (unfold run; rewrite E; reflexivity). rewrite Es, Er.
    split; [|split; [exact Ha|split; [rewrite Hw; reflexivity|rewrite <- Es; vm_compute; reflexivity]]].
    apply He. intros t text. exists (replicate DIMENSIONS (double 0)). split; [reflexivity|apply length_replicate].
Defined.
