(* ===== verification/ChannelInbound.v ===== *)
(** * Messages from the channels

    [src/channels/channel-db.ts] and [handleInbound] of [src/channels/main.ts]: a message
    that an adapter has normalised is written to the tables of [MemoryDb.v] and to the
    queue of [MessageQueue.v] by three statements, each a transaction of its own.
    Messages are handled at the same time, among themselves and beside the orchestrator,
    which works on the same tables; so a handler is a function of [Threads.v].  The
    database may be unreachable for a while: then a statement throws. *)

From S2P Require Import Prelude JsMap JsString JsNumber Profiles MemoryDb MemoryInv MemoryOps Jobs Threads MessageQueue.
Local Open Scope fh_scope.
Local Open Scope string_scope.
Local Open Scope list_scope.

(** The database, as far as a message needs it; [reachable] is outside the program. *)
Record pg := Pg { mem : memory_db; q : queue; reachable : bool }.

Definition put_mem (db : memory_db) (s : pg) : pg := Pg db (q s) (reachable s).
Definition put_queue (l : queue) (s : pg) : pg := Pg (mem s) l (reachable s).

(** ** The writer *)

Abbreviation handler := (prog pg InboundMessage).

Definition statement (f : Z → pg → option pg) : handler unit :=
  call (λ t s, if reachable s then (λ s', (s', tt)) <$> f t s else None).

(** [SELECT id FROM agent_profiles WHERE is_default = true LIMIT 1]; kept by the writer
    from then on. *)
Definition resolveDefaultProfileId (cached : option uuid) (s : pg) : result uuid :=
  match cached with
  | Some pid => Ok pid
  | None =>
      match List.find isDefault (profiles (tabs (mem s))) with
      | Some p => Ok (Profiles.id p)
      | None => Err "[channel-db] No default agent profile found"
      end
  end.

Definition upsertChat (chatId : string) (profileId : uuid) : handler unit :=
  statement (λ now s, (λ db, put_mem db s) <$> MemoryDb.upsertChat (mem s) now chatId profileId).

Definition message_row_of (chatId : string) (m : InboundMessage) : message_row :=
  Message (msg_id m) chatId (senderName m) (text m) (MessageQueue.timestamp m) (isFromMe m) false None.

Definition storeMessage (chatId : string) (m : InboundMessage) : handler unit :=
  statement (λ _ s, (λ db, put_mem db s) <$> insert_message (mem s) (message_row_of chatId m)).

(** The default of the column [max_attempts]. *)
Definition DEFAULT_MAX_ATTEMPTS : nat := 3.

(** The chat of a row is a foreign key. *)
Definition enqueueMessage (chatId : string) (m : InboundMessage) : handler unit :=
  statement (λ now s,
    if bool_decide (chatId ∈ map Profiles.chat_id (chats (tabs (mem s)))) then
      let r := Row (next_id (q s)) (msg_id m) chatId m pending 0 DEFAULT_MAX_ATTEMPTS now now None in
      Some (put_queue (Queue (rows (q s) ++ [r]) (S (next_id (q s)))) s)
    else None).

(** [replace(/^(tg|wa|gmail):/, '')] *)
Definition strip_prefix (p s : string) : option string :=
  if starts_with p s then Some (str_drop (String.length p) s) else None.

Definition externalId (userId : string) : string :=
  match strip_prefix "tg:" userId with
  | Some x => x
  | None => match strip_prefix "wa:" userId with
            | Some x => x
            | None => default userId (strip_prefix "gmail:" userId)
            end
  end.

(** The identifiers that the adapters of a channel make up differ in their external part,
    so the unique pair of channel and external identifier, which [MemoryDb.v] leaves out,
    refuses none of them. *)
Lemma externalId_prefixed p x : p ∈ ["tg:"; "wa:"; "gmail:"] → externalId (p ++ x) = x.
Proof.
  assert (Hs : ∀ q, strip_prefix q (q ++ x) = Some (str_drop (String.length q) (q ++ x))).
  { intros q. unfold strip_prefix. by rewrite (proj2 (prefix_app q _)) by (by eexists). }
  unfold externalId. intros [->|[->|[->|?%elem_of_nil]%elem_of_cons]%elem_of_cons]%elem_of_cons; [| | |done].
  - by rewrite Hs.
  - change (strip_prefix "tg:" ("wa:" ++ x)) with (@None string). by rewrite Hs.
  - change (strip_prefix "tg:" ("gmail:" ++ x)) with (@None string).
    change (strip_prefix "wa:" ("gmail:" ++ x)) with (@None string). by rewrite Hs.
Qed.

(** A failure is written to the log. *)
Definition handleInbound (defaultProfileId : uuid) (m : InboundMessage) : handler unit :=
  let chatId := userId m in
  catch (await _ := upsertChat chatId defaultProfileId in
         await _ := storeMessage chatId m in
         enqueueMessage chatId m) (Ret tt).

(** ** Beside the orchestrator *)

Section Runs.
Context (real : spec_float → spec_float) (maxProfiles dflt : nat) (defaultProfileId : uuid).

(** The orchestrator takes messages from the queue and never adds one. *)
Inductive event :=
| Arrive (m : InboundMessage)
| Proceed (i : nat) (t : Z)
| Memory (op : memory_op)
| OnQueue (now : Z) (op : queue_op)
| Reachable (b : bool).

Definition takes_only (op : queue_op) : bool := match op with QEnqueue _ _ => false | _ => true end.

Definition inbound_step (sys : system pg InboundMessage unit) (ev : event) : system pg InboundMessage unit :=
  let s := shared sys in
  let env s' := System s' (threads sys) in
  match ev with
  | Arrive m => launch m (bind (handleInbound defaultProfileId m) (λ _, Ret None)) sys
  | Proceed i t => advance i t sys
  | Memory op => env (put_mem (memory_step real maxProfiles op (mem s)) s)
  | OnQueue now op => if takes_only op then env (put_queue (queue_step dflt (q s) (now, op)) s) else sys
  | Reachable b => env (Pg (mem s) (q s) b)
  end.

Definition inbound_run (s : pg) (evs : list event) : system pg InboundMessage unit :=
  fold_left inbound_step evs (System s []).

(** ** What is queued is stored *)

Record inbound_ok (s : pg) : Prop := {
  io_memory : memory_ok (mem s);
  io_queue : queue_ok (q s);
  io_stored r : r ∈ rows (q s) → stored (mem s) (msg_id (payload r), chat_id r) ∧ message_id r = msg_id (payload r) }.

Definition keeps_stored (s s' : pg) : Prop := ∀ key, stored (mem s) key → stored (mem s') key.

#[export] Instance keeps_stored_refl : Reflexive keeps_stored.
Proof. by intros s key. Qed.

#[export] Instance keeps_stored_trans : Transitive keeps_stored.
Proof. intros s1 s2 s3 H1 H2 key H. by apply H2, H1. Qed.

(** No part of the program deletes a message. *)
Lemma memory_step_stored op db key : stored db key → stored (memory_step real maxProfiles op db) key.
Proof.
  assert (Hsame : ∀ db', working db' = working db → stored db key → stored db' key) by (by unfold stored; intros db' ->).
  intros Hk. destruct op; simpl; try (by apply Hsame).
  - unfold MemoryDb.upsertChat. cbn zeta. by repeat case_bool_decide; apply Hsame.
  - unfold insert_message. repeat case_match; simpl; try done; unfold stored; simpl; rewrite map_app;
      apply elem_of_app; by left.
  - unfold backfillSessionId. case_bool_decide; simpl; [|done].
    unfold stored. simpl. rewrite map_map, (map_ext _ w_key); [done|]. intros m. by case_decide.
  - unfold startSession. cbn zeta. by case_bool_decide; apply Hsame.
  - unfold storeSemanticMemory, insert_semantic. cbn zeta. by case_match; apply Hsame.
  - unfold storeExternalMemory. cbn zeta. by case_match; apply Hsame.
Qed.

(** The other operations on the queue add no row. *)
Lemma update_rows p f l r : keeps_identity f → (∀ r, message_id (f r) = message_id r) →
  r ∈ rows (update_where p f l) → ∃ r0, r0 ∈ rows l ∧ payload r = payload r0 ∧ chat_id r = chat_id r0 ∧
    message_id r = message_id r0.
Proof.
  intros Hf Hm. simpl. intros (r0 & Hr & <-)%elem_of_map. exists r0. split; [done|].
  destruct (p r0); [|done]. by destruct (Hf r0) as (_ & ? & ? & _).
Qed.

Lemma queue_step_rows l o r : takes_only o.2 = true → r ∈ rows (queue_step dflt l o) →
  ∃ r0, r0 ∈ rows l ∧ payload r = payload r0 ∧ chat_id r = chat_id r0 ∧ message_id r = message_id r0.
Proof.
  intros Ht. assert (Hd : ∀ p now, r ∈ rows (dequeue_where p now l).2 →
    ∃ r0, r0 ∈ rows l ∧ payload r = payload r0 ∧ chat_id r = chat_id r0 ∧ message_id r = message_id r0).
  { intros p now. unfold dequeue_where. destruct (oldest _ _); [by apply update_rows|]. intros Hr. by exists r. }
  destruct o as [now op]. destruct op; try done; simpl in Ht |- *; try (by apply Hd); try (by apply update_rows).
  intros [Hr _]%list_elem_of_In%List.filter_In. exists r. split; [by apply list_elem_of_In|done].
Qed.

(** ** A handler among others *)

Definition guarantee (m : InboundMessage) : pg → pg → Prop := keeps_stored.

Abbreviation ok m p Q s := (safe inbound_ok keeps_stored guarantee (λ _ _, True) m p Q (λ _, True) s).

Lemma ok_statement m f (Q : pg → Prop) s :
  (∀ now s1 s2, keeps_stored s s1 → inbound_ok s1 → f now s1 = Some s2 →
     inbound_ok s2 ∧ keeps_stored s1 s2 ∧ Q s2) →
  ok m (statement f) (λ _, Q) s.
Proof.
  intros Hf. apply safe_call; [by intros s1|]. intros t s1 Hr HI. destruct (reachable s1); [|done].
  destruct (f t s1) as [s2|] eqn:E; [|done]. simpl. by apply (Hf t).
Qed.

Lemma put_mem_ok s db : inbound_ok s → memory_ok db → keeps_stored s (put_mem db s) → inbound_ok (put_mem db s).
Proof. intros [Hm Hq Hs] Hdb Hk. split; [done..|]. intros r Hr. destruct (Hs r Hr). split; [by apply Hk|done]. Qed.

Lemma bool_stored db m db' : insert_message db m = Some db' → stored db' (w_key m).
Proof.
  unfold insert_message, stored. case_bool_decide as E; [by intros [= <-]|]. case_match; [|done].
  intros [= <-]. simpl. rewrite map_app. apply elem_of_app. right. by left.
Qed.

Lemma upsert_ok m s : ok m (upsertChat (userId m) defaultProfileId) (λ _ _, True) s.
Proof.
  apply (ok_statement _ _ (λ _, True)). intros now s1 s2 _ Hs1 Hu.
  destruct (MemoryDb.upsertChat _ _ _ _) as [db|] eqn:E; [|done]. injection Hu as <-.
  assert (Hk : keeps_stored s1 (put_mem db s1)).
  { intros key. pose proof (memory_step_stored (UpsertChat now (userId m) defaultProfileId) (mem s1) key) as H.
    simpl in H. by rewrite E in H. }
  split; [|done]. apply put_mem_ok; [done| |done]. by eapply upsertChat_calm; [apply Hs1|].
Qed.

Definition has_stored (m : InboundMessage) (s : pg) : Prop := stored (mem s) (msg_id m, userId m).

Lemma store_ok m s : ok m (storeMessage (userId m) m) (λ _, has_stored m) s.
Proof.
  apply ok_statement. intros now s1 s2 _ Hs1 Hu.
  destruct (insert_message _ _) as [db|] eqn:E; [|done]. injection Hu as <-.
  assert (Hk : keeps_stored s1 (put_mem db s1)).
  { intros key. pose proof (memory_step_stored (InsertMessage (message_row_of (userId m) m)) (mem s1) key) as H.
    simpl in H. by rewrite E in H. }
  split; [|split; [done|by apply bool_stored in E]].
  apply put_mem_ok; [done| |done]. by eapply insert_message_calm; [apply Hs1|].
Qed.

Lemma snoc_queue_ok l r : queue_ok l → MessageQueue.id r = next_id l → MessageQueue.chat_id r = userId (payload r) →
  queue_ok (Queue (rows l ++ [r]) (S (next_id l))).
Proof.
  intros [Hd Hb Hc] Ei Ec. split; simpl.
  - rewrite map_app. apply NoDup_app. split; [done|]. split; [|apply NoDup_singleton].
    intros i (r' & Hr & <-)%elem_of_map Hi%list_elem_of_singleton. rewrite Forall_forall in Hb.
    specialize (Hb r' Hr). lia.
  - apply Forall_app. split; [|constructor; [lia|done]]. eapply Forall_impl; [exact Hb|]. simpl. lia.
  - apply Forall_app. split; [done|]. by constructor.
Qed.

Lemma enqueue_message_ok m s : has_stored m s → ok m (enqueueMessage (userId m) m) (λ _ _, True) s.
Proof.
  intros Hm. apply (ok_statement _ _ (λ _, True)). intros now s1 s2 Hk Hs1. simpl. case_bool_decide; [|done].
  intros [= <-]. split; [|split; [by intros key|done]]. destruct Hs1 as [Hmem Hq Hs]. split; [done|by apply snoc_queue_ok|].
  intros r [Hr| ->%list_elem_of_singleton]%elem_of_app; [by apply Hs|]. split; [by apply Hk|done].
Qed.

Lemma handleInbound_ok m s : ok m (handleInbound defaultProfileId m) (λ _ _, True) s.
Proof.
  apply safe_catch, safe_bind. eapply safe_post; [| |apply upsert_ok]; [|done]. intros ? s1 _.
  apply safe_bind. eapply safe_post; [| |apply store_ok]; [|done]. intros ? s2 Hs2.
  eapply safe_post; [| |by apply enqueue_message_ok]; done.
Qed.

(** ** Runs *)

Definition sys_ok (sys : system pg InboundMessage unit) : Prop :=
  system_ok inbound_ok keeps_stored guarantee (λ _ _, True) sys.

Lemma env_ok s' sys : sys_ok sys → inbound_ok s' →
  keeps_stored (shared sys) s' → sys_ok (System s' (threads sys)).
Proof.
  intros [HI Hth] Hs' Hk. split; [done|]. eapply Forall_impl; [exact Hth|]. intros th.
  by apply (thread_ok_rely _ _ _ _ keeps_stored_trans).
Qed.

Lemma inbound_step_ok sys ev : sys_ok sys →
  sys_ok (inbound_step sys ev).
Proof.
  intros Hsys. pose proof Hsys as [HI _]. destruct ev as [m|i t|op|now op|b]; cbn [inbound_step]; cbv zeta.
  - apply launch_ok; [done|]. apply safe_bind. eapply safe_post; [| |apply handleInbound_ok]; done.
  - apply (advance_ok _ _ _ _ keeps_stored_refl keeps_stored_trans (λ _ _ _ H, H) i t sys Hsys).
  - assert (Hk : keeps_stored (shared sys) (put_mem (memory_step real maxProfiles op (mem (shared sys))) (shared sys)))
      by (intros key; apply memory_step_stored).
    apply env_ok; [done| |done]. apply put_mem_ok; [done| |done]. apply memory_step_calm, HI.
  - destruct (takes_only op) eqn:E; [|done]. apply env_ok; [done| |by intros key].
    destruct HI as [Hmem Hq Hs]. split; [done|by apply queue_step_ok|]. intros r Hr.
    apply (queue_step_rows _ (now, op) _ E) in Hr as (r0 & Hr & -> & -> & ->). by apply Hs.
  - apply env_ok; [done| |by intros key]. by destruct HI.
Qed.

(** C6: whatever arrives, in whatever order the statements of concurrent messages take place,
    whatever the orchestrator does to the tables and to the queue meanwhile, and whenever
    the database cannot be reached: the tables and the queue stay in order, and every
    message in the queue is stored, under its chat, before the orchestrator can take it. *)
Theorem queued_is_stored s evs : inbound_ok s → inbound_ok (shared (inbound_run s evs)).
Proof.
  intros Hs. assert (H : ∀ sys, sys_ok sys →
    sys_ok (fold_left inbound_step evs sys)).
  { induction evs as [|ev evs IH]; intros sys Hsys; [done|]. simpl. by apply IH, inbound_step_ok. }
  apply H. split; [done|constructor].
Qed.
End Runs.

(** ** One message *)

Definition queued_row (n : nat) (m : InboundMessage) (now : Z) : row :=
  Row n (msg_id m) (userId m) m pending 0 DEFAULT_MAX_ATTEMPTS now now None.

Definition chat_known (s : pg) (chat : string) : Prop := chat ∈ map Profiles.chat_id (chats (tabs (mem s))).

(** A message whose chat is known, or for which the default profile that the container
    resolved when it started still exists, ends as one more pending row of the queue,
    and is stored, once; any other message is dropped. *)
Theorem inbound_outcome clock pid m s : reachable s = true →
  let '(s', r, _) := alone clock 0 (handleInbound pid m) s in
  r = Some tt ∧
  ((chat_known s (userId m) ∨ pid ∈ pids (tabs (mem s))) →
     rows (q s') = rows (q s) ++ [queued_row (next_id (q s)) m (clock 2)] ∧
     working (mem s') = if bool_decide (stored (mem s) (msg_id m, userId m)) then working (mem s)
                        else working (mem s) ++ [message_row_of (userId m) m]) ∧
  (¬ chat_known s (userId m) → pid ∉ pids (tabs (mem s)) → s' = s).
Proof.
  intros Hr. cbn [alone handleInbound catch bind upsertChat statement call]. rewrite Hr.
  pose proof (upsert_outcome (mem s) (clock 0) (userId m) pid) as Hu.
  destruct (MemoryDb.upsertChat _ _ _ _) as [db1|]; cbn; [|unfold chat_known; naive_solver].
  destruct Hu as (Hk & Hc & Hw). rewrite Hr, insert_outcome by done. cbn. rewrite Hr.
  assert (Ht : tabs (if bool_decide (stored db1 (w_key (message_row_of (userId m) m))) then db1
    else MemoryDb (tabs db1) (sessions db1) (working db1 ++ [message_row_of (userId m) m]) (state db1)) = tabs db1)
    by (by case_bool_decide).
  rewrite Ht, bool_decide_eq_true_2 by done. cbn. split; [done|]. split; [|unfold chat_known; naive_solver].
  intros _. split; [done|]. rewrite (bool_decide_ext _ (stored (mem s) (msg_id m, userId m)));
    [|unfold stored; by rewrite (sc_working _ _ Hw)].
  destruct (bool_decide (stored (mem s) _)); simpl; by rewrite (sc_working _ _ Hw).
Qed.

(** ** Messages on a new database *)

Definition fresh_tabs : profile_db := Db [Profile 0 "default" None true 1 1] [] [] [] [] [] [] [] [] [] [] 1.
Definition fresh_pg : pg := Pg (MemoryDb fresh_tabs [] [] []) empty_queue true.

Lemma fresh_pg_ok : inbound_ok fresh_pg.
Proof.
  split; [|exact empty_queue_ok|by intros r ?%not_elem_of_nil].
  split; cbn; try (by intros * ?%not_elem_of_nil); try apply NoDup_nil_2.
  - split; try (apply (bool_decide_unpack _); vm_compute; exact I); try (by intros ? ?%not_elem_of_nil);
      try (right; reflexivity); by intros x ->%list_elem_of_singleton; cbn; lia.
  - split; try (by intros * ?%not_elem_of_nil).
Qed.

Definition telegram (id text : string) (t : Z) : InboundMessage :=
  Inbound id "telegram" "tg:1" "Ann" (Some text) None None None t false JNull.

(** Two messages of one chat, a loss of the database, and the orchestrator at work. *)
Definition busy_inbound : list event :=
  [Arrive (telegram "1" "hi" 5); Arrive (telegram "2" "there" 6); Proceed 0 10; Proceed 1 11; Proceed 1 12;
   Proceed 0 13; Proceed 1 14; OnQueue 15 QDequeue; Memory (StartSession 16 "tg:1"); Reachable false; Proceed 0 17;
   Reachable true; Arrive (telegram "3" "again" 18); Proceed 2 19; Proceed 2 20; Proceed 2 21].

Lemma queued_is_stored_witness :
  let final := shared (inbound_run (λ x, x) 5 3 0 fresh_pg busy_inbound) in
  map message_id (rows (q final)) = ["2"; "3"] ∧ map w_id (working (mem final)) = ["2"; "1"; "3"] ∧
  inbound_ok final.
Proof.
  intros final. split; [vm_compute; reflexivity|]. split; [vm_compute; reflexivity|].
  apply (queued_is_stored (λ x, x) 5 3 0 fresh_pg busy_inbound fresh_pg_ok).
Defined.

Lemma inbound_outcome_witness :
  let m := telegram "1" "hi" 5 in
  let out := alone Z.of_nat 0 (handleInbound 0 m) fresh_pg in
  out.1.2 = Some tt ∧ rows (q out.1.1) = [queued_row 1 m 2] ∧ working (mem out.1.1) = [message_row_of "tg:1" m].
Proof.
  intros m out. pose proof (inbound_outcome Z.of_nat 0 m fresh_pg eq_refl) as H. fold m in H. fold out in H.
  destruct out as [[s' r] n]. destruct H as (Hr & Hs & _). split; [exact Hr|]. apply Hs. right. by left.
Defined.

(** A message that an adapter delivers twice is stored once and queued twice. *)
Example redelivered_queued_twice :
  let m := telegram "1" "hi" 5 in
  let final := shared (inbound_run (λ x, x) 5 3 0 fresh_pg
    [Arrive m; Proceed 0 10; Proceed 0 11; Proceed 0 12; Arrive m; Proceed 1 13; Proceed 1 14; Proceed 1 15]) in
  length (working (mem final)) = 1 ∧ map message_id (rows (q final)) = ["1"; "1"].
Proof. vm_compute. by split. Qed.

(** The container keeps the default profile that it found when it started: when another
    profile has become the default and this one is deleted, messages of new chats are
    dropped. *)
Example stale_default_profile :
  let s := shared (inbound_run (λ x, x) 5 3 0 fresh_pg
    [Memory (ProfileOp (Create 5 "work" None)); Memory (ProfileOp (SetDefault 6 1)); Memory (ProfileOp (Delete 0));
     Arrive (telegram "1" "hi" 5); Proceed 0 10; Proceed 0 11; Proceed 0 12]) in
  rows (q s) = [] ∧ working (mem s) = [].
Proof. vm_compute. by split. Qed.
