(* ===== verification/MemoryContext.v ===== *)
(** * The context of an agent

    [buildAgentContext] of [src/orchestrator/memory.ts]: what the tiers hold for a chat, as
    the XML text that an agent is given, read back with the reader of [Identity.v].  The
    retrievals are taken on one state of the tables. *)

From Stdlib Require Import Ascii.
From stdpp Require Import pretty.
From S2P Require Import Prelude JsMap JsString JsNumber Profiles Identity IdentityOps Scoring MemoryDb MemoryInv Consolidation Reflection Memory.
Local Open Scope list_scope.
Local Open Scope string_scope.

(** ** Dates and numbers as text *)

(** [toISOString().replace('T', ' ').slice(0, 16)] *)
Definition iso_minute (ms : Z) : string :=
  let minutes := (ms / 60000 mod 1440)%Z in
  iso_date ms ++ " " ++ pad2 (minutes / 60)%Z ++ ":" ++ pad2 (minutes mod 60)%Z.

(** [x.toFixed(1)] for [0 <= x] *)
Definition toFixed1 (f : spec_float) : string :=
  let n := match f with
           | S754_finite _ m e =>
               if (0 <=? e)%Z then (Z.pos m * 2 ^ e * 10)%Z
               else ((Z.pos m * 20 + 2 ^ (- e)) / (2 * 2 ^ (- e)))%Z
           | _ => 0%Z
           end in
  pretty (n / 10)%Z ++ "." ++ pretty (n mod 10)%Z.

(** [x.toFixed(2)] with its sign. *)
Definition signed_fixed2 (f : spec_float) : string :=
  match f with
  | S754_nan => "NaN"
  | S754_infinity s => if s then "-Infinity" else "Infinity"
  | S754_finite true _ _ => "-" ++ toFixed2 f
  | _ => toFixed2 f
  end.

(** ** The lines *)

(** [identityContext.split('\n').join('\n  ')] *)
Definition reindent (s : string) : string := String.concat (newline ++ "  ") (str_split "010"%char s).

Definition attr (name value : string) : string := " " ++ name ++ "=" ++ dq ++ value ++ dq.

(** [depth > 0 ? ` depth="..."` : ''] *)
Definition depth_attr (d : Z) : string := if (0 <? d)%Z then attr "depth" (pretty d) else "".

Definition context_line (tz : option string) (date : string) : string :=
  "<context" ++ (if opt_truthy tz then attr "timezone" (escapeXml (default "" tz)) else "") ++ attr "date" date ++ ">".

(** The elements of the cascade: strategic, evaluated, observation. *)
Definition meta_line (tag : string) (with_depth : bool) (r : meta_row) : string :=
  "    <" ++ tag ++ attr "type" (reflection_type (m_data r)) ++ attr "confidence" (toFixed2 (confidence (m_data r))) ++
  (if with_depth then attr "depth" (pretty (m_depth (m_data r))) else "") ++ ">" ++ escapeXml (m_content (m_data r)) ++
  "</" ++ tag ++ ">".

Definition flat_meta_line (r : meta_row) : string :=
  let tag := reflection_type (m_data r) in
  "    <" ++ tag ++ attr "confidence" (toFixed2 (confidence (m_data r))) ++ depth_attr (m_depth (m_data r)) ++ ">" ++
  escapeXml (m_content (m_data r)) ++ "</" ++ tag ++ ">".

Definition memory_line (r : semantic_row) (score : spec_float) : string :=
  "    <memory" ++ attr "type" (memory_type (s_data r)) ++ attr "importance" (toFixed1 (importance (s_data r))) ++
  attr "score" (signed_fixed2 score) ++ depth_attr (depth (s_data r)) ++ ">" ++ escapeXml (content (s_data r)) ++ "</memory>".

Definition entry_line (r : external_row) : string :=
  "    <entry" ++ attr "source" (source_type r) ++ ">" ++ escapeXml (e_content r) ++ "</entry>".

Definition message_line (m : message_row) : string :=
  "    <message" ++ attr "sender" (if is_bot_message m then "assistant" else escapeXml (sender_name m)) ++
  attr "time" (iso_minute (timestamp m)) ++ ">" ++ escapeXml (default "[no content]" (w_content m)) ++ "</message>".

(** A section, when it has a line. *)
Definition block (tag : string) (l : list string) : list string :=
  match l with [] => [] | _ => ([("  <" ++ tag ++ ">")%string] ++ l ++ [("  </" ++ tag ++ ">")%string])%list end.

Definition meta_lines (cascade : bool) (metas : list meta_row) : list string :=
  if cascade then
    (map (meta_line "strategic" true) (List.filter (λ r, (2 <=? m_depth (m_data r))%Z) metas) ++
    map (meta_line "evaluated" false) (List.filter (λ r, (m_depth (m_data r) =? 1)%Z) metas) ++
    map (meta_line "observation" false) (List.filter (λ r, (m_depth (m_data r) =? 0)%Z) metas))%list
  else map flat_meta_line metas.

(** What the context is assembled from. *)
Record context_parts := ContextParts {
  p_timezone : option string;
  p_date : string;
  p_cascade : bool;
  p_metas : list meta_row;
  p_semantics : list (semantic_row * spec_float);
  p_externals : list external_row;
  p_messages : list message_row }.

(** The section of the meta memory is opened when there are results, also if the cascade
    shows none of them. *)
Definition meta_block (p : context_parts) : list string :=
  match p_metas p with
  | [] => []
  | _ => (["  <meta_memory>"] ++ meta_lines (p_cascade p) (p_metas p) ++ ["  </meta_memory>"])%list
  end.

Definition assembleContext (p : context_parts) (identityContext : string) : string :=
  String.concat newline
    ([context_line (p_timezone p) (p_date p)] ++
     [("  " ++ reindent identityContext)%string] ++
     meta_block p ++
     block "semantic_memory" (map (λ x, memory_line x.1 x.2) (p_semantics p)) ++
     block "external_memory" (map entry_line (p_externals p)) ++
     block "working_memory" (map message_line (p_messages p)) ++
     ["</context>"])%list.

Section Build.
Context (index : VectorIndex) (exp : spec_float → spec_float) (opts : MemoryManagerOptions).
Context (embed_text : string → option (list spec_float)).
Context (thresholds : IdentityThresholds).

(** The tables of the memories with the users' part. *)
Definition identity_tables (db : memory_db) (users : list UserIdentity) (traits : list UserPersonalityEntry) : identity_db :=
  IdentityDb (tabs db) users traits [].

Definition gather (db : memory_db) (v : list spec_float) (pid : uuid) (chat : string) (tz : option string) (now : Z) :
    context_parts * memory_db :=
  let t := tabs db in
  let cascade := cascade_strategy (metaInjection opts) in
  let '(metas, db1) :=
    if cascade then queryMetaCascade index exp opts db v pid None now
    else (queryMetaMemory index exp opts t v pid None None None None now, db) in
  let semantics := querySemanticMemory index exp opts t v pid None None now in
  let externals := queryExternalMemory index opts t v pid None None in
  let messages := match getActiveSession db chat with
                  | Some s => getSessionMessages opts db (ss_id s) (Some (workingMemoryLimit opts))
                  | None => []
                  end in
  let db2 := access_semantic db1 now semantics in
  let db3 := if cascade then db2 else access_meta db2 now metas in
  (ContextParts tz (iso_date now) cascade (map (λ x, c_row x.1) metas) (map (λ x, (c_row x.1, x.2)) semantics)
     (map fst externals) messages, db3).

Definition buildAgentContext (db : memory_db) (users : list UserIdentity) (traits : list UserPersonalityEntry)
    (chat taskText : string) (tz : option string) (now : Z) : result (string * memory_db) :=
  match getChatProfile (tabs db) chat with
  | None => Err ("No profile found for chat " ++ chat)
  | Some p =>
      match embed_text taskText with
      | None => Err "embedding failed"
      | Some v =>
          let '(parts, db') := gather db v (id p) chat tz now in
          Ok (assembleContext parts (buildIdentityContext (identity_tables db users traits) thresholds (id p)), db')
      end
  end.
End Build.

(** ** What the context holds *)

(** A line break in a stored text is followed by two more blanks. *)
Fixpoint indent (s : string) : string :=
  match s with
  | EmptyString => EmptyString
  | String c s => if decide (c = "010"%char) then newline ++ "  " ++ indent s else String c (indent s)
  end.

Definition indent_line (l : xml_line) : xml_line :=
  match l with
  | XTag i a last => XTag ("  " ++ i) (map (λ x, (x.1, indent x.2)) a) last
  | XElem i a last t c => XElem ("  " ++ i) (map (λ x, (x.1, indent x.2)) a) last (indent t) c
  end.

Definition context_xml_line (tz : option string) (date : string) : xml_line :=
  XTag "" (if opt_truthy tz then [("context timezone=", default "" tz); (" date=", date)] else [("context date=", date)]) "".

Definition depth_attrs (with_depth : bool) (d : Z) : attrs := if with_depth then [(" depth=", pretty d)] else [].

Definition meta_xml (tag : string) (with_depth : bool) (r : meta_row) : xml_line :=
  XElem "    "
    ((tag ++ " type=", reflection_type (m_data r)) :: (" confidence=", toFixed2 (confidence (m_data r))) ::
     depth_attrs with_depth (m_depth (m_data r))) "" (m_content (m_data r)) ("/" ++ tag).

Definition flat_meta_xml (r : meta_row) : xml_line :=
  let tag := reflection_type (m_data r) in
  XElem "    " ((tag ++ " confidence=", toFixed2 (confidence (m_data r))) ::
    depth_attrs (0 <? m_depth (m_data r))%Z (m_depth (m_data r))) "" (m_content (m_data r)) ("/" ++ tag).

Definition memory_xml (r : semantic_row) (score : spec_float) : xml_line :=
  XElem "    " (("memory type=", memory_type (s_data r)) :: (" importance=", toFixed1 (importance (s_data r))) ::
    (" score=", signed_fixed2 score) :: depth_attrs (0 <? depth (s_data r))%Z (depth (s_data r))) ""
    (content (s_data r)) "/memory".

Definition entry_xml (r : external_row) : xml_line :=
  XElem "    " [("entry source=", source_type r)] "" (e_content r) "/entry".

Definition message_xml (m : message_row) : xml_line :=
  XElem "    " [("message sender=", if is_bot_message m then "assistant" else sender_name m);
                (" time=", iso_minute (timestamp m))] "" (default "[no content]" (w_content m)) "/message".

Definition section_xml (tag : string) (l : list xml_line) : list xml_line :=
  ([XTag "  " [] tag] ++ l ++ [XTag "  " [] ("/" ++ tag)%string])%list.

Definition block_xml (tag : string) (l : list xml_line) : list xml_line :=
  match l with [] => [] | _ => section_xml tag l end.

Definition meta_lines_xml (cascade : bool) (metas : list meta_row) : list xml_line :=
  if cascade then
    (map (meta_xml "strategic" true) (List.filter (λ r, (2 <=? m_depth (m_data r))%Z) metas) ++
     map (meta_xml "evaluated" false) (List.filter (λ r, (m_depth (m_data r) =? 1)%Z) metas) ++
     map (meta_xml "observation" false) (List.filter (λ r, (m_depth (m_data r) =? 0)%Z) metas))%list
  else map flat_meta_xml metas.

Definition meta_block_xml (p : context_parts) : list xml_line :=
  match p_metas p with [] => [] | _ => section_xml "meta_memory" (meta_lines_xml (p_cascade p) (p_metas p)) end.

(** The whole context, around the elements of the identity. *)
Definition agent_context_xml (p : context_parts) (identity : list xml_line) : list xml_line :=
  ([context_xml_line (p_timezone p) (p_date p)] ++ map indent_line identity ++ meta_block_xml p ++
   block_xml "semantic_memory" (map (λ x, memory_xml x.1 x.2) (p_semantics p)) ++
   block_xml "external_memory" (map entry_xml (p_externals p)) ++
   block_xml "working_memory" (map message_xml (p_messages p)) ++
   [XTag "" [] "/context"])%list.

(** ** Literal values *)

Lemma literal_spec s : literal s ↔ ∀ c, c ∈ ["&"; "<"; ">"; "034"]%char → lacks c s.
Proof.
  unfold literal, lacks. rewrite Forall_forall. split; intros Hs c; [intros Hc Hin; by apply (Hs c)|].
  intros Hin Hc. by apply (Hs c).
Qed.

Lemma pretty_literal (z : Z) : literal (pretty z).
Proof.
  apply literal_spec. intros c Hc. apply pretty_lacks. revert c Hc. apply Forall_forall.
  repeat (apply Forall_cons; split; [vm_compute; reflexivity|]). apply Forall_nil_2.
Qed.

Create HintDb literal_db.
#[export] Hint Resolve pretty_literal toFixed2_literal : literal_db.

Ltac literal_parts :=
  repeat (rewrite literal_app; split); auto with literal_db; by apply (bool_decide_unpack _).

Lemma toFixed1_literal f : literal (toFixed1 f).
Proof. unfold toFixed1. cbn zeta. literal_parts. Qed.

Lemma signed_fixed2_literal f : literal (signed_fixed2 f).
Proof. destruct f as [|[]| |[] m e]; cbn [signed_fixed2]; literal_parts. Qed.

Lemma iso_date_literal ms : literal (iso_date ms).
Proof. unfold iso_date. destruct (civil _) as [[y m] d]. unfold pad4, pad2. literal_parts. Qed.
#[export] Hint Resolve toFixed1_literal signed_fixed2_literal iso_date_literal : literal_db.

Lemma iso_minute_literal ms : literal (iso_minute ms).
Proof. unfold iso_minute, pad2. cbn zeta. literal_parts. Qed.
#[export] Hint Resolve iso_minute_literal : literal_db.

(** ** Indentation *)

Lemma indent_app s1 s2 : indent (s1 ++ s2) = indent s1 ++ indent s2.
Proof.
  induction s1 as [|c s1 IH]; [done|]. rewrite string_app_cons. cbn [indent]. rewrite IH.
  case_decide; [|by rewrite string_app_cons]. by rewrite !string_app_assoc.
Qed.

Lemma indent_one_line s : lacks "010" s → indent s = s.
Proof. induction s as [|c s IH]; [done|]. intros [Hc Hs]%lacks_cons. cbn [indent]. rewrite decide_False, IH by done. done. Qed.

Lemma escape_one_line c : c ≠ "010"%char → lacks "010" (escape_char c).
Proof.
  intros Hc. unfold escape_char. repeat (case_decide; [by apply (bool_decide_unpack _)|]).
  apply lacks_cons. split; [done|apply lacks_nil].
Qed.

Lemma indent_escape s : indent (escapeXml s) = escapeXml (indent s).
Proof.
  rewrite !escapeXml_escape. induction s as [|c s IH]; [done|]. cbn [escape indent]. rewrite indent_app, IH.
  case_decide as Hc; [by subst|]. cbn [escape]. by rewrite indent_one_line by (by apply escape_one_line).
Qed.

Lemma str_split_indent s : ∀ acc, String.concat (newline ++ "  ") (str_split_aux "010" s acc) = acc ++ indent s.
Proof.
  induction s as [|c s IH]; intros acc; [symmetry; apply string_app_nil_r|]. cbn [str_split_aux indent].
  case_decide as Hc.
  - specialize (IH ""). destruct (str_split_aux "010" s "") as [|x l] eqn:E.
    + exfalso. revert E. clear. generalize "". induction s as [|d s IH]; intros acc; [done|]. cbn [str_split_aux].
      case_decide; [done|apply IH].
    + change (String.concat (newline ++ "  ") (acc :: x :: l))
        with (acc ++ (newline ++ "  ") ++ String.concat (newline ++ "  ") (x :: l)). rewrite IH.
      by rewrite !string_app_assoc.
  - rewrite IH. by rewrite string_app_assoc.
Qed.

Lemma reindent_indent s : reindent s = indent s.
Proof. apply str_split_indent. Qed.

(** A line of which only the stored texts may contain a line break. *)
Definition one_line (l : xml_line) : Prop :=
  match l with
  | XTag i a last => lacks "010" i ∧ Forall (λ x, lacks "010" x.1) a ∧ lacks "010" last
  | XElem i a last _ c => lacks "010" i ∧ Forall (λ x, lacks "010" x.1) a ∧ lacks "010" last ∧ lacks "010" c
  end.

#[export] Instance one_line_dec l : Decision (one_line l).
Proof. unfold one_line, lacks. destruct l; apply _. Defined.

Lemma indent_attrs a last : Forall (λ x, lacks "010" x.1) a → lacks "010" last →
  indent (print_attrs a last) = print_attrs (map (λ x, (x.1, indent x.2)) a) last.
Proof.
  intros Ha Hl. induction Ha as [|x a Hx _ IH]; cbn [map print_attrs foldr fst snd]; [by apply indent_one_line|].
  fold (print_attrs a last). fold (print_attrs (map (λ x, (x.1, indent x.2)) a) last).
  rewrite indent_app, (indent_one_line x.1) by done. cbn [indent]. rewrite decide_False by done.
  rewrite indent_app, indent_escape. cbn [indent]. rewrite decide_False by done. by rewrite IH.
Qed.

Lemma indent_print l : one_line l → "  " ++ indent (print_line l) = print_line (indent_line l).
Proof.
  destruct l as [i a last|i a last t c]; cbn [one_line print_line indent_line]; intros Hl; destruct_and?.
  - rewrite indent_app, (indent_one_line i) by done. cbn [indent]. rewrite decide_False by done.
    rewrite indent_app, indent_attrs by done. by rewrite string_app_assoc.
  - rewrite indent_app, (indent_one_line i) by done. cbn [indent]. rewrite decide_False by done.
    rewrite indent_app, indent_attrs by done. cbn [indent]. rewrite decide_False by done.
    rewrite indent_app, indent_escape. cbn [indent]. rewrite decide_False by done.
    rewrite indent_app, (indent_one_line c) by done. by rewrite string_app_assoc.
Qed.

Lemma concat_cons x y l : String.concat newline (x :: y :: l) = x ++ newline ++ String.concat newline (y :: l).
Proof. done. Qed.

Lemma indent_lines l : l ≠ [] → Forall one_line l →
  "  " ++ reindent (String.concat newline (map print_line l)) = String.concat newline (map print_line (map indent_line l)).
Proof.
  rewrite reindent_indent. induction l as [|x l IH]; intros Hl Hf; [done|]. apply Forall_cons in Hf as [Hx Hf].
  destruct l as [|y l]; [by apply indent_print|].
  change (map print_line (x :: y :: l)) with (print_line x :: print_line y :: map print_line l).
  change (map print_line (map indent_line (x :: y :: l))) with
    (print_line (indent_line x) :: print_line (indent_line y) :: map print_line (map indent_line l)).
  rewrite !concat_cons, !indent_app, <- indent_print by done.
  change (print_line (indent_line y) :: map print_line (map indent_line l)) with (map print_line (map indent_line (y :: l))).
  rewrite <- IH by done. change (indent newline) with (newline ++ "  "). by rewrite !string_app_assoc.
Qed.

Lemma concat_more x l : l ≠ [] → String.concat newline (x :: l) = x ++ newline ++ String.concat newline l.
Proof. by destruct l. Qed.

(** A part that has several lines, among the others. *)
Lemma concat_lines l1 l2 l3 : l2 ≠ [] →
  String.concat newline (l1 ++ [String.concat newline l2] ++ l3)%list = String.concat newline (l1 ++ l2 ++ l3)%list.
Proof.
  intros H2. induction l1 as [|x l1 IH]; cbn [app].
  - destruct l3 as [|z l3]; [by rewrite app_nil_r|]. rewrite concat_cons.
    induction l2 as [|y l2 IH]; [done|]. destruct l2 as [|y' l2]; [done|].
    cbn [app]. rewrite concat_cons, (concat_cons y), !string_app_assoc. f_equal. f_equal. by apply IH.
  - rewrite !concat_more; [|by destruct l1, l2..]. f_equal. f_equal. exact IH.
Qed.

(** ** The lines are those elements *)

(** The types that the checks of the tables admit. *)
Definition SOURCE_TYPES : list string := ["document"; "user_provided"].

Record types_ok (p : context_parts) : Prop := {
  ty_meta r : r ∈ p_metas p → reflection_type (m_data r) ∈ REFLECTION_TYPES;
  ty_semantic x : x ∈ p_semantics p → memory_type (s_data x.1) ∈ MEMORY_TYPES;
  ty_external r : r ∈ p_externals p → source_type r ∈ SOURCE_TYPES;
  ty_date : literal (p_date p) }.

Lemma types_literal l s : Forall literal l → s ∈ l → literal s.
Proof. rewrite Forall_forall. auto. Qed.

Lemma reflection_literal s : s ∈ REFLECTION_TYPES → literal s.
Proof. apply types_literal. by apply (bool_decide_unpack _). Qed.

Lemma memory_literal s : s ∈ MEMORY_TYPES → literal s.
Proof. apply types_literal. by apply (bool_decide_unpack _). Qed.

Lemma source_literal s : s ∈ SOURCE_TYPES → literal s.
Proof. apply types_literal. by apply (bool_decide_unpack _). Qed.

(** An attribute that the template writes without escaping. *)
Lemma attr_print name v : literal v →
  attr name v = " " ++ name ++ "=" ++ String "034" (escapeXml v ++ String "034" "").
Proof. intros Hv. unfold attr, dq. by rewrite escapeXml_literal. Qed.

Ltac print_line_tac := cbn [print_line print_attrs foldr fst snd app]; unfold dq; append_right; reflexivity.

Lemma context_line_print tz date : literal date → context_line tz date = print_line (context_xml_line tz date).
Proof.
  intros Hd. unfold context_line, context_xml_line. rewrite (attr_print "date" date Hd).
  destruct (opt_truthy tz); [unfold attr|]; print_line_tac.
Qed.

Lemma meta_line_print tag wd r : literal (reflection_type (m_data r)) → meta_line tag wd r = print_line (meta_xml tag wd r).
Proof.
  intros Ht. unfold meta_line, meta_xml, depth_attrs. rewrite (attr_print "type" _ Ht), !attr_print by auto with literal_db.
  destruct wd; print_line_tac.
Qed.

Lemma flat_meta_line_print r : literal (reflection_type (m_data r)) → flat_meta_line r = print_line (flat_meta_xml r).
Proof.
  intros Ht. unfold flat_meta_line, flat_meta_xml, depth_attr, depth_attrs. cbn zeta. rewrite !attr_print by auto with literal_db.
  destruct (0 <? _)%Z; print_line_tac.
Qed.

Lemma memory_line_print r score : literal (memory_type (s_data r)) → memory_line r score = print_line (memory_xml r score).
Proof.
  intros Ht. unfold memory_line, memory_xml, depth_attr, depth_attrs.
  rewrite (attr_print "type" _ Ht), !attr_print by auto with literal_db. destruct (0 <? _)%Z; print_line_tac.
Qed.

Lemma entry_line_print r : literal (source_type r) → entry_line r = print_line (entry_xml r).
Proof. intros Ht. unfold entry_line, entry_xml. rewrite (attr_print "source" _ Ht). print_line_tac. Qed.

Lemma message_line_print m : message_line m = print_line (message_xml m).
Proof.
  unfold message_line, message_xml. rewrite (attr_print "time") by auto with literal_db.
  destruct (is_bot_message m); unfold attr; print_line_tac.
Qed.

Lemma map_lines {A} (f : A → string) (g : A → xml_line) l : (∀ x, x ∈ l → f x = print_line (g x)) →
  map f l = map print_line (map g l).
Proof. intros H. rewrite map_map. apply map_ext_in. intros x Hx. by apply H, list_elem_of_In. Qed.

Lemma block_print tag l l' : l = map print_line l' → block tag l = map print_line (block_xml tag l').
Proof.
  intros ->. destruct l' as [|x l']; [done|]. unfold block, block_xml, section_xml. rewrite !map_app. cbn [map].
  cbn [print_line print_attrs foldr]. by append_right.
Qed.

Lemma meta_lines_print cascade metas : (∀ r, r ∈ metas → literal (reflection_type (m_data r))) →
  meta_lines cascade metas = map print_line (meta_lines_xml cascade metas).
Proof.
  intros Hm. unfold meta_lines, meta_lines_xml. destruct cascade.
  - rewrite !map_app. f_equal; [|f_equal]; apply map_lines; intros r [Hr _]%elem_of_List_filter; by apply meta_line_print, Hm.
  - apply map_lines. intros r Hr. by apply flat_meta_line_print, Hm.
Qed.

Lemma meta_block_print p : types_ok p → meta_block p = map print_line (meta_block_xml p).
Proof.
  intros Hp. unfold meta_block, meta_block_xml. destruct (p_metas p) eqn:E; [done|]. rewrite <- E.
  unfold section_xml. rewrite !map_app. rewrite meta_lines_print; [done|].
  intros r Hr. by apply reflection_literal, (ty_meta _ Hp).
Qed.

Lemma assembleContext_print p identity : types_ok p → identity ≠ [] → Forall one_line identity →
  assembleContext p (String.concat newline (map print_line identity)) =
  String.concat newline (map print_line (agent_context_xml p identity)).
Proof.
  intros Hp Hne Hi. unfold assembleContext. rewrite indent_lines by done.
  assert (Hne' : map print_line (map indent_line identity) ≠ []) by (by destruct identity).
  pose proof (concat_lines [context_line (p_timezone p) (p_date p)] _
    (meta_block p ++ block "semantic_memory" (map (λ x, memory_line x.1 x.2) (p_semantics p)) ++
     block "external_memory" (map entry_line (p_externals p)) ++
     block "working_memory" (map message_line (p_messages p)) ++ ["</context>"])%list Hne') as H.
  rewrite H. clear H. f_equal. unfold agent_context_xml. rewrite !map_app.
  rewrite (context_line_print _ _ (ty_date _ Hp)), (meta_block_print p Hp).
  rewrite (block_print "semantic_memory" _ (map (λ x, memory_xml x.1 x.2) (p_semantics p))),
    (block_print "external_memory" _ (map entry_xml (p_externals p))),
    (block_print "working_memory" _ (map message_xml (p_messages p))); [done|..].
  - apply map_lines. intros m _. apply message_line_print.
  - apply map_lines. intros r Hr. by apply entry_line_print, source_literal, (ty_external _ Hp).
  - apply map_lines. intros x Hx. by apply memory_line_print, memory_literal, (ty_semantic _ Hp).
Qed.

(** ** They are well formed *)

Lemma section_ok tag l : literal tag → Forall line_ok l → Forall line_ok (section_xml tag l).
Proof.
  intros Ht Hl. assert (Htag : ∀ t, literal t → line_ok (XTag "  " [] t)).
  { intros t Hlt. split; [by apply (bool_decide_unpack _)|]. by split; [constructor|]. }
  unfold section_xml. apply Forall_app. split; [by apply Forall_singleton, Htag|]. apply Forall_app. split; [done|].
  apply Forall_singleton, Htag, literal_app. split; [by apply (bool_decide_unpack _)|done].
Qed.

Lemma block_ok tag l : literal tag → Forall line_ok l → Forall line_ok (block_xml tag l).
Proof. intros Ht Hl. destruct l; [constructor|]. by apply section_ok. Qed.

Lemma indent_line_ok l : line_ok l → line_ok (indent_line l).
Proof.
  assert (Ha : ∀ a last, attrs_ok a last → attrs_ok (map (λ x, (x.1, indent x.2)) a) last).
  { intros a last [Ha Hl]. split; [|done]. by apply Forall_map. }
  assert (Hi : ∀ i, literal i → literal ("  " ++ i)).
  { intros i Hi. apply literal_app. split; [by apply (bool_decide_unpack _)|done]. }
  destruct l as [i a last|i a last t c]; cbn [line_ok indent_line]; intros Hl; destruct_and?; split_and?; auto.
Qed.

Lemma meta_xml_ok tag wd r : literal tag → line_ok (meta_xml tag wd r).
Proof.
  intros Ht. split; [by apply (bool_decide_unpack _)|]. split; [split|].
  - constructor; [|destruct wd; by apply (bool_decide_unpack _)]. cbn [fst]. apply literal_app.
    split; [done|by apply (bool_decide_unpack _)].
  - by apply (bool_decide_unpack _).
  - apply literal_app. split; [by apply (bool_decide_unpack _)|done].
Qed.

Lemma flat_meta_xml_ok r : literal (reflection_type (m_data r)) → line_ok (flat_meta_xml r).
Proof.
  intros Ht. split; [by apply (bool_decide_unpack _)|]. split; [split|].
  - constructor; [|unfold depth_attrs; destruct (0 <? _)%Z; by apply (bool_decide_unpack _)]. cbn [fst].
    apply literal_app. split; [done|by apply (bool_decide_unpack _)].
  - by apply (bool_decide_unpack _).
  - apply literal_app. split; [by apply (bool_decide_unpack _)|done].
Qed.

Lemma meta_block_ok p : types_ok p → Forall line_ok (meta_block_xml p).
Proof.
  intros Hp. unfold meta_block_xml. destruct (p_metas p) eqn:E; [constructor|]. rewrite <- E.
  apply section_ok; [by apply (bool_decide_unpack _)|]. unfold meta_lines_xml. destruct (p_cascade p).
  - repeat (apply Forall_app; split); apply Forall_map, Forall_forall; intros r _;
      (apply meta_xml_ok; by apply (bool_decide_unpack _)).
  - apply Forall_map, Forall_forall. intros r Hr. by apply flat_meta_xml_ok, reflection_literal, (ty_meta _ Hp).
Qed.

Lemma agent_context_ok p identity : types_ok p → Forall line_ok identity → Forall line_ok (agent_context_xml p identity).
Proof.
  intros Hp Hi. unfold agent_context_xml. repeat (apply Forall_app; split).
  - apply Forall_singleton. unfold context_xml_line. destruct (opt_truthy _); by apply (bool_decide_unpack _).
  - apply Forall_map. eapply Forall_impl; [exact Hi|]. apply indent_line_ok.
  - by apply meta_block_ok.
  - apply block_ok; [by apply (bool_decide_unpack _)|]. apply Forall_map, Forall_true. intros x.
    unfold memory_xml, depth_attrs. cbn. destruct (0 <? _)%Z; by apply (bool_decide_unpack _).
  - apply block_ok; [by apply (bool_decide_unpack _)|]. apply Forall_map, Forall_true. intros x. by apply (bool_decide_unpack _).
  - apply block_ok; [by apply (bool_decide_unpack _)|]. apply Forall_map, Forall_true. intros x. by apply (bool_decide_unpack _).
  - apply Forall_singleton. by apply (bool_decide_unpack _).
Qed.

(** The elements of the identity keep to their lines. *)
Lemma personality_one_line tag dims : lacks "010" tag → Forall one_line dims → Forall one_line (personality_xml tag dims).
Proof.
  intros Ht Hd. unfold personality_xml. destruct dims; [constructor|].
  assert (Htag : ∀ t, lacks "010" t → one_line (XTag "  " [] t)).
  { intros t Hl. split; [by apply (bool_decide_unpack _)|]. by split; [constructor|]. }
  apply Forall_app. split; [by apply Forall_singleton, Htag|]. apply Forall_app. split; [done|].
  apply Forall_singleton, Htag, lacks_app. split; [by apply (bool_decide_unpack _)|done].
Qed.

Lemma context_one_line db th pid : Forall one_line (context_xml db th pid).
Proof.
  assert (Hdims : ∀ {A} (dim content : A → string) (conf : A → spec_float) l,
    Forall one_line (map (λ p, dim_xml (dim p) (content p) (conf p)) l)).
  { intros A dim content conf l. apply Forall_map, Forall_true. intros p. by apply (bool_decide_unpack _). }
  unfold context_xml. repeat (apply Forall_app; split).
  - by repeat constructor; apply (bool_decide_unpack _).
  - destruct (getAgentIdentity db pid) as [a|]; [|constructor]. unfold agent_xml, elem_if.
    repeat (apply Forall_app; split); [..|destruct (str_truthy _)|destruct (opt_truthy _)|];
      repeat (apply Forall_cons; split); try apply Forall_nil_2; by apply (bool_decide_unpack _).
  - apply personality_one_line; [by apply (bool_decide_unpack _)|apply Hdims].
  - destruct (getUserIdentity db); [|constructor]. apply Forall_singleton. unfold user_xml, user_attrs. cbn [List.filter snd].
    destruct (opt_truthy (u_name _)), (opt_truthy (u_role _)), (opt_truthy (organization _)),
      (opt_truthy (timezone _)), (opt_truthy (Some (default "en" (language _)))); by apply (bool_decide_unpack _).
  - apply personality_one_line; [by apply (bool_decide_unpack _)|apply Hdims].
  - by repeat constructor; apply (bool_decide_unpack _).
Qed.

(** ** The context is read back *)

(** The checks of the tables on the columns that the context shows unescaped. *)
Record checked_types (t : profile_db) : Prop := {
  ck_semantic r : r ∈ semantic t → memory_type (s_data r) ∈ MEMORY_TYPES;
  ck_meta r : r ∈ meta t → reflection_type (m_data r) ∈ REFLECTION_TYPES;
  ck_external r : r ∈ external t → source_type r ∈ SOURCE_TYPES }.

(** *** What belongs into it *)

(** The composite score of the source's documentation: similarity, recency and weight. *)
Definition composite (exp : spec_float → spec_float) (w : ScoringWeights) (now : Z) (sim : spec_float) (accessed : Z)
    (importance : spec_float) : spec_float :=
  let days := js_max (double 0) (SFdiv 53 1024 (double (now - accessed)) (double 86400000)) in
  plus (plus (times (alpha w) sim) (times (beta w) (exp (times (SFopp (lambda w)) days)))) (times (gamma w) importance).

(** As many of [cands] as the limit admits, best first; none that is left out is better. *)
Definition best_of {A} (score : A → spec_float) (limit : nat) (cands out : list A) : Prop :=
  length out = (limit `min` length cands)%nat ∧
  ∃ left_out, cands ≡ₚ out ++ left_out ∧
    (Forall (λ r, is_nan (score r) = false) cands →
       StronglySorted (λ r r', SFleb (score r') (score r) = true) out ∧
       ∀ r r', r ∈ out → r' ∈ left_out → SFleb (score r') (score r) = true).

(** The newest messages, as many as the limit admits, in the order of their times. *)
Definition last_messages (limit : nat) (all out : list message_row) : Prop :=
  Sorted (λ m m', timestamp m ≤ timestamp m')%Z out ∧ length out = (limit `min` length all)%nat ∧
  ∃ older, all ≡ₚ out ++ older ∧ ∀ m m', m ∈ out → m' ∈ older → (timestamp m' ≤ timestamp m)%Z.

Section Parts.
Context (index : VectorIndex) (exp : spec_float → spec_float) (opts : MemoryManagerOptions).

Definition meta_score (v : list spec_float) (now : Z) (r : meta_row) : spec_float :=
  composite exp (scoringWeights opts) now (minus (double 1) (cosine_distance index v (m_embedding (m_data r))))
    (m_accessed r) (confidence (m_data r)).

Definition semantic_score (v : list spec_float) (now : Z) (r : semantic_row) : spec_float :=
  composite exp (scoringWeights opts) now (minus (double 1) (cosine_distance index v (embedding (s_data r))))
    (s_accessed r) (importance (s_data r)).

(** One tier of the cascade: of the first confident reflections of the profile at these
    depths that the scan finds, those similar enough, the best ones. *)
Definition tier (db : memory_db) (pid : uuid) (v : list spec_float) (now : Z) (lo hi : option Z) (slots : nat)
    (enough : spec_float) (out : list meta_row) : Prop :=
  best_of (meta_score v now) slots
    (List.filter (λ r, SFleb enough (minus (double 1) (cosine_distance index v (m_embedding (m_data r)))))
       (take (slots * candidateMultiplier opts)
          (filter (λ r, m_profile r = pid ∧ SFleb (hundredths 20) (confidence (m_data r)) = true ∧
                        (default 0 lo ≤ m_depth (m_data r) ≤ default (m_depth (m_data r)) hi)%Z)
             (scanned index (λ r, m_embedding (m_data r)) v (meta (tabs db)))))) out.

Record parts_of (db : memory_db) (chat : string) (pid : uuid) (v : list spec_float) (tz : option string) (now : Z)
    (p : context_parts) : Prop := {
  po_head : p_timezone p = tz ∧ p_date p = iso_date now ∧ p_cascade p = cascade_strategy (metaInjection opts);
  po_metas : if cascade_strategy (metaInjection opts)
    then ∃ strategic evaluated observations, p_metas p = (strategic ++ evaluated ++ observations)%list ∧
      tier db pid v now (Some 2%Z) None (d2Slots (metaInjection opts)) (d2MinSimilarity (metaInjection opts)) strategic ∧
      tier db pid v now (Some 1%Z) (Some 1%Z) (d1Slots (metaInjection opts)) (d1MinSimilarity (metaInjection opts)) evaluated ∧
      tier db pid v now (Some 0%Z) (Some 0%Z) (d0Slots (metaInjection opts)) (d0MinSimilarity (metaInjection opts)) observations
    else best_of (meta_score v now) (metaMemoryLimit opts)
      (take (metaMemoryLimit opts * candidateMultiplier opts)
        (filter (λ r, m_profile r = pid ∧ SFleb (hundredths 20) (confidence (m_data r)) = true ∧
                      (0 ≤ m_depth (m_data r) ≤ 999)%Z)
          (scanned index (λ r, m_embedding (m_data r)) v (meta (tabs db))))) (p_metas p);
  po_semantics : best_of (semantic_score v now) (semanticMemoryLimit opts)
    (take (semanticMemoryLimit opts * candidateMultiplier opts)
      (filter (λ r, s_profile r = pid) (scanned index (λ r, embedding (s_data r)) v (semantic (tabs db)))))
    (map fst (p_semantics p));
  po_score x : x ∈ p_semantics p → x.2 = semantic_score v now x.1;
  po_externals : p_externals p =
    List.filter (λ r, SFleb (externalSimilarityThreshold opts) (minus (double 1) (cosine_distance index v (e_embedding r))))
      (take (externalMemoryLimit opts) (filter (λ r, e_profile r = pid) (scanned index e_embedding v (external (tabs db)))));
  po_messages :
    (p_messages p = [] ∧ ∀ s, ¬ open_session db chat s) ∨
    ∃ s, open_session db chat s ∧ (∀ s', open_session db chat s' → (startedAt s' ≤ startedAt s)%Z) ∧
      last_messages (workingMemoryLimit opts) (filter (λ m, w_session m = Some (ss_id s)) (working db)) (p_messages p) }.

Lemma ranked_best {A} (f : A → candidate A) (rows : list A) limit now : (∀ r, c_row (f r) = r) →
  let out := ranked exp opts (map f rows) limit now in
  let score r := score_of exp (scoringWeights opts) now (f r) in
  best_of score limit rows (map (λ x, c_row x.1) out) ∧ ∀ x, x ∈ out → x.2 = score (c_row x.1).
Proof.
  intros Hf. cbv zeta. unfold ranked, rankByCompositeScore. rewrite map_map.
  set (g := λ r, (f r, score_of exp (scoringWeights opts) now (f r))). set (S := sort_ranked (map g rows)).
  assert (HS : S ≡ₚ map g rows) by apply sort_ranked_perm.
  assert (Hx : ∀ x, x ∈ S → x = g (c_row x.1)).
  { intros x. rewrite HS. intros (r & Hr & <-)%elem_of_map. unfold g. cbn. by rewrite Hf. }
  assert (Hrows : map (λ x, c_row x.1) S ≡ₚ rows).
  { rewrite HS, map_map. unfold g. cbn. rewrite (map_ext _ (λ r, r)) by apply Hf. by rewrite map_id. }
  split; [split|].
  - rewrite length_map, length_take. f_equal. by rewrite HS, length_map.
  - exists (map (λ x, c_row x.1) (drop limit S)). split; [by rewrite <- map_app, take_drop, Hrows|]. intros Hn.
    assert (Hs : StronglySorted above (take limit S ++ drop limit S)).
    { rewrite take_drop. apply sort_ranked_sorted. apply Forall_map. exact Hn. }
    split.
    + clear -Hs Hx. assert (Hx' : ∀ x, x ∈ take limit S → x = g (c_row x.1)).
      { intros x Hin. apply Hx. by eapply subseteq_take. }
      clear Hx. induction (take limit S) as [|x l IH]; [constructor|]. simpl in *.
      apply StronglySorted_inv in Hs as [Hs Hall]. constructor; [apply IH; [done|]; intros y ?; apply Hx'; by right|].
      apply Forall_app in Hall as [Hall _]. apply Forall_map. rewrite Forall_forall in Hall |- *. intros y Hy.
      pose proof (Hall y Hy) as H. unfold above in H. rewrite (Hx' x) in H by left. rewrite (Hx' y) in H by (by right). exact H.
    + intros r r' (x & Hxr & <-)%elem_of_map (y & Hyr & <-)%elem_of_map.
      pose proof (StronglySorted_app_above _ _ _ x y Hs Hxr Hyr) as H. unfold above in H.
      rewrite (Hx x) in H by (by eapply subseteq_take). rewrite (Hx y) in H by (by eapply subseteq_drop). exact H.
  - intros x Hin%subseteq_take. by rewrite (Hx x Hin) at 1.
Qed.

Lemma below_max_depth t pid r : r ∈ meta t → m_profile r = pid → confident r → (m_depth (m_data r) ≤ max_depth t pid)%Z.
Proof.
  intros Hr Hp Hc. unfold max_depth.
  assert (Hin : m_depth (m_data r) ∈ map (λ r, m_depth (m_data r)) (filter (λ r, m_profile r = pid ∧ confident r) (meta t))).
  { apply elem_of_map. exists r. split; [by apply list_elem_of_filter|done]. }
  destruct (map _ _) as [|d l]; [by apply not_elem_of_nil in Hin|].
  assert (H : ∀ l d, (d ≤ fold_left Z.max l d)%Z ∧ ∀ x, x ∈ l → (x ≤ fold_left Z.max l d)%Z).
  { clear. induction l as [|y l IH]; intros d; simpl; [split; [lia|by intros ? ?%not_elem_of_nil]|].
    destruct (IH (Z.max d y)) as [H1 H2]. split; [lia|]. intros x [->|Hx]%elem_of_cons; [lia|by apply H2]. }
  destruct (H l d) as [H1 H2]. apply elem_of_cons in Hin as [->|Hin]; [done|by apply H2].
Qed.
Lemma filter_agree {A} (P Q : A → Prop) `{!∀ x, Decision (P x), !∀ x, Decision (Q x)} (l : list A) :
  (∀ x, x ∈ l → P x ↔ Q x) → filter P l = filter Q l.
Proof.
  induction l as [|x l IH]; intros Hl; [done|]. rewrite !filter_cons, IH by (intros; apply Hl; by right).
  pose proof (Hl x ltac:(left)). destruct (decide (P x)), (decide (Q x)); tauto.
Qed.

(** A tier is what the query of its depths returns; no bound above is the deepest entry. *)
Lemma fetch_tier db pid v now (lo hi : Z) hi' slots enough :
  (∀ r, r ∈ meta (tabs db) → m_profile r = pid → confident r → (lo ≤ m_depth (m_data r))%Z →
     (m_depth (m_data r) ≤ hi ↔ m_depth (m_data r) ≤ default (m_depth (m_data r)) hi')%Z) →
  tier db pid v now (Some lo) hi' slots enough
    (map (λ x, c_row x.1) (if (0 <? slots)%nat
       then fetchMetaAtDepthRange index exp opts (tabs db) v pid lo hi slots enough now else [])).
Proof.
  intros Hhi. unfold tier. change (default 0%Z (Some lo)) with lo. destruct (Nat.ltb_spec 0 slots) as [H|H].
  - unfold fetchMetaAtDepthRange, nearest. erewrite filter_agree; [apply (ranked_best (meta_candidate index v)); done|].
    intros r (i & _ & Hi%list_elem_of_lookup_2)%list_elem_of_omap. pose proof (Hhi r Hi). unfold confident in *. naive_solver.
  - assert (slots = 0%nat) as -> by lia. split; [done|]. exists []. split; [reflexivity|].
    intros _. split; [constructor|]. by intros r r' ?%not_elem_of_nil.
Qed.

(** The deepest tier; without an entry that deep, there is no query. *)
Lemma deep_tier db pid v now slots enough : let maxDepth := max_depth (tabs db) pid in
  tier db pid v now (Some 2%Z) None slots enough
    (map (λ x, c_row x.1) (if (2 <=? maxDepth)%Z && (0 <? slots)%nat
       then fetchMetaAtDepthRange index exp opts (tabs db) v pid 2 maxDepth slots enough now else [])).
Proof.
  cbv zeta. destruct (Z.leb_spec 2 (max_depth (tabs db) pid)) as [Hd|Hd]; cbn [andb].
  - apply fetch_tier. intros r Hr Hp Hc _. cbn [default]. pose proof (below_max_depth _ _ _ Hr Hp Hc). lia.
  - unfold tier. set (P := λ r : meta_row, _ ∧ _).
    assert (E : filter P (scanned index (λ r, m_embedding (m_data r)) v (meta (tabs db))) = []).
    { apply elem_of_nil_inv. intros r [(Hp & Hc & H2) (i & _ & Hi%list_elem_of_lookup_2)%list_elem_of_omap]%list_elem_of_filter.
      pose proof (below_max_depth _ _ _ Hi Hp Hc). cbn in H2. lia. }
    rewrite E, take_nil. split; [simpl; lia|]. exists []. split; [done|]. intros _. split; [constructor|].
    by intros r r' ?%not_elem_of_nil.
Qed.

Lemma session_window db chat : let out := match getActiveSession db chat with
    | Some s => getSessionMessages opts db (ss_id s) (Some (workingMemoryLimit opts)) | None => [] end in
  (out = [] ∧ ∀ s, ¬ open_session db chat s) ∨
  ∃ s, open_session db chat s ∧ (∀ s', open_session db chat s' → (startedAt s' ≤ startedAt s)%Z) ∧
    last_messages (workingMemoryLimit opts) (filter (λ m, w_session m = Some (ss_id s)) (working db)) out.
Proof.
  cbv zeta. pose proof (active_session_latest db chat) as Ha.
  destruct (getActiveSession db chat) as [s|]; [right|by left]. destruct Ha as [Ho Hl]. exists s.
  split; [done|]. split; [done|]. apply newest_window.
Qed.

Lemma gather_parts db v pid chat tz now :
  parts_of db chat pid v tz now (gather index exp opts db v pid chat tz now).1.
Proof.
  unfold gather. pose proof (session_window db chat) as Hm. cbv zeta in Hm.
  assert (Hsem : best_of (semantic_score v now) (semanticMemoryLimit opts)
    (take (semanticMemoryLimit opts * candidateMultiplier opts)
      (filter (λ r, s_profile r = pid) (scanned index (λ r, embedding (s_data r)) v (semantic (tabs db)))))
    (map (λ x, c_row x.1) (querySemanticMemory index exp opts (tabs db) v pid None None now)) ∧
    ∀ x, x ∈ querySemanticMemory index exp opts (tabs db) v pid None None now → x.2 = semantic_score v now (c_row x.1)).
  { unfold querySemanticMemory, nearest. cbn [default no_type].
    rewrite (list_filter_iff (λ r, s_profile r = pid ∧ True) (λ r, s_profile r = pid)) by tauto.
    by apply (ranked_best (semantic_candidate index v)). }
  destruct Hsem as [Hsem Hsc].
  assert (Hext : map fst (queryExternalMemory index opts (tabs db) v pid None None) =
    List.filter (λ r, SFleb (externalSimilarityThreshold opts) (minus (double 1) (cosine_distance index v (e_embedding r))))
      (take (externalMemoryLimit opts) (filter (λ r, e_profile r = pid) (scanned index e_embedding v (external (tabs db)))))).
  { unfold queryExternalMemory, nearest. cbn [default no_type].
    rewrite (list_filter_iff (λ r, e_profile r = pid ∧ True) (λ r, e_profile r = pid)) by tauto.
    set (l := take _ _). clear. induction l as [|r l IH]; [done|]. cbn [map List.filter snd]. unfold similarity in *.
    destruct (SFleb _ _); cbn [map fst]; by rewrite IH. }
  destruct (cascade_strategy (metaInjection opts)) eqn:Ec; cbn [queryMetaCascade fst]; split;
    cbn [p_timezone p_date p_cascade p_metas p_semantics p_externals p_messages]; rewrite ?Ec; try done;
    try (by rewrite map_map); try (by intros ? (x & Hx & <-)%elem_of_map; apply Hsc).
  - unfold meta_cascade. cbn [default]. rewrite !map_app. eexists _, _, _. split; [reflexivity|]. split; [|split].
    + apply deep_tier.
    + apply fetch_tier. intros. cbn. lia.
    + apply fetch_tier. intros. cbn. lia.
  - unfold queryMetaMemory, nearest. cbn [default no_type].
    erewrite list_filter_iff; [apply (ranked_best (meta_candidate index v)); done|]. intros r. unfold confident. tauto.
Qed.
End Parts.

(** Every row of the parts is of the tables. *)
Lemma best_of_subset {A} (score : A → spec_float) limit cands out r : best_of score limit cands out → r ∈ out → r ∈ cands.
Proof. intros (_ & k & E & _) Hr. rewrite E. apply elem_of_app. by left. Qed.

Lemma elem_of_scanned {A} index (vec : A → list spec_float) v rows r : r ∈ scanned index vec v rows → r ∈ rows.
Proof. by intros (i & _ & Hi%list_elem_of_lookup_2)%list_elem_of_omap. Qed.

Lemma parts_rows index exp opts db chat pid v tz now p : parts_of index exp opts db chat pid v tz now p →
  (∀ r, r ∈ p_metas p → r ∈ meta (tabs db)) ∧ (∀ x, x ∈ p_semantics p → x.1 ∈ semantic (tabs db)) ∧
  ∀ r, r ∈ p_externals p → r ∈ external (tabs db).
Proof.
  intros [_ Hm Hs _ He _]. split; [|split].
  - intros r Hr. destruct (cascade_strategy _).
    + destruct Hm as (o2 & o1 & o0 & E & H2 & H1 & H0). rewrite E in Hr.
      apply elem_of_app in Hr as [Hr|[Hr|Hr]%elem_of_app]; (eapply best_of_subset in Hr; [|eassumption]);
        apply elem_of_List_filter in Hr as [Hr _]; apply subseteq_take, list_elem_of_filter in Hr as [_ Hr];
        by eapply elem_of_scanned.
    + eapply best_of_subset in Hr; [|eassumption]. apply subseteq_take, list_elem_of_filter in Hr as [_ Hr].
      by eapply elem_of_scanned.
  - intros x Hx. assert (Hr : x.1 ∈ map fst (p_semantics p)) by (apply elem_of_map; by exists x).
    eapply best_of_subset in Hr; [|eassumption]. apply subseteq_take, list_elem_of_filter in Hr as [_ Hr].
    by eapply elem_of_scanned.
  - intros r Hr. rewrite He in Hr. apply elem_of_List_filter in Hr as [Hr _].
    apply subseteq_take, list_elem_of_filter in Hr as [_ Hr]. by eapply elem_of_scanned.
Qed.

Section Readback.
Context (index : VectorIndex) (exp : spec_float → spec_float) (opts : MemoryManagerOptions).
Context (embed_text : string → option (list spec_float)) (thresholds : IdentityThresholds).

Lemma gather_types db v pid chat tz now : checked_types (tabs db) →
  types_ok (gather index exp opts db v pid chat tz now).1.
Proof.
  intros Hc. destruct (parts_rows _ _ _ _ _ _ _ _ _ _ (gather_parts index exp opts db v pid chat tz now)) as (H1 & H2 & H3). split.
  - intros r Hr%H1. by apply (ck_meta _ Hc).
  - intros x Hx%H2. by apply (ck_semantic _ Hc).
  - intros r Hr%H3. by apply (ck_external _ Hc).
  - unfold gather. destruct (cascade_strategy _); apply iso_date_literal.
Qed.

(** C14: for a chat whose profile is known, when the task can be embedded, the context that
    an agent is given reads back as the elements of the template around exactly the stored
    texts, the identity's with two blanks after each of their line breaks. It holds the
    identity; the reflections that the strategy asks for, of every tier the best that the
    scan of the index finds for the profile; the best semantic memories and the external
    entries that are similar enough, of the profile alone; and the newest messages of the
    chat's latest open session. No stored text opens or closes an element. The call fails
    exactly when the chat has no profile or the task cannot be embedded. *)
Theorem agent_context_readback db users traits chat taskText tz now :
  identity_ok (identity_tables db users traits) → checked_types (tabs db) →
  match buildAgentContext index exp opts embed_text thresholds db users traits chat taskText tz now with
  | Ok (ctx, db') =>
      ∃ p v parts, profile_of_chat (tabs db) chat = Some p ∧ embed_text taskText = Some v ∧
        parts_of index exp opts db chat (id p) v tz now parts ∧
        read_xml ctx = document (agent_context_xml parts (context_xml (identity_tables db users traits) thresholds (id p)))
  | Err _ => profile_of_chat (tabs db) chat = None ∨ embed_text taskText = None
  end.
Proof.
  intros Hid Hc. unfold buildAgentContext. rewrite getChatProfile_row.
  destruct (profile_of_chat (tabs db) chat) as [p|]; [|by left].
  destruct (embed_text taskText) as [v|]; [|by right]. pose proof (gather_types db v (id p) chat tz now Hc) as Ht.
  pose proof (gather_parts index exp opts db v (id p) chat tz now) as Hp. destruct (gather _ _ _ _ _ _ _ _ _) as [parts db1].
  cbn [fst] in Ht, Hp. exists p, v, parts. split; [done|]. split; [done|]. split; [done|].
  rewrite buildIdentityContext_print by done. set (identity := context_xml _ _ _).
  pose proof (context_xml_ok (identity_tables db users traits) thresholds (id p)) as Hi.
  rewrite assembleContext_print; [|done|done|apply context_one_line].
  pose proof (agent_context_ok parts identity Ht Hi) as Hok. unfold agent_context_xml in *. by apply read_document.
Qed.
End Readback.

(** ** Witness *)

Definition context_example : memory_db :=
  MemoryDb (tables example_identity) [Session 9 "c1" 3 None]
    [Message "m1" "c1" "ann" (Some "hello </message> <agent>") 1000 false false (Some 9%nat)] [].

Definition example_index : VectorIndex := Indexing (λ _ _, double 0) (λ _ l, seq 0 (length l)).

Definition example_manager : MemoryManagerOptions :=
  ManagerOptions 20 20 5 10 (hundredths 50) example_weights 3 DEFAULT_META_INJECTION.

Definition build_example : result (string * memory_db) :=
  buildAgentContext example_index (λ _, double 1) example_manager (λ _, Some []) (Thresholds (hundredths 50) (hundredths 20))
    context_example (user_identity example_identity) (user_personality example_identity) "c1" "task" (Some "UTC") 0.

Lemma agent_context_readback_witness : ∃ ctx db' p v parts,
  build_example = Ok (ctx, db') ∧ profile_of_chat (tabs context_example) "c1" = Some p ∧
  parts_of example_index (λ _, double 1) example_manager context_example "c1" (id p) v (Some "UTC") 0 parts ∧
  read_xml ctx = document (agent_context_xml parts (context_xml
    (identity_tables context_example (user_identity example_identity) (user_personality example_identity))
    (Thresholds (hundredths 50) (hundredths 20)) (id p))).
Proof.
  assert (Hid : identity_ok (identity_tables context_example (user_identity example_identity) (user_personality example_identity)))
    by (destruct example_identity_ok; split; assumption).
  assert (Hc : checked_types (tabs context_example)).
  { split; apply Forall_forall; repeat (apply Forall_cons; split; [by apply (bool_decide_unpack _)|]); apply Forall_nil_2. }
  pose proof (agent_context_readback example_index (λ _, double 1) example_manager (λ _, Some [])
    (Thresholds (hundredths 50) (hundredths 20)) context_example (user_identity example_identity)
    (user_personality example_identity) "c1" "task" (Some "UTC") 0 Hid Hc) as H.
  fold build_example in H. destruct build_example as [[ctx db']|] eqn:E; [|vm_compute in E; discriminate E].
  destruct H as (p & v & parts & Hp & _ & Hparts & Hr).
  exists ctx, db', p, v, parts. split; [reflexivity|]. split; [exact Hp|]. split; [exact Hparts|exact Hr].
Defined.

(** The context of the example, as text. *)
Example build_example_text : ∃ ctx db', build_example = Ok (ctx, db') ∧
  includes "<message sender=" ctx = true ∧ includes "hello &lt;/message&gt; &lt;agent&gt;</message>" ctx = true.
Proof.
  destruct build_example as [[ctx db']|] eqn:E; [|vm_compute in E; discriminate E]. exists ctx, db'.
  split; [reflexivity|]. assert (H : match build_example with
    | Ok (c, _) => includes "<message sender=" c && includes "hello &lt;/message&gt; &lt;agent&gt;</message>" c
    | Err _ => false end = true) by (vm_compute; reflexivity).
  rewrite E in H. by apply andb_true_iff in H.
Qed.
