(* ===== verification/Skills.v ===== *)
(** * The skill store

    [src/skills/store.ts] with the schemas of skills in [src/config/schema.ts]: the
    parser of the front matter of SKILL.md, the manifest of installed skills, and the
    installation and removal of skill directories.  The manifest's file is kept apart
    from the other files of the host, as what reading it gives.  The key [__proto__]
    of an object, which sets its prototype, is treated as any other.  The source of an
    installation is a directory as [readdir] lists it, apart from the store; a method is
    one atomic operation. *)

From Stdlib Require Import Ascii.
From stdpp Require Import gmap.
From S2P Require Import Prelude JsMap JsString HostFs AgentSessions.
Local Open Scope fh_scope.
Local Open Scope string_scope.
Local Open Scope list_scope.

(** ** Values *)

(** A number keeps its text. *)
Inductive yaml_value :=
| YStr (s : string)
| YNum (text : string)
| YBool (b : bool)
| YArr (items : list string).

Inductive yaml_entry :=
| Scalar (v : yaml_value)
| Nested (fields : jsmap yaml_value).

Definition is_digit (c : ascii) : bool := let n := nat_of_ascii c in ((48 <=? n) && (n <=? 57))%nat.

Definition alpha (c : ascii) : bool :=
  let n := nat_of_ascii c in ((65 <=? n) && (n <=? 90) || (97 <=? n) && (n <=? 122))%nat.

(** [[\w-]], and [\w] without the hyphen. *)
Definition word (c : ascii) : bool := is_digit c || alpha c || bool_decide (c = "_"%char).
Definition key_char (c : ascii) : bool := word c || bool_decide (c = "-"%char).

(** The longest prefix of characters that satisfy [f], and the rest. *)
Fixpoint span (f : ascii → bool) (s : string) : string * string :=
  match s with
  | EmptyString => ("", "")
  | String c s' => if f c then let '(a, b) := span f s' in (String c a, b) else ("", s)
  end.

(** ** Numbers *)

Definition head_in (l : list ascii) (s : string) : bool :=
  match s with String c _ => bool_decide (c ∈ l) | EmptyString => false end.

(** Optional exponent, to the end. *)
Definition exponent_end (s : string) : bool :=
  if bool_decide (s = "") then true
  else if head_in ["e"; "E"]%char s then
    let s := str_drop 1 s in
    let s := if head_in ["+"; "-"]%char s then str_drop 1 s else s in
    let '(ds, rest) := span is_digit s in str_truthy ds && bool_decide (rest = "")
  else false.

Definition decimal (s : string) : bool :=
  let s := if head_in ["+"; "-"]%char s then str_drop 1 s else s in
  if bool_decide (s = "Infinity") then true
  else
    let '(whole, rest) := span is_digit s in
    if head_in ["."%char] rest then
      let '(frac, rest) := span is_digit (str_drop 1 rest) in
      (str_truthy whole || str_truthy frac) && exponent_end rest
    else str_truthy whole && exponent_end rest.

Definition radix_digits (f : ascii → bool) (s : string) : bool :=
  let '(ds, rest) := span f (str_drop 2 s) in str_truthy ds && bool_decide (rest = "").

Definition hex (c : ascii) : bool :=
  is_digit c || bool_decide (lower_ascii c ∈ ["a"; "b"; "c"; "d"; "e"; "f"]%char).

(** [Number(s)] is not NaN, for a trimmed text that is not empty. *)
Definition numeric (s : string) : bool :=
  let prefix := to_lower (String.substring 0 2 s) in
  if bool_decide (prefix = "0x") then radix_digits hex s
  else if bool_decide (prefix = "0o") then
    radix_digits (λ c, is_digit c && negb (bool_decide (c ∈ ["8"; "9"]%char))) s
  else if bool_decide (prefix = "0b") then radix_digits (λ c, bool_decide (c ∈ ["0"; "1"]%char)) s
  else decimal s.

(** ** Front matter *)

Definition carriage_return : ascii := "013".
Definition line_feed : ascii := "010".

Definition quote (c : ascii) : bool := bool_decide (c = "'"%char) || bool_decide (c = "034"%char).

(** A quote at either end of an item is removed. *)
Definition strip_quotes (s : string) : string :=
  let s := match s with String c r => if quote c then r else s | EmptyString => s end in
  match String.rev s with String c r => if quote c then String.rev r else s | EmptyString => s end.

(** [s.slice(1, -1)] *)
Definition slice_inner (s : string) : string := String.substring 1 (String.length s - 2) s.

Definition wrapped (opening closing : string) (s : string) : bool :=
  starts_with opening s && ends_with closing s.

Definition parseYamlValue (raw : string) : yaml_value :=
  let trimmed := trim raw in
  if wrapped "[" "]" trimmed && (2 <=? String.length trimmed)%nat &&
     bool_decide (lacks carriage_return trimmed) && bool_decide (lacks line_feed trimmed) then
    let inner := trim (slice_inner trimmed) in
    if bool_decide (inner = "") then YArr []
    else YArr (map (λ item, strip_quotes (trim item)) (str_split "," inner))
  else if wrapped (String "034" "") (String "034" "") trimmed || wrapped "'" "'" trimmed then
    YStr (slice_inner trimmed)
  else if bool_decide (trimmed = "true") then YBool true
  else if bool_decide (trimmed = "false") then YBool false
  else if str_truthy trimmed && numeric trimmed then YNum trimmed
  else YStr trimmed.

(** A word, a colon with white space around it, and the rest up to the end of [s],
    which may not hold a line terminator. *)
Definition key_value (s : string) : option (string * string) :=
  let '(key, rest) := span key_char s in
  match key with
  | String c _ =>
      if word c then
        match trim_start rest with
        | String d rest =>
            let value := trim_start rest in
            if bool_decide (d = ":"%char) && bool_decide (lacks carriage_return value)
            then Some (key, value) else None
        | EmptyString => None
        end
      else None
  | EmptyString => None
  end.

(** The objects of the loop: the data, and the key of the nested object that indented
    lines add to. *)
Definition front_line (st : jsmap yaml_entry * option string) (line : string) :
    jsmap yaml_entry * option string :=
  let '(data, current) := st in
  let trimmed := trim_end line in
  if bool_decide (trimmed = "") || starts_with "#" trimmed then st
  else
    let indented := if starts_with "  " trimmed then key_value (str_drop 2 trimmed) else None in
    match indented, current with
    | Some (key, value), Some k =>
        match map_get data k with
        | Some (Nested fields) => (map_set data k (Nested (map_set fields key (parseYamlValue value))), current)
        | _ => st
        end
    | _, _ =>
        match key_value trimmed with
        | Some (key, value) =>
            if bool_decide (trim value = "") then (map_set data key (Nested []), Some key)
            else (map_set data key (Scalar (parseYamlValue (trim value))), None)
        | None => st
        end
    end.

(** What comes before the first line that starts with three hyphens, and what comes
    after these. *)
Fixpoint yaml_block (s : string) : option (string * string) :=
  if starts_with (String carriage_return (String line_feed "---")) s then Some ("", str_drop 5 s)
  else if starts_with (String line_feed "---") s then Some ("", str_drop 4 s)
  else
    match s with
    | EmptyString => None
    | String c s => '(b, rest) ← yaml_block s; Some (String c b, rest)
    end.

Definition drop_if (c : ascii) (s : string) : string := if head_in [c] s then str_drop 1 s else s.

(** The block and the body of a file with front matter. *)
Definition front_matter (content : string) : option (string * string) :=
  if starts_with "---" content then
    let rest := drop_if carriage_return (str_drop 3 content) in
    if head_in [line_feed] rest then
      '(block, body) ← yaml_block (str_drop 1 rest);
      Some (block, drop_if line_feed (drop_if carriage_return body))
    else None
  else None.

Definition parseFrontmatter (content : string) : jsmap yaml_entry * string :=
  match front_matter content with
  | None => ([], content)
  | Some (block, body) => ((foldl front_line ([], None) (str_split line_feed block)).1, body)
  end.

(** ** Schemas *)

Record SkillRequires := Requires {
  channels : list string;
  bins : list string;
  env : list string;
  req_skills : list string;
  os : list string }.

Record SkillFrontmatter := Frontmatter {
  fm_name : string;
  fm_description : string;
  fm_version : string;
  fm_requires : SkillRequires }.

Definition lower_alpha (c : ascii) : bool := let n := nat_of_ascii c in ((97 <=? n) && (n <=? 122))%nat.

(** [/^[a-z][a-z0-9-]*$/], of 1 to 64 characters. *)
Definition skill_name (s : string) : bool :=
  match s with
  | String c r =>
      lower_alpha c &&
      forallb (λ d, lower_alpha d || is_digit d || bool_decide (d = "-"%char)) (String.list_ascii_of_string r) &&
      (String.length s <=? 64)%nat
  | EmptyString => false
  end.

(** [/^\d+\.\d+\.\d+$/] *)
Definition semver (s : string) : bool :=
  match str_split "." s with
  | [a; b; c] => forallb (λ x, str_truthy x && forallb is_digit (String.list_ascii_of_string x)) [a; b; c]
  | _ => false
  end.

Definition string_field (data : jsmap yaml_entry) (k : string) (ok : string → bool) : option string :=
  match map_get data k with
  | Some (Scalar (YStr s)) => if ok s then Some s else None
  | _ => None
  end.

(** [z.array(z.string()).default([])] *)
Definition array_field (fields : jsmap yaml_value) (k : string) : option (list string) :=
  match map_get fields k with
  | None => Some []
  | Some (YArr l) => Some l
  | Some _ => None
  end.

Definition requires_fields (fields : jsmap yaml_value) : option SkillRequires :=
  c ← array_field fields "channels"; b ← array_field fields "bins"; e ← array_field fields "env";
  s ← array_field fields "skills"; o ← array_field fields "os";
  if forallb (λ x, bool_decide (x ∈ ["linux"; "macos"])) o then Some (Requires c b e s o) else None.

Definition parse_requires (data : jsmap yaml_entry) : option SkillRequires :=
  match map_get data "requires" with
  | None => requires_fields []
  | Some (Nested fields) => requires_fields fields
  | Some (Scalar _) => None
  end.

(** [skillFrontmatterSchema.parse] *)
Definition validate (data : jsmap yaml_entry) : option SkillFrontmatter :=
  n ← string_field data "name" skill_name;
  d ← string_field data "description" (λ s, (1 <=? String.length s) && (String.length s <=? 256))%nat;
  v ← string_field data "version" semver;
  r ← parse_requires data;
  Some (Frontmatter n d v r).

(** ** The store *)

Inductive SkillSource := registry | local | git.

Record InstalledSkillEntry := Entry {
  en_name : string;
  en_version : string;
  en_source : SkillSource;
  installedAt : string;
  en_requires : SkillRequires }.

(** What reading installed.json gives. *)
Inductive manifest_file :=
| Missing
| Invalid
| Valid (l : list InstalledSkillEntry).

Record skill_store := Store { host : hostfs; manifest : manifest_file }.

Record RequirementsWarning := Warning { w_field : string; missing : list string }.

Section SkillStore.
Context (skillsDir : path).

Definition init (st : skill_store) : result skill_store :=
  let* fs := mkdir_p (host st) skillsDir in
  Ok (Store fs (match manifest st with Missing => Valid [] | m => m end)).

Definition readManifest (st : skill_store) : list InstalledSkillEntry :=
  match manifest st with Valid l => l | _ => [] end.

Definition get (st : skill_store) (name : string) : option InstalledSkillEntry :=
  List.find (λ e, bool_decide (en_name e = name)) (readManifest st).

Definition isInstalled (st : skill_store) (name : string) : bool :=
  match get st name with Some _ => true | None => false end.

(** [source] is the directory, [None] where it cannot be read. *)
Definition readSkillMd (source : option (list dirent)) : result SkillFrontmatter :=
  match source ≫= List.find (λ e, match e with FileEnt n _ => bool_decide (n = "SKILL.md") | _ => false end) with
  | Some (FileEnt _ (Some content)) =>
      match validate (parseFrontmatter content).1 with
      | Some fm => Ok fm
      | None => Err "ZodError"
      end
  | _ => Err "ENOENT"
  end.

Definition checkSkillDependencies (st : skill_store) (fm : SkillFrontmatter) : list RequirementsWarning :=
  let required := req_skills (fm_requires fm) in
  let absent := List.filter (λ s, negb (bool_decide (s ∈ map en_name (readManifest st)))) required in
  match absent with [] => [] | _ => [Warning "skills" absent] end.

Definition soft_warning (field : string) (required available : list string) : list RequirementsWarning :=
  match List.filter (λ x, negb (bool_decide (x ∈ available))) required with
  | [] => []
  | absent => [Warning field absent]
  end.

Definition checkSoftRequirements (darwin : bool) (fm : SkillFrontmatter)
    (ctx_channels ctx_bins ctx_env : option (list string)) : list RequirementsWarning :=
  let r := fm_requires fm in
  let platform := if darwin then "macos" else "linux" in
  soft_warning "channels" (channels r) (default [] ctx_channels) ++
  soft_warning "bins" (bins r) (default [] ctx_bins) ++
  soft_warning "env" (env r) (default [] ctx_env) ++
  match os r with
  | [] => []
  | l => if bool_decide (platform ∈ l) then [] else [Warning "os" [platform]]
  end.

(** One entry of [copyDir]; what is copied before a failure stays. *)
Fixpoint copy_entry (dest : path) (e : dirent) (fs : hostfs) : hostfs * result unit :=
  match e with
  | FileEnt n None => (fs, Err "EACCES")
  | FileEnt n (Some c) =>
      match writeFile fs (dest ++ [n]) c with Ok fs => (fs, Ok tt) | Err e => (fs, Err e) end
  | DirEnt n entries =>
      match mkdir_p fs (dest ++ [n]), entries with
      | Err e, _ => (fs, Err e)
      | Ok fs, None => (fs, Err "EACCES")
      | Ok fs, Some es =>
          (fix go (es : list dirent) (fs : hostfs) : hostfs * result unit :=
             match es with
             | [] => (fs, Ok tt)
             | e :: es =>
                 match copy_entry (dest ++ [n]) e fs with
                 | (fs, Ok _) => go es fs
                 | (fs, Err e) => (fs, Err e)
                 end
             end) es fs
      end
  end.

Fixpoint copy_entries (dest : path) (es : list dirent) (fs : hostfs) : hostfs * result unit :=
  match es with
  | [] => (fs, Ok tt)
  | e :: es =>
      match copy_entry dest e fs with
      | (fs, Ok _) => copy_entries dest es fs
      | (fs, Err e) => (fs, Err e)
      end
  end.

Definition copyDir (source : option (list dirent)) (dest : path) (fs : hostfs) : hostfs * result unit :=
  match mkdir_p fs dest with
  | Err e => (fs, Err e)
  | Ok fs => match source with None => (fs, Err "ENOENT") | Some es => copy_entries dest es fs end
  end.

(** [manifest[existingIdx] = entry], or [push]. *)
Fixpoint put_entry (l : list InstalledSkillEntry) (entry : InstalledSkillEntry) : list InstalledSkillEntry :=
  match l with
  | [] => [entry]
  | e :: l => if decide (en_name e = en_name entry) then entry :: l else e :: put_entry l entry
  end.

Definition install (st : skill_store) (now : string) (source : option (list dirent)) (from : SkillSource) :
    skill_store * result InstalledSkillEntry :=
  match readSkillMd source with
  | Err e => (st, Err e)
  | Ok fm =>
      match checkSkillDependencies st fm with
      | [] =>
          match copyDir source (path_join skillsDir (fm_name fm)) (host st) with
          | (fs, Err e) => (Store fs (manifest st), Err e)
          | (fs, Ok _) =>
              let entry := Entry (fm_name fm) (fm_version fm) from now (fm_requires fm) in
              (Store fs (Valid (put_entry (readManifest st) entry)), Ok entry)
          end
      | ws =>
          (st, Err ("Missing required skills: " ++
                    String.concat "; " (map (λ w, String.concat ", " (missing w)) ws) ++
                    ". Install them first."))
      end
  end.

(** [rm(dir, { recursive: true, force: true })] *)
Definition rm_rf (fs : hostfs) (p : path) : hostfs :=
  Fs (filter (λ e, ¬ p `prefix_of` e.1) (files fs)) (filter (λ q, ¬ p `prefix_of` q) (dirs fs)).

(** [manifest.splice(idx, 1)] for the first entry of the name. *)
Fixpoint splice_entry (l : list InstalledSkillEntry) (name : string) : list InstalledSkillEntry :=
  match l with
  | [] => []
  | e :: l => if decide (en_name e = name) then l else e :: splice_entry l name
  end.

Definition dependents (l : list InstalledSkillEntry) (name : string) : list string :=
  map en_name (List.filter (λ e, negb (bool_decide (en_name e = name)) &&
                                 bool_decide (name ∈ req_skills (en_requires e))) l).

Definition remove (st : skill_store) (name : string) : skill_store * result unit :=
  let l := readManifest st in
  if negb (isInstalled st name) then (st, Err ("Skill " ++ String "034" name ++ String "034" " is not installed"))
  else
    match dependents l name with
    | [] => (Store (rm_rf (host st) (path_join skillsDir name)) (Valid (splice_entry l name)), Ok tt)
    | names =>
        (st, Err ("Cannot remove " ++ String "034" name ++ String "034" ": required by " ++
                  String.concat ", " names ++ ". Uninstall them first."))
    end.

Definition getInstalledSkillDirs (st : skill_store) : list (string * path) :=
  map (λ e, (en_name e, path_join skillsDir (en_name e))) (readManifest st).
End SkillStore.
