(* ===== verification/SkillOps.v ===== *)
(** * Installing and removing skills

    What installations and removals of [Skills.v] leave in the skill directory and in
    the manifest, one after the other: each is a whole call of the store. *)

From Stdlib Require Import Ascii.
From stdpp Require Import gmap.
From S2P Require Import Prelude JsMap JsString HostFs AgentSessions Skills.
Local Open Scope fh_scope.
Local Open Scope string_scope.
Local Open Scope list_scope.

(** ** Copying a directory *)

(** The readable files of a directory tree. *)
Inductive has_file : list dirent → path → string → Prop :=
| here es n c : FileEnt n (Some c) ∈ es → has_file es [n] c
| below es n es' p c : DirEnt n (Some es') ∈ es → has_file es' p c → has_file es (n :: p) c.

(** Files change only to those of [es] below [dest], and directories stay. *)
Definition copied (dest : path) (es : list dirent) (fs fs' : hostfs) : Prop :=
  (∀ p, files fs' !! p = files fs !! p ∨
        ∃ r c, p = dest ++ r ∧ has_file es r c ∧ files fs' !! p = Some c) ∧
  dirs fs ⊆ dirs fs'.

Definition complete (dest : path) (es : list dirent) (fs' : hostfs) : Prop :=
  ∀ p c, has_file es p c → files fs' !! (dest ++ p) = Some c.

Lemma has_file_mono es es' p c : (∀ e, e ∈ es → e ∈ es') → has_file es p c → has_file es' p c.
Proof. intros H Hp. inversion Hp; subst; [apply here|eapply below]; eauto. Qed.

Lemma has_file_cons e es p c : has_file (e :: es) p c → has_file [e] p c ∨ has_file es p c.
Proof.
  inversion 1 as [? n ? Hn|? n es' p' ? Hn Hi]; subst; apply elem_of_cons in Hn as [<-|Hn].
  - left. apply here. left.
  - right. by apply here.
  - left. eapply below; [left|done].
  - right. by eapply below.
Qed.

Lemma has_file_head es p c : has_file es p c → ∃ n p', p = n :: p' ∧ n ∈ map ent_name es.
Proof.
  inversion 1 as [? n ? Hn|? n es' p' ? Hn Hi]; subst; eexists _, _; (split; [done|]);
    apply elem_of_map; by eexists; split.
Qed.

Lemma has_file_dir n es p c : has_file [DirEnt n (Some es)] p c → ∃ p', p = n :: p' ∧ has_file es p' c.
Proof.
  inversion 1 as [? ? ? Hn|? ? ? ? ? Hn]; subst; apply list_elem_of_singleton in Hn; naive_solver.
Qed.

Lemma copied_refl dest es fs : copied dest es fs fs.
Proof. split; [by left|done]. Qed.

Lemma copied_trans dest e es fs fs1 fs2 :
  copied dest [e] fs fs1 → copied dest es fs1 fs2 → copied dest (e :: es) fs fs2.
Proof.
  intros [H1 D1] [H2 D2]. split; [|set_solver]. intros p.
  destruct (H2 p) as [->|(r & c & -> & Hf & ->)].
  - destruct (H1 p) as [->|(r & c & -> & Hf & ->)]; [by left|]. right. exists r, c.
    split_and!; [done| |done]. eapply has_file_mono, Hf. intros ? ->%list_elem_of_singleton. left.
  - right. exists r, c. split_and!; [done| |done]. eapply has_file_mono, Hf. by right.
Qed.

Lemma copied_dir dest n es fs fs' :
  copied (dest ++ [n]) es fs fs' → copied dest [DirEnt n (Some es)] fs fs'.
Proof.
  intros [H D]. split; [|done]. intros p. destruct (H p) as [->|(r & c & -> & Hf & E)]; [by left|].
  right. exists (n :: r), c. rewrite <- app_assoc in *. split_and!; [done| |done].
  eapply below; [left|done].
Qed.

Lemma mkdir_p_files fs p fs' : mkdir_p fs p = Ok fs' → files fs' = files fs ∧ dirs fs ⊆ dirs fs'.
Proof. unfold mkdir_p. case_match; intros [= <-]. simpl. set_solver. Qed.

Lemma copied_mkdir dest es fs p fs1 fs' :
  mkdir_p fs p = Ok fs1 → copied dest es fs1 fs' → copied dest es fs fs'.
Proof. intros [E D]%mkdir_p_files [H D']. rewrite E in H. split; [done|set_solver]. Qed.

Lemma writeFile_files fs p c fs' : writeFile fs p c = Ok fs' →
  files fs' = <[p := c]> (files fs) ∧ dirs fs' = dirs fs.
Proof. unfold writeFile. repeat case_match; by intros [= <-]. Qed.

(** The entry's own names aside, later entries leave it as it is. *)
Lemma complete_cons dest e es fs1 fs' : NoDup (map ent_name (e :: es)) →
  complete dest [e] fs1 → copied dest es fs1 fs' → complete dest es fs' → complete dest (e :: es) fs'.
Proof.
  intros [Hn _]%NoDup_cons Hc [Hf _] Hes p c [He|?]%has_file_cons; [|by apply Hes].
  rewrite <- (Hc p c He). destruct (Hf (dest ++ p)) as [?|(r & c' & E%app_inv_head & Hr & _)]; [done|].
  subst r. apply has_file_head in He as (n & p' & -> & ->%list_elem_of_singleton).
  by apply has_file_head in Hr as (? & ? & [= <- <-] & ?).
Qed.

Definition copies (copy : hostfs → hostfs * result unit) (dest : path) (es : list dirent) : Prop :=
  ∀ fs fs' r, copy fs = (fs', r) → copied dest es fs fs' ∧ (tree_ok es → is_ok r = true → complete dest es fs').

Lemma tree_ok_tail e es : tree_ok (e :: es) → tree_ok [e] ∧ tree_ok es.
Proof.
  inversion_clear 1 as [? Hn Hf Hs]. apply NoDup_cons in Hn as [_ Hn]. apply Forall_cons in Hf as [Hf Hfs].
  split; constructor; [apply NoDup_singleton|by apply Forall_singleton| |done..|].
  - intros n es' E%list_elem_of_singleton. eapply Hs. rewrite E. left.
  - intros n es' ?. eapply Hs. by right.
Qed.

Lemma copy_entries_cons es : Forall (λ e, ∀ dest, copies (copy_entry dest e) dest [e]) es →
  ∀ dest, copies (copy_entries dest es) dest es.
Proof.
  induction 1 as [|e es He _ IH]; intros dest fs fs' r E; simpl in E.
  - injection E as <- <-. split; [apply copied_refl|]. intros _ _ p c Hf.
    by apply has_file_head in Hf as (? & ? & _ & ?%elem_of_nil).
  - destruct (copy_entry dest e fs) as [fs1 [[]|msg]] eqn:Ee; apply He in Ee as [Hc Hd].
    + apply IH in E as [Hc' Hd']. split; [by eapply copied_trans|]. intros Ht Hr.
      destruct (tree_ok_tail _ _ Ht) as [Ht1 Ht2]. inversion Ht as [? Hn _ _]; subst.
      eapply complete_cons; eauto.
    + injection E as <- <-. split; [|done]. eapply copied_trans, copied_refl. done.
Qed.

Lemma copy_entry_go dest es fs :
  (fix go (es : list dirent) (fs : hostfs) : hostfs * result unit :=
     match es with
     | [] => (fs, Ok tt)
     | e :: es => match copy_entry dest e fs with (fs, Ok _) => go es fs | (fs, Err e) => (fs, Err e) end
     end) es fs = copy_entries dest es fs.
Proof. revert fs. induction es as [|e es IH]; intros fs; simpl; [done|]. by repeat case_match. Qed.

Lemma copy_entry_copies e : ∀ dest, copies (copy_entry dest e) dest [e].
Proof.
  induction e as [n c|n|n es IH] using dirent_rect'; intros dest fs fs' r E; simpl in E.
  - destruct c as [c|]; [|injection E as <- <-; by split; [apply copied_refl|]].
    destruct (writeFile fs (dest ++ [n]) c) as [fs1|] eqn:W; injection E as <- <-;
      [|by split; [apply copied_refl|]].
    apply writeFile_files in W as [Wf Wd]. split; [split; [|by rewrite Wd]|].
    + intros p. rewrite Wf. destruct (decide (dest ++ [n] = p)) as [<-|?].
      * right. exists [n], c. rewrite lookup_insert_eq. split_and!; [done| |done]. apply here. left.
      * left. by rewrite lookup_insert_ne.
    + intros _ _ p c' Hp. inversion Hp as [? ? ? Hn|? ? ? ? ? Hn]; subst;
        apply list_elem_of_singleton in Hn; [|done]. injection Hn as -> ->. by rewrite Wf, lookup_insert_eq.
  - destruct (mkdir_p fs (dest ++ [n])) as [fs1|] eqn:M; injection E as <- <-; (split; [|done]);
      [eapply copied_mkdir; [done|]|]; apply copied_refl.
  - destruct (mkdir_p fs (dest ++ [n])) as [fs1|] eqn:M;
      [rewrite copy_entry_go in E|injection E as <- <-; by split; [apply copied_refl|]].
    apply (copy_entries_cons es IH) in E as [Hc Hd]. split; [by eapply copied_mkdir, copied_dir|].
    intros Ht Hr p c (p' & -> & Hp)%has_file_dir. inversion_clear Ht as [? _ _ Hs].
    rewrite (app_assoc dest [n] p' : dest ++ n :: p' = _). apply Hd; [|done|done]. eapply Hs. left.
Qed.

Lemma copyDir_copies es dest : copies (copyDir (Some es) dest) dest es.
Proof.
  intros fs fs' r E. unfold copyDir in E. destruct (mkdir_p fs dest) as [fs1|] eqn:M.
  - assert (H : copies (copy_entries dest es) dest es).
    { apply copy_entries_cons, Forall_forall. intros e _ d. apply copy_entry_copies. }
    apply H in E as [Hc Hd]. split; [by eapply copied_mkdir|done].
  - injection E as <- <-. by split; [apply copied_refl|].
Qed.

(** ** The manifest *)

Lemma put_entry_new l e : en_name e ∉ map en_name l → put_entry l e = l ++ [e].
Proof.
  induction l as [|x l IH]; simpl; [done|]. intros [? ?]%not_elem_of_cons.
  rewrite decide_False by done. by rewrite IH.
Qed.

Lemma put_entry_names l e : map en_name (put_entry l e) =
  if decide (en_name e ∈ map en_name l) then map en_name l else map en_name l ++ [en_name e].
Proof.
  case_decide as H.
  - induction l as [|x l IH]; simpl in *; [by apply elem_of_nil in H|].
    destruct (decide (en_name x = en_name e)) as [->|]; [done|].
    apply elem_of_cons in H as [?|H]; [done|]. simpl. by rewrite (IH H).
  - by rewrite put_entry_new, map_app.
Qed.

Lemma elem_of_put_entry l e x : x ∈ put_entry l e → x = e ∨ x ∈ l.
Proof.
  induction l as [|y l IH]; simpl; [set_solver|]. case_decide; [set_solver|].
  intros [->|Hx]%elem_of_cons; [right; left|]. destruct (IH Hx); [by left|right; by right].
Qed.

Lemma filter_other l n : n ∉ map en_name l → filter (λ e, en_name e ≠ n) l = l.
Proof.
  induction l as [|e l IH]; simpl; [done|]. intros [? ?]%not_elem_of_cons.
  rewrite filter_cons, decide_True by done. by rewrite IH.
Qed.

Lemma splice_entry_filter l n : NoDup (map en_name l) →
  splice_entry l n = filter (λ e, en_name e ≠ n) l.
Proof.
  induction l as [|e l IH]; simpl; [done|]. intros [He Hl]%NoDup_cons. rewrite filter_cons.
  destruct (decide (en_name e = n)) as [<-|]; [|rewrite decide_True by done; by rewrite IH].
  rewrite decide_False by auto. by rewrite filter_other.
Qed.

Definition find_entry (l : list InstalledSkillEntry) (n : string) : option InstalledSkillEntry :=
  List.find (λ e, bool_decide (en_name e = n)) l.

Lemma find_entry_elem l n e : find_entry l n = Some e → e ∈ l ∧ en_name e = n.
Proof. intros [H1 H2]%find_some. bool_cases. by rewrite list_elem_of_In. Qed.

Lemma find_entry_None l n : find_entry l n = None ↔ n ∉ map en_name l.
Proof.
  induction l as [|e l IH]; simpl; [split; [intros _; apply not_elem_of_nil|done]|].
  rewrite not_elem_of_cons. case_bool_decide; [naive_solver|]. rewrite IH. naive_solver.
Qed.

Lemma find_put l e n :
  find_entry (put_entry l e) n = if decide (n = en_name e) then Some e else find_entry l n.
Proof.
  induction l as [|x l IH]; simpl.
  - case_decide; case_bool_decide; congruence.
  - destruct (decide (en_name x = en_name e)) as [E|]; simpl.
    + rewrite E. case_decide; case_bool_decide; congruence.
    + rewrite IH. repeat case_decide; repeat case_bool_decide; congruence.
Qed.

(** ** What is installed *)

Definition names (st : skill_store) : list string := map en_name (readManifest st).

(** A file of a skill that [readSkillMd] accepts under that name. *)
Definition skill_md (name content : string) : Prop :=
  ∃ fm, validate (parseFrontmatter content).1 = Some fm ∧ fm_name fm = name.

Section Store.
Context (skillsDir : path).

(** Names are unique, what an installed skill requires is installed, and every installed
    skill has its SKILL.md. *)
Record installed_ok (st : skill_store) : Prop := {
  ok_unique : NoDup (names st);
  ok_closed e s : e ∈ readManifest st → s ∈ req_skills (en_requires e) → s ∈ names st;
  ok_name e : e ∈ readManifest st → skill_name (en_name e) = true;
  ok_file e : e ∈ readManifest st →
    ∃ c, files (host st) !! (skillsDir ++ [en_name e; "SKILL.md"]) = Some c ∧ skill_md (en_name e) c }.

Inductive skill_op :=
| Init
| Install (now : string) (source : option (list dirent)) (from : SkillSource)
| Remove (name : string).

(** The state after an operation, failed or not. *)
Definition skill_step (st : skill_store) (op : skill_op) : skill_store :=
  match op with
  | Init => match init skillsDir st with Ok st => st | Err _ => st end
  | Install now source from => (install skillsDir st now source from).1
  | Remove name => (remove skillsDir st name).1
  end.

(** Sources are directories of a file system. *)
Definition op_ok (op : skill_op) : Prop :=
  match op with Install _ (Some es) _ => tree_ok es | _ => True end.

Lemma skill_name_entry n : skill_name n = true → entry_name n.
Proof.
  intros H. assert (Hc : ∀ c, lower_alpha c || is_digit c || bool_decide (c = "-"%char) = true →
                            c ≠ "/"%char ∧ c ≠ "."%char) by (intros c E; by split; intros ->).
  assert (Ha : ∀ c, c ∈ String.list_ascii_of_string n →
                  lower_alpha c || is_digit c || bool_decide (c = "-"%char) = true).
  { destruct n as [|a n]; [done|]. simpl in H. bool_cases. intros c [->|Hn]%elem_of_cons.
    - by destruct (lower_alpha a).
    - match goal with Hf : forallb _ _ = true |- _ => rewrite forallb_forall in Hf; apply Hf end.
      by apply list_elem_of_In. }
  unfold entry_name. destruct n as [|a n]; [done|].
  destruct (Hc a) as [_ Hdot]; [apply Ha; left|]. split_and!; [done|congruence..|].
  intros Hs. by apply Ha, Hc in Hs as [? _].
Qed.

Lemma path_join_skill n : skill_name n = true → path_join skillsDir n = skillsDir ++ [n].
Proof.
  intros Hn%skill_name_entry. assert (E : comps n = [n]).
  { unfold str_split. rewrite str_split_aux_lacks by apply Hn. done. }
  rewrite path_join_comps, E; [done|]. rewrite E. by apply Forall_singleton.
Qed.

Lemma validate_name data fm : validate data = Some fm → skill_name (fm_name fm) = true.
Proof.
  unfold validate, string_field. intros H. repeat (simplify_option_eq; repeat case_match; try done).
Qed.
(** ** Operations *)

Lemma readSkillMd_ok es fm : readSkillMd (Some es) = Ok fm →
  ∃ c, has_file es ["SKILL.md"] c ∧ skill_md (fm_name fm) c ∧ skill_name (fm_name fm) = true.
Proof.
  unfold readSkillMd. simpl. intros E.
  destruct (List.find _ es) as [[n [c|]|]|] eqn:F; [|done..].
  apply find_some in F as [Hin Hn]. bool_cases. subst n.
  destruct (validate (parseFrontmatter c).1) as [fm'|] eqn:V; [|done]. injection E as ->.
  exists c. split_and!; [by apply here, list_elem_of_In|by exists fm|by eapply validate_name].
Qed.

Lemma has_file_unique es n c c' : tree_ok es → has_file es [n] c → has_file es [n] c' → c = c'.
Proof.
  intros [? Hn _ _] H H'. inversion H as [? ? ? E|? ? ? ? ? ? B]; subst; [|by apply has_file_head in B as (? & ? & ? & _)].
  inversion H' as [? ? ? E'|? ? ? ? ? ? B]; subst; [|by apply has_file_head in B as (? & ? & ? & _)].
  by injection (NoDup_map_inj ent_name _ _ _ Hn E E' eq_refl).
Qed.

Lemma checkSkillDependencies_nil st fm : checkSkillDependencies st fm = [] →
  ∀ s, s ∈ req_skills (fm_requires fm) → s ∈ names st.
Proof.
  unfold checkSkillDependencies. intros E s Hs. destruct (List.filter _ _) as [|? ?] eqn:F; [|done].
  destruct (decide (s ∈ names st)) as [?|Hn]; [done|]. exfalso.
  assert (H : s ∈ ([] : list string)); [|by apply elem_of_nil in H].
  rewrite <- F. apply list_elem_of_In, filter_In. rewrite <- list_elem_of_In. split; [done|].
  by rewrite bool_decide_eq_false_2.
Qed.

(** What an installation does: nothing, a part of the copy, or all of it and the entry. *)
Inductive install_effect (st : skill_store) now es from : skill_store → result InstalledSkillEntry → Prop :=
| Refused msg : install_effect st now es from st (Err msg)
| Broken fm fs msg : readSkillMd (Some es) = Ok fm →
    copied (skillsDir ++ [fm_name fm]) es (host st) fs →
    install_effect st now es from (Store fs (manifest st)) (Err msg)
| Done fm fs :
    let e := Entry (fm_name fm) (fm_version fm) from now (fm_requires fm) in
    readSkillMd (Some es) = Ok fm → (∀ s, s ∈ req_skills (fm_requires fm) → s ∈ names st) →
    copied (skillsDir ++ [fm_name fm]) es (host st) fs → complete (skillsDir ++ [fm_name fm]) es fs →
    install_effect st now es from (Store fs (Valid (put_entry (readManifest st) e))) (Ok e).

Lemma install_cases st now es from : tree_ok es →
  install_effect st now es from (install skillsDir st now (Some es) from).1
    (install skillsDir st now (Some es) from).2.
Proof.
  intros Ht. unfold install. destruct (readSkillMd (Some es)) as [fm|msg] eqn:R; [|apply Refused].
  destruct (checkSkillDependencies st fm) as [|w ws] eqn:D; [|apply Refused].
  destruct (readSkillMd_ok _ _ R) as (c & Hc & Hm & Hn). rewrite path_join_skill by done.
  destruct (copyDir (Some es) (skillsDir ++ [fm_name fm]) (host st)) as [fs [[]|msg]] eqn:C;
    apply copyDir_copies in C as [Hcop Hcom]; simpl.
  - apply Done; [done|by apply checkSkillDependencies_nil|done|by apply Hcom].
  - by apply (Broken _ _ _ _ fm).
Qed.

Inductive remove_effect (st : skill_store) (n : string) : skill_store → result unit → Prop :=
| Kept msg : n ∉ names st ∨ (∃ e, e ∈ readManifest st ∧ en_name e ≠ n ∧ n ∈ req_skills (en_requires e)) →
    remove_effect st n st (Err msg)
| Removed : n ∈ names st →
    (∀ e, e ∈ readManifest st → n ∈ req_skills (en_requires e) → en_name e = n) →
    remove_effect st n
      (Store (rm_rf (host st) (skillsDir ++ [n])) (Valid (filter (λ e, en_name e ≠ n) (readManifest st)))) (Ok tt).

Lemma dependents_elem l n m : m ∈ dependents l n ↔
  ∃ e, e ∈ l ∧ en_name e = m ∧ en_name e ≠ n ∧ n ∈ req_skills (en_requires e).
Proof.
  unfold dependents. rewrite elem_of_map. apply exist_proper. intros e.
  rewrite list_elem_of_In, filter_In, <- list_elem_of_In, andb_true_iff, negb_true_iff,
    bool_decide_eq_false, bool_decide_eq_true. naive_solver.
Qed.

Lemma remove_cases st n : installed_ok st →
  remove_effect st n (remove skillsDir st n).1 (remove skillsDir st n).2.
Proof.
  intros Hok. unfold remove. change (isInstalled st n) with (if find_entry (readManifest st) n then true else false).
  destruct (find_entry (readManifest st) n) as [e|] eqn:F; simpl;
    [|apply Kept; left; by apply find_entry_None].
  apply find_entry_elem in F as [He <-].
  destruct (dependents (readManifest st) (en_name e)) as [|m ms] eqn:D; simpl.
  - rewrite path_join_skill, splice_entry_filter by (by apply Hok). apply Removed.
    + apply elem_of_map. by exists e.
    + intros x Hx Hr. destruct (decide (en_name x = en_name e)) as [?|Hne]; [done|]. exfalso.
      assert (H : en_name x ∈ dependents (readManifest st) (en_name e)) by (apply dependents_elem; eauto).
      rewrite D in H. by apply elem_of_nil in H.
  - apply Kept. right. assert (H : m ∈ dependents (readManifest st) (en_name e)) by (rewrite D; left).
    apply dependents_elem in H as (x & ? & _ & ? & ?). eauto.
Qed.
(** ** What stays true *)

Lemma app_name_inv n m r : skillsDir ++ [n; "SKILL.md"] = (skillsDir ++ [m]) ++ r → n = m ∧ r = ["SKILL.md"].
Proof. rewrite <- app_assoc. intros E%app_inv_head. by injection E as -> <-. Qed.

(** A copy of a skill's directory leaves the SKILL.md of every installed skill valid. *)
Lemma copied_file es fm st fs : tree_ok es → readSkillMd (Some es) = Ok fm →
  copied (skillsDir ++ [fm_name fm]) es (host st) fs → ∀ n,
  (∃ c, files (host st) !! (skillsDir ++ [n; "SKILL.md"]) = Some c ∧ skill_md n c) →
  ∃ c, files fs !! (skillsDir ++ [n; "SKILL.md"]) = Some c ∧ skill_md n c.
Proof.
  intros Ht (c0 & Hc0 & Hm & _)%readSkillMd_ok [Hf _] n (c & Hc & Hn).
  destruct (Hf (skillsDir ++ [n; "SKILL.md"])) as [->|(r & c' & E & Hr & ->)]; [by exists c|].
  apply app_name_inv in E as [-> ->]. exists c'. split; [done|].
  by rewrite (has_file_unique _ _ _ _ Ht Hr Hc0).
Qed.

Lemma install_ok st now es from : tree_ok es → installed_ok st →
  installed_ok (install skillsDir st now (Some es) from).1.
Proof.
  intros Ht Hok. destruct (install_cases st now es from Ht) as [|fm fs msg R C|fm fs e R Hreq C Hd]; [done| |].
  - destruct Hok as [H1 H2 H3 H4]. split; [done..|]. intros e He. eapply copied_file; eauto.
  - assert (Hn : names (Store fs (Valid (put_entry (readManifest st) e))) =
      if decide (fm_name fm ∈ names st) then names st else names st ++ [fm_name fm]) by apply put_entry_names.
    assert (Hsub : ∀ s, s ∈ names st → s ∈ names (Store fs (Valid (put_entry (readManifest st) e)))).
    { intros s Hs. rewrite Hn. case_decide; [done|]. apply elem_of_app. by left. }
    destruct (readSkillMd_ok _ _ R) as (c & Hc & Hm & Hname). destruct Hok as [H1 H2 H3 H4]. split.
    + rewrite Hn. case_decide; [done|]. apply NoDup_app. split_and!; [done| |apply NoDup_singleton].
      by intros s Hs ->%list_elem_of_singleton.
    + intros x s [->|Hx]%elem_of_put_entry Hs; apply Hsub; [by apply Hreq|by eapply H2].
    + intros x [->|Hx]%elem_of_put_entry; [done|by apply H3].
    + intros x [->|Hx]%elem_of_put_entry; [|by eapply copied_file; eauto].
      exists c. split; [|done]. rewrite <- (Hd _ _ Hc). by rewrite <- app_assoc.
Qed.

Lemma rm_rf_files fs p q : files (rm_rf fs p) !! q = if decide (p `prefix_of` q) then None else files fs !! q.
Proof.
  simpl. case_decide as Hp.
  - apply map_lookup_filter_None. right. intros c _ H. by apply H.
  - destruct (files fs !! q) as [c|] eqn:E; [by apply map_lookup_filter_Some|].
    apply map_lookup_filter_None. by left.
Qed.

Lemma remove_ok st n : installed_ok st → installed_ok (remove skillsDir st n).1.
Proof.
  intros Hok. destruct (remove_cases st n Hok) as [|Hn Hdep]; [done|]. destruct Hok as [H1 H2 H3 H4].
  assert (Hnames : ∀ s, s ≠ n → s ∈ names st → s ∈ map en_name (filter (λ e, en_name e ≠ n) (readManifest st))).
  { intros s Hs (x & Hx & <-)%elem_of_map. apply elem_of_map. exists x. split; [|done]. by apply list_elem_of_filter. }
  split; simpl.
  - unfold names. simpl. clear -H1. unfold names in H1. induction (readManifest st) as [|e l IH]; [constructor|].
    simpl in H1. apply NoDup_cons in H1 as [He Hl]. rewrite filter_cons. case_decide; [|by apply IH].
    simpl. apply NoDup_cons. split; [|by apply IH]. intros (x & [_ Hx]%list_elem_of_filter & E)%elem_of_map.
    apply He, elem_of_map. by exists x.
  - intros e s [Hne He]%list_elem_of_filter Hs. apply Hnames; [|by eapply H2].
    intros ->. by apply Hne, Hdep.
  - intros e [_ He]%list_elem_of_filter. by apply H3.
  - intros e [Hne He]%list_elem_of_filter. destruct (H4 e He) as (c & Hc & Hm). exists c. split; [|done].
    change (files (rm_rf (host st) (skillsDir ++ [n])) !! (skillsDir ++ [en_name e; "SKILL.md"]) = Some c).
    rewrite rm_rf_files, decide_False; [done|]. intros Hp%prefix_app_inv. by apply prefix_cons_inv_1 in Hp.
Qed.

Lemma skill_init_ok st : installed_ok st → installed_ok (skill_step st Init).
Proof.
  intros [H1 H2 H3 H4]. unfold skill_step, init. destruct (mkdir_p (host st) skillsDir) as [fs|] eqn:M; [|by split].
  apply mkdir_p_files in M as [E _].
  assert (El : readManifest (Store fs (match manifest st with Missing => Valid [] | m => m end)) = readManifest st)
    by (unfold readManifest; by destruct (manifest st)).
  split; unfold names; rewrite ?El; [done..|]. intros e He. simpl. rewrite E. by apply H4.
Qed.

(** Whatever is installed and removed, successfully or not, the names of the manifest are
    unique, every skill that an installed skill requires is installed, and every installed
    skill has in the store a SKILL.md that [readSkillMd] accepts under its name. *)
Theorem skills_stay_ok ops st : Forall op_ok ops → installed_ok st → installed_ok (foldl skill_step st ops).
Proof.
  intros Hops Hst. apply (foldl_inv installed_ok); [done|]. intros x op Hop Hx.
  rewrite Forall_forall in Hops. specialize (Hops _ Hop). destruct op as [|now [es|] from|n].
  - by apply skill_init_ok.
  - by apply install_ok.
  - done.
  - by apply remove_ok.
Qed.

(** An installation copies every readable file of its source to the skill's directory and
    enters what the SKILL.md says, provided that every required skill is installed; it
    touches no other file and no other entry, and when it fails it changes no entry. *)
Theorem install_spec st now es from : tree_ok es →
  match install skillsDir st now (Some es) from with
  | (st', Ok e) =>
      (∃ fm, readSkillMd (Some es) = Ok fm ∧ e = Entry (fm_name fm) (fm_version fm) from now (fm_requires fm)) ∧
      get st' (en_name e) = Some e ∧ (∀ n, n ≠ en_name e → get st' n = get st n) ∧
      (∀ s, s ∈ req_skills (en_requires e) → isInstalled st s = true) ∧
      (∀ p c, has_file es p c → files (host st') !! (skillsDir ++ en_name e :: p) = Some c) ∧
      (∀ p, ¬ skillsDir ++ [en_name e] `prefix_of` p → files (host st') !! p = files (host st) !! p)
  | (st', Err _) =>
      (∀ n, get st' n = get st n) ∧
      ∃ n, ∀ p, ¬ skillsDir ++ [n] `prefix_of` p → files (host st') !! p = files (host st) !! p
  end.
Proof.
  intros Ht. assert (Hframe : ∀ n fs, copied (skillsDir ++ [n]) es (host st) fs →
    ∀ p, ¬ skillsDir ++ [n] `prefix_of` p → files fs !! p = files (host st) !! p).
  { intros n fs [Hf _] p Hp. destruct (Hf p) as [?|(r & c & -> & _)]; [done|]. by destruct Hp; exists r. }
  pose proof (install_cases st now es from Ht) as Hi.
  destruct (install skillsDir st now (Some es) from) as [st' r].
  simpl in Hi. destruct Hi as [|fm fs msg R C|fm fs e R Hreq C Hd].
  - split; [done|]. by exists "".
  - split; [done|]. exists (fm_name fm). by apply Hframe.
  - assert (Hget : ∀ n, get (Store fs (Valid (put_entry (readManifest st) e))) n =
      if decide (n = en_name e) then Some e else get st n) by (intros n; apply find_put).
    split_and!.
    + by exists fm.
    + by rewrite Hget, decide_True.
    + intros n Hn. by rewrite Hget, decide_False.
    + intros s Hs. unfold isInstalled. destruct (get st s) eqn:G; [done|].
      apply find_entry_None in G. by destruct G; apply Hreq.
    + intros p c Hp. rewrite <- (Hd p c Hp). by rewrite <- app_assoc.
    + by apply Hframe.
Qed.

(** Removing a skill right after its first installation gives back the manifest and the
    files that were there before. *)
Theorem uninstall_undoes_install st now es from st1 e :
  installed_ok st → tree_ok es → en_name e ∉ names st →
  (∀ p, files (host st) !! (skillsDir ++ en_name e :: p) = None) →
  install skillsDir st now (Some es) from = (st1, Ok e) →
  ∃ st2, remove skillsDir st1 (en_name e) = (st2, Ok tt) ∧
    readManifest st2 = readManifest st ∧ files (host st2) = files (host st).
Proof.
  intros Hok Ht Hnew Hempty E. pose proof (install_ok st now es from Ht Hok) as Hok1.
  pose proof (install_cases st now es from Ht) as Hi. rewrite E in Hi, Hok1. simpl in Hi, Hok1.
  inversion Hi as [| |fm fs e' R Hreq [Hf _] Hd]; subst. clear Hi. simpl in *.
  pose proof (remove_cases _ (fm_name fm) Hok1) as Hr. revert Hr.
  destruct (remove skillsDir _ (fm_name fm)) as [st2 r]. simpl. intros Hr.
  assert (Hl : readManifest (Store fs (Valid (put_entry (readManifest st) e'))) = readManifest st ++ [e'])
    by (by apply put_entry_new).
  inversion Hr as [msg Hbad|Hin Hdep]; subst; clear Hr.
  - exfalso. destruct Hbad as [Hbad|(x & Hx & Hne & Hs)].
    + apply Hbad. unfold names. rewrite Hl, map_app. apply elem_of_app. right. left.
    + rewrite Hl in Hx. apply elem_of_app in Hx as [Hx|Hx%list_elem_of_singleton]; [|by rewrite Hx in Hne].
      apply Hnew. by eapply (ok_closed _ Hok).
  - eexists. split; [done|]. split.
    + change (filter (λ e, en_name e ≠ fm_name fm) (readManifest (Store fs (Valid (put_entry (readManifest st) e')))) = readManifest st).
      rewrite Hl, filter_app, filter_other by done. rewrite filter_cons, decide_False by (intros H; by apply H).
      by rewrite filter_nil, app_nil_r.
    + apply map_eq. intros p. transitivity (files (rm_rf fs (skillsDir ++ [fm_name fm])) !! p); [done|].
      rewrite rm_rf_files. case_decide as Hp.
      * destruct Hp as [r ->]. rewrite <- app_assoc. symmetry. apply Hempty.
      * destruct (Hf p) as [?|(r & c & -> & _)]; [done|]. by destruct Hp; exists r.
Qed.
End Store.

(** ** Examples *)

Definition example_md (name required : string) : string :=
  String.concat (String line_feed "")
    ["---"; ("name: " ++ name)%string; "description: Mail and more."; "version: 1.0.0"; "requires:";
     ("  skills: [" ++ required ++ "]")%string; "---"; "Instructions."].

Definition example_source (name required : string) : list dirent :=
  [FileEnt "SKILL.md" (Some (example_md name required));
   DirEnt "lib" (Some [FileEnt "a.txt" (Some "x")])].

Lemma example_source_ok name required : tree_ok (example_source name required).
Proof.
  constructor.
  - apply (bool_decide_unpack _). vm_compute. exact I.
  - apply (bool_decide_unpack _). vm_compute. exact I.
  - intros n es' Hn. apply elem_of_cons in Hn as [Hn|Hn%list_elem_of_singleton]; [done|].
    injection Hn as -> ->. constructor; [apply (bool_decide_unpack _); vm_compute; exact I..|].
    by intros m es' Hm%list_elem_of_singleton.
Qed.

Lemma no_entries_ok skillsDir st : readManifest st = [] → installed_ok skillsDir st.
Proof.
  intros E. split; unfold names; rewrite E; [constructor|..]; intros e; intros;
    by match goal with H : e ∈ _ |- _ => apply elem_of_nil in H end.
Qed.

Lemma skills_stay_ok_witness :
  let ops := [Init; Install "t1" (Some (example_source "calendar" "gmail")) registry;
              Install "t2" (Some (example_source "gmail" "")) registry;
              Install "t3" (Some (example_source "calendar" "gmail")) local; Remove "gmail"] in
  let st := foldl (skill_step ["skills"]) (Store (Fs ∅ ∅) Missing) ops in
  names st = ["gmail"; "calendar"] ∧ installed_ok ["skills"] st.
Proof.
  intros ops st. split; [vm_compute; reflexivity|]. apply (skills_stay_ok ["skills"] ops).
  - repeat apply Forall_cons_2; [exact I|apply example_source_ok..|exact I|constructor].
  - by apply no_entries_ok.
Defined.

Lemma install_spec_witness :
  let es := example_source "gmail" "" in
  match install ["skills"] (Store (Fs ∅ ∅) Missing) "t1" (Some es) git with
  | (st, Ok e) => en_version e = "1.0.0" ∧ get st "gmail" = Some e ∧
      files (host st) !! ["skills"; "gmail"; "lib"; "a.txt"] = Some "x"
  | (_, Err _) => False
  end.
Proof.
  intros es. pose proof (install_spec ["skills"] (Store (Fs ∅ ∅) Missing) "t1" es git (example_source_ok _ _)) as H.
  destruct (install ["skills"] (Store (Fs ∅ ∅) Missing) "t1" (Some es) git) as [st r] eqn:E.
  assert (Er : r = Ok (Entry "gmail" "1.0.0" git "t1" (Requires [] [] [] [] []))).
  { change r with (st, r).2. rewrite <- E. vm_compute. reflexivity. }
  subst r. destruct H as (_ & Hget & _ & _ & Hf & _). split; [reflexivity|]. split; [exact Hget|].
  apply (Hf ["lib"; "a.txt"]). eapply (below _ _ [FileEnt "a.txt" (Some "x")]); [right; left|].
  apply here. left.
Defined.

Lemma uninstall_undoes_install_witness :
  let es := example_source "gmail" "" in
  let st := Store (Fs {[ ["other"] := "kept" ]} ∅) (Valid []) in
  ∃ st1 e, install ["skills"] st "t1" (Some es) git = (st1, Ok e) ∧
  ∃ st2, remove ["skills"] st1 (en_name e) = (st2, Ok tt) ∧
    readManifest st2 = readManifest st ∧ files (host st2) = files (host st).
Proof.
  intros es st.
  destruct (install ["skills"] st "t1" (Some es) git) as [st1 r] eqn:E.
  assert (Er : r = Ok (Entry "gmail" "1.0.0" git "t1" (Requires [] [] [] [] []))).
  { change r with (st1, r).2. rewrite <- E. vm_compute. reflexivity. }
  subst r. eexists st1, _. split; [reflexivity|].
  apply (uninstall_undoes_install ["skills"] st "t1" es git).
  - apply no_entries_ok. reflexivity.
  - apply example_source_ok.
  - apply not_elem_of_nil.
  - intros p. simpl. by rewrite lookup_singleton_ne.
  - exact E.
Defined.
