(* ===== verification/SkillText.v ===== *)
(** * The front matter of a skill reads back

    A SKILL.md written in the usual form, a line per field and lists in brackets, is
    read by [parseFrontmatter] and its schema of [Skills.v] as the fields it was
    written from. *)

From Stdlib Require Import Ascii.
From stdpp Require Import strings list.
From S2P Require Import Prelude JsMap JsString HostFs Skills.
Local Open Scope list_scope.
Local Open Scope string_scope.

(** ** The text *)

Definition nl : string := String line_feed "".

Definition dquoted (s : string) : string := String "034" (s ++ String "034" "").

Definition flow (l : list string) : string := "[" ++ String.concat ", " l ++ "]".

Definition requires_keys (r : SkillRequires) : list (string * list string) :=
  [("channels", channels r); ("bins", bins r); ("env", env r); ("skills", req_skills r); ("os", os r)].

Definition field_line (f : string * list string) : string := "  " ++ f.1 ++ ": " ++ flow f.2.

Definition md_lines (fm : SkillFrontmatter) : list string :=
  ("name" ++ ": " ++ fm_name fm) :: ("description" ++ ": " ++ dquoted (fm_description fm)) ::
  ("version" ++ ": " ++ fm_version fm) :: ("requires" ++ ":") :: map field_line (requires_keys (fm_requires fm)).

Definition skill_text (fm : SkillFrontmatter) (body : string) : string :=
  "---" ++ nl ++ String.concat nl (md_lines fm) ++ nl ++ "---" ++ nl ++ body.

(** A text that neither starts nor ends with a character of [f]. *)
Definition head_out (f : ascii → bool) (s : string) : bool :=
  match s with String c _ => negb (f c) | EmptyString => false end.

Definition clean (f : ascii → bool) (s : string) : bool := head_out f s && head_out f (String.rev s).

Definition one_line (s : string) : bool := bool_decide (lacks carriage_return s) && bool_decide (lacks line_feed s).

(** An item of a list: quotes and spaces at its ends and commas would not be read back. *)
Definition item_ok (s : string) : bool :=
  clean is_space s && clean quote s && one_line s && bool_decide (lacks "," s).

(** What the schema accepts, without the names that are read as booleans. *)
Definition fm_ok (fm : SkillFrontmatter) : bool :=
  let r := fm_requires fm in
  skill_name (fm_name fm) && bool_decide (fm_name fm ∉ ["true"; "false"]) &&
  semver (fm_version fm) && (1 <=? String.length (fm_description fm))%nat &&
  (String.length (fm_description fm) <=? 256)%nat && one_line (fm_description fm) &&
  forallb (λ f, forallb item_ok f.2) (requires_keys r) &&
  forallb (λ x, bool_decide (x ∈ ["linux"; "macos"])) (os r).

(** ** Trimming *)

Lemma clean_head f s : clean f s = true → ∃ c r, s = String c r ∧ f c = false.
Proof. unfold clean. destruct s as [|c r]; [done|]. intros [H _]%andb_prop. exists c, r. simpl in H. by destruct (f c). Qed.

Lemma clean_last f s : clean f s = true → ∃ r c, s = r ++ String c "" ∧ f c = false.
Proof.
  unfold clean. intros [_ H]%andb_prop. destruct (String.rev s) as [|c r] eqn:E; [done|].
  exists (String.rev r), c. split; [|simpl in H; by destruct (f c)].
  rewrite <- (rev_string_involutive s), E.
  change (String c r) with (String c "" ++ r). by rewrite rev_string_app.
Qed.

Lemma clean_app f s t : clean f s = true → clean f t = true → ∀ m, clean f (s ++ m ++ t) = true.
Proof.
  unfold clean. intros [Hs _]%andb_prop [_ Ht]%andb_prop m. rewrite !rev_string_app.
  destruct s as [|c s], (String.rev t) as [|d r]; [done..|]. rewrite !string_app_cons. simpl in *. by rewrite Hs.
Qed.

(** A text of characters outside [f]. *)
Lemma clean_all f s : s ≠ "" → (∀ c, c ∈ String.list_ascii_of_string s → f c = false) → clean f s = true.
Proof.
  intros Hne H. unfold clean. apply andb_true_intro. split.
  - destruct s as [|c s]; [done|]. simpl. rewrite H; [done|left].
  - destruct (String.rev s) as [|c r] eqn:E.
    + destruct Hne. by rewrite <- (rev_string_involutive s), E.
    + simpl. rewrite H; [done|]. assert (Hc : c ∈ String.list_ascii_of_string (String.rev s)) by (rewrite E; left).
      rewrite list_of_rev in Hc. by apply list_elem_of_In, in_rev, list_elem_of_In in Hc.
Qed.

Lemma trim_start_clean s t : clean is_space s = true → trim_start (s ++ t) = s ++ t.
Proof. intros (c & r & -> & Hc)%clean_head. rewrite string_app_cons. cbn [trim_start]. by rewrite Hc. Qed.

Lemma trim_end_clean s t : clean is_space s = true → trim_end (t ++ s) = t ++ s.
Proof.
  intros (r & c & -> & Hc)%clean_last. unfold trim_end.
  assert (E : String.rev (t ++ r ++ String c "") = String c (String.rev r ++ String.rev t)).
  { rewrite !rev_string_app. reflexivity. }
  rewrite E. cbn [trim_start]. rewrite Hc, <- E. apply rev_string_involutive.
Qed.

Lemma trim_clean s : clean is_space s = true → trim s = s.
Proof.
  intros H. unfold trim. rewrite <- (string_app_nil_r s) at 1. rewrite trim_start_clean, string_app_nil_r by done.
  by apply (trim_end_clean s "").
Qed.

(** ** Lines *)

Lemma span_stop f k c r : forallb f (String.list_ascii_of_string k) = true → f c = false →
  span f (k ++ String c r) = (k, String c r).
Proof.
  intros Hk Hc. induction k as [|d k IH].
  - change ("" ++ ?x) with x. cbn [span]. by rewrite Hc.
  - cbn [String.list_ascii_of_string forallb] in Hk. apply andb_prop in Hk as [Hd Hk].
    rewrite string_app_cons. cbn [span]. by rewrite Hd, IH.
Qed.

Definition key_ok (k : string) : bool :=
  head_out (λ c, negb (word c)) k && forallb key_char (String.list_ascii_of_string k).

Lemma key_value_empty k : key_ok k = true → key_value (k ++ ":") = Some (k, "").
Proof.
  intros [Hw Hk]%andb_prop. unfold key_value. rewrite span_stop by done.
  destruct k as [|c k]; [done|]. simpl in Hw. rewrite negb_involutive in Hw. by rewrite Hw.
Qed.

Lemma key_value_text k v : key_ok k = true → clean is_space v = true → lacks carriage_return v →
  key_value (k ++ ": " ++ v) = Some (k, v).
Proof.
  intros [Hw Hk]%andb_prop Hv Hcr. unfold key_value.
  change (": " ++ v) with (String ":" (String " " v)). rewrite span_stop by done.
  destruct k as [|c k]; [done|]. simpl in Hw. rewrite negb_involutive in Hw. rewrite Hw.
  change (trim_start (String ":" (String " " v))) with (String ":" (String " " v)).
  cbv iota beta. change (trim_start (String " " v)) with (trim_start v).
  assert (E : trim_start v = v).
  { rewrite <- (string_app_nil_r v) at 1. by rewrite trim_start_clean, string_app_nil_r. }
  by rewrite E, (bool_decide_eq_true_2 (lacks _ v)).
Qed.

(** A key is no comment and no indented line. *)
Lemma key_head k s : key_ok k = true →
  k ++ s ≠ "" ∧ starts_with "#" (k ++ s) = false ∧ starts_with "  " (k ++ s) = false.
Proof.
  intros [Hw _]%andb_prop. destruct k as [|c k]; [done|]. simpl in Hw. rewrite negb_involutive in Hw.
  rewrite string_app_cons. unfold starts_with, String.prefix.
  split_and!; [done| |]; destruct (ascii_dec _ _) as [<-|]; done.
Qed.

Lemma front_top data cur k v : key_ok k = true → clean is_space v = true → lacks carriage_return v →
  front_line (data, cur) (k ++ ": " ++ v) = (map_set data k (Scalar (parseYamlValue v)), None).
Proof.
  intros Hk Hv Hcr. unfold front_line.
  rewrite <- string_app_assoc, (trim_end_clean v) by done. rewrite string_app_assoc.
  destruct (key_head k (": " ++ v) Hk) as (H1 & H2 & H3).
  rewrite (bool_decide_eq_false_2 _ H1), H2, H3, key_value_text, (trim_clean v) by done.
  rewrite bool_decide_eq_false_2 by (by intros ->). done.
Qed.

Lemma front_nest data cur k : key_ok k = true →
  front_line (data, cur) (k ++ ":") = (map_set data k (Nested []), Some k).
Proof.
  intros Hk. unfold front_line. rewrite (trim_end_clean ":") by done.
  destruct (key_head k ":" Hk) as (H1 & H2 & H3).
  by rewrite (bool_decide_eq_false_2 _ H1), H2, H3, key_value_empty by done.
Qed.

Lemma front_field data k0 f k v : map_get data k0 = Some (Nested f) →
  key_ok k = true → clean is_space v = true → lacks carriage_return v →
  front_line (data, Some k0) ("  " ++ k ++ ": " ++ v) =
  (map_set data k0 (Nested (map_set f k (parseYamlValue v))), Some k0).
Proof.
  intros Hf Hk Hv Hcr. unfold front_line.
  assert (E : trim_end ("  " ++ k ++ ": " ++ v) = "  " ++ k ++ ": " ++ v).
  { rewrite <- !string_app_assoc. by apply trim_end_clean. }
  rewrite E. change (starts_with "#" ("  " ++ k ++ ": " ++ v)) with false.
  change (str_drop 2 ("  " ++ k ++ ": " ++ v)) with (k ++ ": " ++ v).
  rewrite (proj2 (prefix_app "  " _)) by (by eexists).
  rewrite bool_decide_eq_false_2 by done. rewrite key_value_text by done. cbv iota beta. cbn [orb].
  by rewrite Hf.
Qed.

(** ** Values *)

Lemma substring_app s t : String.substring 0 (String.length s) (s ++ t) = s.
Proof. induction s as [|c s IH]; [by destruct t|]. rewrite string_app_cons. simpl. by rewrite IH. Qed.

Lemma slice_inner_wrapped a b s : slice_inner (String a (s ++ String b "")) = s.
Proof.
  unfold slice_inner. replace (String.length (String a (s ++ String b "")) - 2)%nat with (String.length s).
  - apply (substring_app s).
  - simpl. rewrite length_app_string. simpl. lia.
Qed.

Lemma wrapped_ends a b s :
  wrapped (String a "") (String b "") (String a (s ++ String b "")) = true.
Proof.
  unfold wrapped. apply andb_true_intro. split.
  - apply prefix_app. by eexists.
  - apply suffix_app. by exists (String a s).
Qed.

Lemma clean_ends f a b s : f a = false → f b = false → clean f (String a (s ++ String b "")) = true.
Proof.
  intros Ha Hb. apply (clean_app f (String a "") (String b "")); unfold clean; simpl; by rewrite ?Ha, ?Hb.
Qed.

(** The opening bracket or quote decides. *)
Lemma wrapped_head a b c s : c ≠ a → wrapped (String a "") b (String c s) = false.
Proof. intros H. unfold wrapped, starts_with. simpl. by destruct (ascii_dec a c) as [->|]. Qed.

Lemma parse_dquoted s : parseYamlValue (dquoted s) = YStr s.
Proof.
  unfold parseYamlValue, dquoted. rewrite trim_clean by (by apply clean_ends).
  rewrite wrapped_head by done. cbn [andb]. by rewrite wrapped_ends, slice_inner_wrapped.
Qed.

(** A text that is neither in brackets, quoted, a boolean nor a number. *)
Lemma parse_plain s c r : s = String c r → clean is_space s = true →
  c ≠ "["%char → quote c = false → s ∉ ["true"; "false"] → numeric s = false → parseYamlValue s = YStr s.
Proof.
  intros E Hs Hb Hq Hbool Hn. unfold parseYamlValue. rewrite (trim_clean _ Hs).
  apply not_elem_of_cons in Hbool as [? [? _]%not_elem_of_cons].
  unfold quote in Hq. bool_cases. rewrite Hn, andb_false_r, E, !wrapped_head by done. cbn [andb orb]. rewrite <- E.
  by rewrite !bool_decide_eq_false_2.
Qed.

Lemma item_ok_spec x : item_ok x = true → clean is_space x = true ∧ strip_quotes x = x ∧
  lacks carriage_return x ∧ lacks line_feed x ∧ lacks "," x.
Proof.
  unfold item_ok, one_line. intros [[[Hs Hq]%andb_prop [Hcr Hlf]%andb_prop]%andb_prop Hc]%andb_prop.
  bool_cases. split_and!; try done. unfold clean in Hq. apply andb_prop in Hq as [Hh Hr].
  unfold strip_quotes.
  assert (E : match x with String c r => if quote c then r else x | EmptyString => x end = x).
  { destruct x as [|c r]; [done|]. simpl in Hh. by destruct (quote c). }
  rewrite E. destruct (String.rev x) as [|d r]; [done|]. simpl in Hr. by destruct (quote d).
Qed.

Lemma lacks_flow c l : c ≠ "["%char → c ≠ "]"%char → c ≠ ","%char → c ≠ " "%char →
  Forall (lacks c) l → lacks c (flow l).
Proof.
  intros H1 H2 H3 H4 Hl. unfold flow. rewrite !lacks_app, !lacks_cons.
  split_and!; [done|apply lacks_nil| |done|apply lacks_nil]. induction Hl as [|x l Hx Hl IH]; [apply lacks_nil|].
  destruct l as [|y l]; [done|]. change (lacks c (x ++ ", " ++ String.concat ", " (y :: l))).
  rewrite !lacks_app. split_and!; [done| |done]. rewrite !lacks_cons. split_and!; [done..|apply lacks_nil].
Qed.

Lemma clean_concat x l : Forall (λ x, clean is_space x = true) (x :: l) →
  clean is_space (String.concat ", " (x :: l)) = true.
Proof.
  revert x. induction l as [|y l IH]; intros x [Hx Hl]%Forall_cons; [done|].
  change (clean is_space (x ++ ", " ++ String.concat ", " (y :: l)) = true).
  apply clean_app; [done|by apply IH].
Qed.

(** Splitting at the commas leaves the space after each of them. *)
Lemma split_flow x l : Forall (lacks ",") (x :: l) →
  str_split "," (String.concat ", " (x :: l)) = x :: map (String " ") l.
Proof.
  assert (E : String.concat ", " (x :: l) = String.concat "," (x :: map (String " ") l)).
  { revert x. induction l as [|y l IH]; intros x; [done|].
    change (x ++ String "," (String " " (String.concat ", " (y :: l))) =
            x ++ String "," (String.concat "," (String " " y :: map (String " ") l))).
    rewrite IH. by destruct l. }
  intros [Hx Hl]%Forall_cons. rewrite E. apply str_split_concat. constructor; [done|].
  apply Forall_fmap. eapply Forall_impl; [done|]. intros y Hy. by apply lacks_cons.
Qed.

Lemma parse_flow l : Forall (λ x, item_ok x = true) l → parseYamlValue (flow l) = YArr l.
Proof.
  intros Hl. rewrite Forall_forall in Hl.
  assert (Hcr : lacks carriage_return (flow l)).
  { apply lacks_flow; [done..|]. apply Forall_forall. intros x Hx. by apply item_ok_spec, Hl. }
  assert (Hlf : lacks line_feed (flow l)).
  { apply lacks_flow; [done..|]. apply Forall_forall. intros x Hx. by apply item_ok_spec, Hl. }
  unfold parseYamlValue. rewrite trim_clean by (by apply (clean_ends is_space "[" "]")).
  rewrite !bool_decide_eq_true_2 by done.
  assert (Hlen : (2 <=? String.length (flow l))%nat = true).
  { apply Nat.leb_le. unfold flow. rewrite !length_app_string. simpl. lia. }
  rewrite Hlen. change (flow l) with (String "[" (String.concat ", " l ++ String "]" "")).
  rewrite wrapped_ends, slice_inner_wrapped. cbn [andb]. clear Hcr Hlf Hlen. destruct l as [|x l]; [done|].
  assert (Hc : Forall (λ x, clean is_space x = true) (x :: l)) by (apply Forall_forall; intros; by apply item_ok_spec, Hl).
  pose proof (clean_concat x l Hc) as Hcc. rewrite (trim_clean _ Hcc).
  rewrite bool_decide_eq_false_2 by (intros E; by rewrite E in Hcc).
  rewrite split_flow by (apply Forall_forall; intros; by apply item_ok_spec, Hl). f_equal. cbn [map].
  assert (Hone : ∀ y, y ∈ x :: l → strip_quotes (trim y) = y).
  { intros y Hy. destruct (item_ok_spec y (Hl y Hy)) as (Hs & Hq & _). by rewrite (trim_clean y Hs). }
  f_equal; [apply Hone; left|]. rewrite map_map. rewrite <- (map_id l) at 2. apply map_ext_in.
  intros y Hy%list_elem_of_In. apply (Hone y). by right.
Qed.

(** Names and versions are no numbers. *)
Lemma skill_name_chars n : skill_name n = true → n ≠ "" ∧
  ∀ c, c ∈ String.list_ascii_of_string n → is_space c = false ∧ c ≠ carriage_return ∧ c ≠ line_feed.
Proof.
  intros H. destruct n as [|a n]; [done|]. split; [done|]. simpl in H. bool_cases.
  assert (Hc : ∀ c, lower_alpha c || is_digit c || bool_decide (c = "-"%char) = true →
                    is_space c = false ∧ c ≠ carriage_return ∧ c ≠ line_feed).
  { intros c E. split; [|by split; intros ->]. revert E.
    destruct c as [[] [] [] [] [] [] [] []]; vm_compute; auto. }
  intros c [->|Hn]%elem_of_cons; apply Hc; [by destruct (lower_alpha a)|].
  match goal with Hf : forallb _ _ = true |- _ => rewrite forallb_forall in Hf; apply Hf end.
  by apply list_elem_of_In.
Qed.

Lemma numeric_name n : skill_name n = true → numeric n = false.
Proof.
  destruct n as [|c n]; [done|]. intros Hn. assert (Hc : lower_alpha c = true).
  { simpl in Hn. by bool_cases. }
  assert (Hd : lower_ascii c ≠ "0"%char ∧ is_digit c = false ∧ c ∉ ["+"; "-"; "."; "I"]%char).
  { clear Hn. destruct c as [[] [] [] [] [] [] [] []]; try (vm_compute in Hc; discriminate Hc);
      (split_and!; [discriminate|reflexivity|by apply (bool_decide_unpack _)]). }
  destruct Hd as (H0 & H1 & [? [? [? [? _]%not_elem_of_cons]%not_elem_of_cons]%not_elem_of_cons]%not_elem_of_cons).
  assert (Hpre : ∀ d, bool_decide (to_lower (String.substring 0 2 (String c n)) = String "0" d) = false).
  { intros d. apply bool_decide_eq_false. cbn [String.substring to_lower]. congruence. }
  unfold numeric. rewrite !Hpre. unfold decimal, head_in.
  assert (Hs : bool_decide (c ∈ ["+"; "-"]%char) = false) by (apply bool_decide_eq_false; set_solver).
  assert (Hdot : bool_decide (c ∈ ["."]%char) = false) by (apply bool_decide_eq_false; set_solver).
  rewrite Hs. rewrite bool_decide_eq_false_2 by congruence.
  cbn [span]. rewrite H1. cbv iota beta. by rewrite Hdot.
Qed.

Lemma str_split_join sep s : String.concat (String sep "") (str_split sep s) = s.
Proof.
  assert (H : ∀ s acc, String.concat (String sep "") (str_split_aux sep s acc) = acc ++ s); [|by apply (H s "")].
  clear s. induction s as [|c s IH]; intros acc; cbn [str_split_aux].
  - by rewrite string_app_nil_r.
  - case_decide as E.
    + subst c. specialize (IH "").
      destruct (str_split_aux sep s "") as [|x l] eqn:El; [by apply str_split_aux_ne in El|].
      change (acc ++ String sep "" ++ String.concat (String sep "") (x :: l) = acc ++ String sep s). by rewrite IH.
    + rewrite IH. by rewrite string_app_assoc.
Qed.

Lemma semver_shape v : semver v = true → ∃ a b c, v = a ++ String "." (b ++ String "." c) ∧
  Forall (λ x, x ≠ "" ∧ forallb is_digit (String.list_ascii_of_string x) = true) [a; b; c].
Proof.
  unfold semver. pose proof (str_split_join "." v) as Hj. intros H.
  destruct (str_split "." v) as [|a [|b [|c [|? ?]]]]; try done.
  exists a, b, c. split; [by rewrite <- Hj|]. unfold str_truthy in H. simpl in H. bool_cases. by repeat constructor.
Qed.

Lemma semver_chars v c : semver v = true → c ∈ String.list_ascii_of_string v → is_digit c = true ∨ c = "."%char.
Proof.
  intros (x & y & z & -> & Hf)%semver_shape. rewrite !Forall_cons in Hf.
  destruct Hf as ((_ & Hx) & (_ & Hy) & (_ & Hz) & _). rewrite forallb_forall in Hx, Hy, Hz.
  rewrite list_of_string_app. cbn [String.list_ascii_of_string]. rewrite list_of_string_app. cbn [String.list_ascii_of_string].
  rewrite !elem_of_app, !elem_of_cons, !elem_of_app, !elem_of_cons. rewrite !list_elem_of_In. naive_solver.
Qed.

Lemma numeric_semver v : semver v = true → numeric v = false.
Proof.
  intros Hv. destruct (semver_shape v Hv) as (x & y & z & E & Hf). rewrite !Forall_cons in Hf.
  destruct Hf as ((Hx & Hdx) & (_ & Hdy) & _). destruct v as [|a v]; [done|].
  assert (Ha : is_digit a = true).
  { destruct x as [|a' x]; [done|]. rewrite string_app_cons in E. injection E as -> _. simpl in Hdx. by bool_cases. }
  assert (Hb : ∀ b r, v = String b r → lower_ascii b ∉ ["x"; "o"; "b"]%char).
  { intros b r ->. assert (Hb : is_digit b = true ∨ b = "."%char) by (apply (semver_chars _ b Hv); right; left).
    destruct Hb as [Hb| ->]; [|by apply (bool_decide_unpack _)].
    clear -Hb. destruct b as [[] [] [] [] [] [] [] []]; try (vm_compute in Hb; discriminate Hb);
      by apply (bool_decide_unpack _). }
  assert (Hpre : ∀ d, d ∈ ["x"; "o"; "b"]%char →
    bool_decide (to_lower (String.substring 0 2 (String a v)) = String "0" (String d "")) = false).
  { intros d Hd. apply bool_decide_eq_false. destruct v as [|b v]; [done|].
    change (String (lower_ascii a) (String (lower_ascii b) (to_lower (String.substring 0 0 v))) ≠ String "0" (String d "")).
    intros [= _ Eb _]. apply (Hb b v eq_refl). by rewrite Eb. }
  assert (Hs : a ∉ ["+"; "-"; "I"]%char).
  { clear -Ha. destruct a as [[] [] [] [] [] [] [] []]; try (vm_compute in Ha; discriminate Ha);
      by apply (bool_decide_unpack _). }
  apply not_elem_of_cons in Hs as [? [? [? _]%not_elem_of_cons]%not_elem_of_cons].
  unfold numeric. rewrite !Hpre by (by apply (bool_decide_unpack _)). unfold decimal.
  assert (Hsign : (if head_in ["+"; "-"]%char (String a v) then str_drop 1 (String a v) else String a v) = String a v).
  { unfold head_in. rewrite bool_decide_eq_false_2; [done|]. rewrite !not_elem_of_cons. auto using not_elem_of_nil. }
  rewrite Hsign. rewrite (bool_decide_eq_false_2 (String a v = "Infinity")) by congruence.
  rewrite E, span_stop by done. change (head_in ["."%char] (String "." ?r)) with true. cbv iota.
  change (str_drop 1 (String "." ?r)) with r. rewrite span_stop by done. apply andb_false_r.
Qed.

(** ** The block *)

Lemma yaml_block_line x r : one_line x = true →
  yaml_block (x ++ r) = ('(b, rest) ← yaml_block r; Some (x ++ b, rest)).
Proof.
  unfold one_line. intros H. bool_cases. induction x as [|c x IH].
  - change ("" ++ r) with r. by destruct (yaml_block r) as [[b rest]|].
  - repeat match goal with Hl : lacks _ (String _ _) |- _ => apply lacks_cons in Hl as [? Hl] end.
    rewrite string_app_cons. cbn [yaml_block]. unfold starts_with, String.prefix at 1 2.
    destruct (ascii_dec carriage_return c) as [|_]; [done|]. destruct (ascii_dec line_feed c) as [|_]; [done|].
    rewrite IH by done. by destruct (yaml_block r) as [[b rest]|].
Qed.

Lemma yaml_block_next x r : head_out (λ c, bool_decide (c = "-"%char)) x = true →
  yaml_block (nl ++ x ++ r) = ('(b, rest) ← yaml_block (x ++ r); Some (nl ++ b, rest)).
Proof.
  destruct x as [|c x]; [done|]. intros Hc. simpl in Hc. bool_cases. rewrite string_app_cons.
  change (nl ++ String c (x ++ r)) with (String line_feed (String c (x ++ r))).
  generalize (x ++ r). intros s.
  change (yaml_block (String line_feed (String c s))) with
    (if starts_with "---" (String c s) then Some ("", str_drop 3 (String c s))
     else '(b, rest) ← yaml_block (String c s); Some (String line_feed b, rest)).
  assert (E : starts_with "---" (String c s) = false); [|by rewrite E].
  apply not_true_is_false. intros [q E]%prefix_app. by injection E as ->.
Qed.

Lemma yaml_block_end r : yaml_block (nl ++ "---" ++ r) = Some ("", r).
Proof. by destruct r. Qed.

Definition line_ok (x : string) : bool := one_line x && head_out (λ c, bool_decide (c = "-"%char)) x.

Lemma yaml_block_lines x l r : Forall (λ x, line_ok x = true) (x :: l) →
  yaml_block (String.concat nl (x :: l) ++ nl ++ "---" ++ r) = Some (String.concat nl (x :: l), r).
Proof.
  revert x. induction l as [|y l IH]; intros x [[Hx _]%andb_prop Hl]%Forall_cons.
  - change (String.concat nl [x]) with x. rewrite yaml_block_line, yaml_block_end by done. cbn.
    by rewrite string_app_nil_r.
  - change (String.concat nl (x :: y :: l)) with (x ++ nl ++ String.concat nl (y :: l)).
    rewrite !string_app_assoc, yaml_block_line by done.
    pose proof Hl as [[_ Hy]%andb_prop _]%Forall_cons. specialize (IH y Hl).
    assert (E : ∃ s, String.concat nl (y :: l) = y ++ s).
    { destruct l as [|z l]; [exists ""; by rewrite string_app_nil_r|]. by eexists. }
    destruct E as [s E]. rewrite E in IH |- *. rewrite string_app_assoc in IH |- *.
    rewrite yaml_block_next, IH by done. done.
Qed.

(** A quote is not a line break, so a line of clean parts is one. *)
Lemma one_line_app s t : one_line s = true → one_line t = true → one_line (s ++ t) = true.
Proof. unfold one_line. intros. bool_cases. rewrite !bool_decide_eq_true_2; [done|by apply lacks_app..]. Qed.

Lemma one_line_chars s : (∀ c, c ∈ String.list_ascii_of_string s → c ≠ carriage_return ∧ c ≠ line_feed) →
  one_line s = true.
Proof.
  intros H. unfold one_line, lacks. rewrite !bool_decide_eq_true_2; [done|..]; intros Hc; by apply H in Hc as [? ?].
Qed.

Lemma one_line_flow l : Forall (λ x, item_ok x = true) l → one_line (flow l) = true.
Proof.
  intros Hl. unfold one_line. rewrite !bool_decide_eq_true_2; [done|..]; apply lacks_flow; try done;
    eapply Forall_impl; try exact Hl; intros x Hx; by apply item_ok_spec.
Qed.

(** ** The whole text *)

Lemma front_matter_text x l body : Forall (λ x, line_ok x = true) (x :: l) →
  front_matter ("---" ++ nl ++ String.concat nl (x :: l) ++ nl ++ "---" ++ nl ++ body) =
  Some (String.concat nl (x :: l), body).
Proof.
  intros Hl. pose proof (yaml_block_lines x l (nl ++ body) Hl) as E. revert E.
  generalize (String.concat nl (x :: l)) as b. intros b E. unfold front_matter.
  rewrite (proj2 (prefix_app "---" _)) by (by eexists).
  change (str_drop 3 ("---" ++ nl ++ ?s)) with (nl ++ s).
  change (drop_if carriage_return (nl ++ ?s)) with (nl ++ s).
  change (head_in [line_feed] (nl ++ ?s)) with true. cbv iota.
  change (str_drop 1 (nl ++ ?s)) with s. rewrite E. cbn [mbind option_bind].
  by change (drop_if line_feed (drop_if carriage_return (nl ++ body))) with body.
Qed.

Section Readback.
Context (fm : SkillFrontmatter) (Hok : fm_ok fm = true).

Lemma fm_name_ok : skill_name (fm_name fm) = true ∧ fm_name fm ∉ ["true"; "false"].
Proof. unfold fm_ok in Hok. by bool_cases. Qed.

Lemma fm_version_ok : semver (fm_version fm) = true.
Proof. unfold fm_ok in Hok. by bool_cases. Qed.

Lemma fm_description_ok : one_line (fm_description fm) = true.
Proof. unfold fm_ok in Hok. by bool_cases. Qed.

Lemma fm_items_ok f : f ∈ requires_keys (fm_requires fm) → Forall (λ x, item_ok x = true) f.2.
Proof.
  intros Hf%list_elem_of_In. unfold fm_ok in Hok. bool_cases.
  match goal with H : forallb (λ f, forallb _ f.2) _ = true |- _ => rewrite forallb_forall in H; specialize (H f Hf) end.
  apply Forall_forall. intros x Hx%list_elem_of_In.
  match goal with H : forallb item_ok _ = true |- _ => rewrite forallb_forall in H; auto end.
Qed.

Lemma parse_fm_name : parseYamlValue (fm_name fm) = YStr (fm_name fm).
Proof.
  destruct fm_name_ok as [Hn Hb]. destruct (skill_name_chars _ Hn) as [Hne Hc].
  pose proof (numeric_name _ Hn) as Hnum.
  destruct (fm_name fm) as [|c n] eqn:E; [done|]. assert (Hl : lower_alpha c = true) by (simpl in Hn; by bool_cases).
  eapply parse_plain; [done|apply clean_all; [done|intros; by apply Hc]|..]; [| |done|done].
  - by intros ->.
  - clear -Hl. destruct c as [[] [] [] [] [] [] [] []]; try (vm_compute in Hl; discriminate Hl); reflexivity.
Qed.

Lemma digit_or_dot c : is_digit c = true ∨ c = "."%char →
  is_space c = false ∧ c ≠ "["%char ∧ quote c = false ∧ c ≠ carriage_return ∧ c ≠ line_feed ∧ c ≠ "t"%char ∧ c ≠ "f"%char.
Proof.
  intros [H|E]; [|subst c; split_and!; done].
  destruct c as [[] [] [] [] [] [] [] []]; try (vm_compute in H; discriminate H); split_and!; done.
Qed.

Lemma version_chars c : c ∈ String.list_ascii_of_string (fm_version fm) →
  is_space c = false ∧ c ≠ "["%char ∧ quote c = false ∧ c ≠ carriage_return ∧ c ≠ line_feed ∧ c ≠ "t"%char ∧ c ≠ "f"%char.
Proof. intros H. apply digit_or_dot. by eapply semver_chars, H; apply fm_version_ok. Qed.

Lemma parse_fm_version : parseYamlValue (fm_version fm) = YStr (fm_version fm).
Proof.
  pose proof version_chars as Hc. pose proof (numeric_semver _ fm_version_ok) as Hn.
  pose proof fm_version_ok as Hv. destruct (fm_version fm) as [|c v] eqn:E; [done|].
  destruct (Hc c) as (_ & Hb & Hq & _ & _ & Ht & Hf); [left|].
  eapply parse_plain; [done|apply clean_all; [done|intros; by apply Hc]|done|done| |done].
  rewrite !not_elem_of_cons. split_and!; [congruence..|apply not_elem_of_nil].
Qed.

Lemma values_clean :
  clean is_space (fm_name fm) = true ∧ clean is_space (fm_version fm) = true ∧
  one_line (fm_name fm) = true ∧ one_line (fm_version fm) = true.
Proof.
  destruct fm_name_ok as [Hn _]. destruct (skill_name_chars _ Hn) as [Hne Hc].
  split_and!.
  - apply clean_all; [done|]. intros. by apply Hc.
  - apply clean_all; [|intros; by apply version_chars].
    intros E. pose proof fm_version_ok as Hv. by rewrite E in Hv.
  - apply one_line_chars. intros. by apply Hc.
  - apply one_line_chars. intros c Hv. destruct (version_chars c Hv) as (_ & _ & _ & ? & ? & _). done.
Qed.

Lemma one_line_dquoted s : one_line s = true → one_line (dquoted s) = true.
Proof. intros H. apply (one_line_app (String "034" "")); [done|]. by apply one_line_app. Qed.

Lemma key_line_ok k v : line_ok k = true → one_line v = true → line_ok (k ++ v) = true.
Proof.
  intros [H1 H2]%andb_prop Hv. unfold line_ok. rewrite one_line_app by done. by destruct k.
Qed.

Lemma md_lines_ok : Forall (λ x, line_ok x = true) (md_lines fm).
Proof.
  destruct values_clean as (_ & _ & Hn & Hv). pose proof fm_description_ok as Hd. unfold md_lines.
  apply Forall_cons_2; [|apply Forall_cons_2; [|apply Forall_cons_2; [|apply Forall_cons_2]]].
  - apply key_line_ok; [done|]. by apply one_line_app.
  - apply key_line_ok; [done|]. apply one_line_app; [done|]. by apply one_line_dquoted.
  - apply key_line_ok; [done|]. by apply one_line_app.
  - done.
  - apply Forall_forall. intros y (f & Hf & <-)%elem_of_map. unfold field_line.
    assert (Hk : one_line f.1 = true).
    { simpl in Hf. repeat (apply elem_of_cons in Hf as [->|Hf]; [done|]). by apply elem_of_nil in Hf. }
    apply key_line_ok; [done|]. do 2 (apply one_line_app; [done|]). by apply one_line_flow, fm_items_ok.
Qed.

(** The lines of the lists fill the nested object, which is the last one. *)
Lemma front_flows base k0 acc fs : k0 ∉ map_keys base →
  NoDup (map_keys acc ++ map fst fs)%list → (∀ f, f ∈ fs → key_ok f.1 = true ∧ Forall (λ x, item_ok x = true) f.2) →
  foldl front_line (base ++ [(k0, Nested acc)], Some k0)%list (map field_line fs) =
  (base ++ [(k0, Nested (acc ++ map_values YArr fs))], Some k0)%list.
Proof.
  intros Hk0. revert acc. induction fs as [|f fs IH]; intros acc Hnd Hfs; [by rewrite app_nil_r|].
  destruct (Hfs f) as [Hk Hf]; [left|]. cbn [map foldl].
  change (field_line f) with ("  " ++ f.1 ++ ": " ++ flow f.2).
  assert (Hcr : lacks carriage_return (flow f.2)).
  { pose proof (one_line_flow _ Hf) as H. unfold one_line in H. by bool_cases. }
  rewrite (front_field _ _ acc), parse_flow, map_set_last, map_set_new; try done.
  - rewrite IH.
    + by rewrite <- app_assoc.
    + unfold map_keys in *. rewrite map_app, <- app_assoc. done.
    + intros g Hg. apply Hfs. by right.
  - apply NoDup_app in Hnd as (_ & Hd & _). intros Hin. apply (Hd _ Hin). left.
  - by apply map_get_last.
  - by apply (clean_ends is_space "[" "]").
Qed.

(** The objects that the loop over the lines builds. *)
Definition fm_scalars : jsmap yaml_entry :=
  [("name", Scalar (YStr (fm_name fm))); ("description", Scalar (YStr (fm_description fm)));
   ("version", Scalar (YStr (fm_version fm)))]%list.

Definition fm_data : jsmap yaml_entry :=
  (fm_scalars ++ [("requires", Nested (map_values YArr (requires_keys (fm_requires fm))))])%list.

Lemma fm_scalars_set :
  map_set (map_set (map_set [] "name" (Scalar (YStr (fm_name fm))))
    "description" (Scalar (YStr (fm_description fm)))) "version" (Scalar (YStr (fm_version fm))) = fm_scalars.
Proof. reflexivity. Qed.

Lemma foldl_step {A B} (f : A → B → A) a b l : foldl f a (b :: l) = foldl f (f a b) l.
Proof. reflexivity. Qed.

Lemma front_lines_data : (foldl front_line ([], None) (md_lines fm)).1 = fm_data.
Proof.
  destruct values_clean as (Hn & Hv & Hn1 & Hv1). pose proof fm_description_ok as Hd1.
  pose proof (one_line_dquoted _ Hd1) as Hd2. unfold one_line in Hn1, Hv1, Hd2. bool_cases.
  unfold md_lines. rewrite !foldl_step.
  rewrite (front_top _ _ "name"), parse_fm_name by done.
  rewrite (front_top _ _ "description"), parse_dquoted by (done || by apply clean_ends).
  rewrite (front_top _ _ "version"), parse_fm_version by done. rewrite front_nest by done.
  rewrite fm_scalars_set.
  rewrite map_set_new by (by apply (bool_decide_unpack _)).
  rewrite (front_flows fm_scalars "requires" []).
  - done.
  - by apply (bool_decide_unpack _).
  - by apply (bool_decide_unpack _).
  - intros f Hf. split; [|by apply fm_items_ok]. simpl in Hf.
    repeat (apply elem_of_cons in Hf as [->|Hf]; [done|]). by apply elem_of_nil in Hf.
Qed.

Lemma validate_data : validate fm_data = Some fm.
Proof.
  pose proof Hok as H. unfold fm_ok in H. bool_cases. unfold validate.
  change (string_field fm_data "name" ?f) with (if f (fm_name fm) then Some (fm_name fm) else None).
  change (string_field fm_data "description" ?f) with (if f (fm_description fm) then Some (fm_description fm) else None).
  change (string_field fm_data "version" ?f) with (if f (fm_version fm) then Some (fm_version fm) else None).
  match goal with Hs : skill_name _ = true |- _ => rewrite Hs end.
  match goal with Hs : semver _ = true |- _ => rewrite Hs end.
  rewrite !(proj2 (Nat.leb_le _ _)) by done. cbn [andb mbind option_bind].
  change (parse_requires fm_data) with
    (if forallb (λ x, bool_decide (x ∈ ["linux"; "macos"])) (os (fm_requires fm))
     then Some (Requires (channels (fm_requires fm)) (bins (fm_requires fm)) (env (fm_requires fm))
                  (req_skills (fm_requires fm)) (os (fm_requires fm))) else None).
  match goal with Hs : forallb _ (os _) = true |- _ => rewrite Hs end.
  by destruct fm as [? ? ? []].
Qed.

(** The front matter of a SKILL.md in the usual form, with the description in quotes and
    the requirements as lists, is read back as the fields it was written from, and the body
    as it stands; the names [true] and [false], which the parser takes for booleans, are
    excepted. *)
Theorem skill_md_readback body :
  validate (parseFrontmatter (skill_text fm body)).1 = Some fm ∧
  (parseFrontmatter (skill_text fm body)).2 = body.
Proof.
  unfold parseFrontmatter, skill_text. pose proof md_lines_ok as Hl. pose proof front_lines_data as Hd.
  destruct (md_lines fm) as [|x l]; [by inversion Hd|]. rewrite front_matter_text by done.
  assert (E : str_split line_feed (String.concat nl (x :: l)) = x :: l); [apply str_split_concat|].
  2: { rewrite E, Hd. split; [apply validate_data|done]. }
  eapply Forall_impl; [exact Hl|]. intros y [Hy _]%andb_prop. unfold one_line in Hy. by bool_cases.
Qed.
End Readback.

Lemma skill_md_readback_witness :
  let fm := Frontmatter "google-workspace" "Mail, calendar & [more]" "1.0.10"
              (Requires ["gmail"; "telegram"] ["gws"] ["GOOGLE_TOKEN"] [] ["linux"; "macos"]) in
  fm_ok fm = true ∧ validate (parseFrontmatter (skill_text fm "Use gws.")).1 = Some fm ∧
  (parseFrontmatter (skill_text fm "Use gws.")).2 = "Use gws.".
Proof.
  intros fm. split; [vm_compute; reflexivity|]. apply (skill_md_readback fm). vm_compute. reflexivity.
Defined.

(** A skill cannot be named [true]: the schema accepts the name, the parser gives a boolean. *)
Example name_read_as_boolean :
  skill_name "true" = true ∧
  validate (parseFrontmatter (skill_text (Frontmatter "true" "A skill." "1.0.0" (Requires [] [] [] [] [])) "")).1 = None.
Proof. by vm_compute. Qed.
