(* ===== verification/Registry.v ===== *)
(** * The registry of skills

    [src/skills/registry.ts]: the index with its cache, lookup and search, and the download
    of a skill's directory with the check of its hash.  What a request for a URL answers,
    the parsers of the answers and the hash are arguments; a downloaded directory is the
    tree of [AgentSessions], which is what [Skills.install] copies. *)

From Stdlib Require Import Ascii.
From stdpp Require Import pretty.
From S2P Require Import Prelude JsMap JsString HostFs AgentSessions.
Local Open Scope list_scope.
Local Open Scope string_scope.
Local Open Scope fh_scope.

Record RegistryClientOptions := RegistryOptions {
  repo : string;
  branch : string;
  cacheTtlMs : Z }.

Record RegistrySkillEntry := RegistryEntry {
  re_name : string;
  re_description : string;
  re_version : string;
  re_path : string;
  re_sha256 : option string }.

Record RegistrySearchResult := SearchResult {
  sr_name : string;
  sr_description : string;
  sr_version : string }.

(** [cachedIndex] and [cachedAt]. *)
Record registry_client := Client {
  cachedIndex : option (list RegistrySkillEntry);
  cachedAt : Z }.

(** What [fetch] gives: it rejects, or there is a response. *)
Inductive fetched :=
| Unreachable (msg : string)
| Answered (status : Z) (statusText body : string).

Definition response_ok (status : Z) : bool := (200 <=? status)%Z && (status <? 300)%Z.

Record listed_item := Item {
  it_name : string;
  it_type : string;
  download_url : option string }.

Definition quoted_name (name : string) : string := String "034" (name ++ String "034" "").

Section Client.
Context (opts : RegistryClientOptions).
Context (fetch : string → fetched).
(** [registryIndexSchema.parse] of the body, and the body as a list of items. *)
Context (parse_index : string → result (list RegistrySkillEntry)) (parse_items : string → result (list listed_item)).
Context (sha256 : string → string).

Definition failed {A} (what : string) (status : Z) (statusText : string) : result A :=
  Err ("Failed to fetch " ++ what ++ ": " ++ pretty status ++ " " ++ statusText).

Definition index_url : string := "https://raw.githubusercontent.com/" ++ repo opts ++ "/" ++ branch opts ++ "/registry.json".

Definition refresh (c : registry_client) (now : Z) : registry_client * result (list RegistrySkillEntry) :=
  match fetch index_url with
  | Unreachable msg => (c, Err msg)
  | Answered status text body =>
      if negb (response_ok status) then (c, failed "registry" status text)
      else match parse_index body with
           | Err msg => (c, Err msg)
           | Ok index => (Client (Some index) now, Ok index)
           end
  end.

Definition getIndex (c : registry_client) (now : Z) : registry_client * result (list RegistrySkillEntry) :=
  match cachedIndex c with
  | Some index => if (now - cachedAt c <? cacheTtlMs opts)%Z then (c, Ok index) else refresh c now
  | None => refresh c now
  end.

Definition find_skill (index : list RegistrySkillEntry) (name : string) : option RegistrySkillEntry :=
  List.find (λ s, bool_decide (re_name s = name)) index.

Definition lookup (c : registry_client) (now : Z) (name : string) : registry_client * result (option RegistrySkillEntry) :=
  match getIndex c now with
  | (c, Err msg) => (c, Err msg)
  | (c, Ok index) => (c, Ok (find_skill index name))
  end.

Definition search (c : registry_client) (now : Z) (query : string) : registry_client * result (list RegistrySearchResult) :=
  match getIndex c now with
  | (c, Err msg) => (c, Err msg)
  | (c, Ok index) =>
      let lower := to_lower query in
      (c, Ok (map (λ s, SearchResult (re_name s) (re_description s) (re_version s))
                (List.filter (λ s, includes lower (to_lower (re_name s)) || includes lower (to_lower (re_description s))) index)))
  end.

Definition contents_url (path : string) : string :=
  "https://api.github.com/repos/" ++ repo opts ++ "/contents/" ++ path ++ "?ref=" ++ branch opts.

(** One item of a listing; [subdir] downloads a directory below. *)
Definition download_item (subdir : string → result (list dirent)) (path : string) (item : listed_item) : result (list dirent) :=
  if bool_decide (it_type item = "file") && opt_truthy (download_url item) then
    match fetch (default "" (download_url item)) with
    | Unreachable msg => Err msg
    | Answered status _ body => Ok (if response_ok status then [FileEnt (it_name item) (Some body)] else [])
    end
  else if bool_decide (it_type item = "dir") then
    let* entries := subdir (path ++ "/" ++ it_name item) in
    Ok [DirEnt (it_name item) (Some entries)]
  else Ok [].

Fixpoint download_items (subdir : string → result (list dirent)) (path : string) (items : list listed_item) :
    result (list dirent) :=
  match items with
  | [] => Ok []
  | item :: items =>
      let* e := download_item subdir path item in
      let* es := download_items subdir path items in
      Ok (e ++ es)%list
  end.

(** [depth] bounds the directories below. *)
Fixpoint downloadSubdir (depth : nat) (repoPath : string) : result (list dirent) :=
  match depth with
  | O => Err "too deep"
  | S depth =>
      match fetch (contents_url repoPath) with
      | Unreachable msg => Err msg
      | Answered status _ body =>
          if negb (response_ok status) then Ok []
          else let* items := parse_items body in download_items (downloadSubdir depth) repoPath items
      end
  end.

Definition skill_file (es : list dirent) : option string :=
  match List.find (λ e, bool_decide (ent_name e = "SKILL.md")) es with
  | Some (FileEnt _ content) => content
  | _ => None
  end.

Definition download (depth : nat) (c : registry_client) (now : Z) (name : string) : registry_client * result (list dirent) :=
  match lookup c now name with
  | (c, Err msg) => (c, Err msg)
  | (c, Ok None) => (c, Err ("Skill " ++ quoted_name name ++ " not found in registry"))
  | (c, Ok (Some entry)) =>
      (c, match fetch (contents_url (re_path entry)) with
          | Unreachable msg => Err msg
          | Answered status text body =>
              if negb (response_ok status) then failed "skill contents" status text
              else
                let* items := parse_items body in
                let* es := download_items (downloadSubdir depth) (re_path entry) items in
                match re_sha256 entry, skill_file es with
                | Some expected, Some content =>
                    if bool_decide (sha256 content = expected) then Ok es
                    else Err ("Integrity check failed for " ++ quoted_name name ++ ": expected sha256 " ++ expected ++
                              ", got " ++ sha256 content)
                | _, _ => Ok es
                end
          end)
  end.

(** [clearCache()] *)
Definition clearCache (c : registry_client) : registry_client := Client None 0.

(** ** What a download gives *)

(** An index comes from the cache while it is fresh, or from the registry. *)
Lemma getIndex_fresh c now c' index : getIndex c now = (c', Ok index) →
  cachedIndex c' = Some index ∧
  ((c' = c ∧ (now - cachedAt c < cacheTtlMs opts)%Z) ∨
   (cachedAt c' = now ∧ ∃ status text body, fetch index_url = Answered status text body ∧ parse_index body = Ok index)).
Proof.
  assert (Hr : refresh c now = (c', Ok index) → cachedIndex c' = Some index ∧
    cachedAt c' = now ∧ ∃ status text body, fetch index_url = Answered status text body ∧ parse_index body = Ok index).
  { unfold refresh. destruct (fetch _) as [|status text body]; [done|]. destruct (negb _); [done|].
    destruct (parse_index body) as [i|] eqn:E; [|done]. intros [= <- <-]. eauto 7. }
  unfold getIndex. destruct (cachedIndex c) as [i|] eqn:Ec; [|intros [? ?]%Hr; auto].
  destruct (Z.ltb_spec (now - cachedAt c) (cacheTtlMs opts)); [|intros [? ?]%Hr; auto].
  intros [= <- <-]. auto.
Qed.

Lemma download_item_names subdir path item es : download_item subdir path item = Ok es →
  es = [] ∨ ∃ e, es = [e] ∧ ent_name e = it_name item ∧
    ∀ n es', e = DirEnt n es' → ∃ entries, es' = Some entries ∧ subdir (path ++ "/" ++ it_name item) = Ok entries.
Proof.
  unfold download_item. destruct (_ && _).
  - destruct (fetch _) as [|status text body]; [done|]. intros [= <-]. destruct (response_ok status); [right|by left].
    by exists (FileEnt (it_name item) (Some body)).
  - destruct (bool_decide _); [|intros [= <-]; by left]. destruct (subdir _) as [entries|] eqn:E; [|done].
    intros [= <-]. right. exists (DirEnt (it_name item) (Some entries)). split_and!; [done..|].
    intros n es' [= <- <-]. eauto.
Qed.

Lemma download_items_names subdir path items : ∀ es, download_items subdir path items = Ok es →
  map ent_name es `sublist_of` map it_name items ∧
  ∀ n es', DirEnt n es' ∈ es → ∃ entries, es' = Some entries ∧ subdir (path ++ "/" ++ n) = Ok entries.
Proof.
  induction items as [|item items IH]; cbn [download_items]; intros es.
  - intros [= <-]. split; [constructor|by intros ? ? ?%not_elem_of_nil].
  - destruct (download_item _ _ _) as [e|] eqn:E; [|done]. destruct (download_items _ _ _) as [es'|]; [|done].
    intros [= <-]. destruct (IH es' eq_refl) as [Hs Hd]. apply download_item_names in E as [->|(x & -> & Hn & Hx)].
    + split; [by constructor|done].
    + cbn [app map]. rewrite Hn. split; [by constructor|]. intros n des [<-|Hin]%elem_of_cons; [|by apply Hd].
      cbn [ent_name] in Hn. rewrite Hn. by apply (Hx n des).
Qed.

Context (listings_plain : ∀ body items, parse_items body = Ok items →
  NoDup (map it_name items) ∧ Forall entry_name (map it_name items)).

Lemma download_items_ok subdir path body items es : parse_items body = Ok items →
  (∀ p es, subdir p = Ok es → tree_ok es) → download_items subdir path items = Ok es → tree_ok es.
Proof.
  intros [Hn He]%listings_plain Hsub [Hs Hd]%download_items_names. constructor.
  - by eapply sublist_NoDup.
  - apply Forall_forall. intros n Hin. rewrite Forall_forall in He. apply He. by eapply elem_of_sublist.
  - intros n es' Hin. destruct (Hd n (Some es') Hin) as (entries & [= ->] & E). by eapply Hsub.
Qed.

Lemma downloadSubdir_ok depth : ∀ path es, downloadSubdir depth path = Ok es → tree_ok es.
Proof.
  induction depth as [|depth IH]; cbn [downloadSubdir]; intros path es; [done|].
  destruct (fetch _) as [|status text body]; [done|]. destruct (negb _).
  - intros [= <-]. constructor; [constructor..|by intros ? ? ?%not_elem_of_nil].
  - destruct (parse_items body) as [items|] eqn:E; [|done]. by apply (download_items_ok _ _ body).
Qed.

Lemma download_spec depth c now name c' es : download depth c now name = (c', Ok es) →
  tree_ok es ∧ ∃ index entry, cachedIndex c' = Some index ∧ entry ∈ index ∧ re_name entry = name ∧
    ∀ h content, re_sha256 entry = Some h → skill_file es = Some content → sha256 content = h.
Proof.
  unfold download, lookup. destruct (getIndex c now) as [c1 [index|]] eqn:Ei; [|done].
  destruct (find_skill index name) as [entry|] eqn:Ef; [|done]. intros [= <- H].
  apply find_some in Ef as [Hin%list_elem_of_In En%bool_decide_eq_true].
  destruct (fetch _) as [|status text body]; [done|]. destruct (negb _); [done|].
  destruct (parse_items body) as [items|] eqn:Ep; [|done].
  destruct (download_items _ _ items) as [es'|] eqn:Ed; [|done].
  assert (Hok : tree_ok es') by (eapply download_items_ok; [done|apply downloadSubdir_ok|done]).
  assert (Hh : es' = es ∧ ∀ h content, re_sha256 entry = Some h → skill_file es = Some content → sha256 content = h).
  { destruct (re_sha256 entry) as [h|]; [|by injection H as ->]. destruct (skill_file es') as [content|] eqn:Es.
    - case_bool_decide; [|done]. injection H as ->. split; [done|]. intros ? ? [= <-]. rewrite Es. by intros [= <-].
    - injection H as ->. split; [done|]. intros ? ? _. by rewrite Es. }
  destruct Hh as [-> Hh]. split; [done|]. exists index, entry. split_and!; try done. by eapply getIndex_fresh.
Qed.

(** What a download gives is the directory of an entry of that name in a fresh index,
    a tree of distinct names, and its SKILL.md, when it has one, has the hash that the
    entry states. *)
Theorem download_verified depth c now name c' es : download depth c now name = (c', Ok es) →
  tree_ok es ∧ ∃ index entry, cachedIndex c' = Some index ∧ entry ∈ index ∧ re_name entry = name ∧
    ∀ h content, re_sha256 entry = Some h → skill_file es = Some content → sha256 content = h.
Proof. apply download_spec. Qed.
End Client.

(** ** Depth *)

(** Below [path] there are at most [depth] levels of directories. *)
Inductive shallow (opts : RegistryClientOptions) (fetch : string → fetched)
    (parse_items : string → result (list listed_item)) : nat → string → Prop :=
| Shallow depth path :
    (∀ status text body items item, fetch (contents_url opts path) = Answered status text body →
       parse_items body = Ok items → item ∈ items → it_type item = "dir" →
       shallow opts fetch parse_items depth (path ++ "/" ++ it_name item)) →
    shallow opts fetch parse_items (S depth) path.

Lemma download_items_ext fetch f g path items : (∀ item, item ∈ items → it_type item = "dir" →
    f (path ++ "/" ++ it_name item) = g (path ++ "/" ++ it_name item)) →
  download_items fetch f path items = download_items fetch g path items.
Proof.
  induction items as [|item items IH]; intros H; [done|]. cbn [download_items].
  rewrite IH by (intros x Hx; apply H; by right).
  assert (download_item fetch f path item = download_item fetch g path item) as ->; [|done].
  unfold download_item. destruct (_ && _); [done|]. case_bool_decide; [|done]. by rewrite H by (done || left).
Qed.

(** A greater bound on the depth changes nothing. *)
Lemma download_depth opts fetch parse_items depth path : shallow opts fetch parse_items depth path →
  ∀ k, (depth ≤ k)%nat → downloadSubdir opts fetch parse_items k path = downloadSubdir opts fetch parse_items depth path.
Proof.
  induction 1 as [depth path Hs IH]. intros [|k] Hk; [lia|]. cbn [downloadSubdir].
  destruct (fetch _) as [|status text body] eqn:Ef; [done|]. destruct (negb _); [done|].
  destruct (parse_items body) as [items|] eqn:Ep; [|done]. apply download_items_ext. intros item Hi Ht.
  eapply IH; eauto. lia.
Qed.

(** ** Witness *)

Definition example_entry : RegistrySkillEntry := RegistryEntry "notes" "Takes notes" "1.0.0" "skills/notes" (Some "text").

Definition example_fetch (url : string) : fetched :=
  if bool_decide (url = "md") then Answered 200 "OK" "text" else Answered 200 "OK" "list".

Definition example_items (body : string) : result (list listed_item) :=
  Ok (if bool_decide (body = "list") then [Item "SKILL.md" "file" (Some "md")] else []).

Definition example_options : RegistryClientOptions := RegistryOptions "flowhelm-ai/flowhelm-skills" "main" 300000.

Lemma download_verified_witness :
  ∃ es, (download example_options example_fetch (λ _, Ok [example_entry]) example_items (λ s, s) 3 (Client None 0) 7 "notes").2 = Ok es ∧
    tree_ok es.
Proof.
  exists [FileEnt "SKILL.md" (Some "text")]. split; [vm_compute; reflexivity|].
  apply (download_verified example_options example_fetch (λ _, Ok [example_entry]) example_items (λ s, s)) with
    (depth := 3%nat) (c := Client None 0) (now := 7%Z) (name := "notes") (c' := Client (Some [example_entry]) 7).
  - intros body items [= <-]. case_bool_decide; [|split; constructor]. split; [apply NoDup_singleton|].
    apply Forall_singleton. split_and!; [done..|]. apply (bool_decide_unpack _). vm_compute. exact I.
  - vm_compute. reflexivity.
Defined.
