(* ===== verification/McpServer.v ===== *)
(** * The MCP server

    [src/orchestrator/mcp-server.ts]: the split of a connection's text into lines, the
    JSON-RPC dispatch and the twenty-five tools, over the memory tables, the identity
    tables, the profiles, the skill store and the registry client of the other files.  A
    call of a tool is one atomic operation.  Arguments are parsed JSON of any shape: where
    the code casts one to a type that it does not have and goes on, the model stops with
    [Mistyped]; [McpRuns.v] shows that this is never so for arguments that conform to the
    published schemas. *)

From Stdlib Require Import Ascii.
From stdpp Require Import pretty.
From S2P Require Import Prelude JsMap JsString JsNumber HostFs AgentSessions Profiles Identity.
From S2P Require Import Json McpTools Scoring MemoryDb Consolidation Reflection Memory MemoryContext.
From S2P Require Import Skills Registry.
Local Open Scope list_scope.
Local Open Scope string_scope.
Local Open Scope fh_scope.

(** ** State *)

(** The tables, the skill store and registry client where the server has them, and
    [profileId]. *)
Record server := Server {
  memory : memory_db;
  users : list UserIdentity;
  traits : list UserPersonalityEntry;
  proposals : jsmap IdentityProposal;
  skillStore : option skill_store;
  registryClient : option registry_client;
  profileId : option uuid }.

(** The view of the identity manager. *)
Definition identity_view (s : server) : identity_db :=
  IdentityDb (tabs (memory s)) (users s) (traits s) (proposals s).

Definition put_identity (s : server) (db : identity_db) : server :=
  Server (with_tabs (memory s) (tables db)) (user_identity db) (user_personality db) (Identity.state db)
    (skillStore s) (registryClient s) (profileId s).

Definition put_memory (s : server) (db : memory_db) : server :=
  Server db (users s) (traits s) (proposals s) (skillStore s) (registryClient s) (profileId s).

Definition put_skills (s : server) (st : skill_store) : server :=
  Server (memory s) (users s) (traits s) (proposals s) (Some st) (registryClient s) (profileId s).

Definition put_registry (s : server) (c : registry_client) : server :=
  Server (memory s) (users s) (traits s) (proposals s) (skillStore s) (Some c) (profileId s).

Definition put_profile (s : server) (p : option uuid) : server :=
  Server (memory s) (users s) (traits s) (proposals s) (skillStore s) (registryClient s) p.

(** ** Calls that may throw *)

Inductive outcome (A : Type) :=
| Done (a : A)
| Throws (msg : string)
| Mistyped.
Arguments Done {A} a.
Arguments Throws {A} msg.
Arguments Mistyped {A}.

Definition call (A : Type) : Type := server → server * outcome A.

Definition done {A} (a : A) : call A := λ s, (s, Done a).
Definition throw {A} (msg : string) : call A := λ s, (s, Throws msg).
Definition mistyped {A} : call A := λ s, (s, Mistyped).

Definition bind {A B} (m : call A) (f : A → call B) : call B := λ s,
  match m s with
  | (s, Done a) => f a s
  | (s, Throws msg) => (s, Throws msg)
  | (s, Mistyped) => (s, Mistyped)
  end.

Notation "'let!' x ':=' m 'in' k" := (bind m (λ x, k)) (at level 10, x pattern, k at level 200) : fh_scope.

Definition read {A} (f : server → A) : call A := λ s, (s, Done (f s)).
Definition of_result {A} (r : result A) : call A := match r with Ok a => done a | Err msg => throw msg end.

(** A method of the memory manager, of the identity manager. *)
Definition on_memory {A} (f : memory_db → result (A * memory_db)) : call A := λ s,
  match f (memory s) with Ok (a, db) => (put_memory s db, Done a) | Err msg => (s, Throws msg) end.

Definition on_identity {A} (f : identity_db → result (A * identity_db)) : call A := λ s,
  match f (identity_view s) with Ok (a, db) => (put_identity s db, Done a) | Err msg => (s, Throws msg) end.

(** A method of the skill store; what it does before it throws stays. *)
Definition on_skills {A} (f : skill_store → skill_store * result A) : call A := λ s,
  match skillStore s with
  | None => (s, Throws "Skill management not available")
  | Some st => let '(st, r) := f st in of_result r (put_skills s st)
  end.

Definition on_registry {A} (missing : string) (f : registry_client → registry_client * result A) : call A := λ s,
  match registryClient s with
  | None => (s, Throws missing)
  | Some c => let '(c, r) := f c in of_result r (put_registry s c)
  end.

(** ** Arguments *)

(** [args[key] as string], which must be truthy. *)
Definition required_string (args : json) (key : string) : call string :=
  if truthy (prop args key) then
    match prop args key with Some (Str s) => done s | _ => mistyped end
  else throw (key ++ " is required").

Definition one_of (what : string) (valid : list string) (v : option json) : call string :=
  match v with
  | Some (Str s) =>
      if bool_decide (s ∈ valid) then done s
      else throw ("Invalid " ++ what ++ ". Must be one of: " ++ String.concat ", " valid)
  | _ => throw ("Invalid " ++ what ++ ". Must be one of: " ++ String.concat ", " valid)
  end.

Definition required_one_of (args : json) (key : string) (valid : list string) : call string :=
  if truthy (prop args key) then one_of key valid (prop args key) else throw (key ++ " is required").

Definition optional_one_of (args : json) (key : string) (valid : list string) : call (option string) :=
  if truthy (prop args key) then let! s := one_of key valid (prop args key) in done (Some s) else done None.

Definition clampLimit (value : option json) (defaultVal max : nat) : call nat :=
  match value with
  | Some (Num f) => match clamp max f with Some n => done n | None => mistyped end
  | _ => done defaultVal
  end.

(** A number sent to a column of type integer. *)
Definition integer_parameter (f : spec_float) : result Z :=
  match f with
  | S754_zero _ => Ok 0%Z
  | S754_finite s m e =>
      let n := floor_with Z.div s m e in
      if (e <? 0)%Z && negb ((Z.pos m) mod 2 ^ (- e) =? 0)%Z then Err "invalid input syntax for type integer"
      else if (- INT_MAX - 1 <=? n)%Z && (n <=? INT_MAX)%Z then Ok n
      else Err "integer out of range"
  | _ => Err "invalid input syntax for type integer"
  end.

Definition optional_integer (v : option json) : call (option Z) :=
  match v with Some (Num f) => let! n := of_result (integer_parameter f) in done (Some n) | _ => done None end.

Definition VALID_SEMANTIC_TYPES : list string :=
  ["preference"; "fact"; "pattern"; "contact"; "instruction"; "summary"; "procedure"].
Definition VALID_META_TYPES : list string := ["insight"; "heuristic"; "self_assessment"].
Definition VALID_EXTERNAL_SOURCES : list string := ["document"; "user_provided"].
Definition VALID_AGENT_PERSONALITY_DIMS : list string :=
  ["communication_style"; "humor"; "emotional_register"; "values"; "rapport"; "boundaries"].
Definition VALID_USER_PERSONALITY_DIMS : list string :=
  ["communication_style"; "work_patterns"; "decision_making"; "priorities"; "preferences"; "boundaries"].

(** ** Options *)

Record gws_result := GwsResult {
  success : bool;
  g_output : string;
  exitCode : Z;
  stderr : option string }.

(** [channelClient] is its method [gws]: it rejects, or there is a result. *)
Record McpServerOptions := McpOptions {
  socketPath : string;
  defaultChatId : option string;
  listening : bool;
  channelClient : option (string → option spec_float → result gws_result) }.

Definition formatMessageForTool (m : message_row) : json :=
  Obj [("sender", Str (sender_name m)); ("content", Str (default "[no content]" (w_content m)));
       ("time", Str (iso_timestamp (timestamp m))); ("is_assistant", Bool (is_from_me m))].

Definition or_null {A} (f : A → json) (v : option A) : json := match v with Some a => f a | None => Null end.

Definition profile_json (p : AgentProfileWithStats) : json :=
  let a := st_profile p in
  Obj [("name", Str (name a)); ("description", or_null Str (description a)); ("is_default", Bool (isDefault a));
       ("chat_count", count (chatCount p)); ("semantic_memory_count", count (semanticMemoryCount p));
       ("meta_memory_count", count (metaMemoryCount p))].

Definition agent_identity_json (r : identity_row) : json :=
  Obj ([("role", Str (role r)); ("expertise", texts (expertise r)); ("tone", Str (tone r))] ++
       opt_member "instructions" Str (instructions r) ++
       [("createdAt", int (i_created r)); ("updatedAt", int (i_updated r))])%list.

Definition user_identity_json (u : UserIdentity) : json :=
  Obj (opt_member "name" Str (u_name u) ++ opt_member "role" Str (u_role u) ++
       opt_member "organization" Str (organization u) ++ opt_member "timezone" Str (timezone u) ++
       [("language", Str (default "en" (language u)));
        ("contact", nullish (Some (of_jvalue (contact u))) (Obj []))] ++
       opt_member "notes" Str (notes u) ++
       [("createdAt", int (u_created u)); ("updatedAt", int (u_updated u))])%list.

Definition source_name (s : SkillSource) : string :=
  match s with Skills.registry => "registry" | local => "local" | git => "git" end.

(** ** Tools *)

Section Tools.
Context (real : spec_float → spec_float) (index : VectorIndex) (exp : spec_float → spec_float).
Context (mem : MemoryManagerOptions) (embed : string → result (list spec_float)).
Context (show : spec_float → string) (parse_json : string → option json).
Context (uuid_text : uuid → string) (read_uuid : string → option uuid).
Context (ropts : RegistryClientOptions) (fetch : string → fetched) (depth : nat) (sha256 : string → string).
Context (parse_index : string → result (list RegistrySkillEntry)) (parse_items : string → result (list listed_item)).
Context (skillsDir : path) (opts : McpServerOptions).
(** The clock and the fresh identifier of a call. *)
Context (now : Z) (random : string).

Definition getProfileId : call uuid := λ s,
  match profileId s with
  | Some p => (s, Done p)
  | None => (s, Throws "Profile not resolved. Call start() first.")
  end.

Definition parse_uuid (s : string) : call uuid :=
  match read_uuid s with Some u => done u | None => throw "invalid input syntax for type uuid" end.

Definition optional_number (v : option json) : option spec_float :=
  match v with Some (Num f) => Some f | _ => None end.

Definition semantic_result (x : candidate semantic_row * spec_float) : json :=
  let r := c_row x.1 in
  Obj [("id", Str (uuid_text (s_id r))); ("content", Str (content (s_data r))); ("type", Str (memory_type (s_data r)));
       ("importance", Num (importance (s_data r))); ("depth", int (Profiles.depth (s_data r)));
       ("similarity", Num (round3 (c_similarity x.1))); ("score", Num (round3 x.2)); ("created_at", int (s_created r))].

Definition toolSearchSemantic (args : json) : call json :=
  let! query := required_string args "query" in
  let! memoryType := optional_one_of args "type" VALID_SEMANTIC_TYPES in
  let! limit := clampLimit (prop args "limit") 10 50 in
  let! pid := getProfileId in
  let! v := of_result (embed query) in
  let! t := read (λ s, tabs (memory s)) in
  done (Arr (map semantic_result (querySemanticMemory index exp mem t v pid memoryType (Some limit) now))).

Definition external_result (x : external_row * spec_float) : json :=
  Obj [("content", Str (e_content x.1)); ("source", Str (source_type x.1)); ("source_ref", Str (source_ref x.1));
       ("similarity", Num (round3 x.2)); ("created_at", int (e_created x.1))].

Definition toolSearchExternal (args : json) : call json :=
  let! query := required_string args "query" in
  let! source := optional_one_of args "source" VALID_EXTERNAL_SOURCES in
  let! limit := clampLimit (prop args "limit") 5 50 in
  let! pid := getProfileId in
  let! v := of_result (embed query) in
  let! t := read (λ s, tabs (memory s)) in
  done (Arr (map external_result (queryExternalMemory index mem t v pid source (Some limit)))).

Definition toolRecallConversation (args : json) : call json :=
  let! limit := clampLimit (prop args "limit") 20 100 in
  if truthy (prop args "session_id") then
    match prop args "session_id" with
    | Some (Str sessionId) =>
        let! x := parse_uuid sessionId in
        let! messages := read (λ s, getSessionMessages mem (memory s) x (Some limit)) in
        done (Arr (map formatMessageForTool messages))
    | _ => mistyped
    end
  else
    let chatId := nullish (prop args "chat_id") (or_null Str (defaultChatId opts)) in
    if truthy (Some chatId) then
      match chatId with
      | Str chat =>
          let! messages := read (λ s, getRecentMessages (memory s) chat (Some limit)) in
          done (Arr (map formatMessageForTool messages))
      | _ => mistyped
      end
    else throw "Either chat_id or session_id is required".

Definition toolStoreSemantic (args : json) : call json :=
  let! content := required_string args "content" in
  if (2000 <? String.length content)%nat then throw "content must be 2000 characters or less" else
  let! memoryType := required_one_of args "type" VALID_SEMANTIC_TYPES in
  let importance := js_max (double 0) ∘ js_min (double 1) <$> optional_number (prop args "importance") in
  let! pid := getProfileId in
  let! v := of_result (embed content) in
  let! id := on_memory (λ db,
    match storeSemanticMemory real db now (StoreSemanticOptions_ content memoryType importance None None pid) v with
    | Some (db, id) => Ok (id, db)
    | None => Err "violates constraint"
    end) in
  done (Obj [("id", Str (uuid_text id)); ("stored", Bool true)]).

Definition stats_json (stats : jsmap nat) : json := Obj (map (λ x, (x.1, count x.2)) stats).

Definition toolGetMemoryStats : call json :=
  let! pid := getProfileId in
  let! stats := read (λ s, getMemoryStats (memory s) pid) in
  done (stats_json stats).

(** A time of zero counts as none. *)
Definition opt_time (t : option Z) : option Z := match t with Some 0%Z => None | t => t end.

Definition summary_result (r : semantic_row) : json :=
  Obj ([("id", Str (uuid_text (s_id r))); ("content", Str (content (s_data r))); ("depth", int (Profiles.depth (s_data r)))] ++
       opt_member "earliest_at" int (opt_time (earliest_at (s_data r))) ++
       opt_member "latest_at" int (opt_time (latest_at (s_data r))))%list.

Definition typed (type : string) (l : list json) : json := Obj [("type", Str type); ("data", Arr l)].

Definition toolExpandMemory (args : json) : call json :=
  let! memoryId := required_string args "memory_id" in
  let! sid := parse_uuid memoryId in
  let! result := read (λ s, expandMemory (memory s) sid) in
  done (match result with
        | Messages l => typed "messages" (map formatMessageForTool l)
        | ChildSummaries l => typed "summaries" (map summary_result l)
        | NoExpansion => typed "empty" []
        end).

Definition meta_result (x : candidate meta_row * spec_float) : json :=
  let r := c_row x.1 in
  Obj [("id", Str (uuid_text (m_id r))); ("content", Str (m_content (m_data r)));
       ("reflection_type", Str (reflection_type (m_data r))); ("confidence", Num (round3 (confidence (m_data r))));
       ("depth", int (m_depth (m_data r))); ("similarity", Num (round3 (c_similarity x.1)));
       ("score", Num (round3 x.2))].

Definition toolSearchMeta (args : json) : call json :=
  let! query := required_string args "query" in
  let! type := optional_one_of args "type" VALID_META_TYPES in
  let! limit := clampLimit (prop args "limit") 5 20 in
  let! pid := getProfileId in
  let! v := of_result (embed query) in
  let! minDepth := optional_integer (prop args "min_depth") in
  let! maxDepth := optional_integer (prop args "max_depth") in
  let! t := read (λ s, tabs (memory s)) in
  done (Arr (map meta_result (queryMetaMemory index exp mem t v pid type (Some limit) minDepth maxDepth now))).

Definition source_result (r : semantic_row) : json :=
  Obj [("id", Str (uuid_text (s_id r))); ("content", Str (content (s_data r)));
       ("memory_type", Str (memory_type (s_data r))); ("importance", Num (importance (s_data r)));
       ("depth", int (Profiles.depth (s_data r)))].

Definition child_result (r : meta_row) : json :=
  Obj [("id", Str (uuid_text (m_id r))); ("content", Str (m_content (m_data r)));
       ("reflection_type", Str (reflection_type (m_data r))); ("confidence", Num (round3 (confidence (m_data r))));
       ("depth", int (m_depth (m_data r)))].

Definition toolExpandMeta (args : json) : call json :=
  let! metaId := required_string args "meta_id" in
  let! mid := parse_uuid metaId in
  let! result := read (λ s, expandMetaMemory (tabs (memory s)) mid) in
  done (match result with
        | SourceSemantics l => typed "semantic_sources" (map source_result l)
        | ChildMetas l => typed "child_metas" (map child_result l)
        | NoMeta => typed "empty" []
        end).

(** More levels than any entry has. *)
Definition trace_fuel (t : profile_db) : nat := S (Z.to_nat (fold_right Z.max 0%Z (map (λ r, m_depth (m_data r)) (meta t)))).

Definition toolTraceToSource (args : json) : call json :=
  let! metaId := required_string args "meta_id" in
  let! mid := parse_uuid metaId in
  let! sources := read (λ s, traceMetaToSources (trace_fuel (tabs (memory s))) (tabs (memory s)) mid) in
  match sources with
  | Some l => done (Obj [("count", count (length l)); ("sources", Arr (map source_result l))])
  | None => mistyped
  end.

Definition trait_json (dim content : string) (confidence : spec_float) : list (string * json) :=
  [("dimension", Str dim); ("content", Str content); ("confidence", Num (round3 confidence))].

Definition toolGetIdentity : call json :=
  let! pid := getProfileId in
  let! db := read identity_view in
  done (Obj
    [("agent_identity", or_null agent_identity_json (getAgentIdentity db pid));
     ("agent_personality", Arr (map (λ p, Obj (trait_json (dimension p) (p_content p) (p_confidence p)))
                                  (getAgentPersonality db pid)));
     ("user_identity", or_null user_identity_json (getUserIdentity db));
     ("user_personality", Arr (map (λ p, Obj (trait_json (t_dimension p) (t_content p) (t_confidence p) ++
                                             [("source", Str (t_source p))])%list)
                                 (getUserPersonality db)))]).

Definition toolObservePersonality (args : json) : call json :=
  let! dim := required_one_of args "dimension" VALID_AGENT_PERSONALITY_DIMS in
  let! observation := required_string args "observation" in
  let! pid := getProfileId in
  let! e := on_identity (λ db, observeAgentPersonality real db now pid dim observation) in
  done (Obj (trait_json (dimension e) (p_content e) (p_confidence e) ++ [("evidence_count", int (evidence_count e))])%list).

Definition toolObserveUser (args : json) : call json :=
  let! dim := required_one_of args "dimension" VALID_USER_PERSONALITY_DIMS in
  let! observation := required_string args "observation" in
  match nullish (prop args "source") (Str "inferred") with
  | Str source =>
      let! e := on_identity (λ db, observeUserPersonality real db now dim observation source) in
      done (Obj (trait_json (t_dimension e) (t_content e) (t_confidence e) ++
                 [("source", Str (t_source e)); ("evidence_count", int (t_evidence e))])%list)
  | _ => mistyped
  end.

Definition toolProposeIdentityUpdate (args : json) : call json :=
  let! field := required_one_of args "field" IDENTITY_FIELDS in
  let! newValue := required_string args "new_value" in
  let! reason := required_string args "reason" in
  let! pid := getProfileId in
  let! _ := on_identity (λ db, Ok (tt, proposeIdentityUpdate db now random pid field newValue reason)) in
  done (Obj [("proposal_id", Str random); ("field", Str field); ("new_value", Str newValue); ("reason", Str reason);
             ("status", Str "pending_user_confirmation")]).

Definition USER_FIELDS : list string := ["name"; "role"; "organization"; "timezone"; "language"; "notes"].

(** [{ [field]: value }] *)
Definition one_field (field value : string) : user_fields :=
  let this f := if bool_decide (field = f) then Some value else None in
  UserFields (this "name") (this "role") (this "organization") (this "timezone") (this "language") None (this "notes").

Definition toolUpdateUserIdentity (args : json) : call json :=
  let! field := required_one_of args "field" USER_FIELDS in
  let! value := required_string args "value" in
  let! entry := on_identity (λ db, Ok (updateUserIdentity db now (one_field field value))) in
  done (Obj [("updated", Bool true); ("user_identity", user_identity_json entry)]).

Definition toolListProfiles : call json :=
  let! l := read (λ s, listProfiles (tabs (memory s))) in done (Arr (map profile_json l)).

Definition toolGetCurrentProfile : call json :=
  let! pid := getProfileId in
  let! p := read (λ s, getProfile (tabs (memory s)) pid) in
  match p with
  | None => throw "Current profile not found"
  | Some p => done (Obj [("name", Str (name p)); ("description", or_null Str (description p)); ("is_default", Bool (isDefault p))])
  end.

Definition toolSwitchChatProfile (args : json) : call json :=
  let! profileName := required_string args "profile_name" in
  if negb (opt_truthy (defaultChatId opts)) then throw "No chat context available" else
  let! target := read (λ s, getProfileByName (tabs (memory s)) profileName) in
  match target with
  | None => throw ("Profile not found: " ++ profileName)
  | Some p =>
      let! previous := on_memory (λ db,
        let* (old, t) := assignChat (tabs db) now (default "" (defaultChatId opts)) (id p) in Ok (old, with_tabs db t)) in
      let! q := read (λ s, getProfile (tabs (memory s)) previous) in
      let! _ := (λ s, (put_profile s (Some (id p)), Done tt)) in
      done (Obj [("switched", Bool true); ("previous_profile", Str (default "unknown" (name <$> q)));
                 ("new_profile", Str (name p))])
  end.

Definition toolInstallSkill (args : json) : call json :=
  let! both := read (λ s, match skillStore s, registryClient s with Some _, Some _ => true | _, _ => false end) in
  if negb both then throw "Skill management not available" else
  let! n := required_string args "name" in
  let! entry := on_registry "" (λ c, lookup ropts fetch parse_index c now n) in
  match entry with
  | None => throw ("Skill " ++ quoted_name n ++ " not found in registry")
  | Some _ =>
      let! es := on_registry "" (λ c, download ropts fetch parse_index parse_items sha256 depth c now n) in
      let! e := on_skills (λ st, install skillsDir st (iso_timestamp now) (Some es) Skills.registry) in
      done (Obj [("installed", Bool true); ("name", Str (en_name e)); ("version", Str (en_version e));
                 ("message", Str ("Skill " ++ quoted_name (en_name e) ++ " v" ++ en_version e ++
                                  " installed. Takes effect on next agent invocation."))])
  end.

Definition toolUninstallSkill (args : json) : call json :=
  let! _ := on_skills (λ st, (st, Ok tt)) in
  let! n := required_string args "name" in
  let! _ := on_skills (λ st, Skills.remove skillsDir st n) in
  done (Obj [("uninstalled", Bool true); ("name", Str n);
             ("message", Str ("Skill " ++ quoted_name n ++ " uninstalled. Takes effect on next agent invocation."))]).

Definition built_in_skills : json :=
  Arr [Obj [("name", Str "capabilities"); ("description", Str "Agent self-description"); ("builtIn", Bool true)];
       Obj [("name", Str "status"); ("description", Str "System health report"); ("builtIn", Bool true)]].

Definition available_json (s : RegistrySkillEntry) : json :=
  Obj [("name", Str (re_name s)); ("description", Str (re_description s)); ("version", Str (re_version s))].

(** [getIndex], whose failure is caught. *)
Definition registry_index : call (list RegistrySkillEntry) := λ s,
  match registryClient s with
  | None => (s, Done [])
  | Some c =>
      match getIndex ropts fetch parse_index c now with
      | (c, Ok index) => (put_registry s c, Done index)
      | (c, Err _) => (put_registry s c, Done [])
      end
  end.

Definition toolListSkills : call json :=
  let! installed := on_skills (λ st, (st, Ok (readManifest st))) in
  let! index := registry_index in
  let available := List.filter (λ s, negb (bool_decide (re_name s ∈ map en_name installed))) index in
  done (Obj
    [("installed", Arr (map (λ e, Obj [("name", Str (en_name e)); ("version", Str (en_version e));
                                        ("source", Str (source_name (en_source e)));
                                        ("installed_at", Str (installedAt e))]) installed));
     ("built_in", built_in_skills); ("available", Arr (map available_json available))]).

Definition installed_names (s : server) : list string :=
  match skillStore s with Some st => map en_name (readManifest st) | None => [] end.

Definition toolSearchSkills (args : json) : call json :=
  let! _ := on_registry "Registry not available" (λ c, (c, Ok tt)) in
  let! query := required_string args "query" in
  let! results := on_registry "" (λ c, search ropts fetch parse_index c now query) in
  let! names := read installed_names in
  done (Arr (map (λ r, Obj [("name", Str (sr_name r)); ("description", Str (sr_description r));
                             ("version", Str (sr_version r)); ("installed", Bool (bool_decide (sr_name r ∈ names)))]) results)).

Definition ALLOWED_FIELDS : list string :=
  ["channels.telegram.allowedUsers"; "channels.whatsapp.enabled"; "channels.gmail.enabled"; "service.enabled";
   "service.stt.enabled"; "agent.maxTurns"; "agent.idleTimeout"; "memory.workingMemoryLimit";
   "memory.semanticMemoryLimit"; "memory.externalSimilarityThreshold"; "profiles.autoAssignDefault"].

Definition BLOCKED_PREFIXES : list string :=
  ["username"; "dataDir"; "auth."; "container.proxy"; "database."; "agent.runtime"; "agent.image"].

Definition toolUpdateConfig (args : json) : call json :=
  if negb (truthy (prop args "field")) then throw "field is required" else
  match prop args "value" with
  | None => throw "value is required"
  | Some value =>
      match prop args "field" with
      | Some (Str field) =>
          if existsb (λ p, starts_with p field) BLOCKED_PREFIXES then
            throw ("Field " ++ quoted_name field ++ " cannot be modified via chat for security reasons")
          else if negb (bool_decide (field ∈ ALLOWED_FIELDS)) then
            throw ("Field " ++ quoted_name field ++ " is not in the allowlist. Allowed fields: " ++
                   String.concat ", " ALLOWED_FIELDS)
          else
            done (Obj [("updated", Bool true); ("field", Str field); ("value", value);
                       ("message", Str ("Configuration " ++ quoted_name field ++ " set to " ++ stringify show value ++
                                        ". Restart may be needed for some settings."))])
      | _ => throw "field.startsWith is not a function"
      end
  end.

Definition toolGetAuthUrl (args : json) : call json :=
  let! service := required_string args "service" in
  done (Obj [("service", Str service); ("scopes", nullish (prop args "scopes") (Arr []));
             ("message", Str ("OAuth setup for " ++ quoted_name service ++ " is not yet configured. Please use " ++
                              quoted_name ("flowhelm setup " ++ service) ++ " on the CLI to set up authentication."));
             ("requires_cli", Bool true)]).

Definition toolGetSystemStatus : call json :=
  let! pid := getProfileId in
  let! stats := read (λ s, getMemoryStats (memory s) pid) in
  let! profiles := read (λ s, listProfiles (tabs (memory s))) in
  let! names := read installed_names in
  done (Obj
    [("memory", stats_json stats);
     ("profiles", Obj [("total", count (length profiles)); ("names", texts (map (λ p, name (st_profile p)) profiles))]);
     ("skills", Obj [("installed_count", count (length names)); ("built_in_count", count 2)]);
     ("mcp_server", Obj [("listening", Bool (listening opts)); ("socket_path", Str (socketPath opts))])]).

Definition error_json (msg : string) : list (string * json) := [("error", Str msg)].

Definition toolGoogleWorkspace (args : json) : call json :=
  match channelClient opts with
  | None => done (Obj (error_json ("Google Workspace is not configured. The channel container must be running with " ++
                                   "Gmail OAuth credentials.")))
  | Some gws =>
      if negb (truthy (prop args "command")) then done (Obj (error_json "Missing required field: command")) else
      let! command := required_string args "command" in
      let! r := of_result (gws command (optional_number (prop args "timeout"))) in
      if negb (success r) then
        done (Obj (error_json ("gws command failed (exit " ++ pretty (exitCode r) ++ "): " ++
                               default (g_output r) (stderr r)) ++ [("exitCode", int (exitCode r))])%list)
      else done (default (Obj [("output", Str (g_output r))]) (parse_json (g_output r)))
  end.

(** ** Dispatch *)

(** The switch of [handleToolCall]. *)
Definition tool_cases (args : json) : list (string * call json) :=
  [("search_semantic", toolSearchSemantic args); ("search_external", toolSearchExternal args);
   ("recall_conversation", toolRecallConversation args); ("store_semantic", toolStoreSemantic args);
   ("get_memory_stats", toolGetMemoryStats); ("expand_memory", toolExpandMemory args);
   ("search_meta", toolSearchMeta args); ("expand_meta", toolExpandMeta args);
   ("trace_to_source", toolTraceToSource args); ("get_identity", toolGetIdentity);
   ("observe_personality", toolObservePersonality args); ("observe_user", toolObserveUser args);
   ("propose_identity_update", toolProposeIdentityUpdate args);
   ("update_user_identity", toolUpdateUserIdentity args); ("list_profiles", toolListProfiles);
   ("get_current_profile", toolGetCurrentProfile); ("switch_chat_profile", toolSwitchChatProfile args);
   ("install_skill", toolInstallSkill args); ("uninstall_skill", toolUninstallSkill args);
   ("list_skills", toolListSkills); ("search_skills", toolSearchSkills args);
   ("update_config", toolUpdateConfig args); ("get_auth_url", toolGetAuthUrl args);
   ("get_system_status", toolGetSystemStatus); ("google_workspace", toolGoogleWorkspace args)].

Inductive response_body :=
| Result (result : json)
| Error (code : Z) (message : string).

Record JsonRpcResponse := Response { r_id : json; r_body : response_body }.

Definition text_result (text : string) (failed : bool) : response_body :=
  Result (Obj ([("content", Arr [Obj [("type", Str "text"); ("text", Str text)]])] ++
               if failed then [("isError", Bool true)] else [])%list).

(** What a call of a tool is answered with; [None] where the model stops. *)
Definition tool_body (o : outcome json) : option response_body :=
  match o with
  | Done result => Some (text_result (stringify_indented show 0 result) false)
  | Throws msg => Some (text_result (stringify show (Obj (error_json msg))) true)
  | Mistyped => None
  end.

Definition handleToolCall (params : json) (s : server) : server * option response_body :=
  let args := nullish (prop params "arguments") (Obj []) in
  if negb (truthy (prop params "name")) then (s, Some (Error (-32602) "Missing tool name")) else
  let case := match prop params "name" with Some (Str n) => map_get (tool_cases args) n | _ => None end in
  match case with
  | Some tool => let '(s, o) := tool s in (s, tool_body o)
  | None =>
      (s, match template show (prop params "name") with
          | Some n => Some (Error (-32602) ("Unknown tool: " ++ n))
          | None => tool_body (Throws "Cannot convert object to primitive value")
          end)
  end.

(** A request is answered, or not (a notification), or the promise is rejected, which
    nothing handles; or the model stops. *)
Inductive reply :=
| Reply (r : JsonRpcResponse)
| NoReply
| Rejected
| Unknown.

Definition initialize_result : json :=
  Obj [("protocolVersion", Str "2024-11-05"); ("capabilities", Obj [("tools", Obj [])]);
       ("serverInfo", Obj [("name", Str "flowhelm"); ("version", Str "2.0.0")])].

Definition method_is (request : json) (m : string) : bool :=
  match prop request "method" with Some (Str s) => bool_decide (s = m) | _ => false end.

Definition handleRequest (request : json) (s : server) : server * reply :=
  match request with
  | Null => (s, Rejected)
  | _ =>
      if match prop request "id" with None => method_is request "notifications/initialized" | _ => false end then (s, NoReply) else
      let id := nullish (prop request "id") Null in
      if method_is request "initialize" then (s, Reply (Response id (Result initialize_result)))
      else if method_is request "tools/list" then
        (s, Reply (Response id (Result (Obj [("tools", Arr (map tool_json TOOL_DEFINITIONS))]))))
      else if method_is request "tools/call" then
        let '(s, body) := handleToolCall (nullish (prop request "params") (Obj [])) s in
        (s, match body with Some b => Reply (Response id b) | None => Unknown end)
      else
        (s, match template show (prop request "method") with
            | Some m => Reply (Response id (Error (-32601) ("Method not found: " ++ m)))
            | None => Rejected
            end)
  end.

(** ** The connection *)

Definition response_json (r : JsonRpcResponse) : json :=
  Obj ([("jsonrpc", Str "2.0"); ("id", r_id r)] ++
       match r_body r with
       | Result v => [("result", v)]
       | Error code msg => [("error", Obj [("code", int code); ("message", Str msg)])]
       end)%list.

(** [sendResponse] on a writable socket. *)
Definition response_line (r : JsonRpcResponse) : string := stringify show (response_json r) ++ newline.

Definition processLine (line : string) (s : server) : server * reply :=
  match parse_json line with
  | None => (s, Reply (Response Null (Error (-32700) "Parse error")))
  | Some request => handleRequest request s
  end.
End Tools.

(** The text before the first line break and the text after it. *)
Fixpoint cut_line (buffer : string) : option (string * string) :=
  match buffer with
  | EmptyString => None
  | String c rest =>
      if bool_decide (c = "010"%char) then Some ("", rest)
      else '(line, rest) ← cut_line rest; Some (String c line, rest)
  end.

(** The loop of the data handler: the lines to process and the new buffer. *)
Fixpoint take_lines (fuel : nat) (buffer : string) : list string * string :=
  match fuel with
  | O => ([], buffer)
  | S fuel =>
      match cut_line buffer with
      | None => ([], buffer)
      | Some (line, rest) =>
          let '(lines, buffer) := take_lines fuel rest in
          (if str_truthy (trim line) then trim line :: lines else lines, buffer)
      end
  end.

(** U+FFFD *)
Definition replacement : string := String "239" (String "191" (String "189" "")).

(** How many bytes follow the first one of a character, and what the second may be. *)
Definition lead_byte (b : N) : option (nat * N * N) :=
  if ((194 <=? b) && (b <=? 223))%N then Some (0%nat, 128, 191)%N
  else if (b =? 224)%N then Some (1%nat, 160, 191)%N
  else if (b =? 237)%N then Some (1%nat, 128, 159)%N
  else if ((225 <=? b) && (b <=? 239))%N then Some (1%nat, 128, 191)%N
  else if (b =? 240)%N then Some (2%nat, 144, 191)%N
  else if ((241 <=? b) && (b <=? 243))%N then Some (2%nat, 128, 191)%N
  else if (b =? 244)%N then Some (2%nat, 128, 143)%N
  else None.

(** [Buffer.toString()]: a text is the bytes of its UTF-8 encoding, and bytes that are no
    character give U+FFFD, one for each longest part that a character can begin with.
    [open] is such a part, with the number of the bytes after its next one, and the bounds
    of that. *)
Fixpoint decode_from (open : option (string * nat * N * N)) (data : string) : string :=
  match data with
  | EmptyString => match open with None => "" | Some _ => replacement end
  | String c data =>
      let b := N_of_ascii c in
      let fresh :=
        if (b <? 128)%N then String c (decode_from None data)
        else match lead_byte b with
             | Some (n, lo, hi) => decode_from (Some (String c "", n, lo, hi)) data
             | None => replacement ++ decode_from None data
             end in
      match open with
      | None => fresh
      | Some (part, n, lo, hi) =>
          if ((lo <=? b) && (b <=? hi))%N then
            let part := part ++ String c "" in
            match n with
            | O => part ++ decode_from None data
            | S n => decode_from (Some (part, n, 128, 191)%N) data
            end
          else replacement ++ fresh
      end
  end.

Definition decode (data : string) : string := decode_from None data.

(** A chunk of bytes is decoded by itself. *)
Definition on_data (buffer data : string) : list string * string :=
  let buffer := buffer ++ decode data in take_lines (String.length buffer) buffer.

(** The lines of a connection that receives these chunks. *)
Fixpoint connection_lines (buffer : string) (chunks : list string) : list string * string :=
  match chunks with
  | [] => ([], buffer)
  | data :: chunks =>
      let '(lines, buffer) := on_data buffer data in
      let '(more, buffer) := connection_lines buffer chunks in
      ((lines ++ more)%list, buffer)
  end.

(** [start()], before it listens. *)
Definition start_profile (opts : McpServerOptions) (s : server) : server :=
  let t := tabs (memory s) in
  let own := if opt_truthy (defaultChatId opts) then id <$> getChatProfile t (default "" (defaultChatId opts)) else None in
  put_profile s (match own with Some p => Some p | None => id <$> getDefaultProfile t end).

(** [cleanupStaleSockets]: the files of the directory that stay. *)
Definition cleanupStaleSockets (files : list string) : list string :=
  List.filter (λ f, negb (ends_with "-memory.sock" f)) files.
