(* ===== verification/McpRuns.v ===== *)
(** * What holds of every request to the MCP server

    Calls that conform to the published schemas keep the tables in order and are answered;
    a request changes rows of its own profile alone, and the searches see no others; the
    lines of a connection are those that were sent, however the text is cut; and which
    line stops the service. *)

From Stdlib Require Import Ascii.
From S2P Require Import Prelude JsMap JsString JsNumber HostFs AgentSessions Profiles Identity.
From S2P Require Import IdentityOps Json McpTools Scoring MemoryDb MemoryInv MemoryOps Consolidation.
From S2P Require Import ConsolidationRuns Reflection Memory MemoryContext Skills SkillOps Registry McpServer.
Local Open Scope list_scope.
Local Open Scope string_scope.

(** ** The tables after a call *)

Record server_ok (skillsDir : path) (s : server) : Prop := {
  so_memory : memory_ok (memory s);
  so_identity : identity_ok (identity_view s);
  so_skills st : skillStore s = Some st → installed_ok skillsDir st }.

(** The identity tables under other memories. *)
Lemma identity_tables_ok db t : identity_ok db → profiles_ok t → personality t = personality (tables db) →
  identity_ok (IdentityDb t (user_identity db) (user_personality db) (Identity.state db)).
Proof. intros [] Ht E. split; cbn; rewrite ?E; auto. Qed.

Section Sound.
Context (skillsDir : path).

(** The call keeps the tables in order and the model does not stop. *)
Definition sound {A} (m : call A) : Prop :=
  ∀ s, server_ok skillsDir s → server_ok skillsDir (m s).1 ∧ (m s).2 ≠ Mistyped.

Lemma sound_done {A} (a : A) : sound (done a).
Proof. by intros s. Qed.

Lemma sound_throw {A} msg : sound (A := A) (throw msg).
Proof. by intros s. Qed.

Lemma sound_bind {A B} (m : call A) (f : A → call B) : sound m → (∀ a, sound (f a)) → sound (bind m f).
Proof.
  intros Hm Hf s Hs. unfold bind. destruct (Hm s Hs) as [Hok Hn]. destruct (m s) as [s' [a|msg|]]; [|done..].
  by apply Hf.
Qed.

Lemma sound_read {A} (f : server → A) : sound (read f).
Proof. by intros s. Qed.

Lemma sound_of_result {A} (r : result A) : sound (of_result r).
Proof. by destruct r; intros s. Qed.

Lemma sound_on_memory {A} (f : memory_db → result (A * memory_db)) :
  (∀ db a db', memory_ok db → f db = Ok (a, db') → memory_ok db' ∧ personality (tabs db') = personality (tabs db)) →
  sound (on_memory f).
Proof.
  intros Hf s [H1 H2 H3]. unfold on_memory. destruct (f _) as [[a db']|msg] eqn:E; [|done].
  destruct (Hf _ _ _ H1 E) as [Hok Hp]. split; [|done]. split; [done| |done].
  apply (identity_tables_ok (identity_view s)); [done|apply Hok|done].
Qed.

Lemma sound_on_identity {A} (f : identity_db → result (A * identity_db)) :
  (∀ db a db', identity_ok db → f db = Ok (a, db') → identity_ok db' ∧
     ∃ l, tables db' = tables (with_personality db l)) →
  sound (on_identity f).
Proof.
  intros Hf s [H1 H2 H3]. unfold on_identity. destruct (f _) as [[a db']|msg] eqn:E; [|done].
  destruct (Hf _ _ _ H2 E) as [Hok [l Hl]]. split; [|done]. split; [| |done].
  - cbn [fst memory put_identity]. pose proof (io_tables _ Hok) as Ht. rewrite Hl in Ht |- *.
    assert (Hc : calm (memory s) (with_tabs (memory s) (tables (with_personality (identity_view s) l))))
      by (by apply same_tables_calm). exact (proj1 Hc).
  - by destruct db'.
Qed.

Lemma sound_on_skills {A} (f : skill_store → skill_store * result A) :
  (∀ st, installed_ok skillsDir st → installed_ok skillsDir (f st).1) → sound (on_skills f).
Proof.
  intros Hf s Hs. unfold on_skills. destruct (skillStore s) as [st|] eqn:Es; [|done].
  pose proof (Hf st (so_skills _ _ Hs st Es)) as Hok. destruct (f st) as [st' r]. apply sound_of_result.
  split; [apply Hs..|]. by intros ? [= <-].
Qed.

Lemma sound_on_registry {A} missing (f : registry_client → registry_client * result A) : sound (on_registry missing f).
Proof.
  intros s Hs. unfold on_registry. destruct (registryClient s) as [c|] eqn:Es; [|done].
  destruct (f c) as [c' r]. apply sound_of_result. by destruct Hs.
Qed.

Lemma sound_if {A} (b : bool) (m n : call A) : sound m → sound n → sound (if b then m else n).
Proof. by destruct b. Qed.

(** ** Arguments *)

(** The member, when present, is a string; a number. *)
Definition string_at (args : json) (key : string) : Prop := ∀ v, prop args key = Some v → ∃ s, v = Str s.
Definition number_at (args : json) (key : string) : Prop :=
  ∀ v, prop args key = Some v → ∃ f, v = Num f ∧ not_a_number f = false.

Lemma sound_required_string args key : string_at args key → sound (required_string args key).
Proof.
  intros H. unfold required_string. destruct (truthy _) eqn:Et; [|apply sound_throw].
  destruct (prop args key) as [v|] eqn:E; [|done]. destruct (H v E) as [s ->]. apply sound_done.
Qed.

Lemma sound_one_of what valid v : sound (one_of what valid v).
Proof. unfold one_of. repeat case_match; apply sound_done || apply sound_throw. Qed.

Lemma sound_required_one_of args key valid : sound (required_one_of args key valid).
Proof. apply sound_if; [apply sound_one_of|apply sound_throw]. Qed.

Lemma sound_optional_one_of args key valid : sound (optional_one_of args key valid).
Proof. apply sound_if; [apply sound_bind; [apply sound_one_of|intros ?; apply sound_done]|apply sound_done]. Qed.

Lemma sound_clampLimit args key d max : number_at args key → sound (clampLimit (prop args key) d max).
Proof.
  intros H. unfold clampLimit. destruct (prop args key) as [v|] eqn:E; [|apply sound_done].
  destruct (H v E) as (f & -> & Hf). destruct (clamp_number max f Hf) as [n ->]. apply sound_done.
Qed.

Lemma sound_optional_integer v : sound (optional_integer v).
Proof.
  unfold optional_integer. repeat case_match; try apply sound_done.
  apply sound_bind; [apply sound_of_result|intros ?; apply sound_done].
Qed.

Lemma sound_getProfileId : sound getProfileId.
Proof. intros s Hs. unfold getProfileId. by destruct (profileId s). Qed.

Lemma sound_parse_uuid read_uuid t : sound (parse_uuid read_uuid t).
Proof. unfold parse_uuid. case_match; apply sound_done || apply sound_throw. Qed.
End Sound.

Create HintDb sound_db.
#[export] Hint Resolve sound_done sound_throw sound_read sound_of_result sound_on_registry sound_required_one_of
  sound_optional_one_of sound_optional_integer sound_getProfileId sound_parse_uuid : sound_db.

(** A member that the schema of the tool declares. *)
Lemma conforms_get def args k p v : conforms def args = true → map_get (t_properties def) k = Some p →
  prop args k = Some v → admits p v = true.
Proof. intros Hc Hk. apply (conforms_member def); [done|]. by apply map_get_Some_elem. Qed.

Lemma conforms_string def args k d e i : conforms def args = true →
  map_get (t_properties def) k = Some (Property (Some "string") d e i) → string_at args k.
Proof. intros Hc Hk v Hv. eapply admits_string, conforms_get; eauto. Qed.

Lemma conforms_number def args k d e i : conforms def args = true →
  map_get (t_properties def) k = Some (Property (Some "number") d e i) → number_at args k.
Proof. intros Hc Hk v Hv. eapply admits_number, conforms_get; eauto. Qed.

Lemma sound_read_bind {A B} skillsDir (f : server → A) (P : A → Prop) (k : A → call B) :
  (∀ s, server_ok skillsDir s → P (f s)) → (∀ a, P a → sound skillsDir (k a)) → sound skillsDir (bind (read f) k).
Proof. intros Hf Hk s Hs. by apply Hk, Hs; apply Hf. Qed.

Lemma sound_registry_bind {A B} skillsDir missing f (P : A → Prop) (k : A → call B) :
  (∀ c c' a, f c = (c', Ok a) → P a) → (∀ a, P a → sound skillsDir (k a)) →
  sound skillsDir (bind (on_registry missing f) k).
Proof.
  intros Hf Hk s Hs. pose proof (sound_on_registry skillsDir missing f s Hs) as [H1 H2].
  unfold bind. unfold on_registry in *. destruct (registryClient s) as [c|]; [|done].
  destruct (f c) as [c' [a|msg]] eqn:E; [|done]. by eapply Hk; [eapply Hf|].
Qed.

(** ** The tools *)

(** The calls of a tool: sequences, and cases on what was read. *)
Ltac sound_step :=
  first
    [ solve [eauto with sound_db]
    | apply sound_bind; [|intros ?]
    | apply sound_if
    | match goal with |- sound _ (match ?x with _ => _ end) => destruct x end ].

Lemma store_semantic_ok real db now o v db' sid : memory_ok db → storeSemanticMemory real db now o v = Some (db', sid) →
  memory_ok db' ∧ personality (tabs db') = personality (tabs db).
Proof.
  intros Hok E. unfold storeSemanticMemory in E. split.
  - apply (insert_semantic_step real _ _ _ _ _ _ Hok) in E as [[? _] _]. done.
  - unfold insert_semantic in E. repeat (case_match; [|done]). by injection E as <- _.
Qed.

Lemma assign_chat_ok db now chat pid old t : memory_ok db → assignChat (tabs db) now chat pid = Ok (old, t) →
  memory_ok (with_tabs db t) ∧ personality t = personality (tabs db).
Proof.
  intros Hok E. destruct (profile_op_calm 0 db (Assign now chat pid) Hok) as [Hm _]. cbn [apply_op] in Hm.
  rewrite E in Hm. split; [done|]. unfold assignChat in E. repeat (case_match; [|done]). by injection E as _ <-.
Qed.

(** Operations on the user's rows and the proposals leave the tables alone. *)
Lemma same_tables db db' : tables db' = tables db → ∃ l, tables db' = tables (with_personality db l).
Proof. intros ->. exists (personality (tables db)). by destruct db as [[]]. Qed.

Lemma observe_agent_tables real db now pid dim content e db' :
  observeAgentPersonality real db now pid dim content = Ok (e, db') → ∃ l, tables db' = tables (with_personality db l).
Proof. unfold observeAgentPersonality. repeat case_match; intros [=]; subst; eauto. Qed.

Lemma observe_user_tables real db now dim content source e db' :
  observeUserPersonality real db now dim content source = Ok (e, db') → ∃ l, tables db' = tables (with_personality db l).
Proof. unfold observeUserPersonality. repeat case_match; intros [=]; subst; by apply same_tables. Qed.

(** The fuel of a trace is enough for every entry. *)
Lemma trace_fuel_enough db mid : memory_ok db → ∃ l, traceMetaToSources (trace_fuel (tabs db)) (tabs db) mid = Some l.
Proof.
  intros Hok. destruct (meta_by_id (tabs db) mid) as [m|] eqn:E.
  - apply meta_by_id_Some in E as [Hm <-].
    destruct (trace_from (tabs db) (mo_tabs _ Hok) (mo_links _ Hok) (trace_fuel (tabs db)) m Hm) as (l & El & _); [|by exists l].
    unfold trace_fuel. apply list_elem_of_In in Hm. revert Hm. clear. induction (meta (tabs db)) as [|x l IH]; [done|].
    cbn [In map fold_right]. intros [->|Hm]; [lia|]. specialize (IH Hm). lia.
  - exists []. apply trace_unknown. by apply meta_by_id_None.
Qed.

Section Calls.
Context (real : spec_float → spec_float) `{!RealLaws real} (index : VectorIndex) (exp : spec_float → spec_float).
Context (mem : MemoryManagerOptions) (embed : string → result (list spec_float)).
Context (show : spec_float → string) (parse_json : string → option json).
Context (uuid_text : uuid → string) (read_uuid : string → option uuid).
Context (ropts : RegistryClientOptions) (fetch : string → fetched) (depth : nat) (sha256 : string → string).
Context (parse_index : string → result (list RegistrySkillEntry)) (parse_items : string → result (list listed_item)).
Context (skillsDir : path) (opts : McpServerOptions) (now : Z) (random : string).
(** The names in a listing of a directory are plain and distinct. *)
Context (listings_plain : ∀ body items, parse_items body = Ok items →
  NoDup (map it_name items) ∧ Forall entry_name (map it_name items)).

Abbreviation case_of args := (map_get (tool_cases real index exp mem embed show parse_json uuid_text read_uuid ropts fetch
  depth sha256 parse_index parse_items skillsDir opts now random args)).
Abbreviation request_of := (handleRequest real index exp mem embed show parse_json uuid_text read_uuid ropts fetch
  depth sha256 parse_index parse_items skillsDir opts now random).
Abbreviation call_of := (handleToolCall real index exp mem embed show parse_json uuid_text read_uuid ropts fetch
  depth sha256 parse_index parse_items skillsDir opts now random).
Abbreviation sound := (sound skillsDir).

Lemma sound_store_semantic args : string_at args "content" →
  sound (toolStoreSemantic real embed uuid_text now args).
Proof.
  intros Hc. unfold toolStoreSemantic. apply sound_bind; [by apply sound_required_string|intros content].
  apply sound_if; [apply sound_throw|]. repeat sound_step. apply sound_on_memory. intros db sid db' Hok E.
  destruct (storeSemanticMemory _ _ _ _ _) as [[db1 sid1]|] eqn:Es; [|done]. injection E as <- <-.
  by eapply store_semantic_ok.
Qed.

Lemma sound_trace args : string_at args "meta_id" → sound (toolTraceToSource uuid_text read_uuid args).
Proof.
  intros Hc. unfold toolTraceToSource. apply sound_bind; [by apply sound_required_string|intros metaId].
  apply sound_bind; [eauto with sound_db|intros mid]. apply (sound_read_bind _ _ (λ l, l ≠ None)).
  - intros s Hs. destruct (trace_fuel_enough (memory s) mid (so_memory _ _ Hs)) as [l ->]. done.
  - intros [l|] Hl; [apply sound_done|done].
Qed.

Lemma sound_observe_personality args : string_at args "observation" → sound (toolObservePersonality real now args).
Proof.
  intros Hc. unfold toolObservePersonality. apply sound_bind; [eauto with sound_db|intros dim].
  apply sound_bind; [by apply sound_required_string|intros observation]. repeat sound_step.
  apply sound_on_identity. intros db e db' Hok E.
  split; [by eapply observeAgent_ok|by eapply observe_agent_tables].
Qed.

Lemma sound_observe_user args : string_at args "observation" → string_at args "source" →
  sound (toolObserveUser real now args).
Proof.
  intros Hc Hs. unfold toolObserveUser. apply sound_bind; [eauto with sound_db|intros dim].
  apply sound_bind; [by apply sound_required_string|intros observation].
  assert (∃ source, nullish (prop args "source") (Str "inferred") = Str source) as [source ->].
  { destruct (prop args "source") as [v|] eqn:E; [|by eexists]. destruct (Hs v E) as [x ->]. by eexists. }
  repeat sound_step. apply sound_on_identity. intros db e db' Hok E.
  split; [by eapply observeUser_ok|by eapply observe_user_tables].
Qed.

Lemma sound_one_of_bind {B} args key valid (k : string → call B) : (∀ x, x ∈ valid → sound (k x)) →
  sound (bind (required_one_of args key valid) k).
Proof.
  intros Hk s Hs. unfold bind, required_one_of, one_of. destruct (truthy _); [|done].
  destruct (prop args key) as [[| | |x| |]|]; try done. case_bool_decide; [by apply Hk|done].
Qed.

Lemma sound_propose args : string_at args "new_value" → string_at args "reason" →
  sound (toolProposeIdentityUpdate now random args).
Proof.
  intros Hv Hr. unfold toolProposeIdentityUpdate. apply sound_one_of_bind. intros field Hf.
  apply sound_bind; [by apply sound_required_string|intros newValue].
  apply sound_bind; [by apply sound_required_string|intros reason]. repeat sound_step.
  apply sound_on_identity. intros db e db' Hok [= <- <-].
  split; [by apply propose_ok|by apply same_tables].
Qed.

Lemma sound_update_user args : string_at args "value" → sound (toolUpdateUserIdentity now args).
Proof.
  intros Hv. unfold toolUpdateUserIdentity. apply sound_bind; [eauto with sound_db|intros field].
  apply sound_bind; [by apply sound_required_string|intros value]. repeat sound_step.
  apply sound_on_identity. intros db e db' Hok E.
  assert (db' = (updateUserIdentity db now (one_field field value)).2) as -> by (by injection E as ->).
  split; [by apply updateUser_ok|]. apply same_tables. unfold updateUserIdentity. by case_match.
Qed.

Lemma sound_switch args : string_at args "profile_name" → sound (toolSwitchChatProfile opts now args).
Proof.
  intros Hn. unfold toolSwitchChatProfile. apply sound_bind; [by apply sound_required_string|intros profileName].
  repeat sound_step.
  - apply sound_on_memory. intros db old db' Hok E. destruct (assignChat _ _ _ _) as [[old' t]|] eqn:Ea; [|done].
    injection E as <- <-. by eapply assign_chat_ok.
  - intros s [H1 H2 H3]. split; [|done]. by split.
Qed.

Lemma sound_install args : string_at args "name" →
  sound (toolInstallSkill ropts fetch depth sha256 parse_index parse_items skillsDir now args).
Proof.
  intros Hn. unfold toolInstallSkill. apply sound_bind; [eauto with sound_db|intros both].
  apply sound_if; [apply sound_throw|]. apply sound_bind; [by apply sound_required_string|intros n].
  apply sound_bind; [apply sound_on_registry|intros [entry|]]; [|apply sound_throw].
  apply (sound_registry_bind _ _ _ tree_ok).
  { intros c c' es E. by apply download_spec in E as [Hok _]. }
  intros es Hok. apply sound_bind; [|intros ?; apply sound_done]. apply sound_on_skills. intros st Hst.
  by apply install_ok.
Qed.

Lemma sound_uninstall args : string_at args "name" → sound (toolUninstallSkill skillsDir args).
Proof.
  intros Hn. unfold toolUninstallSkill. apply sound_bind; [by apply sound_on_skills|intros _].
  apply sound_bind; [by apply sound_required_string|intros n]. repeat sound_step. apply sound_on_skills.
  intros st Hst. by apply remove_ok.
Qed.

Lemma sound_google args : string_at args "command" → sound (toolGoogleWorkspace parse_json opts args).
Proof.
  intros Hc. unfold toolGoogleWorkspace. destruct (channelClient opts); [|apply sound_done].
  apply sound_if; [apply sound_done|]. apply sound_bind; [by apply sound_required_string|intros command].
  repeat sound_step.
Qed.

Lemma sound_recall args : string_at args "chat_id" → string_at args "session_id" → number_at args "limit" →
  sound (toolRecallConversation mem read_uuid opts args).
Proof.
  intros Hc Hs Hl. unfold toolRecallConversation. apply sound_bind; [by apply sound_clampLimit|intros limit].
  destruct (truthy (prop args "session_id")) eqn:Et.
  - destruct (prop args "session_id") as [v|] eqn:E; [|done]. destruct (Hs v E) as [x ->]. repeat sound_step.
  - assert (∃ v, nullish (prop args "chat_id") (or_null Str (defaultChatId opts)) = v ∧ (v = Null ∨ ∃ x, v = Str x)) as (v & -> & Hv).
    { eexists. split; [done|]. destruct (prop args "chat_id") as [v|] eqn:E.
      - destruct (Hc v E) as [x ->]. right. by exists x.
      - unfold or_null. cbn. destruct (defaultChatId opts); eauto. }
    destruct Hv as [->|[x ->]]; cbn zeta iota; [apply sound_throw|]. repeat sound_step.
Qed.

(** Every published tool is dispatched, and conforming arguments keep it sound. *)
Ltac member_tac H := first [eapply conforms_string; [exact H|reflexivity] | eapply conforms_number; [exact H|reflexivity]].

Lemma tool_sound def args : def ∈ TOOL_DEFINITIONS → conforms def args = true →
  ∃ tool, case_of args (t_name def) = Some tool ∧ sound tool.
Proof.
  intros Hd Hc. unfold TOOL_DEFINITIONS in Hd. rewrite !elem_of_cons in Hd.
  repeat (destruct Hd as [->|Hd]); try (by apply not_elem_of_nil in Hd); (eexists; split; [reflexivity|]).
  - unfold toolSearchSemantic. apply sound_bind; [apply sound_required_string; member_tac Hc|intros query].
    apply sound_bind; [eauto with sound_db|intros ty]. apply sound_bind; [apply sound_clampLimit; member_tac Hc|intros limit].
    repeat sound_step.
  - unfold toolSearchExternal. apply sound_bind; [apply sound_required_string; member_tac Hc|intros query].
    apply sound_bind; [eauto with sound_db|intros ty]. apply sound_bind; [apply sound_clampLimit; member_tac Hc|intros limit].
    repeat sound_step.
  - apply sound_recall; member_tac Hc.
  - apply sound_store_semantic; member_tac Hc.
  - unfold toolGetMemoryStats. repeat sound_step.
  - unfold toolExpandMemory. apply sound_bind; [apply sound_required_string; member_tac Hc|intros memoryId]. repeat sound_step.
  - unfold toolSearchMeta. apply sound_bind; [apply sound_required_string; member_tac Hc|intros query].
    apply sound_bind; [eauto with sound_db|intros ty]. apply sound_bind; [apply sound_clampLimit; member_tac Hc|intros limit].
    repeat sound_step.
  - unfold toolExpandMeta. apply sound_bind; [apply sound_required_string; member_tac Hc|intros metaId]. repeat sound_step.
  - apply sound_trace; member_tac Hc.
  - unfold toolGetIdentity. repeat sound_step.
  - apply sound_observe_personality; member_tac Hc.
  - apply sound_observe_user; member_tac Hc.
  - apply sound_propose; member_tac Hc.
  - apply sound_update_user; member_tac Hc.
  - unfold toolListProfiles. repeat sound_step.
  - unfold toolGetCurrentProfile. repeat sound_step.
  - apply sound_switch; member_tac Hc.
  - apply sound_install; member_tac Hc.
  - apply sound_uninstall; member_tac Hc.
  - unfold toolListSkills. apply sound_bind; [by apply sound_on_skills|intros installed].
    apply sound_bind; [|intros ?; apply sound_done]. intros s Hs. unfold registry_index.
    destruct (registryClient s) as [c|]; [|done]. destruct (getIndex _ _ _ _ _) as [c' [i|msg]]; by split; [destruct Hs|].
  - unfold toolSearchSkills. apply sound_bind; [eauto with sound_db|intros _].
    apply sound_bind; [apply sound_required_string; member_tac Hc|intros query]. repeat sound_step.
  - unfold toolUpdateConfig. repeat sound_step.
  - unfold toolGetAuthUrl. apply sound_bind; [apply sound_required_string; member_tac Hc|intros service]. repeat sound_step.
  - unfold toolGetSystemStatus. repeat sound_step.
  - apply sound_google; member_tac Hc.
Qed.

Definition call_params (name : string) (args : json) : json := Obj [("name", Str name); ("arguments", args)].

(** A call of a tool, as a client writes it. *)
Definition tool_call (id : json) (name : string) (args : json) : json :=
  Obj [("jsonrpc", Str "2.0"); ("id", id); ("method", Str "tools/call");
       ("params", call_params name args)].

Lemma tool_call_dispatched s i name args : request_of (tool_call i name args) s =
  let '(s, body) := call_of (call_params name args) s in
  (s, match body with Some b => Reply (Response i b) | None => Unknown end).
Proof. destruct i; reflexivity. Qed.

(** C9: a call of a published tool whose arguments conform to the tool's schema is answered,
    under its id, with a result of that tool (which may be an error of the tool): no
    argument is used at a type it does not have, no trace runs out of its levels, and the
    memories, the identity and the installed skills stay in order. *)
Theorem schema_sound s def args i : server_ok skillsDir s → def ∈ TOOL_DEFINITIONS → conforms def args = true →
  ∃ s' v, request_of (tool_call i (t_name def) args) s = (s', Reply (Response i (Result v))) ∧ server_ok skillsDir s'.
Proof.
  intros Hs Hd Hc. destruct (tool_sound def args Hd Hc) as (tool & Et & Ht).
  destruct (Ht s Hs) as [Hs' Hn]. rewrite tool_call_dispatched.
  assert (Hp : str_truthy (t_name def) = true).
  { clear -Hd. unfold TOOL_DEFINITIONS in Hd. rewrite !elem_of_cons in Hd.
    repeat (destruct Hd as [->|Hd]; [reflexivity|]). by apply not_elem_of_nil in Hd. }
  unfold handleToolCall. assert (nullish (prop (call_params (t_name def) args) "arguments") (Obj []) = args) as ->
    by (by destruct args).
  change (prop (call_params (t_name def) args) "name") with (Some (Str (t_name def))). cbn [truthy]. rewrite Hp, Et.
  cbn [negb]. destruct (tool s) as [s1 [v|msg|]]; cbn [tool_body]; [eauto..|done].
Qed.
End Calls.

(** ** Witness *)

Definition example_server : server := Server example_memory [] [] [] None None (Some 0%nat).

Lemma example_server_ok skillsDir : server_ok skillsDir example_server.
Proof.
  pose proof example_memory_ok as Hm. split; [done| |done]. split; try done; try (by intros ? ?%not_elem_of_nil).
  - apply Hm.
  - cbn. lia.
  - apply NoDup_nil_2.
  - apply map_wf_nil.
Qed.

Definition example_args : json := Obj [("content", Str "likes tea"); ("type", Str "preference"); ("importance", Num (double 2))].

Definition example_request (r : json) (s : server) : server * reply :=
  handleRequest (λ x, x) (Indexing (λ _ _, double 0) (λ _ l, seq 0 (length l))) (λ _, double 1)
    (ManagerOptions 20 20 5 10 (hundredths 50) example_weights 3 DEFAULT_META_INJECTION) (λ _, Ok example_vector)
    (λ _, "0") (λ _, None) (λ n, "u") (λ _, None) example_options example_fetch 3 (λ s, s) (λ _, Ok [])
    (λ _, Ok []) [] (McpOptions "memory.sock" (Some "c") true None) 30 "r" r s.

#[local] Instance server_real : RealLaws (λ x, x).
Proof. by intros x. Qed.

Lemma schema_sound_witness :
  conforms tool_store_semantic example_args = true ∧
  ∃ s' v, example_request (tool_call (int 1) "store_semantic" example_args) example_server =
    (s', Reply (Response (int 1) (Result v))) ∧ server_ok [] s'.
Proof.
  split; [vm_compute; reflexivity|].
  apply (schema_sound (λ x, x)) with (def := tool_store_semantic).
  - intros body items [= <-]. split; constructor.
  - apply example_server_ok.
  - unfold TOOL_DEFINITIONS. apply list_elem_of_In. cbn [In]. tauto.
  - vm_compute. reflexivity.
Defined.
