(* ===== verification/McpScope.v ===== *)
(** * What a request to the MCP server sees and changes

    The searches and the identity see the rows of the server's profile alone; no request
    changes the rows of another profile, nor the messages and sessions. *)

From S2P Require Import Prelude JsMap JsString JsNumber HostFs AgentSessions Profiles Identity.
From S2P Require Import IdentityOps ChannelCommands Json McpTools Scoring MemoryDb MemoryInv MemoryOps.
From S2P Require Import Consolidation ConsolidationRuns Reflection Memory MemoryContext Skills SkillOps Registry.
From S2P Require Import McpServer McpRuns.
Local Open Scope list_scope.
Local Open Scope string_scope.

(** ** Reads *)

(** Two states that agree on what belongs to the profile of the server and to the user: of
    the rows that a scan of an index visits for a vector, those of the profile are the
    same and in the same order. *)
Record same_for (ix : VectorIndex) (pid : uuid) (s s' : server) : Prop := {
  sf_profile : profileId s = Some pid ∧ profileId s' = Some pid;
  sf_semantic v :
    filter (λ r, s_profile r = pid) (scanned ix (λ r, embedding (s_data r)) v (semantic (tabs (memory s)))) =
    filter (λ r, s_profile r = pid) (scanned ix (λ r, embedding (s_data r)) v (semantic (tabs (memory s'))));
  sf_meta v :
    filter (λ r, m_profile r = pid) (scanned ix (λ r, m_embedding (m_data r)) v (meta (tabs (memory s)))) =
    filter (λ r, m_profile r = pid) (scanned ix (λ r, m_embedding (m_data r)) v (meta (tabs (memory s'))));
  sf_external v :
    filter (λ r, e_profile r = pid) (scanned ix e_embedding v (external (tabs (memory s)))) =
    filter (λ r, e_profile r = pid) (scanned ix e_embedding v (external (tabs (memory s'))));
  sf_identity : getAgentIdentity (identity_view s) pid = getAgentIdentity (identity_view s') pid;
  sf_personality : filter (λ r, p_profile r = pid) (personality (tabs (memory s))) =
    filter (λ r, p_profile r = pid) (personality (tabs (memory s')));
  sf_users : users s = users s';
  sf_traits : traits s = traits s' }.

(** The call gives the same from states that agree, and does not change them. *)
Definition scoped {A} (ix : VectorIndex) (pid : uuid) (m : call A) : Prop :=
  ∀ s s', same_for ix pid s s' → (m s).1 = s ∧ (m s').1 = s' ∧ (m s).2 = (m s').2.

Lemma scoped_done {A} ix pid (a : A) : scoped ix pid (done a).
Proof. by intros s s'. Qed.

Lemma scoped_throw {A} ix pid msg : scoped (A := A) ix pid (throw msg).
Proof. by intros s s'. Qed.

Lemma scoped_mistyped {A} ix pid : scoped (A := A) ix pid mistyped.
Proof. by intros s s'. Qed.

Lemma scoped_bind {A B} ix pid (m : call A) (f : A → call B) : scoped ix pid m → (∀ a, scoped ix pid (f a)) → scoped ix pid (bind m f).
Proof.
  intros Hm Hf s s' Hs. unfold bind. destruct (Hm s s' Hs) as (E1 & E2 & E3).
  destruct (m s) as [s1 o], (m s') as [s2 o']. cbn in *. subst. destruct o' as [a|msg|]; [by apply Hf|done..].
Qed.

Lemma scoped_of_result {A} ix pid (r : result A) : scoped ix pid (of_result r).
Proof. by destruct r; intros s s'. Qed.

(** A read may see more, as long as what is made of it is the same. *)
Lemma scoped_read {A B} ix pid (f : server → A) (g : A → B) : (∀ s s', same_for ix pid s s' → g (f s) = g (f s')) →
  scoped ix pid (bind (read f) (λ a, done (g a))).
Proof. intros H s s' Hs. cbn. split; [done|]. split; [done|]. by rewrite (H _ _ Hs). Qed.

Lemma scoped_getProfileId {B} ix pid (f : uuid → call B) : scoped ix pid (f pid) → scoped ix pid (bind getProfileId f).
Proof.
  intros H s s' Hs. destruct (sf_profile _ _ _ _ Hs) as [E1 E2]. unfold bind, getProfileId. rewrite E1, E2. by apply H.
Qed.

Lemma scoped_if {A} ix pid (b : bool) (m n : call A) : scoped ix pid m → scoped ix pid n → scoped ix pid (if b then m else n).
Proof. by destruct b. Qed.

Lemma scoped_one_of ix pid what valid v : scoped ix pid (one_of what valid v).
Proof. unfold one_of. repeat case_match; apply scoped_done || apply scoped_throw. Qed.

Lemma scoped_required_string ix pid args key : scoped ix pid (required_string args key).
Proof. unfold required_string. repeat case_match; apply scoped_done || apply scoped_throw || apply scoped_mistyped. Qed.

Lemma scoped_optional_one_of ix pid args key valid : scoped ix pid (optional_one_of args key valid).
Proof. apply scoped_if; [apply scoped_bind; [apply scoped_one_of|intros ?; apply scoped_done]|apply scoped_done]. Qed.

Lemma scoped_clampLimit ix pid v d max : scoped ix pid (clampLimit v d max).
Proof. unfold clampLimit. repeat case_match; apply scoped_done || apply scoped_mistyped. Qed.

Lemma scoped_optional_integer ix pid v : scoped ix pid (optional_integer v).
Proof.
  unfold optional_integer. repeat case_match; try apply scoped_done.
  apply scoped_bind; [apply scoped_of_result|intros ?; apply scoped_done].
Qed.

Create HintDb scope_db.
#[export] Hint Resolve scoped_done scoped_throw scoped_of_result scoped_required_string scoped_optional_one_of
  scoped_clampLimit scoped_optional_integer : scope_db.

(** A condition that begins with the profile sees the rows of the profile. *)
Lemma filter_within {A} (P Q : A → Prop) `{!∀ x, Decision (P x), !∀ x, Decision (Q x)} (l l' : list A) :
  filter P l = filter P l' → filter (λ x, P x ∧ Q x) l = filter (λ x, P x ∧ Q x) l'.
Proof.
  intros E. assert (Hk : ∀ k : list A, filter (λ x, P x ∧ Q x) k = filter Q (filter P k)).
  { intros k. rewrite list_filter_filter. apply list_filter_iff. tauto. }
  by rewrite !Hk, E.
Qed.

Section Scope.
Context (real : spec_float → spec_float) `{!RealLaws real} (index : VectorIndex) (exp : spec_float → spec_float).
Context (mem : MemoryManagerOptions) (embed : string → result (list spec_float)).
Context (show : spec_float → string) (parse_json : string → option json).
Context (uuid_text : uuid → string) (read_uuid : string → option uuid).
Context (ropts : RegistryClientOptions) (fetch : string → fetched) (depth : nat) (sha256 : string → string).
Context (parse_index : string → result (list RegistrySkillEntry)) (parse_items : string → result (list listed_item)).
Context (skillsDir : path) (opts : McpServerOptions) (now : Z) (random : string).

Abbreviation case_of args := (map_get (tool_cases real index exp mem embed show parse_json uuid_text read_uuid ropts fetch
  depth sha256 parse_index parse_items skillsDir opts now random args)).
Abbreviation call_of := (handleToolCall real index exp mem embed show parse_json uuid_text read_uuid ropts fetch
  depth sha256 parse_index parse_items skillsDir opts now random).

Lemma search_semantic_scoped pid args : scoped index pid (toolSearchSemantic index exp mem embed uuid_text now args).
Proof.
  unfold toolSearchSemantic. do 3 (apply scoped_bind; [eauto with scope_db|intros ?]). apply scoped_getProfileId.
  apply scoped_bind; [eauto with scope_db|intros v]. apply scoped_read. intros s s' Hs. unfold querySemanticMemory.
  unfold nearest.
  do 5 f_equal. apply filter_within, Hs.
Qed.

Lemma search_external_scoped pid args : scoped index pid (toolSearchExternal index mem embed args).
Proof.
  unfold toolSearchExternal. do 3 (apply scoped_bind; [eauto with scope_db|intros ?]). apply scoped_getProfileId.
  apply scoped_bind; [eauto with scope_db|intros v]. apply scoped_read. intros s s' Hs. unfold queryExternalMemory.
  unfold nearest.
  do 5 f_equal. apply filter_within, Hs.
Qed.

Lemma search_meta_scoped pid args : scoped index pid (toolSearchMeta index exp mem embed uuid_text now args).
Proof.
  unfold toolSearchMeta. do 3 (apply scoped_bind; [eauto with scope_db|intros ?]). apply scoped_getProfileId.
  do 3 (apply scoped_bind; [eauto with scope_db|intros ?]). apply scoped_read. intros s s' Hs. unfold queryMetaMemory.
  unfold nearest.
  do 5 f_equal. apply filter_within, Hs.
Qed.

Lemma get_identity_scoped pid : scoped index pid toolGetIdentity.
Proof.
  unfold toolGetIdentity. apply scoped_getProfileId, scoped_read. intros s s' Hs.
  unfold getAgentPersonality, getUserPersonality, getUserIdentity. cbn [tables identity_view user_identity user_personality].
  by rewrite (sf_identity _ _ _ _ Hs), (sf_personality _ _ _ _ Hs), (sf_users _ _ _ _ Hs), (sf_traits _ _ _ _ Hs).
Qed.

Definition SCOPED_TOOLS : list string := ["search_semantic"; "search_external"; "search_meta"; "get_identity"].

(** C10: what the searches and the identity tool answer, whatever the arguments, depends on
    rows of the server's profile and of the user alone. The index of vectors is one for
    all profiles, and a search tests the profile on the rows that the index visits: as
    long as the rows of the profile among them are the same, the memories, documents and
    personality of the other profiles make no difference to the answer. *)
Theorem searches_see_own_profile pid s s' n args : same_for index pid s s' → n ∈ SCOPED_TOOLS →
  (call_of (call_params n args) s).2 = (call_of (call_params n args) s').2.
Proof.
  intros Hs Hn.
  assert (∃ tool, case_of (nullish (Some args) (Obj [])) n = Some tool ∧ scoped index pid tool ∧ str_truthy n = true) as (tool & E & Ht & En).
  { unfold SCOPED_TOOLS in Hn. rewrite !elem_of_cons in Hn.
    repeat (destruct Hn as [->|Hn]; [eexists; split; [reflexivity|]; split; [|reflexivity]|]);
      [apply search_semantic_scoped|apply search_external_scoped|apply search_meta_scoped|apply get_identity_scoped|].
    by apply not_elem_of_nil in Hn. }
  unfold handleToolCall. change (prop (call_params n args) "name") with (Some (Str n)).
  change (prop (call_params n args) "arguments") with (Some args). cbn [truthy]. rewrite En, E. cbn [negb].
  destruct (Ht s s' Hs) as (_ & _ & Eo). destruct (tool s), (tool s'). cbn in *. by rewrite Eo.
Qed.

(** ** Writes *)

(** [s'] differs from [s] in rows of the profile [own], rows of the user, proposals, the
    profile of the server's chat, the installed skills and the registry's cache only. *)
Record others_kept (own : option uuid) (s s' : server) : Prop := {
  ok_semantic_of p : own ≠ Some p → filter (λ r, s_profile r = p) (semantic (tabs (memory s'))) =
    filter (λ r, s_profile r = p) (semantic (tabs (memory s)));
  ok_identity_of p : own ≠ Some p → getAgentIdentity (identity_view s') p = getAgentIdentity (identity_view s) p;
  ok_personality_of p : own ≠ Some p → filter (λ r, p_profile r = p) (personality (tabs (memory s'))) =
    filter (λ r, p_profile r = p) (personality (tabs (memory s)));
  ok_chat_of c : defaultChatId opts ≠ Some c → getChatProfile (tabs (memory s')) c = getChatProfile (tabs (memory s)) c;
  ok_tables : meta (tabs (memory s')) = meta (tabs (memory s)) ∧ external (tabs (memory s')) = external (tabs (memory s)) ∧
    profiles (tabs (memory s')) = profiles (tabs (memory s));
  ok_links : summary_messages (tabs (memory s')) = summary_messages (tabs (memory s)) ∧
    summary_parents (tabs (memory s')) = summary_parents (tabs (memory s)) ∧
    meta_sources (tabs (memory s')) = meta_sources (tabs (memory s)) ∧
    meta_parents (tabs (memory s')) = meta_parents (tabs (memory s));
  ok_working : working (memory s') = working (memory s) ∧ sessions (memory s') = sessions (memory s) }.

Lemma others_refl own s : others_kept own s s.
Proof. by split. Qed.

Lemma others_trans own s1 s2 s3 : others_kept own s1 s2 → others_kept own s2 s3 → others_kept own s1 s3.
Proof.
  intros [A1 A2 A3 A4 (A5 & A6 & A7) (A8 & A9 & A10 & A11) (A12 & A13)]
    [B1 B2 B3 B4 (B5 & B6 & B7) (B8 & B9 & B10 & B11) (B12 & B13)].
  split; [intros p Hp; by rewrite B1, A1|intros p Hp; by rewrite B2, A2|intros p Hp; by rewrite B3, A3|
    intros c Hc; by rewrite B4, A4|by rewrite B5, B6, B7|by rewrite B8, B9, B10, B11|by rewrite B12, B13].
Qed.

(** A call of the server of [own]; a steady one leaves it with its profile. *)
Definition confined {A} (own : option uuid) (m : call A) : Prop :=
  ∀ s, profileId s = own → others_kept own s (m s).1.
Definition steady {A} (own : option uuid) (m : call A) : Prop :=
  ∀ s, profileId s = own → others_kept own s (m s).1 ∧ profileId (m s).1 = own.

Lemma steady_confined {A} own (m : call A) : steady own m → confined own m.
Proof. intros H s Hs. by apply H. Qed.

Lemma steady_still {A} own (m : call A) : (∀ s, (m s).1 = s) → steady own m.
Proof. intros H s Hs. rewrite H. split; [apply others_refl|done]. Qed.

Lemma confined_bind {A B} own (m : call A) (f : A → call B) : steady own m → (∀ a, confined own (f a)) → confined own (bind m f).
Proof.
  intros Hm Hf s Hs. unfold bind. destruct (Hm s Hs) as [H1 H2]. destruct (m s) as [s' [a|msg|]]; [|done..].
  eapply others_trans; [done|]. by apply Hf.
Qed.

Lemma confined_getProfileId {B} own (f : uuid → call B) : (∀ p, own = Some p → confined own (f p)) →
  confined own (bind getProfileId f).
Proof.
  intros H s Hs. unfold bind, getProfileId. destruct (profileId s) as [p|] eqn:E; [|apply others_refl].
  apply H; congruence.
Qed.

Lemma confined_if {A} own (b : bool) (m n : call A) : confined own m → confined own n → confined own (if b then m else n).
Proof. by destruct b. Qed.

Lemma still_of_result {A} (r : result A) s : (of_result r s).1 = s.
Proof. by destruct r. Qed.

Lemma steady_done {A} own (a : A) : steady own (done a).
Proof. by apply steady_still. Qed.

Lemma steady_throw {A} own msg : steady (A := A) own (throw msg).
Proof. by apply steady_still. Qed.

Lemma steady_mistyped {A} own : steady (A := A) own mistyped.
Proof. by apply steady_still. Qed.

Lemma steady_read {A} own (f : server → A) : steady own (read f).
Proof. by apply steady_still. Qed.

Lemma steady_of_result {A} own (r : result A) : steady own (of_result r).
Proof. by apply steady_still, still_of_result. Qed.

Lemma steady_if {A} own (b : bool) (m n : call A) : steady own m → steady own n → steady own (if b then m else n).
Proof. by destruct b. Qed.

Lemma steady_bind {A B} own (m : call A) (f : A → call B) : steady own m → (∀ a, steady own (f a)) → steady own (bind m f).
Proof.
  intros Hm Hf s Hs. unfold bind. destruct (Hm s Hs) as [H1 H2]. destruct (m s) as [s' [a|msg|]]; [|by split..].
  destruct (Hf a s' H2) as [H3 H4]. split; [by eapply others_trans|done].
Qed.

Lemma steady_required_string own args key : steady own (required_string args key).
Proof. unfold required_string. repeat case_match; apply steady_done || apply steady_throw || apply steady_mistyped. Qed.

Lemma steady_one_of own what valid v : steady own (one_of what valid v).
Proof. unfold one_of. repeat case_match; apply steady_done || apply steady_throw. Qed.

Lemma steady_required_one_of own args key valid : steady own (required_one_of args key valid).
Proof. apply steady_if; [apply steady_one_of|apply steady_throw]. Qed.

Lemma steady_optional_one_of own args key valid : steady own (optional_one_of args key valid).
Proof. apply steady_if; [apply steady_bind; [apply steady_one_of|intros ?; apply steady_done]|apply steady_done]. Qed.

Lemma steady_clampLimit own v d max : steady own (clampLimit v d max).
Proof. unfold clampLimit. repeat case_match; apply steady_done || apply steady_mistyped. Qed.

Lemma steady_optional_integer own v : steady own (optional_integer v).
Proof.
  unfold optional_integer. repeat case_match; try apply steady_done.
  apply steady_bind; [apply steady_of_result|intros ?; apply steady_done].
Qed.

Lemma steady_parse_uuid own t : steady own (parse_uuid read_uuid t).
Proof. unfold parse_uuid. case_match; apply steady_done || apply steady_throw. Qed.

(** Skills and the registry are beside the tables. *)
Lemma others_beside own s st c : others_kept own s (put_skills s st) ∧ others_kept own s (put_registry s c).
Proof. by split; split. Qed.

Lemma steady_on_skills {A} own (f : skill_store → skill_store * result A) : steady own (on_skills f).
Proof.
  intros s Hs. unfold on_skills. destruct (skillStore s) as [st|]; [|split; [apply others_refl|done]].
  destruct (f st) as [st' r]. rewrite still_of_result. split; [by apply (others_beside own s st' (Client None 0))|done].
Qed.

Lemma steady_on_registry {A} own missing (f : registry_client → registry_client * result A) : steady own (on_registry missing f).
Proof.
  intros s Hs. unfold on_registry. destruct (registryClient s) as [c|]; [|split; [apply others_refl|done]].
  destruct (f c) as [c' r]. rewrite still_of_result. split; [|done].
  split; done.
Qed.

Lemma steady_registry_index own : steady own (registry_index ropts fetch parse_index now).
Proof.
  intros s Hs. unfold registry_index. destruct (registryClient s) as [c|]; [|split; [apply others_refl|done]].
  destruct (getIndex _ _ _ _ _) as [c' [i|msg]]; (split; [split; done|done]).
Qed.

Lemma steady_store own pid o v : own = Some pid → o_profile o = pid → steady own (on_memory (λ db,
  match storeSemanticMemory real db now o v with Some (db, id) => Ok (id, db) | None => Err "violates constraint" end)).
Proof.
  intros Ho Hp s Hs. unfold on_memory. destruct (storeSemanticMemory _ _ _ _ _) as [[db sid]|] eqn:E;
    [|split; [apply others_refl|done]].
  split; [|done]. unfold storeSemanticMemory, insert_semantic in E. repeat (case_match; [|done]). injection E as <- _.
  split; try done. intros p Hq. cbn [memory put_memory tabs with_tabs put_semantic semantic fst].
  rewrite filter_app, filter_cons, decide_False by (cbn; congruence). by rewrite app_nil_r.
Qed.

(** A method of the identity manager that touches the profile alone, whatever the chat. *)
Lemma steady_on_identity {A} own (f : identity_db → result (A * identity_db)) :
  (∀ db a db' chat, f db = Ok (a, db') → touches own chat db (with_state db' (Identity.state db))) → steady own (on_identity f).
Proof.
  intros Hf s Hs. unfold on_identity. destruct (f _) as [[a db']|msg] eqn:E; [|split; [apply others_refl|done]].
  split; [|done]. pose proof (λ chat, Hf _ _ _ chat E) as Ht.
  destruct (Ht "") as [_ H1 H2 H3 (H4 & H5 & H6) H7 _ _]. split; try done; cbn.
  - intros p Hp. cbn in H4. by rewrite H4.
  - intros c _. apply (tc_chats _ _ _ _ (Ht (c ++ "'"))). intros Ec. apply (f_equal String.length) in Ec.
    rewrite length_app_string in Ec. cbn in Ec. lia.
Qed.

Hint Resolve steady_confined steady_done steady_throw steady_mistyped steady_read steady_of_result steady_required_string steady_required_one_of
  steady_optional_one_of steady_clampLimit steady_optional_integer steady_parse_uuid steady_on_skills steady_on_registry
  steady_registry_index : steady_db.

Ltac confined_step :=
  first
    [ solve [eauto with steady_db]
    | apply confined_getProfileId; intros ? ?
    | apply confined_bind; [solve [eauto with steady_db]|intros ?]
    | apply confined_if
    | match goal with |- confined _ (match ?x with _ => _ end) => destruct x end ].

Lemma touches_state own chat db db' : touches own chat db db' → touches own chat db (with_state db' (Identity.state db)).
Proof. intros H. rewrite <- (tc_state _ _ _ _ H). by destruct db'. Qed.

Lemma confined_store own args : confined own (toolStoreSemantic real embed uuid_text now args).
Proof.
  unfold toolStoreSemantic. repeat confined_step. apply confined_bind; [by eapply steady_store|intros id]. repeat confined_step.
Qed.

Lemma confined_observe_personality own args : confined own (toolObservePersonality real now args).
Proof.
  unfold toolObservePersonality. repeat confined_step. apply confined_bind; [|intros e; repeat confined_step].
  apply steady_on_identity. intros db e db' chat E. apply touches_state.
  subst own. eapply (observe_agent_touches real now chat). unfold observe_agent. by rewrite E.
Qed.

Lemma confined_observe_user own args : confined own (toolObserveUser real now args).
Proof.
  unfold toolObserveUser. repeat confined_step. apply confined_bind; [|intros e; repeat confined_step].
  apply steady_on_identity. intros db e db' chat E. apply touches_state.
  split; [intros Hok; by eapply observeUser_ok|by revert E; unfold observeUserPersonality;
    repeat (case_match; simplify_eq/=); intros; simplify_eq/=..].
Qed.

Lemma confined_propose own args : confined own (toolProposeIdentityUpdate now random args).
Proof.
  unfold toolProposeIdentityUpdate. repeat confined_step. apply confined_bind; [|intros e; repeat confined_step].
  apply steady_on_identity. intros db e db' chat [= <- <-]. destruct db. apply touches_refl.
Qed.

Lemma confined_update_user own args : confined own (toolUpdateUserIdentity now args).
Proof.
  unfold toolUpdateUserIdentity. repeat confined_step. apply confined_bind; [|intros e; repeat confined_step].
  apply steady_on_identity. intros db e db' chat E. apply touches_state.
  assert (db' = (updateUserIdentity db now (one_field a a0)).2) as -> by (by injection E as ->).
  apply update_user_touches.
Qed.

Lemma confined_switch own args : confined own (toolSwitchChatProfile opts now args).
Proof.
  unfold toolSwitchChatProfile. confined_step.
  destruct (defaultChatId opts) as [chat|] eqn:Ec; cbn [opt_truthy default negb]; [|eauto with steady_db].
  apply confined_if; [repeat confined_step|]. confined_step. destruct a0 as [p|]; [|repeat confined_step].
  apply confined_bind; [|intros old; apply confined_bind; [auto with steady_db|intros q s _; by split]].
  intros s Hs. unfold on_memory. destruct (assignChat _ _ _ _) as [[old t]|] eqn:E; [|split; [apply others_refl|done]].
  split; [|done]. destruct (switch_touches real now chat own (identity_view s) _ _ _ E)
    as [_ H1 H2 H3 (H4 & H5 & H6) H7 _ H8]. split; try done.
  - intros pid Hp. cbn in H4 |- *. by rewrite H4.
  - intros c Hc. apply H8. congruence.
Qed.

Lemma tool_confined own args n tool : case_of args n = Some tool → confined own tool.
Proof.
  intros H%map_get_Some_elem. unfold tool_cases in H. rewrite !elem_of_cons in H.
  repeat (destruct H as [[= -> ->]|H]); try (by apply not_elem_of_nil in H).
  - unfold toolSearchSemantic. repeat confined_step.
  - unfold toolSearchExternal. repeat confined_step.
  - unfold toolRecallConversation. repeat confined_step.
  - apply confined_store.
  - unfold toolGetMemoryStats. repeat confined_step.
  - unfold toolExpandMemory. repeat confined_step.
  - unfold toolSearchMeta. repeat confined_step.
  - unfold toolExpandMeta. repeat confined_step.
  - unfold toolTraceToSource. repeat confined_step.
  - unfold toolGetIdentity. repeat confined_step.
  - apply confined_observe_personality.
  - apply confined_observe_user.
  - apply confined_propose.
  - apply confined_update_user.
  - unfold toolListProfiles. repeat confined_step.
  - unfold toolGetCurrentProfile. repeat confined_step.
  - apply confined_switch.
  - unfold toolInstallSkill. repeat confined_step.
  - unfold toolUninstallSkill. repeat confined_step.
  - unfold toolListSkills. repeat confined_step.
  - unfold toolSearchSkills. repeat confined_step.
  - unfold toolUpdateConfig. repeat confined_step.
  - unfold toolGetAuthUrl. repeat confined_step.
  - unfold toolGetSystemStatus. repeat confined_step.
  - unfold toolGoogleWorkspace. repeat confined_step.
Qed.

(** C11: whatever a request asks for, with whatever arguments, it changes no memory, identity
    or personality of a profile other than the server's, no reflection, document, message,
    session or link, and the profile of no chat other than the server's. *)
Theorem request_changes_own_profile request s : others_kept (profileId s) s (handleRequest real index exp mem embed show
  parse_json uuid_text read_uuid ropts fetch depth sha256 parse_index parse_items skillsDir opts now random request s).1.
Proof.
  assert (Hc : ∀ params, others_kept (profileId s) s (call_of params s).1).
  { intros params. unfold handleToolCall. destruct (negb _); [apply others_refl|].
    destruct (prop params "name") as [[]|]; try apply others_refl.
    destruct (map_get _ _) as [tool|] eqn:E; [|apply others_refl].
    pose proof (tool_confined (profileId s) _ _ _ E s eq_refl) as H. by destruct (tool s). }
  unfold handleRequest. cbv zeta. destruct request; try apply others_refl;
    (destruct (match prop _ "id" with None => _ | _ => _ end); [apply others_refl|]);
    (destruct (method_is _ "initialize"); [apply others_refl|]);
    (destruct (method_is _ "tools/list"); [apply others_refl|]);
    (destruct (method_is _ "tools/call"); [|apply others_refl]);
    (match goal with |- context [handleToolCall _ _ _ _ _ _ _ _ _ _ _ _ _ _ _ _ _ _ _ ?p s] =>
       pose proof (Hc p) as H; by destruct (call_of p s) end).
Qed.
End Scope.

(** ** Witnesses *)

(** A second profile's summary of a message, and a server without it. *)
Definition foreign_row : semantic_row :=
  Semantic 7 1 (SemanticData "summary of work" example_vector "summary" (hundredths 50) 0 4 None None None) 9 9 9 0.

Definition with_foreign (pid : option uuid) (rows : list semantic_row) (links : list (uuid * (string * string))) : server :=
  Server (MemoryDb (put_links (put_semantic example_tabs rows 8) links [] [] []) (sessions example_memory) (working example_memory) [])
    [] [] [] None None pid.

#[local] Instance scope_real : RealLaws (λ x, x).
Proof. by intros x. Qed.

Definition search_args : json := Obj [("query", Str "work")].

Definition example_call (n : string) (args : json) (s : server) : server * option response_body :=
  handleToolCall (λ x, x) (Indexing (λ _ _, double 0) (λ _ l, seq 0 (length l))) (λ _, double 1)
    (ManagerOptions 20 20 5 10 (hundredths 50) example_weights 3 DEFAULT_META_INJECTION) (λ _, Ok example_vector)
    (λ _, "0") (λ _, None) (λ n, "u") (λ _, Some 7%nat) example_options example_fetch 3 (λ s, s) (λ _, Ok [])
    (λ _, Ok []) [] (McpOptions "memory.sock" (Some "c") true None) 30 "r" (call_params n args) s.

Lemma searches_see_own_profile_witness :
  (example_call "search_semantic" search_args (with_foreign (Some 0%nat) [foreign_row] [])).2 =
  (example_call "search_semantic" search_args (with_foreign (Some 0%nat) [] [])).2.
Proof.
  apply (searches_see_own_profile (λ x, x)) with (pid := 0%nat).
  - split; first [done|vm_compute; reflexivity|split; reflexivity].
  - left.
Defined.

Lemma request_changes_own_profile_witness :
  others_kept (McpOptions "memory.sock" (Some "c") true None) (Some 0%nat) example_server
    (example_request (tool_call (int 1) "store_semantic" example_args) example_server).1.
Proof.
  change (Some 0%nat) with (profileId example_server). unfold example_request.
  apply (request_changes_own_profile (λ x, x)).
Defined.

(** The drill-down is not scoped: a server of profile 0 that is given the identifier of the
    summary of profile 1 answers with the messages under it. *)
Example expand_crosses_profiles : ∃ body,
  (example_call "expand_memory" (Obj [("memory_id", Str "u")]) (with_foreign (Some 0%nat) [foreign_row] [(7%nat, ("m1", "c"))])).2 =
    Some body ∧
  (example_call "expand_memory" (Obj [("memory_id", Str "u")]) (with_foreign (Some 0%nat) [] [])).2 ≠ Some body.
Proof. eexists. split; [vm_compute; reflexivity|]. vm_compute. intros E. discriminate E. Qed.

(** The scan of an index ends after a bounded number of rows (40 by default), and the
    profile is tested on these alone: memories of another profile that are nearer to the
    text hide those of the profile from its search. *)
Example other_profiles_hide_rows :
  let own := Semantic 5 0 (s_data foreign_row) 9 9 9 0 in
  let found rows := querySemanticMemory (Indexing (λ _ _, double 0) (λ _ l, take 1 (seq 0 (length l)))) (λ _, double 1)
    (ManagerOptions 20 20 5 10 (hundredths 50) example_weights 3 DEFAULT_META_INJECTION)
    (put_semantic example_tabs rows 8) example_vector 0 None None 30 in
  map (λ x, c_row x.1) (found [own]) = [own] ∧ found [foreign_row; own] = [].
Proof. split; vm_compute; reflexivity. Qed.
