(* ===== verification/McpLines.v ===== *)
(** * The lines of a connection to the MCP server

    The chunks of a connection make up the same lines wherever the stream is cut between
    two characters, requests and responses come through as they were written, and what a
    line is answered with. *)

From Stdlib Require Import Ascii.
From S2P Require Import Prelude JsMap JsString JsNumber HostFs SkillText AgentSessions Profiles.
From S2P Require Import Identity Json McpTools Scoring MemoryDb ConsolidationRuns Memory Skills.
From S2P Require Import Registry McpServer McpRuns.
Local Open Scope list_scope.
Local Open Scope string_scope.

(** ** Cutting at line breaks *)

Lemma cut_line_app l r : lacks "010"%char l → cut_line (l ++ String "010" r) = Some (l, r).
Proof.
  induction l as [|c l IH]; intros Hl; [done|]. apply lacks_cons in Hl as [Hc Hl].
  rewrite string_app_cons. cbn [cut_line]. rewrite bool_decide_false by congruence. by rewrite IH.
Qed.

Lemma cut_line_lacks s : lacks "010"%char s → cut_line s = None.
Proof.
  induction s as [|c s IH]; intros Hs; [done|]. apply lacks_cons in Hs as [Hc Hs]. cbn [cut_line].
  rewrite bool_decide_false by congruence. by rewrite IH.
Qed.

Lemma cut_line_Some s l r : cut_line s = Some (l, r) → s = l ++ String "010" r.
Proof.
  revert l. induction s as [|c s IH]; intros l; cbn [cut_line]; [done|]. case_bool_decide as Hc.
  - intros [= <- <-]. by rewrite Hc.
  - destruct (cut_line s) as [[l' r']|]; [|done]. intros [= <- <-]. rewrite string_app_cons. by rewrite (IH l').
Qed.

Lemma cut_line_longer s t l r : cut_line s = Some (l, r) → cut_line (s ++ t) = Some (l, r ++ t).
Proof.
  revert l. induction s as [|c s IH]; intros l; cbn [cut_line]; [done|]. rewrite string_app_cons. cbn [cut_line].
  case_bool_decide as Hc; [by intros [= <- <-]|]. destruct (cut_line s) as [[l' r']|]; [|done].
  intros [= <- <-]. by rewrite (IH l').
Qed.

Lemma cut_line_length s l r : cut_line s = Some (l, r) → (String.length r < String.length s)%nat.
Proof. intros ->%cut_line_Some. rewrite length_app_string. cbn. lia. Qed.

(** Each line takes at least its line break: the length of the text is enough fuel. *)
Lemma take_lines_enough fuel s : (String.length s ≤ fuel)%nat → take_lines fuel s = take_lines (String.length s) s.
Proof.
  revert s. induction fuel as [fuel IH] using lt_wf_ind. intros s Hl.
  destruct (String.length s) as [|n] eqn:En.
  - destruct s; [|done]. by destruct fuel.
  - destruct fuel as [|fuel]; [lia|]. cbn [take_lines]. destruct (cut_line s) as [[l r]|] eqn:E; [|done].
    apply cut_line_length in E. rewrite (IH fuel) by lia. by rewrite (IH n) by lia.
Qed.

(** The lines of a text, and the text after the last one. *)
Definition all_lines (s : string) : list string * string := take_lines (String.length s) s.

Definition shown_line (l : string) : list string := if str_truthy (trim l) then [trim l] else [].

Lemma all_lines_step s : all_lines s =
  match cut_line s with
  | None => ([], s)
  | Some (l, r) => ((shown_line l ++ (all_lines r).1)%list, (all_lines r).2)
  end.
Proof.
  unfold all_lines. destruct (String.length s) as [|n] eqn:En; [by destruct s|]. cbn [take_lines].
  destruct (cut_line s) as [[l r]|] eqn:E; [|done]. apply cut_line_length in E. rewrite take_lines_enough by lia.
  unfold shown_line. destruct (take_lines _ r) as [ls b]. by destruct (str_truthy _).
Qed.

Lemma all_lines_app a b : all_lines (a ++ b) =
  let '(l1, r1) := all_lines a in let '(l2, r2) := all_lines (r1 ++ b) in ((l1 ++ l2)%list, r2).
Proof.
  remember (String.length a) as n eqn:En. revert a En. induction n as [n IH] using lt_wf_ind. intros a ->.
  rewrite (all_lines_step a). destruct (cut_line a) as [[l r]|] eqn:E.
  - rewrite (all_lines_step (a ++ b)), (cut_line_longer _ _ _ _ E). apply cut_line_length in E.
    rewrite (IH _ E r eq_refl). destruct (all_lines r) as [l1 r1]. cbn [fst snd]. destruct (all_lines (r1 ++ b)) as [l2 r2].
    cbn [fst snd]. by rewrite app_assoc.
  - by destruct (all_lines (a ++ b)).
Qed.

(** ** Characters *)

Definition byte_in (lo hi : N) (c : ascii) : Prop := (lo ≤ N_of_ascii c ≤ hi)%N.

(** The well-formed byte sequences of the Unicode standard. *)
Inductive character : string → Prop :=
| character_1 a : byte_in 0 127 a → character (String a "")
| character_2 a b : byte_in 194 223 a → byte_in 128 191 b → character (String a (String b ""))
| character_3 a b c : (byte_in 224 224 a ∧ byte_in 160 191 b) ∨ (byte_in 225 236 a ∧ byte_in 128 191 b) ∨
    (byte_in 237 237 a ∧ byte_in 128 159 b) ∨ (byte_in 238 239 a ∧ byte_in 128 191 b) →
    byte_in 128 191 c → character (String a (String b (String c "")))
| character_4 a b c d : (byte_in 240 240 a ∧ byte_in 144 191 b) ∨ (byte_in 241 243 a ∧ byte_in 128 191 b) ∨
    (byte_in 244 244 a ∧ byte_in 128 143 b) →
    byte_in 128 191 c → byte_in 128 191 d → character (String a (String b (String c (String d "")))).

(** A text is a sequence of whole characters. *)
Definition well_formed (s : string) : Prop := ∃ l, Forall character l ∧ s = String.concat "" l.

Ltac decide_bytes := repeat match goal with
  | |- context [(?x <=? ?y)%N] => first [rewrite (proj2 (N.leb_le x y)) by lia|rewrite (proj2 (N.leb_gt x y)) by lia]
  | |- context [(?x <? ?y)%N] => first [rewrite (proj2 (N.ltb_lt x y)) by lia|rewrite (proj2 (N.ltb_ge x y)) by lia]
  | |- context [(?x =? ?y)%N] => first [rewrite (proj2 (N.eqb_eq x y)) by lia|rewrite (proj2 (N.eqb_neq x y)) by lia]
  end.

Lemma decode_character c s : character c → decode (c ++ s) = c ++ decode s.
Proof.
  unfold decode. intros [a Ha|a b Ha Hb|a b c' Hab Hc|a b c' d Hab Hc Hd]; unfold byte_in in *;
    [|..|]; repeat destruct Hab as [[Ha Hb]|Hab]; try destruct Hab as [Ha Hb];
    rewrite !string_app_cons; change ("" ++ s) with s; cbn [decode_from]; unfold lead_byte; decide_bytes; cbn [andb];
    decide_bytes; reflexivity.
Qed.

Lemma decode_well_formed s : well_formed s → decode s = s.
Proof.
  intros (l & Hl & ->). induction Hl as [|c l Hc Hl IH]; [done|].
  assert (String.concat "" (c :: l) = c ++ String.concat "" l) as -> by (destruct l; [by rewrite string_app_nil_r|done]).
  rewrite decode_character by done. by rewrite IH.
Qed.

(** The split into chunks makes no difference. *)
Lemma connection_all_lines buffer chunks : cut_line buffer = None → Forall well_formed chunks →
  connection_lines buffer chunks = all_lines (buffer ++ String.concat "" chunks).
Proof.
  revert buffer. induction chunks as [|data chunks IH]; intros buffer Hb Hw.
  - cbn. rewrite string_app_nil_r, all_lines_step. by rewrite Hb.
  - assert (String.concat "" (data :: chunks) = data ++ String.concat "" chunks) as ->.
    { destruct chunks; [by rewrite string_app_nil_r|done]. }
    rewrite <- string_app_assoc, all_lines_app. cbn [connection_lines]. unfold on_data.
    apply Forall_cons in Hw as [Hd Hw]. rewrite (decode_well_formed data) by done. fold (all_lines (buffer ++ data)).
    assert (Hr : cut_line (all_lines (buffer ++ data)).2 = None).
    { clear. generalize (buffer ++ data). intros s. remember (String.length s) as n eqn:En. revert s En.
      induction n as [n IH] using lt_wf_ind. intros s ->. rewrite all_lines_step.
      destruct (cut_line s) as [[l r]|] eqn:E; [|done]. by eapply IH; [eapply cut_line_length|]. }
    destruct (all_lines (buffer ++ data)) as [l1 r1]. cbn [snd] in Hr. by rewrite IH.
Qed.

(** ** What is sent comes through *)

Definition line_of (show : spec_float → string) (fields : list (string * json)) : string := stringify show (Obj fields).

Lemma line_clean show fields : trim (line_of show fields) = line_of show fields ∧ str_truthy (line_of show fields) = true.
Proof. split; [|done]. apply trim_clean. by apply (clean_ends is_space "{"%char "}"%char). Qed.

Section Lines.
Context (show : spec_float → string) `{!NumberText show}.

Lemma all_lines_sent (messages : list (list (string * json))) :
  all_lines (String.concat "" (map (λ m, line_of show m ++ newline) messages)) = (map (line_of show) messages, "").
Proof.
  induction messages as [|m messages IH]; [done|].
  assert (String.concat "" (map (λ m, line_of show m ++ newline) (m :: messages)) =
    line_of show m ++ String "010" (String.concat "" (map (λ m, line_of show m ++ newline) messages))) as ->.
  { cbn [map]. destruct (map _ messages); cbn [String.concat]; [done|]. rewrite string_app_assoc. done. }
  rewrite all_lines_step, cut_line_app by (apply stringify_one_line, _). rewrite IH. cbn [fst snd map].
  unfold shown_line. destruct (line_clean show m) as [-> ->]. done.
Qed.

(** C15: messages written one to a line come through one by one, as they were written, with
    nothing left over, however the stream is cut into chunks as long as every chunk holds
    whole characters: no text inside a message, line breaks included, ends a line. (A cut
    inside a character spoils it: [cut_character].) *)
Theorem messages_framed messages chunks : Forall well_formed chunks →
  String.concat "" chunks = String.concat "" (map (λ m, line_of show m ++ newline) messages) →
  connection_lines "" chunks = (map (line_of show) messages, "").
Proof. intros Hw E. rewrite connection_all_lines by done. change ("" ++ ?s) with s. rewrite E. apply all_lines_sent. Qed.

(** The answers of the server are such messages. *)
Lemma response_line_of r : ∃ fields, response_json r = Obj fields ∧ response_line show r = line_of show fields ++ newline.
Proof. unfold response_line, response_json. eexists. split; done. Qed.
End Lines.

(** ** What a line is answered with *)

(** The request is a notification that the server takes. *)
Definition is_initialized (v : json) : Prop :=
  prop v "id" = None ∧ prop v "method" = Some (Str "notifications/initialized").

(** A method that is no method of the server and cannot be put into a message. *)
Definition unnameable (show : spec_float → string) (v : json) : Prop :=
  ∃ m, prop v "method" = Some m ∧ to_string show m = None.

Section Answers.
Context (real : spec_float → spec_float) (index : VectorIndex) (exp : spec_float → spec_float).
Context (mem : MemoryManagerOptions) (embed : string → result (list spec_float)).
Context (show : spec_float → string) (parse_json : string → option json).
Context (uuid_text : uuid → string) (read_uuid : string → option uuid).
Context (ropts : RegistryClientOptions) (fetch : string → fetched) (depth : nat) (sha256 : string → string).
Context (parse_index : string → result (list RegistrySkillEntry)) (parse_items : string → result (list listed_item)).
Context (skillsDir : path) (opts : McpServerOptions) (now : Z) (random : string).

Abbreviation answer line s := ((processLine real index exp mem embed show parse_json uuid_text read_uuid ropts fetch
  depth sha256 parse_index parse_items skillsDir opts now random line s).2).

Lemma method_is_true v m : method_is v m = true ↔ prop v "method" = Some (Str m).
Proof.
  unfold method_is. split.
  - destruct (prop v "method") as [[]|]; try done. by intros ->%bool_decide_eq_true.
  - intros ->. by apply bool_decide_eq_true.
Qed.

Lemma template_None v : template show v = None ↔ ∃ m, v = Some m ∧ to_string show m = None.
Proof. destruct v as [m|]; cbn; [|by split; [|intros (? & ? & _)]]. split; [eauto|by intros (? & [= <-] & ?)]. Qed.

Abbreviation request_of := (handleRequest real index exp mem embed show parse_json uuid_text read_uuid ropts fetch
  depth sha256 parse_index parse_items skillsDir opts now random).
Abbreviation call_of := (handleToolCall real index exp mem embed show parse_json uuid_text read_uuid ropts fetch
  depth sha256 parse_index parse_items skillsDir opts now random).

Definition initialized (v : json) : bool :=
  match prop v "id" with None => method_is v "notifications/initialized" | _ => false end.

Lemma handleRequest_value v s : v ≠ Null → request_of v s =
  if initialized v then (s, NoReply) else
  let id := nullish (prop v "id") Null in
  if method_is v "initialize" then (s, Reply (Response id (Result initialize_result)))
  else if method_is v "tools/list" then
    (s, Reply (Response id (Result (Obj [("tools", Arr (map tool_json TOOL_DEFINITIONS))]))))
  else if method_is v "tools/call" then
    let '(s, body) := call_of (nullish (prop v "params") (Obj [])) s in
    (s, match body with Some b => Reply (Response id b) | None => Unknown end)
  else
    (s, match template show (prop v "method") with
        | Some m => Reply (Response id (Error (-32601) ("Method not found: " ++ m)))
        | None => Rejected
        end).
Proof. by destruct v. Qed.

(** The four kinds of answer to a parsed request that is not null. *)
Lemma request_answer v s : v ≠ Null →
  match (request_of v s).2 with
  | NoReply => is_initialized v ∧ ¬ unnameable show v
  | Rejected => ¬ is_initialized v ∧ unnameable show v
  | Reply r => ¬ is_initialized v ∧ ¬ unnameable show v ∧ r_id r = nullish (prop v "id") Null
  | Unknown => ¬ is_initialized v ∧ ¬ unnameable show v
  end.
Proof.
  intros Hv. rewrite handleRequest_value by done.
  assert (Hnamed : ∀ m, method_is v m = true → ¬ unnameable show v).
  { intros m E%method_is_true (m' & E' & Hm). rewrite E in E'. by injection E' as <-. }
  assert (Hi : initialized v = true ↔ is_initialized v).
  { unfold is_initialized, initialized. rewrite <- method_is_true. destruct (prop v "id"); naive_solver. }
  destruct (initialized v).
  { cbn. destruct (proj1 Hi eq_refl) as [E0 E]. split; [done|]. intros (m & Em & Hm). rewrite E in Em. by injection Em as <-. }
   assert (Hn : ¬ is_initialized v) by (by rewrite <- Hi).
  destruct (method_is v "initialize") eqn:E1; [cbn; split_and!; eauto|].
  destruct (method_is v "tools/list") eqn:E2; [cbn; split_and!; eauto|].
  destruct (method_is v "tools/call") eqn:E3.
  - destruct (call_of _ _) as [s' [b|]]; cbn; split_and!; eauto.
  - destruct (template show _) eqn:E4; cbn [snd].
    + split; [done|]. split; [|done]. intros H%template_None. congruence.
    + split; [done|]. by apply template_None.
Qed.

(** C16: a line is rejected, which stops the service, exactly when it is the JSON value null
    or its method is an object that cannot be converted to a string; it is left without an
    answer exactly when it is the initialized notification; and an answer has the id of
    the request, or null for a text that is no JSON. *)
Theorem line_outcome line s :
  (answer line s = Rejected ↔ parse_json line = Some Null ∨ ∃ v, parse_json line = Some v ∧ unnameable show v) ∧
  (answer line s = NoReply ↔ ∃ v, parse_json line = Some v ∧ is_initialized v) ∧
  (∀ r, answer line s = Reply r → r_id r = match parse_json line with Some v => nullish (prop v "id") Null | None => Null end).
Proof.
  unfold processLine. destruct (parse_json line) as [v|]; cbn [snd].
  2: { split; [naive_solver|]. split; [naive_solver|]. by intros r [= <-]. }
  assert (Hex : ∀ P : json → Prop, (∃ v', Some v = Some v' ∧ P v') ↔ P v).
  { intros P. split; [by intros (? & [= <-] & ?)|eauto]. }
  rewrite !Hex. destruct (match v with Null => true | _ => false end) eqn:En.
  - destruct v; try done. unfold is_initialized, unnameable. cbn. naive_solver.
  - assert (Hv : v ≠ Null) by (by intros ->). pose proof (request_answer v s Hv) as H.
    assert (Hs : Some v ≠ Some Null) by congruence.
    destruct (request_of v s).2 as [r| | |]; (split; [|split; [|intros r' [= <-]]]); try (split; intros ?; try congruence); tauto.
Qed.
End Answers.

(** ** Witness *)

#[local] Instance example_text : NumberText (λ _, "0").
Proof. intros f. by apply (bool_decide_unpack _). Qed.

Definition example_messages : list (list (string * json)) :=
  [[("method", Str ("two" ++ newline ++ "lines"))]; [("id", int 1)]].

Definition example_stream : string := String.concat "" (map (λ m, line_of (λ _, "0") m ++ newline) example_messages).

Definition example_chunks : list string :=
  [String.substring 0 9 example_stream; String.substring 9 22 example_stream; String.substring 31 20 example_stream].

(** The bytes below 128 are whole characters. *)
Lemma ascii_well_formed s : forallb (λ c, N_of_ascii c <=? 127)%N (String.list_ascii_of_string s) = true → well_formed s.
Proof.
  induction s as [|c s IH]; [by exists []|]. cbn. intros [Hc (l & Hl & ->)%IH]%andb_true_iff.
  exists (String c "" :: l). split; [|by destruct l]. constructor; [|done]. constructor. unfold byte_in. split; [apply N.le_0_l|by apply N.leb_le].
Qed.

Lemma messages_framed_witness :
  String.concat "" example_chunks = example_stream ∧
  connection_lines "" example_chunks = (map (line_of (λ _, "0")) example_messages, "").
Proof. split; [vm_compute; reflexivity|]. apply (messages_framed (λ _, "0") example_messages); [|vm_compute; reflexivity].
  repeat constructor; apply ascii_well_formed; vm_compute; reflexivity.
Defined.

(** The two bytes of a character in two chunks: both chunks end up with a U+FFFD. *)
Example cut_character :
  let e := String "195" (String "169" "") in
  well_formed (String "034" (e ++ String "034" newline)) ∧
  connection_lines "" [String "034" (String "195" ""); String "169" (String "034" newline)] =
    ([String "034" (replacement ++ replacement ++ String "034" "")], "").
Proof.
  split; [|vm_compute; reflexivity].
  exists [String "034" ""; String "195" (String "169" ""); String "034" ""; newline]. split; [|reflexivity].
  do 4 (apply Forall_cons; split; [first [apply character_1|apply character_2]; split; vm_compute; discriminate|]).
  apply Forall_nil_2.
Qed.

(** A line that holds null. *)
Example null_stops_the_service parse_json s : parse_json "null" = Some Null →
  (processLine (λ x, x) (Indexing (λ _ _, double 0) (λ _ l, seq 0 (length l))) (λ _, double 1)
    (ManagerOptions 20 20 5 10 (hundredths 50) example_weights 3 DEFAULT_META_INJECTION) (λ _, Ok example_vector)
    (λ _, "0") parse_json (λ n, "u") (λ _, None) example_options example_fetch 3 (λ s, s) (λ _, Ok [])
    (λ _, Ok []) [] (McpOptions "memory.sock" (Some "c") true None) 30 "r" "null" s).2 = Rejected.
Proof. unfold processLine. by intros ->. Qed.
