(* ===== verification/Command.v ===== *)
(** * Commands

    A command is a state monad of results: it may throw, and what it did before stays.
    [try] blocks, loops, and a postcondition calculus for the proofs. *)

From S2P Require Import Prelude.
Local Open Scope string_scope.
Local Open Scope list_scope.

Section Commands.
Context {W : Type}.

Definition M (A : Type) : Type := W → result A * W.

Definition ret {A} (a : A) : M A := λ w, (Ok a, w).
Definition throw {A} (e : string) : M A := λ w, (Err e, w).
Definition bind {A B} (m : M A) (k : A → M B) : M B := λ w,
  match m w with (Ok a, w') => k a w' | (Err e, w') => (Err e, w') end.

(** [try { m } catch (e) { h(e) }] *)
Definition try_catch {A} (m : M A) (h : string → M A) : M A := λ w,
  match m w with (Ok a, w') => (Ok a, w') | (Err e, w') => h e w' end.

(** [try { m } catch { }] *)
Definition attempt {A} (m : M A) : M unit := try_catch (bind m (λ _, ret tt)) (λ _, ret tt).

Definition succeeds {A} (m : M A) : M bool := try_catch (bind m (λ _, ret true)) (λ _, ret false).

Fixpoint each_m {A B} (f : A → M B) (l : list A) : M (list B) :=
  match l with
  | [] => ret []
  | a :: l => bind (f a) (λ b, bind (each_m f l) (λ bs, ret (b :: bs)))
  end.

(** A part of the state: read, changed, and operated on by a function that may fail. *)
Definition asks {A} (f : W → A) : M A := λ w, (Ok (f w), w).
Definition modify (f : W → W) : M unit := λ w, (Ok tt, f w).
Definition on_part {S A} (part : W → S) (put : S → W → W) (f : S → S * result A) : M A := λ w,
  let '(s, r) := f (part w) in (r, put s w).
Definition of_result {A} (r : result A) : M A := λ w, (r, w).

(** ** Postconditions *)

Definition wp {A} (m : M A) (w : W) (Q : result A → W → Prop) : Prop := Q (m w).1 (m w).2.

Lemma wp_ret {A} (a : A) w (Q : result A → W → Prop) : Q (Ok a) w → wp (ret a) w Q.
Proof. done. Qed.

Lemma wp_throw {A} e w (Q : result A → W → Prop) : Q (Err e) w → wp (throw e) w Q.
Proof. done. Qed.

Lemma wp_bind {A B} (m : M A) (k : A → M B) w (Q : result B → W → Prop) :
  wp m w (λ r w', match r with Ok a => wp (k a) w' Q | Err e => Q (Err e) w' end) → wp (bind m k) w Q.
Proof. unfold wp, bind. destruct (m w) as [[a|e] w']; done. Qed.

Lemma wp_try {A} (m : M A) h w (Q : result A → W → Prop) :
  wp m w (λ r w', match r with Ok a => Q (Ok a) w' | Err e => wp (h e) w' Q end) → wp (try_catch m h) w Q.
Proof. unfold wp, try_catch. destruct (m w) as [[a|e] w']; done. Qed.

Lemma wp_mono {A} (m : M A) w (Q R : result A → W → Prop) :
  wp m w Q → (∀ r w', Q r w' → R r w') → wp m w R.
Proof. intros HQ H. by apply H. Qed.

Lemma wp_and {A} (m : M A) w (Q R : result A → W → Prop) :
  wp m w Q → wp m w R → wp m w (λ r w', Q r w' ∧ R r w').
Proof. done. Qed.

Lemma wp_each {A B} (f : A → M B) (l : list A) (I : list A → list B → W → Prop) (E : W → Prop) w :
  I [] [] w →
  (∀ a done out w, I done out w → wp (f a) w (λ r w', match r with
     Ok b => I (done ++ [a]) (out ++ [b]) w' | Err _ => E w' end)) →
  wp (each_m f l) w (λ r w', match r with Ok out => I l out w' | Err _ => E w' end).
Proof.
  intros H0 Hf. assert (Hg : ∀ dn out w, I dn out w → wp (each_m f l) w (λ r w',
    match r with Ok out' => I (dn ++ l) (out ++ out') w' | Err _ => E w' end)).
  { clear H0 w. induction l as [|a l IH]; intros dn out w Hi; simpl.
    - apply wp_ret. by rewrite !app_nil_r.
    - apply wp_bind. eapply wp_mono; [by apply Hf|]. intros [b|e] w' Hb; [|done].
      apply wp_bind. eapply wp_mono; [by apply (IH (dn ++ [a]))|]. intros [bs|e] w'' Hbs; [|done].
      apply wp_ret. by rewrite <- !app_assoc in Hbs. }
  apply (Hg [] []). done.
Qed.
End Commands.
Arguments M W A : clear implicits.

Notation "'do' x <- m ; k" := (bind m (λ x, k))
  (at level 10, x pattern, m at level 200, k at level 200) : fh_scope.
Notation "'run' m ; k" := (bind m (λ _, k)) (at level 10, m at level 200, k at level 200) : fh_scope.

