(* ===== verification/Telegram.v ===== *)
(** * The Telegram adapter

    [src/channels/telegram/adapter.ts]: what the adapter does with a message of the
    transport and with a message to send, and when it connects again.  The transport, the
    file system and the source of identifiers are outside: whether a message is accepted
    may depend on all that were sent before.  A handler that rejects has an error as its
    result.  Identifiers and times are integers below the 53 bits of a double. *)

From Stdlib Require Import Ascii.
From stdpp Require Import pretty.
From S2P Require Import Prelude JsMap JsString JsNumber JsParse JsonText MessageQueue Command.
Local Open Scope list_scope.
Local Open Scope string_scope.
Local Open Scope fh_scope.

(** ** Texts *)

Definition SPECIAL : list ascii := String.list_ascii_of_string "_*[]()~`>#+-=|{}.!\".

Definition special (c : ascii) : bool := bool_decide (c ∈ SPECIAL).

Fixpoint escapeMarkdownV2 (text : string) : string :=
  match text with
  | EmptyString => ""
  | String c t => if special c then String "\" (String c (escapeMarkdownV2 t)) else String c (escapeMarkdownV2 t)
  end.

(** The two replacements of [stripMarkdown]. *)
Fixpoint unescape (text : string) : string :=
  match text with
  | String c ((String d t) as r) =>
      if bool_decide (c = "\"%char) && special d then String d (unescape t) else String c (unescape r)
  | _ => text
  end.

Definition formatting (c : ascii) : bool := bool_decide (c ∈ String.list_ascii_of_string "*_~`").

Fixpoint drop_formatting (text : string) : string :=
  match text with
  | EmptyString => ""
  | String c t => if formatting c then drop_formatting t else String c (drop_formatting t)
  end.

Definition stripMarkdown (text : string) : string := drop_formatting (unescape text).

(** [userId.match(/^tg:(-?\d+)$/)] *)
Definition parseTelegramChatId (userId : string) : result Z :=
  let failed := Err ("Invalid Telegram chat ID: " ++ userId) in
  if starts_with "tg:" userId then
    let rest := str_drop 3 userId in
    let '(sign, digits) := match rest with
                           | String c r => if bool_decide (c = "-"%char) then ((-1)%Z, r) else (1%Z, rest)
                           | EmptyString => (1%Z, rest)
                           end in
    if all_digits digits then
      match read_digits 0 false digits with Some n => Ok (sign * Z.of_N n)%Z | None => failed end
    else failed
  else failed.

(** ** Messages *)

Record voice_note := Voice { v_duration : Z; v_mimeType : option string }.
Record photo_size := Photo { p_width : Z; p_height : Z; p_fileSize : option Z }.

Record TelegramTransportMessage := TransportMessage {
  t_messageId : Z;
  t_chatId : Z;
  t_chatType : string;
  t_fromId : Z;
  t_firstName : string;
  t_lastName : option string;
  t_username : option string;
  t_text : option string;
  t_caption : option string;
  t_entities : option (list jvalue);
  t_voice : option voice_note;
  t_photo : option photo_size;
  t_filePath : option string;
  t_reply : option Z;
  t_timestamp : Z }.

Record TelegramSendOptions := SendOptions {
  so_chatId : Z;
  so_text : string;
  so_markdown : bool;
  so_reply : option string }.

Inductive connection := disconnected | connecting | connected.
#[export] Instance connection_eq_dec : EqDecision connection.
Proof. solve_decision. Defined.

Record TelegramAdapterOptions := AdapterOptions {
  allowedUsers : list Z;
  downloadDir : string;
  maxReconnectAttempts : nat;
  reconnectBaseDelay : Z;
  reconnectMaxDelay : Z }.

(** What has been handed to the transport, and whether it accepted it; the files written;
    the messages given to the handlers. *)
Record adapter := Adapter {
  conn : connection;
  sends : list (TelegramSendOptions * bool);
  files : list (string * string);
  emitted : list InboundMessage }.

Definition option_truthy (o : option string) : bool := match o with Some s => str_truthy s | None => false end.

Definition buildSenderName (msg : TelegramTransportMessage) : string :=
  if str_truthy (t_firstName msg) && option_truthy (t_lastName msg) then
    t_firstName msg ++ " " ++ default "" (t_lastName msg)
  else if str_truthy (t_firstName msg) then t_firstName msg
  else if option_truthy (t_username msg) then default "" (t_username msg)
  else pretty (t_fromId msg).

Definition normalize (msg : TelegramTransportMessage) : InboundMessage :=
  Inbound (pretty (t_messageId msg)) "telegram" ("tg:" ++ pretty (t_chatId msg)) (buildSenderName msg)
    (match t_text msg with Some t => Some t | None => t_caption msg end) None None
    (match t_reply msg with Some n => if (n =? 0)%Z then None else Some (pretty n) | None => None end)
    (t_timestamp msg * 1000) false
    (JObj (app [("telegramUserId", JNum (t_fromId msg)); ("chatType", JStr (t_chatType msg))]
             (member "entities" JArr (t_entities msg)))).

Definition add_members (l : list (string * jvalue)) (v : jvalue) : jvalue :=
  match v with JObj fs => JObj (app fs l) | _ => v end.

Definition with_audio (path : string) (caption : option string) (v : voice_note) (m : InboundMessage) : InboundMessage :=
  Inbound (msg_id m) (channel m) (userId m) (senderName m) caption (Some path) (imagePath m) (replyToMessageId m)
    (timestamp m) (isFromMe m)
    (add_members (app [("duration", JNum (v_duration v))] (member "mimeType" JStr (v_mimeType v))) (metadata m)).

Definition with_image (path : string) (caption : option string) (p : photo_size) (m : InboundMessage) : InboundMessage :=
  Inbound (msg_id m) (channel m) (userId m) (senderName m) caption (audioPath m) (Some path) (replyToMessageId m)
    (timestamp m) (isFromMe m)
    (add_members (app [("width", JNum (p_width p)); ("height", JNum (p_height p))] (member "fileSize" JNum (p_fileSize p)))
       (metadata m)).

Section Adapter.
Context (o : TelegramAdapterOptions).
Context (accepts : list (TelegramSendOptions * bool) → TelegramSendOptions → result unit).
Context (downloads : string → result string) (writes : string → result unit) (uuid : nat → string).

Abbreviation act := (M adapter).

Definition sendMessage (m : TelegramSendOptions) : act unit := λ w,
  let r := accepts (sends w) m in
  (r, Adapter (conn w) (sends w ++ [(m, is_ok r)])%list (files w) (emitted w)).

Definition emit (m : InboundMessage) : act unit := modify (λ w, Adapter (conn w) (sends w) (files w) (emitted w ++ [m])%list).

(** [await writeFile(join(downloadDir, `${randomUUID()}.ext`), await downloadFile(filePath))] *)
Definition save_media (filePath ext : string) : act string :=
  do buffer <- of_result (downloads filePath);
  do w <- asks (λ w, w);
  let path := downloadDir o ++ "/" ++ uuid (length (files w)) ++ "." ++ ext in
  run of_result (writes path);
  run modify (λ w, Adapter (conn w) (sends w) (files w ++ [(path, buffer)])%list (emitted w));
  ret path.

Definition isUserAllowed (userId : Z) : bool :=
  match allowedUsers o with [] => true | l => bool_decide (userId ∈ l) end.

Definition DENIED : string := "Access denied. Contact the administrator to get access.".

Definition greeting (msg : TelegramTransportMessage) : string :=
  let name := if str_truthy (t_firstName msg) then t_firstName msg
              else if option_truthy (t_username msg) then default "" (t_username msg) else "there" in
  "Hi " ++ name ++ "! I'm your FlowHelm assistant. Send me a message and I'll help you out.".

Definition attach_voice (msg : TelegramTransportMessage) (m : InboundMessage) : act InboundMessage :=
  match t_voice msg with
  | Some v =>
      if option_truthy (t_filePath msg) then
        do path <- save_media (default "" (t_filePath msg)) "ogg"; ret (with_audio path (t_caption msg) v m)
      else ret m
  | None => ret m
  end.

Definition attach_photo (msg : TelegramTransportMessage) (m : InboundMessage) : act InboundMessage :=
  match t_photo msg with
  | Some p =>
      if option_truthy (t_filePath msg) then
        do path <- save_media (default "" (t_filePath msg)) "jpg"; ret (with_image path (t_caption msg) p m)
      else ret m
  | None => ret m
  end.

Definition handleTransportMessage (msg : TelegramTransportMessage) : act unit :=
  if negb (isUserAllowed (t_fromId msg)) then
    try_catch (sendMessage (SendOptions (t_chatId msg) DENIED false None)) (λ _, ret tt)
  else if bool_decide (trim <$> t_text msg = Some "/start") then
    sendMessage (SendOptions (t_chatId msg) (greeting msg) false None)
  else
    do m <- attach_voice msg (normalize msg);
    do m <- attach_photo msg m;
    emit m.

(** ** Sending *)

Record OutboundMessage := Outbound { om_userId : string; om_text : string; om_reply : option string }.

(** [message.replyToMessageId ? Number(..) : undefined]; the text stands for its number. *)
Definition reply_of (m : OutboundMessage) : option string := if option_truthy (om_reply m) then om_reply m else None.

Definition send_chunk (chatId : Z) (reply : option string) (chunk : string) : act unit :=
  try_catch (sendMessage (SendOptions chatId chunk true reply))
    (λ _, sendMessage (SendOptions chatId (stripMarkdown chunk) false reply)).

Definition send (m : OutboundMessage) : act unit :=
  do c <- asks conn;
  if negb (bool_decide (c = connected)) then throw "Telegram adapter not connected"
  else
    do chatId <- of_result (parseTelegramChatId (om_userId m));
    run each_m (send_chunk chatId (reply_of m)) (splitMessage (om_text m) MAX_LEN);
    ret tt.

(** ** Reconnecting *)

(** The attempts since the last connection, and the delay of the timer that is set. *)
Record reconnection := Reconnection { reconnectAttempts : nat; reconnectTimer : option Z }.

Definition handleConnectionState (state : connection) (r : reconnection) : reconnection :=
  if bool_decide (state = connected) then Reconnection 0 (reconnectTimer r) else r.

Definition handleReconnection (state : connection) (r : reconnection) : reconnection :=
  if bool_decide (state = connecting) then r
  else
    let n := S (reconnectAttempts r) in
    if (0 <? maxReconnectAttempts o)%nat && (maxReconnectAttempts o <? n)%nat then Reconnection n None
    else Reconnection n (Some (Z.min (reconnectBaseDelay o * 2 ^ Z.of_nat (n - 1)) (reconnectMaxDelay o))).
End Adapter.

(** ** Identifiers *)

(** The chat of an incoming message is the chat that a reply to it is sent to. *)
Lemma chat_id_readback (z : Z) : parseTelegramChatId ("tg:" ++ pretty z) = Ok z.
Proof.
  unfold parseTelegramChatId. rewrite (proj2 (prefix_app "tg:" _)) by (by eexists).
  change (str_drop 3 ("tg:" ++ pretty z)) with (pretty z).
  assert (Hneg : ∀ n : N, ∃ c r, pretty n = String c r ∧ c ≠ "-"%char).
  { intros n. unfold pretty, pretty_N. case_decide; [by exists "0"%char, ""|].
    destruct (pretty_N_first n "") as (c & r & -> & Hc); [lia|]. exists c, r. split; [done|].
    by apply digit_plain in Hc as (_ & ? & _). }
  destruct (decide (0 ≤ z)%Z) as [Hz|Hz].
  - rewrite pretty_Z_N by done. destruct (pretty_N_read (Z.to_N z)) as [Hd Hr].
    destruct (Hneg (Z.to_N z)) as (c & r & E & Hc). rewrite E in *. rewrite bool_decide_eq_false_2 by done.
    rewrite Hd, Hr. f_equal. lia.
  - destruct z as [|p|p]; [lia|lia|]. change (pretty (Z.neg p)) with ("-" ++ pretty (N.pos p)).
    change ("-" ++ pretty (N.pos p)) with (String "-" (pretty (N.pos p))). cbv beta iota zeta. rewrite bool_decide_eq_true_2 by done.
    by destruct (pretty_N_read (N.pos p)) as [-> ->].
Qed.

(** Escaping is undone by the first replacement of [stripMarkdown]. *)
Lemma escape_readback text : unescape (escapeMarkdownV2 text) = text.
Proof.
  induction text as [|c t IH]; [done|]. cbn [escapeMarkdownV2]. destruct (special c) eqn:E.
  - change (unescape (String "\" (String c (escapeMarkdownV2 t)))) with
      (if true && special c then String c (unescape (escapeMarkdownV2 t))
       else String "\" (unescape (String c (escapeMarkdownV2 t)))). rewrite E. simpl. by rewrite IH.
  - assert (c ≠ "\"%char) by (by intros ->). destruct (escapeMarkdownV2 t) as [|d r] eqn:Ed.
    + by rewrite <- IH.
    + change (unescape (String c (String d r))) with
        (if bool_decide (c = "\"%char) && special d then String d (unescape r) else String c (unescape (String d r))).
      rewrite bool_decide_eq_false_2 by done. simpl andb. cbn iota. by rewrite IH.
Qed.

(** A name loses its underscores when a message falls back to plain text. *)
Example underscores_lost : stripMarkdown "see my_file_name." = "see myfilename.".
Proof. reflexivity. Qed.

(** ** What is sent *)

(** The chat that an identifier names. *)
Definition names_chat (userId : string) (z : Z) : Prop := ∃ sign digits n,
  userId = "tg:" ++ sign ++ digits ∧ all_digits digits = true ∧ read_digits 0 false digits = Some n ∧
  ((sign = "" ∧ z = Z.of_N n) ∨ (sign = "-" ∧ z = (- Z.of_N n)%Z)).

Lemma read_digits_seen acc s : forallb (λ c, bool_decide (is_Some (digit c))) (String.list_ascii_of_string s) = true →
  is_Some (read_digits acc true s).
Proof.
  revert acc. induction s as [|c s IH]; intros acc; simpl; [by eexists|].
  intros [[d Hd]%bool_decide_eq_true Hs]%andb_true_iff. rewrite Hd. by apply IH.
Qed.

Lemma all_digits_read s : all_digits s = true → is_Some (read_digits 0 false s) ∧ ∀ t, s ≠ String "-" t.
Proof.
  unfold all_digits. destruct s as [|c s]; [done|]. cbn [String.list_ascii_of_string forallb]. intros [[Hc Hs]%andb_true_iff _]%andb_true_iff.
  apply bool_decide_eq_true in Hc as [d Hd]. split; [cbn [read_digits]; rewrite Hd; by apply read_digits_seen|].
  intros t [= -> _]. discriminate Hd.
Qed.

Lemma parse_names userId : match parseTelegramChatId userId with
  | Ok z => names_chat userId z
  | Err e => e = "Invalid Telegram chat ID: " ++ userId ∧ ∀ z, ¬ names_chat userId z
  end.
Proof.
  assert (H : ∀ rest, userId = "tg:" ++ rest → match parseTelegramChatId userId with
    | Ok z => names_chat userId z | Err e => e = "Invalid Telegram chat ID: " ++ userId ∧ ∀ z, ¬ names_chat userId z end).
  { intros rest ->. unfold parseTelegramChatId. rewrite (proj2 (prefix_app "tg:" _)) by (by eexists).
    change (str_drop 3 ("tg:" ++ rest)) with rest.
    set (p := match rest with String c r => if bool_decide (c = "-"%char) then ((-1)%Z, r) else (1%Z, rest) | EmptyString => (1%Z, rest) end).
    assert (Hp : (∃ r, rest = "-" ++ r ∧ p = ((-1)%Z, r)) ∨ ((∀ r, rest ≠ "-" ++ r) ∧ p = (1%Z, rest))).
    { unfold p. destruct rest as [|c r]; [right; by split|]. case_bool_decide as E; [left; exists r; by rewrite E|right].
      split; [|done]. intros r' [= -> _]. done. }
    assert (Hun : ∀ z sign digits n, "tg:" ++ rest = "tg:" ++ sign ++ digits → all_digits digits = true →
      read_digits 0 false digits = Some n → (sign = "" ∧ z = Z.of_N n) ∨ (sign = "-" ∧ z = (- Z.of_N n)%Z) → p.2 = digits).
    { intros z sign digits n E%string_app_inj Hd _ Hs. apply all_digits_read in Hd as [_ Hm].
      destruct Hs as [[-> _]|[-> _]]; (destruct Hp as [(r & Er & ->)|[Hn ->]]); cbn [snd].
      - rewrite Er in E. change ("" ++ digits) with digits in E. by destruct (Hm r).
      - exact E.
      - rewrite Er in E. by apply string_app_inj in E.
      - by destruct (Hn digits). }
    destruct p as [sign digits] eqn:Epp. cbn [snd] in Hun. destruct (all_digits digits) eqn:Ed.
    - pose proof Ed as [[n Hn] _]%all_digits_read. rewrite Hn. destruct Hp as [(r & -> & [= -> ->])|[_ [= -> ->]]].
      + exists "-", r, n. repeat split; [done|done|right; split; [done|lia]].
      + exists "", rest, n. repeat split; [done|done|left; split; [done|lia]].
    - split; [done|]. intros z (sg & dg & n & E & Hd & Hr & Hz). pose proof (Hun z sg dg n E Hd Hr Hz) as Eq. congruence. }
  destruct (starts_with "tg:" userId) eqn:E; [apply prefix_app in E as [r ->]; by apply (H r)|].
  unfold parseTelegramChatId. rewrite E. split; [done|]. intros z (sg & dg & n & -> & _).
  rewrite (proj2 (prefix_app "tg:" _)) in E; [done|by eexists].
Qed.

(** The text without formatting: an escaped character stands for itself, and the four
    characters of formatting are left out. *)
Definition specials : list ascii := String.list_ascii_of_string "_*[]()~`>#+-=|{}.!\".

Definition kept (c : ascii) (t : string) : string := if decide (c ∈ ["*"; "_"; "~"; "`"]%char) then t else String c t.

Inductive plain_text : string → string → Prop :=
| plain_nil : plain_text "" ""
| plain_escaped c s t : c ∈ specials → plain_text s t → plain_text (String "\" (String c s)) (kept c t)
| plain_other c s t : (∀ d r, s = String d r → c = "\"%char → d ∉ specials) → plain_text s t →
    plain_text (String c s) (kept c t).

Lemma formatting_kept c s : (if formatting c then drop_formatting s else String c (drop_formatting s)) = kept c (drop_formatting s).
Proof.
  unfold formatting, kept. case_bool_decide as E; case_decide as E'; done.
Qed.

Lemma strip_plain s : plain_text s (stripMarkdown s).
Proof.
  unfold stripMarkdown. remember (String.length s) as n eqn:En. assert (Hle : (String.length s ≤ n)%nat) by lia. clear En.
  revert s Hle. induction n as [|n IH]; intros [|c s] Hle; simpl in Hle; [constructor|lia|constructor|].
  destruct s as [|d r].
  - change (drop_formatting (unescape (String c ""))) with (if formatting c then drop_formatting "" else String c (drop_formatting "")).
    rewrite formatting_kept. constructor; [done|constructor].
  - change (unescape (String c (String d r))) with
      (if bool_decide (c = "\"%char) && special d then String d (unescape r) else String c (unescape (String d r))).
    destruct (bool_decide (c = "\"%char) && special d) eqn:E.
    + apply andb_true_iff in E as [->%bool_decide_eq_true Hd%bool_decide_eq_true]. cbn [drop_formatting]. rewrite formatting_kept.
      constructor; [done|]. apply IH. simpl in Hle. lia.
    + cbn [drop_formatting]. rewrite formatting_kept. constructor; [|apply IH; simpl in *; lia].
      intros d' r' [= <- <-] -> Hin. rewrite bool_decide_eq_true_2 in E by done. cbn in E.
      unfold special in E. apply bool_decide_eq_false in E. done.
Qed.

(** Only the messages handed to the transport have changed, by [log]. *)
Definition only_sent (w w' : adapter) (log : list (TelegramSendOptions * bool)) : Prop :=
  w' = Adapter (conn w) (sends w ++ log)%list (files w) (emitted w).

Lemma only_sent_nil w : only_sent w w [].
Proof. unfold only_sent. rewrite app_nil_r. by destruct w. Qed.

Section Outcomes.
Context (o : TelegramAdapterOptions).
Context (accepts : list (TelegramSendOptions * bool) → TelegramSendOptions → result unit).
Context (downloads : string → result string) (writes : string → result unit) (uuid : nat → string).

(** The pieces are sent one after the other, [before] having been sent already: each with its
    formatting, and as plain text when that is refused.  [log] is what is sent, and the
    error that of the piece that is refused both ways. *)
Inductive sent_pieces (z : Z) (reply : option string) (before : list (TelegramSendOptions * bool))
  : list string → list (TelegramSendOptions * bool) → result unit → Prop :=
| sent_all : sent_pieces z reply before [] [] (Ok tt)
| sent_formatted c cs log r : let m := SendOptions z c true reply in
    accepts before m = Ok tt → sent_pieces z reply (before ++ [(m, true)]) cs log r →
    sent_pieces z reply before (c :: cs) ((m, true) :: log) r
| sent_plain c cs plain e log r : let m := SendOptions z c true reply in let m' := SendOptions z plain false reply in
    accepts before m = Err e → plain_text c plain → accepts (before ++ [(m, false)])%list m' = Ok tt →
    sent_pieces z reply (before ++ [(m, false); (m', true)]) cs log r →
    sent_pieces z reply before (c :: cs) ((m, false) :: (m', true) :: log) r
| sent_refused c cs plain e e' : let m := SendOptions z c true reply in let m' := SendOptions z plain false reply in
    accepts before m = Err e → plain_text c plain → accepts (before ++ [(m, false)])%list m' = Err e' →
    sent_pieces z reply before (c :: cs) [(m, false); (m', false)] (Err e').

Lemma send_chunks_spec z reply chunks w :
  let '(r, w') := each_m (send_chunk accepts z reply) chunks w in
  ∃ log, only_sent w w' log ∧
    sent_pieces z reply (sends w) chunks log (match r with Ok _ => Ok tt | Err e => Err e end).
Proof.
  revert w. induction chunks as [|c chunks IH]; intros w.
  - exists []. split; [apply only_sent_nil|constructor].
  - cbn [each_m]. unfold bind at 1. unfold send_chunk at 1, try_catch, sendMessage.
    destruct (accepts (sends w) (SendOptions z c true reply)) as [[]|e] eqn:E1.
    + cbv beta iota. set (w1 := Adapter _ _ _ _). specialize (IH w1). unfold bind.
      destruct (each_m (send_chunk accepts z reply) chunks w1) as [r w2]. destruct IH as (log & -> & Hl).
      destruct r as [us|e]; (exists ((SendOptions z c true reply, true) :: log); split;
        [unfold only_sent, w1; cbn; by rewrite <- app_assoc|by constructor]).
    + cbv beta iota. cbn [sends is_ok]. pose proof (strip_plain c) as Hp.
      destruct (accepts (sends w ++ [(SendOptions z c true reply, false)])%list (SendOptions z (stripMarkdown c) false reply)) as [[]|e'] eqn:E2.
      * cbv beta iota. set (w1 := Adapter _ _ _ _). specialize (IH w1). unfold bind.
        destruct (each_m (send_chunk accepts z reply) chunks w1) as [r w2]. destruct IH as (log & -> & Hl).
        cbn [sends w1] in Hl. rewrite <- app_assoc in Hl.
        destruct r as [us|e']; (eexists; split;
          [unfold only_sent, w1; cbn; rewrite <- !app_assoc; reflexivity|by eapply sent_plain]).
      * eexists. split; [unfold only_sent; cbn; rewrite <- app_assoc; reflexivity|by eapply sent_refused].
Qed.

(** C34: a message is sent in pieces of at most 4096 characters, which are its text but for
    white space between them, in their order, to the chat that it names and as an answer to
    the message it answers.  Each piece is sent with its formatting and, if that is
    refused, once more as plain text; at the first piece that is refused both ways the
    sending stops with the error of that refusal, and it succeeds if there is none.  Without
    a connection, or a chat, nothing is sent and the error says so. *)
Theorem send_outcome m w :
  let '(r, w') := send accepts m w in
  let reply := match om_reply m with Some "" => None | other => other end in
  (conn w ≠ connected → r = Err "Telegram adapter not connected" ∧ w' = w) ∧
  (conn w = connected → (∀ z, ¬ names_chat (om_userId m) z) →
     r = Err ("Invalid Telegram chat ID: " ++ om_userId m) ∧ w' = w) ∧
  (conn w = connected → (∃ z, names_chat (om_userId m) z) →
     ∃ z chunks log, names_chat (om_userId m) z ∧ pieces (om_text m) chunks ∧
       Forall (λ c, (String.length c ≤ 4096)%nat ∧ (c = "" → om_text m = "")) chunks ∧
       only_sent w w' log ∧ sent_pieces z reply (sends w) chunks log r).
Proof.
  assert (Er : reply_of m = match om_reply m with Some "" => None | other => other end)
    by (unfold reply_of; by destruct (om_reply m) as [[|a t]|]).
  cbv zeta. rewrite <- Er. unfold send. unfold bind at 1. cbn [asks].
  destruct (bool_decide (conn w = connected)) eqn:Ec; cbn [negb].
  - apply bool_decide_eq_true in Ec. unfold bind at 1, of_result. pose proof (parse_names (om_userId m)) as Hp.
    destruct (parseTelegramChatId (om_userId m)) as [z|e].
    + destruct (splitMessage_pieces (om_text m) MAX_LEN) as [Hc Hl]; [unfold MAX_LEN; lia|]. unfold bind.
      pose proof (send_chunks_spec z (reply_of m) (splitMessage (om_text m) MAX_LEN) w) as Hs.
      destruct (each_m _ _ w) as [r w1]; destruct Hs as (log & Hw & Hs).
      assert (Hall : ∃ z chunks log, names_chat (om_userId m) z ∧ pieces (om_text m) chunks ∧
        Forall (λ c, (String.length c ≤ 4096)%nat ∧ (c = "" → om_text m = "")) chunks ∧
        only_sent w w1 log ∧ sent_pieces z (reply_of m) (sends w) chunks log (match r with Ok _ => Ok tt | Err e => Err e end))
        by (exists z, (splitMessage (om_text m) MAX_LEN), log; done).
      destruct r as [us|e]; (split; [done|]; split; [intros _ Hn; by destruct (Hn z)|done]).
    + destruct Hp as [-> Hn]. split; [done|]. split; [done|]. intros _ [z Hz]. by destruct (Hn z).
  - apply bool_decide_eq_false in Ec. done.
Qed.

(** ** What is passed on *)

(** A file of the message is fetched and kept under a new name, or the error of the one or
    the other is had. *)
Inductive saved (file ext : string) (w : adapter) : adapter → result (option string) → Prop :=
| saved_lost e : downloads file = Err e → saved file ext w w (Err e)
| saved_unwritten data e : downloads file = Ok data →
    writes (downloadDir o ++ "/" ++ uuid (length (files w)) ++ "." ++ ext) = Err e → saved file ext w w (Err e)
| saved_kept data : let path := downloadDir o ++ "/" ++ uuid (length (files w)) ++ "." ++ ext in
    downloads file = Ok data → writes path = Ok tt →
    saved file ext w (Adapter (conn w) (sends w) (files w ++ [(path, data)])%list (emitted w)) (Ok (Some path)).

(** The media of one kind: there are some if the kind and a file are named. *)
Inductive media {A} (kind : option A) (file : option string) (ext : string) (w : adapter)
  : adapter → result (option string) → Prop :=
| media_none : kind = None ∨ file = None ∨ file = Some "" → media kind file ext w w (Ok None)
| media_some f w' r : is_Some kind → file = Some f → f ≠ "" → saved f ext w w' r → media kind file ext w w' r.

Definition sender_name (msg : TelegramTransportMessage) (s : string) : Prop :=
  let first := t_firstName msg in
  (first ≠ "" → ∀ last, t_lastName msg = Some last → last ≠ "" → s = first ++ " " ++ last) ∧
  (first ≠ "" → t_lastName msg = None ∨ t_lastName msg = Some "" → s = first) ∧
  (first = "" → ∀ name, t_username msg = Some name → name ≠ "" → s = name) ∧
  (first = "" → t_username msg = None ∨ t_username msg = Some "" → s = pretty (t_fromId msg)).

(** What a message becomes, with the files that were kept. *)
Definition passed_on (msg : TelegramTransportMessage) (audio image : option string) (m : InboundMessage) : Prop :=
  ∃ sender, sender_name msg sender ∧
  m = Inbound (pretty (t_messageId msg)) "telegram" ("tg:" ++ pretty (t_chatId msg)) sender
    (match audio, image, t_text msg with None, None, Some t => Some t | _, _, _ => t_caption msg end) audio image
    (match t_reply msg with Some 0%Z => None | other => pretty <$> other end)
    (t_timestamp msg * 1000) false
    (JObj (("telegramUserId", JNum (t_fromId msg)) :: ("chatType", JStr (t_chatType msg)) ::
       member "entities" JArr (t_entities msg) ++
       (match audio, t_voice msg with
        | Some _, Some v => ("duration", JNum (v_duration v)) :: member "mimeType" JStr (v_mimeType v) | _, _ => [] end) ++
       (match image, t_photo msg with
        | Some _, Some p => ("width", JNum (p_width p)) :: ("height", JNum (p_height p)) :: member "fileSize" JNum (p_fileSize p)
        | _, _ => [] end))%list).

Lemma option_truthy_iff (f : option string) : option_truthy f = true ↔ ∃ s, f = Some s ∧ s ≠ "".
Proof. destruct f as [[|c s]|]; cbn; naive_solver. Qed.

Lemma sender_name_built msg : sender_name msg (buildSenderName msg).
Proof.
  unfold sender_name, buildSenderName. cbv zeta. destruct (t_firstName msg) as [|c f]; cbn [str_truthy andb].
  - destruct (t_username msg) as [[|u v]|]; cbn; naive_solver.
  - destruct (t_lastName msg) as [[|u v]|]; cbn; naive_solver.
Qed.

Lemma save_media_saved f ext w : let '(r, w') := save_media o downloads writes uuid f ext w in
  saved f ext w w' (match r with Ok p => Ok (Some p) | Err e => Err e end).
Proof.
  unfold save_media, bind, of_result, asks, modify, ret.
  destruct (downloads f) as [b|e] eqn:Ed; [|by constructor].
  destruct (writes _) as [[]|e] eqn:Ew; [|by eapply saved_unwritten]. by constructor.
Qed.

Lemma file_named (f : option string) : option_truthy f = true → ∃ p, f = Some p ∧ p ≠ "" ∧ default "" f = p.
Proof. intros (p & -> & Hp)%option_truthy_iff. by exists p. Qed.

Lemma file_unnamed (f : option string) : option_truthy f = false → f = None ∨ f = Some "".
Proof. destruct f as [[|c t]|]; cbn; auto; discriminate. Qed.

(** What the media of one kind do to a message. *)
Definition attached {A} (kind : option A) (add : string → A → InboundMessage → InboundMessage) (m : InboundMessage)
    (a : result (option string)) (r : result InboundMessage) : Prop :=
  match a with
  | Ok None => r = Ok m
  | Ok (Some p) => ∃ v, kind = Some v ∧ r = Ok (add p v m)
  | Err e => r = Err e
  end.

Lemma attach_voice_spec msg m w : let '(r, w') := attach_voice o downloads writes uuid msg m w in
  ∃ a, media (t_voice msg) (t_filePath msg) "ogg" w w' a ∧ attached (t_voice msg) (λ p, with_audio p (t_caption msg)) m a r.
Proof.
  unfold attach_voice. destruct (t_voice msg) as [v|] eqn:Ev; [|exists (Ok None); split; [constructor; auto|done]].
  destruct (option_truthy (t_filePath msg)) eqn:Ef; [|exists (Ok None); split; [constructor; by apply file_unnamed in Ef as [?|?]; auto|done]].
  apply file_named in Ef as (f & Ef & Hf & ->). unfold bind. pose proof (save_media_saved f "ogg" w) as Hs.
  destruct (save_media _ _ _ _ _ _ w) as [[p|e] w1]; (eexists; split; [eapply media_some; [by eexists|exact Ef|exact Hf|exact Hs]|]);
    [by exists v|done].
Qed.

Lemma attach_photo_spec msg m w : let '(r, w') := attach_photo o downloads writes uuid msg m w in
  ∃ a, media (t_photo msg) (t_filePath msg) "jpg" w w' a ∧ attached (t_photo msg) (λ p, with_image p (t_caption msg)) m a r.
Proof.
  unfold attach_photo. destruct (t_photo msg) as [v|] eqn:Ev; [|exists (Ok None); split; [constructor; auto|done]].
  destruct (option_truthy (t_filePath msg)) eqn:Ef; [|exists (Ok None); split; [constructor; by apply file_unnamed in Ef as [?|?]; auto|done]].
  apply file_named in Ef as (f & Ef & Hf & ->). unfold bind. pose proof (save_media_saved f "jpg" w) as Hs.
  destruct (save_media _ _ _ _ _ _ w) as [[p|e] w1]; (eexists; split; [eapply media_some; [by eexists|exact Ef|exact Hf|exact Hs]|]);
    [by exists v|done].
Qed.

Lemma attached_passed_on msg a b m1 m2 :
  attached (t_voice msg) (λ p, with_audio p (t_caption msg)) (normalize msg) (Ok a) (Ok m1) →
  attached (t_photo msg) (λ p, with_image p (t_caption msg)) m1 (Ok b) (Ok m2) → passed_on msg a b m2.
Proof.
  assert (Hr : (match t_reply msg with Some n => if (n =? 0)%Z then None else Some (pretty n) | None => None end) =
    (match t_reply msg with Some 0%Z => None | other => pretty <$> other end))
    by (destruct (t_reply msg) as [[|q|q]|]; done).
  intros H1 H2. exists (buildSenderName msg). split; [apply sender_name_built|].
  destruct a as [pa|], b as [pb|]; cbn in H1, H2.
  - destruct H1 as (v & -> & [= ->]), H2 as (q & -> & [= ->]). unfold normalize, with_audio, with_image. cbn. rewrite Hr.
    by rewrite <- !app_assoc.
  - destruct H1 as (v & -> & [= ->]). injection H2 as ->. unfold normalize, with_audio. cbn. rewrite Hr.
    by rewrite app_nil_r.
  - injection H1 as ->. destruct H2 as (q & -> & [= ->]). unfold normalize, with_image. cbn. by rewrite Hr.
  - injection H1 as ->. injection H2 as ->. unfold normalize. cbn. rewrite Hr, app_nil_r. by destruct (t_text msg).
Qed.

(** The name that a greeting uses. *)
Definition greeted (msg : TelegramTransportMessage) (name : string) : Prop :=
  let first := t_firstName msg in
  (first ≠ "" → name = first) ∧ (first = "" → ∀ user, t_username msg = Some user → user ≠ "" → name = user) ∧
  (first = "" → t_username msg = None ∨ t_username msg = Some "" → name = "there").

Lemma allowed_iff u : isUserAllowed o u = true ↔ allowedUsers o = [] ∨ u ∈ allowedUsers o.
Proof.
  unfold isUserAllowed. destruct (allowedUsers o) as [|x l]; [naive_solver|]. rewrite bool_decide_eq_true. naive_solver.
Qed.

(** C35: the list of allowed users is empty or has the sender, or the message is answered
    once with a refusal and goes no further.  The start command of an allowed user is
    answered with a greeting, and goes no further.  Any other message of an allowed user is
    passed on once, under the identifier of its chat and with everything it said; a voice
    note or a photo that names a file is fetched and kept, and the message passed on names
    the kept file; if it cannot be fetched or kept, the message is not passed on, and the
    handler rejects with that error. *)
Theorem message_outcome msg w :
  let '(r, w') := handleTransportMessage o accepts downloads writes uuid msg w in
  let allowed := allowedUsers o = [] ∨ t_fromId msg ∈ allowedUsers o in
  let start := ∃ t, t_text msg = Some t ∧ trim t = "/start" in
  (¬ allowed → r = Ok tt ∧ ∃ b, only_sent w w'
     [(SendOptions (t_chatId msg) "Access denied. Contact the administrator to get access." false None, b)]) ∧
  (allowed → start → ∃ name, greeted msg name ∧
     let m := SendOptions (t_chatId msg)
       ("Hi " ++ name ++ "! I'm your FlowHelm assistant. Send me a message and I'll help you out.") false None in
     r = accepts (sends w) m ∧ only_sent w w' [(m, is_ok r)]) ∧
  (allowed → ¬ start → ∃ a w1, media (t_voice msg) (t_filePath msg) "ogg" w w1 a ∧
     match a with
     | Err e => r = Err e ∧ w' = w1
     | Ok audio => ∃ b w2, media (t_photo msg) (t_filePath msg) "jpg" w1 w2 b ∧
         match b with
         | Err e => r = Err e ∧ w' = w2
         | Ok image => r = Ok tt ∧ ∃ m, passed_on msg audio image m ∧ names_chat (userId m) (t_chatId msg) ∧
             w' = Adapter (conn w2) (sends w2) (files w2) (emitted w2 ++ [m])%list
         end
     end).
Proof.
  unfold handleTransportMessage. pose proof (allowed_iff (t_fromId msg)) as Hal. cbv zeta.
  destruct (isUserAllowed o (t_fromId msg)); cbv beta iota delta [negb].
  - assert (Ha : allowedUsers o = [] ∨ t_fromId msg ∈ allowedUsers o) by by apply Hal.
    case_bool_decide as Et.
    + assert (Hs : ∃ t, t_text msg = Some t ∧ trim t = "/start") by by apply fmap_Some_1 in Et as (t & -> & ?); eauto.
      split; [done|]. split; [intros _ _|done].
      exists (if str_truthy (t_firstName msg) then t_firstName msg
              else if option_truthy (t_username msg) then default "" (t_username msg) else "there").
      split; [|done]. unfold greeted. cbv zeta. destruct (t_firstName msg) as [|c f]; cbn [str_truthy];
        [destruct (t_username msg) as [[|x y]|]; cbn; naive_solver|done].
    + assert (Hs : ¬ ∃ t, t_text msg = Some t ∧ trim t = "/start") by (intros (t & E & Ht); apply Et; by rewrite E; cbn; rewrite Ht).
      unfold bind at 1. cbv beta. pose proof (attach_voice_spec msg (normalize msg) w) as H1.
      destruct (attach_voice o downloads writes uuid msg (normalize msg) w) as [r1 w1]. destruct H1 as (a & Hm1 & Ha1).
      destruct r1 as [m1|e].
      2: { cbv beta iota. split; [done|]. split; [done|]. intros _ _. exists a, w1. split; [done|].
           destruct a as [[p|]|e']; cbn in Ha1; [by destruct Ha1 as (? & _ & ?)|done|by injection Ha1 as ->]. }
      destruct a as [a|e']; [|done]. unfold bind. cbv beta iota. pose proof (attach_photo_spec msg m1 w1) as H2.
      destruct (attach_photo o downloads writes uuid msg m1 w1) as [r2 w2]. destruct H2 as (b & Hm2 & Ha2).
      destruct r2 as [m2|e]; cbv beta iota.
      2: { split; [done|]. split; [done|]. intros _ _. exists (Ok a), w1. split; [done|]. exists b, w2. split; [done|].
           destruct b as [[p|]|e']; cbn in Ha2; [by destruct Ha2 as (? & _ & ?)|done|by injection Ha2 as ->]. }
      destruct b as [b|e']; [|done]. unfold emit, modify. cbv beta iota. split; [done|]. split; [done|]. intros _ _.
      exists (Ok a), w1. split; [done|]. exists (Ok b), w2. split; [done|]. split; [done|]. exists m2.
      pose proof (attached_passed_on msg a b m1 m2 Ha1 Ha2) as Hp. split; [done|]. split; [|done].
      destruct Hp as (sender & _ & ->). cbn [userId]. pose proof (parse_names ("tg:" ++ pretty (t_chatId msg))) as Hn.
      by rewrite chat_id_readback in Hn.
  - assert (Ha : ¬ (allowedUsers o = [] ∨ t_fromId msg ∈ allowedUsers o)) by (intros H; by apply Hal in H).
    unfold try_catch, sendMessage, ret. cbv beta iota zeta.
    destruct (accepts (sends w) (SendOptions (t_chatId msg) DENIED false None)) as [[]|e];
      (split; [intros _; split; [done|by eexists]|by split]).
Qed.

(** ** Reconnecting *)

(** Delays are between the base and the limit; a connection starts them over; and with a
    limit of attempts no timer is set beyond it. *)
Lemma reconnection_delay state r d : (0 < reconnectBaseDelay o ≤ reconnectMaxDelay o)%Z → state ≠ connecting →
  reconnectTimer (handleReconnection o state r) = Some d →
  (reconnectBaseDelay o ≤ d ≤ reconnectMaxDelay o)%Z ∧
  ((0 < maxReconnectAttempts o)%nat → (reconnectAttempts (handleReconnection o state r) ≤ maxReconnectAttempts o)%nat).
Proof.
  intros Hb Hs. unfold handleReconnection. rewrite bool_decide_eq_false_2 by done.
  destruct ((0 <? maxReconnectAttempts o)%nat && _) eqn:E; [done|]. cbn [reconnectTimer reconnectAttempts]. intros [= <-].
  assert (1 ≤ 2 ^ Z.of_nat (S (reconnectAttempts r) - 1))%Z by (apply Z.lt_pred_le; simpl; apply Z.pow_pos_nonneg; lia).
  split; [nia|]. intros Hm. apply andb_false_iff in E as [E|E]; bool_cases; lia.
Qed.
End Outcomes.
