(* ===== verification/WhatsApp.v ===== *)
(** * The WhatsApp adapter

    [src/channels/whatsapp/adapter.ts] over the transport of
    [src/channels/whatsapp/transport.ts]: what becomes of a message of the transport and
    of a message to send, and the state machine of reconnections, with every timer that
    is set.  The client library, the file system and the source of identifiers are
    outside.  The splitting of long messages is that of [JsString.v]. *)

From Stdlib Require Import Ascii.
From S2P Require Import Prelude JsMap JsString JsNumber MessageQueue Command Telegram.
Local Open Scope list_scope.
Local Open Scope string_scope.
Local Open Scope fh_scope.

(** ** Texts *)

Definition parseWhatsAppJid (userId : string) : result string :=
  if starts_with "wa:" userId then Ok (str_drop 3 userId) else Err ("Invalid WhatsApp chat ID: " ++ userId).

(** No type is named like a member that every object has. *)
Definition EXTENSIONS : jsmap string :=
  [("audio/ogg", "ogg"); ("audio/mpeg", "mp3"); ("audio/mp4", "m4a"); ("audio/wav", "wav"); ("image/jpeg", "jpg");
   ("image/png", "png"); ("image/webp", "webp"); ("image/gif", "gif"); ("video/mp4", "mp4")].

Definition mimeToExtension (mime : string) : string :=
  default "bin" (map_get EXTENSIONS (to_lower (trim (default mime (head (str_split ";" mime)))))).

(** ** Messages *)

Record TransportMessage := WaMessage {
  w_id : string;
  w_senderJid : string;
  w_chatJid : string;
  w_senderName : string;
  w_text : option string;
  w_audio : option string;
  w_audioMime : option string;
  w_image : option string;
  w_imageMime : option string;
  w_caption : option string;
  w_fromMe : bool;
  w_timestamp : Z;
  w_quoted : option string }.

Record WhatsAppAdapterOptions := WaOptions {
  downloadDir : string;
  allowedNumbers : list string;
  maxReconnectAttempts : nat;
  reconnectBaseDelay : Z;
  reconnectMaxDelay : Z }.

(** What the client was given and whether it accepted it, the files written, the messages
    given to the handlers. *)
Record wa_adapter := Wa {
  conn : connection;
  sends : list (string * string * bool);
  files : list (string * string);
  emitted : list InboundMessage }.

Definition normalize (msg : TransportMessage) : InboundMessage :=
  Inbound (w_id msg) "whatsapp" ("wa:" ++ w_chatJid msg) (w_senderName msg)
    (match w_text msg with Some t => Some t | None => w_caption msg end) None None (w_quoted msg)
    (w_timestamp msg * 1000) false (JObj [("senderJid", JStr (w_senderJid msg)); ("chatJid", JStr (w_chatJid msg))]).

(** [metadata.mimeType = mime]; a member that is undefined is none. *)
Definition set_mime (mime : option string) (v : jvalue) : jvalue :=
  match v with
  | JObj fs => JObj match mime with Some m => map_set fs "mimeType" (JStr m) | None => map_delete fs "mimeType" end
  | _ => v
  end.

Definition with_audio (path : string) (mime : option string) (m : InboundMessage) : InboundMessage :=
  Inbound (msg_id m) (channel m) (userId m) (senderName m) (text m) (Some path) (imagePath m) (replyToMessageId m)
    (timestamp m) (isFromMe m) (set_mime mime (metadata m)).

Definition with_image (path : string) (mime : option string) (m : InboundMessage) : InboundMessage :=
  Inbound (msg_id m) (channel m) (userId m) (senderName m) (text m) (audioPath m) (Some path) (replyToMessageId m)
    (timestamp m) (isFromMe m) (set_mime mime (metadata m)).

Section Adapter.
Context (o : WhatsAppAdapterOptions).
Context (accepts : list (string * string * bool) → string → string → result unit).
Context (writes : string → result unit) (uuid : nat → string).

Abbreviation act := (M wa_adapter).

Definition isNumberAllowed (number : string) : bool :=
  match allowedNumbers o with [] => true | l => bool_decide (number ∈ l) end.

Definition emit (m : InboundMessage) : act unit := modify (λ w, Wa (conn w) (sends w) (files w) (emitted w ++ [m])%list).

Definition save_media (buffer mime : string) : act string :=
  do w <- asks (λ w, w);
  let path := downloadDir o ++ "/" ++ uuid (length (files w)) ++ "." ++ mimeToExtension mime in
  run of_result (writes path);
  run modify (λ w, Wa (conn w) (sends w) (files w ++ [(path, buffer)])%list (emitted w));
  ret path.

Definition attach (buffer mime : option string) (otherwise : string)
  (put : string → option string → InboundMessage → InboundMessage) (m : InboundMessage) : act InboundMessage :=
  match buffer with
  | Some b => do path <- save_media b (default otherwise mime); ret (put path mime m)
  | None => ret m
  end.

Definition sender_number (msg : TransportMessage) : string := default "" (head (str_split "@" (w_senderJid msg))).

Definition handleTransportMessage (msg : TransportMessage) : act unit :=
  if w_fromMe msg then ret tt
  else if negb (isNumberAllowed (sender_number msg)) then ret tt
  else
    do m <- attach (w_audio msg) (w_audioMime msg) "audio/ogg" with_audio (normalize msg);
    do m <- attach (w_image msg) (w_imageMime msg) "image/jpeg" with_image m;
    emit m.

(** The transport, which does not pass on an empty text. *)
Definition sendMessage (jid txt : string) : act unit := λ w,
  if negb (bool_decide (conn w = connected)) then (Err "WhatsApp transport not connected", w)
  else if str_truthy txt then
    let r := accepts (sends w) jid txt in
    (r, Wa (conn w) (sends w ++ [(jid, txt, is_ok r)])%list (files w) (emitted w))
  else (Ok tt, w).

Definition send (m : OutboundMessage) : act unit :=
  do c <- asks conn;
  if negb (bool_decide (c = connected)) then throw "WhatsApp adapter not connected"
  else
    do jid <- of_result (parseWhatsAppJid (om_userId m));
    run each_m (sendMessage jid) (splitMessage (om_text m) MAX_LEN);
    ret tt.
End Adapter.

(** ** Connecting again *)

(** The state of the transport, the adapter's counter, whether it has connected before,
    the timer it remembers, the timers that will fire, with their delays, the number of
    the next timer, and how often the transport was told to connect. *)
Record connecting_state := Connecting {
  c_conn : connection;
  attempts : nat;
  authState : bool;
  reconnectTimer : option nat;
  pending : list (nat * Z);
  next_timer : nat;
  connects : nat }.

Section Reconnection.
Context (o : WhatsAppAdapterOptions).

Definition handleReconnection (s : connecting_state) : connecting_state :=
  if negb (authState s) then s
  else
    let n := S (attempts s) in
    if (0 <? maxReconnectAttempts o)%nat && (maxReconnectAttempts o <? n)%nat then
      Connecting (c_conn s) n true (reconnectTimer s) (pending s) (next_timer s) (connects s)
    else
      let delay := Z.min (reconnectBaseDelay o * 2 ^ Z.of_nat (n - 1)) (reconnectMaxDelay o) in
      Connecting (c_conn s) n true (Some (next_timer s)) (pending s ++ [(next_timer s, delay)])%list (S (next_timer s)) (connects s).

Definition handleConnectionState (state : connection) (s : connecting_state) : connecting_state :=
  match state with
  | connected => Connecting (c_conn s) 0 (authState s) (reconnectTimer s) (pending s) (next_timer s) (connects s)
  | disconnected => handleReconnection s
  | connecting => s
  end.

Definition put_conn (c : connection) (s : connecting_state) : connecting_state :=
  Connecting c (attempts s) (authState s) (reconnectTimer s) (pending s) (next_timer s) (connects s).

(** The transport is told to connect. *)
Definition transport_connect (s : connecting_state) : connecting_state :=
  handleConnectionState connecting
    (Connecting connecting (attempts s) (authState s) (reconnectTimer s) (pending s) (next_timer s) (S (connects s))).

(** [connect]; the state of the session has been loaded. *)
Definition connect (s : connecting_state) : connecting_state :=
  transport_connect (Connecting (c_conn s) (attempts s) true (reconnectTimer s) (pending s) (next_timer s) (connects s)).

(** [disconnect]: the remembered timer is cleared before the transport is closed. *)
Definition disconnect (s : connecting_state) : connecting_state :=
  let s := match reconnectTimer s with
           | Some i => Connecting (c_conn s) (attempts s) (authState s) None (filter (λ t, t.1 ≠ i) (pending s)) (next_timer s) (connects s)
           | None => s
           end in
  put_conn disconnected s.

(** [connection.update] of the client: the connection is open, or closed, which is also
    what the client answers when its socket is ended. *)
Definition handleConnectionUpdate (open : bool) (s : connecting_state) : connecting_state :=
  if open then handleConnectionState connected (put_conn connected s)
  else handleConnectionState disconnected (put_conn disconnected s).

(** A timer fires; [ok] is whether the transport's [connect] does not throw. *)
Definition fire (i : nat) (ok : bool) (s : connecting_state) : connecting_state :=
  if bool_decide (i ∈ map fst (pending s)) then
    let s := Connecting (c_conn s) (attempts s) (authState s) (reconnectTimer s) (filter (λ t, t.1 ≠ i) (pending s)) (next_timer s) (connects s) in
    if authState s then
      let s := transport_connect s in
      if ok then s else handleReconnection s
    else s
  else s.

Inductive wa_event := Connect | Disconnect | Update (open : bool) | Fire (i : nat) (ok : bool).

Definition wa_step (s : connecting_state) (ev : wa_event) : connecting_state :=
  match ev with
  | Connect => connect s
  | Disconnect => disconnect s
  | Update open => handleConnectionUpdate open s
  | Fire i ok => fire i ok s
  end.

Definition wa_start : connecting_state := Connecting disconnected 0 false None [] 0 0.
End Reconnection.

(** ** What is sent *)

Definition accepted_texts (jid : string) (log : list (string * string * bool)) : list string :=
  omap (λ x : string * string * bool, if x.2 && bool_decide (x.1.1 = jid) then Some x.1.2 else None) log.

Definition only_sent (w w' : wa_adapter) (log : list (string * string * bool)) : Prop :=
  w' = Wa (conn w) (sends w ++ log)%list (files w) (emitted w).

Lemma wa_only_sent_nil w : only_sent w w [].
Proof. unfold only_sent. rewrite app_nil_r. by destruct w. Qed.

Section Outcomes.
Context (o : WhatsAppAdapterOptions).
Context (accepts : list (string * string * bool) → string → string → result unit).
Context (writes : string → result unit) (uuid : nat → string).

Lemma send_pieces_spec jid chunks w : conn w = connected → Forall (λ c, c ≠ "") chunks →
  let '(r, w') := each_m (sendMessage accepts jid) chunks w in
  ∃ log n, only_sent w w' log ∧ accepted_texts jid log = take n chunks ∧ (is_ok r = true → take n chunks = chunks).
Proof.
  revert w. induction chunks as [|c chunks IH]; intros w Hw Hne.
  - exists [], 0. split; [apply wa_only_sent_nil|done].
  - apply Forall_cons in Hne as [Hc Hne]. cbn [each_m]. unfold bind at 1, sendMessage at 1.
    rewrite bool_decide_eq_true_2 by done. cbv beta iota delta [negb].
    assert (str_truthy c = true) as -> by (by destruct c). destruct (accepts (sends w) jid c) as [[]|e]; cbn [is_ok].
    + unfold bind. set (w1 := Wa _ _ _ _). specialize (IH w1 Hw Hne).
      destruct (each_m (sendMessage accepts jid) chunks w1) as [[us|e] w2];
        destruct IH as (log & n & -> & Ha & Hn); exists ((jid, c, true) :: log), (S n);
        (split; [unfold only_sent; cbn; by rewrite <- app_assoc|]); cbn [accepted_texts omap list_omap fst snd andb];
        rewrite bool_decide_eq_true_2 by done; cbn [take];
        (split; [f_equal; exact Ha|]); [|done]. intros _. f_equal. by apply Hn.
    + exists [(jid, c, false)], 0. by split.
Qed.

(** The pieces of a message; an empty text is not handed over. *)
Definition message_pieces (txt : string) : list string :=
  if str_truthy txt then splitMessage txt MAX_LEN else [].

Lemma send_text_spec jid txt w : conn w = connected →
  let '(r, w') := each_m (sendMessage accepts jid) (splitMessage txt MAX_LEN) w in
  ∃ log n, only_sent w w' log ∧ accepted_texts jid log = take n (message_pieces txt) ∧
    (is_ok r = true → take n (message_pieces txt) = message_pieces txt).
Proof.
  intros Hw. unfold message_pieces. destruct (str_truthy txt) eqn:Et.
  - apply send_pieces_spec; [done|]. destruct (splitMessage_pieces txt MAX_LEN) as [_ Hp]; [unfold MAX_LEN; lia|].
    eapply Forall_impl; [exact Hp|]. intros c [_ Hc] ->. by rewrite (Hc eq_refl) in Et.
  - destruct txt; [|done]. change (splitMessage "" MAX_LEN) with [""]. cbn [each_m]. unfold bind, sendMessage.
    rewrite bool_decide_eq_true_2 by done. cbn. exists [], 0. by split; [apply wa_only_sent_nil|].
Qed.

(** A message that is sent when connected is handed over in its pieces, in their order and
    to the chat it names, up to the first that is refused: it succeeds exactly if all
    were accepted, and otherwise a beginning of it was. *)
Theorem wa_send_outcome m w :
  let '(r, w') := send accepts m w in
  let pieces := message_pieces (om_text m) in
  ∃ log n jid, only_sent w w' log ∧ accepted_texts jid log = take n pieces ∧
    (log ≠ [] → parseWhatsAppJid (om_userId m) = Ok jid) ∧
    (is_ok r = true → conn w = connected ∧ take n pieces = pieces).
Proof.
  unfold send. unfold bind at 1. cbn [asks]. destruct (bool_decide (conn w = connected)) eqn:Ec; cbn [negb].
  - apply bool_decide_eq_true in Ec. unfold bind at 1, of_result. destruct (parseWhatsAppJid (om_userId m)) as [jid|e].
    + pose proof (send_text_spec jid (om_text m) w Ec) as Hs. unfold bind.
      destruct (each_m _ _ w) as [[us|e] w1]; destruct Hs as (log & n & Hs & Ha & Hn); exists log, n, jid;
        do 3 (split; [done|]); [intros _; split; [done|exact (Hn eq_refl)]|done].
    + exists [], 0, "". by split; [apply wa_only_sent_nil|].
  - exists [], 0, "". by split; [apply wa_only_sent_nil|].
Qed.

(** ** What is passed on *)

Record normalized (msg : TransportMessage) (m : InboundMessage) : Prop := {
  nz_id : msg_id m = w_id msg;
  nz_channel : channel m = "whatsapp";
  nz_chat : parseWhatsAppJid (userId m) = Ok (w_chatJid msg);
  nz_sender : senderName m = w_senderName msg;
  nz_time : timestamp m = (w_timestamp msg * 1000)%Z;
  nz_self : isFromMe m = false;
  nz_reply : replyToMessageId m = w_quoted msg;
  nz_text : text m = match w_text msg with Some t => Some t | None => w_caption msg end }.

Lemma wa_normalize_ok msg : normalized msg (normalize msg).
Proof. split; try done. unfold parseWhatsAppJid. cbn [normalize userId]. by rewrite (proj2 (prefix_app "wa:" _)) by (by eexists). Qed.

Definition only_files (w w' : wa_adapter) : Prop :=
  ∃ l, w' = Wa (conn w) (sends w) (files w ++ l)%list (emitted w).

Lemma wa_only_files_refl w : only_files w w.
Proof. exists []. rewrite app_nil_r. by destruct w. Qed.

Lemma wa_only_files_trans w1 w2 w3 : only_files w1 w2 → only_files w2 w3 → only_files w1 w3.
Proof. intros [l1 ->] [l2 ->]. exists (l1 ++ l2)%list. simpl. by rewrite app_assoc. Qed.

(** A file that holds the buffer, for each medium that the message has. *)
Definition kept (w : wa_adapter) (path buffer : option string) : Prop :=
  match buffer with Some b => ∃ p, path = Some p ∧ (p, b) ∈ files w | None => path = None end.

Lemma kept_mono w w' path buffer : only_files w w' → kept w path buffer → kept w' path buffer.
Proof.
  intros [l ->]. destruct buffer as [b|]; [|done]. intros (p & -> & Hp). exists p. split; [done|]. apply elem_of_app. by left.
Qed.

Lemma attach_spec buffer mime otherwise put m w :
  let '(r, w') := attach o writes uuid buffer mime otherwise put m w in
  only_files w w' ∧ ∀ m', r = Ok m' →
    match buffer with Some b => ∃ p, m' = put p mime m ∧ (p, b) ∈ files w' | None => m' = m end.
Proof.
  unfold attach, save_media, bind, asks, of_result, modify, ret. destruct buffer as [b|]; [|split; [apply wa_only_files_refl|by intros m' [= <-]]].
  destruct (writes _) as [[]|e]; [|split; [apply wa_only_files_refl|done]]. split; [by eexists|].
  intros m' [= <-]. eexists. split; [done|]. cbn. apply elem_of_app. right. by left.
Qed.

(** A message that the user wrote himself, or of a number that is not allowed, goes no
    further; any other is passed on once, normalised, with its media in files, unless a
    file cannot be written: then it is not passed on and the handler rejects.  A reply to
    what was passed on goes to the chat it came from. *)
Theorem wa_message_outcome msg w :
  let '(r, w') := handleTransportMessage o writes uuid msg w in
  (w_fromMe msg = true ∨ isNumberAllowed o (sender_number msg) = false → r = Ok tt ∧ w' = w) ∧
  (w_fromMe msg = false → isNumberAllowed o (sender_number msg) = true →
     sends w' = sends w ∧
     match r with
     | Ok _ => ∃ m, emitted w' = (emitted w ++ [m])%list ∧ normalized msg m ∧
                    kept w' (audioPath m) (w_audio msg) ∧ kept w' (imagePath m) (w_image msg)
     | Err _ => emitted w' = emitted w
     end).
Proof.
  unfold handleTransportMessage. destruct (w_fromMe msg); [by split|].
  destruct (isNumberAllowed o (sender_number msg)); cbv beta iota delta [negb]; [|by split].
  unfold bind at 1. pose proof (attach_spec (w_audio msg) (w_audioMime msg) "audio/ogg" with_audio (normalize msg) w) as H1.
  destruct (attach _ _ _ (w_audio msg) _ _ _ _ w) as [[m1|e] w1]; destruct H1 as [Hf1 H1]; [specialize (H1 _ eq_refl)|].
  2:{ destruct Hf1 as [l ->]. split; [by intros [?|?]|done]. }
  unfold bind. pose proof (attach_spec (w_image msg) (w_imageMime msg) "image/jpeg" with_image m1 w1) as H2.
  destruct (attach _ _ _ (w_image msg) _ _ _ _ w1) as [[m2|e] w2]; destruct H2 as [Hf2 H2]; [specialize (H2 _ eq_refl)|].
  2:{ destruct Hf1 as [l1 ->], Hf2 as [l2 ->]. split; [by intros [?|?]|done]. }
  split; [by intros [?|?]|]. intros _ _. unfold emit, modify. cbn [sends emitted].
  pose proof (wa_normalize_ok msg) as Hn. assert (Hm1 : normalized msg m1 ∧ kept w1 (audioPath m1) (w_audio msg) ∧ imagePath m1 = None).
  { destruct (w_audio msg); [destruct H1 as (p & -> & Hp)|subst m1]; (split; [by destruct Hn; split|]); (split; [|done]); [by exists p|done]. }
  destruct Hm1 as (Hn1 & Ha1 & Hi1). apply (kept_mono _ _ _ _ Hf2) in Ha1.
  assert (Hm2 : normalized msg m2 ∧ kept w2 (audioPath m2) (w_audio msg) ∧ kept w2 (imagePath m2) (w_image msg)).
  { destruct (w_image msg); [destruct H2 as (p & -> & Hp)|subst m2]; (split; [by destruct Hn1; split|]); (split; [done|]); [by exists p|done]. }
  destruct (wa_only_files_trans _ _ _ Hf1 Hf2) as [l E]. split; [by rewrite E|]. exists m2. by split; [rewrite E|].
Qed.
End Outcomes.

(** ** Connecting again *)

Section Reconnecting.
Context (o : WhatsAppAdapterOptions) (Hbase : (0 < reconnectBaseDelay o ≤ reconnectMaxDelay o)%Z).

(** The timers that will fire have different numbers and delays between the base and the
    limit; the remembered one may have fired. *)
Record timers_ok (s : connecting_state) : Prop := {
  to_delays : Forall (λ t, (reconnectBaseDelay o ≤ t.2 ≤ reconnectMaxDelay o)%Z) (pending s);
  to_numbers : NoDup (map fst (pending s));
  to_next : Forall (λ i, i < next_timer s) (map fst (pending s)) }.

Lemma timers_without i s c a b r k : timers_ok s →
  timers_ok (Connecting c a b r (filter (λ t, t.1 ≠ i) (pending s)) (next_timer s) k).
Proof.
  intros [Hd Hn Hx]. split; cbn.
  - rewrite Forall_forall in Hd |- *. intros t [_ Ht]%list_elem_of_filter. by apply Hd.
  - eapply sublist_NoDup; [exact Hn|]. apply (fmap_sublist fst), sublist_filter.
  - rewrite Forall_forall in Hx |- *. intros j Hj. apply Hx. apply (list_elem_of_fmap fst) in Hj as (t & -> & [_ Ht]%list_elem_of_filter).
    by apply (list_elem_of_fmap_2 fst).
Qed.

Lemma handleReconnection_ok s : timers_ok s → timers_ok (handleReconnection o s).
Proof.
  intros [Hd Hn Hx]. unfold handleReconnection. destruct (authState s); [|done]. cbn [negb].
  destruct ((0 <? maxReconnectAttempts o)%nat && _); [by split|]. split; cbn [pending next_timer].
  - apply Forall_app. split; [done|]. constructor; [|constructor]. cbv beta. cbn [snd].
    pose proof (Z.pow_pos_nonneg 2 (Z.of_nat (S (attempts s) - 1)) ltac:(lia) ltac:(lia)) as Hp.
    set (k := (2 ^ Z.of_nat (S (attempts s) - 1))%Z) in *. nia.
  - rewrite map_app. apply NoDup_app. split; [done|]. split; [|by apply NoDup_singleton].
    intros i Hi ->%list_elem_of_singleton. rewrite Forall_forall in Hx. specialize (Hx _ Hi). cbn in Hx. lia.
  - rewrite map_app. apply Forall_app. split; [|by repeat constructor; lia]. eapply Forall_impl; [exact Hx|]. cbn. lia.
Qed.

(** However connections are opened and closed and timers fire, every delay is between the
    base and the limit, and no timer is set twice. *)
Theorem reconnection_ok evs : timers_ok (fold_left (wa_step o) evs wa_start).
Proof.
  assert (Hstep : ∀ s ev, timers_ok s → timers_ok (wa_step o s ev)).
  { intros s ev Hs. assert (Hput : ∀ c a r k b, timers_ok (Connecting c a b r (pending s) (next_timer s) k)) by (by destruct Hs; split).
    destruct ev as [| |[]|i ok]; cbn [wa_step].
    - apply Hput.
    - unfold disconnect. destruct (reconnectTimer s) as [i|]; unfold put_conn; cbn; [by apply timers_without|apply Hput].
    - apply Hput.
    - apply handleReconnection_ok, Hput.
    - unfold fire. case_bool_decide; [|done]. cbn [authState].
      destruct (authState s); [|by apply timers_without]. cbv zeta.
      destruct ok; [by apply (timers_without i s)|]. by apply handleReconnection_ok, (timers_without i s). }
  assert (H : ∀ s, timers_ok s → timers_ok (fold_left (wa_step o) evs s)).
  { induction evs as [|ev evs IH]; intros s Hs; [done|]. by apply IH, Hstep. }
  apply H. split; constructor.
Qed.
End Reconnecting.

Definition example_options : WhatsAppAdapterOptions := WaOptions "/downloads" [] 3 1000 60000.

Lemma reconnection_ok_witness :
  let s := fold_left (wa_step example_options) [Connect; Update false; Fire 0 false; Update false] wa_start in
  map snd (pending s) = [2000; 4000]%Z ∧ timers_ok example_options s.
Proof.
  split; [reflexivity|]. apply (reconnection_ok example_options); cbn; lia.
Defined.

(** After [disconnect] the client reports that its socket is closed: the adapter sets a
    timer and connects again. *)
Example connects_after_disconnect :
  let s := fold_left (wa_step example_options) [Connect; Update true; Disconnect; Update false; Fire 0 true] wa_start in
  (c_conn s, connects s) = (connecting, 2).
Proof. reflexivity. Qed.

(** Two reports that the connection is closed set two timers, of which the adapter
    remembers one: the other fires after the connection has been opened again, and a
    second one is opened beside it. *)
Example forgotten_timer :
  let s := fold_left (wa_step example_options)
             [Connect; Update true; Update false; Update false; Fire 0 true; Update true; Fire 1 true] wa_start in
  (connects s, map fst (pending (fold_left (wa_step example_options)
     [Connect; Update true; Update false; Update false; Disconnect] wa_start))) = (3, [0]).
Proof. reflexivity. Qed.
