(* ===== verification/GmailClient.v ===== *)
(** * Mail as Gmail's API has it

    [src/channels/gmail/gmail-client.ts], the part without requests: the message of the
    API with its tree of MIME parts, what [parseGmailMessage] makes of it, base64url, and
    the RFC 2822 text of a mail to send.  The client's requests are in
    [GmailTransport.v].  A text that travels in base64 is its UTF-8 bytes here, so that
    [Buffer.from] and [toString('utf-8')] are the identity. *)

From Stdlib Require Import Ascii ZifyN.
From S2P Require Import Prelude JsMap JsString GmailFilter.
Local Open Scope list_scope.
Local Open Scope string_scope.

(** ** Base64 *)

Definition BASE64 : string := "ABCDEFGHIJKLMNOPQRSTUVWXYZabcdefghijklmnopqrstuvwxyz0123456789+/".

Definition digit64 (n : N) : ascii := default "="%char (String.get (N.to_nat n) BASE64).

(** [buffer.toString('base64')] *)
Fixpoint base64 (s : string) : string :=
  match s with
  | String a (String b (String c s)) =>
      let n := (N_of_ascii a * 65536 + N_of_ascii b * 256 + N_of_ascii c)%N in
      String (digit64 (n / 262144)) (String (digit64 (n / 4096 mod 64))
        (String (digit64 (n / 64 mod 64)) (String (digit64 (n mod 64)) (base64 s))))
  | String a (String b "") =>
      let n := (N_of_ascii a * 256 + N_of_ascii b)%N in
      String (digit64 (n / 1024)) (String (digit64 (n / 16 mod 64)) (String (digit64 (n mod 16 * 4)) "="))
  | String a "" => String (digit64 (N_of_ascii a / 4)) (String (digit64 (N_of_ascii a mod 4 * 16)) "==")
  | EmptyString => ""
  end.

Definition value64 (c : ascii) : option N :=
  let n := N_of_ascii c in
  if (65 <=? n)%N && (n <=? 90)%N then Some (n - 65)%N
  else if (97 <=? n)%N && (n <=? 122)%N then Some (n - 71)%N
  else if (48 <=? n)%N && (n <=? 57)%N then Some (n + 4)%N
  else if (n =? 43)%N || (n =? 45)%N then Some 62%N
  else if (n =? 47)%N || (n =? 95)%N then Some 63%N
  else None.

(** The digits up to the padding; other characters are skipped. *)
Fixpoint digits64 (s : string) : list N :=
  match s with
  | EmptyString => []
  | String c s => if bool_decide (c = "="%char) then [] else option_list (value64 c) ++ digits64 s
  end%list.

Fixpoint bytes64 (l : list N) : string :=
  match l with
  | a :: b :: c :: d :: l =>
      String (ascii_of_N (a * 4 + b / 16)) (String (ascii_of_N (b mod 16 * 16 + c / 4))
        (String (ascii_of_N (c mod 4 * 64 + d)) (bytes64 l)))
  | [a; b; c] => String (ascii_of_N (a * 4 + b / 16)) (String (ascii_of_N (b mod 16 * 16 + c / 4)) "")
  | [a; b] => String (ascii_of_N (a * 4 + b / 16)) ""
  | _ => ""
  end.

(** [Buffer.from(s, 'base64')] *)
Definition from_base64 (s : string) : string := bytes64 (digits64 s).

(** [s.replace(/a/g, b)] for one character. *)
Fixpoint replace_char (a b : ascii) (s : string) : string :=
  match s with
  | EmptyString => ""
  | String c s => String (if bool_decide (c = a) then b else c) (replace_char a b s)
  end.

(** [s.replace(/=+$/, '')] *)
Fixpoint drop_padding (s : string) : string :=
  match s with
  | EmptyString => ""
  | String c s => let r := drop_padding s in if bool_decide (c = "="%char) && negb (str_truthy r) then "" else String c r
  end.

Definition encodeBase64Url (data : string) : string :=
  drop_padding (replace_char "/" "_" (replace_char "+" "-" (base64 data))).

Definition decodeBase64Url (data : string) : string :=
  from_base64 (replace_char "_" "/" (replace_char "-" "+" data)).

(** ** The message *)

Record GmailHeader := Header { h_name : string; h_value : string }.

(** [attachmentId] is not in the type of the source, which casts to it; [internalDate] is
    the number in its text. *)
Record part_body := Body { data : option string; size : Z; attachmentId : option string }.

#[universes(template=no)] Inductive GmailMessagePayload :=
| Payload (mimeType : string) (headers : list GmailHeader) (body : option part_body) (parts : list GmailMessagePayload).

Definition p_headers (p : GmailMessagePayload) : list GmailHeader := let '(Payload _ hs _ _) := p in hs.
Definition p_parts (p : GmailMessagePayload) : list GmailMessagePayload := let '(Payload _ _ _ ps) := p in ps.

Record GmailMessage := Message {
  g_id : string;
  g_threadId : string;
  g_labelIds : list string;
  g_snippet : string;
  internalDate : Z;
  payload : GmailMessagePayload }.

Record AttachmentMeta := Attachment { a_filename : string; a_mimeType : string; a_size : Z; a_id : option string }.

(** [filtered] is what the filter reads of it. *)
Record ParsedEmail := Parsed {
  e_id : string;
  e_threadId : string;
  filtered : GmailFilter.ParsedEmail;
  e_to : string;
  e_snippet : string;
  e_date : Z;
  bodyText : option string;
  attachments : list AttachmentMeta }.

(** ** Parsing *)

Definition getHeader (p : GmailMessagePayload) (name : string) : string :=
  match List.find (λ h, bool_decide (to_lower (h_name h) = to_lower name)) (p_headers p) with
  | Some h => h_value h
  | None => ""
  end.

Definition header_map (hs : list GmailHeader) : jsmap string :=
  foldl (λ m h, map_set m (to_lower (h_name h)) (h_value h)) [] hs.

(** The text of a part of type text/plain that has data. *)
Definition own_text (p : GmailMessagePayload) : option string :=
  let '(Payload mime _ body _) := p in
  if bool_decide (mime = "text/plain") then
    b ← body; d ← truthy_text (data b); Some (decodeBase64Url d)
  else None.

Fixpoint extractBodyText (p : GmailMessagePayload) : option string :=
  match own_text p with
  | Some t => Some t
  | None =>
      let '(Payload _ _ _ ps) := p in
      (fix first l := match l with
                      | [] => None
                      | q :: l => match truthy_text (extractBodyText q) with Some t => Some t | None => first l end
                      end) ps
  end.

(** The longest beginning without a quotation mark and a semicolon. *)
Fixpoint unquoted (s : string) : string :=
  match s with
  | String c s => if bool_decide (c = "034"%char ∨ c = ";"%char) then "" else String c (unquoted s)
  | EmptyString => ""
  end.

(** The regular expression that finds [key=], perhaps a quotation mark, and then captures
    such a beginning if it is not empty, whatever the case of its letters. *)
Fixpoint parameter (key s : string) : option string :=
  let here :=
    if starts_with (key ++ "=") (to_lower s) then
      let r := str_drop (String.length key + 1) s in
      truthy_text (Some (unquoted (if starts_with (String "034" "") r then str_drop 1 r else r)))
    else None in
  match here, s with
  | Some v, _ => Some v
  | None, String _ s => parameter key s
  | None, EmptyString => None
  end.

Definition filename_of (h : GmailHeader) : option string :=
  let n := to_lower (h_name h) in
  if bool_decide (n = "content-disposition") then trim <$> parameter "filename" (h_value h)
  else if bool_decide (n = "content-type") then trim <$> parameter "name" (h_value h)
  else None.

Definition getPartFilename (p : GmailMessagePayload) : option string := head (omap filename_of (p_headers p)).

Definition isBodyMimeType (mime : string) : bool := bool_decide (mime = "text/plain" ∨ mime = "text/html").

(** What a part adds. *)
Definition attachment_of (p : GmailMessagePayload) : option AttachmentMeta :=
  let '(Payload mime _ body _) := p in
  let filename := truthy_text (getPartFilename p) in
  let attachmentId := truthy_text (b ← body; attachmentId b) in
  if bool_decide (is_Some filename) || bool_decide (is_Some attachmentId) && negb (isBodyMimeType mime) then
    Some (Attachment (default "unnamed" filename) mime (default 0%Z (size <$> body)) attachmentId)
  else None.

Fixpoint collectAttachments (p : GmailMessagePayload) (out : list AttachmentMeta) : list AttachmentMeta :=
  let '(Payload _ _ _ ps) := p in
  let out := (out ++ option_list (attachment_of p))%list in
  (fix each l out := match l with
                     | [] => out
                     | q :: l => each l (collectAttachments q out)
                     end) ps out.

Definition extractAttachments (p : GmailMessagePayload) : list AttachmentMeta := collectAttachments p [].

Definition parseGmailMessage (m : GmailMessage) : ParsedEmail :=
  let p := payload m in
  let label l := bool_decide (l ∈ g_labelIds m) in
  Parsed (g_id m) (g_threadId m)
    (Email (getHeader p "From") (getHeader p "Subject") (g_labelIds m) (label "STARRED") (label "IMPORTANT")
       (header_map (p_headers p)))
    (getHeader p "To") (g_snippet m) (internalDate m) (extractBodyText p) (extractAttachments p).

(** ** Mail to send *)

Record raw_options := RawOptions {
  r_from : string; r_to : string; r_subject : string; r_body : string; inReplyTo : option string; references : option string }.

Definition crlf : string := String "013" (String "010" "").

Definition raw_headers (o : raw_options) : list string :=
  app ["From: " ++ r_from o; "To: " ++ r_to o; "Subject: " ++ r_subject o; "MIME-Version: 1.0";
       "Content-Type: text/plain; charset=utf-8"]
 (app (option_list ((λ r, "In-Reply-To: " ++ r) <$> truthy_text (inReplyTo o)))
      (option_list ((λ r, "References: " ++ r) <$> truthy_text (references o)))).

Definition buildRawEmail (o : raw_options) : string :=
  encodeBase64Url (String.concat crlf (raw_headers o) ++ crlf ++ crlf ++ r_body o).

(** ** Base64 is read back *)

Arguments digit64 : simpl never.

(** Linear arithmetic with quotients and remainders. *)
Ltac div_lia := zify; Z.div_mod_to_equations; lia.

Lemma digit64_value n : (n < 64)%N → value64 (digit64 n) = Some n ∧ digit64 n ≠ "="%char.
Proof.
  intros Hn. assert (H : Forall (λ k, value64 (digit64 (N.of_nat k)) = Some (N.of_nat k) ∧ digit64 (N.of_nat k) ≠ "="%char) (seq 0 64)).
  { apply (bool_decide_unpack _). vm_compute. exact I. }
  rewrite Forall_forall in H. specialize (H (N.to_nat n)). rewrite N2Nat.id in H. apply H, elem_of_seq. lia.
Qed.

Lemma digits64_digit n s : (n < 64)%N → digits64 (String (digit64 n) s) = n :: digits64 s.
Proof.
  intros Hn. destruct (digit64_value n Hn) as [Hv Hd]. simpl. by rewrite bool_decide_eq_false_2, Hv by done.
Qed.

Lemma digits64_replace a b s : value64 a = value64 b → a ≠ "="%char → b ≠ "="%char →
  digits64 (replace_char a b s) = digits64 s.
Proof.
  intros Hv Ha Hb. induction s as [|c s IH]; [done|]. simpl. rewrite IH. destruct (decide (c = a)) as [->|Hc].
  - by rewrite (bool_decide_eq_true_2 (a = a)), Hv, !bool_decide_eq_false_2 by done.
  - by rewrite (bool_decide_eq_false_2 (c = a)).
Qed.

Lemma digits64_unpadded s : digits64 (drop_padding s) = digits64 s.
Proof.
  induction s as [|c s IH]; [done|]. simpl. destruct (decide (c = "="%char)) as [->|Hc].
  - rewrite bool_decide_eq_true_2 by done. by destruct (str_truthy _).
  - rewrite bool_decide_eq_false_2 by done. simpl. by rewrite bool_decide_eq_false_2, IH by done.
Qed.

Lemma ascii_of_N_eq m c : m = N_of_ascii c → ascii_of_N m = c.
Proof. intros ->. apply ascii_N_embedding. Qed.

Lemma from_base64_readback s : from_base64 (base64 s) = s.
Proof.
  unfold from_base64.
  enough (H : ∀ n s, (String.length s ≤ n)%nat → bytes64 (digits64 (base64 s)) = s) by by apply (H (String.length s)).
  induction n as [|n IH]; intros [|a [|b [|c r]]] Hl; simpl in Hl; try lia; try done; cbn [base64]; cbv zeta;
    pose proof (N_ascii_bounded a) as Ha; try (pose proof (N_ascii_bounded b) as Hb);
    try (pose proof (N_ascii_bounded c) as Hc); repeat (rewrite digits64_digit; [|div_lia]).
  - cbn. f_equal. apply ascii_of_N_eq. div_lia.
  - cbn. f_equal; [|f_equal]; apply ascii_of_N_eq; div_lia.
  - cbn [bytes64]. rewrite IH by lia. f_equal; [|f_equal; [|f_equal]]; apply ascii_of_N_eq; div_lia.
Qed.

(** What was encoded for a request, or by the API in the same way, is decoded. *)
Lemma base64url_readback s : decodeBase64Url (encodeBase64Url s) = s.
Proof.
  unfold decodeBase64Url, encodeBase64Url, from_base64. rewrite !digits64_replace, digits64_unpadded by done.
  rewrite !digits64_replace by done. apply from_base64_readback.
Qed.

Example encode_ex : encodeBase64Url "any carnal ple>?" = "YW55IGNhcm5hbCBwbGU-Pw".
Proof. reflexivity. Qed.

(** ** A mail is read back *)

(** A reader of RFC 2822: lines up to an empty one, and what follows it. *)
Fixpoint read_mail (line : string) (s : string) : option (list string * string) :=
  match s with
  | EmptyString => None
  | String c r =>
      match c, r with
      | "013"%char, String "010"%char r =>
          if bool_decide (line = "") then Some ([], r)
          else m ← read_mail "" r; Some (line :: m.1, m.2)
      | _, _ => read_mail (line ++ String c "") r
      end
  end.

Lemma read_header_line line l r : lacks "013"%char l →
  read_mail line (l ++ r) = read_mail (line ++ l) r.
Proof.
  revert line. induction l as [|c l IH]; intros line Hl; [by rewrite string_app_nil_r|].
  apply lacks_cons in Hl as [Hc Hl]. rewrite string_app_cons. cbn [read_mail].
  assert (Hn : read_mail (line ++ String c "") (l ++ r) = read_mail (line ++ String c l) r).
  { rewrite (IH _ Hl). by rewrite string_app_assoc. }
  destruct c as [[] [] [] [] [] [] [] []]; try exact Hn; by destruct Hc.
Qed.

Lemma read_headers (h : string) (hs : list string) body : Forall (λ l, lacks "013"%char l ∧ l ≠ "") (h :: hs) →
  read_mail "" (String.concat crlf (h :: hs) ++ crlf ++ crlf ++ body) = Some (h :: hs, body).
Proof.
  assert (Hend : ∀ l (r : string), l ≠ "" → read_mail l (crlf ++ r) = m ← read_mail "" r; Some (l :: m.1, m.2)).
  { intros l r Hl. change (crlf ++ r) with (String "013" (String "010" r)). cbn [read_mail]. by rewrite bool_decide_eq_false_2. }
  revert h. induction hs as [|h2 hs IH]; intros h [[Hl Hn] Hr]%Forall_cons.
  - change (String.concat crlf [h]) with h. rewrite read_header_line by done. change ("" ++ h)%string with h. by rewrite Hend.
  - change (String.concat crlf (h :: h2 :: hs)) with (h ++ crlf ++ String.concat crlf (h2 :: hs)).
    rewrite !string_app_assoc, read_header_line by done. change ("" ++ h)%string with h. by rewrite Hend, IH.
Qed.

(** Values of headers on one line. *)
Definition one_line (o : raw_options) : Prop :=
  Forall (lacks "013"%char) ([r_from o; r_to o; r_subject o; default "" (inReplyTo o); default "" (references o)] : list string).

(** What the API is asked to send is, decoded and read, the headers in their order and the
    body as it was, if no header has a line break in it. *)
Theorem mail_readback o : one_line o →
  read_mail "" (decodeBase64Url (buildRawEmail o)) = Some (raw_headers o, r_body o).
Proof.
  intros Ho. unfold buildRawEmail. rewrite base64url_readback. apply read_headers.
  unfold one_line in Ho. rewrite !Forall_cons in Ho. destruct Ho as (H1 & H2 & H3 & H4 & H5 & _).
  assert (Hp : ∀ p v, bool_decide (lacks "013"%char p) = true → lacks "013"%char v → p ≠ "" → lacks "013"%char (p ++ v) ∧ p ++ v ≠ "").
  { intros p v Hp%bool_decide_eq_true Hv Hne. split; [by apply lacks_app|]. by destruct p. }
  repeat (apply Forall_cons; split; [first [by apply Hp|split; [by apply (bool_decide_unpack _); vm_compute|done]]|]).
  apply Forall_app. split.
  - destruct (inReplyTo o) as [[|c r]|]; cbn; repeat constructor; apply Hp; done.
  - destruct (references o) as [[|c r]|]; cbn; repeat constructor; apply Hp; done.
Qed.

Definition example_mail : raw_options := RawOptions "me@x.org" "you@y.org" "Re: hello" ("One" ++ crlf ++ crlf ++ "two") (Some "<1@y>") None.

Lemma mail_readback_witness :
  read_mail "" (decodeBase64Url (buildRawEmail example_mail)) =
  Some (["From: me@x.org"; "To: you@y.org"; "Subject: Re: hello"; "MIME-Version: 1.0"; "Content-Type: text/plain; charset=utf-8";
         "In-Reply-To: <1@y>"]%list, "One" ++ crlf ++ crlf ++ "two").
Proof. apply (mail_readback example_mail). by apply (bool_decide_unpack _); vm_compute. Defined.

(** A subject with a line break adds a header of its own. *)
Example header_added :
  fst <$> read_mail "" (decodeBase64Url (buildRawEmail (RawOptions "a" ("b" ++ crlf ++ "Bcc: c") "" "" None None))) =
  Some ["From: a"; "To: b"; "Bcc: c"; "Subject: "; "MIME-Version: 1.0"; "Content-Type: text/plain; charset=utf-8"]%list.
Proof. vm_compute. reflexivity. Qed.

(** ** The tree of parts *)

Section Induction.
Context (P : GmailMessagePayload → Prop).
Context (HP : ∀ mime hs body ps, Forall P ps → P (Payload mime hs body ps)).

Fixpoint payload_nested_ind (p : GmailMessagePayload) : P p :=
  let '(Payload mime hs body ps) := p in
  HP mime hs body ps ((fix go l : Forall P l := match l with
                                             | [] => Forall_nil_2 _
                                             | q :: l => Forall_cons_2 _ _ _ (payload_nested_ind q) (go l)
                                             end) ps).
End Induction.

(** All parts, each before the ones inside it. *)
Fixpoint all_parts (p : GmailMessagePayload) : list GmailMessagePayload :=
  let '(Payload _ _ _ ps) := p in p :: flat_map all_parts ps.

(** The parts that are looked at for a text: those in a part that is a text are not. *)
Fixpoint texts (p : GmailMessagePayload) : list string :=
  match own_text p with
  | Some t => [t]
  | None => let '(Payload _ _ _ ps) := p in flat_map texts ps
  end.

Lemma collect_spec p out : collectAttachments p out = (out ++ omap attachment_of (all_parts p))%list.
Proof.
  revert out. induction p as [mime hs body ps IH] using payload_nested_ind. intros out.
  cbn [collectAttachments all_parts omap list_omap]. generalize (attachment_of (Payload mime hs body ps)) as a. intros a.
  assert (Hps : ∀ out, (fix each (l : list GmailMessagePayload) (out : list AttachmentMeta) : list AttachmentMeta :=
      match l with [] => out | q :: l => each l (collectAttachments q out) end) ps out =
    (out ++ omap attachment_of (flat_map all_parts ps))%list).
  { clear out. induction IH as [|q ps Hq _ IHl]; intros out; [by rewrite app_nil_r|].
    cbn [flat_map]. rewrite omap_app, IHl, Hq. by rewrite <- app_assoc. }
  rewrite Hps. destruct a; simpl; by rewrite <- app_assoc.
Qed.

Lemma first_text p : truthy_text (extractBodyText p) = head (filter (λ t, t ≠ "") (texts p)).
Proof.
  induction p as [mime hs body ps IH] using payload_nested_ind. cbn [extractBodyText texts].
  destruct (own_text _) as [t|]; [by destruct t|].
  induction IH as [|q ps Hq _ IHl]; [done|]. cbn [flat_map]. rewrite filter_app, Hq.
  destruct (filter (λ t, t ≠ "") (texts q)) as [|t l] eqn:E; [exact IHl|]. cbn [head app].
  assert (t ≠ "") as Ht by (by apply (list_elem_of_filter (λ t, t ≠ "") (texts q) t); rewrite E; left).
  by destruct t.
Qed.

(** The attachments are those of all parts in the order of the mail, and the text, where
    there is one, is the first text of a plain part that is not empty. *)
Theorem message_parsed m :
  attachments (parseGmailMessage m) = omap attachment_of (all_parts (payload m)) ∧
  truthy_text (bodyText (parseGmailMessage m)) = head (filter (λ t, t ≠ "") (texts (payload m))).
Proof. split; [exact (collect_spec _ [])|exact (first_text _)]. Qed.
