(* ===== verification/GmailTransport.v ===== *)
(** * The notifications of Gmail

    [src/channels/gmail/transport.ts] with [watch.ts], [pubsub-pull.ts] and the requests of
    [gmail-client.ts]: a daemon pulls notifications from Pub/Sub, a notification makes the
    transport fetch what the mailbox's history lists since the last one, and each new mail
    is delivered once.  The functions are threads over one state, since notifications,
    pulls and renewals overlap.  The answers of Google's servers are an argument, one for
    each request by its number; the connection to the IMAP server is an event. *)

From Stdlib Require Import Ascii.
From S2P Require Import Prelude JsMap JsString JsParse Json JsonText GmailFilter GmailClient Jobs Threads.
From stdpp Require Import pretty.
Local Open Scope fh_scope.
Local Open Scope list_scope.
Local Open Scope string_scope.

(** ** Requests and answers *)

Record request := Request { verb : string; path : string; token : string; content : option string }.

(** [Broken] is a request that fails or an answer that is no JSON, [Refused] one that is
    not ok. *)
#[universes(template=no)] Inductive answer (A : Type) :=
| Broken
| Refused (status : Z)
| Answered (a : A).
Arguments Broken {A}.
Arguments Refused {A} status.
Arguments Answered {A} a.

(** [new URLSearchParams(l).toString()] *)
Fixpoint form_text (s : string) : string :=
  match s with
  | EmptyString => ""
  | String c s =>
      (if bool_decide (c = " "%char) then "+"
       else if bool_decide (c ∈ String.list_ascii_of_string "abcdefghijklmnopqrstuvwxyzABCDEFGHIJKLMNOPQRSTUVWXYZ0123456789*-._")
       then String c "" else percent (JsMap.unit_of c)) ++ form_text s
  end.

Definition form (l : list (string * string)) : string :=
  String.concat "&" (map (λ e, form_text e.1 ++ "=" ++ form_text e.2) l).

(** The answers, as their types in the source say. *)
Record GmailHistoryRecord := HistoryRecord { messagesAdded : option (list string) }.
Record GmailHistoryResponse := History { history : option (list GmailHistoryRecord); next_page : option string }.
Record GmailWatchResponse := WatchResponse { wr_historyId : string; wr_expiration : Z }.
Record PubSubReceivedMessage := Received { ackId : string; pm_data : string }.

Record servers := Servers {
  on_token : nat → request → answer (string * Z);
  on_history : nat → request → answer GmailHistoryResponse;
  on_message : nat → request → answer GmailMessage;
  on_list : nat → request → answer (option (list string));
  on_watch : nat → request → answer GmailWatchResponse;
  on_stop : nat → request → answer unit;
  on_profile : nat → request → answer string;
  on_send : nat → request → answer (string * string);
  on_pull : nat → request → answer (option (list PubSubReceivedMessage));
  on_ack : nat → request → answer unit }.

(** ** The state *)

Record OAuthTokens := Tokens { accessToken : string; expiresAt : Z }.

Record WatchState := Watch { historyId : string; expiration : Z; active : bool }.

Inductive timer_kind := Renewal | Retry.

Inductive connection := disconnected | connecting | connected.

(** The client's tokens; the watch, its remembered timer, the timers that are armed and
    the number of the next one; the transport with its cache; the daemon; and outside of
    it: how many requests were sent, the mails and errors handed to the handlers, and the
    mails whose fetching was reported as failed. *)
Record mailbox := Mailbox {
  tokens : option OAuthTokens;
  watch : WatchState;
  renewalTimer : option nat;
  armed : list (nat * timer_kind);
  next_timer : nat;
  conn : connection;
  processedIds : list string;
  running : bool;
  pulling : bool;
  cachedToken : option OAuthTokens;
  pullTimer : bool;
  requests : nat;
  delivered : list ParsedEmail;
  errors : nat;
  failed : list string }.

Definition new_mailbox : mailbox :=
  Mailbox None (Watch "" 0 false) None [] 0 disconnected [] false false None false 0 [] 0 [].

Definition with_tokens (x : option OAuthTokens) (s : mailbox) : mailbox :=
  Mailbox x (watch s) (renewalTimer s) (armed s) (next_timer s) (conn s) (processedIds s) (running s) (pulling s) (cachedToken s) (pullTimer s) (requests s) (delivered s) (errors s) (failed s).
Definition with_watch (x : WatchState) (s : mailbox) : mailbox :=
  Mailbox (tokens s) x (renewalTimer s) (armed s) (next_timer s) (conn s) (processedIds s) (running s) (pulling s) (cachedToken s) (pullTimer s) (requests s) (delivered s) (errors s) (failed s).
Definition with_timers (r : option nat) (l : list (nat * timer_kind)) (k : nat) (s : mailbox) : mailbox :=
  Mailbox (tokens s) (watch s) r l k (conn s) (processedIds s) (running s) (pulling s) (cachedToken s) (pullTimer s) (requests s) (delivered s) (errors s) (failed s).
Definition with_conn (x : connection) (s : mailbox) : mailbox :=
  Mailbox (tokens s) (watch s) (renewalTimer s) (armed s) (next_timer s) x (processedIds s) (running s) (pulling s) (cachedToken s) (pullTimer s) (requests s) (delivered s) (errors s) (failed s).
Definition with_daemon (r p : bool) (t : bool) (s : mailbox) : mailbox :=
  Mailbox (tokens s) (watch s) (renewalTimer s) (armed s) (next_timer s) (conn s) (processedIds s) r p (cachedToken s) t (requests s) (delivered s) (errors s) (failed s).
Definition with_cached (x : option OAuthTokens) (s : mailbox) : mailbox :=
  Mailbox (tokens s) (watch s) (renewalTimer s) (armed s) (next_timer s) (conn s) (processedIds s) (running s) (pulling s) x (pullTimer s) (requests s) (delivered s) (errors s) (failed s).
Definition with_mail (ids : list string) (l : list ParsedEmail) (s : mailbox) : mailbox :=
  Mailbox (tokens s) (watch s) (renewalTimer s) (armed s) (next_timer s) (conn s) ids (running s) (pulling s) (cachedToken s) (pullTimer s) (requests s) l (errors s) (failed s).
Definition with_log (r e : nat) (l : list string) (s : mailbox) : mailbox :=
  Mailbox (tokens s) (watch s) (renewalTimer s) (armed s) (next_timer s) (conn s) (processedIds s) (running s) (pulling s) (cachedToken s) (pullTimer s) r (delivered s) e l.

Definition requested (s : mailbox) : mailbox := with_log (S (requests s)) (errors s) (failed s) s.

(** ** Identifiers of the history *)

Fixpoint radix_digits (base acc : N) (s : string) : option N :=
  match s with
  | EmptyString => Some acc
  | String c s => d ← hex_value c; if (d <? base)%N then radix_digits base (acc * base + d)%N s else None
  end.

Definition nonempty_digits (base : N) (s : string) : option N :=
  if str_truthy s then radix_digits base 0 s else None.

(** [BigInt(s)], [None] where it throws. *)
Definition BigInt (s : string) : option Z :=
  let s := trim s in
  if bool_decide (s = "") then Some 0%Z
  else if starts_with "0x" s || starts_with "0X" s then Z.of_N <$> nonempty_digits 16 (str_drop 2 s)
  else if starts_with "0o" s || starts_with "0O" s then Z.of_N <$> nonempty_digits 8 (str_drop 2 s)
  else if starts_with "0b" s || starts_with "0B" s then Z.of_N <$> nonempty_digits 2 (str_drop 2 s)
  else if starts_with "-" s then Z.opp <$> (Z.of_N <$> nonempty_digits 10 (str_drop 1 s))
  else Z.of_N <$> nonempty_digits 10 (if starts_with "+" s then str_drop 1 s else s).

Example bigints : map BigInt ["0123"; " 9 "; ""; "-7"; "0x1F"; "1a"; "+"] =
  [Some 123%Z; Some 9%Z; Some 0%Z; Some (-7)%Z; Some 31%Z; None; None].
Proof. vm_compute. reflexivity. Qed.

(** ** The functions *)

(** [options], and the service account's key as far as it can be read. *)
Record transport_options := TransportOptions {
  pubsub : bool;
  emailAddress : string;
  oauthClientId : string;
  oauthClientSecret : string;
  oauthRefreshToken : string;
  gcpProject : option string;
  pubsubTopic : option string;
  pubsubSubscription : option string;
  serviceAccountKeyPath : option string;
  labels : option (list string) }.

Definition GMAIL_API_BASE : string := "https://gmail.googleapis.com/gmail/v1".
Definition PUBSUB_API_BASE : string := "https://pubsub.googleapis.com/v1".
Definition TOKEN_ENDPOINT : string := "https://oauth2.googleapis.com/token".
Definition PUBSUB_SCOPE : string := "https://www.googleapis.com/auth/pubsub".
Definition TOKEN_REFRESH_BUFFER_MS : Z := 300000.
Definition MAX_CACHE : nat := 5000.
Definition MAX_MESSAGES : Z := 10.

Section Transport.
Context (w : servers) (o : transport_options).
Context (account_key : option (string * string)) (sign : string → string → option string).
Context (imap_connects : nat → bool).

Abbreviation method := (prog mailbox unit).

(** One request and its answer. *)
Definition send {A} (on : nat → request → answer A) (r : request) : method A :=
  Step (λ _ s, (requested s, [], match on (requests s) r with Answered a => Ret a | _ => Throw end)).

(** *** Tokens *)

Definition valid_token (now : Z) (t : option OAuthTokens) : option string :=
  t ← t; if (now <? expiresAt t - TOKEN_REFRESH_BUFFER_MS)%Z then Some (accessToken t) else None.

Definition refreshAccessToken : method unit :=
  await a := send (on_token w) (Request "POST" TOKEN_ENDPOINT ""
    (Some (form [("client_id", oauthClientId o); ("client_secret", oauthClientSecret o);
                 ("refresh_token", oauthRefreshToken o); ("grant_type", "refresh_token")]))) in
  update (λ now s, (with_tokens (Some (Tokens a.1 (now + a.2 * 1000)%Z)) s, tt)).

Definition getAccessToken : method string :=
  await cached := update (λ now s, (s, valid_token now (tokens s))) in
  match cached with
  | Some t => Ret t
  | None =>
      await _ := refreshAccessToken in
      call (λ _ s, t ← tokens s; Some (s, accessToken t))
  end.

Definition apiGet {A} (on : nat → request → answer A) (path : string) : method A :=
  await token := getAccessToken in send on (Request "GET" (GMAIL_API_BASE ++ path) token None).

Definition apiPost {A} (on : nat → request → answer A) (path : string) (body : jvalue) : method A :=
  await token := getAccessToken in send on (Request "POST" (GMAIL_API_BASE ++ path) token (Some (json_compact body))).

Definition listHistory (start : string) (labelIds : list string) : method GmailHistoryResponse :=
  apiGet (on_history w) ("/users/me/history?" ++
    form (("startHistoryId", start) :: map (λ l, ("labelIds", l)) labelIds ++ [("historyTypes", "messageAdded")])%list).

Definition getMessage (i : string) : method GmailMessage :=
  apiGet (on_message w) ("/users/me/messages/" ++ i ++ "?format=full").

Definition listMessages (query : string) (maxResults : nat) : method (option (list string)) :=
  apiGet (on_list w) ("/users/me/messages?" ++
    form (("maxResults", pretty maxResults) :: (if str_truthy query then [("q", query)] else []))).

Definition client_createWatch (topicName : string) (labelIds : list string) : method GmailWatchResponse :=
  apiPost (on_watch w) "/users/me/watch"
    (JObj [("topicName", JStr topicName); ("labelIds", JArr (map JStr labelIds)); ("labelFilterBehavior", JStr "INCLUDE")]).

Definition client_stopWatch : method unit := apiPost (on_stop w) "/users/me/stop" (JObj []).
Definition client_sendMessage (raw : string) : method (string * string) :=
  apiPost (on_send w) "/users/me/messages/send" (JObj [("raw", JStr raw)]).
Definition getProfile : method string := apiGet (on_profile w) "/users/me/profile".

(** *** The watch *)

Definition updateHistoryId (h : string) (s : mailbox) : option mailbox :=
  let newer := Some (with_watch (Watch h (expiration (watch s)) (active (watch s))) s) in
  if str_truthy (historyId (watch s)) then
    n ← BigInt h; k ← BigInt (historyId (watch s)); if (k <? n)%Z then newer else Some s
  else newer.

Definition cancelRenewal (s : mailbox) : mailbox :=
  match renewalTimer s with
  | Some i => with_timers None (filter (λ t, t.1 ≠ i) (armed s)) (next_timer s) s
  | None => s
  end.

Definition arm (k : timer_kind) (s : mailbox) : mailbox :=
  with_timers (Some (next_timer s)) (armed s ++ [(next_timer s, k)])%list (S (next_timer s)) s.

Definition scheduleRenewal (s : mailbox) : mailbox := arm Renewal (cancelRenewal s).

Definition topicName : string :=
  "projects/" ++ default "" (gcpProject o) ++ "/topics/" ++ default "flowhelm-gmail" (pubsubTopic o).

Definition createWatch (initial : option string) : method unit :=
  await r := client_createWatch topicName ["INBOX"] in
  update (λ _ s, (scheduleRenewal (with_watch (Watch (default (wr_historyId r) initial) (wr_expiration r) true) s), tt)).

Definition renewWatch : method unit :=
  await current := query (λ s, historyId (watch s)) in
  await r := client_createWatch topicName ["INBOX"] in
  update (λ _ s, (scheduleRenewal (with_watch
    (Watch (if str_truthy current then current else wr_historyId r) (wr_expiration r) true) s), tt)).

Definition stopWatch : method unit :=
  await act := update (λ _ s, let s := cancelRenewal s in (s, active (watch s))) in
  await _ := (if act : bool then catch client_stopWatch (Ret tt) else Ret tt) in
  update (λ _ s, (with_watch (Watch (historyId (watch s)) (expiration (watch s)) false) s, tt)).

(** A timer of the watch fires: a renewal that fails is tried again once. *)
Definition on_timer (k : timer_kind) : method unit :=
  match k with
  | Renewal => catch renewWatch (update (λ _ s, (arm Retry s, tt)))
  | Retry => catch renewWatch (Ret tt)
  end.

(** *** Delivery *)

Definition seen (i : string) (s : mailbox) : bool := bool_decide (i ∈ processedIds s).

Definition trackId (i : string) (ids : list string) : list string :=
  let ids := (ids ++ [i])%list in if (MAX_CACHE <? length ids)%nat then tail ids else ids.

(** [onEmail] is called with the handlers that [connect] was given. *)
Definition deliverEmail (e : ParsedEmail) (s : mailbox) : mailbox :=
  if seen (e_id e) s then s else with_mail (trackId (e_id e) (processedIds s)) (delivered s ++ [e])%list s.

Definition fetch_and_deliver (i : string) : method unit :=
  await m := getMessage i in update (λ _ s, (deliverEmail (parseGmailMessage m) s, tt)).

(** One entry of the history; a failure is written to the log. *)
Definition deliver_added (i : string) : method unit :=
  await known := query (seen i) in
  if known : bool then Ret tt
  else catch (fetch_and_deliver i) (update (λ _ s, (with_log (requests s) (errors s) (failed s ++ [i])%list s, tt))).

Definition added_ids (h : GmailHistoryResponse) : list string :=
  flat_map (λ r, default [] (messagesAdded r)) (default [] (history h)).

Definition fetchAndDeliverNewEmails (since : string) : method unit :=
  await h := listHistory since (default ["INBOX"] (labels o)) in
  for_each deliver_added (added_ids h).

Definition report_error : method unit := update (λ _ s, (with_log (requests s) (S (errors s)) (failed s) s, tt)).

(** A notification, of the fields as they come out of the JSON. *)
Record GmailNotification := Notification { n_email : jvalue; n_historyId : jvalue }.

(** [String(v)] of a number or a text. *)
Definition id_text (v : jvalue) : string := match v with JNum n => pretty n | JStr s => s | _ => "" end.

Definition is_ours (v : jvalue) : bool := match v with JStr e => bool_decide (e = emailAddress o) | _ => false end.

(** The state is read before the address is compared, which makes no difference. *)
Definition handlePubSubNotification (n : GmailNotification) : method unit :=
  await last := query (λ s, historyId (watch s)) in
  if negb (is_ours (n_email n)) then Ret tt
  else if negb (str_truthy last) then Ret tt
  else
    catch (await _ := fetchAndDeliverNewEmails last in
           call (λ _ s, (λ s, (s, tt)) <$> updateHistoryId (id_text (n_historyId n)) s))
          report_error.

(** New mail in IMAP mode: the first ten of the unread ones. *)
Definition deliver_listed (i : string) : method unit :=
  await known := query (seen i) in
  if known : bool then Ret tt else fetch_and_deliver i.

Definition handleImapNewMail : method unit :=
  catch (await l := listMessages "is:unread" 10 in for_each deliver_listed (default [] l)) report_error.

(** *** The daemon *)

Definition subscriptionPath : string :=
  "projects/" ++ default "" (gcpProject o) ++ "/subscriptions/" ++ default "flowhelm-gmail-sub" (pubsubSubscription o).

(** [createServiceAccountJwt], at a time in milliseconds; the signature is an argument. *)
Definition createServiceAccountJwt (clientEmail privateKey : string) (now : Z) : option string :=
  let iat := (now / 1000)%Z in
  let header := json_compact (JObj [("alg", JStr "RS256"); ("typ", JStr "JWT")]) in
  let payload := json_compact (JObj [("iss", JStr clientEmail); ("scope", JStr PUBSUB_SCOPE); ("aud", JStr TOKEN_ENDPOINT);
                                     ("iat", JNum iat); ("exp", JNum (iat + 3600))]) in
  let input := encodeBase64Url header ++ "." ++ encodeBase64Url payload in
  signature ← sign privateKey input; Some (input ++ "." ++ encodeBase64Url signature).

Definition daemon_token : method string :=
  await cached := update (λ now s, (s, valid_token now (cachedToken s))) in
  match cached with
  | Some t => Ret t
  | None =>
      await jwt := call (λ now s, k ← account_key; j ← createServiceAccountJwt k.1 k.2 now; Some (s, j)) in
      await a := send (on_token w) (Request "POST" TOKEN_ENDPOINT ""
        (Some (form [("grant_type", "urn:ietf:params:oauth:grant-type:jwt-bearer"); ("assertion", jwt)]))) in
      update (λ now s, (with_cached (Some (Tokens a.1 (now + a.2 * 1000)%Z)) s, a.1))
  end.

Definition pull : method (list PubSubReceivedMessage) :=
  await token := daemon_token in
  await l := send (on_pull w) (Request "POST" (PUBSUB_API_BASE ++ "/" ++ subscriptionPath ++ ":pull") token
    (Some (json_compact (JObj [("maxMessages", JNum MAX_MESSAGES)])))) in
  Ret (default [] l).

(** A refusal is written to the log, a failure of the request is an error. *)
Definition acknowledge (ackIds : list string) : method unit :=
  await token := daemon_token in
  Step (λ _ s, (requested s, [],
    match on_ack w (requests s) (Request "POST" (PUBSUB_API_BASE ++ "/" ++ subscriptionPath ++ ":acknowledge") token
            (Some (json_compact (JObj [("ackIds", JArr (map JStr ackIds))])))) with
    | Broken => Throw
    | _ => Ret tt
    end)).

(** The notification in a message, if it has both fields. *)
Definition notification_of (m : PubSubReceivedMessage) : option GmailNotification :=
  v ← json_parse (from_base64 (pm_data m));
  e ← field v "emailAddress"; h ← field v "historyId";
  if falsy e || falsy h then None else Some (Notification e h).

(** All messages are acknowledged, also those that hold no notification. *)
Definition doPull : method unit :=
  await go := update (λ _ s, if negb (running s) || pulling s then (s, false) else (with_daemon (running s) true (pullTimer s) s, true)) in
  if go : bool then
    await _ := catch
      (await l := pull in
       match l with
       | [] => Ret tt
       | _ => await _ := Step (λ _ s, (s, map (λ n, (tt, handlePubSubNotification n)) (omap notification_of l), Ret tt)) in
              acknowledge (map ackId l)
       end) (Ret tt) in
    update (λ _ s, (with_daemon (running s) false (pullTimer s) s, tt))
  else Ret tt.

Definition start : method unit :=
  await go := update (λ _ s, if running s then (s, false) else (with_daemon true (pulling s) (pullTimer s) s, true)) in
  if go : bool then
    await _ := daemon_token in
    await _ := doPull in
    update (λ _ s, (with_daemon (running s) (pulling s) true s, tt))
  else Ret tt.

(** *** The transport *)

Definition connectPubSub : method unit :=
  match truthy_text (gcpProject o), truthy_text (serviceAccountKeyPath o) with
  | Some _, Some _ =>
      await h := getProfile in
      await _ := update (λ _ s, (with_watch (Watch h (expiration (watch s)) (active (watch s))) s, tt)) in
      await _ := createWatch (Some h) in
      start
  | _, _ => Throw
  end.

Definition connectImap : method unit :=
  await token := getAccessToken in
  Step (λ _ s, (requested s, [], if imap_connects (requests s) then Ret tt else Throw)).

Definition connect : method unit :=
  await _ := update (λ _ s, (with_conn connecting s, tt)) in
  catch (await _ := (if pubsub o then connectPubSub else connectImap) in
         update (λ _ s, (with_conn connected s, tt)))
        (await _ := update (λ _ s, (with_conn disconnected s, tt)) in Throw).

Definition disconnect : method unit :=
  await _ := (if pubsub o then
                await _ := update (λ _ s, (with_daemon false (pulling s) false s, tt)) in stopWatch
              else Ret tt) in
  update (λ _ s, (with_conn disconnected s, tt)).
End Transport.

(** ** No mail is delivered twice *)

Definition lastn {A} (n : nat) (l : list A) : list A := drop (length l - n) l.

Definition ids_of (s : mailbox) : list string := map e_id (delivered s).

(** No element is one of the [MAX_CACHE] before it. *)
Definition spaced (l : list string) : Prop := ∀ l1 i l2, l = (l1 ++ i :: l2)%list → i ∉ lastn MAX_CACHE l1.

Record mailbox_ok (s : mailbox) : Prop := {
  mo_cache : processedIds s = lastn MAX_CACHE (ids_of s);
  mo_spaced : spaced (ids_of s) }.

Lemma trackId_last i l : trackId i (lastn MAX_CACHE l) = lastn MAX_CACHE (l ++ [i])%list.
Proof.
  unfold trackId, lastn. rewrite !length_app, length_drop. simpl length.
  generalize MAX_CACHE as k. intros k. destruct (k <? length l - (length l - k) + 1)%nat eqn:E; bool_cases.
  - destruct (decide (k = 0)) as [->|Hk].
    + rewrite Nat.sub_0_r, drop_all. simpl. by rewrite drop_ge by (rewrite length_app; simpl; lia).
    + rewrite drop_app_le by lia. replace (length l + 1 - k) with (S (length l - k)) by lia.
      destruct (drop (length l - k) l) as [|x r] eqn:Ed.
      * apply (f_equal length) in Ed. rewrite length_drop in Ed. simpl in Ed. lia.
      * simpl. by rewrite <- Nat.add_1_r, <- drop_drop, Ed.
  - rewrite drop_app_le by lia. by replace (length l + 1 - k) with (length l - k) by lia.
Qed.

Lemma spaced_snoc l i : spaced l → i ∉ lastn MAX_CACHE l → spaced (l ++ [i])%list.
Proof.
  intros Hl Hi l1 j l2 E. destruct l2 as [|k l2 _] using rev_ind.
  - apply app_inj_tail in E as [-> ->]. done.
  - change (l1 ++ j :: l2 ++ [k])%list with (l1 ++ (j :: l2) ++ [k])%list in E. rewrite app_assoc in E.
    apply app_inj_tail in E as [-> _]. by eapply Hl.
Qed.

Lemma deliver_ok e s : mailbox_ok s → mailbox_ok (deliverEmail e s).
Proof.
  intros [Hc Hs]. unfold deliverEmail, seen. case_bool_decide as Hi; [done|]. rewrite Hc in Hi. split; cbn.
  - by rewrite Hc, trackId_last, map_app.
  - rewrite map_app. by apply spaced_snoc.
Qed.

(** What may happen meanwhile: further mails and failures. *)
Record grows (s s' : mailbox) : Prop := {
  gr_mail : delivered s `prefix_of` delivered s';
  gr_failed : failed s `prefix_of` failed s' }.

#[export] Instance grows_refl : Reflexive grows.
Proof. by intros s. Qed.

#[export] Instance grows_trans : Transitive grows.
Proof. intros s1 s2 s3 [] []. split; by etrans. Qed.

(** A step that touches neither the mails nor the failures. *)
Definition quiet (s s' : mailbox) : Prop :=
  processedIds s' = processedIds s ∧ delivered s' = delivered s ∧ failed s' = failed s.

Lemma quiet_keeps s s' : quiet s s' → mailbox_ok s → mailbox_ok s' ∧ grows s s'.
Proof.
  intros (Ei & Ed & Ef) [Hc Hs]. split; [split; unfold ids_of; by rewrite ?Ei, Ed|]. split; by rewrite ?Ed, ?Ef.
Qed.

(** A function that ends with [Q], or throws with [T]. *)
Abbreviation safe_or p Q T s := (safe mailbox_ok grows (λ _, grows) (λ _ _, True) tt p Q T s).
Abbreviation safe_in p Q s := (safe_or p Q (λ _, True) s).

Definition fine {A} (p : prog mailbox unit A) : Prop := ∀ s, safe_in p (λ _ _, True) s.

Lemma fine_ret {A} (a : A) : fine (Ret a). Proof. by intros s. Qed.
Lemma fine_throw {A} : fine (A := A) Throw. Proof. by intros s. Qed.

Lemma fine_bind {A B} (p : prog mailbox unit A) (k : A → prog mailbox unit B) : fine p → (∀ a, fine (k a)) → fine (bind p k).
Proof. intros Hp Hk s. apply safe_bind. eapply safe_post; [| |apply Hp]; [|done]. intros a s1 _. apply Hk. Qed.

Lemma fine_catch {A} (p h : prog mailbox unit A) : fine p → fine h → fine (catch p h).
Proof. intros Hp Hh s. apply safe_catch. eapply safe_post; [| |apply Hp]; [done|]. intros s1 _. apply Hh. Qed.

Lemma fine_update {A} (f : Z → mailbox → mailbox * A) : (∀ t s, quiet s (f t s).1) → fine (update f).
Proof. intros Hf s. apply safe_update. intros t s1 _ Hs. by destruct (quiet_keeps _ _ (Hf t s1) Hs). Qed.

Lemma fine_call {A} (f : Z → mailbox → option (mailbox * A)) :
  (∀ t s s' a, f t s = Some (s', a) → quiet s s') → fine (call f).
Proof.
  intros Hf s. apply safe_call; [done|]. intros t s1 _ Hs. destruct (f t s1) as [[s2 a]|] eqn:E; [|done].
  by destruct (quiet_keeps _ _ (Hf _ _ _ _ E) Hs).
Qed.

Lemma fine_request {A} (k : mailbox → prog mailbox unit A) : (∀ s, fine (k s)) → fine (Step (λ _ s, (requested s, [], k s))).
Proof.
  intros Hk s. rewrite safe_Step. intros t s1 _ Hs. cbn [fst snd].
  destruct (quiet_keeps s1 (requested s1)) as [H1 H2]; [done..|]. split; [done|]. split; [done|]. split; [constructor|].
  apply Hk.
Qed.

Lemma fine_send {A} (on : nat → request → answer A) r : fine (send on r).
Proof. apply fine_request. intros s. destruct (on _ _); [apply fine_throw..|apply fine_ret]. Qed.

Lemma fine_for_each {A} (f : A → prog mailbox unit unit) l : (∀ x, fine (f x)) → fine (for_each f l).
Proof. intros Hf. induction l as [|x l IH]; [apply fine_ret|]. by apply fine_bind. Qed.

(** Case analysis along a function. *)
Ltac fine_parts :=
  repeat first
    [ match goal with H : _ |- fine _ => apply H end | apply fine_ret | apply fine_throw | apply fine_send | apply fine_request | apply fine_bind | apply fine_catch
    | apply fine_for_each | apply fine_update; intros; unfold scheduleRenewal, arm, cancelRenewal; cbn; repeat case_match; by repeat split
    | apply fine_call; intros; simplify_option_eq; by repeat split
    | match goal with |- fine (match ?x with _ => _ end) => destruct x end
    | match goal with |- ∀ _, _ => intros ? end ].

Section Keeps.
Context (w : servers) (o : transport_options).

Lemma fine_token : fine (getAccessToken w o).
Proof. unfold getAccessToken, refreshAccessToken. fine_parts. Qed.

Lemma fine_get {A} (on : nat → request → answer A) p : fine (apiGet w o on p).
Proof. unfold apiGet. pose proof fine_token. fine_parts. Qed.

Lemma fine_post {A} (on : nat → request → answer A) p b : fine (apiPost w o on p b).
Proof. unfold apiPost. pose proof fine_token. fine_parts. Qed.

Lemma fine_watch i : fine (createWatch w o i).
Proof. unfold createWatch, client_createWatch. pose proof (fine_post (on_watch w)). fine_parts. Qed.

Lemma fine_renew : fine (renewWatch w o).
Proof. unfold renewWatch, client_createWatch, query. pose proof (fine_post (on_watch w)). fine_parts. Qed.

Lemma fine_stop : fine (stopWatch w o).
Proof. unfold stopWatch, client_stopWatch. pose proof (fine_post (on_stop w)). fine_parts. Qed.

(** *** Delivery *)

Lemma safe_deliver e s Q : (∀ s', e_id e ∈ ids_of s' → Q tt s') →
  safe_in (update (λ _ s, (deliverEmail e s, tt))) Q s.
Proof.
  intros HQ. apply safe_update. intros _ s1 _ Hs. cbn [fst snd]. split; [by apply deliver_ok|].
  assert (Hc := mo_cache _ Hs). unfold deliverEmail, seen. case_bool_decide as Hi; (split; [|apply HQ]).
  - done.
  - rewrite Hc in Hi. unfold lastn in Hi. apply (subseteq_drop (length (ids_of s1) - MAX_CACHE)) in Hi. exact Hi.
  - split; cbn; [by apply prefix_app_r|done].
  - unfold ids_of. cbn. rewrite map_app. apply elem_of_app. right. by left.
Qed.

Lemma fine_deliver_one i : fine (fetch_and_deliver w o i).
Proof.
  apply fine_bind; [apply fine_get|]. intros m s. by apply safe_deliver.
Qed.

Lemma safe_failed i s T : safe_or (update (λ _ s, (with_log (requests s) (errors s) (failed s ++ [i])%list s, tt)))
  (λ _ s', i ∈ failed s') T s.
Proof.
  apply safe_update. intros _ s1 _ [Hc Hs]. split; [by split|]. split; [split; cbn; [done|by apply prefix_app_r]|].
  cbn. apply elem_of_app. right. by left.
Qed.

Lemma fine_added i : fine (deliver_added w o i).
Proof.
  unfold deliver_added, query. pose proof (fine_deliver_one i). fine_parts.
  intros s. eapply safe_post; [| |exact (safe_failed i s (λ _, True))]; done.
Qed.

Lemma fine_fetch since : fine (fetchAndDeliverNewEmails w o since).
Proof.
  unfold fetchAndDeliverNewEmails, listHistory. apply fine_bind; [apply fine_get|]. intros h. apply fine_for_each, fine_added.
Qed.

Lemma fine_report : fine report_error.
Proof. unfold report_error. fine_parts. Qed.

Lemma fine_history_id h : fine (call (λ _ s, (λ s, (s, tt)) <$> updateHistoryId h s)).
Proof.
  apply fine_call. intros _ s s' [] (s1 & E & [= ->])%fmap_Some_1. unfold updateHistoryId in E.
  by repeat (case_match || simplify_option_eq).
Qed.

Lemma fine_notification n : fine (handlePubSubNotification w o n).
Proof.
  unfold handlePubSubNotification, query. pose proof fine_fetch. pose proof fine_report. pose proof fine_history_id. fine_parts.
Qed.

Lemma fine_new_mail : fine (handleImapNewMail w o).
Proof.
  unfold handleImapNewMail, listMessages, deliver_listed, query. pose proof fine_report. pose proof fine_deliver_one.
  apply fine_catch; [|done]. apply fine_bind; [apply fine_get|]. fine_parts.
Qed.

(** ** What the history lists is dealt with *)

(** The API answers with the message it was asked for. *)
Context (Hasked : ∀ n i token m,
  on_message w n (Request "GET" (GMAIL_API_BASE ++ "/users/me/messages/" ++ i ++ "?format=full") token None) = Answered m → g_id m = i).

Definition dealt_with (s : mailbox) (i : string) : Prop := i ∈ ids_of s ∨ i ∈ failed s.

Lemma dealt_with_grows s s' i : grows s s' → dealt_with s i → dealt_with s' i.
Proof.
  intros [[l E] [k F]] [H|H]; [left; unfold ids_of; rewrite E, map_app|right; rewrite F]; apply elem_of_app; by left.
Qed.

(** The servers refuse a request. *)
Definition refused {A} (on : nat → request → answer A) (r : request) : Prop := ∃ n, ∀ a, on n r ≠ Answered a.

Definition token_request : request :=
  Request "POST" "https://oauth2.googleapis.com/token" ""
    (Some (form [("client_id", oauthClientId o); ("client_secret", oauthClientSecret o);
                 ("refresh_token", oauthRefreshToken o); ("grant_type", "refresh_token")])).

Lemma safe_send {A} (on : nat → request → answer A) r s :
  safe_or (send on r) (λ a _, ∃ n, on n r = Answered a) (λ _, refused on r) s.
Proof.
  unfold send. rewrite safe_Step. intros t s2 _ Hs. cbn [fst snd].
  destruct (quiet_keeps s2 (requested s2)) as [H1 H2]; [done..|].
  split; [done|]. split; [done|]. split; [constructor|].
  destruct (on (requests s2) r) eqn:E; cbn [safe]; [by exists (requests s2); intros a; rewrite E..|by exists (requests s2)].
Qed.

Lemma safe_token s : safe_or (getAccessToken w o) (λ _ _, True) (λ s', refused (on_token w) token_request ∨ tokens s' = None) s.
Proof.
  unfold getAccessToken. apply safe_bind. apply safe_update. intros t s1 _ Hs1. cbn [fst snd].
  split; [done|]. split; [done|]. destruct (valid_token t (tokens s1)); [done|].
  unfold refreshAccessToken. apply safe_bind, safe_bind.
  eapply safe_post; [| |apply safe_send]; [|by intros s2 H2; left]. intros a s2 _.
  apply safe_update. intros t' s3 _ Hs3. cbn [fst snd].
  destruct (quiet_keeps s3 (with_tokens (Some (Tokens a.1 (t' + a.2 * 1000)%Z)) s3)) as [H1 H2]; [done..|].
  split; [done|]. split; [done|]. apply safe_call; [done|]. intros t'' s4 _ Hs4.
  destruct (tokens s4) as [k|] eqn:Et; cbn; [done|by right].
Qed.

Lemma safe_get {A} (on : nat → request → answer A) p s :
  safe_or (apiGet w o on p) (λ a _, ∃ n token, on n (Request "GET" (GMAIL_API_BASE ++ p) token None) = Answered a)
    (λ s', refused (on_token w) token_request ∨ tokens s' = None ∨
           ∃ token, refused on (Request "GET" (GMAIL_API_BASE ++ p) token None)) s.
Proof.
  unfold apiGet. apply safe_bind. eapply safe_post; [| |apply safe_token]; [|naive_solver]. intros token s1 _.
  eapply safe_post; [| |apply safe_send]; [|naive_solver]. intros a s2 [n Hn]. by exists n, token.
Qed.

Lemma fetch_dealt i s : safe_in (fetch_and_deliver w o i) (λ _ s', dealt_with s' i) s.
Proof.
  unfold fetch_and_deliver. apply safe_bind. eapply safe_post; [| |apply safe_get]; [|done].
  intros m s2 (n & token & E). apply Hasked in E. apply safe_deliver. intros s3 H3. left.
  cbn [e_id parseGmailMessage] in H3. by rewrite E in H3.
Qed.

Lemma added_dealt i s : safe_or (deliver_added w o i) (λ _ s', dealt_with s' i) (λ _, False) s.
Proof.
  unfold deliver_added. apply safe_bind. apply safe_update. intros _ s1 _ Hs1. cbn [fst snd]. split; [done|]. split; [done|].
  unfold seen. case_bool_decide as Hi.
  - left. rewrite (mo_cache _ Hs1) in Hi. by apply (subseteq_drop (length (ids_of s1) - MAX_CACHE)) in Hi.
  - apply safe_catch. eapply safe_post; [| |apply fetch_dealt]; [done|]. intros s2 _.
    eapply safe_post; [| |exact (safe_failed i s2 (λ _, False))]; [|done]. intros ? s3 H3. by right.
Qed.

Lemma each_dealt l s : safe_or (for_each (deliver_added w o) l) (λ _ s', Forall (dealt_with s') l) (λ _, False) s.
Proof.
  revert s. induction l as [|i l IH]; intros s; [constructor|]. apply safe_bind.
  eapply safe_post; [| |apply added_dealt]; [|done]. intros ? s1 H1.
  eapply safe_post; [| |apply (safe_since _ _ _ _ grows_refl grows_trans (λ _ _ _ H, H)), IH]; [|done].
  intros ? s2 [H2 Hg]. constructor; [by eapply dealt_with_grows|done].
Qed.

(** The question for what was added since a mark. *)
Definition history_request (since token : string) : request :=
  Request "GET" ("https://gmail.googleapis.com/gmail/v1/users/me/history?" ++
    form (("startHistoryId", since) :: map (λ l, ("labelIds", l)) (default ["INBOX"] (labels o)) ++ [("historyTypes", "messageAdded")])%list)
    token None.

(** C31: whatever else happens meanwhile, when the fetching of new mail ends without an
    error, after which the mark of the history is moved on, and if the API answers with the
    messages it was asked for, every mail that a record of the
    page lists as added has been handed to the adapter, or its fetching has failed and been
    reported in the log; the page is the answer to the question for the history since the
    mark.  The fetching ends with an error only if the page or a token for it was refused, or
    the token was dropped meanwhile. *)
Theorem history_dealt_with since s :
  safe_or (fetchAndDeliverNewEmails w o since)
    (λ _ s', ∃ n token h, on_history w n (history_request since token) = Answered h ∧
       ∀ r ids i, r ∈ default [] (history h) → messagesAdded r = Some ids → i ∈ ids → dealt_with s' i)
    (λ s', refused (on_token w) token_request ∨ tokens s' = None ∨
           ∃ token, refused (on_history w) (history_request since token)) s.
Proof.
  unfold fetchAndDeliverNewEmails, listHistory. apply safe_bind.
  eapply safe_post; [| |apply safe_get]; [|done]. intros h s1 (n & token & E).
  eapply safe_post; [| |apply each_dealt]; [|done]. intros ? s2 H2. exists n, token, h. split; [exact E|].
  intros r ids i Hr Hi Hin. rewrite Forall_forall in H2. apply H2. unfold added_ids.
  apply list_elem_of_In, in_flat_map. exists r. split; [by apply list_elem_of_In|]. rewrite Hi. by apply list_elem_of_In.
Qed.
End Keeps.

(** ** Runs *)

Section Runs.
Context (w : servers) (o : transport_options).
Context (account_key : option (string * string)) (sign : string → string → option string).
Context (imap_connects : nat → bool).

(** The pull timer and the timers of the watch fire, the IMAP server reports new mail, a
    mail is sent, the adapter disconnects. *)
Inductive event :=
| Proceed (i : nat) (t : Z)
| PullTick
| TimerFires (i : nat)
| NewMail
| SendEmail (raw : string)
| Disconnect.

Abbreviation transport := (system mailbox unit unit).

Definition go {A} (p : prog mailbox unit A) (sys : transport) : transport := launch tt (bind p (λ _, Ret None)) sys.

Definition transport_step (sys : transport) (ev : event) : transport :=
  let s := shared sys in
  match ev with
  | Proceed i t => advance i t sys
  | PullTick => if pullTimer s then go (doPull w o account_key sign) sys else sys
  | TimerFires i =>
      match List.find (λ t, bool_decide (t.1 = i)) (armed s) with
      | Some (_, k) =>
          go (on_timer w o k) (System (with_timers (renewalTimer s) (filter (λ t, t.1 ≠ i) (armed s)) (next_timer s) s) (threads sys))
      | None => sys
      end
  | NewMail => if pubsub o then sys else go (handleImapNewMail w o) sys
  | SendEmail raw => go (client_sendMessage w o raw) sys
  | Disconnect => go (disconnect w o) sys
  end.

(** The adapter connects once. *)
Definition transport_run (evs : list event) : transport :=
  fold_left transport_step evs (go (connect w o account_key sign imap_connects) (System new_mailbox [])).

Lemma fine_daemon_token : fine (daemon_token w account_key sign).
Proof. unfold daemon_token. fine_parts. Qed.

Lemma fine_spawn (l : list GmailNotification) :
  fine (Step (λ _ s, (s, map (λ n, (tt, handlePubSubNotification w o n)) l, Ret tt))).
Proof.
  intros s. rewrite safe_Step. intros _ s1 _ Hs. cbn [fst snd]. split; [done|]. split; [done|]. split; [|done].
  apply Forall_map, Forall_true. intros n. split; [|done].
  eapply safe_post; [| |apply fine_notification]; done.
Qed.

Lemma fine_pull : fine (doPull w o account_key sign).
Proof.
  unfold doPull, pull, acknowledge. pose proof fine_daemon_token. pose proof fine_spawn. fine_parts.
Qed.

Lemma fine_start : fine (start w o account_key sign).
Proof. unfold start. pose proof fine_daemon_token. pose proof fine_pull. fine_parts. Qed.

Lemma fine_connect : fine (connect w o account_key sign imap_connects).
Proof.
  unfold connect, connectPubSub, connectImap, getProfile. pose proof fine_start. pose proof fine_watch.
  pose proof fine_token. pose proof (fine_get w o (on_profile w)). fine_parts.
Qed.

Lemma fine_disconnect : fine (disconnect w o).
Proof. unfold disconnect. pose proof fine_stop. fine_parts. Qed.

Lemma fine_timer k : fine (on_timer w o k).
Proof. unfold on_timer. pose proof fine_renew. fine_parts. Qed.

Definition sys_ok (sys : transport) : Prop := system_ok mailbox_ok grows (λ _, grows) (λ _ _, True) sys.

Lemma go_ok {A} (p : prog mailbox unit A) sys : fine p → sys_ok sys → sys_ok (go p sys).
Proof.
  intros Hp Hs. apply launch_ok; [done|]. apply (fine_bind p (λ _, Ret None)); [done|]. intros a. apply fine_ret.
Qed.

Lemma transport_step_ok sys ev : sys_ok sys → sys_ok (transport_step sys ev).
Proof.
  intros Hs. destruct ev as [i t| |i| |raw|]; cbn [transport_step].
  - by apply (advance_ok _ _ _ _ grows_refl grows_trans (λ _ _ _ H, H) i t sys).
  - destruct (pullTimer _); [|done]. apply go_ok; [apply fine_pull|done].
  - destruct (List.find _ _) as [[j k]|]; [|done]. apply go_ok; [apply fine_timer|].
    destruct Hs as [HI Hth]. destruct (quiet_keeps (shared sys) (with_timers (renewalTimer (shared sys))
      (filter (λ t, t.1 ≠ i) (armed (shared sys))) (next_timer (shared sys)) (shared sys))) as [H1 H2]; [done..|].
    split; [done|]. eapply Forall_impl; [exact Hth|]. intros th. by apply (thread_ok_rely _ _ _ _ grows_trans).
  - destruct (pubsub o); [done|]. apply go_ok; [apply fine_new_mail|done].
  - apply go_ok; [apply fine_post|done].
  - apply go_ok; [apply fine_disconnect|done].
Qed.

Lemma transport_run_ok evs : mailbox_ok (shared (transport_run evs)).
Proof.
  assert (H : ∀ sys, sys_ok sys → sys_ok (fold_left transport_step evs sys)).
  { induction evs as [|ev evs IH]; intros sys Hs; [done|]. by apply IH, transport_step_ok. }
  apply H, go_ok; [apply fine_connect|]. split; [|constructor]. split; [done|]. intros [|] ? ?; done.
Qed.

(** C30: however notifications, pulls, new mail, renewals and the connection overlap: the cache
    holds the identifiers of the last [MAX_CACHE] mails that were handed to the adapter, and
    none of as many mails in a row is the same as another. *)
Theorem delivered_once evs :
  let s := shared (transport_run evs) in
  processedIds s = lastn MAX_CACHE (ids_of s) ∧
  ∀ i j x, i < j ≤ i + MAX_CACHE → ids_of s !! i = Some x → ids_of s !! j ≠ Some x.
Proof.
  intros s. destruct (transport_run_ok evs) as [Hc Hs]. fold s in Hc, Hs. split; [done|]. intros i j x Hij Hi Hj.
  specialize (Hs (take j (ids_of s)) x (drop (S j) (ids_of s))). rewrite take_drop_middle in Hs by done.
  apply Hs; [done|]. unfold lastn.
  assert (Hl : length (take j (ids_of s)) = j) by (rewrite length_take; apply lookup_lt_Some in Hj; lia). rewrite Hl.
  apply (list_elem_of_lookup_2 _ (i - (j - MAX_CACHE))). rewrite lookup_drop.
  replace (j - MAX_CACHE + (i - (j - MAX_CACHE))) with i by lia. by rewrite lookup_take_lt by lia.
Qed.

End Runs.

(** ** A mailbox *)

Definition message_path (i : string) : string := GMAIL_API_BASE ++ "/users/me/messages/" ++ i ++ "?format=full".

Definition asked_id (p : string) : string :=
  let r := str_drop (String.length (GMAIL_API_BASE ++ "/users/me/messages/")) p in
  str_take (String.length r - String.length "?format=full") r.

Lemma asked_id_path i : asked_id (message_path i) = i.
Proof.
  unfold asked_id, message_path. rewrite <- string_app_assoc, str_drop_app, length_app_string, Nat.add_sub. apply str_take_app.
Qed.

Definition example_message (i : string) : GmailMessage :=
  Message i i ["INBOX"]%list "Hello" 1700000000000 (Payload "text/plain" [Header "From" "a@b.c"; Header "Subject" "Hi"]%list None []%list).

(** The history holds two mails; a notification comes with every pull but the first. *)
Definition example_servers : servers := {|
  on_token _ _ := Answered ("token", 3600%Z);
  on_history _ _ := Answered (History (Some [HistoryRecord (Some ["m1"; "m2"]); HistoryRecord None]%list) None);
  on_message _ r := if bool_decide (asked_id (path r) = "m2") then Refused 404 else Answered (example_message (asked_id (path r)));
  on_list _ _ := Answered (Some ["m1"]%list);
  on_watch _ _ := Answered (WatchResponse "10" 1700600000000);
  on_stop _ _ := Answered tt;
  on_profile _ _ := Answered "10";
  on_send _ _ := Answered ("s1", "s1");
  on_pull n _ := if (n <? 5)%nat then Answered None
                 else Answered (Some [Received "k" (base64 (json_compact (JObj [("emailAddress", JStr "me@x.org"); ("historyId", JNum 20)])))]%list);
  on_ack _ _ := Answered tt |}.

Definition example_options : transport_options :=
  TransportOptions true "me@x.org" "id" "secret" "refresh" (Some "project") None None (Some "/key.json") None.

Definition example_run (evs : list event) : mailbox :=
  shared (transport_run example_servers example_options (Some ("svc@x.org", "pem")) (λ _ i, Some i) (λ _, true) evs).

Definition proceed (i n : nat) : list event := replicate n (Proceed i 0).

Definition until_connected : list event := proceed 0 30.

Example connects : conn (example_run until_connected) = connected ∧ requests (example_run until_connected) = 5 ∧
  historyId (watch (example_run until_connected)) = "10" ∧ armed (example_run until_connected) = [(0, Renewal)]%list.
Proof. vm_compute. by repeat split. Qed.

(** Two pulls, two notifications that overlap: one mail is delivered once, the other one,
    which could not be fetched, is lost when the mark moves on. *)
Example overlapping_notifications :
  let s := example_run (until_connected ++ [PullTick] ++ proceed 1 9 ++ [PullTick] ++ proceed 3 9 ++
             proceed 2 5 ++ proceed 4 5 ++ proceed 2 20 ++ proceed 4 20)%list in
  ids_of s = ["m1"]%list ∧ failed s = ["m2"; "m2"]%list ∧ historyId (watch s) = "20".
Proof. vm_compute. by repeat split. Qed.

(** A renewal that began before a notification sets the mark of the history back. *)
Example history_goes_back :
  let before := (until_connected ++ [TimerFires 0] ++ proceed 1 1 ++ [PullTick] ++ proceed 2 9 ++ proceed 3 30)%list in
  historyId (watch (example_run before)) = "20" ∧
  historyId (watch (example_run (before ++ proceed 1 9)%list)) = "10".
Proof. vm_compute. by split. Qed.

(** A renewal that is in progress when the adapter disconnects makes a new watch
    afterwards, and sets its timer. *)
Example watch_revived :
  let s := example_run (until_connected ++ [TimerFires 0] ++ proceed 1 2 ++ [Disconnect] ++ proceed 2 20 ++ proceed 1 9)%list in
  conn s = disconnected ∧ active (watch s) = true ∧ armed s = [(1, Renewal)]%list.
Proof. vm_compute. by repeat split. Qed.

Lemma history_dealt_with_witness :
  let get := fetchAndDeliverNewEmails example_servers example_options "10" in
  (let s := (alone (λ _, 0%Z) 0 get new_mailbox).1.1 in ids_of s = ["m1"]%list ∧ failed s = ["m2"]%list) ∧
  safe mailbox_ok grows (λ _, grows) (λ _ _, True) tt get
    (λ _ s', ∃ n token h, on_history example_servers n (history_request example_options "10" token) = Answered h ∧
       ∀ r ids i, r ∈ default [] (history h) → messagesAdded r = Some ids → i ∈ ids → dealt_with s' i)
    (λ s', refused (on_token example_servers) (token_request example_options) ∨ tokens s' = None ∨
           ∃ token, refused (on_history example_servers) (history_request example_options "10" token)) new_mailbox.
Proof.
  cbv zeta. split; [vm_compute; by split|].
  refine (history_dealt_with example_servers example_options _ "10" new_mailbox). intros n i token m. change (on_message example_servers n _) with
    (if bool_decide (asked_id (message_path i) = "m2") then Refused 404 else Answered (example_message (asked_id (message_path i)))).
  rewrite asked_id_path. case_bool_decide; [done|]. by intros [= <-].
Defined.
