(* ===== verification/GmailAdapter.v ===== *)
(** * The Gmail adapter

    [src/channels/gmail/adapter.ts]: a mail that passes the filter becomes an inbound
    message whose text is an excerpt for the agent; a reply goes to the user on the
    notification channel if there is one, and otherwise as a mail through the transport.
    The regular expressions are written out.  What the notification adapter and the
    transport answer are arguments.  Texts are bytes as in [GmailClient.v]. *)

From Stdlib Require Import Ascii SpecFloat.
From S2P Require Import Prelude JsMap JsString JsNumber JsParse JsonText MessageQueue GmailFilter GmailClient GmailTransport Command.
From stdpp Require Import pretty.
Local Open Scope fh_scope.
Local Open Scope list_scope.
Local Open Scope string_scope.

(** ** The text of a mail *)

Definition formatBytes (bytes : Z) : string :=
  (if bytes <? 2 ^ 10 then pretty bytes ++ " B"
   else if bytes <? 2 ^ 20 then tenths (fixed1 bytes 10) ++ " KB"
   else tenths (fixed1 bytes 20) ++ " MB")%Z.

Definition attachment_text (a : AttachmentMeta) : string :=
  a_filename a ++ " (" ++ a_mimeType a ++ ", " ++ formatBytes (a_size a) ++ ")".

Definition excerpt (body : string) : string :=
  if (2000 <? String.length body)%nat then str_take 2000 body ++ "..." else body.

Definition newline : string := String "010" "".

Definition formatEmailForAgent (e : ParsedEmail) : string :=
  String.concat newline
    (app ["[Email] From: " ++ from (filtered e); "Subject: " ++ subject (filtered e)]
    (app (if str_truthy (e_snippet e) then ["Preview: " ++ e_snippet e] else [])
    (app (if (0 <? length (attachments e))%nat then ["Attachments: " ++ String.concat ", " (map attachment_text (attachments e))] else [])
         (match truthy_text (bodyText e) with Some b => [""; excerpt b] | None => [] end)))).

(** ** The sender *)

(** The longest beginning without the characters of [stop], and the rest. *)
Fixpoint span_until (stop : list ascii) (s : string) : string * string :=
  match s with
  | String c r => if bool_decide (c ∈ stop) then ("", s) else let '(a, b) := span_until stop r in (String c a, b)
  | EmptyString => ("", "")
  end.

Definition drop_quote (s : string) : string := if starts_with (String "034" "") s then str_drop 1 s else s.

(** What stands in angle brackets at the start. *)
Definition bracketed (s : string) : option string :=
  match s with
  | String "<"%char r =>
      let '(a, b) := span_until [">"%char] r in
      if str_truthy a && starts_with ">" b then Some a else None
  | _ => None
  end.

(** A name, perhaps in quotation marks, white space, an address in brackets; the longest
    name is the only one that can match, since it stops at a quotation mark or a bracket. *)
Definition display_name (s : string) : option string :=
  let '(name, r) := span_until ["034"%char; "<"%char] (drop_quote s) in
  if str_truthy name && bool_decide (is_Some (bracketed (trim_start (drop_quote r)))) then Some name else None.

Definition extractSenderName (from : string) : string :=
  match display_name from with
  | Some name => trim name
  | None => default from (bracketed from)
  end.

(** ** The adapter *)

(** [importance] is a double; it is kept beside the other metadata. *)
Record gmail_message := GmailMsg { inbound : InboundMessage; msg_importance : spec_float }.

Record OutboundMessage := Outbound { om_channel : string; om_userId : string; om_text : string; om_reply : option string }.

Record gmail_adapter := GmailState {
  is_connected : bool;
  emitted : list gmail_message;
  notified : list OutboundMessage;
  mails : list string }.

(** The notification adapter: its type, whether it is connected, and its answers. *)
Record notifier := Notifier { nt_type : string; nt_connected : bool; nt_send : OutboundMessage → result unit }.

Record GmailAdapterOptions := AdapterOptions {
  emailAddress : string;
  filterRules : EmailFilterRules;
  notificationAdapter : option notifier;
  notificationUserId : option string }.

Definition attachment_json (a : AttachmentMeta) : jvalue :=
  JObj (app [("filename", JStr (a_filename a)); ("mimeType", JStr (a_mimeType a)); ("size", JNum (a_size a))]
            (member "attachmentId" JStr (a_id a))).

Section Adapter.
Context (o : GmailAdapterOptions).
Context (regexp_test : string → string → option bool).
Context (sends_mail : string → result unit).

Abbreviation act := (M gmail_adapter).

Definition normalizeEmail (e : ParsedEmail) (importance : spec_float) : gmail_message :=
  let f := filtered e in
  GmailMsg (Inbound (e_id e) "gmail" ("gmail:" ++ emailAddress o) (extractSenderName (from f)) (Some (formatEmailForAgent e))
    None None None (e_date e) false
    (JObj [("threadId", JStr (e_threadId e)); ("subject", JStr (subject f)); ("from", JStr (from f)); ("to", JStr (e_to e));
           ("labels", JArr (map JStr (labelIds f))); ("isStarred", JBool (isStarred f)); ("isImportant", JBool (isImportant f));
           ("snippet", JStr (e_snippet e)); ("attachments", JArr (map attachment_json (attachments e)))])) importance.

Definition emit (m : gmail_message) : act unit :=
  modify (λ w, GmailState (is_connected w) (emitted w ++ [m])%list (notified w) (mails w)).

Definition processEmail (e : ParsedEmail) : act unit :=
  let r := evaluateFilter regexp_test (filtered e) (filterRules o) in
  if negb (passed r) then ret tt else emit (normalizeEmail e (importance r)).

(** [onConnectionState] of [connect]. *)
Definition onConnectionState (c : GmailTransport.connection) : act unit :=
  modify (λ w, match c with
               | connected => GmailState true (emitted w) (notified w) (mails w)
               | disconnected => GmailState false (emitted w) (notified w) (mails w)
               | connecting => w
               end).

(** [userId.replace(/^gmail:/, '')] *)
Definition mail_address (userId : string) : string :=
  if starts_with "gmail:" userId then str_drop 6 userId else userId.

Definition reply_mail (m : OutboundMessage) : raw_options :=
  RawOptions (emailAddress o) (mail_address (om_userId m)) "Re: FlowHelm notification" (om_text m) None None.

Definition notify (a : notifier) (m : OutboundMessage) : act unit := λ w,
  (nt_send a m, GmailState (is_connected w) (emitted w) (notified w ++ [m])%list (mails w)).

Definition sendEmail (raw : string) : act unit := λ w,
  (sends_mail raw, GmailState (is_connected w) (emitted w) (notified w) (mails w ++ [raw])%list).

Definition route : option (notifier * string) :=
  a ← notificationAdapter o; u ← truthy_text (notificationUserId o); if nt_connected a then Some (a, u) else None.

Definition send (m : OutboundMessage) : act unit :=
  do c <- asks is_connected;
  if negb c then throw "Gmail adapter not connected"
  else match route with
       | Some (a, u) => notify a (Outbound (nt_type a) u (om_text m) None)
       | None => sendEmail (buildRawEmail (reply_mail m))
       end.
End Adapter.

(** ** The configuration *)

Record gmail_config := GmailConfig {
  enabled : bool;
  cf_email : option string;
  cf_transport : string;
  cf_gcpProject : option string;
  cf_topic : option string;
  cf_subscription : option string;
  cf_keyPath : option string;
  cf_clientId : option string;
  cf_clientSecret : option string;
  cf_filter : option filter_config }.

(** [createGmailAdapter] with the transport it makes: [None] is null, with a warning where
    the adapter is enabled. *)
Definition createGmailAdapter (config : option gmail_config) (refreshToken : option string) (a : option notifier)
    (u : option string) : option (GmailAdapterOptions * transport_options) :=
  c ← config;
  if negb (enabled c) then None
  else
    email ← truthy_text (cf_email c);
    clientId ← truthy_text (cf_clientId c);
    clientSecret ← truthy_text (cf_clientSecret c);
    refresh ← truthy_text refreshToken;
    Some (AdapterOptions email (buildFilterRules (default (FilterConfig None None None None None) (cf_filter c))) a u,
          TransportOptions (bool_decide (cf_transport c = "pubsub")) email clientId clientSecret refresh (cf_gcpProject c)
            (cf_topic c) (cf_subscription c) (cf_keyPath c) (f ← cf_filter c; c_labels f)).

(** ** Names are found again *)

Lemma span_until_app stop s r : Forall (λ c, c ∉ stop) (String.list_ascii_of_string s) →
  (∀ c t, r = String c t → c ∈ stop) → span_until stop (s ++ r) = (s, r).
Proof.
  intros Hs Hr. induction s as [|c s IH]; simpl in Hs.
  - destruct r as [|c t]; [done|]. change ("" ++ String c t) with (String c t). simpl.
    by rewrite bool_decide_eq_true_2 by (by eapply Hr).
  - apply Forall_cons in Hs as [Hc Hs]. rewrite string_app_cons. simpl. rewrite bool_decide_eq_false_2 by done.
    by rewrite IH.
Qed.

Lemma truthy_nonempty s : s ≠ "" → str_truthy s = true.
Proof. intros Hs. unfold str_truthy. by rewrite bool_decide_eq_false_2. Qed.

Lemma bracketed_app addr r : addr ≠ "" → lacks ">"%char addr → bracketed ("<" ++ addr ++ ">" ++ r) = Some addr.
Proof.
  intros Hn Ha. change ("<" ++ addr ++ ">" ++ r) with (String "<" (addr ++ (">" ++ r))). cbn [bracketed].
  rewrite (span_until_app [">"%char] addr (">" ++ r)).
  - rewrite truthy_nonempty by done. by rewrite (proj2 (JsString.prefix_app ">" _)) by (by eexists).
  - apply Forall_forall. intros c Hc ->%list_elem_of_singleton. by apply Ha.
  - change (">" ++ r) with (String ">" r). intros c t [= <- _]. by apply list_elem_of_singleton.
Qed.

(** A name as it may stand in a header: it ends at the first quotation mark or bracket. *)
Definition plain_name (name : string) : Prop := lacks "034"%char name ∧ lacks "<"%char name ∧ name ≠ "".

Definition dquote : string := String "034" "".

Lemma drop_quote_quoted s : drop_quote (dquote ++ s) = s.
Proof. unfold drop_quote. rewrite (proj2 (JsString.prefix_app (String "034" "") (dquote ++ s))) by (by exists s). done. Qed.

Lemma display_found name sep addr : plain_name name → addr ≠ "" → lacks ">"%char addr →
  sep ∈ [""; dquote; dquote ++ " "] →
  display_name (name ++ sep ++ "<" ++ addr ++ ">") = Some name ∧
  display_name (dquote ++ name ++ sep ++ "<" ++ addr ++ ">") = Some name.
Proof.
  intros (H1 & H2 & Hn) Ha Hl Hsep.
  assert (Hd : drop_quote (name ++ sep ++ "<" ++ addr ++ ">") = name ++ sep ++ "<" ++ addr ++ ">").
  { destruct name as [|c name]; [done|]. apply lacks_cons in H1 as [H1 _]. unfold drop_quote. rewrite string_app_cons.
    destruct (starts_with (String "034" "") _) eqn:E; [|done]. apply JsString.prefix_app in E as [r [= E]]. by destruct H1. }
  assert (Hs : span_until ["034"%char; "<"%char] (name ++ sep ++ "<" ++ addr ++ ">") = (name, sep ++ "<" ++ addr ++ ">")).
  { apply span_until_app.
    - apply Forall_forall. intros c Hc. rewrite !elem_of_cons, elem_of_nil. intros [->|[->|[]]]; [by apply H1|by apply H2].
    - intros c t. rewrite !elem_of_cons in Hsep. destruct Hsep as [->|[->|[->|Hsep]]]; [..|by apply not_elem_of_nil in Hsep];
        intros E; injection E as <- _; rewrite !elem_of_cons; auto. }
  assert (Hb : bracketed (trim_start (drop_quote (sep ++ "<" ++ addr ++ ">"))) = Some addr).
  { pose proof (bracketed_app addr "" Ha Hl) as Hb. rewrite string_app_nil_r in Hb.
    rewrite !elem_of_cons in Hsep. destruct Hsep as [->|[->|[->|Hsep]]]; [exact Hb..|by apply not_elem_of_nil in Hsep]. }
  unfold display_name. rewrite drop_quote_quoted, Hd, Hs, Hb. by rewrite truthy_nonempty.
Qed.

(** The sender's name is the text before the address, in quotation marks or not, without
    the white space around it; where there is only an address, the address. *)
Theorem sender_name_found name addr : addr ≠ "" → lacks ">"%char addr →
  (plain_name name →
     extractSenderName (name ++ "<" ++ addr ++ ">") = trim name ∧
     extractSenderName (dquote ++ name ++ dquote ++ " <" ++ addr ++ ">") = trim name) ∧
  extractSenderName ("<" ++ addr ++ ">") = addr.
Proof.
  intros Ha Hl. split.
  - intros Hp. unfold extractSenderName. split.
    + change (name ++ "<" ++ addr ++ ">") with (name ++ "" ++ "<" ++ addr ++ ">").
      by rewrite (proj1 (display_found name "" addr Hp Ha Hl ltac:(rewrite !elem_of_cons; auto))).
    + change (dquote ++ name ++ dquote ++ " <" ++ addr ++ ">") with (dquote ++ name ++ (dquote ++ " ") ++ "<" ++ addr ++ ">").
      by rewrite (proj2 (display_found name (dquote ++ " ") addr Hp Ha Hl ltac:(rewrite !elem_of_cons; auto))).
  - pose proof (bracketed_app addr "" Ha Hl) as Hb. rewrite string_app_nil_r in Hb.
    unfold extractSenderName. by rewrite Hb.
Qed.

Lemma sender_name_found_witness :
  extractSenderName (dquote ++ "Ann Lee" ++ dquote ++ " <ann@x.org>") = "Ann Lee" ∧
  extractSenderName ("Ann Lee " ++ "<" ++ "ann@x.org" ++ ">") = trim "Ann Lee " ∧ extractSenderName "bob@y.org" = "bob@y.org".
Proof.
  split; [reflexivity|]. split; [|reflexivity].
  apply (sender_name_found "Ann Lee " "ann@x.org"); [done|by apply (bool_decide_unpack _); vm_compute|].
  split; [by apply (bool_decide_unpack _); vm_compute|]. split; [by apply (bool_decide_unpack _); vm_compute|done].
Defined.

(** ** What becomes of a mail, and of a reply *)

Section Outcomes.
Context (o : GmailAdapterOptions).
Context (sends_mail : string → result unit).

(** The text for the agent is short, whatever the length of the body. *)
Lemma excerpt_bound body : (String.length (excerpt body) ≤ 2003)%nat ∧ (∃ r, body = str_take 2000 body ++ r) .
Proof.
  split; [|exists (str_drop 2000 body); by rewrite take_drop_string].
  unfold excerpt. destruct (2000 <? String.length body)%nat eqn:E; bool_cases; [|lia].
  rewrite length_app_string, length_str_take. simpl String.length. lia.
Qed.

(** The notification adapter is connected, and knows the user. *)
Definition reachable (a : notifier) (u : string) : Prop :=
  notificationAdapter o = Some a ∧ nt_connected a = true ∧ notificationUserId o = Some u ∧ u ≠ "".

Lemma route_reachable a u : route o = Some (a, u) ↔ reachable a u.
Proof.
  unfold route, reachable. destruct (notificationAdapter o) as [a'|]; simpl; [|naive_solver].
  destruct (notificationUserId o) as [[|c u']|]; simpl; [naive_solver| |naive_solver].
  destruct (nt_connected a') eqn:E; split; [|by intros ([= <-] & _ & [= <-] & _)|done|].
  - by intros [= <- <-].
  - intros ([= <-] & Hc & _). congruence.
Qed.

(** C32: a reply reaches the user once or fails.  Where the notification adapter is connected
    and the user is known there, it goes there, under that channel's type and user and not
    as an answer to a mail, and not by mail; otherwise it goes by mail only, to the address
    that the chat's identifier gives after [gmail:], and a reader of the mail finds the text
    as it was sent.  The answer of the one or the other is that of the sending.  When the
    adapter itself is not connected, nothing is sent. *)
Theorem gmail_reply_outcome m w : lacks "013"%char (emailAddress o) → lacks "013"%char (om_userId m) →
  let '(r, w') := send o sends_mail m w in
  if is_connected w then
    (∀ a u, reachable a u →
       let message := Outbound (nt_type a) u (om_text m) None in
       r = nt_send a message ∧ mails w' = mails w ∧ notified w' = (notified w ++ [message])%list) ∧
    ((∀ a u, ¬ reachable a u) →
       ∃ raw address, r = sends_mail raw ∧ mails w' = (mails w ++ [raw])%list ∧ notified w' = notified w ∧
         (om_userId m = "gmail:" ++ address ∨ (om_userId m = address ∧ ∀ x, address ≠ "gmail:" ++ x)) ∧
         read_mail "" (decodeBase64Url raw) =
           Some (["From: " ++ emailAddress o; "To: " ++ address; "Subject: Re: FlowHelm notification";
                  "MIME-Version: 1.0"; "Content-Type: text/plain; charset=utf-8"], om_text m))
  else r = Err "Gmail adapter not connected" ∧ w' = w.
Proof.
  intros Hf Ht. unfold send, bind, asks. destruct (is_connected w) eqn:Ec; cbv beta iota delta [negb]; [|done].
  pose proof route_reachable as Hr. destruct (route o) as [[a u]|].
  - assert (Ha : reachable a u) by by apply Hr. split; [|intros Hn; by destruct (Hn a u)].
    intros a' u' Ha'. apply Hr in Ha' as [= <- <-]. done.
  - split; [intros a u Ha; by apply Hr in Ha|]. intros _. eexists _, (mail_address (om_userId m)). do 3 (split; [done|]).
    assert (Hm : lacks "013"%char (mail_address (om_userId m)) ∧ (om_userId m = "gmail:" ++ mail_address (om_userId m) ∨
      (om_userId m = mail_address (om_userId m) ∧ ∀ x, mail_address (om_userId m) ≠ "gmail:" ++ x))).
    { unfold mail_address. destruct (starts_with "gmail:" (om_userId m)) eqn:E.
      - apply JsString.prefix_app in E as [r E]. rewrite E in Ht |- *. apply lacks_app in Ht as [_ Ht]. split; [done|by left].
      - split; [done|]. right. split; [done|]. intros x Ex. rewrite (proj2 (JsString.prefix_app _ _)) in E; [done|by exists x]. }
    destruct Hm as [Hl Ha]. split; [exact Ha|].
    assert (Hx : one_line (reply_mail o m)).
    { unfold one_line. rewrite !Forall_cons. cbn. split_and!; try done; by apply (bool_decide_unpack _); vm_compute. }
    by apply mail_readback.
Qed.

Context (regexp_test : string → string → option bool).

Lemma evaluateFilter_importance email rules : importance (evaluateFilter regexp_test email rules) = computeImportance email.
Proof. unfold evaluateFilter. cbv zeta. by repeat case_match. Qed.

(** A mail is passed on once if nothing in the rules of the user speaks against it, under
    the address of the mailbox, and otherwise not at all. *)
Theorem mail_outcome e w :
  let f := filtered e in
  let rules := filterRules o in
  let admitted :=
    isAutomatedEmail f = None ∧ (∀ p, p ∈ excludeSenders rules → regexp_test p (to_lower (from f)) ≠ Some true) ∧
    (GmailFilter.labels rules = [] ∨ ∃ l, l ∈ GmailFilter.labels rules ∧ l ∈ labelIds f) ∧ (starredOnly rules = true → isStarred f = true) ∧
    (importantContacts rules = [] ∨ ∃ c, c ∈ importantContacts rules ∧ matches_contact c (to_lower (from f)) = true) ∧
    SFltb (computeImportance f) (minImportance rules) = false in
  let '(r, w') := processEmail o regexp_test e w in
  r = Ok tt ∧ notified w' = notified w ∧ mails w' = mails w ∧
  (admitted → ∃ m, emitted w' = (emitted w ++ [m])%list ∧ userId (inbound m) = "gmail:" ++ emailAddress o ∧
     msg_id (inbound m) = e_id e ∧ msg_importance m = computeImportance f) ∧
  (¬ admitted → w' = w).
Proof.
  intros f rules admitted. pose proof (evaluateFilter_passed regexp_test f rules) as Hp. fold admitted in Hp.
  unfold processEmail. fold f rules. destruct (passed (evaluateFilter regexp_test f rules)) eqn:E; cbn.
  - split; [done|]. split; [done|]. split; [done|]. split; [|intros Hn; by destruct Hn; apply Hp].
    intros _. eexists. split; [done|]. do 2 (split; [done|]). cbn. apply evaluateFilter_importance.
  - do 3 (split; [done|]). split; [|done]. intros Ha. by apply Hp in Ha.
Qed.
End Outcomes.

(** ** A mailbox *)

Definition no_filter : EmailFilterRules := buildFilterRules (FilterConfig None None None None None).

Definition example_adapter (a : option notifier) : GmailAdapterOptions := AdapterOptions "me@x.org" no_filter a (Some "tg:7").

Definition example_mail : ParsedEmail :=
  parseGmailMessage (Message "m1" "t1" ["INBOX"] "Please" 1700000000000
    (Payload "multipart/mixed" [Header "From" (dquote ++ "Ann Lee" ++ dquote ++ " <ann@x.org>"); Header "Subject" "Report"; Header "To" "me@x.org"] None
       [Payload "text/plain" [] (Some (Body (Some (encodeBase64Url "See the file.")) 13 None)) [];
        Payload "application/pdf" [Header "Content-Disposition" ("attachment; filename=" ++ dquote ++ "q1.pdf" ++ dquote)]
          (Some (Body None 2304 (Some "att1"))) []])).

Definition connected_adapter : gmail_adapter := GmailState true [] [] [].

Example mail_for_agent :
  map (λ m, (senderName (inbound m), text (inbound m)))
    (emitted (processEmail (example_adapter None) (λ _ _, None) example_mail connected_adapter).2) =
  [("Ann Lee", Some (String.concat newline ["[Email] From: " ++ dquote ++ "Ann Lee" ++ dquote ++ " <ann@x.org>"; "Subject: Report";
     "Preview: Please"; "Attachments: q1.pdf (application/pdf, 2.3 KB)"; ""; "See the file."]))].
Proof. vm_compute. reflexivity. Qed.

Definition example_reply : OutboundMessage := Outbound "gmail" "gmail:me@x.org" "Done." (Some "m1").

Lemma gmail_reply_outcome_witness :
  let telegram := Notifier "telegram" true (λ _, Ok tt) in
  (notified (send (example_adapter (Some telegram)) (λ _, Ok tt) example_reply connected_adapter).2 =
     [Outbound "telegram" "tg:7" "Done." None]) ∧
  ∃ raw, mails (send (example_adapter None) (λ _, Ok tt) example_reply connected_adapter).2 = [raw] ∧
    snd <$> read_mail "" (decodeBase64Url raw) = Some "Done.".
Proof.
  split; [reflexivity|].
  assert (H : lacks "013"%char "me@x.org" ∧ lacks "013"%char "gmail:me@x.org") by (split; apply (bool_decide_unpack _); vm_compute; exact I).
  destruct (gmail_reply_outcome (example_adapter None) (λ _, Ok tt) example_reply connected_adapter (proj1 H) (proj2 H))
    as [_ Hmail].
  destruct (Hmail ltac:(intros a u [Ha _]; discriminate Ha)) as (raw & address & _ & E & _ & _ & Hr).
  exists raw. split; [exact E|]. by rewrite Hr.
Defined.

(** Without a notification channel the reply goes to the mailbox itself, whose filter
    admits it: the agent receives its own answer as a new mail. *)
Example own_reply_admitted :
  let reply := parseGmailMessage (Message "m2" "t2" ["INBOX"; "SENT"] "Done." 1700000001000
    (Payload "text/plain" [Header "From" "me@x.org"; Header "To" (mail_address (om_userId example_reply)); Header "Subject" "Re: FlowHelm notification"]
       (Some (Body (Some (encodeBase64Url "Done.")) 5 None)) [])) in
  e_to reply = "me@x.org" ∧
  length (emitted (processEmail (example_adapter None) (λ _ _, None) reply connected_adapter).2) = 1.
Proof. vm_compute. by split. Qed.
