(* ===== verification/ImapClient.v ===== *)
(** * The IMAP and SMTP clients of Gmail

    [src/channels/gmail/imap-client.ts].  The IMAP client is a state with events: data,
    errors and ends of sockets, timers, and the calls of [connect] and [disconnect].  Its
    asynchronous functions are suspended at a greeting, the response to a command, or a
    pause, and are identified by the promise they wait for.  As in the source, every
    listener adds the data it hears to the one buffer, a listener is removed from the
    socket that is current then, and a socket that is replaced is not closed.  The SMTP
    client sends one message in a dialogue with a server, whose responses are an
    argument. *)

From Stdlib Require Import Ascii.
From S2P Require Import Prelude JsMap JsString JsParse GmailFilter GmailClient Command.
From stdpp Require Import pretty.
Local Open Scope fh_scope.
Local Open Scope list_scope.
Local Open Scope string_scope.

(** ** Lines *)

(** The text up to the first line break and what follows it. *)
Fixpoint cut_crlf (s : string) : option (string * string) :=
  match s with
  | EmptyString => None
  | String c r =>
      if starts_with crlf s then Some ("", str_drop 2 s)
      else '(line, r) ← cut_crlf r; Some (String c line, r)
  end.

(** The complete lines of a buffer and the rest. *)
Fixpoint cut_lines (fuel : nat) (buffer : string) : list string * string :=
  match fuel with
  | O => ([], buffer)
  | S fuel =>
      match cut_crlf buffer with
      | None => ([], buffer)
      | Some (line, rest) => let '(l, b) := cut_lines fuel rest in (line :: l, b)
      end
  end.

Definition lines_of (buffer : string) : list string * string := cut_lines (String.length buffer) buffer.

Fixpoint skip_digits (s : string) : string :=
  match s with
  | String c r => if bool_decide (is_Some (digit c)) then skip_digits r else s
  | EmptyString => ""
  end.

(** An asterisk, a number and EXISTS at the start of a line. *)
Definition announces_mail (line : string) : bool :=
  starts_with "* " line &&
  (let r := str_drop 2 line in
   match r with String c _ => bool_decide (is_Some (digit c)) | EmptyString => false end && starts_with " EXISTS" (skip_digits r)).

(** ** The state *)

(** Who called [doConnect]: [connect], or a timer. *)
Inductive purpose := First | Again.

(** What a function waits for; a command with its tag. *)
Inductive stage := Authenticating | Selecting | Nooping | LoggingOut.
Inductive wait := AwaitGreeting | AwaitResponse (tag : string) (g : stage) | Sleeping.

Inductive listener := Idle | Greeting (f : nat) | Response (f : nat) (tag : string).
#[export] Instance listener_eq_dec : EqDecision listener.
Proof. solve_decision. Defined.

Record ImapClientOptions := ImapOptions {
  emailAddress : string;
  accessToken : string;
  autoReconnect : bool;
  maxReconnectAttempts : nat;
  reconnectBaseDelay : Z }.

(** The fields of the client; then the sockets that are open, each with the function that
    connected it, and their listeners in order; the functions in progress, the promises of
    [doConnect] that are not settled; the timers; what was written to which socket; and
    the events the client has emitted. *)
Record imap := Imap {
  socket : option nat;
  connected : bool;
  idling : bool;
  tagCounter : nat;
  buffer : string;
  reconnectAttempts : nat;
  idleRefreshTimer : option nat;
  stopping : bool;
  sockets : list (nat * nat);
  listeners : list (nat * listener);
  flows : list (nat * wait);
  unsettled : list (nat * purpose);
  refresh_timers : list nat;
  reconnect_timers : list (nat * Z);
  next : nat;
  written : list (nat * string);
  newMail : nat;
  gaveUp : nat }.

Definition new_imap : imap := Imap None false false 0 "" 0 None false [] [] [] [] [] [] 0 [] 0 0.

Definition put_socket (x : option nat) (l : list (nat * nat)) (h : list (nat * listener)) (s : imap) : imap :=
  Imap x (connected s) (idling s) (tagCounter s) (buffer s) (reconnectAttempts s) (idleRefreshTimer s) (stopping s) l h (flows s) (unsettled s) (refresh_timers s) (reconnect_timers s) (next s) (written s) (newMail s) (gaveUp s).
Definition put_flags (c i : bool) (s : imap) : imap :=
  Imap (socket s) c i (tagCounter s) (buffer s) (reconnectAttempts s) (idleRefreshTimer s) (stopping s) (sockets s) (listeners s) (flows s) (unsettled s) (refresh_timers s) (reconnect_timers s) (next s) (written s) (newMail s) (gaveUp s).
Definition put_buffer (b : string) (m : nat) (s : imap) : imap :=
  Imap (socket s) (connected s) (idling s) (tagCounter s) b (reconnectAttempts s) (idleRefreshTimer s) (stopping s) (sockets s) (listeners s) (flows s) (unsettled s) (refresh_timers s) (reconnect_timers s) (next s) (written s) m (gaveUp s).
Definition put_attempts (n : nat) (g : nat) (s : imap) : imap :=
  Imap (socket s) (connected s) (idling s) (tagCounter s) (buffer s) n (idleRefreshTimer s) (stopping s) (sockets s) (listeners s) (flows s) (unsettled s) (refresh_timers s) (reconnect_timers s) (next s) (written s) (newMail s) g.
Definition put_stopping (b : bool) (s : imap) : imap :=
  Imap (socket s) (connected s) (idling s) (tagCounter s) (buffer s) (reconnectAttempts s) (idleRefreshTimer s) b (sockets s) (listeners s) (flows s) (unsettled s) (refresh_timers s) (reconnect_timers s) (next s) (written s) (newMail s) (gaveUp s).
Definition put_flows (l : list (nat * wait)) (u : list (nat * purpose)) (s : imap) : imap :=
  Imap (socket s) (connected s) (idling s) (tagCounter s) (buffer s) (reconnectAttempts s) (idleRefreshTimer s) (stopping s) (sockets s) (listeners s) l u (refresh_timers s) (reconnect_timers s) (next s) (written s) (newMail s) (gaveUp s).
Definition put_timers (r : option nat) (l : list nat) (k : list (nat * Z)) (s : imap) : imap :=
  Imap (socket s) (connected s) (idling s) (tagCounter s) (buffer s) (reconnectAttempts s) r (stopping s) (sockets s) (listeners s) (flows s) (unsettled s) l k (next s) (written s) (newMail s) (gaveUp s).
Definition put_output (t : nat) (w : list (nat * string)) (s : imap) : imap :=
  Imap (socket s) (connected s) (idling s) t (buffer s) (reconnectAttempts s) (idleRefreshTimer s) (stopping s) (sockets s) (listeners s) (flows s) (unsettled s) (refresh_timers s) (reconnect_timers s) (next s) w (newMail s) (gaveUp s).

(** A fresh number, for a socket, a function or a timer. *)
Definition fresh (s : imap) : nat * imap :=
  (next s, Imap (socket s) (connected s) (idling s) (tagCounter s) (buffer s) (reconnectAttempts s) (idleRefreshTimer s) (stopping s) (sockets s) (listeners s) (flows s) (unsettled s) (refresh_timers s) (reconnect_timers s) (S (next s)) (written s) (newMail s) (gaveUp s)).

(** ** Sockets and output *)

Definition on_data (l : listener) (s : imap) : imap :=
  match socket s with
  | Some k => put_socket (socket s) (sockets s) (listeners s ++ [(k, l)])%list s
  | None => s
  end.

Definition remove_listener (l : listener) (s : imap) : imap :=
  match socket s with
  | Some k => put_socket (socket s) (sockets s) (filter (λ x, x ≠ (k, l)) (listeners s)) s
  | None => s
  end.

Definition sendRaw (data : string) (s : imap) : imap :=
  match socket s with
  | Some k => put_output (tagCounter s) (written s ++ [(k, data)])%list s
  | None => s
  end.

Definition destroySocket (s : imap) : imap :=
  match socket s with
  | Some k => put_socket None (filter (λ x, x.1 ≠ k) (sockets s)) (filter (λ x, x.1 ≠ k) (listeners s)) s
  | None => s
  end.

(** [padStart(n, '0')] *)
Definition pad_start (n : nat) (s : string) : string :=
  String.string_of_list_ascii (replicate (n - String.length s) "0"%char) ++ s.

Definition tag_text (n : nat) : string := "A" ++ pad_start 4 (pretty n).

Definition nextTag (s : imap) : string * imap :=
  (tag_text (S (tagCounter s)), put_output (S (tagCounter s)) (written s) s).

Definition wait_for (f : nat) (x : wait) (s : imap) : imap := put_flows ((f, x) :: flows s) (unsettled s) s.

Definition sendCommand (f : nat) (g : stage) (command : string) (s : imap) : imap :=
  let '(tag, s) := nextTag s in
  wait_for f (AwaitResponse tag g) (sendRaw (tag ++ " " ++ command ++ crlf) (on_data (Response f tag) s)).

(** ** Timers *)

Definition cancelIdleRefresh (s : imap) : imap :=
  match idleRefreshTimer s with
  | Some i => put_timers None (filter (λ j, j ≠ i) (refresh_timers s)) (reconnect_timers s) s
  | None => s
  end.

Definition scheduleIdleRefresh (s : imap) : imap :=
  let s := cancelIdleRefresh s in
  let '(i, s) := fresh s in put_timers (Some i) (refresh_timers s ++ [i])%list (reconnect_timers s) s.

Definition startIdle (s : imap) : imap :=
  let '(tag, s) := nextTag s in
  let s := sendRaw (tag ++ " IDLE" ++ crlf) s in
  scheduleIdleRefresh (put_flags (connected s) true s).

Definition MAX_DELAY : Z := 300000.

Definition buildXOAuth2Token (email accessToken : string) : string :=
  let ctrl := String "001" "" in base64 ("user=" ++ email ++ ctrl ++ "auth=Bearer " ++ accessToken ++ ctrl ++ ctrl).

Section Client.
Context (o : ImapClientOptions).

Definition handleDisconnect (s : imap) : imap :=
  let s := destroySocket (cancelIdleRefresh (put_flags false false s)) in
  if stopping s || negb (autoReconnect o) then s
  else
    let n := S (reconnectAttempts s) in
    if (0 <? maxReconnectAttempts o)%nat && (maxReconnectAttempts o <? n)%nat then put_attempts n (S (gaveUp s)) s
    else
      let '(i, s) := fresh (put_attempts n (gaveUp s) s) in
      put_timers (idleRefreshTimer s) (refresh_timers s)
        (reconnect_timers s ++ [(i, Z.min (reconnectBaseDelay o * 2 ^ Z.of_nat (n - 1)) MAX_DELAY)])%list s.

(** The promise of [doConnect] of function [f] is resolved or rejected, unless it was
    before, and what waits for it goes on. *)
Definition settle (f : nat) (resolved : bool) (s : imap) : imap :=
  match List.find (λ u, bool_decide (u.1 = f)) (unsettled s) with
  | None => s
  | Some (_, p) =>
      let s := put_flows (flows s) (filter (λ u, u.1 ≠ f) (unsettled s)) s in
      if resolved then put_attempts 0 (gaveUp s) s
      else match p with First => s | Again => handleDisconnect s end
  end.

Definition doConnect (p : purpose) (s : imap) : imap :=
  let '(k, s) := fresh s in
  let '(f, s) := fresh s in
  let s := put_buffer "" (newMail s) (put_socket (Some k) (sockets s ++ [(k, f)])%list (listeners s) s) in
  wait_for f AwaitGreeting (on_data (Greeting f) (put_flows (flows s) ((f, p) :: unsettled s) s)).

(** The rest of a function once what it waited for has come ([true]) or failed. *)
Definition resume (f : nat) (x : wait) (ok : bool) (s : imap) : imap :=
  match x with
  | AwaitGreeting =>
      if ok then sendCommand f Authenticating ("AUTHENTICATE XOAUTH2 " ++ buildXOAuth2Token (emailAddress o) (accessToken o)) s
      else settle f false (destroySocket s)
  | AwaitResponse _ Authenticating =>
      if ok then sendCommand f Selecting "SELECT INBOX" s else settle f false (destroySocket s)
  | AwaitResponse _ Selecting =>
      if ok then settle f true (startIdle (on_data Idle (put_flags true (idling s) s)))
      else settle f false (destroySocket s)
  | AwaitResponse _ Nooping => if ok then startIdle s else handleDisconnect s
  | AwaitResponse _ LoggingOut => let s := destroySocket s in put_flags false (idling s) s
  | Sleeping => sendCommand f Nooping "NOOP" s
  end.

(** The function waits no more and goes on. *)
Definition wake (f : nat) (ok : bool) (s : imap) : imap :=
  match List.find (λ u, bool_decide (u.1 = f)) (flows s) with
  | None => s
  | Some (_, x) => resume f x ok (put_flows (filter (λ u, u.1 ≠ f) (flows s)) (unsettled s) s)
  end.

(** ** Listeners *)

(** The lines up to the response to [tag] are used up: the state of the buffer, and
    whether the response was found, and is OK. *)
Fixpoint find_response (fuel : nat) (tag buffer : string) : string * option bool :=
  match fuel with
  | O => (buffer, None)
  | S fuel =>
      match cut_crlf buffer with
      | None => (buffer, None)
      | Some (line, rest) =>
          if starts_with (tag ++ " OK") line then (rest, Some true)
          else if starts_with (tag ++ " NO") line || starts_with (tag ++ " BAD") line then (rest, Some false)
          else find_response fuel tag rest
      end
  end.

(** One listener hears a chunk; a promise it settles is the second part. *)
Definition hear (chunk : string) (l : listener) (s : imap) : imap * option (nat * bool) :=
  let b := buffer s ++ chunk in
  match l with
  | Idle =>
      let '(lines, rest) := lines_of b in
      (put_buffer rest (if idling s then newMail s + length (List.filter announces_mail lines) else newMail s)%nat s, None)
  | Greeting f =>
      match cut_crlf b with
      | Some (line, rest) =>
          if starts_with "* OK" line then (put_buffer rest (newMail s) (remove_listener l s), Some (f, true))
          else (put_buffer b (newMail s) s, None)
      | None => (put_buffer b (newMail s) s, None)
      end
  | Response f tag =>
      match find_response (String.length b) tag b with
      | (rest, Some ok) => (put_buffer rest (newMail s) (remove_listener l s), Some (f, ok))
      | (rest, None) => (put_buffer rest (newMail s) s, None)
      end
  end.

(** All listeners of the socket hear the chunk, one after the other; the functions whose
    promises were settled go on afterwards. *)
Fixpoint hear_all (chunk : string) (ls : list listener) (s : imap) : imap * list (nat * bool) :=
  match ls with
  | [] => (s, [])
  | l :: ls =>
      let '(s, r) := hear chunk l s in
      let '(s, rs) := hear_all chunk ls s in
      (s, option_list r ++ rs)%list
  end.

Definition listening (k : nat) (s : imap) : list listener := omap (λ x, if decide (x.1 = k) then Some x.2 else None) (listeners s).

Definition data (k : nat) (chunk : string) (s : imap) : imap :=
  let '(s, rs) := hear_all chunk (listening k s) s in
  foldl (λ s r, wake r.1 r.2 s) s rs.

(** ** Events *)

Definition connect (s : imap) : imap := doConnect First (put_stopping false s).

Definition disconnect (s : imap) : imap :=
  let s := cancelIdleRefresh (put_stopping true s) in
  let s := if idling s then let s := sendRaw ("DONE" ++ crlf) s in put_flags (connected s) false s else s in
  if connected s then let '(f, s) := fresh s in sendCommand f LoggingOut "LOGOUT" s
  else let s := destroySocket s in put_flags false (idling s) s.

Definition refreshIdle (s : imap) : imap :=
  if negb (idling s) || negb (connected s) then s
  else
    let s := sendRaw ("DONE" ++ crlf) s in
    let s := put_flags (connected s) false s in
    let '(f, s) := fresh s in wait_for f Sleeping s.

(** A timeout of ten or thirty seconds; a pause waits for its end alone. *)
Definition time_up (f : nat) (s : imap) : imap :=
  match List.find (λ u, bool_decide (u.1 = f)) (flows s) with
  | Some (_, AwaitGreeting) => wake f false (remove_listener (Greeting f) s)
  | Some (_, AwaitResponse tag _) => wake f false (remove_listener (Response f tag) s)
  | Some (_, Sleeping) => wake f true s
  | None => s
  end.

Definition socket_error (k : nat) (s : imap) : imap :=
  match List.find (λ x, bool_decide (x.1 = k)) (sockets s) with
  | Some (_, f) => if connected s then handleDisconnect s else settle f false s
  | None => s
  end.

Definition socket_close (k : nat) (s : imap) : imap :=
  match List.find (λ x, bool_decide (x.1 = k)) (sockets s) with
  | Some _ =>
      let s := put_socket (socket s) (filter (λ x, x.1 ≠ k) (sockets s)) (listeners s) s in
      if connected s then handleDisconnect s else s
  | None => s
  end.

Inductive imap_event :=
| Connect | Disconnect
| Data (k : nat) (chunk : string)
| SocketError (k : nat) | SocketClose (k : nat)
| TimeUp (f : nat)
| RefreshTimer (i : nat) | ReconnectTimer (i : nat).

Definition imap_step (s : imap) (ev : imap_event) : imap :=
  match ev with
  | Connect => connect s
  | Disconnect => disconnect s
  | Data k chunk => if bool_decide (k ∈ map fst (sockets s)) then data k chunk s else s
  | SocketError k => socket_error k s
  | SocketClose k => socket_close k s
  | TimeUp f => time_up f s
  | RefreshTimer i =>
      if bool_decide (i ∈ refresh_timers s)
      then refreshIdle (put_timers (idleRefreshTimer s) (filter (λ j, j ≠ i) (refresh_timers s)) (reconnect_timers s) s) else s
  | ReconnectTimer i =>
      if bool_decide (i ∈ map fst (reconnect_timers s))
      then doConnect Again (put_timers (idleRefreshTimer s) (refresh_timers s) (filter (λ t, t.1 ≠ i) (reconnect_timers s)) s) else s
  end.

Definition imap_run (evs : list imap_event) : imap := fold_left imap_step evs new_imap.
End Client.

(** ** Lines do not depend on how the stream is cut *)

Lemma cut_crlf_app s line r t : cut_crlf s = Some (line, r) → cut_crlf (s ++ t) = Some (line, r ++ t).
Proof.
  revert line r. induction s as [|c s IH]; intros line r; [done|]. rewrite string_app_cons. cbn [cut_crlf].
  destruct (starts_with crlf (String c s)) eqn:E.
  - intros [= <- <-]. apply JsString.prefix_app in E as [x E]. change (String c s = String "013" (String "010" x)) in E.
    injection E as -> ->. rewrite string_app_cons.
    by rewrite (proj2 (JsString.prefix_app crlf (String "013" (String "010" (x ++ t))))) by (by eexists).
  - destruct (starts_with crlf (String c (s ++ t))) eqn:E2.
    + apply JsString.prefix_app in E2 as [x E2]. change (String c (s ++ t) = String "013" (String "010" x)) in E2.
      injection E2 as -> E2. destruct s as [|d s]; [done|]. rewrite string_app_cons in E2. injection E2 as -> _. 
      by rewrite (proj2 (JsString.prefix_app crlf (String "013" (String "010" s)))) in E by (by eexists).
    + destruct (cut_crlf s) as [[l x]|] eqn:Ec; [|done]. cbn. intros [= <- <-]. by rewrite (IH l x).
Qed.

Lemma cut_crlf_shorter s line r : cut_crlf s = Some (line, r) → String.length s = (String.length line + 2 + String.length r)%nat.
Proof.
  revert line r. induction s as [|c s IH]; intros line r; [done|]. cbn [cut_crlf].
  destruct (starts_with crlf (String c s)) eqn:E.
  - intros [= <- <-]. apply JsString.prefix_app in E as [x E]. change (String c s = String "013" (String "010" x)) in E.
    by injection E as -> ->.
  - destruct (cut_crlf s) as [[l x]|]; [|done]. cbn. intros [= <- <-]. simpl. by rewrite (IH l x).
Qed.

Lemma cut_lines_fuel n m s : (String.length s ≤ n)%nat → (String.length s ≤ m)%nat → cut_lines n s = cut_lines m s.
Proof.
  revert m s. induction n as [|n IH]; intros [|m] s Hn Hm; cbn [cut_lines]; try done.
  - destruct s; [done|simpl in *; lia].
  - destruct s; [done|simpl in *; lia].
  - destruct (cut_crlf s) as [[l r]|] eqn:E; [|done]. apply cut_crlf_shorter in E. rewrite (IH m r) by lia. done.
Qed.

Lemma cut_lines_app n s t : (String.length s ≤ n)%nat →
  lines_of (s ++ t) = ((cut_lines n s).1 ++ (lines_of ((cut_lines n s).2 ++ t)).1, (lines_of ((cut_lines n s).2 ++ t)).2)%list.
Proof.
  revert s. induction n as [|n IH]; intros s Hle; cbn [cut_lines].
  - cbn. by destruct (lines_of (s ++ t)).
  - destruct (cut_crlf s) as [[l r]|] eqn:E; [|cbn; by destruct (lines_of (s ++ t))].
    pose proof (cut_crlf_shorter _ _ _ E) as Hl. specialize (IH r ltac:(lia)). destruct (cut_lines n r) as [ls b]. cbn [fst snd] in IH |- *.
    unfold lines_of at 1. rewrite length_app_string. destruct (String.length s + String.length t)%nat as [|m] eqn:Em; [lia|].
    cbn [cut_lines]. rewrite (cut_crlf_app _ _ _ t E).
    rewrite (cut_lines_fuel m (String.length (r ++ t)) (r ++ t)) by (rewrite ?length_app_string; lia).
    fold (lines_of (r ++ t)). rewrite IH. done.
Qed.

Lemma lines_of_app s t : lines_of (s ++ t) =
  ((lines_of s).1 ++ (lines_of ((lines_of s).2 ++ t)).1, (lines_of ((lines_of s).2 ++ t)).2)%list.
Proof. by apply cut_lines_app. Qed.

Section Idling.
Context (o : ImapClientOptions).

Definition mails_in (lines : list string) : nat := length (List.filter announces_mail lines).

Lemma lines_of_partial s : cut_crlf s = None → lines_of s = ([], s).
Proof. intros E. unfold lines_of. destruct (String.length s); cbn [cut_lines]; [done|]. by rewrite E. Qed.

Lemma cut_lines_rest n s : (String.length s ≤ n)%nat → cut_crlf (cut_lines n s).2 = None.
Proof.
  revert s. induction n as [|n IH]; intros s Hle; cbn [cut_lines]; [by destruct s; [|simpl in *; lia]|].
  destruct (cut_crlf s) as [[l r]|] eqn:E; [|done]. pose proof (cut_crlf_shorter _ _ _ E).
  specialize (IH r ltac:(lia)). by destruct (cut_lines n r).
Qed.

Lemma idle_hears k chunk s : idling s = true → listening k s = [Idle] → k ∈ map fst (sockets s) →
  imap_step o s (Data k chunk) =
    put_buffer (lines_of (buffer s ++ chunk)).2 (newMail s + mails_in (lines_of (buffer s ++ chunk)).1)%nat s.
Proof.
  intros Hi Hl Hk. cbn [imap_step]. rewrite bool_decide_eq_true_2 by done. unfold data. rewrite Hl. cbn [hear_all hear].
  unfold mails_in. destruct (lines_of _) as [ls r]. by rewrite Hi.
Qed.

(** While the client idles, every announcement of new mail is counted once and as soon as
    its line is complete, however the stream is cut into chunks. *)
Theorem idle_counts_all k chunks s :
  idling s = true → listening k s = [Idle] → k ∈ map fst (sockets s) → cut_crlf (buffer s) = None →
  let stream := buffer s ++ String.concat "" chunks in
  let s' := fold_left (imap_step o) (map (Data k) chunks) s in
  newMail s' = (newMail s + mails_in (lines_of stream).1)%nat ∧ buffer s' = (lines_of stream).2.
Proof.
  cbv zeta. revert s. induction chunks as [|c chunks IH]; intros s Hi Hl Hk Hb.
  - cbn [map fold_left String.concat]. rewrite string_app_nil_r, lines_of_partial by done. cbn. by rewrite Nat.add_0_r.
  - cbn [map fold_left]. rewrite idle_hears by done.
    set (s1 := put_buffer _ _ s). assert (Hb1 : cut_crlf (buffer s1) = None) by by apply cut_lines_rest.
    destruct (IH s1 Hi Hl Hk Hb1) as [-> ->].
    assert (Hc : String.concat "" (c :: chunks) = c ++ String.concat "" chunks).
    { destruct chunks; cbn [String.concat]; [by rewrite string_app_nil_r|done]. }
    rewrite Hc, <- string_app_assoc, (lines_of_app (buffer s ++ c)). subst s1. cbn [newMail buffer put_buffer fst snd].
    split; [|done]. unfold mails_in. rewrite List.filter_app, length_app. lia.
Qed.
End Idling.

(** ** Timers *)

Section Timers.
Context (o : ImapClientOptions) (Hbase : (0 < reconnectBaseDelay o ≤ MAX_DELAY)%Z).

(** The delays of reconnections are between the base and the limit; at most one refresh of
    the idling is to come, and it is the one that is remembered. *)
Definition timers_fine (s : imap) : Prop :=
  Forall (λ t, (reconnectBaseDelay o ≤ t.2 ≤ MAX_DELAY)%Z) (reconnect_timers s) ∧
  (refresh_timers s = [] ∨ option_list (idleRefreshTimer s) = refresh_timers s).

Definition same_timers (s s' : imap) : Prop :=
  refresh_timers s' = refresh_timers s ∧ idleRefreshTimer s' = idleRefreshTimer s ∧ reconnect_timers s' = reconnect_timers s.

Lemma same_fine s s' : same_timers s s' → timers_fine s → timers_fine s'.
Proof. unfold timers_fine. by intros (-> & -> & ->). Qed.

#[local] Instance same_refl : Reflexive same_timers. Proof. by repeat split. Qed.
#[local] Instance same_trans : Transitive same_timers.
Proof. intros s1 s2 s3 (? & ? & ?) (? & ? & ?). split_and!; congruence. Qed.

Lemma same_send f g c s : same_timers s (sendCommand f g c s).
Proof. unfold sendCommand, nextTag, wait_for, sendRaw, on_data. by destruct s as [[?|]]. Qed.

Lemma same_destroy s : same_timers s (destroySocket s).
Proof. by destruct s as [[?|]]. Qed.

Lemma same_remove l s : same_timers s (remove_listener l s).
Proof. by destruct s as [[?|]]. Qed.

Lemma filter_own (i : nat) l : l = [] ∨ [i] = l → filter (λ j, j ≠ i) l = [].
Proof. intros [->|<-]; [done|]. by rewrite filter_cons_False by (intros H; by apply H). Qed.

Lemma cancel_fine s : timers_fine s → timers_fine (cancelIdleRefresh s) ∧ refresh_timers (cancelIdleRefresh s) = [].
Proof.
  intros [Hd Hr]. unfold cancelIdleRefresh. destruct (idleRefreshTimer s) as [i|] eqn:E.
  - assert (Hf := filter_own i (refresh_timers s) Hr). by split; [split; [done|left]|].
  - split; [split; [done|]; rewrite E; auto|]. by destruct Hr as [?|<-].
Qed.

Lemma disconnected_fine s : timers_fine s → timers_fine (handleDisconnect o s).
Proof.
  intros Hs. unfold handleDisconnect.
  assert (H1 : timers_fine (destroySocket (cancelIdleRefresh (put_flags false false s)))).
  { eapply same_fine; [apply same_destroy|]. by apply (cancel_fine (put_flags false false s)). }
  generalize dependent (destroySocket (cancelIdleRefresh (put_flags false false s))). intros s1 [Hd Hr].
  destruct (_ || _); [done|]. destruct (_ && _); [done|]. split; [|done]. cbn. apply Forall_app. split; [done|].
  constructor; [|done]. cbn. assert (1 ≤ 2 ^ Z.of_nat (reconnectAttempts s1 - 0))%Z by (apply (Z.pow_le_mono_r 2 0); lia). nia.
Qed.

Lemma settle_fine f b s : timers_fine s → timers_fine (settle o f b s).
Proof.
  intros Hs. unfold settle. destruct (List.find _ _) as [[? []]|]; [| |done]; destruct b; try done. by apply disconnected_fine.
Qed.

Lemma idle_fine s : timers_fine s → timers_fine (startIdle s).
Proof.
  intros Hs. unfold startIdle, nextTag, scheduleIdleRefresh.
  set (s1 := put_flags _ _ _). assert (H1 : timers_fine s1).
  { eapply same_fine; [|exact Hs]. subst s1. unfold sendRaw. by destruct s as [[?|]]. }
  destruct (cancel_fine s1 H1) as [[Hd _] Hr]. unfold fresh. split; cbn; [done|]. right. by rewrite Hr.
Qed.

Lemma connect_fine p s : timers_fine s → timers_fine (doConnect p s).
Proof. apply same_fine. split_and!; reflexivity. Qed.

Lemma stopping_fine b s : timers_fine s → timers_fine (put_stopping b s).
Proof. exact (λ H, H). Qed.

Lemma send_fine f g c s : timers_fine s → timers_fine (sendCommand f g c s).
Proof. apply same_fine, same_send. Qed.

Lemma destroy_fine s : timers_fine s → timers_fine (destroySocket s).
Proof. apply same_fine, same_destroy. Qed.

Lemma flags_fine a b s : timers_fine s → timers_fine (put_flags a b s).
Proof. by apply same_fine. Qed.

Lemma resume_fine f x b s : timers_fine s → timers_fine (resume o f x b s).
Proof.
  intros Hs. pose proof (destroy_fine s Hs) as Hd. destruct x as [|tag g|]; cbn [resume]; [| |by apply send_fine].
  - destruct b; [by apply send_fine|by apply settle_fine].
  - destruct g; [destruct b; [by apply send_fine|by apply settle_fine]| |destruct b; [by apply idle_fine|by apply disconnected_fine]
                |by apply flags_fine].
    destruct b; [|by apply settle_fine]. apply settle_fine, idle_fine. eapply same_fine; [|exact Hs].
    unfold on_data. by destruct s as [[?|]].
Qed.

Lemma wake_fine f b s : timers_fine s → timers_fine (wake o f b s).
Proof. intros Hs. unfold wake. destruct (List.find _ _) as [[g x]|]; [|done]. by apply resume_fine. Qed.

Lemma hear_same chunk l s : same_timers s (hear chunk l s).1.
Proof.
  unfold hear. destruct l as [|f|f tag].
  - by destruct (lines_of _).
  - destruct (cut_crlf _) as [[line rest]|]; [|done]. destruct (starts_with _ _); [|done]. exact (same_remove _ s).
  - destruct (find_response _ _ _) as [rest [b|]]; [exact (same_remove _ s)|done].
Qed.

Lemma hear_all_same chunk ls s : same_timers s (hear_all chunk ls s).1.
Proof.
  revert s. induction ls as [|l ls IH]; intros s; [done|]. cbn [hear_all]. pose proof (hear_same chunk l s) as H.
  destruct (hear chunk l s) as [s1 r]. specialize (IH s1). destruct (hear_all chunk ls s1) as [s2 rs]. cbn in *. by etrans.
Qed.

Lemma data_fine k chunk s : timers_fine s → timers_fine (data o k chunk s).
Proof.
  intros Hs. unfold data. pose proof (hear_all_same chunk (listening k s) s) as H.
  destruct (hear_all _ _ _) as [s1 rs]. apply (same_fine _ _ H) in Hs. clear H. revert s1 Hs.
  induction rs as [|r rs IH]; intros s1 Hs; [done|]. by apply IH, wake_fine.
Qed.

Lemma timers_step s ev : timers_fine s → timers_fine (imap_step o s ev).
Proof.
  intros Hs. destruct ev as [| |k chunk|k|k|f|i|i]; cbn [imap_step].
  - unfold connect. by apply connect_fine, stopping_fine.
  - unfold disconnect. pose proof (proj1 (cancel_fine (put_stopping true s) Hs)) as H1.
    generalize dependent (cancelIdleRefresh (put_stopping true s)). intros s1 H1.
    set (s2 := if idling s1 then _ else s1). assert (H2 : timers_fine s2).
    { subst s2. destruct (idling s1); [|done]. eapply same_fine; [|exact H1]. unfold sendRaw. by destruct s1 as [[?|]]. }
    destruct (connected s2); cbn [fresh]; (eapply same_fine; [|exact H2]).
    + exact (same_send (next s2) LoggingOut "LOGOUT" (fresh s2).2).
    + exact (same_destroy s2).
  - case_bool_decide; [by apply data_fine|done].
  - unfold socket_error. destruct (List.find _ _) as [[? f]|]; [|done]. destruct (connected s); [by apply disconnected_fine|by apply settle_fine].
  - unfold socket_close. destruct (List.find _ _) as [?|]; [|done]. destruct (connected _); [by apply disconnected_fine|done].
  - unfold time_up. destruct (List.find _ _) as [[? []]|]; [| | |done]; apply wake_fine; try done; by eapply same_fine; [apply same_remove|].
  - case_bool_decide; [|done]. assert (H1 : timers_fine (put_timers (idleRefreshTimer s) (filter (λ j, j ≠ i) (refresh_timers s)) (reconnect_timers s) s)).
    { destruct Hs as [Hd Hr]. split; [done|]. cbn [refresh_timers idleRefreshTimer put_timers].
      destruct (idleRefreshTimer s) as [j|]; [|left; by destruct Hr as [->|<-]]. destruct (decide (j = i)) as [->|Hj].
      - left. by apply filter_own.
      - destruct Hr as [->|<-]; [by left|]. right. change (option_list (Some j)) with [j]. by rewrite filter_cons_True. }
    unfold refreshIdle. destruct (_ || _); [done|]. cbn [fresh]. eapply same_fine; [|exact H1]. unfold sendRaw. by destruct s as [[?|]].
  - case_bool_decide; [|done]. apply connect_fine. destruct Hs as [Hd Hr]. split; [|done]. cbn. apply Forall_forall.
    intros t [_ Ht]%list_elem_of_filter. rewrite Forall_forall in Hd. by apply Hd.
Qed.

(** Whatever the server, the network and the timers do, in whatever order: reconnections
    wait between the base and the limit, and one refresh at most is to come. *)
Theorem imap_timers_fine evs : timers_fine (imap_run o evs).
Proof.
  unfold imap_run. assert (H : ∀ s, timers_fine s → timers_fine (fold_left (imap_step o) evs s)).
  { induction evs as [|ev evs IH]; intros s Hs; [done|]. by apply IH, timers_step. }
  apply H. split; [constructor|by left].
Qed.
End Timers.

(** ** Runs *)

Definition example_options : ImapClientOptions := ImapOptions "me@x.org" "token" true 0 5000.

Abbreviation example_run := (imap_run example_options).

Definition log_in (k : nat) (n : nat) : list imap_event :=
  [Data k ("* OK ready" ++ crlf); Data k (tag_text n ++ " OK accepted" ++ crlf);
   Data k ("* 3 EXISTS" ++ crlf ++ tag_text (S n) ++ " OK selected" ++ crlf)].

Definition logged_in : list imap_event := Connect :: log_in 0 1.

Lemma idle_counts_all_witness :
  let s := example_run logged_in in
  (connected s = true ∧ idling s = true ∧ newMail s = 0 ∧ map snd (written s) !! 1 = Some ("A0002 SELECT INBOX" ++ crlf)) ∧
  newMail (fold_left (imap_step example_options) (map (Data 0) ["* 4 EXI"; "STS" ++ String "013" ""; String "010" "* 4 FETCH"]) s) = 1.
Proof.
  cbv zeta. split; [vm_compute; by repeat split|].
  rewrite (proj1 (idle_counts_all example_options 0 ["* 4 EXI"; "STS" ++ String "013" ""; String "010" "* 4 FETCH"]
    (example_run logged_in) ltac:(vm_compute; reflexivity) ltac:(vm_compute; reflexivity)
    ltac:(apply (bool_decide_unpack _); vm_compute; exact I) ltac:(vm_compute; reflexivity))).
  vm_compute. reflexivity.
Defined.

Lemma imap_timers_fine_witness :
  (0 < reconnectBaseDelay example_options ≤ MAX_DELAY)%Z ∧
  map snd (reconnect_timers (example_run (logged_in ++ [SocketError 0]))) = [5000%Z] ∧
  timers_fine example_options (example_run (logged_in ++ [SocketError 0])).
Proof. split; [done|]. split; [vm_compute; reflexivity|]. by apply imap_timers_fine. Defined.

(** While the idling is refreshed two listeners add each chunk to the same buffer: a
    response that comes in one piece is understood, one that comes in two is not, and the
    connection is given up after the timeout.  New mail that is announced meanwhile is
    not reported. *)
Definition refreshing : list imap_event :=
  logged_in ++ [RefreshTimer 2; Data 0 ("A0003 OK done" ++ crlf ++ "* 5 EXISTS" ++ crlf); TimeUp 3].

Example refreshed :
  let s := example_run (refreshing ++ [Data 0 ("A0004 OK noop" ++ crlf)]) in
  idling s = true ∧ flows s = [] ∧ newMail s = 0.
Proof. vm_compute. by repeat split. Qed.

Example divided_response_lost :
  let s := example_run (refreshing ++ [Data 0 "A0004 O"; Data 0 ("K noop" ++ crlf)]) in
  idling s = false ∧ flows s = [(3, AwaitResponse "A0004" Nooping)] ∧
  sockets (imap_step example_options s (TimeUp 3)) = [].
Proof. vm_compute. by repeat split. Qed.

(** The greeting that a failed attempt still waits for times out after a later attempt has
    succeeded, whose socket it destroys: the client counts as connected without one. *)
Example connected_without_socket :
  let s := example_run (logged_in ++ [SocketError 0; ReconnectTimer 3; SocketError 4; ReconnectTimer 6] ++ log_in 7 4) in
  (connected s = true ∧ socket s = Some 7) ∧
  let s' := imap_step example_options s (TimeUp 5) in
  connected s' = true ∧ idling s' = true ∧ socket s' = None ∧ reconnect_timers s' = [].
Proof. vm_compute. by repeat split. Qed.

(** A reconnection that is waiting is not cancelled by [disconnect]. *)
Example imap_connects_after_disconnect :
  let s := example_run (logged_in ++ [SocketError 0; Disconnect; ReconnectTimer 3] ++ log_in 4 4) in
  stopping s = true ∧ connected s = true ∧ idling s = true.
Proof. vm_compute. by repeat split. Qed.

(** ** Sending by SMTP *)

Definition line_end (c : ascii) : bool := bool_decide (c = "013"%char ∨ c = "010"%char).

(** A line that is a dot is doubled; [start] is whether a line begins here. *)
Fixpoint stuff_dots (start : bool) (s : string) : string :=
  match s with
  | EmptyString => ""
  | String c r =>
      let ends := match r with String d _ => line_end d | EmptyString => true end in
      if start && bool_decide (c = "."%char) && ends then ".." ++ stuff_dots false r
      else String c (stuff_dots (line_end c) r)
  end.

(** The lines that are complete and what may be the beginning of another. *)
Definition response_lines (buf : string) : list string := let '(l, r) := lines_of buf in l ++ [r].

Definition last_line (line : string) : bool :=
  (4 <=? String.length line)%nat && bool_decide (String.get 3 line = Some " "%char).

(** A response as it arrives in chunks; no complete one is a timeout. *)
Fixpoint readResponse (buf : string) (chunks : list string) (expectedCode : Z) : result string :=
  match chunks with
  | [] => Err "SMTP response timeout"
  | c :: chunks =>
      let buf := buf ++ c in
      match List.find last_line (response_lines buf) with
      | Some line =>
          if bool_decide (parseInt (str_take 3 line) = Some expectedCode) then Ok buf
          else Err ("SMTP error: expected " ++ pretty expectedCode ++ ", got: " ++ line)
      | None => readResponse buf chunks expectedCode
      end
  end.

Section Smtp.
Context (o : ImapClientOptions).
(** The chunks of the server's response to what was written. *)
Context (responds : list string → list string).

Abbreviation dialogue := (M (list string)).

Definition expect (code : Z) : dialogue unit :=
  do sent <- asks (λ w : list string, w); run of_result (readResponse "" (responds sent) code); ret tt.

Definition writeAndExpect (command : string) (code : Z) : dialogue unit :=
  run modify (λ w, (w ++ [command])%list); expect code.

Definition smtp_send (to rawMessage : string) : dialogue unit :=
  run expect 220;
  run writeAndExpect ("EHLO flowhelm" ++ crlf) 250;
  let xoauth2 := buildXOAuth2Token (emailAddress o) (accessToken o) in
  run writeAndExpect ("AUTH XOAUTH2 " ++ xoauth2 ++ crlf) 235;
  run writeAndExpect ("MAIL FROM:<" ++ emailAddress o ++ ">" ++ crlf) 250;
  run writeAndExpect ("RCPT TO:<" ++ to ++ ">" ++ crlf) 250;
  run writeAndExpect ("DATA" ++ crlf) 354;
  let stuffed := stuff_dots true rawMessage in
  run writeAndExpect (stuffed ++ crlf ++ "." ++ crlf) 250;
  writeAndExpect ("QUIT" ++ crlf) 221.
End Smtp.

(** *** What a response says *)

Definition no_crlf (l : string) : Prop := ∀ a b, l ≠ a ++ crlf ++ b.

(** The lines of a text, the last one perhaps a beginning. *)
Definition split_lines (text : string) (ls : list string) : Prop :=
  ls ≠ [] ∧ text = String.concat crlf ls ∧ Forall no_crlf ls.

(** Three characters and a space: the last line of a response. *)
Definition final (line : string) : Prop := ∃ a b c rest, line = String a (String b (String c (String " " rest))).

Definition first_final (text line : string) : Prop := ∃ l1 l2,
  split_lines text (l1 ++ line :: l2)%list ∧ final line ∧ Forall (λ l, ¬ final l) l1.

(** The response that arrives in chunks ends with [line], and not before. *)
Definition answers (chunks : list string) (line : string) : Prop := ∃ k, (k ≤ length chunks)%nat ∧
  first_final (String.concat "" (take k chunks)) line ∧
  ∀ j line', (j < k)%nat → ¬ first_final (String.concat "" (take j chunks)) line'.

Definition accepted (chunks : list string) (code : Z) : Prop := ∃ line,
  answers chunks line ∧ parseInt (str_take 3 line) = Some code.

Definition refused (chunks : list string) (code : Z) (e : string) : Prop :=
  (∃ line, answers chunks line ∧ parseInt (str_take 3 line) ≠ Some code ∧
     e = "SMTP error: expected " ++ pretty code ++ ", got: " ++ line) ∨
  ((∀ line, ¬ answers chunks line) ∧ e = "SMTP response timeout").

Lemma starts_crlf s : starts_with crlf s = true ↔ ∃ r, s = crlf ++ r.
Proof. apply JsString.prefix_app. Qed.

Lemma cut_crlf_first l r : no_crlf l → cut_crlf (l ++ crlf ++ r) = Some (l, r).
Proof.
  induction l as [|c l IH]; intros Hl.
  { change ("" ++ crlf ++ r) with (String "013" (String "010" r)). cbn [cut_crlf].
    by rewrite (proj2 (starts_crlf (String "013" (String "010" r)))) by (by eexists). }
  rewrite string_app_cons. cbn [cut_crlf]. destruct (starts_with crlf _) eqn:E.
  - apply starts_crlf in E as [x E]. change (String c (l ++ crlf ++ r) = String "013" (String "010" x)) in E.
    injection E as -> E. exfalso. destruct l as [|d l]; [done|]. rewrite string_app_cons in E. injection E as -> _.
    exact (Hl "" l eq_refl).
  - rewrite IH; [done|]. intros a b ->. exact (Hl (String c a) b eq_refl).
Qed.

Lemma cut_crlf_inv s : match cut_crlf s with Some (l, r) => s = l ++ crlf ++ r ∧ no_crlf l | None => no_crlf s end.
Proof.
  induction s as [|c s IH]; [by intros [|a x] b|]. cbn [cut_crlf]. destruct (starts_with crlf (String c s)) eqn:E.
  - apply starts_crlf in E as [x E]. rewrite E. split; [done|]. by intros [|a y] b.
  - assert (Hc : ∀ l, no_crlf l → (∃ t, s = l ++ t ∧ (l = "" → starts_with (String "010" "") t = false ∨ c ≠ "013"%char)) → no_crlf (String c l)).
    { intros l Hl (t & -> & Ht) [|a y] b El.
      - change (String c l = String "013" (String "010" b)) in El. injection El as -> ->.
        assert (Hs : starts_with crlf (String "013" (String "010" b ++ t)) = true) by (apply starts_crlf; by exists (b ++ t)).
        congruence.
      - rewrite string_app_cons in El. injection El as _ El. by apply (Hl y b). }
    assert (Hn : ∀ t, s = "" ++ t → starts_with (String "010" "") t = false ∨ c ≠ "013"%char).
    { intros t ->. destruct (starts_with (String "010" "") t) eqn:Et; [right|by left]. intros ->.
      apply JsString.prefix_app in Et as [x ->].
      assert (Hs : starts_with crlf (String "013" ("" ++ String "010" "" ++ x)) = true) by (apply starts_crlf; by exists x). congruence. }
    destruct (cut_crlf s) as [[l r]|]; cbn.
    + destruct IH as [Es Hl]. split; [by rewrite Es|]. apply Hc; [done|]. exists (crlf ++ r). split; [done|].
      intros ->. by apply Hn.
    + apply Hc; [done|]. exists "". split; [by rewrite string_app_nil_r|]. intros ->. by apply Hn.
Qed.

Lemma response_lines_cons l r : no_crlf l → response_lines (l ++ crlf ++ r) = l :: response_lines r.
Proof.
  intros Hl. assert (H : ∀ n, cut_lines (S n) (l ++ crlf ++ r) = let '(x, b) := cut_lines n r in (l :: x, b)).
  { intros n. cbn [cut_lines]. by rewrite cut_crlf_first. }
  unfold response_lines, lines_of. rewrite !length_app_string. change (String.length crlf) with 2%nat.
  replace (String.length l + (2 + String.length r))%nat with (S (S (String.length l + String.length r))) by lia.
  rewrite H, (cut_lines_fuel _ (String.length r) r) by lia. by destruct (cut_lines _ r).
Qed.

Lemma response_lines_one l : no_crlf l → response_lines l = [l].
Proof.
  intros Hl. unfold response_lines. rewrite lines_of_partial; [done|]. pose proof (cut_crlf_inv l) as H.
  destruct (cut_crlf l) as [[a b]|]; [|done]. destruct H as [E _]. by apply Hl in E.
Qed.

Lemma concat_crlf_cons l m ls : String.concat crlf (l :: m :: ls) = l ++ crlf ++ String.concat crlf (m :: ls).
Proof. done. Qed.

Lemma split_response text ls : split_lines text ls ↔ response_lines text = ls.
Proof.
  assert (H1 : ∀ text ls, split_lines text ls → response_lines text = ls).
  { clear. intros text ls (Hne & -> & Hf). induction ls as [|l [|m ls] IH]; [done| |]; apply Forall_cons in Hf as [Hl Hf].
    - by apply response_lines_one.
    - rewrite concat_crlf_cons, response_lines_cons by done. f_equal. by apply IH. }
  assert (H2 : ∀ n text, (String.length text ≤ n)%nat → ∃ ls, split_lines text ls).
  { clear. induction n as [|n IH]; intros text Hn.
    - destruct text; [|simpl in Hn; lia]. exists [""]. split; [done|]. split; [done|]. apply Forall_singleton.
      by intros [|a x] b.
    - pose proof (cut_crlf_inv text) as H. destruct (cut_crlf text) as [[l r]|].
      + destruct H as [-> Hl]. rewrite !length_app_string in Hn. change (String.length crlf) with 2%nat in Hn.
        destruct (IH r ltac:(lia)) as (ls & Hne & -> & Hf). exists (l :: ls). split; [done|]. split; [by destruct ls|by constructor].
      + exists [text]. split; [done|]. split; [done|by apply Forall_singleton]. }
  split; [apply H1|]. intros <-. destruct (H2 (String.length text) text ltac:(lia)) as (ls & Hs). by rewrite (H1 _ _ Hs).
Qed.

Lemma last_line_final l : last_line l = true ↔ final l.
Proof.
  unfold last_line, final. split.
  - intros [_ Hg%bool_decide_eq_true]%andb_true_iff.
    destruct l as [|a [|b [|c [|d l]]]]; try discriminate Hg. cbn in Hg. injection Hg as ->. by exists a, b, c, l.
  - intros (a & b & c & rest & ->). apply andb_true_iff. split; [done|by apply bool_decide_eq_true].
Qed.

Lemma find_last_line text : match List.find last_line (response_lines text) with
  | Some line => first_final text line | None => ∀ line, ¬ first_final text line end.
Proof.
  assert (H : ∀ ls, match List.find last_line ls with
    | Some line => ∃ l1 l2, ls = (l1 ++ line :: l2)%list ∧ final line ∧ Forall (λ l, ¬ final l) l1
    | None => Forall (λ l, ¬ final l) ls end).
  { induction ls as [|l ls IH]; [constructor|]. cbn. destruct (last_line l) eqn:E.
    - apply last_line_final in E. by exists [], ls.
    - assert (Hn : ¬ final l) by (rewrite <- last_line_final; congruence). destruct (List.find last_line ls).
      + destruct IH as (l1 & l2 & -> & Hf & Hl). exists (l :: l1), l2. split; [done|]. split; [done|by constructor].
      + by constructor. }
  specialize (H (response_lines text)). destruct (List.find last_line _) as [line|].
  - destruct H as (l1 & l2 & E & Hf & Hl). exists l1, l2. by apply split_response in E.
  - intros line (l1 & l2 & Hs%split_response & Hf & _). rewrite Hs in H. apply Forall_app in H as [_ [Hn _]%Forall_cons]. done.
Qed.

Lemma read_from pre rest code : (∀ j line, (j ≤ length pre)%nat → ¬ first_final (String.concat "" (take j pre)) line) →
  match readResponse (String.concat "" pre) rest code with
  | Ok _ => accepted (pre ++ rest)%list code
  | Err e => refused (pre ++ rest)%list code e
  end.
Proof.
  revert pre. induction rest as [|c rest IH]; intros pre Hpre; cbn [readResponse].
  - right. rewrite app_nil_r. split; [|done]. intros line (k & Hk & Hf & _). by apply (Hpre k line).
  - assert (Eb : String.concat "" pre ++ c = String.concat "" (pre ++ [c])%list).
    { clear. induction pre as [|x [|y pre] IH]; [done|done|].
      change (String.concat "" (x :: y :: pre)) with (x ++ String.concat "" (y :: pre)).
      change (String.concat "" ((x :: y :: pre) ++ [c])%list) with (x ++ String.concat "" ((y :: pre) ++ [c])%list).
      by rewrite string_app_assoc, IH. }
    rewrite Eb. pose proof (find_last_line (String.concat "" (pre ++ [c])%list)) as Hf.
    assert (Hj : ∀ j line, (j < length (pre ++ [c]))%nat → ¬ first_final (String.concat "" (take j (pre ++ [c]))) line).
    { intros j line Hj. rewrite length_app in Hj. simpl in Hj. rewrite take_app_le by lia. apply Hpre. lia. }
    destruct (List.find last_line _) as [line|].
    + assert (Ha : answers (pre ++ c :: rest)%list line).
      { exists (length (pre ++ [c])). replace (pre ++ c :: rest)%list with ((pre ++ [c]) ++ rest)%list by by rewrite <- app_assoc.
        split; [rewrite !length_app; lia|]. rewrite take_app_length. split; [done|]. intros j line' Hlt.
        rewrite take_app_le by lia. by apply Hj. }
      case_bool_decide as Ep; [by exists line|]. left. by exists line.
    + replace (pre ++ c :: rest)%list with ((pre ++ [c]) ++ rest)%list by by rewrite <- app_assoc.
      apply IH. intros j line Hle. destruct (decide (j < length (pre ++ [c]))%nat) as [?|?]; [by apply Hj|].
      rewrite take_ge by lia. apply Hf.
Qed.

Lemma read_outcome chunks code : match readResponse "" chunks code with
  | Ok _ => accepted chunks code | Err e => refused chunks code e end.
Proof.
  apply (read_from [] chunks code). intros [|j] line Hj; simpl in Hj; [|lia]. pose proof (find_last_line "") as H. apply H.
Qed.

(** *** The dots *)

Definition breaks (c : ascii) : Prop := c = "013"%char ∨ c = "010"%char.

(** Each line that is a dot is two dots. *)
Inductive doubled_dots : string → string → Prop :=
| doubled_last l : Forall (λ c, ¬ breaks c) (String.list_ascii_of_string l) →
    doubled_dots l (if decide (l = ".") then ".." else l)
| doubled_line l c r r' : Forall (λ c, ¬ breaks c) (String.list_ascii_of_string l) → breaks c → doubled_dots r r' →
    doubled_dots (l ++ String c r) ((if decide (l = ".") then ".." else l) ++ String c r').

(** ** Dots at the start of a line *)

(** What the server takes for the message: the lines up to one that is a dot, without
    the dot that begins a line. *)
Fixpoint received (lines : list string) : list string :=
  match lines with
  | [] => []
  | l :: lines => if bool_decide (l = ".") then [] else (if starts_with "." l then str_drop 1 l else l) :: received lines
  end.

(** A line without line breaks in it that, if it begins with a dot, is a dot. *)
Definition plain_line (l : string) : Prop := lacks "013"%char l ∧ lacks "010"%char l ∧ (starts_with "." l = true → l = ".").

Definition stuffed (l : string) : string := if bool_decide (l = ".") then ".." else l.

Definition ended (r : string) : Prop := r = "" ∨ ∃ t, r = crlf ++ t.

Lemma stuff_break r : stuff_dots false (crlf ++ r) = crlf ++ stuff_dots true r.
Proof. done. Qed.

Lemma stuff_line l r : lacks "013"%char l → lacks "010"%char l → stuff_dots false (l ++ r) = l ++ stuff_dots false r.
Proof.
  induction l as [|c l IH]; intros H1 H2; [done|]. apply lacks_cons in H1 as [Hc1 H1]. apply lacks_cons in H2 as [Hc2 H2].
  rewrite string_app_cons. cbn [stuff_dots andb]. unfold line_end at 1. rewrite bool_decide_eq_false_2 by naive_solver.
  by rewrite IH.
Qed.

Lemma stuff_plain l r : plain_line l → ended r → stuff_dots true (l ++ r) = stuffed l ++ stuff_dots false r.
Proof.
  intros (H1 & H2 & Hd) Hr. unfold stuffed. case_bool_decide as E.
  - subst l. destruct Hr as [->|[t ->]]; done.
  - destruct l as [|c l]; [by destruct Hr as [->|[t ->]]|].
    apply lacks_cons in H1 as [Hc1 H1]. apply lacks_cons in H2 as [Hc2 H2]. rewrite string_app_cons. cbn [stuff_dots].
    assert (Hn : bool_decide (c = "."%char) = false).
    { apply bool_decide_eq_false_2. intros ->. apply E, Hd. apply JsString.prefix_app. by exists l. }
    rewrite Hn, andb_false_r. cbn [andb]. unfold line_end at 1. rewrite bool_decide_eq_false_2 by naive_solver.
    by rewrite stuff_line.
Qed.

Lemma stuff_lines x ls : Forall plain_line (x :: ls) →
  stuff_dots true (String.concat crlf (x :: ls)) = String.concat crlf (map stuffed (x :: ls)).
Proof.
  revert x. induction ls as [|y ls IH]; intros x [Hx Hl]%Forall_cons.
  - change (String.concat crlf [x]) with x. rewrite <- (string_app_nil_r x) at 1.
    rewrite (stuff_plain x "" Hx) by by left. apply string_app_nil_r.
  - change (String.concat crlf (x :: y :: ls)) with (x ++ crlf ++ String.concat crlf (y :: ls)).
    rewrite (stuff_plain x _ Hx) by (right; by eexists). by rewrite stuff_break, IH.
Qed.

Lemma cut_line_crlf l r : lacks "013"%char l → cut_crlf (l ++ crlf ++ r) = Some (l, r).
Proof.
  induction l as [|c l IH]; intros Hl.
  { change ("" ++ crlf ++ r) with (String "013" (String "010" r)). cbn [cut_crlf].
    by rewrite (proj2 (JsString.prefix_app crlf (String "013" (String "010" r)))) by (by eexists). }
  apply lacks_cons in Hl as [Hc Hl]. rewrite string_app_cons. cbn [cut_crlf].
  destruct (starts_with crlf _) eqn:E; [|by rewrite IH].
  apply JsString.prefix_app in E as [x E]. change (String c (l ++ crlf ++ r) = String "013" (String "010" x)) in E.
  injection E as -> _. by destruct Hc.
Qed.

Lemma lines_cons l r : lacks "013"%char l → lines_of (l ++ crlf ++ r) = (l :: (lines_of r).1, (lines_of r).2).
Proof.
  intros Hl. assert (H : ∀ n, cut_lines (S n) (l ++ crlf ++ r) = let '(x, b) := cut_lines n r in (l :: x, b)).
  { intros n. cbn [cut_lines]. by rewrite cut_line_crlf. }
  unfold lines_of at 1. rewrite !length_app_string. change (String.length crlf) with 2%nat.
  replace (String.length l + (2 + String.length r))%nat with (S (S (String.length l + String.length r))) by lia.
  rewrite H, (cut_lines_fuel _ (String.length r) r) by lia. unfold lines_of. by destruct (cut_lines _ r).
Qed.

(** A message is received as it is if a line of it that begins with a dot is a dot. *)
Theorem message_received x ls : Forall plain_line (x :: ls) →
  received (lines_of (stuff_dots true (String.concat crlf (x :: ls)) ++ crlf ++ "." ++ crlf)).1 = x :: ls.
Proof.
  intros Hx. rewrite stuff_lines by done.
  assert (Hs : ∀ y, plain_line y → lacks "013"%char (stuffed y)).
  { intros y Hy. unfold stuffed. case_bool_decide; [by apply (bool_decide_unpack _); vm_compute|apply Hy]. }
  assert (Hone : ∀ y r, plain_line y → received (stuffed y :: r) = y :: received r).
  { intros y r (_ & _ & Hd). unfold stuffed. destruct (decide (y = ".")) as [->|E]; [done|].
    rewrite (bool_decide_eq_false_2 (y = ".")) by done. cbn [received]. rewrite bool_decide_eq_false_2 by done.
    destruct (starts_with "." y) eqn:Ed; [by destruct E; apply Hd|done]. }
  revert x Hx. induction ls as [|y ls IH]; intros x [Hx Hl]%Forall_cons.
  - change (String.concat crlf (map stuffed [x])) with (stuffed x). rewrite lines_cons by by apply Hs.
    change (lines_of ("." ++ crlf)) with (["."], ""). cbn [fst]. by rewrite Hone.
  - change (String.concat crlf (map stuffed (x :: y :: ls))) with (stuffed x ++ crlf ++ String.concat crlf (map stuffed (y :: ls))).
    rewrite !string_app_assoc, lines_cons by by apply Hs. cbn [fst]. by rewrite Hone, IH.
Qed.

Lemma message_received_witness :
  received (lines_of (stuff_dots true ("one" ++ crlf ++ "." ++ crlf ++ "two") ++ crlf ++ "." ++ crlf)).1 = ["one"; "."; "two"].
Proof.
  apply (message_received "one" ["."; "two"]).
  repeat (apply Forall_cons; split; [split_and!; try (by apply (bool_decide_unpack _); vm_compute); done|]). by apply Forall_nil.
Defined.

Lemma no_breaks l : Forall (λ c, ¬ breaks c) (String.list_ascii_of_string l) → lacks "013"%char l ∧ lacks "010"%char l.
Proof. rewrite Forall_forall. intros Hl. split; intros Hc; apply Hl in Hc; apply Hc; [by left|by right]. Qed.

Lemma line_end_breaks c : line_end c = true ↔ breaks c.
Proof. apply bool_decide_eq_true. Qed.

Lemma line_end_false c : ¬ breaks c → line_end c = false.
Proof. intros Hc. by apply bool_decide_eq_false. Qed.

Lemma stuff_one l r : Forall (λ c, ¬ breaks c) (String.list_ascii_of_string l) →
  (r = "" ∨ ∃ c t, r = String c t ∧ breaks c) →
  stuff_dots true (l ++ r) = (if decide (l = ".") then ".." else l) ++ stuff_dots false r.
Proof.
  intros Hl Hr. destruct l as [|c l].
  - rewrite decide_False by done. destruct Hr as [->|(d & t & -> & Hd)]; [done|].
    change ("" ++ String d t) with (String d t). cbn [stuff_dots]. destruct Hd as [->| ->]; done.
  - pose proof (no_breaks _ Hl) as [H1 H2]. cbn in Hl. apply Forall_cons in Hl as [Hc Hl].
    apply lacks_cons in H1 as [_ H1]. apply lacks_cons in H2 as [_ H2]. rewrite string_app_cons. cbn [stuff_dots].
    rewrite (line_end_false c Hc). case_decide as E.
    + injection E as -> ->. change ("" ++ r) with r. destruct Hr as [->|(d & t & -> & Hd)]; [done|].
      rewrite (proj2 (line_end_breaks d) Hd). done.
    + assert (Hn : bool_decide (c = "."%char) && match l ++ r with String d _ => line_end d | EmptyString => true end = false).
      { destruct l as [|d l]; [|cbn in Hl; apply Forall_cons in Hl as [Hd _]; rewrite string_app_cons, (line_end_false d Hd); apply andb_false_r].
        apply andb_false_iff. left. apply bool_decide_eq_false. by intros ->. }
      cbn [andb]. rewrite Hn. by rewrite stuff_line.
Qed.

Lemma stuff_doubled s : doubled_dots s (stuff_dots true s).
Proof.
  assert (Hcut : ∀ s, ∃ l r, s = l ++ r ∧ Forall (λ c, ¬ breaks c) (String.list_ascii_of_string l) ∧
    (r = "" ∨ ∃ c t, r = String c t ∧ breaks c)).
  { clear. induction s as [|c s (l & r & -> & Hl & Hr)].
    - exists "", "". split; [done|]. split; [constructor|by left].
    - destruct (line_end c) eqn:Ec.
      + apply line_end_breaks in Ec. exists "", (String c (l ++ r)). split; [done|]. split; [constructor|right]. by eexists _, _.
      + exists (String c l), r. split; [done|]. split; [|done]. constructor; [|done].
        intros Hb%line_end_breaks. congruence. }
  remember (String.length s) as n eqn:En. assert (Hle : (String.length s ≤ n)%nat) by lia. clear En. revert s Hle.
  induction n as [|n IH]; intros s Hle; destruct (Hcut s) as (l & r & -> & Hl & Hr).
  - rewrite stuff_one by done. destruct Hr as [->|(c & t & -> & Hc)].
    + rewrite !string_app_nil_r. by constructor.
    + rewrite length_app_string in Hle. simpl in Hle. lia.
  - rewrite stuff_one by done. destruct Hr as [->|(c & t & -> & Hc)].
    + rewrite !string_app_nil_r. by constructor.
    + assert (Es : stuff_dots false (String c t) = String c (stuff_dots true t)).
      { cbn [stuff_dots andb]. by rewrite (proj2 (line_end_breaks c) Hc). }
      rewrite Es. constructor; [done|done|]. apply IH. rewrite length_app_string in Hle. simpl in Hle. lia.
Qed.

(** *** The dialogue *)

Section Dialogue.
Context (o : ImapClientOptions) (responds : list string → list string).

Abbreviation say := (writeAndExpect responds).

Lemma expect_spec code w :
  expect responds code w = (match readResponse "" (responds w) code with Ok _ => Ok tt | Err e => Err e end, w).
Proof. unfold expect, bind, asks, of_result, ret. by destruct (readResponse _ _ _). Qed.

Fixpoint say_all (l : list (string * Z)) : M (list string) unit :=
  match l with
  | [] => ret tt
  | c :: l => run say c.1 c.2; say_all l
  end.

Lemma say_all_spec l before :
  let '(r, sent) := say_all l before in
  let texts := map fst l in
  (r = Ok tt ∧ sent = (before ++ texts)%list ∧
   ∀ i x, l !! i = Some x → accepted (responds (before ++ take (S i) texts)%list) x.2) ∨
  (∃ i x e, l !! i = Some x ∧ r = Err e ∧ sent = (before ++ take (S i) texts)%list ∧
     refused (responds (before ++ take (S i) texts)%list) x.2 e ∧
     ∀ j y, (j < i)%nat → l !! j = Some y → accepted (responds (before ++ take (S j) texts)%list) y.2).
Proof.
  revert before. induction l as [|c l IH]; intros before.
  - left. split; [done|]. split; [by rewrite app_nil_r|done].
  - cbn [say_all]. unfold bind at 1. change (say c.1 c.2 before) with (expect responds c.2 (before ++ [c.1])%list).
    rewrite expect_spec. pose proof (read_outcome (responds (before ++ [c.1])%list) c.2) as Hr.
    destruct (readResponse "" (responds (before ++ [c.1])%list) c.2) as [a|e]; cbn beta iota.
    + specialize (IH (before ++ [c.1])%list). destruct (say_all l _) as [r sent]. cbv zeta in IH |- *. cbn [map fst].
      assert (Et : ∀ i, (before ++ take (S (S i)) (c.1 :: map fst l) = (before ++ [c.1]) ++ take (S i) (map fst l))%list)
        by (intros i; by rewrite <- app_assoc).
      destruct IH as [(-> & -> & Ha)|(i & x & e & Hx & -> & -> & He & Ha)].
      * left. split; [done|]. split; [by rewrite <- app_assoc|]. intros [|i] x; [intros [= <-]; exact Hr|].
        intros Hx. rewrite Et. by apply Ha.
      * right. exists (S i), x, e. rewrite Et. split; [done|]. split; [done|]. split; [done|]. split; [done|].
        intros [|j] y Hj; [intros [= <-]; exact Hr|]. intros Hy. rewrite Et. apply Ha; [lia|done].
    + right. exists 0%nat, c, e. split; [done|]. split; [done|]. split; [done|]. split; [exact Hr|]. intros j y Hj. lia.
Qed.

(** C33: the dialogue, in full.  The client waits for a greeting of code 220 and then writes
    the seven texts in turn - the session, the authentication with the user's address and
    token, the sender, the recipient, the announcement of the message, the message with each
    line that is a dot doubled and a line with a dot after it, the end - each only after the
    response to the one before it has ended with a line of the code expected there.  It
    succeeds exactly when all eight responses do; otherwise it stops at the first that does
    not, and its error is that line, or that no response ended in time. *)
Theorem smtp_outcome to rawMessage : ∃ body, doubled_dots rawMessage body ∧
  let x01 := String "001" "" in
  let xoauth2 := base64 ("user=" ++ emailAddress o ++ x01 ++ "auth=Bearer " ++ accessToken o ++ x01 ++ x01) in
  let texts := ["EHLO flowhelm" ++ crlf; "AUTH XOAUTH2 " ++ xoauth2 ++ crlf;
                "MAIL FROM:<" ++ emailAddress o ++ ">" ++ crlf; "RCPT TO:<" ++ to ++ ">" ++ crlf;
                "DATA" ++ crlf; body ++ crlf ++ "." ++ crlf; "QUIT" ++ crlf] in
  let codes := [220; 250; 235; 250; 250; 354; 250; 221]%Z in
  let '(r, sent) := smtp_send o responds to rawMessage [] in
  (r = Ok tt ∧ sent = texts ∧ ∀ i code, codes !! i = Some code → accepted (responds (take i texts)) code) ∨
  (∃ i code e, codes !! i = Some code ∧ r = Err e ∧ sent = take i texts ∧ refused (responds (take i texts)) code e ∧
     ∀ j code', (j < i)%nat → codes !! j = Some code' → accepted (responds (take j texts)) code').
Proof.
  exists (stuff_dots true rawMessage). split; [apply stuff_doubled|]. intros x01 xoauth2 texts codes.
  set (l := zip texts (tail codes)).
  assert (Es : smtp_send o responds to rawMessage [] = (run expect responds 220; say_all l) []).
  { unfold smtp_send, bind. rewrite expect_spec. destruct (readResponse "" (responds []) 220); [|done]. unfold l, texts, codes.
    cbn [zip zip_with tail say_all fst snd].
    assert (Hb : ∀ A (m m' : M (list string) A) (k k' : A → M (list string) unit) w, m = m' → (∀ a w, k a w = k' a w) →
      bind m k w = bind m' k' w) by (intros A m ? k k' w <- Hk; unfold bind; destruct (m w) as [[?|?] ?]; [apply Hk|done]).
    unfold bind at 1. repeat (apply Hb; [reflexivity|intros _ ?]). unfold bind. by destruct (say _ _ _) as [[[]|?] ?]. }
  rewrite Es. clear Es. unfold bind. rewrite expect_spec. pose proof (read_outcome (responds []) 220) as Hr.
  destruct (readResponse "" (responds []) 220) as [a|e].
  - pose proof (say_all_spec l []) as Hs. destruct (say_all l []) as [r sent]. cbv zeta in Hs. cbn [app] in Hs.
    assert (El : map fst l = texts) by done. rewrite El in Hs.
    assert (Hc : ∀ i code, codes !! S i = Some code → ∃ x, l !! i = Some x ∧ x.2 = code).
    { intros i code Hi. do 7 (destruct i as [|i]; [injection Hi as <-; by eexists|]). by destruct i. }
    assert (Hl : ∀ i x, l !! i = Some x → codes !! S i = Some x.2).
    { intros i x Hi. do 7 (destruct i as [|i]; [by injection Hi as <-|]). by destruct i. }
    destruct Hs as [(-> & -> & Ha)|(i & x & e & Hx & -> & -> & He & Ha)].
    + left. split; [done|]. split; [done|]. intros [|i] code; [by intros [= <-]|]. intros (x & Hx & <-)%Hc. by apply Ha.
    + right. exists (S i), x.2, e. split; [by apply Hl|]. split; [done|]. split; [done|]. split; [done|].
      intros [|j] code' Hj; [by intros [= <-]|]. intros (y & Hy & <-)%Hc. apply Ha; [lia|done].
  - right. exists 0%nat, 220%Z, e. split; [done|]. split; [done|]. split; [done|]. split; [exact Hr|]. intros j code' Hj. lia.
Qed.
End Dialogue.

(** Another line that begins with a dot loses it. *)
Example dot_lost :
  received (lines_of (stuff_dots true ("see" ++ crlf ++ ".profile") ++ crlf ++ "." ++ crlf)).1 = ["see"; "profile"].
Proof. vm_compute. reflexivity. Qed.
