(* ===== verification/HostOs.v ===== *)
(** * The machine that the administration runs on

    The commands of the administration run programs of the host ([useradd], [podman],
    [systemctl], ...) and read and write its files.  Both are outside the repository:
    [Host] lists the calls, [HostLaws] what their documentation says of the users, the
    text files and the port registry; every call but [id] is free to fail, and a call that
    failed may have done its work or, of the registry's file, have left it damaged.
    [sim_host] is a host whose calls fail where a plan says so. *)

From Stdlib Require Import Ascii.
From stdpp Require Import gmap.
From S2P Require Import Prelude JsMap JsString HostFs Command PortRegistry.
Local Open Scope string_scope.
Local Open Scope list_scope.

(** ** Calls *)

(** [sh w cmd args cwd] is [execFile], [Ok] with its standard output when it exits with
    status zero; a file is named by its absolute path.  [reg_read] and [reg_write] are
    the file of the port registry with its JSON. *)
Class Host (W : Type) := {
  sh : string → list string → option string → W → result string * W;
  read_file : string → W → result string * W;
  write_file : string → string → W → result unit * W;
  make_dirs : string → W → result unit * W;
  is_directory : string → W → result bool * W;
  access_file : string → W → result unit * W;
  remove_file : string → W → result unit * W;
  reg_read : W → result PortRegistryData * W;
  reg_write : PortRegistryData → W → result unit * W;

  host_users : W → gset string;
  host_text : W → string → option string;
  host_registry : W → option PortRegistryData }.

(** [execFile] is not used on the files that the code reads and writes itself. *)
Definition changes_users (cmd : string) : bool := bool_decide (cmd = "useradd" ∨ cmd = "userdel").

Class HostLaws (W : Type) `{Host W} := {
  id_answers u w : let '(r, w') := sh "id" [u] None w in is_ok r = true ↔ u ∈ host_users w;
  useradd_adds opts u w : let '(r, w') := sh "useradd" (opts ++ [u]) None w in
    host_users w' = {[u]} ∪ host_users w ∨ (is_ok r = false ∧ host_users w' = host_users w);
  userdel_removes opts u w : let '(r, w') := sh "userdel" (opts ++ [u]) None w in
    host_users w' = host_users w ∖ {[u]} ∨ (is_ok r = false ∧ host_users w' = host_users w);
  sh_users cmd args cwd w : changes_users cmd = false → host_users (sh cmd args cwd w).2 = host_users w;
  sh_registry cmd args cwd w : host_registry (sh cmd args cwd w).2 = host_registry w;

  read_file_text p w : let '(r, w') := read_file p w in
    host_text w' = host_text w ∧ match r with Ok t => host_text w p = Some t | Err _ => True end;
  write_file_text p t w : let '(r, w') := write_file p t w in
    (is_ok r = true → host_text w' p = Some t) ∧ ∀ q, q ≠ p → host_text w' q = host_text w q;

  files_users w : (∀ p, host_users (read_file p w).2 = host_users w) ∧
    (∀ p t, host_users (write_file p t w).2 = host_users w) ∧
    (∀ p, host_users (make_dirs p w).2 = host_users w) ∧
    (∀ p, host_users (is_directory p w).2 = host_users w) ∧
    (∀ p, host_users (access_file p w).2 = host_users w) ∧
    (∀ p, host_users (remove_file p w).2 = host_users w) ∧
    host_users (reg_read w).2 = host_users w ∧
    (∀ d, host_users (reg_write d w).2 = host_users w);
  files_registry w : (∀ p, host_registry (read_file p w).2 = host_registry w) ∧
    (∀ p t, host_registry (write_file p t w).2 = host_registry w) ∧
    (∀ p, host_registry (make_dirs p w).2 = host_registry w) ∧
    (∀ p, host_registry (is_directory p w).2 = host_registry w) ∧
    (∀ p, host_registry (access_file p w).2 = host_registry w) ∧
    (∀ p, host_registry (remove_file p w).2 = host_registry w) ∧
    host_registry (reg_read w).2 = host_registry w;

  reg_read_gives w d : (reg_read w).1 = Ok d → host_registry w = Some d;
  reg_write_sets w d : host_registry (reg_write d w).2 = Some d ∨
    (is_ok (reg_write d w).1 = false ∧
     (host_registry (reg_write d w).2 = host_registry w ∨ host_registry (reg_write d w).2 = None)) }.

(** ** Sequences of calls *)

Section Calls.
Context {W : Type} `{Host W}.

Inductive call (w : W) : W → Prop :=
| call_sh cmd args cwd : call w (sh cmd args cwd w).2
| call_read p : call w (read_file p w).2
| call_write p t : call w (write_file p t w).2
| call_mkdir p : call w (make_dirs p w).2
| call_stat p : call w (is_directory p w).2
| call_access p : call w (access_file p w).2
| call_rm p : call w (remove_file p w).2
| call_reg_read : call w (reg_read w).2
| call_reg_write d : call w (reg_write d w).2.

Definition reaches : W → W → Prop := rtc call.

(** From [w] on, the registry's file can be read whenever it is there, and written. *)
Definition registry_works (w : W) : Prop := ∀ w', reaches w w' →
  (∀ d, host_registry w' = Some d → (reg_read w').1 = Ok d) ∧ ∀ d, (reg_write d w').1 = Ok tt.

Lemma registry_works_later w w' : reaches w w' → registry_works w → registry_works w'.
Proof. intros Hr Hw w'' Hr'. apply Hw. by etrans. Qed.

(** [e] is the error of a call made after [w]: of one of the commands [cmds], of a writing
    call, or of one on the registry's file. *)
Definition call_failed (cmds : list string) (w : W) (e : string) : Prop := ∃ w', reaches w w' ∧
  ((∃ cmd args cwd, cmd ∈ cmds ∧ (sh cmd args cwd w').1 = Err e) ∨ (∃ p t, (write_file p t w').1 = Err e) ∨
   (∃ p, (make_dirs p w').1 = Err e) ∨ (∃ p, (is_directory p w').1 = Err e) ∨
   (∃ p, (remove_file p w').1 = Err e) ∨ (reg_read w').1 = Err e ∨ ∃ d, (reg_write d w').1 = Err e).

Lemma call_failed_later cmds w w' e : reaches w w' → call_failed cmds w' e → call_failed cmds w e.
Proof. intros Hr (w'' & Hr' & He). exists w''. split; [by etrans|done]. Qed.

(** A command that only makes calls; one whose errors are those of its calls. *)
Definition moves {A} (m : M W A) : Prop := ∀ w, reaches w (m w).2.
Definition blames {A} (cmds : list string) (m : M W A) : Prop :=
  moves m ∧ ∀ w e, (m w).1 = Err e → call_failed cmds w e.

Lemma moves_ret {A} (a : A) : moves (ret a).
Proof. intros w. apply rtc_refl. Qed.

Lemma moves_throw {A} e : moves (@throw W A e).
Proof. intros w. apply rtc_refl. Qed.

Lemma moves_bind {A B} (m : M W A) (k : A → M W B) : moves m → (∀ a, moves (k a)) → moves (bind m k).
Proof.
  intros Hm Hk w. unfold bind. specialize (Hm w). destruct (m w) as [[a|e] w']; [|done].
  etrans; [exact Hm|apply Hk].
Qed.

Lemma moves_try {A} (m : M W A) h : moves m → (∀ e, moves (h e)) → moves (try_catch m h).
Proof.
  intros Hm Hk w. unfold try_catch. specialize (Hm w). destruct (m w) as [[a|e] w']; [done|].
  etrans; [exact Hm|apply Hk].
Qed.

Lemma blames_ret {A} cmds (a : A) : blames cmds (ret a).
Proof. split; [apply moves_ret|done]. Qed.

Lemma blames_bind {A B} cmds (m : M W A) (k : A → M W B) :
  blames cmds m → (∀ a, blames cmds (k a)) → blames cmds (bind m k).
Proof.
  intros [Hm Em] Hk. split; [apply moves_bind; [done|apply Hk]|]. intros w e. specialize (Hm w). specialize (Em w).
  unfold bind. destruct (m w) as [[a|e'] w']; simpl in *; [|by intros [= ->]; apply Em].
  intros He. apply (call_failed_later _ _ w'); [done|]. by apply (Hk a).
Qed.

(** A [catch] that does not throw. *)
Lemma blames_caught {A} cmds (m : M W A) (a : string → A) : moves m → blames cmds (try_catch m (λ e, ret (a e))).
Proof.
  intros Hm. split; [apply moves_try; [done|intros; apply moves_ret]|]. intros w e. unfold try_catch.
  by destruct (m w) as [[x|e'] w'].
Qed.

Lemma blames_attempt {A} cmds (m : M W A) : moves m → blames cmds (attempt m).
Proof. intros Hm. apply blames_caught, moves_bind; [done|]. intros a. apply moves_ret. Qed.

Lemma wp_blames {A} cmds (m : M W A) w (Q : result A → W → Prop) : blames cmds m → wp m w Q →
  wp m w (λ r w', Q r w' ∧ ∀ e, r = Err e → call_failed cmds w e).
Proof. intros [_ He] HQ. split; [exact HQ|apply He]. Qed.

Lemma moves_call {A} (m : M W A) : (∀ w, call w (m w).2) → moves m.
Proof. intros Hm w. apply rtc_once, Hm. Qed.

Lemma blames_call {A} cmds (m : M W A) : (∀ w, call w (m w).2) →
  (∀ w e, (m w).1 = Err e → call_failed cmds w e) → blames cmds m.
Proof. intros Hm He. split; [by apply moves_call|done]. Qed.

Ltac failed_here := intros w e He; exists w; split; [apply rtc_refl|]; naive_solver.

Lemma blames_sh cmds cmd args cwd : cmd ∈ cmds → blames cmds (sh cmd args cwd).
Proof. intros Hc. apply blames_call; [intros; apply call_sh|failed_here]. Qed.
Lemma blames_write cmds p t : blames cmds (write_file p t).
Proof. apply blames_call; [intros; apply call_write|failed_here]. Qed.
Lemma blames_mkdir cmds p : blames cmds (make_dirs p).
Proof. apply blames_call; [intros; apply call_mkdir|failed_here]. Qed.
Lemma blames_stat cmds p : blames cmds (is_directory p).
Proof. apply blames_call; [intros; apply call_stat|failed_here]. Qed.
Lemma blames_rm cmds p : blames cmds (remove_file p).
Proof. apply blames_call; [intros; apply call_rm|failed_here]. Qed.
Lemma blames_reg_read cmds : blames cmds reg_read.
Proof. apply blames_call; [intros; apply call_reg_read|failed_here]. Qed.
Lemma blames_reg_write cmds d : blames cmds (reg_write d).
Proof. apply blames_call; [intros; apply call_reg_write|failed_here]. Qed.
End Calls.

Create HintDb calls.
#[export] Hint Constructors call : calls.
#[export] Hint Resolve moves_ret moves_throw blames_ret blames_write blames_mkdir blames_stat blames_rm
  blames_reg_read blames_reg_write : calls.
#[export] Hint Extern 1 (moves (sh _ _ _)) => apply moves_call; intros; apply call_sh : calls.
#[export] Hint Extern 1 (moves (read_file _)) => apply moves_call; intros; apply call_read : calls.
#[export] Hint Extern 1 (moves (write_file _ _)) => apply moves_call; intros; apply call_write : calls.
#[export] Hint Extern 1 (moves (remove_file _)) => apply moves_call; intros; apply call_rm : calls.
#[export] Hint Extern 1 (moves reg_read) => apply moves_call; intros; apply call_reg_read : calls.
#[export] Hint Extern 1 (moves (reg_write _)) => apply moves_call; intros; apply call_reg_write : calls.

(** The files of sub-identifiers can be read whenever they are there. *)
Definition sub_id_files : list string := ["/etc/subuid"; "/etc/subgid"].

Definition sub_ids_readable (W : Type) `{Host W} : Prop := ∀ w p t,
  p ∈ sub_id_files → host_text w p = Some t → (read_file p w).1 = Ok t.

(** ** Facts of single calls *)

(** A command that leaves the users and the registry as they are. *)
Definition quiet {W A} `{Host W} (m : M W A) : Prop :=
  ∀ w, host_users (m w).2 = host_users w ∧ host_registry (m w).2 = host_registry w ∧ reaches w (m w).2.

Create HintDb host.

Section Quiet.
Context {W : Type} `{HostLaws W}.

Lemma quiet_wp {A} (m : M W A) w (Q : result A → W → Prop) : quiet m →
  (∀ r w', host_users w' = host_users w → host_registry w' = host_registry w → reaches w w' → Q r w') → wp m w Q.
Proof. intros Hm HQ. apply HQ; apply Hm. Qed.

Lemma quiet_blames_wp {A} cmds (m : M W A) w : quiet m → blames cmds m →
  wp m w (λ r w', (host_users w' = host_users w ∧ host_registry w' = host_registry w ∧ reaches w w') ∧
    ∀ e, r = Err e → call_failed cmds w e).
Proof. intros Hm Hb. apply wp_blames; [done|apply Hm]. Qed.

Lemma quiet_moves {A} (m : M W A) : quiet m → moves m.
Proof. intros Hm w. apply Hm. Qed.

Lemma quiet_ret {A} (a : A) : quiet (@ret W A a).
Proof. intros w. split; [done|]. split; [done|apply rtc_refl]. Qed.

Lemma quiet_throw {A} e : quiet (@throw W A e).
Proof. intros w. split; [done|]. split; [done|apply rtc_refl]. Qed.

Lemma quiet_bind {A B} (m : M W A) (k : A → M W B) : quiet m → (∀ a, quiet (k a)) → quiet (bind m k).
Proof.
  intros Hm Hk w. unfold bind. specialize (Hm w). destruct (m w) as [[a|e] w']; simpl in *; [|done].
  destruct Hm as (<- & <- & Hr). destruct (Hk a w') as (Hu & Hg & Hr'). split; [done|]. split; [done|by etrans].
Qed.

Lemma quiet_try {A} (m : M W A) h : quiet m → (∀ e, quiet (h e)) → quiet (try_catch m h).
Proof.
  intros Hm Hk w. unfold try_catch. specialize (Hm w). destruct (m w) as [[a|e] w']; simpl in *; [done|].
  destruct Hm as (<- & <- & Hr). destruct (Hk e w') as (Hu & Hg & Hr'). split; [done|]. split; [done|by etrans].
Qed.

Lemma quiet_attempt {A} (m : M W A) : quiet m → quiet (attempt m).
Proof. intros Hm. apply quiet_try; [|intros; apply quiet_ret]. apply quiet_bind; [done|intros; apply quiet_ret]. Qed.

Lemma quiet_attempt_wp {A} (m : M W A) w (Q : result unit → W → Prop) : quiet m →
  (∀ w', host_users w' = host_users w → host_registry w' = host_registry w → reaches w w' → Q (Ok tt) w') →
  wp (attempt m) w Q.
Proof.
  intros Hm HQ. pose proof (quiet_attempt m Hm w) as (Hu & Hg & Hr). unfold wp.
  assert (E : (attempt m w).1 = Ok tt) by (unfold attempt, try_catch, bind; by destruct (m w) as [[a|e] w']).
  rewrite E. by apply HQ.
Qed.

Lemma quiet_succeeds {A} (m : M W A) : quiet m → quiet (succeeds m).
Proof. intros Hm. apply quiet_try; [|intros; apply quiet_ret]. apply quiet_bind; [done|intros; apply quiet_ret]. Qed.

Lemma quiet_sh cmd args cwd : changes_users cmd = false → quiet (sh cmd args cwd).
Proof. intros Hc w. split; [by apply sh_users|]. split; [apply sh_registry|apply rtc_once, call_sh]. Qed.

Lemma quiet_read p : quiet (read_file p).
Proof. intros w. split; [apply files_users|]. split; [apply files_registry|apply rtc_once, call_read]. Qed.
Lemma quiet_write p t : quiet (write_file p t).
Proof. intros w. split; [apply files_users|]. split; [apply files_registry|apply rtc_once, call_write]. Qed.
Lemma quiet_mkdir p : quiet (make_dirs p).
Proof. intros w. split; [apply files_users|]. split; [apply files_registry|apply rtc_once, call_mkdir]. Qed.
Lemma quiet_stat p : quiet (is_directory p).
Proof. intros w. split; [apply files_users|]. split; [apply files_registry|apply rtc_once, call_stat]. Qed.
Lemma quiet_access p : quiet (access_file p).
Proof. intros w. split; [apply files_users|]. split; [apply files_registry|apply rtc_once, call_access]. Qed.
Lemma quiet_rm p : quiet (remove_file p).
Proof. intros w. split; [apply files_users|]. split; [apply files_registry|apply rtc_once, call_rm]. Qed.
Lemma quiet_reg_read : quiet reg_read.
Proof. intros w. split; [apply files_users|]. split; [apply files_registry|apply rtc_once, call_reg_read]. Qed.

Lemma quiet_each {A B} (f : A → M W B) l : (∀ a, quiet (f a)) → quiet (each_m f l).
Proof.
  intros Hf. induction l as [|a l IH]; [apply quiet_ret|]. simpl. apply quiet_bind; [done|]. intros b.
  by apply quiet_bind.
Qed.
End Quiet.

#[export] Hint Resolve quiet_ret quiet_throw quiet_bind quiet_try quiet_attempt quiet_succeeds quiet_sh
  quiet_read quiet_write quiet_mkdir quiet_stat quiet_access quiet_rm quiet_reg_read quiet_each : host.

(** ** A host *)

(** [fuse] is the number of calls until the next one that fails, and [reg_fuse] that of the
    registry's file: a write that fails leaves the file damaged.  [id] and the reading of a
    file that exists do not fail. *)
Record sim_os := SimOs {
  sim_users : gset string;
  sim_files : gmap string string;
  sim_ports : option PortRegistryData;
  fuse : option nat;
  reg_fuse : option nat;
  calls : list (string * list string) }.

Definition set_sim_users (f : gset string → gset string) (w : sim_os) : sim_os :=
  SimOs (f (sim_users w)) (sim_files w) (sim_ports w) (fuse w) (reg_fuse w) (calls w).
Definition set_sim_files (f : gmap string string → gmap string string) (w : sim_os) : sim_os :=
  SimOs (sim_users w) (f (sim_files w)) (sim_ports w) (fuse w) (reg_fuse w) (calls w).
Definition set_sim_ports (d : option PortRegistryData) (w : sim_os) : sim_os :=
  SimOs (sim_users w) (sim_files w) d (fuse w) (reg_fuse w) (calls w).
Definition set_fuse (n : option nat) (w : sim_os) : sim_os :=
  SimOs (sim_users w) (sim_files w) (sim_ports w) n (reg_fuse w) (calls w).
Definition set_reg_fuse (n : option nat) (w : sim_os) : sim_os :=
  SimOs (sim_users w) (sim_files w) (sim_ports w) (fuse w) n (calls w).
Definition log_call (c : string * list string) (w : sim_os) : sim_os :=
  SimOs (sim_users w) (sim_files w) (sim_ports w) (fuse w) (reg_fuse w) (calls w ++ [c]).

(** A call that fails where the fuse ends. *)
Definition burn {A} (f : sim_os → result A * sim_os) (w : sim_os) : result A * sim_os :=
  match fuse w with
  | Some O => (Err "failed", set_fuse None w)
  | Some (S n) => f (set_fuse (Some n) w)
  | None => f w
  end.

Definition burn_reg {A} (f broken : sim_os → result A * sim_os) (w : sim_os) : result A * sim_os :=
  match reg_fuse w with
  | Some O => broken (set_reg_fuse None w)
  | Some (S n) => f (set_reg_fuse (Some n) w)
  | None => f w
  end.

Definition last_arg (args : list string) : string := default "" (last args).

Definition sim_sh (cmd : string) (args : list string) (w : sim_os) : result string * sim_os :=
  let w := log_call (cmd, args) w in
  if bool_decide (cmd = "useradd") then
    if bool_decide (last_arg args ∈ sim_users w) then (Err "user exists", w)
    else (Ok "", set_sim_users (union {[last_arg args]}) w)
  else if bool_decide (cmd = "userdel") then
    if bool_decide (last_arg args ∈ sim_users w)
    then (Ok "", set_sim_users (λ s, s ∖ {[last_arg args]}) w) else (Err "no such user", w)
  else (Ok "", w).

Definition sim_id (args : list string) (w : sim_os) : result string * sim_os :=
  if bool_decide (last_arg args ∈ sim_users w) then (Ok "1001", w) else (Err "no such user", w).

#[export] Instance sim_host : Host sim_os := {
  sh cmd args cwd w := if bool_decide (cmd = "id") then sim_id args w else burn (sim_sh cmd args) w;
  read_file p w := (match sim_files w !! p with Some t => Ok t | None => Err "ENOENT" end, w);
  write_file p t := burn (λ w, (Ok tt, set_sim_files (<[p := t]>) w));
  make_dirs p := burn (λ w, (Ok tt, w));
  is_directory p := burn (λ w, (Ok (bool_decide (sim_files w !! p = None)), w));
  access_file p := burn (λ w, (if bool_decide (sim_files w !! p = None) then Err "ENOENT" else Ok tt, w));
  remove_file p := burn (λ w, (if bool_decide (sim_files w !! p = None) then Err "ENOENT" else Ok tt,
    set_sim_files (base.delete p) w));
  reg_read := burn_reg (λ w, (match sim_ports w with Some d => Ok d | None => Err "ENOENT" end, w))
    (λ w, (Err "EIO", w));
  reg_write d := burn_reg (λ w, (Ok tt, set_sim_ports (Some d) w)) (λ w, (Err "ENOSPC", set_sim_ports None w));
  host_users := sim_users;
  host_text w p := sim_files w !! p;
  host_registry := sim_ports }.

Lemma burn_keeps {A B} (f : sim_os → result A * sim_os) (get : sim_os → B) w :
  (∀ n w, get (set_fuse n w) = get w) → (∀ w, get (f w).2 = get w) → get (burn f w).2 = get w.
Proof. intros Hg Hf. unfold burn. destruct (fuse w) as [[|n]|]; simpl; [apply Hg| |done]. by rewrite Hf. Qed.

Lemma sim_sh_registry cmd args w : sim_ports (sim_sh cmd args w).2 = sim_ports w.
Proof. unfold sim_sh. repeat case_match; done. Qed.

#[export] Instance sim_laws : HostLaws sim_os.
Proof.
  split; simpl.
  - intros u w. unfold sim_id. simpl. by case_bool_decide.
  - intros opts u w. unfold burn. destruct (fuse w) as [[|n]|]; [by right| |]; unfold sim_sh; simpl;
      unfold last_arg; rewrite last_snoc; simpl; case_bool_decide; auto.
  - intros opts u w. unfold burn. destruct (fuse w) as [[|n]|]; [by right| |]; unfold sim_sh; simpl;
      unfold last_arg; rewrite last_snoc; simpl; case_bool_decide; auto.
  - intros cmd args cwd w Hc. unfold changes_users in Hc. apply bool_decide_eq_false in Hc.
    case_bool_decide; [unfold sim_id; by case_bool_decide|]. apply burn_keeps; [done|]. intros w'.
    unfold sim_sh. rewrite !bool_decide_eq_false_2 by naive_solver. done.
  - intros cmd args cwd w. case_bool_decide; [unfold sim_id; by case_bool_decide|].
    apply burn_keeps; [done|]. intros. apply sim_sh_registry.
  - intros p w. split; [done|]. by destruct (sim_files w !! p).
  - intros p t w. unfold burn. destruct (fuse w) as [[|n]|]; [done| |]; simpl;
      (split; [intros _; apply lookup_insert_eq|intros q Hq; by apply lookup_insert_ne]).
  - intros w. unfold burn_reg.
    repeat split; intros; try done; try (destruct (reg_fuse w) as [[|n]|]; done);
      (apply burn_keeps; [done|]); intros; simpl; by repeat case_match.
  - intros w. unfold burn_reg.
    repeat split; intros; try done; try (destruct (reg_fuse w) as [[|n]|]; done);
      (apply burn_keeps; [done|]); intros; simpl; by repeat case_match.
  - intros w d. unfold burn_reg. destruct (reg_fuse w) as [[|n]|]; simpl; destruct (sim_ports w); naive_solver.
  - intros w d. unfold burn_reg. destruct (reg_fuse w) as [[|n]|]; simpl; auto.
Qed.

Lemma burn_reg_fuse {A} (f : sim_os → result A * sim_os) w :
  (∀ w, reg_fuse (f w).2 = reg_fuse w) → reg_fuse (burn f w).2 = reg_fuse w.
Proof. intros Hf. by apply burn_keeps. Qed.

Lemma sim_call_reg_fuse (w w' : sim_os) : call w w' → reg_fuse w = None → reg_fuse w' = None.
Proof.
  assert (Hs : ∀ cmd args w, reg_fuse (sim_sh cmd args w).2 = reg_fuse w)
    by (intros; unfold sim_sh; by repeat case_match).
  intros Hc Hw. destruct Hc; simpl; unfold burn_reg; rewrite ?Hw; try done;
    first [by rewrite burn_reg_fuse | case_match; [unfold sim_id; by case_match|by rewrite burn_reg_fuse]].
Qed.

(** The registry of this host works once the fuse of its file is gone. *)
Lemma sim_registry_works (w : sim_os) : reg_fuse w = None → registry_works w.
Proof.
  intros Hw w' Hr. assert (Hn : reg_fuse w' = None).
  { induction Hr as [|w w1 w2 Hc _ IH]; [done|]. apply IH. by apply (sim_call_reg_fuse w). }
  simpl. unfold burn_reg. rewrite Hn. split; [|done]. by intros d ->.
Qed.

Lemma sim_readable : sub_ids_readable sim_os.
Proof. intros w p t _ Hp. simpl in *. by rewrite Hp. Qed.
