(* ===== verification/Cli.v ===== *)
(** * The command line

    What the commands of [src/admin/cli.ts] share: flags, outcomes, and a console that
    collects the lines printed to the log and to the error output. *)

From Stdlib Require Import Ascii.
From S2P Require Import Prelude JsMap JsString Command.
Local Open Scope list_scope.
Local Open Scope string_scope.
Local Open Scope fh_scope.

Record CliResult := Outcome { succeeded : bool; outcome_text : string }.

(** The value of a flag: the next argument, unless that is empty, or what follows [=]. *)
Fixpoint extractFlag (args : list string) (flag : string) : option string :=
  match args with
  | [] => None
  | arg :: rest =>
      let next := default "" (head rest) in
      if bool_decide (arg = "--" ++ flag) && str_truthy next then Some next
      else if starts_with ("--" ++ flag ++ "=") arg then Some (str_drop (String.length ("--" ++ flag ++ "=")) arg)
      else extractFlag rest flag
  end.

(** [s.padEnd(n)] *)
Fixpoint spaces (n : nat) : string := match n with O => "" | S n => String " " (spaces n) end.
Definition padEnd (n : nat) (s : string) : string := s ++ spaces (n - String.length s).

Definition quoted (s : string) : string := String "034" (s ++ String "034" "").

(** ** A console over a state *)

Record console (S : Type) := Console { inner : S; logged : list string; errors : list string }.
Arguments Console {S}.
Arguments inner {S}.
Arguments logged {S}.
Arguments errors {S}.

Section Console.
Context {S : Type}.

Abbreviation cli A := (M (console S) A).

Definition put_inner (s : S) (c : console S) : console S := Console s (logged c) (errors c).

Definition log (line : string) : cli unit := modify (λ c, Console (inner c) (logged c ++ [line])%list (errors c)).
Definition log_all (lines : list string) : cli unit :=
  modify (λ c, Console (inner c) (logged c ++ lines)%list (errors c)).
Definition print_error (line : string) : cli unit :=
  modify (λ c, Console (inner c) (logged c) (errors c ++ [line])%list).

(** A command of the state below. *)
Definition lift {A} (m : M S A) : cli A := λ c, let '(r, s) := m (inner c) in (r, put_inner s c).

Definition done_with (text : string) : cli CliResult := ret (Outcome true text).
Definition fails_with (text : string) : cli CliResult := ret (Outcome false text).

(** ** What a command may do to the state *)

(** [acts R m]: the state changes along [R] whatever [m] answers. *)
Definition acts {A} (R : S → S → Prop) (m : cli A) : Prop := ∀ c, R (inner c) (inner (m c).2).

Section Acts.
Context (R : S → S → Prop) `{!Reflexive R} `{!Transitive R}.

Lemma acts_ret {A} (a : A) : acts R (ret a).
Proof. intros c. simpl. reflexivity. Qed.
Lemma acts_throw {A} e : acts R (throw (A := A) e).
Proof. intros c. simpl. reflexivity. Qed.
Lemma acts_result {A} (r : result A) : acts R (of_result r).
Proof. intros c. simpl. reflexivity. Qed.
Lemma acts_asks {A} (f : console S → A) : acts R (asks f).
Proof. intros c. simpl. reflexivity. Qed.
Lemma acts_log l : acts R (log l).
Proof. intros c. simpl. reflexivity. Qed.
Lemma acts_log_all l : acts R (log_all l).
Proof. intros c. simpl. reflexivity. Qed.
Lemma acts_error l : acts R (print_error l).
Proof. intros c. simpl. reflexivity. Qed.

Lemma acts_bind {A B} (m : cli A) (k : A → cli B) : acts R m → (∀ a, acts R (k a)) → acts R (bind m k).
Proof.
  intros Hm Hk c. unfold bind. specialize (Hm c). destruct (m c) as [[a|e] c']; simpl in *; [|done].
  etrans; [exact Hm|apply Hk].
Qed.

Lemma acts_try {A} (m : cli A) h : acts R m → (∀ e, acts R (h e)) → acts R (try_catch m h).
Proof.
  intros Hm Hk c. unfold try_catch. specialize (Hm c). destruct (m c) as [[a|e] c']; simpl in *; [done|].
  etrans; [exact Hm|apply Hk].
Qed.

Lemma acts_each {A B} (f : A → cli B) l : (∀ a, acts R (f a)) → acts R (each_m f l).
Proof.
  intros Hf. induction l as [|a l IH]; [apply acts_ret|]. apply acts_bind; [done|]. intros b.
  apply acts_bind; [done|]. intros bs. apply acts_ret.
Qed.

Lemma acts_lift {A} (m : M S A) : (∀ s, R s (m s).2) → acts R (lift m).
Proof. intros Hm c. unfold lift. specialize (Hm (inner c)). by destruct (m (inner c)). Qed.
End Acts.
End Console.
Abbreviation cli S A := (M (console S) A).

(** Commands made of the parts above, with [base] for the ones of the state. *)
Ltac acts_parts base :=
  repeat first
    [ base tt | apply acts_ret; apply _ | apply acts_throw; apply _ | apply acts_result; apply _
    | apply acts_asks; apply _ | apply acts_log; apply _ | apply acts_log_all; apply _ | apply acts_error; apply _
    | apply acts_bind; [apply _| |intros] | apply acts_try; [apply _| |intros]
    | apply acts_each; [apply _|apply _|intros] | case_match ].

(** ** Flags read back *)

(** An argument that does not start a flag of the name. *)
Definition other_arg (flag arg : string) : Prop :=
  arg ≠ ("--" ++ flag)%string ∧ starts_with ("--" ++ flag ++ "=") arg = false.

Lemma extractFlag_skip args flag rest : Forall (other_arg flag) args →
  extractFlag (args ++ rest)%list flag = extractFlag rest flag.
Proof.
  induction 1 as [|a args [Hne Hs] _ IH]; [done|]. simpl. rewrite bool_decide_eq_false_2 by done. simpl.
  by rewrite Hs.
Qed.

Lemma drop_app_string p s : str_drop (String.length p) (p ++ s) = s.
Proof. induction p as [|c p IH]; [by destruct s|]. rewrite string_app_cons. exact IH. Qed.

(** Both spellings of a flag give its value, when no earlier argument is the flag. *)
Lemma extractFlag_spaced args flag v rest : Forall (other_arg flag) args → v ≠ "" →
  extractFlag (args ++ ("--" ++ flag)%string :: v :: rest)%list flag = Some v.
Proof.
  intros Ha Hv. rewrite extractFlag_skip by done. simpl. rewrite bool_decide_eq_true_2 by done.
  unfold str_truthy. by rewrite bool_decide_eq_false_2.
Qed.

Lemma extractFlag_equals args flag v rest : Forall (other_arg flag) args →
  extractFlag (args ++ (("--" ++ flag ++ "=") ++ v)%string :: rest)%list flag = Some v.
Proof.
  intros Ha. rewrite extractFlag_skip by done. cbn [extractFlag].
  assert (Hne : (("--" ++ flag ++ "=") ++ v)%string ≠ ("--" ++ flag)%string).
  { intros E. apply (f_equal String.length) in E. rewrite !length_app_string in E. simpl in E. lia. }
  rewrite bool_decide_eq_false_2 by done. cbn [andb].
  assert (Hp : starts_with ("--" ++ flag ++ "=") (("--" ++ flag ++ "=") ++ v) = true) by (apply prefix_app; by eexists).
  rewrite Hp. f_equal. apply drop_app_string.
Qed.
