(* ===== verification/ChannelSetup.v ===== *)
(** * Credentials of the channels

    [setupTelegramCommand], [setupGmailCommand] and their dispatcher of
    [src/admin/cli.ts], which put the credentials of a channel into the vault and its
    settings into the configuration file; and [src/channels/credential-reader.ts], with
    which the channel container takes the credentials out of the vault file.  A command
    runs by itself.  The YAML library, [Number] on a text, and the reading of a key file
    that a flag names are arguments; the target voice, a dialogue, is not modelled. *)

From Stdlib Require Import Ascii.
From S2P Require Import Prelude JsMap JsString JsNumber JsParse Json JsonText Skills Jobs Threads.
From S2P Require Import HostFs ProxyRules CredentialSchema Vault Command Cli.
Local Open Scope list_scope.
Local Open Scope string_scope.
Local Open Scope fh_scope.

Record setup_world := Setup { vlt : vault; config : option string; skillStore : skill_store }.

Record GmailOptions := Gmail {
  emailAddress : string;
  oauthClientId : string;
  oauthClientSecret : string;
  oauthRefreshToken : string;
  gcpProject : option string;
  serviceAccountKeyPath : option string;
  serviceAccountKeyJson : option string;
  transport : option string;
  notificationChannel : option string }.

(** [setOrUpdate] *)
Definition set_rule (n host hdr val : string) (r : CredentialRules) : CredentialRules :=
  set_credentials (without n (credentials r) ++ [Credential n host hdr val None None None None None])%list r.

Section Commands.
Context (seal : string → string → string → option (string * string)).
Context (unseal : string → string → string → string → option string).
Context (random : nat → nat → string) (root : bool).
Context (yaml_parse : string → result jvalue) (yaml_print : jvalue → string).
Context (number : string → option jvalue) (read_file : string → result string).

Abbreviation command A := (cli setup_world A).

(** ** The two files *)

(** A method of the store, which nothing interrupts. *)
Definition on_vault {A} (p : prog vault unit A) : command A :=
  lift (λ s, let '(w, a, _) := alone (λ _, 0%Z) 0 p (vlt s) in
             (match a with Some a => Ok a | None => Err "vault" end, Setup w (config s) (skillStore s))).

Definition vault_load : command CredentialRules := on_vault (load unseal random None root).
Definition vault_save (r : CredentialRules) : command unit := on_vault (save seal random None root r).

(** The configuration, [{}] where there is no file or no object or list in it. *)
Definition existing_config : command jvalue :=
  do file <- asks (λ c, config (inner c));
  match file with
  | None => ret (JObj [])
  | Some raw =>
      do parsed <- of_result (yaml_parse raw);
      ret match parsed with JObj _ | JArr _ => parsed | _ => JObj [] end
  end.

(** [v[key] = x]: a list ignores it when it is printed, and a primitive value refuses it. *)
Definition assign (v : jvalue) (key : string) (x : jvalue) : result jvalue :=
  match v with
  | JObj fs => Ok (JObj (map_set fs key x))
  | JArr _ => Ok v
  | _ => Err "TypeError"
  end.

Definition channels_of (v : jvalue) : jvalue :=
  match field v "channels" with None | Some JNull => JObj [] | Some x => x end.

Definition write_config (v : jvalue) : command unit :=
  modify (λ c, put_inner (Setup (vlt (inner c)) (Some (yaml_print v)) (skillStore (inner c))) c).

Definition configure (existing : jvalue) (channel : string) (x : jvalue) : command unit :=
  do channels <- of_result (assign (channels_of existing) channel x);
  do v <- of_result (assign existing "channels" channels);
  write_config v.

Definition skill_installed (n : string) : command bool := asks (λ c, isInstalled (skillStore (inner c)) n).

(** ** Telegram *)

Definition setupTelegramCommand (configPath botToken : string) (allowedUsers : option (list jvalue)) : command CliResult :=
  do existing <- existing_config;
  do rules <- vault_load;
  run vault_save (set_rule "telegram-bot" "api.telegram.org" "x-bot-token" botToken rules);
  run log "Telegram bot token stored in encrypted vault";
  run configure existing "telegram" (JObj [("botToken", JStr botToken); ("allowedUsers", JArr (default [] allowedUsers))]);
  run log_all ["Telegram channel configured in " ++ configPath; ""];
  do installed <- skill_installed "telegram";
  run (if installed : bool then log "Telegram skill is already installed."
       else log_all ["Recommended: Install the telegram skill for rich Telegram features:"; "  flowhelm install telegram";
                     "  (message formatting, media handling, group chat behavior)"; "";
                     "The channel works without the skill — the agent just won't know";
                     "about Telegram-specific features like MarkdownV2 formatting."]);
  done_with "Telegram channel configured".

(** ** Gmail *)

Definition gmail_rules (o : GmailOptions) (r : CredentialRules) : CredentialRules :=
  set_rule "gmail-email-address" "gmail.googleapis.com" "x-email" (emailAddress o)
    (set_rule "gmail-oauth-refresh-token" "oauth2.googleapis.com" "x-refresh-token" (oauthRefreshToken o)
      (set_rule "gmail-oauth-client-secret" "oauth2.googleapis.com" "x-client-secret" (oauthClientSecret o)
        (set_rule "gmail-oauth-client-id" "oauth2.googleapis.com" "x-client-id" (oauthClientId o) r))).

Definition service_account_key (o : GmailOptions) : result (option string) :=
  match serviceAccountKeyJson o with
  | Some key => Ok (Some key)
  | None => match serviceAccountKeyPath o with
            | Some path => if str_truthy path then (let* txt := read_file path in Ok (Some txt)) else Ok None
            | None => Ok None
            end
  end.

Definition has_field (v : jvalue) (key : string) : bool := match field v key with Some x => negb (falsy x) | None => false end.

(** Whether a text is a key: [Err] when it is no JSON or null. *)
Definition valid_key (txt : string) : result bool :=
  match json_parse txt with
  | None => Err "SyntaxError"
  | Some JNull => Err "TypeError"
  | Some v => Ok (has_field v "client_email" && has_field v "private_key")
  end.

Definition opt_text (key : string) (v : option string) : list (string * jvalue) :=
  match v with Some s => if str_truthy s then [(key, JStr s)] else [] | None => [] end.

Definition gmail_config (o : GmailOptions) : jvalue :=
  JObj (app [("enabled", JBool true); ("emailAddress", JStr (emailAddress o)); ("transport", JStr (default "pubsub" (transport o)));
             ("oauthClientId", JStr (oauthClientId o)); ("oauthClientSecret", JStr (oauthClientSecret o))]
       (app (opt_text "gcpProject" (gcpProject o)) (opt_text "notificationChannel" (notificationChannel o)))).

Definition gmail_notes (o : GmailOptions) : list string :=
  if bool_decide (default "pubsub" (transport o) = "pubsub") then
    app ["Transport: Pub/Sub REST pull (GCP project: " ++ default "not set" (gcpProject o) ++ ")"]
   (app (match truthy_text (serviceAccountKeyPath o) with
         | Some _ => []
         | None => [""; "Note: You also need a GCP service account with Pub/Sub Subscriber role.";
                    "Re-run with --service-account-key /path/to/key.json (stored in encrypted vault)."]
         end)
   [""; "Pub/Sub setup checklist:"; "  1. Enable Gmail API and Cloud Pub/Sub API in your GCP project";
    "  2. Create a Pub/Sub topic named " ++ quoted "flowhelm-gmail";
    "  3. Create a pull subscription named " ++ quoted "flowhelm-gmail-sub";
    "  4. Grant gmail-api-push@system.gserviceaccount.com publish rights on the topic"])
  else ["Transport: IMAP IDLE (no GCP required)"; ""; "IMAP connects directly to imap.gmail.com using OAuth2.";
        "Ensure " ++ quoted "Less secure app access" ++ " is not required (OAuth2 bypasses it)."].

Definition gmail_skill_notes (gmail calendar : bool) : list string :=
  if gmail && calendar then ["Gmail and calendar skills are already installed."]
  else app ["Recommended skills:"]
      (app (if gmail then [] else ["  flowhelm install gmail     (email operations: compose, reply, search, labels)"])
      (app (if calendar then [] else ["  flowhelm install calendar  (event management: create, check availability)"])
      [""; "The channel works without skills — the agent just won't know";
       "about Gmail-specific operations like search syntax or label management."])).

Definition NEEDS_PROJECT : string :=
  "Pub/Sub transport requires --gcp-project. Use --transport imap for IMAP IDLE.".

(** What follows the choice of the rules to store. *)
Definition finish_gmail (configPath : string) (o : GmailOptions) (rules : CredentialRules) : command CliResult :=
  run vault_save rules;
  run log "Gmail credentials stored in encrypted vault";
  do existing <- existing_config;
  run configure existing "gmail" (gmail_config o);
  run log_all ["Gmail channel configured in " ++ configPath; ""];
  run log_all (app (gmail_notes o) [""]);
  do gmail <- skill_installed "gmail";
  do calendar <- skill_installed "calendar";
  run log_all (gmail_skill_notes gmail calendar);
  done_with "Gmail channel configured".

Definition setupGmailCommand (configPath : string) (o : GmailOptions) : command CliResult :=
  if bool_decide (default "pubsub" (transport o) = "pubsub") && negb (bool_decide (is_Some (truthy_text (gcpProject o)))) then
    fails_with NEEDS_PROJECT
  else
    do rules <- vault_load;
    let rules := gmail_rules o rules in
    do key <- of_result (service_account_key o);
    match truthy_text key with
    | None => finish_gmail configPath o rules
    | Some key =>
        do ok <- of_result (valid_key (trim key));
        if ok : bool then
          run log "Service account key stored in encrypted vault";
          finish_gmail configPath o (set_rule "gmail-service-account-key" "pubsub.googleapis.com" "x-sa-key" (trim key) rules)
        else fails_with "Invalid service account key: missing client_email or private_key"
    end.

(** ** The dispatcher *)

Definition allowed_users (flag : option string) : option (list jvalue) :=
  s ← truthy_text flag; Some (omap (λ x, number (trim x)) (str_split "," s)).

Definition telegram_target (configPath : string) (args : list string) : command CliResult :=
  match truthy_text (extractFlag args "bot-token") with
  | None =>
      run print_error "Usage: flowhelm setup telegram --bot-token <token> [--allowed-users 123,456]";
      fails_with "Missing --bot-token"
  | Some botToken => setupTelegramCommand configPath botToken (allowed_users (extractFlag args "allowed-users"))
  end.

Definition gmail_target (configPath : string) (args : list string) : command CliResult :=
  let flag := extractFlag args in
  match truthy_text (flag "email") with
  | None =>
      run print_error "Usage: flowhelm setup gmail --email <addr> --client-id <id> --client-secret <secret> --refresh-token <token> [--gcp-project <id>] [--service-account-key <path>] [--transport pubsub|imap] [--notification-channel telegram|whatsapp]";
      fails_with "Missing --email"
  | Some email =>
      match truthy_text (flag "client-id"), truthy_text (flag "client-secret"), truthy_text (flag "refresh-token") with
      | Some clientId, Some clientSecret, Some refreshToken =>
          let key := flag "service-account-key" in
          let inline := match key with Some k => starts_with "{" (trim_start k) | None => false end in
          setupGmailCommand configPath
            (Gmail email clientId clientSecret refreshToken (flag "gcp-project") (if inline then None else key)
               (if inline then key else None) (Some (default "pubsub" (flag "transport"))) (flag "notification-channel"))
      | _, _, _ =>
          run print_error "Missing required OAuth flags: --client-id, --client-secret, --refresh-token";
          fails_with "Missing OAuth credentials"
      end
  end.

(** [None] is the target voice. *)
Definition dispatchSetupCommand (configPath : string) (args : list string) : option (command CliResult) :=
  let target := head args in
  if bool_decide (target = Some "telegram") then Some (telegram_target configPath args)
  else if bool_decide (target = Some "gmail") then Some (gmail_target configPath args)
  else if bool_decide (target = Some "voice") then None
  else
    let text := "Unknown setup target: " ++ default "(none)" target in
    Some (run print_error text;
          run print_error "Available: flowhelm setup telegram, flowhelm setup gmail, flowhelm setup identity, flowhelm setup voice";
          fails_with text).
End Commands.

(** ** The reader of the channel container *)

Inductive slot := TelegramBotToken | GmailClientId | GmailClientSecret | GmailRefreshToken | GmailKey | GmailAddress.
#[export] Instance slot_eq_dec : EqDecision slot.
Proof. solve_decision. Defined.

Definition slot_name (s : slot) : string :=
  match s with
  | TelegramBotToken => "telegram-bot"
  | GmailClientId => "gmail-oauth-client-id"
  | GmailClientSecret => "gmail-oauth-client-secret"
  | GmailRefreshToken => "gmail-oauth-refresh-token"
  | GmailKey => "gmail-service-account-key"
  | GmailAddress => "gmail-email-address"
  end.

Definition slots : list slot :=
  [TelegramBotToken; GmailClientId; GmailClientSecret; GmailRefreshToken; GmailKey; GmailAddress].

(** The members of the result, and the rules as they were parsed. *)
Record ChannelCredentials := Credentials { found : slot → option jvalue; raw : jvalue }.

Definition set_slot (s : slot) (v : jvalue) (c : ChannelCredentials) : ChannelCredentials :=
  Credentials (λ t, if decide (t = s) then Some v else found c t) (raw c).

Definition slot_of (v : jvalue) : option slot :=
  match v with JStr s => List.find (λ t, bool_decide (slot_name t = s)) slots | _ => None end.

(** One round of the loop; it throws on null. *)
Definition extract_one (c : ChannelCredentials) (cred : jvalue) : option ChannelCredentials :=
  match cred with
  | JNull => None
  | _ =>
      match field cred "name", field cred "value" with
      | Some n, Some v =>
          if falsy n || falsy v then Some c
          else Some match slot_of n with Some s => set_slot s v c | None => c end
      | _, _ => Some c
      end
  end.

Fixpoint extract_each (l : list jvalue) (c : ChannelCredentials) : option ChannelCredentials :=
  match l with [] => Some c | x :: l => c ← extract_one c x; extract_each l c end.

(** The characters of a text have no names. *)
Definition extractChannelCredentials (rules : jvalue) : option ChannelCredentials :=
  let none := Credentials (λ _, None) rules in
  match rules, field rules "credentials" with
  | JNull, _ => None
  | _, (None | Some JNull) => Some none
  | _, Some (JArr l) => extract_each l none
  | _, Some (JStr _) => Some none
  | _, Some _ => None
  end.

(** [Buffer.from(s, 'hex')] *)
Fixpoint from_hex (s : string) : string :=
  match s with
  | String a (String b s) =>
      match hex_value a, hex_value b with
      | Some x, Some y => String (ascii_of_N (x * 16 + y)) (from_hex s)
      | _, _ => ""
      end
  | _ => ""
  end.

(** [key.toString('hex')] *)
Fixpoint to_hex (s : string) : string :=
  match s with
  | String c s => hex_lower (N_of_ascii c / 16) ++ hex_lower (N_of_ascii c mod 16) ++ to_hex s
  | EmptyString => ""
  end.

Definition readChannelCredentials (unseal : string → string → string → string → option string)
  (file : option string) (keyHex : string) : option ChannelCredentials :=
  let key := from_hex keyHex in
  if negb (String.length key =? 32)%nat then None
  else
    data ← file;
    decrypted ← decrypt unseal data key;
    parsed ← json_parse decrypted;
    extractChannelCredentials parsed.

(** ** What was stored is read *)

Lemma from_to_hex s : from_hex (to_hex s) = s.
Proof.
  induction s as [|c s IH]; [done|]. assert (H : ∀ r, from_hex (hex_lower (N_of_ascii c / 16) ++ hex_lower (N_of_ascii c mod 16) ++ r) =
    String c (from_hex r)) by (by destruct c as [[] [] [] [] [] [] [] []]).
  cbn [to_hex]. by rewrite H, IH.
Qed.

(** The value of the last credential of a name. *)
Definition last_value (n : string) (l : list CredentialRule) : option string :=
  value <$> last (filter (λ c, name c = n) l).

Lemma slot_of_name s n : slot_of (JStr n) = Some s ↔ n = slot_name s.
Proof.
  split; [|intros ->; by destruct s]. unfold slot_of. intros [_ H]%List.find_some. by apply bool_decide_eq_true in H.
Qed.

(** The reader takes from an entry what the schema takes from it. *)
Lemma extract_credential v c x : credentialRuleSchema v = Some c →
  extract_one x v = Some match slot_of (JStr (name c)) with Some s => set_slot s (JStr (value c)) x | None => x end.
Proof.
  intros Hc. pose proof (only_valid_credential _ _ Hc) as Hv. unfold credentialRuleSchema in Hc.
  apply bind_Some in Hc as (n & Hn & (p & _ & (h & _ & (u & Hu & Hc)%bind_Some)%bind_Some)%bind_Some).
  apply bind_Some in Hc as (? & _ & (? & _ & (? & _ & (? & _ & (? & _ & [= <-])%bind_Some)%bind_Some)%bind_Some)%bind_Some).
  cbn [name value] in *. unfold valid_credential in Hv. rewrite !andb_true_iff in Hv.
  destruct Hv as [[[[[[Hl _] _] Hval] _] _] _]. cbn [name value] in *.
  assert (Hf : ∀ P key t, required (text_that P) v key = Some t → field v key = Some (JStr t)).
  { unfold required. intros P key t (y & -> & Hy)%bind_Some. destruct y; try done. cbn in Hy. destruct (P s); [|done].
    by injection Hy as ->. }
  apply Hf in Hn, Hu. unfold extract_one. destruct v; try done. rewrite Hn, Hu. cbn [falsy].
  destruct n as [|a n]; [done|]. by destruct u as [|b u].
Qed.

Lemma extract_all vs l x : Forall2 (λ v c, credentialRuleSchema v = Some c) vs l →
  ∃ y, extract_each vs x = Some y ∧ raw y = raw x ∧
    ∀ s, found y s = match last_value (slot_name s) l with Some v => Some (JStr v) | None => found x s end.
Proof.
  intros Hl. revert x. induction Hl as [|v c vs l Hc _ IH]; intros x; [by exists x|].
  cbn [extract_each]. rewrite (extract_credential _ _ _ Hc). cbn [mbind option_bind].
  destruct (IH (match slot_of (JStr (name c)) with Some s => set_slot s (JStr (value c)) x | None => x end)) as (y & Hy & Hr & Hf).
  exists y. split; [exact Hy|]. split; [rewrite Hr; by destruct (slot_of (JStr (name c)))|]. intros s. rewrite Hf.
  unfold last_value. rewrite filter_cons. case_decide as En.
  - rewrite last_cons. destruct (last (filter _ l)); [done|]. cbn [fmap option_fmap option_map].
    rewrite (proj2 (slot_of_name s _)) by done. unfold set_slot. cbn [found]. by rewrite decide_True.
  - destruct (last (filter _ l)); [done|]. cbn [fmap option_fmap option_map].
    destruct (slot_of (JStr (name c))) as [t|] eqn:Et; [|done]. unfold set_slot. cbn [found].
    rewrite decide_False; [done|]. intros ->. by apply slot_of_name in Et.
Qed.

(** Of a file that the schema accepts the reader takes, for each name it knows, the value
    of the last credential of that name. *)
Lemma extract_parsed v r : parseCredentialRules v = Some r →
  ∃ y, extractChannelCredentials v = Some y ∧ raw y = v ∧ ∀ s, found y s = JStr <$> last_value (slot_name s) (credentials r).
Proof.
  unfold parseCredentialRules. destruct v as [| | | | |fs]; try done. cbn [is_object].
  intros (cs & Hc & (ps & _ & (ss & _ & [= <-])%bind_Some)%bind_Some)%bind_Some.
  unfold defaulting in Hc. unfold extractChannelCredentials. cbn [credentials].
  destruct (field (JObj fs) "credentials") as [u|].
  - destruct u as [| | | |l|]; try done. cbn [array_of] in Hc. apply mapM_Some_1 in Hc.
    destruct (extract_all _ _ (Credentials (λ _, None) (JObj fs)) Hc) as (y & Hy & Hr & Hf).
    exists y. split; [done|]. split; [done|]. intros s. rewrite Hf. by destruct (last_value (slot_name s) cs).
  - injection Hc as <-. by eexists.
Qed.

Lemma last_value_set n m host hdr val r :
  last_value n (credentials (set_rule m host hdr val r)) = if decide (m = n) then Some val else last_value n (credentials r).
Proof.
  unfold last_value. cbn [set_rule set_credentials credentials]. rewrite filter_app, filter_cons, filter_nil. cbn [name].
  case_decide as En.
  - by rewrite last_snoc.
  - rewrite app_nil_r. unfold without. f_equal. f_equal. induction (credentials r) as [|c l IH]; [done|].
    rewrite !filter_cons. case_decide as Ec; rewrite ?filter_cons; repeat case_decide; congruence.
Qed.

Section Proofs.
Context (seal : string → string → string → option (string * string)).
Context (unseal : string → string → string → string → option string).
Context `{!Aead seal unseal} (random : nat → nat → string) `{!RandomBytes random} (root : bool).
Context (yaml_parse : string → result jvalue) (yaml_print : jvalue → string).
Context (number : string → option jvalue) (read_file : string → result string).

Abbreviation holds := (holds unseal None).

Definition put_vault (w : vault) (c : console setup_world) : console setup_world :=
  put_inner (Setup w (config (inner c)) (skillStore (inner c))) c.

Lemma vault_load_holds c r : holds (vlt (inner c)) r →
  ∃ w, vault_load unseal random root c = (Ok r, put_vault w c) ∧ holds w r.
Proof.
  intros Hh. unfold vault_load, on_vault, lift.
  pose proof (alone_of_ends (λ _, 0%Z) 0 _ _ _ _ (load_alone unseal random None root (vlt (inner c)) r
    (λ a w, a = r ∧ holds w r) (λ _, False) Hh ltac:(by intros w Hw _))) as Hl.
  destruct (alone _ 0 _ (vlt (inner c))) as [[w [a|]] j]; [|done]. destruct Hl as [-> Hw]. by exists w.
Qed.

Lemma vault_save_holds c r0 r : holds (vlt (inner c)) r0 → file_ok r →
  ∃ w, vault_save seal random root r c = (Ok tt, put_vault w c) ∧ holds w r.
Proof.
  intros Hh Hr. unfold vault_save, on_vault, lift.
  pose proof (alone_of_ends (λ _, 0%Z) 0 _ _ _ _ (save_alone seal unseal random None root (vlt (inner c)) r0 r
    (λ _ w, holds w r) (λ _, False) Hh Hr ltac:(by intros w Hw _))) as Hl.
  destruct (alone _ 0 _ (vlt (inner c))) as [[w [[]|]] j]; [|done]. by exists w.
Qed.

(** What the container reads from a vault that holds rules. *)
Definition container_reads (w : vault) (f : slot → option string) : Prop :=
  ∃ key y, usable None key w ∧ readChannelCredentials unseal (enc w) (to_hex key) = Some y ∧ ∀ s, found y s = JStr <$> f s.

Lemma held_is_read w r : holds w r → credentials r ≠ [] →
  container_reads w (λ s, last_value (slot_name s) (credentials r)).
Proof.
  intros [_ [(key & Hu & Hr)|(_ & _ & _ & ->)]] Hne; [|done]. unfold read_rules in Hr. destruct (enc w) as [data|] eqn:Ed.
  - apply bind_Some in Hr as (txt & Hd & (v & Hj & Hp)%bind_Some). destruct (extract_parsed v r Hp) as (y & Hy & _ & Hf).
    exists key, y. split; [done|]. split; [|done]. unfold readChannelCredentials. rewrite from_to_hex, Ed.
    destruct Hu as [_ Hl]. rewrite Hl. cbn [Nat.eqb negb KEY_LENGTH mbind option_bind]. rewrite Hd. cbn [mbind option_bind].
    rewrite Hj. exact Hy.
  - injection Hr as <-. done.
Qed.

Lemma container_reads_ext w f g : (∀ s, f s = g s) → container_reads w f → container_reads w g.
Proof. intros E (key & y & Hu & Hr & Hf). exists key, y. split; [done|]. split; [done|]. intros s. by rewrite Hf, E. Qed.

Lemma set_rule_ok n host hdr val r : file_ok r →
  valid_credential (Credential n host hdr val None None None None None) = true → file_ok (set_rule n host hdr val r).
Proof.
  intros Hr Hv. apply set_credentials_ok; [done|]. rewrite forallb_app, without_ok by (by apply credentials_ok).
  cbn [forallb andb]. by rewrite Hv.
Qed.

Lemma set_rule_nonempty n host hdr val r : credentials (set_rule n host hdr val r) ≠ [].
Proof. cbn. by destruct (without n (credentials r)). Qed.

(** The rest of a command leaves the vault alone. *)
Definition same_vault (s s' : setup_world) : Prop := vlt s' = vlt s.

#[local] Instance same_vault_refl : Reflexive same_vault.
Proof. done. Qed.
#[local] Instance same_vault_trans : Transitive same_vault.
Proof. unfold same_vault. intros a b c. congruence. Qed.

Lemma configure_acts existing channel x : acts same_vault (configure yaml_print existing channel x).
Proof. unfold configure. acts_parts ltac:(fun _ => by intros c). Qed.

Lemma existing_config_pure c : ∃ r, existing_config yaml_parse c = (r, c).
Proof.
  unfold existing_config, bind, asks. destruct (config (inner c)) as [raw|]; [|by eexists].
  unfold of_result. destruct (yaml_parse raw); by eexists.
Qed.

(** *** Telegram *)

(** Unless the configuration cannot be read, the token that is set up is the one that the
    channel container reads, and the credentials of the other channels are as they were. *)
Theorem telegram_setup_read configPath botToken users c r : holds (vlt (inner c)) r → botToken ≠ "" →
  let '(res, c') := setupTelegramCommand seal unseal random root yaml_parse yaml_print configPath botToken users c in
  (∃ e, res = Err e ∧ c' = c) ∨
  container_reads (vlt (inner c')) (λ s, if decide (s = TelegramBotToken) then Some botToken
                                         else last_value (slot_name s) (credentials r)).
Proof.
  intros Hh Ht. unfold setupTelegramCommand. unfold bind at 1. destruct (existing_config_pure c) as ([existing|e] & ->);
    [|left; by exists e]. unfold bind at 1. destruct (vault_load_holds c r Hh) as (w1 & -> & H1).
  unfold bind at 1. destruct (vault_save_holds (put_vault w1 c) r (set_rule "telegram-bot" "api.telegram.org" "x-bot-token" botToken r) H1)
    as (w2 & -> & H2).
  { apply set_rule_ok; [apply Hh|]. by destruct botToken. }
  match goal with |- let '(_, _) := ?m ?c2 in _ => assert (Ha : acts same_vault m) end.
  { acts_parts ltac:(fun _ => apply configure_acts). }
  specialize (Ha (put_vault w2 (put_vault w1 c))). 
  destruct (bind _ _ _) as [res c']. right. unfold same_vault in Ha. cbn [snd inner put_vault put_inner vlt] in Ha. rewrite Ha.
  apply (container_reads_ext _ (λ s, last_value (slot_name s) (credentials (set_rule "telegram-bot" "api.telegram.org" "x-bot-token" botToken r)))).
  - intros s. rewrite last_value_set. by destruct s.
  - by apply held_is_read, set_rule_nonempty.
Qed.

(** *** Gmail *)

Definition gmail_value (o : GmailOptions) (key : option string) (r : CredentialRules) (s : slot) : option string :=
  let old := last_value (slot_name s) (credentials r) in
  match s with
  | GmailAddress => Some (emailAddress o)
  | GmailClientId => Some (oauthClientId o)
  | GmailClientSecret => Some (oauthClientSecret o)
  | GmailRefreshToken => Some (oauthRefreshToken o)
  | GmailKey => match key with Some k => Some (trim k) | None => old end
  | TelegramBotToken => old
  end.

Definition complete (o : GmailOptions) : Prop :=
  emailAddress o ≠ "" ∧ oauthClientId o ≠ "" ∧ oauthClientSecret o ≠ "" ∧ oauthRefreshToken o ≠ "".

Lemma gmail_rules_ok o r : complete o → file_ok r → file_ok (gmail_rules o r).
Proof.
  intros (He & Hi & Hs & Ht) Hr. unfold gmail_rules.
  destruct o as [e i s t ? ? ? ? ?]. cbn in *. repeat apply set_rule_ok; try done; [by destruct i|by destruct s|by destruct t|by destruct e].
Qed.

Lemma gmail_rules_value o r s : last_value (slot_name s) (credentials (gmail_rules o r)) = gmail_value o None r s.
Proof. unfold gmail_rules. rewrite !last_value_set. by destruct s. Qed.

Definition says_done {A} (good : A → Prop) (m : cli setup_world A) : Prop := ∀ c, match (m c).1 with Ok a => good a | Err _ => True end.

Lemma says_done_bind {A B} good (m : cli setup_world A) (k : A → cli setup_world B) :
  (∀ a, says_done good (k a)) → says_done good (bind m k).
Proof. intros Hk c. unfold bind. destruct (m c) as [[a|e] c']; [apply Hk|done]. Qed.

Lemma finish_gmail_spec configPath o rules c r0 : holds (vlt (inner c)) r0 → file_ok rules → credentials rules ≠ [] →
  let '(res, c') := finish_gmail seal random root yaml_parse yaml_print configPath o rules c in
  container_reads (vlt (inner c')) (λ s, last_value (slot_name s) (credentials rules)) ∧
  match res with Ok out => succeeded out = true | Err _ => True end.
Proof.
  intros Hh Hr Hne.
  assert (Hd : says_done (λ out, succeeded out = true) (finish_gmail seal random root yaml_parse yaml_print configPath o rules))
    by (repeat (apply says_done_bind; intros); by intros c0).
  specialize (Hd c). unfold finish_gmail in *. unfold bind at 1 in Hd. unfold bind at 1.
  destruct (vault_save_holds c r0 rules Hh Hr) as (w & E & Hw). rewrite E in Hd |- *.
  match goal with |- let '(_, _) := ?m ?c2 in _ => assert (Ha : acts same_vault m) end.
  { acts_parts ltac:(fun _ => first [apply configure_acts | by unfold existing_config; acts_parts ltac:(fun _ => fail)]). }
  specialize (Ha (put_vault w c)). destruct (bind _ _ _) as [res c']. split; [|exact Hd].
  unfold same_vault in Ha. cbn [snd inner put_vault put_inner vlt] in Ha. rewrite Ha. by apply held_is_read.
Qed.

(** A set-up that is reported as done has put the address, the three parts of the OAuth
    credentials and, if one was given, the key where the channel container reads them,
    and left the token of Telegram as it was; one that is refused has changed no rule. *)
Theorem gmail_setup_read configPath o c r : holds (vlt (inner c)) r → complete o →
  let '(res, c') := setupGmailCommand seal unseal random root yaml_parse yaml_print read_file configPath o c in
  let read := ∃ key, service_account_key read_file o = Ok key ∧
                     container_reads (vlt (inner c')) (gmail_value o (truthy_text key) r) in
  match res with
  | Ok out => if succeeded out then read else holds (vlt (inner c')) r
  | Err _ => holds (vlt (inner c')) r ∨ read
  end.
Proof.
  intros Hh Hc. unfold setupGmailCommand. destruct (_ && _); [done|]. unfold bind at 1.
  destruct (vault_load_holds c r Hh) as (w1 & -> & H1). unfold bind at 1, of_result at 1.
  destruct (service_account_key read_file o) as [key|e] eqn:Ek; [|by left].
  assert (Hg : file_ok (gmail_rules o r)) by (apply gmail_rules_ok, Hh; done).
  destruct (truthy_text key) as [k|] eqn:Et.
  - unfold bind at 1, of_result at 1. destruct (valid_key (trim k)) as [ok|e] eqn:Ev; [|by left]. destruct ok; [|done].
    unfold bind at 1. unfold log at 1, modify at 1.
    match goal with |- context [finish_gmail _ _ _ _ _ _ _ ?rs ?c2] => pose proof (finish_gmail_spec configPath o rs c2 r H1) as Hf end.
    destruct (finish_gmail _ _ _ _ _ _ _ _ _) as [res c']. destruct Hf as [Hf Hs]; [| |].
    + apply set_rule_ok; [done|]. destruct (trim k) as [|a t]; [done|]. done.
    + apply set_rule_nonempty.
    + assert (Hread : container_reads (vlt (inner c')) (gmail_value o (Some k) r)).
      { eapply container_reads_ext; [|exact Hf]. intros s. cbv beta. rewrite last_value_set, gmail_rules_value. by destruct s. }
      cbv zeta. destruct res as [out|e]; [rewrite Hs|right]; exists key; by rewrite Et.
  - match goal with |- context [finish_gmail _ _ _ _ _ _ _ ?rs ?c2] => pose proof (finish_gmail_spec configPath o rs c2 r H1 Hg) as Hf end.
    destruct (finish_gmail _ _ _ _ _ _ _ _ _) as [res c']. destruct Hf as [Hf Hs]; [apply set_rule_nonempty|].
    assert (Hread : container_reads (vlt (inner c')) (gmail_value o None r)).
    { eapply container_reads_ext; [|exact Hf]. intros s. apply gmail_rules_value. }
    cbv zeta. destruct res as [out|e]; [rewrite Hs|right]; exists key; by rewrite Et.
Qed.
End Proofs.

(** ** Examples *)

Definition new_setup : console setup_world := Console (Setup new_vault None (Store (Fs ∅ ∅) Missing)) [] [].

Definition json_config (txt : string) : result jvalue := match json_parse txt with Some v => Ok v | None => Err "YAML" end.

Lemma telegram_setup_read_witness :
  let '(res, c') := setupTelegramCommand toy_seal toy_unseal toy_random false json_config (json_text 0) "c.yaml" "123:abc" None new_setup in
  res = Ok (Outcome true "Telegram channel configured") ∧
  ((∃ e, res = Err e ∧ c' = new_setup) ∨
   container_reads toy_unseal (vlt (inner c'))
     (λ s, if decide (s = TelegramBotToken) then Some "123:abc" else last_value (slot_name s) [])).
Proof.
  pose proof (telegram_setup_read toy_seal toy_unseal toy_random false json_config (json_text 0) "c.yaml" "123:abc" None
    new_setup EMPTY new_vault_holds ltac:(done)) as Hs.
  assert (Hr : (setupTelegramCommand toy_seal toy_unseal toy_random false json_config (json_text 0) "c.yaml" "123:abc" None new_setup).1
    = Ok (Outcome true "Telegram channel configured")) by (vm_compute; reflexivity).
  destruct (setupTelegramCommand _ _ _ _ _ _ _ _ _ _) as [res c']. split; [exact Hr|exact Hs].
Defined.

Definition example_gmail : GmailOptions :=
  Gmail "me@example.com" "id" "the-client-secret" "token" None None None (Some "imap") None.

Abbreviation toy_gmail o c :=
  (setupGmailCommand toy_seal toy_unseal toy_random false json_config (json_text 0) (λ _, Err "ENOENT") "c.yaml" o c).

Lemma gmail_setup_read_witness :
  let '(res, c') := toy_gmail example_gmail new_setup in
  res = Ok (Outcome true "Gmail channel configured") ∧
  match res with
  | Ok out => if succeeded out then ∃ key, service_account_key (λ _, Err "ENOENT") example_gmail = Ok key ∧
                container_reads toy_unseal (vlt (inner c')) (gmail_value example_gmail (truthy_text key) EMPTY)
              else holds toy_unseal None (vlt (inner c')) EMPTY
  | Err _ => True
  end.
Proof.
  pose proof (gmail_setup_read toy_seal toy_unseal toy_random false json_config (json_text 0) (λ _, Err "ENOENT") "c.yaml"
    example_gmail new_setup EMPTY new_vault_holds ltac:(by repeat split)) as Hs.
  assert (Hr : (toy_gmail example_gmail new_setup).1 = Ok (Outcome true "Gmail channel configured")) by (vm_compute; reflexivity).
  destruct (toy_gmail example_gmail new_setup) as [res c']. split; [exact Hr|].
  cbn in Hr. subst res. exact Hs.
Defined.

(** The secret of the OAuth client is in the configuration file. *)
Example client_secret_in_config :
  includes "the-client-secret" <$> config (inner (toy_gmail example_gmail new_setup).2) = Some true.
Proof. vm_compute. reflexivity. Qed.

(** A list of users of which none is a number allows every user. *)
Example no_number_allows_all : allowed_users (λ _, None) (Some "@alice") = Some [].
Proof. reflexivity. Qed.
