(* ===== verification/UserManager.v ===== *)
(** * The users of an installation

    [src/admin/user-manager.ts] and [src/admin/service-generator.ts] over the calls of
    [HostOs].  Each of the commands is the whole of its method, in its order and with its
    [try] blocks; what they print is left out.  The clock is an argument: [now] is
    [new Date().toISOString()]. *)

From Stdlib Require Import Ascii.
From stdpp Require Import gmap pretty.
From S2P Require Import Prelude JsMap JsString JsNumber JsParse HostFs Command HostOs PortRegistry.
Local Open Scope list_scope.
Local Open Scope string_scope.
Local Open Scope fh_scope.

(** ** Texts and paths *)

Definition newline : string := String "010" "".
Definition text_lines (l : list string) : string := String.concat newline l.

(** [path.join(dir, rel)] for an absolute [dir]. *)
Definition join (dir rel : string) : string := "/" ++ rel_path (path_join [] (dir ++ "/" ++ rel)).

Definition joins (dir : string) (l : list string) : string := foldl join dir l.

(** [s.replace(/[:.]/g, '-')] *)
Fixpoint dashes (s : string) : string :=
  match s with
  | String c s => String (if bool_decide (c = ":"%char ∨ c = "."%char) then "-"%char else c) (dashes s)
  | EmptyString => ""
  end.

(** ** Names *)

Definition LINUX_USER_PREFIX : string := "flowhelm-".
Definition SUB_ID_RANGE : Z := 65536.
Definition DEFAULT_ARCHIVE_DIR : string := "/var/backup/flowhelm".
Definition DEFAULT_BINARY_PATH : string := "/usr/bin/flowhelm".
Definition DEFAULT_MAX_AGENTS : spec_float := double 5.

Definition linuxUser (name : string) : string := LINUX_USER_PREFIX ++ name.
Definition homeDir (name : string) : string := "/home/" ++ linuxUser name.

Definition lower_letter (c : ascii) : bool :=
  let n := nat_of_ascii c in (97 <=? n)%nat && (n <=? 122)%nat.
Definition name_char (c : ascii) : bool :=
  lower_letter c || (let n := nat_of_ascii c in (48 <=? n)%nat && (n <=? 57)%nat) ||
  bool_decide (c = "_"%char ∨ c = "-"%char).

(** [/^[a-z][a-z0-9_-]*$/] *)
Definition name_pattern (name : string) : bool :=
  match name with
  | String c s => lower_letter c && forallb name_char (String.list_ascii_of_string s)
  | EmptyString => false
  end.

Definition validateName (name : string) : option string :=
  if negb (str_truthy name) then Some "Username cannot be empty"
  else if (24 <? String.length name)%nat then Some "Username must be 24 characters or fewer"
  else if negb (name_pattern name) then
    Some "Username must start with a lowercase letter and contain only a-z, 0-9, _, -"
  else if bool_decide (name = "admin" ∨ name = "root") then Some ("Reserved username: " ++ name)
  else None.

(** ** The unit of systemd *)

Record ServiceGeneratorOptions := UnitOptions {
  unit_username : string;
  unit_binaryPath : option string;
  unit_homeDir : string;
  unit_ramLimit : option string;
  unit_cpuLimit : option spec_float;
  unit_agentRuntime : option string }.

Record ServiceUnit := Unit { unitPath : string; content : string; serviceName : string }.

Definition unit_dir (home : string) : string := joins home [".config"; "systemd"; "user"].
Definition unit_file (home : string) : string := join (unit_dir home) "flowhelm.service".

Definition generateServiceUnit (o : ServiceGeneratorOptions) : ServiceUnit :=
  let binaryPath := default DEFAULT_BINARY_PATH (unit_binaryPath o) in
  let configDir := join (unit_homeDir o) ".flowhelm" in
  let envLines := app ["Environment=HOME=" ++ unit_homeDir o;
                   "Environment=FLOWHELM_CONFIG_DIR=" ++ configDir;
                   "Environment=NODE_ENV=production"]
    match unit_agentRuntime o with
    | Some r => if str_truthy r then ["Environment=FLOWHELM_AGENT_RUNTIME=" ++ r] else []
    | None => []
    end in
  Unit (unit_file (unit_homeDir o)) (text_lines [
    "# FlowHelm orchestrator service for " ++ unit_username o;
    "# Generated by flowhelm admin add-user. Do not edit manually.";
    "#";
    "# Enable:  systemctl --user enable flowhelm.service";
    "# Start:   systemctl --user start flowhelm.service";
    "# Status:  systemctl --user status flowhelm.service";
    "# Logs:    journalctl --user -u flowhelm.service -f";
    "";
    "[Unit]";
    "Description=FlowHelm AI Agent Orchestrator";
    "After=network-online.target";
    "Wants=network-online.target";
    "";
    "[Service]";
    "Type=simple";
    "ExecStart=" ++ binaryPath ++ " start";
    "WorkingDirectory=" ++ unit_homeDir o;
    "Restart=always";
    "RestartSec=5";
    text_lines envLines;
    "";
    "# Graceful shutdown: send SIGTERM, wait 30s, then SIGKILL";
    "TimeoutStopSec=30";
    "KillMode=mixed";
    "KillSignal=SIGTERM";
    "";
    "# Logging";
    "StandardOutput=journal";
    "StandardError=journal";
    "SyslogIdentifier=flowhelm";
    "";
    "[Install]";
    "WantedBy=default.target";
    ""]) "flowhelm.service".

(** ** Sub-identifiers *)

(** A line [user:start:count] of [/etc/subuid]. *)
Definition sub_range (line : string) : option (Z * Z) :=
  match str_split ":" line with
  | _ :: start :: count :: _ =>
      match parseInt start, parseInt count with Some s, Some n => Some (s, n) | _, _ => None end
  | _ => None
  end.

Definition next_start (content : string) : Z :=
  foldl (λ maxEnd line, match sub_range line with Some (s, n) => Z.max maxEnd (s + n)%Z | None => maxEnd end)
    100000%Z (str_split "010" content).

Definition sub_id_line (user : string) (start : Z) : string :=
  user ++ ":" ++ pretty start ++ ":" ++ pretty SUB_ID_RANGE ++ newline.

Section Operations.
Context {W : Type} `{Host W}.

(** ** Files of the host *)

Definition installService (o : ServiceGeneratorOptions) : M W ServiceUnit :=
  let unit := generateServiceUnit o in
  run make_dirs (unit_dir (unit_homeDir o)); run write_file (unitPath unit) (content unit); ret unit.

(** An error of code [ENOENT] is swallowed: the messages of Node begin with the code. *)
Definition removeService (home : string) : M W unit :=
  try_catch (remove_file (unit_file home))
    (λ e, if starts_with "ENOENT" e then ret tt else throw e).

Definition readService (home : string) : M W (option string) :=
  try_catch (do t <- read_file (unit_file home); ret (Some t)) (λ _, ret None).

Definition appendFile (path text : string) : M W unit :=
  do existing <- try_catch (read_file path) (λ _, ret "");
  write_file path (existing ++ text).

Definition findNextSubIdStart : M W Z :=
  try_catch (do content <- read_file "/etc/subuid"; ret (next_start content)) (λ _, ret 100000%Z).

Definition allocateSubIds (user : string) : M W unit :=
  do nextStart <- findNextSubIdStart;
  run appendFile "/etc/subuid" (sub_id_line user nextStart);
  appendFile "/etc/subgid" (sub_id_line user nextStart).

Definition runAsUser (user command : string) (args : list string) : M W string :=
  sh "sudo" ("-u" :: user :: command :: args) (Some ("/home/" ++ user)).

Definition chown (path user : string) : M W string :=
  do dir <- is_directory path;
  let owner := user ++ ":" ++ user in
  if (dir : bool) then sh "chown" ["-R"; owner; path] None else sh "chown" [owner; path] None.

Definition userExists (name : string) : M W bool := succeeds (sh "id" [linuxUser name] None).

(** ** The registry's methods *)

Definition port_allocate (name now : string) : M W PortAllocation :=
  do data <- reg_read;
  match allocate name now data with
  | Ok (a, data') => run reg_write data'; ret a
  | Err e => throw e
  end.

Definition port_free (name : string) : M W PortAllocation :=
  do data <- reg_read;
  match free name data with
  | Ok (a, data') => run reg_write data'; ret a
  | Err e => throw e
  end.

Definition port_get (name : string) : M W (option PortAllocation) :=
  do data <- reg_read; ret (get name data).

Definition port_list_all : M W (list PortAllocation) := do data <- reg_read; ret (allocations data).

(** ** Adding a user *)

Record AddUserOptions := AddOptions {
  add_name : string;
  sshKeyPath : string;
  ramLimit : option string;
  cpuLimit : option spec_float;
  maxAgents : option spec_float;
  agentRuntime : option string }.

Record UserManagerResult := Outcome { success : bool; message : string }.

(** [stringify] of the package [yaml], of the runtime and the number of agents of the
    initial configuration. *)
Context (stringifyYaml : string → spec_float → string).

Record UserManager := Manager { archiveDir : string; binaryPath : string }.

Definition useradd_options (home : string) : list string :=
  ["--create-home"; "--shell"; "/bin/bash"; "--home-dir"; home].

Definition ssh_access (home user key : string) : M W unit :=
  let sshDir := join home ".ssh" in
  run make_dirs sshDir;
  run write_file (join sshDir "authorized_keys") (key ++ newline);
  run chown sshDir user;
  run chown (join sshDir "authorized_keys") user;
  ret tt.

Definition initial_config (o : AddUserOptions) : string :=
  stringifyYaml (default "cli" (agentRuntime o)) (default DEFAULT_MAX_AGENTS (maxAgents o)).

Definition config_files (home user : string) (o : AddUserOptions) : M W unit :=
  let configDir := join home ".flowhelm" in
  let secretsDir := join configDir "secrets" in
  run make_dirs secretsDir;
  run chown configDir user;
  run chown secretsDir user;
  let configPath := join configDir "config.yaml" in
  run write_file configPath (initial_config o);
  run chown configPath user;
  ret tt.

(** The steps of [addUser] from the creation of the user to the registry. *)
Definition provision (o : AddUserOptions) (key : string) : M W unit :=
  let user := linuxUser (add_name o) in
  let home := homeDir (add_name o) in
  run allocateSubIds user;
  run sh "loginctl" ["enable-linger"; user] None;
  run ssh_access home user key;
  run config_files home user o;
  run runAsUser user "podman" ["system"; "migrate"];
  run runAsUser user "podman" ["network"; "create"; "flowhelm-network-" ++ add_name o];
  ret tt.

Definition unit_options (m : UserManager) (o : AddUserOptions) : ServiceGeneratorOptions :=
  UnitOptions (linuxUser (add_name o)) (Some (binaryPath m)) (homeDir (add_name o))
    (Some (default "4G" (ramLimit o))) (Some (default (double 2) (cpuLimit o))) (agentRuntime o).

(** What follows the reading of the key. *)
Definition create_user (m : UserManager) (o : AddUserOptions) (key now : string) : M W unit :=
  let user := linuxUser (add_name o) in
  let home := homeDir (add_name o) in
  run sh "useradd" (useradd_options home ++ [user])%list None;
  run provision o key;
  run port_allocate (add_name o) now;
  run installService (unit_options m o);
  run chown (join home ".config") user;
  ret tt.

Definition quoted (name : string) : string := quote ++ name ++ quote.

Definition addUser (m : UserManager) (o : AddUserOptions) (now : string) : M W UserManagerResult :=
  let name := add_name o in
  match validateName name with
  | Some nameError => ret (Outcome false nameError)
  | None =>
      do exists_ <- userExists name;
      if (exists_ : bool) then ret (Outcome false ("User " ++ quoted name ++ " already exists"))
      else
        do key <- try_catch (do k <- read_file (sshKeyPath o); ret (Some (trim k))) (λ _, ret None);
        match key with
        | None => ret (Outcome false ("Cannot read SSH key: " ++ sshKeyPath o))
        | Some key =>
            try_catch
              (run create_user m o key now; ret (Outcome true ("User " ++ quoted name ++ " created")))
              (λ msg, ret (Outcome false ("Failed to create user " ++ quoted name ++ ": " ++ msg)))
        end
  end.

(** ** Removing a user *)

Record RemoveUserOptions := RemoveOptions { rm_name : string; archive : bool; force : bool }.

Definition systemctl_user (user verb : string) : M W string :=
  sh "systemctl" ["--user"; "--machine"; user ++ "@.host"; verb; "flowhelm.service"] None.

Definition archive_home (m : UserManager) (name now : string) : M W unit :=
  run make_dirs (archiveDir m);
  let archivePath := join (archiveDir m) (name ++ "-" ++ dashes now ++ ".tar.gz") in
  run sh "tar" ["czf"; archivePath; "-C"; "/home"; linuxUser name] None;
  ret tt.

(** The steps up to the release of the ports. *)
Definition retire (m : UserManager) (o : RemoveUserOptions) (now : string) : M W unit :=
  let name := rm_name o in
  let user := linuxUser name in
  run attempt (runAsUser user "podman" ["stop"; "--all"; "--time"; "10"]);
  run attempt (systemctl_user user "stop");
  run attempt (systemctl_user user "disable");
  run (if archive o then archive_home m name now else ret tt);
  run attempt (runAsUser user "podman" ["rm"; "--all"; "--force"]);
  run attempt (runAsUser user "podman" ["network"; "rm"; "flowhelm-network-" ++ name]);
  removeService (homeDir name).

Definition delete_user (m : UserManager) (o : RemoveUserOptions) (now : string) : M W unit :=
  let name := rm_name o in
  let user := linuxUser name in
  run retire m o now;
  run attempt (port_free name);
  run attempt (sh "loginctl" ["disable-linger"; user] None);
  run sh "userdel" (["--remove"] ++ [user])%list%list None;
  ret tt.

Definition removeUser (m : UserManager) (o : RemoveUserOptions) (now : string) : M W UserManagerResult :=
  let name := rm_name o in
  if negb (archive o) && negb (force o) then
    ret (Outcome false "Specify --archive to back up data or --force to remove without backup")
  else
    do exists_ <- userExists name;
    if negb exists_ then ret (Outcome false ("User " ++ quoted name ++ " does not exist"))
    else try_catch
      (run delete_user m o now; ret (Outcome true ("User " ++ quoted name ++ " removed")))
      (λ msg, ret (Outcome false ("Failed to remove user " ++ quoted name ++ ": " ++ msg))).

(** ** Reports *)

Record UserInfo := Info {
  info_user : string;
  info_linux : string;
  info_home : string;
  info_ports : option PortAllocation;
  hasService : bool }.

Definition describe (name : string) (ports : option PortAllocation) : M W UserInfo :=
  do has <- succeeds (access_file (unit_file (homeDir name)));
  ret (Info name (linuxUser name) (homeDir name) ports has).

Definition listUsers : M W (list UserInfo) :=
  do l <- port_list_all;
  each_m (λ a, describe (username a) (Some a)) l.

Definition getUserInfo (name : string) : M W (option UserInfo) :=
  do exists_ <- userExists name;
  if negb exists_ then ret None
  else
    do ports <- port_get name;
    do info <- describe name ports;
    ret (Some info).
End Operations.
