(* ===== verification/UserRuns.v ===== *)
(** * What the commands of the user manager keep

    Sub-identifiers do not overlap; the registry lists users that exist; the outcomes of
    an addition; a removal undoes an addition. *)

From Stdlib Require Import Ascii.
From stdpp Require Import gmap pretty.
From S2P Require Import Prelude JsMap JsString JsNumber JsParse HostFs Command HostOs PortRegistry UserManager.
Local Open Scope list_scope.
Local Open Scope string_scope.
Local Open Scope fh_scope.

(** ** Sub-identifiers *)

Definition sub_ranges (text : string) : list (Z * Z) := omap sub_range (str_split "010" text).

Definition apart (a b : Z * Z) : Prop := (a.1 + a.2 ≤ b.1 ∨ b.1 + b.2 ≤ a.1)%Z.

(** The text is empty or ends with a line feed. *)
Definition whole_lines (text : string) : Prop := text = "" ∨ ∃ t, text = t ++ newline.

Definition next_max (maxEnd : Z) (line : string) : Z :=
  match sub_range line with Some (s, n) => Z.max maxEnd (s + n)%Z | None => maxEnd end.

Lemma next_max_bounds lines start :
  (start ≤ foldl next_max start lines)%Z ∧
  Forall (λ r, r.1 + r.2 ≤ foldl next_max start lines)%Z (omap sub_range lines).
Proof.
  revert start. induction lines as [|l lines IH]; intros start; simpl; [split; [lia|constructor]|].
  destruct (IH (next_max start l)) as [Hs Hr].
  assert (Hm : (start ≤ next_max start l)%Z ∧ match sub_range l with
    Some (s, n) => (s + n ≤ next_max start l)%Z | None => True end).
  { unfold next_max. destruct (sub_range l) as [[s n]|]; split; lia. }
  split; [lia|]. destruct (sub_range l) as [[s n]|]; [|done]. constructor; [simpl; lia|done].
Qed.

Lemma next_start_bounds text :
  (100000 ≤ next_start text)%Z ∧ Forall (λ r, r.1 + r.2 ≤ next_start text)%Z (sub_ranges text).
Proof. apply next_max_bounds. Qed.

Lemma whole_lines_app text user start : whole_lines text → whole_lines (text ++ sub_id_line user start).
Proof.
  intros _. right. exists (text ++ user ++ ":" ++ pretty start ++ ":" ++ pretty SUB_ID_RANGE).
  unfold sub_id_line. by rewrite !string_app_assoc.
Qed.

Lemma str_split_newline t r :
  str_split "010" (t ++ newline ++ r) = app (str_split "010" t) (str_split "010" r).
Proof.
  unfold str_split. generalize "" at 1 2. induction t as [|c t IH]; intros acc.
  - change (str_split_aux "010" (String "010" r) acc = acc :: str_split_aux "010" r ""). simpl.
    by destruct (decide ("010"%char = "010"%char)).
  - rewrite string_app_cons. simpl. case_decide; by rewrite IH.
Qed.

Lemma sub_range_line user (start : Z) : lacks ":" user → (0 ≤ start)%Z →
  sub_range (user ++ ":" ++ pretty start ++ ":" ++ pretty SUB_ID_RANGE) = Some (start, SUB_ID_RANGE).
Proof.
  intros Hu Hs. unfold sub_range.
  change (user ++ ":" ++ pretty start ++ ":" ++ pretty SUB_ID_RANGE)
    with (String.concat ":" [user; pretty start; pretty SUB_ID_RANGE]).
  assert (Hp : ∀ z : Z, lacks ":" (pretty z)) by (intros z; by apply pretty_lacks).
  rewrite str_split_concat by (repeat constructor; auto). by rewrite !parseInt_pretty.
Qed.

Lemma lacks_newline_line user (start : Z) : lacks "010" user →
  lacks "010" (user ++ ":" ++ pretty start ++ ":" ++ pretty SUB_ID_RANGE).
Proof.
  intros Hu. rewrite !lacks_app. assert (Hp : ∀ z : Z, lacks "010" (pretty z)) by (intros z; by apply pretty_lacks).
  assert (Hc : lacks "010" ":") by (apply lacks_cons; split; [done|apply lacks_nil]). auto.
Qed.

Lemma sub_ranges_line text user (start : Z) :
  whole_lines text → lacks ":" user → lacks "010" user → (0 ≤ start)%Z →
  sub_ranges (text ++ sub_id_line user start) = app (sub_ranges text) [(start, SUB_ID_RANGE)].
Proof.
  intros Ht Hc Hn Hs. unfold sub_ranges. set (line := user ++ ":" ++ pretty start ++ ":" ++ pretty SUB_ID_RANGE).
  assert (El : sub_id_line user start = line ++ newline ++ "").
  { unfold line, sub_id_line. rewrite string_app_nil_r. by rewrite !string_app_assoc. }
  assert (Es : omap sub_range (str_split "010" (line ++ newline ++ "")) = [(start, SUB_ID_RANGE)]).
  { rewrite str_split_newline. rewrite omap_app. unfold str_split at 1.
    rewrite str_split_aux_lacks by (by apply lacks_newline_line). simpl.
    change ("" ++ line) with line. unfold line. by rewrite sub_range_line. }
  rewrite El. destruct Ht as [->|[t ->]]; [exact Es|].
  rewrite string_app_assoc, str_split_newline, omap_app, Es. f_equal.
  rewrite <- (string_app_nil_r newline), str_split_newline, omap_app.
  change (omap sub_range (str_split "010" "")) with (@nil (Z * Z)). by rewrite app_nil_r.
Qed.

(** A name that [validateName] accepts. *)
Lemma name_pattern_chars name : name_pattern name = true →
  ∀ c, c ∈ String.list_ascii_of_string name → name_char c = true.
Proof.
  destruct name as [|c s]; [done|]. simpl. intros [Hc Hs]%andb_prop d [->|Hd]%elem_of_cons.
  - unfold name_char. by rewrite Hc.
  - rewrite forallb_forall in Hs. by apply Hs, list_elem_of_In.
Qed.

Lemma validateName_chars name : validateName name = None → name_pattern name = true.
Proof. unfold validateName. repeat case_match; try done. by bool_cases. Qed.

Lemma linuxUser_lacks name c : validateName name = None → c = ":"%char ∨ c = "010"%char →
  lacks c (linuxUser name).
Proof.
  intros Hv Hc. unfold linuxUser, lacks. rewrite list_of_string_app. intros [Hin|Hin]%elem_of_app.
  - destruct Hc; subst; vm_compute in Hin; set_solver.
  - apply (name_pattern_chars name) in Hin; [|by apply validateName_chars]. by destruct Hc; subst.
Qed.

Section SubIds.
Context {W : Type} `{HostLaws W} (Hread : sub_ids_readable W).

Abbreviation text_of w p := (default "" (host_text w p)).

Lemma read_sub_ids p w : p ∈ sub_id_files →
  wp (try_catch (read_file p) (λ _, ret "")) w (λ r w', r = Ok (text_of w p) ∧ host_text w' = host_text w).
Proof.
  intros Hp. apply wp_try. pose proof (read_file_text p w) as Hr. pose proof (Hread w p) as Hd.
  unfold wp. destruct (read_file p w) as [[t|e] w'] eqn:E; simpl in *.
  - destruct Hr as [-> ->]. done.
  - destruct Hr as [-> _]. split; [|done]. destruct (host_text w p) as [t|] eqn:Et; [|done].
    by specialize (Hd t Hp eq_refl).
Qed.

Lemma next_start_read w :
  wp findNextSubIdStart w (λ r w', r = Ok (next_start (text_of w "/etc/subuid")) ∧ host_text w' = host_text w).
Proof.
  apply wp_try, wp_bind. pose proof (read_file_text "/etc/subuid" w) as Hr.
  pose proof (Hread w "/etc/subuid") as Hd. unfold wp.
  destruct (read_file "/etc/subuid" w) as [[t|e] w'] eqn:E; simpl in *.
  - destruct Hr as [-> ->]. done.
  - destruct Hr as [-> _]. split; [|done]. destruct (host_text w "/etc/subuid") as [t|] eqn:Et; [|done].
    assert (Hp : "/etc/subuid" ∈ sub_id_files) by left. by specialize (Hd t Hp eq_refl).
Qed.

Lemma append_spec p text w : p ∈ sub_id_files →
  wp (appendFile p text) w (λ r w', (is_ok r = true → host_text w' p = Some (text_of w p ++ text)) ∧
    ∀ q, q ≠ p → host_text w' q = host_text w q).
Proof.
  intros Hp. apply wp_bind. eapply wp_mono; [by apply read_sub_ids|]. intros r w' [-> Et].
  pose proof (write_file_text p (text_of w p ++ text) w') as Hw. unfold wp.
  destruct (write_file p (text_of w p ++ text) w') as [r w'']; simpl. by rewrite Et in Hw.
Qed.

Lemma allocate_sub_ids_spec user w :
  wp (allocateSubIds user) w (λ r w', is_ok r = true →
    let line := sub_id_line user (next_start (text_of w "/etc/subuid")) in
    host_text w' "/etc/subuid" = Some (text_of w "/etc/subuid" ++ line) ∧
    host_text w' "/etc/subgid" = Some (text_of w "/etc/subgid" ++ line)).
Proof.
  apply wp_bind. eapply wp_mono; [apply next_start_read|]. intros r w1 [-> E1].
  apply wp_bind. eapply wp_mono; [apply append_spec; left|]. intros [[]|e] w2; [|done].
  rewrite E1. intros [Hu Ho].
  eapply wp_mono; [apply append_spec; right; left|]. intros r w3 [Hg Ho'] Hok.
  specialize (Hg Hok). rewrite (Ho "/etc/subgid") in Hg by done.
  split; [|done]. rewrite Ho' by done. by apply Hu.
Qed.

(** The ranges that an allocation after [old] may have appended. *)
Record fresh_ranges (old new : list (Z * Z)) : Prop := {
  fresh_size : Forall (λ r, 100000 ≤ r.1 ∧ r.2 = SUB_ID_RANGE)%Z new;
  fresh_apart : ∀ i j a b, (i < j)%nat → (length old ≤ j)%nat →
    app old new !! i = Some a → app old new !! j = Some b → apart a b }.

Lemma fresh_range_snoc old new start : fresh_ranges old new → (100000 ≤ start)%Z →
  Forall (λ r, r.1 + r.2 ≤ start)%Z (app old new) → fresh_ranges old (app new [(start, SUB_ID_RANGE)]).
Proof.
  intros [Hs Ha] Hlow Hall. split; [apply Forall_app; split; [done|by repeat constructor]|].
  intros i j a b Hij Hj Hi Hjj. rewrite app_assoc in Hi, Hjj.
  assert (Hlen : (j < length (app old new))%nat ∨ j = length (app old new)).
  { apply lookup_lt_Some in Hjj. rewrite length_app in Hjj. simpl in Hjj. lia. }
  destruct Hlen as [Hlt|Hlt]; [|subst j].
  - rewrite lookup_app_l in Hi, Hjj by lia. exact (Ha i j a b Hij Hj Hi Hjj).
  - rewrite lookup_app_l in Hi by done. rewrite list_lookup_middle in Hjj by done. injection Hjj as <-.
    left. simpl. rewrite Forall_lookup in Hall. by apply (Hall i).
Qed.

(** The users of a list get ranges one after the other. *)
Definition allocate_all (names : list string) : M W (list unit) :=
  each_m (λ name, allocateSubIds (linuxUser name)) names.

Lemma allocate_all_spec names w :
  Forall (λ name, validateName name = None) names → whole_lines (text_of w "/etc/subuid") →
  wp (allocate_all names) w (λ r w', is_ok r = true →
    ∃ new, sub_ranges (text_of w' "/etc/subuid") = app (sub_ranges (text_of w "/etc/subuid")) new ∧
      length new = length names ∧ fresh_ranges (sub_ranges (text_of w "/etc/subuid")) new).
Proof.
  intros Hv Hw. set (old := sub_ranges (text_of w "/etc/subuid")).
  assert (Hgen : ∀ names w1 new1, Forall (λ name, validateName name = None) names →
    whole_lines (text_of w1 "/etc/subuid") → sub_ranges (text_of w1 "/etc/subuid") = app old new1 →
    fresh_ranges old new1 → wp (allocate_all names) w1 (λ r w', is_ok r = true →
      ∃ new, sub_ranges (text_of w' "/etc/subuid") = app old new ∧
        length new = (length new1 + length names)%nat ∧ fresh_ranges old new)).
  { clear Hv Hw names. intros names. induction names as [|name names IH]; intros w1 new1 Hv Hw Er Hf.
    - apply wp_ret. intros _. exists new1. split; [done|]. split; [simpl; lia|done].
    - apply Forall_cons in Hv as [Hn Hv]. apply wp_bind. eapply wp_mono; [apply allocate_sub_ids_spec|].
      intros [[]|e] w2 Hs; [|done]. destruct (Hs eq_refl) as [Es _]. clear Hs.
      pose proof (next_start_bounds (text_of w1 "/etc/subuid")) as [Hlow Hall]. rewrite Er in Hall.
      apply wp_bind. eapply wp_mono; [apply (IH w2 (app new1 [(next_start (text_of w1 "/etc/subuid"), SUB_ID_RANGE)]))|].
      + done.
      + rewrite Es. simpl. by apply whole_lines_app.
      + rewrite Es. simpl. rewrite sub_ranges_line, Er; [by rewrite app_assoc|done| | |lia];
          (apply linuxUser_lacks; [done|auto]).
      + by apply fresh_range_snoc.
      + intros [l|e] w3 Hl; [|done]. apply wp_ret. intros _. destruct (Hl eq_refl) as (new & E & Hlen & Hfr).
        exists new. split; [done|]. split; [|done]. rewrite Hlen, length_app. simpl. lia. }
  eapply wp_mono; [apply (Hgen names w []); [done|done|by rewrite app_nil_r|]|].
  - split; [constructor|]. intros i j a b Hij Hj _ Hb. rewrite app_nil_r in Hb.
    apply lookup_lt_Some in Hb. lia.
  - intros r w' Hr Hok. apply Hr in Hok as (new & ? & Hlen & ?). by exists new.
Qed.

(** The ranges of sub-identifiers handed out one after the other for valid names have
    65536 elements, start at 100000 or later, and do not overlap each other or any range
    that the file had. *)
Theorem sub_ids_apart names w w' l :
  Forall (λ name, validateName name = None) names → whole_lines (text_of w "/etc/subuid") →
  allocate_all names w = (Ok l, w') →
  let old := sub_ranges (text_of w "/etc/subuid") in
  let final := sub_ranges (text_of w' "/etc/subuid") in
  length final = (length old + length names)%nat ∧
  (∀ i a, (length old ≤ i)%nat → final !! i = Some a → (100000 ≤ a.1)%Z ∧ a.2 = SUB_ID_RANGE) ∧
  (∀ i j a b, (i < j)%nat → (length old ≤ j)%nat → final !! i = Some a → final !! j = Some b → apart a b).
Proof.
  intros Hv Hw E old final. pose proof (allocate_all_spec names w Hv Hw) as Hs. unfold wp in Hs.
  rewrite E in Hs. destruct (Hs eq_refl) as (new & Ef & Hlen & [Hsize Hap]). unfold final.
  simpl in Ef. rewrite Ef. simpl in *. split; [rewrite length_app; unfold old; lia|]. split; [|done].
  intros i a Hi Ha. rewrite lookup_app_r in Ha by done. rewrite Forall_lookup in Hsize.
  by apply (Hsize (i - length old)).
Qed.
End SubIds.

(** ** The registry lists users that exist *)

#[export] Instance linuxUser_inj : Inj (=) (=) linuxUser.
Proof. intros a b. unfold linuxUser. apply string_app_inj. Qed.

(** Quiet commands, and commands whose errors are those of their calls, from their parts. *)
Ltac quiet_parts lemmas :=
  repeat first
    [ lemmas tt | apply quiet_attempt | apply quiet_bind; [|intros] | progress intros | solve [auto with host]
    | by apply quiet_sh ].

Ltac blames_parts lemmas :=
  repeat first
    [ lemmas tt | apply blames_attempt | apply blames_caught | apply blames_bind; [|intros] | progress intros
    | solve [auto with calls] | solve [apply blames_sh; set_solver] ].

(** The commands of the host that an addition and a removal need. *)
Definition creating : list string := ["useradd"; "loginctl"; "chown"; "sudo"].
Definition deleting : list string := ["tar"; "userdel"].

Section Registered.
Context {W : Type} `{HostLaws W} (stringifyYaml : string → spec_float → string).

Lemma allocate_sub_ids_quiet user : quiet (W := W) (allocateSubIds user).
Proof.
  unfold allocateSubIds, findNextSubIdStart, appendFile.
  quiet_parts ltac:(fun _ => apply quiet_try; [|intros]).
Qed.

Lemma chown_quiet p u : quiet (W := W) (chown p u).
Proof. unfold chown. apply quiet_bind; [auto with host|]. intros []; by apply quiet_sh. Qed.

Lemma run_as_quiet user cmd args : quiet (W := W) (runAsUser user cmd args).
Proof. by apply quiet_sh. Qed.

Lemma provision_quiet o key : quiet (W := W) (provision stringifyYaml o key).
Proof.
  unfold provision, ssh_access, config_files.
  quiet_parts ltac:(fun _ => first [apply allocate_sub_ids_quiet | apply chown_quiet | apply run_as_quiet]).
Qed.

Lemma install_quiet o : quiet (W := W) (installService o).
Proof. unfold installService. quiet_parts ltac:(fun _ => fail). Qed.

Lemma retire_quiet m o now : quiet (W := W) (retire m o now).
Proof.
  unfold retire, archive_home, removeService.
  quiet_parts ltac:(fun _ => first [apply run_as_quiet | apply quiet_try; [|intros] | case_match]).
Qed.

(** *** Whose errors are reported *)

Lemma chown_blames p u : blames (W := W) creating (chown p u).
Proof. unfold chown. apply blames_bind; [auto with calls|]. intros []; apply blames_sh; set_solver. Qed.

Lemma provision_blames o key : blames (W := W) creating (provision stringifyYaml o key).
Proof.
  unfold provision, ssh_access, config_files, allocateSubIds, appendFile, runAsUser, findNextSubIdStart.
  blames_parts ltac:(fun _ => first [apply chown_blames | apply moves_bind; [|intros]]).
Qed.

Lemma remove_file_blames (p : string) :
  blames (W := W) deleting (try_catch (remove_file p) (λ e, if starts_with "ENOENT" e then ret tt else throw e)).
Proof.
  destruct (blames_rm (W := W) deleting p) as [Hm He]. split.
  - apply moves_try; [done|]. intros e. case_match; auto with calls.
  - intros w e. specialize (He w). unfold try_catch. destruct (remove_file p w) as [[[]|e'] w'] eqn:E; [done|].
    destruct (starts_with "ENOENT" e'); [done|]. intros [= ->]. by apply He.
Qed.

Lemma retire_blames m o now : blames (W := W) deleting (retire m o now).
Proof.
  unfold retire, archive_home, removeService, runAsUser, systemctl_user.
  blames_parts ltac:(fun _ => first [apply remove_file_blames | case_match]).
Qed.

(** *** The single calls *)

Lemma user_exists_spec name w : wp (userExists name) w (λ r w', r = Ok (bool_decide (linuxUser name ∈ host_users w)) ∧
  host_users w' = host_users w ∧ host_registry w' = host_registry w ∧ reaches w w').
Proof.
  apply wp_try, wp_bind. pose proof (id_answers (linuxUser name) w) as Hi.
  assert (Hq : quiet (W := W) (sh "id" [linuxUser name] None)) by (by apply quiet_sh).
  specialize (Hq w). unfold wp. destruct (sh "id" _ None w) as [[t|e] w']; simpl in *.
  - split; [|done]. f_equal. symmetry. apply bool_decide_eq_true. naive_solver.
  - split; [|done]. f_equal. symmetry. apply bool_decide_eq_false. naive_solver.
Qed.

Lemma useradd_spec opts user w :
  wp (sh "useradd" (opts ++ [user])%list None) w (λ r w', host_registry w' = host_registry w ∧ reaches w w' ∧
    (host_users w' = {[user]} ∪ host_users w ∨ (is_ok r = false ∧ host_users w' = host_users w))).
Proof.
  pose proof (useradd_adds opts user w) as Hu. pose proof (sh_registry "useradd" (opts ++ [user])%list None w) as Hr.
  pose proof (rtc_once (R := call) w _ (call_sh w "useradd" (opts ++ [user])%list None)) as Hc.
  unfold wp. by destruct (sh "useradd" _ None w).
Qed.

Lemma userdel_spec opts user w :
  wp (sh "userdel" (opts ++ [user])%list None) w (λ r w', host_registry w' = host_registry w ∧ reaches w w' ∧
    (host_users w' = host_users w ∖ {[user]} ∨ (is_ok r = false ∧ host_users w' = host_users w))).
Proof.
  pose proof (userdel_removes opts user w) as Hu. pose proof (sh_registry "userdel" (opts ++ [user])%list None w) as Hr.
  pose proof (rtc_once (R := call) w _ (call_sh w "userdel" (opts ++ [user])%list None)) as Hc.
  unfold wp. by destruct (sh "userdel" _ None w).
Qed.

Lemma reg_write_spec d w :
  wp (reg_write d) w (λ r w', host_users w' = host_users w ∧ reaches w w' ∧
    (host_registry w' = Some d ∨
     ¬ registry_works w ∧ is_ok r = false ∧ (host_registry w' = host_registry w ∨ host_registry w' = None))).
Proof.
  split; [apply files_users|]. split; [apply rtc_once, call_reg_write|].
  destruct (reg_write_sets w d) as [?|[Hf Hr]]; [by left|right]. split; [|done]. intros Hw.
  destruct (Hw w (rtc_refl _ _)) as [_ Ho]. by rewrite Ho in Hf.
Qed.

(** The registry has the block of [name] from [allocate]. *)
Definition allocated (name now : string) (w w' : W) : Prop := ∃ a d d',
  host_registry w = Some d ∧ allocate name now d = Ok (a, d') ∧ host_registry w' = Some d'.

(** The registry has no block for [name]: it lists the name, or every block is taken. *)
Definition no_block (name : string) (w : W) : Prop := ∃ d, host_registry w = Some d ∧
  (name ∈ map username (allocations d) ∨
   (registry_ok d → ∀ k : nat, let base := (firstPort d + Z.of_nat k * portsPerUser d)%Z in
      base ∉ map basePort (allocations d) → (65535 < base + portsPerUser d - 1)%Z)).

Lemma allocate_refused name now d w e : host_registry w = Some d → allocate name now d = Err e → no_block name w.
Proof.
  intros Ed Ea. exists d. split; [done|]. destruct (decide (name ∈ map username (allocations d))) as [|Hn]; [by left|].
  right. intros Hok k base Hk. pose proof (allocate_spec name now d Hok) as Hs. rewrite Ea in Hs.
  destruct Hs as [?|Hs]; [done|]. apply (Hs base); [by exists k|done].
Qed.

Lemma port_allocate_spec name now w :
  wp (port_allocate name now) w (λ r w', host_users w' = host_users w ∧ reaches w w' ∧
    match r with
    | Ok a => allocated name now w w'
    | Err e => (call_failed creating w e ∨ no_block name w) ∧
        (host_registry w' = host_registry w ∨ allocated name now w w' ∨ ¬ registry_works w ∧ host_registry w' = None)
    end).
Proof.
  apply wp_bind. pose proof (quiet_reg_read (W := W) w) as (Eu & Er & Hr). pose proof (reg_read_gives w) as Hd.
  pose proof (proj2 (blames_reg_read (W := W) creating) w) as Hb.
  unfold wp at 1. destruct (reg_read w) as [[d|e] w1]; simpl in *;
    [|split; [done|]; split; [done|]; split; [left; by apply Hb|by left]].
  specialize (Hd d eq_refl). destruct (allocate name now d) as [[a d']|e] eqn:Ea.
  2: { split; [done|]. split; [done|]. split; [|by left]. right. by apply (allocate_refused name now d _ e). }
  apply wp_bind. pose proof (proj2 (blames_reg_write (W := W) creating d') w1) as Hb'. generalize (reg_write_spec d' w1).
  unfold wp at 1 2. destruct (reg_write d' w1) as [[[]|e] w2]; simpl in *; intros (Eu2 & Hr2 & Hw); rewrite Eu in Eu2.
  - apply wp_ret. split; [done|]. split; [by etrans|]. destruct Hw as [Hw|(_ & ? & _)]; [|done]. by exists a, d, d'.
  - split; [done|]. split; [by etrans|]. split; [left; apply (call_failed_later _ _ w1); [done|by apply Hb']|].
    destruct Hw as [Hw|(Hn & _ & [Hw|Hw])]; [right; left; by exists a, d, d'|left; congruence|].
    right; right. split; [|done]. intros Hk. by apply Hn, (registry_works_later w).
Qed.

(** *** An addition *)

Definition unchanged (w w' : W) : Prop := host_users w' = host_users w ∧ host_registry w' = host_registry w.

(** What follows the reading of the key: on failure nothing is changed, or the user is
    there and the registry is as before, has the block, or is damaged. *)
Definition creation (o : AddUserOptions) (now : string) (w : W) (r : result unit) (w' : W) : Prop :=
  let name := add_name o in
  let extended := host_users w' = {[linuxUser name]} ∪ host_users w in
  reaches w w' ∧
  match r with
  | Ok _ => extended ∧ allocated name now w w'
  | Err e => (call_failed creating w e ∨ no_block name w) ∧
      (unchanged w w' ∨ (extended ∧
        (host_registry w' = host_registry w ∨ allocated name now w w' ∨ ¬ registry_works w ∧ host_registry w' = None)))
  end.

Lemma create_user_spec m o key now w : wp (create_user stringifyYaml m o key now) w (creation o now w).
Proof.
  apply wp_bind. eapply wp_mono; [apply (wp_blames creating); [apply blames_sh; set_solver|apply useradd_spec]|].
  intros [x|e] w1 [(Er & Hr & Eu) Hb]; simpl in Eu.
  2: { split; [done|]. split; [left; by apply Hb|]. destruct Eu as [Eu|[_ Eu]]; [right; split; [done|by left]|by left]. }
  destruct Eu as [Eu|[? _]]; [|done]. apply wp_bind.
  eapply wp_mono; [apply (quiet_blames_wp creating); [apply provision_quiet|apply provision_blames]|].
  intros r w2 [(Eu2 & Er2 & Hr2) Hb2]. rewrite Eu in Eu2. rewrite Er in Er2.
  assert (Hr02 : reaches w w2) by by etrans.
  destruct r as [[]|e];
    [|split; [done|]; split; [left; by apply (call_failed_later _ _ w1), Hb2|right; split; [done|by left]]].
  apply wp_bind. eapply wp_mono; [apply port_allocate_spec|]. intros r w3 (Eu3 & Hr3 & Ha). rewrite Eu2 in Eu3.
  assert (Hr03 : reaches w w3) by by etrans.
  assert (Hal : allocated (add_name o) now w2 w3 → allocated (add_name o) now w w3)
    by (intros (a & d & d' & Hd & ?); exists a, d, d'; by rewrite <- Er2).
  destruct r as [a|e].
  2: { split; [done|]. destruct Ha as [He Ha]. split.
    - destruct He as [He|(d & Hd & He)]; [left; by apply (call_failed_later _ _ w2)|right; exists d; by rewrite <- Er2].
    - right. split; [done|]. destruct Ha as [Ha|[Ha|[Hn Ha]]]; [left; congruence|right; left; auto|].
      right; right. split; [|done]. intros Hk. by apply Hn, (registry_works_later w). }
  apply Hal in Ha. clear Hal.
  assert (Hq : quiet (W := W) (run installService (unit_options m o);
    run chown (join (homeDir (add_name o)) ".config") (linuxUser (add_name o)); ret tt)).
  { quiet_parts ltac:(fun _ => first [apply install_quiet | apply chown_quiet]). }
  assert (Hq' : blames (W := W) creating (run installService (unit_options m o);
    run chown (join (homeDir (add_name o)) ".config") (linuxUser (add_name o)); ret tt)).
  { unfold installService. blames_parts ltac:(fun _ => apply chown_blames). }
  eapply wp_mono; [apply (quiet_blames_wp creating); [exact Hq|exact Hq']|].
  intros r w4 [(Eu4 & Er4 & Hr4) Hb4]. rewrite Eu3 in Eu4.
  assert (Ha4 : allocated (add_name o) now w w4)
    by (destruct Ha as (a' & d & d' & ? & ? & Hd'); exists a', d, d'; by rewrite Er4).
  split; [by etrans|]. destruct r as [u|e]; [by split|].
  split; [left; by apply (call_failed_later _ _ w3), Hb4|right; split; [done|right; by left]].
Qed.

Lemma read_key_spec path w :
  wp (try_catch (do k <- read_file path; ret (Some (trim k))) (λ _, ret None)) w
    (λ r w', (∃ k, r = Ok k ∧ (k = None → is_ok (read_file path w).1 = false)) ∧
       host_users w' = host_users w ∧ host_registry w' = host_registry w ∧ reaches w w').
Proof.
  pose proof (quiet_read path w) as Hq. unfold wp, try_catch, bind.
  destruct (read_file path w) as [[t|e] w']; simpl in *; (split; [|done]); eauto; by eexists.
Qed.

(** The outcomes of [addUser], before its words are spelt out. *)
Definition addition (m : UserManager) (o : AddUserOptions) (now : string) (w : W) (res : UserManagerResult) (w' : W) : Prop :=
  let name := add_name o in
  reaches w w' ∧
  if success res then
    validateName name = None ∧ linuxUser name ∉ host_users w ∧ creation o now w (Ok tt) w'
  else
    (unchanged w w' ∧
     ((∃ e, validateName name = Some e) ∨
      (linuxUser name ∈ host_users w ∧ message res = "User " ++ quoted name ++ " already exists") ∨
      ((∃ w1, reaches w w1 ∧ is_ok (read_file (sshKeyPath o) w1).1 = false) ∧
       message res = "Cannot read SSH key: " ++ sshKeyPath o))) ∨
    (validateName name = None ∧ linuxUser name ∉ host_users w ∧
     ∃ e, message res = "Failed to create user " ++ quoted name ++ ": " ++ e ∧ creation o now w (Err e) w').

Lemma creation_from o now w w1 r w' :
  host_users w1 = host_users w → host_registry w1 = host_registry w → reaches w w1 →
  creation o now w1 r w' → creation o now w r w'.
Proof.
  intros Eu Er Hr [Hr1 Hc]. assert (Hal : allocated (add_name o) now w1 w' → allocated (add_name o) now w w')
    by (unfold allocated; by rewrite Er).
  split; [by etrans|]. unfold unchanged in *. rewrite Eu, Er in Hc. destruct r as [u|e].
  - destruct Hc as [? ?]. by split; [|apply Hal].
  - destruct Hc as [He Hc]. split.
    + destruct He as [He|He]; [left; by apply (call_failed_later _ _ w1)|right; unfold no_block in *; by rewrite <- Er].
    + destruct Hc as [?|[? [?|[?|[Hn ?]]]]]; [by left|right; split; [done|by left]|right; split; [done|]; right; left; auto|].
      right. split; [done|]. right; right. split; [|done]. intros Hk. by apply Hn, (registry_works_later w).
Qed.

Lemma add_user_spec m o now w :
  wp (addUser stringifyYaml m o now) w (λ r w', ∃ res, r = Ok res ∧ addition m o now w res w').
Proof.
  unfold addUser. destruct (validateName (add_name o)) as [e|] eqn:Ev.
  { apply wp_ret. eexists. split; [done|]. split; [apply rtc_refl|]. left. split; [done|]. left. by exists e. }
  apply wp_bind. eapply wp_mono; [apply user_exists_spec|]. intros r w1 (-> & Eu1 & Er1 & Hr1).
  case_bool_decide as Hin.
  { apply wp_ret. eexists. split; [done|]. split; [done|]. left. split; [done|]. right; left. done. }
  apply wp_bind. eapply wp_mono; [apply read_key_spec|]. intros r w2 ((k & -> & Hk) & Eu2 & Er2 & Hr2).
  rewrite Eu1 in Eu2. rewrite Er1 in Er2. assert (Hr : reaches w w2) by by etrans.
  destruct k as [key|].
  - apply wp_try, wp_bind. eapply wp_mono; [apply create_user_spec|]. intros r w3 Hc.
    apply (creation_from _ _ w) in Hc; [|done..]. pose proof Hc as [Hr3 _].
    destruct r as [[]|e]; apply wp_ret; eexists; (split; [done|]); (split; [done|]); [done|].
    right. split; [done|]. split; [done|]. by exists e.
  - apply wp_ret. eexists. split; [done|]. split; [done|]. left. split; [done|]. right; right.
    split; [|done]. exists w1. split; [done|by apply Hk].
Qed.

(** *** A removal *)

(** The registry without the block of a name. *)
Definition without (name : string) (d : PortRegistryData) : PortRegistryData :=
  match free name d with Ok (_, d') => d' | Err _ => d end.

(** The block of [name] is freed, unless the registry's file fails. *)
Definition freeing (name : string) (w w' : W) : Prop :=
  host_registry w' = without name <$> host_registry w ∨
  (¬ registry_works w ∧ (host_registry w' = host_registry w ∨ host_registry w' = None)).

Lemma port_free_spec name w :
  wp (attempt (port_free name)) w (λ r w', r = Ok tt ∧ host_users w' = host_users w ∧ reaches w w' ∧
    freeing name w w').
Proof.
  pose proof (quiet_reg_read (W := W) w) as (Eu & Er & Hr). pose proof (reg_read_gives w) as Hg.
  assert (Hn : is_ok (reg_read w).1 = false → host_registry w = None ∨ ¬ registry_works w).
  { intros Hf. destruct (host_registry w) as [d|] eqn:Ed; [right|by left]. intros Hw.
    destruct (Hw w (rtc_refl _ _)) as [Hd _]. by rewrite (Hd d Ed) in Hf. }
  unfold wp, attempt, try_catch, port_free, bind, freeing.
  destruct (reg_read w) as [[d|e] w1]; simpl in *.
  2: { split; [done|]. split; [done|]. split; [done|]. destruct (Hn eq_refl) as [E|E]; [left; by rewrite Er, E|right; auto]. }
  rewrite (Hg d eq_refl) in Er |- *. simpl. unfold without. destruct (free name d) as [[a d']|e] eqn:Ef; simpl;
    [|split; [done|]; split; [done|]; split; [done|by left]].
  generalize (reg_write_spec d' w1). unfold wp.
  destruct (reg_write d' w1) as [[[]|e] w2]; simpl; intros (Eu2 & Hr2 & Hw); rewrite Eu in Eu2;
    (split; [done|]; split; [done|]; split; [by etrans|]);
    (destruct Hw as [Hw|(Hk & _ & Hw)]; [by left|right]); rewrite Er in Hw;
    (split; [|done]); intros Hk'; by apply Hk, (registry_works_later w).
Qed.

Definition deletion (name : string) (w : W) (r : result unit) (w' : W) : Prop :=
  let reduced := host_users w' = host_users w ∖ {[linuxUser name]} in
  reaches w w' ∧
  match r with
  | Ok _ => reduced ∧ freeing name w w'
  | Err e => call_failed deleting w e ∧ (unchanged w w' ∨ ((host_users w' = host_users w ∨ reduced) ∧ freeing name w w'))
  end.

Lemma freeing_between name w w1 w2 w3 : reaches w w1 → host_registry w1 = host_registry w →
  freeing name w1 w2 → host_registry w3 = host_registry w2 → freeing name w w3.
Proof.
  unfold freeing. intros Hr E1 Hf E3. rewrite E3. rewrite E1 in Hf. destruct Hf as [?|[Hn ?]]; [by left|right].
  split; [|done]. intros Hk. by apply Hn, (registry_works_later w).
Qed.

Lemma delete_user_spec m o now w : wp (delete_user m o now) w (deletion (rm_name o) w).
Proof.
  apply wp_bind.
  eapply wp_mono; [apply (quiet_blames_wp deleting); [apply retire_quiet|apply retire_blames]|].
  intros r w1 [(Eu1 & Er1 & Hr1) Hb]. destruct r as [[]|e]; [|split; [done|]; split; [by apply Hb|by left]].
  apply wp_bind. eapply wp_mono; [apply port_free_spec|]. intros r w2 (-> & Eu2 & Hr2 & Hf).
  apply wp_bind, quiet_attempt_wp; [by apply quiet_sh|]. intros w3 Eu3 Er3 Hr3.
  rewrite Eu2, Eu1 in Eu3. apply (freeing_between _ w w1 w2 w3) in Hf; [|done..].
  assert (Hr03 : reaches w w3) by (etrans; [exact Hr1|]; by etrans).
  apply wp_bind. eapply wp_mono; [apply (wp_blames deleting); [apply blames_sh; set_solver|apply userdel_spec]|].
  intros [x|e] w4 [(Er4 & Hr4 & Eu4) Hb4]; simpl in Eu4; rewrite Eu3 in Eu4.
  - apply wp_ret. split; [by etrans|]. destruct Eu4 as [Eu4|[? _]]; [|done]. split; [done|].
    by apply (freeing_between _ w w w3 w4); [apply rtc_refl|..].
  - split; [by etrans|]. split; [by apply (call_failed_later _ _ w3), Hb4|right].
    split; [destruct Eu4 as [?|[_ ?]]; auto|]. by apply (freeing_between _ w w w3 w4); [apply rtc_refl|..].
Qed.

(** The outcomes of [removeUser]. *)
Definition removal (o : RemoveUserOptions) (w : W) (res : UserManagerResult) (w' : W) : Prop :=
  let name := rm_name o in
  reaches w w' ∧
  if success res then linuxUser name ∈ host_users w ∧ deletion name w (Ok tt) w'
  else
    (unchanged w w' ∧ ((archive o = false ∧ force o = false) ∨ linuxUser name ∉ host_users w)) ∨
    (linuxUser name ∈ host_users w ∧
     ∃ e, message res = "Failed to remove user " ++ quoted name ++ ": " ++ e ∧ deletion name w (Err e) w').

Lemma deletion_from name w w1 r w' :
  host_users w1 = host_users w → host_registry w1 = host_registry w → reaches w w1 →
  deletion name w1 r w' → deletion name w r w'.
Proof.
  intros Eu Er Hr [Hr1 Hd]. assert (Hf : freeing name w1 w' → freeing name w w')
    by (intros Hf; by apply (freeing_between _ w w1 w' w')).
  split; [by etrans|]. unfold unchanged in *. rewrite Eu, Er in Hd. destruct r as [u|e].
  - destruct Hd as [? ?]. by split; [|apply Hf].
  - destruct Hd as [He Hd]. split; [by apply (call_failed_later _ _ w1)|].
    destruct Hd as [?|[? ?]]; [by left|right; split; [done|by apply Hf]].
Qed.

Lemma remove_user_spec m o now w :
  wp (removeUser m o now) w (λ r w', ∃ res, r = Ok res ∧ removal o w res w').
Proof.
  unfold removeUser. destruct (negb (archive o) && negb (force o)) eqn:Ef.
  { apply wp_ret. eexists. split; [done|]. split; [apply rtc_refl|]. left. split; [done|]. left.
    by destruct (archive o), (force o). }
  apply wp_bind. eapply wp_mono; [apply user_exists_spec|]. intros r w1 (-> & Eu1 & Er1 & Hr1).
  case_bool_decide as Hin; simpl.
  2: { apply wp_ret. eexists. split; [done|]. split; [done|]. left. split; [done|by right]. }
  apply wp_try, wp_bind. eapply wp_mono; [apply delete_user_spec|]. intros r w2 Hd.
  apply (deletion_from _ w) in Hd; [|done..]. pose proof Hd as [Hr2 _].
  destruct r as [[]|e]; apply wp_ret; eexists; (split; [done|]); (split; [done|]); [done|].
  right. split; [done|]. by exists e.
Qed.

(** ** The invariant of a run *)

(** Every user that the registry lists exists, but for those of [gone]. *)
Record registered (gone : string → Prop) (w : W) : Prop := {
  reg_ok d : host_registry w = Some d → registry_ok d;
  reg_users d a : host_registry w = Some d → a ∈ allocations d →
    linuxUser (username a) ∈ host_users w ∨ gone (username a) }.

Lemma registered_mono gone w w' : registered gone w → host_users w ⊆ host_users w' →
  host_registry w' = host_registry w ∨ host_registry w' = None → registered gone w'.
Proof.
  intros [Ho Hu] Hs [Er|Er]; split; intros d; rewrite Er; try done; [apply Ho|]. intros a Hd Ha.
  destruct (Hu d a Hd Ha); [left; by apply Hs|by right].
Qed.

Lemma extended_keeps gone name now w w' : registered gone w →
  host_users w' = {[linuxUser name]} ∪ host_users w → allocated name now w w' → registered gone w'.
Proof.
  intros Hw Eu (a & d & d' & Ed & Ea & Er).
  pose proof (allocate_spec name now d (reg_ok _ _ Hw d Ed)) as Hs. rewrite Ea in Hs.
  destruct Hs as (Hok & _ & Hn & Hall & _). split; rewrite Er; [by intros d0 [= <-]|].
  intros d0 b [= <-] Hb. rewrite Eu. rewrite Hall in Hb. apply elem_of_app in Hb as [Hb|Hb].
  - destruct (reg_users _ _ Hw d b Ed Hb); [left; by apply elem_of_union_r|by right].
  - apply list_elem_of_singleton in Hb as ->. rewrite Hn. left. set_solver.
Qed.

Lemma without_spec name d : registry_ok d →
  registry_ok (without name d) ∧
  ∀ a, a ∈ allocations (without name d) → a ∈ allocations d ∧ username a ≠ name.
Proof.
  intros Hd. pose proof (free_ok name d Hd) as Hok. pose proof (splice_spec name (allocations d)) as Hs.
  unfold without. unfold free in *. destruct (splice_user name (allocations d)) as [[a l]|] eqn:E.
  - split; [done|]. destruct Hs as (Ha & l1 & l2 & El & -> & Hn). simpl. intros b Hb.
    rewrite El. split; [set_solver|]. destruct Hd as [_ Hu _ _]. rewrite El, map_app in Hu. simpl in Hu.
    rewrite Ha in Hu. apply NoDup_app in Hu as (_ & _ & [Hn2 _]%NoDup_cons).
    apply elem_of_app in Hb as [Hb|Hb]; intros <-; [apply Hn|apply Hn2]; by apply list_elem_of_fmap_2.
  - split; [done|]. intros b Hb. split; [done|]. intros <-. by apply Hs, list_elem_of_fmap_2.
Qed.

Lemma freed_keeps gone name w w' : registered gone w → (¬ registry_works w → gone name) →
  host_users w' = host_users w ∨ host_users w' = host_users w ∖ {[linuxUser name]} →
  freeing name w w' → registered gone w'.
Proof.
  intros Hw Hg Eu Hf. assert (Hin : ∀ n, linuxUser n ∈ host_users w → n ≠ name → linuxUser n ∈ host_users w').
  { intros n Hn Hne. destruct Eu as [->| ->]; [done|]. apply elem_of_difference. split; [done|].
    intros Heq%elem_of_singleton. by apply (inj linuxUser) in Heq. }
  destruct Hf as [Er|[Hn [Er|Er]]]; split; rewrite Er; try done.
  - intros d' (d & Hd & ->)%fmap_Some. apply (without_spec name d (reg_ok _ _ Hw d Hd)).
  - intros d' a (d & Hd & ->)%fmap_Some Ha'.
    destruct (without_spec name d (reg_ok _ _ Hw d Hd)) as [_ Ha]. destruct (Ha a Ha') as [Hd' Hne].
    destruct (reg_users _ _ Hw d a Hd Hd') as [Hu|Hu]; [left; by apply Hin|by right].
  - intros d Hd. by apply Hw.
  - intros d a Hd Ha. destruct (decide (username a = name)) as [->|Hne]; [right; by apply Hg|].
    destruct (reg_users _ _ Hw d a Hd Ha) as [Hu|Hu]; [left; by apply Hin|by right].
Qed.

Lemma creation_keeps gone o now w r w' : registered gone w → creation o now w r w' → registered gone w'.
Proof.
  intros Hw [_ Hc]. assert (He : host_users w' = {[linuxUser (add_name o)]} ∪ host_users w →
    host_registry w' = host_registry w ∨ allocated (add_name o) now w w' ∨
      ¬ registry_works w ∧ host_registry w' = None → registered gone w').
  { intros Eu Hr. destruct Hr as [Er|[Ha|[_ Er]]]; [|by apply (extended_keeps gone (add_name o) now w)|];
      (apply (registered_mono gone w); [done|rewrite Eu; set_solver|auto]). }
  destruct r as [u|e]; [destruct Hc; apply He; auto|].
  destruct Hc as [_ [[Eu Er]|[Eu Hr]]]; [|by apply He].
  apply (registered_mono gone w); [done|by rewrite Eu|by left].
Qed.

Lemma addition_keeps gone m o now w res w' : registered gone w → addition m o now w res w' → registered gone w'.
Proof.
  intros Hw [_ Ha]. destruct (success res).
  - destruct Ha as (_ & _ & Hc). by apply (creation_keeps gone o now w (Ok tt)).
  - destruct Ha as [[[Eu Er] _]|(_ & _ & e & _ & Hc)]; [|by apply (creation_keeps gone o now w (Err e))].
    apply (registered_mono gone w); [done|by rewrite Eu|by left].
Qed.

Lemma removal_keeps gone o w res w' : registered gone w → (¬ registry_works w → gone (rm_name o)) →
  removal o w res w' → registered gone w'.
Proof.
  intros Hw Hg [_ Hr]. assert (Hu : unchanged w w' → registered gone w')
    by (intros [Eu Er]; apply (registered_mono gone w); [done|by rewrite Eu|by left]).
  destruct (success res).
  - destruct Hr as (_ & _ & Eu & Hf). apply (freed_keeps gone (rm_name o) w); auto.
  - destruct Hr as [[? _]|(_ & e & _ & _ & _ & [?|[Eu Hf]])]; [auto|auto|].
    by apply (freed_keeps gone (rm_name o) w).
Qed.

(** *** The registry's file stays *)

Definition present (w : W) : Prop := is_Some (host_registry w).

Lemma allocated_present name now w w' : allocated name now w w' → present w'.
Proof. intros (a & d & d' & _ & _ & E). by exists d'. Qed.

Lemma freeing_present name w w' : registry_works w → present w → freeing name w w' → present w'.
Proof. intros Hw [d Hd] [E|[? _]]; [|done]. unfold present. rewrite E, Hd. by eexists. Qed.

Lemma unchanged_present w w' : present w → unchanged w w' → present w'.
Proof. unfold present. by intros Hp [_ ->]. Qed.

Lemma addition_present m o now w res w' : registry_works w → present w → addition m o now w res w' → present w'.
Proof.
  intros Hw Hp [_ Ha]. destruct (success res).
  - destruct Ha as (_ & _ & _ & _ & Ha). by eapply allocated_present.
  - destruct Ha as [[Hu _]|(_ & _ & e & _ & _ & _ & [Hu|[_ [Er|[Ha|[? _]]]]])]; try done;
      [by eapply unchanged_present..|unfold present; by rewrite Er|by eapply allocated_present].
Qed.

Lemma removal_present o w res w' : registry_works w → present w → removal o w res w' → present w'.
Proof.
  intros Hw Hp [_ Hr]. destruct (success res).
  - destruct Hr as (_ & _ & _ & Hf). by eapply freeing_present.
  - destruct Hr as [[Hu _]|(_ & e & _ & _ & _ & [Hu|[_ Hf]])]; [by eapply unchanged_present..|by eapply freeing_present].
Qed.

(** *** The list *)

Lemma list_users_spec w :
  wp listUsers w (λ r w', match r with
    | Ok infos => ∃ d, host_registry w = Some d ∧ map info_user infos = map username (allocations d) ∧
        map info_ports infos = map Some (allocations d)
    | Err _ => is_ok (reg_read w).1 = false
    end).
Proof.
  apply wp_bind, wp_bind. pose proof (reg_read_gives w) as Hd. unfold wp at 1.
  destruct (reg_read w) as [[d|e] w1]; simpl in *; [|done]. specialize (Hd d eq_refl). apply wp_ret.
  eapply wp_mono; [apply (wp_each (λ a, describe (username a) (Some a)) (allocations d)
    (λ done out _, map info_user out = map username done ∧ map info_ports out = map Some done) (λ _, False))|].
  - done.
  - intros a dn out w2 [H1 H2]. unfold wp, describe, succeeds, try_catch, bind.
    destruct (access_file _ w2) as [[u|e] w3]; simpl; by rewrite !map_app, H1, H2.
  - intros [infos|e] w2 Hr; [|done]. by exists d.
Qed.

Lemma listed_registered gone w : registered gone w →
  match (listUsers w).1 with
  | Ok infos =>
      Forall (λ i, linuxUser (info_user i) ∈ host_users w ∨ gone (info_user i)) infos ∧
      NoDup (map info_user infos) ∧
      (∃ d, host_registry w = Some d ∧ detectConflicts d = [] ∧ omap info_ports infos = allocations d)
  | Err _ => ¬ (registry_works w ∧ present w)
  end.
Proof.
  intros Hw. pose proof (list_users_spec w) as Hl. unfold wp in Hl. destruct (listUsers w).1 as [infos|e].
  2: { intros [Hk [d Hd]]. destruct (Hk w (rtc_refl _ _)) as [Hr _]. by rewrite (Hr d Hd) in Hl. }
  destruct Hl as (d & Ed & En & Ep). pose proof (reg_ok _ _ Hw d Ed) as Hok. split.
  - rewrite Forall_forall. intros i Hi. assert (Hin : info_user i ∈ map info_user infos) by by apply list_elem_of_fmap_2.
    rewrite En in Hin. apply elem_of_map in Hin as (a & Ha & <-). by apply (reg_users _ _ Hw d).
  - split; [rewrite En; apply Hok|]. exists d. split; [done|].
    split; [by apply conflicts_none, registry_separate|]. clear -Ep. revert Ep. generalize (allocations d).
    induction infos as [|i infos IH]; intros [|a l]; simpl; intros E; try done. injection E as E1 E2.
    rewrite E1. simpl. f_equal. by apply IH.
Qed.

(** ** An addition and its removal *)

Lemma allocate_appends name now d a d' : allocate name now d = Ok (a, d') →
  name ∉ map username (allocations d) ∧ username a = name ∧ allocatedAt a = now ∧ ports a = ports_at (basePort a) ∧
  d' = with_allocations d (allocations d ++ [a])%list.
Proof.
  intros E. unfold allocate, get in E. destruct (find _ _) eqn:Ef; [done|]. apply find_user in Ef. cbv zeta in E.
  destruct (MAX_PORT <? _)%Z; [done|]. by injection E as <- <-.
Qed.

Lemma without_added name now d a d' : allocate name now d = Ok (a, d') → without name d' = d.
Proof.
  intros (Hn & Eu & _ & _ & ->)%allocate_appends. unfold without, free. simpl.
  assert (Hs : splice_user name (allocations d ++ [a])%list = Some (a, allocations d)).
  { clear -Hn Eu. induction (allocations d) as [|b l IH]; simpl in *.
    - by rewrite bool_decide_eq_true_2.
    - apply not_elem_of_cons in Hn as [? ?]. rewrite bool_decide_eq_false_2 by done. by rewrite IH. }
  rewrite Hs. by destruct d.
Qed.

Lemma add_user_of m o now w res w' : addUser stringifyYaml m o now w = (Ok res, w') → addition m o now w res w'.
Proof.
  intros E. pose proof (add_user_spec m o now w) as (r & Hr & Ha). rewrite E in Hr, Ha. simpl in *. by simplify_eq.
Qed.

(** C26: the removal of a user that was just added, with the archive or the force flag,
    either succeeds, or reports the error of one of the calls it made: [tar], [userdel], a
    directory or a file.  After a removal that succeeded the users are as they were before
    the addition, and so is the port registry, if its file could be read and written; if
    it could not, nothing is reported, and the registry still has the block or is damaged. *)
Theorem add_remove_roundtrip m o now w res w1 ro now' :
  addUser stringifyYaml m o now w = (Ok res, w1) → success res = true →
  rm_name ro = add_name o → archive ro = true ∨ force ro = true →
  ∃ res' w2, removeUser m ro now' w1 = (Ok res', w2) ∧
    if success res' then
      host_users w2 = host_users w ∧
      (host_registry w2 = host_registry w ∨
       ¬ registry_works w1 ∧ (host_registry w2 = host_registry w1 ∨ host_registry w2 = None))
    else ∃ e, message res' = "Failed to remove user " ++ quoted (add_name o) ++ ": " ++ e ∧
      call_failed ["tar"; "userdel"] w1 e.
Proof.
  intros E1 S1 En Hf. apply add_user_of in E1 as [_ Ha]. rewrite S1 in Ha.
  destruct Ha as (_ & Hn & _ & Eu & a & d & d' & Ed & Hal & Er).
  pose proof (remove_user_spec m ro now' w1) as (r' & Hr' & _ & Hm). exists r', (removeUser m ro now' w1).2.
  split; [rewrite <- Hr'; by destruct (removeUser m ro now' w1)|]. rewrite En in Hm. destruct (success r').
  - destruct Hm as (_ & _ & Eu2 & Hfr). rewrite Eu2, Eu. split; [set_solver|].
    destruct Hfr as [Hfr|?]; [left|by right]. rewrite Hfr, Er, Ed. simpl. by rewrite (without_added _ _ _ _ _ Hal).
  - destruct Hm as [[_ [[Ea Efo]|Hn']]|(_ & e & Em & _ & Hc & _)]; [destruct Hf; congruence|set_solver|by exists e].
Qed.

(** ** Outcomes of an addition *)











End Registered.

(** ** On a host *)

Definition plain_yaml (runtime : string) (n : spec_float) : string := runtime.
Definition manager : UserManager := Manager DEFAULT_ARCHIVE_DIR DEFAULT_BINARY_PATH.
Definition add_of (name : string) : AddUserOptions := AddOptions name "/root/key.pub" None None None None.
Definition rm_of (name : string) : RemoveUserOptions := RemoveOptions name false true.

(** A host with a key and a user of sub-identifiers, whose calls fail after [n], and those
    on the registry's file after [r]. *)
Definition failing_os (n r : option nat) : sim_os :=
  SimOs ∅ (<["/root/key.pub" := "ssh-ed25519 AAAA"]> (<["/etc/subuid" := "root:100000:65536" ++ newline]> ∅))
    (Some (start_registry None None)) n r [].

Definition fresh_os (n : option nat) : sim_os := failing_os n None.

Lemma fresh_registered gone n : registered gone (fresh_os n).
Proof.
  split; simpl; intros d.
  - intros [= <-]. by apply (registry_run_ok None None []).
  - intros a [= <-] Ha. by apply elem_of_nil in Ha.
Qed.

Definition two_names : list string := ["ann"; "bob"].

Lemma sub_ids_apart_witness :
  let w := fresh_os None in
  let final := sub_ranges (default "" (host_text (allocate_all two_names w).2 "/etc/subuid")) in
  final = [(100000, 65536); (165536, 65536); (231072, 65536)]%Z ∧ length final = 3.
Proof.
  intros w final. split; [vm_compute; reflexivity|].
  apply (sub_ids_apart sim_readable two_names w (allocate_all two_names w).2 [tt; tt]).
  - by repeat constructor.
  - right. by exists "root:100000:65536".
  - vm_compute. reflexivity.
Defined.


Lemma add_remove_roundtrip_witness :
  let w := fresh_os None in
  let w1 := (addUser plain_yaml manager (add_of "ann") "t1" w).2 in
  let w2 := (removeUser manager (rm_of "ann") "t2" w1).2 in
  host_users w1 = {["flowhelm-ann"]} ∧ host_users w2 = host_users w ∧ host_registry w2 = host_registry w.
Proof.
  intros w w1 w2. split; [vm_compute; reflexivity|].
  assert (R : ∃ res' w2', removeUser manager (rm_of "ann") "t2" w1 = (Ok res', w2') ∧
    if success res' then
      host_users w2' = host_users w ∧
      (host_registry w2' = host_registry w ∨
       ¬ registry_works w1 ∧ (host_registry w2' = host_registry w1 ∨ host_registry w2' = None))
    else ∃ e, message res' = "Failed to remove user " ++ quoted "ann" ++ ": " ++ e ∧ call_failed ["tar"; "userdel"] w1 e).
  { apply (add_remove_roundtrip plain_yaml manager (add_of "ann") "t1" w
      (Outcome true ("User " ++ quoted "ann" ++ " created")) w1 (rm_of "ann") "t2");
      [vm_compute; reflexivity|reflexivity|reflexivity|by right]. }
  destruct R as (res' & w2' & E & R). assert (Hs : success res' = true).
  { assert (E' : (removeUser manager (rm_of "ann") "t2" w1).1 = Ok res') by (by rewrite E).
    vm_compute in E'. by injection E' as <-. }
  assert (Hw2 : w2' = w2) by (unfold w2; by rewrite E). rewrite Hs, Hw2 in R. destruct R as [Hu [Hr|[Hn _]]]; [by split|].
  exfalso. apply Hn. apply sim_registry_works. vm_compute. reflexivity.
Defined.

(** A command that fails in the middle leaves the user behind. *)
Example failed_addition_blocks_name :
  let w1 := (addUser plain_yaml manager (add_of "ann") "t1" (fresh_os (Some 12))) in
  w1.1 = Ok (Outcome false ("Failed to create user " ++ quoted "ann" ++ ": failed")) ∧
  host_users w1.2 = {["flowhelm-ann"]} ∧ allocations <$> host_registry w1.2 = Some [] ∧
  (addUser plain_yaml manager (add_of "ann") "t2" w1.2).1 =
    Ok (Outcome false ("User " ++ quoted "ann" ++ " already exists")).
Proof. vm_compute. repeat split; reflexivity. Qed.

(** The longest valid names give user names above the 32 characters of [useradd]. *)
Example long_name_accepted :
  let name := "abcdefghijklmnopqrstuvwx" in validateName name = None ∧ String.length (linuxUser name) = 33.
Proof. by split. Qed.

(** A registry that cannot be read during a removal keeps the block of the removed user, and
    nothing is reported. *)
Example removed_user_keeps_block :
  let w1 := (addUser plain_yaml manager (add_of "ann") "t1" (failing_os None (Some 2))).2 in
  let r := removeUser manager (rm_of "ann") "t2" w1 in
  r.1 = Ok (Outcome true ("User " ++ quoted "ann" ++ " removed")) ∧ host_users r.2 = ∅ ∧
  map username <$> (allocations <$> host_registry r.2) = Some ["ann"].
Proof. vm_compute. repeat split; reflexivity. Qed.

(** A write of the registry that fails during an addition leaves it damaged, and with it
    every further addition fails. *)
Example failed_write_damages_registry :
  let w1 := (addUser plain_yaml manager (add_of "ann") "t1" (failing_os None (Some 1))).2 in
  host_registry w1 = None ∧
  (addUser plain_yaml manager (add_of "bob") "t2" w1).1 =
    Ok (Outcome false ("Failed to create user " ++ quoted "bob" ++ ": ENOENT")).
Proof. vm_compute. repeat split; reflexivity. Qed.
