(* ===== verification/AdminLimits.v ===== *)
(** * Resource limits of users

    [src/admin/resource-limits.ts]: the control groups of a user's systemd slice, read
    from their files and set by [systemctl], and the sizes that are printed and parsed.
    Numbers of bytes are exact integers, as they are below the 53 bits of a double; the
    text of other numbers is an argument. *)

From Stdlib Require Import Ascii.
From stdpp Require Import gmap pretty.
From S2P Require Import Prelude JsMap JsString JsNumber JsParse HostFs Command HostOs PortRegistry Json.
Local Open Scope list_scope.
Local Open Scope string_scope.
Local Open Scope fh_scope.

(** ** Sizes *)

(** The multiplier of a unit as the power of two. *)
Definition unit_shift (c : ascii) : option Z :=
  let u := lower_ascii c in
  if bool_decide (u = "b"%char) then Some 0%Z
  else if bool_decide (u = "k"%char) then Some 10%Z
  else if bool_decide (u = "m"%char) then Some 20%Z
  else if bool_decide (u = "g"%char) then Some 30%Z
  else if bool_decide (u = "t"%char) then Some 40%Z
  else None.

(** [\s*(B|K|M|G|T)?$] *)
Definition unit_suffix (s : string) : option Z :=
  match trim_start s with
  | EmptyString => Some 0%Z
  | String c EmptyString => unit_shift c
  | _ => None
  end.

Definition parseSize (size : string) : result spec_float :=
  let invalid := Err ("Invalid size: " ++ quote size) in
  match decimal_prefix size with
  | Some (value, rest) =>
      match unit_suffix rest with
      | Some k => Ok (js_round (times value (double (2 ^ k))))
      | None => invalid
      end
  | None => invalid
  end.

Definition formatBytes (bytes : Z) : string :=
  (if 2 ^ 30 <=? bytes then tenths (fixed1 bytes 30) ++ "G"
   else if 2 ^ 20 <=? bytes then pretty (fixed0 bytes 20) ++ "M"
   else if 2 ^ 10 <=? bytes then pretty (fixed0 bytes 10) ++ "K"
   else pretty bytes ++ "B")%Z.

(** ** Control groups *)

Record ResourceLimits := Limits { ramLimit : option string; cpuLimit : option spec_float }.

Record ResourceUsage := Usage {
  memoryBytes : Z;
  memoryLimitBytes : Z;
  cpuUsageMicros : option Z }.    (* [None] for NaN *)

Definition CGROUPS_BASE : string := "/sys/fs/cgroup".

(** The text of [parseInt]'s result. *)
Definition int_text (n : option Z) : string := match n with Some n => pretty n | None => "NaN" end.

Definition userSlicePath (uid : option Z) : string :=
  CGROUPS_BASE ++ "/user.slice/user-" ++ int_text uid ++ ".slice".

Definition usage_line (cpuStat : string) : option string :=
  List.find (starts_with "usage_usec") (str_split "010" cpuStat).

(** [parseInt(s, 10) || 0] *)
Definition int_or_zero (s : string) : Z := default 0%Z (parseInt s).

Definition usage_of (memCurrent memMax cpuStat : string) : ResourceUsage :=
  Usage (int_or_zero memCurrent)
    (if bool_decide (memMax = "max") then 0%Z else int_or_zero memMax)
    (match usage_line cpuStat with
     | Some l => if str_truthy l then parseInt (default "0" (str_split " " l !! 1)) else Some 0%Z
     | None => Some 0%Z
     end).

Definition limits_of (memMax cpuMax : string) : ResourceLimits :=
  let ram := if bool_decide (memMax = "max") then None
             else match parseInt memMax with
                  | Some bytes => if (0 <? bytes)%Z then Some (formatBytes bytes) else None
                  | None => None
                  end in
  let cpu := if bool_decide (cpuMax = "max") then None
             else
               let parts := str_split " " cpuMax in
               match parseInt (default "0" (parts !! 0)), parseInt (default "100000" (parts !! 1)) with
               | Some quota, Some period =>
                   if (0 <? quota)%Z && (0 <? period)%Z
                   then Some (SFdiv 53 1024 (double quota) (double period)) else None
               | _, _ => None
               end in
  Limits ram cpu.

Section Operations.
Context {W : Type} `{Host W} (show : spec_float → string).

Definition isCgroupsV2Available : M W bool := succeeds (access_file (CGROUPS_BASE ++ "/cgroup.controllers")).

Definition getUid (username : string) : M W (option Z) :=
  do stdout <- sh "id" ["-u"; username] None; ret (parseInt (trim stdout)).

Definition readCgroupFile (slicePath file : string) : M W string :=
  do t <- read_file (slicePath ++ "/" ++ file); ret (trim t).

(** The reads of [Promise.all] are made in order; when one of them fails the result is
    that of the [catch] block. *)
Definition readUsage (username : string) : M W ResourceUsage :=
  try_catch
    (do uid <- getUid username;
     let slicePath := userSlicePath uid in
     do memCurrent <- readCgroupFile slicePath "memory.current";
     do memMax <- readCgroupFile slicePath "memory.max";
     do cpuStat <- readCgroupFile slicePath "cpu.stat";
     ret (usage_of memCurrent memMax cpuStat))
    (λ _, ret (Usage 0 0 (Some 0%Z))).

Definition readLimits (username : string) : M W ResourceLimits :=
  try_catch
    (do uid <- getUid username;
     let slicePath := userSlicePath uid in
     do memMax <- readCgroupFile slicePath "memory.max";
     do cpuMax <- readCgroupFile slicePath "cpu.max";
     ret (limits_of memMax cpuMax))
    (λ _, ret (Limits None None)).

Definition limit_args (limits : ResourceLimits) : list string :=
  app (if opt_truthy (ramLimit limits) then ["MemoryMax=" ++ default "" (ramLimit limits)] else [])
    (match cpuLimit limits with
     | Some cpu => ["CPUQuota=" ++ show (js_round (times cpu (double 100))) ++ "%"]
     | None => []
     end).

Definition setLimits (username : string) (limits : ResourceLimits) : M W unit :=
  do uid <- getUid username;
  let args := limit_args limits in
  if bool_decide (args = []) then ret tt
  else run sh "systemctl" ("set-property" :: ("user-" ++ int_text uid ++ ".slice") :: args) None; ret tt.
End Operations.

(** ** A size that is printed and parsed *)

#[export] Instance spec_float_eq_dec : EqDecision spec_float.
Proof. solve_decision. Defined.

#[export] Instance result_eq_dec {A} `{EqDecision A} : EqDecision (result A).
Proof. solve_decision. Defined.

(** What [parseSize] gives for the texts of [formatBytes]. *)
Definition parses_to (text : string) (n : Z) : bool := bool_decide (parseSize text = Ok (double n)).

Definition whole_parsed (suffix : string) (k : Z) (n : nat) : bool :=
  parses_to (pretty (Z.of_nat n) ++ suffix) (Z.of_nat n * 2 ^ k).

(** A number of tenths of a gigabyte, rounded to bytes. *)
Definition tenths_bytes (n : Z) : Z := ((n * 2 ^ 30 + 5) / 10)%Z.

Definition tenths_parsed (n : nat) : bool := parses_to (tenths (Z.of_nat n) ++ "G") (tenths_bytes (Z.of_nat n)).

Lemma bytes_parsed : forallb_below (whole_parsed "B" 0) 1024 = true.
Proof. vm_compute. reflexivity. Qed.
Lemma kilobytes_parsed : forallb_below (whole_parsed "K" 10) 1025 = true.
Proof. vm_compute. reflexivity. Qed.
Lemma megabytes_parsed : forallb_below (whole_parsed "M" 20) 1025 = true.
Proof. vm_compute. reflexivity. Qed.
Lemma gigabytes_parsed : forallb_below tenths_parsed 321 = true.
Proof. vm_compute. reflexivity. Qed.

(** Half of the unit that [formatBytes] prints, in bytes, rounded up. *)
Definition half_unit (bytes : Z) : Z :=
  (if 2 ^ 30 <=? bytes then 53687092 else if 2 ^ 20 <=? bytes then 2 ^ 19
   else if 2 ^ 10 <=? bytes then 2 ^ 9 else 0)%Z.

(** A size below 32 gigabytes that is printed and parsed again differs by at most
    half of the unit it was printed in. *)
Theorem size_roundtrip bytes : (0 ≤ bytes < 32 * 2 ^ 30)%Z →
  ∃ n, parseSize (formatBytes bytes) = Ok (double n) ∧ (Z.abs (n - bytes) ≤ half_unit bytes)%Z.
Proof.
  intros Hb.
  assert (Hw : ∀ suffix k m (z : Z), forallb_below (whole_parsed suffix k) m = true → (0 ≤ z < Z.of_nat m)%Z →
    parseSize (pretty z ++ suffix) = Ok (double (z * 2 ^ k))).
  { intros suffix k m z Hf Hz. pose proof (forallb_below_Z _ _ Hf z Hz) as H1.
    unfold whole_parsed, parses_to in H1. apply bool_decide_eq_true in H1. by rewrite Z2Nat.id in H1 by lia. }
  unfold formatBytes, half_unit. destruct (2 ^ 30 <=? bytes)%Z eqn:E1; bool_cases.
  - assert (Hr : (0 ≤ fixed1 bytes 30 < Z.of_nat 321)%Z) by (unfold fixed1; Z.to_euclidean_division_equations; lia).
    exists (tenths_bytes (fixed1 bytes 30)). split.
    + pose proof (forallb_below_Z _ _ gigabytes_parsed _ Hr) as H1. unfold tenths_parsed, parses_to in H1.
      apply bool_decide_eq_true in H1. by rewrite Z2Nat.id in H1 by lia.
    + unfold tenths_bytes, fixed1. Z.to_euclidean_division_equations; lia.
  - destruct (2 ^ 20 <=? bytes)%Z eqn:E2; bool_cases.
    + eexists. split; [apply (Hw "M" 20%Z 1025 _ megabytes_parsed)|]; unfold fixed0; Z.to_euclidean_division_equations; lia.
    + destruct (2 ^ 10 <=? bytes)%Z eqn:E3; bool_cases.
      * eexists. split; [apply (Hw "K" 10%Z 1025 _ kilobytes_parsed)|]; unfold fixed0; Z.to_euclidean_division_equations; lia.
      * eexists. split; [apply (Hw "B" 0%Z 1024 _ bytes_parsed)|]; lia.
Qed.

Lemma size_roundtrip_witness : ∃ n, parseSize (formatBytes 4400000000) = Ok (double n) ∧ (Z.abs (n - 4400000000) ≤ 53687092)%Z.
Proof. apply (size_roundtrip 4400000000). split; [discriminate|reflexivity]. Defined.
