(* ===== verification/AdminCli.v ===== *)
(** * The administration commands

    The [admin] commands of [src/admin/cli.ts] over the user manager, the port registry
    and the resource limits: their flags, their checks and what they print. *)

From Stdlib Require Import Ascii.
From stdpp Require Import gmap pretty.
From S2P Require Import Prelude JsMap JsString JsNumber JsParse HostFs Command HostOs Cli.
From S2P Require Import PortRegistry UserManager UserRuns AdminLimits.
Local Open Scope list_scope.
Local Open Scope string_scope.
Local Open Scope fh_scope.


Section Commands.
Context {W : Type} `{Host W}.
Context (stringifyYaml : string → spec_float → string) (show : spec_float → string).
(** [process.getuid()], [process.version], the manager and the registry of the context. *)
Context (getuid : option Z) (version : string) (m : UserManager) (registryPath : string).
Context (dfltBase dfltPerUser : option Z) (now : string).

Abbreviation command A := (cli W A).

(** ** [admin init] *)




(** ** [admin add-user] and [admin remove-user] *)







(** ** [admin status] *)





(** ** [admin set-limits] *)


(** ** Dispatch *)


End Commands.

(** ** Command lines and the invariant of the users *)

Section Lines.
Context {W : Type} `{HostLaws W}.
Context (stringifyYaml : string → spec_float → string) (show : spec_float → string).
Context (getuid : option Z) (version : string) (m : UserManager) (registryPath : string).
Context (dfltBase dfltPerUser : option Z) (per_user_positive : (0 < default DEFAULT_PORTS_PER_USER dfltPerUser)%Z).

Section Line.
(** The state in which a run began, and the users that [remove-user] lines of it name. *)
Context (w0 : W) (named : string → Prop).

Definition gone (n : string) : Prop := named n ∧ ¬ registry_works w0.

(** A step after [w0]. *)
Definition keeps (w w' : W) : Prop := reaches w0 w →
  reaches w w' ∧ (registered gone w → registered gone w') ∧ (registry_works w0 → present w → present w').

#[local] Instance keeps_refl : Reflexive keeps.
Proof. intros w _. split; [apply rtc_refl|done]. Qed.
#[local] Instance keeps_trans : Transitive keeps.
Proof.
  intros a b c H1 H2 Ha. destruct (H1 Ha) as (Hr1 & Hk1 & Hp1).
  assert (Hb : reaches w0 b) by by etrans. destruct (H2 Hb) as (Hr2 & Hk2 & Hp2).
  split; [by etrans|]. auto.
Qed.









End Line.

End Lines.

(** ** On a host *)


