(* ===== verification/IdentityCli.v ===== *)
(** * The identity and personality commands

    The commands [identity], [personality] and [setup identity] of [src/admin/cli.ts]
    on the tables of [Identity.v].  A command reads the clock when it writes: [now] is
    that time, and [now2] the time of the second write of [setup identity]. *)

From Stdlib Require Import Ascii.
From stdpp Require Import pretty.
From S2P Require Import Prelude JsMap JsString JsNumber Profiles Identity IdentityOps ChannelCommands Command Cli.
Local Open Scope list_scope.
Local Open Scope string_scope.
Local Open Scope fh_scope.

Abbreviation command A := (cli identity_db A).

Definition db_read {A} (f : identity_db → A) : command A := asks (λ c, f (inner c)).

(** A method of the managers that may throw. *)
Definition db_call {A} (f : identity_db → result (A * identity_db)) : command A :=
  lift (λ db, match f db with Ok (a, db') => (Ok a, db') | Err e => (Err e, db) end).

(** [await resolveProfileId(profileName, ctx)] *)
Definition resolveProfileId (db : identity_db) (profileName : option string) : option uuid :=
  if opt_truthy profileName then id <$> getProfileByName (tables db) (default "" profileName)
  else id <$> getDefaultProfile (tables db).

Definition no_profile (profileName : option string) : string :=
  if opt_truthy profileName then "Profile " ++ Cli.quoted (default "" profileName) ++ " not found"
  else "No default profile found".

Definition with_profile (profileName : option string) (k : uuid → command CliResult) : command CliResult :=
  do found <- db_read (λ db, resolveProfileId db profileName);
  match found with Some pid => k pid | None => fails_with (no_profile profileName) end.

(** [s.split(',').map((s) => s.trim()).filter(Boolean)] *)
Definition comma_list (s : string) : list string := List.filter str_truthy (map trim (str_split ","%char s)).

Section Commands.
Context (real : spec_float → spec_float) (now now2 : Z).

(** ** Identity *)

Definition or_none (l : list string) : string := match l with [] => "(none)" | _ => String.concat ", " l end.

Definition identityAgentShowCommand (profile : option string) : command CliResult :=
  with_profile profile (λ pid,
    do found <- db_read (λ db, getAgentIdentity db pid);
    match found with
    | None =>
        run log "No agent identity configured.";
        run log ("Set one with: flowhelm identity agent set --role " ++ Cli.quoted "...");
        done_with "No agent identity"
    | Some i =>
        run log_all ["Role:         " ++ role i; "Tone:         " ++ tone i; "Expertise:    " ++ or_none (expertise i);
                     "Instructions: " ++ default "(none)" (instructions i)];
        done_with "OK"
    end).

Record agent_options := AgentOptions {
  o_profile : option string;
  o_role : option string;
  o_tone : option string;
  o_expertise : option string;
  o_instructions : option string }.

Definition identityAgentSetCommand (o : agent_options) : command CliResult :=
  with_profile (o_profile o) (λ pid,
    do existing <- db_read (λ db, getAgentIdentity db pid);
    let new_role := coalesce (o_role o) (role <$> existing) in
    let new_tone := coalesce (o_tone o) (tone <$> existing) in
    if negb (opt_truthy new_role) || negb (opt_truthy new_tone) then
      fails_with "Both --role and --tone are required when creating agent identity"
    else
      let new_expertise := if opt_truthy (o_expertise o) then comma_list (default "" (o_expertise o))
                           else default [] (expertise <$> existing) in
      let new_instructions := coalesce (o_instructions o) (existing ≫= instructions) in
      run db_call (λ db, setAgentIdentity db now pid (default "" new_role) new_expertise (default "" new_tone)
                           new_instructions);
      run log "Agent identity updated.";
      done_with "Agent identity updated").

Definition or_unset (v : option string) : string := default "(not set)" v.

Definition identityUserShowCommand : command CliResult :=
  do found <- db_read getUserIdentity;
  match found with
  | None =>
      run log "No user identity configured.";
      run log ("Set one with: flowhelm identity user set --name " ++ Cli.quoted "...");
      done_with "No user identity"
  | Some u =>
      run log_all ["Name:         " ++ or_unset (u_name u); "Role:         " ++ or_unset (u_role u);
                   "Organization: " ++ or_unset (organization u); "Timezone:     " ++ or_unset (timezone u);
                   "Language:     " ++ default "en" (language u); "Notes:        " ++ or_unset (notes u)];
      done_with "OK"
  end.

Record user_options := UserOptions {
  o_name : option string;
  o_user_role : option string;
  o_org : option string;
  o_timezone : option string;
  o_language : option string;
  o_notes : option string }.

Definition user_fields_of (o : user_options) : user_fields :=
  UserFields (o_name o) (o_user_role o) (o_org o) (o_timezone o) (o_language o) None (o_notes o).

Definition identityUserSetCommand (o : user_options) : command CliResult :=
  let hasAny := opt_truthy (o_name o) || opt_truthy (o_user_role o) || opt_truthy (o_org o) ||
                opt_truthy (o_timezone o) || opt_truthy (o_language o) || opt_truthy (o_notes o) in
  if negb hasAny then
    fails_with "At least one field required: --name, --role, --org, --timezone, --language, --notes"
  else
    run db_call (λ db, Ok (updateUserIdentity db now (user_fields_of o)));
    run log "User identity updated.";
    done_with "User identity updated".

(** ** Personality *)

Definition set_one_with (command : string) : string :=
  "Set one with: flowhelm personality " ++ command ++ " set --dimension communication_style --content " ++ Cli.quoted "...".

Definition agent_line (e : personality_row) : string :=
  padEnd 22 (dimension e) ++ " (confidence: " ++ toFixed2 (p_confidence e) ++ ")  " ++ p_content e.

Definition user_line (e : UserPersonalityEntry) : string :=
  padEnd 22 (t_dimension e) ++ " (confidence: " ++ toFixed2 (t_confidence e) ++ ", source: " ++ t_source e ++ ")  " ++
  t_content e.

Definition dimensions_shown (n : nat) : string := pretty n ++ " dimension(s)".

Definition personalityAgentShowCommand (profile : option string) : command CliResult :=
  with_profile profile (λ pid,
    do entries <- db_read (λ db, getAgentPersonality db pid);
    match entries with
    | [] =>
        run log "No agent personality dimensions configured.";
        run log (set_one_with "agent");
        done_with "No agent personality"
    | _ => run log_all (map agent_line entries); done_with (dimensions_shown (length entries))
    end).

Definition invalid_dimension (valid : list string) : string := "Invalid dimension. Valid: " ++ String.concat ", " valid.

(** The checks of [--dimension] and [--content], then the command. *)
Definition with_dimension (valid : list string) (dim content : option string)
    (k : string → string → command CliResult) : command CliResult :=
  if negb (opt_truthy dim) || negb (opt_truthy content) then fails_with "Both --dimension and --content are required"
  else if negb (bool_decide (default "" dim ∈ valid)) then fails_with (invalid_dimension valid)
  else k (default "" dim) (default "" content).

Definition with_reset_dimension (valid : list string) (dim : option string) (k : string → command CliResult) :
    command CliResult :=
  if negb (opt_truthy dim) then fails_with "--dimension is required"
  else if negb (bool_decide (default "" dim ∈ valid)) then fails_with (invalid_dimension valid)
  else k (default "" dim).

Definition personalityAgentSetCommand (profile dim content : option string) : command CliResult :=
  with_dimension AGENT_DIMENSIONS dim content (λ d c,
    with_profile profile (λ pid,
      run db_call (λ db, observeAgentPersonality real db now pid d c);
      run log ("Agent personality " ++ Cli.quoted d ++ " updated.");
      done_with ("Agent personality " ++ Cli.quoted d ++ " updated"))).

(** What follows a reset of a dimension of [who]. *)
Definition reset_outcome (who d : string) (deleted : bool) : command CliResult :=
  if deleted then
    run log (who ++ " personality " ++ Cli.quoted d ++ " reset. The agent can re-infer it from conversation.");
    done_with (who ++ " personality " ++ Cli.quoted d ++ " reset")
  else
    run log ("No " ++ to_lower who ++ " personality " ++ Cli.quoted d ++ " found to reset.");
    done_with "Nothing to reset".

Definition personalityAgentResetCommand (profile dim : option string) : command CliResult :=
  with_reset_dimension AGENT_DIMENSIONS dim (λ d,
    with_profile profile (λ pid,
      do deleted <- db_call (λ db, Ok (deleteAgentPersonality db pid d));
      reset_outcome "Agent" d deleted)).

Definition personalityUserShowCommand : command CliResult :=
  do entries <- db_read getUserPersonality;
  match entries with
  | [] =>
      run log "No user personality dimensions configured.";
      run log (set_one_with "user");
      done_with "No user personality"
  | _ => run log_all (map user_line entries); done_with (dimensions_shown (length entries))
  end.

Definition personalityUserSetCommand (dim content : option string) : command CliResult :=
  with_dimension USER_DIMENSIONS dim content (λ d c,
    run db_call (λ db, observeUserPersonality real db now d c "declared");
    run log ("User personality " ++ Cli.quoted d ++ " updated.");
    done_with ("User personality " ++ Cli.quoted d ++ " updated")).

Definition personalityUserResetCommand (dim : option string) : command CliResult :=
  with_reset_dimension USER_DIMENSIONS dim (λ d,
    do deleted <- db_call (λ db, Ok (deleteUserPersonality db d));
    reset_outcome "User" d deleted).

(** ** [setup identity] *)

Record setup_options := SetupOptions {
  agentRole : option string;
  agentTone : option string;
  agentExpertise : option string;
  agentInstructions : option string;
  setup_user : user_options }.

(** Each part answers whether it changed anything. *)
Definition setup_agent (o : setup_options) (pid : uuid) : command bool :=
  if negb (opt_truthy (agentRole o)) then ret false
  else
    do existing <- db_read (λ db, getAgentIdentity db pid);
    let r := default "" (agentRole o) in
    let t := default "Helpful and professional" (coalesce (agentTone o) (tone <$> existing)) in
    let e := if opt_truthy (agentExpertise o) then comma_list (default "" (agentExpertise o))
             else default [] (expertise <$> existing) in
    run db_call (λ db, setAgentIdentity db now pid r e t (coalesce (agentInstructions o) (existing ≫= instructions)));
    run log ("Agent identity set: " ++ r);
    ret true.

Definition setup_user_identity (o : setup_options) : command bool :=
  let name := o_name (setup_user o) in
  if negb (opt_truthy name) then ret false
  else
    run db_call (λ db, Ok (updateUserIdentity db now2 (user_fields_of (setup_user o))));
    run log ("User identity set: " ++ default "" name);
    ret true.

Definition setup_usage : list string :=
  ["No identity fields specified."; "";
   "Usage: flowhelm setup identity \";
   "  --agent-role " ++ Cli.quoted "Personal assistant" ++ " \";
   "  --agent-tone " ++ Cli.quoted "Friendly, concise" ++ " \";
   "  --agent-expertise " ++ Cli.quoted "email,scheduling,research" ++ " \";
   "  --user-name " ++ Cli.quoted "Stan Tyan" ++ " \";
   "  --user-role " ++ Cli.quoted "CTO" ++ " \";
   "  --user-timezone " ++ Cli.quoted "Europe/Helsinki"].

Definition setupIdentityCommand (o : setup_options) : command CliResult :=
  do found <- db_read (λ db, resolveProfileId db None);
  match found with
  | None => fails_with "No default profile found. Run the orchestrator first to initialize the database."
  | Some pid =>
      do agent <- setup_agent o pid;
      do user <- setup_user_identity o;
      if negb (agent || user) then run log_all setup_usage; done_with "No changes"
      else
        run log_all [""; "Identity configured. Your agent will use this persona from the next message.";
                     "You can also adjust identity from any channel:"; "  /identity set agent role=...";
                     "  /identity set user name=..."];
        done_with "Identity configured"
  end.

(** ** Dispatch *)

Definition invalid_usage (usage text : string) : command CliResult := run print_error usage; fails_with text.

Definition dispatchIdentityCommand (args : list string) : command CliResult :=
  let flag := extractFlag args in
  let names t a := bool_decide (args !! 0 = Some t) && bool_decide (args !! 1 = Some a) in
  if names "agent" "show" then identityAgentShowCommand (flag "profile")
  else if names "agent" "set" then
    identityAgentSetCommand (AgentOptions (flag "profile") (flag "role") (flag "tone") (flag "expertise")
                               (flag "instructions"))
  else if names "user" "show" then identityUserShowCommand
  else if names "user" "set" then
    identityUserSetCommand (UserOptions (flag "name") (flag "role") (flag "org") (flag "timezone") (flag "language")
                              (flag "notes"))
  else invalid_usage "Usage: flowhelm identity <agent|user> <show|set> [flags]" "Invalid identity command".

Definition dispatchPersonalityCommand (args : list string) : command CliResult :=
  let flag := extractFlag args in
  let names t a := bool_decide (args !! 0 = Some t) && bool_decide (args !! 1 = Some a) in
  if names "agent" "show" then personalityAgentShowCommand (flag "profile")
  else if names "agent" "set" then personalityAgentSetCommand (flag "profile") (flag "dimension") (flag "content")
  else if names "agent" "reset" then personalityAgentResetCommand (flag "profile") (flag "dimension")
  else if names "user" "show" then personalityUserShowCommand
  else if names "user" "set" then personalityUserSetCommand (flag "dimension") (flag "content")
  else if names "user" "reset" then personalityUserResetCommand (flag "dimension")
  else invalid_usage "Usage: flowhelm personality <agent|user> <show|set|reset> [flags]" "Invalid personality command".
End Commands.

(** ** A command line and a message with the same fields *)

(** [--key=value] for each field. *)
Definition flag_arg (f : string * string) : string := ("--" ++ f.1 ++ "=") ++ f.2.

Definition set_agent_args (profile : string) (fields : list (string * string)) : list string :=
  (["agent"; "set"; flag_arg ("profile", profile)] ++ map flag_arg fields)%list.

Lemma flag_arg_other flag f : lacks "=" flag → lacks "=" f.1 → f.1 ≠ flag → other_arg flag (flag_arg f).
Proof.
  intros Hl Hf Hne. unfold flag_arg. destruct f as [k v]. simpl in *.
  assert (Hs : ∀ w, ("--" ++ k ++ "=") ++ w = "--" ++ k ++ String "=" w).
  { intros w. by rewrite !string_app_assoc. }
  rewrite Hs. split.
  - intros E. apply string_app_inj in E. assert (Hin : lacks "=" (k ++ String "=" v)) by by rewrite E.
    by apply lacks_middle in Hin.
  - destruct (starts_with _ _) eqn:E; [|done]. apply prefix_app in E as [w E].
    assert (E' : "--" ++ k ++ String "=" v = "--" ++ flag ++ String "=" w).
    { rewrite E. by rewrite !string_app_assoc. }
    apply string_app_inj in E'. by apply split_at_first in E' as [-> _].
Qed.

(** The flags of a list of fields are its fields. *)
Lemma extractFlag_fields before fields flag : lacks "=" flag → Forall (other_arg flag) before →
  Forall (λ f, lacks "=" f.1) fields →
  extractFlag (before ++ map flag_arg fields)%list flag = map_get fields flag.
Proof.
  intros Hl Hb Hf. rewrite extractFlag_skip by done. clear Hb. induction Hf as [|[k v] fields Hk _ IH]; [done|].
  cbn [map]. destruct (decide (k = flag)) as [->|Hne].
  - pose proof (extractFlag_equals [] flag v (map flag_arg fields) (Forall_nil_2 _)) as E.
    cbn [app] in E. unfold flag_arg at 1. cbn [fst snd]. rewrite E. simpl. by rewrite decide_True.
  - pose proof (extractFlag_skip [flag_arg (k, v)] flag (map flag_arg fields)) as E. cbn [app] in E.
    rewrite E, IH by (apply Forall_singleton; by apply flag_arg_other). simpl. by rewrite decide_False.
Qed.

Lemma clean_key_lacks f : clean_field f → lacks "=" f.1.
Proof.
  intros Hf. destruct (cf_word f Hf) as [_ Hk]. intros Hin. rewrite Forall_forall in Hk.
  by specialize (Hk _ Hin).
Qed.

(** The name of a chat's profile leads to the profile. *)
Lemma profile_by_name db chat p : profiles_ok db → getChatProfile db chat = Some p → getProfileByName db (name p) = Some p.
Proof.
  intros Hok Hp. assert (Hin : p ∈ profiles db).
  { unfold getChatProfile in Hp. destruct (List.find _ (chats db)) as [c|]; [|done]. simpl in Hp.
    apply find_some in Hp as [Hin _]. by apply list_elem_of_In. }
  unfold getProfileByName. destruct (List.find _ _) as [q|] eqn:E.
  - apply find_some in E as [Hq%list_elem_of_In Hn%bool_decide_eq_true]. f_equal.
    apply (NoDup_map_inj name (profiles db)); [by apply ok_names|done..].
  - apply list_elem_of_In in Hin. pose proof (find_none _ _ E p Hin) as Hn. simpl in Hn.
    by rewrite bool_decide_eq_true_2 in Hn.
Qed.

(** Setting the agent's identity from the command line, with the profile of a chat, and
    by a message to that chat leave the same tables, for any fields that a message can
    carry and whatever was stored before; and one of them reports success exactly when
    the other does. *)
Theorem set_agent_either_way real now chat c p fields :
  identity_ok (inner c) → getChatProfile (tables (inner c)) chat = Some p → name p ≠ "" →
  Forall clean_field fields → NoDup (map fst fields) → fields ≠ [] → "profile" ∉ map fst fields →
  let line := dispatchIdentityCommand now (set_agent_args (name p) fields) c in
  let message := handle real now chat (inner c) (set_agent_command fields) in
  inner line.2 = message.1 ∧
  (line.1 = Ok (Outcome true "Agent identity updated") ↔ message.2 = Ok (ok "Agent identity updated.")).
Proof.
  intros Hok Hp Hn Hf Hnd Hne Hprofile line message.
  assert (Hflag : ∀ k, lacks "=" k → k ≠ "profile" →
    extractFlag (set_agent_args (name p) fields) k = map_get fields k).
  { intros k Hk Hkp. unfold set_agent_args. apply extractFlag_fields; [done| |].
    - repeat (apply Forall_cons; split); [split; [discriminate|reflexivity]..| |constructor].
      apply flag_arg_other; [done|by apply (bool_decide_unpack _)|done].
    - eapply Forall_impl; [exact Hf|]. apply clean_key_lacks. }
  assert (Hpf : extractFlag (set_agent_args (name p) fields) "profile" = Some (name p)).
  { pose proof (extractFlag_skip ["agent"; "set"] "profile" (flag_arg ("profile", name p) :: map flag_arg fields)) as E.
    cbn [app] in E. unfold set_agent_args. cbn [app]. rewrite E; [apply (extractFlag_equals [] "profile"); constructor|].
    apply Forall_cons; split; [by split|]. apply Forall_singleton. by split. }
  assert (Hline : line = identityAgentSetCommand now (AgentOptions (Some (name p)) (map_get fields "role")
    (map_get fields "tone") (map_get fields "expertise") (map_get fields "instructions")) c).
  { unfold line, dispatchIdentityCommand. rewrite Hpf.
    rewrite (Hflag "role"), (Hflag "tone"), (Hflag "expertise"), (Hflag "instructions");
      [reflexivity|first [done | by apply (bool_decide_unpack _)]..]. }
  assert (Hmessage : message = identitySetAgent now chat (inner c) (tokenize (render fields))).
  { unfold message. destruct fields as [|f fields]; [done|]. by apply handle_set_agent. }
  clearbody line message. subst line message. unfold identitySetAgent, identityAgentSetCommand, with_profile.
  rewrite parse_render by done. rewrite (bool_decide_eq_false_2 (fields = [])) by done.
  unfold ChannelCommands.resolveProfileId, IdentityCli.resolveProfileId. rewrite Hp.
  assert (Ht : opt_truthy (Some (name p)) = true) by (unfold opt_truthy, str_truthy; by rewrite bool_decide_eq_false_2).
  pose proof (profile_by_name _ chat p (io_tables _ Hok) Hp) as Hname.
  cbn [o_profile o_role o_tone o_expertise o_instructions]. unfold bind, db_read, asks, db_call, lift, comma_list.
  rewrite Ht. change (default "" (Some (name p))) with (name p). cbv beta iota zeta. rewrite Hname.
  cbn [fmap option_fmap option_map]. cbv beta iota zeta. unfold or_existing. destruct (negb _ || negb _).
  { split; [done|]. split; intros E; vm_compute in E; discriminate E. }
  destruct (setAgentIdentity _ _ _ _ _ _ _) as [[row db']|e]; split; done.
Qed.

(** ** The tables stay well formed *)

Section Tables.
Context (real : spec_float → spec_float) `{!RealLaws real} (now now2 : Z).

Definition keeps_tables (db db' : identity_db) : Prop := identity_ok db → identity_ok db'.

#[local] Instance keeps_tables_refl : Reflexive keeps_tables.
Proof. intros db Hdb. exact Hdb. Qed.
#[local] Instance keeps_tables_trans : Transitive keeps_tables.
Proof. intros a b c H1 H2 Ha. by apply H2, H1. Qed.

Lemma keeps_call {A} (f : identity_db → result (A * identity_db)) :
  (∀ db a db', identity_ok db → f db = Ok (a, db') → identity_ok db') → acts keeps_tables (db_call f).
Proof.
  intros Hf. apply acts_lift. intros db Hok. destruct (f db) as [[a db']|e] eqn:E; [by eapply Hf|done].
Qed.

Lemma keeps_total {A} (f : identity_db → A * identity_db) :
  (∀ db, identity_ok db → identity_ok (f db).2) → acts keeps_tables (db_call (λ db, Ok (f db))).
Proof. intros Hf. apply keeps_call. intros db a db' Hok [= E]. specialize (Hf db Hok). by rewrite E in Hf. Qed.

Ltac table_call := first
  [ apply keeps_total; intros; first [by apply updateUser_ok | by apply deleteAgent_ok | by apply deleteUser_ok]
  | apply keeps_call; intros ? ? ? ?;
    first [by apply setAgentIdentity_ok | by apply observeAgent_ok | by apply observeUser_ok] ].

Lemma dispatch_identity_keeps args : acts keeps_tables (dispatchIdentityCommand now args).
Proof.
  unfold dispatchIdentityCommand, identityAgentShowCommand, identityAgentSetCommand, identityUserShowCommand,
    identityUserSetCommand, with_profile, invalid_usage, fails_with, done_with, db_read.
  acts_parts ltac:(fun _ => table_call).
Qed.

Lemma dispatch_personality_keeps args : acts keeps_tables (dispatchPersonalityCommand real now args).
Proof.
  unfold dispatchPersonalityCommand, personalityAgentShowCommand, personalityAgentSetCommand,
    personalityAgentResetCommand, personalityUserShowCommand, personalityUserSetCommand, personalityUserResetCommand,
    with_dimension, with_reset_dimension, reset_outcome, with_profile, invalid_usage, fails_with, done_with, db_read.
  acts_parts ltac:(fun _ => table_call).
Qed.

Lemma setup_identity_keeps o : acts keeps_tables (setupIdentityCommand now now2 o).
Proof.
  unfold setupIdentityCommand, setup_agent, setup_user_identity, fails_with, done_with, db_read.
  acts_parts ltac:(fun _ => table_call).
Qed.
End Tables.

(** ** A command line *)

Lemma set_agent_either_way_witness :
  let c := Console example_identity [] [] in
  let line := dispatchIdentityCommand 9 (set_agent_args "default" example_fields) c in
  getAgentIdentity (inner line.2) 0 = Some (Identity 0 example_role [] "dry" None 0 9) ∧
  inner line.2 = (handle (λ x, x) 9 "c1" example_identity (set_agent_command example_fields)).1.
Proof.
  intros c line. split; [vm_compute; reflexivity|].
  apply (set_agent_either_way (λ x, x) 9 "c1" c (Profile 0 "default" None true 0 0) example_fields).
  - exact example_identity_ok.
  - reflexivity.
  - discriminate.
  - exact example_fields_clean.
  - apply (bool_decide_unpack _). exact I.
  - discriminate.
  - apply (bool_decide_unpack _). exact I.
Defined.
