(* ===== verification/SkillCli.v ===== *)
(** * The skill commands

    The skill commands of [src/admin/cli.ts]: install, uninstall, list, search, info,
    update, and [dispatchCommand].  They call the store of [Skills.v] and the registry
    of [Registry.v]; every read of the clock takes the next time of a supply.  The local
    directories are given as trees by their paths; the temporary directory of a download
    is the tree itself, so its removal leaves nothing to model. *)

From Stdlib Require Import Ascii.
From stdpp Require Import gmap pretty.
From S2P Require Import Prelude JsMap JsString HostFs AgentSessions Skills SkillOps Registry Command Cli.
Local Open Scope list_scope.
Local Open Scope string_scope.
Local Open Scope fh_scope.

Record skill_cli := SkillCli { skillStore : skill_store; registryClient : registry_client; ticks : nat }.

Definition put_store (st : skill_store) (s : skill_cli) : skill_cli := SkillCli st (registryClient s) (ticks s).
Definition put_client (c : registry_client) (s : skill_cli) : skill_cli := SkillCli (skillStore s) c (ticks s).

Section Commands.
Context (clock : nat → Z) (iso : Z → string).
Context (skillsDir cwd : path) (darwin : bool) (local_dir : path → option (list dirent)).
Context (opts : RegistryClientOptions) (fetch : string → fetched)
  (parse_index : string → result (list RegistrySkillEntry)) (parse_items : string → result (list listed_item))
  (sha256 : string → string) (depth : nat).

Abbreviation command A := (cli skill_cli A).

(** ** Calls of the store and the registry *)

Definition now : command Z :=
  lift (λ s, (Ok (clock (ticks s)), SkillCli (skillStore s) (registryClient s) (S (ticks s)))).

Definition on_store {A} (f : skill_store → skill_store * result A) : command A := lift (on_part skillStore put_store f).
Definition on_client {A} (f : registry_client → registry_client * result A) : command A :=
  lift (on_part registryClient put_client f).

Definition store_manifest : command (list InstalledSkillEntry) := asks (λ c, readManifest (skillStore (inner c))).

Definition client_lookup (name : string) : command (option RegistrySkillEntry) :=
  do t <- now; on_client (λ c, lookup opts fetch parse_index c t name).
Definition client_search (query : string) : command (list RegistrySearchResult) :=
  do t <- now; on_client (λ c, search opts fetch parse_index c t query).
Definition client_download (name : string) : command (list dirent) :=
  do t <- now; on_client (λ c, download opts fetch parse_index parse_items sha256 depth c t name).
Definition store_install (source : option (list dirent)) (from : SkillSource) : command InstalledSkillEntry :=
  do t <- now; on_store (λ st, install skillsDir st (iso t) source from).
Definition store_remove (name : string) : command unit := on_store (λ st, Skills.remove skillsDir st name).

Definition source_text (s : SkillSource) : string :=
  match s with registry => "registry" | local => "local" | git => "git" end.

(** ** Install and uninstall *)

(** [path.resolve(p)] *)
Definition resolve (p : string) : path := path_join (if starts_with "/" p then [] else cwd) p.

Definition path_text (p : path) : string := "/" ++ rel_path p.

(** [fs.existsSync(path.join(dir, 'SKILL.md'))] *)
Definition has_skill_md (source : option (list dirent)) : bool :=
  match source with Some es => bool_decide ("SKILL.md" ∈ map ent_name es) | None => false end.

Definition warn (ws : list RequirementsWarning) : list string :=
  match ws with
  | [] => []
  | _ => app [""; "Requirements not yet met:"]
           (app (map (λ w, "  " ++ w_field w ++ ": " ++ String.concat ", " (missing w)) ws)
              [""; "The skill will be installed but may not be fully functional";
               "until requirements are configured."; ""])
  end.

(** What follows the choice of the source directory. *)
Definition install_from (source : option (list dirent)) (from : SkillSource) : command CliResult :=
  match readSkillMd source with
  | Err msg => fails_with ("Invalid SKILL.md: " ++ msg)
  | Ok frontmatter =>
      run log_all (warn (checkSoftRequirements darwin frontmatter None None None));
      try_catch
        (do entry <- store_install source from;
         let text := "Installed " ++ en_name entry ++ " v" ++ en_version entry in
         run log text;
         run log "Takes effect on next agent invocation.";
         done_with text)
        fails_with
  end.

Definition installCommand (nameOrPath : string) : command CliResult :=
  if starts_with "./" nameOrPath || starts_with "/" nameOrPath || starts_with "~" nameOrPath then
    let resolved := resolve nameOrPath in
    if has_skill_md (local_dir resolved) then install_from (local_dir resolved) local
    else fails_with ("No SKILL.md found in " ++ path_text resolved)
  else if starts_with "https://" nameOrPath || starts_with "git://" nameOrPath then
    fails_with "Git URL install is not yet supported. Use registry name or local path."
  else
    run log ("Fetching " ++ quoted nameOrPath ++ " from registry...");
    do source <- try_catch (do es <- client_download nameOrPath; ret (Ok es)) (λ msg, ret (Err msg));
    match source with
    | Err msg => fails_with msg
    | Ok es => install_from (Some es) registry
    end.

Definition uninstallCommand (name : string) : command CliResult :=
  try_catch
    (run store_remove name;
     let text := "Uninstalled " ++ quoted name in
     run log text;
     run log "Takes effect on next agent invocation.";
     done_with text)
    fails_with.

(** ** Reports *)

Definition built_in_lines : list string :=
  ["Built-in skills (always available):"; "  capabilities  Agent self-description"; "  status        System health report"].

Definition listed_line (s : InstalledSkillEntry) : string :=
  "  " ++ padEnd 20 (en_name s) ++ " v" ++ padEnd 10 (en_version s) ++ " (" ++ source_text (en_source s) ++ ")".

Definition listCommand : command CliResult :=
  do installed <- store_manifest;
  match installed with
  | [] =>
      run log_all (app ["No skills installed."; ""]
        (app built_in_lines [""; "Run " ++ quoted "flowhelm search <query>" ++ " to find skills to install."]));
      done_with "No skills installed"
  | _ =>
      run log_all (app ("Installed skills:" :: map listed_line installed) ("" :: built_in_lines));
      done_with (pretty (length installed) ++ " skill(s) installed")
  end.

Definition result_line (names : list string) (r : RegistrySearchResult) : string :=
  "  " ++ padEnd 20 (sr_name r) ++ " v" ++ padEnd 10 (sr_version r) ++ " " ++ sr_description r ++
  (if bool_decide (sr_name r ∈ names) then " [installed]" else "").

Definition searchCommand (query : string) : command CliResult :=
  try_catch
    (do results <- client_search query;
     match results with
     | [] => run log ("No skills found matching " ++ quoted query ++ "."); done_with "No results"
     | _ =>
         do manifest <- store_manifest;
         run log ("Results for " ++ quoted query ++ ":");
         run log_all (map (result_line (map en_name manifest)) results);
         done_with (pretty (length results) ++ " result(s)")
     end)
    fails_with.

Definition requires_line (label : string) (l : list string) : list string :=
  match l with [] => [] | _ => ["  " ++ label ++ ": " ++ String.concat ", " l] end.

Definition infoCommand (name : string) : command CliResult :=
  do entry <- asks (λ c, get (skillStore (inner c)) name);
  match entry with
  | Some e =>
      let req := en_requires e in
      run log_all (app [name ++ " v" ++ en_version e ++ " [installed]";
                        "  Source: " ++ source_text (en_source e); "  Installed: " ++ installedAt e]
        (app (requires_line "Channels" (channels req)) (app (requires_line "Binaries" (bins req))
          (app (requires_line "Env vars" (env req)) (app (requires_line "Skills" (req_skills req))
            (requires_line "OS" (os req)))))));
      done_with (name ++ " v" ++ en_version e)
  | None =>
      try_catch
        (do found <- client_lookup name;
         match found with
         | None => fails_with ("Skill " ++ quoted name ++ " not found")
         | Some r =>
             let text := re_name r ++ " v" ++ re_version r in
             run log_all [text ++ " [not installed]"; "  " ++ re_description r;
                          "  Install: flowhelm install " ++ re_name r];
             done_with text
         end)
        fails_with
  end.

(** ** Update *)

(** One installed skill; [true] when it was reinstalled. *)
Definition update_one (skill : InstalledSkillEntry) : command bool :=
  let n := en_name skill in
  try_catch
    (do found <- client_lookup n;
     match found with
     | None => run log ("  " ++ n ++ ": not found in registry, skipping"); ret false
     | Some r =>
         if bool_decide (re_version r = en_version skill) then
           run log ("  " ++ n ++ ": already up to date (v" ++ en_version skill ++ ")"); ret false
         else
           do es <- client_download n;
           run store_install (Some es) registry;
           run log ("  " ++ n ++ ": updated v" ++ en_version skill ++ " -> v" ++ re_version r);
           ret true
     end)
    (λ msg, run log ("  " ++ n ++ ": failed " ++ String "226" (String "128" (String "148" "")) ++ " " ++ msg); ret false).

Definition to_update (name : option string) (manifest : list InstalledSkillEntry) : list InstalledSkillEntry :=
  if opt_truthy name then List.filter (λ e, bool_decide (Some (en_name e) = name)) manifest
  else List.filter (λ e, match en_source e with registry => true | _ => false end) manifest.

Definition updateCommand (name : option string) : command CliResult :=
  do manifest <- store_manifest;
  match to_update name manifest with
  | [] =>
      if opt_truthy name then fails_with ("Skill " ++ quoted (default "" name) ++ " is not installed")
      else run log "No registry-installed skills to update."; done_with "Nothing to update"
  | skills =>
      do updated <- each_m update_one skills;
      let text := pretty (length (List.filter (λ b : bool, b) updated)) ++ " skill(s) updated" in
      run log text;
      done_with text
  end.

(** ** [dispatchCommand]

    A command of the skills, or the arguments that go to [dispatchSetupCommand]. *)

Definition with_argument (arg : option string) (usage absent : string) (f : string → command CliResult) :
    command CliResult :=
  if opt_truthy arg then f (default "" arg)
  else run print_error ("Usage: flowhelm " ++ usage); fails_with ("Missing " ++ absent).

Definition unknown_command (what known : string) : command CliResult :=
  run print_error what; run print_error known; fails_with what.

Definition dispatchCommand (args : list string) : command CliResult + list string :=
  let named c := bool_decide (head args = Some c) in
  if named "install" then inl (with_argument (args !! 1) "install <name|path>" "skill name" installCommand)
  else if named "uninstall" then inl (with_argument (args !! 1) "uninstall <name>" "skill name" uninstallCommand)
  else if named "list" then inl listCommand
  else if named "search" then inl (with_argument (args !! 1) "search <query>" "search query" searchCommand)
  else if named "info" then inl (with_argument (args !! 1) "info <name>" "skill name" infoCommand)
  else if named "update" then inl (updateCommand (args !! 1))
  else if named "setup" then inr (drop 1 args)
  else inl (unknown_command ("Unknown command: " ++ default "(none)" (head args))
              "Commands: install, uninstall, list, search, info, update, setup, identity, personality, admin").

(** The state after a command line of the skills. *)
Definition skill_line (c : console skill_cli) (args : list string) : console skill_cli :=
  match dispatchCommand args with inl m => (m c).2 | inr _ => c end.
End Commands.

(** ** What the commands do to the store *)

Section Store.
Context (clock : nat → Z) (iso : Z → string).
Context (skillsDir cwd : path) (darwin : bool) (local_dir : path → option (list dirent)).
Context (opts : RegistryClientOptions) (fetch : string → fetched)
  (parse_index : string → result (list RegistrySkillEntry)) (parse_items : string → result (list listed_item))
  (sha256 : string → string) (depth : nat).
(** Local directories have entries of distinct names, and so have the registry's. *)
Context (local_ok : ∀ p es, local_dir p = Some es → tree_ok es).
Context (listings_plain : ∀ body items, parse_items body = Ok items →
  NoDup (map it_name items) ∧ Forall entry_name (map it_name items)).

(** Steps of the store between two states. *)
Definition store_steps (s s' : skill_cli) : Prop :=
  ∃ ops, Forall op_ok ops ∧ skillStore s' = foldl (skill_step skillsDir) (skillStore s) ops.

#[local] Instance store_steps_refl : Reflexive store_steps.
Proof. intros s. by exists []. Qed.

#[local] Instance store_steps_trans : Transitive store_steps.
Proof.
  intros s1 s2 s3 (ops1 & H1 & E1) (ops2 & H2 & E2). exists (ops1 ++ ops2)%list.
  split; [by apply Forall_app|]. by rewrite foldl_app, <- E1.
Qed.

Lemma steps_client A (f : registry_client → registry_client * result A) : acts store_steps (on_client f).
Proof. apply acts_lift. intros s. exists []. split; [done|]. unfold on_part. by destruct (f _). Qed.

Lemma steps_now : acts store_steps (now clock).
Proof. apply acts_lift. intros s. by exists []. Qed.

Lemma steps_install source from : op_ok (Install "" source from) →
  acts store_steps (store_install clock iso skillsDir source from).
Proof.
  intros Hs. apply acts_bind; [apply _|apply steps_now|]. intros t. apply acts_lift. intros s.
  exists [Install (iso t) source from]. split; [by repeat constructor|]. unfold on_part. simpl.
  by destruct (install _ _ _ _ _).
Qed.

Lemma steps_remove name : acts store_steps (store_remove skillsDir name).
Proof.
  apply acts_lift. intros s. exists [Remove name]. split; [by repeat constructor|]. unfold on_part. simpl.
  by destruct (Skills.remove _ _ _).
Qed.

(** A download gives a tree that can be installed. *)
Lemma download_tree name c r c' : client_download clock opts fetch parse_index parse_items sha256 depth name c = (Ok r, c') →
  tree_ok r.
Proof.
  unfold client_download, bind, now, on_client, lift, on_part. cbn -[download].
  destruct (download opts fetch parse_index parse_items sha256 depth _ _ name) as [cl [es|e]] eqn:E; [|done].
  intros [= <- _]. eapply download_spec in E as [? _]; done.
Qed.

(** A command whose result is a tree, followed by one that needs it to be. *)
Lemma steps_download {A} name (k : list dirent → cli skill_cli A) : (∀ es, tree_ok es → acts store_steps (k es)) →
  acts store_steps (bind (client_download clock opts fetch parse_index parse_items sha256 depth name) k).
Proof.
  intros Hk c. unfold bind.
  assert (Hd : acts store_steps (client_download clock opts fetch parse_index parse_items sha256 depth name)).
  { unfold client_download. apply acts_bind; [apply _|apply steps_now|]. intros t. apply steps_client. }
  specialize (Hd c). destruct (client_download _ _ _ _ _ _ _ name c) as [[es|e] c'] eqn:E; simpl in *; [|done].
  etrans; [exact Hd|]. apply Hk. by eapply download_tree.
Qed.

Ltac steps := acts_parts ltac:(fun _ => first
  [ apply steps_client | apply steps_now | apply steps_remove | by apply steps_install ]).

Lemma steps_install_from source from : op_ok (Install "" source from) →
  acts store_steps (install_from clock iso skillsDir darwin source from).
Proof. intros Hs. unfold install_from. steps. Qed.

Lemma steps_install_command n :
  acts store_steps (installCommand clock iso skillsDir cwd darwin local_dir opts fetch parse_index parse_items sha256 depth n).
Proof.
  unfold installCommand. case_match.
  { case_match; [|unfold fails_with; steps]. apply steps_install_from. simpl.
    destruct (local_dir _) as [es|] eqn:E; [by apply (local_ok _ es E)|done]. }
  case_match; [unfold fails_with; steps|]. apply acts_bind; [apply _|steps|]. intros _ c.
  unfold bind, try_catch.
  assert (Hd : acts store_steps (bind (client_download clock opts fetch parse_index parse_items sha256 depth n)
    (λ es, install_from clock iso skillsDir darwin (Some es) registry))).
  { apply steps_download. intros es Hes. by apply steps_install_from. }
  specialize (Hd c). unfold bind in Hd.
  destruct (client_download _ _ _ _ _ _ _ n c) as [[es|e] c'] eqn:E; simpl in *; [exact Hd|].
  exact Hd.
Qed.

Lemma steps_update_one skill :
  acts store_steps (update_one clock iso skillsDir opts fetch parse_index parse_items sha256 depth skill).
Proof.
  unfold update_one. apply acts_try; [apply _| |intros; steps]. apply acts_bind; [apply _| |].
  { unfold client_lookup. steps. }
  intros [r|]; [|steps]. case_match; [steps|]. apply steps_download. intros es Hes. steps.
Qed.

Lemma steps_dispatch args m :
  dispatchCommand clock iso skillsDir cwd darwin local_dir opts fetch parse_index parse_items sha256 depth args = inl m →
  acts store_steps m.
Proof.
  unfold dispatchCommand, with_argument, unknown_command, fails_with.
  assert (Hu : ∀ name, acts store_steps (updateCommand clock iso skillsDir opts fetch parse_index parse_items sha256 depth name)).
  { intros name. unfold updateCommand, store_manifest, fails_with, done_with.
    acts_parts ltac:(fun _ => apply steps_update_one). }
  repeat case_match; intros [= <-]; auto using steps_install_command;
    unfold uninstallCommand, listCommand, searchCommand, infoCommand, client_search, client_lookup, store_manifest,
      fails_with, done_with; steps.
Qed.

(** Whatever command lines of the skills are run, one after the other, and whatever
    the registry answers, the store stays well formed: names are unique, what an
    installed skill requires is installed, and every installed skill has its SKILL.md. *)
Theorem skill_lines_keep_store c lines :
  installed_ok skillsDir (skillStore (inner c)) →
  installed_ok skillsDir (skillStore (inner (foldl
    (skill_line clock iso skillsDir cwd darwin local_dir opts fetch parse_index parse_items sha256 depth) c lines))).
Proof.
  intros Hc. apply (foldl_inv (λ c, installed_ok skillsDir (skillStore (inner c)))); [done|].
  clear c Hc. intros c args _ Hc. unfold skill_line. destruct (dispatchCommand _ _ _ _ _ _ _ _ _ _ _ _ args) as [m|] eqn:E; [|done].
  destruct (steps_dispatch args m E c) as (ops & Hops & ->). rewrite Forall_forall in Hops.
  apply (foldl_inv (installed_ok skillsDir)); [done|]. intros st op Hop Hst.
  specialize (Hops op Hop). destruct op as [|t [es|] from|n];
    [by apply skill_init_ok|by apply install_ok|done|by apply remove_ok].
Qed.
End Store.

(** ** On a machine *)

Definition example_dir (p : path) : option (list dirent) :=
  if bool_decide (p = ["src"; "gmail"]) then Some (example_source "gmail" "")
  else if bool_decide (p = ["src"; "calendar"]) then Some (example_source "calendar" "gmail")
  else None.

Lemma example_dir_ok p es : example_dir p = Some es → tree_ok es.
Proof. unfold example_dir. repeat case_bool_decide; intros [= <-]; apply example_source_ok. Qed.

Definition empty_cli : console skill_cli := Console (SkillCli (Store (Fs ∅ ∅) Missing) (Client None 0) 0) [] [].

Definition offline_line : console skill_cli → list string → console skill_cli :=
  skill_line Z.of_nat (λ t, pretty t) ["skills"] ["home"] false example_dir (RegistryOptions "r" "main" 1000)
    (λ _, Unreachable "offline") (λ _, Err "invalid") (λ _, Err "invalid") (λ s, s) 3.

Definition example_lines : list (list string) :=
  [["install"; "/src/calendar"]; ["install"; "/src/gmail"]; ["install"; "/src/calendar"];
   ["uninstall"; "gmail"]; ["install"; "notes"]; ["update"]].

Lemma skill_lines_keep_store_witness :
  let c := foldl offline_line empty_cli example_lines in
  names (skillStore (inner c)) = ["gmail"; "calendar"] ∧ installed_ok ["skills"] (skillStore (inner c)).
Proof.
  intros c. split; [vm_compute; reflexivity|].
  apply (skill_lines_keep_store Z.of_nat (λ t, pretty t) ["skills"] ["home"] false example_dir
    (RegistryOptions "r" "main" 1000) (λ _, Unreachable "offline") (λ _, Err "invalid") (λ _, Err "invalid")
    (λ s, s) 3 example_dir_ok (λ _ _ E, match E with eq_refl => I end) empty_cli example_lines).
  by apply no_entries_ok.
Defined.

(** A path from the home directory is not expanded: it is looked up below the working
    directory. *)
Example tilde_is_a_name :
  (installCommand Z.of_nat (λ t, pretty t) ["skills"] ["home"] false example_dir (RegistryOptions "r" "main" 1000)
     (λ _, Unreachable "offline") (λ _, Err "invalid") (λ _, Err "invalid") (λ s, s) 3 "~/gmail" empty_cli).1
  = Ok (Outcome false "No SKILL.md found in /home/~/gmail").
Proof. vm_compute. reflexivity. Qed.
